(* ===== verification/_CoqProject ===== *)
-Q . S2P
Prelude.v
ConstTime.v
RecordCbc.v
RsaPk1.v
Pqueue.v
DtlsReplay.v
DtlsRecord.v
Lhash.v
Stack.v
Buffer.v
Utf8.v
Base64.v
BioPair.v
Cbs.v
Cbb.v
Reneg.v
DtlsHeader.v
DtlsFrag.v
DtlsDeliver.v
DtlsWrite.v
Block.v
Cbc.v
Cts.v
Stream.v
Ctr.v
Cfb.v
Wrap.v
Xts.v
Ccm.v
Gcm.v
GcmMode.v
Evp.v
AesTables.v
AesSpec.v
Aes.v
AesModes.v
EvpAes.v
Md32.v
Sha2.v
Sha256.v
Sha512.v
Sha1.v
Md5.v
EvpDigest.v
Hmac.v
CbcDigest.v
EvpMac.v
TlsPrf.v
TlsRecord.v
TlsKeys.v
Poly1305.v
ChaCha.v
AeadChaCha.v
TlsAead.v
BnWords.v
BnDivWords.v
Bn.v
BnAdd.v
BnShift.v
BnWord.v
BnDiv.v
