(* ===== verification/Prelude.v ===== *)
(** * A verification of the core of vigortls

    vigortls is a TLS library in C: [src/ssl] holds the protocols, [src/crypto] the
    algorithms, encodings and containers below them, [src/include/openssl] the
    declarations of both.  This library models parts of it as executable functions
    and proves what makes them correct.

    ** The parts and how they interact

    - The DTLS handshake ([ssl/d1_both.c]) cuts messages into fragments that fit the
      MTU, keeps what was sent for retransmission, and on the other side collects
      fragments, in any order, into messages.  It stores both in priority queues
      ([ssl/pqueue/pqueue.c]), reads headers with the byte-string parser
      ([crypto/bytestring/cbs.c]) and assembles messages in growing buffers
      ([crypto/buffer/buffer.c]).  Below it the record layer ([ssl/d1_pkt.c]) drops
      records that were seen before.
    - The TLS record layer ([ssl/s3_pkt.c], [ssl/t1_enc.c]) protects and opens records
      with a cipher context and a MAC; it removes CBC padding, extracts the MAC and
      recomputes it without branching on secrets ([ssl/s3_cbc.c]).  Its keys come from
      the master secret by the pseudorandom function ([ssl/t1_enc.c]).  The RSA code
      checks PKCS #1 padding in constant time too ([crypto/rsa/rsa_pk1.c]).  Both are
      built from masks ([crypto/constant_time_locl.h]).
    - The handshake binds renegotiations to the handshake before ([ssl/t1_reneg.c]).
    - Messages and certificates are parsed and built with CBS and CBB
      ([crypto/bytestring]); strings of certificates are UTF-8
      ([crypto/asn1/a_utf8.c]).
    - The modes of operation ([crypto/modes]) turn a block cipher into encryption of
      messages; the cipher and optimised multi-block routines are their arguments.
      AES ([crypto/aes]) is such a cipher, and the cipher contexts of EVP
      ([crypto/evp/evp_enc.c], [e_aes.c]) buffer and pad for them.
    - The hash functions ([crypto/sha], [crypto/md5], on the collector of
      [crypto/md32_common.h]) are reached through the digest contexts of EVP
      ([crypto/evp/digest.c]); HMAC ([crypto/hmac]) and signing contexts for it
      ([crypto/evp/m_sigver.c], [hm_pmeth.c]) are built on those, and the
      pseudorandom function and the record MACs on these.
    - ChaCha20 and Poly1305 ([crypto/chacha], [crypto/poly1305]) are joined to
      authenticated encryption ([crypto/evp/e_chacha20poly1305.c]) behind the
      interface of [crypto/evp/evp_aead.c].
    - The big-number library ([crypto/bn]) is the arithmetic under RSA, DSA, DH and
      elliptic curves: arrays of words, numbers with a sign and an allocated array,
      addition, shifts, division.
    - Hash tables, stacks and BIO pairs ([crypto/lhash], [crypto/stack],
      [crypto/bio/bss_bio.c]) are the containers and channels of everything else.

    ** How the code is modelled

    A machine integer is a [Z], with the wrap-around of its C type written out
    ([u8], [u32], [u64]) where it can happen; [int], [unsigned] have 32 bits, [long]
    and [size_t] 64.  A buffer is the list of its bytes; writing into it is [setb] or
    [splice], which keep the length.  Structures are records, and where the code
    shares them through pointers ([Cbb], [BioPair]) they live in a heap.  A failed
    assertion, a null pointer or an access outside a buffer is a value of the result
    type, so that its absence is a theorem.  Return values are those of the code;
    results through pointers are further components.  Allocation is a parameter or
    a sequence of answers, so that every failure path is there.  Code outside the
    part at hand (block ciphers, random bytes, [qsort], the datagram BIO, callbacks
    for comparison) is an argument, with its documented behaviour as a class or a
    hypothesis and an instance that satisfies it.

    ** The files

    - [Prelude]: integers, bytes, buffers, and the tactics and lemmas of all files.
    - [ConstTime] ([constant_time_locl.h], [CRYPTO_memcmp]), [RecordCbc]
      ([s3_cbc.c]), [RsaPk1] ([rsa_pk1.c]): constant-time code equals the plain
      definition of what it computes, for every input.
    - [Pqueue] ([pqueue.c]), [DtlsReplay] ([d1_pkt.c], [d1_lib.c]), [DtlsRecord]
      ([dtls1_get_record] of [d1_pkt.c] with all it calls, [ssl3_read_n] of
      [s3_pkt.c]): the queue is a sorted finite map; the window refines the set of
      numbers received; no record is delivered twice, whatever datagrams arrive and
      through changes of epoch and records put aside, and a new one is delivered.
    - [Buffer] ([buffer.c]), [DtlsHeader], [DtlsFrag], [DtlsDeliver], [DtlsWrite]
      ([d1_both.c], [do_dtls1_write] of [d1_pkt.c]): fragments, reassembly, delivery in
      order, liveness, termination for arbitrary input, sending and retransmission
      with the sequence numbers of the records, and the composition of sender and
      receiver.
    - [Reneg] ([t1_reneg.c]): the parsers accept exactly the binding of the
      connection; both ends accept exactly when they hold the same Finished values.
    - [Lhash] ([lhash.c]), [Stack] ([stack.c], [OBJ_bsearch_ex_]), [BioPair]
      ([bss_bio.c]): refinement of finite maps, lists and bounded queues.
    - [Cbs], [Cbb] ([bytestring]), [Utf8] ([a_utf8.c]): the parsers accept exactly
      the canonical encodings, the builder produces them and never faults.
    - [Base64] ([encode.c]): streams cut anywhere encode to RFC 4648 and decode back.
    - [Block], [Cbc], [Cts], [Stream], [Ctr], [Cfb], [Wrap], [Xts], [Ccm], [Gcm],
      [GcmMode] ([crypto/modes]): every path computes the mode, decryption undoes
      encryption, data can be cut into calls anywhere, fast paths equal the generic
      ones, the tables of GHASH equal multiplication in the field.
    - [AesTables], [AesSpec], [Aes], [AesModes] ([aes_core.c], [aes_*.c]): the tables
      are those of the round function, the block functions are the cipher of FIPS 197
      and inverse to each other.
    - [Evp] ([evp_enc.c]), [EvpAes] ([e_aes.c]): contexts keep their invariant and give
      the encryption of the padded message for any cutting; decryption accepts exactly
      valid paddings.
    - [Md32] ([md32_common.h]), [Sha2], [Sha256], [Sha512], [Sha1], [Md5]: every build
      computes the hash function of its standard for any cutting of the data;
      [EvpDigest] ([digest.c]), [Hmac] ([hmac.c]), [EvpMac] ([m_sigver.c],
      [hm_pmeth.c], [pmeth_*.c]): the same through contexts, with every failure of the
      allocator.
    - [CbcDigest] ([s3_cbc.c]), [TlsPrf], [TlsRecord], [TlsKeys] ([t1_enc.c],
      [s3_pkt.c]): the constant-time MAC is the MAC; the pseudorandom function is that of
      RFC 2246 and 5246; a record is accepted exactly when it is well formed, what is
      written is read back, and both ends derive keys that are in step.
    - [Poly1305] ([poly1305.c]), [ChaCha] ([chacha*.c]), [AeadChaCha]
      ([e_chacha20poly1305.c], [evp_aead.c]): both builds of the tag compute that of
      RFC 8439 as long as no carry is dropped, the keystream is that of RFC 8439, and
      opening accepts exactly what sealing gives.  [TlsAead] ([t1_enc.c]): records under
      authenticated encryption, for any algorithm with the interface [AeadSpec]: what is
      written is read back, nothing else is accepted, and no nonce is used twice.
    - [BnWords], [BnDivWords], [Bn], [BnAdd], [BnShift], [BnWord], [BnDiv]
      ([crypto/bn]): each operation computes the arithmetic operation on values,
      keeps numbers well formed and fails only for want of memory.

    ** Bounds and fuel

    Loops that count down an array recurse on their counter.  The others have fuel,
    and a theorem says how much is enough: three rounds for the corrections in
    [bn_div_words] and for the estimates of [BN_div] (at most two corrections); for
    [dtls1_get_message] twice the bytes of input not yet read plus the messages in
    the queue, whatever the input is (its inner loops, over stale messages and over
    the bytes of a fragment to skip, return no result when their bound is reached,
    and are shown not to); for [dtls1_do_write] the bytes left to send
    plus one; for [ssl3_get_record] 34 records, since it gives up after 32 empty ones;
    for [tls1_P_hash] the bytes asked for plus one; for the loops over blocks of data
    the number of bytes.  [dtls1_get_record] has no such bound: a datagram shorter than
    the record it announces makes it loop for ever, which is a lemma.  Words of big
    numbers have 64 bits; the fields of hash tables wrap around at 32 bits and are
    shown not to do so below [2^31 - 2] items; counters of other containers are
    unbounded where their overflow would need more than 2^30 elements, which each
    file says.

    ** Not modelled

    The state machines of the handshakes ([s3_clnt.c], [s3_srvr.c], [d1_clnt.c],
    [d1_srvr.c], [s23_*.c]), extensions and sessions ([t1_lib.c], [ssl_sess.c]) drive
    certificates and public keys, which are not modelled.  Of the record layer the
    buffered reading of bytes for TLS ([ssl3_read_n] is modelled as DTLS uses it),
    pending writes and the dispatch of alerts are left out, and of the algorithms with
    the AEAD interface that of AES in GCM mode.  Of [d1_pkt.c] receiving records, the
    replay window, writing records and the path of handshake data are modelled; the
    functions that protect and open records are reached through pointers and are
    parameters there, and [dtls1_read_bytes] for application data and alerts is left
    out.  ASN.1 templates, X.509, PKCS #7 and #12,
    OCSP, PEM and configuration are planned after the encodings they rest on.  Block
    ciphers other than AES, RIPEMD, Whirlpool, GOST, engines, elliptic curves and modular
    arithmetic are not modelled.  Assembly, tables, tests, documentation and the
    applications are outside.  Freeing memory, locks, the error queue and message
    callbacks have no effect on what is proved and are left out.

    ** Plan

    Next: the handshake hash and the state machines, the AEAD of AES-GCM, Montgomery
    multiplication and modular exponentiation on the big numbers, conversion from
    BER. *)

From stdpp Require Export base list list_numbers numbers.
From Stdlib Require Export ZArith Lia.

#[global] Open Scope Z_scope.

(** ** Machine-width integers *)

Definition u8 (z : Z) : Z := z `mod` 2 ^ 8.
Definition u16 (z : Z) : Z := z `mod` 2 ^ 16.
Definition u32 (z : Z) : Z := z `mod` 2 ^ 32.
(** Conversion to [int], with wrap-around. *)
Definition s32 (z : Z) : Z := (z + 2 ^ 31) `mod` 2 ^ 32 - 2 ^ 31.
Definition u64 (z : Z) : Z := z `mod` 2 ^ 64.

Definition is_byte (b : Z) : Prop := 0 ≤ b < 256.
Abbreviation bytes l := (Forall is_byte l).

#[global] Instance is_byte_dec b : Decision (is_byte b).
Proof. unfold is_byte; apply _. Defined.

(** ** Arrays

    [nthZ l i] is [l[i]]; [splice l off src] is [memcpy(l + off, src, |src|)]
    for a destination range that lies inside [l]. *)

Definition nthZ (l : list Z) (i : nat) : Z := nth i l 0.

Definition splice {A} (l : list A) (off : nat) (src : list A) : list A :=
  take off l ++ src ++ drop (off + length src) l.

(** The same with an integer index, as the C code computes it. *)
Definition getb (l : list Z) (i : Z) : Z := nthZ l (Z.to_nat i).
Definition setb (l : list Z) (i v : Z) : list Z := <[Z.to_nat i := v]> l.

(** Bytewise exclusive or of two buffers, up to the shorter of the two. *)
Definition xor_bytes (a b : list Z) : list Z := zip_with Z.lxor a b.

(** ** Byte order *)

Definition le_load (bs : list Z) : Z := little_endian_to_Z 8 bs.
Definition le_store (n : nat) (z : Z) : list Z := Z_to_little_endian (Z.of_nat n) 8 z.
Definition be_load (bs : list Z) : Z := le_load (reverse bs).
Definition be_store (n : nat) (z : Z) : list Z := reverse (le_store n z).
#[global] Arguments le_load : simpl never.
#[global] Arguments le_store : simpl never.
#[global] Arguments be_load : simpl never.
#[global] Arguments be_store : simpl never.

(** ** Tactics and hint databases *)

Create HintDb vtls discriminated.
Create Rewrite HintDb vtls_len.

(** Case analysis on the boolean comparisons of the code. *)
Ltac case_cmp :=
  repeat match goal with
  | |- context [Z.leb ?a ?b] => destruct (Z.leb_spec a b)
  | |- context [Z.ltb ?a ?b] => destruct (Z.ltb_spec a b)
  | |- context [Z.eqb ?a ?b] => destruct (Z.eqb_spec a b)
  | |- context [Nat.leb ?a ?b] => destruct (Nat.leb_spec a b)
  | |- context [Nat.ltb ?a ?b] => destruct (Nat.ltb_spec a b)
  | |- context [Nat.eqb ?a ?b] => destruct (Nat.eqb_spec a b)
  end.

(** Normalises lengths of lists and closes the arithmetic that is left. *)
Ltac len :=
  autorewrite with vtls_len in *; cbn [length] in *; try lia.

#[export] Hint Rewrite @length_app @length_take @length_drop @length_replicate
  @length_zip_with @length_insert @length_reverse @length_fmap : vtls_len.

(** ** Arithmetic lemmas *)

Lemma is_byte_0 : is_byte 0.
Proof. unfold is_byte; lia. Qed.

Lemma u8_byte z : is_byte (u8 z).
Proof. unfold is_byte, u8. apply Z.mod_pos_bound. lia. Qed.

Lemma u8_id b : is_byte b → u8 b = b.
Proof. unfold is_byte, u8. intros. apply Z.mod_small. lia. Qed.

Lemma bounded_bits k z : 0 ≤ k →
  (0 ≤ z < 2 ^ k) ↔ (0 ≤ z ∧ ∀ i, k ≤ i → Z.testbit z i = false).
Proof.
  intros Hk. split.
  - intros Hz. split; [lia|]. intros i Hi.
    by apply (proj1 (Z.bounded_iff_bits_nonneg k z Hk ltac:(lia)) ltac:(lia)).
  - intros [H0 Hb]. split; [done|].
    apply Z.bounded_iff_bits_nonneg; [done..|]. auto.
Qed.

Lemma lxor_bound k a b : 0 ≤ k →
  0 ≤ a < 2 ^ k → 0 ≤ b < 2 ^ k → 0 ≤ Z.lxor a b < 2 ^ k.
Proof.
  intros Hk [Ha1 Ha]%bounded_bits [Hb1 Hb]%bounded_bits; [|done..].
  apply bounded_bits; [done|]. split; [apply Z.lxor_nonneg; lia|].
  intros i Hi. by rewrite Z.lxor_spec, Ha, Hb.
Qed.

Lemma lor_bound k a b : 0 ≤ k →
  0 ≤ a < 2 ^ k → 0 ≤ b < 2 ^ k → 0 ≤ Z.lor a b < 2 ^ k.
Proof.
  intros Hk [Ha1 Ha]%bounded_bits [Hb1 Hb]%bounded_bits; [|done..].
  apply bounded_bits; [done|]. split; [apply Z.lor_nonneg; lia|].
  intros i Hi. by rewrite Z.lor_spec, Ha, Hb.
Qed.

Lemma land_bound k a b : 0 ≤ k →
  0 ≤ a → 0 ≤ b < 2 ^ k → 0 ≤ Z.land a b < 2 ^ k.
Proof.
  intros Hk Ha [Hb1 Hb]%bounded_bits; [|done..].
  apply bounded_bits; [done|]. split; [apply Z.land_nonneg; lia|].
  intros i Hi. by rewrite Z.land_spec, Hb, andb_false_r.
Qed.

Lemma is_byte_lxor a b : is_byte a → is_byte b → is_byte (Z.lxor a b).
Proof. apply (lxor_bound 8). lia. Qed.

Lemma is_byte_lor a b : is_byte a → is_byte b → is_byte (Z.lor a b).
Proof. apply (lor_bound 8). lia. Qed.

(** A disjoint or is a sum: [hi << k | lo] with [lo] below [2^k]. *)
Lemma lor_shiftl_add hi lo k :
  0 ≤ k → 0 ≤ lo < 2 ^ k → Z.lor (hi ≪ k) lo = hi * 2 ^ k + lo.
Proof.
  intros Hk Hlo. rewrite Z.shiftl_mul_pow2 by done.
  assert (Z.land (hi * 2 ^ k) lo = 0) as Hd.
  { apply Z.bits_inj'. intros i Hi. rewrite Z.land_spec, Z.bits_0.
    destruct (Z.lt_ge_cases i k).
    - by rewrite Z.mul_pow2_bits_low.
    - apply bounded_bits in Hlo as [_ Hlo]; [|done]. by rewrite Hlo, andb_false_r. }
  rewrite <- Z.lxor_lor by done. symmetry. by apply Z.add_nocarry_lxor.
Qed.

Lemma lxor_cancel_r a b : Z.lxor (Z.lxor a b) b = a.
Proof. by rewrite Z.lxor_assoc, Z.lxor_nilpotent, Z.lxor_0_r. Qed.

Lemma lxor_cancel_l a b : Z.lxor b (Z.lxor b a) = a.
Proof. by rewrite <- Z.lxor_assoc, Z.lxor_nilpotent, Z.lxor_0_l. Qed.

#[export] Hint Resolve is_byte_0 u8_byte is_byte_lxor is_byte_lor : vtls.

(** ** Lists and buffers *)

Lemma length_xor_bytes a b : length (xor_bytes a b) = Nat.min (length a) (length b).
Proof. apply length_zip_with. Qed.
#[export] Hint Rewrite length_xor_bytes : vtls_len.

Lemma bytes_xor a b : bytes a → bytes b → bytes (xor_bytes a b).
Proof.
  intros Ha. revert b. induction Ha; intros [|? ?] Hb; simpl; auto.
  inversion Hb; subst. constructor; auto with vtls.
Qed.

Lemma xor_bytes_comm a b : xor_bytes a b = xor_bytes b a.
Proof.
  revert b. induction a as [|x a IH]; intros [|y b]; simpl; [done..|].
  f_equal; [apply Z.lxor_comm|apply IH].
Qed.

Lemma xor_bytes_cancel_r a b :
  (length a ≤ length b)%nat → xor_bytes (xor_bytes a b) b = a.
Proof.
  revert b. induction a as [|x a IH]; intros [|y b] Hl; simpl in *; [done|done|lia|].
  f_equal; [apply lxor_cancel_r|apply IH; lia].
Qed.

Lemma xor_bytes_cancel_l a b :
  (length a ≤ length b)%nat → xor_bytes b (xor_bytes b a) = a.
Proof. intros. rewrite (xor_bytes_comm b a), xor_bytes_comm. by apply xor_bytes_cancel_r. Qed.

Lemma xor_bytes_app a1 a2 b1 b2 : length a1 = length b1 →
  xor_bytes (a1 ++ a2) (b1 ++ b2) = xor_bytes a1 b1 ++ xor_bytes a2 b2.
Proof. apply zip_with_app. Qed.

Lemma xor_bytes_take n a b : take n (xor_bytes a b) = xor_bytes (take n a) (take n b).
Proof. apply zip_with_take. Qed.

Lemma xor_bytes_drop n a b : drop n (xor_bytes a b) = xor_bytes (drop n a) (drop n b).
Proof. apply zip_with_drop. Qed.

Lemma xor_bytes_take_r a b : xor_bytes a (take (length a) b) = xor_bytes a b.
Proof.
  revert b. induction a as [|x a IH]; intros [|y b]; simpl; [done..|]. by rewrite <- (IH b).
Qed.

Lemma xor_bytes_0_r n a : (length a ≤ n)%nat → xor_bytes a (replicate n 0) = a.
Proof.
  revert n. induction a as [|x a IH]; intros [|n] Hl; cbn in *; [done|done|lia|].
  rewrite Z.lxor_0_r. f_equal. apply IH. lia.
Qed.

Lemma bytes_take n l : bytes l → bytes (take n l).
Proof. apply Forall_take. Qed.
Lemma bytes_drop n l : bytes l → bytes (drop n l).
Proof. apply Forall_drop. Qed.
Lemma bytes_app a b : bytes a → bytes b → bytes (a ++ b).
Proof. intros. by apply Forall_app. Qed.
Lemma bytes_replicate0 n : bytes (replicate n 0).
Proof. apply Forall_replicate, is_byte_0. Qed.
Lemma bytes_reverse l : bytes l → bytes (reverse l).
Proof. apply Forall_reverse. Qed.
#[export] Hint Resolve bytes_xor bytes_take bytes_drop bytes_app bytes_replicate0
  bytes_reverse : vtls.

Lemma nthZ_lookup l i x : l !! i = Some x → nthZ l i = x.
Proof.
  unfold nthZ. revert i. induction l as [|y l IH]; intros [|i]; simpl; naive_solver.
Qed.

Lemma nthZ_byte l i : bytes l → is_byte (nthZ l i).
Proof.
  intros Hl. unfold nthZ. revert i.
  induction Hl; intros [|i]; simpl; auto with vtls.
Qed.
#[export] Hint Resolve nthZ_byte : vtls.

Lemma nthZ_insert l i j v : (i < length l)%nat →
  nthZ (<[i := v]> l) j = if decide (i = j) then v else nthZ l j.
Proof.
  intros Hi. unfold nthZ. rewrite !nth_lookup.
  destruct (decide (i = j)) as [->|].
  - by rewrite list_lookup_insert_eq.
  - by rewrite list_lookup_insert_ne.
Qed.

Lemma getb_setb l i j v : 0 ≤ i < Z.of_nat (length l) → 0 ≤ j →
  getb (setb l i v) j = if decide (i = j) then v else getb l j.
Proof.
  intros. unfold getb, setb. rewrite nthZ_insert by lia.
  repeat case_decide; try done; lia.
Qed.

Lemma length_setb l i v : length (setb l i v) = length l.
Proof. apply length_insert. Qed.
#[export] Hint Rewrite length_setb : vtls_len.

Lemma bytes_setb l i v : bytes l → is_byte v → bytes (setb l i v).
Proof. intros. by apply Forall_insert. Qed.

Lemma getb_byte l i : bytes l → is_byte (getb l i).
Proof. apply nthZ_byte. Qed.
#[export] Hint Resolve bytes_setb getb_byte : vtls.

(** Two buffers of the same length are equal when they agree at every index. *)
Lemma list_eq_getb a b : length a = length b →
  (∀ i, 0 ≤ i < Z.of_nat (length a) → getb a i = getb b i) → a = b.
Proof.
  intros Hl H. apply (nth_ext _ _ 0 0); [done|]. intros n Hn.
  specialize (H (Z.of_nat n) ltac:(lia)). unfold getb, nthZ in H. by rewrite Nat2Z.id in H.
Qed.

Lemma nthZ_take n l i : (i < n)%nat → nthZ (take n l) i = nthZ l i.
Proof.
  intros Hi. unfold nthZ. rewrite !nth_lookup. by rewrite lookup_take_lt.
Qed.

Lemma getb_take l n i : 0 ≤ i < Z.of_nat n → getb (take n l) i = getb l i.
Proof.
  intros. unfold getb, nthZ. rewrite !nth_lookup, lookup_take.
  destruct (decide (Z.to_nat i < n)%nat); [done|lia].
Qed.

Lemma getb_drop l n i : 0 ≤ i → getb (drop n l) i = getb l (Z.of_nat n + i).
Proof.
  intros. unfold getb, nthZ. rewrite !nth_lookup, lookup_drop. do 2 f_equal. lia.
Qed.

Lemma getb_app_r a b i : Z.of_nat (length a) ≤ i →
  getb (a ++ b) i = getb b (i - Z.of_nat (length a)).
Proof.
  intros. unfold getb, nthZ. rewrite !nth_lookup, lookup_app_r by lia. do 2 f_equal. lia.
Qed.

Lemma getb_app_l a b i : 0 ≤ i < Z.of_nat (length a) → getb (a ++ b) i = getb a i.
Proof.
  intros. unfold getb, nthZ. rewrite !nth_lookup, lookup_app_l by lia. done.
Qed.

Lemma getb_replicate n x i : 0 ≤ i < Z.of_nat n → getb (replicate n x) i = x.
Proof.
  intros. unfold getb, nthZ. rewrite nth_lookup, lookup_replicate_2 by lia. done.
Qed.

Lemma length_splice {A} (l : list A) off src :
  (off + length src ≤ length l)%nat → length (splice l off src) = length l.
Proof. intros. unfold splice. len. Qed.

Lemma bytes_splice l off src : bytes l → bytes src → bytes (splice l off src).
Proof. unfold splice. auto with vtls. Qed.
#[export] Hint Resolve bytes_splice : vtls.

Lemma splice_app {A} (a x y z : list A) : length x = length y →
  splice (a ++ x ++ z) (length a) y = a ++ y ++ z.
Proof.
  intros Hl. unfold splice. rewrite take_app_length, <- drop_drop, drop_app_length.
  by rewrite <- Hl, drop_app_length.
Qed.

Lemma splice_whole {A} (l src : list A) : length src = length l → splice l 0 src = src.
Proof. intros. unfold splice. rewrite take_0, drop_ge by (cbn; lia). apply app_nil_r. Qed.

(** A list of length at least [n] is a block of length [n] and a rest. *)
Lemma split_at {A} (l : list A) (n : nat) : (n ≤ length l)%nat →
  ∃ b r, l = b ++ r ∧ length b = n ∧ length r = (length l - n)%nat.
Proof.
  intros. exists (take n l), (drop n l). rewrite take_drop. repeat split; len.
Qed.

(** Replaces [take n l] and [drop n l] for [l = b ++ r] with [length b = n]. *)
Lemma take_app_exact {A} (b r : list A) n : length b = n → take n (b ++ r) = b.
Proof. intros <-. apply take_app_length. Qed.
Lemma drop_app_exact {A} (b r : list A) n : length b = n → drop n (b ++ r) = r.
Proof. intros <-. apply drop_app_length. Qed.

(** ** Byte order lemmas *)

Lemma length_le_store n z : length (le_store n z) = n.
Proof. unfold le_store. pose proof (length_Z_to_little_endian (Z.of_nat n) 8 z). lia. Qed.

Lemma bytes_le_store n z : bytes (le_store n z).
Proof. apply (Z_to_little_endian_bound (Z.of_nat n) 8 z); lia. Qed.

Lemma le_load_store n z : le_load (le_store n z) = z `mod` 2 ^ (8 * Z.of_nat n).
Proof.
  unfold le_load, le_store. rewrite little_endian_to_Z_to_little_endian by lia.
  f_equal. f_equal. lia.
Qed.

Lemma le_store_load l : bytes l → le_store (length l) (le_load l) = l.
Proof. intros. apply Z_to_little_endian_to_Z; [lia..|done]. Qed.

Lemma le_load_bound l : bytes l → 0 ≤ le_load l < 2 ^ (8 * Z.of_nat (length l)).
Proof.
  intros Hl. pose proof (little_endian_to_Z_bound 8 l ltac:(lia) Hl) as H.
  by rewrite (Z.mul_comm _ 8) in H.
Qed.

Lemma le_load_nil : le_load [] = 0.
Proof. done. Qed.

Lemma le_load_cons b l : is_byte b → le_load (b :: l) = b + 256 * le_load l.
Proof.
  intros Hb. unfold le_load. simpl.
  rewrite Z.lor_comm, lor_shiftl_add; [lia|lia|exact Hb].
Qed.

Lemma le_load_app a b : bytes a →
  le_load (a ++ b) = le_load a + 2 ^ (8 * Z.of_nat (length a)) * le_load b.
Proof.
  induction 1 as [|x a Hx Ha IH].
  - change ([] ++ b) with b. rewrite le_load_nil. simpl. lia.
  - cbn [app length]. rewrite !le_load_cons, IH by done.
    replace (8 * Z.of_nat (S (length a))) with (8 + 8 * Z.of_nat (length a)) by lia.
    rewrite Z.pow_add_r by lia. lia.
Qed.

Lemma le_load_inj a b : bytes a → bytes b → length a = length b →
  le_load a = le_load b → a = b.
Proof.
  intros Ha Hb Hl He. rewrite <- (le_store_load a), <- (le_store_load b) by done.
  by rewrite Hl, He.
Qed.

Lemma testbit_le_load_cons b l i : is_byte b → 0 ≤ i →
  Z.testbit (le_load (b :: l)) i = if i <? 8 then Z.testbit b i else Z.testbit (le_load l) (i - 8).
Proof.
  intros Hb Hi. unfold le_load. simpl. rewrite Z.lor_spec, Z.shiftl_spec by done.
  destruct (Z.ltb_spec i 8).
  - rewrite (Z.testbit_neg_r _ (i - 8)) by lia. apply orb_false_r.
  - apply (bounded_bits 8) in Hb as [_ Hb]; [|lia]. by rewrite Hb.
Qed.

(** Exclusive or of the words of two buffers is the exclusive or of the bytes. *)
Lemma le_load_xor a b : bytes a → bytes b → length a = length b →
  le_load (xor_bytes a b) = Z.lxor (le_load a) (le_load b).
Proof.
  intros Ha. revert b. induction Ha as [|x a Hx Ha IH]; intros [|y b] Hb Hl; try done.
  inversion Hb; subst. injection Hl as Hl. specialize (IH b ltac:(done) Hl).
  apply Z.bits_inj'. intros i Hi. rewrite Z.lxor_spec.
  change (xor_bytes (x :: a) (y :: b)) with (Z.lxor x y :: xor_bytes a b).
  rewrite !testbit_le_load_cons by auto with vtls.
  destruct (i <? 8); [apply Z.lxor_spec|]. by rewrite IH, Z.lxor_spec.
Qed.

Lemma le_store_xor n a b : bytes a → bytes b → length a = n → length b = n →
  le_store n (Z.lxor (le_load a) (le_load b)) = xor_bytes a b.
Proof.
  intros Ha Hb Hla Hlb. rewrite <- le_load_xor by congruence || done.
  rewrite <- (le_store_load (xor_bytes a b)) at 2 by auto with vtls.
  f_equal. len.
Qed.

Lemma length_be_store n z : length (be_store n z) = n.
Proof. unfold be_store. rewrite length_reverse. apply length_le_store. Qed.

Lemma bytes_be_store n z : bytes (be_store n z).
Proof. apply bytes_reverse, bytes_le_store. Qed.

Lemma be_load_store n z : be_load (be_store n z) = z `mod` 2 ^ (8 * Z.of_nat n).
Proof. unfold be_load, be_store. rewrite reverse_involutive. apply le_load_store. Qed.

Lemma be_store_load l : bytes l → be_store (length l) (be_load l) = l.
Proof.
  intros. unfold be_load, be_store.
  rewrite <- (length_reverse l), le_store_load by auto with vtls. apply reverse_involutive.
Qed.

Lemma be_load_bound l : bytes l → 0 ≤ be_load l < 2 ^ (8 * Z.of_nat (length l)).
Proof.
  intros. rewrite <- (length_reverse l). apply le_load_bound. auto with vtls.
Qed.

Lemma be_load_snoc l b : bytes l → is_byte b → be_load (l ++ [b]) = be_load l * 256 + b.
Proof.
  intros. unfold be_load. rewrite reverse_snoc, le_load_cons by done. lia.
Qed.

Lemma be_load_app a b : bytes b →
  be_load (a ++ b) = be_load a * 2 ^ (8 * Z.of_nat (length b)) + be_load b.
Proof.
  intros. unfold be_load. rewrite reverse_app, le_load_app, length_reverse by auto with vtls. lia.
Qed.

Lemma be_load_cons x l : is_byte x → bytes l →
  be_load (x :: l) = x * 2 ^ (8 * Z.of_nat (length l)) + be_load l.
Proof.
  intros Hx Hl. change (x :: l) with ([x] ++ l). rewrite be_load_app by done.
  change (be_load [x]) with (le_load [x]). rewrite le_load_cons, le_load_nil by done. lia.
Qed.

Lemma be_load_inj a b : bytes a → bytes b → length a = length b →
  be_load a = be_load b → a = b.
Proof.
  intros Ha Hb Hl He. apply (inj reverse). apply le_load_inj; auto with vtls. by rewrite !length_reverse.
Qed.

#[export] Hint Rewrite length_le_store length_be_store : vtls_len.
#[export] Hint Resolve bytes_le_store bytes_be_store : vtls.

Lemma be_store_mod k v m : Z.of_nat k * 8 ≤ m → be_store k (v `mod` 2 ^ m) = be_store k v.
Proof.
  intros Hm. apply be_load_inj; auto with vtls; [len|]. rewrite !be_load_store.
  symmetry. rewrite (Z.div_mod v (2 ^ m)) at 1 by (apply Z.pow_nonzero; lia).
  replace (2 ^ m) with (2 ^ (m - 8 * Z.of_nat k) * 2 ^ (8 * Z.of_nat k)) at 1
    by (rewrite <- Z.pow_add_r by lia; f_equal; lia).
  rewrite Z.add_comm, <- Z.mul_assoc, (Z.mul_comm (2 ^ (8 * Z.of_nat k))), Z.mul_assoc.
  apply Z.mod_add. apply Z.pow_nonzero; lia.
Qed.

Lemma u32_small z : 0 ≤ z < 2 ^ 32 → u32 z = z.
Proof. apply Z.mod_small. Qed.

Lemma s32_small z : - 2 ^ 31 ≤ z < 2 ^ 31 → s32 z = z.
Proof. intros. unfold s32. rewrite Z.mod_small by lia. lia. Qed.

Lemma u64_small z : 0 ≤ z < 2 ^ 64 → u64 z = z.
Proof. apply Z.mod_small. Qed.

Lemma be_store_S n v : be_store (S n) v = be_store n (v ≫ 8) ++ [u8 v].
Proof.
  unfold be_store, le_store.
  replace (Z.of_nat (S n)) with (Z.succ (Z.of_nat n)) by lia.
  rewrite Z_to_little_endian_succ by lia. rewrite reverse_cons. do 2 f_equal.
  unfold u8. rewrite Z.land_ones by lia. done.
Qed.

Lemma be_store_1 v : be_store 1 v = [u8 v].
Proof. by rewrite be_store_S. Qed.

(** One step of a big-endian counter that is updated from its last byte: byte [k]
    is replaced by [y] and the bytes before it may change further. *)
Lemma be_counter_step m m' k y : bytes m → bytes m' → length m' = length m → (k < length m)%nat →
  is_byte y → drop k m' = drop k (<[k := y]> m) →
  drop (S k) m' = drop (S k) m ∧
  be_load (take (S k) m') = be_load (take k m') * 256 + y ∧
  be_load (take (S k) m) = be_load (take k m) * 256 + nthZ m k.
Proof.
  intros Hm Hm' Hl Hk Hy D.
  assert (m' !! k = Some y) as Hk'.
  { rewrite <- (Nat.add_0_r k), <- lookup_drop, D, lookup_drop, Nat.add_0_r. by apply list_lookup_insert_eq. }
  destruct (lookup_lt_is_Some_2 m k Hk) as [x Hx]. split; [|split].
  - replace (S k) with (k + 1)%nat by lia. rewrite <- !drop_drop, D, !drop_drop. apply drop_insert_lt. lia.
  - rewrite (take_S_r m' k y Hk'). apply be_load_snoc; auto with vtls.
  - rewrite (take_S_r m k x Hx), (nthZ_lookup _ _ _ Hx). apply be_load_snoc; [auto with vtls|].
    rewrite <- (nthZ_lookup _ _ _ Hx). auto with vtls.
Qed.

(** ** Little-endian words *)

Lemma lor_add lo hi k : 0 ≤ k → 0 ≤ lo < 2 ^ k → Z.lor lo (hi ≪ k) = lo + hi * 2 ^ k.
Proof. intros. rewrite Z.lor_comm, lor_shiftl_add by done. lia. Qed.

Lemma le_load_take_bound n p : bytes p → (n ≤ length p)%nat → 0 ≤ le_load (take n p) < 2 ^ (8 * Z.of_nat n).
Proof. intros Hp Hl. pose proof (le_load_bound (take n p) (bytes_take _ _ Hp)) as H. by rewrite length_take, Nat.min_l in H by lia. Qed.

Lemma le_load_split n k p : bytes p → (n + k ≤ length p)%nat →
  le_load (take (n + k) p) = le_load (take n p) + 2 ^ (8 * Z.of_nat n) * le_load (take k (drop n p)).
Proof.
  intros Hp Hl. rewrite <- (take_take_drop p n k), le_load_app by auto with vtls. by rewrite length_take, Nat.min_l by lia.
Qed.

Lemma le_load_zeros n : le_load (replicate n 0) = 0.
Proof. induction n as [|n IH]; [done|]. cbn [replicate]. rewrite le_load_cons, IH by (unfold is_byte; lia). done. Qed.

Lemma le_store_app n m lo hi : 0 ≤ lo < 2 ^ (8 * Z.of_nat n) → le_store n lo ++ le_store m hi = le_store (n + m) (lo + 2 ^ (8 * Z.of_nat n) * hi).
Proof.
  intros Hlo. apply le_load_inj; [apply bytes_app; apply bytes_le_store|apply bytes_le_store|by rewrite length_app, !length_le_store|].
  rewrite le_load_app, !le_load_store by apply bytes_le_store. rewrite length_le_store, (Z.mod_small lo) by done.
  rewrite Nat2Z.inj_add, Z.mul_add_distr_l, Z.pow_add_r by lia. set (W := 2 ^ (8 * Z.of_nat n)) in *. set (V := 2 ^ (8 * Z.of_nat m)).
  assert (0 < V) by (apply Z.pow_pos_nonneg; lia). pose proof (Z.div_mod hi V ltac:(lia)) as E. pose proof (Z.mod_pos_bound hi V ltac:(lia)).
  apply (Z.mod_unique _ _ (hi `div` V)); [left; nia|]. rewrite E at 1. ring.
Qed.

Lemma le_store_mod n v : le_store n (v `mod` 2 ^ (8 * Z.of_nat n)) = le_store n v.
Proof.
  apply le_load_inj; [apply bytes_le_store..|by rewrite !length_le_store|]. rewrite !le_load_store. apply Z.mod_mod. apply Z.pow_nonzero; lia.
Qed.

Lemma le_store_cong n a b k : a = b + k * 2 ^ (8 * Z.of_nat n) → le_store n a = le_store n b.
Proof. intros ->. rewrite <- le_store_mod, Z.mod_add by (apply Z.pow_nonzero; lia). apply le_store_mod. Qed.

Lemma le_store_S n v : le_store (S n) v = u8 v :: le_store n (v ≫ 8).
Proof.
  unfold le_store. replace (Z.of_nat (S n)) with (Z.succ (Z.of_nat n)) by lia. rewrite Z_to_little_endian_succ by lia. unfold u8. by rewrite Z.land_ones by lia.
Qed.

(** A word of four bytes, as the load macros write it. *)
Lemma lor4_load p : bytes p → (4 ≤ length p)%nat →
  Z.lor (Z.lor (Z.lor (nthZ p 0) (nthZ p 1 ≪ 8)) (nthZ p 2 ≪ 16)) (nthZ p 3 ≪ 24) = le_load (take 4 p).
Proof.
  intros Hp Hl. destruct p as [|a [|b [|c [|d p]]]]; try (cbn in Hl; lia).
  inversion Hp as [|?? Ha Hp1]; subst. inversion Hp1 as [|?? Hb Hp2]; subst. inversion Hp2 as [|?? Hc Hp3]; subst. inversion Hp3 as [|?? Hd _]; subst.
  cbn [take]. rewrite take_0, !le_load_cons, le_load_nil by done. unfold nthZ. cbn [nth]. unfold is_byte in *.
  rewrite (lor_add a b 8), (lor_add _ c 16), (lor_add _ d 24) by lia. lia.
Qed.

(** ** Exhaustive reasoning on bytes *)

Lemma byte_forall (P : Z → bool) : forallb P (seqZ 0 256) = true → ∀ b, is_byte b → P b = true.
Proof.
  intros H b Hb. rewrite forallb_forall in H. apply H. apply list_elem_of_In, elem_of_seqZ.
  unfold is_byte in Hb. lia.
Qed.


Lemma byte_top_clear b : is_byte b → (Z.land b 0x80 =? 0) = (b <? 128).
Proof. intros Hb. apply eqb_prop. revert b Hb. apply byte_forall. vm_compute. reflexivity. Qed.

Lemma byte_low7 b : is_byte b → 128 ≤ b → Z.land b 0x7f = b - 128.
Proof.
  intros Hb H. assert ((b <? 128) || (Z.land b 0x7f =? b - 128) = true) as E.
  { revert b Hb H. intros b Hb _. revert b Hb. apply byte_forall. vm_compute. reflexivity. }
  apply orb_true_iff in E as [E|E]; [apply Z.ltb_lt in E; lia|by apply Z.eqb_eq].
Qed.

Lemma bytes_cons_inv x l : bytes (x :: l) → is_byte x ∧ bytes l.
Proof. intros H. by inversion H. Qed.
