(* ===== verification/ConstTime.v ===== *)
(** * Constant-time primitives

    Models [crypto/constant_time_locl.h] (branch-free comparisons and selection
    on [unsigned int] and [uint8_t]) and [CRYPTO_memcmp] of
    [crypto/cryptlib.c].  [unsigned int] is 32 bits wide: arguments are taken
    in [[0, 2^32)] and every operation that can leave the range is wrapped with
    [u32].  The lemmas show that each primitive returns the all-ones or the
    all-zeros mask of the comparison it is named after, which is what the record
    layer and the padding checks rely on. *)

From S2P Require Import Prelude.

Definition constant_time_msb (a : Z) : Z := u32 (0 - a ≫ 31).

Definition constant_time_lt (a b : Z) : Z :=
  constant_time_msb (Z.lxor a (Z.lor (Z.lxor a b) (Z.lxor (u32 (a - b)) b))).

Definition constant_time_lt_8 (a b : Z) : Z := u8 (constant_time_lt a b).

Definition constant_time_ge (a b : Z) : Z := u32 (Z.lnot (constant_time_lt a b)).

Definition constant_time_ge_8 (a b : Z) : Z := u8 (constant_time_ge a b).

Definition constant_time_is_zero (a : Z) : Z :=
  constant_time_msb (Z.land (u32 (Z.lnot a)) (u32 (a - 1))).

Definition constant_time_is_zero_8 (a : Z) : Z := u8 (constant_time_is_zero a).

Definition constant_time_eq (a b : Z) : Z := constant_time_is_zero (Z.lxor a b).

Definition constant_time_eq_8 (a b : Z) : Z := u8 (constant_time_eq a b).

(** The [int] arguments are converted to [unsigned] first. *)
Definition constant_time_eq_int (a b : Z) : Z := constant_time_eq (u32 a) (u32 b).

Definition constant_time_eq_int_8 (a b : Z) : Z := constant_time_eq_8 (u32 a) (u32 b).

Definition constant_time_select (mask a b : Z) : Z :=
  Z.lor (Z.land mask a) (Z.land (u32 (Z.lnot mask)) b).

Definition constant_time_select_8 (mask a b : Z) : Z := u8 (constant_time_select mask a b).

(** [(int)] of an unsigned value: two's complement. *)
Definition to_int (z : Z) : Z := if z <? 2 ^ 31 then z else z - 2 ^ 32.

Definition constant_time_select_int (mask a b : Z) : Z :=
  to_int (constant_time_select mask (u32 a) (u32 b)).

(** The loop of [CRYPTO_memcmp] accumulates the differences in a [uint8_t]. *)
Fixpoint memcmp_loop (x : Z) (a b : list Z) (len : nat) : Z :=
  match len, a, b with
  | S n, p :: a', q :: b' => memcmp_loop (Z.lor x (Z.lxor p q)) a' b' n
  | _, _, _ => x
  end.

Definition CRYPTO_memcmp (a b : list Z) (len : nat) : Z := memcmp_loop 0 a b len.

(** ** Masks *)

Definition is_u32 (z : Z) : Prop := 0 ≤ z < 2 ^ 32.

Definition mask32 (b : bool) : Z := if b then 2 ^ 32 - 1 else 0.
Definition mask8 (b : bool) : Z := if b then 255 else 0.

Lemma u32_range z : is_u32 (u32 z).
Proof. unfold is_u32, u32. apply Z.mod_pos_bound. lia. Qed.

Lemma u32_id z : is_u32 z → u32 z = z.
Proof. apply Z.mod_small. Qed.

Lemma is_u32_mask b : is_u32 (mask32 b).
Proof. unfold is_u32; destruct b; simpl; lia. Qed.

Lemma testbit_top z : is_u32 z → Z.testbit z 31 = (2 ^ 31 <=? z).
Proof.
  intros Hz. rewrite Z.testbit_eqb by lia. unfold is_u32 in Hz.
  destruct (Z.leb_spec (2 ^ 31) z).
  - replace (z `div` 2 ^ 31) with 1; [done|].
    apply (Z.div_unique z (2 ^ 31) 1 (z - 2 ^ 31)); lia.
  - rewrite Z.div_small by lia. done.
Qed.

Lemma constant_time_msb_spec a : is_u32 a →
  constant_time_msb a = mask32 (Z.testbit a 31).
Proof.
  intros Ha. rewrite testbit_top by done. unfold constant_time_msb, u32, is_u32 in *.
  rewrite Z.shiftr_div_pow2 by lia. destruct (Z.leb_spec (2 ^ 31) a).
  - replace (a `div` 2 ^ 31) with 1; [done|].
    apply (Z.div_unique a (2 ^ 31) 1 (a - 2 ^ 31)); lia.
  - rewrite Z.div_small by lia. done.
Qed.

Lemma is_u32_lxor a b : is_u32 a → is_u32 b → is_u32 (Z.lxor a b).
Proof. apply lxor_bound. lia. Qed.
Lemma is_u32_lor a b : is_u32 a → is_u32 b → is_u32 (Z.lor a b).
Proof. apply lor_bound. lia. Qed.
Lemma is_u32_land a b : is_u32 a → is_u32 b → is_u32 (Z.land a b).
Proof. intros Ha Hb. apply land_bound; [lia|apply Ha|done]. Qed.
#[export] Hint Resolve u32_range is_u32_mask is_u32_lxor is_u32_lor is_u32_land : vtls.

Lemma constant_time_lt_mask a b : is_u32 a → is_u32 b →
  constant_time_lt a b = mask32 (a <? b).
Proof.
  intros Ha Hb. unfold constant_time_lt.
  rewrite constant_time_msb_spec by auto with vtls. f_equal.
  rewrite !Z.lxor_spec, Z.lor_spec, !Z.lxor_spec, !testbit_top by auto with vtls.
  unfold is_u32, u32 in *.
  assert ((a - b) `mod` 2 ^ 32 = if a <? b then a - b + 2 ^ 32 else a - b) as ->.
  { destruct (Z.ltb_spec a b); [|apply Z.mod_small; lia].
    symmetry. apply (Z.mod_unique _ _ (-1)); lia. }
  destruct (Z.ltb_spec a b); case_cmp; simpl; try done; lia.
Qed.

Lemma lnot_mask32 b : u32 (Z.lnot (mask32 b)) = mask32 (negb b).
Proof. by destruct b. Qed.

Lemma u8_mask32 b : u8 (mask32 b) = mask8 b.
Proof. by destruct b. Qed.

Lemma constant_time_ge_mask a b : is_u32 a → is_u32 b →
  constant_time_ge a b = mask32 (b <=? a).
Proof.
  intros. unfold constant_time_ge. rewrite constant_time_lt_mask, lnot_mask32 by done.
  f_equal. symmetry. apply Z.leb_antisym.
Qed.

Lemma constant_time_ge_8_mask a b : is_u32 a → is_u32 b →
  constant_time_ge_8 a b = mask8 (b <=? a).
Proof.
  intros. unfold constant_time_ge_8. by rewrite constant_time_ge_mask, u8_mask32.
Qed.

Lemma constant_time_is_zero_mask a : is_u32 a →
  constant_time_is_zero a = mask32 (a =? 0).
Proof.
  intros Ha. unfold constant_time_is_zero.
  rewrite constant_time_msb_spec by auto with vtls. f_equal.
  rewrite Z.land_spec, !testbit_top by auto with vtls.
  unfold is_u32, u32 in *. unfold Z.lnot.
  destruct (Z.eqb_spec a 0) as [->|Hne]; [done|].
  rewrite (Z.mod_small (a - 1)) by lia.
  assert (Z.pred (- a) `mod` 2 ^ 32 = 2 ^ 32 - 1 - a) as ->.
  { symmetry. apply (Z.mod_unique _ _ (-1)); lia. }
  case_cmp; simpl; try done; lia.
Qed.

Lemma lxor_eqb_0 a b : (Z.lxor a b =? 0) = (a =? b).
Proof.
  destruct (Z.eqb_spec a b) as [->|Hne]; [by rewrite Z.lxor_nilpotent|].
  apply Z.eqb_neq. intros H. apply Hne. by apply Z.lxor_eq.
Qed.

Lemma constant_time_eq_mask a b : is_u32 a → is_u32 b →
  constant_time_eq a b = mask32 (a =? b).
Proof.
  intros. unfold constant_time_eq.
  rewrite constant_time_is_zero_mask by auto with vtls. f_equal. apply lxor_eqb_0.
Qed.

Lemma land_mask32_true a : is_u32 a → Z.land (mask32 true) a = a.
Proof.
  intros Ha. rewrite Z.land_comm. change (mask32 true) with (Z.ones 32).
  rewrite Z.land_ones by lia. by apply Z.mod_small.
Qed.

Lemma land_mask32 b a : is_u32 a → Z.land (mask32 b) a = if b then a else 0.
Proof. intros. destruct b; [by apply land_mask32_true|done]. Qed.

Lemma land_mask8 b a : is_byte a → Z.land (mask8 b) a = if b then a else 0.
Proof.
  intros Ha. destruct b; [|done]. rewrite Z.land_comm. change (mask8 true) with (Z.ones 8).
  rewrite Z.land_ones by lia. by apply Z.mod_small.
Qed.

Lemma constant_time_select_mask b x y : is_u32 x → is_u32 y →
  constant_time_select (mask32 b) x y = if b then x else y.
Proof.
  intros. unfold constant_time_select. rewrite lnot_mask32, !land_mask32 by done.
  destruct b; simpl; [apply Z.lor_0_r|done].
Qed.

(** The claim-level summary for the comparison masks and the selection. *)
Definition is_int (z : Z) : Prop := - 2 ^ 31 ≤ z < 2 ^ 31.

Lemma to_int_u32 z : is_int z → to_int (u32 z) = z.
Proof.
  unfold is_int, to_int, u32. intros. destruct (Z.ltb_spec z 0).
  - replace (z `mod` 2 ^ 32) with (z + 2 ^ 32) by (apply (Z.mod_unique _ _ (-1)); lia).
    case_cmp; lia.
  - rewrite Z.mod_small by lia. case_cmp; lia.
Qed.

Lemma constant_time_select_int_mask b x y : is_int x → is_int y →
  constant_time_select_int (mask32 b) x y = if b then x else y.
Proof.
  intros. unfold constant_time_select_int.
  rewrite constant_time_select_mask by auto with vtls. destruct b; by apply to_int_u32.
Qed.

Lemma memcmp_loop_zero x a b n :
  (n ≤ length a)%nat → (n ≤ length b)%nat →
  memcmp_loop x a b n = 0 ↔ x = 0 ∧ take n a = take n b.
Proof.
  revert x a b. induction n as [|n IH]; intros x a b Ha Hb.
  { simpl. destruct a, b; tauto. }
  destruct a as [|p a], b as [|q b]; simpl in *; [lia..|].
  rewrite IH, Z.lor_eq_0_iff, Z.lxor_eq_0_iff by lia. split; [|intros [-> [= -> ->]]; auto].
  intros [[-> ->] ->]; done.
Qed.

Lemma constant_time_eq_8_mask a b : is_u32 a → is_u32 b → constant_time_eq_8 a b = mask8 (a =? b).
Proof. intros. unfold constant_time_eq_8. by rewrite constant_time_eq_mask, u8_mask32. Qed.
