(* ===== verification/RecordCbc.v ===== *)
(** * CBC record padding and constant-time MAC extraction

    Models [tls1_cbc_remove_padding] and [ssl3_cbc_copy_mac] of
    [ssl/s3_cbc.c].  An [SSL3_RECORD] has the fields of the C structure; [data] and [input] are the buffers the two pointers point at, so that
    advancing a pointer drops a prefix.  Every quantity the code holds in an
    [unsigned] is wrapped to 32 bits.

    [padding_ok] is what the branch-free code decides, [tls_padded] what RFC 5246 asks
    for; they differ for padding of 256 bytes only.  The MAC is extracted as a plain
    sub-list. *)

From S2P Require Import Prelude ConstTime.

Record SSL3_RECORD := {
  rec_type : Z;
  rec_length : Z;
  rec_off : Z;
  rec_data : list Z;
  rec_input : list Z;
  rec_epoch : Z;
  rec_seq_num : list Z;
}.

(** Assignment of the fields the functions below change. *)
Definition set_rec (r : SSL3_RECORD) (type length : Z) (data input : list Z) : SSL3_RECORD :=
  {| rec_type := type; rec_length := length; rec_off := rec_off r; rec_data := data;
     rec_input := input; rec_epoch := rec_epoch r; rec_seq_num := rec_seq_num r |}.

(** The properties of the connection the function asks for: the protocol
    version uses an explicit IV, and the read cipher has
    [EVP_CIPH_FLAG_AEAD_CIPHER] set. *)
Record read_state := {
  SSL_USE_EXPLICIT_IV : bool;
  flag_aead_cipher : bool;
}.

(** The loop of lines 88-96. *)
Fixpoint padding_loop (data : list Z) (length padding_length : Z)
    (good i : Z) (todo : nat) : Z :=
  match todo with
  | O => good
  | S todo' =>
      let mask := constant_time_ge_8 padding_length i in
      let b := getb data (u32 (length - 1 - i)) in
      let good' := Z.land good (u32 (Z.lnot (Z.land mask (Z.lxor padding_length b)))) in
      padding_loop data length padding_length good' (i + 1) todo'
  end.

Definition tls1_cbc_check_padding (s : read_state) (rec : SSL3_RECORD)
    (overhead : Z) : Z * SSL3_RECORD :=
  let len := rec_length rec in
  let padding_length := getb (rec_data rec) (u32 (len - 1)) in
  if flag_aead_cipher s then
    (1, set_rec rec (rec_type rec) (u32 (len - u32 (padding_length + 1)))
          (rec_data rec) (rec_input rec))
  else
    let good := constant_time_ge len (u32 (overhead + padding_length)) in
    let to_check := if u32 (len - 1) <? 255 then u32 (len - 1) else 255 in
    let good := padding_loop (rec_data rec) len padding_length good 0 (Z.to_nat to_check) in
    let good := constant_time_eq 255 (Z.land good 255) in
    let padding_length := Z.land good (u32 (padding_length + 1)) in
    (constant_time_select_int good 1 (-1),
     set_rec rec (Z.lor (rec_type rec) (u32 (padding_length ≪ 8)))
       (u32 (len - padding_length)) (rec_data rec) (rec_input rec)).

Definition tls1_cbc_remove_padding (s : read_state) (rec : SSL3_RECORD)
    (block_size mac_size : Z) : Z * SSL3_RECORD :=
  let overhead := u32 (1 + mac_size) in
  if SSL_USE_EXPLICIT_IV s then
    if rec_length rec <? u32 (overhead + block_size) then (0, rec)
    else
      tls1_cbc_check_padding s
        (set_rec rec (rec_type rec) (u32 (rec_length rec - block_size))
           (drop (Z.to_nat block_size) (rec_data rec))
           (drop (Z.to_nat block_size) (rec_input rec))) overhead
  else if rec_length rec <? overhead then (0, rec)
  else tls1_cbc_check_padding s rec overhead.

Definition EVP_MAX_MD_SIZE : Z := 64.

(** Lines 215-244: the reduction of [rotate_offset] modulo [md_size], [None]
    when the final [OPENSSL_assert(0)] is reached. *)
Definition reduce_rotate_offset (md_size rotate_offset : Z) : option Z :=
  if md_size =? 16 then Some (Z.land rotate_offset 15)
  else if md_size =? 20 then
    let q := u32 (rotate_offset * 25) ≫ 9 in
    let r := u32 (rotate_offset - q * 20) in
    Some (u32 (r - constant_time_select (constant_time_ge r 20) 20 0))
  else if md_size =? 32 then Some (Z.land rotate_offset 31)
  else if md_size =? 48 then
    let q := u32 (rotate_offset * 10) ≫ 9 in
    let r := u32 (rotate_offset - q * 48) in
    Some (u32 (r - constant_time_select (constant_time_ge r 48) 48 0))
  else None.

(** Lines 246-253: the scan that leaves the MAC rotated in [rotated_mac]. *)
Fixpoint scan_loop (data : list Z) (mac_start mac_end md_size : Z)
    (rotated_mac : list Z) (i j : Z) (todo : nat) : list Z :=
  match todo with
  | O => rotated_mac
  | S todo' =>
      let mac_started := constant_time_ge_8 i mac_start in
      let mac_ended := constant_time_ge_8 i mac_end in
      let b := getb data i in
      let v := Z.land (Z.land b mac_started) (Z.lnot mac_ended) in
      let rotated_mac' := setb rotated_mac j (Z.lor (getb rotated_mac j) v) in
      let j' := u32 (j + 1) in
      scan_loop data mac_start mac_end md_size rotated_mac' (i + 1)
        (Z.land j' (constant_time_lt j' md_size)) todo'
  end.

(** Lines 257-263: rotate the MAC into place. *)
Fixpoint rotate_loop (rotated_mac : list Z) (md_size rotate_offset : Z)
    (todo : nat) : list Z :=
  match todo with
  | O => []
  | S todo' =>
      let r := u32 (rotate_offset + 1) in
      getb rotated_mac rotate_offset ::
      rotate_loop rotated_mac md_size (Z.land r (constant_time_lt r md_size)) todo'
  end.

(** [None] is the abort of a failed [OPENSSL_assert]. *)
Definition ssl3_cbc_copy_mac (rec : SSL3_RECORD) (md_size orig_len : Z)
    : option (list Z) :=
  let mac_end := rec_length rec in
  let mac_start := u32 (mac_end - md_size) in
  if (orig_len <? md_size) || (EVP_MAX_MD_SIZE <? md_size) then None
  else
    let scan_start :=
      if md_size + 255 + 1 <? orig_len then orig_len - (md_size + 255 + 1) else 0 in
    match reduce_rotate_offset md_size (u32 (mac_start - scan_start)) with
    | None => None
    | Some rotate_offset =>
        let rotated_mac :=
          scan_loop (rec_data rec) mac_start mac_end md_size
            (replicate (Z.to_nat md_size) 0) scan_start 0
            (Z.to_nat (orig_len - scan_start)) in
        Some (rotate_loop rotated_mac md_size rotate_offset (Z.to_nat md_size))
    end.

(** ** The padding check *)

(** The reference predicate the code decides, for a record of [len] bytes whose
    last byte is [pl]: there is room for the MAC, the padding and its length
    byte, and each of the [pl + 1] trailing bytes among the last 255 is [pl]. *)
Definition padding_ok (data : list Z) (len mac_size pl : Z) : Prop :=
  1 + mac_size + pl ≤ len ∧
  ∀ k, 0 ≤ k ≤ pl → k < 255 → getb data (len - 1 - k) = pl.

Lemma land_land_full a b c : Z.land (Z.land a b) c = c ↔ Z.land a c = c ∧ Z.land b c = c.
Proof.
  split.
  - intros H. split; rewrite <- H at 2; rewrite <- H at 1; apply Z.bits_inj'; intros i _;
      rewrite !Z.land_spec; destruct (Z.testbit a i), (Z.testbit b i), (Z.testbit c i); done.
  - intros [Ha Hb]. by rewrite <- Z.land_assoc, Hb.
Qed.

Lemma land_lnot_full y : is_byte y → Z.land (u32 (Z.lnot y)) 255 = 255 ↔ y = 0.
Proof.
  unfold is_byte, u32, Z.lnot. intros Hy. change 255 with (Z.ones 8) at 1.
  replace (Z.pred (- y) `mod` 2 ^ 32) with (2 ^ 32 - 1 - y) by (apply (Z.mod_unique _ _ (-1)); lia).
  rewrite Z.land_ones by lia.
  replace ((2 ^ 32 - 1 - y) `mod` 2 ^ 8) with (255 - y); [lia|].
  apply (Z.mod_unique _ _ (2 ^ 24 - 1)); lia.
Qed.

Lemma padding_loop_spec data len pl good i todo :
  bytes data → is_byte pl → 0 ≤ i → i + Z.of_nat todo < len → len < 2 ^ 32 →
  Z.land (padding_loop data len pl good i todo) 255 = 255 ↔
  Z.land good 255 = 255 ∧
  ∀ k, i ≤ k < i + Z.of_nat todo → k ≤ pl → getb data (len - 1 - k) = pl.
Proof.
  intros Hd Hpl. revert good i. induction todo as [|todo IH]; intros good i Hi Hlen Hl32.
  { simpl. split; [intros ?; split; [done|lia]|by intros [? _]]. }
  cbn [padding_loop]. rewrite IH by lia. rewrite land_land_full.
  rewrite constant_time_ge_8_mask by (unfold is_u32, is_byte in *; lia).
  rewrite (u32_id (len - 1 - i)) by (unfold is_u32; lia).
  rewrite land_lnot_full by (rewrite land_mask8 by auto with vtls; case_cmp; auto with vtls).
  rewrite land_mask8 by auto with vtls.
  assert ((if i <=? pl then Z.lxor pl (getb data (len - 1 - i)) else 0) = 0 ↔
          (i ≤ pl → getb data (len - 1 - i) = pl)) as ->.
  { destruct (Z.leb_spec i pl); [|lia]. rewrite Z.lxor_eq_0_iff. split; [by intros <-|by intros ->]. }
  split.
  - intros [[Hg Hi0] Hr]. split; [done|]. intros k Hk Hkp.
    destruct (decide (k = i)) as [->|]; [auto|apply Hr; lia].
  - intros [Hg Hr]. repeat split; [done|intros; apply Hr; lia|intros; apply Hr; lia].
Qed.

Lemma land_mask32_full b : Z.land (mask32 b) 255 = 255 ↔ b = true.
Proof. by destruct b. Qed.

Section check_padding.
Context (s : read_state) (rec : SSL3_RECORD) (mac_size : Z).
Hypothesis Haead : flag_aead_cipher s = false.
Hypothesis Hdata : bytes (rec_data rec).
Hypothesis Hmac : 1 ≤ mac_size < 2 ^ 16.
Hypothesis Hlen : 1 + mac_size ≤ rec_length rec < 2 ^ 24.

Let len := rec_length rec.
Let pl := getb (rec_data rec) (len - 1).
Let g := padding_loop (rec_data rec) len pl (constant_time_ge len (u32 (u32 (1 + mac_size) + pl)))
           0 (Z.to_nat (if len - 1 <? 255 then len - 1 else 255)).

Lemma check_padding_good : Z.land g 255 = 255 ↔ padding_ok (rec_data rec) len mac_size pl.
Proof.
  assert (is_byte pl) as Hpl by (unfold pl; auto with vtls).
  unfold g. fold len in Hlen. unfold is_byte in Hpl.
  rewrite (u32_id (1 + mac_size)), !u32_id by (unfold is_u32; rewrite ?u32_id; unfold is_u32; lia).
  rewrite padding_loop_spec by (done || (case_cmp; lia)).
  rewrite constant_time_ge_mask, land_mask32_full, Z.leb_le by (unfold is_u32; lia).
  unfold padding_ok. split; intros [H1 H2]; (split; [done|]); intros k Hk; intros;
    apply H2; revert Hk; case_cmp; lia.
Qed.

Lemma check_padding_spec :
  (padding_ok (rec_data rec) len mac_size pl ∧
   tls1_cbc_check_padding s rec (u32 (1 + mac_size)) =
     (1, set_rec rec (Z.lor (rec_type rec) ((pl + 1) ≪ 8)) (len - (pl + 1))
           (rec_data rec) (rec_input rec))) ∨
  (¬ padding_ok (rec_data rec) len mac_size pl ∧
   tls1_cbc_check_padding s rec (u32 (1 + mac_size)) = (-1, rec)).
Proof.
  assert (is_byte pl) as Hpl by (unfold pl; auto with vtls).
  unfold is_byte in Hpl. fold len in Hlen.
  unfold tls1_cbc_check_padding. rewrite Haead. cbv zeta. fold len.
  rewrite !(u32_id (len - 1)) by (unfold is_u32; lia). fold pl. fold g.
  assert (is_u32 (Z.land g 255)) as Hg32.
  { split; [apply Z.land_nonneg; lia|]. pose proof (Z.land_ones g 8 ltac:(lia)) as E.
    change (Z.ones 8) with 255 in E. rewrite E.
    pose proof (Z.mod_pos_bound g (2 ^ 8)). lia. }
  rewrite constant_time_eq_mask by (unfold is_u32 in *; lia).
  rewrite constant_time_select_int_mask by (unfold is_int; lia).
  rewrite land_mask32 by auto with vtls.
  destruct (Z.eqb_spec 255 (Z.land g 255)) as [He|Hne].
  - left. split; [by apply check_padding_good|].
    rewrite !(u32_id (pl + 1)) by (unfold is_u32; lia).
    assert (pl + 1 ≤ len).
    { pose proof (proj1 check_padding_good (eq_sym He)) as [? _]. lia. }
    rewrite !u32_id; [done|unfold is_u32; rewrite ?Z.shiftl_mul_pow2 by lia; lia..].
  - right. split; [intros Hok; apply Hne; symmetry; by apply check_padding_good|].
    rewrite Z.shiftl_0_l, Z.sub_0_r. change (u32 0) with 0. rewrite Z.lor_0_r.
    unfold len. rewrite u32_id by (unfold is_u32; fold len; lia). by destruct rec.
Qed.
End check_padding.

(** The record after the explicit IV, if any, has been skipped. *)
Definition skip_iv (s : read_state) (rec : SSL3_RECORD) (block_size : Z) : SSL3_RECORD :=
  if SSL_USE_EXPLICIT_IV s then
    set_rec rec (rec_type rec) (rec_length rec - block_size)
      (drop (Z.to_nat block_size) (rec_data rec))
      (drop (Z.to_nat block_size) (rec_input rec))
  else rec.

Lemma remove_padding_spec s rec block_size mac_size :
  flag_aead_cipher s = false → bytes (rec_data rec) →
  1 ≤ mac_size < 2 ^ 16 → 0 ≤ block_size < 2 ^ 16 → 0 ≤ rec_length rec < 2 ^ 24 →
  let r := skip_iv s rec block_size in
  let pl := getb (rec_data r) (rec_length r - 1) in
  let res := tls1_cbc_remove_padding s rec block_size mac_size in
  (rec_length r < 1 + mac_size ∧ res = (0, rec)) ∨
  (1 + mac_size ≤ rec_length r ∧ padding_ok (rec_data r) (rec_length r) mac_size pl ∧
   res = (1, set_rec r (Z.lor (rec_type r) ((pl + 1) ≪ 8)) (rec_length r - (pl + 1))
               (rec_data r) (rec_input r))) ∨
  (1 + mac_size ≤ rec_length r ∧ ¬ padding_ok (rec_data r) (rec_length r) mac_size pl ∧
   res = (-1, r)).
Proof.
  intros Haead Hd Hm Hb Hl r pl res. subst pl res.
  unfold tls1_cbc_remove_padding, skip_iv in *. cbv zeta.
  assert (u32 (1 + mac_size) = 1 + mac_size) as Eo by (apply u32_id; unfold is_u32; lia).
  assert (u32 (u32 (1 + mac_size) + block_size) = 1 + mac_size + block_size) as Eb
    by (rewrite Eo; apply u32_id; unfold is_u32; lia).
  destruct (SSL_USE_EXPLICIT_IV s).
  - rewrite Eb.
    destruct (Z.ltb_spec (rec_length rec) (1 + mac_size + block_size)).
    { left. split; [simpl in r; unfold r; simpl; lia|done]. }
    right. rewrite (u32_id (rec_length rec - block_size)) by (unfold is_u32; lia). fold r.
    assert (bytes (rec_data r)) as Hr by (unfold r; simpl; auto with vtls).
    assert (1 + mac_size ≤ rec_length r < 2 ^ 24) as Hrl by (unfold r; simpl; lia).
    destruct (check_padding_spec s r mac_size Haead Hr Hm Hrl) as [[? ->]|[? ->]];
      [left|right]; (split; [lia|done]).
  - subst r. destruct (Z.ltb_spec (rec_length rec) (u32 (1 + mac_size))); [left; split; [lia|done]|right].
    destruct (check_padding_spec s rec mac_size Haead Hd Hm ltac:(lia))
      as [[? ->]|[? ->]]; [left|right]; (split; [lia|done]).
Qed.

(** RFC 5246, 6.2.3.2: the record has room for the MAC, the padding and the length byte [pl],
    and the last [pl + 1] bytes are [pl]. *)
Definition tls_padded (data : list Z) (len mac_size pl : Z) : Prop :=
  1 + mac_size + pl ≤ len ∧ ∀ k, 0 ≤ k ≤ pl → getb data (len - 1 - k) = pl.

Lemma tls_padded_ok data len mac_size pl : tls_padded data len mac_size pl → padding_ok data len mac_size pl.
Proof. intros [H1 H2]. split; [done|]. intros k Hk _. by apply H2. Qed.

Lemma padding_ok_padded data len mac_size pl : pl < 255 → padding_ok data len mac_size pl → tls_padded data len mac_size pl.
Proof. intros Hpl [H1 H2]. split; [done|]. intros k Hk. apply H2; lia. Qed.

(** C10: [tls1_cbc_remove_padding] for a non-AEAD cipher and a record of public
    size below 2^24.  A record too short for the IV, the MAC and the length byte
    is rejected with 0 and left untouched.  Otherwise the explicit IV is skipped.
    When the record is padded as RFC 5246 asks for, [pl + 1] bytes of value [pl]
    behind the MAC, the answer is 1, the padding is cut off and its length is passed
    in the type field.  When it is not, the answer is -1 and nothing is cut off; this
    is so for every last byte [pl] but 255, for which the code leaves the first of the
    256 bytes unchecked. *)
Theorem tls1_cbc_remove_padding_correct s rec block_size mac_size :
  flag_aead_cipher s = false → bytes (rec_data rec) →
  1 ≤ mac_size < 2 ^ 16 → 0 ≤ block_size < 2 ^ 16 → 0 ≤ rec_length rec < 2 ^ 24 →
  let r := skip_iv s rec block_size in
  let pl := getb (rec_data r) (rec_length r - 1) in
  let res := tls1_cbc_remove_padding s rec block_size mac_size in
  (rec_length r < 1 + mac_size → res = (0, rec)) ∧
  (1 + mac_size ≤ rec_length r → tls_padded (rec_data r) (rec_length r) mac_size pl →
   res = (1, set_rec r (Z.lor (rec_type r) ((pl + 1) ≪ 8)) (rec_length r - (pl + 1))
               (rec_data r) (rec_input r))) ∧
  (1 + mac_size ≤ rec_length r → ¬ tls_padded (rec_data r) (rec_length r) mac_size pl → pl ≠ 255 →
   res = (-1, r)).
Proof.
  intros Haead Hd Hm Hb Hl r pl res.
  assert (bytes (rec_data r)) as Hr by (unfold r, skip_iv; destruct (SSL_USE_EXPLICIT_IV s); cbn; auto with vtls).
  pose proof (getb_byte (rec_data r) (rec_length r - 1) Hr) as Hpl. fold pl in Hpl. unfold is_byte in Hpl.
  pose proof (remove_padding_spec s rec block_size mac_size Haead Hd Hm Hb Hl) as H. cbv zeta in H. fold r pl res in H.
  split_and!; intros Hlen; destruct H as [[H1 H2]|[(H1 & H2 & H3)|(H1 & H2 & H3)]]; try lia; try done; intros Hp.
  - destruct H2. by apply tls_padded_ok.
  - intros Hn. destruct Hp. apply padding_ok_padded; [lia|done].
Qed.

Definition blank_record : SSL3_RECORD :=
  {| rec_type := 0; rec_length := 0; rec_off := 0; rec_data := []; rec_input := [];
     rec_epoch := 0; rec_seq_num := [] |}.
Definition demo_record : SSL3_RECORD :=
  set_rec blank_record 23 24 (replicate 20 7 ++ [3; 3; 3; 3]) [].
Definition demo_state : read_state := {| SSL_USE_EXPLICIT_IV := false; flag_aead_cipher := false |}.

Lemma tls1_cbc_remove_padding_correct_witness :
  tls1_cbc_remove_padding demo_state demo_record 16 16 =
    (1, set_rec blank_record 1047 20 (rec_data demo_record) []).
Proof.
  destruct (tls1_cbc_remove_padding_correct demo_state demo_record 16 16) as (_ & H & _).
  - reflexivity.
  - apply (bool_decide_eq_true_1 _). vm_compute. reflexivity.
  - lia.
  - lia.
  - cbn. lia.
  - rewrite H; [reflexivity|cbn; lia|]. split; [vm_compute; discriminate|]. intros k Hk.
    assert (k = 0 ∨ k = 1 ∨ k = 2 ∨ k = 3) as [-> | [-> | [-> | ->]]] by (change (0 ≤ k ≤ 3) in Hk; lia); reflexivity.
Defined.

(** The check inspects at most 255 trailing bytes, so with a padding length
    of 255 the outermost padding byte is never looked at: changing it does not
    change the verdict, and a record whose padding is not uniform is accepted,
    although the padding has 256 bytes. *)
Theorem padding_255_first_byte_ignored x y body :
  is_byte x → is_byte y → bytes body → 16 ≤ Z.of_nat (length body) < 2 ^ 16 →
  let mk v := set_rec blank_record 23 (Z.of_nat (length body) + 256)
                (body ++ v :: replicate 255 255) [] in
  (tls1_cbc_remove_padding demo_state (mk x) 16 16).1 = 1 ∧
  (tls1_cbc_remove_padding demo_state (mk y) 16 16).1 = 1 ∧
  rec_length (tls1_cbc_remove_padding demo_state (mk x) 16 16).2 = Z.of_nat (length body).
Proof.
  intros Hx Hy Hb Hl mk.
  assert (∀ v, is_byte v →
    (tls1_cbc_remove_padding demo_state (mk v) 16 16).1 = 1 ∧
    rec_length (tls1_cbc_remove_padding demo_state (mk v) 16 16).2 = Z.of_nat (length body)) as H.
  { intros v Hv.
    assert (∀ k, 0 ≤ k < 255 →
      getb (rec_data (mk v)) (rec_length (mk v) - 1 - k) = 255) as Hpad.
    { intros k Hk. unfold mk, set_rec; cbn [rec_data rec_length].
      change (v :: replicate 255 255) with ([v] ++ replicate 255 255).
      rewrite app_assoc, getb_app_r by len. apply getb_replicate. len. }
    assert (bytes (rec_data (mk v))) as Hbytes.
    { unfold mk, set_rec; cbn [rec_data]. apply bytes_app; [done|]. constructor; [done|].
      apply Forall_replicate. unfold is_byte; lia. }
    assert (getb (rec_data (mk v)) (rec_length (mk v) - 1) = 255) as Hpl.
    { replace (rec_length (mk v) - 1) with (rec_length (mk v) - 1 - 0) by lia. apply Hpad. lia. }
    assert (1 + 16 ≤ rec_length (mk v) < 2 ^ 24) as Hrl by (unfold mk; simpl; lia).
    destruct (check_padding_spec demo_state (mk v) 16 eq_refl Hbytes ltac:(lia) Hrl)
      as [[_ E]|[E _]].
    - rewrite Hpl in E.
      assert (tls1_cbc_remove_padding demo_state (mk v) 16 16 =
              tls1_cbc_check_padding demo_state (mk v) (u32 (1 + 16))) as ->.
      { unfold tls1_cbc_remove_padding. cbn [SSL_USE_EXPLICIT_IV demo_state].
        change (u32 (1 + 16)) with 17. unfold mk, set_rec; cbn [rec_length].
        destruct (Z.ltb_spec (Z.of_nat (length body) + 256) 17); [lia|done]. }
      rewrite E. split; [done|]. unfold mk; cbn. lia.
    - exfalso. apply E. rewrite Hpl. split; [unfold mk; simpl; lia|]. intros. apply Hpad. lia. }
  destruct (H x Hx) as [? ?], (H y Hy) as [? ?]. done.
Qed.

Lemma padding_255_first_byte_ignored_witness :
  (tls1_cbc_remove_padding demo_state
     (set_rec blank_record 23 272 (replicate 16 1 ++ 0 :: replicate 255 255) []) 16 16).1 = 1.
Proof.
  apply (padding_255_first_byte_ignored 0 255 (replicate 16 1)).
  - unfold is_byte; lia.
  - unfold is_byte; lia.
  - apply Forall_replicate. unfold is_byte; lia.
  - simpl; lia.
Defined.

(** ** Extraction of the MAC *)

Lemma mask8_land_and b m1 m2 : is_byte b →
  Z.land (Z.land b (mask8 m1)) (Z.lnot (mask8 m2)) = if m1 && negb m2 then b else 0.
Proof.
  intros Hb. rewrite (Z.land_comm b), land_mask8 by done.
  destruct m1; simpl; [|by rewrite Z.land_0_l].
  destruct m2; simpl; [|change (Z.lnot 0) with (-1); apply Z.land_m1_r].
  change 255 with (Z.ones 8). rewrite <- Z.ldiff_land, Z.ldiff_ones_r by lia.
  unfold is_byte in Hb. rewrite Z.shiftr_div_pow2, Z.div_small by lia. done.
Qed.

(** One step of a counter kept modulo [md] with a mask. *)
Lemma mod_step i md : 0 < md → 0 ≤ i → md < 2 ^ 16 →
  Z.land (u32 (i `mod` md + 1)) (constant_time_lt (u32 (i `mod` md + 1)) md) = (i + 1) `mod` md.
Proof.
  intros Hm Hi Hb. pose proof (Z.mod_pos_bound i md Hm).
  rewrite !u32_id by (unfold is_u32; lia).
  rewrite constant_time_lt_mask, Z.land_comm, land_mask32 by (unfold is_u32; lia).
  rewrite (Z.div_mod i md) at 3 by lia.
  destruct (Z.ltb_spec (i `mod` md + 1) md).
  - apply (Z.mod_unique_pos _ _ (i `div` md)); lia.
  - apply (Z.mod_unique_pos _ _ (i `div` md + 1)); lia.
Qed.

Lemma mod_range_inj md a p q : 0 < md → a ≤ p < a + md → a ≤ q < a + md →
  p `mod` md = q `mod` md → p = q.
Proof.
  intros Hm Hp Hq He.
  pose proof (Z.div_mod p md ltac:(lia)). pose proof (Z.div_mod q md ltac:(lia)).
  pose proof (Z.mod_pos_bound p md Hm).
  assert (p `div` md = q `div` md) by nia. nia.
Qed.

Section copy_mac.
Context (data : list Z) (mac_start md scan : Z).
Hypothesis Hdata : bytes data.
Hypothesis Hmd : 0 < md < 2 ^ 16.
Hypothesis Hscan : 0 ≤ scan ≤ mac_start.
Hypothesis Hend : mac_start + md < 2 ^ 31.

(** After the scan has reached index [i], the slot of every MAC byte below [i]
    holds that byte and the slots of the others are still zero. *)
Definition scan_inv (rot : list Z) (i : Z) : Prop :=
  Z.of_nat (length rot) = md ∧
  ∀ p, mac_start ≤ p < mac_start + md →
    getb rot ((p - scan) `mod` md) = if p <? i then getb data p else 0.

Lemma scan_loop_inv rot i todo :
  scan ≤ i → i + Z.of_nat todo < 2 ^ 31 → scan_inv rot i →
  scan_inv (scan_loop data mac_start (mac_start + md) md rot i ((i - scan) `mod` md) todo)
    (i + Z.of_nat todo).
Proof.
  revert rot i. induction todo as [|todo IH]; intros rot i Hi Ht [Hlen Hinv].
  { simpl. rewrite Z.add_0_r. done. }
  cbn [scan_loop]. rewrite mod_step by lia.
  replace (i - scan + 1) with (i + 1 - scan) by lia.
  replace (i + Z.of_nat (S todo)) with (i + 1 + Z.of_nat todo) by lia.
  apply IH; [lia..|].
  rewrite !constant_time_ge_8_mask by (unfold is_u32; lia).
  rewrite mask8_land_and by auto with vtls.
  pose proof (Z.mod_pos_bound (i - scan) md ltac:(lia)).
  split; [by rewrite length_setb|]. intros p Hp.
  pose proof (Z.mod_pos_bound (p - scan) md ltac:(lia)).
  rewrite getb_setb by lia. case_decide as He.
  - rewrite He, Hinv by done.
    destruct (decide (mac_start ≤ i < mac_start + md)) as [Hin|Hout].
    + assert (i = p) as ->.
      { enough (i - scan = p - scan) by lia.
        apply (mod_range_inj md (mac_start - scan)); lia. }
      case_cmp; simpl; try lia. done.
    + assert ((mac_start <=? i) && negb (mac_start + md <=? i) = false) as ->
        by (case_cmp; simpl; lia || done).
      rewrite Z.lor_0_r. case_cmp; try lia; done.
  - rewrite Hinv by done. assert (p ≠ i) by (intros ->; done).
    case_cmp; try lia; done.
Qed.

Lemma rotate_loop_spec rot off todo :
  Z.of_nat (length rot) = md → 0 ≤ off →
  rotate_loop rot md (off `mod` md) todo =
  (λ k, getb rot ((off + Z.of_nat k) `mod` md)) <$> seq 0 todo.
Proof.
  intros Hl. revert off. induction todo as [|todo IH]; intros off Ho; [done|].
  cbn [rotate_loop]. rewrite mod_step, IH by lia. cbn [seq fmap list_fmap]. f_equal.
  - f_equal. f_equal. lia.
  - rewrite <- fmap_S_seq, <- list_fmap_compose. apply list_fmap_ext. intros i x _. simpl.
    do 2 f_equal. lia.
Qed.
End copy_mac.

(** The Barrett reductions of the code compute the remainder in the range the
    comment gives for [rotate_offset]. *)
Lemma reduce_rotate_offset_spec md x :
  md ∈ [16; 20; 32; 48] → 0 ≤ x ≤ 304 → reduce_rotate_offset md x = Some (x `mod` md).
Proof.
  intros Hmd Hx.
  assert (forallb (λ n, forallb (λ m, bool_decide
    (reduce_rotate_offset m (Z.of_nat n) = Some (Z.of_nat n `mod` m))) [16; 20; 32; 48])
    (seq 0 305) = true) as Hall by (vm_compute; reflexivity).
  rewrite forallb_forall in Hall. specialize (Hall (Z.to_nat x)).
  rewrite forallb_forall in Hall. rewrite Z2Nat.id in Hall by lia.
  eapply bool_decide_eq_true, Hall; [|by apply list_elem_of_In].
  apply in_seq. lia.
Qed.

Lemma copy_mac_spec rec md_size orig_len :
  md_size ∈ [16; 20; 32; 48] → bytes (rec_data rec) →
  md_size ≤ rec_length rec ≤ orig_len →
  orig_len ≤ rec_length rec + 256 →
  orig_len ≤ Z.of_nat (length (rec_data rec)) → orig_len < 2 ^ 24 →
  ssl3_cbc_copy_mac rec md_size orig_len =
  Some (take (Z.to_nat md_size) (drop (Z.to_nat (rec_length rec - md_size)) (rec_data rec))).
Proof.
  intros Hmd Hd Hl Ho Hb H24.
  assert (16 ≤ md_size ≤ 48) as Hmdb
    by (apply list_elem_of_In in Hmd; simpl in Hmd; lia).
  unfold ssl3_cbc_copy_mac. rewrite (u32_id (rec_length rec - md_size)) by (unfold is_u32; lia).
  set (start := rec_length rec - md_size).
  set (scan := if md_size + 255 + 1 <? orig_len then orig_len - (md_size + 255 + 1) else 0).
  assert (0 ≤ scan ≤ start ∧ start - scan ≤ 256) as [Hs Hs']
    by (unfold scan, start; case_cmp; lia).
  destruct (Z.ltb_spec orig_len md_size); [lia|].
  destruct (Z.ltb_spec EVP_MAX_MD_SIZE md_size) as [H64|_]; [unfold EVP_MAX_MD_SIZE in H64; lia|].
  cbv [orb]. rewrite u32_id, reduce_rotate_offset_spec by (done || unfold is_u32; lia). f_equal.
  pose proof (scan_loop_inv (rec_data rec) start md_size scan Hd ltac:(lia) ltac:(lia) ltac:(lia)
    (replicate (Z.to_nat md_size) 0) scan (Z.to_nat (orig_len - scan))
    ltac:(lia) ltac:(lia)) as Hinv.
  rewrite Z.sub_diag, Z.mod_0_l in Hinv by lia.
  replace (start + md_size) with (rec_length rec) in Hinv by lia.
  replace (scan + Z.of_nat (Z.to_nat (orig_len - scan))) with orig_len in Hinv by lia.
  destruct Hinv as [Hlen Hbyte].
  { split; [len|]. intros p Hp.
    pose proof (Z.mod_pos_bound (p - scan) md_size ltac:(lia)).
    rewrite getb_replicate by lia. case_cmp; [lia|done]. }
  rewrite rotate_loop_spec by (done || lia).
  apply list_eq_getb; [rewrite length_fmap, length_seq; len|].
  rewrite length_fmap, length_seq. intros i Hi.
  rewrite getb_take, getb_drop by lia. unfold getb at 1, nthZ.
  rewrite nth_lookup, list_lookup_fmap, lookup_seq_lt by lia. simpl.
  rewrite Z2Nat.id by lia.
  replace (start - scan + i) with (start + i - scan) by lia.
  rewrite Hbyte by lia. destruct (Z.ltb_spec (start + i) orig_len); [|lia].
  f_equal. lia.
Qed.

(** C11: [ssl3_cbc_copy_mac] returns exactly the [md_size] bytes that end at
    [rec->length], for each digest size the record layer uses, whenever the
    padding that was removed is at most 256 bytes: the constant-time scan and
    rotation is equivalent to a plain sub-list. *)
Theorem ssl3_cbc_copy_mac_correct rec md_size orig_len :
  md_size ∈ [16; 20; 32; 48] → bytes (rec_data rec) →
  md_size ≤ rec_length rec ≤ orig_len →
  orig_len ≤ rec_length rec + 256 →
  orig_len ≤ Z.of_nat (length (rec_data rec)) → orig_len < 2 ^ 24 →
  ssl3_cbc_copy_mac rec md_size orig_len =
  Some (take (Z.to_nat md_size) (drop (Z.to_nat (rec_length rec - md_size)) (rec_data rec))).
Proof. apply copy_mac_spec. Qed.

Lemma ssl3_cbc_copy_mac_correct_witness :
  ssl3_cbc_copy_mac (set_rec blank_record 23 21 (seqZ 0 30) [])
    20 30 = Some (seqZ 1 20).
Proof.
  rewrite ssl3_cbc_copy_mac_correct; simpl; try lia.
  - reflexivity.
  - apply list_elem_of_In; simpl; lia.
  - repeat (constructor; [unfold is_byte; lia|]). constructor.
Defined.
