(* ===== verification/RsaPk1.v ===== *)
(** * PKCS #1 v1.5 padding

    Models [crypto/rsa/rsa_pk1.c]: the padding of signatures (block type 1) and
    of encryption (block type 2), added and checked.  The check of block type 2
    works in constant time on masks; it is shown to accept exactly the padded
    messages, so that the masked computation and the format agree on every input.

    The random generator is the list [e] of the bytes it will deliver; it fails
    when they are used up. *)

From S2P Require Import Prelude ConstTime.

Definition RSA_PKCS1_PADDING_SIZE : Z := 11.

(** Results are the return value and the bytes written at [to], given as [[]] when
    the call fails and leaves the buffer unspecified; [flen] is the length of
    [from]. *)
Definition RSA_padding_add_PKCS1_type_1 (tlen : Z) (from : list Z) : Z * list Z :=
  let flen := Z.of_nat (length from) in
  if tlen - RSA_PKCS1_PADDING_SIZE <? flen then (0, [])
  else
    let j := tlen - 3 - flen in
    (1, [0; 1] ++ replicate (Z.to_nat j) 0xff ++ [0] ++ from).

(** The scan over the padding: the index of the zero byte and what follows it, a
    byte that is not padding, or the end of the block. *)
Inductive scan_result := ScanZero (i : Z) (p : list Z) | ScanBad | ScanEnd.

Fixpoint scan_type_1 (i : Z) (p : list Z) : scan_result :=
  match p with
  | [] => ScanEnd
  | x :: p =>
      if negb (x =? 0xff) then
        if x =? 0 then ScanZero i p else ScanBad
      else scan_type_1 (i + 1) p
  end.

(** [from] has at least one byte, as the code reads it before any test on [flen]
    other than against [num]. *)
Definition RSA_padding_check_PKCS1_type_1 (tlen : Z) (from : list Z) (num : Z) : Z * list Z :=
  let flen := Z.of_nat (length from) in
  if negb (num =? flen + 1) || negb (nthZ from 0 =? 1) then (-1, [])
  else
    let j := flen - 1 in
    match scan_type_1 0 (drop 1 from) with
    | ScanBad => (-1, [])
    | ScanEnd => (-1, [])
    | ScanZero i p =>
        if i <? 8 then (-1, [])
        else
          let j := j - (i + 1) in
          if tlen <? j then (-1, []) else (j, take (Z.to_nat j) p)
    end.

(** The random bytes requested, and the state of the generator. *)
Definition RAND_bytes (e : list Z) (n : nat) : option (list Z * list Z) :=
  if (n <=? length e)%nat then Some (take n e, drop n e) else None.

(** [do { RAND_bytes(p, 1) } while ( *p == 0 )] *)
Fixpoint draw_nonzero (e : list Z) : option (Z * list Z) :=
  match e with
  | [] => None
  | b :: e => if b =? 0 then draw_nonzero e else Some (b, e)
  end.

Fixpoint replace_zeros (p e : list Z) : option (list Z * list Z) :=
  match p with
  | [] => Some ([], e)
  | x :: p =>
      match (if x =? 0 then draw_nonzero e else Some (x, e)) with
      | None => None
      | Some (x, e) =>
          match replace_zeros p e with
          | None => None
          | Some (p, e) => Some (x :: p, e)
          end
      end
  end.

Definition RSA_padding_add_PKCS1_type_2 (e : list Z) (tlen : Z) (from : list Z) : Z * list Z :=
  let flen := Z.of_nat (length from) in
  if tlen - 11 <? flen then (0, [])
  else
    let j := tlen - 3 - flen in
    match RAND_bytes e (Z.to_nat j) with
    | None => (0, [])
    | Some (p, e) =>
        match replace_zeros p e with
        | None => (0, [])
        | Some (p, _) => (1, [0; 2] ++ p ++ [0] ++ from)
        end
    end.

(** The search for the first zero byte, from index [i]. *)
Fixpoint zero_loop (em : list Z) (i found_zero_byte zero_index : Z) : Z * Z :=
  match em with
  | [] => (found_zero_byte, zero_index)
  | x :: em =>
      let equals0 := constant_time_is_zero x in
      let zero_index :=
        constant_time_select_int (Z.land (u32 (Z.lnot found_zero_byte)) equals0) i zero_index in
      let found_zero_byte := Z.lor found_zero_byte equals0 in
      zero_loop em (i + 1) found_zero_byte zero_index
  end.

(** [alloc] is the success of [calloc]. *)
Definition RSA_padding_check_PKCS1_type_2 (alloc : bool) (tlen : Z) (from : list Z) (num : Z) : Z * list Z :=
  let flen := Z.of_nat (length from) in
  if tlen <? 0 then (-1, [])
  else if num <? flen then (-1, [])
  else if num <? 11 then (-1, [])
  else if negb alloc then (-1, [])
  else
    let em := splice (replicate (Z.to_nat num) 0) (Z.to_nat (num - flen)) from in
    let good := constant_time_is_zero (nthZ em 0) in
    let good := Z.land good (constant_time_eq (nthZ em 1) 2) in
    let '(_, zero_index) := zero_loop (drop 2 em) 2 0 0 in
    let good := Z.land good (constant_time_ge (u32 zero_index) (2 + 8)) in
    let msg_index := zero_index + 1 in
    let mlen := num - msg_index in
    let good := Z.land good (constant_time_ge (u32 tlen) (u32 mlen)) in
    if good =? 0 then (-1, [])
    else (mlen, take (Z.to_nat mlen) (drop (Z.to_nat msg_index) em)).

(** ** The formats *)

(** Without the leading zero byte, which is lost in the conversion to a number. *)
Definition type_1_block (msg block : list Z) : Prop :=
  ∃ k, (8 ≤ k)%nat ∧ block = [1] ++ replicate k 0xff ++ [0] ++ msg.

Definition type_2_block (msg em : list Z) : Prop :=
  ∃ ps, Forall (λ b, b ≠ 0) ps ∧ (8 ≤ length ps)%nat ∧ em = [0; 2] ++ ps ++ [0] ++ msg.

(** ** Block type 1 *)

Lemma scan_type_1_iff p : ∀ i j r, scan_type_1 i p = ScanZero j r ↔
  ∃ k, p = replicate k 0xff ++ [0] ++ r ∧ j = i + Z.of_nat k.
Proof.
  induction p as [|x p IH]; intros i j r; cbn [scan_type_1].
  { split; [done|]. intros ([|k] & H & _); done. }
  destruct (Z.eqb_spec x 0xff) as [->|Hx]; cbn [negb].
  - rewrite IH. split.
    + intros (k & -> & ->). exists (S k). split; [done|lia].
    + intros ([|k] & [= ->] & ->).  exists k. split; [done|lia].
  - destruct (Z.eqb_spec x 0) as [->|Hx0].
    + split; [intros [= <- <-]; exists 0%nat; split; [done|lia]|].
      intros ([|k] & [= ->] & ->); f_equal; lia.
    + split; [done|]. intros ([|k] & [= ? ?] & _); congruence.
Qed.

(** The padding of a block is determined by the block. *)
Lemma type_1_unique k k' r r' : [1] ++ replicate k 0xff ++ [0] ++ r = [1] ++ replicate k' 0xff ++ [0] ++ r' →
  k = k' ∧ r = r'.
Proof.
  intros E. injection E as E. change (0 :: r) with ([0] ++ r) in E. change (0 :: r') with ([0] ++ r') in E.
  pose proof (proj2 (scan_type_1_iff _ 0 _ r) (ex_intro _ k (conj (eq_sym E) eq_refl))) as H.
  rewrite (proj2 (scan_type_1_iff _ 0 _ r') (ex_intro _ k' (conj eq_refl eq_refl))) in H.
  injection H as ? ->. split; [lia|done].
Qed.

Lemma check_type_1_iff tlen from num n out : 0 ≤ n →
  RSA_padding_check_PKCS1_type_1 tlen from num = (n, out) ↔
  num = Z.of_nat (length from) + 1 ∧ type_1_block out from ∧ n = Z.of_nat (length out) ∧ n ≤ tlen.
Proof.
  intros Hn. unfold RSA_padding_check_PKCS1_type_1, type_1_block.
  destruct (Z.eqb_spec num (Z.of_nat (length from) + 1)) as [->|Hne]; cbn [negb orb].
  2: { split; [intros [= <- _]; lia|tauto]. }
  destruct from as [|b p].
  { split; [intros [= <- _]; lia|]. intros (_ & (k & _ & H) & _). done. }
  change (nthZ (b :: p) 0) with b. change (drop 1 (b :: p)) with p. destruct (Z.eqb_spec b 1) as [->|Hb]; cbn [negb].
  2: { split; [intros [= <- _]; lia|]. intros (_ & (k & _ & H) & _). by injection H as ->. }
  destruct (scan_type_1 0 p) as [i r| |] eqn:Es.
  2-3: split; [intros H; inversion H; lia|]; intros (_ & (k & Hk & E) & _); injection E as E;
       rewrite (proj2 (scan_type_1_iff p 0 (0 + Z.of_nat k) out)) in Es by eauto; done.
  pose proof Es as Hs. apply scan_type_1_iff in Hs as (k & -> & ->). cbn [length].
  rewrite !length_app, length_replicate. cbn [length].
  destruct (Z.ltb_spec (0 + Z.of_nat k) 8).
  { split; [intros [= <- _]; lia|]. intros (_ & (k' & Hk & E) & _). apply type_1_unique in E as [-> _]. lia. }
  set (j := _ - _). assert (j = Z.of_nat (length r)) as -> by (unfold j; lia).
  rewrite Nat2Z.id, take_ge by lia.
  destruct (Z.ltb_spec tlen (Z.of_nat (length r))).
  - split; [intros [= <- _]; lia|]. intros (_ & (k' & Hk & E) & -> & Hlt).
    apply type_1_unique in E as [_ ->]. lia.
  - split.
    + intros [= <- <-]. split_and!; [done| |done|done]. exists k. split; [lia|done].
    + intros (_ & (k' & Hk & E) & -> & Hlt). by apply type_1_unique in E as [_ ->].
Qed.

(** ** Block type 2 *)

Lemma byte_u32 b : is_byte b → is_u32 b.
Proof. unfold is_byte, is_u32. lia. Qed.

Lemma land_masks a b : Z.land (mask32 a) (mask32 b) = mask32 (a && b).
Proof. by destruct a, b. Qed.

Lemma lor_masks a b : Z.lor (mask32 a) (mask32 b) = mask32 (a || b).
Proof. by destruct a, b. Qed.

Lemma mask32_eqb_0 b : (mask32 b =? 0) = negb b.
Proof. by destruct b. Qed.

(** One iteration of the search on masks. *)
Lemma zero_loop_cons x em i f zi : is_byte x → is_int i → is_int zi →
  zero_loop (x :: em) i (mask32 f) zi =
  zero_loop em (i + 1) (mask32 (f || (x =? 0))) (if negb f && (x =? 0) then i else zi).
Proof.
  intros Hx Hi Hz. cbn [zero_loop]. rewrite constant_time_is_zero_mask by (by apply byte_u32).
  rewrite lnot_mask32, land_masks, lor_masks, constant_time_select_int_mask by done. done.
Qed.

Lemma zero_loop_found em : ∀ i zi, bytes em → 0 ≤ i → i + Z.of_nat (length em) < 2 ^ 31 → is_int zi →
  (zero_loop em i (mask32 true) zi).2 = zi.
Proof.
  induction em as [|x em IH]; intros i zi Hb Hi Hl Hz; [done|]. apply bytes_cons_inv in Hb as [Hx Hb].
  cbn [length] in Hl. rewrite zero_loop_cons by (done || (unfold is_int; lia)). cbn [orb negb andb]. apply IH; [done|lia..|done].
Qed.

(** Without a zero byte the index stays, otherwise it is that of the first one. *)
Lemma zero_loop_none ps : ∀ i zi, bytes ps → Forall (λ b, b ≠ 0) ps → 0 ≤ i → i + Z.of_nat (length ps) < 2 ^ 31 →
  is_int zi → zero_loop ps i (mask32 false) zi = (mask32 false, zi).
Proof.
  induction ps as [|x ps IH]; intros i zi Hb Hne Hi Hl Hz; [done|]. apply bytes_cons_inv in Hb as [Hx Hb].
  apply Forall_cons_1 in Hne as [Hx0 Hne]. cbn [length] in Hl. rewrite zero_loop_cons by (done || (unfold is_int; lia)).
  rewrite (proj2 (Z.eqb_neq x 0)) by done. apply IH; [done|done|lia..|done].
Qed.

Lemma zero_loop_first ps r : ∀ i zi, bytes ps → bytes r → Forall (λ b, b ≠ 0) ps → 0 ≤ i →
  i + Z.of_nat (length (ps ++ [0] ++ r)) < 2 ^ 31 → is_int zi →
  (zero_loop (ps ++ [0] ++ r) i (mask32 false) zi).2 = i + Z.of_nat (length ps).
Proof.
  induction ps as [|x ps IH]; intros i zi Hb Hr Hne Hi Hl Hz; cbn [app length] in Hl.
  - cbn [app]. rewrite zero_loop_cons by (done || (unfold is_int, is_byte in *; lia)). cbn [orb negb andb Z.eqb].
    rewrite zero_loop_found by (done || (unfold is_int, is_byte in *; lia)). cbn [length]. lia.
  - apply bytes_cons_inv in Hb as [Hx Hb]. apply Forall_cons_1 in Hne as [Hx0 Hne]. cbn [app].
    rewrite zero_loop_cons by (done || (unfold is_int, is_byte in *; lia)). rewrite (proj2 (Z.eqb_neq x 0)) by done.
    cbn [orb negb andb length]. rewrite IH by (done || (cbn [app]; lia)). lia.
Qed.

(** Every block either has no zero byte or a first one. *)
Lemma first_zero l : Forall (λ b, b ≠ 0) l ∨ ∃ ps r, l = ps ++ [0] ++ r ∧ Forall (λ b, b ≠ 0) ps.
Proof.
  induction l as [|x l IH]; [by left|]. destruct (Z.eq_dec x 0) as [->|Hx].
  { right. by exists [], l. }
  destruct IH as [IH|(ps & r & -> & Hps)]; [left; by constructor|]. right. exists (x :: ps), r. by auto.
Qed.

(** The encoded message: [from] behind zeros, [num] bytes in all. *)
Definition left_pad (num : Z) (from : list Z) : list Z :=
  replicate (Z.to_nat num - length from) 0 ++ from.

(** What the check returns once the lengths have been tested. *)
Definition check_em (tlen : Z) (em : list Z) : Z * list Z :=
  let zi := (zero_loop (drop 2 em) 2 (mask32 false) 0).2 in
  let mlen := Z.of_nat (length em) - (zi + 1) in
  if (nthZ em 0 =? 0) && (nthZ em 1 =? 2) && (10 <=? zi) && (mlen <=? tlen)
  then (mlen, take (Z.to_nat mlen) (drop (Z.to_nat (zi + 1)) em)) else (-1, []).

Lemma zero_loop_range l : bytes l → 2 + Z.of_nat (length l) < 2 ^ 31 →
  0 ≤ (zero_loop l 2 (mask32 false) 0).2 < 2 + Z.of_nat (length l).
Proof.
  intros Hb Hl. destruct (first_zero l) as [H|(ps & r & -> & H)].
  - rewrite zero_loop_none by (done || (unfold is_int; lia)). cbn [snd]. lia.
  - apply Forall_app in Hb as [Hp Hr]. apply bytes_cons_inv in Hr as [_ Hr].
    rewrite zero_loop_first by (done || (unfold is_int; lia)). rewrite !length_app. cbn [length]. lia.
Qed.

Lemma check_type_2_em tlen from num : bytes from → 0 ≤ tlen < 2 ^ 31 → num < 2 ^ 31 →
  Z.of_nat (length from) ≤ num → 11 ≤ num →
  RSA_padding_check_PKCS1_type_2 true tlen from num = check_em tlen (left_pad num from).
Proof.
  intros Hb Ht Hnum Hf H11. unfold RSA_padding_check_PKCS1_type_2, check_em.
  rewrite (proj2 (Z.ltb_ge _ _)), (proj2 (Z.ltb_ge _ _)), (proj2 (Z.ltb_ge _ _)) by lia. cbn [negb].
  assert (splice (replicate (Z.to_nat num) 0) (Z.to_nat (num - Z.of_nat (length from))) from = left_pad num from) as ->.
  { unfold splice, left_pad. rewrite take_replicate, drop_replicate.
    replace (Z.to_nat num - (_ + _))%nat with 0%nat by lia. rewrite app_nil_r. do 2 f_equal. lia. }
  set (em := left_pad num from). assert (Z.of_nat (length em) = num) as Hem by (unfold em, left_pad; len).
  assert (bytes em) as Hbe by (unfold em, left_pad; auto with vtls).
  assert (Z.of_nat (length (drop 2 em)) = num - 2) as Hd by (rewrite length_drop; lia).
  pose proof (zero_loop_range (drop 2 em) ltac:(auto with vtls) ltac:(lia)) as Hz. change (mask32 false) with 0 in *.
  destruct (zero_loop (drop 2 em) 2 0 0) as [fz zi]. cbn [snd] in *.
  rewrite constant_time_is_zero_mask by (apply byte_u32; auto with vtls).
  rewrite constant_time_eq_mask by (apply byte_u32; auto with vtls || done).
  rewrite (u32_id zi), (u32_id tlen), (u32_id (num - (zi + 1))) by (unfold is_u32; lia).
  rewrite !constant_time_ge_mask by (unfold is_u32; lia). rewrite !land_masks, mask32_eqb_0, Hem.
  change (2 + 8) with 10. by destruct (_ && _).
Qed.

Lemma check_em_iff tlen em n out : bytes em → Z.of_nat (length em) < 2 ^ 31 → (2 ≤ length em)%nat → 0 ≤ n →
  check_em tlen em = (n, out) ↔ type_2_block out em ∧ n = Z.of_nat (length out) ∧ n ≤ tlen.
Proof.
  intros Hb Hl H2 Hn. unfold check_em, type_2_block. destruct em as [|a [|b l]]; cbn [length] in H2; [lia..|].
  apply bytes_cons_inv in Hb as [_ Hb]. apply bytes_cons_inv in Hb as [_ Hb]. cbn [length] in *.
  change (nthZ (a :: b :: l) 0) with a. change (nthZ (a :: b :: l) 1) with b. change (drop 2 (a :: b :: l)) with l.
  assert (∀ ps msg, l = ps ++ [0] ++ msg → Forall (λ b, b ≠ 0) ps →
    (zero_loop l 2 (mask32 false) 0).2 = 2 + Z.of_nat (length ps)) as Hfirst.
  { intros ps msg -> Hps. apply Forall_app in Hb as [Hp Hr]. apply bytes_cons_inv in Hr as [_ Hr].
    apply zero_loop_first; (done || (unfold is_int; lia)). }
  destruct (first_zero l) as [H0|(ps & msg & -> & Hps)].
  - rewrite zero_loop_none by (done || (unfold is_int; lia)). cbn [snd]. rewrite andb_false_r.
    split; [intros [= <- _]; lia|]. intros ((ps & _ & _ & E) & _). injection E as _ _ E. rewrite E in H0.
    apply Forall_app in H0 as [_ H0]. by apply Forall_cons_1 in H0 as [? _].
  - rewrite (Hfirst ps msg) by done. set (mlen := _ - _).
    assert (mlen = Z.of_nat (length msg)) as -> by (unfold mlen; rewrite !length_app; cbn [length]; lia).
    assert (drop (Z.to_nat (2 + Z.of_nat (length ps) + 1)) (a :: b :: ps ++ [0] ++ msg) = msg) as ->.
    { replace (Z.to_nat _) with (S (S (length ps + 1))) by lia. cbn [skipn]. rewrite app_assoc.
      apply drop_app_exact. rewrite length_app. done. }
    rewrite Nat2Z.id, (take_ge msg) by lia. split.
    + destruct (_ && _) eqn:E; intros [= <- <-]; [|lia]. rewrite !andb_true_iff, !Z.eqb_eq, !Z.leb_le in E.
      destruct E as (((-> & ->) & H8) & Ht). split_and!; [|done|done]. exists ps. split_and!; [done|lia|done].
    + intros ((ps' & Hps' & H8 & E) & -> & Ht). injection E as -> -> E.
      pose proof (Hfirst ps' out E Hps') as H. rewrite (Hfirst ps msg) in H by done.
      assert (length ps = length ps') as Hlp by lia. apply app_inj_1 in E as [-> [= ->]]; [|done].
      rewrite (proj2 (Z.leb_le 10 _)), (proj2 (Z.leb_le _ tlen)) by lia. done.
Qed.

Lemma check_type_2_minus alloc tlen from num n out :
  RSA_padding_check_PKCS1_type_2 alloc tlen from num = (n, out) → 0 ≤ n →
  alloc = true ∧ 0 ≤ tlen ∧ Z.of_nat (length from) ≤ num ∧ 11 ≤ num.
Proof.
  unfold RSA_padding_check_PKCS1_type_2. intros H Hn.
  destruct (Z.ltb_spec tlen 0); [injection H as <- _; lia|].
  destruct (Z.ltb_spec num (Z.of_nat (length from))); [injection H as <- _; lia|].
  destruct (Z.ltb_spec num 11); [injection H as <- _; lia|].
  destruct alloc; [|injection H as <- _; lia]. done.
Qed.

(** C28: PKCS #1 v1.5 decryption padding.  For every modulus size below 2^31, the
    constant-time check returns a message exactly when the block, extended on the
    left with zeros to the size of the modulus, is [0, 2], at least eight non-zero
    bytes, a zero byte and the message, the message fits the output buffer and
    memory is available; its result is then the length of the message. *)
Theorem check_PKCS1_type_2_iff alloc tlen from num n out :
  bytes from → tlen < 2 ^ 31 → num < 2 ^ 31 → 0 ≤ n →
  RSA_padding_check_PKCS1_type_2 alloc tlen from num = (n, out) ↔
  alloc = true ∧ Z.of_nat (length from) ≤ num ∧ type_2_block out (left_pad num from) ∧
  n = Z.of_nat (length out) ∧ n ≤ tlen.
Proof.
  intros Hb Ht Hnum Hn. split.
  - intros H. destruct (check_type_2_minus _ _ _ _ _ _ H Hn) as (-> & ? & ? & ?).
    rewrite check_type_2_em in H by (done || lia).
    apply check_em_iff in H; [tauto|unfold left_pad; auto with vtls|unfold left_pad; len..|done].
  - intros (-> & Hf & H & En & Hnt).
    assert (11 ≤ num).
    { destruct H as (ps & _ & H8 & E). apply (f_equal length) in E. unfold left_pad in E.
      rewrite !length_app, length_replicate in E. cbn [length] in E. lia. }
    rewrite check_type_2_em by (done || lia).
    apply check_em_iff; [unfold left_pad; auto with vtls|unfold left_pad; len..|done|done].
Qed.

Lemma check_PKCS1_type_2_iff_witness :
  let from := [2; 1; 1; 1; 1; 1; 1; 1; 1; 0; 7; 9] in
  RSA_padding_check_PKCS1_type_2 true 5 from 13 = (2, [7; 9]) ↔
  true = true ∧ Z.of_nat (length from) ≤ 13 ∧ type_2_block [7; 9] (left_pad 13 from) ∧ 2 = Z.of_nat 2 ∧ 2 ≤ 5.
Proof.
  apply (check_PKCS1_type_2_iff true 5 [2; 1; 1; 1; 1; 1; 1; 1; 1; 0; 7; 9] 13 2 [7; 9]).
  - apply (bool_decide_unpack _); vm_compute; reflexivity.
  - lia.
  - lia.
  - lia.
Defined.

(** The random padding has no zero byte. *)
Lemma draw_nonzero_spec e b e' : bytes e → draw_nonzero e = Some (b, e') → is_byte b ∧ b ≠ 0 ∧ bytes e'.
Proof.
  intros He. revert b e'. induction He as [|x e Hx He IH]; intros b e'; cbn [draw_nonzero]; [done|].
  destruct (Z.eqb_spec x 0); [apply IH|]. by intros [= <- <-].
Qed.

Lemma replace_zeros_spec p : ∀ e q e', bytes p → bytes e → replace_zeros p e = Some (q, e') →
  bytes q ∧ Forall (λ b, b ≠ 0) q ∧ length q = length p.
Proof.
  induction p as [|x p IH]; intros e q e' Hp He; cbn [replace_zeros]; [by intros [= <- <-]|].
  apply bytes_cons_inv in Hp as [Hx Hp].
  destruct (if x =? 0 then _ else _) as [[y e1]|] eqn:E; [|done].
  assert (is_byte y ∧ y ≠ 0 ∧ bytes e1) as (Hy & Hy0 & He1).
  { destruct (Z.eqb_spec x 0); [by eapply draw_nonzero_spec|]. by injection E as <- <-. }
  destruct (replace_zeros p e1) as [[q' e2]|] eqn:Er; [|done]. intros [= <- <-].
  destruct (IH _ _ _ Hp He1 Er) as (? & ? & ?). split_and!; [by constructor..|cbn [length]; lia].
Qed.

(** Bytes that must be drawn again and bytes that can replace them. *)
Definition zeros (l : list Z) : nat := length (filter (λ b, b = 0) l).
Definition nonzeros (l : list Z) : nat := length (filter (λ b, b ≠ 0) l).

Lemma draw_nonzero_total e : (0 < nonzeros e)%nat →
  ∃ b e', draw_nonzero e = Some (b, e') ∧ nonzeros e = S (nonzeros e').
Proof.
  induction e as [|x e IH]; unfold nonzeros; cbn [draw_nonzero]; [cbn; lia|].
  rewrite filter_cons. destruct (Z.eqb_spec x 0) as [->|Hx].
  - rewrite decide_False by auto. apply IH.
  - rewrite decide_True by done. intros _. by eexists _, _.
Qed.

Lemma replace_zeros_total p : ∀ e, (zeros p ≤ nonzeros e)%nat → ∃ q e', replace_zeros p e = Some (q, e').
Proof.
  induction p as [|x p IH]; intros e H; cbn [replace_zeros]; [eauto|].
  unfold zeros in H. rewrite filter_cons in H. destruct (Z.eqb_spec x 0) as [->|Hx].
  - rewrite decide_True in H by done. cbn [length] in H.
    destruct (draw_nonzero_total e) as (b & e' & -> & E); [lia|].
    destruct (IH e') as (q & e2 & ->); [unfold zeros; lia|]. eauto.
  - rewrite decide_False in H by done. destruct (IH e H) as (q & e2 & ->). eauto.
Qed.

Lemma add_type_2_spec e tlen msg : bytes e → Z.of_nat (length msg) + 11 ≤ tlen →
  let j := Z.to_nat (tlen - 3 - Z.of_nat (length msg)) in
  (j ≤ length e)%nat → (zeros (take j e) ≤ nonzeros (drop j e))%nat →
  ∃ ps, RSA_padding_add_PKCS1_type_2 e tlen msg = (1, [0; 2] ++ ps ++ [0] ++ msg) ∧
        bytes ps ∧ Forall (λ b, b ≠ 0) ps ∧ length ps = j.
Proof.
  intros He Hl j Hj Hz. unfold RSA_padding_add_PKCS1_type_2. rewrite (proj2 (Z.ltb_ge _ _)) by lia. fold j.
  unfold RAND_bytes. rewrite (proj2 (Nat.leb_le _ _)) by done.
  destruct (replace_zeros_total _ _ Hz) as (q & e' & E). rewrite E.
  destruct (replace_zeros_spec _ _ _ _ (bytes_take j e He) (bytes_drop j e He) E) as (? & ? & Hq).
  exists q. rewrite length_take in Hq. split_and!; (done || lia).
Qed.

(** what is padded can be recovered.  For a modulus of [tlen] bytes, a message
    that leaves eleven bytes is padded with either block type, the result has the
    size of the modulus, and once its leading zero byte is dropped (as in the
    conversion from a number) the check returns the message.  Block type 2 needs a
    generator that delivers a non-zero byte for every zero among the first bytes
    drawn.  A longer message is refused. *)
Theorem PKCS1_padding_roundtrip e tlen tlen' msg :
  bytes e → bytes msg → Z.of_nat (length msg) ≤ tlen' < 2 ^ 31 → tlen < 2 ^ 31 →
  let j := Z.to_nat (tlen - 3 - Z.of_nat (length msg)) in
  (j ≤ length e)%nat → (zeros (take j e) ≤ nonzeros (drop j e))%nat →
  (Z.of_nat (length msg) + 11 ≤ tlen →
   (∃ em, RSA_padding_add_PKCS1_type_1 tlen msg = (1, em) ∧ Z.of_nat (length em) = tlen ∧
          RSA_padding_check_PKCS1_type_1 tlen' (drop 1 em) tlen = (Z.of_nat (length msg), msg)) ∧
   (∃ em, RSA_padding_add_PKCS1_type_2 e tlen msg = (1, em) ∧ Z.of_nat (length em) = tlen ∧
          RSA_padding_check_PKCS1_type_2 true tlen' (drop 1 em) tlen = (Z.of_nat (length msg), msg))) ∧
  (tlen < Z.of_nat (length msg) + 11 →
   RSA_padding_add_PKCS1_type_1 tlen msg = (0, []) ∧ RSA_padding_add_PKCS1_type_2 e tlen msg = (0, [])).
Proof.
  intros He Hm Ht' Ht j Hj Hz. split.
  2: { intros Hl. unfold RSA_padding_add_PKCS1_type_1, RSA_padding_add_PKCS1_type_2, RSA_PKCS1_PADDING_SIZE.
       by rewrite (proj2 (Z.ltb_lt _ _)) by lia. }
  intros Hl. split.
  - eexists. unfold RSA_padding_add_PKCS1_type_1, RSA_PKCS1_PADDING_SIZE. rewrite (proj2 (Z.ltb_ge _ _)) by lia.
    fold j. split; [done|]. split; [len; cbn [length]; lia|].
    change (drop 1 ([0; 1] ++ ?l)) with ([1] ++ l). apply check_type_1_iff; [lia|].
    split_and!; [len; cbn [length]; lia|exists j; split; [lia|done]|done|lia].
  - destruct (add_type_2_spec e tlen msg He Hl Hj Hz) as (ps & -> & Hb & Hps & Hlp). fold j in Hlp.
    eexists. split; [done|]. split; [len; cbn [length]; lia|]. change (drop 1 ([0; 2] ++ ?l)) with ([2] ++ l).
    assert (bytes ([2] ++ ps ++ [0] ++ msg)) as Hbe.
    { repeat (apply bytes_app; [done || (repeat constructor; lia)|]). done. }
    assert (Z.of_nat (length ([2] ++ ps ++ [0] ++ msg)) + 1 = tlen) as Hle by (len; cbn [length]; lia).
    assert (left_pad tlen ([2] ++ ps ++ [0] ++ msg) = [0; 2] ++ ps ++ [0] ++ msg) as Ep.
    { unfold left_pad. by replace (Z.to_nat tlen - _)%nat with 1%nat by lia. }
    rewrite check_type_2_em, Ep by (done || lia).
    apply check_em_iff; [constructor; [unfold is_byte; lia|done]|cbn [app length] in *; lia..|].
    split; [exists ps; split_and!; [done|lia|done]|lia].
Qed.

Lemma PKCS1_padding_roundtrip_witness :
  let msg := [7; 0; 9] in
  (Z.of_nat (length msg) + 11 ≤ 16 →
   (∃ em, RSA_padding_add_PKCS1_type_1 16 msg = (1, em) ∧ Z.of_nat (length em) = 16 ∧
          RSA_padding_check_PKCS1_type_1 16 (drop 1 em) 16 = (Z.of_nat (length msg), msg)) ∧
   (∃ em, RSA_padding_add_PKCS1_type_2 ([1; 2; 0; 4; 5; 6; 7; 8; 9; 10; 0; 77]) 16 msg = (1, em) ∧
          Z.of_nat (length em) = 16 ∧
          RSA_padding_check_PKCS1_type_2 true 16 (drop 1 em) 16 = (Z.of_nat (length msg), msg))) ∧
  (16 < Z.of_nat (length msg) + 11 →
   RSA_padding_add_PKCS1_type_1 16 msg = (0, []) ∧
   RSA_padding_add_PKCS1_type_2 [1; 2; 0; 4; 5; 6; 7; 8; 9; 10; 0; 77] 16 msg = (0, [])).
Proof.
  apply (PKCS1_padding_roundtrip [1; 2; 0; 4; 5; 6; 7; 8; 9; 10; 0; 77] 16 16 [7; 0; 9]).
  - apply (bool_decide_unpack _); vm_compute; reflexivity.
  - apply (bool_decide_unpack _); vm_compute; reflexivity.
  - cbn. lia.
  - lia.
  - cbn. lia.
  - vm_compute. lia.
Defined.
