(* ===== verification/Pqueue.v ===== *)
(** * The DTLS priority queue

    Models [ssl/pqueue/pqueue.c].  The linked list of [pitem]s is a list in
    [next] order; an item carries its eight priority bytes and its data.  The
    theorems show that the queue is a strictly sorted list keyed by the
    big-endian value of the priority, i.e. a finite map whose smallest key is
    popped first. *)

From S2P Require Import Prelude.
From stdpp Require Import gmap sorting.
#[local] Open Scope Z_scope.

Section pqueue.
Context {D : Type}.

Record pitem := { priority : list Z; data : D }.

(** The queue is the list of its items: the [count] field is never used. *)
Definition pqueue := list pitem.

(** C's [memcmp]: the sign of the first difference. *)
Fixpoint memcmp (a b : list Z) (n : nat) : Z :=
  match n, a, b with
  | S n', x :: a', y :: b' => if x =? y then memcmp a' b' n' else if x <? y then -1 else 1
  | _, _, _ => 0
  end.

Definition pitem_new (prio64be : list Z) (d : D) : pitem :=
  {| priority := take 8 prio64be; data := d |}.

Definition pqueue_new : pqueue := [].

(** The loop of [pqueue_insert] from a node [next] on: the list that replaces
    it, or [None] for a duplicate. *)
Fixpoint insert_loop (next : pqueue) (item : pitem) : option pqueue :=
  match next with
  | [] => Some [item]
  | n :: rest =>
      let cmp := memcmp (priority n) (priority item) 8 in
      if 0 <? cmp then Some (item :: n :: rest)
      else if cmp =? 0 then None
      else match insert_loop rest item with
           | Some rest' => Some (n :: rest')
           | None => None
           end
  end.

(** Returns the inserted item ([None] for C's [NULL]) and the new queue. *)
Definition pqueue_insert (pq : pqueue) (item : pitem) : option pitem * pqueue :=
  match pq with
  | [] => (Some item, [item])
  | _ => match insert_loop pq item with
         | Some pq' => (Some item, pq')
         | None => (None, pq)
         end
  end.

Definition pqueue_peek (pq : pqueue) : option pitem := head pq.

Definition pqueue_pop (pq : pqueue) : option pitem * pqueue := (head pq, tail pq).

(** The loop of [pqueue_find] stops at the first match or at the last node;
    the result is [found] and the node [next] points at. *)
Fixpoint find_loop (next : pitem) (rest : list pitem) (prio64be : list Z)
    : option pitem * pitem :=
  match rest with
  | [] => (None, next)
  | n :: rest' =>
      if memcmp (priority next) prio64be 8 =? 0 then (Some next, next)
      else find_loop n rest' prio64be
  end.

Definition pqueue_find (pq : pqueue) (prio64be : list Z) : option pitem :=
  match pq with
  | [] => None
  | n :: rest =>
      let '(found, next) := find_loop n rest prio64be in
      if memcmp (priority next) prio64be 8 =? 0 then Some next else found
  end.

Definition pqueue_iterator (pq : pqueue) : option pitem := pqueue_peek pq.

(** [*item] is a position in the list: the nodes from it on. *)
Definition pqueue_next (item : list pitem) : option pitem * list pitem :=
  match item with
  | [] => (None, [])
  | i :: rest => (Some i, rest)
  end.

Fixpoint pqueue_size (pq : pqueue) : Z :=
  match pq with
  | [] => 0
  | _ :: rest => 1 + pqueue_size rest
  end.

(** ** Priorities *)

Definition key (i : pitem) : Z := be_load (priority i).

Definition item_wf (i : pitem) : Prop := bytes (priority i) ∧ length (priority i) = 8%nat.

Lemma memcmp_be_load a b n :
  bytes a → bytes b → length a = n → length b = n →
  memcmp a b n = Z.sgn (be_load a - be_load b).
Proof.
  intros Ha. revert b n. induction Ha as [|x a Hx Ha IH]; intros b n Hb <- Hl.
  - destruct b; [done|discriminate].
  - destruct b as [|y b]; [discriminate|]. simpl in Hl. injection Hl as Hl.
    inversion Hb as [|?? Hy Hb']; subst.
    change (x :: a) with ([x] ++ a). change (y :: b) with ([y] ++ b).
    rewrite !be_load_app, Hl by done. cbn [app length memcmp].
    change (be_load [x]) with (le_load [x]). change (be_load [y]) with (le_load [y]).
    rewrite !le_load_cons, !le_load_nil by done.
    pose proof (be_load_bound a Ha). pose proof (be_load_bound b Hb').
    rewrite Hl in *.
    destruct (Z.eqb_spec x y) as [->|]; [rewrite IH by done; f_equal; lia|].
    unfold is_byte in *. destruct (Z.ltb_spec x y); symmetry; [apply Z.sgn_neg|apply Z.sgn_pos]; nia.
Qed.

Lemma memcmp_key i j : item_wf i → item_wf j →
  memcmp (priority i) (priority j) 8 = Z.sgn (key i - key j).
Proof. intros [??] [??]. by apply memcmp_be_load. Qed.

Lemma memcmp_key_prio i p : item_wf i → bytes p → length p = 8%nat →
  memcmp (priority i) p 8 = Z.sgn (key i - be_load p).
Proof. intros [??] ??. by apply memcmp_be_load. Qed.

(** ** The invariant *)

Definition key_lt (i j : pitem) : Prop := key i < key j.

(** Well-formed items in strictly increasing order of priority. *)
Definition pqueue_wf (pq : pqueue) : Prop :=
  Forall item_wf pq ∧ StronglySorted key_lt pq.

(** The finite map the queue stands for. *)
Definition to_map (pq : pqueue) : gmap Z pitem := list_to_map ((λ i, (key i, i)) <$> pq).

Lemma to_map_cons i pq : to_map (i :: pq) = <[key i := i]> (to_map pq).
Proof. done. Qed.

Lemma to_map_lookup_lt pq k : Forall (λ i, k < key i) pq → to_map pq !! k = None.
Proof.
  induction 1 as [|i pq Hi _ IH]; [apply lookup_empty|].
  rewrite to_map_cons, lookup_insert_ne by lia. done.
Qed.

Lemma sorted_lookup_lt i pq k : StronglySorted key_lt (i :: pq) → k ≤ key i →
  to_map pq !! k = None.
Proof.
  intros Hs Hk. apply to_map_lookup_lt. inversion Hs; subst.
  eapply Forall_impl; [done|]. unfold key_lt. simpl. intros. lia.
Qed.

(** The loop in terms of keys. *)
Lemma insert_loop_spec pq item : pqueue_wf pq → item_wf item →
  match insert_loop pq item with
  | Some pq' =>
      pqueue_wf pq' ∧ to_map pq !! key item = None ∧
      to_map pq' = <[key item := item]> (to_map pq) ∧
      (∀ k, k < key item → Forall (λ i, k < key i) pq → Forall (λ i, k < key i) pq')
  | None => is_Some (to_map pq !! key item)
  end.
Proof.
  intros [Hw Hs] Hi. induction pq as [|n pq IH].
  { simpl. split; [split; repeat constructor; apply Hi|].
    split; [apply lookup_empty|]. split; [done|]. intros; by constructor. }
  inversion Hw as [|?? Hn Hw']; inversion Hs as [|?? Hs' Hlt]; subst.
  cbn [insert_loop]. rewrite memcmp_key by done. specialize (IH Hw' Hs').
  destruct (Z.ltb_spec 0 (Z.sgn (key n - key item))) as [Hgt|Hle];
    [|destruct (Z.eqb_spec (Z.sgn (key n - key item)) 0) as [He|Hne]].
  - assert (key item < key n) by lia.
    assert (Forall (key_lt item) (n :: pq)).
    { constructor; [done|]. eapply Forall_impl; [done|]. unfold key_lt. intros. lia. }
    split; [split; by constructor|]. split; [|split; [done|intros; by constructor]].
    + rewrite to_map_cons, lookup_insert_ne by lia. by apply (sorted_lookup_lt n); [|lia].
  - replace (key item) with (key n) by lia. by rewrite to_map_cons, lookup_insert_eq.
  - assert (key n < key item) by lia. rewrite to_map_cons, lookup_insert_ne by lia.
    destruct (insert_loop pq item) as [pq'|]; [|done].
    destruct IH as ([Hw2 Hs2] & Hnone & Hmap & Hall).
    split; [split; constructor; [done..|by apply (Hall (key n))]|].
    split; [done|]. split.
    + by rewrite to_map_cons, Hmap, insert_insert_ne by lia.
    + intros k Hk Hf. inversion Hf; subst. constructor; auto.
Qed.

Lemma pqueue_insert_spec (pq : pqueue) (item : pitem) :
  pqueue_wf pq → item_wf item →
  match to_map pq !! key item with
  | Some _ => pqueue_insert pq item = (None, pq)
  | None => ∃ pq', pqueue_insert pq item = (Some item, pq') ∧ pqueue_wf pq' ∧
              to_map pq' = <[key item := item]> (to_map pq)
  end.
Proof.
  intros Hq Hi. pose proof (insert_loop_spec pq item Hq Hi) as H.
  destruct pq as [|n pq].
  { simpl in H |- *. exists [item]. split; [done|]. destruct H as (? & _ & ? & _). done. }
  unfold pqueue_insert. destruct (insert_loop (n :: pq) item) as [pq'|].
  - destruct H as (Hw & -> & Hm & _). eauto.
  - destruct H as [x ->]. done.
Qed.

(** [pqueue_insert] on a well-formed queue: an item whose priority is
    already present is refused and the queue is unchanged; any other item is
    accepted, the queue stays strictly sorted and its map gains exactly that
    entry. *)
Theorem pqueue_insert_refines (pq : pqueue) (item : pitem) :
  pqueue_wf pq → item_wf item →
  match to_map pq !! key item with
  | Some _ => pqueue_insert pq item = (None, pq)
  | None => ∃ pq', pqueue_insert pq item = (Some item, pq') ∧ pqueue_wf pq' ∧
              to_map pq' = <[key item := item]> (to_map pq)
  end.
Proof. apply pqueue_insert_spec. Qed.

(** [pqueue_pop] on a well-formed queue returns [NULL] exactly when the map
    is empty, and otherwise the entry with the smallest priority, which is
    removed from the map; the queue stays well formed. *)
Theorem pqueue_pop_min (pq : pqueue) :
  pqueue_wf pq →
  match pqueue_pop pq with
  | (None, pq') => to_map pq = ∅ ∧ pq' = []
  | (Some i, pq') =>
      to_map pq !! key i = Some i ∧ (∀ k j, to_map pq !! k = Some j → key i ≤ k) ∧
      pqueue_wf pq' ∧ to_map pq' = delete (key i) (to_map pq)
  end.
Proof.
  intros [Hw Hs]. destruct pq as [|i pq]; [done|]. simpl.
  inversion Hw as [|?? Hi Hw']; inversion Hs as [|?? Hs' Hlt]; subst.
  rewrite to_map_cons, lookup_insert_eq. split; [done|]. split; [|split; [done|]].
  - intros k j Hk. apply Z.nlt_ge. intros Hlt'.
    rewrite lookup_insert_ne, (sorted_lookup_lt i) in Hk by (done || lia). done.
  - rewrite delete_insert_id; [done|]. apply (sorted_lookup_lt i); [done|lia].
Qed.

Lemma find_loop_spec n (pq : pqueue) prio : Forall item_wf (n :: pq) →
  StronglySorted key_lt (n :: pq) → bytes prio → length prio = 8%nat →
  (let '(found, next) := find_loop n pq prio in
   if memcmp (priority next) prio 8 =? 0 then Some next else found) =
  to_map (n :: pq) !! be_load prio.
Proof.
  intros Hw Hs Hb Hl. revert n Hw Hs. induction pq as [|m pq IH]; intros n Hw Hs;
    inversion Hw as [|?? Hn Hw']; subst.
  - cbn [find_loop]. rewrite memcmp_key_prio, to_map_cons by done.
    destruct (Z.eqb_spec (Z.sgn (key n - be_load prio)) 0).
    + replace (be_load prio) with (key n) by lia. by rewrite lookup_insert_eq.
    + rewrite lookup_insert_ne by lia. symmetry. apply lookup_empty.
  - cbn [find_loop]. rewrite memcmp_key_prio, to_map_cons by done.
    destruct (Z.eqb_spec (Z.sgn (key n - be_load prio)) 0) as [He|Hne].
    + rewrite memcmp_key_prio by done. rewrite (proj2 (Z.eqb_eq _ _) He).
      replace (be_load prio) with (key n) by lia. by rewrite lookup_insert_eq.
    + inversion Hs; subst. rewrite IH, lookup_insert_ne by (done || lia). done.
Qed.

(** [pqueue_find] is lookup in the map the queue stands for. *)
Theorem pqueue_find_refines (pq : pqueue) prio :
  pqueue_wf pq → bytes prio → length prio = 8%nat →
  pqueue_find pq prio = to_map pq !! be_load prio.
Proof.
  intros [Hw Hs] ??. destruct pq as [|n pq]; [done|]. by apply find_loop_spec.
Qed.

Lemma pqueue_size_length (pq : pqueue) : pqueue_size pq = Z.of_nat (length pq).
Proof. induction pq; simpl; lia. Qed.

Lemma pqueue_new_wf : pqueue_wf pqueue_new ∧ to_map pqueue_new = ∅.
Proof. split; [split; constructor|done]. Qed.
End pqueue.
Arguments pitem : clear implicits.
Arguments pqueue : clear implicits.
Arguments pqueue_new {_}.

Definition demo_item (n : Z) : pitem nat := pitem_new (be_store 8 n) (Z.to_nat n).

Lemma demo_item_wf n : item_wf (demo_item n).
Proof.
  unfold item_wf, demo_item, pitem_new. cbn [priority].
  split; [apply bytes_take, bytes_be_store|].
  rewrite length_take, length_be_store. done.
Qed.

Definition demo_queue : pqueue nat := [demo_item 3; demo_item 7].

Lemma demo_queue_wf : pqueue_wf demo_queue.
Proof.
  split; [constructor; [apply demo_item_wf|constructor; [apply demo_item_wf|constructor]]|].
  repeat constructor; vm_compute; reflexivity.
Qed.

Lemma pqueue_insert_refines_witness :
  pqueue_insert demo_queue (demo_item 3) = (None, demo_queue).
Proof. exact (pqueue_insert_refines demo_queue (demo_item 3) demo_queue_wf (demo_item_wf 3)). Defined.

Lemma pqueue_pop_min_witness :
  to_map demo_queue !! 3 = Some (demo_item 3).
Proof. exact (proj1 (pqueue_pop_min demo_queue demo_queue_wf)). Defined.

Lemma pqueue_find_refines_witness :
  pqueue_find demo_queue (be_store 8 7) = Some (demo_item 7).
Proof.
  rewrite (pqueue_find_refines demo_queue (be_store 8 7) demo_queue_wf
    (bytes_be_store 8 7) (length_be_store 8 7)). vm_compute. reflexivity.
Defined.
