(* ===== verification/DtlsReplay.v ===== *)
(** * DTLS anti-replay window

    Models the replay protection of [ssl/d1_pkt.c]: the saturating
    subtraction [satsub64be] (the path little-endian machines take), the window
    check and update, the choice of the window for an epoch and the change of
    epoch in [dtls1_reset_seq_numbers].  A sequence number is its eight
    big-endian bytes, the window is a 64-bit map ([unsigned long]) below the
    highest number seen.

    The abstract specification is the set of sequence numbers received so far:
    [window_repr] relates a [DTLS1_BITMAP] to that set, and the theorems show
    that the check accepts exactly the fresh numbers inside the window and that
    the update adds the number to the set.  [DtlsRecord] models the function that
    uses them, [dtls1_get_record]. *)

From S2P Require Import Prelude RecordCbc Pqueue.
From stdpp Require Import gmap.
#[local] Open Scope Z_scope.

Record DTLS1_BITMAP := { bmap : Z; max_seq_num : list Z }.

(** The parts of [SSL], [s->s3] and [s->d1] these functions use. *)
Record dtls_state := {
  read_sequence : list Z;
  write_sequence : list Z;
  last_write_sequence : list Z;
  r_epoch : Z;
  w_epoch : Z;
  bitmap : DTLS1_BITMAP;
  next_bitmap : DTLS1_BITMAP;
  unprocessed_epoch : Z;
  rrec : SSL3_RECORD;
  buffered_messages : pqueue (list Z);
}.

(** The inner [while (++i <= 6)]: the remaining bytes of the larger number are
    all 0x00 and those of the smaller all 0xff. *)
Fixpoint carry_run (larger smaller : list Z) (n : nat) : bool :=
  match n, larger, smaller with
  | S n', x :: l, y :: s => if (x =? 0) && (y =? 255) then carry_run l s n' else false
  | _, _, _ => true
  end.

(** The [for] loop over the seven leading bytes: [inl] is an early return,
    [inr] the value of [ret] after the loop. *)
Fixpoint satsub_loop (v1 v2 : list Z) (n : nat) : Z + Z :=
  match n, v1, v2 with
  | S n', x :: l1, y :: l2 =>
      if y <? x then
        if negb (x =? y + 1) then inl 128
        else if carry_run l1 l2 n' then inr 256 else inl 128
      else if x <? y then
        if negb (y =? x + 1) then inl (-128)
        else if carry_run l2 l1 n' then inr (-256) else inl (-128)
      else satsub_loop l1 l2 n'
  | _, _, _ => inr 0
  end.

Definition satsub64be (v1 v2 : list Z) : Z :=
  match satsub_loop v1 v2 7 with
  | inl r => r
  | inr ret =>
      let ret := ret + (getb v1 7 - getb v2 7) in
      if 128 <? ret then 128 else if ret <? -128 then -128 else ret
  end.

Definition set_seq_num (r : SSL3_RECORD) (seq : list Z) : SSL3_RECORD :=
  {| rec_type := rec_type r; rec_length := rec_length r; rec_off := rec_off r;
     rec_data := rec_data r; rec_input := rec_input r; rec_epoch := rec_epoch r;
     rec_seq_num := seq |}.

Definition set_rrec (s : dtls_state) (r : SSL3_RECORD) : dtls_state :=
  {| read_sequence := read_sequence s; write_sequence := write_sequence s;
     last_write_sequence := last_write_sequence s; r_epoch := r_epoch s;
     w_epoch := w_epoch s; bitmap := bitmap s; next_bitmap := next_bitmap s;
     unprocessed_epoch := unprocessed_epoch s; rrec := r;
     buffered_messages := buffered_messages s |}.

(** Returns the verdict and the state, in which an accepted record's sequence
    number has been copied into [rrec]. *)
Definition dtls1_record_replay_check (s : dtls_state) (bm : DTLS1_BITMAP) : Z * dtls_state :=
  let seq := read_sequence s in
  let cmp := satsub64be seq (max_seq_num bm) in
  if 0 <? cmp then (1, set_rrec s (set_seq_num (rrec s) seq))
  else
    let shift := - cmp in
    if 64 <=? shift then (0, s)
    else if negb (Z.land (bmap bm) (1 ≪ shift) =? 0) then (0, s)
    else (1, set_rrec s (set_seq_num (rrec s) seq)).

Definition dtls1_record_bitmap_update (s : dtls_state) (bm : DTLS1_BITMAP) : DTLS1_BITMAP :=
  let seq := read_sequence s in
  let cmp := satsub64be seq (max_seq_num bm) in
  if 0 <? cmp then
    {| bmap := if cmp <? 64 then Z.lor (u64 (bmap bm ≪ cmp)) 1 else 1;
       max_seq_num := seq |}
  else
    let shift := - cmp in
    if shift <? 64 then
      {| bmap := Z.lor (bmap bm) (u64 (1 ≪ shift)); max_seq_num := max_seq_num bm |}
    else bm.

Definition SSL3_RT_ALERT : Z := 21.
Definition SSL3_RT_HANDSHAKE : Z := 22.

Inductive which_bitmap := BM_current | BM_next.

(** The window for the record's epoch ([None] for [NULL]), and [is_next_epoch]. *)
Definition dtls1_get_bitmap (s : dtls_state) (rr : SSL3_RECORD) : option which_bitmap * Z :=
  if rec_epoch rr =? r_epoch s then (Some BM_current, 0)
  else if (rec_epoch rr =? r_epoch s + 1) && negb (unprocessed_epoch s =? r_epoch s) &&
          ((rec_type rr =? SSL3_RT_HANDSHAKE) || (rec_type rr =? SSL3_RT_ALERT))
  then (Some BM_next, 1)
  else (None, 0).

(** [dtls1_clear_received_buffer]: pop until the queue is empty; the fuel is the
    length of the queue. *)
Fixpoint clear_loop (q : pqueue (list Z)) (fuel : nat) : pqueue (list Z) :=
  match fuel with
  | O => q
  | S fuel' => match pqueue_pop q with
               | (None, q') => q'
               | (Some _, q') => clear_loop q' fuel'
               end
  end.

Definition dtls1_clear_received_buffer (q : pqueue (list Z)) : pqueue (list Z) :=
  clear_loop q (length q).

Definition SSL3_CC_READ : Z := 1.
Definition empty_bitmap : DTLS1_BITMAP := {| bmap := 0; max_seq_num := replicate 8 0 |}.

Definition dtls1_reset_seq_numbers (s : dtls_state) (rw : Z) : dtls_state :=
  if negb (Z.land rw SSL3_CC_READ =? 0) then
    {| read_sequence := replicate 8 0; write_sequence := write_sequence s;
       last_write_sequence := last_write_sequence s; r_epoch := u16 (r_epoch s + 1);
       w_epoch := w_epoch s; bitmap := next_bitmap s; next_bitmap := empty_bitmap;
       unprocessed_epoch := unprocessed_epoch s; rrec := rrec s;
       buffered_messages := dtls1_clear_received_buffer (buffered_messages s) |}
  else
    {| read_sequence := read_sequence s; write_sequence := replicate 8 0;
       last_write_sequence := write_sequence s; r_epoch := r_epoch s;
       w_epoch := u16 (w_epoch s + 1); bitmap := bitmap s; next_bitmap := next_bitmap s;
       unprocessed_epoch := unprocessed_epoch s; rrec := rrec s;
       buffered_messages := buffered_messages s |}.

(** ** The saturating subtraction *)

Definition clamp128 (z : Z) : Z := Z.max (-128) (Z.min 128 z).

Definition is_seq (v : list Z) : Prop := bytes v ∧ length v = 8%nat.

Lemma carry_run_spec l s n : bytes l → bytes s → length l = n → length s = n →
  - (2 ^ (8 * Z.of_nat n) - 1) ≤ be_load l - be_load s ∧
  (carry_run l s n = true ↔ be_load l - be_load s = - (2 ^ (8 * Z.of_nat n) - 1)).
Proof.
  intros Hl. revert s n. induction Hl as [|x l Hx Hl IH]; intros s n Hs <- Hlen.
  { destruct s; [|discriminate]. simpl. vm_compute. split; [congruence|done]. }
  destruct s as [|y s]; [discriminate|]. injection Hlen as Hlen.
  inversion Hs as [|?? Hy Hs']; subst. cbn [carry_run length].
  destruct (IH s (length l) Hs' eq_refl Hlen) as [IH1 IH2].
  rewrite !be_load_cons, Hlen by done.
  replace (8 * Z.of_nat (S (length l))) with (8 + 8 * Z.of_nat (length l)) by lia.
  rewrite Z.pow_add_r by lia. change (2 ^ 8) with 256.
  assert (0 < 2 ^ (8 * Z.of_nat (length l))) by (apply Z.pow_pos_nonneg; lia).
  unfold is_byte in *.
  destruct (Z.eqb_spec x 0), (Z.eqb_spec y 255); simpl; subst;
    (split; [nia|]); rewrite ?IH2; split; intros; first [discriminate | nia].
Qed.

Lemma satsub_loop_spec v1 v2 n : bytes v1 → bytes v2 → length v1 = n → length v2 = n →
  match satsub_loop v1 v2 n with
  | inl r => (r = 128 ∧ 2 ≤ be_load v1 - be_load v2) ∨
             (r = -128 ∧ be_load v1 - be_load v2 ≤ -2)
  | inr ret => ret = 256 * (be_load v1 - be_load v2)
  end.
Proof.
  intros H1. revert v2 n. induction H1 as [|x l Hx Hl IH]; intros v2 n H2 <- Hlen.
  { destruct v2; [done|discriminate]. }
  destruct v2 as [|y s]; [discriminate|]. injection Hlen as Hlen.
  inversion H2 as [|?? Hy Hs]; subst. cbn [satsub_loop length].
  specialize (IH s (length l) Hs eq_refl Hlen).
  destruct (carry_run_spec l s (length l) Hl Hs eq_refl Hlen) as [Ha1 Ha2].
  destruct (carry_run_spec s l (length l) Hs Hl Hlen eq_refl) as [Hb1 Hb2].
  rewrite !be_load_cons, Hlen by done.
  assert (0 < 2 ^ (8 * Z.of_nat (length l))) by (apply Z.pow_pos_nonneg; lia).
  destruct (Z.ltb_spec y x); [|destruct (Z.ltb_spec x y)].
  - destruct (Z.eqb_spec x (y + 1)); simpl; [|left; split; [done|nia]].
    destruct (carry_run l s (length l)); [nia|].
    left. split; [done|]. assert (be_load l - be_load s ≠ - (2 ^ (8 * Z.of_nat (length l)) - 1))
      by (intros E; apply Ha2 in E; discriminate). nia.
  - destruct (Z.eqb_spec y (x + 1)); simpl; [|right; split; [done|nia]].
    destruct (carry_run s l (length l)); [nia|].
    right. split; [done|]. assert (be_load s - be_load l ≠ - (2 ^ (8 * Z.of_nat (length l)) - 1))
      by (intros E; apply Hb2 in E; discriminate). nia.
  - assert (x = y) as -> by lia. destruct (satsub_loop l s (length l)); lia.
Qed.

Lemma satsub_loop_take v1 v2 n : satsub_loop v1 v2 n = satsub_loop (take n v1) (take n v2) n.
Proof.
  assert (Hc : ∀ n a b, carry_run a b n = carry_run (take n a) (take n b) n).
  { clear. intros n. induction n as [|n IH]; intros a b; [by destruct a, b|].
    destruct a, b; simpl; try done. by rewrite <- IH. }
  revert v1 v2. induction n as [|n IH]; intros v1 v2; [by destruct v1, v2|].
  destruct v1, v2; simpl; try done. by rewrite <- IH, <- !Hc.
Qed.

Lemma seq_split v : is_seq v → v = take 7 v ++ [getb v 7] ∧ bytes (take 7 v) ∧ is_byte (getb v 7).
Proof.
  intros [Hb Hl]. split; [|auto with vtls].
  do 8 (destruct v as [|? v]; [discriminate|]). by destruct v.
Qed.

Lemma satsub64be_spec v1 v2 : is_seq v1 → is_seq v2 →
  satsub64be v1 v2 = clamp128 (be_load v1 - be_load v2).
Proof.
  intros H1 H2. unfold satsub64be. rewrite satsub_loop_take.
  destruct (seq_split v1 H1) as (E1 & B1 & C1), (seq_split v2 H2) as (E2 & B2 & C2).
  destruct H1 as [_ L1], H2 as [_ L2].
  pose proof (satsub_loop_spec (take 7 v1) (take 7 v2) 7 B1 B2 ltac:(len) ltac:(len)) as H.
  assert (be_load v1 = be_load (take 7 v1) * 256 + getb v1 7) as ->
    by (rewrite E1 at 1; by apply be_load_snoc).
  assert (be_load v2 = be_load (take 7 v2) * 256 + getb v2 7) as ->
    by (rewrite E2 at 1; by apply be_load_snoc).
  unfold is_byte in *. unfold clamp128.
  destruct (satsub_loop (take 7 v1) (take 7 v2) 7); [lia|]. cbv zeta.
  case_cmp; lia.
Qed.

(** [satsub64be] computes the difference of the two big-endian 64-bit
    numbers, saturated to the range from -128 to 128, for all inputs. *)
Theorem satsub64be_saturates v1 v2 :
  is_seq v1 → is_seq v2 →
  satsub64be v1 v2 =
    if 128 <? be_load v1 - be_load v2 then 128
    else if be_load v1 - be_load v2 <? -128 then -128
    else be_load v1 - be_load v2.
Proof.
  intros. rewrite satsub64be_spec by done. unfold clamp128. case_cmp; lia.
Qed.

Lemma is_seq_be_store z : is_seq (be_store 8 z).
Proof. split; [apply bytes_be_store|apply length_be_store]. Qed.

Lemma satsub64be_saturates_witness :
  satsub64be (be_store 8 65536) (be_store 8 65530) = 6 ∧
  satsub64be (be_store 8 5) (be_store 8 (2 ^ 63)) = -128.
Proof.
  rewrite !satsub64be_saturates by apply is_seq_be_store. vm_compute. split; reflexivity.
Defined.

(** ** The window as a set of received numbers *)

(** [R] is the set of numbers marked so far; only those within 64 of the maximum
    are remembered. *)
Record window_repr (bm : DTLS1_BITMAP) (R : gset Z) : Prop := {
  wr_seq : is_seq (max_seq_num bm);
  wr_map : 0 ≤ bmap bm < 2 ^ 64;
  wr_max : ∀ r, r ∈ R → 0 ≤ r ≤ be_load (max_seq_num bm);
  wr_bits : ∀ k, 0 ≤ k < 64 →
    Z.testbit (bmap bm) k = bool_decide (be_load (max_seq_num bm) - k ∈ R);
}.

(** What the check promises: new beyond the window, or unseen inside it. *)
Definition acceptable (R : gset Z) (max seq : Z) : Prop :=
  max < seq ∨ (max - seq < 64 ∧ seq ∉ R).

#[global] Instance acceptable_dec R max seq : Decision (acceptable R max seq).
Proof. unfold acceptable. apply _. Defined.

Lemma land_bit a k : 0 ≤ k → (Z.land a (1 ≪ k) =? 0) = negb (Z.testbit a k).
Proof.
  intros Hk. rewrite Z.shiftl_1_l. destruct (Z.testbit a k) eqn:E; simpl.
  - apply Z.eqb_neq. intros H0. apply (f_equal (λ z, Z.testbit z k)) in H0.
    rewrite Z.land_spec, E, Z.pow2_bits_true, Z.bits_0 in H0 by done. discriminate.
  - apply Z.eqb_eq, Z.bits_inj'. intros i Hi. rewrite Z.land_spec, Z.bits_0.
    destruct (decide (i = k)) as [->|]; [by rewrite E|].
    rewrite Z.pow2_bits_false by done. apply andb_false_r.
Qed.

Lemma replay_check_verdict s bm R : window_repr bm R → is_seq (read_sequence s) →
  (dtls1_record_replay_check s bm).1 =
  if decide (acceptable R (be_load (max_seq_num bm)) (be_load (read_sequence s))) then 1 else 0.
Proof.
  intros [Hs Hm Hmax Hbits] Hr. unfold dtls1_record_replay_check.
  rewrite satsub64be_spec by done. set (M := be_load (max_seq_num bm)) in *.
  set (q := be_load (read_sequence s)) in *. unfold clamp128, acceptable.
  destruct (Z.ltb_spec 0 (Z.max (-128) (Z.min 128 (q - M)))).
  { rewrite decide_True by lia. done. }
  destruct (Z.leb_spec 64 (- Z.max (-128) (Z.min 128 (q - M)))).
  { rewrite decide_False by lia. done. }
  replace (- Z.max (-128) (Z.min 128 (q - M))) with (M - q) by lia.
  rewrite land_bit, negb_involutive, Hbits by lia.
  replace (M - (M - q)) with q by lia. case_bool_decide.
  - rewrite decide_False; [done|]. intros [?|[_ ?]]; [lia|done].
  - rewrite decide_True; [done|]. right. split; [lia|done].
Qed.

Lemma testbit_u64 z k : 0 ≤ k < 64 → Z.testbit (u64 z) k = Z.testbit z k.
Proof. intros. unfold u64. apply Z.mod_pow2_bits_low. lia. Qed.

Lemma u64_bound z : 0 ≤ u64 z < 2 ^ 64.
Proof. apply Z.mod_pos_bound. lia. Qed.

Lemma testbit_1 k : 0 ≤ k → Z.testbit 1 k = (k =? 0).
Proof. intros. change 1 with (2 ^ 0). rewrite Z.pow2_bits_eqb by lia. apply Z.eqb_sym. Qed.

Lemma shifted_in_window (R : gset Z) M q k : (∀ r, r ∈ R → 0 ≤ r ≤ M) → M < q → 0 ≤ k →
  bool_decide (q - k ∈ {[q]} ∪ R) = (k =? 0) || bool_decide (q - k ∈ R).
Proof.
  intros HM Hq Hk. destruct (Z.eqb_spec k 0) as [->|]; simpl.
  - rewrite bool_decide_true; [done|]. rewrite Z.sub_0_r. set_solver.
  - apply bool_decide_ext. rewrite elem_of_union, elem_of_singleton.
    split; [intros [?|?]; [lia|done]|by right].
Qed.

Lemma bitmap_update_repr s bm R : window_repr bm R → is_seq (read_sequence s) →
  window_repr (dtls1_record_bitmap_update s bm) ({[be_load (read_sequence s)]} ∪ R).
Proof.
  intros [Hs Hm Hmax Hbits] Hr. unfold dtls1_record_bitmap_update.
  rewrite satsub64be_spec by done.
  pose proof (be_load_bound _ (proj1 Hr)) as Hq0.
  set (M := be_load (max_seq_num bm)) in *.
  set (q := be_load (read_sequence s)) in *. unfold clamp128.
  destruct (Z.ltb_spec 0 (Z.max (-128) (Z.min 128 (q - M)))) as [Hnew|Hold].
  - assert (∀ r, r ∈ {[q]} ∪ R → 0 ≤ r ≤ q) as HmaxR.
    { intros r. rewrite elem_of_union, elem_of_singleton. intros [->|Hr']; [lia|].
      specialize (Hmax r Hr'). lia. }
    destruct (Z.ltb_spec (Z.max (-128) (Z.min 128 (q - M))) 64) as [Hin|Hout].
    + replace (Z.max (-128) (Z.min 128 (q - M))) with (q - M) by lia.
      split; cbn [max_seq_num bmap]; fold q; [done| |done|].
      * apply lor_bound; [lia|apply u64_bound|lia].
      * intros k Hk. rewrite Z.lor_spec, testbit_u64, Z.shiftl_spec, testbit_1 by lia.
        rewrite (shifted_in_window R M) by (done || lia). rewrite orb_comm. f_equal.
        destruct (Z.lt_ge_cases k (q - M)).
        -- rewrite Z.testbit_neg_r by lia. symmetry. apply bool_decide_false.
           intros Hin'. specialize (Hmax _ Hin'). lia.
        -- rewrite Hbits by lia. apply bool_decide_ext. by replace (M - (k - (q - M))) with (q - k) by lia.
    + split; cbn [max_seq_num bmap]; fold q; [done|lia|done|].
      intros k Hk. rewrite testbit_1, (shifted_in_window R M) by (done || lia).
      rewrite bool_decide_false; [by rewrite orb_false_r|].
      intros Hin'. specialize (Hmax _ Hin'). lia.
  - assert (∀ r, r ∈ {[q]} ∪ R → 0 ≤ r ≤ M) as HmaxR.
    { intros r. rewrite elem_of_union, elem_of_singleton. intros [->|Hr']; [lia|].
      by apply Hmax. }
    destruct (Z.ltb_spec (- Z.max (-128) (Z.min 128 (q - M))) 64) as [Hin|Hout].
    + replace (- Z.max (-128) (Z.min 128 (q - M))) with (M - q) by lia.
      split; cbn [max_seq_num bmap]; fold M; [done| |done|].
      * apply lor_bound; [lia|done|apply u64_bound].
      * intros k Hk. rewrite Z.lor_spec, testbit_u64, Z.shiftl_1_l, Z.pow2_bits_eqb, Hbits by lia.
        destruct (Z.eqb_spec (M - q) k) as [<-|]; rewrite ?orb_true_r, ?orb_false_r.
        -- symmetry. apply bool_decide_true. replace (M - (M - q)) with q by lia. set_solver.
        -- apply bool_decide_ext. rewrite elem_of_union, elem_of_singleton.
           split; [by right|intros [?|?]; [lia|done]].
    + split; fold M; [done..|].
      intros k Hk. rewrite Hbits by done. apply bool_decide_ext.
      rewrite elem_of_union, elem_of_singleton. split; [by right|intros [?|?]; [lia|done]].
Qed.

Lemma empty_window_repr : window_repr empty_bitmap ∅.
Proof.
  split; [split; [apply bytes_replicate0|done]|simpl; lia|set_solver|].
  intros k Hk. rewrite bool_decide_false by set_solver. apply Z.bits_0.
Qed.

(** C19: the window check and update refine the set of received numbers: on a
    window that represents [R], the check accepts exactly a number above the
    highest one seen or an unseen number less than 64 below it, and the update
    makes the window represent [R] extended with that number. *)
Theorem replay_window_refines s bm R :
  window_repr bm R → is_seq (read_sequence s) →
  (dtls1_record_replay_check s bm).1 =
    (if decide (acceptable R (be_load (max_seq_num bm)) (be_load (read_sequence s))) then 1 else 0) ∧
  window_repr (dtls1_record_bitmap_update s bm) ({[be_load (read_sequence s)]} ∪ R).
Proof. intros. split; [by apply replay_check_verdict|by apply bitmap_update_repr]. Qed.

Definition demo_dtls (seq : Z) : dtls_state :=
  {| read_sequence := be_store 8 seq; write_sequence := replicate 8 0;
     last_write_sequence := replicate 8 0; r_epoch := 1; w_epoch := 1;
     bitmap := empty_bitmap; next_bitmap := empty_bitmap; unprocessed_epoch := 2;
     rrec := blank_record; buffered_messages := [] |}.

Lemma replay_window_refines_witness :
  (dtls1_record_replay_check (demo_dtls 9) empty_bitmap).1 = 1 ∧
  window_repr (dtls1_record_bitmap_update (demo_dtls 9) empty_bitmap) ({[9]} ∪ ∅).
Proof.
  exact (replay_window_refines (demo_dtls 9) empty_bitmap ∅ empty_window_repr (is_seq_be_store 9)).
Defined.

(** ** Change of epoch *)

Lemma clear_loop_nil q fuel : (length q ≤ fuel)%nat → clear_loop q fuel = [].
Proof.
  revert q. induction fuel as [|fuel IH]; intros q Hq; [by destruct q; simpl in *; [|lia]|].
  destruct q as [|i q]; [done|]. simpl in *. apply IH. lia.
Qed.

(** switching the read epoch promotes the window of the next epoch, starts a
    fresh window after it, restarts the read sequence and drops every buffered
    handshake message; the write side is untouched.  A record of the new epoch is
    then judged by the promoted window, which still represents the numbers
    already seen in that epoch. *)
Theorem reset_read_epoch s R rr :
  0 ≤ r_epoch s < 2 ^ 16 - 1 → rec_epoch rr = r_epoch s + 1 →
  window_repr (next_bitmap s) R →
  let s' := dtls1_reset_seq_numbers s SSL3_CC_READ in
  dtls1_get_bitmap s' rr = (Some BM_current, 0) ∧
  window_repr (bitmap s') R ∧ window_repr (next_bitmap s') ∅ ∧
  be_load (read_sequence s') = 0 ∧ buffered_messages s' = [] ∧
  write_sequence s' = write_sequence s ∧ w_epoch s' = w_epoch s.
Proof.
  intros He Hr Hw s'. unfold s', dtls1_reset_seq_numbers. simpl.
  split; [|split; [done|split; [apply empty_window_repr|]]].
  - unfold dtls1_get_bitmap. simpl. unfold u16. rewrite Z.mod_small, Hr, Z.eqb_refl by lia. done.
  - split; [done|]. split; [|done]. unfold dtls1_clear_received_buffer. by apply clear_loop_nil.
Qed.

Lemma reset_read_epoch_witness :
  dtls1_get_bitmap (dtls1_reset_seq_numbers (demo_dtls 7) SSL3_CC_READ)
    {| rec_type := 23; rec_length := 0; rec_off := 0; rec_data := []; rec_input := [];
       rec_epoch := 2; rec_seq_num := [] |} = (Some BM_current, 0).
Proof.
  refine (proj1 (reset_read_epoch (demo_dtls 7) ∅ {| rec_type := 23; rec_length := 0;
    rec_off := 0; rec_data := []; rec_input := []; rec_epoch := 2; rec_seq_num := [] |} _ _ _)).
  - simpl; lia.
  - reflexivity.
  - apply empty_window_repr.
Defined.
