(* ===== verification/DtlsRecord.v ===== *)
(** * Receiving DTLS records

    Models [dtls1_get_record] of [ssl/d1_pkt.c] with what it calls: reading from the
    datagram transport ([ssl3_read_n] of [s3_pkt.c], the part DTLS uses), the queues of
    records of the next epoch ([dtls1_buffer_record], [dtls1_copy_record],
    [dtls1_process_buffered_records]) and [dtls1_process_record].  The functions [enc]
    and [mac] of the method are called through pointers and are parameters, as the
    outcome of allocations is; they change the record and leave the sequence number, as
    [tls1_enc] and [tls1_mac] do in DTLS.  The position of the packet in the read buffer
    is not modelled, only its bytes and the bytes left of the datagram; that a missing
    read buffer cannot be allocated again is a result -1 of the transport, which has the
    same effect.

    The loop has fuel, [DFuel] when it does not suffice; it can be endless
    ([partial_record_loops]).  [DAbort] is a failed assertion.

    The theorem is that no record is delivered twice; four lemmas show where the code
    departs from its comments. *)

From S2P Require Import Prelude RecordCbc Pqueue DtlsReplay.
From stdpp Require Import gmap.
#[local] Open Scope Z_scope.

Definition DTLS1_RT_HEADER_LENGTH : Z := 13.
Definition SSL3_MT_CLIENT_HELLO : Z := 1.
Definition SSL3_RT_MAX_PLAIN_LENGTH : Z := 16384.
Definition SSL3_RT_MAX_COMPRESSED_LENGTH : Z := SSL3_RT_MAX_PLAIN_LENGTH.
Definition SSL3_RT_MAX_ENCRYPTED_LENGTH : Z := 256 + 64 + SSL3_RT_MAX_COMPRESSED_LENGTH.
Definition SSL_AD_RECORD_OVERFLOW : Z := 22.
Definition SSL_AD_DECODE_ERROR : Z := 50.

(** A record that was put aside. *)
Record DTLS1_RECORD_DATA := mkRdata {
  rd_packet : list Z;
  rd_packet_length : Z;
  rd_left : list Z;            (* what is left of the datagram, in rbuf *)
  rd_rrec : SSL3_RECORD
}.

(** Outcome of the allocations of a call of [dtls1_buffer_record]: all succeed, there is no memory for
    the item, or none for a new read buffer. *)
Inductive mem_outcome := MemOk | MemNoItem | MemNoBuffer.

(** The parts of [SSL], [s->s3] and [s->d1] that reading records uses, beside those of [dtls_state]. *)
Record dr := mkDR {
  dr_s : dtls_state;
  dr_packet : list Z;                                (* the bytes at s->packet *)
  dr_packet_length : Z;
  dr_body : bool;                                    (* rstate is SSL_ST_READ_BODY *)
  dr_left : list Z;                                  (* rbuf.left bytes at rbuf.offset *)
  dr_input : list (nat + list Z);                    (* results of BIO_read: -n or a datagram *)
  dr_unprocessed : pqueue DTLS1_RECORD_DATA;
  dr_processed : pqueue DTLS1_RECORD_DATA;
  dr_processed_epoch : Z;
  dr_mem : list mem_outcome;
  dr_alerts : list Z                                 (* fatal alerts sent *)
}.

(** What a call finds: [listen], whether a handshake is in progress, [first_packet], [version] and the
    room in the read buffer. *)
Record rconf := mkRC {
  rc_listen : bool;
  rc_in_handshake : bool;
  rc_first_packet : bool;
  rc_version : Z;
  rc_room : Z
}.

(** [enc] returns its value and the type, length and data of the record; [mac] its value, the MAC and
    the type of the record.  [rm_hash] has the size of the MAC and whether the cipher is in CBC mode, if
    there are a session, a cipher and a digest. *)
Record rmethod := mkRM {
  rm_enc : dtls_state → Z * Z * Z * list Z;
  rm_mac : dtls_state → Z * list Z * Z;
  rm_hash : option (Z * bool)
}.

Inductive dres := DRet (i : Z) (s : dr) | DAbort | DFuel.

Definition set_dr_s (s : dr) (d : dtls_state) : dr :=
  mkDR d (dr_packet s) (dr_packet_length s) (dr_body s) (dr_left s) (dr_input s) (dr_unprocessed s)
    (dr_processed s) (dr_processed_epoch s) (dr_mem s) (dr_alerts s).
Definition set_dr_packet (s : dr) (p : list Z) (n : Z) (left : list Z) : dr :=
  mkDR (dr_s s) p n (dr_body s) left (dr_input s) (dr_unprocessed s)
    (dr_processed s) (dr_processed_epoch s) (dr_mem s) (dr_alerts s).
Definition set_dr_body (s : dr) (b : bool) : dr :=
  mkDR (dr_s s) (dr_packet s) (dr_packet_length s) b (dr_left s) (dr_input s) (dr_unprocessed s)
    (dr_processed s) (dr_processed_epoch s) (dr_mem s) (dr_alerts s).
Definition set_dr_input (s : dr) (i : list (nat + list Z)) : dr :=
  mkDR (dr_s s) (dr_packet s) (dr_packet_length s) (dr_body s) (dr_left s) i (dr_unprocessed s)
    (dr_processed s) (dr_processed_epoch s) (dr_mem s) (dr_alerts s).
Definition set_dr_queues (s : dr) (u p : pqueue DTLS1_RECORD_DATA) : dr :=
  mkDR (dr_s s) (dr_packet s) (dr_packet_length s) (dr_body s) (dr_left s) (dr_input s) u p
    (dr_processed_epoch s) (dr_mem s) (dr_alerts s).
Definition set_dr_epoch (s : dr) (e : Z) : dr :=
  mkDR (dr_s s) (dr_packet s) (dr_packet_length s) (dr_body s) (dr_left s) (dr_input s) (dr_unprocessed s)
    (dr_processed s) e (dr_mem s) (dr_alerts s).
Definition set_dr_mem (s : dr) (m : list mem_outcome) : dr :=
  mkDR (dr_s s) (dr_packet s) (dr_packet_length s) (dr_body s) (dr_left s) (dr_input s) (dr_unprocessed s)
    (dr_processed s) (dr_processed_epoch s) m (dr_alerts s).
Definition add_dr_alert (s : dr) (al : Z) : dr :=
  mkDR (dr_s s) (dr_packet s) (dr_packet_length s) (dr_body s) (dr_left s) (dr_input s) (dr_unprocessed s)
    (dr_processed s) (dr_processed_epoch s) (dr_mem s) (dr_alerts s ++ [al]).

Definition set_read_sequence (d : dtls_state) (sq : list Z) : dtls_state :=
  {| read_sequence := sq; write_sequence := write_sequence d;
     last_write_sequence := last_write_sequence d; r_epoch := r_epoch d; w_epoch := w_epoch d;
     bitmap := bitmap d; next_bitmap := next_bitmap d; unprocessed_epoch := unprocessed_epoch d;
     rrec := rrec d; buffered_messages := buffered_messages d |}.
Definition set_unprocessed_epoch (d : dtls_state) (e : Z) : dtls_state :=
  {| read_sequence := read_sequence d; write_sequence := write_sequence d;
     last_write_sequence := last_write_sequence d; r_epoch := r_epoch d; w_epoch := w_epoch d;
     bitmap := bitmap d; next_bitmap := next_bitmap d; unprocessed_epoch := e;
     rrec := rrec d; buffered_messages := buffered_messages d |}.

(** The window a [DTLS1_BITMAP] pointer points to. *)
Definition window (d : dtls_state) (w : which_bitmap) : DTLS1_BITMAP :=
  match w with BM_current => bitmap d | BM_next => next_bitmap d end.
Definition set_window (d : dtls_state) (w : which_bitmap) (bm : DTLS1_BITMAP) : dtls_state :=
  {| read_sequence := read_sequence d; write_sequence := write_sequence d;
     last_write_sequence := last_write_sequence d; r_epoch := r_epoch d; w_epoch := w_epoch d;
     bitmap := match w with BM_current => bm | BM_next => bitmap d end;
     next_bitmap := match w with BM_current => next_bitmap d | BM_next => bm end;
     unprocessed_epoch := unprocessed_epoch d; rrec := rrec d; buffered_messages := buffered_messages d |}.

(** [rr->length = 0; s->packet_length = 0;] *)
Definition dump_record (s : dr) : dr :=
  let r := rrec (dr_s s) in
  set_dr_packet (set_dr_s s (set_rrec (dr_s s) (set_rec r (rec_type r) 0 (rec_data r) (rec_input r))))
    (dr_packet s) 0 (dr_left s).

(** ** Reading bytes *)

(** [n] bytes move from what is left of the datagram to the packet. *)
Definition take_bytes (s : dr) (n : Z) : dr :=
  set_dr_packet s (take (Z.to_nat (dr_packet_length s)) (dr_packet s) ++ take (Z.to_nat n) (dr_left s))
    (dr_packet_length s + n) (drop (Z.to_nat n) (dr_left s)).

Definition ssl3_read_n (c : rconf) (s : dr) (n max : Z) (extend : bool) : Z * dr :=
  if n <=? 0 then (n, s)
  else
    let s := if extend then s else set_dr_packet s [] 0 (dr_left s) in
    let left := Z.of_nat (length (dr_left s)) in
    if (left =? 0) && extend then (0, s)
    else
      let n := if (0 <? left) && (left <? n) then left else n in
      if n <=? left then (n, take_bytes s n)
      else if rc_room c <? n then (-1, s)
      else
        let max := if max <? n then n else max in
        let max := if rc_room c <? max then rc_room c else max in
        match dr_input s with
        | [] => (-1, s)
        | inl i :: input => (- Z.of_nat i, set_dr_input s input)
        | inr dgram :: input =>
            let d := take (Z.to_nat max) dgram in
            let s := set_dr_packet (set_dr_input s input) (dr_packet s) (dr_packet_length s) d in
            let left := Z.of_nat (length d) in
            let n := if left <? n then left else n in
            (n, take_bytes s n)
        end.

(** ** Records put aside *)

(** The packet's header has the sequence number in bytes 5 to 10. *)
Definition header_seq (p : list Z) : list Z := take 6 (drop 5 p).

Definition dtls1_copy_record (s : dr) (rdata : DTLS1_RECORD_DATA) : dr :=
  let d := set_rrec (dr_s s) (rd_rrec rdata) in
  let d := set_read_sequence d (take 2 (read_sequence d) ++ header_seq (rd_packet rdata)) in
  set_dr_packet (set_dr_s s d) (rd_packet rdata) (rd_packet_length rdata) (rd_left rdata).

Inductive which_queue := Q_unprocessed | Q_processed.
Definition queue (s : dr) (q : which_queue) : pqueue DTLS1_RECORD_DATA :=
  match q with Q_unprocessed => dr_unprocessed s | Q_processed => dr_processed s end.
Definition set_queue (s : dr) (q : which_queue) (l : pqueue DTLS1_RECORD_DATA) : dr :=
  match q with
  | Q_unprocessed => set_dr_queues s l (dr_processed s)
  | Q_processed => set_dr_queues s (dr_unprocessed s) l
  end.

Definition next_mem (s : dr) : mem_outcome * dr :=
  match dr_mem s with
  | [] => (MemOk, s)
  | o :: m => (o, set_dr_mem s m)
  end.

Definition zero_record : SSL3_RECORD :=
  {| rec_type := 0; rec_length := 0; rec_off := 0; rec_data := []; rec_input := []; rec_epoch := 0;
     rec_seq_num := replicate 8 0 |}.

Definition dtls1_buffer_record (s : dr) (q : which_queue) (priority : list Z) : Z * dr :=
  if 100 <=? pqueue_size (queue s q) then (0, s)
  else
    match next_mem s with
    | (MemNoItem, s) => (-1, s)
    | (o, s) =>
        let rdata := mkRdata (dr_packet s) (dr_packet_length s) (dr_left s) (rrec (dr_s s)) in
        let item := pitem_new priority rdata in
        let s := set_dr_packet (set_dr_s s (set_rrec (dr_s s) zero_record)) [] 0 [] in
        match o with
        | MemNoBuffer => (-1, s)
        | _ =>
            match pqueue_insert (queue s q) item with
            | (None, _) => (-1, s)
            | (Some _, l) => (1, set_queue s q l)
            end
        end
    end.

Definition dtls1_retrieve_buffered_record (s : dr) (q : which_queue) : Z * dr :=
  match pqueue_pop (queue s q) with
  | (None, _) => (0, s)
  | (Some item, l) => (1, dtls1_copy_record (set_queue s q l) (data item))
  end.

(** ** Processing a record *)

(** The check of the MAC: [inl] an alert, otherwise [enc_err]; [None] for a failed assertion. *)
Definition check_record_mac (m : rmethod) (d : dtls_state) (enc_err mac_size : Z) (cbc : bool)
    : option (Z + Z * dtls_state) :=
  let rr := rrec d in
  if EVP_MAX_MD_SIZE <? mac_size then None
  else
    let orig_len := u32 (rec_length rr + rec_type rr ≫ 8) in
    if (orig_len <? mac_size) || (cbc && (orig_len <? mac_size + 1)) then Some (inl SSL_AD_DECODE_ERROR)
    else
      let length' := u32 (rec_length rr - mac_size) in
      match (if cbc then ssl3_cbc_copy_mac rr mac_size orig_len
             else Some (take (Z.to_nat mac_size) (drop (Z.to_nat length') (rec_data rr)))) with
      | None => None
      | Some mac =>
          let d := set_rrec d (set_rec rr (rec_type rr) length' (rec_data rr) (rec_input rr)) in
          let '(i, md, type) := rm_mac m d in
          let rr := rrec d in
          let d := set_rrec d (set_rec rr type (rec_length rr) (rec_data rr) (rec_input rr)) in
          let enc_err := if (i <? 0) || negb (memcmp md mac (Z.to_nat mac_size) =? 0) then -1 else enc_err in
          let enc_err := if SSL3_RT_MAX_COMPRESSED_LENGTH + mac_size <? length' then -1 else enc_err in
          Some (inr (enc_err, d))
      end.

Definition set_off (r : SSL3_RECORD) (off : Z) : SSL3_RECORD :=
  {| rec_type := rec_type r; rec_length := rec_length r; rec_off := off; rec_data := rec_data r;
     rec_input := rec_input r; rec_epoch := rec_epoch r; rec_seq_num := rec_seq_num r |}.

(** From the end of the MAC check on. *)
Definition finish_record (s : dr) (enc_err : Z) (w : which_bitmap) : Z * dr :=
  if enc_err <? 0 then (0, dump_record s)
  else if SSL3_RT_MAX_PLAIN_LENGTH <? rec_length (rrec (dr_s s)) then (0, add_dr_alert s SSL_AD_RECORD_OVERFLOW)
  else
    let d := set_rrec (dr_s s) (set_off (rrec (dr_s s)) 0) in
    let d := set_window d w (dtls1_record_bitmap_update d (window d w)) in
    (1, set_dr_packet (set_dr_s s d) (dr_packet s) 0 (dr_left s)).

Definition dtls1_process_record (m : rmethod) (s : dr) (w : which_bitmap) : option (Z * dr) :=
  let rr := rrec (dr_s s) in
  let input := drop (Z.to_nat DTLS1_RT_HEADER_LENGTH) (dr_packet s) in
  let s := set_dr_s s (set_rrec (dr_s s) (set_rec rr (rec_type rr) (rec_length rr) (rec_data rr) input)) in
  if SSL3_RT_MAX_ENCRYPTED_LENGTH <? rec_length rr then Some (0, add_dr_alert s SSL_AD_RECORD_OVERFLOW)
  else
    let s := set_dr_s s (set_rrec (dr_s s) (set_rec rr (rec_type rr) (rec_length rr) input input)) in
    let '(enc_err, type, len, out) := rm_enc m (dr_s s) in
    let s := set_dr_s s (set_rrec (dr_s s) (set_rec rr type len out out)) in
    if enc_err =? 0 then Some (0, dump_record s)
    else
      match rm_hash m with
      | None => Some (finish_record s enc_err w)
      | Some (mac_size, cbc) =>
          match check_record_mac m (dr_s s) enc_err mac_size cbc with
          | None => None
          | Some (inl al) => Some (0, add_dr_alert s al)
          | Some (inr (enc_err, d)) => Some (finish_record (set_dr_s s d) enc_err w)
          end
      end.

(** ** Records of the new epoch *)

(** The end of the loop over the unprocessed records, a return from within it, a failed assertion. *)
Inductive pres := PEnd (s : dr) | PRet (i : Z) (s : dr) | PAbort | PFuel.

Fixpoint process_loop (m : rmethod) (s : dr) (fuel : nat) : pres :=
  match fuel with
  | O => PFuel
  | S fuel =>
      match pqueue_peek (dr_unprocessed s) with
      | None => PEnd s
      | Some _ =>
          let '(_, s) := dtls1_retrieve_buffered_record s Q_unprocessed in
          match dtls1_get_bitmap (dr_s s) (rrec (dr_s s)) with
          | (None, _) => PRet 0 s
          | (Some w, _) =>
              let '(replayok, d) := dtls1_record_replay_check (dr_s s) (window (dr_s s) w) in
              let s := set_dr_s s d in
              match (if replayok =? 0 then Some (0, s) else dtls1_process_record m s w) with
              | None => PAbort
              | Some (r, s) =>
                  if r =? 0 then process_loop m (dump_record s) fuel
                  else
                    let '(b, s) := dtls1_buffer_record s Q_processed (rec_seq_num (rrec (dr_s s))) in
                    if b <? 0 then PRet 0 s else process_loop m s fuel
              end
          end
      end
  end.

Definition sync_epochs (s : dr) : dr :=
  let d := dr_s s in
  set_dr_epoch (set_dr_s s (set_unprocessed_epoch d (u16 (r_epoch d + 1)))) (r_epoch d).

(** The fuel is one more than the number of records: each round takes one from the queue. *)
Definition dtls1_process_buffered_records (m : rmethod) (s : dr) : dres :=
  match pqueue_peek (dr_unprocessed s) with
  | None => DRet 1 (sync_epochs s)
  | Some _ =>
      if negb (unprocessed_epoch (dr_s s) =? r_epoch (dr_s s)) then DRet 1 s
      else if 0 <? Z.of_nat (length (dr_left s)) then DRet 1 s
      else
        match process_loop m s (S (length (dr_unprocessed s))) with
        | PEnd s => DRet 1 (sync_epochs s)
        | PRet i s => DRet i s
        | PAbort => DAbort
        | PFuel => DFuel
        end
  end.

(** ** Getting a record *)

(** What a part of the loop does: return, go back to [again], or go on. *)
Inductive flow := Return (i : Z) (s : dr) | Again (s : dr) | Go (s : dr).

(** The header; its thirteen bytes are there, so taking it apart does not fail. *)
Definition read_header (c : rconf) (s : dr) : flow :=
  if negb (dr_body s) || (dr_packet_length s <? DTLS1_RT_HEADER_LENGTH) then
    let '(n, s) := ssl3_read_n c s DTLS1_RT_HEADER_LENGTH (rc_room c) false in
    if n <=? 0 then Return n s
    else if negb (dr_packet_length s =? DTLS1_RT_HEADER_LENGTH) then Again s
    else
      let s := set_dr_body s true in
      let p := dr_packet s in
      let type := getb p 0 in
      let ssl_version := be_load (take 2 (drop 1 p)) in
      let epoch := be_load (take 2 (drop 3 p)) in
      let len := be_load (take 2 (drop 11 p)) in
      let d := set_read_sequence (dr_s s) (take 2 (read_sequence (dr_s s)) ++ header_seq p) in
      let r := rrec d in
      let d := set_rrec d {| rec_type := type; rec_length := len; rec_off := rec_off r; rec_data := rec_data r;
                             rec_input := rec_input r; rec_epoch := epoch; rec_seq_num := rec_seq_num r |} in
      let s := set_dr_s s d in
      if negb (rc_first_packet c) && negb (ssl_version =? rc_version c) then Again s
      else if negb (Z.land ssl_version 0xff00 =? Z.land (rc_version c) 0xff00) then Again s
      else if SSL3_RT_MAX_ENCRYPTED_LENGTH <? len then Again s
      else Go s
  else Go s.

Definition read_body (c : rconf) (s : dr) : flow :=
  let len := rec_length (rrec (dr_s s)) in
  if u32 (dr_packet_length s - DTLS1_RT_HEADER_LENGTH) <? len then
    let '(n, s) := ssl3_read_n c s len len true in
    if negb (n =? len) then Again s else Go (set_dr_body s false)
  else Go (set_dr_body s false).

(** A ClientHello while listening is not checked for replay. *)
Definition unchecked (c : rconf) (s : dr) : bool :=
  rc_listen c && (rec_type (rrec (dr_s s)) =? SSL3_RT_HANDSHAKE)
  && (DTLS1_RT_HEADER_LENGTH <? dr_packet_length s)
  && (getb (dr_packet s) DTLS1_RT_HEADER_LENGTH =? SSL3_MT_CLIENT_HELLO).

(** From the choice of the window on; [None] for a failed assertion. *)
Definition accept_record (c : rconf) (m : rmethod) (s : dr) : option flow :=
  match dtls1_get_bitmap (dr_s s) (rrec (dr_s s)) with
  | (None, _) => Some (Again s)
  | (Some w, is_next_epoch) =>
      let '(replayok, d) :=
        if unchecked c s then (1, dr_s s) else dtls1_record_replay_check (dr_s s) (window (dr_s s) w) in
      let s := set_dr_s s d in
      if replayok =? 0 then Some (Again s)
      else if rec_length (rrec (dr_s s)) =? 0 then Some (Again s)
      else if negb (is_next_epoch =? 0) then
        if rc_in_handshake c && negb (rc_listen c) then
          let '(b, s) := dtls1_buffer_record s Q_unprocessed (rec_seq_num (rrec (dr_s s))) in
          Some (if b <? 0 then Return (-1) s else Again (dump_record s))
        else Some (Again (dump_record s))
      else
        match dtls1_process_record m s w with
        | None => None
        | Some (r, s) => Some (if r =? 0 then Again (dump_record s) else Return 1 s)
        end
  end.

Fixpoint dtls1_get_record (c : rconf) (m : rmethod) (s : dr) (fuel : nat) : dres :=
  match fuel with
  | O => DFuel
  | S fuel =>
      match dtls1_process_buffered_records m s with
      | DAbort => DAbort
      | DFuel => DFuel
      | DRet r s =>
          if r =? 0 then DRet (-1) s
          else
            let '(p, s) := dtls1_retrieve_buffered_record s Q_processed in
            if negb (p =? 0) then DRet 1 s
            else
              match read_header c s with
              | Return i s => DRet i s
              | Again s => dtls1_get_record c m s fuel
              | Go s =>
                  match read_body c s with
                  | Return i s => DRet i s
                  | Again s => dtls1_get_record c m s fuel
                  | Go s =>
                      match accept_record c m s with
                      | None => DAbort
                      | Some (Return i s) => DRet i s
                      | Some (Again s) | Some (Go s) => dtls1_get_record c m s fuel
                      end
                  end
              end
      end
  end.

(** ** A new connection, and records without protection *)

Definition plain : rmethod := mkRM (λ d, (1, rec_type (rrec d), rec_length (rrec d), rec_input (rrec d))) (λ _, (0, [], 0)) None.
Definition dtls12 : rconf := mkRC false true false 0xfefd 20000.
Definition fresh_dr (input : list (nat + list Z)) : dr :=
  mkDR {| read_sequence := replicate 8 0; write_sequence := replicate 8 0; last_write_sequence := replicate 8 0;
          r_epoch := 0; w_epoch := 0; bitmap := empty_bitmap; next_bitmap := empty_bitmap;
          unprocessed_epoch := 0; rrec := zero_record; buffered_messages := [] |}
    [] 0 false [] input [] [] 0 [] [].

(** A record as it is on the wire. *)
Definition wire_record (type version epoch seq : Z) (body : list Z) : list Z :=
  [type] ++ be_store 2 version ++ be_store 2 epoch ++ be_store 6 seq ++ be_store 2 (Z.of_nat (length body)) ++ body.

(** ** The state between calls *)

(** The epoch and the number of the record that was delivered, and of one that waits. *)
Definition record_id (s : dr) : Z * Z := (rec_epoch (rrec (dr_s s)), be_load (read_sequence (dr_s s))).
Definition item_id (it : pitem DTLS1_RECORD_DATA) : Z * Z :=
  (rec_epoch (rd_rrec (data it)), be_load (header_seq (rd_packet (data it)))).

Definition dgram_ok (e : nat + list Z) : Prop := match e with inl _ => True | inr d => bytes d end.
Definition seq48 (sq : list Z) : Prop := is_seq sq ∧ take 2 sq = [0; 0].

Record packet_ok (p : list Z) (n : Z) : Prop := { pk_bytes : bytes p; pk_len : 0 ≤ n ≤ Z.of_nat (length p) }.

Record item_ok (it : pitem DTLS1_RECORD_DATA) : Prop := {
  it_packet : packet_ok (rd_packet (data it)) (rd_packet_length (data it));
  it_header : (11 ≤ length (rd_packet (data it)))%nat;
  it_left : bytes (rd_left (data it))
}.

(** The window of the next epoch stays empty: its records wait for the change of epoch. *)
Record dr_ok (s : dr) : Prop := {
  ok_seq : seq48 (read_sequence (dr_s s));
  ok_packet : packet_ok (dr_packet s) (dr_packet_length s);
  ok_left : bytes (dr_left s);
  ok_input : Forall dgram_ok (dr_input s);
  ok_items : Forall item_ok (dr_unprocessed s) ∧ Forall item_ok (dr_processed s);
  ok_next : window_repr (next_bitmap (dr_s s)) ∅
}.

(** [R] are the numbers marked in this epoch, [D] the records delivered: these and the ones processed
    are different and, if of this epoch, marked. *)
Record logged (R : gset Z) (D : list (Z * Z)) (s : dr) : Prop := {
  lg_window : window_repr (bitmap (dr_s s)) R;
  lg_nodup : NoDup (D ++ (item_id <$> dr_processed s));
  lg_marked : ∀ e q, (e, q) ∈ D ++ (item_id <$> dr_processed s) →
                e ≤ r_epoch (dr_s s) ∧ (e = r_epoch (dr_s s) → q ∈ R)
}.

(** The same but for the contents of the record, the alerts and the length of the packet. *)
Record alike (s s' : dr) : Prop := {
  al_seq : read_sequence (dr_s s') = read_sequence (dr_s s);
  al_epoch : r_epoch (dr_s s') = r_epoch (dr_s s);
  al_window : bitmap (dr_s s') = bitmap (dr_s s);
  al_next : next_bitmap (dr_s s') = next_bitmap (dr_s s);
  al_unprocessed : unprocessed_epoch (dr_s s') = unprocessed_epoch (dr_s s);
  al_rec : rec_epoch (rrec (dr_s s')) = rec_epoch (rrec (dr_s s));
  al_packet : dr_packet s' = dr_packet s;
  al_length : dr_packet_length s' = dr_packet_length s ∨ dr_packet_length s' = 0;
  al_left : dr_left s' = dr_left s;
  al_input : dr_input s' = dr_input s;
  al_uq : dr_unprocessed s' = dr_unprocessed s;
  al_pq : dr_processed s' = dr_processed s
}.

Ltac alike_tac := split; first [done | by left | by right].

Lemma alike_refl s : alike s s.
Proof. alike_tac. Qed.

Lemma alike_trans s1 s2 s3 : alike s1 s2 → alike s2 s3 → alike s1 s3.
Proof.
  intros [A1 A2 A3 A4 A5 A6 A7 A8 A9 A10 A11 A12] [B1 B2 B3 B4 B5 B6 B7 B8 B9 B10 B11 B12].
  split; try congruence. destruct A8, B8; [left|right..]; congruence.
Qed.

Lemma alike_id s s' : alike s s' → record_id s' = record_id s.
Proof. intros []. unfold record_id. congruence. Qed.

Lemma alike_ok s s' : alike s s' → dr_ok s → dr_ok s'.
Proof.
  intros [A1 A2 A3 A4 A5 A6 A7 A8 A9 A10 A11 A12] [O1 [O2 O2'] O3 O4 O5 O6].
  split; rewrite ?A1, ?A4, ?A7, ?A9, ?A10, ?A11, ?A12; try done. split; [done|]. destruct A8; lia.
Qed.

Lemma alike_logged s s' R D : alike s s' → logged R D s → logged R D s'.
Proof.
  intros [A1 A2 A3 A4 A5 A6 A7 A8 A9 A10 A11 A12] [L1 L2 L3]. split; rewrite ?A2, ?A3, ?A12; done.
Qed.

Lemma logged_less R D x s : logged R (D ++ [x]) s → logged R D s.
Proof.
  intros [L1 L2 L3]. rewrite <- app_assoc in *. split; [done| |].
  - apply NoDup_app in L2 as (? & ? & H). apply NoDup_app in H as (_ & _ & H). apply NoDup_app.
    split; [done|]. split; [|done]. set_solver.
  - intros e q H. apply L3. set_solver.
Qed.

Lemma be_load_seq48 x : bytes x → be_load ([0; 0] ++ x) = be_load x.
Proof. intros. rewrite be_load_app by done. change (be_load [0; 0]) with 0. lia. Qed.

Lemma header_seq_ok p : bytes p → (11 ≤ length p)%nat → seq48 ([0; 0] ++ header_seq p).
Proof.
  intros Hb Hl. split; [|done]. split.
  - repeat (constructor; [unfold is_byte; lia|]). unfold header_seq. auto with vtls.
  - unfold header_seq. len.
Qed.

(** ** Reading *)

Lemma take_bytes_ok s n : dr_ok s → 0 ≤ n ≤ Z.of_nat (length (dr_left s)) → dr_ok (take_bytes s n).
Proof.
  intros [O1 [O2 O2'] O3 O4 O5 O6] Hn. split; try done; cbn [take_bytes set_dr_packet dr_packet dr_packet_length dr_left].
  - split; [auto with vtls|]. rewrite length_app, !length_take. lia.
  - auto with vtls.
Qed.

(** What reading does not change. *)
Definition read_only (s s' : dr) : Prop :=
  dr_s s' = dr_s s ∧ dr_unprocessed s' = dr_unprocessed s ∧ dr_processed s' = dr_processed s ∧
  dr_body s' = dr_body s.

Lemma read_n_ok c s n max extend i s' : dr_ok s → ssl3_read_n c s n max extend = (i, s') →
  dr_ok s' ∧ read_only s s'.
Proof.
  intros Hok. unfold ssl3_read_n. destruct (n <=? 0) eqn:E0; [by intros [= _ <-]|].
  set (s1 := if extend then s else _).
  assert (dr_ok s1 ∧ read_only s s1) as [Hok1 Hr1].
  { unfold s1. destruct extend; [done|]. split; [|done]. destruct Hok. by split. }
  clearbody s1. case_match; [by intros [= _ <-]|].
  set (n1 := if (0 <? _) && _ then _ else n). assert (0 < n1) as Hn1 by (unfold n1; case_match; lia). clearbody n1.
  destruct (Z.leb_spec n1 (Z.of_nat (length (dr_left s1)))).
  { intros [= _ <-]. split; [apply take_bytes_ok; [done|lia]|done]. }
  case_match; [by intros [= _ <-]|]. set (mx := if rc_room c <? _ then _ else _). clearbody mx.
  pose proof Hok1 as [O1 O2 O3 O4 O5 O6].
  destruct (dr_input s1) as [|[j|d] input] eqn:Ei; [by intros [= _ <-]|..].
  - intros [= _ <-]. split; [|done]. split; try done. by apply Forall_inv_tail in O4.
  - intros [= _ <-]. split; [|done]. apply Forall_cons in O4 as [Hd O4]. apply take_bytes_ok.
    + split; try done. cbn [set_dr_packet dr_left]. auto with vtls.
    + cbn [set_dr_packet dr_left]. case_match; lia.
Qed.

(** ** Queues *)

Lemma insert_loop_perm {T} (pq : pqueue T) it l : insert_loop pq it = Some l → l ≡ₚ it :: pq.
Proof.
  revert l. induction pq as [|n pq IH]; intros l; cbn [insert_loop]; [by intros [= <-]|].
  case_match; [by intros [= <-]|]. case_match; [done|]. destruct (insert_loop pq it) as [l'|]; [|done].
  intros [= <-]. rewrite (IH l' eq_refl). apply Permutation_swap.
Qed.

Lemma pqueue_insert_perm {T} (pq : pqueue T) it x l : pqueue_insert pq it = (Some x, l) → l ≡ₚ it :: pq.
Proof.
  unfold pqueue_insert. destruct pq as [|n pq]; [by intros [= _ <-]|].
  destruct (insert_loop _ it) as [l'|] eqn:E; intros [= _ <-]. by apply insert_loop_perm.
Qed.

Lemma retrieve_ok s q r s' : dr_ok s → dtls1_retrieve_buffered_record s q = (r, s') →
  dr_ok s' ∧ bitmap (dr_s s') = bitmap (dr_s s) ∧ r_epoch (dr_s s') = r_epoch (dr_s s) ∧
  unprocessed_epoch (dr_s s') = unprocessed_epoch (dr_s s) ∧
  match queue s q with
  | [] => r = 0 ∧ s' = s
  | it :: l =>
      r = 1 ∧ record_id s' = item_id it ∧ read_sequence (dr_s s') = [0; 0] ++ header_seq (dr_packet s') ∧
      (11 ≤ length (dr_packet s'))%nat ∧
      match q with
      | Q_unprocessed => dr_unprocessed s' = l ∧ dr_processed s' = dr_processed s
      | Q_processed => dr_unprocessed s' = dr_unprocessed s ∧ dr_processed s' = l
      end
  end.
Proof.
  intros [[O1 O1'] O2 O3 O4 [O5 O5'] O6]. unfold dtls1_retrieve_buffered_record, pqueue_pop.
  destruct (queue s q) as [|it l] eqn:Eq; cbn [head tail]; intros [= <- <-]; [done|].
  assert (item_ok it ∧ Forall item_ok l) as [[[P1 P2] P3 P4] Hl] by (destruct q; cbn in Eq; rewrite Eq in *; by apply Forall_cons).
  assert (read_sequence (dr_s (set_queue s q l)) = read_sequence (dr_s s)) as Es by (by destruct q).
  unfold dtls1_copy_record. cbn [set_rrec read_sequence]. rewrite Es, O1'.
  assert (Hq : ∀ d p n f, dr_unprocessed (set_dr_packet (set_dr_s (set_queue s q l) d) p n f) = dr_unprocessed (set_queue s q l)
    ∧ dr_processed (set_dr_packet (set_dr_s (set_queue s q l) d) p n f) = dr_processed (set_queue s q l)
    ∧ dr_input (set_dr_packet (set_dr_s (set_queue s q l) d) p n f) = dr_input s) by (by destruct q).
  split; [|split; [by destruct q|split; [by destruct q|split; [by destruct q|]]]].
  - split; cbn [set_dr_packet set_dr_s dr_s set_read_sequence read_sequence dr_packet dr_packet_length dr_left].
    + by apply header_seq_ok.
    + done.
    + done.
    + destruct q; done.
    + destruct q; cbn in Eq |- *; by rewrite ?Eq in *.
    + by destruct q.
  - split; [done|]. split; [unfold record_id, item_id; cbn [set_dr_packet set_dr_s dr_s set_read_sequence read_sequence set_rrec rrec]|].
    + rewrite be_load_seq48; [done|]. unfold header_seq. auto with vtls.
    + split; [done|]. split; [done|]. by destruct q.
Qed.

(** A record is put aside, or the call fails or drops it. *)
Lemma buffer_record_ok s q prio b s' : dr_ok s → (11 ≤ length (dr_packet s))%nat →
  dtls1_buffer_record s q prio = (b, s') →
  dr_ok s' ∧ bitmap (dr_s s') = bitmap (dr_s s) ∧ r_epoch (dr_s s') = r_epoch (dr_s s) ∧
  unprocessed_epoch (dr_s s') = unprocessed_epoch (dr_s s) ∧
  ((dr_unprocessed s' = dr_unprocessed s ∧ dr_processed s' = dr_processed s) ∨
   ∃ it, rd_packet (data it) = dr_packet s ∧ rd_rrec (data it) = rrec (dr_s s) ∧
     match q with
     | Q_unprocessed => dr_unprocessed s' ≡ₚ it :: dr_unprocessed s ∧ dr_processed s' = dr_processed s
     | Q_processed => dr_unprocessed s' = dr_unprocessed s ∧ dr_processed s' ≡ₚ it :: dr_processed s
     end).
Proof.
  intros Hok Hl. unfold dtls1_buffer_record. case_match; [intros [= _ <-]; split; [done|]; do 3 (split; [done|]); by left|].
  destruct (next_mem s) as [o s1] eqn:Em.
  assert (s1 = s ∨ ∃ m, s1 = set_dr_mem s m) as Hs1.
  { unfold next_mem in Em. destruct (dr_mem s); injection Em as _ <-; [by left|right; by eexists]. }
  assert (dr_ok s1 ∧ dr_packet s1 = dr_packet s ∧ dr_s s1 = dr_s s ∧ dr_unprocessed s1 = dr_unprocessed s ∧
          dr_processed s1 = dr_processed s) as (Hok1 & E1 & E2 & E3 & E4).
  { destruct Hs1 as [-> | (m & ->)]; [done|]. split; [|done]. by destruct Hok; split. }
  clear Em Hs1. rewrite <- E1 in Hl |- *. rewrite <- E2, <- E3, <- E4. clear s Hok E1 E2 E3 E4 H.
  set (rdata := mkRdata _ _ _ _). set (s2 := set_dr_packet _ [] 0 []).
  pose proof Hok1 as [O1 O2 O3 O4 [O5 O5'] O6].
  assert (dr_ok s2) as Hok2 by (split; try done; by split).
  assert (item_ok (pitem_new prio rdata)) as Hit by (by split).
  destruct o; [|by intros [= _ <-]; split; [done|]; do 3 (split; [done|]); left|
    by intros [= _ <-]; split; [done|]; do 3 (split; [done|]); left].
  destruct (pqueue_insert (queue s2 q) (pitem_new prio rdata)) as [[x|] l] eqn:Ei.
  2:{ intros [= _ <-]. split; [done|]. do 3 (split; [done|]). by left. }
  apply pqueue_insert_perm in Ei. intros [= _ <-].
  split; [|split; [by destruct q|split; [by destruct q|split; [by destruct q|right]]]].
  - destruct Hok2 as [Q1 Q2 Q3 Q4 [Q5 Q5'] Q6]. destruct q; cbn [queue set_queue] in *;
      (split; [done|done|done|done| |done]); cbn [set_dr_queues dr_unprocessed dr_processed].
    + split; [|done]. rewrite Ei. by constructor.
    + split; [done|]. rewrite Ei. by constructor.
  - exists (pitem_new prio rdata). split; [done|]. split; [done|]. by destruct q.
Qed.

(** ** Processing *)

Lemma dump_alike s : alike s (dump_record s).
Proof. alike_tac. Qed.

(** The record is dropped, or its number is marked. *)
Definition marked (s : dr) (w : which_bitmap) : dr :=
  set_dr_s s (set_window (dr_s s) w (dtls1_record_bitmap_update (dr_s s) (window (dr_s s) w))).

Lemma finish_record_spec s s0 enc_err w : alike s0 s →
  (finish_record s enc_err w).1 = 0 ∧ alike s0 (finish_record s enc_err w).2 ∨
  (finish_record s enc_err w).1 = 1 ∧ alike (marked s0 w) (finish_record s enc_err w).2.
Proof.
  intros Ha. unfold finish_record. case_match; [left; split; [done|]; eapply alike_trans; [done|apply dump_alike]|].
  case_match; [left; split; [done|]; destruct Ha; split; done|]. right. split; [done|].
  destruct Ha as [A1 A2 A3 A4 A5 A6 A7 A8 A9 A10 A11 A12].
  assert (Hu : dtls1_record_bitmap_update (set_rrec (dr_s s) (set_off (rrec (dr_s s)) 0))
                 (window (set_rrec (dr_s s) (set_off (rrec (dr_s s)) 0)) w)
               = dtls1_record_bitmap_update (dr_s s0) (window (dr_s s0) w)).
  { unfold dtls1_record_bitmap_update. cbn [set_rrec read_sequence]. rewrite A1. destruct w; cbn [window set_rrec bitmap next_bitmap]; by rewrite ?A3, ?A4. }
  cbn [snd]. rewrite Hu. split; cbn; try done; [destruct w; done..|by right].
Qed.

Lemma process_record_spec m s w r s' : dtls1_process_record m s w = Some (r, s') →
  r = 0 ∧ alike s s' ∨ r = 1 ∧ alike (marked s w) s'.
Proof.
  unfold dtls1_process_record. case_match; [intros [= <- <-]; left; split; [done|alike_tac]|].
  destruct (rm_enc m _) as [[[enc_err type] len] out]. set (s1 := set_dr_s _ (set_rrec _ (set_rec _ type len out out))).
  assert (alike s s1) as Ha by alike_tac. clearbody s1.
  case_match; [intros [= <- <-]; left; split; [done|]; eapply alike_trans; [done|apply dump_alike]|].
  assert (∀ s2 e, alike s s2 → Some (finish_record s2 e w) = Some (r, s') →
    r = 0 ∧ alike s s' ∨ r = 1 ∧ alike (marked s w) s') as Hfin.
  { intros s2 e H2 [= E]. pose proof (finish_record_spec s2 s e w H2) as Hf. by rewrite E in Hf. }
  destruct (rm_hash m) as [[mac_size cbc]|]; [|by apply Hfin].
  destruct (check_record_mac m (dr_s s1) enc_err mac_size cbc) as [[al|[e d]]|] eqn:Ec; [| |done].
  - intros [= <- <-]. left. split; [done|]. eapply alike_trans; [done|alike_tac].
  - apply Hfin. eapply alike_trans; [exact Ha|]. revert Ec. unfold check_record_mac. case_match; [done|].
    case_match; [done|]. case_match; [|done]. destruct (rm_mac m _) as [[i md] ty]. intros [= _ <-]. alike_tac.
Qed.

Lemma marked_ok s : dr_ok s → dr_ok (marked s BM_current).
Proof. intros []. by split. Qed.

Lemma marked_logged s R D : dr_ok s → logged R D s → rec_epoch (rrec (dr_s s)) = r_epoch (dr_s s) →
  let R' := {[be_load (read_sequence (dr_s s))]} ∪ R in
  logged R' D (marked s BM_current) ∧
  (be_load (read_sequence (dr_s s)) ∉ R → logged R' (D ++ [record_id s]) (marked s BM_current)).
Proof.
  intros [[O1 _] _ _ _ _ _] [L1 L2 L3] He. cbv zeta.
  pose proof (bitmap_update_repr (dr_s s) _ R L1 O1) as Hw.
  assert (logged ({[be_load (read_sequence (dr_s s))]} ∪ R) D (marked s BM_current)) as Hl.
  { split; [exact Hw|exact L2|]. intros e q H. destruct (L3 e q H). split; [done|]. set_solver. }
  split; [done|]. intros Hn. destruct Hl as [_ _ M3].
  assert (record_id s ∉ D ++ (item_id <$> dr_processed s)) as Hnew.
  { unfold record_id. rewrite He. intros H. destruct (L3 _ _ H) as [_ H']. by apply Hn, H'. }
  split; [exact Hw| |]; cbn [marked set_dr_s dr_processed dr_s set_window r_epoch].
  - rewrite <- app_assoc. apply (NoDup_Permutation_proper ([record_id s] ++ D ++ (item_id <$> dr_processed s))).
    { rewrite !app_assoc. by rewrite (Permutation_app_comm D [record_id s]). }
    cbn [app]. by constructor.
  - intros e q. rewrite <- app_assoc, !elem_of_app. intros [H|[H|H]].
    + apply M3. set_solver.
    + apply list_elem_of_singleton in H. unfold record_id in H. injection H as -> ->. split; [lia|set_solver].
    + apply M3. set_solver.
Qed.

Lemma replay_check_cases d bm R r d' : window_repr bm R → is_seq (read_sequence d) →
  dtls1_record_replay_check d bm = (r, d') →
  (r = 0 ∨ r = 1 ∧ be_load (read_sequence d) ∉ R) ∧ (d' = d ∨ d' = set_rrec d (set_seq_num (rrec d) (read_sequence d))).
Proof.
  intros Hw Hs E. pose proof (replay_check_verdict d bm R Hw Hs) as Hv. rewrite E in Hv. cbn [fst] in Hv. split.
  - case_decide as Hacc; [right|by left]. split; [done|]. intros Hin. pose proof (wr_max _ _ Hw _ Hin).
    destruct Hacc as [?|[_ ?]]; [lia|done].
  - revert E. unfold dtls1_record_replay_check. repeat case_match; intros [= _ <-]; auto.
Qed.

Lemma checked_alike s d' :
  d' = dr_s s ∨ d' = set_rrec (dr_s s) (set_seq_num (rrec (dr_s s)) (read_sequence (dr_s s))) →
  alike s (set_dr_s s d').
Proof. intros [-> | ->]; alike_tac. Qed.

(** The record just processed moves from those delivered to those that wait. *)
Lemma logged_wait R D x s s' : logged R (D ++ [x]) s → bitmap (dr_s s') = bitmap (dr_s s) →
  r_epoch (dr_s s') = r_epoch (dr_s s) →
  dr_processed s' = dr_processed s ∨ (∃ it, item_id it = x ∧ dr_processed s' ≡ₚ it :: dr_processed s) →
  logged R D s'.
Proof.
  intros L Hb He [E|(it & Ex & E)].
  - apply logged_less in L as [L1 L2 L3]. split; rewrite ?Hb, ?He, ?E; done.
  - destruct L as [L1 L2 L3]. rewrite <- app_assoc in *.
    assert (D ++ (item_id <$> dr_processed s') ≡ₚ D ++ [x] ++ (item_id <$> dr_processed s)) as Hp.
    { rewrite E, fmap_cons, Ex. done. }
    split; [by rewrite Hb|by rewrite Hp|]. intros e q. rewrite Hp, He. apply L3.
Qed.

(** ** Records of the new epoch *)

(** What a step keeps: the invariant for some set of marked numbers. *)
Definition kept (D : list (Z * Z)) (s s' : dr) : Prop :=
  dr_ok s' ∧ r_epoch (dr_s s') = r_epoch (dr_s s) ∧ ∃ R, logged R D s'.

Lemma kept_alike D s s' : dr_ok s → (∃ R, logged R D s) → alike s s' → kept D s s'.
Proof.
  intros Hok (R & L) Ha. split; [by eapply alike_ok|]. split; [apply Ha|]. exists R. by eapply alike_logged.
Qed.

Lemma kept_refl D s : dr_ok s → (∃ R, logged R D s) → kept D s s.
Proof. by split. Qed.

Lemma kept_trans D s1 s2 s3 : kept D s1 s2 → kept D s2 s3 → kept D s1 s3.
Proof. intros (_ & E & _) (? & E' & ?). split; [done|]. split; [congruence|done]. Qed.

(** A record that was accepted or not, with the number it is marked under. *)
Lemma process_kept m s R D r s' : dr_ok s → logged R D s → rec_epoch (rrec (dr_s s)) = r_epoch (dr_s s) →
  dtls1_process_record m s BM_current = Some (r, s') →
  kept D s s' ∧ dr_packet s' = dr_packet s ∧ read_sequence (dr_s s') = read_sequence (dr_s s) ∧
  record_id s' = record_id s ∧ unprocessed_epoch (dr_s s') = unprocessed_epoch (dr_s s) ∧
  dr_unprocessed s' = dr_unprocessed s ∧ (r = 0 ∨ r = 1) ∧
  (r = 1 → be_load (read_sequence (dr_s s)) ∉ R → ∃ R', logged R' (D ++ [record_id s']) s').
Proof.
  intros Hok L He [[-> Ha]|[-> Ha]]%process_record_spec.
  - rewrite (alike_id _ _ Ha). split; [apply kept_alike; eauto|].
    destruct Ha. repeat (split; [done|]). split; [by left|done].
  - destruct (marked_logged s R D Hok L He) as [L1 L2]. rewrite (alike_id _ _ Ha).
    assert (kept D s (marked s BM_current)) as K1 by (split; [by apply marked_ok|]; split; [done|]; eauto).
    split; [eapply kept_trans; [exact K1|]; apply kept_alike; [apply K1|apply K1|done]|].
    pose proof Ha as []. repeat (split; [done|]). split; [by right|]. intros _ Hn. eexists.
    eapply alike_logged; [exact Ha|]. by apply L2.
Qed.

Lemma get_bitmap_cases d rr : match dtls1_get_bitmap d rr with
  | (Some BM_current, n) => n = 0 ∧ rec_epoch rr = r_epoch d
  | (Some BM_next, n) => n = 1 ∧ unprocessed_epoch d ≠ r_epoch d
  | (None, _) => True
  end.
Proof. unfold dtls1_get_bitmap. case_cmp; cbn; try done; case_match; done. Qed.

Lemma process_loop_kept m D fuel : ∀ s, dr_ok s → (∃ R, logged R D s) →
  unprocessed_epoch (dr_s s) = r_epoch (dr_s s) →
  match process_loop m s fuel with
  | PEnd s' | PRet _ s' => kept D s s'
  | PAbort | PFuel => True
  end.
Proof.
  induction fuel as [|fuel IH]; intros s Hok (R & L) Hu; [done|]. cbn [process_loop]. unfold pqueue_peek.
  destruct (dr_unprocessed s) as [|it l] eqn:Eu; cbn [head]; [by split; [|split; [|exists R]]|].
  destruct (dtls1_retrieve_buffered_record s Q_unprocessed) as [x s1] eqn:Er.
  destruct (retrieve_ok s _ _ _ Hok Er) as (Hok1 & B1 & E1 & U1 & Q1). cbn [queue] in Q1. rewrite Eu in Q1.
  destruct Q1 as (_ & Hid & Hsq & Hlen & _ & P1).
  assert (logged R D s1) as L1 by (destruct L; split; by rewrite ?B1, ?E1, ?P1).
  assert (kept D s s1) as K1 by (split; [done|split; [done|by exists R]]).
  pose proof (get_bitmap_cases (dr_s s1) (rrec (dr_s s1))) as Hg.
  destruct (dtls1_get_bitmap (dr_s s1) (rrec (dr_s s1))) as [[[|]|] n]; [|destruct Hg; congruence|done].
  destruct Hg as [_ Hep]. cbn [window].
  destruct (dtls1_record_replay_check (dr_s s1) (bitmap (dr_s s1))) as [ok d] eqn:Ec.
  destruct (replay_check_cases _ _ R _ _ (lg_window _ _ _ L1) (proj1 (ok_seq _ Hok1)) Ec) as [Hfresh Hd].
  pose proof (checked_alike s1 d Hd) as Ha. set (s2 := set_dr_s s1 d) in *.
  assert (dr_ok s2 ∧ logged R D s2) as [Hok2 L2] by (split; [by eapply alike_ok|by eapply alike_logged]).
  assert (kept D s s2) as K2 by (eapply kept_trans; [exact K1|]; apply kept_alike; eauto).
  pose proof Ha as [A1 A2 A3 A4 A5 A6 A7 A8 A9 A10 A11 A12].
  clearbody s2. destruct (Z.eqb_spec ok 0) as [_|Hne].
  { rewrite Z.eqb_refl. specialize (IH (dump_record s2) (alike_ok _ _ (dump_alike s2) Hok2)).
    destruct (process_loop m (dump_record s2) fuel); try done; eapply kept_trans; try exact K2;
      (eapply kept_trans; [apply (kept_alike D s2 _ Hok2 ltac:(eauto) (dump_alike s2))|]); apply IH;
      try (by exists R; eapply alike_logged; [apply dump_alike|]); cbn; congruence. }
  destruct Hfresh as [?|[-> Hnew]]; [done|].
  destruct (dtls1_process_record m s2 BM_current) as [[r s3]|] eqn:Ep; [|done].
  destruct (process_kept m s2 R D r s3 Hok2 L2 ltac:(congruence) Ep) as (K3 & Pk & Sq & Id & Un & Uq & Hr & Hlog).
  destruct K3 as (Hok3 & E3 & L3).
  assert (kept D s s3) as K3 by (eapply kept_trans; [exact K2|by split; [|split]]).
  destruct Hr as [-> | ->]; cbn [Z.eqb].
  - specialize (IH (dump_record s3) (alike_ok _ _ (dump_alike s3) Hok3)).
    destruct (process_loop m (dump_record s3) fuel); try done; eapply kept_trans; try exact K3;
      (eapply kept_trans; [apply (kept_alike D s3 _ Hok3 L3 (dump_alike s3))|]); apply IH;
      try (destruct L3 as (R3 & L3); exists R3; by eapply alike_logged; [apply dump_alike|]); cbn; congruence.
  - destruct (Hlog eq_refl ltac:(congruence)) as (R' & L').
    destruct (dtls1_buffer_record s3 Q_processed _) as [b s4] eqn:Eb.
    destruct (buffer_record_ok s3 _ _ _ _ Hok3 ltac:(congruence) Eb) as (Hok4 & B4 & E4 & U4 & Q4).
    assert (logged R' D s4) as L4.
    { apply (logged_wait R' D (record_id s3) s3); [done..|]. destruct Q4 as [[_ ?]|(it' & I1 & I2 & _ & ?)]; [by left|].
      right. exists it'. split; [|done]. unfold item_id, record_id. rewrite I1, I2, Sq, A1, Hsq, Pk, A7. f_equal.
      symmetry. apply be_load_seq48. unfold header_seq. destruct Hok1 as [_ [Hb _] _ _ _ _]. auto with vtls. }
    assert (kept D s s4) as K4 by (eapply kept_trans; [exact K3|split; [done|split; [done|by exists R']]]).
    destruct (b <? 0); [done|]. specialize (IH s4 Hok4 ltac:(eauto)).
    destruct (process_loop m s4 fuel); try done; (eapply kept_trans; [exact K4|]); apply IH; congruence.
Qed.

(** The fuel suffices. *)
Lemma process_loop_fuel m fuel : ∀ s, (length (dr_unprocessed s) < fuel)%nat → process_loop m s fuel ≠ PFuel.
Proof.
  induction fuel as [|fuel IH]; intros s Hf; [lia|]. cbn [process_loop]. unfold pqueue_peek.
  unfold dtls1_retrieve_buffered_record, pqueue_pop. cbn [queue].
  destruct (dr_unprocessed s) as [|it l] eqn:Eu; cbn [head tail]; [done|]. cbn [length] in Hf.
  set (s1 := dtls1_copy_record _ _). assert (dr_unprocessed s1 = l) as E1 by done. clearbody s1.
  destruct (dtls1_get_bitmap _ _) as [[w|] n]; [|done].
  destruct (dtls1_record_replay_check _ _) as [ok d]. set (s2 := set_dr_s s1 d).
  assert (dr_unprocessed s2 = l) as E2 by done. clearbody s2.
  destruct (if ok =? 0 then _ else _) as [[r s3]|] eqn:Ep; [|done].
  assert (dr_unprocessed s3 = l) as E3.
  { destruct (ok =? 0); [congruence|]. apply process_record_spec in Ep as [[_ []]|[_ []]]; [congruence|].
    rewrite al_uq0. exact E2. }
  destruct (r =? 0); [apply IH; change (dr_unprocessed (dump_record s3)) with (dr_unprocessed s3); rewrite E3; lia|].
  assert (dr_unprocessed (dtls1_buffer_record s3 Q_processed (rec_seq_num (rrec (dr_s s3)))).2 = l) as E4.
  { unfold dtls1_buffer_record. destruct (100 <=? _); [exact E3|]. unfold next_mem. destruct (dr_mem s3) as [|[] mm];
      cbn; try exact E3; destruct (pqueue_insert _ _) as [[|]]; exact E3. }
  destruct (dtls1_buffer_record s3 Q_processed _) as [b s4]. cbn [snd] in E4. destruct (b <? 0); [done|]. apply IH. rewrite E4. lia.
Qed.

Lemma sync_kept D s : dr_ok s → (∃ R, logged R D s) → kept D s (sync_epochs s).
Proof. intros [] (R & []). split; [by split|]. split; [done|]. by exists R. Qed.

Lemma process_buffered_kept m D s : dr_ok s → (∃ R, logged R D s) →
  match dtls1_process_buffered_records m s with
  | DRet _ s' => kept D s s'
  | DAbort => True
  | DFuel => False
  end.
Proof.
  intros Hok L. unfold dtls1_process_buffered_records.
  destruct (pqueue_peek (dr_unprocessed s)); [|by apply sync_kept].
  destruct (Z.eqb_spec (unprocessed_epoch (dr_s s)) (r_epoch (dr_s s))) as [Hu|]; cbn [negb]; [|by apply kept_refl].
  destruct (0 <? Z.of_nat (length (dr_left s))); [by apply kept_refl|]. pose proof (process_loop_kept m D (S (length (dr_unprocessed s))) s Hok L Hu) as Hk.
  pose proof (process_loop_fuel m (S (length (dr_unprocessed s))) s ltac:(lia)) as Hf.
  destruct (process_loop _ _ _); try done. eapply kept_trans; [exact Hk|]. apply sync_kept; apply Hk.
Qed.

(** ** No record is delivered twice *)

Lemma read_only_kept D s s' : (∃ R, logged R D s) → dr_ok s' → read_only s s' → kept D s s'.
Proof.
  intros (R & [L1 L2 L3]) Hok (Es & _ & Ep & _). split; [done|]. rewrite Es. split; [done|].
  exists R. split; by rewrite ?Es, ?Ep.
Qed.

Lemma read_header_kept c D s : dr_ok s → (∃ R, logged R D s) →
  match read_header c s with
  | Return i s' => kept D s s' ∧ i ≠ 1
  | Again s' => kept D s s'
  | Go s' => kept D s s' ∧ DTLS1_RT_HEADER_LENGTH ≤ dr_packet_length s'
  end.
Proof.
  intros Hok L. unfold read_header. destruct (negb (dr_body s) || _) eqn:Eh.
  2:{ split; [by apply kept_refl|]. apply orb_false_elim in Eh as [_ ?]. lia. }
  destruct (ssl3_read_n c s _ _ false) as [n s1] eqn:En. destruct (read_n_ok _ _ _ _ _ _ _ Hok En) as [Hok1 Hr].
  pose proof (read_only_kept D s s1 L Hok1 Hr) as K1. destruct (Z.leb_spec n 0); [split; [done|lia]|].
  destruct (Z.eqb_spec (dr_packet_length s1) DTLS1_RT_HEADER_LENGTH) as [El|]; cbn [negb]; [|done].
  set (s2 := set_dr_s (set_dr_body s1 true) _).
  assert (kept D s s2) as K2.
  { eapply kept_trans; [exact K1|]. destruct Hok1 as [[O1 O1'] [O2 O2'] O3 O4 O5 O6]. destruct K1 as (_ & _ & R & [L1 L2 L3]).
    split; [|split; [done|by exists R]]. split; try done. cbn [s2 set_dr_s dr_s set_rrec set_read_sequence read_sequence set_dr_body].
    rewrite O1'. apply header_seq_ok; [done|]. cbn [set_dr_body dr_packet]. unfold DTLS1_RT_HEADER_LENGTH in *. lia. }
  assert (dr_packet_length s2 = DTLS1_RT_HEADER_LENGTH) as E2 by done. clearbody s2.
  destruct (negb (rc_first_packet c) && _); [done|]. destruct (negb (_ =? _)); [done|].
  destruct (SSL3_RT_MAX_ENCRYPTED_LENGTH <? _); [done|]. split; [done|]. by rewrite E2.
Qed.

Lemma read_body_kept c D s : dr_ok s → (∃ R, logged R D s) → DTLS1_RT_HEADER_LENGTH ≤ dr_packet_length s →
  match read_body c s with
  | Return i s' => False
  | Again s' => kept D s s'
  | Go s' => kept D s s' ∧ DTLS1_RT_HEADER_LENGTH ≤ dr_packet_length s'
  end.
Proof.
  intros Hok L Hp. unfold read_body. destruct (_ <? rec_length _) eqn:El.
  2:{ split; [|done]. apply kept_alike; [done|done|alike_tac]. }
  destruct (ssl3_read_n c s _ _ true) as [n s1] eqn:En. destruct (read_n_ok _ _ _ _ _ _ _ Hok En) as [Hok1 Hr].
  pose proof (read_only_kept D s s1 L Hok1 Hr) as K1. destruct (negb (n =? _)); [done|]. split.
  { eapply kept_trans; [exact K1|]. apply kept_alike; [done|apply K1|alike_tac]. }
  assert (dr_packet_length s ≤ dr_packet_length s1); [|cbn; lia]. revert En. unfold ssl3_read_n.
  case_match; [by intros [= _ <-]|]. case_match; [by intros [= _ <-]|]. case_match eqn:Ele.
  - intros [= _ <-]. cbn [take_bytes set_dr_packet dr_packet_length]. case_match; lia.
  - exfalso. rewrite andb_true_r in *. assert (0 < Z.of_nat (length (dr_left s))) as Hpos by lia.
    rewrite (proj2 (Z.ltb_lt _ _) Hpos) in Ele. cbn [andb] in Ele. case_match; lia.
Qed.

Lemma accept_record_kept c m D s : dr_ok s → (∃ R, logged R D s) → DTLS1_RT_HEADER_LENGTH ≤ dr_packet_length s →
  match accept_record c m s with
  | Some (Return i s') =>
      kept D s s' ∧ (i = 1 → rc_listen c = false → ∃ R', logged R' (D ++ [record_id s']) s')
  | Some (Again s') | Some (Go s') => kept D s s'
  | None => True
  end.
Proof.
  intros Hok (R & L) Hp. unfold accept_record. pose proof (get_bitmap_cases (dr_s s) (rrec (dr_s s))) as Hg.
  destruct (dtls1_get_bitmap (dr_s s) (rrec (dr_s s))) as [[w|] n]; [|by apply kept_refl; eauto].
  destruct (if unchecked c s then _ else _) as [ok d] eqn:Ec.
  assert (alike s (set_dr_s s d) ∧ (ok ≠ 0 → rc_listen c = false → w = BM_current → be_load (read_sequence (dr_s s)) ∉ R)) as [Ha Hnew].
  { unfold unchecked in Ec. destruct (rc_listen c) eqn:Elis.
    - split; [|done]. destruct (_ && _) eqn:E; [injection Ec as _ <-; by apply checked_alike; left|].
      revert Ec. unfold dtls1_record_replay_check. repeat case_match; intros [= _ <-]; apply checked_alike; auto.
    - cbn [andb] in Ec. destruct w; cbn [window] in Ec.
      + destruct (replay_check_cases _ _ R _ _ (lg_window _ _ _ L) (proj1 (ok_seq _ Hok)) Ec) as [H1 H2].
        split; [by apply checked_alike|]. intros. by destruct H1 as [?|[_ ?]].
      + destruct (replay_check_cases _ _ ∅ _ _ (ok_next _ Hok) (proj1 (ok_seq _ Hok)) Ec) as [_ H2].
        split; [by apply checked_alike|done]. }
  set (s1 := set_dr_s s d) in *. pose proof Ha as [A1 A2 A3 A4 A5 A6 A7 A8 A9 A10 A11 A12].
  assert (dr_packet_length s1 = dr_packet_length s) as El by done.
  assert (dr_ok s1 ∧ logged R D s1) as [Hok1 L1] by (split; [by eapply alike_ok|by eapply alike_logged]).
  assert (kept D s s1) as K1 by (apply kept_alike; eauto). clearbody s1.
  destruct (Z.eqb_spec ok 0) as [|Hok0]; [done|]. destruct (rec_length (rrec (dr_s s1)) =? 0); [done|].
  assert (∀ s2, kept D s1 s2 → kept D s (dump_record s2)) as Hdump.
  { intros s2 K. eapply kept_trans; [exact K1|]. eapply kept_trans; [exact K|].
    apply kept_alike; [apply K|apply K|apply dump_alike]. }
  destruct w; [|].
  - destruct Hg as [-> Hep]. cbn [Z.eqb negb]. destruct (dtls1_process_record m s1 BM_current) as [[r s2]|] eqn:Ep; [|done].
    destruct (process_kept m s1 R D r s2 Hok1 L1 ltac:(congruence) Ep) as (K2 & _ & _ & _ & _ & _ & Hr & Hlog).
    destruct Hr as [-> | ->]; cbn [Z.eqb]; [by apply Hdump|]. split; [by eapply kept_trans|].
    intros _ Hlis. apply Hlog; [done|]. rewrite A1. by apply Hnew.
  - destruct Hg as [-> _]. cbn [Z.eqb negb]. destruct (rc_in_handshake c && negb (rc_listen c)); [|by apply Hdump, kept_refl; eauto].
    destruct (dtls1_buffer_record s1 Q_unprocessed _) as [b s2] eqn:Eb.
    assert (11 ≤ length (dr_packet s1))%nat as Hl by (destruct Hok1 as [_ [_ ?] _ _ _ _]; unfold DTLS1_RT_HEADER_LENGTH in *; lia).
    destruct (buffer_record_ok s1 _ _ _ _ Hok1 Hl Eb) as (Hok2 & B2 & E2 & U2 & Q2).
    assert (kept D s1 s2) as K2.
    { split; [done|]. split; [done|]. exists R. destruct L1 as [M1 M2 M3].
      assert (dr_processed s2 = dr_processed s1) as Eq by (destruct Q2 as [[_ ?]|(? & _ & _ & _ & ?)]; done).
      split; by rewrite ?B2, ?E2, ?Eq. }
    destruct (b <? 0); [split; [by eapply kept_trans|done]|by apply Hdump].
Qed.

Lemma get_record_kept c m D fuel : ∀ s, dr_ok s → (∃ R, logged R D s) →
  match dtls1_get_record c m s fuel with
  | DRet i s' => kept D s s' ∧ (i = 1 → rc_listen c = false → ∃ R', logged R' (D ++ [record_id s']) s')
  | DAbort | DFuel => True
  end.
Proof.
  induction fuel as [|fuel IH]; intros s Hok L; [done|]. cbn [dtls1_get_record].
  pose proof (process_buffered_kept m D s Hok L) as K1.
  destruct (dtls1_process_buffered_records m s) as [r s1| |]; [|done|done]. destruct (r =? 0); [by split|].
  pose proof K1 as (Hok1 & _ & R & L1).
  destruct (dtls1_retrieve_buffered_record s1 Q_processed) as [p s2] eqn:Er.
  destruct (retrieve_ok s1 _ _ _ Hok1 Er) as (Hok2 & B2 & E2 & U2 & Q2). cbn [queue] in Q2.
  destruct (dr_processed s1) as [|it l] eqn:Ep.
  2:{ destruct Q2 as (-> & Hid & _ & _ & _ & Q). cbn [Z.eqb negb].
      assert (logged R (D ++ [record_id s2]) s2) as L2.
      { destruct L1 as [M1 M2 M3]. rewrite Ep, fmap_cons in *. rewrite Hid. split; [by rewrite B2|..];
          rewrite Q, <- app_assoc; [done|]. rewrite E2. exact M3. }
      split; [|by eexists]. eapply kept_trans; [exact K1|]. split; [done|]. split; [done|]. exists R. by eapply logged_less. }
  destruct Q2 as [-> ->]. cbn [Z.eqb negb].
  assert (∀ s2, kept D s s2 → match dtls1_get_record c m s2 fuel with
    | DRet i s' => kept D s s' ∧ (i = 1 → rc_listen c = false → ∃ R', logged R' (D ++ [record_id s']) s')
    | DAbort | DFuel => True end) as Hagain.
  { intros s2 K. specialize (IH s2 ltac:(apply K) ltac:(apply K)). destruct (dtls1_get_record c m s2 fuel); try done.
    destruct IH. split; [by eapply kept_trans|done]. }
  pose proof (read_header_kept c D s1 Hok1 ltac:(eauto)) as Kh.
  destruct (read_header c s1) as [i s3|s3|s3]; [|by apply Hagain; eapply kept_trans|].
  { destruct Kh as [K ?]. split; [by eapply kept_trans|done]. }
  destruct Kh as [K3 Hp]. pose proof (read_body_kept c D s3 ltac:(apply K3) ltac:(apply K3) Hp) as Kb.
  assert (kept D s s3) as K3' by (by eapply kept_trans).
  destruct (read_body c s3) as [i s4|s4|s4]; [done|by apply Hagain; eapply kept_trans|]. destruct Kb as [K4 Hp4].
  assert (kept D s s4) as K4' by (by eapply kept_trans).
  pose proof (accept_record_kept c m D s4 ltac:(apply K4) ltac:(apply K4) Hp4) as Ka.
  destruct (accept_record c m s4) as [[i s5|s5|s5]|]; [|by apply Hagain; eapply kept_trans..|done].
  destruct Ka. split; [by eapply kept_trans|done].
Qed.

(** What happens at the receiver: a call of [dtls1_get_record], for which datagrams have arrived; a
    change of the read epoch; and whatever the callers do in between to the record, the packet, the
    rest of the datagram and the six bytes of the sequence number. *)
Inductive dr_event :=
  | EvGet (c : rconf) (m : rmethod) (arrived : list (nat + list Z)) (mem : list mem_outcome) (fuel : nat)
  | EvEpoch
  | EvCaller (r : SSL3_RECORD) (packet : list Z) (n : Z) (rest sq : list Z).

Definition event_ok (e : dr_event) : Prop :=
  match e with
  | EvGet _ _ arrived _ _ => Forall dgram_ok arrived
  | EvEpoch => True
  | EvCaller _ packet n rest sq => packet_ok packet n ∧ bytes rest ∧ bytes sq ∧ length sq = 6%nat
  end.

(** The records delivered by the calls that do not listen. *)
Fixpoint deliveries (s : dr) (evs : list dr_event) : list (Z * Z) :=
  match evs with
  | [] => []
  | EvGet c m arrived mem fuel :: evs =>
      match dtls1_get_record c m (set_dr_mem (set_dr_input s (dr_input s ++ arrived)) mem) fuel with
      | DRet i s => (if (i =? 1) && negb (rc_listen c) then [record_id s] else []) ++ deliveries s evs
      | DAbort | DFuel => []
      end
  | EvEpoch :: evs => deliveries (set_dr_s s (dtls1_reset_seq_numbers (dr_s s) SSL3_CC_READ)) evs
  | EvCaller r packet n rest sq :: evs =>
      let d := set_read_sequence (set_rrec (dr_s s) r) (take 2 (read_sequence (dr_s s)) ++ sq) in
      deliveries (set_dr_packet (set_dr_s s d) packet n rest) evs
  end.

Definition epochs (evs : list dr_event) : Z :=
  Z.of_nat (sum_list_with (λ e, match e with EvEpoch => 1 | _ => 0 end)%nat evs).

Lemma deliveries_nodup evs : ∀ s D, dr_ok s → (∃ R, logged R D s) → Forall event_ok evs →
  0 ≤ r_epoch (dr_s s) → r_epoch (dr_s s) + epochs evs < 2 ^ 16 → NoDup (D ++ deliveries s evs).
Proof.
  induction evs as [|e evs IH]; intros s D Hok (R & L) Hev H0 He; cbn [deliveries].
  { rewrite app_nil_r. destruct L as [_ L _]. by apply NoDup_app in L as [? _]. }
  apply Forall_cons in Hev as [Hv Hev]. unfold epochs in *. cbn [sum_list_with] in He.
  pose proof Hok as [[O1 O1'] O2 O3 O4 O5 O6]. pose proof L as [L1 L2 L3].
  destruct e as [c m arrived mem fuel| |r packet n rest sq].
  - set (s0 := set_dr_mem _ mem).
    assert (dr_ok s0) as Hok0 by (split; try done; by apply Forall_app).
    assert (logged R D s0) as L0 by done.
    pose proof (get_record_kept c m D fuel s0 Hok0 ltac:(eauto)) as K.
    assert (NoDup D) as HD by (by apply NoDup_app in L2 as [? _]).
    destruct (dtls1_get_record c m s0 fuel) as [i s1| |]; [|by rewrite app_nil_r..].
    destruct K as [(Hok1 & E1 & R1 & L1') Hd]. change (r_epoch (dr_s s0)) with (r_epoch (dr_s s)) in E1.
    destruct (Z.eqb_spec i 1) as [->|]; cbn [andb]; [|apply IH; eauto; lia].
    destruct (rc_listen c) eqn:El; cbn [negb]; [apply IH; eauto; lia|].
    destruct (Hd eq_refl eq_refl) as (R2 & L2'). cbn [app]. rewrite cons_middle, app_assoc. apply IH; eauto; lia.
  - set (s1 := set_dr_s s _). assert (r_epoch (dr_s s1) = r_epoch (dr_s s) + 1) as E1.
    { change (u16 (r_epoch (dr_s s) + 1) = r_epoch (dr_s s) + 1). unfold u16. apply Z.mod_small. lia. }
    apply IH; [| |done|lia|lia].
    + split; try done; [by split; [split; [apply bytes_replicate0|]|]|apply empty_window_repr].
    + exists ∅. split; [exact O6|exact L2|]. intros e q H. destruct (L3 e q H) as [Hle _]. rewrite E1. split; lia.
  - destruct Hv as (V1 & V2 & V3 & V4). apply IH; [|by exists R|done|done|exact He].
    split; try done. cbn [set_dr_packet set_dr_s dr_s set_read_sequence read_sequence]. rewrite O1'.
    split; [|done]. split; [|cbn; lia]. repeat (constructor; [unfold is_byte; lia|]). done.
Qed.

(** C20: No record is delivered twice.  From a new connection on, let [dtls1_get_record] be called any number of
    times, with any datagrams arriving, any cipher and any outcome of the allocations, with up to
    [2^16 - 1] changes of the read epoch between the calls, and with whatever the callers do to the
    current record: no epoch and sequence number is delivered twice by the calls that are not listening.
    (While listening, a ClientHello is not checked for replay, [listening_hello_twice].) *)
Theorem no_record_delivered_twice input evs : Forall dgram_ok input → Forall event_ok evs →
  epochs evs < 2 ^ 16 → NoDup (deliveries (fresh_dr input) evs).
Proof.
  intros Hi Hev He. apply (deliveries_nodup evs (fresh_dr input) []); [| |done|cbn; lia|cbn; lia].
  - split; [|by split|constructor|done|by split|apply empty_window_repr]. split; [|done]. by split; [apply bytes_replicate0|].
  - exists ∅. split; [apply empty_window_repr|constructor|]. intros e q H. by apply elem_of_nil in H.
Qed.

Lemma no_record_delivered_twice_witness :
  let get ds := EvGet dtls12 plain (inr <$> ds) [] 20 in
  let evs := [get [wire_record 22 0xfefd 0 5 [1]; wire_record 22 0xfefd 0 5 [1]; wire_record 22 0xfefd 1 7 [2]];
              get [wire_record 22 0xfefd 0 6 [1]]; EvEpoch; get []; get [wire_record 22 0xfefd 1 7 [2]];
              get [wire_record 22 0xfefd 1 5 [3]]] in
  NoDup (deliveries (fresh_dr []) evs) ∧ deliveries (fresh_dr []) evs = [(0, 5); (0, 6); (1, 7); (1, 5)].
Proof.
  split; [|vm_compute; reflexivity].
  assert (∀ ds, Forall (Forall is_byte) ds → event_ok (EvGet dtls12 plain (inr <$> ds) [] 20)) as Hg.
  { intros ds Hd. cbn [event_ok]. by apply Forall_fmap. }
  apply no_record_delivered_twice; [constructor| |vm_compute; reflexivity].
  repeat (apply Forall_cons_2; [first [exact I | apply Hg, (bool_decide_eq_true_1 _); vm_compute; reflexivity]|]).
  apply Forall_nil_2.
Defined.

(** ** A new record is delivered *)

Lemma slice_app (a x r : list Z) m n : length a = m → length x = n → take n (drop m (a ++ x ++ r)) = x.
Proof. intros. rewrite drop_app_exact by done. by apply take_app_exact. Qed.

Lemma wire_record_parts type version e q body : 0 ≤ version < 2 ^ 16 → 0 ≤ e < 2 ^ 16 →
  Z.of_nat (length body) < 2 ^ 16 →
  let p := take 13 (wire_record type version e q body) in
  length p = 13%nat ∧ wire_record type version e q body = p ++ body ∧
  getb p 0 = type ∧ be_load (take 2 (drop 1 p)) = version ∧ be_load (take 2 (drop 3 p)) = e ∧
  header_seq p = be_store 6 q ∧ be_load (take 2 (drop 11 p)) = Z.of_nat (length body).
Proof.
  intros Hv He Hb. cbv zeta. set (n := be_store 2 (Z.of_nat (length body))).
  set (p := [type] ++ be_store 2 version ++ be_store 2 e ++ be_store 6 q ++ n).
  assert (length p = 13%nat) as Hl by (unfold p, n; len).
  assert (wire_record type version e q body = p ++ body) as Ew by (unfold wire_record, p; by rewrite <- !app_assoc).
  rewrite Ew, take_app_exact by done. split; [done|]. split; [done|]. split; [done|].
  split; [|split; [|split]].
  - unfold p. rewrite (slice_app [type] (be_store 2 version)), be_load_store, Z.mod_small by (len || done). done.
  - replace p with (([type] ++ be_store 2 version) ++ be_store 2 e ++ be_store 6 q ++ n) by (unfold p; by rewrite <- !app_assoc).
    rewrite slice_app, be_load_store, Z.mod_small by (len || done). done.
  - replace p with (([type] ++ be_store 2 version ++ be_store 2 e) ++ be_store 6 q ++ n) by (unfold p; by rewrite <- !app_assoc).
    unfold header_seq. apply slice_app; len.
  - replace p with (([type] ++ be_store 2 version ++ be_store 2 e ++ be_store 6 q) ++ n ++ []) by (unfold p; by rewrite app_nil_r, <- !app_assoc).
    rewrite slice_app by (unfold n; len). unfold n. rewrite be_load_store, Z.mod_small by (cbn; lia). done.
Qed.

(** Reading from a new datagram, and the rest of it. *)
Lemma read_n_new c s n p d rest : dr_left s = [] → dr_input s = inr (p ++ d) :: rest → Z.of_nat (length p) = n →
  0 < n → n + Z.of_nat (length d) ≤ rc_room c →
  ssl3_read_n c s n (rc_room c) false = (n, set_dr_packet (set_dr_input s rest) p n d).
Proof.
  intros Hl Hi Hp Hn Hr. unfold ssl3_read_n. rewrite (proj2 (Z.leb_gt _ _) Hn).
  cbn [set_dr_packet dr_left dr_input]. rewrite Hl, Hi. cbn [length].
  change (Z.of_nat 0) with 0. rewrite Z.ltb_irrefl, andb_false_r. cbn [andb].
  rewrite (proj2 (Z.leb_gt _ _) Hn), (proj2 (Z.ltb_ge (rc_room c) n)), Z.ltb_irrefl by lia.
  rewrite (take_ge (p ++ d)) by (rewrite length_app; lia). rewrite length_app, (proj2 (Z.ltb_ge _ n)) by lia.
  unfold take_bytes. cbn [set_dr_packet set_dr_input dr_packet dr_packet_length dr_left].
  rewrite take_app_exact, drop_app_exact by lia. done.
Qed.

Lemma read_n_left c s n max b : dr_left s = b → Z.of_nat (length b) = n → 0 < n →
  Z.of_nat (length (dr_packet s)) = dr_packet_length s →
  ssl3_read_n c s n max true = (n, set_dr_packet s (dr_packet s ++ b) (dr_packet_length s + n) []).
Proof.
  intros Hl Hn Hp Hk. unfold ssl3_read_n. rewrite (proj2 (Z.leb_gt _ _) Hp), Hl, Hn.
  rewrite (proj2 (Z.eqb_neq n 0)), Z.ltb_irrefl, andb_false_r, Z.leb_refl by lia. cbn [andb].
  unfold take_bytes. rewrite Hl, !take_ge, drop_ge by lia. done.
Qed.

(** A record that the window accepts and the cipher passes is delivered by the first round, with the
    rest of the input untouched. *)
Theorem new_record_delivered c m s R D type e q body rest fuel out :
  dr_ok s → logged R D s → dr_body s = false → dr_left s = [] → dr_unprocessed s = [] → dr_processed s = [] →
  dr_input s = inr (wire_record type (rc_version c) e q body) :: rest → rc_listen c = false →
  0 ≤ rc_version c < 2 ^ 16 → 0 ≤ e < 2 ^ 16 → e = r_epoch (dr_s s) → 0 ≤ q < 2 ^ 48 →
  acceptable R (be_load (max_seq_num (bitmap (dr_s s)))) q →
  body ≠ [] → Z.of_nat (length body) ≤ SSL3_RT_MAX_ENCRYPTED_LENGTH → 13 + Z.of_nat (length body) ≤ rc_room c →
  rm_hash m = None →
  (∀ d, rec_input (rrec d) = body → rec_length (rrec d) = Z.of_nat (length body) →
        rm_enc m d = (1, type, Z.of_nat (length out), out)) →
  Z.of_nat (length out) ≤ SSL3_RT_MAX_PLAIN_LENGTH → (0 < fuel)%nat →
  ∃ s', dtls1_get_record c m s fuel = DRet 1 s' ∧ record_id s' = (e, q) ∧ rec_data (rrec (dr_s s')) = out ∧
    rec_length (rrec (dr_s s')) = Z.of_nat (length out) ∧ rec_type (rrec (dr_s s')) = type ∧ dr_input s' = rest.
Proof.
  intros Hok L Hb Hl Hu Hp Hi Hli Hv He Her Hq Hacc Hne Hlen Hroom Hh Henc Hout Hf. unfold SSL3_RT_MAX_ENCRYPTED_LENGTH,
    SSL3_RT_MAX_COMPRESSED_LENGTH, SSL3_RT_MAX_PLAIN_LENGTH in *.
  destruct (wire_record_parts type (rc_version c) e q body Hv He ltac:(lia)) as (W1 & W2 & W3 & W4 & W5 & W6 & W7).
  cbv zeta in *. set (p := take 13 (wire_record _ _ _ _ _)) in *. clearbody p.
  assert (0 < Z.of_nat (length body)) as Hpos by (destruct body; [done|cbn; lia]).
  destruct fuel as [|fuel]; [lia|]. cbn [dtls1_get_record]. unfold dtls1_process_buffered_records. rewrite Hu. cbn [pqueue_peek head Z.eqb].
  set (s1 := sync_epochs s). unfold dtls1_retrieve_buffered_record. cbn [queue]. change (dr_processed s1) with (dr_processed s).
  rewrite Hp. cbn [pqueue_pop head Z.eqb negb].
  assert (∃ s2, read_header c s1 = Go s2 ∧ dr_packet s2 = p ∧ dr_packet_length s2 = 13 ∧ dr_left s2 = body ∧
    dr_input s2 = rest ∧ read_sequence (dr_s s2) = [0; 0] ++ be_store 6 q ∧ r_epoch (dr_s s2) = e ∧
    bitmap (dr_s s2) = bitmap (dr_s s) ∧ rec_type (rrec (dr_s s2)) = type ∧ rec_epoch (rrec (dr_s s2)) = e ∧
    rec_length (rrec (dr_s s2)) = Z.of_nat (length body)) as (s2 & -> & A1 & A2 & A3 & A4 & A5 & A6 & A7 & A8 & A9 & A10).
  { unfold read_header. change (dr_body s1) with (dr_body s). rewrite Hb. cbn [negb orb].
    rewrite (read_n_new c s1 DTLS1_RT_HEADER_LENGTH p body rest); [|exact Hl|by rewrite <- W2|by rewrite W1|done|exact Hroom].
    change (DTLS1_RT_HEADER_LENGTH <=? 0) with false. cbn [set_dr_packet dr_packet_length]. rewrite Z.eqb_refl. cbn [negb].
    set (sb := set_dr_body _ true). change (dr_packet sb) with p. rewrite W3, W4, W5, W6, W7, Z.eqb_refl, andb_false_r, Z.eqb_refl. cbn [negb].
    rewrite (proj2 (Z.ltb_ge _ _)) by (unfold SSL3_RT_MAX_ENCRYPTED_LENGTH, SSL3_RT_MAX_COMPRESSED_LENGTH, SSL3_RT_MAX_PLAIN_LENGTH; lia).
    eexists. split; [reflexivity|]. do 4 (split; [done|]). split; [|done].
    cbn. destruct Hok as [[_ O1] _ _ _ _ _]. by rewrite O1. }
  clearbody s1. unfold read_body. rewrite A2, A10. change (u32 (13 - DTLS1_RT_HEADER_LENGTH)) with 0. rewrite (proj2 (Z.ltb_lt _ _) Hpos).
  rewrite (read_n_left c s2 _ _ body A3 eq_refl Hpos) by (by rewrite A1, A2, W1). rewrite A1, Z.eqb_refl. cbn [negb].
  set (s3 := set_dr_body _ false). unfold accept_record. unfold dtls1_get_bitmap.
  change (rrec (dr_s s3)) with (rrec (dr_s s2)). change (r_epoch (dr_s s3)) with (r_epoch (dr_s s2)). rewrite A9, A6, Z.eqb_refl.
  unfold unchecked. rewrite Hli. cbn [andb window].
  assert (dr_s s3 = dr_s s2) as E3 by done. rewrite E3, A7.
  assert (be_load (read_sequence (dr_s s2)) = q) as Eq.
  { rewrite A5, be_load_seq48, be_load_store, Z.mod_small by (auto with vtls || (cbn; lia)). done. }
  assert (is_seq (read_sequence (dr_s s2))) as Hsq.
  { rewrite A5. split; [|cbn; rewrite length_be_store; done]. repeat (constructor; [unfold is_byte; lia|]). auto with vtls. }
  destruct (dtls1_record_replay_check (dr_s s2) (bitmap (dr_s s))) as [ok d] eqn:Ec.
  pose proof (replay_check_verdict (dr_s s2) (bitmap (dr_s s)) R (lg_window _ _ _ L) Hsq) as Hver.
  rewrite Ec, Eq, decide_True in Hver by done. cbn [fst] in Hver. subst ok. cbn [Z.eqb].
  destruct (replay_check_cases _ _ R _ _ (lg_window _ _ _ L) Hsq Ec) as [_ Hd].
  assert (rec_type (rrec d) = type ∧ rec_length (rrec d) = Z.of_nat (length body) ∧ rec_epoch (rrec d) = e ∧
    read_sequence d = read_sequence (dr_s s2)) as (D1 & D2 & D3 & D4) by (by destruct Hd as [-> | ->]).
  clear Hd Ec. cbn [set_dr_s dr_s]. rewrite D2, (proj2 (Z.eqb_neq _ _)) by lia.
  unfold dtls1_process_record. cbn [set_dr_s dr_s dr_packet]. rewrite D2, (proj2 (Z.ltb_ge _ _)) by
    (unfold SSL3_RT_MAX_ENCRYPTED_LENGTH, SSL3_RT_MAX_COMPRESSED_LENGTH, SSL3_RT_MAX_PLAIN_LENGTH; lia).
  rewrite Henc, Hh; [|cbn [set_rrec rrec set_rec rec_input s3 set_dr_body set_dr_packet dr_packet];
    change (Z.to_nat DTLS1_RT_HEADER_LENGTH) with 13%nat; by apply drop_app_exact|done].
  unfold finish_record. cbn [Z.eqb Z.ltb Z.compare set_dr_s dr_s set_rrec rrec set_rec rec_length].
  rewrite (proj2 (Z.ltb_ge _ _)) by (unfold SSL3_RT_MAX_PLAIN_LENGTH; lia). cbn [Z.eqb].
  eexists. split; [reflexivity|]. split; [|done]. unfold record_id. cbn. by rewrite D3, D4, Eq.
Qed.

(** ** Departures from the comments *)

(** While listening, a ClientHello is not checked for replay. *)
Lemma listening_hello_twice :
  let c := mkRC true true true 0xfefd 20000 in
  let hello := wire_record 22 0xfefd 0 0 [1; 2; 3] in
  match dtls1_get_record c plain (fresh_dr [inr hello; inr hello]) 10 with
  | DRet 1 s => match dtls1_get_record c plain s 10 with
                | DRet i s' => i = 1 ∧ record_id s' = record_id s
                | _ => False
                end
  | _ => False
  end.
Proof. vm_compute. done. Qed.

(** The loop stays in a state in which the body cannot be read. *)
Lemma stuck_loops c m s : dtls1_process_buffered_records m s = DRet 1 s → dr_processed s = [] →
  read_header c s = Go s → read_body c s = Again s → ∀ fuel, dtls1_get_record c m s fuel = DFuel.
Proof.
  intros H1 H2 H3 H4. induction fuel as [|fuel IH]; [done|]. cbn [dtls1_get_record]. rewrite H1. cbn [Z.eqb].
  unfold dtls1_retrieve_buffered_record. cbn [queue]. rewrite H2. cbn [pqueue_pop head Z.eqb negb]. by rewrite H3, H4.
Qed.

(** A datagram that ends before the record it announces makes the loop endless: the partial record is
    not dumped, so that its body is asked for again and again although nothing is left. *)
Lemma partial_record_loops fuel :
  dtls1_get_record dtls12 plain (fresh_dr [inr (take 13 (wire_record 22 0xfefd 0 0 [1; 2; 3]))]) fuel = DFuel.
Proof.
  set (s := set_dr_epoch (set_dr_body (set_dr_packet (set_dr_s (fresh_dr [])
    (set_unprocessed_epoch (set_rrec (dr_s (fresh_dr [])) (set_rec zero_record 22 3 [] [])) 1))
    (take 13 (wire_record 22 0xfefd 0 0 [1; 2; 3])) 13 []) true) 0).
  destruct fuel as [|fuel]; [done|]. cbn [dtls1_get_record].
  set (s0 := fresh_dr _). assert (dtls1_process_buffered_records plain s0 = DRet 1 (sync_epochs s0)) as -> by done.
  cbn [Z.eqb]. assert (dtls1_retrieve_buffered_record (sync_epochs s0) Q_processed = (0, sync_epochs s0)) as -> by done.
  cbn [Z.eqb negb]. assert (read_header dtls12 (sync_epochs s0) = Go s) as -> by (vm_compute; reflexivity).
  assert (read_body dtls12 s = Again s) as Hb by (vm_compute; reflexivity). rewrite Hb.
  apply stuck_loops; try exact Hb; vm_compute; reflexivity.
Qed.

(** A record with another version is not discarded: the header is not read again, and the record is
    processed when the loop is entered the second time. *)
Lemma wrong_version_accepted :
  match dtls1_get_record dtls12 plain (fresh_dr [inr (wire_record 22 0x0301 0 0 [1; 2; 3])]) 10 with
  | DRet i s => i = 1 ∧ rec_data (rrec (dr_s s)) = [1; 2; 3]
  | _ => False
  end.
Proof. vm_compute. done. Qed.

(** Inserting a record of the next epoch fails when it arrives twice: the call fails, which the comment
    says cannot happen, as the window of the next epoch is not updated. *)
Lemma next_epoch_twice_fails :
  let r := wire_record 22 0xfefd 1 0 [1; 2; 3] in
  match dtls1_get_record dtls12 plain (fresh_dr [inr r; inr r]) 10 with
  | DRet i s => i = -1 ∧ dr_input s = []
  | _ => False
  end.
Proof. vm_compute. done. Qed.
