(* ===== verification/Lhash.v ===== *)
(** * The dynamic hash table

    Models [crypto/lhash/lhash.c], a linear hash table that splits or merges
    one bucket at a time.  A bucket is the chain of its nodes in [next] order
    and the table [b] is the array of the [num_alloc_nodes] chains.  The calls
    to [malloc] and [reallocarray] are answered by boolean arguments.  The numbers
    of buckets are [unsigned int] and wrap around; from [2^30] buckets on the
    conversion to [int] in [expand] overflows, which the theorems keep away from by a
    bound on the number of items.

    The caller's hash and comparison functions are section variables with the
    contract the header asks for: the comparison is equality of a key and the
    hash depends on the key only.  The refinement theorems show that, as long as
    [reallocarray] succeeds when it is called, the table is a finite map from keys to
    data through all splits and merges, also when a node cannot be allocated; two
    further theorems show what is lost when [reallocarray] fails. *)

From S2P Require Import Prelude.
From stdpp Require Import gmap functions.
#[local] Open Scope Z_scope.

Definition MIN_NODES : Z := 16.
Definition LH_LOAD_MULT : Z := 256.
Definition UP_LOAD : Z := 2 * LH_LOAD_MULT.
Definition DOWN_LOAD : Z := LH_LOAD_MULT.

(** The statistics counters of [struct lhash_st]. *)
Inductive stat :=
  | num_expands | num_expand_reallocs | num_contracts | num_contract_reallocs
  | num_hash_calls | num_comp_calls | num_insert | num_replace | num_delete
  | num_no_delete | num_retrieve | num_retrieve_miss | num_hash_comps.

#[global] Instance stat_eq_dec : EqDecision stat.
Proof. solve_decision. Defined.

Section lhash.
Context {V : Type} (hash : V → Z) (comp : V → V → Z).

Record LHASH_NODE := { ndata : V; nhash : Z }.

(** [num_nodes], [num_alloc_nodes], [p] and [pmax] are [unsigned int], the other counters
    [unsigned long]. *)
Record LHASH := {
  b : list (list LHASH_NODE);
  num_nodes : Z;
  num_alloc_nodes : Z;
  p : Z;
  pmax : Z;
  up_load : Z;
  down_load : Z;
  num_items : Z;
  stats : stat → Z;
  error : Z;
}.

Definition bucket (lh : LHASH) (i : Z) : list LHASH_NODE := nth (Z.to_nat i) (b lh) [].

Definition set_bucket (bs : list (list LHASH_NODE)) (i : Z) (c : list LHASH_NODE) :=
  <[Z.to_nat i := c]> bs.

Definition bump (st : stat → Z) (k : stat) (n : Z) : stat → Z := <[k := u64 (st k + n)]> st.

Definition lh_new : LHASH :=
  {| b := replicate (Z.to_nat MIN_NODES) []; num_nodes := MIN_NODES `div` 2;
     num_alloc_nodes := MIN_NODES; p := 0; pmax := MIN_NODES `div` 2; up_load := UP_LOAD;
     down_load := DOWN_LOAD; num_items := 0; stats := λ _, 0; error := 0 |}.

(** The loop of [expand]: the nodes of the chain [n1] that stay, in order, and
    the chain [n2] that collects the moved ones at its front. *)
Fixpoint split_loop (nni p : Z) (n1 n2 : list LHASH_NODE) : list LHASH_NODE * list LHASH_NODE :=
  match n1 with
  | [] => ([], n2)
  | np :: rest =>
      if negb (nhash np `mod` nni =? p) then split_loop nni p rest (np :: n2)
      else let '(stay, moved) := split_loop nni p rest n2 in (np :: stay, moved)
  end.

(** [(int)lh->num_alloc_nodes * 2] is taken with wrap-around. *)
Definition expand (realloc_ok : bool) (lh : LHASH) : LHASH :=
  let p0 := p lh in
  let nni := num_alloc_nodes lh in
  let '(stay, moved) := split_loop nni p0 (bucket lh p0) [] in
  let b1 := set_bucket (set_bucket (b lh) p0 stay) (u32 (p0 + pmax lh)) moved in
  let st1 := bump (stats lh) num_expands 1 in
  let nodes1 := u32 (num_nodes lh + 1) in
  let p1 := u32 (p0 + 1) in
  if pmax lh <=? p1 then
    let j := u32 (s32 (num_alloc_nodes lh) * 2) in
    if realloc_ok then
      {| b := take (Z.to_nat j) b1 ++ replicate (Z.to_nat (j - num_alloc_nodes lh)) [];
         num_nodes := nodes1; num_alloc_nodes := j; p := 0;
         pmax := num_alloc_nodes lh; up_load := up_load lh; down_load := down_load lh;
         num_items := num_items lh; stats := bump st1 num_expand_reallocs 1; error := error lh |}
    else
      {| b := b1; num_nodes := nodes1; num_alloc_nodes := num_alloc_nodes lh;
         p := 0; pmax := pmax lh; up_load := up_load lh; down_load := down_load lh;
         num_items := num_items lh; stats := st1; error := error lh + 1 |}
  else
    {| b := b1; num_nodes := nodes1; num_alloc_nodes := num_alloc_nodes lh;
       p := p1; pmax := pmax lh; up_load := up_load lh; down_load := down_load lh;
       num_items := num_items lh; stats := st1; error := error lh |}.

Definition contract (realloc_ok : bool) (lh : LHASH) : LHASH :=
  let last := u32 (p lh + pmax lh - 1) in
  let np := bucket lh last in
  let b1 := set_bucket (b lh) last [] in
  if p lh =? 0 then
    if realloc_ok then
      let pmax' := pmax lh `div` 2 in
      let p' := u32 (pmax' - 1) in
      let b2 := take (Z.to_nat (pmax lh)) b1 in
      {| b := set_bucket b2 (s32 p') (nth (Z.to_nat (s32 p')) b2 [] ++ np);
         num_nodes := u32 (num_nodes lh - 1); num_alloc_nodes := num_alloc_nodes lh `div` 2;
         p := p'; pmax := pmax'; up_load := up_load lh; down_load := down_load lh;
         num_items := num_items lh;
         stats := bump (bump (stats lh) num_contract_reallocs 1) num_contracts 1;
         error := error lh |}
    else
      {| b := b1; num_nodes := num_nodes lh; num_alloc_nodes := num_alloc_nodes lh;
         p := p lh; pmax := pmax lh; up_load := up_load lh; down_load := down_load lh;
         num_items := num_items lh; stats := stats lh; error := error lh + 1 |}
  else
    let p' := u32 (p lh - 1) in
    {| b := set_bucket b1 (s32 p') (nth (Z.to_nat (s32 p')) b1 [] ++ np);
       num_nodes := u32 (num_nodes lh - 1); num_alloc_nodes := num_alloc_nodes lh;
       p := p'; pmax := pmax lh; up_load := up_load lh; down_load := down_load lh;
       num_items := num_items lh; stats := bump (stats lh) num_contracts 1; error := error lh |}.

(** The bucket a hash value belongs to. *)
Definition bucket_index (lh : LHASH) (h : Z) : Z :=
  let nn := h `mod` pmax lh in
  if nn <? p lh then h `mod` num_alloc_nodes lh else nn.

(** The scan of [getrn]: how many nodes precede the one found (the length of
    the chain when there is none) and the two comparison counts. *)
Fixpoint getrn_loop (h : Z) (data : V) (chain : list LHASH_NODE) : nat * Z * Z :=
  match chain with
  | [] => (O, 0, 0)
  | n1 :: rest =>
      if negb (nhash n1 =? h) then
        let '(i, hc, cc) := getrn_loop h data rest in (S i, hc + 1, cc)
      else if comp (ndata n1) data =? 0 then (O, 1, 1)
      else let '(i, hc, cc) := getrn_loop h data rest in (S i, hc + 1, cc + 1)
  end.

Definition set_stats (lh : LHASH) (st : stat → Z) (err : Z) : LHASH :=
  {| b := b lh; num_nodes := num_nodes lh; num_alloc_nodes := num_alloc_nodes lh;
     p := p lh; pmax := pmax lh; up_load := up_load lh; down_load := down_load lh;
     num_items := num_items lh; stats := st; error := err |}.

(** [getrn] returns the position [*rn] of a link: a bucket and an index in its
    chain, together with the hash. *)
Definition getrn (lh : LHASH) (data : V) : Z * nat * Z * LHASH :=
  let h := hash data in
  let nn := s32 (bucket_index lh h) in
  let '(i, hc, cc) := getrn_loop h data (bucket lh nn) in
  (nn, i, h, set_stats lh (bump (bump (bump (stats lh) num_hash_calls 1)
     num_hash_comps hc) num_comp_calls cc) (error lh)).

Definition set_items (lh : LHASH) (bs : list (list LHASH_NODE)) (n : Z) (st : stat → Z) : LHASH :=
  {| b := bs; num_nodes := num_nodes lh; num_alloc_nodes := num_alloc_nodes lh;
     p := p lh; pmax := pmax lh; up_load := up_load lh; down_load := down_load lh;
     num_items := n; stats := st; error := error lh |}.

Definition lh_insert (malloc_ok realloc_ok : bool) (lh : LHASH) (data : V) : option V * LHASH :=
  let lh := set_stats lh (stats lh) 0 in
  let lh := if up_load lh <=? u64 (num_items lh * LH_LOAD_MULT) `div` num_nodes lh
            then expand realloc_ok lh else lh in
  let '(nn, i, h, lh) := getrn lh data in
  let chain := bucket lh nn in
  match chain !! i with
  | None =>
      if negb malloc_ok then (None, set_stats lh (stats lh) (error lh + 1))
      else (None, set_items lh (set_bucket (b lh) nn (chain ++ [{| ndata := data; nhash := h |}]))
                    (u64 (num_items lh + 1)) (bump (stats lh) num_insert 1))
  | Some n =>
      (Some (ndata n),
       set_items lh (set_bucket (b lh) nn (<[i := {| ndata := data; nhash := nhash n |}]> chain))
         (num_items lh) (bump (stats lh) num_replace 1))
  end.

Definition lh_delete (realloc_ok : bool) (lh : LHASH) (data : V) : option V * LHASH :=
  let lh := set_stats lh (stats lh) 0 in
  let '(nn, i, h, lh) := getrn lh data in
  let chain := bucket lh nn in
  match chain !! i with
  | None => (None, set_stats lh (bump (stats lh) num_no_delete 1) (error lh))
  | Some n =>
      let lh := set_items lh (set_bucket (b lh) nn (take i chain ++ drop (S i) chain))
                  (u64 (num_items lh - 1)) (bump (stats lh) num_delete 1) in
      let lh := if (MIN_NODES <? num_nodes lh) &&
                   (u64 (num_items lh * LH_LOAD_MULT) `div` num_nodes lh <=? down_load lh)
                then contract realloc_ok lh else lh in
      (Some (ndata n), lh)
  end.

Definition lh_retrieve (lh : LHASH) (data : V) : option V * LHASH :=
  let lh := set_stats lh (stats lh) 0 in
  let '(nn, i, h, lh) := getrn lh data in
  match bucket lh nn !! i with
  | None => (None, set_stats lh (bump (stats lh) num_retrieve_miss 1) (error lh))
  | Some n => (Some (ndata n), set_stats lh (bump (stats lh) num_retrieve 1) (error lh))
  end.

(** The data passed to the callback by [lh_doall], in order: buckets from the
    last to the first, each along its chain. *)
Fixpoint doall_loop (lh : LHASH) (n : nat) : list V :=
  match n with
  | O => []
  | S i => (ndata <$> bucket lh (Z.of_nat i)) ++ doall_loop lh i
  end.

(** The counter is an [int] that starts at [lh->num_nodes - 1]. *)
Definition lh_doall (lh : LHASH) : list V :=
  doall_loop lh (Z.to_nat (s32 (u32 (num_nodes lh - 1)) + 1)).

Definition lh_num_items (lh : LHASH) : Z := num_items lh.
End lhash.
Arguments LHASH_NODE : clear implicits.
Arguments LHASH : clear implicits.

(** ** The contract with the caller and the invariant *)

(** What the header asks of the two callbacks. *)
Class LhashContract {V K : Type} (hash : V → Z) (comp : V → V → Z) (key : V → K) : Prop := {
  comp_key : ∀ x y, comp x y = 0 ↔ key x = key y;
  hash_key : ∀ x y, key x = key y → hash x = hash y;
  hash_nonneg : ∀ x, 0 ≤ hash x;
}.

Section invariant.
Context {V K : Type} `{Countable K} (hash : V → Z) (comp : V → V → Z) (key : V → K).
Context `{!LhashContract hash comp key}.
Implicit Types lh : LHASH V.

Definition nkey (n : LHASH_NODE V) : K := key (ndata n).

(** All nodes, bucket by bucket. *)
Definition nodes lh : list (LHASH_NODE V) := concat (b lh).

(** The finite map the table stands for. *)
Definition map_of (l : list (LHASH_NODE V)) : gmap K V :=
  list_to_map ((λ n, (nkey n, ndata n)) <$> l).
Definition to_map lh : gmap K V := map_of (nodes lh).

(** The index function and the placement of the nodes of a table with [pm]
    primary buckets of which [q] are split. *)
Definition index (pm q h : Z) : Z :=
  if h `mod` pm <? q then h `mod` (2 * pm) else h `mod` pm.

Definition placed (pm q : Z) (bs : list (list (LHASH_NODE V))) : Prop :=
  ∀ i c n, bs !! i = Some c → n ∈ c →
    nhash n = hash (ndata n) ∧ index pm q (nhash n) = Z.of_nat i.

Record lh_wf lh : Prop := {
  wf_pmax : ∃ k, 0 ≤ k ≤ 26 ∧ pmax lh = 8 * 2 ^ k;
  wf_alloc : num_alloc_nodes lh = 2 * pmax lh;
  wf_p : 0 ≤ p lh < pmax lh;
  wf_nodes : num_nodes lh = p lh + pmax lh;
  wf_len : Z.of_nat (length (b lh)) = num_alloc_nodes lh;
  wf_placed : placed (pmax lh) (p lh) (b lh);
  wf_nodup : NoDup (nkey <$> nodes lh);
  wf_items : num_items lh = Z.of_nat (length (nodes lh));
  wf_load : up_load lh = UP_LOAD;
}.

Lemma wf_pmax_pos lh : lh_wf lh → 8 ≤ pmax lh ≤ 2 ^ 29.
Proof.
  intros Hw. destruct (wf_pmax _ Hw) as (k & Hk & ->).
  pose proof (Z.pow_le_mono_r 2 0 k ltac:(lia) ltac:(lia)). pose proof (Z.pow_le_mono_r 2 k 26 ltac:(lia) ltac:(lia)). lia.
Qed.

Lemma bucket_index_eq lh h : lh_wf lh → bucket_index lh h = index (pmax lh) (p lh) h.
Proof. intros Hw. unfold bucket_index, index. by rewrite (wf_alloc _ Hw). Qed.

Lemma index_range pm q h : 0 < pm → 0 ≤ q → 0 ≤ index pm q h < 2 * pm.
Proof.
  intros. unfold index.
  pose proof (Z.mod_pos_bound h pm ltac:(lia)).
  pose proof (Z.mod_pos_bound h (2 * pm) ltac:(lia)).
  case_cmp; lia.
Qed.

(** The remainder modulo twice the table is one of two buckets. *)
Lemma mod_double h m : 0 < m →
  h `mod` (2 * m) = h `mod` m ∨ h `mod` (2 * m) = h `mod` m + m.
Proof.
  intros Hm. rewrite (Z.mul_comm 2 m), Z.rem_mul_r by lia.
  pose proof (Z.mod_pos_bound (h `div` m) 2 ltac:(lia)).
  assert ((h `div` m) `mod` 2 = 0 ∨ (h `div` m) `mod` 2 = 1) as [E | E] by lia; rewrite E; lia.
Qed.

Lemma index_below pm q h : 0 < pm → 0 ≤ q ≤ pm → index pm q h < q + pm.
Proof.
  intros. unfold index. pose proof (Z.mod_pos_bound h pm ltac:(lia)).
  destruct (mod_double h pm ltac:(lia)); case_cmp; lia.
Qed.

(** Splitting a list at a bucket. *)
Lemma bucket_split (bs : list (list (LHASH_NODE V))) i : 0 ≤ i < Z.of_nat (length bs) →
  ∃ l1 l2, bs = l1 ++ nth (Z.to_nat i) bs [] :: l2 ∧ length l1 = Z.to_nat i ∧
    ∀ c, set_bucket bs i c = l1 ++ c :: l2.
Proof.
  intros Hi. destruct (lookup_lt_is_Some_2 bs (Z.to_nat i)) as [x Hx]; [lia|].
  exists (take (Z.to_nat i) bs), (drop (S (Z.to_nat i)) bs).
  rewrite nth_lookup, Hx. cbn [default from_option]. split; [|split].
  - symmetry. by apply take_drop_middle.
  - len.
  - intros c. unfold set_bucket. apply insert_take_drop. lia.
Qed.

Lemma set_bucket_perm (bs : list (list (LHASH_NODE V))) i c : 0 ≤ i < Z.of_nat (length bs) →
  ∃ rest, concat bs ≡ₚ nth (Z.to_nat i) bs [] ++ rest ∧ concat (set_bucket bs i c) ≡ₚ c ++ rest.
Proof.
  intros Hi. destruct (bucket_split bs i Hi) as (l1 & l2 & E & _ & Hset).
  exists (concat l1 ++ concat l2). rewrite Hset. rewrite E at 1.
  rewrite !concat_app. simpl. split; apply Permutation_app_swap_app.
Qed.

Lemma lookup_set_bucket (bs : list (list (LHASH_NODE V))) i c (j : nat) d :
  0 ≤ i < Z.of_nat (length bs) → set_bucket bs i c !! j = Some d →
  (Z.of_nat j = i ∧ d = c) ∨ (Z.of_nat j ≠ i ∧ bs !! j = Some d).
Proof.
  intros Hi. unfold set_bucket. destruct (decide (Z.to_nat i = j)) as [<-|Hne].
  - rewrite list_lookup_insert_eq by lia. intros [= ->]. left. split; [lia|done].
  - rewrite list_lookup_insert_ne by done. intros Hd. right. split; [lia|done].
Qed.

Lemma lookup_nth (bs : list (list (LHASH_NODE V))) i n :
  0 ≤ i → n ∈ nth (Z.to_nat i) bs [] → ∃ c, bs !! Z.to_nat i = Some c ∧ n ∈ c.
Proof.
  intros Hi. rewrite nth_lookup. destruct (bs !! Z.to_nat i) as [c|]; simpl; [by exists c|].
  intros []%not_elem_of_nil.
Qed.

Lemma placed_bucket pm q bs i n : placed pm q bs → 0 ≤ i → n ∈ nth (Z.to_nat i) bs [] →
  nhash n = hash (ndata n) ∧ index pm q (nhash n) = i.
Proof.
  intros Hp Hi Hn. apply lookup_nth in Hn as (c & Hc & Hn); [|done].
  destruct (Hp _ _ _ Hc Hn) as [? ->]. split; [done|lia].
Qed.

(** Changing one bucket keeps the placement if the new chain is placed. *)
Lemma placed_set pm q bs i c : 0 ≤ i < Z.of_nat (length bs) → placed pm q bs →
  (∀ n, n ∈ c → nhash n = hash (ndata n) ∧ index pm q (nhash n) = i) →
  placed pm q (set_bucket bs i c).
Proof.
  intros Hi Hp Hc j d n Hd Hn.
  destruct (lookup_set_bucket _ _ _ _ _ Hi Hd) as [[E ->]|[_ Hd']]; [rewrite E; auto|eauto].
Qed.

Lemma in_nodes lh n : lh_wf lh → n ∈ nodes lh →
  n ∈ bucket lh (bucket_index lh (nhash n)) ∧ nhash n = hash (ndata n).
Proof.
  intros Hw Hn. apply list_elem_of_In, in_concat in Hn as (c & Hc & Hn).
  apply list_elem_of_In, list_elem_of_lookup in Hc as [i Hi]. apply list_elem_of_In in Hn.
  destruct (wf_placed _ Hw _ _ _ Hi Hn) as [Hh Hx]. split; [|done].
  rewrite bucket_index_eq, Hx by done. unfold bucket. by rewrite Nat2Z.id, nth_lookup, Hi.
Qed.

Lemma bucket_in_nodes lh i n : 0 ≤ i → n ∈ bucket lh i → n ∈ nodes lh.
Proof.
  intros Hi Hn. apply lookup_nth in Hn as (c & Hc & Hn); [|done].
  apply list_elem_of_In, in_concat. exists c. split; apply list_elem_of_In; [|done].
  apply list_elem_of_lookup. eauto.
Qed.

Lemma map_of_perm l l' : NoDup (nkey <$> l) → l ≡ₚ l' → map_of l = map_of l'.
Proof.
  intros Hnd Hp. apply list_to_map_proper; [|by rewrite Hp].
  by rewrite <- list_fmap_compose.
Qed.

Lemma wf_nodup_perm lh (l : list (LHASH_NODE V)) :
  lh_wf lh → nodes lh ≡ₚ l → NoDup (nkey <$> l).
Proof. intros Hw Hp. rewrite <- Hp. apply (wf_nodup _ Hw). Qed.

(** ** Splitting and merging buckets *)

Lemma split_loop_spec nni q (n1 n2 : list (LHASH_NODE V)) :
  let '(stay, moved) := split_loop nni q n1 n2 in
  n1 ++ n2 ≡ₚ stay ++ moved ∧
  (∀ n, n ∈ stay → n ∈ n1 ∧ nhash n `mod` nni = q) ∧
  (∀ n, n ∈ moved → n ∈ n2 ∨ (n ∈ n1 ∧ nhash n `mod` nni ≠ q)).
Proof.
  revert n2. induction n1 as [|x n1 IH]; intros n2; cbn [split_loop].
  { split; [done|]. split; [intros n []%not_elem_of_nil|by left]. }
  destruct (Z.eqb_spec (nhash x `mod` nni) q) as [He|Hne]; cbn [negb].
  - specialize (IH n2). destruct (split_loop nni q n1 n2) as [stay moved].
    destruct IH as (Hp & Hs & Hm). split; [simpl; by rewrite Hp|]. split.
    + intros n [->|Hn]%elem_of_cons; [split; [by left|done]|].
      destruct (Hs n Hn). split; [by right|done].
    + intros n Hn. destruct (Hm n Hn) as [|[? ?]]; [by left|right; split; [by right|done]].
  - specialize (IH (x :: n2)). destruct (split_loop nni q n1 (x :: n2)) as [stay moved].
    destruct IH as (Hp & Hs & Hm). split; [|split].
    + rewrite <- Hp. simpl. apply Permutation_middle.
    + intros n Hn. destruct (Hs n Hn). split; [by right|done].
    + intros n Hn. destruct (Hm n Hn) as [[->|Hn']%elem_of_cons|[? ?]].
      * right. split; [by left|done].
      * by left.
      * right. split; [by right|done].
Qed.

(** Splitting bucket [q] moves the placement from [q] to [q + 1] split buckets. *)
Lemma index_split pm q h : 0 < pm → 0 ≤ q < pm →
  index pm (q + 1) h = if decide (index pm q h = q) then h `mod` (2 * pm) else index pm q h.
Proof.
  intros Hpm Hq. unfold index. pose proof (Z.mod_pos_bound h pm Hpm).
  destruct (mod_double h pm Hpm) as [E|E]; rewrite E; case_cmp; case_decide; lia.
Qed.

Lemma index_full pm h : 0 < pm → index pm pm h = index (2 * pm) 0 h.
Proof.
  intros. unfold index. pose proof (Z.mod_pos_bound h pm ltac:(lia)).
  pose proof (Z.mod_pos_bound h (2 * pm) ltac:(lia)). case_cmp; lia.
Qed.

Lemma split_placed pm q bs : 0 < pm → 0 ≤ q < pm → Z.of_nat (length bs) = 2 * pm →
  placed pm q bs →
  let '(stay, moved) := split_loop (2 * pm) q (nth (Z.to_nat q) bs []) [] in
  let bs' := set_bucket (set_bucket bs q stay) (q + pm) moved in
  placed pm (q + 1) bs' ∧ concat bs ≡ₚ concat bs'.
Proof.
  intros Hpm Hq Hlen Hpl.
  pose proof (split_loop_spec (2 * pm) q (nth (Z.to_nat q) bs []) []) as Hs.
  destruct (split_loop _ _ _ _) as [stay moved]. destruct Hs as (Hperm & Hstay & Hmoved).
  rewrite app_nil_r in Hperm.
  assert (Hl1 : Z.of_nat (length (set_bucket bs q stay)) = 2 * pm)
    by (unfold set_bucket; by rewrite length_insert).
  split.
  - intros i c n Hc Hn.
    apply lookup_set_bucket in Hc as [[-> ->]|[Hi1 Hc1]]; [| |lia];
      [|apply lookup_set_bucket in Hc1 as [[-> ->]|[Hi2 Hc2]]; [| |lia]].
    + destruct (Hmoved n Hn) as [[]%not_elem_of_nil|[Hin Hne]].
      destruct (placed_bucket pm q bs q n Hpl ltac:(lia) Hin) as [Hh Hx]. split; [done|].
      rewrite index_split, decide_True by done. unfold index in Hx.
      destruct (mod_double (nhash n) pm Hpm) as [E|E]; revert Hx; case_cmp; lia.
    + destruct (Hstay n Hn) as [Hin He].
      destruct (placed_bucket pm q bs q n Hpl ltac:(lia) Hin) as [Hh Hx]. split; [done|].
      by rewrite index_split, decide_True.
    + destruct (Hpl _ _ _ Hc2 Hn) as [Hh Hx]. split; [done|].
      rewrite index_split, decide_False by (done || lia). done.
  - destruct (set_bucket_perm bs q stay ltac:(lia)) as (r1 & E1 & E2).
    destruct (set_bucket_perm (set_bucket bs q stay) (q + pm) moved ltac:(lia)) as (r2 & E3 & E4).
    assert (nth (Z.to_nat (q + pm)) (set_bucket bs q stay) [] = []) as Hempty.
    { unfold set_bucket. rewrite nth_lookup, list_lookup_insert_ne by lia.
      destruct (bs !! Z.to_nat (q + pm)) as [c|] eqn:Ec; [|done]. simpl.
      destruct c as [|n c]; [done|]. exfalso.
      destruct (Hpl _ _ _ Ec (list_elem_of_here _ _)) as [_ Hx].
      pose proof (index_below pm q (nhash n) Hpm ltac:(lia)). lia. }
    rewrite Hempty in E3. simpl in E3.
    rewrite E4, <- E3, E2, E1, Hperm. by rewrite app_assoc, (Permutation_app_comm moved).
Qed.

(** What a split does to a well-formed table, the end of a round included. *)
Lemma expand_wf ok lh : lh_wf lh → (p lh + 1 = pmax lh → ok = true ∧ num_alloc_nodes lh < 2 ^ 30) →
  lh_wf (expand ok lh) ∧ nodes lh ≡ₚ nodes (expand ok lh) ∧ error (expand ok lh) = error lh.
Proof.
  intros Hw Hok. pose proof (wf_pmax_pos lh Hw). destruct Hw as [Hpm Hal Hp Hn Hlen Hpl Hnd Hit Hld].
  unfold expand, bucket. rewrite (u32_small (p lh + 1)), (u32_small (p lh + pmax lh)), (u32_small (num_nodes lh + 1)) by lia.
  rewrite Hal in *.
  pose proof (split_placed (pmax lh) (p lh) (b lh) ltac:(lia) Hp ltac:(lia) Hpl) as Hs.
  destruct (split_loop _ _ _ _) as [stay moved]. cbv zeta in Hs. destruct Hs as [Hpl' Hperm].
  set (bs := set_bucket (set_bucket (b lh) (p lh) stay) (p lh + pmax lh) moved) in *.
  assert (Hlb : Z.of_nat (length bs) = 2 * pmax lh)
    by (unfold bs, set_bucket; rewrite !length_insert; lia).
  destruct (Z.leb_spec (pmax lh) (p lh + 1)) as [Hfull|Hpart].
  - destruct (Hok ltac:(lia)) as [-> Hlt].
    rewrite (s32_small (2 * pmax lh)), (u32_small (2 * pmax lh * 2)), (take_ge bs) by lia.
    assert (Hq : concat (bs ++ replicate (Z.to_nat (2 * pmax lh * 2 - 2 * pmax lh)) []) = concat bs).
    { rewrite concat_app. replace (concat (replicate _ _)) with (@nil (LHASH_NODE V));
        [apply app_nil_r|]. generalize (Z.to_nat (2 * pmax lh * 2 - 2 * pmax lh)) as m.
      intros m. by induction m. }
    split; [split; cbn [pmax num_alloc_nodes p num_nodes b num_items up_load]|unfold nodes; simpl; by rewrite Hq].
    + destruct Hpm as (k & Hk & E). exists (k + 1). rewrite Z.pow_add_r by lia. split; [|lia].
      assert (k ≠ 26); [|lia]. intros ->. rewrite E in Hlt. by vm_compute in Hlt.
    + lia.
    + lia.
    + lia.
    + rewrite length_app, length_replicate. lia.
    + intros i c n Hc Hin. apply lookup_app_Some in Hc as [Hc|[_ Hc]].
      * rewrite <- index_full by lia. replace (pmax lh) with (p lh + 1) at 2 by lia. eauto.
      * apply lookup_replicate in Hc as [-> _]. by apply not_elem_of_nil in Hin.
    + unfold nodes; simpl. rewrite Hq, <- Hperm. done.
    + unfold nodes; simpl. rewrite Hq, <- Hperm. done.
    + done.
  - split; [split; cbn [pmax num_alloc_nodes p num_nodes b num_items up_load]|done]; try done; try lia.
    + unfold nodes; simpl. rewrite <- Hperm. done.
    + unfold nodes; simpl. rewrite <- Hperm. done.
Qed.

Lemma merge_placed pm q bs : 0 < pm → 0 ≤ q < pm → Z.of_nat (length bs) = 2 * pm →
  placed pm (q + 1) bs →
  let np := nth (Z.to_nat (q + pm)) bs [] in
  let b1 := set_bucket bs (q + pm) [] in
  let bs' := set_bucket b1 q (nth (Z.to_nat q) b1 [] ++ np) in
  placed pm q bs' ∧ concat bs ≡ₚ concat bs'.
Proof.
  intros Hpm Hq Hlen Hpl np b1 bs'.
  assert (Hl1 : Z.of_nat (length b1) = 2 * pm) by (unfold b1, set_bucket; by rewrite length_insert).
  assert (Hnth : nth (Z.to_nat q) b1 [] = nth (Z.to_nat q) bs []).
  { unfold b1, set_bucket. rewrite !nth_lookup, list_lookup_insert_ne by lia. done. }
  assert (Hback : ∀ h, index pm q h = if decide (index pm (q + 1) h = q + pm) then q
                                     else index pm (q + 1) h).
  { intros h. unfold index. pose proof (Z.mod_pos_bound h pm Hpm).
    destruct (mod_double h pm Hpm) as [E|E]; rewrite E; case_cmp; case_decide; lia. }
  split.
  - intros i c n Hc Hn. rewrite Hback.
    apply lookup_set_bucket in Hc as [[Hi ->]|[Hi1 Hc1]]; [| |lia];
      [|apply lookup_set_bucket in Hc1 as [[Hi2 ->]|[Hi2 Hc2]]; [| |lia]].
    + rewrite Hnth in Hn. apply elem_of_app in Hn as [Hn|Hn].
      * destruct (placed_bucket pm (q + 1) bs q n Hpl ltac:(lia) Hn) as [Hh Hx].
        rewrite Hx, decide_False by lia. split; [done|lia].
      * destruct (placed_bucket pm (q + 1) bs (q + pm) n Hpl ltac:(lia) Hn) as [Hh Hx].
        rewrite Hx, decide_True by lia. split; [done|lia].
    + by apply not_elem_of_nil in Hn.
    + destruct (Hpl _ _ _ Hc2 Hn) as [Hh Hx]. rewrite Hx, decide_False by lia. done.
  - destruct (set_bucket_perm bs (q + pm) [] ltac:(lia)) as (r1 & E1 & E2).
    destruct (set_bucket_perm b1 q (nth (Z.to_nat q) b1 [] ++ np) ltac:(lia)) as (r2 & E3 & E4).
    unfold bs'. rewrite E4, E1. fold np. unfold b1 in E3 at 1. rewrite E2 in E3. simpl in E3.
    rewrite E3. rewrite (app_assoc np), (Permutation_app_comm np). done.
Qed.

Lemma concat_take_empty (bs : list (list (LHASH_NODE V))) n :
  (∀ i c, (n ≤ i)%nat → bs !! i = Some c → c = []) → concat (take n bs) = concat bs.
Proof.
  intros Hb. rewrite <- (take_drop n bs) at 2. rewrite concat_app.
  replace (concat (drop n bs)) with (@nil (LHASH_NODE V)); [by rewrite app_nil_r|].
  symmetry. apply concat_nil_Forall, Forall_lookup_2. intros i c Hc.
  rewrite lookup_drop in Hc. apply (Hb (n + i)%nat c ltac:(lia) Hc).
Qed.

Lemma contract_wf lh : lh_wf lh → MIN_NODES < num_nodes lh →
  lh_wf (contract true lh) ∧ nodes lh ≡ₚ nodes (contract true lh).
Proof.
  intros Hw Hmin. pose proof (wf_pmax_pos lh Hw). destruct Hw as [Hpm Hal Hp Hn Hlen Hpl Hnd Hit Hld].
  unfold MIN_NODES in Hmin. unfold contract, bucket.
  rewrite (u32_small (p lh + pmax lh - 1)), (u32_small (num_nodes lh - 1)) by lia.
  destruct (Z.eqb_spec (p lh) 0) as [Hp0|Hp0].
  - assert (∃ k, 0 ≤ k ≤ 26 ∧ pmax lh = 2 * (8 * 2 ^ k)) as (k & Hk & Hpk).
    { destruct Hpm as (k & Hk & Ek). exists (k - 1).
      assert (k ≠ 0) by (intros ->; rewrite Z.pow_0_r in Ek; lia). split; [lia|].
      rewrite Ek. replace k with (1 + (k - 1)) at 1 by lia. rewrite Z.pow_add_r by lia. lia. }
    set (m := 8 * 2 ^ k) in *. rewrite Hpk, Hp0 in *.
    assert ((2 * m) `div` 2 = m) as Em by (rewrite Z.mul_comm; by apply Z.div_mul).
    assert (num_alloc_nodes lh `div` 2 = 2 * m) as Ea
      by (rewrite Hal, Z.mul_comm; by apply Z.div_mul).
    rewrite Em, (u32_small (m - 1)), (s32_small (m - 1)) by lia. set (c := take (Z.to_nat (2 * m)) (b lh)).
    assert (Hc : Z.of_nat (length c) = 2 * m) by (unfold c; len).
    assert (Hconcat : concat c = concat (b lh)).
    { apply concat_take_empty. intros i d Hi Hd. destruct d as [|n d]; [done|]. exfalso.
      destruct (Hpl _ _ _ Hd (list_elem_of_here _ _)) as [_ Hx].
      pose proof (index_below (2 * m) 0 (nhash n) ltac:(lia) ltac:(lia)). lia. }
    assert (Hplc : placed m (m - 1 + 1) c).
    { intros i d n Hd Hin. apply lookup_take_Some in Hd as [Hd _].
      replace (m - 1 + 1) with m by lia. rewrite index_full by lia. eauto. }
    pose proof (merge_placed m (m - 1) c ltac:(lia) ltac:(lia) Hc Hplc) as [Hpl' Hperm].
    replace (m - 1 + m) with (0 + 2 * m - 1) in Hpl', Hperm by lia.
    assert (Hnp : nth (Z.to_nat (0 + 2 * m - 1)) c [] = nth (Z.to_nat (0 + 2 * m - 1)) (b lh) []).
    { unfold c. rewrite !nth_lookup, lookup_take_lt by lia. done. }
    assert (Htk : take (Z.to_nat (2 * m)) (set_bucket (b lh) (0 + 2 * m - 1) []) =
                  set_bucket c (0 + 2 * m - 1) []).
    { unfold c, set_bucket. rewrite take_insert_lt by lia. done. }
    rewrite Htk, <- Hnp, Ea. split; [split; cbn [pmax num_alloc_nodes p num_nodes b num_items up_load]|].
    + by exists k.
    + done.
    + lia.
    + lia.
    + unfold set_bucket. rewrite !length_insert. done.
    + done.
    + unfold nodes; simpl. rewrite <- Hperm, Hconcat. done.
    + unfold nodes; simpl. rewrite <- Hperm, Hconcat. done.
    + done.
    + unfold nodes; simpl. by rewrite <- Hperm, Hconcat.
  - rewrite (u32_small (p lh - 1)), (s32_small (p lh - 1)) by lia.
    pose proof (merge_placed (pmax lh) (p lh - 1) (b lh) ltac:(lia) ltac:(lia) ltac:(lia)) as Hm.
    replace (p lh - 1 + 1) with (p lh) in Hm by lia.
    replace (p lh - 1 + pmax lh) with (p lh + pmax lh - 1) in Hm by lia.
    destruct (Hm Hpl) as [Hpl' Hperm].
    split; [split; cbn [pmax num_alloc_nodes p num_nodes b num_items up_load]|]; try done; try lia.
    + unfold set_bucket. rewrite !length_insert. lia.
    + unfold nodes; simpl. rewrite <- Hperm. done.
    + unfold nodes; simpl. rewrite <- Hperm. done.
Qed.

(** ** Lookup *)

Lemma set_stats_wf lh st e : lh_wf lh ↔ lh_wf (set_stats lh st e).
Proof. split; intros []; split; done. Qed.

Lemma getrn_loop_spec d (chain : list (LHASH_NODE V)) :
  (∀ n, n ∈ chain → nhash n = hash (ndata n)) →
  match chain !! (getrn_loop comp (hash d) d chain).1.1 with
  | Some n => nkey n = key d
  | None => ∀ n, n ∈ chain → nkey n ≠ key d
  end.
Proof.
  induction chain as [|x chain IH]; intros Hh; cbn [getrn_loop].
  { intros n []%not_elem_of_nil. }
  assert (∀ n, n ∈ chain → nhash n = hash (ndata n)) as Hh' by (intros; apply Hh; by right).
  specialize (IH Hh'). rewrite (Hh x) by left.
  destruct (getrn_loop comp (hash d) d chain) as [[i hc] cc]. simpl in IH.
  destruct (Z.eqb_spec (hash (ndata x)) (hash d)) as [He|Hne]; simpl.
  - destruct (Z.eqb_spec (comp (ndata x) d) 0) as [Hc|Hc]; simpl; [by apply comp_key in Hc|].
    destruct (chain !! i); [done|]. intros n [->|Hn]%elem_of_cons; [|auto].
    intros Hk. by apply Hc, comp_key.
  - destruct (chain !! i); [done|]. intros n [->|Hn]%elem_of_cons; [|auto].
    intros Hk. apply Hne. by apply hash_key.
Qed.

(** Where the search ends: at the node of the key or at the end of the chain of
    the key's bucket. *)
Lemma getrn_spec lh d nn i h lh' : lh_wf lh → getrn hash comp lh d = (nn, i, h, lh') →
  0 ≤ nn < Z.of_nat (length (b lh)) ∧ h = hash d ∧ bucket lh' nn = bucket lh nn ∧
  lh_wf lh' ∧ b lh' = b lh ∧ num_items lh' = num_items lh ∧
  num_nodes lh' = num_nodes lh ∧ pmax lh' = pmax lh ∧ p lh' = p lh ∧ error lh' = error lh ∧
  nn = index (pmax lh) (p lh) (hash d) ∧
  match bucket lh nn !! i with
  | Some n => nkey n = key d
  | None => key d ∉ nkey <$> nodes lh
  end.
Proof.
  intros Hw. unfold getrn. pose proof (wf_pmax_pos lh Hw).
  rewrite bucket_index_eq by done.
  set (j := index (pmax lh) (p lh) (hash d)).
  assert (0 ≤ j < Z.of_nat (length (b lh))) as Hj.
  { rewrite (wf_len _ Hw), (wf_alloc _ Hw). apply index_range; [lia|apply (wf_p _ Hw)]. }
  rewrite (s32_small j) by (rewrite (wf_len _ Hw), (wf_alloc _ Hw) in Hj; lia).
  pose proof (getrn_loop_spec d (bucket lh j)) as Hg.
  destruct (getrn_loop comp (hash d) d (bucket lh j)) as [[i' hc] cc]. simpl in Hg.
  intros [= <- <- <- <-]. repeat (split; [done|]). split; [by apply set_stats_wf|].
  repeat (split; [done|]).
  destruct (bucket lh j !! i') as [n|] eqn:E.
  - apply Hg. intros n' Hn'.
    by apply (placed_bucket _ _ _ _ _ (wf_placed _ Hw) (proj1 Hj) Hn').
  - intros (n & Hkn & Hn)%list_elem_of_fmap.
    destruct (in_nodes lh n Hw Hn) as [Hb Hh].
    assert (hash (ndata n) = hash d) as Hhd by (apply hash_key; by symmetry).
    rewrite Hh, Hhd, bucket_index_eq in Hb by done. fold j in Hb.
    eapply Hg; [|exact Hb|by symmetry]. intros n' Hn'.
    by apply (placed_bucket _ _ _ _ _ (wf_placed _ Hw) (proj1 Hj) Hn').
Qed.

Lemma to_map_lookup_None lh k : k ∉ nkey <$> nodes lh → to_map lh !! k = None.
Proof.
  intros Hk. apply not_elem_of_list_to_map. by rewrite <- list_fmap_compose.
Qed.

Lemma to_map_lookup_Some lh n : lh_wf lh → n ∈ nodes lh → to_map lh !! nkey n = Some (ndata n).
Proof.
  intros Hw Hn. apply elem_of_list_to_map_1.
  - rewrite <- list_fmap_compose. apply (wf_nodup _ Hw).
  - apply list_elem_of_fmap. by exists n.
Qed.

Lemma bucket_lookup_in lh nn i n : 0 ≤ nn → bucket lh nn !! i = Some n → n ∈ nodes lh.
Proof.
  intros Hn Hi. apply (bucket_in_nodes lh nn); [done|]. apply list_elem_of_lookup. eauto.
Qed.

(** Replacing the chain of one bucket by a chain of correctly hashed nodes of
    that bucket. *)
Lemma set_items_wf lh nn (c rest : list (LHASH_NODE V)) n st :
  lh_wf lh → 0 ≤ nn < Z.of_nat (length (b lh)) →
  nodes lh ≡ₚ bucket lh nn ++ rest →
  (∀ x, x ∈ c → nhash x = hash (ndata x) ∧ index (pmax lh) (p lh) (nhash x) = nn) →
  NoDup (nkey <$> (c ++ rest)) → n = Z.of_nat (length (c ++ rest)) →
  let lh' := set_items lh (set_bucket (b lh) nn c) n st in
  lh_wf lh' ∧ nodes lh' ≡ₚ c ++ rest.
Proof.
  intros Hw Hnn Hrest Hc Hnd Hlen lh'.
  assert (nodes lh' ≡ₚ c ++ rest) as Hp.
  { destruct (set_bucket_perm (b lh) nn c Hnn) as (r & E1 & E2). unfold nodes, lh'. simpl.
    rewrite E2. apply Permutation_app_head.
    apply (Permutation_app_inv_l (bucket lh nn)). rewrite <- Hrest. symmetry. exact E1. }
  split; [|done]. destruct Hw as [Hpm Hal Hpp Hn Hl Hpl _ _ Hld]. split; unfold lh'; simpl; try done.
  - unfold set_bucket. by rewrite length_insert.
  - by apply placed_set.
  - fold lh'. by rewrite Hp.
  - fold lh'. by rewrite Hp.
Qed.

(** The nodes around one position of a bucket. *)
Lemma bucket_perm lh nn i n : 0 ≤ nn < Z.of_nat (length (b lh)) → bucket lh nn !! i = Some n →
  ∃ rest, nodes lh ≡ₚ bucket lh nn ++ rest ∧
    nodes lh ≡ₚ n :: (take i (bucket lh nn) ++ drop (S i) (bucket lh nn)) ++ rest.
Proof.
  intros Hnn Hi. destruct (set_bucket_perm (b lh) nn [] Hnn) as (r & E1 & _).
  exists r. split; [done|]. unfold nodes. rewrite E1. fold (bucket lh nn).
  rewrite <- (take_drop_middle _ _ _ Hi) at 1. by rewrite <- Permutation_middle.
Qed.

(** [lh_retrieve] on a well-formed table returns the entry of the key in the
    map the table stands for, and changes neither the map nor the invariant. *)
Theorem lh_retrieve_refines lh d r lh' :
  lh_wf lh → lh_retrieve hash comp lh d = (r, lh') →
  r = to_map lh !! key d ∧ lh_wf lh' ∧ to_map lh' = to_map lh.
Proof.
  intros Hw. unfold lh_retrieve.
  destruct (getrn hash comp (set_stats lh (stats lh) 0) d) as [[[nn i] h] lh1] eqn:E.
  apply getrn_spec in E as (Hnn & -> & Hbk & Hw1 & Hb & _ & _ & _ & _ & _ & _ & Hi);
    [|by apply set_stats_wf].
  rewrite Hbk. change (bucket (set_stats lh (stats lh) 0) nn) with (bucket lh nn) in *.
  change (nodes (set_stats lh (stats lh) 0)) with (nodes lh) in Hi.
  assert (Hm : ∀ st e, to_map (set_stats lh1 st e) = to_map lh)
    by (intros; unfold to_map, nodes; simpl; by rewrite Hb).
  destruct (bucket lh nn !! i) as [n|] eqn:En; intros [= <- <-]; rewrite Hm;
    (split; [|split; [by apply set_stats_wf|done]]).
  - rewrite <- Hi. symmetry. apply to_map_lookup_Some; [done|].
    apply (bucket_lookup_in lh nn i); [lia|done].
  - symmetry. by apply to_map_lookup_None.
Qed.

(** The split of an insertion: with fewer than [2^31 - 2] items the conversion does not overflow. *)
Lemma maybe_expand_wf lh ok : lh_wf lh → num_items lh < 2 ^ 31 - 2 → ok = true ∨ p lh + 1 < pmax lh →
  let lh1 := if up_load lh <=? u64 (num_items lh * LH_LOAD_MULT) `div` num_nodes lh then expand ok lh else lh in
  lh_wf lh1 ∧ to_map lh1 = to_map lh ∧ num_items lh1 = num_items lh ∧ error lh1 = error lh.
Proof.
  intros Hw Hn Hok. cbv zeta. rewrite (wf_load _ Hw).
  destruct (Z.leb_spec UP_LOAD (u64 (num_items lh * LH_LOAD_MULT) `div` num_nodes lh)) as [Hld|]; [|done].
  pose proof (wf_pmax_pos lh Hw). pose proof (wf_p _ Hw). pose proof (wf_nodes _ Hw). pose proof (wf_alloc _ Hw).
  pose proof (wf_items _ Hw) as Hit. unfold UP_LOAD, LH_LOAD_MULT in *.
  rewrite u64_small in Hld by lia.
  assert (512 * num_nodes lh ≤ num_items lh * 256).
  { pose proof (Z.mul_div_le (num_items lh * 256) (num_nodes lh) ltac:(lia)). nia. }
  destruct (expand_wf ok lh Hw) as (Hw1 & Hp & He); [intros Hl; split; [destruct Hok; [done|lia]|lia]|].
  split; [done|]. split; [|split; [|done]].
  - symmetry. apply map_of_perm; [apply (wf_nodup _ Hw)|done].
  - rewrite (wf_items _ Hw1), Hit. by rewrite Hp.
Qed.

Lemma in_without {A} (l : list A) i x : x ∈ take i l ++ drop (S i) l → x ∈ l.
Proof.
  intros [Hx|Hx]%elem_of_app; apply list_elem_of_lookup in Hx as [j Hj]; apply list_elem_of_lookup.
  - apply lookup_take_Some in Hj as [Hj _]. eauto.
  - rewrite lookup_drop in Hj. eauto.
Qed.

(** Replacing the data of the node at position [i] of bucket [nn]. *)
Lemma replace_at lh nn i n d st :
  lh_wf lh → 0 ≤ nn < Z.of_nat (length (b lh)) → bucket lh nn !! i = Some n → nkey n = key d →
  let lh' := set_items lh (set_bucket (b lh) nn
               (<[i := {| ndata := d; nhash := nhash n |}]> (bucket lh nn))) (num_items lh) st in
  lh_wf lh' ∧ to_map lh' = <[key d := d]> (to_map lh).
Proof.
  intros Hw Hnn En Hk lh'.
  destruct (bucket_perm lh nn i n Hnn En) as (rest & E1 & E2).
  set (n' := {| ndata := d; nhash := nhash n |}).
  set (others := take i (bucket lh nn) ++ drop (S i) (bucket lh nn)) in *.
  assert (Hins : <[i := n']> (bucket lh nn) ≡ₚ n' :: others).
  { rewrite insert_take_drop by (by eapply lookup_lt_Some). by rewrite <- Permutation_middle. }
  assert (Hpl : ∀ x, x ∈ bucket lh nn →
    nhash x = hash (ndata x) ∧ index (pmax lh) (p lh) (nhash x) = nn).
  { intros x. apply placed_bucket; [apply (wf_placed _ Hw)|lia]. }
  assert (Hnd : NoDup (nkey <$> n' :: others ++ rest)).
  { pose proof (wf_nodup_perm _ _ Hw E2) as Hnd. rewrite fmap_cons in Hnd |- *.
    change (nkey n') with (key d). by rewrite <- Hk. }
  destruct (set_items_wf lh nn (<[i := n']> (bucket lh nn)) rest (num_items lh) st) as [Hw' Hp'].
  - done.
  - done.
  - done.
  - intros x Hx. rewrite Hins in Hx. apply elem_of_cons in Hx as [->|Hx].
    + assert (n ∈ bucket lh nn) as Hn by (apply list_elem_of_lookup; eauto).
      destruct (Hpl n Hn) as [Hh Hix]. simpl. split; [|done]. rewrite Hh. by apply hash_key.
    + by apply Hpl, (in_without _ i).
  - by rewrite Hins.
  - rewrite (wf_items _ Hw), E1, !length_app, length_insert. done.
  - split; [done|]. unfold to_map.
    rewrite (map_of_perm (nodes lh') (n' :: others ++ rest)); [|apply (wf_nodup _ Hw')|].
    + rewrite (map_of_perm (nodes lh) (n :: others ++ rest) (wf_nodup _ Hw) E2).
      change (map_of (n' :: others ++ rest)) with (<[key d := d]> (map_of (others ++ rest))).
      change (map_of (n :: others ++ rest)) with (<[nkey n := ndata n]> (map_of (others ++ rest))).
      by rewrite Hk, insert_insert_eq.
    + transitivity (<[i := n']> (bucket lh nn) ++ rest); [exact Hp'|by rewrite Hins].
Qed.

(** Appending a node for a new key to its bucket. *)
Lemma append_at lh nn d st :
  lh_wf lh → num_items lh + 1 < 2 ^ 64 → 0 ≤ nn < Z.of_nat (length (b lh)) →
  nn = index (pmax lh) (p lh) (hash d) → key d ∉ nkey <$> nodes lh →
  let lh' := set_items lh (set_bucket (b lh) nn
               (bucket lh nn ++ [{| ndata := d; nhash := hash d |}])) (u64 (num_items lh + 1)) st in
  lh_wf lh' ∧ to_map lh' = <[key d := d]> (to_map lh).
Proof.
  intros Hw H64 Hnn Hidx Hk lh'. set (n' := {| ndata := d; nhash := hash d |}).
  destruct (set_bucket_perm (b lh) nn [] Hnn) as (rest & E1 & _).
  assert (E2 : (bucket lh nn ++ [n']) ++ rest ≡ₚ n' :: nodes lh).
  { unfold nodes. rewrite E1. fold (bucket lh nn). by rewrite <- Permutation_middle, app_nil_r. }
  pose proof (wf_items _ Hw) as Hit.
  destruct (set_items_wf lh nn (bucket lh nn ++ [n']) rest (u64 (num_items lh + 1)) st) as [Hw' Hp'].
  - done.
  - done.
  - done.
  - intros x [Hx|Hx]%elem_of_app.
    + apply (placed_bucket _ _ (b lh)); [apply (wf_placed _ Hw)|lia|exact Hx].
    + apply list_elem_of_singleton in Hx as ->. done.
  - rewrite E2, fmap_cons. constructor; [done|apply (wf_nodup _ Hw)].
  - rewrite E2. simpl. unfold u64. rewrite Z.mod_small by lia. lia.
  - split; [done|]. unfold to_map.
    rewrite (map_of_perm (nodes lh') (n' :: nodes lh)); [done|apply (wf_nodup _ Hw')|].
    transitivity ((bucket lh nn ++ [n']) ++ rest); [exact Hp'|by rewrite E2].
Qed.

(** C23: [lh_insert] on a well-formed table with fewer than [2^31 - 2] items, provided
    [reallocarray] succeeds if the insertion ends a round of splits and calls it: the
    previous entry of the key is returned, and the map gains the new entry, unless the
    key is new and the node cannot be allocated, in which case [NULL] is returned, the
    error counter is 1 and the map is unchanged.  The table stays well formed through
    the split, and no [unsigned int] wraps around. *)
Theorem lh_insert_refines lh d malloc_ok realloc_ok r lh' :
  lh_wf lh → num_items lh < 2 ^ 31 - 2 → realloc_ok = true ∨ p lh + 1 < pmax lh →
  lh_insert hash comp malloc_ok realloc_ok lh d = (r, lh') →
  r = to_map lh !! key d ∧ lh_wf lh' ∧
  if malloc_ok || bool_decide (is_Some (to_map lh !! key d))
  then to_map lh' = <[key d := d]> (to_map lh) ∧ error lh' = 0
  else to_map lh' = to_map lh ∧ error lh' = 1.
Proof.
  intros Hw H64 Hre. unfold lh_insert. set (lh0 := set_stats lh (stats lh) 0).
  destruct (maybe_expand_wf lh0 realloc_ok) as (Hw1 & Hm1 & Hn1 & He1);
    [by apply set_stats_wf|exact H64|exact Hre|].
  set (lh1 := if up_load lh0 <=? _ then expand realloc_ok lh0 else lh0) in *.
  change (to_map lh0) with (to_map lh) in Hm1. change (num_items lh0) with (num_items lh) in Hn1.
  rewrite <- Hm1. destruct (getrn hash comp lh1 d) as [[[nn i] h] lh2] eqn:E.
  apply getrn_spec in E as (Hnn & -> & Hbk & Hw2 & Hb & Hn2 & _ & Hpm & Hp & He2 & Hidx & Hi); [|done].
  rewrite Hbk. assert (Hm2 : to_map lh2 = to_map lh1) by (unfold to_map, nodes; by rewrite Hb).
  rewrite <- Hb in Hnn.
  assert (error lh2 = 0) as He by (by rewrite He2, He1).
  destruct (bucket lh1 nn !! i) as [n|] eqn:En.
  - intros [= <- <-].
    assert (to_map lh1 !! key d = Some (ndata n)) as Hl.
    { rewrite <- Hi. apply to_map_lookup_Some; [done|]. apply (bucket_lookup_in lh1 nn i); [lia|done]. }
    rewrite Hl, bool_decide_true, orb_true_r by eauto. split; [done|].
    rewrite <- Hbk in En |- *. rewrite <- Hm2.
    destruct (replace_at lh2 nn i n d (bump (stats lh2) num_replace 1) Hw2 Hnn En Hi). done.
  - assert (to_map lh1 !! key d = None) as Hl by (by apply to_map_lookup_None).
    rewrite Hl, bool_decide_false, orb_false_r by (by intros [? ?]).
    destruct malloc_ok; intros [= <- <-]; (split; [done|]).
    + rewrite <- Hbk, <- Hm2.
      assert (nn = index (pmax lh2) (p lh2) (hash d)) as Hidx2 by (by rewrite Hpm, Hp).
      assert (key d ∉ nkey <$> nodes lh2) as Hk2 by (unfold nodes; by rewrite Hb).
      destruct (append_at lh2 nn d (bump (stats lh2) num_insert 1) Hw2 ltac:(lia) Hnn Hidx2 Hk2).
      done.
    + split; [by apply set_stats_wf|]. change (to_map (set_stats _ _ _)) with (to_map lh2).
      simpl. rewrite Hm2, He. done.
Qed.

(** Removing the node at position [i] of bucket [nn]. *)
Lemma remove_at lh nn i n d st :
  lh_wf lh → num_items lh < 2 ^ 64 →
  0 ≤ nn < Z.of_nat (length (b lh)) → bucket lh nn !! i = Some n → nkey n = key d →
  let lh' := set_items lh (set_bucket (b lh) nn (take i (bucket lh nn) ++ drop (S i) (bucket lh nn)))
               (u64 (num_items lh - 1)) st in
  lh_wf lh' ∧ to_map lh' = delete (key d) (to_map lh).
Proof.
  intros Hw H64 Hnn En Hk lh'. destruct (bucket_perm lh nn i n Hnn En) as (rest & E1 & E2).
  set (others := take i (bucket lh nn) ++ drop (S i) (bucket lh nn)) in *.
  pose proof (wf_nodup_perm _ _ Hw E2) as Hnd. rewrite fmap_cons in Hnd.
  inversion Hnd as [|? ? Hnotin Hnd']; subst.
  pose proof (wf_items _ Hw) as Hit. rewrite E2 in Hit. simpl in Hit.
  destruct (set_items_wf lh nn others rest (u64 (num_items lh - 1)) st) as [Hw' Hp'].
  - done.
  - done.
  - done.
  - intros x Hx. apply in_without in Hx.
    apply (placed_bucket _ _ (b lh)); [apply (wf_placed _ Hw)|lia|exact Hx].
  - done.
  - unfold u64. rewrite Z.mod_small by lia. lia.
  - split; [done|]. unfold to_map.
    rewrite (map_of_perm (nodes lh') (others ++ rest) (wf_nodup _ Hw') Hp').
    rewrite (map_of_perm (nodes lh) (n :: others ++ rest) (wf_nodup _ Hw) E2).
    change (map_of (n :: others ++ rest)) with (<[nkey n := ndata n]> (map_of (others ++ rest))).
    rewrite <- Hk, delete_insert_id; [done|].
    apply not_elem_of_list_to_map. by rewrite <- list_fmap_compose.
Qed.

(** [lh_delete] on a well-formed table, with [reallocarray] succeeding when
    the deletion merges buckets: the entry of the key is returned and removed
    from the map, a missing key changes nothing, and the table stays well
    formed. *)
Theorem lh_delete_refines lh d r lh' :
  lh_wf lh → num_items lh < 2 ^ 64 →
  lh_delete hash comp true lh d = (r, lh') →
  r = to_map lh !! key d ∧ lh_wf lh' ∧ to_map lh' = delete (key d) (to_map lh).
Proof.
  intros Hw H64. unfold lh_delete. set (lh0 := set_stats lh (stats lh) 0).
  destruct (getrn hash comp lh0 d) as [[[nn i] h] lh2] eqn:E.
  apply getrn_spec in E as (Hnn & -> & Hbk & Hw2 & Hb & Hn2 & _ & Hpm & Hp & He2 & Hidx & Hi);
    [|by apply set_stats_wf].
  change (num_items lh0) with (num_items lh) in Hn2.
  assert (Hm2 : to_map lh2 = to_map lh) by (unfold to_map, nodes; by rewrite Hb).
  rewrite <- Hb in Hnn. rewrite <- Hbk in Hi. destruct (bucket lh2 nn !! i) as [n|] eqn:En.
  - rewrite <- Hm2.
    destruct (remove_at lh2 nn i n d (bump (stats lh2) num_delete 1) Hw2 ltac:(lia) Hnn En Hi)
      as [Hw3 Hm3].
    set (lh3 := set_items _ _ _ _) in *. intros [= <- <-]. split.
    + rewrite <- Hi. symmetry. apply to_map_lookup_Some; [done|].
      apply (bucket_lookup_in lh2 nn i); [lia|done].
    + destruct (Z.ltb_spec MIN_NODES (num_nodes lh2)) as [Hgt|]; cbn [andb]; [|done].
      case_cmp; [|done]. destruct (contract_wf lh3 Hw3 Hgt) as [Hw4 Hp4].
      split; [done|]. rewrite <- Hm3. symmetry.
      apply map_of_perm; [apply (wf_nodup _ Hw3)|done].
  - intros [= <- <-]. change (nodes lh0) with (nodes lh) in Hi.
    pose proof (to_map_lookup_None _ _ Hi) as Hl. rewrite Hl.
    split; [done|]. split; [by apply set_stats_wf|].
    change (to_map (set_stats _ _ _)) with (to_map lh2). rewrite Hm2. symmetry.
    by apply delete_id.
Qed.

(** ** Iteration *)

Lemma doall_loop_perm lh n : (n ≤ length (b lh))%nat →
  doall_loop lh n ≡ₚ ndata <$> concat (take n (b lh)).
Proof.
  induction n as [|n IH]; intros Hn; [done|]. cbn [doall_loop]. rewrite IH by lia.
  unfold bucket. rewrite Nat2Z.id. destruct (lookup_lt_is_Some_2 (b lh) n ltac:(lia)) as [c Hc].
  rewrite (take_S_r _ _ _ Hc), concat_app, nth_lookup, Hc. simpl.
  rewrite app_nil_r, fmap_app. apply Permutation_app_comm.
Qed.

(** [lh_doall] applies the callback exactly once to the data of every entry
    of a well-formed table. *)
Theorem lh_doall_visits_each_once lh : lh_wf lh → lh_doall lh ≡ₚ (map_to_list (to_map lh)).*2.
Proof.
  intros Hw. pose proof (wf_pmax_pos _ Hw). destruct Hw as [Hpm Hal Hp Hn Hlen Hpl Hnd Hit Hld].
  unfold lh_doall. rewrite (u32_small (num_nodes lh - 1)), s32_small, Z.sub_add, doall_loop_perm by lia.
  rewrite concat_take_empty.
  - unfold to_map, map_of. rewrite map_to_list_to_map by (by rewrite <- list_fmap_compose).
    rewrite <- list_fmap_compose. done.
  - intros i c Hi Hc. destruct c as [|n c]; [done|]. exfalso.
    destruct (Hpl _ _ _ Hc (list_elem_of_here _ _)) as [_ Hx].
    pose proof (index_below (pmax lh) (p lh) (nhash n) ltac:(lia) ltac:(lia)). lia.
Qed.

(** ** Failed reallocation *)

Lemma retrieve_None lh d :
  (∀ n, n ∈ bucket lh (s32 (bucket_index lh (hash d))) → nhash n = hash (ndata n) ∧ nkey n ≠ key d) →
  (lh_retrieve hash comp lh d).1 = None.
Proof.
  intros Hb. unfold lh_retrieve, getrn.
  change (bucket_index (set_stats lh (stats lh) 0)) with (bucket_index lh).
  change (bucket (set_stats lh (stats lh) 0)) with (bucket lh).
  set (c := bucket lh (s32 (bucket_index lh (hash d)))) in *.
  pose proof (getrn_loop_spec d c ltac:(intros; by apply Hb)) as Hg.
  destruct (getrn_loop comp (hash d) d c) as [[i hc] cc]. simpl in Hg.
  change (bucket (set_stats _ _ _) _) with c.
  destruct (c !! i) as [n|] eqn:E; [|done].
  exfalso. apply (Hb n); [apply list_elem_of_lookup; eauto|done].
Qed.

(** When the last split of a round cannot enlarge the table, [expand] resets
    [p] without doubling [pmax]: every entry of the upper half of the buckets,
    although still stored, can no longer be found. *)
Theorem expand_failure_hides_entries lh n :
  lh_wf lh → p lh + 1 = pmax lh → n ∈ nodes lh →
  pmax lh ≤ nhash n `mod` (2 * pmax lh) →
  n ∈ nodes (expand false lh) ∧ error (expand false lh) = error lh + 1 ∧
  (lh_retrieve hash comp (expand false lh) (ndata n)).1 = None.
Proof.
  intros Hw Hlast Hn Hhi. pose proof (wf_pmax_pos lh Hw).
  destruct (in_nodes lh n Hw Hn) as [_ Hhash].
  destruct Hw as [Hpm Hal Hp Hnn Hlen Hpl Hnd Hit Hld].
  unfold expand, bucket. rewrite (u32_small (p lh + 1)), (u32_small (p lh + pmax lh)), Hal by lia.
  pose proof (split_placed (pmax lh) (p lh) (b lh) ltac:(lia) Hp ltac:(lia) Hpl) as Hs.
  destruct (split_loop _ _ _ _) as [stay moved]. cbv zeta in Hs. destruct Hs as [Hpl' Hperm].
  destruct (Z.leb_spec (pmax lh) (p lh + 1)); [|lia].
  split; [unfold nodes; simpl; rewrite <- Hperm; exact Hn|]. split; [done|].
  apply retrieve_None. unfold bucket_index, bucket; simpl. intros x Hx.
  pose proof (Z.mod_pos_bound (hash (ndata n)) (pmax lh) ltac:(lia)).
  destruct (Z.ltb_spec (hash (ndata n) `mod` pmax lh) 0); [lia|]. rewrite s32_small in Hx by lia.
  destruct (placed_bucket _ _ _ (hash (ndata n) `mod` pmax lh) x Hpl' ltac:(lia) Hx)
    as [Hxh Hxi]. split; [done|].
  intros Hk. rewrite Hlast in Hxi. unfold index in Hxi. rewrite Hxh in Hxi.
  assert (hash (ndata x) = hash (ndata n)) as Hxn by (by apply hash_key).
  rewrite Hxn in Hxi. rewrite Hhash in Hhi. revert Hxi. case_cmp; lia.
Qed.

(** When [contract] cannot shrink the table it has already cleared the last
    bucket: the entries of that bucket are dropped from the table while
    [num_items] still counts them. *)
Theorem contract_failure_drops_bucket lh :
  lh_wf lh → p lh = 0 →
  nodes lh ≡ₚ bucket lh (pmax lh - 1) ++ nodes (contract false lh) ∧
  num_items (contract false lh) = num_items lh ∧ error (contract false lh) = error lh + 1.
Proof.
  intros Hw Hp. pose proof (wf_pmax_pos lh Hw). pose proof (wf_len _ Hw). pose proof (wf_alloc _ Hw).
  unfold contract. rewrite Hp. simpl. rewrite u32_small by lia. split; [|done].
  destruct (set_bucket_perm (b lh) (pmax lh - 1) [] ltac:(lia)) as (rest & E1 & E2).
  unfold nodes; simpl. replace (0 + pmax lh - 1) with (pmax lh - 1) by lia.
  rewrite E2. exact E1.
Qed.
End invariant.

Lemma lh_new_wf {V K} `{Countable K} (hash : V → Z) (key : V → K) :
  lh_wf hash key lh_new ∧ to_map key lh_new = ∅.
Proof.
  split; [|done]. split; unfold lh_new, MIN_NODES; simpl; try lia; try done.
  - exists 0. split; [lia|done].
  - intros i c n Hc Hn. exfalso.
    change (replicate 16 [] !! i = Some c) in Hc. apply lookup_replicate in Hc as [-> _].
    by apply not_elem_of_nil in Hn.
  - constructor.
Qed.

(** ** Witnesses: a table of integers keyed by themselves *)

Definition z_hash (x : Z) : Z := Z.abs x.
Definition z_comp (x y : Z) : Z := x - y.
#[local] Instance z_contract : LhashContract z_hash z_comp id.
Proof. split; unfold z_hash, z_comp, id; intros; lia. Qed.

(** One split before the end of a round, with one entry in the upper half. *)
Definition z_table : LHASH Z :=
  {| b := replicate 8 [] ++ [{| ndata := 8; nhash := 8 |}] :: replicate 7 [];
     num_nodes := 15; num_alloc_nodes := 16; p := 7; pmax := 8; up_load := UP_LOAD;
     down_load := DOWN_LOAD; num_items := 1; stats := λ _, 0; error := 0 |}.

Lemma z_table_wf : lh_wf z_hash id z_table.
Proof.
  split; try done.
  - exists 0. split; [lia|done].
  - intros i c n Hc Hn. do 16 (destruct i as [|i]; [injection Hc as <-;
      first [by apply not_elem_of_nil in Hn|apply list_elem_of_singleton in Hn as ->; done]|]).
    done.
  - simpl. constructor; [apply not_elem_of_nil|constructor].
Qed.

Lemma lh_retrieve_refines_witness : (lh_retrieve z_hash z_comp z_table 8).1 = Some 8.
Proof.
  rewrite (proj1 (lh_retrieve_refines z_hash z_comp id z_table 8 _ _ z_table_wf (surjective_pairing _))).
  vm_compute. reflexivity.
Defined.

Lemma lh_insert_refines_witness :
  (lh_insert z_hash z_comp true true z_table 8).1 = Some 8 ∧
  to_map id (lh_insert z_hash z_comp true true z_table 9).2 = {[8 := 8; 9 := 9]}.
Proof.
  split.
  - rewrite (proj1 (lh_insert_refines z_hash z_comp id z_table 8 true true _ _ z_table_wf
      ltac:(simpl; lia) (or_introl eq_refl) (surjective_pairing _))).
    vm_compute. reflexivity.
  - destruct (lh_insert_refines z_hash z_comp id z_table 9 true true _ _ z_table_wf
      ltac:(simpl; lia) (or_introl eq_refl) (surjective_pairing _)) as (_ & _ & Hm & _). rewrite Hm.
    vm_compute. reflexivity.
Defined.

Lemma lh_delete_refines_witness :
  (lh_delete z_hash z_comp true z_table 8).1 = Some 8.
Proof.
  rewrite (proj1 (lh_delete_refines z_hash z_comp id z_table 8 _ _ z_table_wf
    ltac:(simpl; lia) (surjective_pairing _))).
  vm_compute. reflexivity.
Defined.

Lemma lh_doall_visits_each_once_witness :
  lh_doall z_table ≡ₚ [8].
Proof. exact (lh_doall_visits_each_once z_hash id z_table z_table_wf). Defined.

Lemma expand_failure_hides_entries_witness :
  (lh_retrieve z_hash z_comp z_table 8).1 = Some 8 ∧
  (lh_retrieve z_hash z_comp (expand false z_table) 8).1 = None.
Proof.
  split; [vm_compute; reflexivity|].
  apply (expand_failure_hides_entries z_hash z_comp id z_table {| ndata := 8; nhash := 8 |} z_table_wf).
  - reflexivity.
  - simpl. left.
  - vm_compute. congruence.
Defined.

(** Sixteen primary buckets, none split, with an entry in the last. *)
Definition z_table16 : LHASH Z :=
  {| b := replicate 15 [] ++ [{| ndata := 15; nhash := 15 |}] :: replicate 16 [];
     num_nodes := 16; num_alloc_nodes := 32; p := 0; pmax := 16; up_load := UP_LOAD;
     down_load := DOWN_LOAD; num_items := 1; stats := λ _, 0; error := 0 |}.

Lemma z_table16_wf : lh_wf z_hash id z_table16.
Proof.
  split; try done.
  - exists 1. split; [lia|done].
  - intros i c n Hc Hn. do 32 (destruct i as [|i]; [injection Hc as <-;
      first [by apply not_elem_of_nil in Hn|apply list_elem_of_singleton in Hn as ->; done]|]).
    done.
  - simpl. constructor; [apply not_elem_of_nil|constructor].
Qed.

Lemma contract_failure_drops_bucket_witness :
  nodes z_table16 ≡ₚ [{| ndata := 15; nhash := 15 |}] ++ nodes (contract false z_table16).
Proof.
  exact (proj1 (contract_failure_drops_bucket z_hash id z_table16 z_table16_wf eq_refl)).
Defined.
