(* ===== verification/Stack.v ===== *)
(** * Stacks of pointers

    Models [crypto/stack/stack.c], the dynamic array behind [STACK_OF], and the
    binary search [OBJ_bsearch_ex_] of [crypto/objects/obj_dat.c] it searches
    with.  Elements are addresses, [NULL] is 0; the argument [st] of the
    operations that accept a null stack is an [option].  Counters are unbounded:
    the code's [int] counters agree below 2^30 elements.

    Comparison callbacks are function pointers: an identifier, whose meaning is
    the parameter [compare]; [qsort] is a parameter with its documented
    behaviour. *)

From stdpp Require Import sorting.
From S2P Require Import Prelude.
#[local] Open Scope Z_scope.

Record STACK := Stk { num : Z; data : list Z; sorted : bool; num_alloc : Z; comp : option nat }.

Definition NULL : Z := 0.
Definition MIN_NODES : Z := 4.

(** [reallocarray] keeps the elements; [junk] is what new memory holds. *)
Definition realloc (junk : Z) (l : list Z) (n : Z) : list Z :=
  take (Z.to_nat n) l ++ replicate (Z.to_nat n - length l) junk.

(** The stack and the previous callback. *)
Definition sk_set_cmp_func (sk : STACK) (c : option nat) : option nat * STACK :=
  let sorted := if bool_decide (comp sk = c) then sorted sk else false in
  (comp sk, Stk (num sk) (data sk) sorted (num_alloc sk) c).

(** [ok] is the success of both allocations. *)
Definition sk_new (ok : bool) (c : option nat) : option STACK :=
  if ok then Some (Stk 0 (replicate (Z.to_nat MIN_NODES) NULL) false MIN_NODES c) else None.

Definition sk_new_null (ok : bool) : option STACK := sk_new ok None.

(** [ok2] is the success of the second allocation. *)
Definition sk_dup (ok ok2 : bool) (junk : Z) (sk : STACK) : option STACK :=
  match sk_new ok (comp sk) with
  | None => None
  | Some ret =>
      if ok2 then
        let d := realloc junk (data ret) (num_alloc sk) in
        let d := splice d 0 (take (Z.to_nat (num sk)) (data sk)) in
        Some (Stk (num sk) d (sorted sk) (num_alloc sk) (comp sk))
      else None
  end.

(** The copies made so far, in order; [None] when [copy_func] fails, with the
    copies that are released then. *)
Fixpoint copy_loop (copy_func : Z → Z) (l : list Z) : list Z * bool :=
  match l with
  | [] => ([], true)
  | x :: l =>
      if x =? NULL then let '(r, ok) := copy_loop copy_func l in (NULL :: r, ok)
      else if copy_func x =? NULL then ([], false)
      else let '(r, ok) := copy_loop copy_func l in (copy_func x :: r, ok)
  end.

(** The new stack or the copies passed to [free_func], last first. *)
Definition sk_deep_copy (ok : bool) (copy_func : Z → Z) (sk : STACK) : option STACK * list Z :=
  if ok then
    let n := if MIN_NODES <? num sk then num sk else MIN_NODES in
    let d := replicate (Z.to_nat n) NULL in
    match copy_loop copy_func (take (Z.to_nat (num sk)) (data sk)) with
    | (r, true) => (Some (Stk (num sk) (splice d 0 r) (sorted sk) n (comp sk)), [])
    | (r, false) => (None, filter (λ p, p ≠ NULL) (reverse r))
    end
  else (None, []).

(** [ok] is the success of [reallocarray]; the result is the return value. *)
Definition sk_insert (ok : bool) (junk : Z) (st : option STACK) (x : Z) (loc : Z) : Z * option STACK :=
  match st with
  | None => (0, None)
  | Some s =>
      let grow := num_alloc s <=? num s + 1 in
      if grow && negb ok then (0, Some s)
      else
        let n := if grow then num_alloc s * 2 else num_alloc s in
        let d := if grow then realloc junk (data s) n else data s in
        let d :=
          if (num s <=? loc) || (loc <? 0) then setb d (num s) x
          else
            let moved := take (Z.to_nat (num s - loc)) (drop (Z.to_nat loc) d) in
            setb (splice d (Z.to_nat (loc + 1)) moved) loc x in
        (num s + 1, Some (Stk (num s + 1) d false n (comp s)))
  end.

Definition sk_delete (st : option STACK) (loc : Z) : Z * option STACK :=
  match st with
  | None => (NULL, None)
  | Some s =>
      if (loc <? 0) || (num s <=? loc) then (NULL, Some s)
      else
        let ret := getb (data s) loc in
        let d :=
          if loc =? num s - 1 then data s
          else splice (data s) (Z.to_nat loc)
                 (take (Z.to_nat (num s - 1 - loc)) (drop (Z.to_nat (loc + 1)) (data s))) in
        (ret, Some (Stk (num s - 1) d (sorted s) (num_alloc s) (comp s)))
  end.

(** The index of the first slot that holds [p]. *)
Fixpoint index_loop (l : list Z) (i p : Z) : option Z :=
  match l with
  | [] => None
  | x :: l => if x =? p then Some i else index_loop l (i + 1) p
  end.

Definition sk_delete_ptr (s : STACK) (p : Z) : Z * option STACK :=
  if p =? NULL then (NULL, Some s)
  else
    match index_loop (take (Z.to_nat (num s)) (data s)) 0 p with
    | Some i => sk_delete (Some s) i
    | None => (NULL, Some s)
    end.

Definition sk_push (ok : bool) (junk : Z) (s : STACK) (x : Z) : Z * option STACK :=
  sk_insert ok junk (Some s) x (num s).

Definition sk_unshift (ok : bool) (junk : Z) (s : STACK) (x : Z) : Z * option STACK :=
  sk_insert ok junk (Some s) x 0.

Definition sk_shift (st : option STACK) : Z * option STACK :=
  match st with
  | None => (NULL, None)
  | Some s => if num s <=? 0 then (NULL, Some s) else sk_delete (Some s) 0
  end.

Definition sk_pop (st : option STACK) : Z * option STACK :=
  match st with
  | None => (NULL, None)
  | Some s => if num s <=? 0 then (NULL, Some s) else sk_delete (Some s) (num s - 1)
  end.

Definition sk_zero (st : option STACK) : option STACK :=
  match st with
  | None => None
  | Some s =>
      if num s <=? 0 then Some s
      else Some (Stk 0 (splice (data s) 0 (replicate (Z.to_nat (num s)) NULL)) (sorted s) (num_alloc s) (comp s))
  end.

(** The elements passed to [func], in order. *)
Definition sk_pop_free (st : option STACK) : list Z :=
  match st with
  | None => []
  | Some s => filter (λ p, p ≠ NULL) (take (Z.to_nat (num s)) (data s))
  end.

Definition sk_num (st : option STACK) : Z :=
  match st with None => -1 | Some s => num s end.

Definition sk_value (st : option STACK) (i : Z) : Z :=
  match st with
  | None => NULL
  | Some s => if (i <? 0) || (num s <=? i) then NULL else getb (data s) i
  end.

Definition sk_set (st : option STACK) (i value : Z) : Z * option STACK :=
  match st with
  | None => (NULL, None)
  | Some s =>
      if (i <? 0) || (num s <=? i) then (NULL, Some s)
      else (value, Some (Stk (num s) (setb (data s) i value) (sorted s) (num_alloc s) (comp s)))
  end.

Definition sk_is_sorted (st : option STACK) : bool :=
  match st with None => true | Some s => sorted s end.

(** ** Sorting and searching *)

Section search.
Context (compare : nat → Z → Z → Z) (qsort : (Z → Z → Z) → list Z → list Z).

Definition OBJ_BSEARCH_VALUE_ON_NOMATCH : Z := 1.
Definition OBJ_BSEARCH_FIRST_VALUE_ON_MATCH : Z := 2.

(** [while (l < h)]: the last index probed and its comparison. *)
Fixpoint bsearch_loop (cmp : Z → Z) (base : list Z) (fuel : nat) (l h i c : Z) : Z * Z :=
  match fuel with
  | O => (i, c)
  | S fuel =>
      if l <? h then
        let i := (l + h) `div` 2 in
        let c := cmp (getb base i) in
        if c <? 0 then bsearch_loop cmp base fuel l i i c
        else if 0 <? c then bsearch_loop cmp base fuel (i + 1) h i c
        else (i, c)
      else (i, c)
  end.

(** [while (i > 0 && cmp(key, base[i - 1]) == 0) i--] *)
Fixpoint back_loop (cmp : Z → Z) (base : list Z) (i : nat) : nat :=
  match i with
  | O => O
  | S j => if cmp (getb base (Z.of_nat j)) =? 0 then back_loop cmp base j else i
  end.

(** The index of the element returned, [None] for a null pointer. *)
Definition OBJ_bsearch_ex_ (cmp : Z → Z) (base : list Z) (n flags : Z) : option Z :=
  if n =? 0 then None
  else
    let '(i, c) := bsearch_loop cmp base (Z.to_nat n) 0 n 0 0 in
    if negb (c =? 0) && (Z.land flags OBJ_BSEARCH_VALUE_ON_NOMATCH =? 0) then None
    else if (c =? 0) && negb (Z.land flags OBJ_BSEARCH_FIRST_VALUE_ON_MATCH =? 0)
    then Some (Z.of_nat (back_loop cmp base (Z.to_nat i)))
    else Some i.

Definition sk_sort (st : option STACK) : option STACK :=
  match st with
  | None => None
  | Some s =>
      match comp s with
      | Some c =>
          if sorted s then Some s
          else Some (Stk (num s) (splice (data s) 0 (qsort (compare c) (take (Z.to_nat (num s)) (data s)))) true
                       (num_alloc s) (comp s))
      | None => Some s
      end
  end.

Definition internal_find (st : option STACK) (x ret_val_options : Z) : Z * option STACK :=
  match st with
  | None => (-1, None)
  | Some s =>
      match comp s with
      | None => (default (-1) (index_loop (take (Z.to_nat (num s)) (data s)) 0 x), Some s)
      | Some c =>
          match sk_sort (Some s) with
          | None => (-1, None)
          | Some s =>
              if x =? NULL then (-1, Some s)
              else
                match OBJ_bsearch_ex_ (compare c x) (data s) (num s) ret_val_options with
                | None => (-1, Some s)
                | Some i => (i, Some s)
                end
          end
      end
  end.

Definition sk_find (st : option STACK) (x : Z) : Z * option STACK :=
  internal_find st x OBJ_BSEARCH_FIRST_VALUE_ON_MATCH.

Definition sk_find_ex (st : option STACK) (x : Z) : Z * option STACK :=
  internal_find st x OBJ_BSEARCH_VALUE_ON_NOMATCH.
End search.

(** ** The array behind a stack *)

(** What the stack holds. *)
Definition contents (s : STACK) : list Z := take (Z.to_nat (num s)) (data s).

(** The array has [num_alloc] slots, one more than the elements at least. *)
Definition stack_ok (s : STACK) : Prop :=
  0 ≤ num s < num_alloc s ∧ MIN_NODES ≤ num_alloc s ∧ Z.of_nat (length (data s)) = num_alloc s.

Lemma length_contents s : stack_ok s → Z.of_nat (length (contents s)) = num s.
Proof. intros (? & ? & ?). unfold contents. rewrite length_take. lia. Qed.

(** A stack given by its contents and the unused rest of the array. *)
Lemma stack_split s : stack_ok s → data s = contents s ++ drop (Z.to_nat (num s)) (data s).
Proof. intros _. symmetry. apply take_drop. Qed.

Lemma length_realloc junk l n : Z.of_nat (length l) ≤ n → Z.of_nat (length (realloc junk l n)) = n.
Proof. intros H. unfold realloc. rewrite length_app, length_take, length_replicate. lia. Qed.

Lemma take_realloc junk l n k : (k ≤ length l)%nat → Z.of_nat (length l) ≤ n → take k (realloc junk l n) = take k l.
Proof. intros Hk Hn. unfold realloc. rewrite (take_ge l) by lia. rewrite take_app_le by lia. done. Qed.

(** ** The list behind a stack *)

Definition list_insert_at (l : list Z) (x loc : Z) : list Z :=
  if (Z.of_nat (length l) <=? loc) || (loc <? 0) then l ++ [x]
  else take (Z.to_nat loc) l ++ [x] ++ drop (Z.to_nat loc) l.

Definition list_delete_at (l : list Z) (loc : Z) : Z * list Z :=
  if (loc <? 0) || (Z.of_nat (length l) <=? loc) then (NULL, l)
  else (getb l loc, take (Z.to_nat loc) l ++ drop (S (Z.to_nat loc)) l).

Lemma length_insert_at l x loc : length (list_insert_at l x loc) = S (length l).
Proof.
  unfold list_insert_at. destruct ((_ <=? loc) || (loc <? 0));
    rewrite !length_app, ?length_take, ?length_drop; cbn [length]; lia.
Qed.

Lemma insert_loc l rest x loc : 0 ≤ loc < Z.of_nat (length l) → rest ≠ [] →
  let d := l ++ rest in
  let moved := take (Z.to_nat (Z.of_nat (length l) - loc)) (drop (Z.to_nat loc) d) in
  setb (splice d (Z.to_nat (loc + 1)) moved) loc x =
  (take (Z.to_nat loc) l ++ [x] ++ drop (Z.to_nat loc) l) ++ drop 1 rest.
Proof.
  intros Hloc Hrest d moved. destruct (split_at l (Z.to_nat loc)) as (a & b & E & Ha & _); [lia|].
  assert (1 ≤ length b)%nat as Hb by (apply (f_equal length) in E; rewrite length_app in E; lia).
  destruct b as [|y b]; [cbn in Hb; lia|]. destruct rest as [|z rest]; [done|]. subst l.
  rewrite take_app_exact, drop_app_exact by done. unfold moved, d. rewrite <- app_assoc, drop_app_exact by done.
  replace (Z.to_nat (Z.of_nat (length (a ++ y :: b)) - loc)) with (length (y :: b)) by len.
  rewrite take_app_length. change (drop 1 (z :: rest)) with rest.
  assert (splice (a ++ (y :: b) ++ z :: rest) (Z.to_nat (loc + 1)) (y :: b) = a ++ y :: (y :: b) ++ rest) as ->.
  { replace (Z.to_nat (loc + 1)) with (length (a ++ [y])) by len.
    replace (a ++ (y :: b) ++ z :: rest) with ((a ++ [y]) ++ (b ++ [z]) ++ rest) by (by rewrite <- !app_assoc).
    rewrite splice_app by len. by rewrite <- app_assoc. }
  unfold setb. rewrite <- Ha, insert_app_r_alt by lia. rewrite Nat.sub_diag. cbn [insert list_insert].
  by rewrite <- !app_assoc.
Qed.

Lemma delete_loc (l rest : list Z) loc : 0 ≤ loc < Z.of_nat (length l) →
  ∃ rest' : list Z, length rest' = S (length rest) ∧
  splice (l ++ rest) (Z.to_nat loc) (take (Z.to_nat (Z.of_nat (length l) - 1 - loc)) (drop (Z.to_nat (loc + 1)) (l ++ rest))) =
  (take (Z.to_nat loc) l ++ drop (S (Z.to_nat loc)) l) ++ rest'.
Proof.
  intros Hloc. destruct (split_at l (Z.to_nat loc)) as (a & b & E & Ha & _); [lia|].
  assert (1 ≤ length b)%nat as Hb by (apply (f_equal length) in E; rewrite length_app in E; lia).
  destruct b as [|y b]; [cbn in Hb; lia|]. subst l. rewrite take_app_exact by done.
  replace (Z.to_nat (loc + 1)) with (length (a ++ [y])) by len.
  replace (S (Z.to_nat loc)) with (length (a ++ [y])) by len.
  replace (a ++ y :: b) with ((a ++ [y]) ++ b) by (by rewrite <- app_assoc).
  rewrite <- app_assoc, !drop_app_length.
  replace (Z.to_nat (Z.of_nat (length ((a ++ [y]) ++ b)) - 1 - loc)) with (length b) by len.
  rewrite take_app_length.
  assert (∃ z rest', y :: b ++ rest = (take (length b) (y :: b ++ rest)) ++ z :: rest' ∧ length rest' = length rest) as (z & rest' & E & Hr).
  { destruct (drop (length b) (y :: b ++ rest)) as [|z r] eqn:Ed.
    - apply (f_equal length) in Ed. rewrite length_drop in Ed. cbn [length] in Ed. rewrite length_app in Ed. lia.
    - exists z, r. rewrite <- Ed, take_drop. split; [done|]. apply (f_equal length) in Ed.
      rewrite length_drop in Ed. cbn [length] in Ed. rewrite length_app in Ed. lia. }
  exists (z :: rest'). split; [cbn; lia|].
  replace ((a ++ [y]) ++ b ++ rest) with (a ++ y :: b ++ rest) by (by rewrite <- app_assoc).
  assert (length (take (length b) (y :: b ++ rest)) = length b) as Ht.
  { rewrite length_take. cbn [length]. rewrite length_app. lia. }
  rewrite E, <- Ha, splice_app by done. by rewrite <- app_assoc.
Qed.

(** ** Refinement

    An operation of the array with its return value, and the same on lists. *)
Inductive op :=
  | OpInsert (x loc : Z) | OpPush (x : Z) | OpUnshift (x : Z)
  | OpDelete (loc : Z) | OpDeletePtr (p : Z) | OpShift | OpPop | OpZero
  | OpSet (i v : Z) | OpValue (i : Z) | OpNum.

Definition step (ok : bool) (junk : Z) (s : STACK) (o : op) : Z * option STACK :=
  match o with
  | OpInsert x loc => sk_insert ok junk (Some s) x loc
  | OpPush x => sk_push ok junk s x
  | OpUnshift x => sk_unshift ok junk s x
  | OpDelete loc => sk_delete (Some s) loc
  | OpDeletePtr p => sk_delete_ptr s p
  | OpShift => sk_shift (Some s)
  | OpPop => sk_pop (Some s)
  | OpZero => (0, sk_zero (Some s))
  | OpSet i v => sk_set (Some s) i v
  | OpValue i => (sk_value (Some s) i, Some s)
  | OpNum => (sk_num (Some s), Some s)
  end.

Definition list_step (l : list Z) (o : op) : Z * list Z :=
  let n := Z.of_nat (length l) in
  let insert x loc := (n + 1, list_insert_at l x loc) in
  match o with
  | OpInsert x loc => insert x loc
  | OpPush x => insert x n
  | OpUnshift x => insert x 0
  | OpDelete loc => list_delete_at l loc
  | OpDeletePtr p =>
      if p =? NULL then (NULL, l)
      else match list_find (λ x, x = p) l with
           | Some (i, _) => (p, take i l ++ drop (S i) l)
           | None => (NULL, l)
           end
  | OpShift => list_delete_at l 0
  | OpPop => list_delete_at l (n - 1)
  | OpZero => (0, [])
  | OpSet i v => if (i <? 0) || (n <=? i) then (NULL, l) else (v, <[Z.to_nat i := v]> l)
  | OpValue i => (if (i <? 0) || (n <=? i) then NULL else getb l i, l)
  | OpNum => (n, l)
  end.

Definition inserts (o : op) : bool :=
  match o with OpInsert _ _ | OpPush _ | OpUnshift _ => true | _ => false end.

(** One step of the specification; an insertion may fail without memory. *)
Inductive spec_step : list Z → bool * op → Z → list Z → Prop :=
  | spec_ok l ok o r l' : list_step l o = (r, l') → spec_step l (ok, o) r l'
  | spec_fail l o : inserts o = true → spec_step l (false, o) 0 l.

Lemma insert_refines ok junk s x loc : stack_ok s →
  ∃ r s', sk_insert ok junk (Some s) x loc = (r, Some s') ∧ stack_ok s' ∧
    ((r = num s + 1 ∧ contents s' = list_insert_at (contents s) x loc) ∨ (ok = false ∧ r = 0 ∧ s' = s)).
Proof.
  intros Hs. pose proof (length_contents s Hs) as Hlc. pose proof (stack_split s Hs) as Hsp.
  destruct Hs as (Hn & Hm & Hl). unfold MIN_NODES in Hm. unfold sk_insert.
  destruct ((num_alloc s <=? num s + 1) && negb ok) eqn:Ef.
  { apply andb_true_iff in Ef as [_ Ef]. destruct ok; [done|]. eexists _, s. split; [done|].
    split; [by unfold stack_ok, MIN_NODES|]. by right. }
  set (n := if num_alloc s <=? num s + 1 then num_alloc s * 2 else num_alloc s).
  set (d := if num_alloc s <=? num s + 1 then realloc junk (data s) n else data s).
  assert (num s + 1 < n ∧ 4 ≤ n ∧ Z.of_nat (length d) = n ∧ take (Z.to_nat (num s)) d = contents s) as (Hn1 & Hn4 & Hld & Htd).
  { unfold d, n, contents. destruct (Z.leb_spec (num_alloc s) (num s + 1)); [|done].
    rewrite length_realloc, take_realloc by lia. split_and!; [lia..|done]. }
  set (rest := drop (Z.to_nat (num s)) d). assert (d = contents s ++ rest) as Hd by (unfold rest; rewrite <- Htd, take_drop; done).
  assert (rest ≠ []) as Hrest.
  { intros E. apply (f_equal length) in Hd. rewrite E, app_nil_r in Hd. lia. }
  assert (∃ d' rest', (if (num s <=? loc) || (loc <? 0) then setb d (num s) x
     else setb (splice d (Z.to_nat (loc + 1)) (take (Z.to_nat (num s - loc)) (drop (Z.to_nat loc) d))) loc x) = d' ∧
     d' = list_insert_at (contents s) x loc ++ rest' ∧ length rest' = (length rest - 1)%nat) as (d' & rest' & Ed & Ed' & Hlr).
  { unfold list_insert_at. rewrite Hlc. destruct ((num s <=? loc) || (loc <? 0)) eqn:El.
    - eexists _, (drop 1 rest). split; [done|]. split; [|len]. rewrite Hd. unfold setb.
      destruct rest as [|z rest']; [done|]. rewrite insert_app_r_alt by lia.
      replace (Z.to_nat (num s) - length (contents s))%nat with 0%nat by lia. cbn. by rewrite <- app_assoc, drop_0.
    - apply orb_false_iff in El as [H1%Z.leb_gt H2%Z.ltb_ge]. eexists _, (drop 1 rest). split; [done|]. split; [|len].
      rewrite Hd, <- Hlc. apply insert_loc; [lia|done]. }
  rewrite Ed. eexists _, _. split; [done|].
  pose proof (length_insert_at (contents s) x loc) as Hli.
  assert (length d = length (contents s) + length rest)%nat as Hll by (rewrite Hd, length_app; done).
  split.
  - unfold stack_ok, MIN_NODES. cbn [num num_alloc data]. rewrite Ed', length_app, Hli, Hlr.
    destruct rest; [done|]. cbn [length] in *. lia.
  - left. split; [done|]. unfold contents at 1. cbn [num data]. rewrite Ed'. apply take_app_exact. lia.
Qed.

Lemma delete_refines s loc : stack_ok s →
  ∃ r s', sk_delete (Some s) loc = (r, Some s') ∧ stack_ok s' ∧
    (r, contents s') = list_delete_at (contents s) loc.
Proof.
  intros Hs. pose proof (length_contents s Hs) as Hlc. pose proof (stack_split s Hs) as Hsp.
  unfold sk_delete, list_delete_at. rewrite Hlc.
  destruct ((loc <? 0) || (num s <=? loc)) eqn:El; [by eexists _, s|].
  apply orb_false_iff in El as [H1%Z.ltb_ge H2%Z.leb_gt]. pose proof Hs as (Hn & Hm & Hl).
  set (rest := drop (Z.to_nat (num s)) (data s)) in *.
  assert (∃ rest', length rest' = S (length rest) ∧ (if loc =? num s - 1 then data s
      else splice (data s) (Z.to_nat loc) (take (Z.to_nat (num s - 1 - loc)) (drop (Z.to_nat (loc + 1)) (data s)))) =
      (take (Z.to_nat loc) (contents s) ++ drop (S (Z.to_nat loc)) (contents s)) ++ rest') as (rest' & Hr & ->).
  { destruct (Z.eqb_spec loc (num s - 1)) as [->|].
    - exists (drop (Z.to_nat (num s - 1)) (contents s) ++ rest). split.
      + rewrite length_app, length_drop. lia.
      + rewrite (drop_ge _ (S _)), app_nil_r, app_assoc, take_drop by lia. done.
    - rewrite Hsp, <- Hlc. apply delete_loc. lia. }
  assert (length (take (Z.to_nat loc) (contents s) ++ drop (S (Z.to_nat loc)) (contents s)) = length (contents s) - 1)%nat as Hlt.
  { rewrite length_app, length_take, length_drop. lia. }
  eexists _, _. split; [done|]. split.
  - unfold stack_ok. cbn [num data num_alloc]. rewrite length_app, Hlt, Hr.
    apply (f_equal length) in Hsp. rewrite length_app in Hsp. lia.
  - f_equal.
    + rewrite Hsp at 1. by rewrite getb_app_l by lia.
    + unfold contents at 1. cbn [num data]. apply take_app_exact. lia.
Qed.

Lemma index_loop_find l : ∀ i p, index_loop l i p = (λ '(k, _), i + Z.of_nat k) <$> list_find (λ x, x = p) l.
Proof.
  induction l as [|x l IH]; intros i p; cbn [index_loop list_find]; [done|].
  destruct (Z.eqb_spec x p) as [->|Hx].
  - rewrite decide_True by done. cbn. f_equal. lia.
  - rewrite decide_False, IH by done. destruct (list_find _ l) as [[k y]|]; cbn; [|done]. f_equal. lia.
Qed.

Lemma delete_ptr_refines s p : stack_ok s →
  ∃ r s', sk_delete_ptr s p = (r, Some s') ∧ stack_ok s' ∧ list_step (contents s) (OpDeletePtr p) = (r, contents s').
Proof.
  intros Hs. unfold sk_delete_ptr. cbn [list_step]. fold (contents s).
  destruct (p =? NULL); [by eexists _, s|]. rewrite index_loop_find.
  destruct (list_find (λ x, x = p) (contents s)) as [[k y]|] eqn:Ef; cbn; [|by eexists _, s].
  apply list_find_Some in Ef as (Hk & -> & _). pose proof (lookup_lt_Some _ _ _ Hk) as Hlt.
  destruct (delete_refines s (0 + Z.of_nat k) Hs) as (r & s' & E & Hs' & H). exists r, s'.
  split_and!; [done|done|]. rewrite H. unfold list_delete_at.
  rewrite (proj2 (Z.ltb_ge _ _)), (proj2 (Z.leb_gt _ _)) by lia. cbn [orb].
  replace (Z.to_nat (0 + Z.of_nat k)) with k by lia. f_equal. unfold getb.
  replace (Z.to_nat (0 + Z.of_nat k)) with k by lia. symmetry. by apply nthZ_lookup.
Qed.

Lemma contents_empty s : stack_ok s → num s ≤ 0 → contents s = [].
Proof. intros Hs Hn. apply length_zero_iff_nil. pose proof (length_contents s Hs). lia. Qed.

Lemma zero_refines s : stack_ok s → ∃ s', sk_zero (Some s) = Some s' ∧ stack_ok s' ∧ contents s' = [].
Proof.
  intros Hs. unfold sk_zero. destruct (Z.leb_spec (num s) 0).
  - exists s. auto using contents_empty.
  - eexists. split_and!; [done| |done]. destruct Hs as (? & ? & ?). unfold stack_ok. cbn [num data num_alloc].
    rewrite length_splice by (rewrite length_replicate; lia). lia.
Qed.

Lemma set_refines s i v : stack_ok s →
  ∃ r s', sk_set (Some s) i v = (r, Some s') ∧ stack_ok s' ∧ list_step (contents s) (OpSet i v) = (r, contents s').
Proof.
  intros Hs. unfold sk_set. cbn [list_step]. rewrite (length_contents s Hs).
  destruct ((i <? 0) || (num s <=? i)) eqn:E; [by eexists _, s|].
  apply orb_false_iff in E as [H1%Z.ltb_ge H2%Z.leb_gt]. eexists _, _. split; [done|].
  split; [unfold stack_ok in *; cbn [num data num_alloc]; rewrite length_setb; done|].
  f_equal. unfold contents, setb. cbn [num data]. rewrite take_insert_lt by lia. done.
Qed.

Lemma step_refines ok junk s o : stack_ok s →
  ∃ r s', step ok junk s o = (r, Some s') ∧ stack_ok s' ∧ spec_step (contents s) (ok, o) r (contents s').
Proof.
  intros Hs. pose proof (length_contents s Hs) as Hlc. pose proof Hs as (Hn & Hm & Hl).
  assert (∀ o x loc r s', inserts o = true → list_step (contents s) o = (num s + 1, list_insert_at (contents s) x loc) →
    (r = num s + 1 ∧ contents s' = list_insert_at (contents s) x loc) ∨ (ok = false ∧ r = 0 ∧ s' = s) →
    spec_step (contents s) (ok, o) r (contents s')) as Hins.
  { intros o' x loc r s' Ho Eo [[-> ->]|(-> & -> & ->)]; [by constructor|by constructor]. }
  assert (∀ loc o, list_step (contents s) o = list_delete_at (contents s) loc → ∃ r s',
    sk_delete (Some s) loc = (r, Some s') ∧ stack_ok s' ∧ spec_step (contents s) (ok, o) r (contents s')) as Hdel.
  { intros loc o' Eo. destruct (delete_refines s loc Hs) as (r & s' & E & Hs' & H). exists r, s'.
    split_and!; [done|done|]. constructor. by rewrite Eo, H. }
  destruct o; cbn [step]; try (by eapply Hdel).
  - destruct (insert_refines ok junk s x loc Hs) as (r & s' & E & Hs' & H). exists r, s'. split_and!; [done|done|].
    eapply Hins; [done| |exact H]. cbn [list_step]. by rewrite Hlc.
  - unfold sk_push. destruct (insert_refines ok junk s x (num s) Hs) as (r & s' & E & Hs' & H). exists r, s'.
    split_and!; [done|done|]. eapply Hins; [done| |exact H]. cbn [list_step]. by rewrite Hlc.
  - unfold sk_unshift. destruct (insert_refines ok junk s x 0 Hs) as (r & s' & E & Hs' & H). exists r, s'.
    split_and!; [done|done|]. eapply Hins; [done| |exact H]. cbn [list_step]. by rewrite Hlc.
  - destruct (delete_ptr_refines s p Hs) as (r & s' & -> & Hs' & H). exists r, s'. split_and!; [done|done|by constructor].
  - unfold sk_shift. destruct (Z.leb_spec (num s) 0); [|by apply Hdel]. exists NULL, s. split_and!; [done|done|].
    constructor. by rewrite contents_empty.
  - unfold sk_pop. destruct (Z.leb_spec (num s) 0).
    + exists NULL, s. split_and!; [done|done|]. constructor. by rewrite contents_empty.
    + apply Hdel. cbn [list_step]. by rewrite Hlc.
  - destruct (zero_refines s Hs) as (s' & -> & Hs' & H). exists 0, s'. rewrite H. split_and!; [done|done|by constructor].
  - destruct (set_refines s i v Hs) as (r & s' & -> & Hs' & H). exists r, s'. split_and!; [done|done|by constructor].
  - eexists _, s. split_and!; [done|done|]. constructor. cbn [list_step sk_value]. rewrite Hlc.
    destruct ((i <? 0) || (num s <=? i)) eqn:E; [done|]. apply orb_false_iff in E as [H1%Z.ltb_ge H2%Z.leb_gt].
    unfold contents. by rewrite getb_take by lia.
  - eexists _, s. split_and!; [done|done|]. constructor. cbn [list_step sk_num]. by rewrite Hlc.
Qed.

(** A run of operations, each with the outcome of its allocation. *)
Fixpoint run (junk : Z) (s : STACK) (os : list (bool * op)) : option (list Z * STACK) :=
  match os with
  | [] => Some ([], s)
  | (ok, o) :: os =>
      match step ok junk s o with
      | (r, Some s) =>
          match run junk s os with
          | Some (rs, s) => Some (r :: rs, s)
          | None => None
          end
      | (_, None) => None
      end
  end.

Inductive spec_run : list Z → list (bool * op) → list Z → list Z → Prop :=
  | run_nil l : spec_run l [] [] l
  | run_cons l o r l1 os rs l2 : spec_step l o r l1 → spec_run l1 os rs l2 → spec_run l (o :: os) (r :: rs) l2.

(** a stack is a list.  Starting from a new stack, every sequence of
    insertions, deletions, reads and writes, with allocations that succeed or
    fail, stays inside the array, keeps it well formed and returns what the same
    sequence returns on a list; an insertion that cannot get memory returns 0 and
    changes nothing. *)
Theorem stack_refines_list junk c os :
  ∃ s0 rs s, sk_new true c = Some s0 ∧ run junk s0 os = Some (rs, s) ∧ stack_ok s ∧
             spec_run [] os rs (contents s).
Proof.
  eexists. assert (∀ s, stack_ok s → ∃ rs s', run junk s os = Some (rs, s') ∧ stack_ok s' ∧
    spec_run (contents s) os rs (contents s')) as H.
  { induction os as [|[ok o] os IH]; intros s Hs; cbn [run].
    - exists [], s. split_and!; [done|done|constructor].
    - destruct (step_refines ok junk s o Hs) as (r & s1 & -> & Hs1 & H1).
      destruct (IH s1 Hs1) as (rs & s2 & -> & Hs2 & H2). exists (r :: rs), s2. split_and!; [done|done|].
      by econstructor. }
  destruct (H (Stk 0 (replicate (Z.to_nat MIN_NODES) NULL) false MIN_NODES c)) as (rs & s & E & Hs & Hr).
  { unfold stack_ok, MIN_NODES. cbn [num data num_alloc]; vm_compute; intuition congruence. }
  exists rs, s. split_and!; [done|done|done|exact Hr].
Qed.

(** ** Search *)

(** What a comparison callback promises: a total preorder. *)
Class CmpFn (cmp : Z → Z → Z) : Prop := {
  cmp_opp a b : cmp a b < 0 ↔ 0 < cmp b a;
  cmp_trans a b c : cmp a b ≤ 0 → cmp b c ≤ 0 → cmp a c ≤ 0 }.

Definition in_order (cmp : Z → Z → Z) (l : list Z) : Prop := StronglySorted (λ a b, cmp a b ≤ 0) l.

(** What [qsort] promises. *)
Class QSort (qsort : (Z → Z → Z) → list Z → list Z) : Prop := {
  qsort_perm cmp l : qsort cmp l ≡ₚ l;
  qsort_sorted cmp l : CmpFn cmp → in_order cmp (qsort cmp l) }.

Section bsearch.
Context (cmp : Z → Z → Z) `{!CmpFn cmp} (key : Z) (base : list Z) (size : nat).
Hypothesis (Hbase : in_order cmp (take size base)).
Hypothesis (Hsize : (size ≤ length base)%nat).
Abbreviation f k := (cmp key (getb base k)).
Abbreviation n := (Z.of_nat size).

Lemma in_order_get j k : 0 ≤ j → j < k → k < n → cmp (getb base j) (getb base k) ≤ 0.
Proof.
  intros Hj Hjk Hk. rewrite <- (getb_take base size j), <- (getb_take base size k) by lia. unfold getb, nthZ.
  destruct (lookup_lt_is_Some_2 (take size base) (Z.to_nat j)) as [a Ha]; [len|].
  destruct (lookup_lt_is_Some_2 (take size base) (Z.to_nat k)) as [b Hb]; [len|].
  rewrite !nth_lookup, Ha, Hb. cbn. pose proof Hbase as H. rewrite <- (take_drop (Z.to_nat k) (take size base)) in H.
  refine (StronglySorted_app_1_elem_of _ _ _ _ _ H _ _).
  - apply (list_elem_of_lookup_2 _ (Z.to_nat j)). rewrite lookup_take_lt by lia. done.
  - apply (list_elem_of_lookup_2 _ 0%nat). by rewrite lookup_drop, Nat.add_0_r.
Qed.

Lemma less_up j k : 0 ≤ j → j ≤ k → k < n → f j < 0 → f k < 0.
Proof.
  intros Hj Hjk Hk H. destruct (Z.eq_dec j k) as [<-|]; [done|].
  destruct (Z.lt_ge_cases (f k) 0) as [|Hge]; [done|].
  assert (cmp (getb base k) key ≤ 0) by (destruct (Z.lt_ge_cases 0 (cmp (getb base k) key)) as [?%cmp_opp|]; lia).
  pose proof (cmp_trans _ _ _ (in_order_get j k Hj ltac:(lia) Hk) H0). apply cmp_opp in H. lia.
Qed.

Lemma greater_down j k : 0 ≤ j → j ≤ k → k < n → 0 < f k → 0 < f j.
Proof.
  intros Hj Hjk Hk H. destruct (Z.eq_dec j k) as [<-|]; [done|].
  destruct (Z.lt_ge_cases 0 (f j)) as [|Hge]; [done|].
  pose proof (cmp_trans _ _ _ Hge (in_order_get j k Hj ltac:(lia) Hk)). lia.
Qed.

Lemma bsearch_loop_spec : ∀ fuel l h i c, 0 ≤ l ≤ h → h ≤ n → h - l ≤ Z.of_nat fuel →
  (∀ k, 0 ≤ k < l → 0 < f k) → (∀ k, h ≤ k < n → f k < 0) → l < h ∨ c ≠ 0 →
  let '(i', c') := bsearch_loop (cmp key) base fuel l h i c in
  (c' = 0 → 0 ≤ i' < n ∧ f i' = 0) ∧ (c' ≠ 0 → ∀ k, 0 ≤ k < n → f k ≠ 0).
Proof.
  induction fuel as [|fuel IH]; intros l h i c Hlh Hh Hf Hlo Hhi Hlt; cbn [bsearch_loop].
  { split; [lia|]. intros _ k Hk. pose proof (Hlo k). pose proof (Hhi k). lia. }
  destruct (Z.ltb_spec l h) as [Hl|Hl].
  2: { split; [lia|]. intros _ k Hk. pose proof (Hlo k). pose proof (Hhi k). lia. }
  set (m := (l + h) `div` 2). assert (l ≤ m < h) as Hm.
  { unfold m. split; [apply Z.div_le_lower_bound; lia|apply Z.div_lt_upper_bound; lia]. }
  destruct (Z.ltb_spec (f m) 0) as [Hneg|Hnn]; [|destruct (Z.ltb_spec 0 (f m)) as [Hpos|Hz]].
  - apply IH; [lia..|done| |lia]. intros k Hk. apply (less_up m k); (done || lia).
  - apply IH; [lia..| |done|lia]. intros k Hk. apply (greater_down k m); (done || lia).
  - split; [lia|]. lia.
Qed.

Lemma back_loop_spec : ∀ i : nat, Z.of_nat i < n → f (Z.of_nat i) = 0 →
  let r := back_loop (cmp key) base i in
  (r ≤ i)%nat ∧ f (Z.of_nat r) = 0 ∧ ∀ k, 0 ≤ k < Z.of_nat r → 0 < f k.
Proof.
  induction i as [|i IH]; intros Hi Hf; cbn [back_loop]; [split_and!; [done|done|lia]|].
  destruct (Z.eqb_spec (f (Z.of_nat i)) 0) as [Hz|Hnz].
  - destruct (IH ltac:(lia) Hz) as (? & ? & ?). split_and!; [lia|done|done].
  - split_and!; [done|done|]. intros k Hk. apply (greater_down k (Z.of_nat i)); [lia..|].
    destruct (Z.lt_trichotomy (f (Z.of_nat i)) 0) as [H|[H|H]]; [|done|done].
    pose proof (less_up (Z.of_nat i) (Z.of_nat (S i)) ltac:(lia) ltac:(lia) Hi H). lia.
Qed.

(** The search for the first match. *)
Lemma bsearch_first : match OBJ_bsearch_ex_ (cmp key) base n OBJ_BSEARCH_FIRST_VALUE_ON_MATCH with
  | None => ∀ k, 0 ≤ k < n → f k ≠ 0
  | Some r => 0 ≤ r < n ∧ f r = 0 ∧ ∀ k, 0 ≤ k < r → 0 < f k
  end.
Proof.
  unfold OBJ_bsearch_ex_. destruct (Z.eqb_spec n 0) as [|Hn0]; [lia|].
  pose proof (bsearch_loop_spec (Z.to_nat n) 0 n 0 0 ltac:(lia) ltac:(lia) ltac:(lia) ltac:(lia) ltac:(lia) ltac:(lia)) as H.
  destruct (bsearch_loop _ _ _ _ _ _ _) as [i c]. destruct H as [Hz Hnz].
  change (Z.land OBJ_BSEARCH_FIRST_VALUE_ON_MATCH OBJ_BSEARCH_VALUE_ON_NOMATCH =? 0) with true.
  change (Z.land OBJ_BSEARCH_FIRST_VALUE_ON_MATCH OBJ_BSEARCH_FIRST_VALUE_ON_MATCH =? 0) with false.
  destruct (Z.eqb_spec c 0) as [Hc|Hc]; cbn [negb andb]; [|auto].
  destruct (Hz Hc) as [Hi Hfi]. destruct (back_loop_spec (Z.to_nat i)) as (H1 & H2 & H3); [lia| |].
  { by rewrite Z2Nat.id by lia. }
  split_and!; [lia|lia|done|done].
Qed.
End bsearch.

(** The flag is right: a stack marked sorted is in order. *)
Definition sorted_ok (compare : nat → Z → Z → Z) (s : STACK) : Prop :=
  ∀ c, sorted s = true → comp s = Some c → in_order (compare c) (contents s).

Lemma sort_spec compare qsort `{!QSort qsort} s c : stack_ok s → sorted_ok compare s → comp s = Some c →
  CmpFn (compare c) →
  ∃ s', sk_sort compare qsort (Some s) = Some s' ∧ stack_ok s' ∧ num s' = num s ∧ comp s' = Some c ∧ sorted s' = true ∧
        contents s' ≡ₚ contents s ∧ in_order (compare c) (contents s').
Proof.
  intros Hs Hf Hc Hcmp. unfold sk_sort. rewrite Hc. destruct (sorted s) eqn:Es.
  { exists s. split_and!; try done. by apply Hf. }
  fold (contents s). set (q := qsort (compare c) (contents s)).
  assert (q ≡ₚ contents s) as Hq by apply qsort_perm.
  assert (length q = length (contents s)) as Hlq by (by rewrite Hq).
  pose proof (length_contents s Hs) as Hlc. pose proof Hs as (? & ? & ?).
  assert (splice (data s) 0 q = q ++ drop (Z.to_nat (num s)) (data s)) as E.
  { unfold splice. rewrite take_0. cbn [app]. do 2 f_equal. lia. }
  eexists. split; [done|].
  assert (contents (Stk (num s) (splice (data s) 0 q) true (num_alloc s) (Some c)) = q) as Ec.
  { unfold contents. cbn [num data]. rewrite E. apply take_app_exact. lia. }
  split_and!; try done.
  - unfold stack_ok. cbn [num data num_alloc]. rewrite length_splice by lia. lia.
  - by rewrite Ec.
  - rewrite Ec. by apply qsort_sorted.
Qed.

(** searching.  On a stack with a comparison that is a total preorder and a
    truthful [sorted] flag, [sk_find] sorts the elements (it permutes them), and
    returns the index of the first element equal to the key, or -1 exactly when no
    element is equal to it. *)
Theorem sk_find_correct compare qsort `{!QSort qsort} s c x :
  stack_ok s → sorted_ok compare s → comp s = Some c → CmpFn (compare c) → x ≠ NULL →
  ∃ r s', sk_find compare qsort (Some s) x = (r, Some s') ∧ stack_ok s' ∧ sorted_ok compare s' ∧
    contents s' ≡ₚ contents s ∧
    ((r = -1 ∧ ∀ y, y ∈ contents s → compare c x y ≠ 0) ∨
     (0 ≤ r < num s ∧ compare c x (getb (contents s') r) = 0 ∧
      ∀ k, 0 ≤ k < r → 0 < compare c x (getb (contents s') k))).
Proof.
  intros Hs Hf Hc Hcmp Hx. unfold sk_find, internal_find. rewrite Hc.
  destruct (sort_spec compare qsort s c Hs Hf Hc Hcmp) as (s' & -> & Hs' & En & Ec' & Es & Hp & Ho).
  rewrite (proj2 (Z.eqb_neq x NULL)) by done.
  assert (sorted_ok compare s') as Hso by (intros c' _ ?; congruence).
  pose proof (length_contents s' Hs') as Hl. pose proof Hs' as (Hn' & _ & Hd').
  pose proof (bsearch_first (compare c) x (data s') (Z.to_nat (num s')) Ho ltac:(lia)) as H.
  rewrite Z2Nat.id in H by lia.
  assert (∀ k, 0 ≤ k < num s' → getb (contents s') k = getb (data s') k) as Hg.
  { intros k Hk. apply getb_take. lia. }
  destruct (OBJ_bsearch_ex_ _ _ _ _) as [r|]; eexists _, s'; (split_and!; [done|done|done|done|]).
  - right. destruct H as (Hr & Hz & Hk). split_and!; [lia|lia|by rewrite Hg|].
    intros k Hkr. rewrite Hg by lia. by apply Hk.
  - left. split; [done|]. intros y Hy. rewrite <- Hp in Hy. apply list_elem_of_lookup in Hy as (k & Hk).
    pose proof (lookup_lt_Some _ _ _ Hk). specialize (H (Z.of_nat k) ltac:(lia)).
    rewrite <- Hg in H by lia. unfold getb in H. rewrite Nat2Z.id, (nthZ_lookup _ _ _ Hk) in H. done.
Qed.

(** A sort and a comparison for concrete runs. *)
Definition merge_qsort (cmp : Z → Z → Z) (l : list Z) : list Z :=
  @merge_sort Z (λ a b, cmp a b ≤ 0) (λ a b, decide (cmp a b ≤ 0)) l.

#[global] Instance merge_qsort_ok : QSort merge_qsort.
Proof.
  split; intros; unfold merge_qsort.
  - apply merge_sort_Permutation.
  - apply StronglySorted_merge_sort.
    + intros a b d. apply cmp_trans.
    + intros a b. destruct (Z.lt_ge_cases 0 (cmp a b)) as [?%cmp_opp|]; [right|left]; lia.
Qed.

#[global] Instance sub_cmp : CmpFn (λ a b, a - b).
Proof. split; intros; lia. Qed.

Lemma sk_find_correct_witness :
  let s := Stk 3 [5; 2; 9; 0] false 4 (Some 0%nat) in
  ∃ r s', sk_find (λ _ a b, a - b) merge_qsort (Some s) 9 = (r, Some s') ∧ stack_ok s' ∧
    sorted_ok (λ _ a b, a - b) s' ∧ contents s' ≡ₚ contents s ∧
    ((r = -1 ∧ ∀ y, y ∈ contents s → 9 - y ≠ 0) ∨
     (0 ≤ r < 3 ∧ 9 - getb (contents s') r = 0 ∧ ∀ k, 0 ≤ k < r → 0 < 9 - getb (contents s') k)).
Proof.
  apply (sk_find_correct (λ _ a b, a - b) merge_qsort (Stk 3 [5; 2; 9; 0] false 4 (Some 0%nat)) 0 9).
  - unfold stack_ok, MIN_NODES. cbn. lia.
  - intros c H. done.
  - done.
  - apply sub_cmp.
  - done.
Defined.

(** [sk_set] does not clear the [sorted] flag: after it the search can miss an
    element that the stack holds. *)
Theorem sk_set_keeps_sorted qsort :
  let s := Stk 3 [1; 3; 5; 0] true 4 (Some 0%nat) in
  let s' := Stk 3 [9; 3; 5; 0] true 4 (Some 0%nat) in
  sk_set (Some s) 0 9 = (9, Some s') ∧ 9 ∈ contents s' ∧
  sk_find (λ _ a b, a - b) qsort (Some s') 9 = (-1, Some s').
Proof. split; [done|]. split; [by left|]. vm_compute. done. Qed.
