(* ===== verification/Buffer.v ===== *)
(** * Growing buffers

    Models [crypto/buffer/buffer.c].  A [BUF_MEM] has an allocated array [buf_data]
    ([NULL] is the empty array) of [buf_max] bytes, of which the first [buf_length]
    are in use.  Memory comes from [malloc], a parameter: it fails or yields an
    array of the size asked for with arbitrary contents.

    The theorems show that growing keeps the bytes in use, that the bytes it adds
    are zero, that a failure changes nothing, and that the sizes the code computes
    fit the C type [int]. *)

From S2P Require Import Prelude.

Record BUF_MEM := mkBUF { buf_length : Z; buf_data : list Z; buf_max : Z }.

Definition LIMIT_BEFORE_EXPANSION : Z := 0x5ffffffc.

(** [memset(&data[off], 0, n)] *)
Definition memset0 (data : list Z) (off n : Z) : list Z :=
  splice data (Z.to_nat off) (replicate (Z.to_nat n) 0).

(** The conversion of a [size_t] to the [int] that is returned. *)
Definition size_to_int (z : Z) : Z := (z + 2 ^ 31) `mod` 2 ^ 32 - 2 ^ 31.

Section buffer.
Context (malloc : nat → option (list Z)).

Definition BUF_MEM_new : BUF_MEM := mkBUF 0 [] 0.

(** [realloc] keeps what fits of the old array. *)
Definition realloc (data : list Z) (n : Z) : option (list Z) :=
  match malloc (Z.to_nat n) with
  | None => None
  | Some m => Some (splice m 0 (take (Z.to_nat n) data))
  end.

Definition BUF_MEM_grow (str : BUF_MEM) (len : Z) : Z * BUF_MEM :=
  if len <=? buf_length str then
    (size_to_int len, mkBUF len (buf_data str) (buf_max str))
  else if len <=? buf_max str then
    (size_to_int len,
     mkBUF len (memset0 (buf_data str) (buf_length str) (len - buf_length str)) (buf_max str))
  else if LIMIT_BEFORE_EXPANSION <? len then (0, str)
  else
    let n := (len + 3) / 3 * 4 in
    match realloc (buf_data str) n with
    | None => (0, str)
    | Some d =>
        (size_to_int len, mkBUF len (memset0 d (buf_length str) (len - buf_length str)) n)
    end.

Definition BUF_MEM_grow_clean (str : BUF_MEM) (len : Z) : Z * BUF_MEM :=
  if len <=? buf_length str then
    (size_to_int len,
     mkBUF len (memset0 (buf_data str) len (buf_length str - len)) (buf_max str))
  else if len <=? buf_max str then
    (size_to_int len,
     mkBUF len (memset0 (buf_data str) (buf_length str) (len - buf_length str)) (buf_max str))
  else if LIMIT_BEFORE_EXPANSION <? len then (0, str)
  else
    let n := (len + 3) / 3 * 4 in
    match malloc (Z.to_nat n) with
    | None => (0, str)
    | Some m =>
        let d := splice m 0 (take (Z.to_nat (buf_max str)) (buf_data str)) in
        (size_to_int len, mkBUF len (memset0 d (buf_length str) (len - buf_length str)) n)
    end.
End buffer.

(** The loop of [BUF_reverse] into another buffer: [q] is the index [out] points at. *)
Fixpoint reverse_copy (out : list Z) (q : Z) (inp : list Z) (n : nat) : list Z :=
  match n with
  | O => out
  | S n' => reverse_copy (setb out q (getb inp 0)) (q - 1) (drop 1 inp) n'
  end.

(** The loop in place: [p] and [q] are the indices [out] and [q] point at. *)
Fixpoint reverse_swap (buf : list Z) (p q : Z) (n : nat) : list Z :=
  match n with
  | O => buf
  | S n' =>
      let c := getb buf q in
      let buf := setb buf q (getb buf p) in
      reverse_swap (setb buf p c) (p + 1) (q - 1) n'
  end.

(** [inp] is [None] for [NULL]. *)
Definition BUF_reverse (out : list Z) (inp : option (list Z)) (size : Z) : list Z :=
  match inp with
  | Some i => reverse_copy out (size - 1) i (Z.to_nat size)
  | None => reverse_swap out 0 (size - 1) (Z.to_nat (size / 2))
  end.

(** ** Growing *)

Definition buf_used (b : BUF_MEM) : list Z := take (Z.to_nat (buf_length b)) (buf_data b).

Definition buf_wf (b : BUF_MEM) : Prop :=
  0 ≤ buf_length b ≤ buf_max b ∧ buf_max b = Z.of_nat (length (buf_data b)) ∧
  buf_max b < 2 ^ 31 ∧ bytes (buf_data b).

(** What [malloc] promises. *)
Definition malloc_spec (malloc : nat → option (list Z)) : Prop :=
  ∀ n m, malloc n = Some m → length m = n ∧ bytes m.

(** What growing to [len] bytes does to the bytes in use. *)
Definition resized (old : list Z) (len : Z) : list Z :=
  take (Z.to_nat len) old ++ replicate (Z.to_nat len - length old) 0.

Lemma size_to_int_small z : 0 ≤ z < 2 ^ 31 → size_to_int z = z.
Proof. intros. unfold size_to_int. rewrite Z.mod_small; lia. Qed.

Lemma expansion_bounds len : 0 ≤ len ≤ LIMIT_BEFORE_EXPANSION →
  len ≤ (len + 3) / 3 * 4 < 2 ^ 31.
Proof.
  unfold LIMIT_BEFORE_EXPANSION. intros. pose proof (Z.div_mod (len + 3) 3 ltac:(lia)).
  pose proof (Z.mod_pos_bound (len + 3) 3 ltac:(lia)). lia.
Qed.

Lemma length_memset0 d off n : 0 ≤ off → 0 ≤ n → off + n ≤ Z.of_nat (length d) →
  length (memset0 d off n) = length d.
Proof. intros. unfold memset0. apply length_splice. len. Qed.

Lemma bytes_memset0 d off n : bytes d → bytes (memset0 d off n).
Proof. unfold memset0. auto with vtls. Qed.
#[export] Hint Resolve bytes_memset0 : vtls.

Lemma length_resized old len : 0 ≤ len → length (resized old len) = Z.to_nat len.
Proof. intros. unfold resized. len. Qed.

(** The bytes in use after [memset] has cleared those that are new. *)
Lemma take_memset0 d l len : 0 ≤ l ≤ len → len ≤ Z.of_nat (length d) →
  take (Z.to_nat len) (memset0 d l (len - l)) = resized (take (Z.to_nat l) d) len.
Proof.
  intros. unfold memset0, resized, splice.
  rewrite app_assoc, take_app_exact by len. rewrite take_take.
  replace (Z.to_nat len `min` Z.to_nat l)%nat with (Z.to_nat l) by lia.
  do 2 f_equal. len.
Qed.

Lemma take_memset0_below d l n k : (k ≤ Z.to_nat l)%nat → 0 ≤ l ≤ Z.of_nat (length d) →
  take k (memset0 d l n) = take k d.
Proof.
  intros. unfold memset0, splice. rewrite take_app_le by len.
  rewrite take_take. f_equal. lia.
Qed.

Lemma resized_shrink d l len : 0 ≤ len ≤ l → l ≤ Z.of_nat (length d) →
  resized (take (Z.to_nat l) d) len = take (Z.to_nat len) d.
Proof.
  intros. unfold resized. rewrite take_take.
  replace (Z.to_nat len - length (take (Z.to_nat l) d))%nat with 0%nat by len.
  rewrite app_nil_r. f_equal. lia.
Qed.

(** The result of growing: [Some] of the new buffer's properties. *)
Definition grown (b b' : BUF_MEM) (len : Z) : Prop :=
  buf_wf b' ∧ buf_length b' = len ∧ buf_used b' = resized (buf_used b) len.

Section growing.
Context (malloc : nat → option (list Z)).
Context (Hmalloc : malloc_spec malloc).

Lemma grown_in_place b len : buf_wf b → buf_length b ≤ len ≤ buf_max b →
  grown b (mkBUF len (memset0 (buf_data b) (buf_length b) (len - buf_length b)) (buf_max b)) len.
Proof.
  intros (Hl & Hm & Hi & Hb) H. split; [|split; [done|]].
  - split; [cbn; lia|]. cbn [buf_data buf_max]. rewrite length_memset0 by lia. auto with vtls.
  - unfold buf_used. cbn [buf_data buf_length]. by apply take_memset0; lia.
Qed.

Lemma grown_moved b len m : buf_wf b → buf_max b < len ≤ LIMIT_BEFORE_EXPANSION →
  malloc (Z.to_nat ((len + 3) / 3 * 4)) = Some m →
  grown b (mkBUF len (memset0 (splice m 0 (buf_data b)) (buf_length b) (len - buf_length b))
             ((len + 3) / 3 * 4)) len.
Proof.
  intros (Hl & Hm & Hi & Hb) H [Hlm Hbm]%Hmalloc.
  pose proof (expansion_bounds len ltac:(lia)) as He.
  assert (length (splice m 0 (buf_data b)) = length m) as Hs by (apply length_splice; lia).
  split; [|split; [done|]].
  - split; [cbn; lia|]. cbn [buf_data buf_max]. rewrite length_memset0 by lia.
    rewrite Hs. split; [lia|]. split; [lia|]. auto with vtls.
  - unfold buf_used. cbn [buf_data buf_length]. rewrite take_memset0 by lia.
    f_equal. unfold splice. cbn [app take]. rewrite take_0. cbn [app]. apply take_app_le. lia.
Qed.

Lemma grown_shrink b b' len : buf_wf b → 0 ≤ len ≤ buf_length b → buf_wf b' → buf_length b' = len →
  take (Z.to_nat len) (buf_data b') = take (Z.to_nat len) (buf_data b) → grown b b' len.
Proof.
  intros (Hl & Hm & Hi & Hb) H Hw E Ht. split; [done|]. split; [done|].
  unfold buf_used. rewrite E, Ht, resized_shrink by lia. done.
Qed.

(** What the growing functions promise: the requested length, the old bytes and
    zeros, or no change. *)
Definition grow_spec (b : BUF_MEM) (len : Z) (r : Z * BUF_MEM) : Prop :=
  (r.1 = len ∧ grown b r.2 len) ∨
  (r = (0, b) ∧ buf_max b < len ∧
   (LIMIT_BEFORE_EXPANSION < len ∨ malloc (Z.to_nat ((len + 3) / 3 * 4)) = None)).

Lemma BUF_MEM_grow_ok b len : buf_wf b → 0 ≤ len → grow_spec b len (BUF_MEM_grow malloc b len).
Proof.
  intros Hw H0. pose proof Hw as (Hl & Hm & Hi & Hb). unfold BUF_MEM_grow, grow_spec, realloc.
  destruct (Z.leb_spec len (buf_length b)).
  { left. split; [apply size_to_int_small; lia|]. apply grown_shrink; try done; try lia.
    split; [cbn; lia|]. done. }
  destruct (Z.leb_spec len (buf_max b)).
  { left. split; [apply size_to_int_small; lia|]. apply grown_in_place; [done|lia]. }
  destruct (Z.ltb_spec LIMIT_BEFORE_EXPANSION len); [right; auto|].
  pose proof (expansion_bounds len ltac:(lia)) as He.
  destruct (malloc _) as [m|] eqn:E; [|right; auto].
  left. split; [apply size_to_int_small; lia|]. rewrite take_ge by lia.
  by apply grown_moved.
Qed.

Lemma BUF_MEM_grow_clean_ok b len : buf_wf b → 0 ≤ len →
  grow_spec b len (BUF_MEM_grow_clean malloc b len).
Proof.
  intros Hw H0. pose proof Hw as (Hl & Hm & Hi & Hb). unfold BUF_MEM_grow_clean, grow_spec.
  destruct (Z.leb_spec len (buf_length b)).
  { left. split; [apply size_to_int_small; lia|]. apply grown_shrink; try done; try lia.
    - split; [cbn; lia|]. cbn [snd buf_data buf_max]. rewrite length_memset0 by lia. auto with vtls.
    - cbn. apply take_memset0_below; lia. }
  destruct (Z.leb_spec len (buf_max b)).
  { left. split; [apply size_to_int_small; lia|]. apply grown_in_place; [done|lia]. }
  destruct (Z.ltb_spec LIMIT_BEFORE_EXPANSION len); [right; auto|].
  pose proof (expansion_bounds len ltac:(lia)) as He.
  destruct (malloc _) as [m|] eqn:E; [|right; auto].
  left. split; [apply size_to_int_small; lia|]. rewrite take_ge by lia.
  by apply grown_moved.
Qed.

(** Shrinking with [BUF_MEM_grow_clean] leaves nothing of the bytes that are no
    longer in use. *)
Lemma grow_clean_clears b len : buf_wf b → 0 ≤ len ≤ buf_length b →
  take (Z.to_nat (buf_length b)) (buf_data (BUF_MEM_grow_clean malloc b len).2) =
  take (Z.to_nat len) (buf_data b) ++ replicate (Z.to_nat (buf_length b - len)) 0.
Proof.
  intros (Hl & Hm & Hi & Hb) H. unfold BUF_MEM_grow_clean.
  rewrite (proj2 (Z.leb_le _ _)) by lia. cbn [snd buf_data].
  unfold memset0, splice. rewrite app_assoc. apply take_app_exact. len.
Qed.
End growing.

(** C40: Growing a well-formed buffer, with or without cleaning, either returns the length asked
    for and leaves a well-formed buffer of that length that holds the old bytes followed by zeros,
    or returns 0 and leaves the buffer as it was; it fails only when the array is too small and
    the size is above the limit or memory runs out, and no size leaves the range of [int]. *)
Theorem BUF_MEM_grow_correct malloc b len : malloc_spec malloc → buf_wf b → 0 ≤ len →
  grow_spec malloc b len (BUF_MEM_grow malloc b len) ∧
  grow_spec malloc b len (BUF_MEM_grow_clean malloc b len).
Proof. intros. split; [by apply BUF_MEM_grow_ok|by apply BUF_MEM_grow_clean_ok]. Qed.

(** An allocator that hands out arrays of ones. *)
Definition ones (n : nat) : option (list Z) := Some (replicate n 1).

Lemma ones_ok : malloc_spec ones.
Proof.
  intros n m [= <-]. split; [len|]. apply Forall_replicate. unfold is_byte. lia.
Qed.

Lemma BUF_MEM_grow_correct_witness :
  BUF_MEM_grow_clean ones (mkBUF 2 [7; 8] 2) 4 = (4, mkBUF 4 [7; 8; 0; 0; 1; 1; 1; 1] 8) ∧
  grow_spec ones (mkBUF 2 [7; 8] 2) 4 (BUF_MEM_grow_clean ones (mkBUF 2 [7; 8] 2) 4).
Proof.
  split; [vm_compute; reflexivity|].
  apply (BUF_MEM_grow_correct ones (mkBUF 2 [7; 8] 2) 4 ones_ok); [|lia].
  split; [cbn; lia|]. split; [done|]. split; [cbn; lia|]. repeat constructor; cbn; lia.
Defined.

(** Growing an empty buffer to no bytes reports 0, the value of a failure. *)
Lemma BUF_MEM_grow_zero : BUF_MEM_grow ones BUF_MEM_new 0 = (0, BUF_MEM_new).
Proof. reflexivity. Qed.

(** ** Reversing *)

Lemma setb_take_below l q v k : Z.of_nat k ≤ q → take k (setb l q v) = take k l.
Proof. intros. unfold setb. apply take_insert_ge. lia. Qed.

Lemma reverse_copy_spec n : ∀ out q inp, q = Z.of_nat n - 1 →
  (n ≤ length out)%nat → (n ≤ length inp)%nat →
  reverse_copy out q inp n = reverse (take n inp) ++ drop n out.
Proof.
  induction n as [|n IH]; intros out q inp -> Ho Hi; [done|].
  destruct inp as [|x inp]; [cbn in Hi; lia|]. cbn [reverse_copy].
  change (drop 1 (x :: inp)) with (drop 0 inp). rewrite drop_0.
  cbn in Hi. rewrite IH by (len || lia). change (take (S n) (x :: inp)) with (x :: take n inp).
  rewrite reverse_cons, <- app_assoc. f_equal. unfold setb, getb, nthZ. cbn [nth Z.to_nat].
  replace (Z.to_nat (Z.of_nat (S n) - 1)) with n by lia.
  rewrite (drop_S (<[n:=x]> out) x n) by (apply list_lookup_insert_eq; lia).
 
  rewrite drop_insert_lt by lia. done.
Qed.

Lemma getb_swap l i j k : 0 ≤ i < Z.of_nat (length l) → 0 ≤ j < Z.of_nat (length l) → 0 ≤ k →
  getb (setb (setb l j (getb l i)) i (getb l j)) k =
  getb l (if decide (k = i) then j else if decide (k = j) then i else k).
Proof.
  intros. rewrite getb_setb by len. rewrite getb_setb by lia.
  repeat case_decide; congruence.
Qed.

Lemma reverse_swap_spec n : ∀ buf p q k, 0 ≤ p → p + 2 * Z.of_nat n ≤ q + 1 →
  q < Z.of_nat (length buf) → 0 ≤ k →
  length (reverse_swap buf p q n) = length buf ∧
  getb (reverse_swap buf p q n) k =
  getb buf (if decide (p ≤ k < p + Z.of_nat n ∨ q - Z.of_nat n < k ≤ q) then p + q - k else k).
Proof.
  induction n as [|n IH]; intros buf p q k Hp Hq Hl Hk; cbn [reverse_swap].
  { split; [done|]. rewrite decide_False by lia. done. }
  destruct (IH (setb (setb buf q (getb buf p)) p (getb buf q)) (p + 1) (q - 1) k) as [E1 E2];
    [lia..|len|lia|].
  split; [by rewrite E1; len|]. rewrite E2, getb_swap by (lia || (case_decide; lia)).
  f_equal. repeat case_decide; lia.
Qed.

(** [BUF_reverse] writes the first [size] bytes of the source, or of the buffer itself when the
    source is [NULL], in reverse order and leaves the rest. *)
Lemma BUF_reverse_spec out inp size :
  0 ≤ size ≤ Z.of_nat (length out) →
  match inp with Some i => size ≤ Z.of_nat (length i) | None => True end →
  BUF_reverse out inp size =
  reverse (take (Z.to_nat size) (default out inp)) ++ drop (Z.to_nat size) out.
Proof.
  intros Hs Hi. destruct inp as [i|]; cbn [BUF_reverse default from_option id].
  { apply reverse_copy_spec; lia. }
  assert (2 * (size / 2) ≤ size < 2 * (size / 2) + 2) as Hd.
  { pose proof (Z.div_mod size 2 ltac:(lia)). pose proof (Z.mod_pos_bound size 2). lia. }
  destruct (reverse_swap_spec (Z.to_nat (size / 2)) out 0 (size - 1) 0) as [El _]; [lia..|].
  apply list_eq_getb; [rewrite El; len|]. intros k Hk. rewrite El in Hk.
  destruct (reverse_swap_spec (Z.to_nat (size / 2)) out 0 (size - 1) k) as [_ ->]; [lia..|].
  destruct (decide (k < size)).
  - rewrite getb_app_l by len. unfold getb, nthZ. rewrite !nth_lookup.
    rewrite reverse_lookup by len. rewrite length_take, lookup_take_lt by lia.
    do 2 f_equal. case_decide; lia.
  - rewrite getb_app_r by len. rewrite length_reverse, length_take, getb_drop by lia.
    f_equal. case_decide; lia.
Qed.
