(* ===== verification/Utf8.v ===== *)
(** * UTF-8

    Models [UTF8_getc] and [UTF8_putc] of [crypto/asn1/a_utf8.c], which read and
    write one character of up to 31 bits.  The specification is the encoding
    [utf8_enc] by quotients and remainders: the reader accepts exactly the
    encodings, so every character has one representation. *)

From S2P Require Import Prelude.

(** The continuation test [(p[i] & 0xc0) != 0x80]. *)
Definition not_cont (str : list Z) (i : nat) : bool := negb (Z.land (nthZ str i) 0xc0 =? 0x80).

(** The return value and what is stored in [val]. *)
Definition UTF8_getc (str : list Z) (len : Z) : Z * option Z :=
  let p := nthZ str in
  if len <=? 0 then (0, None)
  else if Z.land (p 0%nat) 0x80 =? 0 then (1, Some (Z.land (p 0%nat) 0x7f))
  else if Z.land (p 0%nat) 0xe0 =? 0xc0 then
    if len <? 2 then (-1, None)
    else if not_cont str 1 then (-3, None)
    else
      let value := Z.land (p 0%nat) 0x1f ≪ 6 in
      let value := Z.lor value (Z.land (p 1%nat) 0x3f) in
      if value <? 0x80 then (-4, None) else (2, Some value)
  else if Z.land (p 0%nat) 0xf0 =? 0xe0 then
    if len <? 3 then (-1, None)
    else if not_cont str 1 || not_cont str 2 then (-3, None)
    else
      let value := Z.land (p 0%nat) 0xf ≪ 12 in
      let value := Z.lor value (Z.land (p 1%nat) 0x3f ≪ 6) in
      let value := Z.lor value (Z.land (p 2%nat) 0x3f) in
      if value <? 0x800 then (-4, None) else (3, Some value)
  else if Z.land (p 0%nat) 0xf8 =? 0xf0 then
    if len <? 4 then (-1, None)
    else if not_cont str 1 || not_cont str 2 || not_cont str 3 then (-3, None)
    else
      let value := Z.land (p 0%nat) 0x7 ≪ 18 in
      let value := Z.lor value (Z.land (p 1%nat) 0x3f ≪ 12) in
      let value := Z.lor value (Z.land (p 2%nat) 0x3f ≪ 6) in
      let value := Z.lor value (Z.land (p 3%nat) 0x3f) in
      if value <? 0x10000 then (-4, None) else (4, Some value)
  else if Z.land (p 0%nat) 0xfc =? 0xf8 then
    if len <? 5 then (-1, None)
    else if not_cont str 1 || not_cont str 2 || not_cont str 3 || not_cont str 4 then (-3, None)
    else
      let value := Z.land (p 0%nat) 0x3 ≪ 24 in
      let value := Z.lor value (Z.land (p 1%nat) 0x3f ≪ 18) in
      let value := Z.lor value (Z.land (p 2%nat) 0x3f ≪ 12) in
      let value := Z.lor value (Z.land (p 3%nat) 0x3f ≪ 6) in
      let value := Z.lor value (Z.land (p 4%nat) 0x3f) in
      if value <? 0x200000 then (-4, None) else (5, Some value)
  else if Z.land (p 0%nat) 0xfe =? 0xfc then
    if len <? 6 then (-1, None)
    else if not_cont str 1 || not_cont str 2 || not_cont str 3 || not_cont str 4 || not_cont str 5
    then (-3, None)
    else
      let value := Z.land (p 0%nat) 0x1 ≪ 30 in
      let value := Z.lor value (Z.land (p 1%nat) 0x3f ≪ 24) in
      let value := Z.lor value (Z.land (p 2%nat) 0x3f ≪ 18) in
      let value := Z.lor value (Z.land (p 3%nat) 0x3f ≪ 12) in
      let value := Z.lor value (Z.land (p 4%nat) 0x3f ≪ 6) in
      let value := Z.lor value (Z.land (p 5%nat) 0x3f) in
      if value <? 0x4000000 then (-4, None) else (6, Some value)
  else (-2, None).

(** The first byte and the continuation bytes. *)
Definition lead (value shift mask tag : Z) : Z := u8 (Z.lor (Z.land (value ≫ shift) mask) tag).
Definition cont (value shift : Z) : Z := u8 (Z.lor (Z.land (value ≫ shift) 0x3f) 0x80).

(** [str] is the destination, [None] for a null pointer; the result is the return
    value and the bytes written at [str]. *)
Definition UTF8_putc (str : option (list Z)) (len value : Z) : Z * list Z :=
  let write bs := match str with Some _ => bs | None => [] end in
  let len := match str with Some _ => len | None => 6 end in
  if len <=? 0 then (-1, [])
  else if value <? 0x80 then (1, write [u8 value])
  else if value <? 0x800 then
    if len <? 2 then (-1, []) else (2, write [lead value 6 0x1f 0xc0; cont value 0])
  else if value <? 0x10000 then
    if len <? 3 then (-1, []) else (3, write [lead value 12 0xf 0xe0; cont value 6; cont value 0])
  else if value <? 0x200000 then
    if len <? 4 then (-1, [])
    else (4, write [lead value 18 0x7 0xf0; cont value 12; cont value 6; cont value 0])
  else if value <? 0x4000000 then
    if len <? 5 then (-1, [])
    else (5, write [lead value 24 0x3 0xf8; cont value 18; cont value 12; cont value 6; cont value 0])
  else
    if len <? 6 then (-1, [])
    else (6, write [lead value 30 0x1 0xfc; cont value 24; cont value 18; cont value 12; cont value 6;
                    cont value 0]).

(** ** The encoding *)

Definition utf8_cont (v s : Z) : Z := 0x80 + (v `div` s) `mod` 64.

Definition utf8_enc (v : Z) : list Z :=
  if v <? 0x80 then [v]
  else if v <? 0x800 then [0xc0 + v `div` 2 ^ 6; utf8_cont v 1]
  else if v <? 0x10000 then [0xe0 + v `div` 2 ^ 12; utf8_cont v (2 ^ 6); utf8_cont v 1]
  else if v <? 0x200000 then
    [0xf0 + v `div` 2 ^ 18; utf8_cont v (2 ^ 12); utf8_cont v (2 ^ 6); utf8_cont v 1]
  else if v <? 0x4000000 then
    [0xf8 + v `div` 2 ^ 24; utf8_cont v (2 ^ 18); utf8_cont v (2 ^ 12); utf8_cont v (2 ^ 6); utf8_cont v 1]
  else [0xfc + v `div` 2 ^ 30; utf8_cont v (2 ^ 24); utf8_cont v (2 ^ 18); utf8_cont v (2 ^ 12);
        utf8_cont v (2 ^ 6); utf8_cont v 1].

(** ** The writer *)

Lemma lor_tag x k t : 0 ≤ k → 0 ≤ x < 2 ^ k → Z.lor x (t * 2 ^ k) = t * 2 ^ k + x.
Proof. intros Hk Hx. rewrite Z.lor_comm, <- Z.shiftl_mul_pow2 by done. by rewrite lor_shiftl_add, Z.shiftl_mul_pow2. Qed.

(** The digit of a shifted value under a mask of [k] ones, with the tag above it. *)
Lemma tagged v s k t : 0 ≤ s → 0 ≤ k → 0 ≤ t → t * 2 ^ k + 2 ^ k ≤ 256 →
  u8 (Z.lor (Z.land (v ≫ s) (Z.ones k)) (t * 2 ^ k)) = t * 2 ^ k + (v `div` 2 ^ s) `mod` 2 ^ k.
Proof.
  intros Hs Hk Ht Hb. assert (0 < 2 ^ k) by (apply Z.pow_pos_nonneg; lia).
  rewrite Z.land_ones, Z.shiftr_div_pow2 by done.
  pose proof (Z.mod_pos_bound (v `div` 2 ^ s) (2 ^ k) ltac:(done)) as Hm.
  rewrite lor_tag by done. apply u8_id. unfold is_byte. nia.
Qed.

Lemma cont_spec v s : 0 ≤ s → cont v s = utf8_cont v (2 ^ s).
Proof. intros Hs. unfold cont, utf8_cont. apply (tagged v s 6 2); lia. Qed.

Lemma cont_spec_0 v : cont v 0 = utf8_cont v 1.
Proof. by apply (cont_spec v 0). Qed.

Lemma lead_spec v s k t m tag : m = Z.ones k → tag = t * 2 ^ k → 0 ≤ s → 0 ≤ k → 0 ≤ t → t * 2 ^ k + 2 ^ k ≤ 256 →
  0 ≤ v < 2 ^ (s + k) → lead v s m tag = tag + v `div` 2 ^ s.
Proof.
  intros -> -> Hs Hk Ht Hb Hv. unfold lead. rewrite tagged by done. f_equal. apply Z.mod_small.
  split; [apply Z.div_pos; [lia|apply Z.pow_pos_nonneg; lia]|].
  apply Z.div_lt_upper_bound; [apply Z.pow_pos_nonneg; lia|]. rewrite Z.pow_add_r in Hv by done. lia.
Qed.

Lemma putc_spec buf len v : 0 ≤ v < 2 ^ 31 → Z.of_nat (length (utf8_enc v)) ≤ len →
  UTF8_putc (Some buf) len v = (Z.of_nat (length (utf8_enc v)), utf8_enc v).
Proof.
  intros Hv Hlen. unfold UTF8_putc, utf8_enc in *. rewrite !cont_spec_0, !cont_spec by done.
  rewrite (proj2 (Z.leb_gt len 0)) by (revert Hlen; repeat case_match; cbn; lia).
  repeat match goal with |- context [v <? ?k] => destruct (Z.ltb_spec v k) end; cbn [length] in *;
    rewrite ?(proj2 (Z.ltb_ge len _)) by lia.
  - rewrite u8_id by (unfold is_byte; lia). done.
  - rewrite (lead_spec v 6 5 6) by (done || lia). done.
  - rewrite (lead_spec v 12 4 14) by (done || lia). done.
  - rewrite (lead_spec v 18 3 30) by (done || lia). done.
  - rewrite (lead_spec v 24 2 62) by (done || lia). done.
  - rewrite (lead_spec v 30 1 126) by (done || lia). done.
Qed.

(** ** The reader *)

Lemma lead_class b : is_byte b →
  (Z.land b 0x80 =? 0) = (b <? 0x80) ∧
  (Z.land b 0xe0 =? 0xc0) = ((0xc0 <=? b) && (b <? 0xe0)) ∧
  (Z.land b 0xf0 =? 0xe0) = ((0xe0 <=? b) && (b <? 0xf0)) ∧
  (Z.land b 0xf8 =? 0xf0) = ((0xf0 <=? b) && (b <? 0xf8)) ∧
  (Z.land b 0xfc =? 0xf8) = ((0xf8 <=? b) && (b <? 0xfc)) ∧
  (Z.land b 0xfe =? 0xfc) = ((0xfc <=? b) && (b <? 0xfe)) ∧
  (Z.land b 0xc0 =? 0x80) = ((0x80 <=? b) && (b <? 0xc0)).
Proof.
  intros Hb. repeat split; apply eqb_prop; revert b Hb; apply byte_forall; vm_compute; reflexivity.
Qed.

Lemma lor_step a b s : 0 ≤ s → 0 ≤ b < 64 → Z.lor (a ≪ (s + 6)) (b ≪ s) = (a * 64 + b) ≪ s.
Proof.
  intros Hs Hb. rewrite Z.add_comm, <- Z.shiftl_shiftl, <- Z.shiftl_lor by lia. f_equal.
  rewrite lor_shiftl_add by (done || lia). done.
Qed.

(** The bits of a byte below a mask of ones. *)
Lemma byte_digit b k m : m = Z.ones k → 0 ≤ k → Z.land b m = b `mod` 2 ^ k.
Proof. intros -> Hk. by apply Z.land_ones. Qed.

(** The reader with the bit operations replaced by arithmetic. *)
Definition getc_arith (str : list Z) (len : Z) : Z * option Z :=
  let p := nthZ str in
  let bad i := negb ((0x80 <=? p i) && (p i <? 0xc0)) in
  let x i := (p i) `mod` 64 in
  let digits ds a := fold_left (λ v i, v * 64 + x i) ds a in
  let finish n ds a min :=
    if existsb bad ds then (-3, None)
    else if digits ds a <? min then (-4, None) else (n, Some (digits ds a)) in
  if len <=? 0 then (0, None)
  else if p 0%nat <? 0x80 then (1, Some (p 0%nat))
  else if (0xc0 <=? p 0%nat) && (p 0%nat <? 0xe0) then
    if len <? 2 then (-1, None) else finish 2 [1%nat] (p 0%nat `mod` 32) 0x80
  else if (0xe0 <=? p 0%nat) && (p 0%nat <? 0xf0) then
    if len <? 3 then (-1, None) else finish 3 [1%nat; 2%nat] (p 0%nat `mod` 16) 0x800
  else if (0xf0 <=? p 0%nat) && (p 0%nat <? 0xf8) then
    if len <? 4 then (-1, None) else finish 4 [1%nat; 2%nat; 3%nat] (p 0%nat `mod` 8) 0x10000
  else if (0xf8 <=? p 0%nat) && (p 0%nat <? 0xfc) then
    if len <? 5 then (-1, None) else finish 5 [1%nat; 2%nat; 3%nat; 4%nat] (p 0%nat `mod` 4) 0x200000
  else if (0xfc <=? p 0%nat) && (p 0%nat <? 0xfe) then
    if len <? 6 then (-1, None) else finish 6 [1%nat; 2%nat; 3%nat; 4%nat; 5%nat] (p 0%nat `mod` 2) 0x4000000
  else (-2, None).

Lemma getc_arith_eq str len : bytes str → UTF8_getc str len = getc_arith str len.
Proof.
  intros Hs. unfold UTF8_getc, getc_arith, not_cont.
  assert (∀ i, is_byte (nthZ str i)) as Hb by auto with vtls.
  destruct (lead_class _ (Hb 0%nat)) as (-> & -> & -> & -> & -> & -> & _).
  rewrite !(proj2 (proj2 (proj2 (proj2 (proj2 (proj2 (lead_class _ (Hb _)))))))).
  rewrite !(byte_digit _ 6 0x3f), (byte_digit _ 7 0x7f), (byte_digit _ 5 0x1f), (byte_digit _ 4 0xf),
    (byte_digit _ 3 0x7), (byte_digit _ 2 0x3), (byte_digit _ 1 0x1) by done.
  assert (∀ i, 0 ≤ nthZ str i `mod` 2 ^ 6 < 64) as Hd by (intros; apply Z.mod_pos_bound; lia).
  rewrite !(lor_step _ _ 24), !(lor_step _ _ 18), !(lor_step _ _ 12), !(lor_step _ _ 6) by (done || lia).
  rewrite !lor_shiftl_add by (done || apply Hd). cbn [fold_left existsb]. rewrite !orb_false_r, !orb_assoc.
  change (2 ^ 6) with 64. change (2 ^ 5) with 32. change (2 ^ 4) with 16. change (2 ^ 3) with 8.
  change (2 ^ 2) with 4. change (2 ^ 1) with 2.
  destruct (Z.ltb_spec (nthZ str 0) 0x80); [|done].
  rewrite Z.mod_small; [done|]. pose proof (Hb 0%nat) as [? _]. lia.
Qed.

(** A continuation byte is its digit with the tag. *)
Lemma cont_digit b : ((0x80 <=? b) && (b <? 0xc0)) = true → ∃ x, b = 0x80 + x ∧ 0 ≤ x < 64 ∧ b `mod` 64 = x.
Proof.
  rewrite andb_true_iff, Z.leb_le, Z.ltb_lt. intros Hb. exists (b - 128). repeat split; try lia.
  symmetry. apply (Z.mod_unique _ _ 2); lia.
Qed.

(** The encoding of a value given by its digits. *)
Lemma enc_digits a x1 x2 x3 x4 x5 :
  0 ≤ x1 < 64 → 0 ≤ x2 < 64 → 0 ≤ x3 < 64 → 0 ≤ x4 < 64 → 0 ≤ x5 < 64 →
  (0 ≤ a < 32 → 0x80 ≤ a * 64 + x1 → utf8_enc (a * 64 + x1) = [0xc0 + a; 0x80 + x1]) ∧
  (0 ≤ a < 16 → 0x800 ≤ (a * 64 + x1) * 64 + x2 →
     utf8_enc ((a * 64 + x1) * 64 + x2) = [0xe0 + a; 0x80 + x1; 0x80 + x2]) ∧
  (0 ≤ a < 8 → 0x10000 ≤ ((a * 64 + x1) * 64 + x2) * 64 + x3 →
     utf8_enc (((a * 64 + x1) * 64 + x2) * 64 + x3) = [0xf0 + a; 0x80 + x1; 0x80 + x2; 0x80 + x3]) ∧
  (0 ≤ a < 4 → 0x200000 ≤ (((a * 64 + x1) * 64 + x2) * 64 + x3) * 64 + x4 →
     utf8_enc ((((a * 64 + x1) * 64 + x2) * 64 + x3) * 64 + x4) =
     [0xf8 + a; 0x80 + x1; 0x80 + x2; 0x80 + x3; 0x80 + x4]) ∧
  (0 ≤ a < 2 → 0x4000000 ≤ ((((a * 64 + x1) * 64 + x2) * 64 + x3) * 64 + x4) * 64 + x5 →
     utf8_enc (((((a * 64 + x1) * 64 + x2) * 64 + x3) * 64 + x4) * 64 + x5) =
     [0xfc + a; 0x80 + x1; 0x80 + x2; 0x80 + x3; 0x80 + x4; 0x80 + x5]).
Proof.
  intros H1 H2 H3 H4 H5.
  repeat split; intros Ha Hmin; unfold utf8_enc, utf8_cont; rewrite !(proj2 (Z.ltb_ge _ _)) by lia;
    rewrite ?(proj2 (Z.ltb_lt _ _)) by lia; repeat f_equal; Z.to_euclidean_division_equations; lia.
Qed.

(** ** Acceptance *)

(** The bytes of a string one by one. *)
Lemma take_nthZ str n : (n ≤ length str)%nat → take n str = map (nthZ str) (seq 0 n).
Proof.
  revert n. induction str as [|b str IH]; intros [|n] Hn; cbn [length] in Hn; [done|lia|done|].
  rewrite firstn_cons, IH by lia. cbn [seq map]. rewrite <- seq_shift, map_map. done.
Qed.

Ltac split_getc H :=
  repeat match type of H with context [if ?c then _ else _] => destruct c eqn:?; [try discriminate H|try discriminate H] end.

Ltac bool_facts :=
  repeat match goal with
  | H : (_ || _) = false |- _ => apply orb_false_iff in H as [? ?]
  | H : negb _ = false |- _ => apply negb_false_iff in H
  | H : (0x80 <=? ?b) && (_ <? 0xc0) = true |- _ => apply cont_digit in H as (? & ? & ? & ?)
  | H : (_ && _) = true |- _ => apply andb_true_iff in H as [? ?]
  | H : (_ <=? _) = true |- _ => apply Z.leb_le in H
  | H : (_ <? _) = true |- _ => apply Z.ltb_lt in H
  | H : (_ <=? _) = false |- _ => apply Z.leb_gt in H
  | H : (_ <? _) = false |- _ => apply Z.ltb_ge in H
  end.

(** The digit of a first byte. *)
Lemma lead_digit b t k : 0 < k → t `mod` k = 0 → t ≤ b < t + k → ∃ a, b = t + a ∧ 0 ≤ a < k ∧ b `mod` k = a.
Proof.
  intros Hk Ht Hb. exists (b - t). repeat split; try lia. symmetry. apply (Z.mod_unique _ _ (t `div` k)); [lia|].
  pose proof (Z.div_mod t k ltac:(lia)). lia.
Qed.

(** Closes the goal of an accepted character of two bytes or more. *)
Ltac accept_digits :=
  let go x1 x2 x3 x4 x5 a :=
    destruct (enc_digits a x1 x2 x3 x4 x5) as (? & ? & ? & ? & ?); [lia..|] in
  match goal with
  | |- context [((((?a * 64 + ?x1) * 64 + ?x2) * 64 + ?x3) * 64 + ?x4) * 64 + ?x5] => go x1 x2 x3 x4 x5 a
  | |- context [(((?a * 64 + ?x1) * 64 + ?x2) * 64 + ?x3) * 64 + ?x4] => go x1 x2 x3 x4 0 a
  | |- context [((?a * 64 + ?x1) * 64 + ?x2) * 64 + ?x3] => go x1 x2 x3 0 0 a
  | |- context [(?a * 64 + ?x1) * 64 + ?x2] => go x1 x2 0 0 0 a
  | |- context [?a * 64 + ?x1] => go x1 0 0 0 0 a
  end;
  match goal with E : _ → _ → ?l = _ |- context [?l] => rewrite E by lia end;
  repeat split; try lia; simpl; congruence.

Lemma getc_sound str len n v : bytes str → len ≤ Z.of_nat (length str) → UTF8_getc str len = (n, Some v) →
  0 ≤ v < 2 ^ 31 ∧ n ≤ len ∧ n = Z.of_nat (length (utf8_enc v)) ∧ take (Z.to_nat n) str = utf8_enc v.
Proof.
  intros Hs Hl H. rewrite getc_arith_eq in H by done. unfold getc_arith in H.
  cbn [existsb fold_left] in H. cbv zeta beta in H.
  pose proof (nthZ_byte str 0 Hs) as Hb. unfold is_byte in Hb.
  split_getc H; injection H as <- <-; bool_facts; rewrite take_nthZ by lia.
  { unfold utf8_enc. rewrite (proj2 (Z.ltb_lt _ _)) by lia. repeat split; try lia. }
  1: destruct (lead_digit (nthZ str 0) 0xc0 32) as (a & ? & ? & ?); [done..|lia|].
  2: destruct (lead_digit (nthZ str 0) 0xe0 16) as (a & ? & ? & ?); [done..|lia|].
  3: destruct (lead_digit (nthZ str 0) 0xf0 8) as (a & ? & ? & ?); [done..|lia|].
  4: destruct (lead_digit (nthZ str 0) 0xf8 4) as (a & ? & ? & ?); [done..|lia|].
  5: destruct (lead_digit (nthZ str 0) 0xfc 2) as (a & ? & ? & ?); [done..|lia|].
  all: repeat match goal with H : _ `mod` _ = _ |- _ => rewrite H in * end; accept_digits.
Qed.

Lemma digit v : ∃ q x, v = q * 64 + x ∧ 0 ≤ x < 64.
Proof.
  exists (v `div` 64), (v `mod` 64). pose proof (Z.div_mod v 64 ltac:(lia)). pose proof (Z.mod_pos_bound v 64). lia.
Qed.

Lemma cont_ok x : 0 ≤ x < 64 →
  ((0x80 <=? 0x80 + x) && (0x80 + x <? 0xc0)) = true ∧ (0x80 + x) `mod` 64 = x.
Proof.
  intros Hx. split; [rewrite andb_true_iff, Z.leb_le, Z.ltb_lt; lia|].
  symmetry. apply (Z.mod_unique _ _ 2); lia.
Qed.

(** The tests of the reader on a first byte of class [t .. t + k - 1]. *)
Lemma lead_ok a t k : 0 < k → t `mod` k = 0 → 0 ≤ a < k → (t + a) `mod` k = a.
Proof.
  intros Hk Ht Ha. symmetry. apply (Z.mod_unique _ _ (t `div` k)); [lia|].
  pose proof (Z.div_mod t k ltac:(lia)). lia.
Qed.

Ltac decide_test :=
  match goal with
  | |- context [(?a <=? ?x) && (?x <? ?b)] =>
      (rewrite (proj2 (andb_true_iff (a <=? x) (x <? b))) by (rewrite Z.leb_le, Z.ltb_lt; lia))
      || (rewrite (proj2 (andb_false_iff (a <=? x) (x <? b))) by (rewrite Z.leb_gt, Z.ltb_ge; lia))
  | |- context [?a <? ?b] =>
      (rewrite (proj2 (Z.ltb_lt a b)) by lia) || (rewrite (proj2 (Z.ltb_ge a b)) by lia)
  | |- context [?a <=? ?b] =>
      (rewrite (proj2 (Z.leb_le a b)) by lia) || (rewrite (proj2 (Z.leb_gt a b)) by lia)
  end; cbn [negb orb].

Lemma getc_complete v rest len : 0 ≤ v < 2 ^ 31 → bytes rest → Z.of_nat (length (utf8_enc v)) ≤ len →
  UTF8_getc (utf8_enc v ++ rest) len = (Z.of_nat (length (utf8_enc v)), Some v).
Proof.
  intros Hv Hr. destruct (Z.ltb_spec v 0x80).
  { unfold utf8_enc. rewrite (proj2 (Z.ltb_lt _ _)) by lia. cbn [length app]. intros Hlen.
    rewrite getc_arith_eq by (constructor; [unfold is_byte; lia|done]). unfold getc_arith.
    change (nthZ (v :: rest) 0) with v. by repeat decide_test. }
  destruct (digit v) as (q1 & x1 & E1 & Hx1), (digit q1) as (q2 & x2 & E2 & Hx2), (digit q2) as (q3 & x3 & E3 & Hx3),
    (digit q3) as (q4 & x4 & E4 & Hx4), (digit q4) as (q5 & x5 & E5 & Hx5).
  assert (∀ l, utf8_enc v = l → Forall is_byte l → (∀ n, n = Z.of_nat (length l) → n ≤ len → getc_arith (l ++ rest) len = (n, Some v)) →
    Z.of_nat (length (utf8_enc v)) ≤ len → UTF8_getc (utf8_enc v ++ rest) len = (Z.of_nat (length (utf8_enc v)), Some v)) as Hgo.
  { intros l -> Hl Hn Hlen. rewrite getc_arith_eq by auto with vtls. by apply Hn. }
  destruct (Z.ltb_spec v 0x800); [|destruct (Z.ltb_spec v 0x10000); [|destruct (Z.ltb_spec v 0x200000);
    [|destruct (Z.ltb_spec v 0x4000000)]]].
  1: destruct (enc_digits q1 x1 0 0 0 0) as (E & _); [lia..|].
  2: destruct (enc_digits q2 x2 x1 0 0 0) as (_ & E & _); [lia..|].
  3: destruct (enc_digits q3 x3 x2 x1 0 0) as (_ & _ & E & _); [lia..|].
  4: destruct (enc_digits q4 x4 x3 x2 x1 0) as (_ & _ & _ & E & _); [lia..|].
  5: destruct (enc_digits q5 x5 x4 x3 x2 x1) as (_ & _ & _ & _ & E); [lia..|].
  all: specialize (E ltac:(lia) ltac:(lia)); eapply Hgo; [etransitivity; [|exact E]; f_equal; lia| |].
  all: try (repeat constructor; lia).
  all: intros n Hn Hlen; cbn [length] in Hn; unfold getc_arith; cbn [app existsb fold_left nthZ nth] in *.
  all: rewrite ?(proj2 (cont_ok _ Hx1)), ?(proj2 (cont_ok _ Hx2)), ?(proj2 (cont_ok _ Hx3)), ?(proj2 (cont_ok _ Hx4)),
    ?(proj2 (cont_ok _ Hx5)).
  1: rewrite (lead_ok q1 0xc0 32) by (done || lia).
  2: rewrite (lead_ok q2 0xe0 16) by (done || lia).
  3: rewrite (lead_ok q3 0xf0 8) by (done || lia).
  4: rewrite (lead_ok q4 0xf8 4) by (done || lia).
  5: rewrite (lead_ok q5 0xfc 2) by (done || lia).
  all: repeat decide_test; rewrite Hn; do 2 f_equal; lia.
Qed.

(** reading and writing a character.  On a string of [len] bytes or more,
    [UTF8_getc] returns [n] and the character [v] exactly when [v] has at most 31
    bits and the first [n] bytes are what [UTF8_putc] writes for [v] in a buffer
    large enough; in particular overlong forms are refused and what is written
    reads back. *)
Theorem UTF8_getc_putc_iff str len n v buf : bytes str → len ≤ Z.of_nat (length str) →
  UTF8_getc str len = (n, Some v) ↔
  0 ≤ v < 2 ^ 31 ∧ n ≤ len ∧ UTF8_putc (Some buf) 6 v = (n, take (Z.to_nat n) str).
Proof.
  intros Hs Hl. assert (∀ v, Z.of_nat (length (utf8_enc v)) ≤ 6) as H6
    by (intros w; unfold utf8_enc; repeat case_match; cbn; lia).
  split.
  - intros H. destruct (getc_sound str len n v Hs Hl H) as (Hv & Hn & En & Et). split_and!; try lia.
    rewrite putc_spec by auto. congruence.
  - intros (Hv & Hn & H). rewrite putc_spec in H by auto. injection H as En Et.
    rewrite <- (take_drop (Z.to_nat n) str), <- Et, <- En. apply getc_complete; [done|auto with vtls|lia].
Qed.

Lemma UTF8_getc_putc_iff_witness :
  UTF8_getc [0xe2; 0x82; 0xac; 0x21] 4 = (3, Some 0x20ac) ↔
  0 ≤ 0x20ac < 2 ^ 31 ∧ 3 ≤ 4 ∧ UTF8_putc (Some []) 6 0x20ac = (3, [0xe2; 0x82; 0xac]).
Proof.
  apply (UTF8_getc_putc_iff [0xe2; 0x82; 0xac; 0x21] 4 3 0x20ac []).
  - apply (bool_decide_unpack _); vm_compute; reflexivity.
  - cbn. lia.
Defined.

(** Values of 32 bits and more are written as the six bytes of another character:
    the excess bits are dropped, although the writer reports success. *)
Theorem UTF8_putc_truncates :
  UTF8_putc (Some []) 6 (2 ^ 31) = UTF8_putc (Some []) 6 (2 ^ 32 + 2 ^ 31) ∧
  (UTF8_putc (Some []) 6 (2 ^ 31)).1 = 6 ∧
  UTF8_getc (UTF8_putc (Some []) 6 (2 ^ 31)).2 6 = (-4, None).
Proof. vm_compute. done. Qed.
