(* ===== verification/Base64.v ===== *)
(** * Base 64

    Models [crypto/evp/encode.c]: encoding and decoding of blocks, and the contexts that
    encode a stream into lines and decode one in pieces.  The reference is RFC 4648.

    [out] is the list of the bytes that are counted in [*outl]; the terminating zero behind
    them is left out.  Reading behind the end of a buffer and a failed assertion are
    [None]. *)

From Stdlib Require Import String Ascii.
From S2P Require Import Prelude.

Definition data_bin2ascii : list Z :=
  (λ c, Z.of_nat (nat_of_ascii c)) <$> list_ascii_of_string "ABCDEFGHIJKLMNOPQRSTUVWXYZabcdefghijklmnopqrstuvwxyz0123456789+/".
Definition conv_bin2ascii (a : Z) : Z := getb data_bin2ascii (Z.land a 0x3f).

Definition B64_EOLN : Z := 0xF0.
Definition B64_CR : Z := 0xF1.
Definition B64_EOF : Z := 0xF2.
Definition B64_WS : Z := 0xE0.
Definition B64_ERROR : Z := 0xFF.
Definition B64_NOT_BASE64 (a : Z) : bool := Z.lor a 0x13 =? 0xF3.
Definition B64_BASE64 (a : Z) : bool := negb (B64_NOT_BASE64 a).
Definition INT_MAX : Z := 2 ^ 31 - 1.

(** The table, row by row. *)
Definition data_ascii2bin : list Z := Eval cbv in
  replicate 9 0xFF ++ [0xE0; 0xF0; 0xFF; 0xFF; 0xF1; 0xFF; 0xFF] ++ replicate 16 0xFF ++
  [0xE0] ++ replicate 10 0xFF ++ [0x3E; 0xFF; 0xF2; 0xFF; 0x3F] ++
  seqZ 0x34 10 ++ [0xFF; 0xFF; 0xFF; 0x00; 0xFF; 0xFF] ++
  [0xFF] ++ seqZ 0 26 ++ replicate 5 0xFF ++ [0xFF] ++ seqZ 26 26 ++ replicate 5 0xFF.
Definition conv_ascii2bin (a : Z) : Z := if negb (Z.land a 0x80 =? 0) then B64_ERROR else getb data_ascii2bin a.

Record EVP_ENCODE_CTX := EncCtx { num : Z; length_ : Z; enc_data : list Z; line_num : Z; expect_nl : Z }.
Definition set_data (ctx : EVP_ENCODE_CTX) (n : Z) (data : list Z) : EVP_ENCODE_CTX := EncCtx n (length_ ctx) data (line_num ctx) (expect_nl ctx).

(** ** Encoding *)

Definition EVP_EncodeInit (ctx : EVP_ENCODE_CTX) : EVP_ENCODE_CTX := EncCtx 0 48 (enc_data ctx) 0 (expect_nl ctx).

(** [f] is the memory from the pointer on; the result has [ret] bytes. *)
Fixpoint encode_loop (fuel : nat) (f : list Z) (i : Z) : list Z :=
  match fuel with
  | O => []
  | S fuel =>
    if i <=? 0 then []
    else
      (if 3 <=? i then
         let l := Z.lor (Z.lor (getb f 0 ≪ 16) (getb f 1 ≪ 8)) (getb f 2) in
         [conv_bin2ascii (l ≫ 18); conv_bin2ascii (l ≫ 12); conv_bin2ascii (l ≫ 6); conv_bin2ascii l]
       else
         let l := getb f 0 ≪ 16 in
         let l := if i =? 2 then Z.lor l (getb f 1 ≪ 8) else l in
         [conv_bin2ascii (l ≫ 18); conv_bin2ascii (l ≫ 12); if i =? 1 then 61 else conv_bin2ascii (l ≫ 6); 61])
      ++ encode_loop fuel (drop 3 f) (i - 3)
  end.
Definition EVP_EncodeBlock (f : list Z) (dlen : Z) : list Z := encode_loop (Z.to_nat dlen) f dlen.

(** The loop over whole lines; [total] is unsigned. *)
Fixpoint lines_loop (fuel : nat) (len : Z) (inp : list Z) (inlen : Z) (out : list Z) (total : Z) : list Z * Z * list Z * Z :=
  match fuel with
  | O => (inp, inlen, out, total)
  | S fuel =>
    if (len <=? inlen) && (total <=? INT_MAX) then
      let b := EVP_EncodeBlock inp len in
      lines_loop fuel len (drop (Z.to_nat len) inp) (inlen - len) (out ++ b ++ [10]) (u32 (total + (Z.of_nat (length b) + 1)))
    else (inp, inlen, out, total)
  end.

(** The bytes written, [*outl] and the context. *)
Definition EVP_EncodeUpdate (ctx : EVP_ENCODE_CTX) (inp : list Z) : option (list Z * Z * EVP_ENCODE_CTX) :=
  let inlen := Z.of_nat (length inp) in
  if inlen <=? 0 then Some ([], 0, ctx)
  else if 80 <? length_ ctx then None
  else if inlen <? length_ ctx - num ctx then
    Some ([], 0, set_data ctx (num ctx + inlen) (splice (enc_data ctx) (Z.to_nat (num ctx)) inp))
  else
    let i := length_ ctx - num ctx in
    let first := negb (num ctx =? 0) in
    let data := if first then splice (enc_data ctx) (Z.to_nat (num ctx)) (take (Z.to_nat i) inp) else enc_data ctx in
    let out := if first then EVP_EncodeBlock data (length_ ctx) ++ [10] else [] in
    let inp := if first then drop (Z.to_nat i) inp else inp in
    let inlen := if first then inlen - i else inlen in
    let '(inp, inlen, out, total) := lines_loop (S (Z.to_nat inlen)) (length_ ctx) inp inlen out (Z.of_nat (length out)) in
    if INT_MAX <? total then Some (out, 0, set_data ctx (if first then 0 else num ctx) data)
    else Some (out, total, set_data ctx inlen (if negb (inlen =? 0) then splice data 0 (take (Z.to_nat inlen) inp) else data)).

Definition EVP_EncodeFinal (ctx : EVP_ENCODE_CTX) : list Z * EVP_ENCODE_CTX :=
  if negb (num ctx =? 0) then (EVP_EncodeBlock (enc_data ctx) (num ctx) ++ [10], set_data ctx 0 (enc_data ctx)) else ([], ctx).

(** ** Decoding *)

Definition EVP_DecodeInit (ctx : EVP_ENCODE_CTX) : EVP_ENCODE_CTX := EncCtx 0 0 (enc_data ctx) 0 0.

Fixpoint skip_ws (f : list Z) (n : Z) : option (list Z * Z) :=
  match f with
  | [] => None
  | c :: f' => if (conv_ascii2bin c =? B64_WS) && (0 <? n) then skip_ws f' (n - 1) else Some (f, n)
  end.

Fixpoint strip_end (fuel : nat) (f : list Z) (n : Z) : Z :=
  match fuel with
  | O => n
  | S fuel => if (3 <? n) && B64_NOT_BASE64 (conv_ascii2bin (getb f (n - 1))) then strip_end fuel f (n - 1) else n
  end.

Fixpoint decode_quads (k : nat) (f : list Z) : option (list Z) :=
  match k with
  | O => Some []
  | S k =>
    let a := conv_ascii2bin (getb f 0) in
    let b := conv_ascii2bin (getb f 1) in
    let c := conv_ascii2bin (getb f 2) in
    let d := conv_ascii2bin (getb f 3) in
    if existsb (λ x, negb (Z.land x 0x80 =? 0)) [a; b; c; d] then None
    else
      let l := Z.lor (Z.lor (Z.lor (a ≪ 18) (b ≪ 12)) (c ≪ 6)) d in
      r ← decode_quads k (drop 4 f);
      Some ([Z.land (u8 (l ≫ 16)) 0xff; Z.land (u8 (l ≫ 8)) 0xff; Z.land (u8 l) 0xff] ++ r)
  end.

(** The bytes, [None] inside for -1. *)
Definition EVP_DecodeBlock (f : list Z) (n : Z) : option (option (list Z)) :=
  '(f, n) ← skip_ws f n;
  let n := strip_end (Z.to_nat n) f n in
  Some (if negb (n `mod` 4 =? 0) then None else decode_quads (Z.to_nat (n / 4)) f).

(** The local variables of [EVP_DecodeUpdate]; [dout] has [ret] bytes. *)
Record decoding := Decoding { dn : Z; deof : Z; dout : list Z; dbuf : list Z }.
Inductive jump := End (rv : Z) | Tail (seof : bool).

(** Decode the buffer and empty it: [false] for [rv = -1]. *)
Definition flush (s : decoding) : option (bool * decoding) :=
  o ← EVP_DecodeBlock (dbuf s) (dn s);
  let s := Decoding 0 (deof s) (dout s) (dbuf s) in
  match o with
  | None => Some (false, s)
  | Some b =>
    if Z.of_nat (length b) <? deof s then Some (false, s)
    else Some (true, Decoding 0 (deof s) (dout s ++ take (Z.to_nat (Z.of_nat (length b) - deof s)) b) (dbuf s))
  end.

Fixpoint decode_loop (inp : list Z) (s : decoding) : option (jump * decoding) :=
  match inp with
  | [] => Some (Tail false, s)
  | tmp :: inp =>
    let v := conv_ascii2bin tmp in
    if v =? B64_ERROR then Some (End (-1), s)
    else if negb (tmp =? 61) && (0 <? deof s) && B64_BASE64 v then Some (End (-1), s)
    else
      let s := Decoding (dn s) (if tmp =? 61 then deof s + 1 else deof s) (dout s) (dbuf s) in
      if 2 <? deof s then Some (End (-1), s)
      else if v =? B64_EOF then Some (Tail true, s)
      else if B64_BASE64 v && (64 <=? dn s) then Some (End (-1), s)
      else
        let s := if B64_BASE64 v then Decoding (dn s + 1) (deof s) (dout s) (setb (dbuf s) (dn s) tmp) else s in
        if dn s =? 64 then
          '(ok, s) ← flush s;
          if ok : bool then decode_loop inp s else Some (End (-1), s)
        else decode_loop inp s
  end.

(** The padding at the end of what is buffered. *)
Definition buffered_eof (ctx : EVP_ENCODE_CTX) : Z :=
  if (0 <? num ctx) && (getb (enc_data ctx) (num ctx - 1) =? 61) then
    if (1 <? num ctx) && (getb (enc_data ctx) (num ctx - 2) =? 61) then 2 else 1
  else 0.

Definition decode_tail (s : decoding) (seof : bool) : option (Z * decoding) :=
  let ret s := Some (if seof || ((dn s =? 0) && negb (deof s =? 0)) then 0 else 1, s) in
  if 0 <? dn s then
    if Z.land (dn s) 3 =? 0 then
      '(ok, s) ← flush s;
      if ok : bool then ret s else Some (-1, s)
    else if seof then Some (-1, s) else ret s
  else ret s.

(** The return value, the bytes and the context. *)
Definition EVP_DecodeUpdate (ctx : EVP_ENCODE_CTX) (inp : list Z) : option (Z * list Z * EVP_ENCODE_CTX) :=
  let s := Decoding (num ctx) (buffered_eof ctx) [] (enc_data ctx) in
  '(rv, s) ← match inp with
             | [] => Some (0, s)
             | _ =>
               '(j, s) ← decode_loop inp s;
               match j with
               | End rv => Some (rv, s)
               | Tail seof => decode_tail s seof
               end
             end;
  Some (rv, dout s, set_data ctx (dn s) (dbuf s)).

(** The return value, the bytes and the context. *)
Definition EVP_DecodeFinal (ctx : EVP_ENCODE_CTX) : option (Z * list Z * EVP_ENCODE_CTX) :=
  if negb (num ctx =? 0) then
    o ← EVP_DecodeBlock (enc_data ctx) (num ctx);
    Some (match o with None => (-1, [], ctx) | Some b => (1, b, set_data ctx 0 (enc_data ctx)) end)
  else Some (1, [], ctx).

(** ** Specification *)

Definition digit (v : Z) : Z := getb data_bin2ascii v.

(** The four characters of one to three bytes. *)
Definition quantum (g : list Z) : list Z :=
  match g with
  | [a] => [digit (a / 4); digit (a mod 4 * 16); 61; 61]
  | [a; b] => [digit (a / 4); digit (a mod 4 * 16 + b / 16); digit (b mod 16 * 4); 61]
  | [a; b; c] => [digit (a / 4); digit (a mod 4 * 16 + b / 16); digit (b mod 16 * 4 + c / 64); digit (c mod 64)]
  | _ => []
  end.

Fixpoint groups (m : list Z) : list (list Z) :=
  match m with
  | a :: b :: c :: m => [a; b; c] :: groups m
  | [] => []
  | g => [g]
  end.
Definition base64 (m : list Z) : list Z := concat (quantum <$> groups m).

(** Lines of 64 characters. *)
Fixpoint wrap (fuel : nat) (m : list Z) : list Z :=
  match fuel with
  | O => []
  | S fuel => match m with [] => [] | _ => base64 (take 48 m) ++ [10] ++ wrap fuel (drop 48 m) end
  end.
Definition base64_lines (m : list Z) : list Z := wrap (length m) m.

(** ** Characters *)

Lemma digit_table : forallb (λ v, (conv_ascii2bin (digit v) =? v) && negb (digit v =? 61) && B64_BASE64 v && (conv_bin2ascii v =? digit v) && (0 <=? digit v) && (digit v <? 128)) (seqZ 0 64) = true.
Proof. vm_compute. reflexivity. Qed.

Lemma digit_props v : 0 ≤ v < 64 → conv_ascii2bin (digit v) = v ∧ digit v ≠ 61 ∧ B64_BASE64 v = true ∧ conv_bin2ascii v = digit v ∧ is_byte (digit v).
Proof.
  intros Hv. pose proof (proj1 (forallb_forall _ _) digit_table v) as H. rewrite <- list_elem_of_In, elem_of_seqZ in H. specialize (H ltac:(lia)).
  rewrite !andb_true_iff, !Z.eqb_eq, negb_true_iff, Z.eqb_neq, Z.leb_le, Z.ltb_lt in H. unfold is_byte. split_and!; try apply H; lia.
Qed.

Lemma conv_mod v : conv_bin2ascii v = digit (v mod 64).
Proof. unfold conv_bin2ascii, digit. f_equal. by apply (Z.land_ones v 6). Qed.

Ltac byte_eqs := unfold is_byte in *; rewrite ?Z.shiftr_div_pow2, ?Z.shiftl_mul_pow2 by lia; Z.div_mod_to_equations; lia.

Ltac digits_eq := do 4 (apply (f_equal2 cons); [first [done|apply (f_equal digit); byte_eqs]|]); done.

Lemma three_bytes a b c : is_byte a → is_byte b → is_byte c → Z.lor (Z.lor (a ≪ 16) (b ≪ 8)) c = a * 65536 + b * 256 + c.
Proof.
  intros Ha Hb Hc. unfold is_byte in *. rewrite <- Z.lor_assoc, (lor_shiftl_add b c 8), (lor_shiftl_add a _ 16) by lia. lia.
Qed.

Lemma four_sixes a b c d : 0 ≤ a < 64 → 0 ≤ b < 64 → 0 ≤ c < 64 → 0 ≤ d < 64 →
  Z.lor (Z.lor (Z.lor (a ≪ 18) (b ≪ 12)) (c ≪ 6)) d = a * 262144 + b * 4096 + c * 64 + d.
Proof.
  intros. rewrite <- !Z.lor_assoc, (lor_shiftl_add c d 6), (lor_shiftl_add b _ 12), (lor_shiftl_add a _ 18) by lia. lia.
Qed.

(** Induction by groups of three. *)
Lemma three_ind (P : list Z → Prop) : P [] → (∀ a, P [a]) → (∀ a b, P [a; b]) → (∀ a b c m, P m → P (a :: b :: c :: m)) → ∀ m, P m.
Proof. intros H0 H1 H2 H3. fix IH 1. intros [|a [|b [|c m]]]; [apply H0|apply H1|apply H2|apply H3, IH]. Qed.

(** ** Encoding a block *)

Lemma quantum_1 a : is_byte a → let l := a ≪ 16 in
  [conv_bin2ascii (l ≫ 18); conv_bin2ascii (l ≫ 12); 61; 61] = quantum [a].
Proof. intros Ha l. subst l. rewrite !conv_mod. unfold quantum. digits_eq. Qed.

Lemma quantum_2 a b : is_byte a → is_byte b → let l := Z.lor (a ≪ 16) (b ≪ 8) in
  [conv_bin2ascii (l ≫ 18); conv_bin2ascii (l ≫ 12); conv_bin2ascii (l ≫ 6); 61] = quantum [a; b].
Proof.
  intros Ha Hb l. subst l. rewrite <- (Z.lor_0_r (Z.lor _ _)), three_bytes by done. rewrite !conv_mod. unfold quantum. digits_eq.
Qed.

Lemma quantum_3 a b c : is_byte a → is_byte b → is_byte c → let l := Z.lor (Z.lor (a ≪ 16) (b ≪ 8)) c in
  [conv_bin2ascii (l ≫ 18); conv_bin2ascii (l ≫ 12); conv_bin2ascii (l ≫ 6); conv_bin2ascii l] = quantum [a; b; c].
Proof. intros Ha Hb Hc l. subst l. rewrite three_bytes by done. rewrite !conv_mod. unfold quantum. digits_eq. Qed.

Lemma encode_loop_groups m : bytes m → ∀ fuel f, (length m ≤ fuel)%nat → take (length m) f = m →
  encode_loop fuel f (Z.of_nat (length m)) = base64 m.
Proof.
  induction m as [|a|a b|a b c m IH] using three_ind; intros Hb fuel f Hf E; [by destruct fuel|..];
    (destruct fuel as [|fuel]; [cbn in Hf; lia|]); cbn [encode_loop].
  - destruct f as [|x f]; [done|]. injection E as ->. apply Forall_inv in Hb.
    change (base64 [a]) with (quantum [a] ++ []). rewrite <- quantum_1 by done. cbn [length app]. by destruct fuel.
  - destruct f as [|x [|y f]]; [done..|]. injection E as -> ->. apply bytes_cons_inv in Hb as [Ha Hb]. apply Forall_inv in Hb.
    change (base64 [a; b]) with (quantum [a; b] ++ []). rewrite <- quantum_2 by done. cbn [length app]. by destruct fuel.
  - destruct f as [|x [|y [|z f]]]; [done..|]. cbn [length take] in E. injection E as -> -> -> E.
    apply bytes_cons_inv in Hb as [Ha Hb]. apply bytes_cons_inv in Hb as [Hb Hb']. apply bytes_cons_inv in Hb' as [Hc Hm].
    rewrite (proj2 (Z.leb_gt _ 0)), (proj2 (Z.leb_le 3 _)) by (cbn; lia).
    change (base64 (a :: b :: c :: m)) with (quantum [a; b; c] ++ base64 m). rewrite <- quantum_3 by done.
    change (getb (a :: b :: c :: f) 0) with a. change (getb (a :: b :: c :: f) 1) with b. change (getb (a :: b :: c :: f) 2) with c.
    f_equal. cbn [drop]. replace (Z.of_nat (length (a :: b :: c :: m)) - 3) with (Z.of_nat (length m)) by (cbn; lia).
    apply IH; [done|cbn in Hf; lia|done].
Qed.

Lemma EncodeBlock_spec f m : bytes m → take (length m) f = m → EVP_EncodeBlock f (Z.of_nat (length m)) = base64 m.
Proof. intros. apply encode_loop_groups; [done|lia|done]. Qed.

(** ** Encoding a stream *)

(** [k] whole lines. *)
Fixpoint full_lines (k : nat) (m : list Z) : list Z :=
  match k with
  | O => []
  | S k => base64 (take 48 m) ++ [10] ++ full_lines k (drop 48 m)
  end.

Lemma length_base64 m : Z.of_nat (length (base64 m)) = (Z.of_nat (length m) + 2) / 3 * 4.
Proof.
  induction m as [|a|a b|a b c m IH] using three_ind; [done..|].
  change (base64 (a :: b :: c :: m)) with (quantum [a; b; c] ++ base64 m). rewrite length_app, Nat2Z.inj_add, IH. cbn [quantum length].
  rewrite !Nat2Z.inj_succ. Z.div_mod_to_equations. lia.
Qed.

Lemma length_line m : length m = 48%nat → Z.of_nat (length (base64 m)) = 64.
Proof. intros E. rewrite length_base64, E. done. Qed.

Lemma full_lines_app k m p : (48 * k ≤ length m)%nat → full_lines k (m ++ p) = full_lines k m.
Proof.
  revert m. induction k as [|k IH]; intros m Hl; [done|]. cbn [full_lines]. rewrite take_app_le, drop_app_le by lia.
  rewrite IH; [done|]. rewrite length_drop. lia.
Qed.

Lemma full_lines_add k k' m : full_lines (k + k') m = full_lines k m ++ full_lines k' (drop (48 * k) m).
Proof.
  revert m. induction k as [|k IH]; intros m; [by rewrite Nat.mul_0_r|]. cbn [full_lines Nat.add]. rewrite IH, drop_drop, <- !app_assoc.
  do 4 f_equal. f_equal. lia.
Qed.

Lemma length_full_lines k m : (48 * k ≤ length m)%nat → Z.of_nat (length (full_lines k m)) = 65 * Z.of_nat k.
Proof.
  revert m. induction k as [|k IH]; intros m Hl; [done|]. cbn [full_lines]. rewrite !length_app, !Nat2Z.inj_add, IH by (rewrite length_drop; lia).
  rewrite length_line by (rewrite length_take; lia). cbn [length]. lia.
Qed.

Lemma wrap_lines k r : (length r < 48)%nat → ∀ m fuel, length m = (48 * k + length r)%nat → drop (48 * k) m = r → (length m ≤ fuel)%nat →
  wrap fuel m = full_lines k m ++ match r with [] => [] | _ => base64 r ++ [10] end.
Proof.
  intros Hr. induction k as [|k IH]; intros m fuel Hl Er Hf.
  - rewrite Nat.mul_0_r, drop_0 in Er. subst m. destruct r as [|x r]; [by destruct fuel|]. destruct fuel as [|fuel]; [cbn in Hf; lia|].
    cbn [wrap full_lines app]. rewrite take_ge, drop_ge by lia. by destruct fuel.
  - destruct fuel as [|fuel]; [lia|]. destruct m as [|x m]; [cbn in Hl; lia|]. cbn [wrap full_lines]. rewrite <- !app_assoc. do 3 f_equal.
    apply IH; rewrite ?length_drop, ?drop_drop; [lia| |lia]. rewrite <- Er. f_equal. lia.
Qed.

Lemma lines_loop_spec k : ∀ fuel inp out total, (k < fuel)%nat → bytes inp → Z.of_nat (length inp) `div` 48 = Z.of_nat k → 0 ≤ total →
  total + 65 * Z.of_nat k ≤ INT_MAX →
  lines_loop fuel 48 inp (Z.of_nat (length inp)) out total =
  (drop (48 * k) inp, Z.of_nat (length inp) - 48 * Z.of_nat k, out ++ full_lines k inp, total + 65 * Z.of_nat k).
Proof.
  unfold INT_MAX. induction k as [|k IH]; intros [|fuel] inp out total Hf Hb Hd Ht Hm; try lia; cbn [lines_loop].
  - rewrite (proj2 (Z.leb_gt 48 _)) by (Z.div_mod_to_equations; lia). cbn [andb full_lines]. rewrite Nat.mul_0_r, drop_0, app_nil_r. change (Z.of_nat 0) with 0. by rewrite !Z.mul_0_r, Z.sub_0_r, Z.add_0_r.
  - assert (48 * (Z.of_nat k + 1) ≤ Z.of_nat (length inp)) as Hl by (Z.div_mod_to_equations; lia).
    rewrite (proj2 (Z.leb_le 48 _)) by lia. unfold INT_MAX. rewrite (proj2 (Z.leb_le total _)) by lia. cbn [andb].
    assert (length (take 48 inp) = 48%nat) as Hl48 by (rewrite length_take; lia).
    assert (EVP_EncodeBlock inp 48 = base64 (take 48 inp)) as ->.
    { pose proof (EncodeBlock_spec inp (take 48 inp) (Forall_take _ _ _ Hb)) as E. rewrite Hl48 in E. by apply E. }
    rewrite length_line by done. unfold u32. rewrite Z.mod_small by lia. change (Z.to_nat 48) with 48%nat.
    assert (Z.of_nat (length inp) - 48 = Z.of_nat (length (drop 48 inp))) as -> by (rewrite length_drop; lia).
    rewrite IH; [|lia|by apply Forall_drop|rewrite length_drop; Z.div_mod_to_equations; lia|lia|lia].
    cbn [full_lines]. rewrite <- !app_assoc, drop_drop, length_drop. replace (48 + 48 * k)%nat with (48 * S k)%nat by lia.
    replace (Z.of_nat (length inp - 48) - 48 * Z.of_nat k) with (Z.of_nat (length inp) - 48 * Z.of_nat (S k)) by lia.
    replace (total + (64 + 1) + 65 * Z.of_nat k) with (total + 65 * Z.of_nat (S k)) by lia. done.
Qed.

(** The context has kept [r]. *)
Definition encoding (ctx : EVP_ENCODE_CTX) (r : list Z) : Prop :=
  length_ ctx = 48 ∧ num ctx = Z.of_nat (length r) ∧ (length r < 48)%nat ∧ length (enc_data ctx) = 80%nat ∧ take (length r) (enc_data ctx) = r.

Lemma take_splice (l : list Z) r p : take (length r) l = r → (length r + length p ≤ length l)%nat → take (length (r ++ p)) (splice l (length r) p) = r ++ p.
Proof.
  intros E Hl. unfold splice. rewrite E, app_assoc. by rewrite take_app_length.
Qed.

(** Before the loop: a line of the kept bytes, or nothing. *)
Lemma first_line ctx r p : encoding ctx r → bytes r → bytes p → 48 - Z.of_nat (length r) ≤ Z.of_nat (length p) →
  let M := r ++ p in
  let first := negb (Z.of_nat (length r) =? 0) in
  let i := 48 - Z.of_nat (length r) in
  let data := if first then splice (enc_data ctx) (Z.to_nat (Z.of_nat (length r))) (take (Z.to_nat i) p) else enc_data ctx in
  let out := if first then EVP_EncodeBlock data 48 ++ [10] else [] in
  let inp := if first then drop (Z.to_nat i) p else p in
  let n := if first then Z.of_nat (length p) - i else Z.of_nat (length p) in
  ∃ k0, (48 * k0 ≤ length M)%nat ∧ out = full_lines k0 M ∧ inp = drop (48 * k0) M ∧ n = Z.of_nat (length inp) ∧ length data = 80%nat.
Proof.
  intros (El & En & Hr & Hd & Er) Hrb Hpb H1 M first i data out inp n. assert (bytes M) as HMb by by apply bytes_app.
  assert (length M = (length r + length p)%nat) as HM by (unfold M; apply length_app).
  unfold out, inp, n, data, first. destruct r as [|x r].
  - exists 0%nat. cbn [length negb Z.of_nat Z.eqb] in *. rewrite Nat.mul_0_r, drop_0. split_and!; done || lia.
  - exists 1%nat. set (r' := x :: r) in *. assert (negb (Z.of_nat (length r') =? 0) = true) as -> by done.
    assert (length (take (Z.to_nat i) p) = Z.to_nat i) as Hti by (rewrite length_take; lia).
    assert (r' ++ take (Z.to_nat i) p = take 48 M) as E48 by (unfold M; rewrite take_app_ge by lia; do 2 f_equal; lia).
    split_and!; [lia| | | |].
    + cbn [full_lines]. rewrite Nat2Z.id. f_equal. assert (length (take 48 M) = 48%nat) as Hl48 by (rewrite length_take; lia).
      pose proof (EncodeBlock_spec (splice (enc_data ctx) (length r') (take (Z.to_nat i) p)) (take 48 M) (Forall_take _ _ _ HMb)) as E.
      rewrite Hl48 in E. apply E. rewrite <- Hl48, <- E48 at 1. rewrite <- E48. apply take_splice; [done|lia].
    + unfold M. rewrite drop_app_ge by lia. f_equal. lia.
    + rewrite length_drop. lia.
    + rewrite Nat2Z.id, length_splice by lia. done.
Qed.

Lemma EncodeUpdate_spec ctx r p : encoding ctx r → bytes r → bytes p → Z.of_nat (length p) < 2 ^ 30 →
  let M := r ++ p in
  let k := (length M / 48)%nat in
  ∃ ctx', EVP_EncodeUpdate ctx p = Some (full_lines k M, Z.of_nat (length (full_lines k M)), ctx') ∧ encoding ctx' (drop (48 * k) M).
Proof.
  intros (El & En & Hr & Hd & Er) Hrb Hpb Hpl M k. pose proof (Nat.div_mod_eq (length M) 48) as Hk. pose proof (Nat.mod_upper_bound (length M) 48 ltac:(lia)) as Hm.
  fold k in Hk. assert (length M = (length r + length p)%nat) as HM by (unfold M; apply length_app).
  unfold EVP_EncodeUpdate. rewrite El, En. destruct (Z.leb_spec (Z.of_nat (length p)) 0) as [H0|H0].
  { assert (p = []) as -> by (apply nil_length_inv; lia). cbn [length] in *. assert (k = 0%nat) as -> by lia. exists ctx. split; [done|].
    unfold M. rewrite app_nil_r, Nat.mul_0_r, drop_0. by split_and!. }
  cbn [Z.ltb Z.compare Pos.compare Pos.compare_cont]. destruct (Z.ltb_spec (Z.of_nat (length p)) (48 - Z.of_nat (length r))) as [H1|H1].
  { assert (k = 0%nat) as -> by lia. rewrite Nat2Z.id. eexists. split; [reflexivity|]. unfold M. rewrite Nat.mul_0_r, drop_0.
    split_and!; [done|cbn; rewrite length_app; lia|rewrite length_app; lia|cbn; by rewrite length_splice by lia|by apply take_splice; [|lia]]. }
  assert (bytes M) as HMb by by apply bytes_app. unfold INT_MAX in *.
  destruct (first_line ctx r p) as (k0 & Hk0 & Eo & Ei & Enn & Hdd); [by split_and!|done|done|done|].
  cbv zeta in *. set (first := negb (Z.of_nat (length r) =? 0)) in *. set (data := if first then splice _ _ _ else enc_data ctx) in *.
  set (out := if first then _ ++ [10] else []) in *. set (inp := if first then drop _ p else p) in *.
  set (n := if first then _ else Z.of_nat (length p)) in *. fold M in Hk0, Eo, Ei.
  assert (k0 ≤ k)%nat as Hkk by lia.
  rewrite Enn. assert (Z.of_nat (length inp) = Z.of_nat (length M) - 48 * Z.of_nat k0) as Hil by (rewrite Ei, length_drop; lia).
  rewrite (lines_loop_spec (k - k0)); [|lia|rewrite Ei; by apply Forall_drop|rewrite Hil; Z.div_mod_to_equations; lia|lia
    |rewrite Eo, length_full_lines by lia; unfold INT_MAX; lia].
  rewrite Eo, length_full_lines by lia. rewrite (proj2 (Z.ltb_ge INT_MAX _)) by (unfold INT_MAX; lia).
  assert (full_lines k0 M ++ full_lines (k - k0) inp = full_lines k M) as ->.
  { rewrite Ei, <- full_lines_add. f_equal. lia. }
  assert (drop (48 * (k - k0)) inp = drop (48 * k) M) as -> by (rewrite Ei, drop_drop; f_equal; lia).
  rewrite length_full_lines by lia. replace (65 * Z.of_nat k0 + 65 * Z.of_nat (k - k0)) with (65 * Z.of_nat k) by lia.
  replace (Z.of_nat (length inp) - 48 * Z.of_nat (k - k0)) with (Z.of_nat (length (drop (48 * k) M))) by (rewrite length_drop; lia).
  eexists. split; [reflexivity|]. set (r1 := drop (48 * k) M). assert (length r1 < 48)%nat as Hr1 by (unfold r1; rewrite length_drop; lia).
  split_and!; [done|done|done| |]; cbn [enc_data set_data].
  - destruct (Z.of_nat (length r1) =? 0); cbn [negb]; [exact Hdd|]. rewrite Nat2Z.id, firstn_all. rewrite length_splice; [exact Hdd|lia].
  - rewrite Nat2Z.id, firstn_all. destruct (Z.eqb_spec (Z.of_nat (length r1)) 0) as [E|E]; cbn [negb].
    + assert (r1 = []) as -> by (apply nil_length_inv; lia). done.
    + apply (take_splice data [] r1); [done|rewrite Hdd; cbn [length]; lia].
Qed.

Fixpoint encode_pieces (ctx : EVP_ENCODE_CTX) (ps : list (list Z)) : option (list Z * EVP_ENCODE_CTX) :=
  match ps with
  | [] => Some ([], ctx)
  | p :: ps =>
    '(out, n, ctx) ← EVP_EncodeUpdate ctx p;
    '(rest, ctx) ← encode_pieces ctx ps;
    Some (take (Z.to_nat n) out ++ rest, ctx)
  end.

(** From the beginning to the end. *)
Definition encode_stream (ctx : EVP_ENCODE_CTX) (ps : list (list Z)) : option (list Z) :=
  '(out, ctx) ← encode_pieces (EVP_EncodeInit ctx) ps;
  Some (out ++ (EVP_EncodeFinal ctx).1).

Lemma encode_pieces_spec ps : Forall (λ p, bytes p ∧ Z.of_nat (length p) < 2 ^ 30) ps → ∀ ctx r, encoding ctx r → bytes r →
  ∃ k ctx', let M := r ++ concat ps in
  (48 * k ≤ length M)%nat ∧ encode_pieces ctx ps = Some (full_lines k M, ctx') ∧ encoding ctx' (drop (48 * k) M).
Proof.
  induction 1 as [|p ps [Hp Hl] _ IH]; intros ctx r Hc Hr.
  { exists 0%nat, ctx. cbn [concat encode_pieces full_lines]. rewrite app_nil_r, Nat.mul_0_r, drop_0. split; [lia|]. by split. }
  destruct (EncodeUpdate_spec ctx r p Hc Hr Hp Hl) as (ctx1 & E1 & Hc1). set (k1 := (length (r ++ p) / 48)%nat) in *.
  assert (bytes (drop (48 * k1) (r ++ p))) as Hr1 by by apply Forall_drop, bytes_app.
  pose proof (Nat.div_mod_eq (length (r ++ p)) 48) as Hk. fold k1 in Hk.
  destruct (IH ctx1 _ Hc1 Hr1) as (k2 & ctx2 & Hl2 & E2 & Hc2).
  assert (drop (48 * k1) (r ++ p) ++ concat ps = drop (48 * k1) (r ++ concat (p :: ps))) as EM.
  { cbn [concat]. rewrite app_assoc, (drop_app_le (r ++ p)) by lia. done. }
  rewrite EM in *. exists (k1 + k2)%nat, ctx2. rewrite length_drop in Hl2.
  assert (length (r ++ p) ≤ length (r ++ concat (p :: ps)))%nat as Hle by (cbn [concat]; rewrite !length_app; lia). cbv zeta.
  split; [lia|]. split.
  - cbn [encode_pieces]. rewrite E1. cbn [mbind option_bind]. rewrite E2. cbn [mbind option_bind].
    rewrite Nat2Z.id, firstn_all. do 2 f_equal. rewrite full_lines_add. f_equal. cbn [concat]. rewrite app_assoc. symmetry. apply full_lines_app. lia.
  - rewrite drop_drop in Hc2. by replace (48 * (k1 + k2))%nat with (48 * k1 + 48 * k2)%nat by lia.
Qed.

Lemma encode_stream_spec ctx ps : length (enc_data ctx) = 80%nat → Forall (λ p, bytes p ∧ Z.of_nat (length p) < 2 ^ 30) ps →
  encode_stream ctx ps = Some (base64_lines (concat ps)).
Proof.
  intros Hd Hps. assert (encoding (EVP_EncodeInit ctx) []) as H0 by (split_and!; done || (cbn; lia)).
  assert (bytes (concat ps)) as Hb.
  { clear -Hps. induction Hps as [|p ps [Hp _] _ IH]; [apply Forall_nil_2|]. cbn [concat]. by apply bytes_app. }
  destruct (encode_pieces_spec ps Hps _ [] H0 (Forall_nil_2 _)) as (k & ctx' & Hl & E & (E1 & E2 & E3 & E4 & E5)). cbn [app] in *.
  unfold encode_stream. rewrite E. cbn [mbind option_bind]. f_equal. set (r := drop (48 * k) (concat ps)) in *.
  assert (length (concat ps) = (48 * k + length r)%nat) as Hlen by (unfold r; rewrite length_drop; lia).
  unfold base64_lines. rewrite (wrap_lines k r E3 (concat ps)) by (done || lia). f_equal. unfold EVP_EncodeFinal. rewrite E2.
  destruct r as [|x r'] eqn:Er; [done|]. rewrite <- Er in *. rewrite (proj2 (Z.eqb_neq _ 0)) by (rewrite Er; cbn; lia). cbn [negb fst]. f_equal.
  apply EncodeBlock_spec; [|done]. by apply Forall_drop.
Qed.

(** ** Groups *)

Definition Q (gs : list (list Z)) : list Z := concat (quantum <$> gs).
Definition pad3 (g : list Z) : list Z := g ++ replicate (3 - length g) 0.

(** Groups of three bytes, the last of one to three. *)
Inductive grouped : list (list Z) → Prop :=
  | grouped_nil : grouped []
  | grouped_last g : (0 < length g ≤ 3)%nat → bytes g → grouped [g]
  | grouped_cons g gs : length g = 3%nat → bytes g → grouped gs → grouped (g :: gs).

Lemma groups_grouped m : bytes m → grouped (groups m) ∧ concat (groups m) = m.
Proof.
  induction m as [|a|a b|a b c m IH] using three_ind; intros Hb; cbn [groups concat].
  - split; [apply grouped_nil|done].
  - split; [|done]. apply grouped_last; [cbn; lia|done].
  - split; [|done]. apply grouped_last; [cbn; lia|done].
  - apply bytes_cons_inv in Hb as [Ha Hb]. apply bytes_cons_inv in Hb as [Hb Hb']. apply bytes_cons_inv in Hb' as [Hc Hm].
    destruct (IH Hm) as [IH1 IH2]. split; [|cbn; by rewrite IH2]. apply grouped_cons; [done| |done]. repeat apply Forall_cons_2; done || apply Forall_nil_2.
Qed.

Lemma grouped_inv g gs : grouped (g :: gs) → (0 < length g ≤ 3)%nat ∧ bytes g ∧ grouped gs ∧ (gs = [] ∨ length g = 3%nat).
Proof. inversion 1; subst; split_and!; try done; try lia; first [apply grouped_nil|by left|by right]. Qed.

Lemma grouped_take h gs : grouped gs → grouped (take h gs).
Proof.
  intros Hg. revert h. induction Hg as [|g H1 H2|g gs H1 H2 Hg IH]; intros [|h]; cbn [take]; try apply grouped_nil.
  - rewrite take_nil. by apply grouped_last.
  - by apply grouped_cons.
Qed.

Lemma grouped_drop h gs : grouped gs → grouped (drop h gs).
Proof.
  intros Hg. revert h. induction Hg as [|g H1 H2|g gs H1 H2 Hg IH]; intros [|h]; cbn [drop]; try apply grouped_nil; try done.
  - by apply grouped_last.
  - rewrite drop_nil. apply grouped_nil.
  - by apply grouped_cons.
Qed.

Lemma quantum_length g : (0 < length g ≤ 3)%nat → length (quantum g) = 4%nat.
Proof. destruct g as [|? [|? [|? [|? ?]]]]; cbn; lia. Qed.

Lemma Q_length gs : grouped gs → length (Q gs) = (4 * length gs)%nat.
Proof.
  unfold Q. induction gs as [|g gs IH]; [done|]. intros (Hg & _ & Hgs & _)%grouped_inv. rewrite fmap_cons. cbn [concat length].
  rewrite length_app, quantum_length, IH by done. lia.
Qed.

Lemma Q_app a b : Q (a ++ b) = Q a ++ Q b.
Proof. unfold Q. by rewrite fmap_app, concat_app. Qed.

(** A prefix of whole quanta. *)
Lemma Q_prefix gs h B X : grouped gs → B ++ X = Q gs → length B = (4 * h)%nat → B = Q (take h gs) ∧ X = Q (drop h gs) ∧ (h ≤ length gs)%nat.
Proof.
  intros Hg E Hl. pose proof (Q_length gs Hg) as HQ. rewrite <- E, length_app in HQ. assert (h ≤ length gs)%nat as Hh by lia.
  rewrite <- (take_drop h gs), Q_app in E. apply app_inj_1 in E as [-> ->]; [done|].
  rewrite Hl, Q_length, length_take by by apply grouped_take. lia.
Qed.

(** The padding characters. *)
Fixpoint eqs (l : list Z) : Z := match l with [] => 0 | x :: l => (if x =? 61 then 1 else 0) + eqs l end.

Lemma eqs_app a b : eqs (a ++ b) = eqs a + eqs b.
Proof. induction a as [|x a IH]; cbn; [done|]. rewrite IH. lia. Qed.

Lemma eqs_nonneg l : 0 ≤ eqs l.
Proof. induction l as [|x l IH]; cbn; [done|]. destruct (x =? 61); lia. Qed.

Lemma digit_eqs v : 0 ≤ v < 64 → (digit v =? 61) = false.
Proof. intros Hv. apply Z.eqb_neq. by apply digit_props. Qed.

Lemma quantum_eqs g : (0 < length g ≤ 3)%nat → bytes g → eqs (quantum g) = 3 - Z.of_nat (length g) ∧
  Forall (λ x, x = 61 ∨ ∃ v, 0 ≤ v < 64 ∧ x = digit v) (quantum g).
Proof.
  intros Hl Hb. destruct g as [|a [|b [|c [|? ?]]]]; cbn [length] in Hl; try lia.
  all: repeat (apply bytes_cons_inv in Hb as [? Hb]); cbn [quantum eqs length]; rewrite ?digit_eqs by byte_eqs; (split; [cbn; lia|]).
  all: repeat (apply Forall_cons_2; [first [by left|right; eexists; split; [|reflexivity]; byte_eqs]|]); apply Forall_nil_2.
Qed.

Lemma Q_chars gs : grouped gs → Forall (λ x, x = 61 ∨ ∃ v, 0 ≤ v < 64 ∧ x = digit v) (Q gs).
Proof.
  unfold Q. induction gs as [|g gs IH]; [intros; apply Forall_nil_2|]. intros (Hg & Hb & Hgs & _)%grouped_inv. rewrite fmap_cons. cbn [concat].
  apply Forall_app_2; [by apply quantum_eqs|by apply IH].
Qed.

Lemma Q_eqs gs : grouped gs → eqs (Q gs) = 3 * Z.of_nat (length gs) - Z.of_nat (length (concat gs)) ∧ 0 ≤ eqs (Q gs) ≤ 2.
Proof.
  unfold Q. intros Hg. induction Hg as [|g H1 H2|g gs H1 H2 Hg [IH1 IH2]]; [done|..]; rewrite fmap_cons; cbn [concat length]; rewrite eqs_app, length_app.
  - destruct (quantum_eqs g H1 H2) as [-> _]. cbn. lia.
  - destruct (quantum_eqs g ltac:(lia) H2) as [-> _]. lia.
Qed.

(** Only padding follows padding. *)
Lemma eqs_before gs : grouped gs → ∀ B x X, B ++ x :: X = Q gs → x ≠ 61 → eqs B = 0.
Proof.
  induction gs as [|g gs IH]; intros Hg B x X E Hx; [by destruct B|]. apply grouped_inv in Hg as (Hl & Hb & Hgs & Hlast).
  unfold Q in E. rewrite fmap_cons in E. cbn [concat] in E. fold (Q gs) in E. pose proof (quantum_length g Hl) as Hq.
  destruct (decide (length B < 4)%nat) as [HB|HB].
  - destruct g as [|a [|b [|c0 [|? ?]]]]; cbn [length] in Hl; try lia; repeat (apply bytes_cons_inv in Hb as [? Hb]); cbn [quantum app] in E;
      destruct B as [|b0 [|b1 [|b2 [|b3 B]]]]; cbn [length app] in *; try lia; try done; injection E; intros; subst; try done;
      cbn [eqs]; rewrite ?digit_eqs by byte_eqs; done.
  - assert (B = quantum g ++ drop 4 B ∧ drop 4 B ++ x :: X = Q gs) as [EB EX].
    { rewrite <- (take_drop 4 B), <- app_assoc in E. apply app_inj_1 in E as [E1 E2]; [|rewrite length_take; lia]. by rewrite <- E1, take_drop. }
    rewrite EB, eqs_app, (IH Hgs _ _ _ EX Hx). destruct (quantum_eqs g Hl Hb) as [-> _].
    destruct Hlast as [->| ->]; [|done]. by destruct (drop 4 B).
Qed.

Lemma eqs_prefix gs B X : grouped gs → B ++ X = Q gs → 0 ≤ eqs B ≤ 2.
Proof.
  intros Hg E. destruct (Q_eqs gs Hg) as [_ H2]. rewrite <- E, eqs_app in H2. pose proof (eqs_nonneg B). pose proof (eqs_nonneg X). lia.
Qed.

(** ** Decoding a block *)

Lemma decode_quad a b c d k f : 0 ≤ a < 64 → 0 ≤ b < 64 → 0 ≤ c < 64 → 0 ≤ d < 64 → ∀ w x y z,
  conv_ascii2bin w = a → conv_ascii2bin x = b → conv_ascii2bin y = c → conv_ascii2bin z = d →
  decode_quads (S k) (w :: x :: y :: z :: f) =
  (r ← decode_quads k f; Some ([a * 4 + b / 16; b mod 16 * 16 + c / 4; c mod 4 * 64 + d] ++ r)).
Proof.
  intros Ha Hb Hc Hd w x y z Ew Ex Ey Ez. cbn [decode_quads drop].
  change (getb (w :: x :: y :: z :: f) 0) with w. change (getb (w :: x :: y :: z :: f) 1) with x.
  change (getb (w :: x :: y :: z :: f) 2) with y. change (getb (w :: x :: y :: z :: f) 3) with z. rewrite Ew, Ex, Ey, Ez.
  assert (∀ v, 0 ≤ v < 64 → Z.land v 0x80 = 0) as Hbit.
  { intros v Hv. apply Z.bits_inj'. intros i Hi. change 0x80 with (2 ^ 7). rewrite Z.land_spec, Z.bits_0, Z.pow2_bits_eqb by lia.
    destruct (Z.eqb_spec 7 i) as [<-|]; [|apply andb_false_r].
    rewrite andb_true_r. apply Z.testbit_false; [lia|]. by rewrite Z.div_small by lia. }
  cbn [existsb]. rewrite !Hbit by done. cbn [negb Z.eqb orb]. rewrite four_sixes by done.
  assert (∀ v, Z.land (u8 v) 0xff = v mod 256) as Hm.
  { intros v. change 0xff with (Z.ones 8). rewrite Z.land_ones by lia. unfold u8. change (2 ^ 8) with 256. by rewrite Z.mod_mod. }
  change (drop 0 f) with f. destruct (decode_quads k f) as [r|]; cbn [mbind option_bind]; [|done]. rewrite !Hm. f_equal. f_equal.
  do 3 (apply (f_equal2 cons); [byte_eqs|]). done.
Qed.

Lemma conv_eq : conv_ascii2bin 61 = 0.
Proof. done. Qed.

Lemma quad_spec g k f : (0 < length g ≤ 3)%nat → bytes g → decode_quads (S k) (quantum g ++ f) = (r ← decode_quads k f; Some (pad3 g ++ r)).
Proof.
  intros Hl Hb. destruct g as [|a [|b [|c [|? ?]]]]; cbn [length] in Hl; try lia; repeat (apply bytes_cons_inv in Hb as [? Hb]); cbn [quantum app].
  - rewrite (decode_quad (a / 4) (a mod 4 * 16) 0 0) by (done || byte_eqs || (apply digit_props; byte_eqs)).
    destruct (decode_quads k f); [|done]. cbn [mbind option_bind]. f_equal. f_equal. cbn. do 3 (apply (f_equal2 cons); [byte_eqs|]). done.
  - rewrite (decode_quad (a / 4) (a mod 4 * 16 + b / 16) (b mod 16 * 4) 0) by (done || byte_eqs || (apply digit_props; byte_eqs)).
    destruct (decode_quads k f); [|done]. cbn [mbind option_bind]. f_equal. f_equal. cbn. do 3 (apply (f_equal2 cons); [byte_eqs|]). done.
  - rewrite (decode_quad (a / 4) (a mod 4 * 16 + b / 16) (b mod 16 * 4 + c / 64) (c mod 64)) by (done || byte_eqs || (apply digit_props; byte_eqs)).
    destruct (decode_quads k f); [|done]. cbn [mbind option_bind]. f_equal. f_equal. cbn. do 3 (apply (f_equal2 cons); [byte_eqs|]). done.
Qed.

Lemma decode_quads_spec gs f : grouped gs → decode_quads (length gs) (Q gs ++ f) = Some (concat (pad3 <$> gs)).
Proof.
  unfold Q. induction gs as [|g gs IH]; [done|]. intros (Hg & Hb & Hgs & _)%grouped_inv. rewrite fmap_cons. cbn [concat length].
  rewrite <- app_assoc, quad_spec, IH by done. done.
Qed.

Lemma pad3_concat gs : grouped gs → take (length (concat gs)) (concat (pad3 <$> gs)) = concat gs ∧ length (concat (pad3 <$> gs)) = (3 * length gs)%nat.
Proof.
  intros Hg. induction Hg as [|g H1 H2|g gs H1 H2 Hg [IH1 IH2]]; [done|..]; rewrite fmap_cons; cbn [concat length].
  - cbn. rewrite !app_nil_r. unfold pad3. rewrite take_app_length, length_app, length_replicate. split; [done|lia].
  - assert (pad3 g = g) as -> by (unfold pad3; rewrite H1; apply app_nil_r). rewrite !length_app, IH2, H1. split; [|lia].
    rewrite take_app_ge by lia. rewrite H1. replace (3 + length (concat gs) - 3)%nat with (length (concat gs)) by lia. by rewrite IH1.
Qed.

Lemma char_plain x : x = 61 ∨ (∃ v, 0 ≤ v < 64 ∧ x = digit v) → ∃ v, conv_ascii2bin x = v ∧ 0 ≤ v < 64 ∧ B64_BASE64 v = true.
Proof.
  intros [->|(v & Hv & ->)]; [by exists 0|]. exists v. destruct (digit_props v Hv) as (? & _ & ? & _). done.
Qed.

Lemma DecodeBlock_spec gs f : grouped gs → gs ≠ [] → take (4 * length gs) f = Q gs →
  EVP_DecodeBlock f (Z.of_nat (4 * length gs)) = Some (Some (concat (pad3 <$> gs))).
Proof.
  intros Hg Hne E. pose proof (Q_length gs Hg) as Hl. pose proof (Q_chars gs Hg) as Hc.
  assert (0 < length gs)%nat as Hlg by (destruct gs; [done|cbn; lia]).
  assert (f = Q gs ++ drop (4 * length gs) f) as Ef by (rewrite <- E at 1; by rewrite take_drop).
  assert (∀ i, 0 ≤ i < Z.of_nat (4 * length gs) → B64_BASE64 (conv_ascii2bin (getb f i)) = true ∧ conv_ascii2bin (getb f i) < 64) as Hch.
  { intros i Hi. rewrite Ef, getb_app_l by lia. unfold getb, nthZ. rewrite nth_lookup.
    destruct (Q gs !! Z.to_nat i) as [x|] eqn:Ex; [|apply lookup_ge_None in Ex; lia].
    rewrite Forall_lookup in Hc. destruct (char_plain x (Hc _ _ Ex)) as (v & Ev & Hv & HB). cbn. rewrite Ev. by split; [|lia]. }
  unfold EVP_DecodeBlock. assert (skip_ws f (Z.of_nat (4 * length gs)) = Some (f, Z.of_nat (4 * length gs))) as ->.
  { destruct f as [|x f']; [destruct (Q gs); [cbn in Hl; lia|done]|]. cbn [skip_ws]. destruct (Hch 0 ltac:(lia)) as [_ H64].
    change (getb (x :: f') 0) with x in H64. rewrite (proj2 (Z.eqb_neq _ B64_WS)) by (unfold B64_WS; lia). done. }
  cbn [mbind option_bind]. assert (strip_end (Z.to_nat (Z.of_nat (4 * length gs))) f (Z.of_nat (4 * length gs)) = Z.of_nat (4 * length gs)) as ->.
  { destruct (Z.to_nat _) as [|n]; [done|]. cbn [strip_end]. destruct (Hch (Z.of_nat (4 * length gs) - 1) ltac:(lia)) as [HB _].
    unfold B64_BASE64 in HB. apply negb_true_iff in HB. by rewrite HB, andb_false_r. }
  rewrite Nat2Z.inj_mul. change (Z.of_nat 4) with 4. rewrite (Z.mul_comm 4), Z.mod_mul, Z.div_mul by lia. cbn [negb Z.eqb].
  rewrite Nat2Z.id. f_equal. rewrite Ef. by apply decode_quads_spec.
Qed.

(** ** Decoding a stream *)

(** The state has output everything but [gs], of which [X] is still to come. *)
Definition awaits (gs : list (list Z)) (X : list Z) (s : decoding) : Prop :=
  grouped gs ∧ 0 ≤ dn s < 64 ∧ length (dbuf s) = 80%nat ∧ take (Z.to_nat (dn s)) (dbuf s) ++ X = Q gs ∧ 0 ≤ deof s ≤ 2 ∧
  (gs ≠ [] → deof s = eqs (take (Z.to_nat (dn s)) (dbuf s))).

Lemma flush_spec gs X s h : grouped gs → 0 < dn s ≤ 64 → length (dbuf s) = 80%nat →
  take (Z.to_nat (dn s)) (dbuf s) ++ X = Q gs → deof s = eqs (take (Z.to_nat (dn s)) (dbuf s)) → dn s = Z.of_nat (4 * h) →
  flush s = Some (true, Decoding 0 (deof s) (dout s ++ concat (take h gs)) (dbuf s)) ∧
  awaits (drop h gs) X (Decoding 0 (deof s) (dout s ++ concat (take h gs)) (dbuf s)).
Proof.
  intros Hg Hn Hb E He Hh. set (B := take (Z.to_nat (dn s)) (dbuf s)) in *.
  assert (length B = (4 * h)%nat) as HB by (unfold B; rewrite length_take; lia).
  destruct (Q_prefix gs h B X Hg E HB) as (EB & EX & Hle). pose proof (grouped_take h gs Hg) as Hgt. set (hs := take h gs) in *.
  assert (length hs = h) as Hlh by (unfold hs; rewrite length_take; lia).
  destruct (Q_eqs hs Hgt) as [Ee He2]. rewrite <- EB, <- He in Ee, He2. destruct (pad3_concat hs Hgt) as [Ep Hpl].
  split.
  - unfold flush. rewrite Hh, <- Hlh, DecodeBlock_spec; [|done|intros ->; cbn in Hlh; lia|].
    + cbn [mbind option_bind deof dout dbuf]. rewrite Hpl, (proj2 (Z.ltb_ge _ (deof s))) by lia.
      assert (Z.to_nat (Z.of_nat (3 * length hs) - deof s) = length (concat hs)) as -> by lia. by rewrite Ep.
    + rewrite Hlh, <- EB. unfold B. f_equal. lia.
  - split; [by apply grouped_drop|]. split; [cbn; lia|]. split; [done|]. cbn [dn deof dbuf]. change (Z.to_nat 0) with 0%nat. rewrite take_0.
    split; [done|]. split; [lia|]. intros Hne. cbn [eqs].
    destruct (Q_eqs (drop h gs) (grouped_drop h gs Hg)) as [_ Hd2]. destruct X as [|x X'].
    { exfalso. apply Hne. pose proof (Q_length _ (grouped_drop h gs Hg)) as HQ. rewrite <- EX in HQ. cbn in HQ. apply nil_length_inv. lia. }
    destruct (decide (x = 61)) as [->|Hx]; [|rewrite He; by apply (eqs_before gs Hg B x X' E)].
    exfalso. destruct (drop h gs) as [|g gs'] eqn:Ed; [done|].
    assert (grouped (g :: gs')) as Hgd by (rewrite <- Ed; by apply grouped_drop). apply grouped_inv in Hgd as (Hlg & Hbg & _).
    unfold Q in EX. rewrite fmap_cons in EX. cbn [concat] in EX.
    destruct g as [|a [|b [|c0 [|? ?]]]]; cbn [length] in Hlg; try lia; repeat (apply bytes_cons_inv in Hbg as [? Hbg]); cbn [quantum app] in EX; injection EX as E1 _;
      (assert (0 ≤ a / 4 < 64) as Ha4 by (clear -H; byte_eqs)); by destruct (digit_props (a / 4) Ha4) as (_ & H61 & _).
Qed.

(** White space is no part of the text. *)
Definition is_ws (c : Z) : bool := existsb (Z.eqb c) [9; 10; 13; 32].
Definition significant (t : list Z) : list Z := filter (λ c, is_ws c = false) t.

Lemma ws_conv c : is_ws c = true → conv_ascii2bin c ≠ B64_ERROR ∧ conv_ascii2bin c ≠ B64_EOF ∧ B64_BASE64 (conv_ascii2bin c) = false ∧ c ≠ 61.
Proof.
  unfold is_ws. cbn [existsb]. rewrite !orb_true_iff, !Z.eqb_eq. intros [->|[->|[->|[->|]]]]; done.
Qed.

Lemma setb_take (l : list Z) (n c : Z) : 0 ≤ n < Z.of_nat (length l) → take (Z.to_nat (n + 1)) (setb l n c) = take (Z.to_nat n) l ++ [c] ∧ length (setb l n c) = length l.
Proof.
  intros Hn. unfold setb. rewrite length_insert. split; [|done]. replace (Z.to_nat (n + 1)) with (S (Z.to_nat n)) by lia.
  rewrite (take_S_r _ _ c) by (apply list_lookup_insert_eq; lia). by rewrite take_insert_ge by lia.
Qed.

Lemma loop_spec T : ∀ gs X s, awaits gs (significant T ++ X) s →
  ∃ h s', decode_loop T s = Some (Tail false, s') ∧ dout s' = dout s ++ concat (take h gs) ∧ awaits (drop h gs) X s'.
Proof.
  induction T as [|c T IH]; intros gs X s Hs.
  { exists 0%nat, s. cbn [decode_loop]. rewrite take_0, drop_0. cbn [concat]. by rewrite app_nil_r. }
  destruct Hs as (Hg & Hn & Hb & E & He & Hde). cbn [decode_loop]. destruct (is_ws c) eqn:Ew.
  - destruct (ws_conv c Ew) as (H1 & H2 & H3 & H4). apply Z.eqb_neq in H1, H2, H4. rewrite H1, H2, H3, H4, andb_false_r. cbn [dn deof dout dbuf].
    rewrite (proj2 (Z.ltb_ge 2 _)), (proj2 (Z.eqb_neq _ 64)) by lia. unfold significant in E. rewrite filter_cons_False in E by (by rewrite Ew).
    destruct s as [sn se so sb]. apply IH. exact (conj Hg (conj Hn (conj Hb (conj E (conj He Hde))))).
  - unfold significant in E. rewrite filter_cons_True in E by done. fold (significant T) in E. set (B := take _ _) in *.
    assert (gs ≠ []) as Hne by (intros ->; by destruct B). specialize (Hde Hne). cbn [app] in E.
    pose proof (Q_chars gs Hg) as Hc. rewrite <- E in Hc. apply Forall_app in Hc as [_ Hc]. apply Forall_inv in Hc as Hc.
    destruct (char_plain c Hc) as (v & Ev & Hv & HB). rewrite Ev, HB. rewrite (proj2 (Z.eqb_neq v B64_ERROR)), (proj2 (Z.eqb_neq v B64_EOF)) by (unfold B64_ERROR, B64_EOF; lia).
    assert (negb (c =? 61) && (0 <? deof s) && true = false) as ->.
    { destruct (Z.eqb_spec c 61) as [->|Hc61]; [done|]. rewrite Hde, (eqs_before gs Hg B c _ E Hc61). done. }
    cbn [dn deof dout dbuf andb]. set (e := if c =? 61 then deof s + 1 else deof s).
    assert (e = eqs (B ++ [c])) as Ee by (unfold e; rewrite eqs_app, Hde; cbn [eqs]; destruct (c =? 61); lia).
    assert ((B ++ [c]) ++ (significant T ++ X) = Q gs) as E' by by rewrite <- app_assoc.
    pose proof (eqs_prefix gs _ _ Hg E') as He2. rewrite (proj2 (Z.ltb_ge 2 e)), (proj2 (Z.leb_gt 64 _)) by lia.
    destruct (setb_take (dbuf s) (dn s) c ltac:(lia)) as [Et El]. fold B in Et.
    destruct (Z.eqb_spec (dn s + 1) 64) as [E64|E64].
    + destruct (flush_spec gs (significant T ++ X) (Decoding (dn s + 1) e (dout s) (setb (dbuf s) (dn s) c)) 16) as [F1 F2]; cbn [dn deof dout dbuf] in *;
        [done|lia|congruence|by rewrite Et|by rewrite Et|lia|].
      rewrite F1. cbn [mbind option_bind]. destruct (IH _ _ _ F2) as (h & s' & L1 & L2 & L3). exists (16 + h)%nat, s'.
      rewrite L1, L2. cbn [dout]. rewrite <- app_assoc, <- concat_app, <- drop_drop in *. split_and!; [done| |by rewrite drop_drop in *].
      do 2 f_equal. by rewrite take_take_drop.
    + destruct (IH gs X (Decoding (dn s + 1) e (dout s) (setb (dbuf s) (dn s) c))) as (h & s' & L); [|by exists h, s'].
      split; [done|]. cbn [dn deof dout dbuf]. rewrite Et, El. by split_and!; try done; try lia.
Qed.

(** Between two calls the buffer holds no whole number of quanta. *)
Definition broken (s : decoding) : Prop := dn s = 0 ∨ dn s mod 4 ≠ 0.

Lemma tail_spec gs X s : awaits gs X s → ∃ rv h s', decode_tail s false = Some (rv, s') ∧ 0 ≤ rv ∧ dout s' = dout s ++ concat (take h gs) ∧
  awaits (drop h gs) X s' ∧ broken s'.
Proof.
  intros (Hg & Hn & Hb & E & He & Hde). unfold decode_tail, broken. change 3 with (Z.ones 2). rewrite Z.land_ones by lia. change (2 ^ 2) with 4.
  assert (∀ s, 0 ≤ if false || ((dn s =? 0) && negb (deof s =? 0)) then 0 else 1) as Hrv by (intros s0; by destruct (_ || _)).
  destruct (Z.ltb_spec 0 (dn s)) as [H0|H0]; [destruct (Z.eqb_spec (dn s mod 4) 0) as [H4|H4]|].
  - assert (gs ≠ []) as Hne.
    { intros ->. apply (f_equal length) in E. rewrite length_app, length_take in E. cbn in E. lia. }
    destruct (flush_spec gs X s (Z.to_nat (dn s / 4)) Hg ltac:(lia) Hb E (Hde Hne)) as [F1 F2]; [Z.div_mod_to_equations; lia|].
    rewrite F1. cbn [mbind option_bind]. do 3 eexists. split; [reflexivity|]. split; [apply Hrv|]. split; [reflexivity|]. split; [done|by left].
  - eexists _, 0%nat, s. split; [reflexivity|]. split; [apply Hrv|]. rewrite take_0, drop_0. cbn [concat]. rewrite app_nil_r. split; [done|]. split; [exact (conj Hg (conj Hn (conj Hb (conj E (conj He Hde)))))|]. lia.
  - eexists _, 0%nat, s. split; [reflexivity|]. split; [apply Hrv|]. rewrite take_0, drop_0. cbn [concat]. rewrite app_nil_r. split; [done|]. split; [exact (conj Hg (conj Hn (conj Hb (conj E (conj He Hde)))))|]. lia.
Qed.

(** The padding found in the buffer is the padding that was put there. *)
Lemma buffered_eof_spec ctx gs X : grouped gs → 0 ≤ num ctx < 64 → length (enc_data ctx) = 80%nat → take (Z.to_nat (num ctx)) (enc_data ctx) ++ X = Q gs →
  buffered_eof ctx = eqs (take (Z.to_nat (num ctx)) (enc_data ctx)).
Proof.
  intros Hg Hn Hl E. pose proof (eqs_prefix gs _ _ Hg E) as H2. unfold buffered_eof.
  assert (∀ n, 0 < n ≤ num ctx → take (Z.to_nat n) (enc_data ctx) = take (Z.to_nat (n - 1)) (enc_data ctx) ++ [getb (enc_data ctx) (n - 1)]) as Hlast.
  { intros n Hn'. replace (Z.to_nat n) with (S (Z.to_nat (n - 1))) by lia. apply take_S_r. unfold getb, nthZ. rewrite nth_lookup.
    destruct (enc_data ctx !! Z.to_nat (n - 1)) eqn:Ex; [done|]. apply lookup_ge_None in Ex. lia. }
  destruct (Z.ltb_spec 0 (num ctx)) as [H0|H0]; [|assert (num ctx = 0) as -> by lia; done]. cbn [andb].
  rewrite Hlast in E, H2 |- * by lia. rewrite eqs_app in H2 |- *. cbn [eqs] in *. destruct (Z.eqb_spec (getb (enc_data ctx) (num ctx - 1)) 61) as [E1|E1].
  - destruct (Z.ltb_spec 1 (num ctx)) as [H1|H1]; [|assert (num ctx = 1) as -> by lia; done]. cbn [andb].
    rewrite Hlast in E, H2 |- * by lia. replace (num ctx - 1 - 1) with (num ctx - 2) in * by lia. rewrite eqs_app in H2 |- *. cbn [eqs] in *.
    destruct (Z.eqb_spec (getb (enc_data ctx) (num ctx - 2)) 61) as [E2|E2].
    + pose proof (eqs_nonneg (take (Z.to_nat (num ctx - 2)) (enc_data ctx))). lia.
    + rewrite <- !app_assoc in E. rewrite (eqs_before gs Hg _ _ _ E E2). done.
  - rewrite <- !app_assoc in E. rewrite (eqs_before gs Hg _ _ _ E E1). done.
Qed.

(** The context has output everything but [gs], of which [X] is still to come. *)
Definition ready (ctx : EVP_ENCODE_CTX) (gs : list (list Z)) (X : list Z) : Prop :=
  grouped gs ∧ 0 ≤ num ctx < 64 ∧ length (enc_data ctx) = 80%nat ∧ take (Z.to_nat (num ctx)) (enc_data ctx) ++ X = Q gs ∧
  (num ctx = 0 ∨ num ctx mod 4 ≠ 0).

Lemma DecodeUpdate_spec ctx gs p X : ready ctx gs (significant p ++ X) →
  ∃ rv h ctx', EVP_DecodeUpdate ctx p = Some (rv, concat (take h gs), ctx') ∧ 0 ≤ rv ∧ ready ctx' (drop h gs) X.
Proof.
  intros (Hg & Hn & Hl & E & Hbr). unfold EVP_DecodeUpdate. destruct p as [|c p].
  { exists 0, 0%nat, ctx. split; [by destruct ctx|]. split; [done|]. by rewrite drop_0. }
  set (s := Decoding _ _ _ _). assert (awaits gs (significant (c :: p) ++ X) s) as Hs.
  { pose proof (buffered_eof_spec ctx gs _ Hg Hn Hl E) as He. pose proof (eqs_prefix gs _ _ Hg E) as H2. rewrite <- He in H2.
    exact (conj Hg (conj Hn (conj Hl (conj E (conj H2 (λ _, He)))))). }
  destruct (loop_spec (c :: p) gs X s Hs) as (h1 & s1 & E1 & O1 & A1). destruct (tail_spec _ X s1 A1) as (rv & h2 & s2 & E2 & Hrv & O2 & A2 & B2).
  rewrite E1. cbn [mbind option_bind]. rewrite E2. cbn [mbind option_bind]. exists rv, (h1 + h2)%nat. eexists. split; [|split; [done|]].
  - rewrite O2, O1. cbn [dout s app]. by rewrite <- concat_app, take_take_drop.
  - rewrite drop_drop in A2. destruct A2 as (A21 & A22 & A23 & A24 & _). exact (conj A21 (conj A22 (conj A23 (conj A24 B2)))).
Qed.

Fixpoint decode_pieces (ctx : EVP_ENCODE_CTX) (ps : list (list Z)) : option (list Z * list Z * EVP_ENCODE_CTX) :=
  match ps with
  | [] => Some ([], [], ctx)
  | p :: ps =>
    '(rv, out, ctx) ← EVP_DecodeUpdate ctx p;
    '(rvs, rest, ctx) ← decode_pieces ctx ps;
    Some (rv :: rvs, out ++ rest, ctx)
  end.

(** The return values of the updates, the output and the return value of the final call. *)
Definition decode_stream (ctx : EVP_ENCODE_CTX) (ps : list (list Z)) : option (list Z * list Z * Z) :=
  '(rvs, out, ctx) ← decode_pieces (EVP_DecodeInit ctx) ps;
  '(rv, last, _) ← EVP_DecodeFinal ctx;
  Some (rvs, out ++ last, rv).

Lemma decode_pieces_spec ps : ∀ ctx gs, ready ctx gs (significant (concat ps)) →
  ∃ rvs ctx', decode_pieces ctx ps = Some (rvs, concat gs, ctx') ∧ Forall (λ rv, 0 ≤ rv) rvs ∧ num ctx' = 0.
Proof.
  induction ps as [|p ps IH]; intros ctx gs Hr.
  - destruct Hr as (Hg & Hn & Hl & E & Hbr). cbn [concat significant filter] in E. rewrite app_nil_r in E. apply (f_equal length) in E as E'.
    rewrite length_take, Q_length in E' by done. assert (num ctx = 0) as H0 by (destruct Hbr as [|Hbr]; [done|]; exfalso; apply Hbr; Z.div_mod_to_equations; lia).
    assert (gs = []) as -> by (apply nil_length_inv; lia). exists [], ctx. split; [done|]. by split; [apply Forall_nil_2|].
  - cbn [concat] in Hr. unfold significant in Hr. rewrite list.filter_app in Hr. destruct (DecodeUpdate_spec ctx gs p _ Hr) as (rv & h & ctx1 & E1 & Hrv & Hr1).
    destruct (IH _ _ Hr1) as (rvs & ctx2 & E2 & Hrvs & H0). exists (rv :: rvs), ctx2. cbn [decode_pieces]. rewrite E1. cbn [mbind option_bind].
    rewrite E2. cbn [mbind option_bind]. rewrite <- concat_app, take_drop. split; [done|]. by split; [apply Forall_cons_2|].
Qed.

Lemma decode_stream_spec ctx ts m : length (enc_data ctx) = 80%nat → bytes m → significant (concat ts) = base64 m →
  ∃ rvs, decode_stream ctx ts = Some (rvs, m, 1) ∧ Forall (λ rv, 0 ≤ rv) rvs.
Proof.
  intros Hl Hb E. destruct (groups_grouped m Hb) as [Hg Hc].
  destruct (decode_pieces_spec ts (EVP_DecodeInit ctx) (groups m)) as (rvs & ctx' & E1 & Hrvs & H0).
  { split; [done|]. split; [cbn; lia|]. split; [done|]. split; [exact E|by left]. }
  exists rvs. split; [|done]. unfold decode_stream, EVP_DecodeFinal. rewrite E1. cbn [mbind option_bind]. rewrite H0. cbn [negb Z.eqb mbind option_bind].
  by rewrite Hc, app_nil_r.
Qed.

Lemma sig_base64 m : bytes m → significant (base64 m) = base64 m.
Proof.
  intros Hb. destruct (groups_grouped m Hb) as [Hg _]. pose proof (Q_chars _ Hg) as Hc. fold (base64 m) in Hc. unfold significant.
  change (Q (groups m)) with (base64 m) in Hc. induction Hc as [|x l Hx _ IH]; [done|]. rewrite filter_cons_True; [by rewrite IH|].
  destruct (is_ws x) eqn:Ew; [|done]. destruct (ws_conv x Ew) as (_ & _ & H3 & _). destruct (char_plain x Hx) as (v & Ev & _ & HB). congruence.
Qed.

Lemma base64_app k m : length k = 48%nat → base64 (k ++ m) = base64 k ++ base64 m.
Proof.
  intros Hk. assert (∃ j, length k = (3 * j)%nat) as [j Hj] by (by exists 16%nat). clear Hk. revert k Hj.
  induction j as [|j IH]; intros k Hj; [apply nil_length_inv in Hj as ->; done|]. destruct k as [|a [|b [|c k]]]; cbn [length] in Hj; try lia.
  change (quantum [a; b; c] ++ base64 (k ++ m) = (quantum [a; b; c] ++ base64 k) ++ base64 m). rewrite IH by lia. by rewrite app_assoc.
Qed.

(** The lines are the encoding of the whole, cut. *)
Lemma sig_lines m : bytes m → significant (base64_lines m) = base64 m.
Proof.
  unfold base64_lines. assert (∀ fuel m, (length m ≤ fuel)%nat → bytes m → significant (wrap fuel m) = base64 m) as H; [|by apply H].
  induction fuel as [|fuel IH]; intros m' Hf Hb; [by destruct m'; [|cbn in Hf; lia]|]. destruct m' as [|x m']; [done|]. set (l := x :: m') in *.
  change (wrap (S fuel) l) with (base64 (take 48 l) ++ [10] ++ wrap fuel (drop 48 l)). unfold significant. rewrite !list.filter_app. fold (significant (base64 (take 48 l))) (significant (wrap fuel (drop 48 l))).
  rewrite sig_base64 by by apply Forall_take. rewrite IH; [|rewrite length_drop; unfold l in *; cbn [length] in *; lia|by apply Forall_drop].
  change (filter (λ c, is_ws c = false) [10]) with (@nil Z). cbn [app]. destruct (decide (48 ≤ length l)%nat) as [H48|H48].
  - rewrite <- base64_app by (rewrite length_take; lia). by rewrite take_drop.
  - rewrite take_ge, drop_ge by lia. by rewrite app_nil_r.
Qed.

(** C25: base 64 streams.  However a message is cut into calls of [EVP_EncodeUpdate], the
    output is its encoding of RFC 4648 in lines of 64 characters; and however a text is cut
    into calls of [EVP_DecodeUpdate], empty ones included, if its characters other than white
    space are those of that encoding (the output itself, for one), every call succeeds, the
    output is the message and [EVP_DecodeFinal] succeeds. *)
Theorem base64_roundtrip ctx ctx' ps ts :
  length (enc_data ctx) = 80%nat → length (enc_data ctx') = 80%nat →
  Forall (λ p, bytes p ∧ Z.of_nat (length p) < 2 ^ 30) ps →
  let m := concat ps in
  encode_stream ctx ps = Some (base64_lines m) ∧
  significant (base64_lines m) = base64 m ∧
  (significant (concat ts) = base64 m → ∃ rvs, decode_stream ctx' ts = Some (rvs, m, 1) ∧ Forall (λ rv, 0 ≤ rv) rvs).
Proof.
  intros Hl Hl' Hps m. assert (bytes m) as Hb.
  { clear -Hps. unfold m. induction Hps as [|p ps [Hp _] _ IH]; [apply Forall_nil_2|]. cbn [concat]. by apply bytes_app. }
  split; [by apply encode_stream_spec|]. split; [by apply sig_lines|]. by apply decode_stream_spec.
Qed.

Definition demo_ctx : EVP_ENCODE_CTX := EncCtx 7 0 (replicate 80 0) 0 0.
Definition demo_pieces : list (list Z) := [seqZ 1 40; []; seqZ 100 60].
Definition demo_text : list (list Z) := [take 30 (base64_lines (concat demo_pieces)); [32; 10]; []; drop 30 (base64_lines (concat demo_pieces))].

Lemma base64_roundtrip_witness :
  encode_stream demo_ctx demo_pieces = Some (base64_lines (seqZ 1 40 ++ seqZ 100 60)) ∧
  ∃ rvs, decode_stream demo_ctx demo_text = Some (rvs, seqZ 1 40 ++ seqZ 100 60, 1) ∧ Forall (λ rv, 0 ≤ rv) rvs.
Proof.
  destruct (base64_roundtrip demo_ctx demo_ctx demo_pieces demo_text) as (H1 & _ & H3).
  - reflexivity.
  - reflexivity.
  - apply (bool_decide_eq_true_1 _). vm_compute. reflexivity.
  - split; [exact H1|]. apply H3. vm_compute. reflexivity.
Defined.

(** A block of white space only is read past its end: the test of [*f] comes before the
    test of [n]. *)
Lemma white_block_overread n : 0 ≤ n → EVP_DecodeBlock (replicate (Z.to_nat n) 32) n = None.
Proof.
  intros Hn. unfold EVP_DecodeBlock. assert (skip_ws (replicate (Z.to_nat n) 32) n = None) as ->; [|done].
  rewrite <- (Z2Nat.id n Hn) at 2. generalize (Z.to_nat n) as k. induction k as [|k IH]; [done|]. cbn [replicate skip_ws].
  rewrite (proj2 (Z.ltb_lt 0 _)) by lia. cbn [andb]. change (conv_ascii2bin 32 =? B64_WS) with true. cbn [andb].
  replace (Z.of_nat (S k) - 1) with (Z.of_nat k) by lia. exact IH.
Qed.
