(* ===== verification/BioPair.v ===== *)
(** * BIO pairs

    Models [crypto/bio/bss_bio.c]: two connected BIOs, each with a ring buffer for
    what is written to it, read by the other.  The BIOs live in a heap of [BIO]
    structures that point at their peers.  An operation is a function on the heap
    that returns its result and the new heap, or [None] when it dereferences a
    null pointer or one of the assertions of the code fails (they are compiled in
    with [BIO_PAIR_DEBUG]); the theorems show that this does not happen.

    The specification of a direction is a queue of bytes of bounded length.
    Callbacks of the BIO and the error queue are not modelled. *)

From stdpp Require Import gmap.
From S2P Require Import Prelude.
#[local] Open Scope Z_scope.

(** ** State *)

Record bio_bio_st := BB {
  peer : option positive;
  closed : bool;
  len : Z;
  offset : Z;
  size : Z;
  buf : option (list Z);
  request : Z
}.

Record BIO := mkBIO {
  init : bool;
  shutdown : Z;
  flags : Z;
  ptr : option bio_bio_st;
  num_read : Z;
  num_write : Z
}.

Abbreviation heap := (gmap positive BIO).

Definition M (A : Type) : Type := heap → option (A * heap).

Definition ret {A} (x : A) : M A := λ h, Some (x, h).
Definition fault {A} : M A := λ h, None.
Definition bind {A B} (m : M A) (f : A → M B) : M B := λ h,
  match m h with Some (x, h') => f x h' | None => None end.

Declare Scope bio_scope.
Delimit Scope bio_scope with bio.
Notation "x <- m ;; k" := (bind m (λ x, k))
  (at level 100, m at next level, k at level 200, right associativity) : bio_scope.
Notation "m ;;; k" := (bind m (λ _, k))
  (at level 100, k at level 200, right associativity) : bio_scope.
#[local] Open Scope bio_scope.

Definition get_bio (p : positive) : M BIO := λ h,
  match h !! p with Some B => Some (B, h) | None => None end.
Definition put_bio (p : positive) (B : BIO) : M unit := λ h, Some (tt, <[p := B]> h).
Definition deref {A} (o : option A) : M A := match o with Some x => ret x | None => fault end.
Definition assert (b : bool) : M unit := if b then ret tt else fault.

(** The [bio_bio_st] of a BIO. *)
Definition get_b (p : positive) : M bio_bio_st := B <- get_bio p ;; deref (ptr B).
Definition put_b (p : positive) (b : bio_bio_st) : M unit :=
  B <- get_bio p ;; put_bio p (mkBIO (init B) (shutdown B) (flags B) (Some b) (num_read B) (num_write B)).

(** Assignments to fields. *)
Definition set_request (r : Z) (b : bio_bio_st) : bio_bio_st :=
  BB (peer b) (closed b) (len b) (offset b) (size b) (buf b) r.
Definition set_len_offset (l o : Z) (b : bio_bio_st) : bio_bio_st :=
  BB (peer b) (closed b) l o (size b) (buf b) (request b).
Definition set_init (p : positive) (i : bool) : M unit :=
  B <- get_bio p ;; put_bio p (mkBIO i (shutdown B) (flags B) (ptr B) (num_read B) (num_write B)).

Definition BIO_FLAGS_READ : Z := 0x01.
Definition BIO_FLAGS_WRITE : Z := 0x02.
Definition BIO_FLAGS_RWS : Z := 0x07.
Definition BIO_FLAGS_SHOULD_RETRY : Z := 0x08.

Definition BIO_set_flags (p : positive) (f : Z) : M unit :=
  B <- get_bio p ;;
  put_bio p (mkBIO (init B) (shutdown B) (Z.lor (flags B) f) (ptr B) (num_read B) (num_write B)).
Definition BIO_clear_flags (p : positive) (f : Z) : M unit :=
  B <- get_bio p ;;
  put_bio p (mkBIO (init B) (shutdown B) (Z.land (flags B) (Z.lnot f)) (ptr B) (num_read B) (num_write B)).

Definition BIO_clear_retry_flags (p : positive) : M unit :=
  BIO_clear_flags p (Z.lor BIO_FLAGS_RWS BIO_FLAGS_SHOULD_RETRY).
Definition BIO_set_retry_read (p : positive) : M unit :=
  BIO_set_flags p (Z.lor BIO_FLAGS_READ BIO_FLAGS_SHOULD_RETRY).
Definition BIO_set_retry_write (p : positive) : M unit :=
  BIO_set_flags p (Z.lor BIO_FLAGS_WRITE BIO_FLAGS_SHOULD_RETRY).

Definition SSIZE_MAX : Z := 2 ^ 63 - 1.
Definition INT_MAX : Z := 2 ^ 31 - 1.

(** ** Creation and release *)

(** [ok] is the success of [malloc]. *)
Definition bio_new (ok : bool) (p : positive) : M Z :=
  if ok then put_b p (BB None false 0 0 (17 * 1024) None 0) ;;; ret 1 else ret 0.

Definition bio_destroy_pair (p : positive) : M unit :=
  B <- get_bio p ;;
  match ptr B with
  | None => ret tt
  | Some b =>
      match peer b with
      | None => ret tt
      | Some q =>
          pb <- get_b q ;;
          assert (bool_decide (peer pb = Some p)) ;;;
          put_b q (BB None (closed pb) (len pb) (offset pb) (size pb) (buf pb) (request pb)) ;;;
          set_init q false ;;;
          pb <- get_b q ;;
          assert (bool_decide (is_Some (buf pb))) ;;;
          put_b q (set_len_offset 0 0 pb) ;;;
          b <- get_b p ;;
          put_b p (BB None (closed b) (len b) (offset b) (size b) (buf b) (request b)) ;;;
          set_init p false ;;;
          b <- get_b p ;;
          assert (bool_decide (is_Some (buf b))) ;;;
          put_b p (set_len_offset 0 0 b)
      end
  end.

(** The structure is released; the BIO itself belongs to the caller. *)
Definition bio_free (p : positive) : M Z :=
  b <- get_b p ;;
  (match peer b with Some _ => bio_destroy_pair p | None => ret tt end) ;;;
  B <- get_bio p ;;
  put_bio p (mkBIO (init B) (shutdown B) (flags B) None (num_read B) (num_write B)) ;;;
  ret 1.

(** [ok1] and [ok2] are the outcomes of the two allocations, [junk] what fresh
    memory holds. *)
Definition alloc_buf (ok : bool) (junk : Z) (p : positive) : M bool :=
  b <- get_b p ;;
  match buf b with
  | Some _ => ret true
  | None =>
      if ok then
        put_b p (BB (peer b) (closed b) 0 0 (size b) (Some (replicate (Z.to_nat (size b)) junk)) (request b)) ;;;
        ret true
      else ret false
  end.

Definition bio_make_pair (ok1 ok2 : bool) (junk : Z) (p q : positive) : M Z :=
  b1 <- get_b p ;;
  b2 <- get_b q ;;
  if bool_decide (is_Some (peer b1)) || bool_decide (is_Some (peer b2)) then ret 0
  else
    r1 <- alloc_buf ok1 junk p ;;
    if negb r1 then ret 0
    else
      r2 <- alloc_buf ok2 junk q ;;
      if negb r2 then ret 0
      else
        b1 <- get_b p ;;
        put_b p (BB (Some q) false (len b1) (offset b1) (size b1) (buf b1) 0) ;;;
        b2 <- get_b q ;;
        put_b q (BB (Some p) false (len b2) (offset b2) (size b2) (buf b2) 0) ;;;
        set_init p true ;;;
        set_init q true ;;;
        ret 1.

(** ** Copying reads and writes *)

Definition bytes_of (b : bio_bio_st) : list Z := default [] (buf b).

(** The [do ... while (rest)] loop of [bio_read] on the structure of the peer: the
    bytes copied and the structure, [None] when an assertion fails or the fuel is
    used up. *)
Fixpoint read_loop (fuel : nat) (b : bio_bio_st) (rest : Z) : option (list Z * bio_bio_st) :=
  match fuel with
  | O => None
  | S fuel =>
      if negb (rest <=? len b) then None
      else
        let chunk := if offset b + rest <=? size b then rest else size b - offset b in
        if negb (offset b + chunk <=? size b) then None
        else
          let out := take (Z.to_nat chunk) (drop (Z.to_nat (offset b)) (bytes_of b)) in
          let l := len b - chunk in
          let o := if l =? 0 then 0
                   else if offset b + chunk =? size b then 0 else offset b + chunk in
          if (l =? 0) && negb (chunk =? rest) then None
          else
            let b := set_len_offset l o b in
            let rest := rest - chunk in
            if rest =? 0 then Some (out, b)
            else match read_loop fuel b rest with
                 | Some (out', b) => Some (out ++ out', b)
                 | None => None
                 end
  end.

(** [dst] tells whether the destination is not a null pointer; the result is the
    return value and the bytes copied to it. *)
Definition bio_read (p : positive) (dst : bool) (size_ : Z) : M (Z * list Z) :=
  let n := u64 size_ in
  BIO_clear_retry_flags p ;;;
  B <- get_bio p ;;
  if negb (init B) then ret (0, [])
  else
    b <- get_b p ;;
    q <- deref (peer b) ;;
    pb <- get_b q ;;
    assert (bool_decide (is_Some (buf pb))) ;;;
    put_b q (set_request 0 pb) ;;;
    if negb dst || (n =? 0) then ret (0, [])
    else
      pb <- get_b q ;;
      if len pb =? 0 then
        if closed pb then ret (0, [])
        else
          BIO_set_retry_read p ;;;
          pb <- get_b q ;;
          put_b q (set_request (if n <=? size pb then n else size pb) pb) ;;;
          ret (-1, [])
      else
        let n := if len pb <? n then len pb else n in
        r <- deref (read_loop 2 pb n) ;;
        put_b q r.2 ;;;
        ret (n, r.1).

(** The [do ... while (rest)] loop of [bio_write]. *)
Fixpoint write_loop (fuel : nat) (b : bio_bio_st) (src : list Z) (rest : Z) : option bio_bio_st :=
  match fuel with
  | O => None
  | S fuel =>
      if negb (len b + rest <=? size b) then None
      else
        let w := offset b + len b in
        let w := if size b <=? w then w - size b else w in
        let chunk := if w + rest <=? size b then rest else size b - w in
        let d := splice (bytes_of b) (Z.to_nat w) (take (Z.to_nat chunk) src) in
        let l := len b + chunk in
        if negb (l <=? size b) then None
        else
          let b := BB (peer b) (closed b) l (offset b) (size b) (Some d) (request b) in
          let rest := rest - chunk in
          if rest =? 0 then Some b else write_loop fuel b (drop (Z.to_nat chunk) src) rest
  end.

(** [src] is the data, [None] for a null pointer; [num_] bytes of it are offered. *)
Definition bio_write (p : positive) (src : option (list Z)) (num_ : Z) : M Z :=
  let n := u64 num_ in
  BIO_clear_retry_flags p ;;;
  B <- get_bio p ;;
  match src with
  | None => ret 0
  | Some src =>
      if negb (init B) || (n =? 0) then ret 0
      else
        b <- get_b p ;;
        assert (bool_decide (is_Some (peer b))) ;;;
        assert (bool_decide (is_Some (buf b))) ;;;
        put_b p (set_request 0 b) ;;;
        if closed b then ret (-1)
        else
          assert (len b <=? size b) ;;;
          if len b =? size b then BIO_set_retry_write p ;;; ret (-1)
          else
            let n := if size b - len b <? n then size b - len b else n in
            b <- get_b p ;;
            b' <- deref (write_loop 2 b src n) ;;
            put_b p b' ;;;
            ret n
  end.

Definition bio_puts (p : positive) (str : list Z) : M Z := bio_write p (Some str) (Z.of_nat (length str)).

(** ** Reads and writes without copying

    The second result is the region handed out: an offset in the buffer of a BIO. *)

Definition bio_nread0 (p : positive) : M (Z * option (positive * Z)) :=
  BIO_clear_retry_flags p ;;;
  B <- get_bio p ;;
  if negb (init B) then ret (0, None)
  else
    b <- get_b p ;;
    q <- deref (peer b) ;;
    pb <- get_b q ;;
    assert (bool_decide (is_Some (buf pb))) ;;;
    put_b q (set_request 0 pb) ;;;
    if len pb =? 0 then
      r <- bio_read p true 1 ;; ret (r.1, None)
    else
      let n := if size pb <? offset pb + len pb then size pb - offset pb else len pb in
      assert (0 <? n) ;;;
      ret (n, Some (q, offset pb)).

Definition bio_nread (p : positive) (num_ : Z) : M (Z * option (positive * Z)) :=
  let n := if SSIZE_MAX <? num_ then SSIZE_MAX else num_ in
  r <- bio_nread0 p ;;
  let n := if r.1 <? n then r.1 else n in
  if n <=? 0 then ret (n, r.2)
  else
    b <- get_b p ;;
    q <- deref (peer b) ;;
    pb <- get_b q ;;
    let l := len pb - n in
    let o := if l =? 0 then 0 else if offset pb + n =? size pb then 0 else offset pb + n in
    assert ((l =? 0) || (offset pb + n <=? size pb)) ;;;
    put_b q (set_len_offset l o pb) ;;;
    ret (n, r.2).

Definition bio_nwrite0 (p : positive) : M (Z * option (positive * Z)) :=
  BIO_clear_retry_flags p ;;;
  B <- get_bio p ;;
  if negb (init B) then ret (0, None)
  else
    b <- get_b p ;;
    assert (bool_decide (is_Some (peer b))) ;;;
    assert (bool_decide (is_Some (buf b))) ;;;
    put_b p (set_request 0 b) ;;;
    if closed b then ret (-1, None)
    else
      assert (len b <=? size b) ;;;
      if len b =? size b then BIO_set_retry_write p ;;; ret (-1, None)
      else
        let n := size b - len b in
        let w := offset b + len b in
        let w := if size b <=? w then w - size b else w in
        let n := if size b <? w + n then size b - w else n in
        assert (w + n <=? size b) ;;;
        ret (n, Some (p, w)).

Definition bio_nwrite (p : positive) (num_ : Z) : M (Z * option (positive * Z)) :=
  let n := if SSIZE_MAX <? num_ then SSIZE_MAX else num_ in
  r <- bio_nwrite0 p ;;
  let n := if r.1 <? n then r.1 else n in
  if n <=? 0 then ret (n, r.2)
  else
    b <- get_b p ;;
    assert (len b + n <=? size b) ;;;
    put_b p (set_len_offset (len b + n) (offset b) b) ;;;
    ret (n, r.2).

(** ** Control *)

(** The commands with the arguments they use. *)
Inductive ctrl_cmd :=
  | BIO_C_SET_WRITE_BUF_SIZE (num : Z)
  | BIO_C_GET_WRITE_BUF_SIZE
  | BIO_C_MAKE_BIO_PAIR (other_bio : positive)
  | BIO_C_DESTROY_BIO_PAIR
  | BIO_C_GET_WRITE_GUARANTEE
  | BIO_C_GET_READ_REQUEST
  | BIO_C_RESET_READ_REQUEST
  | BIO_C_SHUTDOWN_WR
  | BIO_C_NREAD0
  | BIO_C_NREAD (num : Z)
  | BIO_C_NWRITE0
  | BIO_C_NWRITE (num : Z)
  | BIO_CTRL_RESET
  | BIO_CTRL_GET_CLOSE
  | BIO_CTRL_SET_CLOSE (num : Z)
  | BIO_CTRL_PENDING
  | BIO_CTRL_WPENDING
  | BIO_CTRL_DUP (other_bio : positive)
  | BIO_CTRL_FLUSH
  | BIO_CTRL_EOF (other_bio : option positive)
  | OTHER_CMD.

(** [ok1], [ok2] and [junk] serve the allocations of [BIO_C_MAKE_BIO_PAIR].  The
    second result is the region of the commands that do not copy. *)
Definition bio_ctrl (ok1 ok2 : bool) (junk : Z) (p : positive) (cmd : ctrl_cmd)
  : M (Z * option (positive * Z)) :=
  b <- get_b p ;;
  match cmd with
  | BIO_C_SET_WRITE_BUF_SIZE num =>
      if bool_decide (is_Some (peer b)) then ret (0, None)
      else if num =? 0 then ret (0, None)
      else
        (if size b =? u64 num then ret tt
         else put_b p (BB (peer b) (closed b) (len b) (offset b) (u64 num) None (request b))) ;;;
        ret (1, None)
  | BIO_C_GET_WRITE_BUF_SIZE => ret (size b, None)
  | BIO_C_MAKE_BIO_PAIR other =>
      r <- bio_make_pair ok1 ok2 junk p other ;;
      ret (if r =? 0 then 0 else 1, None)
  | BIO_C_DESTROY_BIO_PAIR => bio_destroy_pair p ;;; ret (1, None)
  | BIO_C_GET_WRITE_GUARANTEE =>
      if bool_decide (peer b = None) || closed b then ret (0, None) else ret (size b - len b, None)
  | BIO_C_GET_READ_REQUEST => ret (request b, None)
  | BIO_C_RESET_READ_REQUEST => put_b p (set_request 0 b) ;;; ret (1, None)
  | BIO_C_SHUTDOWN_WR =>
      put_b p (BB (peer b) true (len b) (offset b) (size b) (buf b) (request b)) ;;; ret (1, None)
  | BIO_C_NREAD0 => bio_nread0 p
  | BIO_C_NREAD num => bio_nread p (u64 num)
  | BIO_C_NWRITE0 => bio_nwrite0 p
  | BIO_C_NWRITE num => bio_nwrite p (u64 num)
  | BIO_CTRL_RESET =>
      (match buf b with Some _ => put_b p (set_len_offset 0 0 b) | None => ret tt end) ;;; ret (0, None)
  | BIO_CTRL_GET_CLOSE => B <- get_bio p ;; ret (shutdown B, None)
  | BIO_CTRL_SET_CLOSE num =>
      B <- get_bio p ;;
      put_bio p (mkBIO (init B) num (flags B) (ptr B) (num_read B) (num_write B)) ;;; ret (1, None)
  | BIO_CTRL_PENDING =>
      match peer b with
      | Some q => pb <- get_b q ;; ret (len pb, None)
      | None => ret (0, None)
      end
  | BIO_CTRL_WPENDING => ret (match buf b with Some _ => len b | None => 0 end, None)
  | BIO_CTRL_DUP other =>
      ob <- get_b other ;;
      assert (bool_decide (buf ob = None)) ;;;
      put_b other (BB (peer ob) (closed ob) (len ob) (offset ob) (size b) (buf ob) (request ob)) ;;;
      ret (1, None)
  | BIO_CTRL_FLUSH => ret (1, None)
  | BIO_CTRL_EOF other =>
      match other with
      | Some q => ob <- get_b q ;; ret (if (len ob =? 0) && closed ob then 1 else 0, None)
      | None => ret (1, None)
      end
  | OTHER_CMD => ret (0, None)
  end.

(** ** Exported functions *)

(** [BIO_new] of this type at the fresh address [p]; [ok] is the success of its
    allocations. *)
Definition BIO_new (ok : bool) (p : positive) : M (option positive) :=
  if ok then put_bio p (mkBIO false 1 0 None 0 0) ;;; _ <- bio_new true p ;; ret (Some p)
  else ret None.

Definition BIO_free (p : positive) : M unit :=
  _ <- bio_free p ;; (λ h, Some (tt, delete p h)).

(** [oks] are the outcomes of the allocations: the two BIOs, the two buffers. *)
Definition BIO_new_bio_pair (ok1 ok2 ok3 ok4 : bool) (junk : Z) (p q : positive) (writebuf1 writebuf2 : Z)
  : M (Z * option (positive * positive)) :=
  let err (bios : list positive) : M (Z * option (positive * positive)) :=
    foldr (λ p m, BIO_free p ;;; m) (ret (0, None)) bios in
  r <- BIO_new ok1 p ;;
  match r with
  | None => err []
  | Some bio1 =>
      r <- BIO_new ok2 q ;;
      match r with
      | None => err [bio1]
      | Some bio2 =>
          r1 <- (if writebuf1 =? 0 then ret (1, None)
                 else bio_ctrl ok3 ok4 junk bio1 (BIO_C_SET_WRITE_BUF_SIZE writebuf1)) ;;
          if r1.1 =? 0 then err [bio1; bio2]
          else
            r2 <- (if writebuf2 =? 0 then ret (1, None)
                   else bio_ctrl ok3 ok4 junk bio2 (BIO_C_SET_WRITE_BUF_SIZE writebuf2)) ;;
            if r2.1 =? 0 then err [bio1; bio2]
            else
              r <- bio_ctrl ok3 ok4 junk bio1 (BIO_C_MAKE_BIO_PAIR bio2) ;;
              if r.1 =? 0 then err [bio1; bio2]
              else ret (1, Some (bio1, bio2))
      end
  end.

(** The wrappers of the commands; no command of theirs allocates. *)
Definition ctrl (p : positive) (cmd : ctrl_cmd) : M (Z * option (positive * Z)) :=
  bio_ctrl true true 0 p cmd.

Definition BIO_ctrl_get_write_guarantee (p : positive) : M Z :=
  r <- ctrl p BIO_C_GET_WRITE_GUARANTEE ;; ret r.1.
Definition BIO_ctrl_get_read_request (p : positive) : M Z :=
  r <- ctrl p BIO_C_GET_READ_REQUEST ;; ret r.1.
Definition BIO_ctrl_reset_read_request (p : positive) : M bool :=
  r <- ctrl p BIO_C_RESET_READ_REQUEST ;; ret (negb (r.1 =? 0)).

(** [(int)] of a [long]. *)
Definition to_int (z : Z) : Z := (z + 2 ^ 31) `mod` 2 ^ 32 - 2 ^ 31.

Definition BIO_nread0 (p : positive) : M (Z * option (positive * Z)) :=
  B <- get_bio p ;;
  if negb (init B) then ret (-2, None)
  else r <- ctrl p BIO_C_NREAD0 ;; ret (if INT_MAX <? r.1 then INT_MAX else to_int r.1, r.2).

Definition BIO_nread (p : positive) (num : Z) : M (Z * option (positive * Z)) :=
  B <- get_bio p ;;
  if negb (init B) then ret (-2, None)
  else
    r <- ctrl p (BIO_C_NREAD num) ;;
    let n := to_int r.1 in
    B <- get_bio p ;;
    (if 0 <? n
     then put_bio p (mkBIO (init B) (shutdown B) (flags B) (ptr B) (u64 (num_read B + n)) (num_write B))
     else ret tt) ;;;
    ret (n, r.2).

Definition BIO_nwrite0 (p : positive) : M (Z * option (positive * Z)) :=
  B <- get_bio p ;;
  if negb (init B) then ret (-2, None)
  else r <- ctrl p BIO_C_NWRITE0 ;; ret (if INT_MAX <? r.1 then INT_MAX else to_int r.1, r.2).

Definition BIO_nwrite (p : positive) (num : Z) : M (Z * option (positive * Z)) :=
  B <- get_bio p ;;
  if negb (init B) then ret (-2, None)
  else
    r <- ctrl p (BIO_C_NWRITE num) ;;
    let n := to_int r.1 in
    B <- get_bio p ;;
    (if 0 <? n
     then put_bio p (mkBIO (init B) (shutdown B) (flags B) (ptr B) (num_read B) (u64 (num_write B + n)))
     else ret tt) ;;;
    ret (n, r.2).

(** ** The ring buffer as a queue *)

Definition ring_ok (b : bio_bio_st) : Prop :=
  is_Some (buf b) ∧ Z.of_nat (length (bytes_of b)) = size b ∧
  0 ≤ len b ≤ size b ∧ 0 ≤ offset b < size b.

Definition queue (b : bio_bio_st) : list Z :=
  let d := bytes_of b in
  if offset b + len b <=? size b then take (Z.to_nat (len b)) (drop (Z.to_nat (offset b)) d)
  else drop (Z.to_nat (offset b)) d ++ take (Z.to_nat (offset b + len b - size b)) d.

Lemma length_queue b : ring_ok b → Z.of_nat (length (queue b)) = len b.
Proof.
  intros (_ & Hd & Hl & Ho). unfold queue. destruct (Z.leb_spec (offset b + len b) (size b)).
  - rewrite length_take, length_drop. lia.
  - rewrite length_app, length_take, length_drop. lia.
Qed.

(** Where the next byte is written. *)
Definition write_offset (b : bio_bio_st) : Z :=
  if size b <=? offset b + len b then offset b + len b - size b else offset b + len b.

(** The index after [chunk] bytes have been read. *)
Definition next_offset (b : bio_bio_st) (chunk : Z) : Z :=
  if len b - chunk =? 0 then 0 else if offset b + chunk =? size b then 0 else offset b + chunk.

(** Reading one contiguous chunk. *)
Lemma read_chunk b chunk : ring_ok b → 0 < chunk ≤ len b → offset b + chunk ≤ size b →
  let b' := set_len_offset (len b - chunk) (next_offset b chunk) b in
  ring_ok b' ∧ queue b' = drop (Z.to_nat chunk) (queue b) ∧
  take (Z.to_nat chunk) (drop (Z.to_nat (offset b)) (bytes_of b)) = take (Z.to_nat chunk) (queue b).
Proof.
  intros (Hb & Hd & Hl & Ho) Hc Hoc b'. subst b'. unfold ring_ok, queue, set_len_offset, bytes_of in *.
  cbn [len offset size buf]. unfold next_offset. set (d := default [] (buf b)) in *. split.
  { split_and!; [done|done|lia..| |]; destruct (Z.eqb_spec (len b - chunk) 0);
      try destruct (Z.eqb_spec (offset b + chunk) (size b)); lia. }
  split.
  - destruct (Z.leb_spec (offset b + len b) (size b)).
    + rewrite skipn_firstn_comm, drop_drop.
      destruct (Z.eqb_spec (len b - chunk) 0) as [E|].
      { replace (Z.to_nat (len b) - Z.to_nat chunk)%nat with 0%nat by lia. rewrite E. cbn [Z.to_nat].
        destruct (0 + 0 <=? size b) eqn:E0; [done|]. apply Z.leb_gt in E0. lia. }
      destruct (Z.eqb_spec (offset b + chunk) (size b)); [lia|]. rewrite (proj2 (Z.leb_le _ _)) by lia.
      do 2 f_equal; lia.
    + destruct (Z.eqb_spec (len b - chunk) 0); [lia|].
      destruct (Z.eqb_spec (offset b + chunk) (size b)) as [E|].
      * rewrite (proj2 (Z.leb_le _ _)) by lia. cbn [Z.to_nat]. rewrite drop_0, drop_app_exact by (rewrite length_drop; lia).
        f_equal. lia.
      * rewrite (proj2 (Z.leb_gt _ _)) by lia. rewrite drop_app_le by (rewrite length_drop; lia).
        rewrite drop_drop. do 2 f_equal; lia.
  - destruct (Z.leb_spec (offset b + len b) (size b)).
    + rewrite take_take. f_equal. lia.
    + rewrite take_app_le by (rewrite length_drop; lia). done.
Qed.

(** Writing one contiguous chunk. *)
Lemma write_chunk b src : ring_ok b → 
  let chunk := Z.of_nat (length src) in
  0 < chunk → len b + chunk ≤ size b → write_offset b + chunk ≤ size b →
  let b' := BB (peer b) (closed b) (len b + chunk) (offset b) (size b)
              (Some (splice (bytes_of b) (Z.to_nat (write_offset b)) src)) (request b) in
  ring_ok b' ∧ queue b' = queue b ++ src.
Proof.
  intros (Hb & Hd & Hl & Ho) chunk Hc Hlc Hw b'. subst b'. unfold ring_ok, queue, bytes_of in *.
  cbn [len offset size buf from_option]. set (d := default [] (buf b)) in *. cbv [id].
  assert (0 ≤ write_offset b) by (unfold write_offset; destruct (Z.leb_spec (size b) (offset b + len b)); lia).
  split; [split_and!; [done|rewrite length_splice by (unfold chunk in *; lia); done|lia..]|].
  unfold write_offset in *. destruct (Z.leb_spec (offset b + len b) (size b)) as [Hlin|Hwrap].
  - destruct (Z.leb_spec (size b) (offset b + len b)) as [Hfull|Hnf].
    + (* full to the end of the array: the new bytes go to its start *)
      assert (offset b + len b = size b) as E by lia. replace (offset b + len b - size b) with 0 in * by lia.
      destruct (split_at d (length src)) as (y & r & Ed & Hy & _); [unfold chunk in *; lia|]. rewrite Ed in *.
      rewrite length_app in Hd. rewrite (proj2 (Z.leb_gt _ _)) by lia.
      replace (splice (y ++ r) (Z.to_nat 0) src) with (src ++ r) by (symmetry; apply (splice_app [] y src r); lia).
      rewrite !drop_app_ge by (unfold chunk in *; lia). rewrite Hy.
      rewrite (take_ge (drop _ r)) by (rewrite length_drop; unfold chunk in *; lia). f_equal.
      apply take_app_exact. unfold chunk in *. lia.
    + destruct (split_at d (Z.to_nat (offset b))) as (a & d1 & Ed & Ha & Hd1); [lia|].
      destruct (split_at d1 (Z.to_nat (len b))) as (x & d2 & Ed1 & Hx & Hd2); [lia|].
      destruct (split_at d2 (length src)) as (y & z & Ed2 & Hy & _); [unfold chunk in *; lia|].
      rewrite Ed, Ed1, Ed2. rewrite (proj2 (Z.leb_le _ _)) by lia.
      replace (splice (a ++ x ++ y ++ z) (Z.to_nat (offset b + len b)) src) with ((a ++ x) ++ src ++ z).
      2: { rewrite (app_assoc a x). replace (Z.to_nat _) with (length (a ++ x)) by (rewrite length_app; lia).
           symmetry. by apply splice_app. }
      rewrite <- app_assoc, !drop_app_exact by done. rewrite (app_assoc x src), (take_app_exact x) by done.
      apply take_app_exact. rewrite length_app. unfold chunk in *. lia.
  - rewrite (proj2 (Z.leb_le (size b) _)) in * by lia. rewrite (proj2 (Z.leb_gt _ _)) by lia.
    set (w := offset b + len b - size b) in *.
    destruct (split_at d (Z.to_nat w)) as (x2 & d1 & Ed & Hx2 & Hd1); [lia|].
    destruct (split_at d1 (length src)) as (y & d2 & Ed1 & Hy & Hd2); [unfold chunk in *; lia|].
    assert (Z.to_nat (offset b) = length x2 + length src + (Z.to_nat (offset b) - length x2 - length src))%nat as Eo
      by (unfold chunk, w in *; lia).
    rewrite Ed, Ed1. replace (splice (x2 ++ y ++ d2) (Z.to_nat w) src) with (x2 ++ src ++ d2)
      by (rewrite <- Hx2; symmetry; by apply splice_app).
    assert (∀ v, length v = length src → drop (Z.to_nat (offset b)) (x2 ++ v ++ d2) =
      drop (Z.to_nat (offset b) - length x2 - length src) d2) as Hdrop.
    { intros v Hv. rewrite drop_app_ge, drop_app_ge by lia. f_equal. lia. }
    rewrite !Hdrop, (take_app_exact x2 _ (Z.to_nat w) Hx2), <- app_assoc by done. f_equal.
    rewrite (app_assoc x2 src). apply take_app_exact. rewrite length_app. unfold chunk, w in *. lia.
Qed.

(** The fields a transfer of data leaves alone. *)
Definition same_conn (b b' : bio_bio_st) : Prop :=
  peer b' = peer b ∧ closed b' = closed b ∧ size b' = size b ∧ request b' = request b.

(** The read loop takes at most two iterations. *)
Lemma read_loop_spec b n : ring_ok b → 0 < n ≤ len b →
  ∃ b', read_loop 2 b n = Some (take (Z.to_nat n) (queue b), b') ∧ ring_ok b' ∧
        queue b' = drop (Z.to_nat n) (queue b) ∧ same_conn b b'.
Proof.
  intros Hok Hn. assert (∀ fuel b n, ring_ok b → 0 < n ≤ len b → offset b + n ≤ size b →
    ∃ b', read_loop (S fuel) b n = Some (take (Z.to_nat n) (queue b), b') ∧ ring_ok b' ∧
          queue b' = drop (Z.to_nat n) (queue b) ∧ same_conn b b') as Hone.
  { clear. intros fuel b n Hok Hn Hon. destruct (read_chunk b n Hok Hn Hon) as (H1 & H2 & H3).
    eexists. cbn [read_loop]. rewrite (proj2 (Z.leb_le n (len b))), (proj2 (Z.leb_le (offset b + n) (size b))) by lia.
    cbn [negb]. rewrite (proj2 (Z.leb_le (offset b + n) (size b))), Z.eqb_refl, andb_false_r, Z.sub_diag by lia. cbn [negb].
    rewrite Z.eqb_refl, H3. split; [reflexivity|]. split; [exact H1|]. split; [exact H2|]. by repeat split. }
  destruct (Z.le_gt_cases (offset b + n) (size b)) as [|Hwrap]; [by apply Hone|].
  pose proof Hok as (_ & Hd & Hl & Ho). set (chunk := size b - offset b).
  assert (0 < chunk ≤ len b) as Hc by (unfold chunk; lia).
  destruct (read_chunk b chunk Hok Hc ltac:(unfold chunk; lia)) as (H1 & H2 & H3).
  set (b1 := set_len_offset (len b - chunk) (next_offset b chunk) b) in *.
  assert (next_offset b chunk = 0) as E0.
  { unfold next_offset. destruct (_ =? 0); [done|]. rewrite (proj2 (Z.eqb_eq _ _)) by (unfold chunk; lia). done. }
  destruct (Hone 0%nat b1 (n - chunk)) as (b' & E & H4 & H5 & H6).
  { done. } { unfold b1, chunk. cbn. lia. } { unfold b1. cbn. rewrite E0. unfold chunk. lia. }
  exists b'. rewrite H2 in H5, E. split_and!.
  - cbn [read_loop]. rewrite (proj2 (Z.leb_le n (len b))), (proj2 (Z.leb_gt (offset b + n) (size b))) by lia. cbn [negb].
    fold chunk. rewrite (proj2 (Z.leb_le (offset b + chunk) (size b))) by (unfold chunk; lia). cbn [negb].
    rewrite (proj2 (Z.eqb_neq (len b - chunk) 0)) by (unfold chunk; lia). cbn [andb].
    assert ((if offset b + chunk =? size b then 0 else offset b + chunk) = next_offset b chunk) as ->.
    { unfold next_offset. rewrite (proj2 (Z.eqb_neq (len b - chunk) 0)) by (unfold chunk; lia). done. }
    fold b1. rewrite (proj2 (Z.eqb_neq (n - chunk) 0)) by (unfold chunk; lia).
    cbn [read_loop] in E. rewrite E, H3. do 2 f_equal.
    rewrite take_take_drop. f_equal. lia.
  - done.
  - rewrite H5, drop_drop. f_equal. lia.
  - destruct H6 as (? & ? & ? & ?). done.
Qed.

Lemma write_loop_spec b src n : ring_ok b → 0 < n → len b + n ≤ size b → n ≤ Z.of_nat (length src) →
  ∃ b', write_loop 2 b src n = Some b' ∧ ring_ok b' ∧ queue b' = queue b ++ take (Z.to_nat n) src ∧ same_conn b b'.
Proof.
  intros Hok Hn Hl Hs. assert (∀ fuel b src n, ring_ok b → 0 < n → len b + n ≤ size b → n ≤ Z.of_nat (length src) →
    write_offset b + n ≤ size b →
    ∃ b', write_loop (S fuel) b src n = Some b' ∧ ring_ok b' ∧ queue b' = queue b ++ take (Z.to_nat n) src ∧
          same_conn b b') as Hone.
  { clear. intros fuel b src n Hok Hn Hl Hs Hw. assert (Z.of_nat (length (take (Z.to_nat n) src)) = n) as Hlt
      by (rewrite length_take; lia).
    destruct (write_chunk b (take (Z.to_nat n) src) Hok) as (H1 & H2); [lia..|]. rewrite Hlt in H1, H2.
    eexists. cbn [write_loop]. rewrite (proj2 (Z.leb_le (len b + n) (size b))) by lia. cbn [negb].
    fold (write_offset b). rewrite (proj2 (Z.leb_le (write_offset b + n) (size b))) by lia.
    rewrite (proj2 (Z.leb_le (len b + n) (size b))), Z.sub_diag by lia. cbn [negb].
    split; [reflexivity|]. split; [exact H1|]. split; [exact H2|]. by repeat split. }
  destruct (Z.le_gt_cases (write_offset b + n) (size b)) as [|Hwrap]; [by apply Hone|].
  pose proof Hok as (_ & Hd & Hlb & Ho). set (chunk := size b - write_offset b).
  assert (write_offset b = offset b + len b ∧ offset b + len b < size b) as [Ew Hlt].
  { unfold write_offset in *. destruct (Z.leb_spec (size b) (offset b + len b)); lia. }
  assert (Z.of_nat (length (take (Z.to_nat chunk) src)) = chunk) as Hltc by (rewrite length_take; unfold chunk; lia).
  destruct (write_chunk b (take (Z.to_nat chunk) src) Hok) as (H1 & H2); [unfold chunk in *; lia..|]. rewrite Hltc in H1, H2.
  set (b1 := BB _ _ _ _ _ _ _) in *.
  assert (write_offset b1 = 0) as Ew1.
  { unfold write_offset, b1, chunk. cbn. rewrite Ew. rewrite (proj2 (Z.leb_le _ _)) by lia. lia. }
  destruct (Hone 0%nat b1 (drop (Z.to_nat chunk) src) (n - chunk)) as (b' & E & H4 & H5 & H6).
  { done. } { unfold chunk. lia. } { unfold b1, chunk. cbn. lia. } { rewrite length_drop. unfold chunk. lia. }
  { rewrite Ew1. unfold b1. cbn. unfold chunk. lia. }
  exists b'. rewrite H2 in H5. split_and!.
  - cbn [write_loop]. rewrite (proj2 (Z.leb_le (len b + n) (size b))) by lia. cbn [negb].
    fold (write_offset b). rewrite (proj2 (Z.leb_gt (write_offset b + n) (size b))) by lia. fold chunk.
    rewrite (proj2 (Z.leb_le (len b + chunk) (size b))) by (unfold chunk; lia). cbn [negb]. fold b1.
    rewrite (proj2 (Z.eqb_neq (n - chunk) 0)) by (unfold chunk; lia). exact E.
  - done.
  - rewrite H5, <- app_assoc. f_equal. rewrite take_take_drop. f_equal. unfold chunk. lia.
  - destruct H6 as (? & ? & ? & ?). done.
Qed.

(** ** Connected BIOs *)

(** The retry flags. *)
Definition RETRY : Z := 15.

(** The end [p] of a pair: its structure and retry flags. *)
Definition end_ok (h : heap) (p q : positive) (b : bio_bio_st) (f : Z) : Prop :=
  ∃ B, h !! p = Some B ∧ ptr B = Some b ∧ init B = true ∧ peer b = Some q ∧ Z.land (flags B) RETRY = f ∧ ring_ok b.

Definition conn (h : heap) (p q : positive) (b1 : bio_bio_st) (f1 : Z) (b2 : bio_bio_st) (f2 : Z) : Prop :=
  p ≠ q ∧ end_ok h p q b1 f1 ∧ end_ok h q p b2 f2.

Lemma conn_sym h p q b1 f1 b2 f2 : conn h p q b1 f1 b2 f2 → conn h q p b2 f2 b1 f1.
Proof. intros (? & ? & ?). by repeat split. Qed.

Section conn.
Context {h : heap} {p q : positive} {b1 b2 : bio_bio_st} {f1 f2 : Z} (Hc : conn h p q b1 f1 b2 f2).

Lemma conn_get_b : get_b p h = Some (b1, h).
Proof.
  destruct Hc as (_ & (B & HB & Hp & _) & _). unfold get_b, bind, get_bio. rewrite HB. cbn. by rewrite Hp.
Qed.

Lemma conn_get_bio : ∃ B, get_bio p h = Some (B, h) ∧ init B = true.
Proof. destruct Hc as (_ & (B & HB & _ & Hi & _) & _). exists B. unfold get_bio. by rewrite HB. Qed.

Lemma conn_peer : peer b1 = Some q.
Proof. destruct Hc as (_ & (B & _ & _ & _ & Hp & _) & _). done. Qed.

Lemma conn_ring : ring_ok b1.
Proof. destruct Hc as (_ & (B & _ & _ & _ & _ & _ & Hr) & _). done. Qed.

Lemma conn_put_b b1' : ring_ok b1' → peer b1' = Some q →
  ∃ h', put_b p b1' h = Some (tt, h') ∧ conn h' p q b1' f1 b2 f2.
Proof.
  intros Hr Hp. destruct Hc as (Hne & (B & HB & _ & Hi & _ & Hf & _) & (B2 & HB2 & H2)).
  eexists. unfold put_b, bind, get_bio, put_bio. rewrite HB. split; [reflexivity|]. split; [done|]. split.
  - eexists. rewrite lookup_insert_eq. split; [reflexivity|]. cbn [ptr init flags]. by split_and!.
  - exists B2. by rewrite lookup_insert_ne by congruence.
Qed.

Lemma conn_clear_flags : ∃ h', BIO_clear_retry_flags p h = Some (tt, h') ∧ conn h' p q b1 0 b2 f2.
Proof.
  destruct Hc as (Hne & (B & HB & Hp & Hi & Hpe & Hf & Hr) & (B2 & HB2 & H2)).
  eexists. unfold BIO_clear_retry_flags, BIO_clear_flags, bind, get_bio, put_bio. rewrite HB. split; [reflexivity|].
  split; [done|]. split.
  - eexists. rewrite lookup_insert_eq. split; [reflexivity|]. cbn [ptr init flags]. split_and!; try done.
    rewrite <- Z.land_assoc. apply Z.land_0_r.
  - exists B2. by rewrite lookup_insert_ne by congruence.
Qed.

Lemma conn_set_flags f : Z.land f RETRY = f →
  ∃ h', BIO_set_flags p f h = Some (tt, h') ∧ conn h' p q b1 (Z.lor f1 f) b2 f2.
Proof.
  intros Hff. destruct Hc as (Hne & (B & HB & Hp & Hi & Hpe & Hf & Hr) & (B2 & HB2 & H2)).
  eexists. unfold BIO_set_flags, bind, get_bio, put_bio. rewrite HB. split; [reflexivity|]. split; [done|]. split.
  - eexists. rewrite lookup_insert_eq. split; [reflexivity|]. cbn [ptr init flags]. split_and!; try done.
    by rewrite Z.land_lor_distr_l, Hf, Hff.
  - exists B2. by rewrite lookup_insert_ne by congruence.
Qed.
End conn.

(** Symbolic execution: one operation of the monad on a connected heap. *)
Lemma bind_eq {A B} (m : M A) (k : A → M B) h x h' : m h = Some (x, h') → bind m k h = k x h'.
Proof. unfold bind. by intros ->. Qed.

Ltac run_op H := rewrite (bind_eq _ _ _ _ _ H).

(** Steps that do not touch the heap. *)
Ltac run_pure := rewrite (bind_eq _ _ _ _ _ eq_refl).

Lemma bind_assert {A} (k : unit → M A) c h : c = true → bind (assert c) k h = k tt h.
Proof. by intros ->. Qed.

Lemma ring_request b r : ring_ok b → ring_ok (set_request r b).
Proof. done. Qed.

(** Writing to a pair.  On connected BIOs [bio_write] neither fails an
    assertion nor touches the other direction; it accepts as many bytes as fit and
    appends them to the queue, returns -1 and asks for a retry when the queue is
    full, and returns -1 without one after the writing side was shut down. *)
Lemma bio_write_refines h p q b1 f1 b2 f2 src : conn h p q b1 f1 b2 f2 →
  let n := Z.of_nat (length src) in 0 < n < 2 ^ 31 →
  ∃ r h' b1' f1', bio_write p (Some src) n h = Some (r, h') ∧ conn h' p q b1' f1' b2 f2 ∧
    closed b1' = closed b1 ∧ size b1' = size b1 ∧
    (if closed b1 then r = -1 ∧ f1' = 0 ∧ queue b1' = queue b1
     else if len b1 =? size b1 then r = -1 ∧ f1' = Z.lor BIO_FLAGS_WRITE BIO_FLAGS_SHOULD_RETRY ∧ queue b1' = queue b1
     else r = Z.min n (size b1 - len b1) ∧ f1' = 0 ∧ queue b1' = queue b1 ++ take (Z.to_nat r) src).
Proof.
  intros Hc n Hn. unfold bio_write. rewrite (u64_small n) by lia.
  destruct (conn_clear_flags Hc) as (h1 & E1 & Hc1). run_op E1.
  destruct (conn_get_bio Hc1) as (B & EB & Hi). rewrite (bind_eq _ _ _ _ _ EB), Hi, (proj2 (Z.eqb_neq n 0)) by lia.
  cbn [negb orb]. rewrite (bind_eq _ _ _ _ _ (conn_get_b Hc1)). rewrite (conn_peer Hc1).
  pose proof (conn_ring Hc1) as Hr. pose proof Hr as (Hbuf & Hd & Hl & Ho).
  rewrite !bind_assert by (by apply bool_decide_true).
  destruct (conn_put_b Hc1 (set_request 0 b1)) as (h2 & E2 & Hc2); [done|apply (conn_peer Hc)|]. run_op E2. destruct (closed b1) eqn:Ecl.
  { eexists _, h2, _, _. split; [reflexivity|]. split; [exact Hc2|]. by repeat split. }
  rewrite bind_assert by (apply Z.leb_le; lia).
  destruct (Z.eqb_spec (len b1) (size b1)) as [Hfull|Hnf].
  { destruct (conn_set_flags Hc2 (Z.lor BIO_FLAGS_WRITE BIO_FLAGS_SHOULD_RETRY) eq_refl) as (h3 & E3 & Hc3).
    unfold BIO_set_retry_write. run_op E3.
    eexists _, h3, _, _. split; [reflexivity|]. split; [exact Hc3|]. by repeat split. }
  run_op (conn_get_b Hc2).
  set (m := if size b1 - len b1 <? n then size b1 - len b1 else n).
  assert (m = Z.min n (size b1 - len b1)) as Em by (unfold m; destruct (Z.ltb_spec (size b1 - len b1) n); lia).
  destruct (write_loop_spec (set_request 0 b1) src m) as (b' & Ew & Hb' & Hq & Hp' & Hcl' & Hsz' & _);
    [done|lia|cbn; lia|unfold n in *; lia|]. rewrite Ew. cbn [deref]. run_pure.
  destruct (conn_put_b Hc2 b') as (h3 & E3 & Hc3); [done|rewrite Hp'; apply (conn_peer Hc)|].
  run_op E3. eexists _, h3, b', _. split; [reflexivity|]. split; [exact Hc3|].
  rewrite Hcl', Hsz'. split_and!; try done.
Qed.

(** The start of a read: the flags are cleared and the request of the peer reset. *)
Lemma read_start h p q b1 f1 b2 f2 : conn h p q b1 f1 b2 f2 →
  ∃ h', conn h' p q b1 0 (set_request 0 b2) f2 ∧
  ∀ A (k : positive → bio_bio_st → M A) (z : M A),
  (BIO_clear_retry_flags p ;;;
   B <- get_bio p ;;
   if negb (init B) then z
   else
     b <- get_b p ;;
     q <- deref (peer b) ;;
     pb <- get_b q ;;
     assert (bool_decide (is_Some (buf pb))) ;;;
     put_b q (set_request 0 pb) ;;;
     k q pb) h = k q b2 h'.
Proof.
  intros Hc. destruct (conn_clear_flags Hc) as (h1 & E1 & Hc1).
  destruct (conn_get_bio Hc1) as (B & EB & Hi). pose proof (conn_sym _ _ _ _ _ _ _ Hc1) as Hs1.
  pose proof (conn_ring Hs1) as (Hbuf & _).
  destruct (conn_put_b Hs1 (set_request 0 b2)) as (h2 & E2 & Hc2); [apply (conn_ring Hs1)|apply (conn_peer Hs1)|].
  exists h2. split; [by apply conn_sym|]. intros A k z. run_op E1. run_op EB. rewrite Hi. cbn [negb].
  run_op (conn_get_b Hc1). rewrite (conn_peer Hc1). cbn [deref]. run_pure. run_op (conn_get_b Hs1).
  rewrite bind_assert by (by apply bool_decide_true). by run_op E2.
Qed.

(** Reading from a pair.  On connected BIOs [bio_read] neither fails an assertion
    nor touches the other direction; it returns the oldest bytes of the queue, at
    most as many as asked for, and removes them.  On an empty queue it returns 0
    when the peer was shut down, and otherwise -1 with a request for a retry,
    leaving the number of bytes wanted for the peer. *)
Lemma bio_read_refines h p q b1 f1 b2 f2 n : conn h p q b1 f1 b2 f2 → 0 < n < 2 ^ 31 →
  ∃ r out h' b2' f1', bio_read p true n h = Some ((r, out), h') ∧ conn h' p q b1 f1' b2' f2 ∧
    closed b2' = closed b2 ∧ size b2' = size b2 ∧ queue b2 = out ++ queue b2' ∧
    (if len b2 =? 0 then
       out = [] ∧ if closed b2 then r = 0 ∧ f1' = 0
                  else r = -1 ∧ f1' = Z.lor BIO_FLAGS_READ BIO_FLAGS_SHOULD_RETRY ∧ request b2' = Z.min n (size b2)
     else r = Z.min n (len b2) ∧ f1' = 0 ∧ Z.of_nat (length out) = r).
Proof.
  intros Hc Hn. unfold bio_read. destruct (read_start _ _ _ _ _ _ _ Hc) as (h1 & Hc1 & E1). rewrite E1. clear E1.
  rewrite u64_small, (proj2 (Z.eqb_neq n 0)) by lia. cbn [negb orb].
  pose proof (conn_sym _ _ _ _ _ _ _ Hc1) as Hs1. run_op (conn_get_b Hs1).
  change (len (set_request 0 b2)) with (len b2). change (closed (set_request 0 b2)) with (closed b2).
  pose proof (conn_ring Hs1) as Hr. pose proof Hr as (Hbuf & Hd & Hl & Ho). cbn in Hl, Ho.
  destruct (Z.eqb_spec (len b2) 0) as [He|Hne].
  - destruct (closed b2) eqn:Ecl.
    { eexists _, [], h1, _, _. split; [reflexivity|]. split; [exact Hc1|]. by repeat split. }
    destruct (conn_set_flags Hc1 (Z.lor BIO_FLAGS_READ BIO_FLAGS_SHOULD_RETRY) eq_refl) as (h2 & E2 & Hc2).
    unfold BIO_set_retry_read. run_op E2. pose proof (conn_sym _ _ _ _ _ _ _ Hc2) as Hs2. run_op (conn_get_b Hs2).
    set (rq := if n <=? _ then n else _).
    destruct (conn_put_b Hs2 (set_request rq (set_request 0 b2))) as (h3 & E3 & Hc3);
      [done|apply (conn_peer Hs2)|]. run_op E3. eexists _, [], h3, _, _. split; [reflexivity|].
    split; [by apply conn_sym|]. repeat split; try done. cbn. unfold rq. cbn. destruct (Z.leb_spec n (size b2)); lia.
  - set (m := if len b2 <? n then len b2 else n).
    assert (m = Z.min n (len b2)) as Em by (unfold m; destruct (Z.ltb_spec (len b2) n); lia).
    destruct (read_loop_spec (set_request 0 b2) m) as (b' & Er & Hb' & Hq & Hp' & Hcl' & Hsz' & _); [done|cbn; lia|].
    rewrite Er. cbn [deref]. run_pure. cbn [fst snd].
    destruct (conn_put_b Hs1 b') as (h2 & E2 & Hc2); [done|rewrite Hp'; apply (conn_peer Hs1)|]. run_op E2.
    change (queue (set_request 0 b2)) with (queue b2) in *.
    eexists _, _, h2, b', _. split; [reflexivity|]. split; [by apply conn_sym|]. rewrite Hcl', Hsz', Hq.
    split_and!; try done; [by rewrite take_drop|].
    rewrite length_take. pose proof (length_queue b2 (conn_ring (conn_sym _ _ _ _ _ _ _ Hc))). lia.
Qed.

(** The caller of [bio_nread] reads, and the caller of [bio_nwrite] fills, the
    region it was given. *)
Definition peek (p : positive) (off n : Z) : M (list Z) :=
  b <- get_b p ;; ret (take (Z.to_nat n) (drop (Z.to_nat off) (bytes_of b))).
Definition poke (p : positive) (off : Z) (data : list Z) : M unit :=
  b <- get_b p ;;
  put_b p (BB (peer b) (closed b) (len b) (offset b) (size b)
             (Some (splice (bytes_of b) (Z.to_nat off) data)) (request b)).

(** Reading without copying is reading a contiguous part of the queue. *)
Lemma bio_nread_refines h p q b1 f1 b2 f2 n : conn h p q b1 f1 b2 f2 → 0 < n ≤ SSIZE_MAX →
  ∃ r reg h' b2' f1', bio_nread p n h = Some ((r, reg), h') ∧ conn h' p q b1 f1' b2' f2 ∧
    closed b2' = closed b2 ∧ size b2' = size b2 ∧
    (if len b2 =? 0 then r ≤ 0 ∧ queue b2' = queue b2
     else 0 < r ≤ n ∧ ∃ off, reg = Some (q, off) ∧ queue b2 = take (Z.to_nat r) (queue b2) ++ queue b2' ∧
          (peek q off r) h' = Some (take (Z.to_nat r) (queue b2), h')).
Proof.
  intros Hc Hn. unfold bio_nread. rewrite (proj2 (Z.ltb_ge SSIZE_MAX n)) by lia.
  destruct (read_start _ _ _ _ _ _ _ Hc) as (h1 & Hc1 & E1).
  pose proof (conn_sym _ _ _ _ _ _ _ Hc1) as Hs1. pose proof (conn_ring Hs1) as Hr.
  pose proof Hr as (Hbuf & Hd & Hl & Ho). cbn in Hd, Hl, Ho.
  destruct (Z.eqb_spec (len b2) 0) as [He|Hne].
  - destruct (bio_read_refines h1 p q b1 0 (set_request 0 b2) f2 1 Hc1 ltac:(lia))
      as (r & out & h2 & b2' & f1' & Er & Hc2 & Hcl & Hsz & Hq & Hcase). cbn [len closed set_request] in *.
    rewrite (proj2 (Z.eqb_eq _ _)) in Hcase by done. destruct Hcase as [-> Hcase].
    assert (r ≤ 0) as Hr0 by (destruct (closed b2); lia).
    assert (bio_nread0 p h = Some ((r, None), h2)) as E0.
    { unfold bio_nread0. rewrite E1, (proj2 (Z.eqb_eq _ _)) by done. by run_op Er. }
    run_op E0. cbn [fst snd]. rewrite (proj2 (Z.ltb_lt r n)), (proj2 (Z.leb_le r 0)) by lia.
    eexists r, None, h2, b2', f1'. split; [done|]. split; [done|]. by repeat split.
  - set (m := if size b2 <? offset b2 + len b2 then size b2 - offset b2 else len b2).
    assert (0 < m ≤ len b2 ∧ offset b2 + m ≤ size b2) as [Hm Hom]
      by (unfold m; destruct (Z.ltb_spec (size b2) (offset b2 + len b2)); lia).
    assert (bio_nread0 p h = Some ((m, Some (q, offset b2)), h1)) as E0.
    { unfold bio_nread0. rewrite E1, (proj2 (Z.eqb_neq _ _)) by done. fold m. by rewrite bind_assert by (apply Z.ltb_lt; lia). }
    run_op E0. cbn [fst snd]. set (r := if m <? n then m else n).
    assert (0 < r ≤ n ∧ r ≤ m) as [Hrn Hrm] by (unfold r; destruct (Z.ltb_spec m n); lia).
    rewrite (proj2 (Z.leb_gt r 0)) by lia. run_op (conn_get_b Hc1). rewrite (conn_peer Hc1). cbn [deref]. run_pure.
    run_op (conn_get_b Hs1). cbn [len offset size set_request]. fold (next_offset b2 r).
    rewrite bind_assert by (apply orb_true_iff; right; apply Z.leb_le; lia).
    destruct (read_chunk (set_request 0 b2) r Hr ltac:(cbn; lia) ltac:(cbn; lia)) as (H1 & H2 & H3).
    destruct (conn_put_b Hs1 _ H1 (conn_peer Hs1)) as (h2 & E2 & Hc2).
    change (set_len_offset (len b2 - r) (next_offset b2 r) (set_request 0 b2)) with
      (set_len_offset (len (set_request 0 b2) - r) (next_offset (set_request 0 b2) r) (set_request 0 b2)).
    run_op E2. eexists r, _, h2, _, 0. split; [reflexivity|]. split; [by apply conn_sym|].
    split; [done|]. split; [done|]. split; [lia|]. exists (offset b2). split; [done|].
    change (queue (set_request 0 b2)) with (queue b2) in *. split; [by rewrite H2, take_drop|].
    unfold peek. run_op (conn_get_b Hc2). unfold ret. do 2 f_equal. exact H3.
Qed.

(** Writing without copying: once the region is filled, its bytes are at the end
    of the queue. *)
Lemma bio_nwrite_refines h p q b1 f1 b2 f2 n data : conn h p q b1 f1 b2 f2 → 0 < n ≤ SSIZE_MAX →
  ∃ r reg h' b1' f1', bio_nwrite p n h = Some ((r, reg), h') ∧ conn h' p q b1' f1' b2 f2 ∧
    closed b1' = closed b1 ∧ size b1' = size b1 ∧
    (if closed b1 || (len b1 =? size b1) then r = -1 ∧ queue b1' = queue b1
     else 0 < r ≤ n ∧ ∃ off, reg = Some (p, off) ∧
       (Z.of_nat (length data) = r → ∃ h'' b1'', poke p off data h' = Some (tt, h'') ∧
          conn h'' p q b1'' f1' b2 f2 ∧ closed b1'' = closed b1 ∧ size b1'' = size b1 ∧
          queue b1'' = queue b1 ++ data)).
Proof.
  intros Hc Hn. unfold bio_nwrite. rewrite (proj2 (Z.ltb_ge SSIZE_MAX n)) by lia.
  destruct (conn_clear_flags Hc) as (h1 & E1 & Hc1). destruct (conn_get_bio Hc1) as (B & EB & Hi).
  pose proof (conn_ring Hc1) as Hr. pose proof Hr as (Hbuf & Hd & Hl & Ho).
  destruct (conn_put_b Hc1 (set_request 0 b1)) as (h2 & E2 & Hc2); [done|apply (conn_peer Hc)|].
  assert (∀ x hx, (if closed b1 then ret (-1, None)
      else
      assert (len b1 <=? size b1) ;;;
      if len b1 =? size b1 then BIO_set_retry_write p ;;; ret (-1, None)
      else
        let n := size b1 - len b1 in
        let n := if size b1 <? write_offset b1 + n then size b1 - write_offset b1 else n in
        assert (write_offset b1 + n <=? size b1) ;;;
        ret (n, Some (p, write_offset b1))) h2 = Some (x, hx) → bio_nwrite0 p h = Some (x, hx)) as H0.
  { intros x hx <-. unfold bio_nwrite0. run_op E1. run_op EB. rewrite Hi. cbn [negb]. run_op (conn_get_b Hc1).
    rewrite (conn_peer Hc1), !bind_assert by (by apply bool_decide_true). by run_op E2. }
  destruct (closed b1) eqn:Ecl; cbn [orb].
  { run_op (H0 _ _ eq_refl). cbn [fst snd]. rewrite (proj2 (Z.ltb_lt (-1) n)) by lia. cbn [Z.leb].
    eexists _, _, h2, _, 0. split; [reflexivity|]. split; [exact Hc2|]. by repeat split. }
  rewrite bind_assert in H0 by (apply Z.leb_le; lia). destruct (Z.eqb_spec (len b1) (size b1)) as [Hfull|Hnf].
  { destruct (conn_set_flags Hc2 (Z.lor BIO_FLAGS_WRITE BIO_FLAGS_SHOULD_RETRY) eq_refl) as (h3 & E3 & Hc3).
    unfold BIO_set_retry_write in H0. rewrite (bind_eq _ _ _ _ _ E3) in H0. run_op (H0 _ _ eq_refl). cbn [fst snd].
    rewrite (proj2 (Z.ltb_lt (-1) n)) by lia. cbn [Z.leb].
    eexists _, _, h3, _, _. split; [reflexivity|]. split; [exact Hc3|]. by repeat split. }
  cbv zeta in H0. set (m := if size b1 <? _ then _ else _) in *.
  assert (0 ≤ write_offset b1 < size b1) as Hw.
  { unfold write_offset. destruct (Z.leb_spec (size b1) (offset b1 + len b1)); lia. }
  assert (0 < m ∧ len b1 + m ≤ size b1 ∧ write_offset b1 + m ≤ size b1) as (Hm & Hlm & Hwm).
  { unfold m. destruct (Z.ltb_spec (size b1) (write_offset b1 + (size b1 - len b1))); lia. }
  rewrite bind_assert in H0 by (apply Z.leb_le; lia). run_op (H0 _ _ eq_refl). cbn [fst snd].
  set (r := if m <? n then m else n).
  assert (0 < r ≤ n ∧ r ≤ m) as [Hrn Hrm] by (unfold r; destruct (Z.ltb_spec m n); lia).
  rewrite (proj2 (Z.leb_gt r 0)) by lia. run_op (conn_get_b Hc2). cbn [len size offset set_request].
  rewrite bind_assert by (apply Z.leb_le; lia).
  destruct (conn_put_b Hc2 (set_len_offset (len b1 + r) (offset b1) (set_request 0 b1))) as (h3 & E3 & Hc3).
  { unfold ring_ok in *. cbn. split_and!; try done; lia. } { apply (conn_peer Hc). }
  run_op E3. eexists r, _, h3, _, 0. split; [reflexivity|]. split; [exact Hc3|]. split; [done|]. split; [done|].
  split; [lia|]. eexists. split; [reflexivity|]. intros Hdata.
  destruct (write_chunk (set_request 0 b1) data Hr) as (H1 & H2); [cbn; lia|cbn; lia| |].
  { change (write_offset (set_request 0 b1)) with (write_offset b1). cbn. lia. }
  rewrite Hdata in H1, H2. destruct (conn_put_b Hc3 _ H1 (conn_peer Hc)) as (h4 & E4 & Hc4).
  eexists h4, _. split; [|split; [exact Hc4|by repeat split]]. unfold poke. run_op (conn_get_b Hc3). exact E4.
Qed.

Lemma bio_shutdown_refines h p q b1 f1 b2 f2 : conn h p q b1 f1 b2 f2 →
  ∃ h' b1', ctrl p BIO_C_SHUTDOWN_WR h = Some ((1, None), h') ∧ conn h' p q b1' f1 b2 f2 ∧
    closed b1' = true ∧ size b1' = size b1 ∧ queue b1' = queue b1.
Proof.
  intros Hc. unfold ctrl, bio_ctrl. run_op (conn_get_b Hc).
  destruct (conn_put_b Hc (BB (peer b1) true (len b1) (offset b1) (size b1) (buf b1) (request b1))) as (h' & E & Hc').
  { apply (conn_ring Hc). } { apply (conn_peer Hc). }
  run_op E. eexists h', _. split; [reflexivity|]. split; [exact Hc'|]. by repeat split.
Qed.

(** Two BIOs that may not be connected: their structures and [init] fields. *)
Definition half_ok (h : heap) (p : positive) (b : bio_bio_st) (i : bool) : Prop :=
  ∃ B, h !! p = Some B ∧ ptr B = Some b ∧ init B = i ∧ Z.land (flags B) RETRY = 0.

Definition duo (h : heap) (p q : positive) (b1 : bio_bio_st) (i1 : bool) (b2 : bio_bio_st) (i2 : bool) : Prop :=
  p ≠ q ∧ half_ok h p b1 i1 ∧ half_ok h q b2 i2.

Lemma duo_sym {h p q b1 i1 b2 i2} : duo h p q b1 i1 b2 i2 → duo h q p b2 i2 b1 i1.
Proof. intros (? & ? & ?). by repeat split. Qed.

Lemma duo_get {h p q b1 i1 b2 i2} : duo h p q b1 i1 b2 i2 → get_b p h = Some (b1, h).
Proof. intros (_ & (B & HB & Hp & _) & _). unfold get_b, bind, get_bio. rewrite HB. cbn. by rewrite Hp. Qed.

Lemma duo_put {h p q b1 i1 b2 i2} b : duo h p q b1 i1 b2 i2 →
  ∃ h', put_b p b h = Some (tt, h') ∧ duo h' p q b i1 b2 i2.
Proof.
  intros (Hne & (B & HB & _ & Hi & Hf) & (B2 & HB2 & H2)). unfold put_b, bind, get_bio, put_bio. rewrite HB.
  eexists. split; [reflexivity|]. split; [done|]. split; [eexists; rewrite lookup_insert_eq; by split_and!|].
  exists B2. by rewrite lookup_insert_ne by congruence.
Qed.

Lemma duo_init {h p q b1 i1 b2 i2} i : duo h p q b1 i1 b2 i2 →
  ∃ h', set_init p i h = Some (tt, h') ∧ duo h' p q b1 i b2 i2.
Proof.
  intros (Hne & (B & HB & Hp & Hi & Hf) & (B2 & HB2 & H2)). unfold set_init, bind, get_bio, put_bio. rewrite HB.
  eexists. split; [reflexivity|]. split; [done|]. split; [eexists; rewrite lookup_insert_eq; by split_and!|].
  exists B2. by rewrite lookup_insert_ne by congruence.
Qed.

Definition fresh_b (n : Z) : bio_bio_st := BB None false 0 0 n None 0.

(** Setting the size of a buffer that is not allocated. *)
Definition buf_size (w : Z) : Z := if w =? 0 then 17 * 1024 else w.

Lemma set_size h p q i1 b2 i2 w o1 o2 junk : duo h p q (fresh_b (17 * 1024)) i1 b2 i2 → 0 ≤ w < 2 ^ 63 →
  ∃ h' r, (if w =? 0 then ret (1, None) else bio_ctrl o1 o2 junk p (BIO_C_SET_WRITE_BUF_SIZE w)) h = Some ((1, r), h') ∧
        duo h' p q (fresh_b (buf_size w)) i1 b2 i2.
Proof.
  intros Hd Hw. unfold buf_size. destruct (Z.eqb_spec w 0) as [->|Hw0]; [by eexists h, _|].
  unfold bio_ctrl. run_op (duo_get Hd). rewrite bool_decide_false by (intros [? ?]; done).
  rewrite (proj2 (Z.eqb_neq w 0)), u64_small by lia. cbn [size fresh_b]. destruct (Z.eqb_spec (17 * 1024) w) as [<-|_].
  { run_pure. by eexists h, _. }
  destruct (duo_put (fresh_b w) Hd) as (h1 & E1 & Hd1). cbn [peer closed len offset request fresh_b].
  rewrite (bind_eq _ _ _ _ _ E1). by eexists h1, _.
Qed.

Lemma alloc_fresh h p q n i1 b2 i2 junk : duo h p q (fresh_b n) i1 b2 i2 →
  ∃ h', alloc_buf true junk p h = Some (true, h') ∧
        duo h' p q (BB None false 0 0 n (Some (replicate (Z.to_nat n) junk)) 0) i1 b2 i2.
Proof.
  intros Hd. unfold alloc_buf. run_op (duo_get Hd). cbn [buf fresh_b].
  destruct (duo_put (BB None false 0 0 n (Some (replicate (Z.to_nat n) junk)) 0) Hd) as (h1 & E1 & Hd1).
  run_op E1. by exists h1.
Qed.

(** A new pair is connected, with empty queues. *)
Lemma new_pair_conn h junk p q w1 w2 : p ≠ q → 0 ≤ w1 < 2 ^ 63 → 0 ≤ w2 < 2 ^ 63 →
  ∃ h' b1 b2, BIO_new_bio_pair true true true true junk p q w1 w2 h = Some ((1, Some (p, q)), h') ∧
    conn h' p q b1 0 b2 0 ∧ queue b1 = [] ∧ queue b2 = [] ∧
    size b1 = buf_size w1 ∧ size b2 = buf_size w2 ∧ closed b1 = false ∧ closed b2 = false.
Proof.
  intros Hpq Hw1 Hw2. set (B0 := mkBIO false 1 0 (Some (fresh_b (17 * 1024))) 0 0).
  assert (∀ p h, BIO_new true p h = Some (Some p, <[p := B0]> h)) as Hnew.
  { intros p' h'. unfold BIO_new, bio_new, put_b, put_bio, get_bio, bind. rewrite lookup_insert_eq.
    unfold ret. by rewrite insert_insert_eq. }
  unfold BIO_new_bio_pair. run_op (Hnew p h). run_op (Hnew q (<[p := B0]> h)).
  assert (duo (<[q := B0]> (<[p := B0]> h)) p q (fresh_b (17 * 1024)) false (fresh_b (17 * 1024)) false) as Hd0.
  { split; [done|]. split; exists B0; [|by rewrite lookup_insert_eq].
    rewrite lookup_insert_ne, lookup_insert_eq by congruence. done. }
  destruct (set_size _ p q false _ false w1 true true junk Hd0 Hw1) as (h1 & r1 & E1 & Hd1). run_op E1. cbn [fst Z.eqb].
  destruct (set_size _ q p false _ false w2 true true junk (duo_sym Hd1) Hw2) as (h2 & r2 & E2 & Hd2%duo_sym).
  run_op E2. cbn [fst Z.eqb]. set (n1 := buf_size w1) in *. set (n2 := buf_size w2) in *.
  assert (0 < n1 ∧ 0 < n2) as [Hn1 Hn2].
  { unfold n1, n2, buf_size. destruct (Z.eqb_spec w1 0), (Z.eqb_spec w2 0); lia. }
  destruct (alloc_fresh _ _ _ _ _ _ _ junk Hd2) as (h3 & E3 & Hd3).
  destruct (alloc_fresh _ _ _ _ _ _ _ junk (duo_sym Hd3)) as (h4 & E4 & Hd4%duo_sym).
  set (d1 := replicate (Z.to_nat n1) junk) in *. set (d2 := replicate (Z.to_nat n2) junk) in *.
  destruct (duo_put (BB (Some q) false 0 0 n1 (Some d1) 0) Hd4) as (h5 & E5 & Hd5).
  destruct (duo_put (BB (Some p) false 0 0 n2 (Some d2) 0) (duo_sym Hd5)) as (h6 & E6 & Hd6%duo_sym).
  destruct (duo_init true Hd6) as (h7 & E7 & Hd7).
  destruct (duo_init true (duo_sym Hd7)) as (h8 & E8 & Hd8%duo_sym).
  assert (bio_make_pair true true junk p q h2 = Some (1, h8)) as Emp.
  { unfold bio_make_pair. run_op (duo_get Hd2). run_op (duo_get (duo_sym Hd2)).
    rewrite !bool_decide_false by (intros [? ?]; done). cbn [orb]. run_op E3. cbn [negb]. run_op E4. cbn [negb].
    run_op (duo_get Hd4). run_op E5. run_op (duo_get (duo_sym Hd5)). run_op E6. run_op E7. by run_op E8. }
  assert (bio_ctrl true true junk p (BIO_C_MAKE_BIO_PAIR q) h2 = Some ((1, None), h8)) as Ectl.
  { unfold bio_ctrl. run_op (duo_get Hd2). by run_op Emp. }
  run_op Ectl. cbn [fst Z.eqb]. eexists h8, _, _. split; [reflexivity|].
  destruct Hd8 as (_ & (B1 & HB1 & Hp1 & Hi1 & Hf1) & (B2 & HB2 & Hp2 & Hi2 & Hf2)).
  assert (∀ q n (d : list Z), 0 < n → Z.of_nat (length d) = n → ring_ok (BB (Some q) false 0 0 n (Some d) 0)) as Hring.
  { intros q' n d Hn Hdl. unfold ring_ok, bytes_of. cbn. split_and!; (done || lia). }
  assert (∀ q n (d : list Z), 0 < n → queue (BB (Some q) false 0 0 n (Some d) 0) = []) as Hq.
  { intros q' n d Hn. unfold queue. cbn [offset len size]. by rewrite (proj2 (Z.leb_le _ _)) by lia. }
  split.
  - split; [done|]. split; [exists B1|exists B2]; split_and!; try done; apply Hring; try done;
      unfold d1, d2; rewrite length_replicate; lia.
  - rewrite !Hq by done. by split_and!.
Qed.

(** ** Conversations *)

Inductive bop := Write (src : list Z) | Read (n : Z) | NWrite (data : list Z) | NRead (n : Z) | ShutdownWr.

Definition sends (o : bop) : bool := match o with Write _ | NWrite _ | ShutdownWr => true | _ => false end.

Definition op_ok (o : bop) : Prop :=
  match o with
  | Write l | NWrite l => 0 < Z.of_nat (length l) < 2 ^ 31
  | Read n | NRead n => 0 < n < 2 ^ 31
  | ShutdownWr => True
  end.

(** An operation at the end [p]: the bytes accepted or delivered. *)
Definition exec_op (p : positive) (o : bop) : M (list Z) :=
  match o with
  | Write src => r <- bio_write p (Some src) (Z.of_nat (length src)) ;; ret (take (Z.to_nat r) src)
  | Read n => r <- bio_read p true n ;; ret r.2
  | NWrite data =>
      r <- bio_nwrite p (Z.of_nat (length data)) ;;
      match r.2 with
      | Some (q, off) =>
          if 0 <? r.1 then
            poke q off (take (Z.to_nat r.1) data) ;;; ret (take (Z.to_nat r.1) data)
          else ret []
      | None => ret []
      end
  | NRead n =>
      r <- bio_nread p n ;;
      match r.2 with
      | Some (q, off) => if 0 <? r.1 then peek q off r.1 else ret []
      | None => ret []
      end
  | ShutdownWr => _ <- ctrl p BIO_C_SHUTDOWN_WR ;; ret []
  end.

(** The bytes accepted from and delivered at each end. *)
Record log := Log { sent1 : list Z; recv1 : list Z; sent2 : list Z; recv2 : list Z }.

Definition log_op (l : log) (first : bool) (o : bop) (out : list Z) : log :=
  match first, sends o with
  | true, true => Log (sent1 l ++ out) (recv1 l) (sent2 l) (recv2 l)
  | true, false => Log (sent1 l) (recv1 l ++ out) (sent2 l) (recv2 l)
  | false, true => Log (sent1 l) (recv1 l) (sent2 l ++ out) (recv2 l)
  | false, false => Log (sent1 l) (recv1 l) (sent2 l) (recv2 l ++ out)
  end.

Fixpoint exec (p q : positive) (l : log) (os : list (bool * bop)) : M log :=
  match os with
  | [] => ret l
  | (first, o) :: os =>
      out <- exec_op (if first then p else q) o ;;
      exec p q (log_op l first o out) os
  end.

Lemma exec_op_ok h p q b1 f1 b2 f2 o : conn h p q b1 f1 b2 f2 → op_ok o →
  ∃ out h' b1' f1' b2', exec_op p o h = Some (out, h') ∧ conn h' p q b1' f1' b2' f2 ∧
    size b1' = size b1 ∧ size b2' = size b2 ∧
    if sends o then queue b1' = queue b1 ++ out ∧ queue b2' = queue b2
    else queue b2 = out ++ queue b2' ∧ queue b1' = queue b1.
Proof.
  intros Hc Ho. destruct o as [src|n|data|n|]; cbn [op_ok exec_op sends] in *.
  - destruct (bio_write_refines h p q b1 f1 b2 f2 src Hc Ho) as (r & h' & b1' & f1' & E & Hc' & _ & Hsz & H).
    run_op E. eexists _, h', b1', f1', b2. split; [reflexivity|]. split; [done|]. split_and!; try done.
    destruct (closed b1); [|destruct (len b1 =? size b1)]; destruct H as (-> & _ & H); rewrite H;
      [by rewrite app_nil_r..|done].
  - destruct (bio_read_refines h p q b1 f1 b2 f2 n Hc Ho) as (r & out & h' & b2' & f1' & E & Hc' & _ & Hsz & H & _).
    run_op E. eexists _, h', b1, f1', b2'. split; [reflexivity|]. by split_and!.
  - set (n := Z.of_nat (length data)) in *. assert (0 < n ≤ SSIZE_MAX) as Hn by (unfold SSIZE_MAX; lia).
    assert (bio_nwrite p n h ≠ None ∧ True) as [Hex _].
    { destruct (bio_nwrite_refines h p q b1 f1 b2 f2 n data Hc Hn) as (? & ? & ? & ? & ? & E & _). by rewrite E. }
    destruct (bio_nwrite p n h) as [[[r reg] h']|] eqn:E; [|done]. clear Hex.
    destruct (bio_nwrite_refines h p q b1 f1 b2 f2 n (take (Z.to_nat r) data) Hc Hn)
      as (r' & reg' & h'' & b1' & f1' & E' & Hc' & Hcl & Hsz & H). rewrite E in E'. injection E' as <- <- <-.
    run_op E. cbn [fst snd]. destruct (closed b1 || (len b1 =? size b1)).
    + destruct H as [-> H]. cbn [Z.ltb]. exists [], h', b1', f1', b2. split; [by destruct reg as [[? ?]|]|].
      rewrite app_nil_r. by split_and!.
    + destruct H as (Hr & off & -> & H). rewrite (proj2 (Z.ltb_lt 0 r)) by lia.
      destruct H as (h3 & b1'' & Ep & Hc3 & _ & Hsz3 & Hq); [rewrite length_take; lia|]. run_op Ep.
      eexists _, h3, b1'', f1', b2. split; [reflexivity|]. by split_and!.
  - destruct (bio_nread_refines h p q b1 f1 b2 f2 n Hc) as (r & reg & h' & b2' & f1' & E & Hc' & _ & Hsz & H);
      [unfold SSIZE_MAX; lia|]. run_op E. cbn [fst snd]. destruct (len b2 =? 0).
    + destruct H as [Hr H]. rewrite (proj2 (Z.ltb_ge 0 r)) by lia. exists [], h', b1, f1', b2'.
      split; [by destruct reg as [[? ?]|]|]. by split_and!.
    + destruct H as (Hr & off & -> & Hq & Ep). rewrite (proj2 (Z.ltb_lt 0 r)) by lia. rewrite Ep.
      eexists _, h', b1, f1', b2'. split; [reflexivity|]. by split_and!.
  - destruct (bio_shutdown_refines h p q b1 f1 b2 f2 Hc) as (h' & b1' & E & Hc' & _ & Hsz & Hq). run_op E.
    exists [], h', b1', f1, b2. rewrite app_nil_r. by split_and!.
Qed.

(** C24: a pair of BIOs is two bounded queues.  After [BIO_new_bio_pair], for every
    sequence of copying and non-copying writes and reads and of shutdowns at the
    two ends, no assertion of the code fails, and in each direction the bytes
    accepted are the bytes delivered followed by those still buffered: nothing is
    lost, duplicated or reordered, and no more than the size of the buffer is
    held. *)
Theorem bio_pair_stream h junk p q w1 w2 os :
  p ≠ q → 0 ≤ w1 < 2 ^ 63 → 0 ≤ w2 < 2 ^ 63 → Forall (λ o, op_ok o.2) os →
  ∃ h0 l hn b1 f1 b2 f2,
    BIO_new_bio_pair true true true true junk p q w1 w2 h = Some ((1, Some (p, q)), h0) ∧
    exec p q (Log [] [] [] []) os h0 = Some (l, hn) ∧ conn hn p q b1 f1 b2 f2 ∧
    sent1 l = recv2 l ++ queue b1 ∧ sent2 l = recv1 l ++ queue b2 ∧
    Z.of_nat (length (queue b1)) ≤ buf_size w1 ∧ Z.of_nat (length (queue b2)) ≤ buf_size w2.
Proof.
  intros Hpq Hw1 Hw2 Hos. destruct (new_pair_conn h junk p q w1 w2 Hpq Hw1 Hw2)
    as (h0 & b1 & b2 & E0 & Hc & Hq1 & Hq2 & Hs1 & Hs2 & _). exists h0.
  assert (∀ os, Forall (λ o, op_ok o.2) os → ∀ l h b1 f1 b2 f2, conn h p q b1 f1 b2 f2 →
    sent1 l = recv2 l ++ queue b1 → sent2 l = recv1 l ++ queue b2 → size b1 = buf_size w1 → size b2 = buf_size w2 →
    ∃ l' h' b1' f1' b2' f2', exec p q l os h = Some (l', h') ∧ conn h' p q b1' f1' b2' f2' ∧
      sent1 l' = recv2 l' ++ queue b1' ∧ sent2 l' = recv1 l' ++ queue b2' ∧
      size b1' = buf_size w1 ∧ size b2' = buf_size w2) as Hrun.
  { clear. induction 1 as [|[first o] os Ho Hos IH]; intros l h b1 f1 b2 f2 Hc H1 H2 Hs1 Hs2; cbn [exec].
    { by exists l, h, b1, f1, b2, f2. }
    destruct first.
    - destruct (exec_op_ok h p q b1 f1 b2 f2 o Hc Ho) as (out & h' & b1' & f1' & b2' & E & Hc' & Hz1 & Hz2 & H). run_op E.
      eapply IH; [exact Hc'| | |congruence|congruence]; unfold log_op; destruct (sends o); destruct H as [Ha Hb]; cbn.
      + by rewrite Ha, H1, app_assoc.
      + congruence.
      + by rewrite Hb.
      + by rewrite H2, Ha, app_assoc.
    - destruct (exec_op_ok h q p b2 f2 b1 f1 o (conn_sym _ _ _ _ _ _ _ Hc) Ho)
        as (out & h' & b2' & f2' & b1' & E & Hc'%conn_sym & Hz2 & Hz1 & H). run_op E.
      eapply IH; [exact Hc'| | |congruence|congruence]; unfold log_op; destruct (sends o); destruct H as [Ha Hb]; cbn.
      + congruence.
      + by rewrite H1, Ha, app_assoc.
      + by rewrite Ha, H2, app_assoc.
      + by rewrite Hb. }
  destruct (Hrun os Hos (Log [] [] [] []) h0 b1 0 b2 0) as (l & hn & b1' & f1' & b2' & f2' & E & Hc' & H1 & H2 & Hz1 & Hz2);
    [done|cbn; by rewrite Hq1|cbn; by rewrite Hq2|done|done|].
  exists l, hn, b1', f1', b2', f2'. pose proof (conn_ring Hc') as Hr1. pose proof (conn_ring (conn_sym _ _ _ _ _ _ _ Hc')) as Hr2.
  rewrite (length_queue b1'), (length_queue b2') by done. destruct Hr1 as (_ & _ & ? & _), Hr2 as (_ & _ & ? & _).
  split_and!; (done || lia).
Qed.

Lemma bio_pair_stream_witness :
  let os := [(true, Write [1; 2; 3]); (false, Read 2); (true, NWrite [4; 5; 6]); (false, NRead 9);
             (true, ShutdownWr); (false, Read 5)] in
  ∃ h0 l hn b1 f1 b2 f2,
    BIO_new_bio_pair true true true true 0 1 2 4 5 ∅ = Some ((1, Some (1%positive, 2%positive)), h0) ∧
    exec 1 2 (Log [] [] [] []) os h0 = Some (l, hn) ∧ conn hn 1 2 b1 f1 b2 f2 ∧
    sent1 l = recv2 l ++ queue b1 ∧ sent2 l = recv1 l ++ queue b2 ∧
    Z.of_nat (length (queue b1)) ≤ buf_size 4 ∧ Z.of_nat (length (queue b2)) ≤ buf_size 5.
Proof.
  apply (bio_pair_stream ∅ 0 1 2 4 5).
  - done.
  - lia.
  - lia.
  - repeat constructor; cbn; lia.
Defined.
