(* ===== verification/Cbs.v ===== *)
(** * Parsing byte strings

    Models [crypto/bytestring/cbs.c].  A [CBS] is the slice it points at, so
    that consuming bytes drops a prefix.  A getter returns its result ([None]
    for a zero return value) together with the [CBS] it leaves behind, also on
    failure, because several of them advance the input before they fail.
    Lengths are [size_t], modelled as [Z].

    The abstract specification is the DER encoding itself ([der_tlv],
    [der_uint]): the theorems show that the parsers accept exactly the canonical
    encodings and return what was encoded. *)

From S2P Require Import Prelude ConstTime.
#[local] Open Scope Z_scope.

Abbreviation CBS := (list Z).
Abbreviation get A := (CBS → option A * CBS).

Definition CBS_init (data : list Z) (len : Z) : CBS := take (Z.to_nat len) data.
Definition CBS_data (cbs : CBS) : list Z := cbs.
Definition CBS_len (cbs : CBS) : Z := Z.of_nat (length cbs).
Definition CBS_dup (cbs : CBS) : CBS := CBS_init (CBS_data cbs) (CBS_len cbs).

Definition cbs_get (n : Z) : get (list Z) := λ cbs,
  if CBS_len cbs <? n then (None, cbs)
  else (Some (take (Z.to_nat n) cbs), drop (Z.to_nat n) cbs).

Definition CBS_skip (len : Z) : get unit := λ cbs,
  match cbs_get len cbs with
  | (Some _, cbs') => (Some tt, cbs')
  | (None, cbs') => (None, cbs')
  end.

(** [malloc_ok] answers the allocation; the result is [*out_ptr] and [*out_len]
    ([inl] for a zero return value). *)
Definition CBS_stow (malloc_ok : bool) (cbs : CBS) : unit + (option (list Z) * Z) :=
  if CBS_len cbs =? 0 then inr (None, 0)
  else if negb malloc_ok then inl tt
  else inr (Some cbs, CBS_len cbs).

(** [strnlen]: the bytes before the first zero byte. *)
Fixpoint until_zero (l : list Z) : list Z :=
  match l with
  | [] => []
  | x :: l' => if x =? 0 then [] else x :: until_zero l'
  end.

(** The duplicated C string, with its terminating zero. *)
Definition strndup (malloc_ok : bool) (buf : list Z) (size : Z) : option (list Z) :=
  if malloc_ok then Some (until_zero (take (Z.to_nat size) buf) ++ [0]) else None.

Definition CBS_strdup (malloc_ok : bool) (cbs : CBS) : option (list Z) :=
  strndup malloc_ok (CBS_data cbs) (CBS_len cbs).

(** Copies into [dest]; the result is the new contents and [*copied]. *)
Definition CBS_write_bytes (cbs : CBS) (dest : list Z) (dest_len : Z) : option (list Z * Z) :=
  if dest_len <? CBS_len cbs then None
  else Some (splice dest 0 cbs, CBS_len cbs).

Definition CBS_contains_zero_byte (cbs : CBS) : bool := existsb (Z.eqb 0) cbs.

Definition CBS_mem_equal (cbs : CBS) (data : list Z) (len : Z) : bool :=
  if negb (len =? CBS_len cbs) then false
  else CRYPTO_memcmp cbs data (Z.to_nat len) =? 0.

(** The loop of [cbs_get_u]. *)
Fixpoint get_u_loop (result : Z) (data : list Z) : Z :=
  match data with
  | [] => result
  | x :: data' => get_u_loop (Z.lor (u32 (result ≪ 8)) x) data'
  end.

Definition cbs_get_u (len : Z) : get Z := λ cbs,
  match cbs_get len cbs with
  | (None, cbs') => (None, cbs')
  | (Some data, cbs') => (Some (get_u_loop 0 data), cbs')
  end.

Definition CBS_get_u8 : get Z := λ cbs,
  match cbs_get 1 cbs with
  | (None, cbs') => (None, cbs')
  | (Some v, cbs') => (Some (getb v 0), cbs')
  end.

Definition CBS_get_u16 : get Z := λ cbs,
  match cbs_get_u 2 cbs with
  | (None, cbs') => (None, cbs')
  | (Some v, cbs') => (Some (u16 v), cbs')
  end.

Definition CBS_get_u24 : get Z := cbs_get_u 3.
Definition CBS_get_u32 : get Z := cbs_get_u 4.

Definition CBS_get_bytes (len : Z) : get CBS := λ cbs,
  match cbs_get len cbs with
  | (None, cbs') => (None, cbs')
  | (Some v, cbs') => (Some (CBS_init v len), cbs')
  end.

Definition cbs_get_length_prefixed (len_len : Z) : get CBS := λ cbs,
  match cbs_get_u len_len cbs with
  | (None, cbs') => (None, cbs')
  | (Some len, cbs') => CBS_get_bytes len cbs'
  end.

Definition CBS_get_u8_length_prefixed : get CBS := cbs_get_length_prefixed 1.
Definition CBS_get_u16_length_prefixed : get CBS := cbs_get_length_prefixed 2.
Definition CBS_get_u24_length_prefixed : get CBS := cbs_get_length_prefixed 3.

Definition CBS_ASN1_CONSTRUCTED : Z := 0x20.
Definition CBS_ASN1_BOOLEAN : Z := 0x1.
Definition CBS_ASN1_INTEGER : Z := 0x2.
Definition CBS_ASN1_OCTETSTRING : Z := 0x4.

(** Prepends the tag and header length to the result of the final
    [CBS_get_bytes]. *)
Definition with_header (tag header_len : Z) (r : option CBS * CBS) : option (CBS * Z * Z) * CBS :=
  match r with
  | (None, cbs') => (None, cbs')
  | (Some out, cbs') => (Some (out, tag, header_len), cbs')
  end.

(** The element, its tag and the length of its header. *)
Definition CBS_get_any_asn1_element : get (CBS * Z * Z) := λ cbs,
  match CBS_get_u8 cbs with
  | (None, _) => (None, cbs)
  | (Some tag, header) =>
  match CBS_get_u8 header with
  | (None, _) => (None, cbs)
  | (Some length_byte, header) =>
    if Z.land tag 0x1f =? 0x1f then (None, cbs)
    else if Z.land length_byte 0x80 =? 0 then
      with_header tag 2 (CBS_get_bytes (length_byte + 2) cbs)
    else
      let num_bytes := Z.land length_byte 0x7f in
      if negb (Z.land tag CBS_ASN1_CONSTRUCTED =? 0) && (num_bytes =? 0) then
        with_header tag 2 (CBS_get_bytes 2 cbs)
      else if (num_bytes =? 0) || (4 <? num_bytes) then (None, cbs)
      else
        match cbs_get_u num_bytes header with
        | (None, _) => (None, cbs)
        | (Some len32, _) =>
            if len32 <? 128 then (None, cbs)
            else if len32 ≫ ((num_bytes - 1) * 8) =? 0 then (None, cbs)
            else if u64 (len32 + 2 + num_bytes) <? len32 then (None, cbs)
            else with_header tag (2 + num_bytes)
                   (CBS_get_bytes (u64 (len32 + (2 + num_bytes))) cbs)
        end
  end end.

Definition cbs_get_asn1 (tag_value : Z) (skip_header : bool) : get CBS := λ cbs,
  match CBS_get_any_asn1_element cbs with
  | (None, cbs') => (None, cbs')
  | (Some (out, tag, header_len), cbs') =>
      if negb (tag =? tag_value) ||
         ((0 <? header_len) && (CBS_len out =? header_len) &&
          (getb (CBS_data out) (header_len - 1) =? 0x80))
      then (None, cbs')
      else if skip_header then
        match CBS_skip header_len out with
        | (None, _) => (None, cbs')
        | (Some _, out') => (Some out', cbs')
        end
      else (Some out, cbs')
  end.

Definition CBS_get_asn1 (tag_value : Z) : get CBS := cbs_get_asn1 tag_value true.
Definition CBS_get_asn1_element (tag_value : Z) : get CBS := cbs_get_asn1 tag_value false.

Definition CBS_peek_asn1_tag (cbs : CBS) (tag_value : Z) : bool :=
  if CBS_len cbs <? 1 then false else getb (CBS_data cbs) 0 =? tag_value.

(** The loop of [CBS_get_asn1_uint64]: [None] when the value overflows. *)
Fixpoint uint64_loop (out : Z) (data : list Z) : option Z :=
  match data with
  | [] => Some out
  | x :: data' =>
      if negb (out ≫ 56 =? 0) then None
      else uint64_loop (Z.lor (u64 (out ≪ 8)) x) data'
  end.

Definition CBS_get_asn1_uint64 : get Z := λ cbs,
  match CBS_get_asn1 CBS_ASN1_INTEGER cbs with
  | (None, cbs') => (None, cbs')
  | (Some data, cbs') =>
      let len := CBS_len data in
      if len =? 0 then (None, cbs')
      else if negb (Z.land (getb data 0) 0x80 =? 0) then (None, cbs')
      else if (getb data 0 =? 0) && (1 <? len) && (Z.land (getb data 1) 0x80 =? 0)
      then (None, cbs')
      else (uint64_loop 0 data, cbs')
  end.

(** [Some (out, present)]; [out] is [None] when it is not written. *)
Definition CBS_get_optional_asn1 (tag : Z) : get (option CBS) := λ cbs,
  if CBS_peek_asn1_tag cbs tag then
    match CBS_get_asn1 tag cbs with
    | (None, cbs') => (None, cbs')
    | (Some out, cbs') => (Some (Some out), cbs')
    end
  else (Some None, cbs).

(** The octet string and [*out_present]; an absent one is the empty [CBS]. *)
Definition CBS_get_optional_asn1_octet_string (tag : Z) : get (CBS * bool) := λ cbs,
  match CBS_get_optional_asn1 tag cbs with
  | (None, cbs') => (None, cbs')
  | (Some None, cbs') => (Some ([], false), cbs')
  | (Some (Some child), cbs') =>
      match CBS_get_asn1 CBS_ASN1_OCTETSTRING child with
      | (None, _) => (None, cbs')
      | (Some out, child') =>
          if CBS_len child' =? 0 then (Some (out, true), cbs') else (None, cbs')
      end
  end.

Definition CBS_get_optional_asn1_uint64 (tag default_value : Z) : get Z := λ cbs,
  match CBS_get_optional_asn1 tag cbs with
  | (None, cbs') => (None, cbs')
  | (Some None, cbs') => (Some default_value, cbs')
  | (Some (Some child), cbs') =>
      match CBS_get_asn1_uint64 child with
      | (None, _) => (None, cbs')
      | (Some out, child') =>
          if CBS_len child' =? 0 then (Some out, cbs') else (None, cbs')
      end
  end.

Definition CBS_get_optional_asn1_bool (tag default_value : Z) : get Z := λ cbs,
  match CBS_get_optional_asn1 tag cbs with
  | (None, cbs') => (None, cbs')
  | (Some None, cbs') => (Some default_value, cbs')
  | (Some (Some child), cbs') =>
      match CBS_get_asn1 CBS_ASN1_BOOLEAN child with
      | (None, _) => (None, cbs')
      | (Some child2, child') =>
          if negb (CBS_len child2 =? 1) || negb (CBS_len child' =? 0) then (None, cbs')
          else
            let boolean := getb child2 0 in
            if boolean =? 0 then (Some 0, cbs')
            else if boolean =? 0xff then (Some 1, cbs')
            else (None, cbs')
      end
  end.

(** ** The reference encoding *)

(** The number of bytes of a length in long form. *)
Definition len_bytes (n : Z) : nat :=
  if n <? 2 ^ 8 then 1 else if n <? 2 ^ 16 then 2 else if n <? 2 ^ 24 then 3 else 4.

Definition der_length (n : Z) : list Z :=
  if n <? 128 then [n] else (128 + Z.of_nat (len_bytes n)) :: be_store (len_bytes n) n.

Definition der_tlv (tag : Z) (body : list Z) : list Z :=
  tag :: der_length (Z.of_nat (length body)) ++ body.

(** The content of a non-negative INTEGER: the fewest bytes that leave the sign
    bit clear. *)
Definition der_uint (v : Z) : list Z := be_store (Z.to_nat ((Z.log2 v + 1) `div` 8 + 1)) v.

(** ** Basic getters *)

Lemma cbs_get_app a r : cbs_get (Z.of_nat (length a)) (a ++ r) = (Some a, r).
Proof.
  unfold cbs_get, CBS_len. rewrite length_app, Nat2Z.id.
  destruct (Z.ltb_spec (Z.of_nat (length a + length r)) (Z.of_nat (length a))); [lia|].
  by rewrite take_app_length, drop_app_length.
Qed.

Lemma cbs_get_Some n cbs a r : 0 ≤ n → cbs_get n cbs = (Some a, r) →
  cbs = a ++ r ∧ Z.of_nat (length a) = n.
Proof.
  unfold cbs_get, CBS_len. intros Hn. destruct (Z.ltb_spec (Z.of_nat (length cbs)) n); [done|].
  intros [= <- <-]. rewrite take_drop. split; [done|]. len.
Qed.

Lemma CBS_get_bytes_app a r : CBS_get_bytes (Z.of_nat (length a)) (a ++ r) = (Some a, r).
Proof.
  unfold CBS_get_bytes. rewrite cbs_get_app. unfold CBS_init. by rewrite Nat2Z.id, firstn_all.
Qed.

Lemma CBS_get_bytes_Some n cbs a r : 0 ≤ n → CBS_get_bytes n cbs = (Some a, r) →
  cbs = a ++ r ∧ Z.of_nat (length a) = n.
Proof.
  unfold CBS_get_bytes. intros Hn. destruct (cbs_get n cbs) as [[v|] c] eqn:E; [|done].
  apply cbs_get_Some in E as [-> Hl]; [|done]. intros [= <- <-].
  unfold CBS_init. rewrite <- Hl, Nat2Z.id, firstn_all. done.
Qed.

Lemma CBS_get_u8_cons x r : CBS_get_u8 (x :: r) = (Some x, r).
Proof.
  unfold CBS_get_u8. change 1 with (Z.of_nat (length [x])).
  change (x :: r) with ([x] ++ r). by rewrite cbs_get_app.
Qed.

Lemma get_u_loop_spec acc data : bytes data → 0 ≤ acc →
  acc * 2 ^ (8 * Z.of_nat (length data)) + be_load data < 2 ^ 32 →
  get_u_loop acc data = acc * 2 ^ (8 * Z.of_nat (length data)) + be_load data.
Proof.
  intros Hd. revert acc. induction Hd as [|x data Hx Hd IH]; intros acc Ha Hlt.
  { simpl. change (be_load []) with 0. lia. }
  cbn [get_u_loop length] in *.
  replace (8 * Z.of_nat (S (length data))) with (8 + 8 * Z.of_nat (length data)) in * by lia.
  rewrite Z.pow_add_r in * by lia. change (2 ^ 8) with 256 in *.
  pose proof (be_load_cons x data Hx Hd) as E.
  pose proof (be_load_bound data Hd) as Hb. rewrite E in Hlt |- *. unfold is_byte in Hx.
  set (w := 2 ^ (8 * Z.of_nat (length data))) in *.
  assert (0 < w) by (apply Z.pow_pos_nonneg; lia).
  assert (u32 (acc ≪ 8) = acc ≪ 8) as ->.
  { unfold u32. apply Z.mod_small. rewrite Z.shiftl_mul_pow2 by lia. nia. }
  rewrite lor_shiftl_add by lia. change (2 ^ 8) with 256. rewrite IH by nia. lia.
Qed.

Lemma cbs_get_u_app data r : bytes data → (length data ≤ 4)%nat →
  cbs_get_u (Z.of_nat (length data)) (data ++ r) = (Some (be_load data), r).
Proof.
  intros Hd Hl. unfold cbs_get_u. rewrite cbs_get_app, get_u_loop_spec; [f_equal; f_equal; lia|done|lia|].
  pose proof (be_load_bound data Hd).
  assert (2 ^ (8 * Z.of_nat (length data)) ≤ 2 ^ 32) by (apply Z.pow_le_mono_r; lia). lia.
Qed.

Lemma cbs_get_u_Some n cbs v r : bytes cbs → 0 ≤ n ≤ 4 → cbs_get_u n cbs = (Some v, r) →
  ∃ data, cbs = data ++ r ∧ Z.of_nat (length data) = n ∧ v = be_load data.
Proof.
  intros Hb Hn. unfold cbs_get_u. destruct (cbs_get n cbs) as [[data|] c] eqn:E; [|done].
  apply cbs_get_Some in E as [-> Hl]; [|lia]. intros [= <- <-]. exists data. repeat split; [done|].
  apply Forall_app in Hb as [Hb _]. rewrite get_u_loop_spec; [lia|done|lia|].
  pose proof (be_load_bound data Hb).
  assert (2 ^ (8 * Z.of_nat (length data)) ≤ 2 ^ 32) by (apply Z.pow_le_mono_r; lia). lia.
Qed.

(** ** Length-prefixed strings *)

Lemma length_prefixed_iff (k : nat) cbs body rest : bytes cbs → (k ≤ 4)%nat →
  cbs_get_length_prefixed (Z.of_nat k) cbs = (Some body, rest) ↔
  cbs = be_store k (Z.of_nat (length body)) ++ body ++ rest ∧
  Z.of_nat (length body) < 2 ^ (8 * Z.of_nat k).
Proof.
  intros Hb Hk. unfold cbs_get_length_prefixed. split.
  - destruct (cbs_get_u (Z.of_nat k) cbs) as [[n|] c] eqn:E; [|done]. intros Hg.
    apply cbs_get_u_Some in E as (data & -> & Hl & ->); [|done|lia].
    apply Forall_app in Hb as [Hd _]. pose proof (be_load_bound data Hd) as Hbd.
    apply CBS_get_bytes_Some in Hg as [-> Hn]; [|lia].
    rewrite Hn. replace k with (length data) by lia. rewrite be_store_load by done.
    split; [done|lia].
  - intros [-> Hlt].
    pose proof (cbs_get_u_app (be_store k (Z.of_nat (length body))) (body ++ rest)
      ltac:(auto with vtls) ltac:(rewrite length_be_store; done)) as E.
    rewrite length_be_store in E. rewrite E, be_load_store, Z.mod_small by lia.
    apply CBS_get_bytes_app.
Qed.

(** The 8-, 16- and 24-bit length-prefixed getters accept exactly the
    encodings [length || body] with the length in big-endian, and return the body
    and the remaining input. *)
Theorem CBS_get_length_prefixed_canonical cbs body rest :
  bytes cbs →
  (CBS_get_u8_length_prefixed cbs = (Some body, rest) ↔
     cbs = be_store 1 (Z.of_nat (length body)) ++ body ++ rest ∧ Z.of_nat (length body) < 2 ^ 8) ∧
  (CBS_get_u16_length_prefixed cbs = (Some body, rest) ↔
     cbs = be_store 2 (Z.of_nat (length body)) ++ body ++ rest ∧ Z.of_nat (length body) < 2 ^ 16) ∧
  (CBS_get_u24_length_prefixed cbs = (Some body, rest) ↔
     cbs = be_store 3 (Z.of_nat (length body)) ++ body ++ rest ∧ Z.of_nat (length body) < 2 ^ 24).
Proof.
  intros Hb. split; [|split].
  - exact (length_prefixed_iff 1 cbs body rest Hb ltac:(lia)).
  - exact (length_prefixed_iff 2 cbs body rest Hb ltac:(lia)).
  - exact (length_prefixed_iff 3 cbs body rest Hb ltac:(lia)).
Qed.

Lemma CBS_get_length_prefixed_canonical_witness :
  CBS_get_u16_length_prefixed [0; 2; 9; 8; 7] = (Some [9; 8], [7]).
Proof.
  apply CBS_get_length_prefixed_canonical.
  - repeat (constructor; [unfold is_byte; lia|]). constructor.
  - split; [reflexivity|simpl; lia].
Defined.

(** ** ASN.1 elements *)

Lemma len_bytes_spec n (k : nat) : 128 ≤ n < 2 ^ 32 → (1 ≤ k ≤ 4)%nat →
  len_bytes n = k ↔ (n < 2 ^ (8 * Z.of_nat k) ∧ n ≫ ((Z.of_nat k - 1) * 8) ≠ 0).
Proof.
  intros Hn Hk. rewrite Z.shiftr_div_pow2 by lia. unfold len_bytes.
  assert (k = 1 ∨ k = 2 ∨ k = 3 ∨ k = 4)%nat as [->|[->|[->| ->]]] by lia;
    simpl Z.of_nat; simpl (_ * _); simpl Z.pow; case_cmp; split; intros; try lia;
    (split; [lia|]) || idtac; intros E || idtac;
    try (apply Z.div_small_iff in E; lia);
    match goal with H : _ ∧ _ |- _ => destruct H as [? []]; apply Z.div_small; lia end.
Qed.

Lemma len_bytes_range n : (1 ≤ len_bytes n ≤ 4)%nat.
Proof. unfold len_bytes. case_cmp; lia. Qed.

(** The header of an element of [n] bytes. *)
Definition header_len (n : Z) : Z := 1 + Z.of_nat (length (der_length n)).

Lemma length_der_length n :
  Z.of_nat (length (der_length n)) = if n <? 128 then 1 else 1 + Z.of_nat (len_bytes n).
Proof. unfold der_length. destruct (n <? 128); [done|]. cbn [length]. rewrite length_be_store. lia. Qed.

Lemma length_der_tlv tag body :
  Z.of_nat (length (der_tlv tag body)) =
  header_len (Z.of_nat (length body)) + Z.of_nat (length body).
Proof. unfold der_tlv, header_len. cbn [length]. rewrite length_app. lia. Qed.

Lemma any_element_tlv tag body rest : is_byte tag → Z.land tag 0x1f ≠ 0x1f →
  Z.of_nat (length body) < 2 ^ 32 →
  CBS_get_any_asn1_element (der_tlv tag body ++ rest) =
  (Some (der_tlv tag body, tag, header_len (Z.of_nat (length body))), rest).
Proof.
  intros Ht Htag Hlen. pose proof (length_der_tlv tag body) as Hall.
  unfold CBS_get_any_asn1_element.
  assert (∀ hl L, hl = header_len (Z.of_nat (length body)) → L = Z.of_nat (length body) + hl →
    with_header tag hl (CBS_get_bytes L (der_tlv tag body ++ rest)) =
    (Some (der_tlv tag body, tag, header_len (Z.of_nat (length body))), rest)) as Hfin.
  { intros hl L -> ->. rewrite Z.add_comm, <- Hall, CBS_get_bytes_app. done. }
  assert (header_len (Z.of_nat (length body)) = 1 + if Z.of_nat (length body) <? 128 then 1
    else 1 + Z.of_nat (len_bytes (Z.of_nat (length body)))) as Hhl.
  { unfold header_len. by rewrite length_der_length. }
  change (der_tlv tag body ++ rest) with (tag :: (der_length (Z.of_nat (length body)) ++ body) ++ rest) at 1.
  rewrite <- app_assoc, CBS_get_u8_cons. unfold der_length at 1.
  apply Z.eqb_neq in Htag. rewrite Htag. set (n := Z.of_nat (length body)) in *.
  pose proof (len_bytes_range n) as Hk.
  destruct (Z.ltb_spec n 128) as [Hs|Hs].
  - cbn [app]. rewrite CBS_get_u8_cons, byte_top_clear by (unfold is_byte; lia).
    rewrite (proj2 (Z.ltb_lt n 128)) by lia. apply Hfin; lia.
  - cbn [app]. rewrite CBS_get_u8_cons, byte_top_clear by (unfold is_byte; lia).
    rewrite (proj2 (Z.ltb_ge _ 128)), byte_low7 by (unfold is_byte; lia).
    replace (128 + Z.of_nat (len_bytes n) - 128) with (Z.of_nat (len_bytes n)) by lia.
    rewrite (proj2 (Z.eqb_neq (Z.of_nat (len_bytes n)) 0)), (proj2 (Z.ltb_ge 4 _)) by lia.
    rewrite andb_false_r. cbn [orb].
    pose proof (cbs_get_u_app (be_store (len_bytes n) n) (body ++ rest)
      ltac:(auto with vtls) ltac:(rewrite length_be_store; lia)) as E.
    rewrite length_be_store in E. rewrite E.
    destruct (proj1 (len_bytes_spec n _ ltac:(lia) Hk) eq_refl) as [Hb Hm].
    rewrite be_load_store, Z.mod_small by lia.
    rewrite (proj2 (Z.ltb_ge n 128)), (proj2 (Z.eqb_neq _ 0) Hm) by lia.
    rewrite !u64_small, (proj2 (Z.ltb_ge _ n)) by lia. apply Hfin; lia.
Qed.

(** What the element parser returns: a definite-length element, or the header of
    a constructed element of indefinite length. *)
Lemma any_element_Some cbs out tag hl rest : bytes cbs →
  CBS_get_any_asn1_element cbs = (Some (out, tag, hl), rest) →
  cbs = out ++ rest ∧ Z.land tag 0x1f ≠ 0x1f ∧
  ((∃ body, out = der_tlv tag body ∧ Z.of_nat (length body) < 2 ^ 32 ∧
      hl = header_len (Z.of_nat (length body))) ∨
   (out = [tag; 0x80] ∧ hl = 2 ∧ Z.land tag CBS_ASN1_CONSTRUCTED ≠ 0)).
Proof.
  intros Hb. unfold CBS_get_any_asn1_element.
  destruct cbs as [|t [|b cbs]]; [done| rewrite CBS_get_u8_cons; done |].
  rewrite !CBS_get_u8_cons.
  apply bytes_cons_inv in Hb as [Ht Hb]. apply bytes_cons_inv in Hb as [Hbb Hb].
  destruct (Z.eqb_spec (Z.land t 0x1f) 0x1f) as [|Htag]; [done|].
  unfold with_header. rewrite byte_top_clear by done.
  destruct (Z.ltb_spec b 128) as [Hs|Hs].
  { destruct (CBS_get_bytes (b + 2) _) as [[o|] r] eqn:E; [|done]. intros [= <- <- <- <-].
    unfold is_byte in *. apply CBS_get_bytes_Some in E as [E Hl]; [|lia].
    split; [done|]. split; [done|]. left.
    destruct o as [|t' [|b' body]]; cbn [length] in Hl; [lia..|]. injection E as <- <- ->.
    exists body. assert (Z.of_nat (length body) = b) as Hb' by lia.
    unfold der_tlv, header_len. rewrite length_der_length, Hb'. unfold der_length.
    rewrite (proj2 (Z.ltb_lt b 128)) by lia. repeat split; lia. }
  rewrite byte_low7 by done. set (k := b - 128).
  destruct (Z.eqb_spec k 0) as [Hk|Hk].
  { rewrite andb_true_r. destruct (Z.eqb_spec (Z.land t CBS_ASN1_CONSTRUCTED) 0) as [Hc|Hc]; [done|].
    cbn [negb]. destruct (CBS_get_bytes 2 _) as [[o|] r] eqn:E; [|done]. intros [= <- <- <- <-].
    apply CBS_get_bytes_Some in E as [E Hl]; [|lia]. repeat split; [done|done|]. right.
    destruct o as [|? [|? [|? ?]]]; cbn [length] in Hl; try lia. injection E as <- <- ->.
    repeat split; [f_equal; f_equal; lia|done]. }
  rewrite andb_false_r. cbn [orb]. destruct (Z.ltb_spec 4 k); [done|].
  destruct (cbs_get_u k cbs) as [[n|] c] eqn:E; [|done].
  unfold is_byte in Hbb. assert (1 ≤ k ≤ 4) as Hkr by lia.
  apply cbs_get_u_Some in E as (data & -> & Hl & ->); [|done|lia].
  apply Forall_app in Hb as [Hd _]. pose proof (be_load_bound data Hd) as Hbd.
  destruct (Z.ltb_spec (be_load data) 128); [done|].
  destruct (Z.eqb_spec (be_load data ≫ ((k - 1) * 8)) 0) as [|Hm]; [done|].
  assert (2 ^ (8 * Z.of_nat (length data)) ≤ 2 ^ 32) by (apply Z.pow_le_mono_r; lia).
  rewrite !u64_small by lia. rewrite (proj2 (Z.ltb_ge _ (be_load data))) by lia.
  destruct (CBS_get_bytes _ _) as [[o|] r] eqn:E; [|done]. intros [= <- <- <- <-].
  apply CBS_get_bytes_Some in E as [E Ho]; [|lia]. split; [done|]. split; [done|]. left.
  destruct o as [|t' [|b' body']]; cbn [length] in Ho; [lia..|]. injection E as <- <- E.
  assert (∃ body, body' = data ++ body ∧ c = body ++ r) as (body & -> & ->).
  { exists (drop (length data) body'). apply app_eq_inv in E as [(l & E1 & E2)|(l & E1 & E2)].
    - assert (length l = 0)%nat as ->%length_zero_iff_nil by (apply (f_equal length) in E1; len).
      rewrite app_nil_r in E1. subst. rewrite drop_all, app_nil_r. done.
    - subst. rewrite drop_app_length. done. }
  rewrite length_app in Ho. exists body. assert (Z.of_nat (length body) = be_load data) as Hn by lia.
  assert (len_bytes (be_load data) = length data) as Hlb.
  { apply len_bytes_spec; [lia|lia|]. rewrite Hl. split; [rewrite <- Hl; lia|done]. }
  unfold der_tlv, header_len. rewrite length_der_length, Hn. unfold der_length.
  rewrite (proj2 (Z.ltb_ge _ 128)), Hlb, be_store_load by (done || lia).
  cbn [app]. repeat split; [|lia|lia]. do 2 f_equal. lia.
Qed.

Lemma skip_header_tlv tag body :
  CBS_skip (header_len (Z.of_nat (length body))) (der_tlv tag body) = (Some tt, body).
Proof.
  unfold CBS_skip, header_len, der_tlv.
  replace (1 + Z.of_nat (length (der_length (Z.of_nat (length body)))))
    with (Z.of_nat (length (tag :: der_length (Z.of_nat (length body))))) by (cbn [length]; lia).
  by rewrite app_comm_cons, cbs_get_app.
Qed.

(** No definite-length element looks like the header of an indefinite one. *)
Lemma header_not_indefinite tag body : Z.of_nat (length body) < 2 ^ 32 →
  let hl := header_len (Z.of_nat (length body)) in
  (0 <? hl) && (CBS_len (der_tlv tag body) =? hl) && (getb (CBS_data (der_tlv tag body)) (hl - 1) =? 0x80)
  = false.
Proof.
  intros Hl hl. unfold CBS_len. rewrite length_der_tlv. fold hl.
  destruct (Z.eqb_spec (hl + Z.of_nat (length body)) hl) as [E|]; [|by rewrite andb_false_r].
  assert (length body = 0)%nat as ->%length_zero_iff_nil by lia. by rewrite andb_false_r.
Qed.

Lemma get_asn1_iff tag cbs body rest :
  bytes cbs → is_byte tag → Z.land tag 0x1f ≠ 0x1f →
  CBS_get_asn1 tag cbs = (Some body, rest) ↔
  cbs = der_tlv tag body ++ rest ∧ Z.of_nat (length body) < 2 ^ 32.
Proof.
  intros Hb Ht Htag. unfold CBS_get_asn1, cbs_get_asn1. split.
  - destruct (CBS_get_any_asn1_element cbs) as [[[[out t] hl]|] c] eqn:E; [|done].
    apply any_element_Some in E as (-> & Ht' & Hout); [|done].
    destruct (Z.eqb_spec t tag) as [->|]; [|done]. cbn [negb orb].
    destruct Hout as [(body' & -> & Hl & ->)|(-> & -> & Hc)].
    + case_match; [done|]. rewrite skip_header_tlv. intros [= -> ->]. done.
    + cbn. done.
  - intros [-> Hl]. rewrite any_element_tlv, Z.eqb_refl by done. cbn [negb orb].
    rewrite header_not_indefinite by done. rewrite skip_header_tlv. done.
Qed.

(** ** Integers *)

Lemma uint64_loop_spec out data : bytes data → 0 ≤ out < 2 ^ 64 →
  let v := out * 2 ^ (8 * Z.of_nat (length data)) + be_load data in
  uint64_loop out data = if v <? 2 ^ 64 then Some v else None.
Proof.
  intros Hd. revert out. induction Hd as [|x data Hx Hd IH]; intros out Ho; cbv zeta.
  { change (be_load []) with 0. simpl. rewrite (proj2 (Z.ltb_lt _ _)) by lia. f_equal. lia. }
  cbn [uint64_loop]. rewrite be_load_cons by done. cbn [length].
  replace (8 * Z.of_nat (S (length data))) with (8 + 8 * Z.of_nat (length data)) by lia.
  rewrite Z.pow_add_r by lia. change (2 ^ 8) with 256.
  pose proof (be_load_bound data Hd) as Hb. set (w := 2 ^ (8 * Z.of_nat (length data))) in *.
  assert (0 < w) by (apply Z.pow_pos_nonneg; lia). unfold is_byte in Hx.
  rewrite Z.shiftr_div_pow2 by lia.
  destruct (Z.eqb_spec (out `div` 2 ^ 56) 0) as [E|E]; cbn [negb].
  - apply Z.div_small_iff in E; [|lia].
    assert (u64 (out ≪ 8) = out ≪ 8) as ->.
    { apply u64_small. rewrite Z.shiftl_mul_pow2 by lia. lia. }
    rewrite lor_shiftl_add by lia. rewrite IH by lia. fold w.
    replace (out * 2 ^ 8 * w) with (out * (256 * w)) by lia.
    replace ((out * 2 ^ 8 + x) * w + be_load data) with (out * (256 * w) + (x * w + be_load data)) by lia.
    done.
  - assert (2 ^ 56 ≤ out).
    { destruct (Z.le_gt_cases (2 ^ 56) out); [done|]. destruct E. apply Z.div_small. lia. }
    rewrite (proj2 (Z.ltb_ge _ _)); [done|]. nia.
Qed.

(** The checks of [CBS_get_asn1_uint64] on the content octets. *)
Definition minimal_unsigned (data : list Z) : Prop :=
  data ≠ [] ∧ getb data 0 < 128 ∧ ¬ (getb data 0 = 0 ∧ (1 < length data)%nat ∧ getb data 1 < 128).

Lemma log2_bytes v (k : nat) : (1 ≤ k)%nat → 0 ≤ v < 2 ^ (8 * Z.of_nat k - 1) →
  (k = 1%nat ∨ 2 ^ (8 * (Z.of_nat k - 1) - 1) ≤ v) → (Z.log2 v + 1) `div` 8 + 1 = Z.of_nat k.
Proof.
  intros Hk Hv Hm.
  enough ((Z.log2 v + 1) `div` 8 = Z.of_nat k - 1) by lia.
  symmetry. apply Z.div_unique_pos with (r := Z.log2 v + 1 - 8 * (Z.of_nat k - 1)); [|lia].
  assert (Z.log2 v < 8 * Z.of_nat k - 1).
  { destruct (Z.eq_dec v 0) as [->|]; [simpl; lia|]. apply Z.log2_lt_pow2; lia. }
  pose proof (Z.log2_nonneg v). destruct Hm as [E|Hm]; [lia|].
  destruct (Z.eq_dec (Z.of_nat k) 1); [lia|].
  pose proof (Z.log2_le_mono _ _ Hm) as Hm'. rewrite Z.log2_pow2 in Hm' by lia. lia.
Qed.

Lemma log2_bytes_bounds v : 0 ≤ v →
  let k := (Z.log2 v + 1) `div` 8 + 1 in
  1 ≤ k ∧ v < 2 ^ (8 * k - 1) ∧ (k = 1 ∨ 2 ^ (8 * (k - 1) - 1) ≤ v).
Proof.
  intros Hv k. pose proof (Z.log2_nonneg v) as Hl.
  pose proof (Z.div_mod (Z.log2 v + 1) 8 ltac:(lia)) as Hd.
  pose proof (Z.mod_pos_bound (Z.log2 v + 1) 8 ltac:(lia)) as Hr. fold k in Hd.
  set (q := (Z.log2 v + 1) `div` 8) in *. assert (0 ≤ q) by lia. split; [lia|]. split.
  - destruct (Z.eq_dec v 0) as [->|]; [apply Z.pow_pos_nonneg; lia|].
    pose proof (Z.log2_spec v ltac:(lia)) as [_ H2]. eapply Z.lt_le_trans; [exact H2|].
    apply Z.pow_le_mono_r; lia.
  - destruct (Z.eq_dec q 0); [left; lia|right]. destruct (Z.eq_dec v 0) as [->|].
    { exfalso. subst q. simpl in *. lia. }
    pose proof (Z.log2_spec v ltac:(lia)) as [H1 _]. etransitivity; [|exact H1].
    apply Z.pow_le_mono_r; lia.
Qed.

Lemma minimal_unsigned_iff data : bytes data →
  let k := Z.of_nat (length data) in
  minimal_unsigned data ↔
  1 ≤ k ∧ be_load data < 2 ^ (8 * k - 1) ∧ (k = 1 ∨ 2 ^ (8 * (k - 1) - 1) ≤ be_load data).
Proof.
  intros Hb k. unfold minimal_unsigned, k.
  destruct Hb as [|x data Hx Hb]; [cbn [length]; split; [by intros []|lia]|].
  pose proof (be_load_bound data Hb) as Hbd. rewrite be_load_cons by done.
  change (getb (x :: data) 0) with x. cbn [length]. unfold is_byte in Hx.
  replace (8 * Z.of_nat (S (length data)) - 1) with (7 + 8 * Z.of_nat (length data)) by lia.
  rewrite Z.pow_add_r by lia. change (2 ^ 7) with 128.
  destruct Hb as [|y data Hy Hb].
  { change (be_load []) with 0. cbn [length]. simpl (2 ^ _).
    split; [intros (_ & ? & _)|intros (_ & ? & _)]; repeat split; try lia; done. }
  pose proof (be_load_bound data Hb) as Hbd'. rewrite be_load_cons in * by done.
  change (getb (x :: y :: data) 1) with y. cbn [length] in *. unfold is_byte in Hy.
  replace (8 * (Z.of_nat (S (S (length data))) - 1) - 1) with (7 + 8 * Z.of_nat (length data)) by lia.
  replace (8 * Z.of_nat (S (length data))) with (8 + 8 * Z.of_nat (length data)) in * by lia.
  rewrite !Z.pow_add_r in * by lia. change (2 ^ 7) with 128. change (2 ^ 8) with 256 in *.
  set (w := 2 ^ (8 * Z.of_nat (length data))) in *.
  split.
  - intros (_ & H1 & H2). split; [lia|]. split; [nia|right].
    destruct (Z.eq_dec x 0) as [->|]; [|nia].
    assert (128 ≤ y); [|nia]. destruct (Z.le_gt_cases 128 y); [done|]. destruct H2. repeat split; lia.
  - intros (_ & H1 & H2). split; [done|]. split; [nia|]. intros (-> & _ & H). nia.
Qed.

Lemma minimal_unsigned_der data : bytes data →
  minimal_unsigned data ↔ data = der_uint (be_load data).
Proof.
  intros Hb. rewrite minimal_unsigned_iff by done. pose proof (be_load_bound data Hb) as Hbd. split.
  - intros (Hk & Hu & Hl). unfold der_uint.
    rewrite (log2_bytes _ (length data)), Nat2Z.id, be_store_load; [done|done|lia|lia|].
    destruct Hl; [left; lia|by right].
  - intros E. pose proof (log2_bytes_bounds (be_load data) ltac:(lia)) as H.
    apply (f_equal length) in E. unfold der_uint in E. rewrite length_be_store in E.
    cbv zeta in H. destruct H as [H1 H2]. rewrite E, Z2Nat.id by lia. done.
Qed.

Lemma be_load_der_uint v : 0 ≤ v → be_load (der_uint v) = v.
Proof.
  intros Hv. unfold der_uint. pose proof (log2_bytes_bounds v Hv) as (H1 & H2 & _).
  rewrite be_load_store, Z2Nat.id by lia. apply Z.mod_small. split; [done|].
  eapply Z.lt_le_trans; [exact H2|]. apply Z.pow_le_mono_r; lia.
Qed.

Lemma bytes_der_uint v : bytes (der_uint v).
Proof. apply bytes_be_store. Qed.

Lemma length_der_uint v : 0 ≤ v < 2 ^ 64 → (1 ≤ length (der_uint v) ≤ 9)%nat.
Proof.
  intros Hv. unfold der_uint. rewrite length_be_store. pose proof (Z.log2_nonneg v).
  assert (Z.log2 v ≤ 63) by (destruct (Z.eq_dec v 0) as [->|];
    [simpl; lia | apply Z.lt_succ_r, Z.log2_lt_pow2; lia]).
  assert ((Z.log2 v + 1) `div` 8 ≤ 8) by (apply Z.div_le_upper_bound; lia).
  assert (0 ≤ (Z.log2 v + 1) `div` 8) by (apply Z.div_pos; lia). lia.
Qed.

(** The guards and the loop of [CBS_get_asn1_uint64] on the content. *)
Definition uint64_content (data : list Z) : option Z :=
  let len := CBS_len data in
  if len =? 0 then None
  else if negb (Z.land (getb data 0) 0x80 =? 0) then None
  else if (getb data 0 =? 0) && (1 <? len) && (Z.land (getb data 1) 0x80 =? 0) then None
  else uint64_loop 0 data.

Lemma uint64_content_iff data v : bytes data →
  uint64_content data = Some v ↔ data = der_uint v ∧ 0 ≤ v < 2 ^ 64.
Proof.
  intros Hb. pose proof (be_load_bound data Hb) as Hbd.
  assert (uint64_content data = Some v ↔
    minimal_unsigned data ∧ be_load data = v ∧ be_load data < 2 ^ 64) as ->.
  { unfold uint64_content, minimal_unsigned, CBS_len. rewrite !byte_top_clear by auto with vtls.
    rewrite uint64_loop_spec by (done || lia). rewrite Z.mul_0_l, Z.add_0_l.
    destruct (Z.eqb_spec (Z.of_nat (length data)) 0).
    { split; [done|]. intros [[H _] _]. by destruct data. }
    assert (data ≠ []) by (by intros ->).
    case_cmp; cbn [negb andb]; split;
      try done; try (intros [(_ & ? & H')]; lia || (exfalso; apply H'; lia));
      try (intros [= <-]; repeat split; try done; lia); intros (_ & <- & ?); done. }
  rewrite minimal_unsigned_der by done. split.
  - intros (E & <- & H). split; [done|lia].
  - intros [-> Hv]. rewrite be_load_der_uint by lia. repeat split; done || lia.
Qed.

Lemma get_uint64_iff cbs v rest : bytes cbs →
  CBS_get_asn1_uint64 cbs = (Some v, rest) ↔
  cbs = der_tlv CBS_ASN1_INTEGER (der_uint v) ++ rest ∧ 0 ≤ v < 2 ^ 64.
Proof.
  intros Hb.
  pose proof (λ d r, get_asn1_iff CBS_ASN1_INTEGER cbs d r Hb ltac:(unfold is_byte, CBS_ASN1_INTEGER; lia)
    ltac:(by vm_compute)) as Hiff.
  assert (∀ d r, CBS_get_asn1 CBS_ASN1_INTEGER cbs = (Some d, r) →
    CBS_get_asn1_uint64 cbs = (uint64_content d, r)) as Hc.
  { intros d r E. unfold CBS_get_asn1_uint64, uint64_content. rewrite E. by repeat case_match. }
  split.
  - intros E. assert (∃ x, CBS_get_asn1 CBS_ASN1_INTEGER cbs = x) as [[[d|] r] Ed] by eauto.
    + rewrite (Hc d r Ed) in E. injection E as E ->. apply Hiff in Ed as [-> _].
      apply uint64_content_iff in E as [-> Hv]; [done|].
      apply Forall_app in Hb as [Hb _]. unfold der_tlv in Hb.
      apply bytes_cons_inv in Hb as [_ Hb]. by apply Forall_app in Hb as [_ Hb].
    + unfold CBS_get_asn1_uint64 in E. by rewrite Ed in E.
  - intros [E Hv]. pose proof (length_der_uint v Hv).
    rewrite (Hc (der_uint v) rest); [|apply Hiff; split; [done|lia]].
    f_equal. apply uint64_content_iff; [apply bytes_der_uint|done].
Qed.

(** C22: [CBS_get_asn1] accepts exactly the DER encodings (definite length,
    minimal length bytes) with the requested tag, and returns the content and the
    remaining input. *)
Theorem CBS_get_asn1_iff tag cbs body rest :
  bytes cbs → is_byte tag → Z.land tag 0x1f ≠ 0x1f →
  CBS_get_asn1 tag cbs = (Some body, rest) ↔
  cbs = der_tlv tag body ++ rest ∧ Z.of_nat (length body) < 2 ^ 32.
Proof. intros. by apply get_asn1_iff. Qed.

Lemma CBS_get_asn1_iff_witness :
  CBS_get_asn1 0x30 [0x30; 2; 5; 6; 7] = (Some [5; 6], [7]).
Proof.
  apply CBS_get_asn1_iff.
  - repeat (constructor; [unfold is_byte; lia|]). constructor.
  - unfold is_byte; lia.
  - vm_compute. discriminate.
  - split; [reflexivity|simpl; lia].
Defined.

(** [CBS_get_asn1_uint64] accepts exactly the DER encodings of the integers
    of 64 bits and returns the integer. *)
Theorem CBS_get_asn1_uint64_iff cbs v rest :
  bytes cbs →
  CBS_get_asn1_uint64 cbs = (Some v, rest) ↔
  cbs = der_tlv CBS_ASN1_INTEGER (der_uint v) ++ rest ∧ 0 ≤ v < 2 ^ 64.
Proof. apply get_uint64_iff. Qed.

Lemma CBS_get_asn1_uint64_iff_witness :
  CBS_get_asn1_uint64 [2; 2; 0; 0x80; 9] = (Some 0x80, [9]).
Proof.
  apply CBS_get_asn1_uint64_iff.
  - repeat (constructor; [unfold is_byte; lia|]). constructor.
  - split; [reflexivity|lia].
Defined.
