(* ===== verification/Cbb.v ===== *)
(** * Building byte strings

    Models [crypto/bytestring/cbb.c].  The [CBB] structures of the caller and the
    buffers they share live in a heap ([heap]): a child [CBB] points at the same
    [cbb_buffer] as its parent, and the parent points at the child while a length
    prefix is pending.  An operation returns [Ok] (return value 1), [Err] (return
    value 0, with the heap it leaves behind) or [Fault] (a null or dangling
    pointer, an access outside the buffer, a failed assertion).

    The abstract specification is [encode]: the bytes of a tree of nested
    elements.  [CBB_build_correct] shows that the sequence of calls which builds
    a tree never faults, yields exactly [encode] when it succeeds and fails only
    when the tree has no encoding or memory cannot be allocated.  The round trips
    connect it with the parsers of [Cbs]. *)

From S2P Require Import Prelude ConstTime Cbs.
From stdpp Require Import gmap.
#[local] Open Scope Z_scope.

(** ** State *)

Record cbb_buffer := Buffer {
  buf : list Z;            (** the allocation; its length is [cap] *)
  buf_len : Z;             (** [len] *)
  can_resize : bool
}.

Definition cap (b : cbb_buffer) : Z := Z.of_nat (length (buf b)).

Record CBB := mkCBB {
  base : option positive;
  offset : Z;
  child : option positive;
  pending_len_len : Z;
  pending_is_asn1 : bool;
  is_top_level : bool
}.

Record heap := Heap {
  cbbs : gmap positive CBB;
  bufs : gmap positive cbb_buffer
}.

Inductive res (A : Type) : Type :=
  | Ok (x : A) (h : heap)
  | Err (h : heap)
  | Fault.
Arguments Ok {A} x h.
Arguments Err {A} h.
Arguments Fault {A}.

Definition M (A : Type) : Type := heap → res A.

Definition ret {A} (x : A) : M A := λ h, Ok x h.
Definition fail {A} : M A := λ h, Err h.
Definition fault {A} : M A := λ h, Fault.
Definition bind {A B} (m : M A) (f : A → M B) : M B := λ h,
  match m h with
  | Ok x h' => f x h'
  | Err h' => Err h'
  | Fault => Fault
  end.

Declare Scope cbb_scope.
Delimit Scope cbb_scope with cbb.
Notation "x <- m ;; k" := (bind m (λ x, k))
  (at level 100, m at next level, k at level 200, right associativity) : cbb_scope.
Notation "m ;;; k" := (bind m (λ _, k))
  (at level 100, k at level 200, right associativity) : cbb_scope.
#[local] Open Scope cbb_scope.

(** Memory accesses. *)
Definition get_cbb (p : positive) : M CBB := λ h,
  match cbbs h !! p with Some c => Ok c h | None => Fault end.
Definition put_cbb (p : positive) (c : CBB) : M unit := λ h,
  Ok tt (Heap (<[p := c]> (cbbs h)) (bufs h)).
Definition get_buf (b : option positive) : M cbb_buffer := λ h,
  match b ≫= λ b, bufs h !! b with Some B => Ok B h | None => Fault end.
Definition put_buf (b : option positive) (B : cbb_buffer) : M unit := λ h,
  match b with
  | Some b => Ok tt (Heap (cbbs h) (<[b := B]> (bufs h)))
  | None => Fault
  end.

(** [memcpy] into the buffer; a range that leaves the allocation is a fault. *)
Definition write_buf (b : option positive) (off : Z) (src : list Z) : M unit :=
  B <- get_buf b ;;
  if off + Z.of_nat (length src) <=? cap B
  then put_buf b (Buffer (splice (buf B) (Z.to_nat off) src) (buf_len B) (can_resize B))
  else fault.

Section allocator.
(** [alloc_ok n] answers a request for [n] bytes; [junk] is what fresh memory
    contains. *)
Context (alloc_ok : Z → bool) (junk : Z).

Definition realloc (old : list Z) (n : Z) : option (list Z) :=
  if alloc_ok n
  then Some (take (Z.to_nat n) old ++ replicate (Z.to_nat n - length old) junk)
  else None.

(** ** Operations *)

(** [new_base] is the allocation of the [cbb_buffer_st], [None] when [malloc]
    fails. *)
Definition cbb_init (p : positive) (new_base : option positive) (data : list Z) : M unit :=
  match new_base with
  | None => fail
  | Some b =>
      put_buf (Some b) (Buffer data 0 true) ;;;
      put_cbb p (mkCBB (Some b) 0 None 0 false true)
  end.

Definition CBB_init (p : positive) (new_base : option positive) (initial_capacity : Z) : M unit :=
  match realloc [] initial_capacity with
  | None => if 0 <? initial_capacity then fail else cbb_init p new_base []
  | Some data => cbb_init p new_base data
  end.

Definition CBB_init_fixed (p : positive) (new_base : option positive) (data : list Z) : M unit :=
  cbb_init p new_base data ;;;
  c <- get_cbb p ;;
  B <- get_buf (base c) ;;
  put_buf (base c) (Buffer (buf B) (buf_len B) false).

(** Frees the buffer structure; the allocation itself is no longer reachable
    through it. *)
Definition CBB_cleanup (p : positive) : M unit :=
  c <- get_cbb p ;;
  (λ h, Ok tt (Heap (cbbs h) (match base c with Some b => delete b (bufs h) | None => bufs h end))) ;;;
  put_cbb p (mkCBB None (offset c) (child c) (pending_len_len c) (pending_is_asn1 c) (is_top_level c)).

(** Returns the offset at which the new [len] bytes start. *)
Definition cbb_buffer_add (b : option positive) (len : Z) : M Z :=
  match b with
  | None => fail
  | Some _ =>
      B <- get_buf b ;;
      let newlen := u64 (buf_len B + len) in
      if newlen <? buf_len B then fail
      else
        (if cap B <? newlen then
           let newcap := u64 (cap B * 2) in
           if negb (can_resize B) then fail
           else
             let newcap := if (newcap <? cap B) || (newcap <? newlen) then newlen else newcap in
             match realloc (buf B) newcap with
             | None => fail
             | Some newbuf => put_buf b (Buffer newbuf (buf_len B) (can_resize B))
             end
         else ret tt) ;;;
        B' <- get_buf b ;;
        put_buf b (Buffer (buf B') newlen (can_resize B')) ;;;
        ret (buf_len B)
  end.

(** [for (i = n - 1; i < n; i--) { buf[off + i] = v; v >>= 8; }]; returns the
    final [v]. *)
Fixpoint store_loop (b : option positive) (off : Z) (n : nat) (v : Z) : M Z :=
  match n with
  | O => ret v
  | S i =>
      write_buf b (off + Z.of_nat i) [u8 v] ;;;
      store_loop b off i (v ≫ 8)
  end.

Definition cbb_buffer_add_u (b : option positive) (v len_len : Z) : M unit :=
  if len_len =? 0 then ret tt
  else
    off <- cbb_buffer_add b len_len ;;
    store_loop b off (Z.to_nat len_len) v ;;;
    ret tt.

(** The length bytes of an ASN.1 element of [len] bytes: how many there are,
    the first of them, and the value the remaining ones hold. *)
Definition asn1_length (len : Z) : option (Z * Z * Z) :=
  if 0xfffffffe <? len then None
  else if 0xffffff <? len then Some (5, Z.lor 0x80 4, len)
  else if 0xffff <? len then Some (4, Z.lor 0x80 3, len)
  else if 0xff <? len then Some (3, Z.lor 0x80 2, len)
  else if 0x7f <? len then Some (2, Z.lor 0x80 1, len)
  else Some (1, u8 len, 0).

(** The [pending_is_asn1] part of [CBB_flush]: makes room for the length bytes
    and writes the first.  Returns what is left to store. *)
Definition flush_asn1 (p : positive) (child_start len : Z) : M Z :=
  c <- get_cbb p ;;
  if negb (pending_len_len c =? 1) then fault
  else
    match asn1_length len with
    | None => fail
    | Some (len_len, initial_length_byte, len') =>
        (if negb (len_len =? 1) then
           let extra_bytes := len_len - 1 in
           cbb_buffer_add (base c) extra_bytes ;;;
           B <- get_buf (base c) ;;
           write_buf (base c) (child_start + extra_bytes)
             (take (Z.to_nat len') (drop (Z.to_nat child_start) (buf B)))
         else ret tt) ;;;
        write_buf (base c) (offset c) [initial_length_byte] ;;;
        put_cbb p (mkCBB (base c) (u64 (offset c + 1)) (child c) (len_len - 1)
                     (pending_is_asn1 c) (is_top_level c)) ;;;
        ret len'
    end.

(** Writes out pending length prefixes, the innermost first.  [fuel] bounds the
    length of the chain of children. *)
Fixpoint CBB_flush (fuel : nat) (p : positive) : M unit :=
  match fuel with
  | O => fault
  | S fuel =>
      c <- get_cbb p ;;
      match base c, child c with
      | None, _ => fail
      | Some _, None => ret tt
      | Some _, Some ch =>
          if pending_len_len c =? 0 then ret tt
          else
            let child_start := u64 (offset c + pending_len_len c) in
            CBB_flush fuel ch ;;;
            B <- get_buf (base c) ;;
            if (child_start <? offset c) || (buf_len B <? child_start) then fail
            else
              let len := buf_len B - child_start in
              len <- (if pending_is_asn1 c then flush_asn1 p child_start len else ret len) ;;
              c <- get_cbb p ;;
              rest <- store_loop (base c) (offset c) (Z.to_nat (pending_len_len c)) len ;;
              if negb (rest =? 0) then fail
              else
                cc <- get_cbb ch ;;
                put_cbb ch (mkCBB None (offset cc) (child cc) (pending_len_len cc)
                              (pending_is_asn1 cc) (is_top_level cc)) ;;;
                put_cbb p (mkCBB (base c) 0 None 0 false (is_top_level c))
      end
  end.

(** The buffer contents and length; [want] says whether [out_data] and
    [out_len] are both non-null. *)
Definition CBB_finish (fuel : nat) (p : positive) (want : bool) : M (list Z * Z) :=
  c <- get_cbb p ;;
  if negb (is_top_level c) then fail
  else
    CBB_flush fuel p ;;;
    c <- get_cbb p ;;
    B <- get_buf (base c) ;;
    if can_resize B && negb want then fail
    else
      put_buf (base c) (Buffer [] (buf_len B) (can_resize B)) ;;;
      CBB_cleanup p ;;;
      ret (buf B, buf_len B).

Definition open_child (p out_contents : positive) (off len_len : Z) (asn1 : bool) : M unit :=
  c <- get_cbb p ;;
  put_cbb out_contents (mkCBB (base c) 0 None 0 false false) ;;;
  put_cbb p (mkCBB (base c) off (Some out_contents) len_len asn1 (is_top_level c)).

Definition cbb_add_length_prefixed (fuel : nat) (p out_contents : positive) (len_len : Z) : M unit :=
  CBB_flush fuel p ;;;
  c <- get_cbb p ;;
  B <- get_buf (base c) ;;
  put_cbb p (mkCBB (base c) (buf_len B) (child c) (pending_len_len c) (pending_is_asn1 c) (is_top_level c)) ;;;
  prefix_bytes <- cbb_buffer_add (base c) len_len ;;
  write_buf (base c) prefix_bytes (replicate (Z.to_nat len_len) 0) ;;;
  open_child p out_contents (buf_len B) len_len false.

Definition CBB_add_u8_length_prefixed fuel p out_contents := cbb_add_length_prefixed fuel p out_contents 1.
Definition CBB_add_u16_length_prefixed fuel p out_contents := cbb_add_length_prefixed fuel p out_contents 2.
Definition CBB_add_u24_length_prefixed fuel p out_contents := cbb_add_length_prefixed fuel p out_contents 3.

Definition cbb_add_u (fuel : nat) (p : positive) (value len_len : Z) : M unit :=
  CBB_flush fuel p ;;;
  c <- get_cbb p ;;
  cbb_buffer_add_u (base c) value len_len.

Definition CBB_add_u8 fuel p (value : Z) : M unit := cbb_add_u fuel p value 1.
Definition CBB_add_u16 fuel p (value : Z) : M unit := cbb_add_u fuel p value 2.
Definition CBB_add_u24 fuel p (value : Z) : M unit := cbb_add_u fuel p value 3.

Definition CBB_add_asn1 (fuel : nat) (p out_contents : positive) (tag : Z) : M unit :=
  if Z.land tag 0x1f =? 0x1f then fail
  else
    CBB_flush fuel p ;;;
    CBB_add_u8 fuel p tag ;;;
    c <- get_cbb p ;;
    B <- get_buf (base c) ;;
    put_cbb p (mkCBB (base c) (buf_len B) (child c) (pending_len_len c) (pending_is_asn1 c) (is_top_level c)) ;;;
    CBB_add_u8 fuel p 0 ;;;
    open_child p out_contents (buf_len B) 1 true.

Definition CBB_add_bytes (fuel : nat) (p : positive) (data : list Z) : M unit :=
  CBB_flush fuel p ;;;
  c <- get_cbb p ;;
  dest <- cbb_buffer_add (base c) (Z.of_nat (length data)) ;;
  write_buf (base c) dest data.

(** Returns the offset of the [len] bytes the caller is to fill in. *)
Definition CBB_add_space (fuel : nat) (p : positive) (len : Z) : M Z :=
  CBB_flush fuel p ;;;
  c <- get_cbb p ;;
  cbb_buffer_add (base c) len.

(** The loop of [CBB_add_asn1_uint64] over the bytes of the value, the most
    significant first; returns [started]. *)
Fixpoint uint64_octets_loop (fuel : nat) (ch : positive) (started : bool) (octets : list Z) : M bool :=
  match octets with
  | [] => ret started
  | byte :: octets' =>
      if negb started && (byte =? 0) then uint64_octets_loop fuel ch started octets'
      else
        (if negb started && negb (Z.land byte 0x80 =? 0) then CBB_add_u8 fuel ch 0 else ret tt) ;;;
        CBB_add_u8 fuel ch byte ;;;
        uint64_octets_loop fuel ch true octets'
  end.

Definition CBB_add_asn1_uint64 (fuel : nat) (p ch : positive) (value : Z) : M unit :=
  CBB_add_asn1 fuel p ch CBS_ASN1_INTEGER ;;;
  started <- uint64_octets_loop fuel ch false
               (map (λ i, Z.land (value ≫ (8 * (7 - i))) 0xff) (seqZ 0 8)) ;;
  (if negb started then CBB_add_u8 fuel ch 0 else ret tt) ;;;
  CBB_flush fuel p.

End allocator.

(** ** Abstract specification: trees of nested elements *)

Inductive width := W8 | W16 | W24.
Inductive prefix := P8 | P16 | P24 | PAsn1 (tag : Z).

(** What a client builds into one [CBB]: a sequence of integers, byte strings,
    INTEGERs and nested elements. *)
Inductive prog :=
  | Stop
  | PutU (w : width) (v : Z) (next : prog)
  | PutBytes (data : list Z) (next : prog)
  | PutUint64 (v : Z) (next : prog)
  | Nested (x : prefix) (body next : prog).

Definition width_len (w : width) : nat := match w with W8 => 1 | W16 => 2 | W24 => 3 end.

(** The bytes in front of a body of [n] bytes. *)
Definition prefix_bytes (x : prefix) (n : Z) : option (list Z) :=
  match x with
  | P8 => if n <? 2 ^ 8 then Some (be_store 1 n) else None
  | P16 => if n <? 2 ^ 16 then Some (be_store 2 n) else None
  | P24 => if n <? 2 ^ 24 then Some (be_store 3 n) else None
  | PAsn1 tag =>
      if (Z.land tag 0x1f =? 0x1f) || (0xfffffffe <? n) then None
      else Some (u8 tag :: der_length n)
  end.

Definition with_prefix (x : prefix) (body : list Z) : option (list Z) :=
  (λ pre, pre ++ body) <$> prefix_bytes x (Z.of_nat (length body)).

Fixpoint encode (t : prog) : option (list Z) :=
  match t with
  | Stop => Some []
  | PutU w v t => (λ e, be_store (width_len w) v ++ e) <$> encode t
  | PutBytes data t => (λ e, data ++ e) <$> encode t
  | PutUint64 v t => (λ e, der_tlv CBS_ASN1_INTEGER (der_uint v) ++ e) <$> encode t
  | Nested x body t =>
      b ← encode body ≫= with_prefix x; (λ e, b ++ e) <$> encode t
  end.

(** What a client passes is in range. *)
Fixpoint prog_wf (t : prog) : Prop :=
  match t with
  | Stop => True
  | PutU _ _ t => prog_wf t
  | PutBytes data t => bytes data ∧ prog_wf t
  | PutUint64 v t => 0 ≤ v < 2 ^ 64 ∧ prog_wf t
  | Nested _ body t => prog_wf body ∧ prog_wf t
  end.

(** An upper bound on the bytes a tree needs, and its depth. *)
Fixpoint prog_size (t : prog) : Z :=
  match t with
  | Stop => 0
  | PutU w v t => 3 + prog_size t
  | PutBytes data t => Z.of_nat (length data) + prog_size t
  | PutUint64 v t => 16 + prog_size t
  | Nested x body t => 6 + prog_size body + prog_size t
  end.

Fixpoint prog_depth (t : prog) : nat :=
  match t with
  | Stop => 0
  | PutU _ _ t | PutBytes _ t => prog_depth t
  | PutUint64 _ t => Nat.max 1 (prog_depth t)
  | Nested _ body t => Nat.max (S (prog_depth body)) (prog_depth t)
  end.

(** The calls that build a tree.  The children of the [CBB] at address [p] are
    the variable at the next address, reused for every sibling. *)
Section client.
Context (alloc_ok : Z → bool) (junk : Z).

Definition add_u (fuel : nat) (p : positive) (w : width) (v : Z) : M unit :=
  match w with
  | W8 => CBB_add_u8 alloc_ok junk fuel p (u8 v)
  | W16 => CBB_add_u16 alloc_ok junk fuel p (u16 v)
  | W24 => CBB_add_u24 alloc_ok junk fuel p (u32 v)
  end.

Definition open_prefix (fuel : nat) (p ch : positive) (x : prefix) : M unit :=
  match x with
  | P8 => CBB_add_u8_length_prefixed alloc_ok junk fuel p ch
  | P16 => CBB_add_u16_length_prefixed alloc_ok junk fuel p ch
  | P24 => CBB_add_u24_length_prefixed alloc_ok junk fuel p ch
  | PAsn1 tag => CBB_add_asn1 alloc_ok junk fuel p ch tag
  end.

Fixpoint build (fuel : nat) (p : positive) (t : prog) : M unit :=
  match t with
  | Stop => ret tt
  | PutU w v t => add_u fuel p w v ;;; build fuel p t
  | PutBytes data t => CBB_add_bytes alloc_ok junk fuel p data ;;; build fuel p t
  | PutUint64 v t => CBB_add_asn1_uint64 alloc_ok junk fuel p (Pos.succ p) v ;;; build fuel p t
  | Nested x body t =>
      open_prefix fuel p (Pos.succ p) x ;;;
      build fuel (Pos.succ p) body ;;;
      build fuel p t
  end.

(** Builds a tree into a fresh [CBB] and finishes it. *)
Definition build_all (fuel : nat) (cap0 : Z) (t : prog) : res (list Z) :=
  (CBB_init alloc_ok junk 1 (Some 1%positive) cap0 ;;;
   build fuel 1 t ;;;
   r <- CBB_finish alloc_ok junk fuel 1 true ;;
   ret (take (Z.to_nat (snd r)) (fst r))) (Heap ∅ ∅).

(** The same into a caller's buffer. *)
Definition build_fixed (fuel : nat) (data : list Z) (t : prog) : res (list Z) :=
  (CBB_init_fixed 1 (Some 1%positive) data ;;;
   build fuel 1 t ;;;
   r <- CBB_finish alloc_ok junk fuel 1 true ;;
   ret (take (Z.to_nat (snd r)) (fst r))) (Heap ∅ ∅).
End client.

(** ** Reasoning about outcomes *)

(** [post r Q E]: the outcome is a success that satisfies [Q], or a failure
    and [E] holds; never a fault. *)
Definition post {A} (r : res A) (Q : A → heap → Prop) (E : Prop) : Prop :=
  match r with
  | Ok x h => Q x h
  | Err _ => E
  | Fault => False
  end.

Lemma post_bind {A B} (m : M A) (f : A → M B) h Q E :
  post (m h) (λ x h', post (f x h') Q E) E → post (bind m f h) Q E.
Proof. unfold bind, post. by destruct (m h). Qed.

Lemma post_mono {A} (r : res A) (Q Q' : A → heap → Prop) (E E' : Prop) :
  post r Q E → (∀ x h, Q x h → Q' x h) → (E → E') → post r Q' E'.
Proof. destruct r; simpl; auto. Qed.

Lemma post_bind_mono {A B} (m : M A) (f : A → M B) h Q0 E0 Q (E : Prop) :
  post (m h) Q0 E0 → (∀ x h', Q0 x h' → post (f x h') Q E) → (E0 → E) → post (bind m f h) Q E.
Proof. intros H ? ?. apply post_bind. by eapply post_mono. Qed.

Lemma bind_assoc {A B C} (m : M A) (n : A → M B) (f : B → M C) h :
  bind m (λ x, bind (n x) f) h = bind (bind m n) f h.
Proof. unfold bind. by destruct (m h). Qed.

Lemma post_get_cbb {B} p c (f : CBB → M B) h Q E :
  cbbs h !! p = Some c → post (f c h) Q E → post (bind (get_cbb p) f h) Q E.
Proof. intros Hp H. apply post_bind. unfold get_cbb. by rewrite Hp. Qed.

Lemma post_get_buf {B} b bf (f : cbb_buffer → M B) h Q E :
  bufs h !! b = Some bf → post (f bf h) Q E → post (bind (get_buf (Some b)) f h) Q E.
Proof. intros Hb H. apply post_bind. unfold get_buf. simpl. by rewrite Hb. Qed.

Section spec.
Context (alloc_ok : Z → bool) (junk : Z) (b : positive) (r : bool).

(** Memory never runs out: the buffer may grow and allocations succeed. *)
Definition unlimited : Prop := r = true ∧ ∀ n, alloc_ok n = true.

(** The buffer holds exactly [c]. *)
Definition holds (h : heap) (c : list Z) : Prop :=
  ∃ spare, bufs h !! b = Some (Buffer (c ++ spare) (Z.of_nat (length c)) r).

(** A [CBB] on the buffer with nothing pending. *)
Definition clean (h : heap) (p : positive) (top : bool) : Prop :=
  cbbs h !! p = Some (mkCBB (Some b) 0 None 0 false top).

(** The [CBB]s at lower addresses, the ancestors, are as before. *)
Definition ancestors_kept (p : positive) (h h' : heap) : Prop :=
  ∀ q, (q < p)%positive → cbbs h' !! q = cbbs h !! q.

Lemma ancestors_kept_refl p h : ancestors_kept p h h.
Proof. by intros q. Qed.

Lemma ancestors_kept_trans p h1 h2 h3 :
  ancestors_kept p h1 h2 → ancestors_kept p h2 h3 → ancestors_kept p h1 h3.
Proof. intros H1 H2 q Hq. by rewrite H2, H1. Qed.

Lemma ancestors_kept_le p p' h h' : (p ≤ p')%positive →
  ancestors_kept p' h h' → ancestors_kept p h h'.
Proof. intros Hp H q Hq. apply H. lia. Qed.

Lemma ancestors_kept_put p p' c bs h : (p ≤ p')%positive →
  ancestors_kept p h (Heap (<[p' := c]> (cbbs h)) bs).
Proof. intros Hp q Hq. simpl. apply lookup_insert_ne. lia. Qed.

(** Flushing [p] leaves the buffer with contents [oc]; [None] when some pending
    prefix cannot hold its length. *)
Definition flushes_to (h : heap) (p : positive) (top : bool) (oc : option (list Z)) (d : nat) : Prop :=
  ∀ fuel, (d < fuel)%nat →
    post (CBB_flush alloc_ok junk fuel p h)
      (λ _ h', ∃ c, oc = Some c ∧ clean h' p top ∧ holds h' c ∧ ancestors_kept p h h')
      (unlimited → oc = None).

Lemma clean_flushes_to h p top c : clean h p top → holds h c → flushes_to h p top (Some c) 0.
Proof.
  intros Hp Hc [|fuel] Hf; [lia|]. cbn [CBB_flush].
  eapply post_get_cbb; [exact Hp|]. simpl. exists c. auto using ancestors_kept_refl.
Qed.

(** *** Appending to the buffer *)

Lemma buffer_add_spec h c n (Q : Z → heap → Prop) (E : Prop) :
  holds h c → 0 ≤ n → Z.of_nat (length c) + n < 2 ^ 64 →
  (∀ fresh spare, length fresh = Z.to_nat n →
     Q (Z.of_nat (length c))
       (Heap (cbbs h) (<[b := Buffer (c ++ fresh ++ spare) (Z.of_nat (length c) + n) r]> (bufs h)))) →
  (¬ unlimited → E) →
  post (cbb_buffer_add alloc_ok junk (Some b) n h) Q E.
Proof.
  intros [spare Hb] Hn Hlt HQ HE. unfold cbb_buffer_add.
  eapply post_get_buf; [exact Hb|]. cbn [buf_len buf can_resize]. cbv zeta.
  rewrite u64_small by lia. rewrite (proj2 (Z.ltb_ge _ _)) by lia.
  unfold cap. cbn [buf]. rewrite length_app.
  destruct (Z.ltb_spec (Z.of_nat (length c + length spare)) (Z.of_nat (length c) + n)) as [Hc|Hc].
  - apply post_bind. destruct r eqn:Er; [|apply HE; intros [? _]; congruence]. cbn [negb].
    set (nc := u64 (Z.of_nat (length c + length spare) * 2)).
    set (newcap := if (nc <? Z.of_nat (length c + length spare)) || (nc <? Z.of_nat (length c) + n)
                   then Z.of_nat (length c) + n else nc).
    assert (Z.of_nat (length c) + n ≤ newcap) as Hnc.
    { unfold newcap. destruct (Z.ltb_spec nc (Z.of_nat (length c) + n)); rewrite ?orb_true_r; [lia|].
      destruct (nc <? Z.of_nat (length c + length spare)); simpl; lia. }
    unfold realloc. destruct (alloc_ok newcap) eqn:Ea.
    + set (spare' := spare ++ replicate (Z.to_nat newcap - length (c ++ spare)) junk).
      assert (take (Z.to_nat newcap) (c ++ spare) ++ replicate (Z.to_nat newcap - length (c ++ spare)) junk
        = c ++ spare') as Esp.
      { rewrite take_ge by len. unfold spare'. by rewrite app_assoc. }
      rewrite Esp. unfold put_buf at 1. cbn [post].
      eapply post_get_buf; [cbn [bufs]; apply lookup_insert_eq|]. apply post_bind. cbn.
      rewrite insert_insert_eq.
      rewrite <- (take_drop (Z.to_nat n) spare'). apply HQ. rewrite length_take. unfold spare'. rewrite length_app, length_replicate, length_app. lia.
    + apply HE. intros [_ Hall]. by rewrite Hall in Ea.
  - apply post_bind. cbn [post ret]. eapply post_get_buf; [exact Hb|]. apply post_bind. cbn.
    rewrite <- (take_drop (Z.to_nat n) spare). apply HQ. len.
Qed.

Lemma write_buf_spec h bytes0 old src post0 n (Q : unit → heap → Prop) E :
  bufs h !! b = Some (Buffer (bytes0 ++ old ++ post0) n r) → length old = length src →
  Q tt (Heap (cbbs h) (<[b := Buffer (bytes0 ++ src ++ post0) n r]> (bufs h))) →
  post (write_buf (Some b) (Z.of_nat (length bytes0)) src h) Q E.
Proof.
  intros Hb Hl HQ. unfold write_buf. eapply post_get_buf; [exact Hb|].
  unfold cap. cbn [buf buf_len can_resize]. rewrite !length_app, Hl.
  destruct (Z.leb_spec (Z.of_nat (length bytes0) + Z.of_nat (length src))
    (Z.of_nat (length bytes0 + (length src + length post0)))); [|lia].
  rewrite Nat2Z.id, splice_app by done. exact HQ.
Qed.

Lemma store_loop_spec h pre hole post0 v n (Q : Z → heap → Prop) E :
  bufs h !! b = Some (Buffer (pre ++ hole ++ post0) n r) →
  Q (v ≫ (8 * Z.of_nat (length hole)))
    (Heap (cbbs h) (<[b := Buffer (pre ++ be_store (length hole) v ++ post0) n r]> (bufs h))) →
  post (store_loop (Some b) (Z.of_nat (length pre)) (length hole) v h) Q E.
Proof.
  revert h v post0 Q. induction hole as [|x hole IH] using rev_ind; intros h v post0 Q Hb HQ.
  { cbn [length store_loop]. cbn [post ret]. change (8 * Z.of_nat 0) with 0 in HQ.
    rewrite Z.shiftr_0_r in HQ. cbn [length] in HQ. change (be_store 0 v) with (@nil Z) in HQ.
    rewrite insert_id in HQ by done. by destruct h. }
  rewrite length_app, Nat.add_1_r in *. cbn [store_loop]. apply post_bind.
  replace (Z.of_nat (length pre) + Z.of_nat (length hole)) with (Z.of_nat (length (pre ++ hole))) by len.
  eapply (write_buf_spec _ _ [x] [u8 v] post0 n); [|done|].
  { rewrite Hb. by rewrite <- !app_assoc. }
  rewrite be_store_S in HQ. eapply (IH _ (v ≫ 8) ([u8 v] ++ post0)).
  { cbn [bufs]. rewrite lookup_insert_eq. by rewrite <- !app_assoc. }
  cbn [cbbs bufs]. rewrite insert_insert_eq.
  rewrite Z.shiftr_shiftr by lia.
  replace (8 + 8 * Z.of_nat (length hole)) with (8 * Z.of_nat (S (length hole))) by lia.
  rewrite <- app_assoc in HQ. exact HQ.
Qed.

(** *** Appending through a [CBB] *)

Definition appended (h : heap) (p : positive) (top : bool) (oc : option (list Z)) (e : list Z) (h' : heap) : Prop :=
  ∃ c, oc = Some c ∧ clean h' p top ∧ holds h' (c ++ e) ∧ ancestors_kept p h h'.

(** The new contents fit the address space. *)
Definition fits (oc : option (list Z)) (n : Z) : Prop :=
  ∀ c, oc = Some c → Z.of_nat (length c) + n < 2 ^ 64.

Lemma holds_put h p c x : holds h x → holds (Heap (<[p := c]> (cbbs h)) (bufs h)) x.
Proof. done. Qed.

Lemma holds_set h x spare n : n = Z.of_nat (length x) →
  holds (Heap (cbbs h) (<[b := Buffer (x ++ spare) n r]> (bufs h))) x.
Proof. intros ->. exists spare. cbn [bufs]. apply lookup_insert_eq. Qed.

Lemma holds_eq cs bs bf x spare n : bf = x ++ spare → n = Z.of_nat (length x) →
  holds (Heap cs (<[b := Buffer bf n r]> bs)) x.
Proof. intros -> ->. exists spare. cbn [bufs]. apply lookup_insert_eq. Qed.

Lemma add_u_spec h p top oc d fuel v (k : nat) :
  flushes_to h p top oc d → (d < fuel)%nat → (1 ≤ k)%nat → fits oc (Z.of_nat k) →
  post (cbb_add_u alloc_ok junk fuel p v (Z.of_nat k) h)
    (λ _, appended h p top oc (be_store k v)) (unlimited → oc = None).
Proof.
  intros Hfl Hd Hk Hfit. unfold cbb_add_u.
  eapply post_bind_mono; [by apply Hfl| |done]. intros _ h1 (c & -> & Hp & Hc & Hanc).
  specialize (Hfit c eq_refl). eapply post_get_cbb; [exact Hp|]. cbn [base].
  unfold cbb_buffer_add_u. rewrite (proj2 (Z.eqb_neq _ 0)) by lia. apply post_bind.
  apply buffer_add_spec with (c := c); [done|lia|lia| |tauto]. intros fresh spare Hfr.
  apply post_bind. rewrite <- Hfr. eapply store_loop_spec.
  { cbn [bufs]. apply lookup_insert_eq. }
  cbn [cbbs bufs]. rewrite insert_insert_eq. exists c. split; [done|]. split; [exact Hp|].
  rewrite Nat2Z.id in Hfr. rewrite Hfr, app_assoc. split; [|done].
  apply holds_set. len.
Qed.

Lemma add_bytes_spec h p top oc d fuel data :
  flushes_to h p top oc d → (d < fuel)%nat → fits oc (Z.of_nat (length data)) →
  post (CBB_add_bytes alloc_ok junk fuel p data h)
    (λ _, appended h p top oc data) (unlimited → oc = None).
Proof.
  intros Hfl Hd Hfit. unfold CBB_add_bytes.
  eapply post_bind_mono; [by apply Hfl| |done]. intros _ h1 (c & -> & Hp & Hc & Hanc).
  specialize (Hfit c eq_refl). eapply post_get_cbb; [exact Hp|]. cbn [base]. apply post_bind.
  apply buffer_add_spec with (c := c); [done|lia|lia| |tauto]. intros fresh spare Hfr.
  eapply write_buf_spec; [cbn [bufs]; apply lookup_insert_eq|lia|].
  cbn [cbbs bufs]. rewrite insert_insert_eq. exists c. split; [done|]. split; [exact Hp|].
  rewrite app_assoc. split; [|done]. apply holds_set. len.
Qed.

Lemma appended_flushes_to h p top oc e h' : appended h p top oc e h' →
  flushes_to h' p top ((λ c, c ++ e) <$> oc) 0.
Proof. intros (c & -> & Hp & Hc & _). simpl. by apply clean_flushes_to. Qed.

(** *** Opening a nested element *)

Definition lead (x : prefix) : list Z := match x with PAsn1 tag => [u8 tag] | _ => [] end.
Definition hole_len (x : prefix) : nat := match x with P8 | PAsn1 _ => 1 | P16 => 2 | P24 => 3 end.
Definition asn1_of (x : prefix) : bool := match x with PAsn1 _ => true | _ => false end.
Definition prefix_ok (x : prefix) : bool :=
  match x with PAsn1 tag => negb (Z.land tag 0x1f =? 0x1f) | _ => true end.

Definition opened (h : heap) (p : positive) (top : bool) (oc : option (list Z)) (x : prefix) (h' : heap) : Prop :=
  ∃ c, oc = Some c ∧ prefix_ok x = true ∧
    cbbs h' !! p = Some (mkCBB (Some b) (Z.of_nat (length (c ++ lead x))) (Some (Pos.succ p))
                           (Z.of_nat (hole_len x)) (asn1_of x) top) ∧
    clean h' (Pos.succ p) false ∧
    holds h' (c ++ lead x ++ replicate (hole_len x) 0) ∧ ancestors_kept p h h'.

Lemma open_child_spec h p top off c0 k a (Q : unit → heap → Prop) E :
  cbbs h !! p = Some c0 → base c0 = Some b → is_top_level c0 = top →
  (∀ cs, cs !! p = Some (mkCBB (Some b) off (Some (Pos.succ p)) k a top) →
     cs !! Pos.succ p = Some (mkCBB (Some b) 0 None 0 false false) →
     (∀ q, (q < p)%positive → cs !! q = cbbs h !! q) → Q tt (Heap cs (bufs h))) →
  post (open_child p (Pos.succ p) off k a h) Q E.
Proof.
  intros Hp Hb Ht HQ. unfold open_child. eapply post_get_cbb; [exact Hp|]. rewrite Hb, Ht.
  apply HQ.
  - apply lookup_insert_eq.
  - rewrite lookup_insert_ne by lia. apply lookup_insert_eq.
  - intros q Hq. cbn [cbbs]. rewrite lookup_insert_ne by lia. apply lookup_insert_ne. lia.
Qed.

Lemma add_length_prefixed_spec h p top oc d fuel (x : prefix) :
  asn1_of x = false →
  flushes_to h p top oc d → (d < fuel)%nat → fits oc 6 →
  post (cbb_add_length_prefixed alloc_ok junk fuel p (Pos.succ p) (Z.of_nat (hole_len x)) h)
    (λ _, opened h p top oc x) (unlimited → oc = None).
Proof.
  intros Hx Hfl Hd Hfit. unfold cbb_add_length_prefixed.
  eapply post_bind_mono; [by apply Hfl| |done]. intros _ h1 (c & -> & Hp & [spare Hc] & Hanc).
  specialize (Hfit c eq_refl). eapply post_get_cbb; [exact Hp|]. cbn [base].
  eapply post_get_buf; [exact Hc|]. apply post_bind. cbn [post put_cbb buf_len]. apply post_bind.
  assert (1 ≤ hole_len x ≤ 3)%nat by (destruct x; simpl; lia).
  eapply buffer_add_spec with (c := c); [by exists spare|lia|lia| |tauto]. intros fresh spare' Hfr.
  apply post_bind. rewrite Nat2Z.id in Hfr |- *.
  eapply write_buf_spec; [cbn [bufs]; apply lookup_insert_eq|by rewrite length_replicate|].
  cbn [cbbs bufs]. rewrite insert_insert_eq.
  eapply open_child_spec; [apply lookup_insert_eq|done|done|]. intros cs H1 H2 H3.
  assert (lead x = [] ∧ prefix_ok x = true) as [El Eok] by (by destruct x).
  exists c. rewrite El, Eok, Hx, app_nil_r. cbn [app]. repeat split; [done|done| |].
  - rewrite app_assoc. cbn [bufs]. apply (holds_set (Heap cs (bufs h1))). len.
  - intros q Hq. cbn [cbbs] in *. rewrite H3, lookup_insert_ne by lia. by apply Hanc.
Qed.

Lemma add_asn1_spec h p top oc d fuel tag :
  flushes_to h p top oc d → (d < fuel)%nat → fits oc 6 →
  post (CBB_add_asn1 alloc_ok junk fuel p (Pos.succ p) tag h)
    (λ _, opened h p top oc (PAsn1 tag)) (unlimited → oc = None ∨ prefix_ok (PAsn1 tag) = false).
Proof.
  intros Hfl Hd Hfit. unfold CBB_add_asn1. cbn [prefix_ok].
  destruct (Z.land tag 0x1f =? 0x1f) eqn:Et; [by right|]. cbn [negb].
  eapply post_bind_mono; [by apply Hfl| |auto]. intros _ h1 (c & -> & Hp & Hc & Hanc).
  specialize (Hfit c eq_refl). unfold CBB_add_u8.
  eapply post_bind_mono; [eapply (add_u_spec h1 p top (Some c) 0 fuel tag 1);
    [by apply clean_flushes_to|lia|lia|intros ? [= <-]; lia]| |auto].
  intros _ h2 (c' & [= <-] & Hp2 & Hc2 & Hanc2). rewrite be_store_1 in Hc2.
  eapply post_get_cbb; [exact Hp2|]. cbn [base]. destruct Hc2 as [spare Hc2].
  eapply post_get_buf; [exact Hc2|]. apply post_bind.
  cbn [post put_cbb buf_len child pending_len_len pending_is_asn1 is_top_level].
  set (h3 := Heap _ _).
  eapply (post_bind_mono _ _ h3 (λ _ h4, cbbs h4 = cbbs h3 ∧ holds h4 (c ++ [u8 tag] ++ [0])) (¬ unlimited)).
  - unfold cbb_add_u. eapply post_bind. destruct fuel as [|fuel]; [lia|]. cbn [CBB_flush].
    eapply post_get_cbb; [apply lookup_insert_eq|]. cbn [base child post ret].
    eapply post_get_cbb; [apply lookup_insert_eq|]. unfold cbb_buffer_add_u. cbn [base Z.eqb].
    apply post_bind. eapply (buffer_add_spec h3 (c ++ [u8 tag])); [by exists spare|lia|len| |tauto].
    intros fresh spare' Hfr. apply post_bind. change (Z.to_nat 1) with 1%nat in *. rewrite <- Hfr.
    eapply store_loop_spec; [cbn [bufs]; apply lookup_insert_eq|].
    cbn [cbbs bufs]. rewrite insert_insert_eq, Hfr, be_store_1. change (u8 0) with 0.
    split; [done|]. rewrite app_assoc, <- (app_assoc c). apply (holds_set h3). len.
  - intros _ h4 [Hcs Hc4].
    eapply open_child_spec; [rewrite Hcs; apply lookup_insert_eq|done|done|]. intros cs H1 H2 H3.
    exists c. cbn [lead hole_len asn1_of prefix_ok]. rewrite Et. repeat split; try done.
    intros q Hq. cbn [cbbs] in *. rewrite H3, Hcs by done. unfold h3. cbn [cbbs].
    rewrite lookup_insert_ne by lia. by rewrite Hanc2, Hanc.
  - tauto.
Qed.

(** *** Writing out a pending prefix *)

Lemma shiftr_zero_iff v k : 0 ≤ v → 0 ≤ k → v ≫ k = 0 ↔ v < 2 ^ k.
Proof.
  intros Hv Hk. rewrite Z.shiftr_div_pow2 by done. pose proof (Z.pow_pos_nonneg 2 k ltac:(lia) Hk).
  rewrite Z.div_small_iff by lia. lia.
Qed.

Lemma asn1_length_spec n : 0 ≤ n →
  match asn1_length n with
  | None => 0xfffffffe < n
  | Some (ll, first, n') =>
      n ≤ 0xfffffffe ∧ 1 ≤ ll ≤ 5 ∧ first :: be_store (Z.to_nat (ll - 1)) n' = der_length n ∧
      n' ≫ (8 * (ll - 1)) = 0 ∧ (ll ≠ 1 → n' = n)
  end.
Proof.
  intros Hn. unfold asn1_length, der_length, len_bytes.
  case_cmp; try lia; (split; [lia|]); (split; [lia|]); (split; [|split; [|done || lia]]);
    try reflexivity; try (by apply shiftr_zero_iff; lia).
  rewrite u8_id by (unfold is_byte; lia). done.
Qed.

Lemma flush_asn1_spec h p ch top pre hole body :
  cbbs h !! p = Some (mkCBB (Some b) (Z.of_nat (length pre)) ch 1 true top) → length hole = 1%nat →
  holds h (pre ++ hole ++ body) → Z.of_nat (length pre + length body) + 6 < 2 ^ 64 →
  post (flush_asn1 alloc_ok junk p (Z.of_nat (length pre) + 1) (Z.of_nat (length body)) h)
    (λ n' h', ∃ first hole',
      cbbs h' = <[p := mkCBB (Some b) (Z.of_nat (length (pre ++ [first]))) ch (Z.of_nat (length hole')) true top]> (cbbs h) ∧
      holds h' ((pre ++ [first]) ++ hole' ++ body) ∧
      Z.of_nat (length body) ≤ 0xfffffffe ∧
      first :: be_store (length hole') n' = der_length (Z.of_nat (length body)) ∧
      n' ≫ (8 * Z.of_nat (length hole')) = 0)
    (unlimited → 0xfffffffe < Z.of_nat (length body)).
Proof.
  intros Hp Hh Hc Hfit. unfold flush_asn1. eapply post_get_cbb; [exact Hp|]. cbn [pending_len_len Z.eqb negb].
  pose proof (asn1_length_spec (Z.of_nat (length body)) ltac:(lia)) as Hs.
  destruct (asn1_length _) as [[[ll first] n']|]; [|by cbn].
  destruct Hs as (Hle & Hll & Hder & Hz & Hn'). cbn [base offset].
  eapply (post_bind_mono _ _ h (λ _ h1, cbbs h1 = cbbs h ∧
    ∃ hole', length hole' = Z.to_nat (ll - 1) ∧ holds h1 (pre ++ hole ++ hole' ++ body)) (¬ unlimited)).
  - destruct (Z.eqb_spec ll 1) as [->|Hne]; cbn [negb].
    + split; [done|]. by exists [].
    + rewrite Hn' by done. apply post_bind.
      eapply buffer_add_spec; [exact Hc|lia|len| |tauto]. intros fresh spare Hfr.
      eapply post_get_buf; [cbn [bufs]; apply lookup_insert_eq|]. cbn [buf].
      rewrite <- !app_assoc.
      replace (take _ (drop _ (pre ++ hole ++ body ++ fresh ++ spare))) with body.
      2: { rewrite (app_assoc pre), drop_app_exact by len. rewrite Nat2Z.id. by rewrite take_app_length. }
      set (hole' := take (Z.to_nat (ll - 1)) (body ++ fresh)).
      assert (body ++ fresh = hole' ++ drop (Z.to_nat (ll - 1)) (body ++ fresh)) as Esplit
        by (unfold hole'; by rewrite take_drop).
      assert (length hole' = Z.to_nat (ll - 1)) as Hlh by (unfold hole'; len).
      replace (Z.of_nat (length pre) + 1 + (ll - 1)) with (Z.of_nat (length (pre ++ hole ++ hole'))) by len.
      eapply (write_buf_spec _ (pre ++ hole ++ hole') (drop (Z.to_nat (ll - 1)) (body ++ fresh)) body spare).
      { cbn [bufs]. rewrite lookup_insert_eq. do 2 f_equal. rewrite <- !app_assoc. do 2 f_equal.
        by rewrite (app_assoc hole'), <- Esplit, <- app_assoc. }
      { len. }
      cbn [cbbs bufs]. rewrite insert_insert_eq. split; [done|]. exists hole'. split; [done|].
      apply (holds_eq _ _ _ _ spare); [by rewrite <- !app_assoc|len].
  - intros _ h1 (Hcs & hole' & Hlh & spare & Hb). apply post_bind.
    eapply (write_buf_spec _ pre hole [first] (hole' ++ body ++ spare));
      [rewrite Hb, <- !app_assoc; reflexivity|exact Hh|].
    cbn [post bind put_cbb cbbs bufs ret child pending_is_asn1 is_top_level]. exists first, hole'.
    rewrite Hlh, !Z2Nat.id by lia. rewrite u64_small by lia.
    repeat split; try done.
    + rewrite Hcs. do 2 f_equal. len.
    + apply (holds_eq _ _ _ _ spare); [by rewrite <- !app_assoc|len].
  - tauto.
Qed.

(** The end of [CBB_flush]: the length bytes, and the release of the child. *)
Lemma flush_store_spec h p ch top pre hole body asn1 n' (Q : unit → heap → Prop) (E : Prop) :
  cbbs h !! p = Some (mkCBB (Some b) (Z.of_nat (length pre)) (Some ch) (Z.of_nat (length hole)) asn1 top) →
  clean h ch false → (p < ch)%positive → holds h (pre ++ hole ++ body) → 0 ≤ n' →
  (n' < 2 ^ (8 * Z.of_nat (length hole)) → ∀ h', clean h' p top →
     holds h' (pre ++ be_store (length hole) n' ++ body) → ancestors_kept p h h' → Q tt h') →
  (2 ^ (8 * Z.of_nat (length hole)) ≤ n' → E) →
  post ((c <- get_cbb p ;;
         rest <- store_loop (base c) (offset c) (Z.to_nat (pending_len_len c)) n' ;;
         if negb (rest =? 0) then fail
         else
           cc <- get_cbb ch ;;
           put_cbb ch (mkCBB None (offset cc) (child cc) (pending_len_len cc)
                         (pending_is_asn1 cc) (is_top_level cc)) ;;;
           put_cbb p (mkCBB (base c) 0 None 0 false (is_top_level c))) h) Q E.
Proof.
  intros Hp Hch Hlt [spare Hb] Hn HQ HE. eapply post_get_cbb; [exact Hp|].
  cbn [base offset pending_len_len is_top_level]. rewrite Nat2Z.id. apply post_bind.
  eapply (store_loop_spec _ pre hole (body ++ spare)); [rewrite Hb, <- !app_assoc; reflexivity|].
  pose proof (shiftr_zero_iff n' (8 * Z.of_nat (length hole)) Hn ltac:(lia)) as Hz.
  destruct (Z.eqb_spec (n' ≫ (8 * Z.of_nat (length hole))) 0) as [E0|E0]; cbn [negb].
  - eapply post_get_cbb; [exact Hch|]. cbn. apply HQ; [tauto| | |].
    + apply lookup_insert_eq.
    + apply (holds_eq _ _ _ _ spare); [by rewrite <- !app_assoc|len].
    + intros q Hq. cbn [cbbs]. by rewrite !lookup_insert_ne by lia.
  - apply HE. destruct (Z.le_gt_cases (2 ^ (8 * Z.of_nat (length hole))) n'); [done|]. tauto.
Qed.

Lemma prefix_bytes_plain x n : asn1_of x = false → 0 ≤ n →
  prefix_bytes x n =
  if n <? 2 ^ (8 * Z.of_nat (hole_len x)) then Some (lead x ++ be_store (hole_len x) n) else None.
Proof. by destruct x. Qed.

(** A parent whose child flushes to some body flushes to the prefixed body. *)
Lemma pending_flushes_to h p top x c ob d :
  prefix_ok x = true →
  cbbs h !! p = Some (mkCBB (Some b) (Z.of_nat (length (c ++ lead x))) (Some (Pos.succ p))
                        (Z.of_nat (hole_len x)) (asn1_of x) top) →
  flushes_to h (Pos.succ p) false ((λ body, (c ++ lead x) ++ replicate (hole_len x) 0 ++ body) <$> ob) d →
  (∀ body, ob = Some body → Z.of_nat (length c + length body) + 8 < 2 ^ 64) →
  flushes_to h p top ((λ e, c ++ e) <$> (ob ≫= with_prefix x)) (S d).
Proof.
  intros Hok Hp Hch Hfit [|fuel] Hf; [lia|]. cbn [CBB_flush].
  eapply post_get_cbb; [exact Hp|]. cbn [base child pending_len_len offset pending_is_asn1].
  assert (1 ≤ hole_len x ≤ 3)%nat by (destruct x; simpl; lia).
  assert (length (lead x) ≤ 1)%nat by (destruct x; simpl; lia).
  rewrite (proj2 (Z.eqb_neq _ 0)) by lia. cbv zeta.
  eapply post_bind_mono; [apply Hch; lia| |].
  2: { intros Hn Hu. destruct ob; [by discriminate (Hn Hu)|done]. }
  intros _ h1 (c' & E & Hcl & Hc & Hanc). destruct ob as [body|]; [|done]. injection E as <-.
  specialize (Hfit body eq_refl). set (pre := c ++ lead x) in *.
  assert (length pre ≤ length c + 1)%nat by (unfold pre; len).
  assert (cbbs h1 !! p = cbbs h !! p) as Hp1 by (apply Hanc; lia). rewrite Hp in Hp1.
  assert (ancestors_kept p h h1) as Hanc1 by (eapply ancestors_kept_le; [|exact Hanc]; lia).
  destruct Hc as [spare Hb]. eapply post_get_buf; [exact Hb|]. cbn [buf_len].
  rewrite u64_small by lia.
  replace (Z.of_nat (length (pre ++ replicate (hole_len x) 0 ++ body)))
    with (Z.of_nat (length pre) + Z.of_nat (hole_len x) + Z.of_nat (length body)) by len.
  rewrite !(proj2 (Z.ltb_ge _ _)) by lia. cbn [orb].
  replace (_ - _) with (Z.of_nat (length body)) by lia.
  assert (∀ h', clean h' p top → ancestors_kept p h1 h' → ∀ e, with_prefix x body = Some e →
    holds h' (c ++ e) → ∃ c0, (λ e, c ++ e) <$> (Some body ≫= with_prefix x) = Some c0 ∧
      clean h' p top ∧ holds h' c0 ∧ ancestors_kept p h h') as Hfin.
  { intros h' ? ? e He ?. exists (c ++ e). simpl. rewrite He.
    eauto using ancestors_kept_trans. }
  destruct (asn1_of x) eqn:Ex.
  - destruct x as [| | |tag]; try done. cbn [prefix_ok hole_len lead] in *.
    apply negb_true_iff in Hok.
    eapply post_bind_mono; [eapply flush_asn1_spec; [exact Hp1|apply length_replicate|by exists spare|lia]| |].
    + intros n' h2 (first & hole' & Hcs & Hc2 & Hle & Hder & Hz).
      assert (0 ≤ n') as Hn'.
      { destruct (Z.le_gt_cases 0 n') as [?|Hneg]; [done|].
        apply (Z.shiftr_neg n' (8 * Z.of_nat (length hole'))) in Hneg. lia. }
      eapply flush_store_spec with (hole := hole'); [rewrite Hcs; apply lookup_insert_eq| |lia|exact Hc2|done| |].
      * unfold clean in *. rewrite Hcs, lookup_insert_ne by lia. exact Hcl.
      * intros Hlt h3 Hcl3 Hc3 Hanc3. eapply Hfin; [done| | |].
        -- eapply ancestors_kept_trans; [|exact Hanc3]. intros q Hq.
           rewrite Hcs. apply lookup_insert_ne. lia.
        -- unfold with_prefix, prefix_bytes. rewrite Hok, (proj2 (Z.ltb_ge _ _)) by lia. simpl. reflexivity.
        -- rewrite <- Hder. unfold pre in Hc3. rewrite <- !app_assoc in Hc3. exact Hc3.
      * intros Hge. exfalso. apply shiftr_zero_iff in Hz; lia.
    + intros Hn Hu. specialize (Hn Hu). simpl. unfold with_prefix, prefix_bytes.
      rewrite (proj2 (Z.ltb_lt _ _)) by lia. by rewrite orb_true_r.
  - apply post_bind. cbn [post ret].
    pose proof (prefix_bytes_plain x (Z.of_nat (length body)) Ex ltac:(lia)) as Epb.
    eapply (flush_store_spec h1 p _ top pre (replicate (hole_len x) 0) body false);
      [by rewrite length_replicate|done|lia|by exists spare|lia| |].
    + rewrite length_replicate. intros Hlt h' ? Hc' ?. eapply Hfin; [done|done| |].
      * unfold with_prefix. rewrite Epb, (proj2 (Z.ltb_lt _ _)) by done. reflexivity.
      * unfold pre in Hc'. by rewrite <- !app_assoc in *.
    + rewrite length_replicate. intros Hge _. simpl. unfold with_prefix.
      by rewrite Epb, (proj2 (Z.ltb_ge _ _)) by done.
Qed.

(** *** INTEGERs *)

(** The octets the loop of [CBB_add_asn1_uint64] emits. *)
Fixpoint emitted (started : bool) (octets : list Z) : list Z :=
  match octets with
  | [] => []
  | x :: octets' =>
      if negb started && (x =? 0) then emitted started octets'
      else (if negb started && negb (Z.land x 0x80 =? 0) then [0] else []) ++ x :: emitted true octets'
  end.

Definition nonzero_octet (octets : list Z) : bool := existsb (λ x, negb (x =? 0)) octets.

Lemma add_u8_clean h p top c fuel v : is_byte v →
  clean h p top → holds h c → (0 < fuel)%nat → Z.of_nat (length c) + 1 < 2 ^ 64 →
  post (CBB_add_u8 alloc_ok junk fuel p v h)
    (λ _ h', clean h' p top ∧ holds h' (c ++ [v]) ∧ ancestors_kept p h h') (¬ unlimited).
Proof.
  intros Hv Hp Hc Hf Hfit. unfold CBB_add_u8.
  eapply post_mono; [eapply (add_u_spec h p top (Some c) 0 fuel v 1)| |].
  - by apply clean_flushes_to.
  - done.
  - lia.
  - intros ? [= <-]. lia.
  - intros _ h' (c' & [= <-] & ? & Hh & ?). rewrite be_store_1, u8_id in Hh by done. done.
  - intros Hn Hu. by specialize (Hn Hu).
Qed.

Lemma octets_loop_spec fuel p top octets : (0 < fuel)%nat → bytes octets → ∀ (started : bool) h c,
  clean h p top → holds h c → Z.of_nat (length c + length octets) + (if started then 0 else 1) < 2 ^ 64 →
  post (uint64_octets_loop alloc_ok junk fuel p started octets h)
    (λ st h', clean h' p top ∧ holds h' (c ++ emitted started octets) ∧ ancestors_kept p h h' ∧
              st = started || nonzero_octet octets)
    (¬ unlimited).
Proof.
  intros Hf Hb. induction Hb as [|x octets Hx Hb IH]; intros started h c Hp Hc Hfit.
  { cbn. rewrite app_nil_r, orb_false_r. auto using ancestors_kept_refl. }
  cbn [uint64_octets_loop emitted nonzero_octet existsb length] in *.
  fold (nonzero_octet octets).
  destruct (negb started && (x =? 0)) eqn:E.
  { apply andb_true_iff in E as [Es Ex]. rewrite Ex. cbn [negb orb]. apply IH; [done..|]. lia. }
  eapply (post_bind_mono _ _ h (λ _ h1, clean h1 p top ∧ ancestors_kept p h h1 ∧
    holds h1 (c ++ if negb started && negb (Z.land x 0x80 =? 0) then [0] else [])) (¬ unlimited)); [| |done].
  { destruct started, (Z.land x 0x80 =? 0); cbn [negb andb].
    1-3: cbn; rewrite app_nil_r; auto using ancestors_kept_refl.
    eapply post_mono; [apply (add_u8_clean h p top c); auto with vtls; lia| |done].
    intros _ h1 (? & ? & ?). done. }
  intros _ h1 (Hp1 & Ha1 & Hc1). set (pad := if negb started && negb (Z.land x 0x80 =? 0) then [0] else []) in *.
  assert (Z.of_nat (length pad) ≤ if started then 0 else 1)
    by (unfold pad; destruct started; cbn; [lia|case_match; simpl; lia]).
  eapply post_bind_mono; [apply (add_u8_clean h1 p top (c ++ pad)); [done..|len]| |done].
  intros _ h2 (Hp2 & Hc2 & Ha2).
  eapply post_mono; [apply (IH true h2 ((c ++ pad) ++ [x]) Hp2 Hc2); len| |done].
  intros st h3 (? & Hc3 & ? & ->). split; [done|]. rewrite <- !app_assoc in Hc3.
  split; [exact Hc3|]. split; [eauto using ancestors_kept_trans|].
  destruct started; [done|]. cbn [negb andb] in E. by rewrite E.
Qed.

(** The content octets: the emitted ones, or a single zero. *)
Definition uint_content (octets : list Z) : list Z :=
  emitted false octets ++ (if nonzero_octet octets then [] else [0]).

Lemma emitted_true octets : emitted true octets = octets.
Proof. induction octets as [|x octets IH]; [done|]. cbn. by rewrite IH. Qed.

Lemma uint_content_spec octets : bytes octets →
  bytes (uint_content octets) ∧ minimal_unsigned (uint_content octets) ∧
  be_load (uint_content octets) = be_load octets.
Proof.
  unfold uint_content. induction 1 as [|x octets Hx Hb IH]; cbn [emitted nonzero_octet existsb].
  { split; [repeat constructor; lia|]. split; [|done]. split; [done|]. split; [done|].
    intros (_ & H & _). cbn in H. lia. }
  rewrite emitted_true. cbn [negb andb]. destruct (Z.eqb_spec x 0) as [->|Hne]; cbn [negb orb].
  { fold (nonzero_octet octets). rewrite be_load_cons by done. rewrite Z.mul_0_l, Z.add_0_l. exact IH. }
  rewrite app_nil_r, byte_top_clear by done. unfold is_byte in Hx.
  destruct (Z.ltb_spec x 128) as [Hs|Hs]; cbn [negb app].
  - split; [by constructor|]. split; [|done]. split; [done|].
    change (getb (x :: octets) 0) with x. split; [lia|]. intros [? _]. lia.
  - split; [repeat (constructor; auto with vtls)|]. split.
    + split; [done|]. change (getb (0 :: x :: octets) 0) with 0.
      change (getb (0 :: x :: octets) 1) with x. split; [lia|]. lia.
    + rewrite be_load_cons by (auto with vtls || by constructor). lia.
Qed.

Lemma uint64_octets v :
  map (λ i, Z.land (v ≫ (8 * (7 - i))) 0xff) (seqZ 0 8) = be_store 8 v.
Proof.
  rewrite !be_store_S. change (be_store 0 _) with (@nil Z). rewrite !Z.shiftr_shiftr by lia.
  cbn [app]. change (seqZ 0 8) with [0; 1; 2; 3; 4; 5; 6; 7]. cbn [map].
  assert (∀ z, Z.land z 0xff = u8 z) as E by (intros z; apply (Z.land_ones z 8); lia).
  rewrite !E. cbn. by rewrite Z.shiftr_0_r.
Qed.

Lemma uint_content_der v : 0 ≤ v < 2 ^ 64 → uint_content (be_store 8 v) = der_uint v.
Proof.
  intros Hv. destruct (uint_content_spec (be_store 8 v)) as (Hb & Hm & Hl); [auto with vtls|].
  rewrite be_load_store, Z.mod_small in Hl by (simpl; lia).
  apply minimal_unsigned_der in Hm; [|done]. by rewrite Hm, Hl.
Qed.

Lemma add_asn1_uint64_spec h p top oc d fuel v :
  flushes_to h p top oc d → (d < fuel)%nat → (1 < fuel)%nat → 0 ≤ v < 2 ^ 64 → fits oc 18 →
  post (CBB_add_asn1_uint64 alloc_ok junk fuel p (Pos.succ p) v h)
    (λ _, appended h p top oc (der_tlv CBS_ASN1_INTEGER (der_uint v))) (unlimited → oc = None).
Proof.
  intros Hfl Hd Hf Hv Hfit. unfold CBB_add_asn1_uint64. rewrite uint64_octets.
  eapply post_bind_mono; [eapply add_asn1_spec; [exact Hfl|done|intros c E; specialize (Hfit c E); lia]| |].
  2: { intros Hn Hu. by destruct (Hn Hu). }
  intros _ h1 (c & -> & _ & Hp & Hch & Hc & Ha). specialize (Hfit c eq_refl).
  cbn [lead hole_len asn1_of] in *. change (u8 CBS_ASN1_INTEGER) with CBS_ASN1_INTEGER in *.
  eapply post_bind_mono; [eapply octets_loop_spec; [lia|auto with vtls|exact Hch|exact Hc|len]| |tauto].
  intros st h2 (Hch2 & Hc2 & Ha2 & ->). cbn [orb].
  eapply (post_bind_mono _ _ h2 (λ _ h3, clean h3 (Pos.succ p) false ∧ ancestors_kept (Pos.succ p) h2 h3 ∧
    holds h3 ((c ++ [CBS_ASN1_INTEGER]) ++ replicate 1 0 ++ der_uint v)) (¬ unlimited)); [| |tauto].
  { rewrite <- uint_content_der by done. unfold uint_content.
    assert (length (emitted false (be_store 8 v)) ≤ 9)%nat.
    { pose proof (length_der_uint v Hv) as Hl. rewrite <- uint_content_der in Hl by done.
      unfold uint_content in Hl. len. }
    destruct (nonzero_octet (be_store 8 v)); cbn [negb].
    - cbn. rewrite app_nil_r. rewrite <- !app_assoc in *. auto using ancestors_kept_refl.
    - eapply post_mono; [apply (add_u8_clean h2 _ false _ fuel 0 is_byte_0 Hch2 Hc2); len| |done].
      intros _ h3 (? & Hh & ?). rewrite <- !app_assoc in *. done. }
  intros _ h3 (Hch3 & Ha3 & Hc3).
  assert (ancestors_kept (Pos.succ p) h1 h3) as Ha13 by eauto using ancestors_kept_trans.
  pose proof (length_der_uint v Hv) as Hlen.
  eapply post_mono; [eapply (pending_flushes_to h3 p top (PAsn1 CBS_ASN1_INTEGER) c (Some (der_uint v)) 0)| |].
  - done.
  - cbn [lead hole_len asn1_of]. change (u8 CBS_ASN1_INTEGER) with CBS_ASN1_INTEGER. rewrite Ha13 by lia. exact Hp.
  - by apply clean_flushes_to.
  - intros ? [= <-]. lia.
  - lia.
  - intros _ h4 (c' & E & ? & Hc4 & ?). exists c. simpl in E. unfold with_prefix, prefix_bytes in E.
    rewrite (proj2 (Z.ltb_ge _ _)) in E by lia. cbn in E. injection E as <-.
    repeat split; [done|exact Hc4|]. eapply ancestors_kept_trans; [exact Ha|].
    eapply ancestors_kept_trans; [|done]. eapply ancestors_kept_le; [|exact Ha13]. lia.
  - intros Hn Hu. specialize (Hn Hu). simpl in Hn. unfold with_prefix, prefix_bytes in Hn.
    rewrite (proj2 (Z.ltb_ge _ _)) in Hn by lia. done.
Qed.

(** *** Building a tree *)

Lemma flushes_to_mono h p top oc d d' :
  flushes_to h p top oc d → (d ≤ d')%nat → flushes_to h p top oc d'.
Proof. intros H Hd fuel Hf. apply H. lia. Qed.

Lemma prog_size_nonneg t : 0 ≤ prog_size t.
Proof. induction t; simpl; lia. Qed.

Lemma length_with_prefix x body e : with_prefix x body = Some e → (length e ≤ 6 + length body)%nat.
Proof.
  unfold with_prefix. destruct (prefix_bytes x _) as [pre|] eqn:E; [|done]. intros [= <-].
  enough (length pre ≤ 6)%nat by len.
  destruct x as [| | |tag]; cbn in E; case_match; simplify_eq; [len..|].
  pose proof (length_der_length (Z.of_nat (length body))) as Hl.
  pose proof (len_bytes_range (Z.of_nat (length body))). cbn [length]. case_match; lia.
Qed.

Lemma length_encode t e : prog_wf t → encode t = Some e → Z.of_nat (length e) ≤ prog_size t.
Proof.
  revert e. induction t as [|w v t IH|data t IH|v t IH|x body IHb t IH];
    cbn [prog_wf encode prog_size]; intros e Hwf.
  - intros [= <-]. simpl. lia.
  - intros (e' & E & ->)%fmap_Some_1. specialize (IH e' Hwf E).
    assert (width_len w ≤ 3)%nat by (destruct w; simpl; lia). len.
  - intros (e' & E & ->)%fmap_Some_1. specialize (IH e' (proj2 Hwf) E). len.
  - intros (e' & E & ->)%fmap_Some_1. destruct Hwf as [Hv Hwf]. specialize (IH e' Hwf E).
    pose proof (length_der_uint v Hv). rewrite length_app, Nat2Z.inj_add, length_der_tlv.
    unfold header_len. rewrite length_der_length, (proj2 (Z.ltb_lt _ _)) by lia. lia.
  - destruct Hwf as [Hwb Hwf]. intros (pe & (eb & Eb & Ep)%bind_Some & (e' & E & ->)%fmap_Some_1)%bind_Some.
    specialize (IHb eb Hwb Eb). specialize (IH e' Hwf E). apply length_with_prefix in Ep. len.
Qed.

(** The contents after building [t] on top of [oc]. *)
Definition extend (oc : option (list Z)) (oe : option (list Z)) : option (list Z) :=
  c ← oc; (λ e, c ++ e) <$> oe.

Lemma extend_assoc oc a oe : extend ((λ c, c ++ a) <$> oc) oe = extend oc ((λ e, a ++ e) <$> oe).
Proof. destruct oc, oe; simpl; try done. by rewrite app_assoc. Qed.

Definition has_top (h : heap) (p : positive) (top : bool) : Prop :=
  ∃ c, cbbs h !! p = Some c ∧ is_top_level c = top.

Definition built (h : heap) (p : positive) (top : bool) (oc : option (list Z)) (d : nat) (h' : heap) : Prop :=
  flushes_to h' p top oc d ∧ has_top h' p top ∧ ancestors_kept p h h'.

Lemma appended_built h p top oc e h' : appended h p top oc e h' → built h p top ((λ c, c ++ e) <$> oc) 0 h'.
Proof.
  intros H. split; [by eapply appended_flushes_to|]. destruct H as (c & -> & Hp & _ & ?).
  split; [|done]. by eexists.
Qed.

Lemma fits_extend oc oc' e n m : oc' = ((λ c, c ++ e) <$> oc) →
  fits oc n → Z.of_nat (length e) + m ≤ n → fits oc' m.
Proof. intros -> H Hm c. destruct oc as [c0|]; [|done]. intros [= <-]. specialize (H c0 eq_refl). len. Qed.

Lemma fits_le oc n m : fits oc n → m ≤ n → fits oc m.
Proof. intros H Hm c E. specialize (H c E). lia. Qed.

Lemma open_prefix_spec h p top oc d fuel x :
  flushes_to h p top oc d → (d < fuel)%nat → fits oc 6 →
  post (open_prefix alloc_ok junk fuel p (Pos.succ p) x h)
    (λ _, opened h p top oc x) (unlimited → oc = None ∨ prefix_ok x = false).
Proof.
  intros Hfl Hd Hfit. destruct x as [| | |tag]; [..|by apply (add_asn1_spec h p top oc d)].
  - eapply post_mono; [by apply (add_length_prefixed_spec h p top oc d fuel P8)|done|auto].
  - eapply post_mono; [by apply (add_length_prefixed_spec h p top oc d fuel P16)|done|auto].
  - eapply post_mono; [by apply (add_length_prefixed_spec h p top oc d fuel P24)|done|auto].
Qed.

Lemma with_prefix_bad x body : prefix_ok x = false → with_prefix x body = None.
Proof.
  destruct x; try done. unfold with_prefix, prefix_bytes. cbn. intros E%negb_false_iff. by rewrite E.
Qed.

Lemma client_add_u_spec h p top oc d fuel w v :
  flushes_to h p top oc d → (d < fuel)%nat → fits oc 3 →
  post (add_u alloc_ok junk fuel p w v h)
    (λ _, appended h p top oc (be_store (width_len w) v)) (unlimited → oc = None).
Proof.
  intros Hfl Hd Hfit.
  destruct w; cbn [add_u width_len]; unfold CBB_add_u8, CBB_add_u16, CBB_add_u24, u8, u16, u32.
  - rewrite <- (be_store_mod 1 v 8) by lia. apply (add_u_spec h p top oc d fuel _ 1); auto; eapply fits_le; eauto; lia.
  - rewrite <- (be_store_mod 2 v 16) by lia. apply (add_u_spec h p top oc d fuel _ 2); auto; eapply fits_le; eauto; lia.
  - rewrite <- (be_store_mod 3 v 32) by lia. apply (add_u_spec h p top oc d fuel _ 3); auto; eapply fits_le; eauto; lia.
Qed.

Lemma nested_built h p top oc x body h1 h2 :
  opened h p top oc x h1 → prog_wf body → fits oc (6 + prog_size body + 8) →
  built h1 (Pos.succ p) false (extend ((λ c, (c ++ lead x) ++ replicate (hole_len x) 0) <$> oc) (encode body))
    (prog_depth body) h2 →
  built h p top (extend oc (encode body ≫= with_prefix x)) (S (prog_depth body)) h2.
Proof.
  intros (c & -> & Hok & Hp & Hch & Hc & Ha) Hwf Hfit (Hfl & _ & Ha2). specialize (Hfit c eq_refl).
  assert (cbbs h2 !! p = cbbs h1 !! p) as Hp2 by (apply Ha2; lia). rewrite Hp in Hp2.
  split; [|split].
  - apply (pending_flushes_to h2 p top x c (encode body)); [done|done| |].
    + revert Hfl. unfold extend. destruct (encode body); simpl; [|done]. by rewrite <- !app_assoc.
    + intros e E. apply length_encode in E; [|done]. lia.
  - by eexists.
  - eapply ancestors_kept_trans; [exact Ha|]. eapply ancestors_kept_le; [|exact Ha2]. lia.
Qed.

Lemma extend_None oc : extend oc None = None.
Proof. by destruct oc. Qed.

Lemma extend_nested oc oa oe : extend (extend oc oa) oe = extend oc (a ← oa; (λ e, a ++ e) <$> oe).
Proof. destruct oc, oa, oe; simpl; try done. by rewrite app_assoc. Qed.

Definition build_ok (t : prog) : Prop := ∀ h p top oc d fuel,
  flushes_to h p top oc d → has_top h p top →
  (d < fuel)%nat → (prog_depth t < fuel)%nat → fits oc (prog_size t + 8) →
  post (build alloc_ok junk fuel p t h)
    (λ _, built h p top (extend oc (encode t)) (Nat.max d (prog_depth t)))
    (unlimited → extend oc (encode t) = None).

(** One step of a client, followed by the rest of its calls. *)
Lemma build_after (m : M unit) t h p top oc oa d fuel :
  build_ok t →
  post (m h) (λ _, built h p top (extend oc oa) d) (unlimited → extend oc oa = None) →
  (d < fuel)%nat → (prog_depth t < fuel)%nat → fits (extend oc oa) (prog_size t + 8) →
  post ((m ;;; build alloc_ok junk fuel p t) h)
    (λ _, built h p top (extend oc (a ← oa; (λ e, a ++ e) <$> encode t)) (Nat.max d (prog_depth t)))
    (unlimited → extend oc (a ← oa; (λ e, a ++ e) <$> encode t) = None).
Proof.
  intros IH Hm Hd Hdep Hfit. rewrite <- extend_nested.
  eapply post_bind_mono; [exact Hm| |].
  - intros _ h1 (Hfl & Htop & Ha). eapply post_mono; [by eapply IH| |done].
    intros _ h2 (? & ? & ?). split; [done|]. split; [done|]. by eapply ancestors_kept_trans.
  - intros Hn Hu. by rewrite (Hn Hu).
Qed.

(** The same for a step that appends. *)
Lemma build_after_append (m : M unit) t h p top oc A d fuel :
  build_ok t →
  post (m h) (λ _, appended h p top oc A) (unlimited → oc = None) →
  (d < fuel)%nat → (prog_depth t < fuel)%nat → fits oc (Z.of_nat (length A) + prog_size t + 8) →
  post ((m ;;; build alloc_ok junk fuel p t) h)
    (λ _, built h p top (extend oc ((λ e, A ++ e) <$> encode t)) (Nat.max d (prog_depth t)))
    (unlimited → extend oc ((λ e, A ++ e) <$> encode t) = None).
Proof.
  intros IH Hm Hd Hdep Hfit.
  apply (build_after m t h p top oc (Some A) d fuel IH); [|done|done|].
  - eapply post_mono; [exact Hm| |].
    + intros _ h1 (Hfl & ? & ?)%appended_built. split; [|done].
      eapply flushes_to_mono; [|apply Nat.le_0_l]. by destruct oc.
    + intros Hn Hu. by rewrite (Hn Hu).
  - eapply (fits_extend oc _ A); [by destruct oc|exact Hfit|lia].
Qed.

Lemma build_spec t : prog_wf t → build_ok t.
Proof.
  induction t as [|w v t IH|data t IH|v t IH|x body IHb t IH];
    cbn [prog_wf]; intros Hwf h p top oc d fuel Hfl Htop Hd Hdep Hfit;
    cbn [build encode prog_depth prog_size] in *; try pose proof (prog_size_nonneg t).
  - split; [|split; [done|apply ancestors_kept_refl]].
    unfold extend. rewrite Nat.max_0_r. destruct oc; simpl; [|done]. by rewrite app_nil_r.
  - apply build_after_append; [by apply IH| |done|done|].
    + eapply client_add_u_spec; [exact Hfl|done|eapply fits_le; [done|lia]].
    + assert (width_len w ≤ 3)%nat by (destruct w; simpl; lia). eapply fits_le; [exact Hfit|len].
  - destruct Hwf as [_ Hwf]. apply build_after_append; [by apply IH| |done|done|by rewrite (Z.add_comm (Z.of_nat _)) in *].
    eapply add_bytes_spec; [exact Hfl|done|eapply fits_le; [done|lia]].
  - destruct Hwf as [Hv Hwf]. pose proof (length_der_uint v Hv).
    rewrite Nat.max_assoc.
    eapply (build_after_append _ t h p top oc (der_tlv CBS_ASN1_INTEGER (der_uint v)) (Nat.max d 1)); [by apply IH| |lia|lia|].
    + eapply add_asn1_uint64_spec; [exact Hfl|done|lia|done|eapply fits_le; [done|lia]].
    + eapply fits_le; [exact Hfit|]. rewrite length_der_tlv. unfold header_len.
      rewrite length_der_length, (proj2 (Z.ltb_lt _ _)) by lia. lia.
  - destruct Hwf as [Hwb Hwf]. pose proof (prog_size_nonneg body). rewrite Nat.max_assoc.
    assert (fits (extend oc (encode body ≫= with_prefix x)) (prog_size t + 8)) as Hfit'.
    { intros c' (c & Ec & (e & (eb & Eb & Ee)%bind_Some & ->)%fmap_Some_1)%bind_Some.
      apply length_encode in Eb; [|done]. apply length_with_prefix in Ee. specialize (Hfit c Ec). len. }
    rewrite bind_assoc. apply build_after; [by apply IH| |lia|lia|exact Hfit'].
    eapply post_bind_mono; [eapply open_prefix_spec; [exact Hfl|done|eapply fits_le; [done|lia]]| |].
    + intros u h1 Hop. cbv beta in Hop. assert (∃ c, oc = Some c) as [c E] by (destruct Hop as (c & ? & _); by exists c).
      subst oc. specialize (Hfit c eq_refl). pose proof Hop as (c' & [= <-] & Hok & Hp & Hch & Hc & _).
      assert (length (lead x) + hole_len x ≤ 3)%nat by (destruct x; simpl; lia).
      eapply post_mono; [eapply (IHb Hwb h1 (Pos.succ p) false (Some ((c ++ lead x) ++ replicate (hole_len x) 0)) 0%nat)| |].
      * apply clean_flushes_to; [done|]. by rewrite <- app_assoc.
      * by eexists.
      * lia.
      * lia.
      * intros ? [= <-]. len.
      * intros u2 h2 Hb. cbv beta in Hb. 
        destruct (nested_built h p top (Some c) x body h1 h2 Hop Hwb) as (Hfl2 & ? & ?);
          [intros ? [= <-]; lia|exact Hb|].
        split; [|done]. eapply flushes_to_mono; [exact Hfl2|lia].
      * intros Hn Hu. specialize (Hn Hu). destruct (encode body); [done|]. apply extend_None.
    + intros Hn Hu. destruct (Hn Hu) as [->|Hok]; [done|].
      destruct (encode body) as [e|]; [|apply extend_None].
      simpl. rewrite with_prefix_bad by done. apply extend_None.
Qed.

Lemma finish_spec h p oc d fuel :
  flushes_to h p true oc d → has_top h p true → (d < fuel)%nat →
  post (CBB_finish alloc_ok junk fuel p true h)
    (λ x _, oc = Some (take (Z.to_nat (snd x)) (fst x))) (unlimited → oc = None).
Proof.
  intros Hfl (c0 & Hp0 & Ht) Hd. unfold CBB_finish. eapply post_get_cbb; [exact Hp0|].
  rewrite Ht. cbn [negb]. eapply post_bind_mono; [by apply Hfl| |done].
  intros _ h1 (c & -> & Hp & [spare Hb] & _). eapply post_get_cbb; [exact Hp|]. cbn [base].
  eapply post_get_buf; [exact Hb|]. rewrite andb_false_r. apply post_bind.
  cbn [post put_buf buf_len can_resize buf]. apply post_bind. unfold CBB_cleanup.
  eapply post_get_cbb; [exact Hp|]. cbn. by rewrite Nat2Z.id, take_app_length.
Qed.

End spec.

(** *** Starting from an initialised [CBB] *)

Lemma build_finish_spec alloc_ok junk r data t fuel :
  prog_wf t → prog_size t + 8 < 2 ^ 64 → (prog_depth t < fuel)%nat →
  let h := Heap {[1%positive := mkCBB (Some 1%positive) 0 None 0 false true]}
                {[1%positive := Buffer data 0 r]} in
  post ((build alloc_ok junk fuel 1 t ;;;
         x <- CBB_finish alloc_ok junk fuel 1 true ;;
         ret (take (Z.to_nat (snd x)) (fst x))) h)
    (λ out _, encode t = Some out) (unlimited alloc_ok r → encode t = None).
Proof.
  intros Hwf Hsz Hd h.
  assert (clean 1 h 1 true) as Hcl by apply lookup_singleton_eq.
  assert (holds 1 r h []) as Hh by (exists data; apply lookup_singleton_eq).
  assert (∀ oe, extend (Some []) oe = oe) as Hex by (by intros []).
  eapply post_bind_mono; [eapply (build_spec alloc_ok junk 1 r t Hwf h 1%positive true (Some []) 0%nat)| |].
  - by apply clean_flushes_to.
  - by eexists.
  - lia.
  - done.
  - intros ? [= <-]. simpl. lia.
  - rewrite Hex. intros _ h1 (Hfl & Htop & _).
    eapply post_bind_mono; [eapply finish_spec; [exact Hfl|done|lia]| |done]. intros x h2 Hx. exact Hx.
  - by rewrite Hex.
Qed.

Lemma build_all_spec alloc_ok junk cap0 t fuel :
  prog_wf t → prog_size t + 8 < 2 ^ 64 → (prog_depth t < fuel)%nat →
  post (build_all alloc_ok junk fuel cap0 t) (λ out _, encode t = Some out)
    ((∀ n, alloc_ok n = true) → encode t = None).
Proof.
  intros Hwf Hsz Hd. unfold build_all.
  set (k := (build alloc_ok junk fuel 1 t ;;; _)).
  assert (∀ data, post (k (Heap (<[1%positive := mkCBB (Some 1%positive) 0 None 0 false true]> ∅)
      (<[1%positive := Buffer data 0 true]> ∅))) (λ out _, encode t = Some out)
      ((∀ n, alloc_ok n = true) → encode t = None)) as Hk.
  { intros data. eapply post_mono; [by apply (build_finish_spec alloc_ok junk true data t fuel)|done|].
    intros Hn Hall. by apply Hn. }
  unfold CBB_init, realloc, bind at 1. destruct (alloc_ok cap0) eqn:Ea; [apply Hk|].
  destruct (0 <? cap0); [|apply Hk]. intros Hall. by rewrite Hall in Ea.
Qed.

(** ** Correctness of builders *)

(** C21: building a tree of nested elements and finishing it never faults,
    returns exactly the encoding of the tree when it succeeds, and when every
    allocation succeeds it fails only for trees that have no encoding (a body too
    long for its prefix, a tag in long form). *)
Theorem CBB_build_correct alloc_ok junk fuel cap0 t :
  prog_wf t → prog_size t + 8 < 2 ^ 64 → (prog_depth t < fuel)%nat →
  match build_all alloc_ok junk fuel cap0 t with
  | Ok out _ => encode t = Some out
  | Err _ => (∀ n, alloc_ok n = true) → encode t = None
  | Fault => False
  end.
Proof. exact (build_all_spec alloc_ok junk cap0 t fuel). Qed.

Lemma CBB_build_correct_witness :
  ∃ h, build_all (λ _, true) 0 2 0 (Nested P8 (PutU W16 0x102 Stop) (PutBytes [9] Stop)) = Ok [2; 1; 2; 9] h.
Proof.
  pose proof (CBB_build_correct (λ _, true) 0 2 0 (Nested P8 (PutU W16 0x102 Stop) (PutBytes [9] Stop))) as H.
  destruct (build_all _ _ _ _ _) as [out h|h|].
  - exists h. assert (Some [2; 1; 2; 9] = Some out) as [= <-]; [|done].
    rewrite <- H; [vm_compute; reflexivity| |vm_compute; done|cbn; lia].
    cbn. repeat split; try done. repeat constructor; done.
  - discriminate H; [|vm_compute; done|cbn; lia|done]. cbn. repeat split; try done. repeat constructor; done.
  - exfalso. apply H; [|vm_compute; done|cbn; lia]. cbn. repeat split; try done. repeat constructor; done.
Defined.

(** building into a caller's buffer of fixed size never writes outside it
    (no fault), and the bytes it returns are the encoding of the tree. *)
Theorem CBB_build_fixed_safe alloc_ok junk fuel data t :
  prog_wf t → prog_size t + 8 < 2 ^ 64 → (prog_depth t < fuel)%nat →
  match build_fixed alloc_ok junk fuel data t with
  | Ok out _ => encode t = Some out
  | Err _ => True
  | Fault => False
  end.
Proof.
  intros Hwf Hsz Hd.
  eapply (post_mono (build_fixed alloc_ok junk fuel data t) _ (λ out _, encode t = Some out) _ True);
    [by apply (build_finish_spec alloc_ok junk false data t fuel)|done|done].
Qed.

Lemma CBB_build_fixed_safe_witness :
  match build_fixed (λ _, false) 0 2 [7; 7; 7] (PutU W24 0x10203 Stop) with
  | Ok out _ => encode (PutU W24 0x10203 Stop) = Some out
  | Err _ => True
  | Fault => False
  end.
Proof. apply CBB_build_fixed_safe; [done|vm_compute; done|cbn; lia]. Defined.

(** ** Round trips with the parsers *)

Lemma bytes_der_tlv tag body : is_byte tag → bytes body → Z.of_nat (length body) < 2 ^ 32 →
  bytes (der_tlv tag body).
Proof.
  intros Ht Hb Hl. unfold der_tlv. constructor; [done|]. apply bytes_app; [|done]. unfold der_length.
  pose proof (len_bytes_range (Z.of_nat (length body))). case_cmp.
  - repeat constructor; unfold is_byte; lia.
  - constructor; [unfold is_byte; lia|auto with vtls].
Qed.

Lemma bytes_with_prefix x body e : with_prefix x body = Some e → bytes body → bytes e.
Proof.
  unfold with_prefix. intros (pre & E & ->)%fmap_Some_1 Hb. apply bytes_app; [|done].
  destruct x as [| | |tag]; cbn in E; [case_match; simplify_eq; auto with vtls..|].
  destruct (_ || _) eqn:Ec; simplify_eq. apply orb_false_iff in Ec as [_ Hl]. apply Z.ltb_ge in Hl.
  pose proof (bytes_der_tlv (u8 tag) body ltac:(auto with vtls) Hb ltac:(lia)) as H.
  unfold der_tlv in H. rewrite app_comm_cons in H.
  by apply Forall_app in H as [H _].
Qed.

Lemma bytes_encode t e : prog_wf t → encode t = Some e → bytes e.
Proof.
  revert e. induction t as [|w v t IH|data t IH|v t IH|x body IHb t IH];
    cbn [prog_wf encode]; intros e Hwf.
  - intros [= <-]. constructor.
  - intros (e' & E & ->)%fmap_Some_1. apply bytes_app; [auto with vtls|by apply IH].
  - intros (e' & E & ->)%fmap_Some_1. destruct Hwf. apply bytes_app; [done|by apply IH].
  - intros (e' & E & ->)%fmap_Some_1. destruct Hwf as [Hv Hwf]. apply bytes_app; [|by apply IH].
    pose proof (length_der_uint v Hv). apply bytes_der_tlv; [unfold is_byte, CBS_ASN1_INTEGER; lia|apply bytes_der_uint|lia].
  - destruct Hwf as [Hwb Hwf]. intros (pe & (eb & Eb & Ep)%bind_Some & (e' & E & ->)%fmap_Some_1)%bind_Some.
    apply bytes_app; [|by apply IH]. eapply bytes_with_prefix; [exact Ep|by apply IHb].
Qed.

(** what a client builds as one ASN.1 element, the DER parser takes apart
    again: the element's content is the encoding of the nested calls and nothing
    is left over. *)
Theorem CBB_asn1_roundtrip alloc_ok junk fuel cap0 tag body out h :
  prog_wf body → is_byte tag → prog_size body + 14 < 2 ^ 64 → (S (prog_depth body) < fuel)%nat →
  build_all alloc_ok junk fuel cap0 (Nested (PAsn1 tag) body Stop) = Ok out h →
  ∃ content, encode body = Some content ∧ CBS_get_asn1 tag out = (Some content, []).
Proof.
  intros Hwf Ht Hsz Hd E.
  set (t := Nested (PAsn1 tag) body Stop) in *.
  pose proof (build_all_spec alloc_ok junk cap0 t fuel (conj Hwf I) ltac:(cbn; lia) ltac:(cbn; lia)) as H.
  rewrite E in H. cbn [post] in H.
  assert (bytes out) as Hb by (apply (bytes_encode t); [done|exact H]).
  cbn in H. apply bind_Some in H as (pe & (content & Ec & Ep)%bind_Some & [= <-]).
  exists content. split; [done|]. rewrite app_nil_r in *.
  unfold with_prefix in Ep. apply fmap_Some_1 in Ep as (pre & Epre & ->). cbn in Epre.
  destruct (_ || _) eqn:Eo; [done|]. injection Epre as <-. apply orb_false_iff in Eo as [Htag Hl].
  apply Z.ltb_ge in Hl. rewrite u8_id in * by done.
  apply get_asn1_iff; [done|done|by apply Z.eqb_neq|]. unfold der_tlv. rewrite app_nil_r.
  split; [done|lia].
Qed.

Lemma CBB_asn1_roundtrip_witness :
  ∃ content, encode (PutUint64 300 Stop) = Some content ∧
    CBS_get_asn1 0x30 [0x30; 4; 2; 2; 1; 44] = (Some content, []).
Proof.
  eapply (CBB_asn1_roundtrip (λ _, true) 0 3 0 0x30 (PutUint64 300 Stop) [0x30; 4; 2; 2; 1; 44]).
  - cbn. lia.
  - unfold is_byte. lia.
  - vm_compute. done.
  - cbn. lia.
  - vm_compute. reflexivity.
Defined.

(** every 64-bit integer written by [CBB_add_asn1_uint64] is built
    successfully and read back by [CBS_get_asn1_uint64], with nothing left
    over. *)
Theorem CBB_uint64_roundtrip junk fuel v :
  0 ≤ v < 2 ^ 64 → (1 < fuel)%nat →
  ∃ out h, build_all (λ _, true) junk fuel 0 (PutUint64 v Stop) = Ok out h ∧
           CBS_get_asn1_uint64 out = (Some v, []).
Proof.
  intros Hv Hf.
  pose proof (build_all_spec (λ _, true) junk 0 (PutUint64 v Stop) fuel (conj Hv I) ltac:(cbn; lia) ltac:(cbn; lia)) as H.
  assert (bytes (der_tlv CBS_ASN1_INTEGER (der_uint v))) as Hb.
  { pose proof (length_der_uint v Hv).
    apply bytes_der_tlv; [unfold is_byte, CBS_ASN1_INTEGER; lia|apply bytes_der_uint|lia]. }
  destruct (build_all _ _ _ _ _) as [out h|h|]; cbn [post] in H.
  - exists out, h. split; [done|]. cbn [encode] in H. rewrite <- (app_nil_r (der_tlv _ _)) in Hb.
    apply fmap_Some_1 in H as (e & [= <-] & ->). apply get_uint64_iff; [done|]. done.
  - exfalso. by specialize (H (λ _, eq_refl)).
  - done.
Qed.

Lemma CBB_uint64_roundtrip_witness :
  ∃ out h, build_all (λ _, true) 0 2 0 (PutUint64 (2 ^ 64 - 1) Stop) = Ok out h ∧
           CBS_get_asn1_uint64 out = (Some (2 ^ 64 - 1), []).
Proof. apply CBB_uint64_roundtrip; lia. Defined.
