(* ===== verification/Reneg.v ===== *)
(** * The renegotiation binding

    Models [ssl/t1_reneg.c]: the extension that binds a renegotiation to the
    handshake before it.  Client and server add the contents of the last Finished
    messages and check what the peer sent against their own copy.  The parsers call
    the byte-string functions of [Cbs].

    The theorems say that a parser accepts exactly one string, the binding of the
    connection, and that both ends accept each other's extension exactly when they hold
    the same two Finished values. *)

From S2P Require Import Prelude ConstTime Cbs.

(** The fields of [s->s3]: the arrays have [EVP_MAX_MD_SIZE] bytes, of which the length gives the
    number in use. *)
Record reneg := mkReneg {
  client_finished : list Z;       (* previous_client_finished *)
  client_finished_len : Z;
  server_finished : list Z;       (* previous_server_finished *)
  server_finished_len : Z;
  send_connection_binding : bool
}.

Definition SSL_AD_HANDSHAKE_FAILURE : Z := 40.
Definition SSL_AD_ILLEGAL_PARAMETER : Z := 47.

(** Adding: [None] for the return value 0, otherwise the buffer and [*len]; [p] is [None] for [NULL],
    the call that asks for the length. *)
Definition ssl_add_clienthello_renegotiate_ext (s : reneg) (p : option (list Z)) (maxlen : Z)
    : option (option (list Z) * Z) :=
  match p with
  | None => Some (None, client_finished_len s + 1)
  | Some p =>
      if maxlen <? client_finished_len s + 1 then None
      else
        let p := setb p 0 (u8 (client_finished_len s)) in
        let p := splice p 1 (take (Z.to_nat (client_finished_len s)) (client_finished s)) in
        Some (Some p, client_finished_len s + 1)
  end.

Definition ssl_add_serverhello_renegotiate_ext (s : reneg) (p : option (list Z)) (maxlen : Z)
    : option (option (list Z) * Z) :=
  match p with
  | None => Some (None, client_finished_len s + server_finished_len s + 1)
  | Some p =>
      if maxlen <? client_finished_len s + server_finished_len s + 1 then None
      else
        let p := setb p 0 (u8 (client_finished_len s + server_finished_len s)) in
        let p := splice p 1 (take (Z.to_nat (client_finished_len s)) (client_finished s)) in
        let p := splice p (Z.to_nat (1 + client_finished_len s))
                   (take (Z.to_nat (server_finished_len s)) (server_finished s)) in
        Some (Some p, client_finished_len s + server_finished_len s + 1)
  end.

Definition with_binding (s : reneg) : reneg :=
  mkReneg (client_finished s) (client_finished_len s) (server_finished s) (server_finished_len s) true.

(** Parsing: the alert of a failure, or the new state. *)
Definition ssl_parse_clienthello_renegotiate_ext (s : reneg) (d : list Z) (len : Z) : Z + reneg :=
  if len <? 0 then inl SSL_AD_ILLEGAL_PARAMETER
  else
    match CBS_get_u8_length_prefixed (CBS_init d len) with
    | (None, _) => inl SSL_AD_ILLEGAL_PARAMETER
    | (Some reneg, cbs) =>
        if negb (CBS_len cbs =? 0) then inl SSL_AD_ILLEGAL_PARAMETER
        else if negb (CBS_len reneg =? client_finished_len s) then inl SSL_AD_HANDSHAKE_FAILURE
        else if negb (CBS_mem_equal reneg (client_finished s) (client_finished_len s)) then
          inl SSL_AD_HANDSHAKE_FAILURE
        else inr (with_binding s)
    end.

(** [None] when one of the assertions fails. *)
Definition ssl_parse_serverhello_renegotiate_ext (s : reneg) (d : list Z) (len : Z) : option (Z + reneg) :=
  let expected_len := client_finished_len s + server_finished_len s in
  if negb (expected_len =? 0) && (client_finished_len s =? 0) then None
  else if negb (expected_len =? 0) && (server_finished_len s =? 0) then None
  else Some (
    if len <? 0 then inl SSL_AD_ILLEGAL_PARAMETER
    else
      match CBS_get_u8_length_prefixed (CBS_init d len) with
      | (None, _) => inl SSL_AD_ILLEGAL_PARAMETER
      | (Some reneg, cbs) =>
          if negb (CBS_len cbs =? 0) then inl SSL_AD_ILLEGAL_PARAMETER
          else if negb (CBS_len reneg =? expected_len) then inl SSL_AD_HANDSHAKE_FAILURE
          else
            match CBS_get_bytes (client_finished_len s) reneg with
            | (None, _) => inl SSL_AD_HANDSHAKE_FAILURE
            | (Some previous_client, reneg) =>
                match CBS_get_bytes (server_finished_len s) reneg with
                | (None, _) => inl SSL_AD_HANDSHAKE_FAILURE
                | (Some previous_server, reneg) =>
                    if negb (CBS_len reneg =? 0) then inl SSL_AD_HANDSHAKE_FAILURE
                    else if negb (CBS_mem_equal previous_client (client_finished s) (CBS_len previous_client)) then
                      inl SSL_AD_HANDSHAKE_FAILURE
                    else if negb (CBS_mem_equal previous_server (server_finished s) (CBS_len previous_server)) then
                      inl SSL_AD_ILLEGAL_PARAMETER
                    else inr (with_binding s)
                end
            end
      end).

(** ** The binding *)

(** The Finished values of the last handshake. *)
Definition client_value (s : reneg) : list Z := take (Z.to_nat (client_finished_len s)) (client_finished s).
Definition server_value (s : reneg) : list Z := take (Z.to_nat (server_finished_len s)) (server_finished s).

(** Both values are there or none is, and they fit their arrays; Finished values have at most 64 bytes. *)
Record reneg_wf (s : reneg) : Prop := {
  rw_client : 0 ≤ client_finished_len s ≤ 64 ∧ client_finished_len s ≤ Z.of_nat (length (client_finished s));
  rw_server : 0 ≤ server_finished_len s ≤ 64 ∧ server_finished_len s ≤ Z.of_nat (length (server_finished s));
  rw_bytes : bytes (client_finished s) ∧ bytes (server_finished s);
  rw_both : client_finished_len s = 0 ↔ server_finished_len s = 0
}.

(** The extension of the client and of the server: a length byte and the values. *)
Definition client_binding (s : reneg) : list Z := client_finished_len s :: client_value s.
Definition server_binding (s : reneg) : list Z :=
  (client_finished_len s + server_finished_len s) :: client_value s ++ server_value s.

Lemma length_client_value s : reneg_wf s → Z.of_nat (length (client_value s)) = client_finished_len s.
Proof. intros [? _ _ _]. unfold client_value. len. Qed.
Lemma length_server_value s : reneg_wf s → Z.of_nat (length (server_value s)) = server_finished_len s.
Proof. intros [_ ? _ _]. unfold server_value. len. Qed.

Lemma mem_equal_iff cbs data len : 0 ≤ len ≤ Z.of_nat (length data) →
  CBS_mem_equal cbs data len = bool_decide (cbs = take (Z.to_nat len) data).
Proof.
  intros Hl. unfold CBS_mem_equal, CBS_len, CRYPTO_memcmp.
  destruct (Z.eqb_spec len (Z.of_nat (length cbs))) as [->|E]; cbn [negb].
  - pose proof (memcmp_loop_zero 0 cbs data (length cbs) ltac:(lia) ltac:(lia)) as M.
    rewrite Nat2Z.id, take_ge in * by lia. destruct (Z.eqb_spec (memcmp_loop 0 cbs data (length cbs)) 0) as [Em|Em].
    + symmetry. apply bool_decide_true. by apply M.
    + symmetry. apply bool_decide_false. intros Hc. apply Em. by apply M.
  - symmetry. apply bool_decide_false. intros ->. apply E. len.
Qed.

Lemma CBS_get_bytes_all d : CBS_get_bytes (Z.of_nat (length d)) d = (Some d, []).
Proof. rewrite <- (app_nil_r d) at 2. apply CBS_get_bytes_app. Qed.

(** A string that is its length byte and that many bytes. *)
Definition well_prefixed (d : list Z) : bool :=
  match d with [] => false | n :: r => n =? Z.of_nat (length r) end.

Lemma be_store_byte n : 0 ≤ n < 256 → be_store 1 n = [n].
Proof.
  intros. rewrite be_store_S. change (be_store 0 (n ≫ 8)) with ([] : list Z). cbn [app]. by rewrite u8_id.
Qed.

Lemma get_u8_prefixed d : bytes d →
  match CBS_get_u8_length_prefixed d with
  | (Some r, []) => well_prefixed d = true ∧ r = tail d
  | _ => well_prefixed d = false
  end.
Proof.
  intros Hb. pose proof (λ body rest, length_prefixed_iff 1 d body rest Hb ltac:(lia)) as H.
  fold CBS_get_u8_length_prefixed in H. unfold CBS_get_u8_length_prefixed in *.
  change (Z.of_nat 1) with 1 in H.
  assert (well_prefixed d = true → cbs_get_length_prefixed 1 d = (Some (tail d), [])) as Hw.
  { destruct d as [|n r]; [done|]. cbn [well_prefixed tail]. intros E%Z.eqb_eq. apply H.
    apply bytes_cons_inv in Hb as [Hn _]. unfold is_byte in Hn.
    rewrite be_store_byte, app_nil_r by lia. cbn [app]. split; [by rewrite E|lia]. }
  destruct (cbs_get_length_prefixed 1 d) as [[r|] [|x rest]] eqn:E.
  - destruct (proj1 (H r []) eq_refl) as [-> Hl]. change (8 * 1) with 8 in Hl. rewrite be_store_byte, app_nil_r by lia.
    cbn [app well_prefixed tail]. rewrite Z.eqb_refl. done.
  - destruct (well_prefixed d); [|done]. by specialize (Hw eq_refl).
  - destruct (well_prefixed d); [|done]. by specialize (Hw eq_refl).
  - destruct (well_prefixed d); [|done]. by specialize (Hw eq_refl).
Qed.

Lemma prefixed_iff d n r : n = Z.of_nat (length r) → d = n :: r ↔ well_prefixed d = true ∧ tail d = r.
Proof.
  intros ->. destruct d as [|x d]; cbn [well_prefixed tail]; [split; [done|by intros []]|].
  rewrite Z.eqb_eq. split; [by intros [= -> ->]|by intros [-> ->]].
Qed.

Lemma client_parse s d : reneg_wf s → bytes d →
  ssl_parse_clienthello_renegotiate_ext s d (Z.of_nat (length d)) =
  if decide (d = client_binding s) then inr (with_binding s)
  else inl (if well_prefixed d then SSL_AD_HANDSHAKE_FAILURE else SSL_AD_ILLEGAL_PARAMETER).
Proof.
  intros Hw Hb. pose proof (length_client_value s Hw) as Hl. pose proof Hw as [Hc _ _ _].
  unfold ssl_parse_clienthello_renegotiate_ext, CBS_init.
  rewrite (proj2 (Z.ltb_ge _ _)), Nat2Z.id, take_ge by lia.
  pose proof (get_u8_prefixed d Hb) as G.
  pose proof (prefixed_iff d (client_finished_len s) (client_value s) (eq_sym Hl)) as Hp.
  fold (client_binding s) in Hp.
  destruct (CBS_get_u8_length_prefixed d) as [[r|] [|x rest]]; cbn [CBS_len length].
  2-4: rewrite decide_False by (rewrite Hp, G; naive_solver); by rewrite G.
  destruct G as [G ->]. rewrite G in Hp |- *. change (Z.of_nat 0 =? 0) with true. cbn [negb].
  rewrite mem_equal_iff by lia. fold (client_value s).
  destruct (Z.eqb_spec (CBS_len (tail d)) (client_finished_len s)) as [E|E]; cbn [negb].
  - destruct (decide (d = client_binding s)) as [D|D]; rewrite Hp in D.
    + by rewrite bool_decide_true by apply D.
    + by rewrite bool_decide_false by naive_solver.
  - rewrite decide_False; [done|]. rewrite Hp. intros [_ Ht]. apply E. rewrite Ht. exact Hl.
Qed.

(** C39: The server accepts the client's renegotiation extension exactly when it is the length byte and the
    client's Finished value of the last handshake, and then notes that the binding is to be sent;
    a string that is not its length byte and that many bytes is answered with an illegal-parameter
    alert, any other string with a handshake failure. *)
Theorem parse_clienthello_renegotiate_iff s d : reneg_wf s → bytes d →
  ssl_parse_clienthello_renegotiate_ext s d (Z.of_nat (length d)) =
  if decide (d = client_binding s) then inr (with_binding s)
  else inl (if well_prefixed d then SSL_AD_HANDSHAKE_FAILURE else SSL_AD_ILLEGAL_PARAMETER).
Proof. apply client_parse. Qed.

Lemma server_parse s d : reneg_wf s → bytes d →
  ssl_parse_serverhello_renegotiate_ext s d (Z.of_nat (length d)) =
  Some (if decide (d = server_binding s) then inr (with_binding s)
        else inl (if well_prefixed d &&
                     negb ((CBS_len (tail d) =? client_finished_len s + server_finished_len s) &&
                           bool_decide (take (Z.to_nat (client_finished_len s)) (tail d) = client_value s))
                  then SSL_AD_HANDSHAKE_FAILURE else SSL_AD_ILLEGAL_PARAMETER)).
Proof.
  intros Hw Hb. pose proof (length_client_value s Hw) as Hlc. pose proof (length_server_value s Hw) as Hls.
  pose proof Hw as [Hc Hs _ Hbo]. unfold ssl_parse_serverhello_renegotiate_ext.
  replace (negb (client_finished_len s + server_finished_len s =? 0) && (client_finished_len s =? 0)) with false
    by (case_cmp; cbn; lia).
  replace (negb (client_finished_len s + server_finished_len s =? 0) && (server_finished_len s =? 0)) with false
    by (case_cmp; cbn; lia). f_equal.
  unfold CBS_init at 1. rewrite (proj2 (Z.ltb_ge _ _)), Nat2Z.id, (take_ge d) by lia.
  pose proof (get_u8_prefixed d Hb) as G.
  pose proof (prefixed_iff d (client_finished_len s + server_finished_len s) (client_value s ++ server_value s)) as Hp.
  specialize (Hp ltac:(rewrite length_app; lia)). fold (server_binding s) in Hp.
  destruct (CBS_get_u8_length_prefixed d) as [[r|] [|x rest]]; cbn [CBS_len length].
  2-4: rewrite decide_False by (rewrite Hp, G; naive_solver); by rewrite G.
  destruct G as [G ->]. rewrite G in Hp |- *. change (Z.of_nat 0 =? 0) with true. cbn [negb andb].
  destruct (Z.eqb_spec (CBS_len (tail d)) (client_finished_len s + server_finished_len s)) as [E|E]; cbn [negb andb].
  2:{ rewrite decide_False; [done|]. rewrite Hp. intros [_ Ht]. apply E. rewrite Ht. unfold CBS_len.
      rewrite length_app. lia. }
  unfold CBS_len in E. destruct (split_at (tail d) (Z.to_nat (client_finished_len s))) as (dc & ds & Et & Ec & Es); [lia|].
  rewrite Et in *. replace (client_finished_len s) with (Z.of_nat (length dc)) at 1 by lia.
  rewrite CBS_get_bytes_app. replace (server_finished_len s) with (Z.of_nat (length ds)) at 1 by lia.
  rewrite CBS_get_bytes_all. change (CBS_len [] =? 0) with true. cbn [negb].
  unfold CBS_len. rewrite !mem_equal_iff by lia.
  rewrite take_app_exact by lia.
  replace (take (Z.to_nat (Z.of_nat (length dc))) (client_finished s)) with (client_value s)
    by (unfold client_value; f_equal; lia).
  replace (take (Z.to_nat (Z.of_nat (length ds))) (server_finished s)) with (server_value s)
    by (unfold server_value; f_equal; lia).
  destruct (decide (dc = client_value s)) as [->|Dc].
  - rewrite !(bool_decide_true (client_value s = client_value s)) by done. cbn [negb].
    destruct (decide (ds = server_value s)) as [->|Ds].
    + rewrite bool_decide_true by done. cbn [negb]. rewrite decide_True; [done|]. by apply Hp.
    + rewrite bool_decide_false by done. cbn [negb]. rewrite decide_False; [done|]. rewrite Hp.
      intros [_ Ha]. by apply app_inv_head in Ha.
  - rewrite !bool_decide_false by done. cbn [negb]. rewrite decide_False; [done|]. rewrite Hp.
    intros [_ Ha]. apply app_inj_1 in Ha as [? _]; [done|lia].
Qed.

(** The client accepts the server's renegotiation extension exactly when it is the length byte and the
    two Finished values of the last handshake in order; no assertion fails, and the alert for any
    other string tells a string of the wrong form or with a wrong server value (illegal parameter)
    from one of the wrong length or with a wrong client value (handshake failure). *)
Theorem parse_serverhello_renegotiate_iff s d : reneg_wf s → bytes d →
  ssl_parse_serverhello_renegotiate_ext s d (Z.of_nat (length d)) =
  Some (if decide (d = server_binding s) then inr (with_binding s)
        else inl (if well_prefixed d &&
                     negb ((CBS_len (tail d) =? client_finished_len s + server_finished_len s) &&
                           bool_decide (take (Z.to_nat (client_finished_len s)) (tail d) = client_value s))
                  then SSL_AD_HANDSHAKE_FAILURE else SSL_AD_ILLEGAL_PARAMETER)).
Proof. apply server_parse. Qed.

(** ** Both ends *)

Lemma take_binding (p v : list Z) n : n = Z.of_nat (length v) → 0 ≤ n < 256 → n + 1 ≤ Z.of_nat (length p) →
  take (Z.to_nat (n + 1)) (splice (setb p 0 (u8 n)) 1 v) = n :: v.
Proof.
  intros Hn Hr Hp. destruct p as [|x p]; [cbn in Hp; lia|].
  unfold setb. change (Z.to_nat 0) with 0%nat. cbn [insert list_insert]. rewrite u8_id by done.
  unfold splice. change (take 1 (n :: p)) with ([n] ++ take 0 p). rewrite take_0, app_nil_r, app_assoc.
  apply take_app_exact. cbn. lia.
Qed.

Lemma add_clienthello_spec s p maxlen : reneg_wf s → client_finished_len s + 1 ≤ maxlen ≤ Z.of_nat (length p) →
  ∃ p', ssl_add_clienthello_renegotiate_ext s (Some p) maxlen = Some (Some p', client_finished_len s + 1) ∧
    take (Z.to_nat (client_finished_len s + 1)) p' = client_binding s.
Proof.
  intros Hw Hm. pose proof Hw as [Hc _ _ _]. cbn [ssl_add_clienthello_renegotiate_ext].
  rewrite (proj2 (Z.ltb_ge _ _)) by lia. eexists. split; [reflexivity|].
  apply take_binding; [symmetry; by apply length_client_value|lia|lia].
Qed.

Lemma add_serverhello_spec s p maxlen : reneg_wf s →
  client_finished_len s + server_finished_len s + 1 ≤ maxlen ≤ Z.of_nat (length p) →
  ∃ p', ssl_add_serverhello_renegotiate_ext s (Some p) maxlen =
      Some (Some p', client_finished_len s + server_finished_len s + 1) ∧
    take (Z.to_nat (client_finished_len s + server_finished_len s + 1)) p' = server_binding s.
Proof.
  intros Hw Hm. pose proof Hw as [Hc Hs _ _]. cbn [ssl_add_serverhello_renegotiate_ext].
  rewrite (proj2 (Z.ltb_ge _ _)) by lia. eexists. split; [reflexivity|].
  pose proof (length_client_value s Hw) as Hlc. pose proof (length_server_value s Hw) as Hls.
  fold (client_value s) (server_value s).
  set (n := client_finished_len s + server_finished_len s) in *.
  assert (Hsp : splice (splice (setb p 0 (u8 n)) 1 (client_value s)) (Z.to_nat (1 + client_finished_len s)) (server_value s)
    = splice (setb p 0 (u8 n)) 1 (client_value s ++ server_value s)).
  { set (b := setb p 0 (u8 n)). assert (length b = length p) as Lb by (unfold b; len).
    unfold splice. rewrite (app_assoc (take 1 b)).
    rewrite (take_app_exact (take 1 b ++ client_value s)) by len.
    replace (Z.to_nat (1 + client_finished_len s) + length (server_value s))%nat
      with (length (take 1 b ++ client_value s) + length (server_value s))%nat by len.
    rewrite <- drop_drop, drop_app_length, drop_drop, <- !app_assoc. do 4 f_equal. len. }
  rewrite Hsp. apply take_binding; [rewrite length_app; lia|lia|lia].
Qed.

(** Either value is determined when the other has the same length at both ends. *)
Lemma server_binding_inj c t : reneg_wf c → reneg_wf t → client_finished_len c = client_finished_len t →
  server_binding t = server_binding c ↔ client_value c = client_value t ∧ server_value c = server_value t.
Proof.
  intros Hc Ht El. pose proof (length_client_value c Hc) as L1. pose proof (length_client_value t Ht) as L2.
  pose proof (length_server_value c Hc) as L3. pose proof (length_server_value t Ht) as L4. unfold server_binding. split.
  - intros [= _ E]. apply app_inj_1 in E as [-> ->]; [done|lia].
  - intros [Ec Es]. rewrite Ec, Es. f_equal. rewrite <- L1, <- L2, <- L3, <- L4, Ec, Es. done.
Qed.

(** C38: The exchange of renegotiation extensions between a client [c] and a server [t].  The server accepts
    what [ssl_add_clienthello_renegotiate_ext] wrote exactly when both ends hold the same client Finished
    value.  The client accepts what [ssl_add_serverhello_renegotiate_ext] wrote exactly when the two
    values, one after the other, are the same at both ends; if the client values have the same length,
    exactly when each of the two values is the same.  Both accept exactly when both ends hold the same
    client value and the same server value, so that a renegotiation cannot be spliced onto another
    connection. *)
Theorem renegotiation_binding c t p q maxlen : reneg_wf c → reneg_wf t →
  client_finished_len c + 1 ≤ maxlen ≤ Z.of_nat (length p) →
  client_finished_len t + server_finished_len t + 1 ≤ maxlen ≤ Z.of_nat (length q) →
  ∃ p' n q' m, ssl_add_clienthello_renegotiate_ext c (Some p) maxlen = Some (Some p', n) ∧
    ssl_add_serverhello_renegotiate_ext (with_binding t) (Some q) maxlen = Some (Some q', m) ∧
    let server_accepts :=
      ssl_parse_clienthello_renegotiate_ext t (take (Z.to_nat n) p') n = inr (with_binding t) in
    let client_accepts :=
      ssl_parse_serverhello_renegotiate_ext c (take (Z.to_nat m) q') m = Some (inr (with_binding c)) in
    (server_accepts ↔ client_value c = client_value t) ∧
    (client_accepts ↔ client_value c ++ server_value c = client_value t ++ server_value t) ∧
    (client_finished_len c = client_finished_len t →
     client_accepts ↔ client_value c = client_value t ∧ server_value c = server_value t) ∧
    (server_accepts ∧ client_accepts ↔ client_value c = client_value t ∧ server_value c = server_value t).
Proof.
  intros Hc Ht Hp Hq. pose proof (length_client_value c Hc) as L1. pose proof (length_client_value t Ht) as L2.
  pose proof (length_server_value c Hc) as L3. pose proof (length_server_value t Ht) as L4.
  pose proof Hc as [Hc1 Hs1 [Hb1 Hb2] _]. pose proof Ht as [Hc2 Hs2 [Hb3 Hb4] _].
  destruct (add_clienthello_spec c p maxlen Hc Hp) as (p' & E & Ep).
  destruct (add_serverhello_spec t q maxlen Ht Hq) as (q' & E' & Eq).
  exists p', (client_finished_len c + 1), q', (client_finished_len t + server_finished_len t + 1).
  split; [done|]. split; [exact E'|]. cbv zeta. rewrite Ep, Eq.
  assert (bytes (client_binding c)) as Hb by (constructor; [unfold is_byte; lia|by apply bytes_take]).
  assert (bytes (server_binding t)) as Hb' by (constructor; [unfold is_byte; lia|apply bytes_app; by apply bytes_take]).
  replace (client_finished_len c + 1) with (Z.of_nat (length (client_binding c))) by (cbn; lia).
  replace (client_finished_len t + server_finished_len t + 1) with (Z.of_nat (length (server_binding t)))
    by (cbn; rewrite length_app; lia).
  rewrite client_parse, server_parse by done.
  assert ((if decide (client_binding c = client_binding t) then inr (with_binding t) else
    inl (if well_prefixed (client_binding c) then SSL_AD_HANDSHAKE_FAILURE else SSL_AD_ILLEGAL_PARAMETER)) = inr (with_binding t)
    ↔ client_value c = client_value t) as H1.
  { unfold client_binding. case_decide as D; [injection D as _ D; by split|]. split; [done|]. intros Hv. destruct D.
    rewrite <- L1, <- L2, Hv. done. }
  set (al := if _ && _ then SSL_AD_HANDSHAKE_FAILURE else _).
  assert (Some (if decide (server_binding t = server_binding c) then inr (with_binding c) else inl al)
    = Some (inr (with_binding c)) ↔ server_binding t = server_binding c) as H2 by (destruct (decide (server_binding t = server_binding c)); [by split|split; [intros [= ?]|by intros ?]]).
  assert (client_finished_len c = client_finished_len t → Some (if decide (server_binding t = server_binding c) then
    inr (with_binding c) else inl al) = Some (inr (with_binding c)) ↔ client_value c = client_value t ∧ server_value c = server_value t) as H3.
  { intros El. rewrite H2. by apply server_binding_inj. }
  split; [exact H1|]. split; [|split; [exact H3|]].
  - rewrite H2. unfold server_binding. split; [by intros [= _ ->]|]. intros Ea. rewrite Ea. f_equal.
    apply (f_equal length) in Ea. rewrite !length_app in Ea. lia.
  - rewrite H1. split.
    + intros [Ev Ha]. apply H3; [|done]. rewrite <- L1, <- L2. by rewrite Ev.
    + intros Hv. split; [apply Hv|]. apply H3; [rewrite <- L1, <- L2; by destruct Hv as [-> _]|done].
Qed.

(** After a handshake with values of three bytes. *)
Definition demo_reneg : reneg := mkReneg ([1; 2; 3] ++ replicate 61 0) 3 ([4; 5; 6] ++ replicate 61 0) 3 false.

Lemma demo_reneg_wf : reneg_wf demo_reneg.
Proof.
  split; [cbn; lia..| |done]. split; apply bytes_app; auto with vtls; repeat constructor; unfold is_byte; lia.
Qed.

Lemma parse_clienthello_renegotiate_iff_witness :
  ssl_parse_clienthello_renegotiate_ext demo_reneg [3; 1; 2; 3] 4 = inr (with_binding demo_reneg).
Proof.
  change 4 with (Z.of_nat (length [3; 1; 2; 3])).
  rewrite (parse_clienthello_renegotiate_iff demo_reneg [3; 1; 2; 3] demo_reneg_wf).
  - by rewrite decide_True.
  - repeat constructor; unfold is_byte; lia.
Defined.

Lemma parse_serverhello_renegotiate_iff_witness :
  ssl_parse_serverhello_renegotiate_ext demo_reneg [6; 1; 2; 3; 4; 5; 7] 7 = Some (inl SSL_AD_ILLEGAL_PARAMETER).
Proof.
  change 7 with (Z.of_nat (length [6; 1; 2; 3; 4; 5; 7])) at 2.
  rewrite (parse_serverhello_renegotiate_iff demo_reneg [6; 1; 2; 3; 4; 5; 7] demo_reneg_wf).
  - vm_compute. reflexivity.
  - repeat constructor; unfold is_byte; lia.
Defined.

Lemma renegotiation_binding_witness :
  ∃ p' n q' m, ssl_add_clienthello_renegotiate_ext demo_reneg (Some (replicate 10 0)) 10 = Some (Some p', n) ∧
    ssl_add_serverhello_renegotiate_ext (with_binding demo_reneg) (Some (replicate 10 0)) 10 = Some (Some q', m) ∧
    ssl_parse_clienthello_renegotiate_ext demo_reneg (take (Z.to_nat n) p') n = inr (with_binding demo_reneg) ∧
    ssl_parse_serverhello_renegotiate_ext demo_reneg (take (Z.to_nat m) q') m = Some (inr (with_binding demo_reneg)).
Proof.
  destruct (renegotiation_binding demo_reneg demo_reneg (replicate 10 0) (replicate 10 0) 10 demo_reneg_wf demo_reneg_wf)
    as (p' & n & q' & m & E & E' & _ & _ & _ & H); [vm_compute; split; congruence..|].
  exists p', n, q', m. split; [exact E|]. split; [exact E'|]. apply H. split; reflexivity.
Defined.

(** The client compares the two values one after the other: values of other lengths with the same
    concatenation would be accepted by it, though the server would have refused the client's extension.
    The Finished values of TLS have the same length at both ends. *)
Lemma server_extension_ambiguous :
  let c := mkReneg [1; 2] 2 [3] 1 false in
  let t := mkReneg [1] 1 [2; 3] 2 false in
  match ssl_add_serverhello_renegotiate_ext t (Some (replicate 4 0)) 4 with
  | Some (Some q, m) => ssl_parse_serverhello_renegotiate_ext c (take (Z.to_nat m) q) m = Some (inr (with_binding c))
  | _ => False
  end ∧
  ssl_parse_clienthello_renegotiate_ext t (client_binding c) 3 = inl SSL_AD_HANDSHAKE_FAILURE.
Proof. vm_compute. done. Qed.
