(* ===== verification/DtlsHeader.v ===== *)
(** * DTLS handshake fragments: headers and the reassembly bit mask

    Models the message header of [ssl/d1_both.c] (the structures of
    [openssl/dtls1.h], [dtls1_get_message_header], [dtls1_write_message_header] with
    the macros [l2n3] and [s2n], the header setters) and the bit mask that records
    which bytes of a message have arrived ([RSMBLY_BITMASK_SIZE],
    [RSMBLY_BITMASK_MARK], [RSMBLY_BITMASK_IS_COMPLETE]).

    The theorems: reading a header that was written gives it back; marking a range
    sets exactly the bits of that range; the mask is complete exactly when every
    byte of the message is marked. *)

From S2P Require Import Prelude Cbs.

(** Pointers to cipher contexts and sessions are opaque handles. *)
Record dtls1_retransmit_state := mkRS {
  rs_enc_write_ctx : Z; rs_write_hash : Z; rs_session : Z; rs_epoch : Z }.

Record hm_header := mkHM {
  hm_type : Z; hm_msg_len : Z; hm_seq : Z; hm_frag_off : Z; hm_frag_len : Z;
  hm_is_ccs : Z; hm_saved : dtls1_retransmit_state }.

(** The header after [memset(msg_hdr, 0, sizeof(struct hm_header_st))]. *)
Definition rs0 : dtls1_retransmit_state := mkRS 0 0 0 0.
Definition hm0 : hm_header := mkHM 0 0 0 0 0 0 rs0.

Definition DTLS1_HM_HEADER_LENGTH : Z := 12.
Definition DTLS1_CCS_HEADER_LENGTH : Z := 1.

(** ** The wire format *)

Definition l2n3 (l : Z) : list Z := [u8 (l ≫ 16); u8 (l ≫ 8); u8 l].
Definition s2n (s : Z) : list Z := [u8 (s ≫ 8); u8 s].

Definition dtls1_write_message_header (h : hm_header) : list Z :=
  [hm_type h] ++ l2n3 (hm_msg_len h) ++ s2n (hm_seq h) ++ l2n3 (hm_frag_off h) ++ l2n3 (hm_frag_len h).

Definition dtls1_set_message_header_int (h : hm_header) (mt len seq_num frag_off frag_len : Z) : hm_header :=
  mkHM mt len seq_num frag_off frag_len (hm_is_ccs h) (hm_saved h).

Definition dtls1_fix_message_header (h : hm_header) (frag_off frag_len : Z) : hm_header :=
  mkHM (hm_type h) (hm_msg_len h) (hm_seq h) frag_off frag_len (hm_is_ccs h) (hm_saved h).

(** [sizeof(struct hm_header_st)] with 64-bit pointers and longs: the parser is told that this
    many bytes follow, although the callers' buffers have twelve. *)
Definition sizeof_hm_header : Z := 80.

(** [None] for the return value 0. *)
Definition dtls1_get_message_header (data : list Z) : option hm_header :=
  let header := CBS_init data sizeof_hm_header in
  match CBS_get_u8 header with
  | (None, _) => None
  | (Some type, header) =>
  match CBS_get_u24 header with
  | (None, _) => None
  | (Some msg_len, header) =>
  match CBS_get_u16 header with
  | (None, _) => None
  | (Some sq, header) =>
  match CBS_get_u24 header with
  | (None, _) => None
  | (Some frag_off, header) =>
  match CBS_get_u24 header with
  | (None, _) => None
  | (Some frag_len, _) => Some (mkHM type msg_len sq frag_off frag_len 0 rs0)
  end end end end end.

(** ** The bit mask *)

Definition bitmask_start_values : list Z := [0xff; 0xfe; 0xfc; 0xf8; 0xf0; 0xe0; 0xc0; 0x80].
Definition bitmask_end_values : list Z := [0xff; 0x01; 0x03; 0x07; 0x0f; 0x1f; 0x3f; 0x7f].

Definition RSMBLY_BITMASK_SIZE (msg_len : Z) : Z := (msg_len + 7) / 8.

(** [bitmask[i] |= v] *)
Definition or_at (m : list Z) (i v : Z) : list Z := setb m i (Z.lor (getb m i) v).

Fixpoint mark_bits (m : list Z) (ii : Z) (n : nat) : list Z :=
  match n with
  | O => m
  | S n' => mark_bits (or_at m (ii ≫ 3) (1 ≪ Z.land ii 7)) (ii + 1) n'
  end.

Fixpoint fill_ff (m : list Z) (ii : Z) (n : nat) : list Z :=
  match n with
  | O => m
  | S n' => fill_ff (setb m ii 0xff) (ii + 1) n'
  end.

Definition RSMBLY_BITMASK_MARK (m : list Z) (start end_ : Z) : list Z :=
  if end_ - start <=? 8 then mark_bits m start (Z.to_nat (end_ - start))
  else
    let m := or_at m (start ≫ 3) (getb bitmask_start_values (Z.land start 7)) in
    let first := (start ≫ 3) + 1 in
    let last := (end_ - 1) ≫ 3 in
    let m := fill_ff m first (Z.to_nat (last - first)) in
    or_at m last (getb bitmask_end_values (Z.land end_ 7)).

(** The loop from byte [n - 1] down to byte 0. *)
Fixpoint all_ff (m : list Z) (n : nat) : bool :=
  match n with
  | O => true
  | S n' => if negb (getb m (Z.of_nat n') =? 0xff) then false else all_ff m n'
  end.

Definition RSMBLY_BITMASK_IS_COMPLETE (m : list Z) (msg_len : Z) : bool :=
  if negb (getb m ((msg_len - 1) ≫ 3) =? getb bitmask_end_values (Z.land msg_len 7)) then false
  else all_ff m (Z.to_nat ((msg_len - 1) ≫ 3)).

(** ** Headers *)

Lemma l2n3_be_store l : l2n3 l = be_store 3 l.
Proof. rewrite !be_store_S. unfold l2n3. cbn [app]. rewrite !Z.shiftr_shiftr by lia. done. Qed.

Lemma s2n_be_store s : s2n s = be_store 2 s.
Proof. rewrite !be_store_S. done. Qed.

Lemma bytes_l2n3 l : bytes (l2n3 l).
Proof. rewrite l2n3_be_store. auto with vtls. Qed.
Lemma bytes_s2n s : bytes (s2n s).
Proof. rewrite s2n_be_store. auto with vtls. Qed.

(** A header whose fields fit the wire format. *)
Definition hm_wf (h : hm_header) : Prop :=
  is_byte (hm_type h) ∧ 0 ≤ hm_msg_len h < 2 ^ 24 ∧ 0 ≤ hm_seq h < 2 ^ 16 ∧
  0 ≤ hm_frag_off h < 2 ^ 24 ∧ 0 ≤ hm_frag_len h < 2 ^ 24.

Lemma length_write_message_header h : length (dtls1_write_message_header h) = 12%nat.
Proof. done. Qed.

Lemma bytes_write_message_header h : is_byte (hm_type h) → bytes (dtls1_write_message_header h).
Proof.
  intros. unfold dtls1_write_message_header. constructor; [done|].
  repeat apply Forall_app_2; auto using bytes_l2n3, bytes_s2n.
Qed.

Lemma get_u24_l2n3 v r : 0 ≤ v < 2 ^ 24 → CBS_get_u24 (l2n3 v ++ r) = (Some v, r).
Proof.
  intros. rewrite l2n3_be_store. unfold CBS_get_u24.
  pose proof (cbs_get_u_app (be_store 3 v) r (bytes_be_store 3 v)) as E.
  rewrite length_be_store in E. change (Z.of_nat 3) with 3 in E. rewrite E by lia.
  rewrite be_load_store, Z.mod_small by (cbn; lia). done.
Qed.

Lemma get_u16_s2n v r : 0 ≤ v < 2 ^ 16 → CBS_get_u16 (s2n v ++ r) = (Some v, r).
Proof.
  intros. rewrite s2n_be_store. unfold CBS_get_u16.
  pose proof (cbs_get_u_app (be_store 2 v) r (bytes_be_store 2 v)) as E.
  rewrite length_be_store in E. change (Z.of_nat 2) with 2 in E. rewrite E by lia.
  rewrite be_load_store, Z.mod_small by (cbn; lia). unfold u16. rewrite Z.mod_small by lia. done.
Qed.

(** Reading a header that was written, with anything after it. *)
Lemma get_write_message_header h rest : hm_wf h →
  dtls1_get_message_header (dtls1_write_message_header h ++ rest) =
  Some (mkHM (hm_type h) (hm_msg_len h) (hm_seq h) (hm_frag_off h) (hm_frag_len h) 0 rs0).
Proof.
  intros (Ht & Hl & Hs & Ho & Hf). unfold dtls1_get_message_header, CBS_init, dtls1_write_message_header.
  change (Z.to_nat sizeof_hm_header) with (12 + 68)%nat.
  change 12%nat with (length (dtls1_write_message_header h)). rewrite take_app_add.
  unfold dtls1_write_message_header. rewrite <- !app_assoc. cbn [app].
  rewrite CBS_get_u8_cons, get_u24_l2n3, get_u16_s2n, !get_u24_l2n3 by done. done.
Qed.

(** Reading a message header from the bytes [dtls1_write_message_header] wrote, whatever
    follows them, gives back the type, lengths, sequence number and offset. *)
Theorem message_header_roundtrip h rest : hm_wf h →
  length (dtls1_write_message_header h) = Z.to_nat DTLS1_HM_HEADER_LENGTH ∧
  dtls1_get_message_header (dtls1_write_message_header h ++ rest) =
  Some (mkHM (hm_type h) (hm_msg_len h) (hm_seq h) (hm_frag_off h) (hm_frag_len h) 0 rs0).
Proof. intros. split; [done|]. by apply get_write_message_header. Qed.

Lemma message_header_roundtrip_witness :
  dtls1_get_message_header [11; 0; 1; 44; 0; 3; 0; 0; 100; 0; 0; 200; 5; 5] =
  Some (mkHM 11 300 3 100 200 0 rs0).
Proof.
  apply (message_header_roundtrip (mkHM 11 300 3 100 200 0 rs0) [5; 5]).
  unfold hm_wf, is_byte. cbn. lia.
Defined.

(** A buffer without a whole header is refused. *)
Lemma get_message_header_short data : (length data < 12)%nat → dtls1_get_message_header data = None.
Proof.
  intros H. do 12 (destruct data as [|? data]; [done|]). cbn in H. lia.
Qed.

(** ** Marks *)

Definition bit (m : list Z) (j b : Z) : bool := Z.testbit (getb m j) b.
Definition marked (m : list Z) (i : Z) : bool := bit m (i ≫ 3) (Z.land i 7).

Lemma shiftr3 i : i ≫ 3 = i / 8.
Proof. apply Z.shiftr_div_pow2. lia. Qed.
Lemma land7 i : Z.land i 7 = i `mod` 8.
Proof. apply (Z.land_ones i 3). lia. Qed.

(** Positions as byte index and bit index. *)
Lemma pos_split i : i = 8 * (i / 8) + i `mod` 8 ∧ 0 ≤ i `mod` 8 < 8.
Proof. split; [apply Z.div_mod; lia|apply Z.mod_pos_bound; lia]. Qed.

Lemma bit_or_at m k v j b : 0 ≤ k < Z.of_nat (length m) → 0 ≤ j →
  bit (or_at m k v) j b = bit m j b || ((j =? k) && Z.testbit v b).
Proof.
  intros. unfold bit, or_at. rewrite getb_setb by lia. case_decide as E.
  - subst. by rewrite Z.lor_spec, Z.eqb_refl.
  - rewrite (proj2 (Z.eqb_neq j k)) by lia. by rewrite orb_false_r.
Qed.

Lemma length_or_at m k v : length (or_at m k v) = length m.
Proof. apply length_setb. Qed.
#[export] Hint Rewrite length_or_at : vtls_len.

Lemma mark_bits_spec n : ∀ m ii i, 0 ≤ ii → ii + Z.of_nat n ≤ 8 * Z.of_nat (length m) → 0 ≤ i →
  length (mark_bits m ii n) = length m ∧
  marked (mark_bits m ii n) i = marked m i || ((ii <=? i) && (i <? ii + Z.of_nat n)).
Proof.
  induction n as [|n IH]; intros m ii i Hi Hn H0; cbn [mark_bits].
  { split; [done|]. replace ((ii <=? i) && (i <? ii + Z.of_nat 0)) with false by (case_cmp; cbn; lia).
    by rewrite orb_false_r. }
  pose proof (pos_split ii). pose proof (pos_split i).
  destruct (IH (or_at m (ii ≫ 3) (1 ≪ Z.land ii 7)) (ii + 1) i) as [E1 E2]; [lia|len|lia|].
  split; [by rewrite E1; len|]. rewrite E2. unfold marked. rewrite bit_or_at by (rewrite ?shiftr3; lia).
  rewrite <- orb_assoc. f_equal. rewrite Z.shiftl_1_l, Z.pow2_bits_eqb by (rewrite land7; lia).
  rewrite !shiftr3, !land7.
  destruct (Z.eqb_spec (i / 8) (ii / 8)), (Z.eqb_spec (ii `mod` 8) (i `mod` 8)); case_cmp; cbn; lia.
Qed.

Lemma fill_ff_spec n : ∀ m ii j b, 0 ≤ ii → ii + Z.of_nat n ≤ Z.of_nat (length m) → 0 ≤ j → 0 ≤ b < 8 →
  length (fill_ff m ii n) = length m ∧
  bit (fill_ff m ii n) j b = bit m j b || ((ii <=? j) && (j <? ii + Z.of_nat n)).
Proof.
  induction n as [|n IH]; intros m ii j b Hi Hn Hj Hb; cbn [fill_ff].
  { split; [done|]. replace ((ii <=? j) && (j <? ii + Z.of_nat 0)) with false by (case_cmp; cbn; lia).
    by rewrite orb_false_r. }
  destruct (IH (setb m ii 0xff) (ii + 1) j b) as [E1 E2]; [lia|len|lia..|].
  split; [by rewrite E1; len|]. rewrite E2. unfold bit at 1. rewrite getb_setb by lia. case_decide as E.
  - subst. replace (Z.testbit 255 b) with true.
    + replace ((j <=? j) && (j <? j + Z.of_nat (S n))) with true by (case_cmp; cbn; lia).
      by rewrite orb_true_r.
    + symmetry. change 255 with (Z.ones 8). apply Z.ones_spec_low. lia.
  - fold (bit m j b). f_equal. case_cmp; cbn; lia.
Qed.

(** The tables hold the masks of the bits from, and below, an index. *)
Lemma below8 (P : Z → Prop) : P 0 → P 1 → P 2 → P 3 → P 4 → P 5 → P 6 → P 7 → ∀ r, 0 ≤ r < 8 → P r.
Proof.
  intros. assert (r = 0 ∨ r = 1 ∨ r = 2 ∨ r = 3 ∨ r = 4 ∨ r = 5 ∨ r = 6 ∨ r = 7) as C by lia.
  destruct C as [->|[->|[->|[->|[->|[->|[->| ->]]]]]]]; done.
Qed.

Lemma start_values_spec r b : 0 ≤ r < 8 → 0 ≤ b < 8 →
  Z.testbit (getb bitmask_start_values r) b = (r <=? b).
Proof.
  intros Hr Hb. revert r Hr. apply below8; revert b Hb; apply below8; reflexivity.
Qed.

Lemma end_values_spec r b : 0 ≤ r < 8 → 0 ≤ b < 8 →
  Z.testbit (getb bitmask_end_values r) b = (b <=? (r - 1) `mod` 8).
Proof.
  intros Hr Hb. revert r Hr. apply below8; revert b Hb; apply below8; reflexivity.
Qed.

(** Marking a range sets exactly the bits of the range. *)
Lemma mark_spec m start end_ i : 0 ≤ start < end_ → end_ ≤ 8 * Z.of_nat (length m) → 0 ≤ i →
  length (RSMBLY_BITMASK_MARK m start end_) = length m ∧
  marked (RSMBLY_BITMASK_MARK m start end_) i = marked m i || ((start <=? i) && (i <? end_)).
Proof.
  intros Hs He Hi. unfold RSMBLY_BITMASK_MARK. destruct (Z.leb_spec (end_ - start) 8).
  { pose proof (mark_bits_spec (Z.to_nat (end_ - start)) m start i) as E.
    rewrite Z2Nat.id in E by lia. replace (start + (end_ - start)) with end_ in E by lia.
    apply E; lia. }
  rewrite !shiftr3, !land7.
  pose proof (pos_split start). pose proof (pos_split (end_ - 1)). pose proof (pos_split i).
  pose proof (pos_split end_).
  set (m1 := or_at m _ _). set (f := start / 8 + 1). set (n := Z.to_nat ((end_ - 1) / 8 - f)).
  assert (length m1 = length m) as L1 by (unfold m1; len).
  assert (start / 8 < (end_ - 1) / 8) by lia.
  destruct (fill_ff_spec n m1 f (i ≫ 3) (Z.land i 7)) as [L2 E2];
    [unfold f; lia|rewrite L1; unfold n, f; lia|rewrite shiftr3; lia|rewrite land7; lia|].
  split; [by len|]. unfold marked. rewrite bit_or_at; [|rewrite L2, L1; lia|rewrite shiftr3; lia].
  rewrite E2. unfold m1. rewrite bit_or_at; [|lia|rewrite shiftr3; lia].
  rewrite start_values_spec, end_values_spec by (rewrite ?land7; lia).
  rewrite <- !orb_assoc. f_equal. rewrite shiftr3, land7.
  assert ((end_ `mod` 8 - 1) `mod` 8 = (end_ - 1) `mod` 8) as -> by apply Zminus_mod_idemp_l.
  subst f n. rewrite Z2Nat.id by lia.
  destruct (Z.eqb_spec (i / 8) (start / 8)), (Z.eqb_spec (i / 8) ((end_ - 1) / 8)); case_cmp; cbn; lia.
Qed.

Lemma bytes_or_at m k v : bytes m → is_byte v → bytes (or_at m k v).
Proof. unfold or_at. auto with vtls. Qed.

Lemma mark_bits_bytes n : ∀ m ii, bytes m → bytes (mark_bits m ii n).
Proof.
  induction n as [|n IH]; intros m ii Hm; cbn [mark_bits]; [done|]. apply IH, bytes_or_at; [done|].
  rewrite Z.shiftl_1_l, land7. pose proof (pos_split ii).
  pose proof (Z.pow_pos_nonneg 2 (ii `mod` 8) ltac:(lia) ltac:(lia)).
  pose proof (Z.pow_lt_mono_r 2 (ii `mod` 8) 8 ltac:(lia) ltac:(lia)). unfold is_byte. lia.
Qed.

Lemma fill_ff_bytes n : ∀ m ii, bytes m → bytes (fill_ff m ii n).
Proof.
  induction n as [|n IH]; intros m ii Hm; cbn [fill_ff]; [done|]. apply IH, bytes_setb; [done|].
  unfold is_byte; lia.
Qed.

Lemma mask_values_bytes : bytes bitmask_start_values ∧ bytes bitmask_end_values.
Proof. split; repeat constructor; unfold is_byte; lia. Qed.

Lemma mark_bytes m start end_ : bytes m → bytes (RSMBLY_BITMASK_MARK m start end_).
Proof.
  intros Hm. destruct mask_values_bytes. unfold RSMBLY_BITMASK_MARK. case_match; [by apply mark_bits_bytes|].
  apply bytes_or_at; [|auto with vtls]. apply fill_ff_bytes, bytes_or_at; auto with vtls.
Qed.

(** ** Completeness *)

(** A byte is determined by its eight bits. *)
Lemma byte_ext x y : is_byte x → is_byte y → (∀ b, 0 ≤ b < 8 → Z.testbit x b = Z.testbit y b) → x = y.
Proof.
  intros [_ Hx]%(bounded_bits 8) [_ Hy]%(bounded_bits 8) H; [|lia..].
  apply Z.bits_inj'. intros i Hi. destruct (Z.lt_ge_cases i 8); [by apply H|].
  by rewrite Hx, Hy.
Qed.

Lemma all_ff_spec m n : all_ff m n = true ↔ ∀ j, 0 ≤ j < Z.of_nat n → getb m j = 0xff.
Proof.
  induction n as [|n IH]; cbn [all_ff].
  { split; [intros _ j Hj; lia|done]. }
  destruct (Z.eqb_spec (getb m (Z.of_nat n)) 0xff) as [E|E]; cbn [negb].
  - rewrite IH. split; intros H j Hj; [|apply H; lia].
    destruct (decide (j = Z.of_nat n)) as [->|]; [done|apply H; lia].
  - split; [done|]. intros H. destruct E. apply H. lia.
Qed.

Lemma bit_marked m j b : 0 ≤ j → 0 ≤ b < 8 → bit m j b = marked m (8 * j + b).
Proof.
  intros. unfold marked. rewrite shiftr3, land7, Z.add_comm, Z.mul_comm.
  rewrite Z.div_add, Z.mod_add by lia. rewrite Z.div_small, Z.mod_small by lia. done.
Qed.

(** A mask without marks behind the end of the message is complete exactly when every byte of the
    message is marked. *)
Lemma complete_spec m n : bytes m → 0 < n → n ≤ 8 * Z.of_nat (length m) →
  (∀ i, n ≤ i → marked m i = false) →
  RSMBLY_BITMASK_IS_COMPLETE m n = true ↔ ∀ i, 0 ≤ i < n → marked m i = true.
Proof.
  intros Hm Hn Hl Hbeyond. destruct mask_values_bytes as [_ Hv].
  pose proof (pos_split (n - 1)) as [Hp Hr]. unfold RSMBLY_BITMASK_IS_COMPLETE.
  rewrite shiftr3, land7. set (k := (n - 1) / 8) in *. set (r := (n - 1) `mod` 8) in *.
  assert (Hk : 0 ≤ k) by lia.
  assert (Hend : ∀ b, 0 ≤ b < 8 → Z.testbit (getb bitmask_end_values (n `mod` 8)) b = (b <=? r)).
  { intros b Hb. pose proof (pos_split n). rewrite end_values_spec by lia. unfold r.
    by rewrite Zminus_mod_idemp_l. }
  destruct (Z.eqb_spec (getb m k) (getb bitmask_end_values (n `mod` 8))) as [E|E]; cbn [negb].
  - rewrite all_ff_spec, Z2Nat.id by done. split.
    + intros H i Hi. pose proof (pos_split i). unfold marked, bit. rewrite shiftr3, land7.
      destruct (decide (i / 8 = k)) as [Ei|].
      * rewrite Ei, E, Hend by lia. apply Z.leb_le. lia.
      * rewrite H by lia. change 255 with (Z.ones 8). apply Z.ones_spec_low. lia.
    + intros H j Hj. apply byte_ext; [auto with vtls|unfold is_byte; lia|]. intros b Hb.
      fold (bit m j b). rewrite bit_marked, H by lia.
      change 255 with (Z.ones 8). symmetry. apply Z.ones_spec_low. lia.
  - split; [done|]. intros H. destruct E. apply byte_ext; auto with vtls. intros b Hb.
    rewrite Hend by done. fold (bit m k b). rewrite bit_marked by lia.
    destruct (Z.leb_spec b r); [apply H; lia|apply Hbeyond; lia].
Qed.

Lemma marked_zeros n i : 0 ≤ i → marked (replicate n 0) i = false.
Proof.
  intros. unfold marked, bit, getb, nthZ. rewrite nth_lookup.
  destruct (replicate n 0 !! Z.to_nat (i ≫ 3)) as [x|] eqn:E; cbn; [|apply Z.bits_0].
  apply lookup_replicate in E as [-> _]. apply Z.bits_0.
Qed.
