(* ===== verification/DtlsFrag.v ===== *)
(** * DTLS handshake messages: reassembly and delivery

    Models the receiving half of [ssl/d1_both.c]: the buffer of fragments
    ([dtls1_hm_fragment_new], [dtls1_reassemble_fragment],
    [dtls1_process_out_of_seq_message], [dtls1_retrieve_buffered_fragment]) and the
    functions that hand messages to the handshake in order
    ([dtls1_preprocess_fragment], [dtls1_get_message_fragment],
    [dtls1_get_message]).

    The record layer is an interface, [RecordLayer]: what [s->method->ssl_read_bytes]
    promises for handshake data is that it reads from the current record and, when
    that is used up, from the next one that arrives, or returns what the attempt to
    get one returned.  Its instance is the path of [dtls1_read_bytes] in
    [ssl/d1_pkt.c] that serves handshake data from handshake records; what
    [dtls1_get_record] delivers, after decryption, is the input.

    Where the code follows a pointer into the queue and changes the fragment there,
    the model replaces the fragment of that node ([set_data]).  Memory comes from
    [malloc] as in [Buffer].  Alerts that are sent and the bytes that enter the
    handshake hash are logged in the state; message callbacks are left out.

    The specification is a table [msgs] of the peer's messages by sequence number:
    every record holds fragments of these messages ([wire]), in any order, with
    gaps, overlaps and repetitions.  The theorems say that whatever is delivered is
    the message of the expected number, that the expected message is delivered as
    soon as its bytes have all arrived, and that the loops end. *)

From S2P Require Import Prelude Cbs Pqueue Buffer DtlsHeader.
From stdpp Require Import gmap.
#[local] Open Scope Z_scope.

(** ** The record layer *)

(** Reading [len] bytes with [cur] left of the current record: the return value, the bytes stored
    in the caller's buffer, what is left of the record and the input still to come.  An input is
    a record or [n] for an attempt to get one that fails with the value [- n]. *)
Definition deliver (len : Z) (cur : list Z) (input : list (nat + list Z))
    : Z * list Z * list Z * list (nat + list Z) :=
  let from_record rec input :=
    let n := Z.min len (Z.of_nat (length rec)) in
    (n, take (Z.to_nat n) rec, drop (Z.to_nat n) rec, input) in
  match cur with
  | _ :: _ => from_record cur input
  | [] =>
      match input with
      | [] => (-1, [], [], [])
      | inl n :: input => (- Z.of_nat n, [], [], input)
      | inr rec :: input => from_record rec input
      end
  end.

Class RecordLayer (L : Type) := {
  ssl_read_bytes : Z → L → Z * list Z * L;
  (** the bytes of [s->s3->rrec] that have not been read *)
  rrec_left : L → list Z;
  rl_input : L → list (nat + list Z);
  ssl_read_bytes_spec len l : 0 < len →
    let '(i, bs, l') := ssl_read_bytes len l in
    deliver len (rrec_left l) (rl_input l) = (i, bs, rrec_left l', rl_input l')
}.

(** [rr_left] is [rr->length] bytes from [rr->data + rr->off]. *)
Record dtls_reader := mkReader { rr_left : list Z; rr_input : list (nat + list Z) }.

(** Getting a record when the current one is used up, and copying from it. *)
Definition read_handshake_record (len : Z) (r : dtls_reader) : Z * list Z * dtls_reader :=
  let copy r :=
    if len <=? 0 then (len, [], r)
    else
      let n := if Z.of_nat (length (rr_left r)) <? len then Z.of_nat (length (rr_left r)) else len in
      (n, take (Z.to_nat n) (rr_left r), mkReader (drop (Z.to_nat n) (rr_left r)) (rr_input r)) in
  match rr_left r with
  | [] =>
      match rr_input r with
      | [] => (-1, [], r)
      | inl n :: input => (- Z.of_nat n, [], mkReader [] input)
      | inr rec :: input => copy (mkReader rec input)
      end
  | _ => copy r
  end.

Lemma read_handshake_record_spec len r : 0 < len →
  let '(i, bs, r') := read_handshake_record len r in
  deliver len (rr_left r) (rr_input r) = (i, bs, rr_left r', rr_input r').
Proof.
  intros Hl. unfold read_handshake_record, deliver. rewrite (proj2 (Z.leb_gt len 0)) by done.
  assert (∀ n, Z.min len n = if n <? len then n else len) as Hm by (intros; case_cmp; lia).
  destruct r as [[|x cur] [|[n|rec] input]]; cbn [rr_left rr_input]; rewrite ?Hm; done.
Qed.

#[global] Instance dtls_record_layer : RecordLayer dtls_reader := {|
  ssl_read_bytes := read_handshake_record;
  rrec_left := rr_left;
  rl_input := rr_input;
  ssl_read_bytes_spec := read_handshake_record_spec
|}.

(** ** The state *)

Record hm_fragment := mkFrag {
  frag_hdr : hm_header; fragment : list Z; reassembly : option (list Z) }.

(** The parts of [SSL], [s->s3] and [s->d1] that the receiver changes. *)
Record hs (L : Type) := mkHS {
  rl : L;
  buffered : pqueue hm_fragment;      (* s->d1->buffered_messages *)
  read_seq : Z;                       (* s->d1->handshake_read_seq *)
  r_msg_hdr : hm_header;              (* s->d1->r_msg_hdr *)
  init_buf : BUF_MEM;
  init_num : Z;
  message_size : Z;                   (* s->s3->tmp *)
  message_type : Z;
  reuse_message : bool;
  ssl_state : Z;
  rwstate : Z;
  alerts : list Z;                    (* fatal alerts sent *)
  hash_input : list Z                 (* bytes given to tls1_finish_mac *)
}.
Arguments mkHS {L}. Arguments rl {L}. Arguments buffered {L}. Arguments read_seq {L}.
Arguments r_msg_hdr {L}. Arguments init_buf {L}. Arguments init_num {L}.
Arguments message_size {L}. Arguments message_type {L}. Arguments reuse_message {L}.
Arguments ssl_state {L}. Arguments rwstate {L}. Arguments alerts {L}. Arguments hash_input {L}.

(** The parts that it only reads. *)
Record hs_conf := mkConf { listen : bool; server : bool; max_cert_list : Z }.

Definition DTLS1_HM_BAD_FRAGMENT : Z := -2.
Definition DTLS1_HM_FRAGMENT_RETRY : Z := -3.
Definition SSL_AD_UNEXPECTED_MESSAGE : Z := 10.
Definition SSL_AD_ILLEGAL_PARAMETER : Z := 47.
Definition SSL_AD_INTERNAL_ERROR : Z := 80.
Definition SSL_READING : Z := 3.
Definition SSL3_MT_HELLO_REQUEST : Z := 0.
Definition SSL3_MT_FINISHED : Z := 20.
Definition SSL3_RT_MAX_ENCRYPTED_LENGTH : Z := 256 + 64 + 16384.
Definition sizeof_hm_fragment : nat := 96.
Definition sizeof_pitem : nat := 24.

(** The priority of a message: its sequence number as eight bytes. *)
Definition seq64be (sq : Z) : list Z := replicate 6 0 ++ s2n sq.

(** [item->data->... = ] for the node that [pqueue_find] returned. *)
Fixpoint set_data {D} (q : pqueue D) (prio : list Z) (d : D) : pqueue D :=
  match q with
  | [] => []
  | i :: rest =>
      if memcmp (priority i) prio 8 =? 0 then {| priority := priority i; data := d |} :: rest
      else i :: set_data rest prio d
  end.

Section receiver.
Context {L : Type} {RL : RecordLayer L}.
Context (malloc : nat → option (list Z)) (conf : hs_conf).

Implicit Types s : hs L.

Definition with_rl s l : hs L :=
  mkHS l (buffered s) (read_seq s) (r_msg_hdr s) (init_buf s) (init_num s) (message_size s)
    (message_type s) (reuse_message s) (ssl_state s) (rwstate s) (alerts s) (hash_input s).
Definition with_buffered s q : hs L :=
  mkHS (rl s) q (read_seq s) (r_msg_hdr s) (init_buf s) (init_num s) (message_size s)
    (message_type s) (reuse_message s) (ssl_state s) (rwstate s) (alerts s) (hash_input s).
Definition with_buf s b : hs L :=
  mkHS (rl s) (buffered s) (read_seq s) (r_msg_hdr s) b (init_num s) (message_size s)
    (message_type s) (reuse_message s) (ssl_state s) (rwstate s) (alerts s) (hash_input s).
Definition with_init_num s n : hs L :=
  mkHS (rl s) (buffered s) (read_seq s) (r_msg_hdr s) (init_buf s) n (message_size s)
    (message_type s) (reuse_message s) (ssl_state s) (rwstate s) (alerts s) (hash_input s).
Definition with_reading s : hs L :=
  mkHS (rl s) (buffered s) (read_seq s) (r_msg_hdr s) (init_buf s) (init_num s) (message_size s)
    (message_type s) (reuse_message s) (ssl_state s) SSL_READING (alerts s) (hash_input s).
Definition with_r_msg_hdr s h : hs L :=
  mkHS (rl s) (buffered s) (read_seq s) h (init_buf s) (init_num s) (message_size s)
    (message_type s) (reuse_message s) (ssl_state s) (rwstate s) (alerts s) (hash_input s).
Definition with_state s st : hs L :=
  mkHS (rl s) (buffered s) (read_seq s) (r_msg_hdr s) (init_buf s) (init_num s) (message_size s)
    (message_type s) (reuse_message s) st (rwstate s) (alerts s) (hash_input s).
Definition with_reuse s b : hs L :=
  mkHS (rl s) (buffered s) (read_seq s) (r_msg_hdr s) (init_buf s) (init_num s) (message_size s)
    (message_type s) b (ssl_state s) (rwstate s) (alerts s) (hash_input s).

Definition ssl3_send_alert s (al : Z) : hs L :=
  mkHS (rl s) (buffered s) (read_seq s) (r_msg_hdr s) (init_buf s) (init_num s) (message_size s)
    (message_type s) (reuse_message s) (ssl_state s) (rwstate s) (alerts s ++ [al]) (hash_input s).

Definition tls1_finish_mac s (p : list Z) : hs L :=
  mkHS (rl s) (buffered s) (read_seq s) (r_msg_hdr s) (init_buf s) (init_num s) (message_size s)
    (message_type s) (reuse_message s) (ssl_state s) (rwstate s) (alerts s) (hash_input s ++ p).

(** [s->method->ssl_read_bytes(s, SSL3_RT_HANDSHAKE, buf, len, 0)]: value, bytes stored, state. *)
Definition read_bytes s (len : Z) : Z * list Z * hs L :=
  let '(i, bs, l) := ssl_read_bytes len (rl s) in (i, bs, with_rl s l).

(** ** Fragments *)

Definition dtls1_hm_fragment_new (frag_len : Z) (reasm : bool) : option hm_fragment :=
  match malloc sizeof_hm_fragment with
  | None => None
  | Some _ =>
      match (if frag_len =? 0 then Some [] else malloc (Z.to_nat frag_len)) with
      | None => None
      | Some buf =>
          if reasm then
            match malloc (Z.to_nat (RSMBLY_BITMASK_SIZE frag_len)) with
            | None => None
            | Some m => Some (mkFrag hm0 buf (Some (replicate (length m) 0)))   (* calloc *)
            end
          else Some (mkFrag hm0 buf None)
      end
  end.

Definition pitem_alloc (prio : list Z) (frag : hm_fragment) : option (pitem hm_fragment) :=
  match malloc sizeof_pitem with
  | None => None
  | Some _ => Some (pitem_new prio frag)
  end.

(** Returns the alert to send, 0 for none.  [max] is passed as an [int]. *)
Definition dtls1_preprocess_fragment s (msg_hdr : hm_header) (max : Z) : Z * hs L :=
  let max := s32 max in
  let msg_len := hm_msg_len msg_hdr in
  let frag_off := hm_frag_off msg_hdr in
  let frag_len := hm_frag_len msg_hdr in
  if msg_len <? frag_off + frag_len then (SSL_AD_ILLEGAL_PARAMETER, s)
  else if u64 max <? frag_off + frag_len then (SSL_AD_ILLEGAL_PARAMETER, s)
  else if hm_frag_off (r_msg_hdr s) =? 0 then
    let '(r, b) := BUF_MEM_grow_clean malloc (init_buf s) (msg_len + DTLS1_HM_HEADER_LENGTH) in
    if r =? 0 then (SSL_AD_INTERNAL_ERROR, with_buf s b)
    else
      let h := r_msg_hdr s in
      (0, mkHS (rl s) (buffered s) (read_seq s)
            (mkHM (hm_type msg_hdr) msg_len (hm_seq msg_hdr) (hm_frag_off h) (hm_frag_len h)
               (hm_is_ccs h) (hm_saved h))
            b (init_num s) msg_len (hm_type msg_hdr) (reuse_message s) (ssl_state s) (rwstate s)
            (alerts s) (hash_input s))
  else if negb (msg_len =? hm_msg_len (r_msg_hdr s)) then (SSL_AD_ILLEGAL_PARAMETER, s)
  else (0, s).

(** [memcpy(&init_buf->data[DTLS1_HM_HEADER_LENGTH + off], src, |src|)] *)
Definition store_body s (off : Z) (src : list Z) : hs L :=
  let b := init_buf s in
  with_buf s (mkBUF (buf_length b)
    (splice (buf_data b) (Z.to_nat (DTLS1_HM_HEADER_LENGTH + off)) src) (buf_max b)).

(** The loop that discards stale messages, [None] when it takes more than [fuel] rounds.  This and
    the [None] of the functions below is a loop that does not end. *)
Fixpoint drop_stale (q : pqueue hm_fragment) (rseq : Z) (fuel : nat) : option (pqueue hm_fragment) :=
  match fuel with
  | O => None
  | S fuel' =>
      match pqueue_peek q with
      | None => Some q
      | Some item =>
          if hm_seq (frag_hdr (data item)) <? rseq then drop_stale (pqueue_pop q).2 rseq fuel'
          else Some q
      end
  end.

(** Returns the return value, [*ok] and the state. *)
Definition dtls1_retrieve_buffered_fragment s (max : Z) : option (Z * bool * hs L) :=
  q ← drop_stale (buffered s) (read_seq s) (S (length (buffered s)));
  let s := with_buffered s q in
  Some
  match pqueue_peek (buffered s) with
  | None => (0, false, s)
  | Some item =>
      let frag := data item in
      match reassembly frag with
      | Some _ => (0, false, s)
      | None =>
          if read_seq s =? hm_seq (frag_hdr frag) then
            let frag_len := hm_frag_len (frag_hdr frag) in
            let s := with_buffered s (pqueue_pop (buffered s)).2 in
            let '(al, s) := dtls1_preprocess_fragment s (frag_hdr frag) max in
            if al =? 0 then
              (frag_len, true,
               store_body s (hm_frag_off (frag_hdr frag))
                 (take (Z.to_nat (hm_frag_len (frag_hdr frag))) (fragment frag)))
            else (-1, false, with_init_num (ssl3_send_alert s al) 0)
          else (0, false, s)
      end
  end.

Definition dtls1_max_handshake_message_len : Z :=
  let max_len := DTLS1_HM_HEADER_LENGTH + SSL3_RT_MAX_ENCRYPTED_LENGTH in
  if max_len <? max_cert_list conf then max_cert_list conf else max_len.

(** The loop that reads a fragment into [devnull]: with the state, nothing when it is done and [i]
    when a read fails. *)
Fixpoint drain s (frag_len : Z) (fuel : nat) : option (option Z * hs L) :=
  match fuel with
  | O => None
  | S fuel' =>
      if frag_len =? 0 then Some (None, s)
      else
        let '(i, _, s) := read_bytes s (if 256 <? frag_len then 256 else frag_len) in
        if i <=? 0 then Some (Some i, s) else drain s (frag_len - i) fuel'
  end.

(** The second half of [dtls1_reassemble_fragment], from the reading of the body on, with [item]
    telling whether [frag] is in the queue. *)
Definition reassemble_body s (msg_hdr : hm_header) (item : bool) (frag : hm_fragment) (m : list Z)
    (ok : bool) : Z * bool * hs L :=
  let frag_len := hm_frag_len msg_hdr in
  let frag_off := hm_frag_off msg_hdr in
  let prio := seq64be (hm_seq msg_hdr) in
  let '(i, bs, s) := read_bytes s frag_len in
  let frag := mkFrag (frag_hdr frag) (splice (fragment frag) (Z.to_nat frag_off) bs) (reassembly frag) in
  let store s f := if item then with_buffered s (set_data (buffered s) prio f) else s in
  let i := if negb (u64 i =? frag_len) then -1 else i in
  if i <=? 0 then (i, false, store s frag)
  else
    let m := RSMBLY_BITMASK_MARK m frag_off (frag_off + frag_len) in
    let is_complete := RSMBLY_BITMASK_IS_COMPLETE m (hm_msg_len msg_hdr) in
    let frag := mkFrag (frag_hdr frag) (fragment frag) (if is_complete then None else Some m) in
    let s := store s frag in
    if item then (DTLS1_HM_FRAGMENT_RETRY, ok, s)
    else
      match pitem_alloc prio frag with
      | None => (-1, false, s)
      | Some it => (DTLS1_HM_FRAGMENT_RETRY, ok, with_buffered s (pqueue_insert (buffered s) it).2)
      end.

Definition dtls1_reassemble_fragment s (msg_hdr : hm_header) (ok : bool) : option (Z * bool * hs L) :=
  let frag_len := hm_frag_len msg_hdr in
  if (hm_msg_len msg_hdr <? hm_frag_off msg_hdr + frag_len)
     || (dtls1_max_handshake_message_len <? hm_msg_len msg_hdr) then Some (-1, false, s)
  else if frag_len =? 0 then Some (DTLS1_HM_FRAGMENT_RETRY, false, s)
  else
    match pqueue_find (buffered s) (seq64be (hm_seq msg_hdr)) with
    | None =>
        match dtls1_hm_fragment_new (hm_msg_len msg_hdr) true with
        | None => Some (-1, false, s)
        | Some frag =>
            let h := mkHM (hm_type msg_hdr) (hm_msg_len msg_hdr) (hm_seq msg_hdr) 0
                       (hm_msg_len msg_hdr) (hm_is_ccs msg_hdr) (hm_saved msg_hdr) in
            let frag := mkFrag h (fragment frag) (reassembly frag) in
            match reassembly frag with
            | None => Some (-1, false, s)   (* not reached: the fragment is new *)
            | Some m => Some (reassemble_body s msg_hdr false frag m ok)
            end
        end
    | Some item =>
        let frag := data item in
        if negb (hm_msg_len (frag_hdr frag) =? hm_msg_len msg_hdr) then Some (-1, false, s)
        else
          match reassembly frag with
          | None =>
              '(o, s) ← drain s frag_len (S (Z.to_nat frag_len));
              Some (match o with Some i => (i, false, s) | None => (DTLS1_HM_FRAGMENT_RETRY, false, s) end)
          | Some m => Some (reassemble_body s msg_hdr true frag m ok)
          end
    end.

Definition dtls1_process_out_of_seq_message s (msg_hdr : hm_header) (ok : bool) : option (Z * bool * hs L) :=
  let frag_len := hm_frag_len msg_hdr in
  if hm_msg_len msg_hdr <? hm_frag_off msg_hdr + frag_len then Some (-1, false, s)
  else
    let prio := seq64be (hm_seq msg_hdr) in
    let found := match pqueue_find (buffered s) prio with Some _ => true | None => false end in
    let item := found && (frag_len =? hm_msg_len msg_hdr) in
    if (hm_seq msg_hdr <=? read_seq s) || (read_seq s + 10 <? hm_seq msg_hdr) || item
       || ((read_seq s =? 0) && (hm_type msg_hdr =? SSL3_MT_FINISHED)) then
      '(o, s) ← drain s frag_len (S (Z.to_nat frag_len));
      Some (match o with Some i => (i, false, s) | None => (DTLS1_HM_FRAGMENT_RETRY, ok, s) end)
    else if negb (frag_len =? hm_msg_len msg_hdr) then dtls1_reassemble_fragment s msg_hdr ok
    else if dtls1_max_handshake_message_len <? frag_len then Some (-1, false, s)
    else
      match dtls1_hm_fragment_new frag_len false with
      | None => Some (-1, false, s)
      | Some frag =>
          (* the value of i, the bytes read into the fragment, the state *)
          let '(i, bs, s) :=
            if frag_len =? 0 then (-1, [], s)
            else let '(i, bs, s) := read_bytes s frag_len in
                 (if negb (u64 i =? frag_len) then -1 else i, bs, s) in
          if negb (frag_len =? 0) && (i <=? 0) then Some (i, false, s)
          else
            let frag := mkFrag msg_hdr (splice (fragment frag) 0 bs) (reassembly frag) in
            match pitem_alloc prio frag with
            | None => Some (i, false, s)
            | Some it => Some (DTLS1_HM_FRAGMENT_RETRY, ok, with_buffered s (pqueue_insert (buffered s) it).2)
            end
      end.

(** The label [f_err] of [dtls1_get_message_fragment]. *)
Definition fragment_error s (al : Z) : Z * bool * hs L :=
  (-1, false, with_init_num (ssl3_send_alert s al) 0).

(** One round of [dtls1_get_message_fragment]: a result, or the state with which to go on at the
    label [again]. *)
Definition message_fragment_step s (stn max : Z) : option (option (Z * bool * hs L) * hs L) :=
  let done r := Some (Some r, s) in
  '(frag_len, ok, s) ← dtls1_retrieve_buffered_fragment s max;
  if negb (frag_len =? 0) || ok then
    done (frag_len, ok, if ok then with_init_num s frag_len else s)
  else
    let '(i, wire, s) := read_bytes s DTLS1_HM_HEADER_LENGTH in
    if i <=? 0 then done (i, false, with_reading s)
    else
      match (if negb (i =? DTLS1_HM_HEADER_LENGTH) then None else dtls1_get_message_header wire) with
      | None => done (fragment_error s SSL_AD_UNEXPECTED_MESSAGE)
      | Some msg_hdr =>
          let len := hm_msg_len msg_hdr in
          let frag_off := hm_frag_off msg_hdr in
          let frag_len := hm_frag_len msg_hdr in
          if Z.of_nat (length (rrec_left (rl s))) <? frag_len then
            done (fragment_error s SSL_AD_ILLEGAL_PARAMETER)
          else if negb (hm_seq msg_hdr =? read_seq s) && negb (listen conf && (hm_seq msg_hdr =? 1)) then
            r ← dtls1_process_out_of_seq_message s msg_hdr ok; done r
          else if negb (frag_len =? 0) && (frag_len <? len) then
            r ← dtls1_reassemble_fragment s msg_hdr ok; done r
          else if negb (server conf) && (hm_frag_off (r_msg_hdr s) =? 0)
                  && (getb wire 0 =? SSL3_MT_HELLO_REQUEST) then
            if (getb wire 1 =? 0) && (getb wire 2 =? 0) && (getb wire 3 =? 0) then
              Some (None, with_init_num s 0)
            else done (fragment_error s SSL_AD_UNEXPECTED_MESSAGE)
          else
            let '(al, s) := dtls1_preprocess_fragment s msg_hdr max in
            if negb (al =? 0) then done (fragment_error s al)
            else
              let '(i, s) :=
                if 0 <? frag_len then
                  let '(i, bs, s) := read_bytes s frag_len in (i, store_body s frag_off bs)
                else (0, s) in
              if (0 <? frag_len) && (i <=? 0) then done (i, false, with_reading s)
              else if negb (i =? frag_len) then done (fragment_error s SSL_AD_ILLEGAL_PARAMETER)
              else done (frag_len, true, with_init_num (with_state s stn) frag_len)
      end.

(** [None] when the fuel does not suffice: every further round reads a header. *)
Fixpoint dtls1_get_message_fragment s (stn max : Z) (fuel : nat) : option (Z * bool * hs L) :=
  match fuel with
  | O => None
  | S fuel' =>
      match message_fragment_step s stn max with
      | None => None
      | Some (Some r, _) => Some r
      | Some (None, s) => dtls1_get_message_fragment s stn max fuel'
      end
  end.

(** The label [f_err] of [dtls1_get_message]. *)
Definition message_error s (al : Z) : Z * bool * hs L := (-1, false, ssl3_send_alert s al).

(** What follows the loop of [dtls1_get_message]: the header is rebuilt in front of the body, the
    message enters the handshake hash and the sequence number moves on. *)
Definition message_done s (ok : bool) (msg_type : Z) : Z * bool * hs L :=
  let h := r_msg_hdr s in
  if (0 <=? msg_type) && negb (hm_type h =? msg_type) then message_error s SSL_AD_UNEXPECTED_MESSAGE
  else
    let msg_len := hm_msg_len h in
    let hdr := [hm_type h] ++ l2n3 msg_len ++ s2n (hm_seq h) ++ l2n3 0 ++ l2n3 msg_len in
    let b := init_buf s in
    let s := with_buf s (mkBUF (buf_length b) (splice (buf_data b) 0 hdr) (buf_max b)) in
    let s := tls1_finish_mac s
               (take (Z.to_nat (msg_len + DTLS1_HM_HEADER_LENGTH)) (buf_data (init_buf s))) in
    let s := with_r_msg_hdr s hm0 in
    (init_num s, ok,
     mkHS (rl s) (buffered s) (if listen conf then read_seq s else u16 (read_seq s + 1)) (r_msg_hdr s)
       (init_buf s) (init_num s) (message_size s) (message_type s) (reuse_message s) (ssl_state s)
       (rwstate s) (alerts s) (hash_input s)).

Fixpoint message_loop s (stn msg_type max : Z) (fuel : nat) : option (Z * bool * hs L) :=
  match fuel with
  | O => None
  | S fuel' =>
      match dtls1_get_message_fragment s stn max fuel with
      | None => None
      | Some (i, ok, s) =>
          if (i =? DTLS1_HM_BAD_FRAGMENT) || (i =? DTLS1_HM_FRAGMENT_RETRY) then
            message_loop s stn msg_type max fuel'
          else if (i <=? 0) && negb ok then Some (i, ok, s)
          else Some (message_done s ok msg_type)
      end
  end.

Definition dtls1_get_message s (stn msg_type max : Z) (fuel : nat) : option (Z * bool * hs L) :=
  if reuse_message s then
    let s := with_reuse s false in
    if (0 <=? msg_type) && negb (message_type s =? msg_type) then
      Some (message_error s SSL_AD_UNEXPECTED_MESSAGE)
    else Some (message_size s, true, with_init_num s (message_size s))
  else message_loop (with_r_msg_hdr s hm0) stn msg_type max fuel.
End receiver.

(** ** Reading *)

Section reading.
Context {L : Type} {RL : RecordLayer L}.
Implicit Types s : hs L.

Lemma deliver_cur (d rest : list Z) input : d ≠ [] →
  deliver (Z.of_nat (length d)) (d ++ rest) input = (Z.of_nat (length d), d, rest, input).
Proof.
  intros Hd. destruct d as [|x d]; [done|]. unfold deliver. cbn [app].
  replace (Z.min _ _) with (Z.of_nat (length (x :: d))) by (cbn; rewrite length_app; lia).
  rewrite Nat2Z.id. change (x :: d ++ rest) with ((x :: d) ++ rest).
  by rewrite take_app_length, drop_app_length.
Qed.

(** Reading bytes the current record has. *)
Lemma read_cur s (d rest : list Z) : d ≠ [] → rrec_left (rl s) = d ++ rest →
  ∃ l, read_bytes s (Z.of_nat (length d)) = (Z.of_nat (length d), d, with_rl s l) ∧
    rrec_left l = rest ∧ rl_input l = rl_input (rl s).
Proof.
  intros Hd E. unfold read_bytes.
  pose proof (ssl_read_bytes_spec (Z.of_nat (length d)) (rl s)) as H.
  destruct (ssl_read_bytes _ _) as [[i bs] l]. rewrite E, deliver_cur in H by done.
  destruct d; [done|]. specialize (H ltac:(cbn; lia)). injection H as <- <- E1 E2. by exists l.
Qed.

(** Reading from the next record. *)
Lemma read_next s (d rest : list Z) input : d ≠ [] → rrec_left (rl s) = [] →
  rl_input (rl s) = inr (d ++ rest) :: input →
  ∃ l, read_bytes s (Z.of_nat (length d)) = (Z.of_nat (length d), d, with_rl s l) ∧
    rrec_left l = rest ∧ rl_input l = input.
Proof.
  intros Hd E Ei. unfold read_bytes.
  pose proof (ssl_read_bytes_spec (Z.of_nat (length d)) (rl s)) as H.
  destruct (ssl_read_bytes _ _) as [[i bs] l]. rewrite E, Ei in H.
  assert (deliver (Z.of_nat (length d)) [] (inr (d ++ rest) :: input)
          = deliver (Z.of_nat (length d)) (d ++ rest) input) as Ed by (destruct d; done).
  rewrite Ed, deliver_cur in H by done.
  destruct d; [done|]. specialize (H ltac:(cbn; lia)). injection H as <- <- E1 E2. by exists l.
Qed.

(** A read that finds no record. *)
Lemma read_fails s len : 0 < len → rrec_left (rl s) = [] →
  match rl_input (rl s) with
  | [] => ∃ l, read_bytes s len = (-1, [], with_rl s l) ∧ rrec_left l = [] ∧ rl_input l = []
  | inl n :: input =>
      ∃ l, read_bytes s len = (- Z.of_nat n, [], with_rl s l) ∧ rrec_left l = [] ∧ rl_input l = input
  | inr _ :: _ => True
  end.
Proof.
  intros Hl E. unfold read_bytes. pose proof (ssl_read_bytes_spec len (rl s) Hl) as H.
  destruct (ssl_read_bytes _ _) as [[i bs] l]. rewrite E in H.
  destruct (rl_input (rl s)) as [|[code|rec] input]; [..|done]; cbn in H; injection H as <- <- E1 E2; by exists l.
Qed.

Lemma with_rl_id s : with_rl s (rl s) = s.
Proof. by destruct s. Qed.
Lemma with_rl_twice s l l' : with_rl (with_rl s l) l' = with_rl s l'.
Proof. done. Qed.

(** The loop into [devnull] consumes the fragment. *)
Lemma drain_spec fuel : ∀ s (d rest : list Z), rrec_left (rl s) = d ++ rest → (length d < fuel)%nat →
  ∃ l, drain s (Z.of_nat (length d)) fuel = Some (None, with_rl s l) ∧
    rrec_left l = rest ∧ rl_input l = rl_input (rl s).
Proof.
  induction fuel as [|fuel IH]; intros s d rest E Hf; [lia|]. cbn [drain].
  destruct (Z.eqb_spec (Z.of_nat (length d)) 0) as [H0|H0].
  { destruct d; [|cbn in H0; lia]. exists (rl s). by rewrite with_rl_id. }
  set (n := if 256 <? Z.of_nat (length d) then 256 else Z.of_nat (length d)).
  assert (1 ≤ n ≤ Z.of_nat (length d)) as Hn by (unfold n; case_cmp; lia).
  destruct (split_at d (Z.to_nat n)) as (d1 & d2 & -> & L1 & L2); [lia|].
  destruct (read_cur s d1 (d2 ++ rest)) as (l & R & E1 & E2).
  { intros ->. cbn in L1. lia. }
  { by rewrite E, app_assoc. }
  replace (Z.of_nat (length d1)) with n in R by lia. rewrite R.
  rewrite (proj2 (Z.leb_gt _ _)) by lia.
  destruct (IH (with_rl s l) d2 rest) as (l' & R' & E1' & E2'); [done|len|].
  exists l'. replace (Z.of_nat (length (d1 ++ d2)) - n) with (Z.of_nat (length d2)) by len.
  rewrite R'. split; [done|]. split; [done|]. by rewrite E2', <- E2.
Qed.
End reading.

(** ** Termination *)

(** What is left to read: bytes and inputs. *)
Definition input_size (input : list (nat + list Z)) : nat :=
  sum_list_with (λ e, match e with inl _ => 1 | inr r => S (length r) end)%nat input.

Section termination.
Context {L : Type} {RL : RecordLayer L}.
Implicit Types s : hs L.

Definition unread s : nat := (length (rrec_left (rl s)) + input_size (rl_input (rl s)))%nat.

(** All that is to be read is bytes. *)
Definition input_bytes s : Prop :=
  bytes (rrec_left (rl s)) ∧
  Forall (λ e, match e with inl _ => True | inr r => bytes r end) (rl_input (rl s)).

(** A read never makes the input longer, and one that returns more than "nothing" or an error
    shortens it. *)
Lemma read_bytes_unread s len i bs s' : 0 < len → read_bytes s len = (i, bs, s') →
  (unread s' ≤ unread s)%nat ∧ (i ≠ 0 → i ≠ -1 → (unread s' < unread s)%nat) ∧
  (input_bytes s → input_bytes s' ∧ bytes bs) ∧ ∃ l, s' = with_rl s l.
Proof.
  intros Hl. unfold read_bytes, unread, input_bytes. pose proof (ssl_read_bytes_spec len (rl s) Hl) as H.
  destruct (ssl_read_bytes _ _) as [[i' bs'] l]. intros [= <- <- <-].
  cbn [rl with_rl]. revert H. unfold deliver, input_size. 
  destruct (rrec_left (rl s)) as [|x cur]; [destruct (rl_input (rl s)) as [|[code|rec] input]|];
    cbn [sum_list_with]; intros [= <- <- E1 <-]; rewrite <- E1.
  - repeat split; try lia; eauto; tauto.
  - repeat split; try (cbn; lia); eauto. destruct H as [_ H]. by apply Forall_cons in H as [_ H].
  - split; [len|]. split; [intros; len|]. split; [|by eauto]. intros [_ H].
    apply Forall_cons in H as [H1 H2]. auto with vtls.
  - split; [len|]. split; [intros; len|]. split; [|by eauto]. intros [H1 H2]. auto with vtls.
Qed.

(** [s'] has no more input than [s] and at most [k] more buffered messages. *)
Definition no_more (k : nat) s s' : Prop :=
  (unread s' ≤ unread s)%nat ∧ (length (buffered s') ≤ length (buffered s) + k)%nat ∧
  (input_bytes s → input_bytes s').

Lemma no_more_same k s s' : rl s' = rl s → (length (buffered s') ≤ length (buffered s) + k)%nat →
  no_more k s s'.
Proof. intros Er Hb. unfold no_more, unread, input_bytes. rewrite Er. done. Qed.

Lemma no_more_refl k s : no_more k s s.
Proof. apply no_more_same; [done|lia]. Qed.

Lemma no_more_weaken s s' : no_more 0 s s' → no_more 1 s s'.
Proof. intros (? & ? & ?). split; [done|]. split; [lia|done]. Qed.

Lemma no_more_read k s s1 s2 len i bs : 0 < len → read_bytes s len = (i, bs, s1) →
  no_more k s1 s2 → no_more k s s2.
Proof.
  intros Hl E (H1 & H2 & H3). apply read_bytes_unread in E as (H & _ & Hb & l & ->); [|done].
  cbn [buffered with_rl] in H2. split; [lia|]. split; [done|]. intros. by apply H3, Hb.
Qed.

Lemma length_set_data {D} (q : pqueue D) prio d : length (set_data q prio d) = length q.
Proof. induction q as [|i q IH]; cbn; [done|]. case_match; cbn; by rewrite ?IH. Qed.

Lemma length_insert_loop {D} (q : pqueue D) it q' : insert_loop q it = Some q' →
  length q' = S (length q).
Proof.
  revert q'. induction q as [|n q IH]; intros q'; cbn; [by intros [= <-]|].
  repeat case_match; intros [= <-]; cbn; [done|]. f_equal. by apply IH.
Qed.

Lemma length_pqueue_insert {D} (q : pqueue D) it :
  (length (pqueue_insert q it).2 ≤ length q + 1)%nat.
Proof.
  unfold pqueue_insert. destruct q as [|n q]; [cbn; lia|].
  destruct (insert_loop _ _) as [q'|] eqn:E; [|cbn; lia].
  apply length_insert_loop in E. cbn [snd]. lia.
Qed.

(** A round that is followed by another takes a message from the queue. *)
Lemma drop_stale_total q rseq fuel : (length q < fuel)%nat → ∃ q', drop_stale q rseq fuel = Some q' ∧ (length q' ≤ length q)%nat.
Proof.
  revert q. induction fuel as [|fuel IH]; intros q Hf; [lia|]. cbn [drop_stale].
  destruct q as [|it q]; cbn; [by eauto|]. case_match; [|by eauto]. destruct (IH q) as (q' & -> & ?); [cbn in Hf; lia|]. exists q'. split; [done|lia].
Qed.

(** A read returns at most the bytes asked for. *)
Lemma read_bytes_le s len i bs s' : 0 < len → read_bytes s len = (i, bs, s') → i ≤ len.
Proof.
  intros Hl. unfold read_bytes. pose proof (ssl_read_bytes_spec len (rl s) Hl) as H.
  destruct (ssl_read_bytes _ _) as [[i' bs'] l]. intros [= <- <- <-]. revert H. unfold deliver.
  destruct (rrec_left (rl s)) as [|x cur]; [destruct (rl_input (rl s)) as [|[n|rec] input]|];
    intros [= <- <- E1 E2]; lia.
Qed.

(** A round that is followed by another reads a byte. *)
Lemma drain_total fuel : ∀ s frag_len, 0 ≤ frag_len < Z.of_nat fuel → ∃ o s', drain s frag_len fuel = Some (o, s') ∧ no_more 0 s s'.
Proof.
  induction fuel as [|fuel IH]; intros s frag_len Hf; [lia|]. cbn [drain].
  destruct (Z.eqb_spec frag_len 0); [eauto using no_more_refl|].
  destruct (read_bytes _ _) as [[i bs] s1] eqn:E.
  assert (0 < (if 256 <? frag_len then 256 else frag_len) ≤ frag_len) as Hl by (case_cmp; lia).
  pose proof (read_bytes_le _ _ _ _ _ (proj1 Hl) E) as Hi.
  destruct (Z.leb_spec i 0); [eexists _, _; split; [done|]; eapply no_more_read; [apply Hl|exact E|apply no_more_refl]|].
  destruct (IH s1 (frag_len - i)) as (o & s' & -> & Hn); [lia|]. eexists _, _. split; [done|]. eapply no_more_read; [apply Hl|exact E|done].
Qed.

Context (malloc : nat → option (list Z)) (conf : hs_conf).

(** The header fields that come from the wire are not negative. *)
Definition hm_nonneg (h : hm_header) : Prop := 0 ≤ hm_frag_len h.

Lemma preprocess_keeps s h max al s' : dtls1_preprocess_fragment malloc s h max = (al, s') →
  rl s' = rl s ∧ buffered s' = buffered s.
Proof. unfold dtls1_preprocess_fragment. intros. by repeat case_match; simplify_eq. Qed.

Lemma reassemble_body_no_more s h item frag m ok : 0 < hm_frag_len h →
  no_more 1 s (reassemble_body malloc s h item frag m ok).2.
Proof.
  intros Hf. unfold reassemble_body. destruct (read_bytes _ _) as [[i bs] s1] eqn:E.
  eapply no_more_read; [exact Hf|exact E|].
  assert (∀ f, no_more 1 s1 (if item then with_buffered s1 (set_data (buffered s1)
    (seq64be (hm_seq h)) f) else s1)) as Hst.
  { intros f. destruct item; [|apply no_more_refl]. apply no_more_same; [done|].
    cbn. rewrite length_set_data. lia. }
  destruct (_ <=? 0); [apply Hst|]. destruct item; [apply Hst|].
  destruct (pitem_alloc _ _ _); [|apply no_more_refl]. apply no_more_same; [done|]. apply length_pqueue_insert.
Qed.

(** The function returns, with no more to do than before. *)
Definition returns s (r : option (Z * bool * hs L)) : Prop := ∃ i ok s', r = Some (i, ok, s') ∧ no_more 1 s s'.

Lemma returns_refl s i ok : returns s (Some (i, ok, s)).
Proof. eexists _, _, _. split; [done|apply no_more_refl]. Qed.

Lemma returns_some s r : no_more 1 s r.2 → returns s (Some r).
Proof. destruct r as [[i ok] s']. intros. by eexists _, _, _. Qed.

Lemma returns_drain s frag_len (f : option Z → hs L → Z * bool * hs L) : 0 ≤ frag_len → (∀ o s', (f o s').2 = s') →
  returns s ('(o, s') ← drain s frag_len (S (Z.to_nat frag_len)); Some (f o s')).
Proof.
  intros Hf H2. destruct (drain_total (S (Z.to_nat frag_len)) s frag_len) as (o & s' & -> & Hn%no_more_weaken); [lia|].
  apply returns_some. by rewrite H2.
Qed.

Lemma reassemble_no_more s h ok : hm_nonneg h → returns s (dtls1_reassemble_fragment malloc conf s h ok).
Proof.
  unfold hm_nonneg. intros Hf. unfold dtls1_reassemble_fragment.
  destruct (_ || _); [apply returns_refl|].
  destruct (Z.eqb_spec (hm_frag_len h) 0); [apply returns_refl|].
  destruct (pqueue_find _ _) as [it|].
  - destruct (negb _); [apply returns_refl|].
    destruct (reassembly (data it)); [apply returns_some, reassemble_body_no_more; lia|].
    apply (returns_drain s (hm_frag_len h) (λ o s, match o with Some i => (i, false, s) | None => (DTLS1_HM_FRAGMENT_RETRY, false, s) end)); [done|]. by intros [].
  - destruct (dtls1_hm_fragment_new _ _ _) as [f|]; [|apply returns_refl].
    cbn [reassembly]. destruct (reassembly f); [|apply returns_refl].
    apply returns_some, reassemble_body_no_more. lia.
Qed.

Lemma out_of_seq_no_more s h ok : hm_nonneg h → returns s (dtls1_process_out_of_seq_message malloc conf s h ok).
Proof.
  intros Hf. unfold dtls1_process_out_of_seq_message.
  destruct (_ <? _); [apply returns_refl|]. destruct (_ || _).
  { apply (returns_drain s (hm_frag_len h) (λ o s, match o with Some i => (i, false, s) | None => (DTLS1_HM_FRAGMENT_RETRY, ok, s) end)); [done|]. by intros []. }
  destruct (negb (hm_frag_len h =? hm_msg_len h)); [by apply reassemble_no_more|].
  destruct (_ <? _); [apply returns_refl|].
  destruct (dtls1_hm_fragment_new _ _ _) as [f|]; [|apply returns_refl].
  destruct (Z.eqb_spec (hm_frag_len h) 0) as [E0|E0].
  - cbn [negb andb]. destruct (pitem_alloc _ _ _); [|apply returns_refl].
    apply returns_some, no_more_same; [done|]. apply length_pqueue_insert.
  - destruct (read_bytes _ _) as [[i bs] s1] eqn:E. unfold hm_nonneg in Hf.
    assert (∀ r, no_more 1 s1 r.2 → returns s (Some r)) as Hr.
    { intros r H. apply returns_some. eapply no_more_read with (len := hm_frag_len h); [lia|exact E|done]. }
    destruct (negb false && _); [apply Hr, no_more_refl|].
    destruct (pitem_alloc _ _ _); [|apply Hr, no_more_refl].
    apply Hr, no_more_same; [done|]. apply length_pqueue_insert.
Qed.

(** The measure of the loops: a header takes more from the input than a message adds to the
    buffer. *)
Definition pending s : nat := (2 * unread s + length (buffered s))%nat.

Lemma no_more_pending s s1 s2 : (unread s1 < unread s)%nat → length (buffered s1) = length (buffered s) →
  no_more 1 s1 s2 → (pending s2 < pending s)%nat.
Proof. intros ? ? (? & ? & _). unfold pending. lia. Qed.

Lemma retrieve_pending s max : ∃ i ok s',
  dtls1_retrieve_buffered_fragment malloc s max = Some (i, ok, s') ∧
  rl s' = rl s ∧ (length (buffered s') ≤ length (buffered s))%nat ∧
  (if ok then (length (buffered s') < length (buffered s))%nat else i = 0 ∨ i = -1).
Proof.
  unfold dtls1_retrieve_buffered_fragment.
  destruct (drop_stale_total (buffered s) (read_seq s) (S (length (buffered s)))) as (q' & -> & Hd); [lia|].
  cbn [mbind option_bind]. set (s1 := with_buffered s _).
  assert (rl s1 = rl s) as Hr by done. assert (buffered s1 = q') as Hb by done.
  assert (∀ i, i = 0 ∨ i = -1 → ∃ i' ok s', Some (i, false, s1) = Some (i', ok, s') ∧ rl s' = rl s ∧ (length (buffered s') ≤ length (buffered s))%nat ∧
    (if ok then (length (buffered s') < length (buffered s))%nat else i' = 0 ∨ i' = -1)) as Hno by (intros i Hi; exists i, false, s1; rewrite Hb; auto).
  destruct (buffered s1) as [|it q] eqn:Eq; cbn [pqueue_peek head]; [apply Hno; auto|].
  destruct (reassembly _); [apply Hno; auto|].
  destruct (_ =? _); [|apply Hno; auto].
  destruct (dtls1_preprocess_fragment _ _ _ _) as [al s2] eqn:E.
  apply preprocess_keeps in E as [Er Eb]. rewrite <- Hb in Hd. cbn [pqueue_pop snd tail length] in *.
  destruct (_ =? _); (eexists _, _, _; split; [reflexivity|]); cbn [rl buffered store_body with_buf with_init_num ssl3_send_alert];
    rewrite Er, Eb; cbn [rl buffered with_buffered]; (split; [done|]); split; auto; lia.
Qed.

(** The length a header on the wire gives is not negative. *)
Lemma get_u24_nonneg cbs v r : bytes cbs → CBS_get_u24 cbs = (Some v, r) → 0 ≤ v ∧ bytes r.
Proof.
  intros Hb E. apply cbs_get_u_Some in E as (d & -> & _ & ->); [|done|lia].
  apply Forall_app in Hb as [Hd Hr]. split; [|done]. pose proof (be_load_bound d Hd). lia.
Qed.

Lemma get_message_header_nonneg data h : bytes data → dtls1_get_message_header data = Some h → hm_nonneg h.
Proof.
  unfold dtls1_get_message_header, CBS_init, hm_nonneg. intros Hb%(bytes_take (Z.to_nat sizeof_hm_header)).
  revert Hb. generalize (take (Z.to_nat sizeof_hm_header) data). intros l Hl.
  destruct l as [|x l]; [done|]. rewrite CBS_get_u8_cons. apply bytes_cons_inv in Hl as [_ Hl].
  destruct (CBS_get_u24 l) as [[v1|] l1] eqn:E1; [|done]. apply get_u24_nonneg in E1 as [_ H1]; [|done].
  destruct (CBS_get_u16 l1) as [[v2|] l2] eqn:E2; [|done].
  assert (bytes l2) as H2.
  { unfold CBS_get_u16 in E2. destruct (cbs_get_u 2 l1) as [[v|] r] eqn:E; [|done].
    injection E2 as _ <-. apply cbs_get_u_Some in E as (d & -> & _); [|done|lia].
    by apply Forall_app in H1 as [_ H1]. }
  destruct (CBS_get_u24 l2) as [[v3|] l3] eqn:E3; [|done]. apply get_u24_nonneg in E3 as [_ H3]; [|done].
  destruct (CBS_get_u24 l3) as [[v4|] l4] eqn:E4; [|done]. apply get_u24_nonneg in E4 as [H4 _]; [|done].
  by intros [= <-].
Qed.

(** What a round leaves when it is followed by another. *)
Definition shrinks s s' : Prop := (pending s' < pending s)%nat ∧ (input_bytes s → input_bytes s').

Lemma shrinks_after_header s s1 s2 : (unread s1 < unread s)%nat →
  (length (buffered s1) ≤ length (buffered s))%nat → (input_bytes s → input_bytes s1) →
  no_more 1 s1 s2 → shrinks s s2.
Proof. intros ? ? ? (? & ? & ?). split; [unfold pending; lia|auto]. Qed.

(** Every round that is followed by another leaves less to do. *)
Lemma step_pending s stn max : input_bytes s →
  match message_fragment_step malloc conf s stn max with
  | None => False
  | Some (None, s') => shrinks s s'
  | Some (Some (i, ok, s'), _) => i ≠ 0 → i ≠ -1 → shrinks s s'
  end.
Proof.
  intros Hin. unfold message_fragment_step.
  destruct (retrieve_pending s max) as (fl & ok & s1 & -> & Er & Eb & Eo). cbn [mbind option_bind].
  assert (no_more 0 s s1) as Hm by (apply no_more_same; [done|lia]).
  destruct ok; [rewrite orb_true_r|rewrite orb_false_r].
  { intros _ _. split; [|apply Hm]. unfold pending, unread. cbn [rl buffered with_init_num]. rewrite Er. lia. }
  destruct (Z.eqb_spec fl 0) as [->|]; cbn [negb]; [|intros; destruct Eo; done].
  destruct (read_bytes s1 DTLS1_HM_HEADER_LENGTH) as [[i wire] s2] eqn:E.
  apply read_bytes_unread in E as (H1 & H2 & H3 & l & ->); [|done].
  destruct H3 as [H3 Hw]; [by apply Hm|]. destruct Hm as (Hm1 & Hm2 & _).
  set (s2 := with_rl s1 l) in *.
  destruct (Z.leb_spec i 0).
  { intros Hi1 Hi2. specialize (H2 Hi1 Hi2).
    apply (shrinks_after_header s s2); [lia|cbn; lia|done|]. by apply no_more_same; [|cbn; lia]. }
  specialize (H2 ltac:(lia) ltac:(lia)).
  pose proof (λ s3, shrinks_after_header s s2 s3 ltac:(lia) ltac:(cbn; lia) ltac:(done)) as Hs.
  destruct (negb (i =? DTLS1_HM_HEADER_LENGTH)); [done|].
  destruct (dtls1_get_message_header wire) as [h|] eqn:Eh; [|done].
  apply get_message_header_nonneg in Eh; [|done].
  destruct (_ <? _); [done|]. destruct (_ && _).
  { destruct (out_of_seq_no_more s2 h false Eh) as (i' & ok' & s' & -> & Hn). intros _ _. by apply Hs. }
  destruct (negb (hm_frag_len h =? 0) && _).
  { destruct (reassemble_no_more s2 h false Eh) as (i' & ok' & s' & -> & Hn). intros _ _. by apply Hs. }
  destruct (_ && _ && _).
  { destruct (_ && _ && _); [|done]. apply Hs. by apply no_more_same; [|cbn; lia]. }
  destruct (dtls1_preprocess_fragment _ _ _ _) as [al s3] eqn:E. apply preprocess_keeps in E as [Er3 Eb3].
  destruct (negb _); [done|].
  destruct (Z.ltb_spec 0 (hm_frag_len h)).
  - destruct (read_bytes s3 (hm_frag_len h)) as [[i3 bs3] s4] eqn:E4.
    assert (∀ s5, rl s5 = rl s4 → buffered s5 = buffered s4 → shrinks s s5) as Hs5.
    { intros s5 E5 E5'. apply Hs. apply read_bytes_unread in E4 as (G1 & _ & G3 & l4 & ->); [|done].
      unfold no_more, unread, input_bytes in *. rewrite E5, E5'. rewrite Er3 in G1, G3. cbn [rl with_rl buffered] in *.
      split; [done|]. rewrite Eb3. split; [cbn; lia|]. intros. by apply G3. }
    cbn [andb]. destruct (_ <=? 0); [intros; by apply Hs5|]. destruct (negb _); [done|]. intros; by apply Hs5.
  - cbn [andb]. destruct (negb _); [done|]. intros _ _. apply Hs. by apply no_more_same; [|cbn; rewrite Eb3; cbn; lia].
Qed.

Lemma get_message_fragment_total fuel : ∀ s stn max, input_bytes s → (pending s < fuel)%nat →
  ∃ i ok s', dtls1_get_message_fragment malloc conf s stn max fuel = Some (i, ok, s') ∧
    (i ≠ 0 → i ≠ -1 → shrinks s s').
Proof.
  induction fuel as [|fuel IH]; intros s stn max Hin Hf; [lia|]. cbn [dtls1_get_message_fragment].
  pose proof (step_pending s stn max Hin) as H.
  destruct (message_fragment_step _ _ _ _ _) as [[[[[i ok] s']|] s1]|]; [by eauto 10| |done].
  destruct H as [H1 H2]. destruct (IH s1 stn max) as (i & ok & s' & E & Hs); [auto|lia|].
  exists i, ok, s'. split; [done|]. intros Hi Hj. destruct (Hs Hi Hj). split; [lia|auto].
Qed.

Lemma message_loop_total fuel : ∀ s stn msg_type max, input_bytes s → (pending s < fuel)%nat →
  is_Some (message_loop malloc conf s stn msg_type max fuel).
Proof.
  induction fuel as [|fuel IH]; intros s stn msg_type max Hin Hf; [lia|]. cbn [message_loop].
  destruct (get_message_fragment_total (S fuel) s stn max Hin Hf) as (i & ok & s' & -> & Hs).
  destruct ((i =? DTLS1_HM_BAD_FRAGMENT) || _) eqn:E; [|destruct (_ && _); eauto].
  assert (i ≠ 0 ∧ i ≠ -1) as [Hi Hj].
  { apply orb_true_iff in E as [E%Z.eqb_eq|E%Z.eqb_eq]; rewrite E; done. }
  destruct (Hs Hi Hj). apply IH; [auto|lia].
Qed.

End termination.

(** A receiver that has just started, with the given input. *)
Definition fresh_hs (input : list (nat + list Z)) : hs dtls_reader :=
  mkHS (mkReader [] input) [] 0 hm0 BUF_MEM_new 0 0 0 false 0 0 [] [].

Definition client_conf : hs_conf := mkConf false false 102400.

