(* ===== verification/DtlsDeliver.v ===== *)
(** * DTLS handshake messages: the peer's messages are delivered in order

    The specification of the receiver in [DtlsFrag]: the peer has a table of
    messages by sequence number, every record that arrives holds whole fragments of
    these messages ([wire]), and fragments come in any order, with overlaps, gaps
    and repetitions.  [receiving] is the invariant of the receiver: the queue holds
    messages that are complete and right or partly received, with a mask that marks
    only bytes that are right. *)

From S2P Require Import Prelude Cbs Pqueue Buffer DtlsHeader DtlsFrag.
From stdpp Require Import gmap.
#[local] Open Scope Z_scope.

Lemma getb_splice (l src : list Z) off i : (off + length src ≤ length l)%nat → 0 ≤ i →
  getb (splice l off src) i =
  if decide (Z.of_nat off ≤ i < Z.of_nat off + Z.of_nat (length src)) then getb src (i - Z.of_nat off)
  else getb l i.
Proof.
  intros Hl Hi. unfold splice. case_decide as Hd.
  - rewrite getb_app_r by len. rewrite getb_app_l by len. f_equal. len.
  - destruct (Z.lt_ge_cases i (Z.of_nat off)).
    + rewrite getb_app_l by len. apply getb_take. lia.
    + rewrite app_assoc, getb_app_r by len. rewrite getb_drop by len. f_equal. len.
Qed.

Section peer.
(** Type and body of the message with a sequence number. *)
Context (msgs : Z → Z * list Z).

Definition mtype (q : Z) : Z := (msgs q).1.
Definition body (q : Z) : list Z := (msgs q).2.
Definition blen (q : Z) : Z := Z.of_nat (length (body q)).

Record afrag := mkAF { af_seq : Z; af_off : Z; af_len : Z }.

Definition af_hdr (f : afrag) : hm_header :=
  mkHM (mtype (af_seq f)) (blen (af_seq f)) (af_seq f) (af_off f) (af_len f) 0 rs0.
Definition af_bytes (f : afrag) : list Z :=
  take (Z.to_nat (af_len f)) (drop (Z.to_nat (af_off f)) (body (af_seq f))).
Definition wire (f : afrag) : list Z := dtls1_write_message_header (af_hdr f) ++ af_bytes f.

(** A fragment lies inside its message; only an empty message has an empty fragment. *)
Definition af_ok (f : afrag) : Prop :=
  0 ≤ af_seq f < 2 ^ 16 ∧ 0 ≤ af_off f ∧ 0 ≤ af_len f ∧ af_off f + af_len f ≤ blen (af_seq f) ∧
  (af_len f = 0 → blen (af_seq f) = 0).

Definition covers (f : afrag) (i : Z) : Prop := af_off f ≤ i < af_off f + af_len f.

(** The header of the whole message, as it enters the handshake hash. *)
Definition whole_hdr (q : Z) : hm_header := mkHM (mtype q) (blen q) q 0 (blen q) 0 rs0.

Context (conf : hs_conf) (max : Z).

Definition msg_ok (q : Z) : Prop :=
  is_byte (mtype q) ∧ mtype q ≠ SSL3_MT_HELLO_REQUEST ∧ bytes (body q) ∧ blen q < 2 ^ 24 ∧
  blen q ≤ max ∧ blen q ≤ dtls1_max_handshake_message_len conf.

Context (Hmsgs : ∀ q, 0 ≤ q < 2 ^ 16 → msg_ok q) (Hmax : max < 2 ^ 31).

(** ** Fragments *)

Lemma length_af_bytes f : af_ok f → Z.of_nat (length (af_bytes f)) = af_len f.
Proof. intros (? & ? & ? & ? & _). unfold af_bytes, blen in *. len. Qed.

Lemma getb_af_bytes f i : af_ok f → 0 ≤ i < af_len f →
  getb (af_bytes f) i = getb (body (af_seq f)) (af_off f + i).
Proof.
  intros (? & ? & ? & ? & _) Hi. unfold af_bytes. rewrite getb_take, getb_drop by lia. f_equal. lia.
Qed.

Lemma bytes_af_bytes f : af_ok f → bytes (af_bytes f).
Proof. intros (H & _). destruct (Hmsgs _ H) as (_ & _ & ? & _). unfold af_bytes. auto with vtls. Qed.

Lemma af_hdr_wf f : af_ok f → hm_wf (af_hdr f).
Proof.
  intros (H & ? & ? & ? & _). destruct (Hmsgs _ H) as (? & _ & _ & ? & _).
  unfold hm_wf, blen, is_byte in *. cbn [af_hdr hm_type hm_msg_len hm_seq hm_frag_off hm_frag_len].
  unfold blen. lia.
Qed.

Lemma get_af_hdr f : af_ok f →
  dtls1_get_message_header (dtls1_write_message_header (af_hdr f)) = Some (af_hdr f).
Proof.
  intros Hf. pose proof (get_write_message_header (af_hdr f) [] (af_hdr_wf f Hf)) as E.
  by rewrite app_nil_r in E.
Qed.

(** A message that is partly received: the mask marks only bytes of the message that are right. *)
Record partial (q : Z) (frag m : list Z) : Prop := {
  pt_bytes : bytes frag;
  pt_length : Z.of_nat (length frag) = blen q;
  pt_mask : bytes m;
  pt_size : Z.of_nat (length m) = RSMBLY_BITMASK_SIZE (blen q);
  pt_beyond : ∀ i, blen q ≤ i → marked m i = false;
  pt_right : ∀ i, 0 ≤ i < blen q → marked m i = true → getb frag i = getb (body q) i
}.

Lemma mask_size n : 0 ≤ n → n ≤ 8 * RSMBLY_BITMASK_SIZE n.
Proof.
  intros. unfold RSMBLY_BITMASK_SIZE. pose proof (Z.div_mod (n + 7) 8 ltac:(lia)).
  pose proof (Z.mod_pos_bound (n + 7) 8 ltac:(lia)). lia.
Qed.

Lemma partial_start q buf n : 0 ≤ q < 2 ^ 16 → bytes buf → Z.of_nat (length buf) = blen q →
  Z.of_nat n = RSMBLY_BITMASK_SIZE (blen q) → partial q buf (replicate n 0).
Proof.
  intros Hq Hb Hl Hn. assert (0 ≤ blen q) by (unfold blen; lia).
  split; [done|done|auto with vtls|by len| |]; intros i Hi; rewrite marked_zeros by lia; done.
Qed.

Lemma partial_mark f frag m : af_ok f → 0 < af_len f → partial (af_seq f) frag m →
  let m' := RSMBLY_BITMASK_MARK m (af_off f) (af_off f + af_len f) in
  partial (af_seq f) (splice frag (Z.to_nat (af_off f)) (af_bytes f)) m' ∧
  ∀ i, 0 ≤ i → marked m' i = true ↔ marked m i = true ∨ covers f i.
Proof.
  intros Hf Hpos Hp. pose proof Hf as (Hq & H1 & H2 & H3 & _).
  pose proof (length_af_bytes f Hf) as Hl. destruct Hp as [P1 P2 P3 P4 P5 P6].
  assert (0 ≤ blen (af_seq f)) as Hb0 by (unfold blen; lia). pose proof (mask_size _ Hb0) as Hs.
  pose proof (λ i, mark_spec m (af_off f) (af_off f + af_len f) i ltac:(lia) ltac:(lia)) as M.
  destruct (M 0 ltac:(lia)) as [Ml _].
  assert (Hmk : ∀ i, 0 ≤ i → marked (RSMBLY_BITMASK_MARK m (af_off f) (af_off f + af_len f)) i = true ↔
    marked m i = true ∨ covers f i).
  { intros i Hi. destruct (M i Hi) as [_ ->]. unfold covers. rewrite orb_true_iff, andb_true_iff, Z.leb_le, Z.ltb_lt. done. }
  split; [|done]. split.
  - apply bytes_splice; [done|by apply bytes_af_bytes].
  - rewrite length_splice by lia. done.
  - by apply mark_bytes.
  - by rewrite Ml.
  - intros i Hi. destruct (M i ltac:(lia)) as [_ ->]. rewrite P5 by done.
    cbn. case_cmp; cbn; lia || done.
  - intros i Hi Hm%Hmk; [|lia]. rewrite getb_splice by lia. case_decide as Hd.
    + rewrite getb_af_bytes by (done || lia). f_equal. lia.
    + destruct Hm as [Hm|Hc]; [by apply P6|]. unfold covers in Hc. lia.
Qed.

Lemma partial_complete q frag m : 0 ≤ q < 2 ^ 16 → 0 < blen q → partial q frag m →
  RSMBLY_BITMASK_IS_COMPLETE m (blen q) = true ↔ ∀ i, 0 ≤ i < blen q → marked m i = true.
Proof.
  intros Hq Hpos [P1 P2 P3 P4 P5 P6]. apply complete_spec; [done|done| |done].
  rewrite P4. apply mask_size. lia.
Qed.

Lemma partial_body q frag m : partial q frag m → (∀ i, 0 ≤ i < blen q → marked m i = true) →
  frag = body q.
Proof.
  intros [P1 P2 P3 P4 P5 P6] H. apply list_eq_getb; [unfold blen in P2; lia|].
  intros i Hi. rewrite P2 in Hi. by apply P6; [|apply H].
Qed.

(** ** The queue *)

(** What a buffered fragment holds. *)
Definition frag_ok (fr : hm_fragment) : Prop :=
  let q := hm_seq (frag_hdr fr) in
  0 ≤ q < 2 ^ 16 ∧ frag_hdr fr = whole_hdr q ∧
  match reassembly fr with
  | None => fragment fr = body q
  | Some m => partial q (fragment fr) m ∧ ∃ i, 0 ≤ i < blen q ∧ marked m i = false
  end.

Definition item_ok (it : pitem hm_fragment) : Prop :=
  priority it = seq64be (hm_seq (frag_hdr (data it))) ∧ frag_ok (data it).

Definition queue_ok (q : pqueue hm_fragment) : Prop := pqueue_wf q ∧ Forall item_ok q.

Lemma seq64be_wf q : bytes (seq64be q) ∧ length (seq64be q) = 8%nat.
Proof. split; [|done]. apply Forall_app_2; [auto with vtls|apply bytes_s2n]. Qed.

Lemma be_load_seq64be q : 0 ≤ q < 2 ^ 16 → be_load (seq64be q) = q.
Proof.
  intros Hq. unfold seq64be. rewrite be_load_app by apply bytes_s2n.
  rewrite s2n_be_store, be_load_store, length_be_store, Z.mod_small by (cbn; lia).
  change (be_load (replicate 6 0)) with 0. lia.
Qed.

Lemma item_ok_key it : item_ok it → key it = hm_seq (frag_hdr (data it)).
Proof. intros [E (Hq & _)]. unfold key. rewrite E. by apply be_load_seq64be. Qed.

Lemma item_ok_wf it : item_ok it → item_wf it.
Proof. intros [E _]. unfold item_wf. rewrite E. apply seq64be_wf. Qed.

Lemma to_map_elem {D} (q : pqueue D) k it : to_map q !! k = Some it → it ∈ q ∧ key it = k.
Proof.
  intros H%elem_of_list_to_map_2. apply list_elem_of_fmap in H as (i & E & H). by simplify_eq.
Qed.

Lemma queue_lookup q k it : queue_ok q → to_map q !! k = Some it →
  item_ok it ∧ hm_seq (frag_hdr (data it)) = k.
Proof.
  intros [_ Hi] H. apply to_map_elem in H as [H E]. rewrite Forall_forall in Hi.
  specialize (Hi _ H). split; [done|]. by rewrite <- item_ok_key.
Qed.

Lemma queue_find q k : queue_ok q → 0 ≤ k < 2 ^ 16 → pqueue_find q (seq64be k) = to_map q !! k.
Proof.
  intros [Hw _] Hk. destruct (seq64be_wf k).
  rewrite pqueue_find_refines by done. by rewrite be_load_seq64be.
Qed.

Lemma insert_Forall {D} (P : pitem D → Prop) (q : pqueue D) it : Forall P q → P it →
  Forall P (pqueue_insert q it).2.
Proof.
  intros Hq Hi. unfold pqueue_insert. destruct q as [|n q]; [by constructor|].
  destruct (insert_loop (n :: q) it) as [q'|] eqn:E; [|done]. cbn [snd]. revert q' E.
  induction Hq as [|x l Hx Hl IH]; intros q'; cbn [insert_loop]; [intros [= <-]; by constructor|].
  destruct (_ <? _); [intros [= <-]; by repeat constructor|]. destruct (_ =? _); [done|].
  destruct (insert_loop l it) as [r|]; [|done]. intros [= <-]. constructor; [done|by apply IH].
Qed.

Lemma queue_insert q it : queue_ok q → item_ok it → to_map q !! key it = None →
  queue_ok (pqueue_insert q it).2 ∧ to_map (pqueue_insert q it).2 = <[key it := it]> (to_map q).
Proof.
  intros [Hw Hi] Hit Hn. pose proof (pqueue_insert_spec q it Hw (item_ok_wf _ Hit)) as H.
  rewrite Hn in H. destruct H as (q' & E & Hw' & Em).
  pose proof (insert_Forall item_ok q it Hi Hit) as Hf. rewrite E in *. by split.
Qed.

Lemma set_data_spec {D} (q : pqueue D) prio it d : pqueue_wf q → bytes prio → length prio = 8%nat →
  to_map q !! be_load prio = Some it →
  pqueue_wf (set_data q prio d) ∧
  to_map (set_data q prio d) = <[be_load prio := {| priority := priority it; data := d |}]> (to_map q) ∧
  (∀ P : pitem D → Prop, Forall P q → P {| priority := priority it; data := d |} →
     Forall P (set_data q prio d)).
Proof.
  intros Hw Hb Hl. induction q as [|i q IH]; [done|].
  destruct Hw as [Hi Hs]. apply Forall_cons in Hi as [Hi Hi']. inversion Hs as [|?? Hs' Hlt]; subst.
  cbn [set_data]. rewrite memcmp_key_prio by done. rewrite to_map_cons.
  destruct (Z.eqb_spec (Z.sgn (key i - be_load prio)) 0) as [E|E].
  - assert (key i = be_load prio) as Ek by lia. rewrite Ek, lookup_insert_eq. intros [= <-].
    split; [|split].
    + split; [by constructor|]. by constructor.
    + rewrite to_map_cons. unfold key at 1. cbn [priority]. fold (key i).
      by rewrite Ek, insert_insert_eq.
    + intros P [HP HP']%Forall_cons HPd. by constructor.
  - rewrite lookup_insert_ne by lia. intros H. destruct (IH (conj Hi' Hs') H) as (W & M & F).
    split; [|split].
    + split; [constructor; [done|apply W]|]. constructor; [apply W|].
      assert (∀ j, j ∈ set_data q prio d → ∃ j', j' ∈ q ∧ key j = key j') as Hj.
      { clear. induction q as [|x q IH]; cbn [set_data]; [intros j H; by apply elem_of_nil in H|].
        intros j Hj. destruct (_ =? _); apply elem_of_cons in Hj as [->|Hj];
          try (exists x; split; [by left|done]); [exists j; split; [by right|done]|].
        destruct (IH j Hj) as (j' & ? & ?). exists j'. split; [by right|done]. }
      apply Forall_forall. intros j (j' & Hj' & Ek)%Hj. rewrite Forall_forall in Hlt.
      unfold key_lt. rewrite Ek. by apply Hlt.
    + rewrite to_map_cons, M, insert_insert_ne by lia. done.
    + intros P [HP HP']%Forall_cons HPd. constructor; auto.
Qed.

Lemma queue_set q k it fr : queue_ok q → to_map q !! k = Some it → frag_ok fr →
  hm_seq (frag_hdr fr) = k →
  ∃ it', item_ok it' ∧ data it' = fr ∧
    queue_ok (set_data q (seq64be k) fr) ∧ to_map (set_data q (seq64be k) fr) = <[k := it']> (to_map q).
Proof.
  intros Hq Hit Hfr Hk. pose proof (queue_lookup _ _ _ Hq Hit) as [[Hp Hf] Hs].
  assert (0 ≤ k < 2 ^ 16) as Hr by (rewrite <- Hk; apply Hfr).
  destruct (seq64be_wf k) as [Hb Hl]. destruct Hq as [Hw Hi].
  destruct (set_data_spec q (seq64be k) it fr Hw Hb Hl) as (W & M & F); [by rewrite be_load_seq64be|].
  rewrite be_load_seq64be in M by done. exists {| priority := priority it; data := fr |}.
  assert (item_ok {| priority := priority it; data := fr |}) as Hok.
  { split; [|done]. cbn [priority data]. by rewrite Hp, Hs, Hk. }
  split; [done|]. split; [done|]. split; [|done]. split; [done|]. by apply F.
Qed.

Lemma queue_tail it q : queue_ok (it :: q) → queue_ok q ∧
  ∀ k, to_map (it :: q) !! k = if decide (k = key it) then Some it else to_map q !! k.
Proof.
  intros [[Hw Hs] Hi]. apply Forall_cons in Hw as [_ Hw]. apply Forall_cons in Hi as [_ Hi].
  inversion Hs; subst. split; [done|]. intros k. rewrite to_map_cons. case_decide as E.
  - subst. by rewrite lookup_insert_eq.
  - by rewrite lookup_insert_ne.
Qed.

Lemma queue_head_least it q k : queue_ok (it :: q) → k < key it → to_map (it :: q) !! k = None.
Proof.
  intros [[_ Hs] _] Hk. apply to_map_lookup_lt. inversion Hs as [|?? _ Hlt]; subst.
  constructor; [done|]. eapply Forall_impl; [done|]. unfold key_lt. cbn. lia.
Qed.

(** Discarding stale messages leaves the messages from the expected number on. *)
Lemma drop_stale_spec r fuel : ∀ q, queue_ok q → (length q < fuel)%nat →
  ∃ q', drop_stale q r fuel = Some q' ∧ queue_ok q' ∧ ∀ k, to_map q' !! k = if k <? r then None else to_map q !! k.
Proof.
  induction fuel as [|fuel IH]; intros q Hq Hf; [lia|]. cbn [drop_stale].
  destruct q as [|it q]; cbn [pqueue_peek pqueue_pop head tail snd].
  { eexists. split; [done|]. split; [done|]. intros. by case_cmp. }
  assert (hm_seq (frag_hdr (data it)) = key it) as Ek.
  { destruct Hq as [_ Hi]. apply Forall_cons in Hi as [Hi _]. by rewrite item_ok_key. }
  rewrite Ek. destruct (queue_tail it q Hq) as [Hq' Hm].
  destruct (Z.ltb_spec (key it) r).
  - cbn [length] in Hf. destruct (IH q Hq') as (q' & -> & H1 & H2); [lia|]. exists q'. split; [done|]. split; [done|]. intros k. rewrite H2, Hm.
    destruct (Z.ltb_spec k r); [done|]. by rewrite decide_False by lia.
  - eexists. split; [done|]. split; [done|]. intros k. destruct (Z.ltb_spec k r); [|done]. apply queue_head_least; [done|lia].
Qed.

(** Byte [i] has been received. *)
Definition has (fr : hm_fragment) (i : Z) : Prop :=
  match reassembly fr with None => True | Some m => marked m i = true end.

(** Adding a fragment to a message that is partly received. *)
Lemma frag_absorb f frag m : af_ok f → 0 < af_len f → partial (af_seq f) frag m →
  let m' := RSMBLY_BITMASK_MARK m (af_off f) (af_off f + af_len f) in
  let fr := mkFrag (whole_hdr (af_seq f)) (splice frag (Z.to_nat (af_off f)) (af_bytes f))
              (if RSMBLY_BITMASK_IS_COMPLETE m' (blen (af_seq f)) then None else Some m') in
  frag_ok fr ∧ ∀ i, 0 ≤ i → marked m i = true ∨ covers f i → has fr i.
Proof.
  intros Hf Hpos Hp. pose proof Hf as (Hq & H1 & H2 & H3 & _). cbv zeta.
  destruct (partial_mark f frag m Hf Hpos Hp) as [Hp' Hm]. cbv zeta in Hp', Hm.
  set (m' := RSMBLY_BITMASK_MARK _ _ _) in *.
  pose proof (partial_complete _ _ _ Hq ltac:(lia) Hp') as Hc. unfold frag_ok, has. cbn [frag_hdr reassembly fragment].
  destruct (RSMBLY_BITMASK_IS_COMPLETE m' (blen (af_seq f))) eqn:E.
  - split; [|done]. split; [done|]. split; [done|]. cbn [hm_seq whole_hdr].
    by apply (partial_body _ _ m'); [|apply Hc].
  - split; [|intros i Hi Hor; by apply Hm]. split; [done|]. split; [done|]. cbn [hm_seq whole_hdr].
    split; [done|]. destruct (decide (Forall (λ i, marked m' i = true) (seqZ 0 (blen (af_seq f))))) as [Hall|Hn].
    + rewrite Forall_seqZ in Hall. assert (false = true) as Hx; [|done]. apply Hc. intros i Hi. apply Hall. lia.
    + apply not_Forall_Exists in Hn; [|intros x; apply _]. apply Exists_exists in Hn as (i & Hi & Hn).
      apply elem_of_seqZ in Hi. exists i. split; [lia|]. cbn in Hn. by apply not_true_is_false.
Qed.

(** ** The operations *)

Section receiver.
Context {L : Type} {RL : RecordLayer L}.
Context (malloc : nat → option (list Z)) (Hmalloc : malloc_spec malloc) (Hmem : ∀ n, is_Some (malloc n)).
Implicit Types s : hs L.

Definition got s (k i : Z) : Prop :=
  match to_map (buffered s) !! k with None => False | Some it => has (data it) i end.

Record core s : Prop := {
  co_queue : queue_ok (buffered s);
  co_seq : 0 ≤ read_seq s < 2 ^ 16;
  co_off : hm_frag_off (r_msg_hdr s) = 0;
  co_buf : buf_wf (init_buf s)
}.

(** [s'] is [s] after a fragment was read, or skipped, and buffered. *)
Definition absorbed s s' (rest : list Z) : Prop :=
  ∃ l q, s' = with_buffered (with_rl s l) q ∧ rrec_left l = rest ∧ rl_input l = rl_input (rl s) ∧
    queue_ok q ∧ ∀ k i, 0 ≤ i → got s k i → got s' k i.

Lemma hm_fragment_new_ok n reasm : 0 ≤ n →
  ∃ buf, dtls1_hm_fragment_new malloc n reasm = Some (mkFrag hm0 buf
      (if reasm then Some (replicate (Z.to_nat (RSMBLY_BITMASK_SIZE n)) 0) else None)) ∧
    bytes buf ∧ Z.of_nat (length buf) = n.
Proof.
  intros Hn. unfold dtls1_hm_fragment_new. destruct (Hmem sizeof_hm_fragment) as [x ->].
  assert (∃ buf, (if n =? 0 then Some [] else malloc (Z.to_nat n)) = Some buf ∧ bytes buf ∧
    Z.of_nat (length buf) = n) as (buf & -> & Hb & Hl).
  { destruct (Z.eqb_spec n 0) as [->|]; [by exists []|]. destruct (Hmem (Z.to_nat n)) as [b E].
    exists b. apply Hmalloc in E as Hs. destruct Hs. split; [done|]. split; [done|lia]. }
  exists buf. split; [|done]. destruct reasm; [|done].
  destruct (Hmem (Z.to_nat (RSMBLY_BITMASK_SIZE n))) as [b E]. rewrite E.
  apply Hmalloc in E as [-> _]. done.
Qed.

Lemma pitem_alloc_ok q fr : ∃ it, pitem_alloc malloc (seq64be q) fr = Some it ∧
  priority it = seq64be q ∧ data it = fr.
Proof. unfold pitem_alloc. destruct (Hmem sizeof_pitem) as [x ->]. by eexists. Qed.

(** Writing the message [it'] under [k] keeps what was received. *)
Lemma got_insert s s' k it' : to_map (buffered s') = <[k := it']> (to_map (buffered s)) →
  (∀ i, 0 ≤ i → got s k i → has (data it') i) → ∀ k' i, 0 ≤ i → got s k' i → got s' k' i.
Proof.
  intros E H k' i Hi Hg. unfold got. rewrite E. destruct (decide (k' = k)) as [->|].
  - rewrite lookup_insert_eq. by apply H.
  - by rewrite lookup_insert_ne.
Qed.

Lemma reassemble_body_spec s f item frag m ok rest : core s → af_ok f → 0 < af_len f →
  rrec_left (rl s) = af_bytes f ++ rest → partial (af_seq f) frag m →
  (if item : bool then ∃ it, to_map (buffered s) !! af_seq f = Some it ∧ data it = mkFrag (whole_hdr (af_seq f)) frag (Some m)
   else to_map (buffered s) !! af_seq f = None) →
  ∃ s', reassemble_body malloc s (af_hdr f) item (mkFrag (whole_hdr (af_seq f)) frag (Some m)) m ok
          = (DTLS1_HM_FRAGMENT_RETRY, ok, s') ∧ absorbed s s' rest ∧ ∀ i, covers f i → got s' (af_seq f) i.
Proof.
  intros Hc Hf Hpos Hr Hp Hitem. pose proof Hf as (Hq & H1 & H2 & H3 & _).
  pose proof (length_af_bytes f Hf) as Hl. destruct (Hmsgs _ Hq) as (_ & _ & _ & Hb24 & _).
  destruct (read_cur s (af_bytes f) rest) as (l & R & E1 & E2); [intros E; rewrite E in Hl; cbn in Hl; lia|done|].
  rewrite Hl in R. unfold reassemble_body. cbn [af_hdr hm_frag_len hm_frag_off hm_seq hm_msg_len frag_hdr fragment reassembly].
  rewrite R, u64_small, Z.eqb_refl by lia. cbn [negb]. rewrite (proj2 (Z.leb_gt _ _)) by done.
  destruct (frag_absorb f frag m Hf Hpos Hp) as [Hok Hhas]. cbv zeta in Hok, Hhas.
  set (fr := mkFrag (whole_hdr (af_seq f)) (splice frag (Z.to_nat (af_off f)) (af_bytes f)) _) in *.
  destruct Hc as [Hqu _ _ _]. destruct item.
  - destruct Hitem as (it & Hit & Hd). destruct (queue_set _ _ _ fr Hqu Hit Hok) as (it' & Hi' & Hd' & Q1 & Q2); [done|].
    eexists. split; [reflexivity|]. set (s' := with_buffered _ _).
    assert (to_map (buffered s') = <[af_seq f := it']> (to_map (buffered s))) as Em by done.
    split.
    + exists l, (set_data (buffered s) (seq64be (af_seq f)) fr). do 4 (split; [done|]).
      apply (got_insert s s' (af_seq f) it' Em). intros i Hi. unfold got. rewrite Hit, Hd, Hd'.
      intros Hh. apply Hhas; [done|]. by left.
    + intros i Hi. unfold got. rewrite Em, lookup_insert_eq, Hd'. unfold covers in Hi. apply Hhas; [lia|by right].
  - destruct (pitem_alloc_ok (af_seq f) fr) as (it' & -> & Hpr & Hd').
    assert (item_ok it') as Hi' by (unfold item_ok; rewrite Hd', Hpr; done).
    assert (key it' = af_seq f) as Hk by (rewrite item_ok_key, Hd' by done; done).
    destruct (queue_insert (buffered s) it' Hqu Hi') as [Q1 Q2]; [by rewrite Hk|]. rewrite Hk in Q2.
    eexists. split; [reflexivity|]. set (s' := with_buffered _ _).
    assert (to_map (buffered s') = <[af_seq f := it']> (to_map (buffered s))) as Em by done.
    split.
    + exists l, (pqueue_insert (buffered s) it').2. do 4 (split; [done|]).
      apply (got_insert s s' (af_seq f) it' Em). intros i Hi. unfold got. by rewrite Hitem.
    + intros i Hi. unfold got. rewrite Em, lookup_insert_eq, Hd'. unfold covers in Hi. apply Hhas; [lia|by right].
Qed.

(** A fragment that is dropped. *)
Lemma absorbed_drain s l rest : rrec_left l = rest → rl_input l = rl_input (rl s) → core s →
  absorbed s (with_rl s l) rest.
Proof. intros ? ? [Hq _ _ _]. exists l, (buffered s). by repeat split; try apply Hq. Qed.

Lemma drain_af s f rest : af_ok f → rrec_left (rl s) = af_bytes f ++ rest → core s →
  ∃ s', drain s (af_len f) (S (Z.to_nat (af_len f))) = Some (None, s') ∧ absorbed s s' rest.
Proof.
  intros Hf Hr Hc. pose proof (length_af_bytes f Hf) as Hl.
  destruct (drain_spec (S (Z.to_nat (af_len f))) s (af_bytes f) rest Hr) as (l & E & E1 & E2); [lia|].
  rewrite Hl in E. exists (with_rl s l). split; [done|]. by apply absorbed_drain.
Qed.

Lemma reassemble_spec s f rest ok : core s → af_ok f → 0 < af_len f → 
  rrec_left (rl s) = af_bytes f ++ rest →
  ∃ ok' s', dtls1_reassemble_fragment malloc conf s (af_hdr f) ok = Some (DTLS1_HM_FRAGMENT_RETRY, ok', s') ∧
    (ok = false → ok' = false) ∧ absorbed s s' rest ∧ ∀ i, covers f i → got s' (af_seq f) i.
Proof.
  intros Hc Hf Hpos Hr. pose proof Hf as (Hq & H1 & H2 & H3 & _).
  destruct (Hmsgs _ Hq) as (_ & _ & _ & _ & _ & Hbm).
  unfold dtls1_reassemble_fragment. cbn [af_hdr hm_frag_len hm_frag_off hm_seq hm_msg_len hm_type hm_is_ccs hm_saved].
  rewrite (proj2 (Z.ltb_ge _ _)), (proj2 (Z.ltb_ge _ _)), (proj2 (Z.eqb_neq _ _)) by lia. cbn [orb].
  pose proof Hc as [Hqu _ _ _]. rewrite queue_find by done.
  destruct (to_map (buffered s) !! af_seq f) as [it|] eqn:Hit.
  - destruct (queue_lookup _ _ _ Hqu Hit) as [[Hp (Hq' & Hh & Hfr)] Hs]. rewrite Hs in *.
    rewrite Hh. cbn [whole_hdr hm_msg_len]. rewrite Z.eqb_refl. cbn [negb].
    destruct (reassembly (data it)) as [m|] eqn:Em.
    + destruct Hfr as [Hpt _].
      assert (data it = mkFrag (whole_hdr (af_seq f)) (fragment (data it)) (Some m)) as Ed.
      { rewrite <- Hh, <- Em. by destruct (data it). }
      rewrite Ed. destruct (reassemble_body_spec s f true (fragment (data it)) m ok rest) as (s' & E & Ha & Hg); try done.
      { by exists it. }
      cbn [fragment]. exists ok, s'. rewrite E. done.
    + destruct (drain_af s f rest Hf Hr Hc) as (s' & -> & Ha). exists false, s'.
      do 3 (split; [done|]). intros i Hi. destruct Ha as (l & q & -> & _ & _ & _ & Hg).
      unfold covers in Hi. apply Hg; [lia|]. unfold got. rewrite Hit. unfold has. by rewrite Em.
  - destruct (hm_fragment_new_ok (blen (af_seq f)) true) as (buf & -> & Hb & Hl); [unfold blen; lia|].
    cbn [reassembly fragment]. fold (whole_hdr (af_seq f)).
    assert (0 ≤ RSMBLY_BITMASK_SIZE (blen (af_seq f))) as Hsz.
    { pose proof (mask_size (blen (af_seq f)) ltac:(unfold blen; lia)). lia. }
    destruct (reassemble_body_spec s f false buf (replicate (Z.to_nat (RSMBLY_BITMASK_SIZE (blen (af_seq f)))) 0)
      ok rest) as (s' & E & Ha & Hg); try done; [by apply partial_start; [..|lia]|].
    exists ok, s'. rewrite E. done.
Qed.

(** A fragment that is the whole message. *)
Lemma whole_fragment f : af_ok f → af_len f = blen (af_seq f) →
  af_off f = 0 ∧ af_hdr f = whole_hdr (af_seq f) ∧ af_bytes f = body (af_seq f).
Proof.
  intros (Hq & H1 & H2 & H3 & _) Hw. assert (af_off f = 0) as Ho by lia.
  split; [done|]. unfold af_hdr, whole_hdr, af_bytes. rewrite Ho, Hw. split; [done|].
  change (Z.to_nat 0) with 0%nat. rewrite drop_0. apply take_ge. unfold blen. lia.
Qed.

Lemma out_of_seq_spec s f rest ok : core s → af_ok f → rrec_left (rl s) = af_bytes f ++ rest →
  ∃ ok' s', dtls1_process_out_of_seq_message malloc conf s (af_hdr f) ok
              = Some (DTLS1_HM_FRAGMENT_RETRY, ok', s') ∧
    (ok = false → ok' = false) ∧ absorbed s s' rest.
Proof.
  intros Hc Hf Hr. pose proof Hf as (Hq & H1 & H2 & H3 & H4).
  destruct (Hmsgs _ Hq) as (_ & _ & _ & Hb24 & _ & Hbm). pose proof (length_af_bytes f Hf) as Hl.
  unfold dtls1_process_out_of_seq_message.
  cbn [af_hdr hm_frag_len hm_frag_off hm_seq hm_msg_len hm_type].
  rewrite (proj2 (Z.ltb_ge _ _)) by lia. pose proof Hc as [Hqu _ _ _]. rewrite queue_find by done.
  destruct (_ || _) eqn:Ed.
  { destruct (drain_af s f rest Hf Hr Hc) as (s' & -> & Ha). by exists ok, s'. }
  destruct (Z.eqb_spec (af_len f) (blen (af_seq f))) as [Hw|Hw]; cbn [negb].
  - destruct (whole_fragment f Hf Hw) as (Ho & Hh & Hbs).
    assert (to_map (buffered s) !! af_seq f = None) as Hn.
    { destruct (to_map (buffered s) !! af_seq f); [|done]. cbn [andb] in Ed. by rewrite orb_true_r in Ed. }
    rewrite (proj2 (Z.ltb_ge _ _)) by lia.
    destruct (hm_fragment_new_ok (af_len f) false H2) as (buf & -> & Hb & Hbl). cbn [fragment reassembly].
    assert (∃ i l, (if af_len f =? 0 then (-1, [], s)
        else let '(i, bs, s0) := read_bytes s (af_len f) in
             (if negb (u64 i =? af_len f) then -1 else i, bs, s0)) = (i, af_bytes f, with_rl s l) ∧
        rrec_left l = rest ∧ rl_input l = rl_input (rl s) ∧
        negb (af_len f =? 0) && (i <=? 0) = false) as (i & l & -> & E1 & E2 & ->).
    { destruct (Z.eqb_spec (af_len f) 0) as [E0|E0].
      - exists (-1), (rl s). rewrite with_rl_id. destruct (af_bytes f); [|cbn in Hl; lia]. done.
      - destruct (read_cur s (af_bytes f) rest) as (l & R & E1 & E2);
          [intros E; rewrite E in Hl; cbn in Hl; lia|done|].
        rewrite Hl in R. rewrite R, u64_small, Z.eqb_refl by lia. exists (af_len f), l.
        do 3 (split; [done|]). cbn. lia. }
    rewrite splice_whole by lia. set (fr := mkFrag _ _ _).
    destruct (pitem_alloc_ok (af_seq f) fr) as (it' & -> & Hpr & Hd').
    assert (item_ok it') as Hi'.
    { unfold item_ok, frag_ok. rewrite Hd', Hpr. unfold fr. cbn [frag_hdr fragment reassembly].
      rewrite Hh. cbn [whole_hdr hm_seq]. done. }
    assert (key it' = af_seq f) as Hk by (rewrite item_ok_key, Hd' by done; done).
    destruct (queue_insert (buffered s) it' Hqu Hi') as [Q1 Q2]; [by rewrite Hk|]. rewrite Hk in Q2.
    eexists ok, _. split; [reflexivity|]. split; [done|]. exists l, (pqueue_insert (buffered s) it').2.
    do 4 (split; [done|]).
    eapply (got_insert s _ (af_seq f) it'); [exact Q2|]. intros i' _. unfold got. by rewrite Hn.
  - destruct (reassemble_spec s f rest ok Hc Hf) as (ok' & s' & E & Hok & Ha & _); [|done|].
    { destruct (decide (af_len f = 0)); [destruct Hw; lia|lia]. }
    exists ok', s'. by rewrite E.
Qed.

(** ** Delivery *)

(** [s'] is [s] with message [q] in the buffer. *)
Record delivered (q : Z) s s' : Prop := {
  dl_type : hm_type (r_msg_hdr s') = mtype q;
  dl_len : hm_msg_len (r_msg_hdr s') = blen q;
  dl_seq : hm_seq (r_msg_hdr s') = q;
  dl_body : take (Z.to_nat (blen q)) (drop 12 (buf_data (init_buf s'))) = body q;
  dl_size : buf_length (init_buf s') = blen q + 12;
  dl_num : init_num s' = blen q;
  dl_msize : message_size s' = blen q;
  dl_mtype : message_type s' = mtype q;
  dl_read_seq : read_seq s' = read_seq s;
  dl_hash : hash_input s' = hash_input s;
  dl_alerts : alerts s' = alerts s;
  dl_reuse : reuse_message s' = reuse_message s
}.

(** The state after [dtls1_preprocess_fragment] for message [q], with header [h] and buffer [b]. *)
Definition prepared s (q : Z) (h : hm_header) (b : BUF_MEM) : hs L :=
  mkHS (rl s) (buffered s) (read_seq s) h b (init_num s) (blen q) (mtype q) (reuse_message s)
    (ssl_state s) (rwstate s) (alerts s) (hash_input s).

Lemma preprocess_spec s q h : core s → 0 ≤ q < 2 ^ 16 → hm_type h = mtype q → hm_msg_len h = blen q →
  hm_seq h = q → hm_frag_off h = 0 → hm_frag_len h = blen q →
  ∃ h' b, dtls1_preprocess_fragment malloc s h max = (0, prepared s q h' b) ∧
    hm_type h' = mtype q ∧ hm_msg_len h' = blen q ∧ hm_seq h' = q ∧ hm_frag_off h' = 0 ∧
    buf_wf b ∧ buf_length b = blen q + 12.
Proof.
  intros [_ _ Hoff Hbuf] Hq Ht Hl Hs Ho Hfl. destruct (Hmsgs _ Hq) as (_ & _ & _ & Hb24 & Hbm & _).
  assert (0 ≤ blen q) by (unfold blen; lia).
  unfold dtls1_preprocess_fragment. rewrite Ht, Hl, Hs, Ho, Hfl, Hoff. rewrite s32_small, u64_small by lia.
  rewrite (proj2 (Z.ltb_ge _ _)), (proj2 (Z.ltb_ge _ _)) by lia. cbn [Z.eqb].
  pose proof (BUF_MEM_grow_clean_ok malloc Hmalloc (init_buf s) (blen q + 12) Hbuf ltac:(lia)) as G.
  unfold DTLS1_HM_HEADER_LENGTH. destruct (BUF_MEM_grow_clean _ _ _) as [r b].
  destruct G as [[Hr (Hw & Hbl & _)]|(_ & _ & [Hlim|Hnone])]; cbn [fst snd] in *.
  - rewrite Hr, (proj2 (Z.eqb_neq _ _)) by lia. eexists _, b. split; [reflexivity|].
    cbn [hm_type hm_msg_len hm_seq hm_frag_off]. done.
  - unfold LIMIT_BEFORE_EXPANSION in Hlim. lia.
  - destruct (Hmem (Z.to_nat ((blen q + 12 + 3) / 3 * 4))) as [x Hx]. congruence.
Qed.

(** Storing the body in a prepared buffer. *)
Lemma store_body_spec s q h b : 0 ≤ q < 2 ^ 16 → hm_type h = mtype q → hm_msg_len h = blen q →
  hm_seq h = q → hm_frag_off h = 0 → buf_wf b → buf_length b = blen q + 12 → queue_ok (buffered s) →
  0 ≤ read_seq s < 2 ^ 16 →
  ∀ st, let s' := with_init_num (with_state (store_body (prepared s q h b) 0 (body q)) st) (blen q) in
  delivered q s s' ∧ core s'.
Proof.
  intros Hq Ht Hl Hs Ho Hw Hbl Hqu Hrs st. destruct (Hmsgs _ Hq) as (_ & _ & Hbb & _).
  destruct Hw as (Hw1 & Hw2 & Hw3 & Hw4). unfold blen in Hbl.
  assert (12 + length (body q) ≤ length (buf_data b))%nat as Hlen by lia.
  split; split; cbn; try done.
  - unfold splice. change (Z.to_nat (DTLS1_HM_HEADER_LENGTH + 0)) with 12%nat. rewrite drop_app_exact by len.
    unfold blen. rewrite Nat2Z.id. apply take_app_length.
  - split; [done|]. change (Z.to_nat (DTLS1_HM_HEADER_LENGTH + 0)) with 12%nat.
    cbn [buf_max buf_data]. rewrite length_splice by done. auto with vtls.
Qed.

(** The expected message is complete in the queue. *)
Definition ready s : Prop :=
  ∃ it, to_map (buffered s) !! read_seq s = Some it ∧ reassembly (data it) = None.

Lemma all_got_ready s : core s → 0 < blen (read_seq s) →
  (∀ j, 0 ≤ j < blen (read_seq s) → got s (read_seq s) j) → ready s.
Proof.
  intros [Hqu _ _ _] Hpos H. pose proof (H 0 ltac:(lia)) as H0. unfold got in H, H0.
  destruct (to_map (buffered s) !! read_seq s) as [it|] eqn:E; [|done]. exists it. split; [done|].
  destruct (queue_lookup _ _ _ Hqu E) as [[_ (_ & _ & Hf)] Hs]. unfold has in H.
  destruct (reassembly (data it)); [|done]. rewrite Hs in Hf. destruct Hf as [_ (j & Hj & Hm)].
  rewrite H in Hm by done. done.
Qed.

(** Taking the expected message from the queue, or finding that it is not complete. *)
Lemma retrieve_spec s : core s →
  ∃ i ok s', dtls1_retrieve_buffered_fragment malloc s max = Some (i, ok, s') ∧ rl s' = rl s ∧ core s' ∧
  (∀ k j, read_seq s < k → got s k j → got s' k j) ∧
  if ok then i = blen (read_seq s) ∧ delivered (read_seq s) s (with_init_num s' i)
  else i = 0 ∧ (∃ q, s' = with_buffered s q) ∧ ¬ ready s ∧
       (∀ j, got s (read_seq s) j → got s' (read_seq s) j).
Proof.
  intros Hc. pose proof Hc as [Hqu Hrs Hoff Hbuf]. unfold dtls1_retrieve_buffered_fragment.
  destruct (drop_stale_spec (read_seq s) (S (length (buffered s))) (buffered s) Hqu ltac:(lia)) as (q1 & -> & Hq & Hm).
  cbn [mbind option_bind]. set (s1 := with_buffered s q1).
  assert (core s1) as Hc1 by done.
  assert (∀ k, read_seq s ≤ k → to_map q1 !! k = to_map (buffered s) !! k) as Hm'.
  { intros k Hk. rewrite Hm. by rewrite (proj2 (Z.ltb_ge _ _)). }
  assert (∀ k j, read_seq s ≤ k → got s k j → got s1 k j) as Hg.
  { intros k j Hk. unfold got. cbn [buffered s1 with_buffered]. by rewrite Hm'. }
  assert ((∀ it, to_map q1 !! read_seq s = Some it → reassembly (data it) ≠ None) →
    ∃ i ok s', Some (0, false, s1) = Some (i, ok, s') ∧ rl s' = rl s ∧ core s' ∧
    (∀ k j, read_seq s < k → got s k j → got s' k j) ∧
    if ok then i = blen (read_seq s) ∧ delivered (read_seq s) s (with_init_num s' i)
    else i = 0 ∧ (∃ q, s' = with_buffered s q) ∧ ¬ ready s ∧
       (∀ j, got s (read_seq s) j → got s' (read_seq s) j)) as Hno.
  { intros Hr0. assert (¬ ready s) as Hr.
    { intros (it & Hit & Hn). rewrite <- Hm' in Hit by lia. by apply (Hr0 it). }
    exists 0, false, s1. do 3 (split; [done|]). split; [intros; apply Hg; [lia|done]|].
    split; [done|]. split; [by exists q1|]. split; [done|]. intros j. apply Hg. lia. }
  change (buffered s1) with q1. destruct q1 as [|it q2] eqn:Eq; cbn [pqueue_peek head].
  { by apply Hno. }
  destruct (queue_tail it q2 Hq) as [Hq2 Ht].
  assert (key it = hm_seq (frag_hdr (data it)) ∧ item_ok it) as [Ek Hio].
  { destruct Hq as [_ Hi]. apply Forall_cons in Hi as [Hi _]. by rewrite item_ok_key. }
  destruct Hio as [_ (Hsq & Hh & Hf)]. rewrite <- Ek in Hsq, Hh, Hf.
  assert (∀ it', to_map (it :: q2) !! read_seq s = Some it' → it' = it) as Hhd.
  { intros it' Hit'. destruct (Z.lt_ge_cases (read_seq s) (key it)) as [Hlt|Hge].
    - by rewrite (queue_head_least it q2 _ Hq Hlt) in Hit'.
    - assert (key it = read_seq s) as E.
      { destruct (Z.lt_ge_cases (key it) (read_seq s)) as [Hlt|]; [|lia].
        specialize (Hm (key it)). rewrite (proj2 (Z.ltb_lt _ _) Hlt), Ht, decide_True in Hm by done. done. }
      rewrite Ht, decide_True in Hit' by done. by simplify_eq. }
  destruct (reassembly (data it)) as [m|] eqn:Em.
  { apply Hno. intros it' Hit'. apply Hhd in Hit'. subst. congruence. }
  change (read_seq s1) with (read_seq s). rewrite <- Ek. destruct (Z.eqb_spec (read_seq s) (key it)) as [E|E].
  2:{ apply Hno. intros it' Hit'. apply to_map_elem in Hit' as Hk. destruct Hk as [_ Hk].
      apply Hhd in Hit'. subst. done. }
  set (s2 := with_buffered s1 _). assert (core s2) as Hc2 by done.
  rewrite <- E in *. rewrite Hh.
  destruct (preprocess_spec s2 (read_seq s) (whole_hdr (read_seq s)) Hc2) as
    (h & b & -> & G1 & G2 & G3 & G4 & G5 & G6); try done.
  cbn [Z.eqb whole_hdr hm_frag_off hm_frag_len]. rewrite Hf, take_ge by (unfold blen; lia).
  destruct (store_body_spec s2 (read_seq s) h b Hsq G1 G2 G3 G4 G5 G6 Hq2 Hrs (ssl_state s)) as [Hd Hcd].
  eexists _, true, _. split; [reflexivity|]. split; [done|]. split; [by destruct Hcd; split|].
  split; [|split; [done|by destruct Hd; split]].
  intros k j Hk Hgk. apply Hg in Hgk; [|lia]. unfold got in *. cbn [buffered store_body with_buf prepared s2 s1 with_buffered] in *.
  change (buffered s1) with (it :: q2) in Hgk. rewrite Ht, decide_False in Hgk by lia. done.
Qed.

(** ** The stream of fragments *)

Definition ev_wire (e : nat + list afrag) : nat + list Z :=
  match e with inl n => inl n | inr fs => inr (concat (wire <$> fs)) end.

(** Failed attempts return 0 or -1. *)
Definition ev_ok (e : nat + list afrag) : Prop :=
  match e with inl n => (n ≤ 1)%nat | inr fs => fs ≠ [] ∧ Forall af_ok fs end.

(** The record layer has [cur] left of the current record and will deliver [evs]. *)
Record stream s (cur : list afrag) (evs : list (nat + list afrag)) : Prop := {
  st_cur : rrec_left (rl s) = concat (wire <$> cur);
  st_input : rl_input (rl s) = ev_wire <$> evs;
  st_cur_ok : Forall af_ok cur;
  st_evs_ok : Forall ev_ok evs
}.

(** The next fragment and what is left. *)
Definition next_frag (cur : list afrag) (evs : list (nat + list afrag))
    : option (afrag * list afrag * list (nat + list afrag)) :=
  match cur, evs with
  | f :: cur, _ => Some (f, cur, evs)
  | [], inr (f :: fs) :: evs => Some (f, fs, evs)
  | [], _ => None
  end.

Lemma concat_wire f fs : concat (wire <$> f :: fs) =
  dtls1_write_message_header (af_hdr f) ++ af_bytes f ++ concat (wire <$> fs).
Proof. rewrite fmap_cons. cbn [concat]. unfold wire at 1. by rewrite <- app_assoc. Qed.

Lemma read_header s cur evs : stream s cur evs →
  match next_frag cur evs with
  | Some (f, cur', evs') =>
      af_ok f ∧ ∃ l, read_bytes s 12 = (12, dtls1_write_message_header (af_hdr f), with_rl s l) ∧
      rrec_left l = af_bytes f ++ concat (wire <$> cur') ∧ rl_input l = ev_wire <$> evs' ∧
      Forall af_ok cur' ∧ Forall ev_ok evs'
  | None => ∃ i l, read_bytes s 12 = (i, [], with_rl s l) ∧ (i = 0 ∨ i = -1) ∧ stream (with_rl s l) [] (tail evs)
  end.
Proof.
  intros [E1 E2 H1 H2]. assert (∀ h : hm_header, dtls1_write_message_header h ≠ []) as Hne by done.
  destruct cur as [|f cur]; cbn [next_frag].
  - pose proof (read_fails s 12 ltac:(lia) E1) as R. rewrite E2 in R.
    destruct evs as [|[n|fs] evs]; cbn [fmap list_fmap ev_wire] in R.
    + destruct R as (l & R & G1 & G2). exists (-1), l. split; [done|]. split; [by right|]. by split.
    + destruct R as (l & R & G1 & G2). apply Forall_cons in H2 as [Hn H2]. cbn in Hn.
      exists (- Z.of_nat n), l. split; [done|]. split; [lia|]. by split.
    + apply Forall_cons in H2 as [[Hne' Hfs] H2]. destruct fs as [|f fs]; [done|].
      apply Forall_cons in Hfs as [Hf Hfs]. split; [done|].
      destruct (read_next s (dtls1_write_message_header (af_hdr f)) (af_bytes f ++ concat (wire <$> fs))
        (ev_wire <$> evs)) as (l & R' & G1 & G2); [done|done| |by exists l].
      rewrite E2, fmap_cons. cbn [ev_wire]. by rewrite concat_wire.
  - apply Forall_cons in H1 as [Hf H1]. split; [done|].
    destruct (read_cur s (dtls1_write_message_header (af_hdr f)) (af_bytes f ++ concat (wire <$> cur)))
      as (l & R' & G1 & G2); [done| |exists l; rewrite G2, E2; done].
    by rewrite E1, concat_wire.
Qed.

(** ** One round *)

Context (Hlisten : listen conf = false).

(** The parts that only the end of [dtls1_get_message] changes. *)
Definition same s s' : Prop :=
  read_seq s' = read_seq s ∧ hash_input s' = hash_input s ∧ alerts s' = alerts s ∧
  reuse_message s' = reuse_message s.

(** The expected message is in the buffer. *)
Definition round_delivers s cur evs (i : Z) s' : Prop :=
  i = blen (read_seq s) ∧ delivered (read_seq s) s s' ∧ core s' ∧
  (∀ k j, read_seq s < k → 0 ≤ j → got s k j → got s' k j) ∧
  ∃ cur' evs', stream s' cur' evs' ∧
    ((cur', evs') = (cur, evs) ∨ ∃ f, next_frag cur evs = Some (f, cur', evs')).

(** A fragment was buffered or dropped. *)
Definition round_buffers s cur evs (i : Z) s' : Prop :=
  i = DTLS1_HM_FRAGMENT_RETRY ∧ core s' ∧ same s s' ∧ ¬ ready s ∧
  (∀ k j, read_seq s ≤ k → 0 ≤ j → got s k j → got s' k j) ∧
  ∃ f cur' evs', next_frag cur evs = Some (f, cur', evs') ∧ stream s' cur' evs' ∧
    (af_seq f = read_seq s → af_len f < blen (read_seq s) ∧ ∀ j, covers f j → got s' (read_seq s) j).

(** There was no record. *)
Definition round_waits s cur evs (i : Z) s' : Prop :=
  (i = 0 ∨ i = -1) ∧ core s' ∧ same s s' ∧ ¬ ready s ∧ next_frag cur evs = None ∧
  (∀ k j, read_seq s ≤ k → 0 ≤ j → got s k j → got s' k j) ∧ stream s' [] (tail evs).

Lemma store_body_nil s : store_body s 0 [] = s.
Proof.
  unfold store_body, splice. cbn [app length]. rewrite Nat.add_0_r, take_drop. by destruct s as [? ? ? ? [] ? ? ? ? ? ? ? ?].
Qed.

Lemma stream_rl s s' cur evs : rl s' = rl s → stream s cur evs → stream s' cur evs.
Proof. intros E []. split; by rewrite ?E. Qed.

(** A whole message that arrives in one fragment is read into the buffer. *)
Lemma whole_message_read s f cur stn : core s → af_ok f → af_seq f = read_seq s →
  af_len f = blen (read_seq s) → rrec_left (rl s) = af_bytes f ++ concat (wire <$> cur) →
  ∃ h b s', dtls1_preprocess_fragment malloc s (af_hdr f) max = (0, prepared s (read_seq s) h b) ∧
    (if 0 <? af_len f then
       let '(i, bs, s0) := read_bytes (prepared s (read_seq s) h b) (af_len f) in
       (i, store_body s0 (af_off f) bs)
     else (0, prepared s (read_seq s) h b)) = (af_len f, s') ∧
    (0 <? af_len f) && (af_len f <=? 0) = false ∧
    let s'' := with_init_num (with_state s' stn) (af_len f) in
    delivered (read_seq s) s s'' ∧ core s'' ∧ buffered s'' = buffered s ∧
    rrec_left (rl s'') = concat (wire <$> cur) ∧ rl_input (rl s'') = rl_input (rl s).
Proof.
  intros Hc Hf Hs Hw Hr. pose proof Hc as [Hqu Hrs _ _]. rewrite <- Hs in Hw.
  destruct (whole_fragment f Hf Hw) as (Ho & Hh & Hb). pose proof Hf as (_ & _ & Hl0 & _).
  rewrite Ho, Hh, Hb in *. rewrite Hs in Hw, Hb, Hr |- *.
  destruct (preprocess_spec s (read_seq s) (whole_hdr (read_seq s)) Hc) as
    (h & b & E & G1 & G2 & G3 & G4 & G5 & G6); try done.
  pose proof (λ l, store_body_spec (with_rl s l) (read_seq s) h b Hrs G1 G2 G3 G4 G5 G6 Hqu Hrs stn) as Hsb.
  cbv zeta in Hsb.
  assert (0 ≤ af_len f) as [H0|H0]%Z.le_lteq by done.
  - destruct (read_cur (prepared s (read_seq s) h b) (body (read_seq s)) (concat (wire <$> cur)))
      as (l & R & E1 & E2); [intros Eb; unfold blen in Hw; rewrite Eb in Hw; cbn in Hw; lia|done|].
    fold (blen (read_seq s)) in R. rewrite <- Hw in R.
    eexists h, b, _. split; [done|]. rewrite (proj2 (Z.ltb_lt _ _)) by done. rewrite R.
    split; [reflexivity|]. split; [cbn; lia|]. cbv zeta. rewrite Hw.
    destruct (Hsb l) as [Hd Hcd]. split; [by destruct Hd; split|]. split; [done|]. done.
  - eexists h, b, _. split; [done|]. rewrite <- H0. split; [reflexivity|]. split; [done|]. cbv zeta.
    assert (body (read_seq s) = []) as Eb.
    { rewrite <- H0 in Hw. unfold blen in Hw. by destruct (body (read_seq s)). }
    destruct (Hsb (rl s)) as [Hd Hcd]. rewrite with_rl_id, Eb, store_body_nil in Hd, Hcd.
    rewrite <- Hw, <- H0 in Hd, Hcd. rewrite Eb in Hr. done.
Qed.

Lemma step_spec s cur evs stn : core s → stream s cur evs →
  ∃ i ok s' t, message_fragment_step malloc conf s stn max = Some (Some (i, ok, s'), t) ∧
    if ok : bool then round_delivers s cur evs i s'
    else round_buffers s cur evs i s' ∨ round_waits s cur evs i s'.
Proof.
  intros Hc Hst. unfold message_fragment_step.
  destruct (retrieve_spec s Hc) as (i & ok & s1 & -> & Hrl & Hc1 & Hg & Hok). cbn [mbind option_bind].
  apply (stream_rl s s1) in Hst as Hst1; [|done]. destruct ok.
  { rewrite orb_true_r. destruct Hok as [-> Hd]. eexists _, true, _, _. split; [reflexivity|].
    split; [done|]. split; [done|]. split; [by destruct Hc1; split|]. split; [intros; by apply Hg|].
    exists cur, evs. split; [by apply (stream_rl s1)|by left]. }
  destruct Hok as (-> & (q & ->) & Hnr & Hgr). cbn [Z.eqb negb orb].
  set (s1 := with_buffered s q) in *.
  assert (∀ k j, read_seq s ≤ k → 0 ≤ j → got s k j → got s1 k j) as Hg1.
  { intros k j Hk _ Hgk. destruct (decide (k = read_seq s)) as [->|]; [by apply Hgr|apply Hg; [lia|done]]. }
  pose proof (read_header s1 cur evs Hst1) as R. unfold DTLS1_HM_HEADER_LENGTH.
  destruct (next_frag cur evs) as [[[f cur'] evs']|] eqn:En.
  2:{ destruct R as (i & l & -> & Hi & Hsl). rewrite (proj2 (Z.leb_le _ _)) by lia.
      eexists _, false, _, _. split; [reflexivity|]. right. split; [done|]. split; [by destruct Hc1; split|].
      split; [done|]. split; [done|]. split; [done|]. split; [done|]. by apply (stream_rl (with_rl s1 l)). }
  destruct R as (Hf & l & -> & E1 & E2 & F1 & F2). cbn [Z.leb Z.compare Z.eqb negb Pos.eqb].
  change (12 <=? 0) with false. change (negb (12 =? 12)) with false. cbn iota. rewrite get_af_hdr by done.
  set (s2 := with_rl s1 l). assert (core s2) as Hc2 by (by destruct Hc1; split).
  pose proof (length_af_bytes f Hf) as Hl. pose proof Hf as (Hq & H1 & H2 & H3 & H4).
  change (rl s2) with l. rewrite E1. cbn [af_hdr hm_frag_len hm_seq hm_msg_len hm_frag_off].
  rewrite (proj2 (Z.ltb_ge _ _)) by (rewrite length_app; lia). rewrite Hlisten. cbn [andb negb].
  rewrite andb_true_r. change (read_seq s2) with (read_seq s).
  assert (∀ s', absorbed s2 s' (concat (wire <$> cur')) →
    core s' ∧ same s s' ∧ (∀ k j, read_seq s ≤ k → 0 ≤ j → got s k j → got s' k j) ∧ stream s' cur' evs') as Hab.
  { intros s' (l' & q' & -> & G1 & G2 & G3 & G4). split; [by destruct Hc2; split|]. split; [done|].
    split; [intros k j Hk Hj Hgk; apply G4; [done|]; by apply (Hg1 k j Hk Hj)|].
    split; [done| |done..]. cbn [rl with_buffered with_rl]. by rewrite G2. }
  destruct (Z.eqb_spec (af_seq f) (read_seq s)) as [Es|Es]; cbn [negb].
  2:{ destruct (out_of_seq_spec s2 f _ false Hc2 Hf E1) as (ok' & s' & -> & Hok' & Ha).
      rewrite Hok' by done. destruct (Hab _ Ha) as (A1 & A2 & A3 & A4).
      eexists _, false, _, _. split; [reflexivity|]. left. do 5 (split; [done|]).
      exists f, cur', evs'. done. }
  destruct (decide (af_len f < blen (read_seq s))) as [Hp|Hp].
  - rewrite Es in *. rewrite (proj2 (Z.ltb_lt _ _) Hp), (proj2 (Z.eqb_neq _ _)) by lia. cbn [negb andb].
    destruct (reassemble_spec s2 f _ false Hc2 Hf ltac:(lia) E1) as (ok' & s' & -> & Hok' & Ha & Hcv).
    rewrite Hok' by done. destruct (Hab _ Ha) as (A1 & A2 & A3 & A4).
    eexists _, false, _, _. split; [reflexivity|]. left. do 5 (split; [done|]).
    exists f, cur', evs'. do 2 (split; [done|]). intros _. split; [done|]. by rewrite <- Es.
  - rewrite Es in *. rewrite (proj2 (Z.ltb_ge _ (blen _))) by lia. rewrite andb_false_r.
    assert (getb (dtls1_write_message_header (af_hdr f)) 0 = mtype (read_seq s)) as -> by (by rewrite <- Es).
    destruct (Hmsgs _ Hq) as (_ & Hnh & _). rewrite (proj2 (Z.eqb_neq _ _) Hnh), andb_false_r.
    destruct (whole_message_read s2 f cur' stn Hc2 Hf Es ltac:(cbn; lia) E1) as
      (h & b & s' & Ep & Er & Eb & Hd & Hcd & Hbu & G1 & G2).
    rewrite Ep. cbn [Z.eqb negb]. change (read_seq s2) with (read_seq s) in *.
    cbn [af_hdr hm_frag_off hm_frag_len] in Er |- *. rewrite Er, Eb, Z.eqb_refl. cbn [negb].
    eexists _, true, _, _. split; [reflexivity|]. split; [lia|]. split; [by destruct Hd; split|]. split; [done|].
    split; [|exists cur', evs'; split; [split; [done|by rewrite G2|done..]|right; by exists f]].
    intros k j Hk Hj Hgk. apply Hg1 in Hgk; [|lia|done]. unfold got. by rewrite Hbu.
Qed.

(** ** Whole messages *)

(** Fragments and failures still to come. *)
Definition remaining (cur : list afrag) (evs : list (nat + list afrag)) : nat :=
  (length cur + sum_list_with (λ e, match e with inl _ => 1 | inr fs => S (length fs) end) evs)%nat.

(** The fragments that arrive before an attempt fails. *)
Fixpoint arriving_events (evs : list (nat + list afrag)) : list afrag :=
  match evs with
  | inr fs :: evs => fs ++ arriving_events evs
  | _ => []
  end.
Definition arriving (cur : list afrag) (evs : list (nat + list afrag)) : list afrag :=
  cur ++ arriving_events evs.

(** Every byte of the expected message has been received or is about to be. *)
Definition awaited s cur evs : Prop :=
  let r := read_seq s in
  ready s ∨
  (blen r = 0 → ∃ f, f ∈ arriving cur evs ∧ af_seq f = r) ∧
  (∀ j, 0 ≤ j < blen r → got s r j ∨ ∃ f, f ∈ arriving cur evs ∧ af_seq f = r ∧ covers f j).

Lemma next_frag_remaining cur evs f cur' evs' : next_frag cur evs = Some (f, cur', evs') →
  (remaining cur' evs' < remaining cur evs)%nat ∧ arriving cur evs = f :: arriving cur' evs'.
Proof.
  unfold remaining, arriving. destruct cur as [|g cur]; cbn [next_frag].
  - destruct evs as [|[n|[|g fs]] evs]; try done. intros [= <- <- <-]. cbn. split; [lia|done].
  - intros [= <- <- <-]. cbn. split; [lia|done].
Qed.

Lemma next_frag_none cur evs : Forall ev_ok evs → next_frag cur evs = None → arriving cur evs = [].
Proof.
  unfold arriving. destruct cur as [|g cur]; [|done].
  destruct evs as [|[n|[|g fs]] evs]; cbn; try done. intros [[? _] _]%Forall_cons. done.
Qed.

Lemma awaited_waits s cur evs i s' : core s → stream s cur evs → awaited s cur evs →
  round_waits s cur evs i s' → False.
Proof.
  intros Hc [_ _ _ Hok] Ha (_ & _ & _ & Hnr & Hn & _). apply next_frag_none in Hn; [|done].
  destruct Ha as [Ha|[Ha1 Ha2]]; [done|]. rewrite Hn in Ha1, Ha2.
  assert (0 ≤ blen (read_seq s)) as [Hpos|H0]%Z.le_lteq by (unfold blen; lia).
  - apply Hnr, all_got_ready; [done..|]. intros j Hj.
    destruct (Ha2 j Hj) as [?|(f & Hf & _)]; [done|]. by apply elem_of_nil in Hf.
  - destruct (Ha1 (eq_sym H0)) as (f & Hf & _). by apply elem_of_nil in Hf.
Qed.

Lemma awaited_buffers s cur evs i s' f cur' evs' : awaited s cur evs →
  ¬ ready s → read_seq s' = read_seq s → next_frag cur evs = Some (f, cur', evs') →
  (∀ k j, read_seq s ≤ k → 0 ≤ j → got s k j → got s' k j) →
  (af_seq f = read_seq s → af_len f < blen (read_seq s) ∧ ∀ j, covers f j → got s' (read_seq s) j) →
  i = DTLS1_HM_FRAGMENT_RETRY → Forall af_ok (f :: cur') → awaited s' cur' evs'.
Proof.
  intros [Ha|[Ha1 Ha2]] Hnr Es Hn Hg Hf _ Hok; [done|]. apply next_frag_remaining in Hn as [_ Har].
  rewrite Har in Ha1, Ha2. right. rewrite Es. split.
  - intros H0. destruct (Ha1 H0) as (g & Hge & Hgs). apply elem_of_cons in Hge as [->|Hge]; [|by exists g].
    destruct (Hf Hgs) as [Hlt _]. apply Forall_cons in Hok as [(_ & _ & ? & _) _]. lia.
  - intros j Hj. destruct (Ha2 j Hj) as [Hgot|(g & Hge & Hgs & Hgc)]; [left; by apply Hg; [lia|lia|]|].
    apply elem_of_cons in Hge as [->|Hge]; [left; by apply Hf|right; by exists g].
Qed.

(** What [dtls1_get_message] leaves when it delivers message [r]. *)
Record message_received (r : Z) s (i : Z) s' : Prop := {
  mr_value : i = blen r;
  mr_num : init_num s' = blen r;
  mr_body : take (Z.to_nat (blen r)) (drop 12 (buf_data (init_buf s'))) = body r;
  mr_type : message_type s' = mtype r;
  mr_seq : read_seq s' = u16 (r + 1);
  mr_hash : hash_input s' = hash_input s ++ dtls1_write_message_header (whole_hdr r) ++ body r;
  mr_alerts : alerts s' = alerts s
}.

Lemma message_done_spec s s1 msg_type : delivered (read_seq s) s s1 → core s1 →
  (0 ≤ msg_type → msg_type = mtype (read_seq s)) →
  ∃ i s', message_done conf s1 true msg_type = (i, true, s') ∧ message_received (read_seq s) s i s' ∧
    core s' ∧ rl s' = rl s1 ∧ buffered s' = buffered s1 ∧ reuse_message s' = reuse_message s1.
Proof.
  intros Hd [Hqu Hrs Hoff Hbuf] Ht. pose proof Hd as [D1 D2 D3 D4 D5 D6 D7 D8 D9 D10 D11 D12].
  destruct Hbuf as (B1 & B2 & B3 & B4). assert (0 ≤ read_seq s < 2 ^ 16) as Hr by (by rewrite <- D9).
  destruct (Hmsgs _ Hr) as (Hby & _). assert (0 ≤ blen (read_seq s)) as Hb0 by (unfold blen; lia).
  unfold message_done. rewrite D1, D2, D3, Hlisten.
  assert ((0 <=? msg_type) && negb (mtype (read_seq s) =? msg_type) = false) as ->.
  { destruct (Z.leb_spec 0 msg_type); [|done]. rewrite Ht, Z.eqb_refl by done. done. }
  change ([mtype (read_seq s)] ++ l2n3 (blen (read_seq s)) ++ s2n (read_seq s) ++ l2n3 0 ++ l2n3 (blen (read_seq s)))
    with (dtls1_write_message_header (whole_hdr (read_seq s))).
  set (hdr := dtls1_write_message_header (whole_hdr (read_seq s))).
  assert (length hdr = 12%nat) as Hh by done.
  assert (Hsp : splice (buf_data (init_buf s1)) 0 hdr = hdr ++ drop 12 (buf_data (init_buf s1))).
  { unfold splice. rewrite take_0, Hh. done. }
  assert (Hls : length (splice (buf_data (init_buf s1)) 0 hdr) = length (buf_data (init_buf s1))).
  { apply length_splice. lia. }
  eexists _, _. split; [reflexivity|]. split; [|split; [|done]].
  - split; cbn [init_num init_buf buf_data message_type read_seq hash_input alerts with_buf tls1_finish_mac with_r_msg_hdr];
      try done.
    + by rewrite D9.
    + rewrite D10, Hsp. f_equal. unfold DTLS1_HM_HEADER_LENGTH.
      replace (Z.to_nat (blen (read_seq s) + 12)) with (length hdr + Z.to_nat (blen (read_seq s)))%nat by lia.
      by rewrite take_app_add, D4.
  - split; cbn [buffered read_seq r_msg_hdr init_buf with_buf tls1_finish_mac with_r_msg_hdr]; try done.
    + unfold u16. apply Z.mod_pos_bound. lia.
    + split; [done|]. cbn [buf_max buf_data]. rewrite Hls. split; [done|]. split; [done|].
      apply bytes_splice; [done|]. by apply bytes_write_message_header.
Qed.

Lemma message_loop_spec fuel : ∀ s cur evs stn msg_type, core s → stream s cur evs →
  (0 ≤ msg_type → msg_type = mtype (read_seq s)) → (remaining cur evs < fuel)%nat →
  ∃ i ok s' cur' evs', message_loop malloc conf s stn msg_type max fuel = Some (i, ok, s') ∧
    core s' ∧ stream s' cur' evs' ∧ reuse_message s' = reuse_message s ∧
    (∀ k j, read_seq s < k → 0 ≤ j → got s k j → got s' k j) ∧
    (if ok then message_received (read_seq s) s i s' else (i = 0 ∨ i = -1) ∧ same s s') ∧
    (awaited s cur evs → ok = true).
Proof.
  induction fuel as [|fuel IH]; intros s cur evs stn msg_type Hc Hst Ht Hf; [lia|].
  cbn [message_loop dtls1_get_message_fragment].
  destruct (step_spec s cur evs stn Hc Hst) as (i & ok & s1 & t & -> & H). destruct ok.
  - destruct H as (-> & Hd & Hc1 & Hg & cur' & evs' & Hst1 & _).
    destruct (message_done_spec s s1 msg_type Hd Hc1 Ht) as (i & s' & E & Hm & Hc' & Er & Eb & Eu).
    assert (0 ≤ blen (read_seq s)) by (unfold blen; lia).
    rewrite (proj2 (Z.eqb_neq _ DTLS1_HM_BAD_FRAGMENT)), (proj2 (Z.eqb_neq _ DTLS1_HM_FRAGMENT_RETRY))
      by (unfold DTLS1_HM_BAD_FRAGMENT, DTLS1_HM_FRAGMENT_RETRY; lia).
    cbn [orb negb]. rewrite andb_false_r, E. exists i, true, s', cur', evs'. split; [done|]. split; [done|].
    split; [by apply (stream_rl s1)|]. split; [rewrite Eu; apply Hd|].
    split; [|done]. intros k j Hk Hj Hgk. unfold got. rewrite Eb. by apply Hg.
  - destruct H as [(-> & Hc1 & Hs & Hnr & Hg & f & cur1 & evs1 & Hn & Hst1 & Hcv)|Hw].
    + change ((DTLS1_HM_FRAGMENT_RETRY =? DTLS1_HM_BAD_FRAGMENT) || (DTLS1_HM_FRAGMENT_RETRY =? DTLS1_HM_FRAGMENT_RETRY))
        with true. cbn iota.
      pose proof (next_frag_remaining _ _ _ _ _ Hn) as [Hrem _]. destruct Hs as (S1 & S2 & S3 & S4).
      destruct (IH s1 cur1 evs1 stn msg_type Hc1 Hst1) as (i & ok & s' & cur' & evs' & E & Hc' & Hst' & Eu & Hg' & Hm & Ha);
        [by rewrite S1|lia|].
      rewrite S1 in Hg', Hm.
      exists i, ok, s', cur', evs'. do 3 (split; [done|]). split; [by rewrite Eu|].
      split; [intros k j Hk Hj Hgk; apply Hg'; [done..|]; apply Hg; [lia|done..]|]. split.
      * destruct ok; [destruct Hm; split; try done; congruence|].
        destruct Hm as [Hi (T1 & T2 & T3 & T4)]. split; [done|]. split; [congruence|]. split; [congruence|].
        split; congruence.
      * intros Haw. apply Ha. eapply (awaited_buffers s cur evs); try done.
        destruct Hst as [_ _ Hcok Heok]. constructor.
        -- destruct cur as [|g cur]; [destruct evs as [|[n|[|g fs]] evs]|]; try done; injection Hn as -> -> ->.
           ++ apply Forall_cons in Heok as [[_ Hfs] _]. by apply Forall_cons in Hfs as [Hfs _].
           ++ by apply Forall_cons in Hcok as [Hcok _].
        -- apply Hst1.
    + pose proof Hw as (Hi & Hc1 & Hs & Hnr & Hn & Hg & Hst1).
      rewrite (proj2 (Z.eqb_neq _ DTLS1_HM_BAD_FRAGMENT)), (proj2 (Z.eqb_neq _ DTLS1_HM_FRAGMENT_RETRY))
        by (unfold DTLS1_HM_BAD_FRAGMENT, DTLS1_HM_FRAGMENT_RETRY; lia).
      cbn [orb negb]. rewrite (proj2 (Z.leb_le _ _)) by lia. cbn [andb].
      exists i, false, s1, [], (tail evs). do 3 (split; [done|]). split; [apply Hs|].
      split; [intros; by apply Hg; [lia|..]|]. split; [done|].
      intros Haw. by destruct (awaited_waits s cur evs i s1 Hc Hst Haw Hw).
Qed.

Lemma get_message_spec s cur evs stn msg_type fuel : core s → stream s cur evs →
  reuse_message s = false → (0 ≤ msg_type → msg_type = mtype (read_seq s)) →
  (remaining cur evs < fuel)%nat →
  ∃ i ok s' cur' evs', dtls1_get_message malloc conf s stn msg_type max fuel = Some (i, ok, s') ∧
    core s' ∧ stream s' cur' evs' ∧ reuse_message s' = false ∧
    (∀ k j, read_seq s < k → 0 ≤ j → got s k j → got s' k j) ∧
    (if ok then message_received (read_seq s) s i s' else (i = 0 ∨ i = -1) ∧ same s s') ∧
    (awaited s cur evs → ok = true).
Proof.
  intros Hc Hst Hu Ht Hf. unfold dtls1_get_message. rewrite Hu.
  assert (core (with_r_msg_hdr s hm0)) as Hc0 by (by destruct Hc; split).
  destruct (message_loop_spec fuel (with_r_msg_hdr s hm0) cur evs stn msg_type Hc0) as
    (i & ok & s' & cur' & evs' & E & H1 & H2 & H3 & H4 & H5 & H6); [by apply (stream_rl s)|done|done|].
  exists i, ok, s', cur', evs'. split; [done|]. split; [done|]. split; [done|].
  split; [by rewrite H3|]. split; [done|]. split; [|done]. destruct ok; [by destruct H5; split|done].
Qed.
End receiver.
End peer.

(** ** The theorems *)

(** A peer's table of messages within the limits, memory that does not run out, and a receiver
    that is not listening for a first message. *)
Record peer_ok (msgs : Z → Z * list Z) (conf : hs_conf) (max : Z) (malloc : nat → option (list Z)) : Prop := {
  pe_msgs : ∀ q, 0 ≤ q < 2 ^ 16 → msg_ok msgs conf max q;
  pe_max : max < 2 ^ 31;
  pe_malloc : malloc_spec malloc;
  pe_memory : ∀ n, is_Some (malloc n);
  pe_listen : listen conf = false
}.

(** The receiver's state is right and the record layer delivers fragments of the peer's messages:
    [cur] from the current record, [evs] after that. *)
Record receiving {L} {RL : RecordLayer L} msgs (s : hs L) (cur : list afrag) (evs : list (nat + list afrag))
    : Prop := {
  re_core : core msgs s;
  re_stream : stream msgs s cur evs;
  re_reuse : reuse_message s = false
}.

(** C7: Handshake messages are delivered in order and unchanged.  The receiver is not listening, has memory
    and gets fragments of the peer's messages, each with at least a byte unless its message is empty, in
    any order, overlapping or repeated.  Then [dtls1_get_message] either returns 0 or -1 because no
    record came, with the sequence number and the handshake hash unchanged, or it delivers exactly the
    message with the expected number: its length, its body behind the header in [init_buf], its type;
    the handshake hash has received the header of the unfragmented message and the body, and the next
    number is expected.  In both cases the receiver is in a right state and nothing that had been
    received of a later message is lost.  The conditions are needed: [empty_fragment_delivered] and
    [out_of_memory_delivered] show what the code does without them. *)
Theorem dtls1_get_message_in_order {L} {RL : RecordLayer L} msgs conf max malloc (s : hs L) cur evs
    stn msg_type fuel :
  peer_ok msgs conf max malloc → receiving msgs s cur evs →
  (0 ≤ msg_type → msg_type = mtype msgs (read_seq s)) → (remaining cur evs < fuel)%nat →
  ∃ i ok s' cur' evs', dtls1_get_message malloc conf s stn msg_type max fuel = Some (i, ok, s') ∧
    receiving msgs s' cur' evs' ∧
    (∀ k j, read_seq s < k → 0 ≤ j → got s k j → got s' k j) ∧
    (if ok : bool then message_received msgs (read_seq s) s i s' else (i = 0 ∨ i = -1) ∧ same s s').
Proof.
  intros [P1 P2 P3 P4 P5] [R1 R2 R3] Ht Hf.
  destruct (get_message_spec msgs conf max P1 P2 malloc P3 P4 P5 s cur evs stn msg_type fuel R1 R2 R3 Ht Hf)
    as (i & ok & s' & cur' & evs' & E & H1 & H2 & H3 & H4 & H5 & _).
  by exists i, ok, s', cur', evs'.
Qed.


(** Three bytes in two fragments that arrive in the wrong order. *)
Definition demo_msgs (q : Z) : Z * list Z := (11, [5; 6; 7]).
Definition demo_evs : list (nat + list afrag) := [inr [mkAF 0 1 2]; inr [mkAF 0 0 1]; inl 1%nat].
Definition demo_hs : hs dtls_reader := fresh_hs (ev_wire demo_msgs <$> demo_evs).

Lemma demo_peer : peer_ok demo_msgs client_conf 100 ones.
Proof.
  split; [| |apply ones_ok|by eexists|done]; [|lia].
  intros q _. unfold msg_ok, is_byte, blen. cbn. repeat split; try lia; try done.
  repeat constructor; unfold is_byte; lia.
Qed.

Lemma demo_receiving : receiving demo_msgs demo_hs [] demo_evs.
Proof.
  split; [| |done].
  - split; [|cbn; lia|done|].
    + split; [apply pqueue_new_wf|constructor].
    + split; [cbn; lia|]. split; [done|]. split; [cbn; lia|]. constructor.
  - split; [done|done|constructor|].
    assert (∀ o l, 0 ≤ o → 0 < l → o + l ≤ 3 → af_ok demo_msgs (mkAF 0 o l)) as Hok.
    { intros o l Ho Hl H. unfold af_ok, blen. cbn. lia. }
    repeat constructor; try done; apply Hok; lia.
Qed.

Lemma dtls1_get_message_in_order_witness :
  ∃ i ok s', dtls1_get_message ones client_conf demo_hs 0 11 100 10 = Some (i, ok, s') ∧
    (if ok : bool then message_received demo_msgs 0 demo_hs i s' else (i = 0 ∨ i = -1) ∧ same demo_hs s').
Proof.
  destruct (dtls1_get_message_in_order demo_msgs client_conf 100 ones demo_hs [] demo_evs 0 11 10 demo_peer
    demo_receiving ltac:(done) ltac:(vm_compute; lia)) as (i & ok & s' & cur' & evs' & E & _ & _ & H).
  exists i, ok, s'. split; [exact E|exact H].
Defined.


(** ** Two deviations *)

(** A fragment without bytes of a message with bytes is delivered as the whole message: the body is
    what the buffer held. *)
Lemma empty_fragment_delivered :
  let hdr := dtls1_write_message_header (mkHM 11 3 0 0 0 0 rs0) in
  match dtls1_get_message ones client_conf (fresh_hs [inr hdr]) 0 11 100 10 with
  | Some (i, ok, s') => i = 0 ∧ ok = true ∧ hash_input s' =
      dtls1_write_message_header (mkHM 11 3 0 0 3 0 rs0) ++ [0; 0; 0]
  | None => False
  end.
Proof. vm_compute. done. Qed.

(** When the node for a whole message that came too early cannot be allocated, the value returned is
    the length of the message: the caller takes this for a message, puts an empty header into the
    handshake hash and moves on to the next sequence number. *)
Lemma out_of_memory_delivered :
  let malloc n := if (n =? sizeof_pitem)%nat then None else ones n in
  let s := fresh_hs [inr (dtls1_write_message_header (mkHM 11 3 1 0 3 0 rs0) ++ [5; 6; 7])] in
  match dtls1_get_message malloc client_conf s 0 (-1) 100 10 with
  | Some (i, ok, s') => ok = false ∧ read_seq s' = 1 ∧
      hash_input s' = replicate 12 0
  | None => False
  end.
Proof. vm_compute. done. Qed.
