(* ===== verification/DtlsWrite.v ===== *)
(** * DTLS handshake messages: fragmentation and retransmission

    Models the sending half of [ssl/d1_both.c]: the choice of the MTU
    ([dtls1_query_mtu], [dtls1_min_mtu]), [dtls1_do_write], which cuts the message in
    [init_buf] into records that fit the MTU and writes the header of each fragment
    over bytes that have been sent, and the buffer for retransmission
    ([dtls1_buffer_message], [dtls1_retransmit_message],
    [dtls1_retransmit_buffered_messages], [dtls1_send_change_cipher_spec]).

    The environment [wenv] has what the code asks of the cipher contexts, of the
    options and of the write BIO.  What the BIO does during a call, pending bytes,
    flushing and the fate of the record, is a list of [wio], one for each round of
    the loop; records that go out are logged with the cipher state and the sequence
    number they are protected under.  Of [dtls1_write_bytes] the effects on the
    sequence number, on [rwstate] and the value returned are modelled, the protection
    of the record is in [TlsAead] and [TlsRecord]; no alert waits to be dispatched
    ([s3->alert_dispatch] is 0).  Assertions that fail end the program: [WAssert].

    The theorems say that the records are the fragments of the message, in order and
    without gaps, under consecutive sequence numbers, that each fits the MTU, that
    the handshake hash receives the message as if it had not been cut, that an
    interrupted call can be continued, that a retransmission uses and restores the
    sequence numbers of the right epoch, and that the receiver of [DtlsFrag] gets the
    message back from the records in any order.  They are about a BIO that does not
    refuse a record where the code would try again in the same call: there the code
    sends too much ([second_attempt_too_long]). *)

From S2P Require Import Prelude Pqueue Buffer DtlsHeader DtlsFrag DtlsDeliver.
From stdpp Require Import gmap.
#[local] Open Scope Z_scope.

Definition SSL3_RT_HANDSHAKE : Z := 22.
Definition SSL3_RT_CHANGE_CIPHER_SPEC : Z := 20.
Definition SSL3_MT_CCS : Z := 1.
Definition DTLS1_RT_HEADER_LENGTH : Z := 13.
Definition SSL_NOTHING : Z := 1.
Definition SSL_WRITING : Z := 2.
Definition INT_MAX : Z := 2147483647.
Definition SSL3_RT_MAX_PLAIN_LENGTH : Z := 16384.

Record wenv := mkEnv {
  mac_size_of : dtls1_retransmit_state → Z;     (* EVP_MD_CTX_size, 0 for AEAD ciphers *)
  block_size_of : dtls1_retransmit_state → Z;   (* twice the block size in CBC mode, else 0 *)
  mtu_overhead : Z;                             (* BIO_dgram_get_mtu_overhead *)
  query_mtu : Z;                                (* BIO_CTRL_DGRAM_QUERY_MTU *)
  no_query_mtu : bool                           (* SSL_OP_NO_QUERY_MTU *)
}.

(** What becomes of a record: it is protected and [BIO_write] takes all of it, perhaps in parts; it is
    protected and [BIO_write] returns [i], not above 0; or it cannot be protected. *)
Inductive wresult := WrTaken | WrRefused (i : Z) | WrFailed.
#[export] Instance wresult_eq_dec : EqDecision wresult.
Proof. solve_decision. Defined.

(** One round: bytes pending in the BIO, result of [BIO_flush], and the fate of the record. *)
Record wio := mkIO { io_pending : Z; io_flush : Z; io_write : wresult }.

(** A record that went out: its type, the cipher state and the sequence number it was protected under,
    and what it carries. *)
Record wrecord := mkRec { wr_type : Z; wr_crypt : dtls1_retransmit_state; wr_seq : list Z; wr_data : list Z }.

(** The parts of [SSL], [s->s3] and [s->d1] that the sender uses. *)
Record ws := mkWS {
  w_data : list Z;                    (* init_buf->data *)
  w_off : Z;                          (* init_off *)
  w_num : Z;                          (* init_num *)
  w_hdr : hm_header;                  (* d1->w_msg_hdr *)
  w_mtu : Z;
  w_link_mtu : Z;
  w_seq : Z;                          (* d1->handshake_write_seq *)
  w_next_seq : Z;                     (* d1->next_handshake_write_seq *)
  w_sent : pqueue hm_fragment;        (* d1->sent_messages *)
  w_retransmitting : bool;
  w_crypt : dtls1_retransmit_state;   (* enc_write_ctx, write_hash, session, w_epoch *)
  w_sequence : list Z;                (* s3->write_sequence *)
  w_last_sequence : list Z;           (* d1->last_write_sequence *)
  w_state : Z;
  w_rwstate : Z;
  w_hash : list Z;                    (* bytes given to tls1_finish_mac *)
  w_out : list wrecord;
  w_io : list wio
}.

(** Results: the value returned, or a failed assertion; [WFuel] when the rounds did not suffice. *)
Inductive wres := WRet (i : Z) (s : ws) | WAssert | WFuel.

Definition set_pos (s : ws) (off num : Z) : ws :=
  mkWS (w_data s) off num (w_hdr s) (w_mtu s) (w_link_mtu s) (w_seq s) (w_next_seq s) (w_sent s)
    (w_retransmitting s) (w_crypt s) (w_sequence s) (w_last_sequence s) (w_state s) (w_rwstate s)
    (w_hash s) (w_out s) (w_io s).
Definition set_wdata (s : ws) (d : list Z) : ws :=
  mkWS d (w_off s) (w_num s) (w_hdr s) (w_mtu s) (w_link_mtu s) (w_seq s) (w_next_seq s) (w_sent s)
    (w_retransmitting s) (w_crypt s) (w_sequence s) (w_last_sequence s) (w_state s) (w_rwstate s)
    (w_hash s) (w_out s) (w_io s).
Definition set_whdr (s : ws) (h : hm_header) : ws :=
  mkWS (w_data s) (w_off s) (w_num s) h (w_mtu s) (w_link_mtu s) (w_seq s) (w_next_seq s) (w_sent s)
    (w_retransmitting s) (w_crypt s) (w_sequence s) (w_last_sequence s) (w_state s) (w_rwstate s)
    (w_hash s) (w_out s) (w_io s).
Definition set_mtu (s : ws) (m l : Z) : ws :=
  mkWS (w_data s) (w_off s) (w_num s) (w_hdr s) m l (w_seq s) (w_next_seq s) (w_sent s)
    (w_retransmitting s) (w_crypt s) (w_sequence s) (w_last_sequence s) (w_state s) (w_rwstate s)
    (w_hash s) (w_out s) (w_io s).
Definition set_rwstate (s : ws) (r : Z) : ws :=
  mkWS (w_data s) (w_off s) (w_num s) (w_hdr s) (w_mtu s) (w_link_mtu s) (w_seq s) (w_next_seq s) (w_sent s)
    (w_retransmitting s) (w_crypt s) (w_sequence s) (w_last_sequence s) (w_state s) r
    (w_hash s) (w_out s) (w_io s).
Definition set_seqs (s : ws) (sq next : Z) : ws :=
  mkWS (w_data s) (w_off s) (w_num s) (w_hdr s) (w_mtu s) (w_link_mtu s) sq next (w_sent s)
    (w_retransmitting s) (w_crypt s) (w_sequence s) (w_last_sequence s) (w_state s) (w_rwstate s)
    (w_hash s) (w_out s) (w_io s).
Definition set_sent (s : ws) (q : pqueue hm_fragment) : ws :=
  mkWS (w_data s) (w_off s) (w_num s) (w_hdr s) (w_mtu s) (w_link_mtu s) (w_seq s) (w_next_seq s) q
    (w_retransmitting s) (w_crypt s) (w_sequence s) (w_last_sequence s) (w_state s) (w_rwstate s)
    (w_hash s) (w_out s) (w_io s).
Definition set_crypt (s : ws) (b : bool) (c : dtls1_retransmit_state) (sq last : list Z) : ws :=
  mkWS (w_data s) (w_off s) (w_num s) (w_hdr s) (w_mtu s) (w_link_mtu s) (w_seq s) (w_next_seq s) (w_sent s)
    b c sq last (w_state s) (w_rwstate s) (w_hash s) (w_out s) (w_io s).
Definition set_wstate (s : ws) (st : Z) : ws :=
  mkWS (w_data s) (w_off s) (w_num s) (w_hdr s) (w_mtu s) (w_link_mtu s) (w_seq s) (w_next_seq s) (w_sent s)
    (w_retransmitting s) (w_crypt s) (w_sequence s) (w_last_sequence s) st (w_rwstate s)
    (w_hash s) (w_out s) (w_io s).
Definition add_hash (s : ws) (p : list Z) : ws :=
  mkWS (w_data s) (w_off s) (w_num s) (w_hdr s) (w_mtu s) (w_link_mtu s) (w_seq s) (w_next_seq s) (w_sent s)
    (w_retransmitting s) (w_crypt s) (w_sequence s) (w_last_sequence s) (w_state s) (w_rwstate s)
    (w_hash s ++ p) (w_out s) (w_io s).
Definition add_out (s : ws) (type : Z) (p : list Z) : ws :=
  mkWS (w_data s) (w_off s) (w_num s) (w_hdr s) (w_mtu s) (w_link_mtu s) (w_seq s) (w_next_seq s) (w_sent s)
    (w_retransmitting s) (w_crypt s) (w_sequence s) (w_last_sequence s) (w_state s) (w_rwstate s)
    (w_hash s) (w_out s ++ [mkRec type (w_crypt s) (w_sequence s) p]) (w_io s).

(** [tls1_record_sequence_increment] of [ssl/t1_enc.c]: bytes [n - 1] down to 0. *)
Fixpoint sequence_loop (sq : list Z) (n : nat) : list Z :=
  match n with
  | O => sq
  | S i =>
      let v := u8 (getb sq (Z.of_nat i) + 1) in
      let sq := setb sq (Z.of_nat i) v in
      if negb (v =? 0) then sq else sequence_loop sq i
  end.
Definition tls1_record_sequence_increment (sq : list Z) : list Z := sequence_loop sq 8.
#[global] Arguments tls1_record_sequence_increment : simpl never.

Definition next_sequence (s : ws) : ws :=
  set_crypt s (w_retransmitting s) (w_crypt s) (tls1_record_sequence_increment (w_sequence s)) (w_last_sequence s).

(** [do_dtls1_write] with no alert waiting: a record that cannot be protected uses no sequence number;
    one that is protected does, also when the BIO then refuses it and DTLS drops it, which leaves
    [rwstate] at [SSL_WRITING] ([ssl3_write_pending]); so no bytes are ever left to write from an
    earlier call.  The bytes of the record are not built: the log has its type, the cipher state with
    the epoch and the number it is protected under, and its contents. *)
Definition do_dtls1_write (s : ws) (type : Z) (buf : list Z) (w : wresult) : Z * ws :=
  match buf with
  | [] => (0, s)
  | _ =>
      match w with
      | WrFailed => (-1, s)
      | WrRefused i => (i, set_rwstate (next_sequence s) SSL_WRITING)
      | WrTaken => (Z.of_nat (length buf), set_rwstate (next_sequence (add_out s type buf)) SSL_NOTHING)
      end
  end.

(** [None] for the failed assertion on the length. *)
Definition dtls1_write_bytes (s : ws) (type : Z) (buf : list Z) (w : wresult) : option (Z * ws) :=
  if SSL3_RT_MAX_PLAIN_LENGTH <? Z.of_nat (length buf) then None
  else Some (do_dtls1_write (set_rwstate s SSL_NOTHING) type buf w).

(** The next round of the BIO; an idle BIO that accepts everything when none is given. *)
Definition next_io (s : ws) : wio * ws :=
  match w_io s with
  | [] => (mkIO 0 1 WrTaken, s)
  | io :: rest =>
      (io, mkWS (w_data s) (w_off s) (w_num s) (w_hdr s) (w_mtu s) (w_link_mtu s) (w_seq s) (w_next_seq s)
             (w_sent s) (w_retransmitting s) (w_crypt s) (w_sequence s) (w_last_sequence s) (w_state s)
             (w_rwstate s) (w_hash s) (w_out s) rest)
  end.

Section sender.
Context (env : wenv) (malloc : nat → option (list Z)).

(** ** The MTU *)

Definition g_probable_mtu : list Z := [1500; 512; 256].
Definition dtls1_link_min_mtu : Z := getb g_probable_mtu (Z.of_nat (length g_probable_mtu) - 1).
Definition dtls1_min_mtu : Z := u32 (dtls1_link_min_mtu - mtu_overhead env).

Definition dtls1_query_mtu (s : ws) : bool * ws :=
  let s := if negb (w_link_mtu s =? 0) then set_mtu s (u32 (w_link_mtu s - mtu_overhead env)) 0 else s in
  if w_mtu s <? dtls1_min_mtu then
    if negb (no_query_mtu env) then
      let s := set_mtu s (u32 (query_mtu env)) (w_link_mtu s) in
      (true, if w_mtu s <? dtls1_min_mtu then set_mtu s dtls1_min_mtu (w_link_mtu s) else s)
    else (false, s)
  else (true, s).

(** ** Writing a message *)

(** Before a fragment other than the first is written: the fragment offset, and room for its
    header; [None] for [return -1]. *)
Definition step_back (type : Z) (s : ws) (frag_off : Z) : option (Z * ws) :=
  if (type =? SSL3_RT_HANDSHAKE) && negb (w_off s =? 0) then
    if 0 <? frag_off then
      if w_off s <=? DTLS1_HM_HEADER_LENGTH then None
      else Some (frag_off, set_pos s (w_off s - DTLS1_HM_HEADER_LENGTH) (w_num s + DTLS1_HM_HEADER_LENGTH))
    else Some (hm_frag_off (w_hdr s), s)
  else Some (frag_off, s).

(** The room in the next datagram: [inr] the bytes, [inl] the value to return. *)
Definition current_mtu (s : ws) (io : wio) : Z + Z :=
  let fixed := DTLS1_RT_HEADER_LENGTH + mac_size_of env (w_crypt s) + block_size_of env (w_crypt s) in
  let used_len := io_pending io + fixed in
  let curr_mtu := if used_len <? w_mtu s then w_mtu s - used_len else 0 in
  if curr_mtu <=? DTLS1_HM_HEADER_LENGTH then
    if io_flush io <=? 0 then inl (io_flush io)
    else if fixed + DTLS1_HM_HEADER_LENGTH <? w_mtu s then inr (w_mtu s - fixed)
    else inl (-1)
  else inr curr_mtu.

(** Writing the header of the fragment into the buffer. *)
Definition put_header (type : Z) (s : ws) (frag_off len : Z) : ws :=
  if type =? SSL3_RT_HANDSHAKE then
    let s := set_whdr s (dtls1_fix_message_header (w_hdr s) frag_off (len - DTLS1_HM_HEADER_LENGTH)) in
    set_wdata s (splice (w_data s) (Z.to_nat (w_off s)) (dtls1_write_message_header (w_hdr s)))
  else s.

(** The handshake hash of a fragment that was sent; for the first one the header is rewritten as that
    of the whole message. *)
Definition hash_fragment (type : Z) (s : ws) (frag_off ret : Z) : ws :=
  if (type =? SSL3_RT_HANDSHAKE) && negb (w_retransmitting s) then
    let h := w_hdr s in
    if frag_off =? 0 then
      let hdr := [hm_type h] ++ l2n3 (hm_msg_len h) ++ s2n (hm_seq h) ++ l2n3 0 ++ l2n3 (hm_msg_len h) in
      let s := set_wdata s (splice (w_data s) (Z.to_nat (w_off s)) hdr) in
      add_hash s (take (Z.to_nat ret) (drop (Z.to_nat (w_off s)) (w_data s)))
    else
      add_hash s (take (Z.to_nat (ret - DTLS1_HM_HEADER_LENGTH))
                    (drop (Z.to_nat (w_off s + DTLS1_HM_HEADER_LENGTH)) (w_data s)))
  else s.

(** The loop; every round that sends a fragment sends at least a byte of the message. *)
Fixpoint write_loop (type : Z) (s : ws) (frag_off : Z) (retry : bool) (fuel : nat) : wres :=
  match fuel with
  | O => WFuel
  | S fuel' =>
      if w_num s <=? 0 then WRet 0 s
      else
        match step_back type s frag_off with
        | None => WRet (-1) s
        | Some (frag_off, s) =>
            let '(io, s) := next_io s in
            match current_mtu s io with
            | inl r => WRet r (if io_flush io <=? 0 then set_rwstate s SSL_WRITING else s)
            | inr curr_mtu =>
                let len := if curr_mtu <? w_num s then curr_mtu else w_num s in
                let len := if INT_MAX <? len then INT_MAX else len in
                if (type =? SSL3_RT_HANDSHAKE) && (len <? DTLS1_HM_HEADER_LENGTH) then WRet (-1) s
                else
                  let s := put_header type s frag_off len in
                  let buf := take (Z.to_nat len) (drop (Z.to_nat (w_off s)) (w_data s)) in
                  match dtls1_write_bytes s type buf (io_write io) with
                  | None => WAssert
                  | Some (ret, s) =>
                      if ret <? 0 then
                        if retry && negb (no_query_mtu env) then
                          let '(ok, s) := dtls1_query_mtu s in
                          if negb ok then WRet (-1) s else write_loop type s frag_off false fuel'
                        else WRet (-1) s
                      else if negb (len =? ret) then WAssert
                      else
                        let s := hash_fragment type s frag_off ret in
                        if ret =? w_num s then WRet 1 (set_pos s 0 0)
                        else
                          let s := set_pos s (w_off s + ret) (w_num s - ret) in
                          let frag_off := frag_off + (ret - DTLS1_HM_HEADER_LENGTH) in
                          let s := set_whdr s (dtls1_fix_message_header (w_hdr s) frag_off 0) in
                          write_loop type s frag_off retry fuel'
                  end
            end
        end
  end.

Definition dtls1_do_write (s : ws) (type : Z) (fuel : nat) : wres :=
  let '(ok, s) := dtls1_query_mtu s in
  if negb ok then WRet (-1) s
  else if w_mtu s <? dtls1_min_mtu then WAssert
  else if (w_off s =? 0) && (type =? SSL3_RT_HANDSHAKE)
          && negb (w_num s =? hm_msg_len (w_hdr s) + DTLS1_HM_HEADER_LENGTH) then WAssert
  else write_loop type (set_rwstate s SSL_NOTHING) 0 true fuel.

(** ** Headers and retransmission *)

(** [listening] is [s->d1->listen]; the pointer that is returned is twelve bytes further. *)
Definition dtls1_set_message_header (s : ws) (listening : bool) (mt len frag_off frag_len : Z) : ws :=
  let s := if (frag_off =? 0) && negb listening then set_seqs s (w_next_seq s) (u16 (w_next_seq s + 1))
           else s in
  set_whdr s (dtls1_set_message_header_int (w_hdr s) mt len (w_seq s) frag_off frag_len).

Definition dtls1_get_queue_priority (sq is_ccs : Z) : Z := sq * 2 - is_ccs.

(** [inl tt] for a failed assertion. *)
Definition dtls1_buffer_message (s : ws) (is_ccs : Z) : unit + Z * ws :=
  if negb (w_off s =? 0) then inl tt
  else
    match dtls1_hm_fragment_new malloc (w_num s) false with
    | None => inr (0, s)
    | Some frag =>
        let header_length := if negb (is_ccs =? 0) then DTLS1_CCS_HEADER_LENGTH else DTLS1_HM_HEADER_LENGTH in
        if negb (hm_msg_len (w_hdr s) + header_length =? w_num s) then inl tt
        else
          let h := mkHM (hm_type (w_hdr s)) (hm_msg_len (w_hdr s)) (hm_seq (w_hdr s)) 0
                     (hm_msg_len (w_hdr s)) is_ccs (w_crypt s) in
          let frag := mkFrag h (splice (fragment frag) 0 (take (Z.to_nat (w_num s)) (w_data s)))
                        (reassembly frag) in
          match pitem_alloc malloc (seq64be (dtls1_get_queue_priority (hm_seq h) is_ccs)) frag with
          | None => inr (0, s)
          | Some it => inr (1, set_sent s (pqueue_insert (w_sent s) it).2)
          end
    end.

Definition dtls1_send_change_cipher_spec (s : ws) (a b : Z) (fuel : nat) : wres :=
  let r :=
    if w_state s =? a then
      let s := set_wdata s (setb (w_data s) 0 SSL3_MT_CCS) in
      let s := set_seqs s (w_next_seq s) (w_next_seq s) in
      let s := set_pos s 0 DTLS1_CCS_HEADER_LENGTH in
      let s := set_whdr s (dtls1_set_message_header_int (w_hdr s) SSL3_MT_CCS 0 (w_seq s) 0 0) in
      match dtls1_buffer_message s 1 with
      | inl _ => None
      | inr (_, s) => Some (set_wstate s b)
      end
    else Some s in
  match r with
  | None => WAssert
  | Some s => dtls1_do_write s SSL3_RT_CHANGE_CIPHER_SPEC fuel
  end.

(** Returns [found] as well; the write BIO is flushed afterwards. *)
Definition dtls1_retransmit_message (s : ws) (sq : Z) (fuel : nat) : bool * wres :=
  match pqueue_find (w_sent s) (seq64be sq) with
  | None => (false, WRet 0 s)
  | Some item =>
      let frag := data item in
      let h := frag_hdr frag in
      let header_length := if negb (hm_is_ccs h =? 0) then DTLS1_CCS_HEADER_LENGTH else DTLS1_HM_HEADER_LENGTH in
      let n := hm_msg_len h + header_length in
      let s := set_wdata s (splice (w_data s) 0 (take (Z.to_nat n) (fragment frag))) in
      let s := set_pos s (w_off s) n in
      let s := set_whdr s (dtls1_set_message_header_int (w_hdr s) (hm_type h) (hm_msg_len h) (hm_seq h) 0
                             (hm_frag_len h)) in
      let saved := w_crypt s in
      let old_epoch := rs_epoch (hm_saved h) =? rs_epoch saved - 1 in
      let save_write_sequence := w_sequence s in
      let s := set_crypt s true (hm_saved h) (if old_epoch then w_last_sequence s else w_sequence s)
                 (w_last_sequence s) in
      match dtls1_do_write s (if negb (hm_is_ccs h =? 0) then SSL3_RT_CHANGE_CIPHER_SPEC else SSL3_RT_HANDSHAKE)
              fuel with
      | WRet ret s =>
          (true, WRet ret (if old_epoch then set_crypt s false saved save_write_sequence (w_sequence s)
                           else set_crypt s false saved (w_sequence s) (w_last_sequence s)))
      | r => (true, r)
      end
  end.

(** The iteration over the queue; [*found] is set by every call. *)
Fixpoint retransmit_loop (s : ws) (iter : list (pitem hm_fragment)) (fuel : nat) : wres :=
  match iter with
  | [] => WRet 1 s
  | item :: iter =>
      let h := frag_hdr (data item) in
      match dtls1_retransmit_message s (u16 (dtls1_get_queue_priority (hm_seq h) (hm_is_ccs h))) fuel with
      | (found, WRet r s) =>
          if (r <=? 0) && found then WRet (-1) s else retransmit_loop s iter fuel
      | (_, r) => r
      end
  end.

Definition dtls1_retransmit_buffered_messages (s : ws) (fuel : nat) : wres :=
  retransmit_loop s (w_sent s) fuel.
End sender.

(** ** Record sequence numbers *)

Lemma sequence_loop_spec n : ∀ sq, bytes sq → (n ≤ length sq)%nat →
  bytes (sequence_loop sq n) ∧ length (sequence_loop sq n) = length sq ∧
  drop n (sequence_loop sq n) = drop n sq ∧
  be_load (take n (sequence_loop sq n)) = (be_load (take n sq) + 1) `mod` 2 ^ (8 * Z.of_nat n).
Proof.
  induction n as [|n IH]; intros sq Hb Hl; cbn [sequence_loop].
  { repeat split; try done. }
  set (v := u8 (getb sq (Z.of_nat n) + 1)). set (sq1 := setb sq (Z.of_nat n) v).
  assert (bytes sq1 ∧ length sq1 = length sq) as [Hb1 Hl1] by (unfold sq1, v; split; [auto with vtls|len]).
  assert (is_byte v) as Hv by (unfold v; auto with vtls).
  assert (sq1 = <[n := v]> sq) as E1 by (unfold sq1, setb; by rewrite Nat2Z.id).
  assert (getb sq (Z.of_nat n) = nthZ sq n) as Eg by (unfold getb; by rewrite Nat2Z.id).
  pose proof (nthZ_byte sq n Hb) as Hx. pose proof (be_load_bound (take n sq) (bytes_take n sq Hb)) as Hbd.
  rewrite length_take, Nat.min_l in Hbd by lia.
  assert (2 ^ (8 * Z.of_nat (S n)) = 2 ^ (8 * Z.of_nat n) * 256) as Hpow.
  { replace (8 * Z.of_nat (S n)) with (8 * Z.of_nat n + 8) by lia. by rewrite Z.pow_add_r by lia. }
  assert (0 < 2 ^ (8 * Z.of_nat n)) by (apply Z.pow_pos_nonneg; lia).
  unfold is_byte in Hx. destruct (Z.eqb_spec v 0) as [E0|E0]; cbn [negb].
  - destruct (IH sq1 Hb1 ltac:(lia)) as (Hb2 & Hl2 & Hd2 & Hv2).
    destruct (be_counter_step sq (sequence_loop sq1 n) n v) as (D & T1 & T2);
      [done|done|lia|lia|done|by rewrite Hd2, E1|].
    split; [done|]. split; [lia|]. split; [done|]. rewrite T1, T2, Hv2, E1, take_insert_ge by lia.
    assert (nthZ sq n = 255) as Hx'.
    { unfold v, u8 in E0. rewrite Eg in E0. destruct (decide (nthZ sq n = 255)); [done|].
      rewrite Z.mod_small in E0 by lia. lia. }
    rewrite E0, Hx', Hpow. replace (be_load (take n sq) * 256 + 255 + 1) with ((be_load (take n sq) + 1) * 256) by lia.
    rewrite Z.mul_mod_distr_r by lia. lia.
  - destruct (be_counter_step sq sq1 n v) as (D & T1 & T2); [done|done|lia|lia|done|by rewrite E1|].
    split; [done|]. split; [done|]. split; [done|]. rewrite T1, T2, E1, take_insert_ge by lia.
    assert (v = nthZ sq n + 1 ∧ nthZ sq n < 255) as [-> Hx'].
    { unfold v, u8 in *. rewrite Eg in *. destruct (decide (nthZ sq n = 255)) as [E|].
      - rewrite E in E0. done.
      - rewrite Z.mod_small by lia. lia. }
    rewrite Z.mod_small by lia. lia.
Qed.

(** Incrementing a record sequence number adds one modulo [2^64]. *)
Lemma tls1_record_sequence_increment_spec sq : bytes sq → length sq = 8%nat →
  be_load (tls1_record_sequence_increment sq) = (be_load sq + 1) `mod` 2 ^ 64 ∧
  bytes (tls1_record_sequence_increment sq) ∧ length (tls1_record_sequence_increment sq) = 8%nat.
Proof.
  intros Hb Hl. destruct (sequence_loop_spec 8 sq Hb ltac:(lia)) as (H1 & H2 & _ & H4).
  rewrite !take_ge in H4 by lia. split; [exact H4|]. split; [done|]. by rewrite <- Hl.
Qed.

(** The record sequence number [n] after [sq], and the records that carry [ps] under the numbers from
    [sq] on. *)
Definition number_after (sq : list Z) (n : nat) : list Z := be_store 8 (be_load sq + Z.of_nat n).
Definition seq_ok (sq : list Z) : Prop := bytes sq ∧ length sq = 8%nat.
Definition records (type : Z) (c : dtls1_retransmit_state) (sq : list Z) (ps : list (list Z)) : list wrecord :=
  imap (λ i p, mkRec type c (number_after sq i) p) ps.

(** From [sq] to [sq'] one number was used for each of [n] records, and at most one for a record that
    the BIO refused, which ends the call. *)
Definition numbers_used (sq : list Z) (n : nat) (r : Z) (sq' : list Z) : Prop :=
  ∃ j, (j ≤ 1)%nat ∧ (r = 1 → j = 0%nat) ∧ sq' = number_after sq (n + j).

Lemma number_after_0 sq : seq_ok sq → number_after sq 0 = sq.
Proof. intros [Hb Hl]. unfold number_after. rewrite Z.add_0_r, <- Hl. by apply be_store_load. Qed.

Lemma number_after_ok sq n : seq_ok (number_after sq n).
Proof. unfold seq_ok, number_after. split; [auto with vtls|len]. Qed.

Lemma number_after_add sq n m : number_after (number_after sq n) m = number_after sq (n + m).
Proof.
  apply be_load_inj; [apply number_after_ok..|unfold number_after; len|].
  unfold number_after. rewrite !be_load_store, Zplus_mod_idemp_l. f_equal. lia.
Qed.

Lemma increment_number sq : seq_ok sq → tls1_record_sequence_increment sq = number_after sq 1.
Proof.
  intros [Hb Hl]. destruct (tls1_record_sequence_increment_spec sq Hb Hl) as (H1 & H2 & H3).
  apply be_load_inj; [done|apply number_after_ok|rewrite H3; unfold number_after; len|].
  rewrite H1. unfold number_after. by rewrite be_load_store.
Qed.

Lemma records_cons type c sq p ps : seq_ok sq →
  records type c sq (p :: ps) = mkRec type c sq p :: records type c (number_after sq 1) ps.
Proof.
  intros Hs. unfold records. rewrite imap_cons, number_after_0 by done. f_equal. apply imap_ext.
  intros i x _. unfold compose. by rewrite number_after_add.
Qed.

Lemma data_records type c sq ps : wr_data <$> records type c sq ps = ps.
Proof.
  unfold records. rewrite fmap_imap. unfold compose. cbn [wr_data].
  change (imap (const (λ p : list Z, p)) ps = ps). rewrite imap_const. apply list_fmap_id.
Qed.

Lemma numbers_used_S sq n r sq' : numbers_used (number_after sq 1) n r sq' → numbers_used sq (S n) r sq'.
Proof. intros (j & ? & ? & ->). exists j. by rewrite number_after_add. Qed.

Lemma numbers_used_0 sq r : seq_ok sq → numbers_used sq 0 r sq.
Proof. intros. exists 0%nat. rewrite number_after_0 by done. split; [lia|done]. Qed.

(** ** Records handed to the BIO *)

Lemma write_bytes_taken s type buf : buf ≠ [] → Z.of_nat (length buf) ≤ SSL3_RT_MAX_PLAIN_LENGTH →
  dtls1_write_bytes s type buf WrTaken
  = Some (Z.of_nat (length buf),
          set_rwstate (next_sequence (add_out (set_rwstate s SSL_NOTHING) type buf)) SSL_NOTHING).
Proof.
  intros Hn Hl. unfold dtls1_write_bytes. rewrite (proj2 (Z.ltb_ge _ _)) by done. by destruct buf.
Qed.

(** A record that does not go out changes at most the sequence number and [rwstate]. *)
Definition not_taken (s s' : ws) : Prop :=
  ∃ rw sq, s' = set_crypt (set_rwstate s rw) (w_retransmitting s) (w_crypt s) sq (w_last_sequence s) ∧
    (sq = w_sequence s ∨ sq = tls1_record_sequence_increment (w_sequence s)).

Lemma write_bytes_not_taken s type buf w : buf ≠ [] → Z.of_nat (length buf) ≤ SSL3_RT_MAX_PLAIN_LENGTH →
  match w with WrTaken => False | WrRefused i => i < 0 | WrFailed => True end →
  ∃ i s', dtls1_write_bytes s type buf w = Some (i, s') ∧ i < 0 ∧ not_taken s s'.
Proof.
  intros Hn Hl Hw. unfold dtls1_write_bytes. rewrite (proj2 (Z.ltb_ge _ _)) by done. destruct buf; [done|].
  destruct w as [|i|]; [done|..]; eexists _, _; (split; [reflexivity|]); (split; [lia|]); eexists _, _;
    (split; [reflexivity|]); [by right|by left].
Qed.

Lemma not_taken_numbers s s' : seq_ok (w_sequence s) → not_taken s s' →
  numbers_used (w_sequence s) 0 (-1) (w_sequence s').
Proof.
  intros Hs (rw & sq & -> & [-> | ->]); cbn [set_crypt w_sequence]; [by apply numbers_used_0|].
  exists 1%nat. rewrite increment_number by done. split; [lia|done].
Qed.

(** ** The fragments of a message *)

Section writing.
Context (env : wenv) (msgs : Z → Z * list Z) (q : Z).
Abbreviation body := (body msgs q).
Abbreviation blen := (blen msgs q).
Abbreviation mtype := (mtype msgs q).
Context (Hq : 0 ≤ q < 2 ^ 16) (Hbytes : is_byte mtype) (Hblen : blen < 2 ^ 24).

(** Fragments that follow each other from [k] to [k']. *)
Fixpoint contiguous (k : Z) (fs : list afrag) (k' : Z) : Prop :=
  match fs with
  | [] => k = k'
  | f :: fs => af_seq f = q ∧ af_off f = k ∧ af_ok msgs f ∧ contiguous (k + af_len f) fs k'
  end.

(** The bytes beside a fragment in a datagram. *)
Definition overhead (s : ws) : Z :=
  DTLS1_RT_HEADER_LENGTH + mac_size_of env (w_crypt s) + block_size_of env (w_crypt s).

Definition fits (s : ws) (f : afrag) : Prop := overhead s + DTLS1_HM_HEADER_LENGTH + af_len f ≤ w_mtu s.

(** [k] bytes of the message have been sent and the header of the next fragment is to be written at
    [k]: the state at the start of a message, after an interruption, and in the loop. *)
Record write_at (k : Z) (s : ws) : Prop := {
  wa_range : 0 ≤ k ≤ blen ∧ (k = blen → blen = 0);
  wa_off : w_off s = k;
  wa_num : w_num s = blen - k + 12;
  wa_type : hm_type (w_hdr s) = mtype;
  wa_len : hm_msg_len (w_hdr s) = blen;
  wa_seq : hm_seq (w_hdr s) = q;
  wa_frag : 0 < k → hm_frag_off (w_hdr s) = k;
  wa_room : blen + 12 ≤ Z.of_nat (length (w_data s));
  wa_data : take (Z.to_nat (blen - k)) (drop (Z.to_nat (k + 12)) (w_data s)) = drop (Z.to_nat k) body
}.

(** What sending the bytes from [k] to [k'] adds to the handshake hash. *)
Definition hashed (s : ws) (k : Z) (fs : list afrag) : list Z :=
  if w_retransmitting s then []
  else match fs with
       | [] => []
       | _ => (if k =? 0 then dtls1_write_message_header (whole_hdr msgs q) else [])
              ++ concat (af_bytes msgs <$> fs)
       end.

(** The parts that writing does not change. *)
Definition keeps (s s' : ws) : Prop :=
  w_mtu s' = w_mtu s ∧ w_crypt s' = w_crypt s ∧ w_retransmitting s' = w_retransmitting s ∧
  w_sent s' = w_sent s ∧ w_seq s' = w_seq s ∧ w_next_seq s' = w_next_seq s ∧ w_state s' = w_state s ∧
  w_link_mtu s' = w_link_mtu s ∧ w_last_sequence s' = w_last_sequence s.

Lemma keeps_trans s1 s2 s3 : keeps s1 s2 → keeps s2 s3 → keeps s1 s3.
Proof.
  intros (A1 & A2 & A3 & A4 & A5 & A6 & A7 & A8 & A9) (B1 & B2 & B3 & B4 & B5 & B6 & B7 & B8 & B9).
  unfold keeps. rewrite B1, B2, B3, B4, B5, B6, B7, B8, B9. done.
Qed.

(** The BIO never takes a part of a record, and does not refuse one where the code would try again. *)
Definition io_ok (io : wio) : Prop :=
  0 ≤ io_pending io ∧
  match io_write io with
  | WrTaken => True
  | WrRefused i => i < 0 ∧ no_query_mtu env = true
  | WrFailed => no_query_mtu env = true
  end.
Definition io_good (io : wio) : Prop := 0 < io_flush io ∧ io_write io = WrTaken.

Lemma body_length : Z.of_nat (length body) = blen.
Proof. done. Qed.

(** Overwriting the header of a fragment leaves the bytes that are still to be sent. *)
Lemma drop_splice_after (d hdr : list Z) k k' : length hdr = 12%nat → 0 ≤ k ≤ k' →
  k + 12 ≤ Z.of_nat (length d) →
  drop (Z.to_nat (k' + 12)) (splice d (Z.to_nat k) hdr) = drop (Z.to_nat (k' + 12)) d.
Proof.
  intros Hh Hk Hd. unfold splice.
  replace (Z.to_nat (k' + 12)) with (length (take (Z.to_nat k) d ++ hdr) + Z.to_nat (k' - k))%nat by len.
  rewrite app_assoc, <- drop_drop, drop_app_length, Hh, !drop_drop. f_equal. len.
Qed.

Lemma drop_splice_at (d hdr : list Z) k : length hdr = 12%nat → 0 ≤ k → k + 12 ≤ Z.of_nat (length d) →
  drop (Z.to_nat k) (splice d (Z.to_nat k) hdr) = hdr ++ drop (Z.to_nat (k + 12)) d.
Proof.
  intros Hh Hk Hd. unfold splice. rewrite drop_app_exact by len. rewrite Hh. do 2 f_equal. lia.
Qed.

(** The record of a fragment of [len - 12] bytes. *)
Lemma record_bytes k s (d hdr : list Z) len : write_at k s → length hdr = 12%nat → 12 ≤ len ≤ w_num s →
  d = splice (w_data s) (Z.to_nat k) hdr →
  take (Z.to_nat len) (drop (Z.to_nat k) d) = hdr ++ af_bytes msgs (mkAF q k (len - 12)).
Proof.
  intros [W1 W2 W3 W4 W5 W6 W7 W8 W9] Hh Hl ->. rewrite drop_splice_at by lia.
  replace (Z.to_nat len) with (length hdr + Z.to_nat (len - 12))%nat by lia. rewrite take_app_add. f_equal.
  unfold af_bytes. cbn [af_len af_off af_seq]. rewrite <- W9, take_take. f_equal. lia.
Qed.

(** What the steps of a round leave as it was. *)
Definition unchanged (k : Z) (s s' : ws) : Prop :=
  write_at k s' ∧ keeps s s' ∧ w_num s' = w_num s ∧ w_io s' = w_io s ∧
  length (w_data s') = length (w_data s) ∧
  ∀ k', k ≤ k' → drop (Z.to_nat (k' + 12)) (w_data s') = drop (Z.to_nat (k' + 12)) (w_data s).

Lemma unchanged_trans k s1 s2 s3 : unchanged k s1 s2 → unchanged k s2 s3 → unchanged k s1 s3.
Proof.
  intros (_ & K & N & I & L & D) (W & K' & N' & I' & L' & D'). split; [done|]. split.
  { by apply (keeps_trans s1 s2). }
  split; [congruence|]. split; [congruence|]. split; [congruence|]. intros k' Hk. rewrite D', D by done. done.
Qed.

(** Overwriting twelve bytes at [k]. *)
Lemma unchanged_splice k s hdr : write_at k s → length hdr = 12%nat →
  unchanged k s (set_wdata s (splice (w_data s) (Z.to_nat k) hdr)).
Proof.
  intros [W1 W2 W3 W4 W5 W6 W7 W8 W9] Lh.
  assert (Hls : length (splice (w_data s) (Z.to_nat k) hdr) = length (w_data s)) by (apply length_splice; lia).
  assert (Hds : ∀ k', k ≤ k' → drop (Z.to_nat (k' + 12)) (splice (w_data s) (Z.to_nat k) hdr)
                               = drop (Z.to_nat (k' + 12)) (w_data s)).
  { intros. apply drop_splice_after; [done|lia|lia]. }
  split; [|done]. split; cbn [w_off w_num w_hdr w_data set_wdata]; try done; [by rewrite Hls|].
  rewrite Hds by lia. done.
Qed.

Lemma put_header_spec k s len : write_at k s → 12 ≤ len ≤ w_num s →
  let s' := put_header SSL3_RT_HANDSHAKE s k len in
  unchanged k s s' ∧ w_out s' = w_out s ∧ w_hash s' = w_hash s ∧ w_sequence s' = w_sequence s ∧
  take (Z.to_nat len) (drop (Z.to_nat (w_off s')) (w_data s')) = wire msgs (mkAF q k (len - 12)).
Proof.
  intros Hw Hl. pose proof Hw as [W1 W2 W3 W4 W5 W6 W7 W8 W9]. cbv zeta. unfold put_header. rewrite Z.eqb_refl.
  set (h := dtls1_fix_message_header (w_hdr s) k (len - DTLS1_HM_HEADER_LENGTH)).
  assert (write_at k (set_whdr s h)) as Hw1 by (by split).
  cbn [w_hdr w_off w_data set_whdr]. rewrite W2.
  pose proof (unchanged_splice k (set_whdr s h) (dtls1_write_message_header h) Hw1 eq_refl) as Hu.
  split; [|split; [done|split; [done|split; [done|]]]].
  - destruct Hu as (U1 & U2). split; [by destruct U1; split|]. destruct U2 as (? & ? & ? & ? & ?). done.
  - cbn [w_off w_data set_wdata set_whdr]. rewrite W2.
    rewrite (record_bytes k s _ (dtls1_write_message_header h) len Hw eq_refl Hl eq_refl). unfold wire. f_equal.
    unfold h, dtls1_fix_message_header, dtls1_write_message_header, DTLS1_HM_HEADER_LENGTH.
    cbn [hm_type hm_msg_len hm_seq hm_frag_off hm_frag_len af_hdr af_seq af_off af_len]. by rewrite W4, W5, W6.
Qed.

Lemma hash_fragment_spec k s len : write_at k s → 12 ≤ len ≤ w_num s →
  let s' := hash_fragment SSL3_RT_HANDSHAKE s k len in
  unchanged k s s' ∧ w_out s' = w_out s ∧ w_sequence s' = w_sequence s ∧
  w_hash s' = w_hash s ++ hashed s k [mkAF q k (len - 12)].
Proof.
  intros Hw Hl. pose proof Hw as [W1 W2 W3 W4 W5 W6 W7 W8 W9]. cbv zeta.
  assert (unchanged k s s) as Hu0 by done. unfold hash_fragment, hashed. rewrite Z.eqb_refl. cbn [andb].
  destruct (w_retransmitting s); cbn [negb]; [by rewrite app_nil_r|].
  cbn [concat fmap list_fmap]. rewrite app_nil_r.
  destruct (Z.eqb_spec k 0) as [->|Hk].
  - rewrite W4, W5, W6, W2.
    change ([mtype] ++ l2n3 blen ++ s2n q ++ l2n3 0 ++ l2n3 blen) with
      (dtls1_write_message_header (whole_hdr msgs q)).
    destruct (unchanged_splice 0 s (dtls1_write_message_header (whole_hdr msgs q)) Hw eq_refl) as (U1 & U2).
    split; [split; [by destruct U1; split|destruct U2 as (? & ? & ? & ? & ?); done]|]. do 2 (split; [done|]).
    cbn [add_hash w_hash set_wdata w_off w_data]. f_equal. rewrite W2.
    by rewrite (record_bytes 0 s _ (dtls1_write_message_header (whole_hdr msgs q)) len Hw eq_refl Hl eq_refl).
  - split; [by destruct Hu0 as ([] & ?); split; [split|]|]. do 2 (split; [done|]). cbn [add_hash w_hash app]. f_equal.
    rewrite W2. unfold DTLS1_HM_HEADER_LENGTH, af_bytes. cbn [af_len af_off af_seq].
    rewrite <- W9, take_take. f_equal. lia.
Qed.

(** What the sender keeps when a record is handed to the BIO. *)
Lemma unchanged_written k s type buf : write_at k s →
  unchanged k s (set_rwstate (next_sequence (add_out (set_rwstate s SSL_NOTHING) type buf)) SSL_NOTHING).
Proof. intros []. split; [by split|]. done. Qed.

Lemma unchanged_not_taken k s s' : write_at k s → not_taken s s' →
  unchanged k s s' ∧ w_out s' = w_out s ∧ w_hash s' = w_hash s.
Proof. intros [] (rw & sq & -> & _). split; [|done]. split; [by split|]. done. Qed.

(** One fragment sent from [k]. *)
Lemma fragment_sent k s len : write_at k s → 12 ≤ len ≤ w_num s → (blen ≠ 0 → 12 < len) →
  let s1 := put_header SSL3_RT_HANDSHAKE s k len in
  let f := mkAF q k (len - 12) in
  let s2 := hash_fragment SSL3_RT_HANDSHAKE
              (set_rwstate (next_sequence (add_out (set_rwstate s1 SSL_NOTHING) SSL3_RT_HANDSHAKE (wire msgs f)))
                 SSL_NOTHING) k len in
  af_ok msgs f ∧ Z.of_nat (length (wire msgs f)) = len ∧
  unchanged k s s2 ∧ w_out s2 = w_out s ++ [mkRec SSL3_RT_HANDSHAKE (w_crypt s) (w_sequence s) (wire msgs f)] ∧
  w_hash s2 = w_hash s ++ hashed s k [f] ∧ w_sequence s2 = tls1_record_sequence_increment (w_sequence s).
Proof.
  intros Hw Hl Hpos. cbv zeta. destruct (put_header_spec k s len Hw Hl) as (P1 & P2 & P3 & P5 & _). cbv zeta in *.
  set (s1 := put_header _ _ _ _) in *. set (f := mkAF q k (len - 12)). set (s1' := set_rwstate (next_sequence _) _).
  assert (af_ok msgs f) as Hok
    by (destruct Hw as [W1 _ W3 _ _ _ _ _ _]; unfold af_ok; cbn [f af_seq af_off af_len]; lia).
  pose proof P1 as (P0 & Pk & Pn & _).
  pose proof (unchanged_written k s1 SSL3_RT_HANDSHAKE (wire msgs f) P0) as Hu. fold s1' in Hu.
  pose proof Hu as (Hw1 & _). destruct (hash_fragment_spec k s1' len Hw1) as (H1 & H2 & H4 & H3); [cbn; lia|].
  cbv zeta in *. split; [done|].
  split; [unfold wire; rewrite length_app, length_write_message_header, Nat2Z.inj_add, length_af_bytes by done; cbn [f af_len]; lia|].
  split; [apply (unchanged_trans k s s1); [done|]; by apply (unchanged_trans k s1 s1')|].
  pose proof Pk as (_ & Pc & Pr & _). split; [|split].
  - rewrite H2. cbn [s1' set_rwstate next_sequence set_crypt add_out w_out w_crypt w_sequence]. by rewrite P2, Pc, P5.
  - rewrite H3. cbn [s1' set_rwstate next_sequence set_crypt add_out w_hash]. rewrite P3. unfold hashed.
    cbn [s1' set_rwstate next_sequence set_crypt add_out w_retransmitting]. by rewrite Pr.
  - rewrite H4. cbn [s1' set_rwstate next_sequence set_crypt add_out w_sequence]. by rewrite P5.
Qed.

(** ** The loop *)

(** The state at the start of a round: that of [write_at], or behind the fragment just sent. *)
Definition loop_at (k frag_off : Z) (s : ws) : Prop :=
  (frag_off = 0 ∧ write_at k s) ∨
  (0 < k ∧ frag_off = k ∧ w_off s = k + 12 ∧ write_at k (set_pos s k (w_num s + 12))).

Lemma step_back_spec k frag_off s : loop_at k frag_off s →
  0 < w_num s ∧
  ∃ s', step_back SSL3_RT_HANDSHAKE s frag_off = Some (k, s') ∧ write_at k s' ∧ keeps s s' ∧
    w_io s' = w_io s ∧ w_out s' = w_out s ∧ w_hash s' = w_hash s ∧ w_sequence s' = w_sequence s.
Proof.
  intros [[-> Hw]|(Hk & -> & Ho & Hw)]; pose proof Hw as [W1 W2 W3 W4 W5 W6 W7 W8 W9]; unfold step_back;
    rewrite Z.eqb_refl; cbn [andb].
  - split; [lia|]. rewrite W2. destruct (Z.eqb_spec k 0) as [->|Hk]; cbn [negb]; [by exists s|].
    change (0 <? 0) with false. cbn iota. rewrite W7 by lia. by exists s.
  - cbn [w_num set_pos] in W3. split; [lia|]. rewrite Ho.
    rewrite (proj2 (Z.eqb_neq _ _)), (proj2 (Z.ltb_lt _ _) Hk) by lia. cbn [negb].
    unfold DTLS1_HM_HEADER_LENGTH. rewrite (proj2 (Z.leb_gt _ _)) by lia.
    replace (k + 12 - 12) with k by lia. eexists. split; [reflexivity|]. done.
Qed.

Lemma next_io_spec k s : write_at k s → Forall io_ok (w_io s) →
  ∃ io s', next_io s = (io, s') ∧ io_ok io ∧ Forall io_ok (w_io s') ∧ write_at k s' ∧ keeps s s' ∧
    w_out s' = w_out s ∧ w_hash s' = w_hash s ∧ w_sequence s' = w_sequence s ∧ w_num s' = w_num s ∧
    (Forall io_good (w_io s) → io_good io ∧ Forall io_good (w_io s')).
Proof.
  intros Hw Hio. unfold next_io. destruct (w_io s) as [|io rest] eqn:E.
  - eexists _, s. split; [reflexivity|]. split; [split; [cbn; lia|done]|]. rewrite E. do 7 (split; [done|]).
    intros _. split; [split; [cbn; lia|done]|done].
  - apply Forall_cons in Hio as [H1 H2]. eexists io, _. split; [reflexivity|]. split; [done|]. split; [done|].
    split; [by destruct Hw; split|]. do 5 (split; [done|]). by intros [? ?]%Forall_cons.
Qed.

Lemma current_mtu_spec s io : io_ok io → 0 ≤ overhead s →
  match current_mtu env s io with
  | inl r => r ≤ 0 ∧ ¬ (io_good io ∧ overhead s + 12 < w_mtu s)
  | inr m => 12 < m ≤ w_mtu s - overhead s
  end.
Proof.
  intros [Hp _] Ho. unfold current_mtu, overhead, io_good, DTLS1_HM_HEADER_LENGTH in *.
  set (fixed := DTLS1_RT_HEADER_LENGTH + mac_size_of env (w_crypt s) + block_size_of env (w_crypt s)) in *.
  assert (fixed = DTLS1_RT_HEADER_LENGTH + mac_size_of env (w_crypt s) + block_size_of env (w_crypt s)) as E by done.
  clearbody fixed. case_cmp; cbn; lia.
Qed.

Lemma hashed_cons s s' k f fs : w_retransmitting s' = w_retransmitting s → 0 < k + af_len f →
  hashed s k (f :: fs) = hashed s k [f] ++ hashed s' (k + af_len f) fs.
Proof.
  intros E Hk. unfold hashed. rewrite E. destruct (w_retransmitting s); [done|].
  cbn [fmap list_fmap concat]. rewrite app_nil_r, <- app_assoc. do 2 f_equal.
  destruct fs; [done|]. by rewrite (proj2 (Z.eqb_neq _ _)) by lia.
Qed.

(** The fragments [fs] were sent, from [k] to [k']. *)
Definition sent (k : Z) (s : ws) (fs : list afrag) (k' : Z) (s' : ws) : Prop :=
  contiguous k fs k' ∧
  w_out s' = w_out s ++ records SSL3_RT_HANDSHAKE (w_crypt s) (w_sequence s) (wire msgs <$> fs) ∧
  w_hash s' = w_hash s ++ hashed s k fs ∧ keeps s s' ∧ Forall (fits s) fs.

Lemma sent_nil k s s' : keeps s s' → w_out s' = w_out s → w_hash s' = w_hash s → sent k s [] k s'.
Proof.
  intros Hk Ho Hh. split; [done|]. split; [by rewrite app_nil_r|].
  split; [unfold hashed; destruct (w_retransmitting s); by rewrite app_nil_r|]. done.
Qed.

Lemma fits_keeps s s' f : keeps s s' → fits s' f ↔ fits s f.
Proof. intros (Hm & Hc & _). unfold fits, overhead. by rewrite Hm, Hc. Qed.

Lemma sent_cons k s s1 f fs k' s' : af_seq f = q → af_off f = k → af_ok msgs f → fits s f →
  keeps s s1 → w_out s1 = w_out s ++ [mkRec SSL3_RT_HANDSHAKE (w_crypt s) (w_sequence s) (wire msgs f)] →
  seq_ok (w_sequence s) → w_sequence s1 = number_after (w_sequence s) 1 →
  w_hash s1 = w_hash s ++ hashed s k [f] → 0 < k + af_len f →
  sent (k + af_len f) s1 fs k' s' → sent k s (f :: fs) k' s'.
Proof.
  intros Hs Ho Hok Hf Hk Hout Hsq Hsq1 Hh Hpos (C & O & H & K & F). pose proof Hk as (_ & Hc & Hr & _).
  split; [done|]. split; [by rewrite O, Hout, Hc, Hsq1, fmap_cons, records_cons, <- app_assoc|].
  split; [rewrite H, Hh, (hashed_cons s s1 k f fs) by done; by rewrite <- app_assoc|].
  split.
  - by apply (keeps_trans s s1).
  - constructor; [done|]. eapply Forall_impl; [exact F|]. intros g. apply (fits_keeps s s1 g Hk).
Qed.

Definition write_end (k' : Z) (fs : list afrag) (r : Z) (s' : ws) : Prop :=
  if r =? 1 then k' = blen ∧ fs ≠ [] ∧ w_off s' = 0 ∧ w_num s' = 0 else r ≤ 0 ∧ write_at k' s'.

Lemma keeps_sym_sent k s s1 fs k' s' : keeps s s1 → w_out s1 = w_out s → w_hash s1 = w_hash s →
  w_sequence s1 = w_sequence s → sent k s1 fs k' s' → sent k s fs k' s'.
Proof.
  intros Hk Ho Hh Hq' (C & O & H & K & F). pose proof Hk as (_ & Hc & Hr & _).
  split; [done|]. split; [by rewrite O, Ho, Hc, Hq'|]. split; [rewrite H, Hh; unfold hashed; by rewrite Hr|].
  split.
  - by apply (keeps_trans s s1).
  - eapply Forall_impl; [exact F|]. intros g. apply (fits_keeps s s1 g Hk).
Qed.

Lemma round_not_taken k s0 s1 s' : keeps s0 s1 → w_out s1 = w_out s0 → w_hash s1 = w_hash s0 →
  w_sequence s1 = w_sequence s0 → seq_ok (w_sequence s0) → write_at k s1 → not_taken s1 s' →
  sent k s0 [] k s' ∧ write_end k [] (-1) s' ∧ numbers_used (w_sequence s0) 0 (-1) (w_sequence s').
Proof.
  intros K O H Sq Hsq Hw Hnt. destruct (unchanged_not_taken k s1 s' Hw Hnt) as ((Hw' & K' & _) & O' & H').
  split; [apply (keeps_sym_sent k s0 s1); [done..|by apply sent_nil]|].
  split; [by split; [lia|]|]. rewrite <- Sq in *. by apply not_taken_numbers.
Qed.

Lemma round_last k s0 s2 f : af_seq f = q → af_off f = k → af_ok msgs f → fits s0 f → keeps s0 s2 →
  w_out s2 = w_out s0 ++ [mkRec SSL3_RT_HANDSHAKE (w_crypt s0) (w_sequence s0) (wire msgs f)] →
  seq_ok (w_sequence s0) → w_sequence s2 = number_after (w_sequence s0) 1 →
  w_hash s2 = w_hash s0 ++ hashed s0 k [f] → k + af_len f = blen →
  let s' := set_pos s2 0 0 in
  sent k s0 [f] (k + af_len f) s' ∧ write_end (k + af_len f) [f] 1 s' ∧
  numbers_used (w_sequence s0) 1 1 (w_sequence s').
Proof.
  intros Hs Ho Hok Hf K O Hsq Sq H Hend. cbv zeta. split; [|split; [done|]].
  - split; [done|]. split; [by rewrite fmap_cons, records_cons|]. split; [done|]. split; [done|]. by constructor.
  - exists 0%nat. split; [lia|]. done.
Qed.

Lemma round_next k s len : write_at k s → 12 < len < w_num s →
  loop_at (k + (len - 12)) (k + (len - 12))
    (set_whdr (set_pos s (w_off s + len) (w_num s - len))
       (dtls1_fix_message_header (w_hdr (set_pos s (w_off s + len) (w_num s - len))) (k + (len - 12)) 0)).
Proof.
  intros [V1 V2 V3 V4 V5 V6 V7 V8 V9] Hl. right. cbn [set_whdr set_pos w_off w_num].
  split; [lia|]. split; [done|]. split; [lia|].
  split; cbn [set_whdr set_pos w_off w_num w_hdr w_data dtls1_fix_message_header hm_type hm_msg_len hm_seq hm_frag_off];
    try done; try lia.
  replace (Z.to_nat (k + (len - 12) + 12)) with (Z.to_nat (k + 12) + Z.to_nat (len - 12))%nat by lia.
  rewrite <- drop_drop, take_drop_commute.
  replace (Z.to_nat (len - 12) + Z.to_nat (blen - (k + (len - 12))))%nat with (Z.to_nat (blen - k)) by lia.
  rewrite V9, drop_drop. f_equal. lia.
Qed.

Lemma handshake_write_loop_spec fuel : ∀ s frag_off k retry, loop_at k frag_off s →
  (Z.to_nat (blen - k) < fuel)%nat → Forall io_ok (w_io s) → 0 ≤ overhead s →
  w_mtu s ≤ SSL3_RT_MAX_PLAIN_LENGTH → seq_ok (w_sequence s) →
  ∃ r s' fs k', write_loop env SSL3_RT_HANDSHAKE s frag_off retry fuel = WRet r s' ∧
    sent k s fs k' s' ∧ write_end k' fs r s' ∧ numbers_used (w_sequence s) (length fs) r (w_sequence s') ∧
    (Forall io_good (w_io s) → overhead s + 12 < w_mtu s → r = 1).
Proof.
  induction fuel as [|fuel IH]; intros s0 frag_off k retry Hl Hf Hio Hov Hmtu Hsq; [lia|]. cbn [write_loop].
  destruct (step_back_spec k frag_off s0 Hl) as (Hnum & s1 & -> & Hw1 & K1 & I1 & O1 & H1 & S1).
  rewrite (proj2 (Z.leb_gt _ _)) by done.
  destruct (next_io_spec k s1 Hw1) as (io & s & -> & Hiook & Hio2 & Hw & K2 & O2 & H2 & S2 & N2 & G2); [by rewrite I1|].
  assert (keeps s0 s) as K.
  { by apply (keeps_trans s0 s1). }
  assert (w_out s = w_out s0) as O by congruence. assert (w_hash s = w_hash s0) as H by congruence.
  assert (w_sequence s = w_sequence s0) as Sq by congruence. rewrite I1 in G2.
  clear s1 Hw1 K1 I1 O1 H1 S1 K2 O2 H2 S2 N2 Hl.
  assert (overhead s = overhead s0 ∧ w_mtu s = w_mtu s0) as [Eo Em].
  { destruct K as (? & Kc & _). unfold overhead. by rewrite Kc. }
  rewrite <- Eo in Hov. pose proof (current_mtu_spec s io Hiook Hov) as Hc. destruct (current_mtu env s io) as [r|m].
  { destruct Hc as [Hr Hng]. eexists r, _, [], k. split; [reflexivity|]. split; [apply sent_nil; case_match; done|]. split.
    - unfold write_end. rewrite (proj2 (Z.eqb_neq _ _)) by lia. split; [done|]. case_match; by destruct Hw; split.
    - split; [rewrite <- Sq in *; case_match; by apply numbers_used_0|]. intros Hg Hm. destruct Hng. rewrite Eo, Em. split; [|done]. by apply G2. }
  pose proof Hw as [W1 _ W3 _ _ _ _ _ _].
  set (len := if m <? w_num s then m else w_num s).
  assert (12 ≤ len ≤ w_num s ∧ len ≤ m ∧ (blen ≠ 0 → 12 < len)) as (Hlen & Hlm & Hpos) by (unfold len; case_cmp; lia).
  assert (len ≤ 16384) as Hmax by (unfold SSL3_RT_MAX_PLAIN_LENGTH, DTLS1_RT_HEADER_LENGTH in *; lia).
  assert (Hbig : (INT_MAX <? len) = false) by (unfold INT_MAX; lia). rewrite Hbig.
  assert (Hsm : (len <? DTLS1_HM_HEADER_LENGTH) = false) by (unfold DTLS1_HM_HEADER_LENGTH; lia).
  rewrite Hsm, andb_false_r. destruct (put_header_spec k s len Hw Hlen) as (U1 & O1 & H1 & S1 & Eb).
  destruct (fragment_sent k s len Hw Hlen Hpos) as (Hok & Hlw & U2 & O2 & H2 & S2). cbv zeta in *.
  set (s1 := put_header _ _ _ _) in *. clearbody s1. rewrite Eb.
  assert (wire msgs (mkAF q k (len - 12)) ≠ []) as Hne by (intros E; rewrite E in Hlw; cbn in Hlw; lia).
  destruct Hiook as [_ Hiow]. destruct (decide (io_write io = WrTaken)) as [Ew|Ew].
  2:{ destruct (write_bytes_not_taken s1 SSL3_RT_HANDSHAKE (wire msgs (mkAF q k (len - 12))) (io_write io))
        as (r & s' & -> & Hr & Hnt); [done|by rewrite Hlw|by destruct (io_write io); [|apply Hiow|]|].
      assert (no_query_mtu env = true) as Hnq by (destruct (io_write io); [done|apply Hiow|done]).
      rewrite (proj2 (Z.ltb_lt _ _) Hr), Hnq, andb_false_r. destruct U1 as (Uw & Uk & _).
      destruct (round_not_taken k s0 s1 s') as (R1 & R2 & R3);
        [by apply (keeps_trans s0 s)|congruence..|done|done|done|].
      exists (-1), s', [], k. do 4 (split; [done|]). intros Hg Hm. by destruct (G2 Hg) as [[_ Hn] _]. }
  rewrite Ew, write_bytes_taken by (rewrite ?Hlw; done). rewrite Hlw.
  rewrite (proj2 (Z.ltb_ge _ _)) by lia. rewrite Z.eqb_refl. cbn [negb].
  set (s2 := hash_fragment _ _ _ _) in *. clearbody s2. set (f := mkAF q k (len - 12)) in *.
  destruct U2 as (Uw & Uk & Un & Ui & Ul & Ud).
  assert (fits s f) as Hfit by (unfold fits, f, DTLS1_HM_HEADER_LENGTH; cbn [af_len]; lia).
  rewrite <- Sq in Hsq. rewrite increment_number in S2 by done.
  rewrite Un. destruct (Z.eqb_spec len (w_num s)) as [El|El].
  - destruct (round_last k s s2 f) as (R1 & R2 & R3); [done..|cbn [f af_len]; lia|].
    exists 1, (set_pos s2 0 0), [f], (k + af_len f). split; [reflexivity|].
    split; [by apply (keeps_sym_sent k s0 s)|]. rewrite <- Sq. done.
  - pose proof (round_next k s2 len Uw ltac:(lia)) as Hl'. rewrite Un in Hl'.
    unfold DTLS1_HM_HEADER_LENGTH. set (s3 := set_whdr _ _) in *. set (k' := k + (len - 12)) in *.
    assert (keeps s s3 ∧ w_io s3 = w_io s2 ∧ w_sequence s3 = w_sequence s2 ∧ w_out s3 = w_out s2 ∧
            w_hash s3 = w_hash s2) as (Hk3 & I3 & Q3 & O3 & H3) by done. clearbody s3.
    destruct (IH s3 k' k' retry Hl') as (r & s' & fs & kk & E & Hs & He & Hn & Hg).
    { unfold k'. lia. }
    { by rewrite I3, Ui. }
    { destruct Hk3 as (? & Kc & _). unfold overhead in *. by rewrite Kc. }
    { destruct Hk3 as (-> & _). lia. }
    { rewrite Q3, S2. apply number_after_ok. }
    rewrite Q3, S2 in Hn. exists r, s', (f :: fs), kk. split; [exact E|]. split.
    + apply (keeps_sym_sent k s0 s); [done..|].
      apply (sent_cons k s s3 f fs kk s'); try done; [congruence..|]. cbn [f af_len]. lia.
    + split; [unfold write_end in *; destruct (r =? 1); [destruct He as (? & _ & ?)|]; done|].
      split; [rewrite <- Sq; by apply numbers_used_S|].
      intros Hgood Hm. destruct (G2 Hgood) as [_ Hgood']. apply Hg; [by rewrite I3, Ui|].
      destruct Hk3 as (Km & Kc & _). unfold overhead in *. rewrite Km, Kc. lia.
Qed.
End writing.

(** ** Whole messages *)

(** The MTU after [dtls1_query_mtu] is at least the minimum: the assertion that follows holds. *)
Lemma query_mtu_min env s s' : dtls1_query_mtu env s = (true, s') → dtls1_min_mtu env ≤ w_mtu s'.
Proof.
  unfold dtls1_query_mtu. set (s1 := if negb _ then _ else _).
  destruct (Z.ltb_spec (w_mtu s1) (dtls1_min_mtu env)); [|by intros [= <-]].
  destruct (negb (no_query_mtu env)); [|done].
  set (s2 := set_mtu s1 (u32 (query_mtu env)) (w_link_mtu s1)).
  destruct (Z.ltb_spec (w_mtu s2) (dtls1_min_mtu env)); intros [= <-]; [done|lia].
Qed.

(** A sender whose MTU is known. *)
Record sender_ok (env : wenv) (s : ws) : Prop := {
  se_link : w_link_mtu s = 0;
  se_mtu : dtls1_min_mtu env ≤ w_mtu s ≤ SSL3_RT_MAX_PLAIN_LENGTH;
  se_overhead : 0 ≤ overhead env s;
  se_sequence : seq_ok (w_sequence s);
  se_io : Forall (io_ok env) (w_io s)
}.

(** A message of the table that fits the header. *)
Definition sendable (msgs : Z → Z * list Z) (q : Z) : Prop :=
  0 ≤ q < 2 ^ 16 ∧ is_byte (mtype msgs q) ∧ blen msgs q < 2 ^ 24.

Lemma query_mtu_known env s : sender_ok env s → dtls1_query_mtu env s = (true, s).
Proof.
  intros [L M _ _ _]. unfold dtls1_query_mtu. rewrite L. cbn [Z.eqb negb].
  rewrite (proj2 (Z.ltb_ge _ _)) by lia. done.
Qed.

Lemma do_write_spec env msgs q s k fuel : sendable msgs q → sender_ok env s → write_at msgs q k s →
  (Z.to_nat (blen msgs q - k) < fuel)%nat →
  ∃ r s' fs k', dtls1_do_write env s SSL3_RT_HANDSHAKE fuel = WRet r s' ∧
    sent env msgs q k s fs k' s' ∧ write_end msgs q k' fs r s' ∧
    numbers_used (w_sequence s) (length fs) r (w_sequence s') ∧
    (Forall io_good (w_io s) → overhead env s + 12 < w_mtu s → r = 1).
Proof.
  intros (Hq & Ht & Hb) Hok Hw Hf. unfold dtls1_do_write. rewrite query_mtu_known by done. cbn [negb].
  pose proof Hok as [L M O Q I]. rewrite (proj2 (Z.ltb_ge _ _)) by lia.
  pose proof Hw as [W1 W2 W3 W4 W5 W6 W7 W8 W9]. rewrite W2, W3, W5, Z.eqb_refl, andb_true_r.
  assert ((k =? 0) && negb (blen msgs q - k + 12 =? blen msgs q + DTLS1_HM_HEADER_LENGTH) = false) as ->.
  { unfold DTLS1_HM_HEADER_LENGTH. destruct (Z.eqb_spec k 0); cbn [andb]; [|done].
    rewrite (proj2 (Z.eqb_eq _ _)) by lia. done. }
  destruct (handshake_write_loop_spec env msgs q Hq fuel (set_rwstate s SSL_NOTHING) 0 k true) as
    (r & s' & fs & k' & E & Hs & He & Hn & Hg); [left; split; [done|by split]|done|done|done|apply M|done|].
  exists r, s', fs, k'. done.
Qed.

Lemma contiguous_covers msgs q k fs k' j : contiguous msgs q k fs k' → k ≤ j < k' →
  ∃ f, f ∈ fs ∧ af_seq f = q ∧ covers f j.
Proof.
  revert k. induction fs as [|f fs IH]; intros k; cbn [contiguous]; [lia|].
  intros (Hs & Ho & Hok & Hc) Hj. destruct (decide (j < k + af_len f)).
  - exists f. split; [by left|]. split; [done|]. unfold covers. lia.
  - destruct (IH _ Hc ltac:(lia)) as (g & ? & ?). exists g. split; [by right|done].
Qed.

Lemma contiguous_ok msgs q k fs k' f : contiguous msgs q k fs k' → f ∈ fs → af_ok msgs f.
Proof.
  revert k. induction fs as [|g fs IH]; intros k; cbn [contiguous]; [by intros _ ?%elem_of_nil|].
  intros (_ & _ & Hok & Hc) [-> | Hf]%elem_of_cons; [done|]. by apply (IH (k + af_len g)).
Qed.

Lemma contiguous_bytes msgs q k fs k' : 0 ≤ k → contiguous msgs q k fs k' →
  k ≤ k' ∧ concat (af_bytes msgs <$> fs) = take (Z.to_nat (k' - k)) (drop (Z.to_nat k) (body msgs q)).
Proof.
  revert k. induction fs as [|f fs IH]; intros k Hk; cbn [contiguous].
  { intros <-. split; [lia|]. by rewrite Z.sub_diag. }
  intros (Hs & Ho & Hok & Hc). pose proof Hok as (_ & _ & Hl & _).
  destruct (IH (k + af_len f) ltac:(lia) Hc) as [Hle E]. split; [lia|].
  rewrite fmap_cons. cbn [concat]. rewrite E. unfold af_bytes. rewrite Hs, Ho.
  replace (Z.to_nat (k + af_len f)) with (Z.to_nat k + Z.to_nat (af_len f))%nat by lia.
  replace (Z.to_nat (k' - k)) with (Z.to_nat (af_len f) + Z.to_nat (k' - (k + af_len f)))%nat by lia.
  rewrite <- drop_drop, <- take_take_drop. done.
Qed.

(** A ChangeCipherSpec message, one byte, is sent in one record or not at all. *)
Lemma ccs_write_spec env s b rest fuel : sender_ok env s → w_off s = 0 → w_num s = DTLS1_CCS_HEADER_LENGTH →
  w_data s = b :: rest → (0 < fuel)%nat →
  ∃ r s' ps, dtls1_do_write env s SSL3_RT_CHANGE_CIPHER_SPEC fuel = WRet r s' ∧
    (r = 1 ∨ r ≤ 0) ∧ ps = (if r =? 1 then [[b]] else []) ∧
    w_out s' = w_out s ++ records SSL3_RT_CHANGE_CIPHER_SPEC (w_crypt s) (w_sequence s) ps ∧
    numbers_used (w_sequence s) (length ps) r (w_sequence s') ∧ keeps s s' ∧ w_hash s' = w_hash s ∧
    (Forall io_good (w_io s) → overhead env s + 12 < w_mtu s → r = 1).
Proof.
  intros Hok Ho Hn Hd Hf. unfold dtls1_do_write. rewrite query_mtu_known by done. cbn [negb].
  pose proof Hok as [L M Ov Q I]. rewrite (proj2 (Z.ltb_ge _ _)) by lia.
  change (SSL3_RT_CHANGE_CIPHER_SPEC =? SSL3_RT_HANDSHAKE) with false. rewrite andb_false_r. cbn [andb].
  destruct fuel as [|fuel]; [lia|]. cbn [write_loop set_rwstate w_num]. rewrite Hn. cbn [Z.leb Z.compare DTLS1_CCS_HEADER_LENGTH].
  unfold step_back. change (SSL3_RT_CHANGE_CIPHER_SPEC =? SSL3_RT_HANDSHAKE) with false. cbn [andb].
  set (s0 := set_rwstate s SSL_NOTHING).
  assert (∃ io s1, next_io s0 = (io, s1) ∧ io_ok env io ∧ (Forall io_good (w_io s) → io_good io) ∧ keeps s s1 ∧
    w_off s1 = 0 ∧ w_num s1 = 1 ∧ w_data s1 = b :: rest ∧ w_out s1 = w_out s ∧ w_hash s1 = w_hash s ∧
    w_sequence s1 = w_sequence s) as (io & s1 & -> & Hio & Hg & K & O1 & N1 & D1 & W1 & H1 & S1).
  { unfold next_io, s0. cbn [set_rwstate w_io]. destruct (w_io s) as [|io l].
    - eexists _, _. split; [reflexivity|]. do 2 (split; [by split; cbn|]). done.
    - apply Forall_cons in I as [I1 I2]. eexists _, _. split; [reflexivity|]. split; [done|].
      split; [by intros [? ?]%Forall_cons|]. done. }
  assert (overhead env s1 = overhead env s ∧ w_mtu s1 = w_mtu s) as [Eo Em].
  { destruct K as (? & Kc & _). unfold overhead. by rewrite Kc. }
  rewrite <- Eo in Ov. pose proof (current_mtu_spec env s1 io Hio Ov) as Hc.
  destruct (current_mtu env s1 io) as [r|m].
  { destruct Hc as [Hr Hng]. eexists r, _, []. split; [reflexivity|]. split; [by right|].
    rewrite (proj2 (Z.eqb_neq _ _)) by lia. split; [done|].
    assert (w_sequence (if io_flush io <=? 0 then set_rwstate s1 SSL_WRITING else s1) = w_sequence s) as ->
      by (by case_match).
    split; [rewrite app_nil_r; by case_match|]. split; [by apply numbers_used_0|].
    split; [by case_match|]. split; [by case_match|]. intros Hgood Hm. destruct Hng. rewrite Eo, Em. split; [by apply Hg|done]. }
  rewrite N1, (proj2 (Z.ltb_ge m 1)) by lia. change (INT_MAX <? 1) with false. cbn iota. unfold put_header, hash_fragment.
  change (SSL3_RT_CHANGE_CIPHER_SPEC =? SSL3_RT_HANDSHAKE) with false. cbn [andb]. rewrite O1, D1.
  change (take (Z.to_nat 1) (drop (Z.to_nat 0) (b :: rest))) with [b].
  destruct (decide (io_write io = WrTaken)) as [->|Ew].
  - rewrite write_bytes_taken by done. cbn [length Z.of_nat Z.ltb Z.compare Z.eqb Pos.eqb negb].
    cbn [set_rwstate next_sequence set_crypt add_out w_num]. rewrite N1. cbn [Z.eqb Pos.eqb].
    eexists 1, _, [[b]]. split; [reflexivity|]. split; [by left|]. split; [done|].
    cbn [set_pos set_rwstate next_sequence set_crypt add_out w_out w_crypt w_hash w_sequence]. pose proof K as (_ & Kc & _).
    split; [by rewrite records_cons, W1, Kc, S1|]. split; [|done]. exists 0%nat. split; [lia|]. split; [done|].
    by rewrite S1, increment_number.
  - destruct Hio as [_ Hio].
    destruct (write_bytes_not_taken s1 SSL3_RT_CHANGE_CIPHER_SPEC [b] (io_write io)) as (r & s' & -> & Hr & Hnt);
      [done..|by destruct (io_write io); [|apply Hio|]|].
    assert (no_query_mtu env = true) as Hnq by (destruct (io_write io); [done|apply Hio|done]).
    rewrite (proj2 (Z.ltb_lt _ _) Hr), Hnq. cbn [negb].
    eexists (-1), s', []. split; [reflexivity|]. split; [right; lia|]. split; [done|].
    pose proof (not_taken_numbers s1 s' ltac:(by rewrite S1) Hnt) as Hu. rewrite S1 in Hu.
    destruct Hnt as (rw & sq & -> & _). split; [by rewrite app_nil_r|]. split; [done|]. split; [done|].
    split; [done|]. intros Hgood _. by destruct (Hg Hgood).
Qed.

(** Cutting a handshake message into records.  From the start of a message, or from where an earlier
    call was interrupted after [k] bytes, [dtls1_do_write] ends, no assertion fails, and the records
    it sends are fragments of the message that follow each other from [k] on without gap or overlap,
    each with its correct header, under consecutive sequence numbers, and small enough for the MTU; the
    handshake hash receives the bytes sent, preceded at the start by the header of the whole message,
    unless this is a retransmission.  If it returns 1 the message has been sent to its end; otherwise
    it can be continued from where it is.  With a BIO that accepts records and an MTU above the overhead
    it returns 1. *)
Theorem dtls1_do_write_fragments env msgs q s k fuel : sendable msgs q → sender_ok env s →
  write_at msgs q k s → (Z.to_nat (blen msgs q - k) < fuel)%nat →
  ∃ r s' fs k', dtls1_do_write env s SSL3_RT_HANDSHAKE fuel = WRet r s' ∧
    sent env msgs q k s fs k' s' ∧ write_end msgs q k' fs r s' ∧
    numbers_used (w_sequence s) (length fs) r (w_sequence s') ∧
    (Forall io_good (w_io s) → overhead env s + 12 < w_mtu s → r = 1).
Proof. apply do_write_spec. Qed.

(** Fragments of the peer's messages that look the same on the wire are the same. *)
Lemma wire_inj msgs conf max f g : (∀ q, 0 ≤ q < 2 ^ 16 → msg_ok msgs conf max q) → af_ok msgs f → af_ok msgs g →
  wire msgs f = wire msgs g → f = g.
Proof.
  intros Hm Hf Hg E. apply (f_equal dtls1_get_message_header) in E. unfold wire in E.
  rewrite !get_write_message_header in E by (by eapply af_hdr_wf). destruct f, g. cbn in E. congruence.
Qed.

Lemma arriving_ok {L} {RL : RecordLayer L} msgs (s : hs L) cur evs f : stream msgs s cur evs →
  f ∈ arriving cur evs → af_ok msgs f.
Proof.
  intros [_ _ Hc He]. unfold arriving. rewrite elem_of_app. intros [Hf|Hf].
  { by apply (proj1 (Forall_forall _ _) Hc). }
  clear Hc. induction He as [|[n|fs] evs Hev He IH]; cbn [arriving_events] in Hf; [by apply elem_of_nil in Hf..|].
  apply elem_of_app in Hf as [Hf|Hf]; [|by apply IH]. destruct Hev as [_ Hev].
  by apply (proj1 (Forall_forall _ _) Hev).
Qed.

(** C8: What is sent is what is received.  With no alert waiting and a BIO that takes every record at the
    first attempt, [dtls1_do_write] sends a message in records that bear consecutive sequence numbers
    and whose contents [ps] have this property: a receiver that expects the message, is not listening
    and has memory, and to which fragments of the peer's messages arrive in any order, all of [ps] among
    them, gets exactly the message from [dtls1_get_message]; sender and receiver have then added the same
    bytes to the handshake hash. *)
Theorem dtls_handshake_transport {L} {RL : RecordLayer L} env msgs q s conf max malloc fuel :
  sendable msgs q → sender_ok env s → write_at msgs q 0 s → (Z.to_nat (blen msgs q) < fuel)%nat →
  Forall io_good (w_io s) → overhead env s + 12 < w_mtu s → w_retransmitting s = false →
  peer_ok msgs conf max malloc →
  ∃ s' ps, dtls1_do_write env s SSL3_RT_HANDSHAKE fuel = WRet 1 s' ∧
    w_out s' = w_out s ++ records SSL3_RT_HANDSHAKE (w_crypt s) (w_sequence s) ps ∧
    w_sequence s' = number_after (w_sequence s) (length ps) ∧
    ∀ (r : hs L) cur evs stn fuel', receiving msgs r cur evs → read_seq r = q →
      (∀ p, p ∈ ps → p ∈ wire msgs <$> arriving cur evs) → (remaining cur evs < fuel')%nat →
      ∃ i r' cur' evs' h, dtls1_get_message malloc conf r stn (mtype msgs q) max fuel' = Some (i, true, r') ∧
        receiving msgs r' cur' evs' ∧ i = blen msgs q ∧
        take (Z.to_nat i) (drop 12 (buf_data (init_buf r'))) = body msgs q ∧
        w_hash s' = w_hash s ++ h ∧ hash_input r' = hash_input r ++ h.
Proof.
  intros Hse Hok Hw Hf Hio Hm Hre Hp. pose proof Hp as [P1 P2 P3 P4 P5].
  destruct (do_write_spec env msgs q s 0 fuel Hse Hok Hw)
    as (r & s' & fs & k' & E & (C & O & H & K & F) & He & Hn & Hg); [by rewrite Z.sub_0_r|].
  rewrite (Hg Hio Hm) in *. destruct He as (-> & Hne & _).
  exists s', (wire msgs <$> fs). split; [done|]. split; [done|].
  split; [destruct Hn as (j & _ & Hj & ->); rewrite Hj by done; by rewrite Nat.add_0_r, length_fmap|].
  intros rr cur evs stn fuel' [R1 R2 R3] Hq Har' Hfu.
  assert (∀ f, f ∈ fs → f ∈ arriving cur evs) as Har.
  { intros f Hff. destruct (proj1 (list_elem_of_fmap _ _ _) (Har' _ (list_elem_of_fmap_2 (wire msgs) _ _ Hff)))
      as (g & Eg & Hgg). rewrite (wire_inj msgs conf max f g); [done|done| |by eapply arriving_ok|done].
    by apply (contiguous_ok msgs q 0 fs (blen msgs q)). }
  destruct (get_message_spec msgs conf max P1 P2 malloc P3 P4 P5 rr cur evs stn (mtype msgs q) fuel' R1 R2 R3)
    as (i & ok & r' & cur' & evs' & E' & H1 & H2 & H3 & _ & H5 & H6); [by rewrite Hq|done|].
  assert (ok = true) as ->.
  { apply H6. right. rewrite Hq. split.
    - intros H0. destruct fs as [|f fs]; [done|]. exists f. split; [apply Har; by left|]. apply C.
    - intros j Hj. right. destruct (contiguous_covers _ _ _ _ _ j C Hj) as (f & ? & ? & ?).
      exists f. split; [by apply Har|done]. }
  destruct H5 as [M1 M2 M3 M4 M5 M6 M7]. rewrite Hq in *.
  exists i, r', cur', evs', (dtls1_write_message_header (whole_hdr msgs q) ++ body msgs q).
  split; [done|]. split; [done|]. split; [done|]. split; [by rewrite M1|]. split; [|done].
  rewrite H. f_equal. unfold hashed. rewrite Hre. destruct (contiguous_bytes msgs q 0 fs _ ltac:(lia) C) as [_ Hb].
  rewrite Z.sub_0_r in Hb. change (Z.to_nat 0) with 0%nat in Hb.
  rewrite drop_0, take_ge in Hb by (unfold blen; lia). destruct fs; [done|]. by rewrite Hb.
Qed.

(** A message of three bytes, and a sender that has it in its buffer. *)
Definition demo_env : wenv := mkEnv (λ _, 0) (λ _, 0) 28 1400 true.
Definition demo_ws : ws :=
  mkWS (replicate 12 0 ++ [5; 6; 7]) 0 15 (mkHM 11 3 0 0 3 0 rs0) 1400 0 0 1 [] false rs0
    (replicate 8 0) (replicate 8 0) 0 0 [] [] [].

Lemma demo_sendable : sendable demo_msgs 0.
Proof. unfold sendable, is_byte, blen. cbn. lia. Qed.

Lemma demo_numbers n : is_byte n → seq_ok (replicate 7 0 ++ [n]).
Proof. intros Hn. split; [|done]. repeat constructor; unfold is_byte in *; lia. Qed.

Lemma demo_sender : sender_ok demo_env demo_ws.
Proof. split; [done|vm_compute; done|vm_compute; done|apply (demo_numbers 0); unfold is_byte; lia|constructor]. Qed.

Lemma demo_write_at : write_at demo_msgs 0 0 demo_ws.
Proof. by split. Qed.

Lemma dtls1_do_write_fragments_witness :
  ∃ r s' fs k', dtls1_do_write demo_env demo_ws SSL3_RT_HANDSHAKE 4 = WRet r s' ∧
    sent demo_env demo_msgs 0 0 demo_ws fs k' s' ∧ r = 1.
Proof.
  destruct (dtls1_do_write_fragments demo_env demo_msgs 0 demo_ws 0 4 demo_sendable demo_sender demo_write_at)
    as (r & s' & fs & k' & E & Hs & _ & _ & Hg); [vm_compute; lia|].
  exists r, s', fs, k'. split; [exact E|]. split; [exact Hs|]. apply Hg; [constructor|vm_compute; reflexivity].
Defined.

(** A message of 400 bytes with an MTU of 228: two records, which reach the receiver in the wrong order. *)
Definition long_msgs (q : Z) : Z * list Z := (11, (λ i, Z.of_nat i `mod` 251) <$> seq 0 400).
Definition long_ws : ws :=
  mkWS (replicate 12 0 ++ (long_msgs 0).2) 0 412 (mkHM 11 400 0 0 400 0 rs0) 228 0 0 1 [] false rs0
    (replicate 8 0) (replicate 8 0) 0 0 [] [] [].
Definition long_env : wenv := mkEnv (λ _, 0) (λ _, 0) 28 228 true.
Definition long_evs : list (nat + list afrag) := [inr [mkAF 0 203 197]; inr [mkAF 0 0 203]; inl 1%nat].
Definition long_hs : hs dtls_reader := fresh_hs (ev_wire long_msgs <$> long_evs).

Lemma long_bytes : bytes (long_msgs 0).2.
Proof.
  apply Forall_fmap, Forall_forall. intros i _. unfold compose, is_byte.
  pose proof (Z.mod_pos_bound (Z.of_nat i) 251). lia.
Qed.

Lemma long_peer : peer_ok long_msgs client_conf 1000 ones.
Proof.
  split; [|lia|apply ones_ok|by eexists|done]. intros q _.
  change (msg_ok long_msgs client_conf 1000 q) with (msg_ok long_msgs client_conf 1000 0).
  split; [cbn; unfold is_byte; lia|]. split; [done|]. split; [apply long_bytes|]. by vm_compute.
Qed.

Lemma long_receiving : receiving long_msgs long_hs [] long_evs.
Proof.
  split; [| |done].
  - split; [|cbn; lia|done|].
    + split; [apply pqueue_new_wf|constructor].
    + split; [cbn; lia|]. split; [done|]. split; [cbn; lia|]. constructor.
  - split; [done|done|constructor|].
    assert (∀ o l, 0 ≤ o → 0 < l → o + l ≤ 400 → af_ok long_msgs (mkAF 0 o l)) as Hok.
    { intros o l Ho Hl H. unfold af_ok. change (blen long_msgs (af_seq (mkAF 0 o l))) with 400. cbn. lia. }
    repeat constructor; try done; apply Hok; lia.
Qed.

Lemma dtls_handshake_transport_witness :
  ∃ s' r', dtls1_do_write long_env long_ws SSL3_RT_HANDSHAKE 401 = WRet 1 s' ∧
    reverse (wr_data <$> w_out s') = wire long_msgs <$> arriving [] long_evs ∧
    (wr_seq <$> w_out s') = [replicate 8 0; replicate 7 0 ++ [1]] ∧
    dtls1_get_message ones client_conf long_hs 0 11 1000 10 = Some (400, true, r') ∧
    take 400 (drop 12 (buf_data (init_buf r'))) = (long_msgs 0).2 ∧ hash_input r' = w_hash s'.
Proof.
  destruct (dtls_handshake_transport (L := dtls_reader) long_env long_msgs 0 long_ws client_conf 1000 ones 401)
    as (s' & ps & E & O & _ & R).
  { unfold sendable, is_byte. change (blen long_msgs 0) with 400. cbn. lia. }
  { split; [done|by vm_compute|by vm_compute|apply (demo_numbers 0); unfold is_byte; lia|constructor]. }
  { by split. }
  { vm_compute. lia. }
  { constructor. }
  { vm_compute. reflexivity. }
  { reflexivity. }
  { exact long_peer. }
  assert (wr_data <$> w_out s' = ps) as Ep.
  { rewrite O. apply (data_records SSL3_RT_HANDSHAKE rs0 (replicate 8 0)). }
  vm_compute in E. injection E as <-.
  destruct (R long_hs [] long_evs 0 10%nat long_receiving eq_refl) as (i & r' & cur' & evs' & h & E' & _ & Hi & Hb & Hh & Hr).
  { intros p Hp. rewrite <- Ep in Hp. vm_compute in Hp |- *.
    apply elem_of_cons in Hp as [-> | Hp]; [by right; left|].
    apply list_elem_of_singleton in Hp as ->. by left. }
  { vm_compute. lia. }
  change (blen long_msgs 0) with 400 in Hi. subst i. eexists _, r'. split; [vm_compute; reflexivity|].
  split; [vm_compute; reflexivity|]. split; [vm_compute; reflexivity|]. split; [exact E'|]. split; [exact Hb|].
  rewrite Hr, Hh. reflexivity.
Defined.

(** ** Retransmission *)

(** Message [q] was buffered for retransmission, with the cipher state it was sent under. *)
Record buffered_message msgs (q : Z) (fr : hm_fragment) : Prop := {
  bm_type : hm_type (frag_hdr fr) = mtype msgs q;
  bm_len : hm_msg_len (frag_hdr fr) = blen msgs q;
  bm_seq : hm_seq (frag_hdr fr) = q;
  bm_ccs : hm_is_ccs (frag_hdr fr) = 0;
  bm_data : ∃ hdr, length hdr = 12%nat ∧ fragment fr = hdr ++ body msgs q
}.

(** Buffering the message that is about to be written. *)
Lemma buffer_message_spec malloc msgs q s : malloc_spec malloc → (∀ n, is_Some (malloc n)) →
  write_at msgs q 0 s →
  ∃ it, dtls1_buffer_message malloc s 0 = inr (1, set_sent s (pqueue_insert (w_sent s) it).2) ∧
    priority it = seq64be (2 * q) ∧ buffered_message msgs q (data it) ∧
    hm_saved (frag_hdr (data it)) = w_crypt s.
Proof.
  intros Hma Hme [W1 W2 W3 W4 W5 W6 W7 W8 W9]. unfold dtls1_buffer_message. rewrite W2. cbn [Z.eqb negb].
  destruct (hm_fragment_new_ok malloc Hma Hme (w_num s) false) as (buf & -> & Hb & Hl); [lia|].
  cbn [fragment reassembly]. unfold DTLS1_HM_HEADER_LENGTH. rewrite W5, (proj2 (Z.eqb_eq _ (w_num s))) by lia.
  cbn [negb]. set (fr := mkFrag _ _ _). cbn [hm_seq]. unfold dtls1_get_queue_priority. rewrite W6.
  replace (q * 2 - 0) with (2 * q) by lia.
  destruct (pitem_alloc_ok malloc Hme (2 * q) fr) as (it & -> & Hp & Hd).
  exists it. split; [done|]. split; [done|]. rewrite Hd. split; [|done].
  split; cbn; try done. exists (take 12 (w_data s)). unfold blen in *. split; [len|].
  rewrite splice_whole by len. change (Z.to_nat (0 + 12)) with 12%nat in W9.
  replace (Z.to_nat (w_num s)) with (12 + Z.to_nat (Z.of_nat (length (body msgs q)) - 0))%nat by lia.
  rewrite <- take_take_drop, W9. done.
Qed.

(** A ChangeCipherSpec message is buffered with its one byte. *)
Definition buffered msgs (q : Z) (fr : hm_fragment) : Prop :=
  if hm_is_ccs (frag_hdr fr) =? 0 then buffered_message msgs q fr
  else hm_msg_len (frag_hdr fr) = 0 ∧ length (fragment fr) = 1%nat.

(** What is sent again: fragments of the message from its first byte on, to its end if 1 is returned;
    for a ChangeCipherSpec the byte. *)
Definition resent msgs (q : Z) (fr : hm_fragment) (r : Z) (ps : list (list Z)) : Prop :=
  if hm_is_ccs (frag_hdr fr) =? 0 then
    ∃ fs k', contiguous msgs q 0 fs k' ∧ ps = wire msgs <$> fs ∧ (r = 1 → k' = blen msgs q)
  else ps = if r =? 1 then [fragment fr] else [].

(** Both kinds of message, once they are back in [init_buf]. *)
Lemma rewrite_spec env msgs q cr fr fuel : sendable msgs q → buffered msgs q fr → sender_ok env cr →
  w_retransmitting cr = true →
  let n := hm_msg_len (frag_hdr fr)
           + (if negb (hm_is_ccs (frag_hdr fr) =? 0) then DTLS1_CCS_HEADER_LENGTH else DTLS1_HM_HEADER_LENGTH) in
  let type := if negb (hm_is_ccs (frag_hdr fr) =? 0) then SSL3_RT_CHANGE_CIPHER_SPEC else SSL3_RT_HANDSHAKE in
  w_off cr = 0 → w_num cr = n → hm_type (w_hdr cr) = hm_type (frag_hdr fr) →
  hm_msg_len (w_hdr cr) = hm_msg_len (frag_hdr fr) → hm_seq (w_hdr cr) = hm_seq (frag_hdr fr) →
  (∃ d, w_data cr = splice d 0 (take (Z.to_nat n) (fragment fr)) ∧ blen msgs q + 12 ≤ Z.of_nat (length d)) →
  (Z.to_nat (blen msgs q) < fuel)%nat →
  ∃ r s' ps, dtls1_do_write env cr type fuel = WRet r s' ∧ (r = 1 ∨ r ≤ 0) ∧ resent msgs q fr r ps ∧
    w_out s' = w_out cr ++ records type (w_crypt cr) (w_sequence cr) ps ∧
    numbers_used (w_sequence cr) (length ps) r (w_sequence s') ∧ keeps cr s' ∧ w_hash s' = w_hash cr ∧
    (Forall io_good (w_io cr) → overhead env cr + 12 < w_mtu cr → r = 1).
Proof.
  intros Hse Hb Hok Hre. cbv zeta. intros Ho Hn Ht Hl Hs (d & Hd & Hroom) Hf. unfold buffered, resent in *.
  destruct (hm_is_ccs (frag_hdr fr) =? 0); cbn [negb] in *.
  - destruct Hb as [B1 B2 B3 B4 (hdr & Hh & B5)]. rewrite B2, B5 in *. unfold DTLS1_HM_HEADER_LENGTH in *.
    rewrite (take_ge (hdr ++ body msgs q)) in Hd by (rewrite length_app, Hh; unfold blen; lia).
    assert (Hb0 : 0 ≤ blen msgs q) by (unfold blen; lia).
    assert (write_at msgs q 0 cr) as Hw.
    { split; try congruence; try lia.
      - rewrite Hd, length_splice; [done|]. rewrite length_app, Hh. unfold blen in Hroom. lia.
      - rewrite Hd. change (Z.to_nat 0) with 0%nat. unfold splice. rewrite take_0, drop_0, Z.sub_0_r. cbn [app].
        rewrite <- app_assoc, drop_app_exact by done. apply take_app_exact. unfold blen. lia. }
    destruct (do_write_spec env msgs q cr 0 fuel Hse Hok Hw)
      as (r & s' & fs & k' & E & (C & O & H & K & F) & He & Hu & Hg); [by rewrite Z.sub_0_r|].
    exists r, s', (wire msgs <$> fs). unfold write_end in He. split; [done|].
    split; [destruct (Z.eqb_spec r 1); [by left|right; apply He]|].
    split; [exists fs, k'; do 2 (split; [done|]); intros ->; by destruct He|].
    split; [done|]. split; [by rewrite length_fmap|]. split; [done|]. split; [|done].
    rewrite H. unfold hashed. by rewrite Hre, app_nil_r.
  - destruct Hb as [B1 B2]. rewrite B1 in *. destruct (fragment fr) as [|b [|]]; [done| |done].
    destruct (ccs_write_spec env cr b (drop 1 d) fuel Hok Ho Hn) as (r & s' & ps & E & Hr & Hps & O & Hu & K & H & Hg);
      [by rewrite Hd|lia|]. by exists r, s', ps.
Qed.


(** A sender in epoch 1 that retransmits a message of epoch 0 and the ChangeCipherSpec that ended it. *)
Definition demo_sent : pitem hm_fragment :=
  pitem_new (seq64be 0) (mkFrag (mkHM 11 3 0 0 3 0 (mkRS 1 1 1 0)) (replicate 12 0 ++ [5; 6; 7]) None).
Definition demo_sent_ccs : pitem hm_fragment :=
  pitem_new (seq64be 1) (mkFrag (mkHM 1 0 1 0 0 1 (mkRS 1 1 1 0)) [1] None).
Definition demo_later : ws :=
  set_crypt (set_sent (set_pos demo_ws 0 0) [demo_sent; demo_sent_ccs]) false (mkRS 2 2 1 1)
    (replicate 7 0 ++ [9]) (replicate 7 0 ++ [4]).

Lemma demo_later_sender c : sender_ok demo_env (set_crypt demo_later true c (replicate 7 0 ++ [4]) (replicate 7 0 ++ [4])).
Proof.
  destruct demo_sender as [H1 H2 H3 H4 H5].
  split; [exact H1|exact H2|exact H3|apply (demo_numbers 4); unfold is_byte; lia|exact H5].
Qed.


(** ** A deviation *)

(** When the BIO refuses a fragment other than the first and the MTU may be queried, the second attempt
    in the same call steps back by another header: the fragments that are then sent hold twelve bytes
    too many, and the last one lies beyond the end of the message. *)
Lemma second_attempt_too_long :
  let env := mkEnv (λ _, 0) (λ _, 0) 28 1400 false in
  let s := mkWS (replicate 12 0 ++ replicate 400 7) 0 412 (mkHM 11 400 0 0 400 0 rs0) 228 0 0 1 [] false rs0
             (replicate 8 0) (replicate 8 0) 0 0 [] [] [mkIO 0 1 WrTaken; mkIO 0 1 (WrRefused (-1))] in
  match dtls1_do_write env s SSL3_RT_HANDSHAKE 10 with
  | WRet r s' =>
      r = 1 ∧
      (λ o, match dtls1_get_message_header (wr_data o) with
            | Some h => (hm_msg_len h, hm_frag_off h, hm_frag_len h)
            | None => (0, 0, 0)
            end) <$> w_out s' = [(400, 0, 203); (400, 203, 203); (400, 406, 6)]
  | _ => False
  end.
Proof. vm_compute. done. Qed.
