(* ===== verification/Block.v ===== *)
(** * Block ciphers as parameters of the modes

    The modes of [crypto/modes] take a 128-bit block function ([block128_f], with
    its key) as an argument.  The classes below state what the modes rely on: a
    block function maps 16 bytes to 16 bytes, and the decryption function of a key
    inverts its encryption function.  [toy_encrypt] is an instance on which the
    definitions can be evaluated.

    The file also holds the exclusive or of 16-byte blocks in the ways the C code
    computes it: byte by byte and word by word. *)

From S2P Require Import Prelude.

Definition block (b : list Z) : Prop := bytes b ∧ length b = 16%nat.

Class BlockFn (f : list Z → list Z) : Prop :=
  block_fn : ∀ b, block b → block (f b).

Class BlockInverse (enc dec : list Z → list Z) : Prop := {
  block_enc : BlockFn enc;
  block_dec : BlockFn dec;
  dec_enc : ∀ b, block b → dec (enc b) = b
}.
#[export] Existing Instances block_enc block_dec.

(** Encryption inverts decryption too: a key selects a permutation of the
    blocks. *)
Class BlockPermutation (enc dec : list Z → list Z) : Prop := {
  block_perm_inverse : BlockInverse enc dec;
  enc_dec : ∀ b, block b → enc (dec b) = b
}.
#[export] Existing Instance block_perm_inverse.

#[global] Instance block_decidable b : Decision (block b).
Proof. unfold block. apply _. Defined.

(** The functions of [crypto/modes] have several paths: a byte loop in builds
    with [OPENSSL_SMALL_FOOTPRINT], and a choice between bytes and words that
    depends on the alignment of the buffers. *)
Inductive path := SmallFootprint | Unaligned | Aligned.

(** ** Exclusive or of blocks *)

(** [sizeof(size_t)] is 8. *)
Definition xor_words (a b : list Z) : list Z :=
  le_store 8 (Z.lxor (le_load (take 8 a)) (le_load (take 8 b))) ++
  le_store 8 (Z.lxor (le_load (take 8 (drop 8 a))) (le_load (take 8 (drop 8 b)))).

(** [words] tells whether the loop works on words or on bytes. *)
Definition xor16 (words : bool) (a b : list Z) : list Z :=
  if words then xor_words a b else xor_bytes (take 16 a) (take 16 b).

Lemma xor_words_bytes a b : block a → block b → xor_words a b = xor_bytes a b.
Proof.
  intros [Ha Hla] [Hb Hlb]. unfold xor_words. rewrite !le_store_xor by (auto with vtls || len).
  rewrite <- xor_bytes_app by len. f_equal.
  - rewrite (take_ge (drop 8 a)), take_drop by len. done.
  - rewrite (take_ge (drop 8 b)), take_drop by len. done.
Qed.

Lemma xor16_xor_bytes w a b : block a → block b → xor16 w a b = xor_bytes a b.
Proof.
  intros Ha Hb. destruct w; [by apply xor_words_bytes|].
  cbn. destruct Ha, Hb. by rewrite !take_ge by len.
Qed.

Lemma block_xor a b : block a → block b → block (xor_bytes a b).
Proof. intros [? ?] [? ?]. split; [auto with vtls|len]. Qed.

Lemma block_take16 l : bytes l → (16 ≤ length l)%nat → block (take 16 l).
Proof. intros. split; [auto with vtls|len]. Qed.

Lemma block_length b : block b → length b = 16%nat.
Proof. by intros []. Qed.

Lemma block_bytes b : block b → bytes b.
Proof. by intros []. Qed.

Lemma block_replicate0 : block (replicate 16 0).
Proof. split; [auto with vtls|done]. Qed.

Lemma xor_block_cancel a b : block a → block b → xor_bytes (xor_bytes a b) b = a.
Proof. intros [] []. apply xor_bytes_cancel_r. len. Qed.

#[export] Hint Extern 2 (block (?f _)) => apply (@block_fn f); [apply _|] : vtls.
#[export] Hint Resolve block_xor block_bytes block_replicate0 : vtls.

(** Sequences of blocks. *)
Lemma blocks_1 b : block b → Forall block [b].
Proof. intros. constructor; [done|constructor]. Qed.

Lemma blocks_2 a b : block a → block b → Forall block [a; b].
Proof. intros. constructor; [done|by apply blocks_1]. Qed.

Lemma length_concat_blocks bs : Forall block bs → length (concat bs) = (16 * length bs)%nat.
Proof.
  induction 1 as [|b bs [_ Hb] _ IH]; [done|]. cbn [concat length]. rewrite length_app, IH, Hb. lia.
Qed.

Lemma bytes_concat_blocks bs : Forall block bs → bytes (concat bs).
Proof. induction 1 as [|b bs [Hb _] _ IH]; [constructor|]. cbn [concat]. auto with vtls. Qed.
#[export] Hint Resolve bytes_concat_blocks : vtls.

(** A partial final block is extended with zero bytes. *)
Definition zero_pad (r : list Z) : list Z := r ++ replicate (16 - length r) 0.

Lemma xor_zero_pad r iv : (length r ≤ 16)%nat → block iv →
  xor_bytes r (take (length r) iv) ++ drop (length r) iv = xor_bytes (zero_pad r) iv.
Proof.
  intros Hr [Hb Hl]. unfold zero_pad. rewrite <- (take_drop (length r) iv) at 3.
  rewrite xor_bytes_app by len. f_equal.
  apply list_eq_getb; [len|]. intros i Hi. unfold getb, nthZ.
  set (d := drop (length r) iv) in *. assert (length d = 16 - length r)%nat as Hd by (unfold d; len).
  rewrite <- Hd. clearbody d. clear. revert d. induction (Z.to_nat i); intros [|x d]; cbn; auto.
Qed.

Lemma block_zero_pad r : bytes r → (length r ≤ 16)%nat → block (zero_pad r).
Proof. intros. unfold zero_pad. split; [auto with vtls|len]. Qed.

Lemma zero_pad_block b : block b → zero_pad b = b.
Proof. intros [_ Hl]. unfold zero_pad. rewrite Hl. apply app_nil_r. Qed.

(** A buffer is a sequence of whole blocks and a shorter rest. *)
Lemma split_blocks l : bytes l →
  ∃ bs r, l = concat bs ++ r ∧ Forall block bs ∧ bytes r ∧ (length r < 16)%nat.
Proof.
  remember (length l) as n eqn:Hn. revert l Hn. induction (lt_wf n) as [n _ IH]; intros l -> Hl.
  destruct (decide (length l < 16)%nat) as [Hs|Hs]; [by exists [], l|].
  destruct (IH (length l - 16)%nat ltac:(lia) (drop 16 l) ltac:(len) ltac:(auto with vtls))
    as (bs & r & E & Hbs & Hr & Hlr).
  exists (take 16 l :: bs), r. cbn [concat]. rewrite <- app_assoc, <- E, take_drop.
  repeat split; [|done|done]. constructor; [|done]. apply block_take16; [done|lia].
Qed.

(** [b[i + j] ^= data[j]] for all [j]. *)
Definition xor_at (b : list Z) (i : nat) (data : list Z) : list Z :=
  splice b i (xor_bytes (take (length data) (drop i b)) data).

(** A string cut into blocks, the last one extended with zeros. *)
Definition pad_blocks (l : list Z) : list (list Z) :=
  map (λ i, zero_pad (take 16 (drop (16 * i) l))) (seq 0 ((length l + 15) / 16)).

Lemma pad_blocks_app b l : block b → pad_blocks (b ++ l) = b :: pad_blocks l.
Proof.
  intros Hb. pose proof (block_length b Hb) as Hl. unfold pad_blocks. rewrite length_app, Hl.
  replace ((16 + length l + 15) / 16)%nat with (S ((length l + 15) / 16)).
  2: { replace (16 + length l + 15)%nat with (length l + 15 + 1 * 16)%nat by lia. rewrite Nat.div_add by lia. lia. }
  cbn [seq map]. rewrite Nat.mul_0_r, drop_0, take_app_exact, zero_pad_block by done. f_equal.
  rewrite <- seq_shift, map_map. apply map_ext. intros i. do 2 f_equal.
  replace (16 * S i)%nat with (16 + 16 * i)%nat by lia. by rewrite <- drop_drop, drop_app_exact by done.
Qed.

Lemma pad_blocks_short l : l ≠ [] → (length l ≤ 16)%nat → pad_blocks l = [zero_pad l].
Proof.
  intros Hne Hl. unfold pad_blocks. assert (1 ≤ length l)%nat by (destruct l; [done|cbn; lia]).
  replace ((length l + 15) / 16)%nat with 1%nat.
  2: { apply (Nat.div_unique _ 16 1 (length l - 1)); lia. }
  cbn [seq map]. by rewrite Nat.mul_0_r, drop_0, take_ge by lia.
Qed.

Lemma pad_blocks_concat bs r : Forall block bs → (length r < 16)%nat →
  pad_blocks (concat bs ++ r) = bs ++ match r with [] => [] | _ => [zero_pad r] end.
Proof.
  intros Hbs Hr. induction Hbs as [|b bs Hb Hbs IH]; cbn [concat app].
  - destruct r as [|x r]; [done|]. apply pad_blocks_short; [done|lia].
  - by rewrite <- app_assoc, pad_blocks_app, IH.
Qed.

Lemma blocks_pad_blocks l : bytes l → Forall block (pad_blocks l).
Proof.
  intros Hl. destruct (split_blocks l Hl) as (bs & r & -> & Hbs & Hr & Hlr).
  rewrite pad_blocks_concat by done. apply Forall_app. split; [done|].
  destruct r; [constructor|]. apply blocks_1, block_zero_pad; [done|lia].
Qed.

(** Exclusive or into a block is exclusive or with the padded string. *)
Lemma xor_at_zero_pad c l : block c → (length l ≤ 16)%nat → xor_at c 0 l = xor_bytes c (zero_pad l).
Proof.
  intros Hc Hl. rewrite (xor_bytes_comm c), <- xor_zero_pad by done. unfold xor_at, splice.
  destruct Hc as [_ Hc]. rewrite drop_0, take_0. cbn [app Nat.add]. rewrite xor_bytes_comm.
  do 2 f_equal. len.
Qed.

Lemma xor_at_twice c p l : block c → (length p + length l ≤ 16)%nat →
  xor_at (xor_at c 0 p) (length p) l = xor_at c 0 (p ++ l).
Proof.
  intros [_ Hc] Hl. unfold xor_at, splice. rewrite !drop_0, !take_0. cbn [app Nat.add].
  set (x := xor_bytes (take (length p) c) p). assert (length x = length p) as Hx by (unfold x; len).
  rewrite Hx, take_app_exact, (drop_app_exact x) by done.
  set (y := xor_bytes (take (length l) (drop (length p) c)) l).
  assert (length y = length l) as Hy by (unfold y; len).
  assert (xor_bytes (take (length (p ++ l)) c) (p ++ l) = x ++ y) as ->.
  { rewrite length_app, <- take_take_drop, xor_bytes_app by len. done. }
  rewrite <- drop_drop, (drop_app_exact x), drop_drop, length_app, Hx, Hy, <- app_assoc by done. done.
Qed.

(** ** A concrete block cipher *)

Definition toy_encrypt (b : list Z) : list Z := reverse (map (λ x, Z.lxor x 0x5a) b).
Definition toy_decrypt (b : list Z) : list Z := map (λ x, Z.lxor x 0x5a) (reverse b).

#[global] Instance toy_inverse : BlockInverse toy_encrypt toy_decrypt.
Proof.
  assert (∀ b, bytes b → bytes (map (λ x, Z.lxor x 0x5a) b)) as Hm.
  { induction 1; constructor; [|done]. apply is_byte_lxor; [done|unfold is_byte; lia]. }
  split.
  - intros b [Hb Hl]. unfold toy_encrypt. split; [auto with vtls|]. rewrite length_reverse, length_map. done.
  - intros b [Hb Hl]. unfold toy_decrypt. split; [auto with vtls|]. rewrite length_map, length_reverse. done.
  - intros b [Hb _]. unfold toy_decrypt, toy_encrypt. rewrite reverse_involutive, map_map.
    rewrite <- (map_id b) at 2. apply map_ext. intros x. apply lxor_cancel_r.
Qed.

#[global] Instance toy_permutation : BlockPermutation toy_encrypt toy_decrypt.
Proof.
  split; [apply _|]. intros b _. unfold toy_encrypt, toy_decrypt. rewrite map_map.
  rewrite (map_ext _ id), map_id by (intros x; apply lxor_cancel_r). apply reverse_involutive.
Qed.
