(* ===== verification/Cbc.v ===== *)
(** * CBC mode

    Models [crypto/modes/cbc128.c].  The functions take the memory at [in], the
    length, the initialisation vector and the block function, and return the bytes
    written at [out] together with the new [ivec].  The input and output buffers
    are disjoint or equal, as the interface requires; the code has a separate path
    for each case, and paths for unaligned buffers and for builds with
    [OPENSSL_SMALL_FOOTPRINT].  The abstract specification is the chaining
    equation on sequences of blocks. *)

From S2P Require Import Prelude Block.

Section cbc.
Context (blk : list Z → list Z).

(** [while (len >= 16)] in [CRYPTO_cbc128_encrypt]: the bytes written, what is
    left of the input and of [len], and [iv]. *)
Fixpoint enc_blocks (words : bool) (fuel : nat) (inp : list Z) (len : nat) (iv : list Z)
  : list Z * list Z * nat * list Z :=
  match fuel with
  | O => ([], inp, len, iv)
  | S fuel =>
      if (16 <=? len)%nat then
        let o := blk (xor16 words (take 16 inp) iv) in
        let '(out, inp', len', iv') := enc_blocks words fuel (drop 16 inp) (len - 16) o in
        (o ++ out, inp', len', iv')
      else ([], inp, len, iv)
  end.

(** [while (len)], which handles the final partial block. *)
Fixpoint enc_tail (fuel : nat) (inp : list Z) (len : nat) (iv : list Z) : list Z * list Z :=
  match fuel with
  | O => ([], iv)
  | S fuel =>
      if (len =? 0)%nat then ([], iv)
      else
        let n := Nat.min 16 len in
        let o := blk (xor_bytes (take n inp) (take n iv) ++ drop n iv) in
        if (len <=? 16)%nat then (o, o)
        else
          let '(out, iv') := enc_tail fuel (drop 16 inp) (len - 16) o in
          (o ++ out, iv')
  end.

Definition CRYPTO_cbc128_encrypt (p : path) (inp : list Z) (len : nat) (ivec : list Z)
  : list Z * list Z :=
  match p with
  | SmallFootprint => enc_tail len inp len ivec
  | _ =>
      let words := match p with Aligned => true | _ => false end in
      let '(out, inp', len', iv) := enc_blocks words len inp len ivec in
      let '(out', iv') := enc_tail len' inp' len' iv in
      (out ++ out', iv')
  end.

(** The two block loops of [CRYPTO_cbc128_decrypt].  For [in != out] the vector
    is the previous input block, for [in == out] it is kept in [ivec]. *)
Fixpoint dec_blocks_distinct (words : bool) (fuel : nat) (inp : list Z) (len : nat) (iv : list Z)
  : list Z * list Z * nat * list Z :=
  match fuel with
  | O => ([], inp, len, iv)
  | S fuel =>
      if (16 <=? len)%nat then
        let o := xor16 words (blk (take 16 inp)) iv in
        let '(out, inp', len', iv') :=
          dec_blocks_distinct words fuel (drop 16 inp) (len - 16) (take 16 inp) in
        (o ++ out, inp', len', iv')
      else ([], inp, len, iv)
  end.

Fixpoint dec_blocks_in_place (words : bool) (fuel : nat) (inp : list Z) (len : nat) (ivec : list Z)
  : list Z * list Z * nat * list Z :=
  match fuel with
  | O => ([], inp, len, ivec)
  | S fuel =>
      if (16 <=? len)%nat then
        let tmp := blk (take 16 inp) in
        let c := take 16 inp in
        let o := xor16 words tmp ivec in
        let '(out, inp', len', ivec') := dec_blocks_in_place words fuel (drop 16 inp) (len - 16) c in
        (o ++ out, inp', len', ivec')
      else ([], inp, len, ivec)
  end.

(** The final loop reads a whole block of input but writes only [len] bytes. *)
Fixpoint dec_tail (fuel : nat) (inp : list Z) (len : nat) (ivec : list Z) : list Z * list Z :=
  match fuel with
  | O => ([], ivec)
  | S fuel =>
      if (len =? 0)%nat then ([], ivec)
      else
        let tmp := blk (take 16 inp) in
        let n := Nat.min 16 len in
        let o := xor_bytes (take n tmp) (take n ivec) in
        let ivec := take n inp ++ drop n ivec in
        if (len <=? 16)%nat then (o, take n ivec ++ take (16 - n) (drop n inp))
        else
          let '(out, ivec') := dec_tail fuel (drop 16 inp) (len - 16) ivec in
          (o ++ out, ivec')
  end.

Definition CRYPTO_cbc128_decrypt (p : path) (in_place : bool) (inp : list Z) (len : nat) (ivec : list Z)
  : list Z * list Z :=
  match p with
  | SmallFootprint => dec_tail len inp len ivec
  | _ =>
      let words := match p with Aligned => true | _ => false end in
      let '(out, inp', len', iv) :=
        if in_place then dec_blocks_in_place words len inp len ivec
        else dec_blocks_distinct words len inp len ivec in
      let '(out', iv') := dec_tail len' inp' len' iv in
      (out ++ out', iv')
  end.

(** ** Abstract specification *)

(** [C_i = E(P_i xor C_{i-1})]. *)
Fixpoint cbc_enc (iv : list Z) (ps : list (list Z)) : list (list Z) :=
  match ps with
  | [] => []
  | p :: ps => let c := blk (xor_bytes p iv) in c :: cbc_enc c ps
  end.

(** [P_i = D(C_i) xor C_{i-1}]. *)
Fixpoint cbc_dec (iv : list Z) (cs : list (list Z)) : list (list Z) :=
  match cs with
  | [] => []
  | c :: cs => xor_bytes (blk c) iv :: cbc_dec c cs
  end.

(** The last block of a sequence, or the vector when there is none. *)
Fixpoint last_block (iv : list Z) (cs : list (list Z)) : list Z :=
  match cs with [] => iv | c :: cs => last_block c cs end.

Definition pad_last (r : list Z) : list (list Z) :=
  match r with [] => [] | _ => [zero_pad r] end.

(** ** Encryption *)

Context `{!BlockFn blk}.

Lemma enc_blocks_spec words bs rest r : (r < 16)%nat → Forall block bs → ∀ fuel iv, block iv →
  (length bs ≤ fuel)%nat →
  enc_blocks words fuel (concat bs ++ rest) (16 * length bs + r) iv =
  (concat (cbc_enc iv bs), rest, r, last_block iv (cbc_enc iv bs)).
Proof.
  intros Hr. induction 1 as [|b bs Hb _ IH]; intros fuel iv Hiv Hf.
  { destruct fuel; cbn [enc_blocks]; [done|]. by rewrite (proj2 (Nat.leb_gt _ _)) by (cbn; lia). }
  destruct fuel as [|fuel]; [cbn in Hf; lia|]. cbn [enc_blocks length concat cbc_enc] in *.
  rewrite (proj2 (Nat.leb_le _ _)) by lia. rewrite <- app_assoc.
  rewrite take_app_exact, drop_app_exact by (by apply block_length).
  rewrite xor16_xor_bytes by done.
  replace (16 * S (length bs) + r - 16)%nat with (16 * length bs + r)%nat by lia.
  rewrite IH by (auto with vtls || lia). done.
Qed.

Lemma block_pad_last r : bytes r → (length r ≤ 16)%nat → Forall block (pad_last r).
Proof. intros. destruct r; [constructor|]. constructor; [by apply block_zero_pad|constructor]. Qed.

(** The tail loop on its own: any number of blocks and a partial one. *)
Lemma enc_tail_spec bs r rest : Forall block bs → bytes r → (length r < 16)%nat → ∀ fuel iv, block iv →
  (16 * length bs + length r ≤ fuel)%nat →
  enc_tail fuel (concat bs ++ r ++ rest) (16 * length bs + length r) iv =
  (concat (cbc_enc iv (bs ++ pad_last r)), last_block iv (cbc_enc iv (bs ++ pad_last r))).
Proof.
  intros Hbs Hr Hlr. induction Hbs as [|b bs Hb Hbs IH]; intros fuel iv Hiv Hf.
  - cbn [concat app length Nat.mul Nat.add] in *. destruct r as [|x r'] eqn:Er.
    { cbn. by destruct fuel. }
    rewrite <- Er in *. replace (pad_last r) with [zero_pad r] by (by rewrite Er).
    assert (length r ≠ 0)%nat by (by rewrite Er). clear Er.
    destruct fuel as [|fuel]; [lia|]. cbn [enc_tail cbc_enc concat last_block].
    rewrite (proj2 (Nat.eqb_neq _ 0)), (proj2 (Nat.leb_le _ _)) by lia.
    rewrite Nat.min_r by lia. rewrite take_app_length, xor_zero_pad, app_nil_r by (done || lia). done.
  - destruct fuel as [|fuel]; [cbn in Hf; lia|]. cbn [enc_tail concat length app cbc_enc last_block] in *.
    rewrite (proj2 (Nat.eqb_neq _ 0)) by lia. rewrite Nat.min_l by lia.
    pose proof (block_length b Hb). pose proof (block_length iv Hiv).
    rewrite <- app_assoc, take_app_exact, drop_app_exact by done.
    rewrite (take_ge iv), (drop_ge iv), app_nil_r by lia.
    replace (16 * S (length bs) + length r - 16)%nat with (16 * length bs + length r)%nat by lia.
    rewrite IH by (auto with vtls || lia). cbv zeta.
    destruct (Nat.leb_spec (16 * S (length bs) + length r) 16); [|done].
    assert (length bs = 0 ∧ length r = 0)%nat as [?%length_zero_iff_nil ?%length_zero_iff_nil] by lia.
    subst. cbn. by rewrite app_nil_r.
Qed.

Lemma block_last_enc bs iv : Forall block bs → block iv → block (last_block iv (cbc_enc iv bs)).
Proof.
  intros Hbs. revert iv. induction Hbs as [|b bs Hb Hbs IH]; intros iv Hiv; cbn; [done|].
  auto with vtls.
Qed.

Lemma cbc_enc_app iv a b : cbc_enc iv (a ++ b) = cbc_enc iv a ++ cbc_enc (last_block iv (cbc_enc iv a)) b.
Proof. revert iv. induction a as [|x a IH]; intros iv; cbn; [done|]. by rewrite IH. Qed.

Lemma last_block_app iv a b : last_block iv (a ++ b) = last_block (last_block iv a) b.
Proof. revert iv. induction a as [|x a IH]; intros iv; cbn; [done|]. apply IH. Qed.

Lemma cbc128_encrypt_eq p bs r rest iv :
  Forall block bs → bytes r → (length r < 16)%nat → block iv →
  CRYPTO_cbc128_encrypt p (concat bs ++ r ++ rest) (16 * length bs + length r) iv =
  (concat (cbc_enc iv (bs ++ pad_last r)), last_block iv (cbc_enc iv (bs ++ pad_last r))).
Proof.
  intros Hbs Hr Hlr Hiv. unfold CRYPTO_cbc128_encrypt.
  assert (∀ w, (let '(out, inp', len', iv0) :=
      enc_blocks w (16 * length bs + length r) (concat bs ++ r ++ rest) (16 * length bs + length r) iv in
    let '(out', iv') := enc_tail len' inp' len' iv0 in (out ++ out', iv')) =
    (concat (cbc_enc iv (bs ++ pad_last r)), last_block iv (cbc_enc iv (bs ++ pad_last r)))) as Hw.
  { intros w. rewrite enc_blocks_spec by (done || lia).
    pose proof (enc_tail_spec [] r rest ltac:(constructor) Hr Hlr (length r)
      (last_block iv (cbc_enc iv bs)) ltac:(by apply block_last_enc) ltac:(cbn; lia)) as E.
    cbn [concat app length Nat.mul Nat.add] in E. rewrite E.
    rewrite cbc_enc_app, concat_app, last_block_app. done. }
  destruct p; [by apply enc_tail_spec|apply Hw..].
Qed.

(** ** Decryption *)

Lemma dec_blocks_same words fuel inp len iv :
  dec_blocks_in_place words fuel inp len iv = dec_blocks_distinct words fuel inp len iv.
Proof.
  revert inp len iv. induction fuel as [|fuel IH]; intros inp len iv; [done|].
  cbn. by rewrite IH.
Qed.

Lemma dec_blocks_spec words bs rest r : (r < 16)%nat → Forall block bs → ∀ fuel iv, block iv →
  (length bs ≤ fuel)%nat →
  dec_blocks_distinct words fuel (concat bs ++ rest) (16 * length bs + r) iv =
  (concat (cbc_dec iv bs), rest, r, last_block iv bs).
Proof.
  intros Hr. induction 1 as [|b bs Hb _ IH]; intros fuel iv Hiv Hf.
  { destruct fuel; cbn [dec_blocks_distinct]; [done|]. by rewrite (proj2 (Nat.leb_gt _ _)) by (cbn; lia). }
  destruct fuel as [|fuel]; [cbn in Hf; lia|]. cbn [dec_blocks_distinct length concat cbc_dec last_block] in *.
  rewrite (proj2 (Nat.leb_le _ _)) by lia. rewrite <- app_assoc.
  rewrite take_app_exact, drop_app_exact by (by apply block_length).
  rewrite xor16_xor_bytes by auto with vtls.
  replace (16 * S (length bs) + r - 16)%nat with (16 * length bs + r)%nat by lia.
  by rewrite IH by (done || lia).
Qed.

(** The blocks of a message of [16 * length bs + r] bytes, the last one taken
    whole, and what decryption writes of it. *)
Lemma dec_tail_spec bs b rest r : (0 < r ≤ 16)%nat → Forall block bs → block b → ∀ fuel iv, block iv →
  (16 * length bs + r ≤ fuel)%nat →
  dec_tail fuel (concat bs ++ b ++ rest) (16 * length bs + r) iv =
  (take (16 * length bs + r) (concat (cbc_dec iv (bs ++ [b]))), b).
Proof.
  intros Hr Hbs Hb. pose proof (block_length b Hb).
  induction Hbs as [|c bs Hc Hbs IH]; intros fuel iv Hiv Hf; pose proof (block_length iv Hiv).
  - destruct fuel as [|fuel]; [cbn in Hf; lia|].
    cbn [dec_tail concat app length Nat.mul Nat.add cbc_dec] in *.
    rewrite (proj2 (Nat.eqb_neq _ 0)), (proj2 (Nat.leb_le _ _)), Nat.min_r by lia.
    rewrite take_app_exact by done. f_equal.
    + by rewrite app_nil_r, xor_bytes_take.
    + rewrite take_app_exact by len. rewrite take_app_le, drop_app_le by lia.
      rewrite take_app_exact by len. apply take_drop.
  - destruct fuel as [|fuel]; [cbn in Hf; lia|].
    pose proof (block_length c Hc).
    cbn [dec_tail concat length app cbc_dec last_block] in *.
    rewrite (proj2 (Nat.eqb_neq _ 0)), (proj2 (Nat.leb_gt _ _)), Nat.min_l by lia.
    rewrite <- app_assoc. rewrite !take_app_exact, drop_app_exact by done.
    rewrite (drop_ge iv), app_nil_r by lia.
    replace (16 * S (length bs) + r - 16)%nat with (16 * length bs + r)%nat by lia.
    rewrite IH by (done || lia). rewrite !take_ge by (auto with vtls || lia || (destruct (block_fn c Hc); lia)).
    f_equal. rewrite take_app_ge by (destruct (block_fn c Hc); len). f_equal. f_equal.
    destruct (block_fn c Hc). len.
Qed.

Lemma last_block_snoc iv bs b : last_block iv (bs ++ [b]) = b.
Proof. by rewrite last_block_app. Qed.

Lemma cbc_dec_app iv a b : cbc_dec iv (a ++ b) = cbc_dec iv a ++ cbc_dec (last_block iv a) b.
Proof. revert iv. induction a as [|x a IH]; intros iv; cbn; [done|]. by rewrite IH. Qed.

Lemma block_last bs iv : Forall block bs → block iv → block (last_block iv bs).
Proof. intros Hbs. revert iv. induction Hbs; intros iv Hiv; cbn; auto. Qed.

Lemma blocks_cbc_dec bs iv : Forall block bs → block iv → Forall block (cbc_dec iv bs).
Proof. intros Hbs. revert iv. induction Hbs; intros iv Hiv; cbn; constructor; auto with vtls. Qed.

Lemma length_cbc_dec iv bs : length (cbc_dec iv bs) = length bs.
Proof. revert iv. induction bs; intros iv; cbn; auto. Qed.

(** [len] bytes are covered by exactly the blocks [cs]. *)
Definition covers (cs : list (list Z)) (len : nat) : Prop :=
  (len ≤ 16 * length cs ∧ 16 * length cs < len + 16)%nat.

Lemma cbc128_decrypt_eq p ip cs rest len iv :
  Forall block cs → block iv → covers cs len →
  CRYPTO_cbc128_decrypt p ip (concat cs ++ rest) len iv =
  (take len (concat (cbc_dec iv cs)), last_block iv cs).
Proof.
  intros Hcs Hiv [Hlen1 Hlen2].
  destruct (decide (len = 0)%nat) as [->|Hn0].
  { assert (length cs = 0)%nat as ->%length_zero_iff_nil by lia. by destruct p, ip. }
  destruct cs as [|b bs _] using rev_ind; [cbn in *; lia|].
  rewrite length_app in *. cbn [length] in *. rewrite last_block_snoc.
  pose proof Hcs as [Hbs Hb]%Forall_app. apply Forall_cons_1 in Hb as [Hb _].
  assert (∃ r, len = 16 * length bs + r ∧ 0 < r ≤ 16)%nat as (r & -> & Hr)
    by (exists (len - 16 * length bs)%nat; lia).
  assert (concat (bs ++ [b]) ++ rest = concat bs ++ b ++ rest) as Ein
    by (by rewrite concat_app, <- app_assoc; cbn; rewrite app_nil_r).
  assert (∀ w, (let '(out, inp', len', iv0) := dec_blocks_distinct w (16 * length bs + r)
        (concat (bs ++ [b]) ++ rest) (16 * length bs + r) iv in
      let '(out', iv') := dec_tail len' inp' len' iv0 in (out ++ out', iv')) =
    (take (16 * length bs + r) (concat (cbc_dec iv (bs ++ [b]))), b)) as Hw.
  { intros w. destruct (decide (r = 16)%nat) as [->|Hr16].
    - replace (16 * length bs + 16)%nat with (16 * length (bs ++ [b]) + 0)%nat by (len).
      rewrite dec_blocks_spec by (done || len). cbn [dec_tail]. rewrite app_nil_r, last_block_snoc.
      rewrite take_ge; [done|]. rewrite length_concat_blocks by (by apply blocks_cbc_dec).
      rewrite length_cbc_dec. lia.
    - rewrite Ein, dec_blocks_spec by (done || lia).
      pose proof (dec_tail_spec [] b rest r Hr ltac:(constructor) Hb r (last_block iv bs)
        ltac:(by apply block_last) ltac:(cbn; lia)) as E. cbn [concat app length Nat.mul Nat.add] in E.
      rewrite E. f_equal. rewrite cbc_dec_app, concat_app, take_app_ge.
      2: { rewrite length_concat_blocks by (by apply blocks_cbc_dec). rewrite length_cbc_dec. lia. }
      f_equal. f_equal. rewrite length_concat_blocks by (by apply blocks_cbc_dec).
      rewrite length_cbc_dec. lia. }
  unfold CRYPTO_cbc128_decrypt. destruct p; [rewrite Ein; by apply dec_tail_spec| |];
    (destruct ip; [rewrite dec_blocks_same|]; apply Hw).
Qed.
End cbc.

(** ** Round trip *)

Section roundtrip.
Context (enc dec : list Z → list Z) `{!BlockInverse enc dec}.

Lemma cbc_dec_enc iv ps : Forall block ps → block iv → cbc_dec dec iv (cbc_enc enc iv ps) = ps.
Proof.
  intros Hps. revert iv. induction Hps as [|p ps Hp Hps IH]; intros iv Hiv; cbn; [done|].
  rewrite dec_enc by auto with vtls. rewrite xor_block_cancel by done. f_equal. auto with vtls.
Qed.

Lemma blocks_cbc_enc iv ps : Forall block ps → block iv → Forall block (cbc_enc enc iv ps).
Proof. intros Hps. revert iv. induction Hps; intros iv Hiv; cbn; constructor; auto with vtls. Qed.

Lemma length_cbc_enc iv ps : length (cbc_enc enc iv ps) = length ps.
Proof. revert iv. induction ps; intros iv; cbn; auto. Qed.

Lemma length_pad_last r : length (pad_last r) = if (length r =? 0)%nat then 0%nat else 1%nat.
Proof. by destruct r. Qed.

Lemma covers_pad bs r : (length r < 16)%nat → covers (bs ++ pad_last r) (16 * length bs + length r).
Proof.
  intros. unfold covers. rewrite length_app, length_pad_last.
  destruct (Nat.eqb_spec (length r) 0); lia.
Qed.

Lemma take_pad_last bs r : Forall block bs →
  take (16 * length bs + length r) (concat (bs ++ pad_last r)) = concat bs ++ r.
Proof.
  intros Hbs. rewrite concat_app, take_app_ge, length_concat_blocks by (done || (rewrite length_concat_blocks by done; lia)).
  f_equal. replace (_ - _)%nat with (length r) by lia.
  destruct r; [done|]. unfold pad_last. cbn [concat]. rewrite app_nil_r. unfold zero_pad. apply take_app_length.
Qed.
End roundtrip.

(** on every path (word loop, byte loop, small-footprint loop),
    [CRYPTO_cbc128_encrypt] computes the CBC chaining of the message's blocks, a
    partial final block being extended with zeros, and leaves the last ciphertext
    block in [ivec]. *)
Theorem cbc128_encrypt_spec blk `{!BlockFn blk} p bs r rest iv :
  Forall block bs → bytes r → (length r < 16)%nat → block iv →
  CRYPTO_cbc128_encrypt blk p (concat bs ++ r ++ rest) (16 * length bs + length r) iv =
  (concat (cbc_enc blk iv (bs ++ pad_last r)), last_block iv (cbc_enc blk iv (bs ++ pad_last r))).
Proof. by apply cbc128_encrypt_eq. Qed.

Lemma cbc128_encrypt_spec_witness :
  CRYPTO_cbc128_encrypt toy_encrypt Aligned (concat [replicate 16 1] ++ [5] ++ []) 17 (replicate 16 7) =
  (concat (cbc_enc toy_encrypt (replicate 16 7) ([replicate 16 1] ++ pad_last [5])),
   last_block (replicate 16 7) (cbc_enc toy_encrypt (replicate 16 7) ([replicate 16 1] ++ pad_last [5]))).
Proof.
  apply (cbc128_encrypt_spec toy_encrypt Aligned [replicate 16 1] [5] [] (replicate 16 7));
    try apply (bool_decide_unpack _); vm_compute; reflexivity || lia.
Defined.

(** [CRYPTO_cbc128_decrypt] computes the inverse chaining of the ciphertext
    blocks, cut to the requested length, identically for distinct buffers, in
    place, and on every path. *)
Theorem cbc128_decrypt_spec blk `{!BlockFn blk} p in_place cs rest len iv :
  Forall block cs → block iv → covers cs len →
  CRYPTO_cbc128_decrypt blk p in_place (concat cs ++ rest) len iv =
  (take len (concat (cbc_dec blk iv cs)), last_block iv cs).
Proof. by apply cbc128_decrypt_eq. Qed.

Lemma cbc128_decrypt_spec_witness :
  CRYPTO_cbc128_decrypt toy_decrypt Unaligned true (concat [replicate 16 1; replicate 16 2] ++ []) 20 (replicate 16 7) =
  (take 20 (concat (cbc_dec toy_decrypt (replicate 16 7) [replicate 16 1; replicate 16 2])), replicate 16 2).
Proof.
  apply (cbc128_decrypt_spec toy_decrypt Unaligned true [replicate 16 1; replicate 16 2] [] 20 (replicate 16 7));
    [apply (bool_decide_unpack _); vm_compute; reflexivity..|]. unfold covers. cbn. lia.
Defined.

(** decrypting a CBC ciphertext returns the message, for every length, path
    and aliasing of the buffers. *)
Theorem cbc128_roundtrip enc dec `{!BlockInverse enc dec} p p' in_place msg rest iv :
  bytes msg → block iv →
  (CRYPTO_cbc128_decrypt dec p' in_place
     (CRYPTO_cbc128_encrypt enc p (msg ++ rest) (length msg) iv).1 (length msg) iv).1 = msg.
Proof.
  intros Hm Hiv. destruct (split_blocks msg Hm) as (bs & r & -> & Hbs & Hr & Hlr).
  assert (length (concat bs ++ r) = 16 * length bs + length r)%nat as Hl
    by (rewrite length_app, length_concat_blocks by done; lia).
  pose proof (block_pad_last r Hr ltac:(lia)) as Hpad.
  assert (Forall block (bs ++ pad_last r)) as Hall by (by apply Forall_app).
  rewrite Hl, <- app_assoc, cbc128_encrypt_eq by (done || apply _). cbn [fst].
  rewrite <- (app_nil_r (concat (cbc_enc _ _ _))).
  rewrite (cbc128_decrypt_eq dec); [|by apply (blocks_cbc_enc enc dec)|done|].
  - cbn [fst]. rewrite (cbc_dec_enc enc dec) by done. by apply take_pad_last.
  - pose proof (covers_pad bs r Hlr) as [H1 H2]. unfold covers. by rewrite length_cbc_enc.
Qed.

Lemma cbc128_roundtrip_witness :
  (CRYPTO_cbc128_decrypt toy_decrypt SmallFootprint false
     (CRYPTO_cbc128_encrypt toy_encrypt Aligned ([1; 2; 3] ++ []) 3 (replicate 16 7)).1 3 (replicate 16 7)).1 = [1; 2; 3].
Proof.
  apply (cbc128_roundtrip toy_encrypt toy_decrypt Aligned SmallFootprint false [1; 2; 3] [] (replicate 16 7));
    apply (bool_decide_unpack _); vm_compute; reflexivity.
Defined.
