(* ===== verification/Cts.v ===== *)
(** * Ciphertext stealing

    Models [crypto/modes/cts128.c]: the RFC 2040/3962 variant and the NIST
    variant, each once on a block function and once on a CBC function
    ([cbc128_f]).  A function returns its return value, the bytes written at
    [out] and the new [ivec]; input and output are disjoint or equal.

    What the [cbc128_f] variants rely on is the interface [CbcFn], which the
    functions of [Cbc] implement. *)

From S2P Require Import Prelude Block Cbc.

(** ** The interface of a CBC function

    [f e inp len iv] encrypts ([e = true]) or decrypts [len] bytes, a multiple of
    16, and returns what it writes and the new vector. *)
Abbreviation cbc128_f := (bool → list Z → nat → list Z → list Z * list Z).

Class CbcFn (enc dec : list Z → list Z) (f : cbc128_f) : Prop := {
  cbc_fn_enc : ∀ bs rest iv, Forall block bs → block iv →
    f true (concat bs ++ rest) (16 * length bs)%nat iv =
    (concat (cbc_enc enc iv bs), last_block iv (cbc_enc enc iv bs));
  cbc_fn_dec : ∀ bs rest iv, Forall block bs → block iv →
    f false (concat bs ++ rest) (16 * length bs)%nat iv =
    (concat (cbc_dec dec iv bs), last_block iv bs)
}.

(** The code's own CBC functions implement it. *)
Definition cbc128 (enc dec : list Z → list Z) (p : path) (in_place : bool) : cbc128_f :=
  λ e inp len iv,
    if e then CRYPTO_cbc128_encrypt enc p inp len iv
    else CRYPTO_cbc128_decrypt dec p in_place inp len iv.

#[global] Instance cbc128_cbc_fn enc dec p in_place `{!BlockInverse enc dec} :
  CbcFn enc dec (cbc128 enc dec p in_place).
Proof.
  split; intros bs rest iv Hbs Hiv; unfold cbc128.
  - pose proof (cbc128_encrypt_eq enc p bs [] rest iv Hbs ltac:(constructor) ltac:(cbn; lia) Hiv) as E.
    cbn [app length pad_last] in E. by rewrite app_nil_r, Nat.add_0_r in E.
  - rewrite (cbc128_decrypt_eq dec); [|done|done|unfold covers; lia].
    rewrite take_ge; [done|]. rewrite length_concat_blocks by (by apply (blocks_cbc_dec dec)).
    by rewrite length_cbc_dec.
Qed.

Section cts.
Context (blk : list Z → list Z) (cbc : cbc128_f) (p : path) (in_place : bool).

(** [if ((residue = len % 16) == 0) residue = 16;] *)
Definition cts_residue (len : nat) : nat :=
  let residue := (len mod 16)%nat in if (residue =? 0)%nat then 16%nat else residue.

(** [for (n = 0; n < residue; ++n) ivec[n] ^= in[n];] *)
Definition xor_residue (ivec inp : list Z) (residue : nat) : list Z :=
  xor_bytes (take residue ivec) (take residue inp) ++ drop residue ivec.

Definition CRYPTO_cts128_encrypt_block (inp : list Z) (len : nat) (ivec : list Z) : nat * list Z * list Z :=
  if (len <=? 16)%nat then (0%nat, [], ivec)
  else
    let residue := cts_residue len in
    let len := (len - residue)%nat in
    let '(out, ivec) := CRYPTO_cbc128_encrypt blk p inp len ivec in
    let inp := drop len inp in
    let ivec := blk (xor_residue ivec inp residue) in
    let out := out ++ take residue (drop (len - 16) out) in
    let out := splice out (len - 16) ivec in
    ((len + residue)%nat, out, ivec).

Definition CRYPTO_nistcts128_encrypt_block (inp : list Z) (len : nat) (ivec : list Z) : nat * list Z * list Z :=
  if (len <? 16)%nat then (0%nat, [], ivec)
  else
    let residue := (len mod 16)%nat in
    let len := (len - residue)%nat in
    let '(out, ivec) := CRYPTO_cbc128_encrypt blk p inp len ivec in
    if (residue =? 0)%nat then (len, out, ivec)
    else
      let inp := drop len inp in
      let ivec := blk (xor_residue ivec inp residue) in
      ((len + residue)%nat, take (len - 16 + residue) out ++ ivec, ivec).

(** [memcpy] of [residue] bytes into a zeroed block. *)
Definition zero_block (inp : list Z) (residue : nat) : list Z :=
  splice (replicate 16 0) 0 (take residue inp).

Definition CRYPTO_cts128_encrypt (inp : list Z) (len : nat) (ivec : list Z) : nat * list Z * list Z :=
  if (len <=? 16)%nat then (0%nat, [], ivec)
  else
    let residue := cts_residue len in
    let len := (len - residue)%nat in
    let '(out, ivec) := cbc true inp len ivec in
    let inp := drop len inp in
    let tmp := zero_block inp residue in
    let out := out ++ take residue (drop (len - 16) out) in
    let '(last, ivec) := cbc true tmp 16%nat ivec in
    ((len + residue)%nat, splice out (len - 16) last, ivec).

Definition CRYPTO_nistcts128_encrypt (inp : list Z) (len : nat) (ivec : list Z) : nat * list Z * list Z :=
  if (len <? 16)%nat then (0%nat, [], ivec)
  else
    let residue := (len mod 16)%nat in
    let len := (len - residue)%nat in
    let '(out, ivec) := cbc true inp len ivec in
    if (residue =? 0)%nat then (len, out, ivec)
    else
      let inp := drop len inp in
      let tmp := zero_block inp residue in
      let '(last, ivec) := cbc true tmp 16%nat ivec in
      ((len + residue)%nat, take (len - 16 + residue) out ++ last, ivec).

(** The common prefix of the decryption functions: whole blocks before the last
    two. *)
Definition dec_prefix (f : list Z → nat → list Z → list Z * list Z) (inp : list Z) (len : nat) (ivec : list Z)
  : list Z * list Z * list Z :=
  if (len =? 0)%nat then ([], inp, ivec)
  else let '(out, ivec) := f inp len ivec in (out, drop len inp, ivec).

Definition CRYPTO_cts128_decrypt_block (inp : list Z) (len : nat) (ivec : list Z) : nat * list Z * list Z :=
  if (len <=? 16)%nat then (0%nat, [], ivec)
  else
    let residue := cts_residue len in
    let len := (len - (16 + residue))%nat in
    let '(out, inp, ivec) := dec_prefix (CRYPTO_cbc128_decrypt blk p in_place) inp len ivec in
    let tmp_hi := blk (take 16 inp) in
    let tmp_lo := splice tmp_hi 0 (take residue (drop 16 inp)) in
    let tmp_lo := blk tmp_lo in
    let out0 := xor_bytes tmp_lo ivec in
    let ivec := take 16 inp in
    let out1 := xor_bytes (take residue tmp_hi) (take residue (drop 16 inp)) in
    let residue := (residue + 16)%nat in
    ((16 + len + residue)%nat, out ++ out0 ++ out1, ivec).

Definition CRYPTO_nistcts128_decrypt_block (inp : list Z) (len : nat) (ivec : list Z) : nat * list Z * list Z :=
  if (len <? 16)%nat then (0%nat, [], ivec)
  else
    let residue := (len mod 16)%nat in
    if (residue =? 0)%nat then
      let '(out, ivec) := CRYPTO_cbc128_decrypt blk p in_place inp len ivec in (len, out, ivec)
    else
      let len := (len - (16 + residue))%nat in
      let '(out, inp, ivec) := dec_prefix (CRYPTO_cbc128_decrypt blk p in_place) inp len ivec in
      let tmp_hi := blk (take 16 (drop residue inp)) in
      let tmp_lo := splice tmp_hi 0 (take residue inp) in
      let tmp_lo := blk tmp_lo in
      let out0 := xor_bytes tmp_lo ivec in
      let ivec := take 16 (drop residue inp) in
      let tmp_lo := take 16 inp in
      let out1 := xor_bytes (take residue tmp_hi) (take residue tmp_lo) in
      let residue := (residue + 16)%nat in
      ((16 + len + residue)%nat, out ++ out0 ++ out1, ivec).

Definition CRYPTO_cts128_decrypt (inp : list Z) (len : nat) (ivec : list Z) : nat * list Z * list Z :=
  if (len <=? 16)%nat then (0%nat, [], ivec)
  else
    let residue := cts_residue len in
    let len := (len - (16 + residue))%nat in
    let '(out, inp, ivec) := dec_prefix (cbc false) inp len ivec in
    let '(tmp_lo, tmp_hi) := cbc false inp 16%nat (replicate 16 0) in
    let tmp := splice (tmp_lo ++ tmp_hi) 0 (take residue (drop 16 inp)) in
    let '(tmp, ivec) := cbc false tmp 32%nat ivec in
    ((16 + len + residue)%nat, out ++ take (16 + residue) tmp, ivec).

Definition CRYPTO_nistcts128_decrypt (inp : list Z) (len : nat) (ivec : list Z) : nat * list Z * list Z :=
  if (len <? 16)%nat then (0%nat, [], ivec)
  else
    let residue := (len mod 16)%nat in
    if (residue =? 0)%nat then
      let '(out, ivec) := cbc false inp len ivec in (len, out, ivec)
    else
      let len := (len - (16 + residue))%nat in
      let '(out, inp, ivec) := dec_prefix (cbc false) inp len ivec in
      let '(tmp_lo, tmp_hi) := cbc false (drop residue inp) 16%nat (replicate 16 0) in
      let tmp := splice (tmp_lo ++ tmp_hi) 0 (take residue inp) in
      let '(tmp, ivec) := cbc false tmp 32%nat ivec in
      ((16 + len + residue)%nat, out ++ take (16 + residue) tmp, ivec).

End cts.

(** ** Abstract specification

    A message longer than a block is [concat bs ++ pl ++ r]: whole blocks, the
    last whole block [pl] and a non-empty rest [r] of at most 16 bytes. *)

Section spec.
Context (enc dec : list Z → list Z) `{!BlockInverse enc dec} (cbc : cbc128_f) `{!CbcFn enc dec cbc}.
Context (p : path) (in_place : bool).

(** The last two CBC blocks. *)
Definition steal1 (iv : list Z) (bs : list (list Z)) (pl : list Z) : list Z :=
  enc (xor_bytes pl (last_block iv (cbc_enc enc iv bs))).
Definition steal2 (iv : list Z) (bs : list (list Z)) (pl r : list Z) : list Z :=
  enc (xor_bytes (zero_pad r) (steal1 iv bs pl)).

(** RFC 2040: the last two blocks are swapped. *)
Definition rfc_cts (iv : list Z) bs (pl r : list Z) : list Z :=
  concat (cbc_enc enc iv bs) ++ steal2 iv bs pl r ++ take (length r) (steal1 iv bs pl).

(** The NIST proposal keeps their order. *)
Definition nist_cts (iv : list Z) bs (pl r : list Z) : list Z :=
  concat (cbc_enc enc iv bs) ++ take (length r) (steal1 iv bs pl) ++ steal2 iv bs pl r.

Lemma split_cts msg : bytes msg → (16 < length msg)%nat →
  ∃ bs pl r, msg = concat bs ++ pl ++ r ∧ Forall block bs ∧ block pl ∧ bytes r ∧ (1 ≤ length r ≤ 16)%nat.
Proof.
  intros Hm Hlen. destruct (split_blocks msg Hm) as (bs & r & -> & Hbs & Hr & Hlr).
  rewrite length_app, length_concat_blocks in Hlen by done.
  destruct bs as [|pl bs _] using rev_ind; [cbn in Hlen; lia|].
  apply Forall_app in Hbs as [Hbs Hpl]. apply Forall_cons_1 in Hpl as [Hpl _].
  rewrite length_app in Hlen. cbn [length] in Hlen.
  destruct (decide (r = [])) as [->|Hne].
  - destruct bs as [|pl' bs _] using rev_ind; [cbn in Hlen; lia|].
    apply Forall_app in Hbs as [Hbs Hpl']. apply Forall_cons_1 in Hpl' as [Hpl' _].
    exists bs, pl', pl. rewrite !concat_app, app_nil_r. cbn [concat]. rewrite !app_nil_r, <- app_assoc.
    destruct Hpl. split_and!; done || lia.
  - exists bs, pl, r. rewrite concat_app. cbn [concat]. rewrite app_nil_r, <- app_assoc.
    split_and!; try done; [destruct r; [done|cbn; lia]|lia].
Qed.

Section message.
Context (bs : list (list Z)) (pl r iv : list Z).
Context (Hbs : Forall block bs) (Hpl : block pl) (Hr : bytes r) (Hlr : (1 ≤ length r ≤ 16)%nat) (Hiv : block iv).

Let len := (16 * length bs + 16 + length r)%nat.

Lemma residue_len : cts_residue len = length r.
Proof.
  unfold cts_residue, len. replace (16 * length bs + 16 + length r)%nat with (length r + (length bs + 1) * 16)%nat by lia.
  rewrite Nat.Div0.mod_add. destruct (decide (length r = 16)%nat) as [->|]; [done|].
  rewrite Nat.mod_small by lia. by rewrite (proj2 (Nat.eqb_neq _ 0)) by lia.
Qed.

Lemma mod_len : (length r < 16)%nat → (len mod 16 = length r)%nat.
Proof.
  intros. unfold len. replace (16 * length bs + 16 + length r)%nat with (length r + (length bs + 1) * 16)%nat by lia.
  rewrite Nat.Div0.mod_add. apply Nat.mod_small. lia.
Qed.

Lemma block_steal1 : block (steal1 iv bs pl).
Proof. unfold steal1. apply block_fn, block_xor; [done|]. by apply (block_last_enc enc). Qed.

Lemma block_steal2 : block (steal2 iv bs pl r).
Proof. unfold steal2. apply block_fn, block_xor; [apply block_zero_pad; [done|lia]|apply block_steal1]. Qed.

Lemma message_blocks rest : concat bs ++ pl ++ r ++ rest = concat (bs ++ [pl]) ++ r ++ rest.
Proof. rewrite concat_app. cbn. by rewrite app_nil_r, <- app_assoc. Qed.

Lemma message_len : (len - length r = 16 * length (bs ++ [pl]))%nat.
Proof. unfold len. len. Qed.

Lemma cbc_enc_message : cbc_enc enc iv (bs ++ [pl]) = cbc_enc enc iv bs ++ [steal1 iv bs pl].
Proof. by rewrite cbc_enc_app. Qed.

Lemma concat_enc_message :
  concat (cbc_enc enc iv (bs ++ [pl])) = concat (cbc_enc enc iv bs) ++ steal1 iv bs pl.
Proof. rewrite cbc_enc_message, concat_app. cbn. by rewrite app_nil_r. Qed.

Lemma last_enc_message : last_block iv (cbc_enc enc iv (bs ++ [pl])) = steal1 iv bs pl.
Proof. by rewrite cbc_enc_message, last_block_snoc. Qed.

Lemma blocks_message : Forall block (bs ++ [pl]).
Proof. apply Forall_app. split; [done|]. by constructor. Qed.

Lemma length_concat_enc : length (concat (cbc_enc enc iv bs)) = (16 * length bs)%nat.
Proof.
  rewrite length_concat_blocks by (by apply (blocks_cbc_enc enc dec)). by rewrite length_cbc_enc.
Qed.

(** What the encryption functions do after the whole blocks. *)
Lemma drop_message rest : drop (16 * length (bs ++ [pl])) (concat (bs ++ [pl]) ++ r ++ rest) = r ++ rest.
Proof. apply drop_app_exact. apply length_concat_blocks, blocks_message. Qed.

Lemma xor_residue_steal rest :
  enc (xor_residue (steal1 iv bs pl) (r ++ rest) (length r)) = steal2 iv bs pl r.
Proof.
  unfold xor_residue, steal2. f_equal. rewrite take_app_length, xor_bytes_comm.
  apply xor_zero_pad; [lia|apply block_steal1].
Qed.

Lemma zero_block_pad rest : zero_block (r ++ rest) (length r) = zero_pad r.
Proof.
  unfold zero_block, zero_pad, splice. rewrite take_app_length. cbn [app take Nat.add].
  by rewrite drop_replicate.
Qed.

(** The RFC variant overwrites the last block and appends its stolen bytes. *)
Lemma rfc_assemble c2 : block c2 →
  let out := concat (cbc_enc enc iv bs) ++ steal1 iv bs pl in
  let k := (16 * length (bs ++ [pl]) - 16)%nat in
  splice (out ++ take (length r) (drop k out)) k c2 =
  concat (cbc_enc enc iv bs) ++ c2 ++ take (length r) (steal1 iv bs pl).
Proof.
  intros [_ Hc2] out k. assert (k = length (concat (cbc_enc enc iv bs))) as Hk
    by (unfold k; rewrite length_concat_enc; len).
  unfold out. rewrite Hk, drop_app_length, <- app_assoc. apply splice_app.
  pose proof block_steal1 as [_ ?]. lia.
Qed.

Lemma nist_assemble c2 :
  take (16 * length (bs ++ [pl]) - 16 + length r) (concat (cbc_enc enc iv bs) ++ steal1 iv bs pl) ++ c2 =
  concat (cbc_enc enc iv bs) ++ take (length r) (steal1 iv bs pl) ++ c2.
Proof.
  rewrite take_app_ge by (rewrite length_concat_enc; len). rewrite <- app_assoc. do 3 f_equal.
  rewrite length_concat_enc. len.
Qed.

Lemma cbc_single rest : cbc true (zero_pad r ++ rest) 16%nat (steal1 iv bs pl) =
  (steal2 iv bs pl r, steal2 iv bs pl r).
Proof.
  pose proof (block_zero_pad r Hr ltac:(lia)) as Hz.
  pose proof (cbc_fn_enc [zero_pad r] rest (steal1 iv bs pl) (blocks_1 _ Hz) block_steal1) as E.
  cbn in E. by rewrite !app_nil_r in E.
Qed.

Lemma cts_encrypt_eq rest :
  CRYPTO_cts128_encrypt_block enc p (concat bs ++ pl ++ r ++ rest) len iv =
  (len, rfc_cts iv bs pl r, steal2 iv bs pl r) ∧
  CRYPTO_cts128_encrypt cbc (concat bs ++ pl ++ r ++ rest) len iv =
  (len, rfc_cts iv bs pl r, steal2 iv bs pl r).
Proof.
  unfold CRYPTO_cts128_encrypt_block, CRYPTO_cts128_encrypt.
  rewrite (proj2 (Nat.leb_gt _ _)), residue_len, message_len, message_blocks by (unfold len; lia).
  rewrite (cbc_fn_enc (dec := dec)) by (apply blocks_message || done).
  rewrite drop_message, concat_enc_message, last_enc_message.
  pose proof (cbc_fn_enc (dec := dec) (f := cbc128 enc dec p in_place) (bs ++ [pl]) (r ++ rest) iv
    blocks_message Hiv) as E. unfold cbc128 in E. rewrite E.
  rewrite concat_enc_message, last_enc_message, xor_residue_steal, zero_block_pad.
  pose proof (cbc_single []) as Es. rewrite app_nil_r in Es. rewrite Es.
  rewrite rfc_assemble by apply block_steal2. rewrite <- message_len.
  replace (len - length r + length r)%nat with len by (unfold len; lia). done.
Qed.

Lemma nistcts_encrypt_eq rest : (length r < 16)%nat →
  CRYPTO_nistcts128_encrypt_block enc p (concat bs ++ pl ++ r ++ rest) len iv =
  (len, nist_cts iv bs pl r, steal2 iv bs pl r) ∧
  CRYPTO_nistcts128_encrypt cbc (concat bs ++ pl ++ r ++ rest) len iv =
  (len, nist_cts iv bs pl r, steal2 iv bs pl r).
Proof.
  intros Hlt. unfold CRYPTO_nistcts128_encrypt_block, CRYPTO_nistcts128_encrypt.
  rewrite (proj2 (Nat.ltb_ge _ _)), mod_len, message_len, message_blocks by (unfold len; lia).
  rewrite (cbc_fn_enc (dec := dec)) by (apply blocks_message || done).
  rewrite drop_message, concat_enc_message, last_enc_message.
  pose proof (cbc_fn_enc (dec := dec) (f := cbc128 enc dec p in_place) (bs ++ [pl]) (r ++ rest) iv
    blocks_message Hiv) as E. unfold cbc128 in E. rewrite E.
  rewrite concat_enc_message, last_enc_message, xor_residue_steal, zero_block_pad.
  pose proof (cbc_single []) as Es. rewrite app_nil_r in Es. rewrite Es.
  rewrite (proj2 (Nat.eqb_neq _ 0)), nist_assemble by lia. rewrite <- message_len.
  replace (len - length r + length r)%nat with len by (unfold len; lia). done.
Qed.

(** *** Decryption undoes it *)

Lemma dec_prefix_spec f rest : CbcFn enc dec f →
  dec_prefix (f false) (concat (cbc_enc enc iv bs) ++ rest) (16 * length bs)%nat iv =
  (concat bs, rest, last_block iv (cbc_enc enc iv bs)).
Proof.
  intros Hf. unfold dec_prefix. destruct (Nat.eqb_spec (16 * length bs) 0).
  { assert (length bs = 0)%nat as ->%length_zero_iff_nil by lia. done. }
  pose proof (cbc_fn_dec (enc := enc) (f := f) (cbc_enc enc iv bs) rest iv
    ltac:(by apply (blocks_cbc_enc enc dec)) Hiv) as E. rewrite length_cbc_enc in E. rewrite E.
  rewrite (cbc_dec_enc enc dec) by done. rewrite drop_app_exact by apply length_concat_enc. done.
Qed.

Lemma dec_steal2 : dec (steal2 iv bs pl r) = xor_bytes (zero_pad r) (steal1 iv bs pl).
Proof.
  unfold steal2. apply dec_enc, block_xor; [apply block_zero_pad; [done|lia]|apply block_steal1].
Qed.

(** The stolen bytes complete the last whole block. *)
Lemma steal_restore tl :
  splice (xor_bytes (zero_pad r) (steal1 iv bs pl) ++ tl) 0 (take (length r) (steal1 iv bs pl)) =
  steal1 iv bs pl ++ tl.
Proof.
  pose proof block_steal1 as Hs. pose proof (block_length _ Hs) as Hl.
  rewrite <- xor_zero_pad by (done || lia). rewrite <- app_assoc.
  etransitivity; [apply (splice_app [] (xor_bytes r (take (length r) (steal1 iv bs pl))))|].
  - len.
  - cbn [app]. by rewrite app_assoc, take_drop.
Qed.

Lemma recover_rest :
  xor_bytes (take (length r) (xor_bytes (zero_pad r) (steal1 iv bs pl))) (take (length r) (steal1 iv bs pl)) = r.
Proof.
  pose proof (block_length _ block_steal1) as Hl. rewrite xor_bytes_take.
  unfold zero_pad. rewrite take_app_length. apply xor_bytes_cancel_r. len.
Qed.

Lemma recover_last : xor_bytes (dec (steal1 iv bs pl)) (last_block iv (cbc_enc enc iv bs)) = pl.
Proof.
  unfold steal1. assert (block (last_block iv (cbc_enc enc iv bs))) by (by apply (block_last_enc enc)).
  rewrite dec_enc by auto with vtls. by apply xor_block_cancel.
Qed.

Lemma steal_split rest :
  take 16 (steal2 iv bs pl r ++ take (length r) (steal1 iv bs pl) ++ rest) = steal2 iv bs pl r ∧
  take (length r) (drop 16 (steal2 iv bs pl r ++ take (length r) (steal1 iv bs pl) ++ rest)) =
    take (length r) (steal1 iv bs pl).
Proof.
  pose proof (block_length _ block_steal2) as H2. pose proof (block_length _ block_steal1).
  rewrite take_app_exact, drop_app_exact by done. split; [done|]. apply take_app_exact. len.
Qed.

Lemma steal_split_nist rest :
  take (length r) (take (length r) (steal1 iv bs pl) ++ steal2 iv bs pl r ++ rest) =
    take (length r) (steal1 iv bs pl) ∧
  drop (length r) (take (length r) (steal1 iv bs pl) ++ steal2 iv bs pl r ++ rest) =
    steal2 iv bs pl r ++ rest.
Proof.
  pose proof (block_length _ block_steal1).
  split; [apply take_app_exact; len|apply drop_app_exact; len].
Qed.

(** The [cbc128_f] variants: the two CBC calls on the last blocks. *)
Lemma cbc_dec_last rest :
  cbc false (steal2 iv bs pl r ++ rest) 16%nat (replicate 16 0) =
  (xor_bytes (zero_pad r) (steal1 iv bs pl), steal2 iv bs pl r).
Proof.
  pose proof (cbc_fn_dec (enc := enc) (dec := dec) [steal2 iv bs pl r] rest (replicate 16 0)
    (blocks_1 _ block_steal2) block_replicate0) as E.
  cbn [concat length app cbc_dec last_block Nat.mul Nat.add] in E. rewrite !app_nil_r, dec_steal2 in E.
  rewrite E. f_equal. apply xor_bytes_0_r.
  pose proof (block_length _ block_steal1). rewrite length_xor_bytes. unfold zero_pad. len.
Qed.

Lemma cbc_dec_two :
  cbc false (steal1 iv bs pl ++ steal2 iv bs pl r) 32%nat (last_block iv (cbc_enc enc iv bs)) =
  (pl ++ zero_pad r, steal2 iv bs pl r).
Proof.
  pose proof (cbc_fn_dec (enc := enc) (dec := dec) [steal1 iv bs pl; steal2 iv bs pl r] []
    (last_block iv (cbc_enc enc iv bs)) (blocks_2 _ _ block_steal1 block_steal2)
    ltac:(by apply (block_last_enc enc))) as E.
  cbn [concat length app cbc_dec last_block Nat.mul Nat.add] in E.
  rewrite !app_nil_r, dec_steal2, recover_last in E. rewrite E. do 2 f_equal.
  apply xor_block_cancel; [apply block_zero_pad; [done|lia]|apply block_steal1].
Qed.

Lemma take_recovered : take (16 + length r) (pl ++ zero_pad r) = pl ++ r.
Proof.
  rewrite take_app_ge by (rewrite (block_length pl) by done; lia). rewrite (block_length pl) by done.
  replace (16 + length r - 16)%nat with (length r) by lia. unfold zero_pad. by rewrite take_app_length.
Qed.

Lemma dec_prefix_cbc128 rest :
  dec_prefix (CRYPTO_cbc128_decrypt dec p in_place) (concat (cbc_enc enc iv bs) ++ rest) (16 * length bs)%nat iv =
  (concat bs, rest, last_block iv (cbc_enc enc iv bs)).
Proof. apply (dec_prefix_spec (cbc128 enc dec p in_place)). apply _. Qed.

Lemma prefix_len : (len - (16 + length r) = 16 * length bs)%nat.
Proof. unfold len. lia. Qed.

Lemma cts_decrypt_eq rest :
  CRYPTO_cts128_decrypt_block dec p in_place (rfc_cts iv bs pl r ++ rest) len iv =
    ((len + 16)%nat, concat bs ++ pl ++ r, steal2 iv bs pl r) ∧
  CRYPTO_cts128_decrypt cbc (rfc_cts iv bs pl r ++ rest) len iv =
    (len, concat bs ++ pl ++ r, steal2 iv bs pl r).
Proof.
  unfold CRYPTO_cts128_decrypt_block, CRYPTO_cts128_decrypt, rfc_cts.
  rewrite (proj2 (Nat.leb_gt _ _)), residue_len, prefix_len by (unfold len; lia).
  rewrite <- !app_assoc, dec_prefix_cbc128, (dec_prefix_spec cbc) by done.
  destruct (steal_split rest) as [E1 E2]. rewrite E1, E2, cbc_dec_last, dec_steal2, recover_rest.
  rewrite steal_restore, cbc_dec_two, take_recovered.
  pose proof (steal_restore []) as E3. rewrite !app_nil_r in E3. rewrite E3, recover_last.
  split; do 2 f_equal; unfold len; lia.
Qed.

Lemma nistcts_decrypt_eq rest : (length r < 16)%nat →
  CRYPTO_nistcts128_decrypt_block dec p in_place (nist_cts iv bs pl r ++ rest) len iv =
    ((len + 16)%nat, concat bs ++ pl ++ r, steal2 iv bs pl r) ∧
  CRYPTO_nistcts128_decrypt cbc (nist_cts iv bs pl r ++ rest) len iv =
    (len, concat bs ++ pl ++ r, steal2 iv bs pl r).
Proof.
  intros Hlt. unfold CRYPTO_nistcts128_decrypt_block, CRYPTO_nistcts128_decrypt, nist_cts.
  rewrite (proj2 (Nat.ltb_ge _ _)), mod_len, prefix_len by (unfold len; lia).
  rewrite (proj2 (Nat.eqb_neq _ 0)) by lia.
  rewrite <- !app_assoc, dec_prefix_cbc128, (dec_prefix_spec cbc) by done.
  rewrite take_take, Nat.min_l by lia.
  destruct (steal_split_nist rest) as [E1 E2]. rewrite E1, E2, cbc_dec_last.
  rewrite (take_app_exact (steal2 iv bs pl r)) by apply block_length, block_steal2.
  rewrite dec_steal2, recover_rest, steal_restore, cbc_dec_two, take_recovered.
  pose proof (steal_restore []) as E3. rewrite !app_nil_r in E3. rewrite E3, recover_last.
  split; do 2 f_equal; unfold len; lia.
Qed.
End message.
End spec.

(** ** Correctness *)

(** ciphertext stealing (RFC variant) on any message longer than a block:
    the variant on a block function and the one on a CBC function produce the
    same ciphertext, as long as the message, and both decryption functions return
    the message. *)
Theorem cts128_roundtrip enc dec `{!BlockInverse enc dec} cbc `{!CbcFn enc dec cbc} p in_place msg rest iv :
  bytes msg → block iv → (16 < length msg)%nat →
  ∃ ct iv',
    CRYPTO_cts128_encrypt_block enc p (msg ++ rest) (length msg) iv = (length msg, ct, iv') ∧
    CRYPTO_cts128_encrypt cbc (msg ++ rest) (length msg) iv = (length msg, ct, iv') ∧
    length ct = length msg ∧
    (CRYPTO_cts128_decrypt_block dec p in_place ct (length msg) iv).1.2 = msg ∧
    CRYPTO_cts128_decrypt cbc ct (length msg) iv = (length msg, msg, iv').
Proof.
  intros Hm Hiv Hlen. destruct (split_cts msg Hm Hlen) as (bs & pl & r & -> & Hbs & Hpl & Hr & Hlr).
  assert (length (concat bs ++ pl ++ r) = 16 * length bs + 16 + length r)%nat as Hl.
  { rewrite !length_app, length_concat_blocks, (block_length pl) by done. lia. }
  exists (rfc_cts enc iv bs pl r), (steal2 enc iv bs pl r). rewrite Hl, <- !app_assoc.
  destruct (cts_encrypt_eq enc dec cbc p in_place bs pl r iv Hbs Hpl Hr Hlr Hiv rest) as [E1 E2].
  destruct (cts_decrypt_eq enc dec cbc p in_place bs pl r iv Hbs Hpl Hr Hlr Hiv []) as [D1 D2].
  rewrite app_nil_r in D1, D2. rewrite E1, E2, D1, D2. repeat split; try done.
  unfold rfc_cts. pose proof (block_steal1 enc dec bs pl iv Hbs Hpl Hiv) as [_ H1].
  pose proof (block_steal2 enc dec bs pl r iv Hbs Hpl Hr Hlr Hiv) as [_ H2].
  rewrite !length_app, (length_concat_enc enc dec) by done. len.
Qed.

Lemma cts128_roundtrip_witness :
  ∃ ct iv',
    CRYPTO_cts128_encrypt_block toy_encrypt Aligned (replicate 20 3 ++ []) 20 (replicate 16 7) = (20%nat, ct, iv') ∧
    CRYPTO_cts128_encrypt (cbc128 toy_encrypt toy_decrypt Aligned false) (replicate 20 3 ++ []) 20 (replicate 16 7)
      = (20%nat, ct, iv') ∧
    length ct = 20%nat ∧
    (CRYPTO_cts128_decrypt_block toy_decrypt Aligned false ct 20 (replicate 16 7)).1.2 = replicate 20 3 ∧
    CRYPTO_cts128_decrypt (cbc128 toy_encrypt toy_decrypt Aligned false) ct 20 (replicate 16 7)
      = (20%nat, replicate 20 3, iv').
Proof.
  apply (cts128_roundtrip toy_encrypt toy_decrypt (cbc128 toy_encrypt toy_decrypt Aligned false) Aligned false
    (replicate 20 3) [] (replicate 16 7)); apply (bool_decide_unpack _); vm_compute; reflexivity.
Defined.

(** the NIST variant on any message of at least a block, whole blocks
    included (which are plain CBC): both encryption functions agree and both
    decryption functions return the message. *)
Theorem nistcts128_roundtrip enc dec `{!BlockInverse enc dec} cbc `{!CbcFn enc dec cbc} p in_place msg rest iv :
  bytes msg → block iv → (16 ≤ length msg)%nat →
  ∃ ct iv',
    CRYPTO_nistcts128_encrypt_block enc p (msg ++ rest) (length msg) iv = (length msg, ct, iv') ∧
    CRYPTO_nistcts128_encrypt cbc (msg ++ rest) (length msg) iv = (length msg, ct, iv') ∧
    (CRYPTO_nistcts128_decrypt_block dec p in_place ct (length msg) iv).1.2 = msg ∧
    CRYPTO_nistcts128_decrypt cbc ct (length msg) iv = (length msg, msg, iv').
Proof.
  intros Hm Hiv Hlen. destruct (split_blocks msg Hm) as (bs0 & r & -> & Hbs0 & Hr & Hlr).
  assert (length (concat bs0 ++ r) = 16 * length bs0 + length r)%nat as Hl
    by (by rewrite length_app, length_concat_blocks).
  destruct (decide (length r = 0)%nat) as [->%length_zero_iff_nil|Hr0].
  - rewrite app_nil_r in *. cbn [length] in Hl. rewrite Nat.add_0_r in Hl. rewrite Hl in *.
    unfold CRYPTO_nistcts128_encrypt_block, CRYPTO_nistcts128_encrypt,
      CRYPTO_nistcts128_decrypt_block, CRYPTO_nistcts128_decrypt.
    rewrite (proj2 (Nat.ltb_ge _ _)), Nat.mul_comm, Nat.Div0.mod_mul, Nat.mul_comm, Nat.sub_0_r by lia. cbn [Nat.eqb].
    pose proof (cbc_fn_enc (dec := dec) (f := cbc128 enc dec p in_place) bs0 rest iv Hbs0 Hiv) as E1.
    unfold cbc128 in E1. rewrite E1, (cbc_fn_enc (dec := dec)) by done.
    do 2 eexists. split; [done|]. split; [done|].
    pose proof (λ f Hf, @cbc_fn_dec enc dec f Hf (cbc_enc enc iv bs0) [] iv
      ltac:(by apply (blocks_cbc_enc enc dec)) Hiv) as D.
    rewrite length_cbc_enc, app_nil_r, (cbc_dec_enc enc dec) in D by done.
    rewrite (D cbc _). specialize (D (cbc128 enc dec p in_place) _). unfold cbc128 in D. by rewrite D.
  - destruct bs0 as [|pl bs _] using rev_ind; [cbn in *; lia|].
    apply Forall_app in Hbs0 as [Hbs Hpl]. apply Forall_cons_1 in Hpl as [Hpl _].
    rewrite concat_app in *. cbn [concat] in *. rewrite app_nil_r in *.
    rewrite length_app in Hl. cbn [length] in Hl.
    replace (length ((concat bs ++ pl) ++ r)) with (16 * length bs + 16 + length r)%nat by (rewrite !length_app, length_concat_blocks, (block_length pl) by done; lia).
    exists (nist_cts enc iv bs pl r), (steal2 enc iv bs pl r). rewrite <- !app_assoc.
    destruct (nistcts_encrypt_eq enc dec cbc p in_place bs pl r iv Hbs Hpl Hr ltac:(lia) Hiv rest Hlr) as [E1 E2].
    destruct (nistcts_decrypt_eq enc dec cbc p in_place bs pl r iv Hbs Hpl Hr ltac:(lia) Hiv [] Hlr) as [D1 D2].
    rewrite app_nil_r in D1, D2. by rewrite E1, E2, D1, D2.
Qed.

Lemma nistcts128_roundtrip_witness :
  ∃ ct iv',
    CRYPTO_nistcts128_encrypt_block toy_encrypt Aligned (replicate 20 3 ++ []) 20 (replicate 16 7) = (20%nat, ct, iv') ∧
    CRYPTO_nistcts128_encrypt (cbc128 toy_encrypt toy_decrypt Aligned false) (replicate 20 3 ++ []) 20 (replicate 16 7)
      = (20%nat, ct, iv') ∧
    (CRYPTO_nistcts128_decrypt_block toy_decrypt Aligned false ct 20 (replicate 16 7)).1.2 = replicate 20 3 ∧
    CRYPTO_nistcts128_decrypt (cbc128 toy_encrypt toy_decrypt Aligned false) ct 20 (replicate 16 7)
      = (20%nat, replicate 20 3, iv').
Proof.
  apply (nistcts128_roundtrip toy_encrypt toy_decrypt (cbc128 toy_encrypt toy_decrypt Aligned false) Aligned false
    (replicate 20 3) [] (replicate 16 7)); apply (bool_decide_unpack _); vm_compute; reflexivity.
Defined.

(** The return value of the decryption functions on a block function is not
    the number of bytes processed: it exceeds the length by 16, because the final
    loop has already added 16 to [residue] (for the NIST variant, when the length
    is not a multiple of 16). *)
Theorem cts128_decrypt_block_return dec p in_place inp len iv :
  (16 < len)%nat →
  (CRYPTO_cts128_decrypt_block dec p in_place inp len iv).1.1 = (len + 16)%nat ∧
  (¬ (len mod 16 = 0)%nat →
   (CRYPTO_nistcts128_decrypt_block dec p in_place inp len iv).1.1 = (len + 16)%nat).
Proof.
  intros Hlen. assert (1 ≤ cts_residue len ≤ 16 ∧ 16 + cts_residue len ≤ len)%nat as Hres.
  { unfold cts_residue. pose proof (Nat.mod_upper_bound len 16 ltac:(lia)).
    pose proof (Nat.div_mod_eq len 16). cbv zeta. destruct (Nat.eqb_spec (len mod 16) 0); lia. }
  unfold CRYPTO_cts128_decrypt_block, CRYPTO_nistcts128_decrypt_block.
  rewrite (proj2 (Nat.leb_gt _ _)), (proj2 (Nat.ltb_ge _ _)) by lia. cbv zeta. split.
  - destruct (dec_prefix _ _ _ _) as [[out inp'] iv']. cbn [fst]. lia.
  - intros Hne. rewrite (proj2 (Nat.eqb_neq _ 0)) by done.
    unfold cts_residue in Hres. rewrite (proj2 (Nat.eqb_neq _ 0)) in Hres by done.
    destruct (dec_prefix _ _ _ _) as [[out inp'] iv']. cbn [fst]. lia.
Qed.

Lemma cts128_decrypt_block_return_witness :
  (CRYPTO_cts128_decrypt_block toy_decrypt Aligned false (replicate 20 3) 20 (replicate 16 7)).1.1 = 36%nat.
Proof. apply cts128_decrypt_block_return. lia. Defined.
