(* ===== verification/Stream.v ===== *)
(** * Stream modes: the shared loop structure, and OFB

    [crypto/modes/ofb128.c], [ctr128.c] and [cfb128.c] share one structure: a
    state that is refreshed with the block function when the position [num] in the
    current block is 0, and one step per byte.  Each has a byte loop, and a fast
    path that finishes the current block byte by byte, runs whole blocks word by
    word and ends with a partial block.  The loops are defined here once, over the
    state and the steps of a mode; [CRYPTO_ofb128_encrypt] is the first instance.

    The theorems: all paths compute the byte loop; processing a message in pieces
    is processing it at once; and a mode whose steps are inverse is inverse as a
    whole. *)

From S2P Require Import Prelude Block.

#[local] Arguments Nat.modulo : simpl never.
#[local] Arguments Nat.leb : simpl never.

(** ** The loops *)

(** A mode: [refresh] computes the next key-stream block, [step s n x] handles a
    byte at position [n], and [step16] a whole block by words. *)
Record mode (St : Type) := Mode {
  refresh : St → St;
  step : St → nat → Z → Z * St;
  step16 : St → list Z → list Z * St
}.
Arguments Mode {St}.
Arguments refresh {St}.
Arguments step {St}.
Arguments step16 {St}.

Section loops.
Context {St : Type} (m : mode St).

(** [while (l < len)]. *)
Fixpoint byte_loop (inp : list Z) (s : St) (n : nat) : list Z * St * nat :=
  match inp with
  | [] => ([], s, n)
  | x :: inp =>
      let s := if (n =? 0)%nat then refresh m s else s in
      let '(o, s) := step m s n x in
      let '(out, s, n) := byte_loop inp s ((n + 1) mod 16)%nat in
      (o :: out, s, n)
  end.

(** [while (n && len)]; also returns the input that is left. *)
Fixpoint head_loop (inp : list Z) (s : St) (n : nat) : list Z * list Z * St * nat :=
  match inp with
  | [] => ([], [], s, n)
  | x :: inp' =>
      if (n =? 0)%nat then ([], inp, s, n)
      else
        let '(o, s) := step m s n x in
        let '(out, rest, s, n) := head_loop inp' s ((n + 1) mod 16)%nat in
        (o :: out, rest, s, n)
  end.

(** [while (len >= 16)]. *)
Fixpoint block_loop (fuel : nat) (inp : list Z) (s : St) : list Z * list Z * St :=
  match fuel with
  | O => ([], inp, s)
  | S fuel =>
      if (16 <=? length inp)%nat then
        let '(o, s) := step16 m (refresh m s) (take 16 inp) in
        let '(out, rest, s) := block_loop fuel (drop 16 inp) s in
        (o ++ out, rest, s)
      else ([], inp, s)
  end.

(** [while (len--)], without a wrap of [n]. *)
Fixpoint rest_loop (inp : list Z) (s : St) (n : nat) : list Z * St * nat :=
  match inp with
  | [] => ([], s, n)
  | x :: inp =>
      let '(o, s) := step m s n x in
      let '(out, s, n) := rest_loop inp s (n + 1)%nat in
      (o :: out, s, n)
  end.

Definition stream (p : path) (inp : list Z) (s : St) (num : nat) : list Z * St * nat :=
  match p with
  | SmallFootprint => byte_loop inp s num
  | Unaligned =>
      let '(out, inp, s, n) := head_loop inp s num in
      let '(out', s, n) := byte_loop inp s n in
      (out ++ out', s, n)
  | Aligned =>
      let '(out, inp, s, n) := head_loop inp s num in
      let '(out', inp, s) := block_loop (length inp) inp s in
      match inp with
      | [] => (out ++ out', s, n)
      | _ =>
          let '(out'', s, n) := rest_loop inp (refresh m s) n in
          (out ++ out' ++ out'', s, n)
      end
  end.

(** ** Equivalence of the paths *)

Lemma byte_loop_app a b s n :
  byte_loop (a ++ b) s n =
  let '(o1, s1, n1) := byte_loop a s n in
  let '(o2, s2, n2) := byte_loop b s1 n1 in (o1 ++ o2, s2, n2).
Proof.
  revert s n. induction a as [|x a IH]; intros s n; cbn.
  { by destruct (byte_loop b s n) as [[] ]. }
  destruct (step m _ n x) as [o s']. rewrite IH.
  destruct (byte_loop a s' _) as [[o1 s1] n1]. by destruct (byte_loop b s1 n1) as [[o2 s2] n2].
Qed.

Lemma head_loop_spec inp s n : (n < 16)%nat →
  let '(o1, rest, s1, n1) := head_loop inp s n in
  byte_loop inp s n = (let '(o2, s2, n2) := byte_loop rest s1 n1 in (o1 ++ o2, s2, n2)) ∧
  (rest ≠ [] → n1 = 0%nat) ∧ (n1 < 16)%nat ∧ ∃ a, inp = a ++ rest.
Proof.
  revert s n. induction inp as [|x inp IH]; intros s n Hn; cbn.
  { split; [done|]. split; [done|]. split; [done|]. by exists []. }
  destruct (Nat.eqb_spec n 0) as [->|Hn0].
  { cbn. split; [|split; [done|split; [lia|by exists []]]].
    destruct (step m _ 0%nat x) as [o s']. by destruct (byte_loop inp s' _) as [[] ]. }
  destruct (step m s n x) as [o s'].
  specialize (IH s' ((n + 1) mod 16)%nat ltac:(apply Nat.mod_upper_bound; lia)).
  destruct (head_loop inp s' _) as [[[o1 rest] s1] n1].
  destruct IH as (E & ? & ? & a & ->). rewrite E. split; [by destruct (byte_loop rest s1 n1) as [[] ]|].
  split; [done|]. split; [done|]. by exists (x :: a).
Qed.

(** Inside a block the byte loop does not refresh. *)
Lemma rest_loop_byte_loop inp s n : (0 < n)%nat → (n + length inp < 16)%nat →
  byte_loop inp s n = rest_loop inp s n.
Proof.
  revert s n. induction inp as [|x inp IH]; intros s n Hn Hl; cbn in *; [done|].
  rewrite (proj2 (Nat.eqb_neq n 0)) by lia. destruct (step m s n x) as [o s'].
  rewrite Nat.mod_small by lia. by rewrite IH by lia.
Qed.

Lemma rest_loop_start x inp s : (length inp < 15)%nat →
  byte_loop (x :: inp) s 0 = rest_loop (x :: inp) (refresh m s) 0.
Proof.
  intros Hl. cbn. destruct (step m (refresh m s) 0%nat x) as [o s'].
  change ((0 + 1) mod 16)%nat with 1%nat. change ((1) mod 16)%nat with 1%nat.
  by rewrite rest_loop_byte_loop by lia.
Qed.

(** The word step agrees with the byte steps, on states that satisfy an
    invariant of the mode. *)
Context (inv : St → Prop) (inv_refresh : ∀ s, inv s → inv (refresh m s)).
Context (step_inv : ∀ s n x, inv s → is_byte x → inv (step m s n x).2).
Context (step16_steps : ∀ s l, inv s → block l → rest_loop l s 0 = (step16 m s l, 16%nat)).

Lemma byte_loop_inv inp s n : inv s → bytes inp → inv (byte_loop inp s n).1.2.
Proof.
  intros Hs Hi. revert s n Hs. induction Hi as [|x inp Hx Hi IH]; intros s n Hs; cbn; [done|].
  set (s0 := if (n =? 0)%nat then refresh m s else s).
  assert (inv s0) as Hs0 by (unfold s0; case_match; auto).
  pose proof (step_inv s0 n x Hs0 Hx). destruct (step m s0 n x) as [o s']. cbn in *.
  specialize (IH s' ((n + 1) mod 16)%nat ltac:(done)). by destruct (byte_loop inp s' _) as [[] ].
Qed.

Lemma head_loop_inv inp s n : inv s → bytes inp → inv (head_loop inp s n).1.2.
Proof.
  intros Hs Hi. revert s n Hs. induction Hi as [|x inp Hx Hi IH]; intros s n Hs; cbn; [done|].
  destruct (n =? 0)%nat; [done|].
  pose proof (step_inv s n x Hs Hx). destruct (step m s n x) as [o s']. cbn in *.
  specialize (IH s' ((n + 1) mod 16)%nat ltac:(done)). by destruct (head_loop inp s' _) as [[[] ] ].
Qed.

Lemma whole_block l s : inv s → block l → byte_loop l s 0 = (step16 m (refresh m s) l, 0%nat).
Proof.
  intros Hs Hl. pose proof (step16_steps (refresh m s) l (inv_refresh s Hs) Hl) as E.
  destruct Hl as [_ Hl]. destruct l as [|y l _] using rev_ind; [done|].
  rewrite length_app in Hl. cbn in Hl. destruct l as [|x l]; [done|].
  cbn [length] in Hl. rewrite byte_loop_app, rest_loop_start by lia.
  assert (∀ l' s' k, rest_loop (l' ++ [y]) s' k =
    let '(o1, s1, n1) := rest_loop l' s' k in
    let '(o, s2) := step m s1 n1 y in (o1 ++ [o], s2, n1 + 1)%nat) as Hsnoc.
  { intros l'. induction l' as [|z l' IH]; intros s' k; cbn; [by destruct (step m s' k y)|].
    destruct (step m s' k z) as [o s1]. rewrite IH. destruct (rest_loop l' s1 _) as [[o1 s2] n2].
    by destruct (step m s2 n2 y). }
  rewrite (Hsnoc (x :: l)) in E.
  assert (∀ l' s' k, (rest_loop l' s' k).2 = k + length l')%nat as Hn.
  { intros l'. induction l' as [|z l' IH]; intros s' k; cbn; [lia|].
    destruct (step m s' k z) as [o s1]. specialize (IH s1 (k + 1)%nat).
    destruct (rest_loop l' s1 _) as [[o1 s2] n2]. cbn in *. lia. }
  specialize (Hn (x :: l) (refresh m s) 0%nat).
  destruct (rest_loop (x :: l) (refresh m s) 0) as [[o1 s1] n1]. cbn [snd length] in Hn.
  cbn [byte_loop]. rewrite (proj2 (Nat.eqb_neq n1 0)) by lia.
  destruct (step m s1 n1 y) as [o s2]. apply (f_equal fst) in E. cbn [fst] in E. rewrite <- E.
  f_equal. subst n1. replace (0 + S (length l) + 1)%nat with 16%nat by lia. done.
Qed.

Lemma block_loop_spec fuel inp s : inv s → bytes inp → (length inp ≤ fuel)%nat →
  let '(o1, rest, s1) := block_loop fuel inp s in
  byte_loop inp s 0 = (let '(o2, s2, n2) := byte_loop rest s1 0 in (o1 ++ o2, s2, n2)) ∧
  (length rest < 16)%nat ∧ inv s1 ∧ bytes rest.
Proof.
  revert inp s. induction fuel as [|fuel IH]; intros inp s Hs Hi Hf; cbn.
  { assert (length inp = 0)%nat as ->%length_zero_iff_nil by lia. cbn. auto with lia. }
  destruct (Nat.leb_spec 16 (length inp)) as [Hl|Hl].
  2: { cbv beta iota. split; [by destruct (byte_loop inp s 0) as [[] ]|]. done. }
  assert (byte_loop inp s 0 = byte_loop (take 16 inp ++ drop 16 inp) s 0) as -> by (by rewrite take_drop).
  rewrite byte_loop_app.
  rewrite whole_block by (done || by apply block_take16).
  assert (inv (step16 m (refresh m s) (take 16 inp)).2) as Hs'.
  { pose proof (byte_loop_inv (take 16 inp) s 0 Hs ltac:(auto with vtls)) as H.
    by rewrite whole_block in H by (done || by apply block_take16). }
  destruct (step16 m (refresh m s) (take 16 inp)) as [o s'].
  specialize (IH (drop 16 inp) s' Hs' ltac:(auto with vtls) ltac:(len)).
  destruct (block_loop fuel (drop 16 inp) s') as [[o1 rest] s1].
  destruct IH as (E & ? & ? & ?). rewrite E. split; [|done].
  destruct (byte_loop rest s1 0) as [[] ]. by rewrite app_assoc.
Qed.

Lemma stream_byte_loop p inp s n : inv s → bytes inp → (n < 16)%nat →
  stream p inp s n = byte_loop inp s n.
Proof.
  intros Hs Hi Hn. pose proof (head_loop_spec inp s n Hn) as Hh.
  pose proof (head_loop_inv inp s n Hs Hi) as Hsh. unfold stream.
  destruct p; [done| |]; destruct (head_loop inp s n) as [[[o1 rest] s1] n1];
    destruct Hh as (E & Hn0 & Hn1 & a & ->); rewrite E; [done|]. cbn in Hsh.
  apply Forall_app in Hi as [_ Hrest].
  destruct (decide (rest = [])) as [->|Hne]; [done|]. rewrite Hn0 by done.
  pose proof (block_loop_spec (length rest) rest s1 Hsh Hrest ltac:(lia)) as Hb.
  destruct (block_loop _ rest s1) as [[o2 r2] s2]. destruct Hb as (E2 & Hl & Hs2 & Hr2). rewrite E2.
  destruct r2 as [|x r2]; [cbn; by rewrite app_nil_r|].
  cbn [length] in Hl. rewrite rest_loop_start by lia.
  destruct (rest_loop (x :: r2) _ 0) as [[] ]. done.
Qed.
End loops.

(** ** Inverse modes *)

Section inverse.
Context {St : Type} (m m' : mode St) (inv : St → Prop).
Context (same_refresh : ∀ s, refresh m' s = refresh m s).
Context (inv_refresh : ∀ s, inv s → inv (refresh m s)).
Context (step_inv : ∀ s n x, inv s → is_byte x → inv (step m s n x).2).
Context (step_inverse : ∀ s n x, (n < 16)%nat → inv s → is_byte x →
  step m' s n (step m s n x).1 = (x, (step m s n x).2)).

Lemma byte_loop_inverse inp s n : inv s → bytes inp → (n < 16)%nat →
  let '(out, s', n') := byte_loop m inp s n in
  byte_loop m' out s n = (inp, s', n').
Proof.
  intros Hs Hi. revert s n Hs. induction Hi as [|x inp Hx Hi IH]; intros s n Hs Hn; cbn; [done|].
  set (s0 := if (n =? 0)%nat then refresh m s else s).
  assert (inv s0) as Hs0 by (unfold s0; case_match; auto).
  pose proof (step_inv s0 n x Hs0 Hx) as Hs1. pose proof (step_inverse s0 n x Hn Hs0 Hx) as Hi1.
  destruct (step m s0 n x) as [o s1]. cbn in *.
  specialize (IH s1 ((n + 1) mod 16)%nat Hs1 ltac:(apply Nat.mod_upper_bound; lia)).
  destruct (byte_loop m inp s1 _) as [[out s2] n2]. cbn.
  rewrite same_refresh. fold s0. by rewrite Hi1, IH.
Qed.

Lemma length_byte_loop inp s n : length (byte_loop m inp s n).1.1 = length inp.
Proof.
  revert s n. induction inp as [|x inp IH]; intros s n; cbn; [done|].
  destruct (step m _ n x) as [o s']. specialize (IH s' ((n + 1) mod 16)%nat).
  destruct (byte_loop m inp s' _) as [[] ]. cbn in *. by rewrite IH.
Qed.

Lemma byte_loop_pos inp s n : (n < 16)%nat → ((byte_loop m inp s n).2 < 16)%nat.
Proof.
  revert s n. induction inp as [|x inp IH]; intros s n Hn; cbn; [done|].
  destruct (step m _ n x) as [o s'].
  specialize (IH s' ((n + 1) mod 16)%nat ltac:(apply Nat.mod_upper_bound; lia)).
  by destruct (byte_loop m inp s' _) as [[] ].
Qed.

(** Inverting a message piece by piece. *)
Lemma piecewise_inverse a b s n : inv s → bytes (a ++ b) → (n < 16)%nat →
  let '(ct, s', n') := byte_loop m (a ++ b) s n in
  ∃ s1 n1, byte_loop m' (take (length a) ct) s n = (a, s1, n1) ∧
           byte_loop m' (drop (length a) ct) s1 n1 = (b, s', n') ∧ inv s1 ∧ (n1 < 16)%nat.
Proof.
  intros Hs [Ha Hb]%Forall_app Hn. rewrite byte_loop_app.
  pose proof (byte_loop_inverse a s n Hs Ha Hn) as H1.
  pose proof (byte_loop_inv m inv inv_refresh step_inv a s n Hs Ha) as Hs1.
  pose proof (length_byte_loop a s n) as Hla. pose proof (byte_loop_pos a s n Hn) as Hn1.
  destruct (byte_loop m a s n) as [[o1 s1] n1]. cbn in *.
  pose proof (byte_loop_inverse b s1 n1 Hs1 Hb Hn1) as H2.
  destruct (byte_loop m b s1 n1) as [[o2 s2] n2]. exists s1, n1.
  rewrite take_app_exact, drop_app_exact by done. done.
Qed.

Lemma bytes_byte_loop inp s n :
  (∀ s n x, inv s → is_byte x → is_byte (step m s n x).1) →
  inv s → bytes inp → bytes (byte_loop m inp s n).1.1.
Proof.
  intros Hstep Hs Hi. revert s n Hs. induction Hi as [|x inp Hx Hi IH]; intros s n Hs; cbn; [constructor|].
  set (s0 := if (n =? 0)%nat then refresh m s else s).
  assert (inv s0) as Hs0 by (unfold s0; case_match; auto).
  pose proof (step_inv s0 n x Hs0 Hx). pose proof (Hstep s0 n x Hs0 Hx).
  destruct (step m s0 n x) as [o s']. cbn in *.
  specialize (IH s' ((n + 1) mod 16)%nat ltac:(done)). destruct (byte_loop m inp s' _) as [[] ].
  cbn in *. by constructor.
Qed.
End inverse.

(** ** OFB *)

(** [CRYPTO_ofb128_encrypt]: the state is [ivec]. *)
Definition ofb_mode (blk : list Z → list Z) : mode (list Z) := Mode
  blk
  (λ ivec n x, (Z.lxor x (nthZ ivec n), ivec))
  (λ ivec l, (xor_words l ivec, ivec)).

(** The bytes written at [out], the new [ivec] and the new [*num]. *)
Definition CRYPTO_ofb128_encrypt (blk : list Z → list Z) (p : path) (inp ivec : list Z) (num : nat)
  : list Z * list Z * nat := stream (ofb_mode blk) p inp ivec num.

(** A run of steps that only read a key block [k]. *)
Lemma rest_loop_xor {St} (m : mode St) (key : St → list Z) :
  (∀ s n x, step m s n x = (Z.lxor x (nthZ (key s) n), s)) →
  ∀ l s n, (n + length l ≤ length (key s))%nat →
  rest_loop m l s n = (xor_bytes l (drop n (key s)), s, (n + length l)%nat).
Proof.
  intros Hstep l. induction l as [|x l IH]; intros s n Hl; cbn.
  { by rewrite Nat.add_0_r. }
  rewrite Hstep. cbn [length] in Hl. rewrite IH by lia.
  destruct (lookup_lt_is_Some_2 (key s) n ltac:(lia)) as [k Hk].
  rewrite (drop_S _ k n Hk), (nthZ_lookup _ _ _ Hk). cbn. f_equal; [f_equal; by rewrite Nat.add_1_r|lia].
Qed.

Lemma ofb_step16 blk s l : block s → block l →
  rest_loop (ofb_mode blk) l s 0 = (step16 (ofb_mode blk) s l, 16%nat).
Proof.
  intros Hs Hl. rewrite (rest_loop_xor (ofb_mode blk) (λ s, s)) by (done || destruct Hs, Hl; lia).
  cbn. rewrite xor_words_bytes by done. destruct Hl as [_ ->]. done.
Qed.

Section ofb.
Context (blk : list Z → list Z) `{!BlockFn blk}.

Lemma ofb_byte_loop p inp s n : block s → bytes inp → (n < 16)%nat →
  CRYPTO_ofb128_encrypt blk p inp s n = byte_loop (ofb_mode blk) inp s n.
Proof.
  intros. apply (stream_byte_loop (ofb_mode blk) block); try done.
  intros. by apply ofb_step16.
Qed.
End ofb.

(** [CRYPTO_ofb128_encrypt] is its own inverse and can be applied piecewise:
    on every path, decrypting in two pieces what was encrypted in one returns the
    message, and ends in the same state. *)
Theorem ofb128_roundtrip blk `{!BlockFn blk} p p1 p2 a b iv num :
  block iv → bytes (a ++ b) → (num < 16)%nat →
  let '(ct, iv', num') := CRYPTO_ofb128_encrypt blk p (a ++ b) iv num in
  let '(m1, iv1, num1) := CRYPTO_ofb128_encrypt blk p1 (take (length a) ct) iv num in
  let '(m2, iv2, num2) := CRYPTO_ofb128_encrypt blk p2 (drop (length a) ct) iv1 num1 in
  m1 = a ∧ m2 = b ∧ iv2 = iv' ∧ num2 = num'.
Proof.
  intros Hiv Hab Hn. rewrite ofb_byte_loop by done.
  pose proof (piecewise_inverse (ofb_mode blk) (ofb_mode blk) block ltac:(done) ltac:(auto with vtls)
    ltac:(done) (ltac:(intros; cbn; by rewrite lxor_cancel_r)) a b iv num Hiv Hab Hn) as H.
  pose proof (bytes_byte_loop (ofb_mode blk) block ltac:(auto with vtls) ltac:(done) (a ++ b) iv num
    ltac:(intros s n x [Hs _] Hx; cbn; auto with vtls) Hiv Hab) as Hct.
  destruct (byte_loop _ (a ++ b) iv num) as [[ct iv'] num']. cbn in Hct.
  destruct H as (s1 & n1 & E1 & E2 & Hs1 & Hn1).
  rewrite ofb_byte_loop, E1 by auto with vtls. rewrite ofb_byte_loop, E2 by auto with vtls. done.
Qed.

Lemma ofb128_roundtrip_witness :
  let '(ct, iv', num') := CRYPTO_ofb128_encrypt toy_encrypt Aligned (replicate 20 3 ++ [1; 2]) (replicate 16 7) 5 in
  let '(m1, iv1, num1) := CRYPTO_ofb128_encrypt toy_encrypt Unaligned (take 20 ct) (replicate 16 7) 5 in
  let '(m2, iv2, num2) := CRYPTO_ofb128_encrypt toy_encrypt Aligned (drop 20 ct) iv1 num1 in
  m1 = replicate 20 3 ∧ m2 = [1; 2] ∧ iv2 = iv' ∧ num2 = num'.
Proof.
  apply (ofb128_roundtrip toy_encrypt Aligned Unaligned Aligned (replicate 20 3) [1; 2] (replicate 16 7) 5);
    apply (bool_decide_unpack _); vm_compute; reflexivity.
Defined.
