(* ===== verification/Ctr.v ===== *)
(** * Counter mode

    Models [crypto/modes/ctr128.c]: the big-endian counter increments, the
    counter mode on a block function, and the variant that hands runs of blocks to
    a function with a 32-bit counter ([ctr128_f]) and handles its overflow.  The
    state of a stream is [ivec] (the counter) and [ecount_buf] (the current
    key-stream block).

    The abstract specification is the key stream [E(ctr), E(ctr + 1), ...] with
    addition modulo 2^128. *)

From S2P Require Import Prelude Block Stream.
#[local] Arguments Nat.modulo : simpl never.

(** ** Counters *)

(** The [do ... while (n)] loop of [ctr128_inc] and [ctr96_inc]: adds the carry
    [c] to the first [n] bytes. *)
Fixpoint inc_loop (n : nat) (c : Z) (counter : list Z) : list Z :=
  match n with
  | O => counter
  | S n =>
      let c := u32 (c + nthZ counter n) in
      inc_loop n (c ≫ 8) (<[n := u8 c]> counter)
  end.

Definition ctr128_inc (counter : list Z) : list Z := inc_loop 16 1 counter.
Definition ctr96_inc (counter : list Z) : list Z := inc_loop 12 1 counter.
#[global] Arguments ctr128_inc : simpl never.
#[global] Arguments ctr96_inc : simpl never.

(** The word loop of [ctr128_inc_aligned] on a big-endian machine. *)
Fixpoint inc_words (n : nat) (c : Z) (counter : list Z) : list Z :=
  match n with
  | O => counter
  | S n =>
      let d := u64 (be_load (take 8 (drop (8 * n) counter)) + c) in
      let counter := splice counter (8 * n) (be_store 8 d) in
      let c := Z.lxor (u64 (d - c)) d ≫ 63 in
      inc_words n c counter
  end.

Definition ctr128_inc_aligned (little_endian aligned : bool) (counter : list Z) : list Z :=
  if little_endian || negb aligned then ctr128_inc counter
  else inc_words 2 1 counter.

(** ** Counter mode *)

Record ctr_state := CtrState { ivec : list Z; ecount_buf : list Z }.

Definition ctr_mode (blk inc : list Z → list Z) : mode ctr_state := Mode
  (λ s, CtrState (inc (ivec s)) (blk (ivec s)))
  (λ s n x, (Z.lxor x (nthZ (ecount_buf s) n), s))
  (λ s l, (xor_words l (ecount_buf s), s)).

(** The bytes written at [out], the new [ivec] and [ecount_buf], and [*num].
    The parameters describe the machine and the alignment of [ivec]. *)
Definition CRYPTO_ctr128_encrypt (little_endian aligned : bool) (blk : list Z → list Z) (p : path)
  (inp : list Z) (s : ctr_state) (num : nat) : list Z * ctr_state * nat :=
  match p with
  | Aligned => stream (ctr_mode blk (ctr128_inc_aligned little_endian aligned)) p inp s num
  | _ => stream (ctr_mode blk ctr128_inc) p inp s num
  end.

(** [func inp blocks ivec] is what a call of [func] writes at [out]. *)
Abbreviation ctr128_f := (list Z → nat → list Z → list Z).

Definition PUTU32 (b : list Z) (off : nat) (v : Z) : list Z := splice b off (be_store 4 v).
Definition GETU32 (b : list Z) (off : nat) : Z := be_load (take 4 (drop off b)).

(** Stores the 32-bit counter and propagates its overflow. *)
Definition put_ctr32 (iv : list Z) (ctr32 : Z) : list Z :=
  let iv := PUTU32 iv 12 ctr32 in
  if ctr32 =? 0 then ctr96_inc iv else iv.

(** [while (len >= 16)]: the bytes written, the input left, [ivec] and [ctr32]. *)
Fixpoint ctr32_loop (func : ctr128_f) (fuel : nat) (inp iv : list Z) (ctr32 : Z)
  : list Z * list Z * list Z * Z :=
  match fuel with
  | O => ([], inp, iv, ctr32)
  | S fuel =>
      if (16 <=? length inp)%nat then
        let blocks := (length inp / 16)%nat in
        let blocks := if 2 ^ 28 <? Z.of_nat blocks then Z.to_nat (2 ^ 28) else blocks in
        let ctr32 := u32 (ctr32 + Z.of_nat blocks) in
        let '(blocks, ctr32) :=
          if ctr32 <? Z.of_nat blocks then ((blocks - Z.to_nat ctr32)%nat, 0) else (blocks, ctr32) in
        let o := func inp blocks iv in
        let iv := put_ctr32 iv ctr32 in
        let '(out, rest, iv, ctr32) := ctr32_loop func fuel (drop (16 * blocks) inp) iv ctr32 in
        (o ++ out, rest, iv, ctr32)
      else ([], inp, iv, ctr32)
  end.

Definition CRYPTO_ctr128_encrypt_ctr32 (func : ctr128_f) (inp : list Z) (s : ctr_state) (num : nat)
  : list Z * ctr_state * nat :=
  let '(out0, inp, s, n) := head_loop (ctr_mode id id) inp s num in
  let ctr32 := GETU32 (ivec s) 12 in
  let '(out1, inp, iv, ctr32) := ctr32_loop func (length inp) inp (ivec s) ctr32 in
  match inp with
  | [] => (out0 ++ out1, CtrState iv (ecount_buf s), n)
  | _ =>
      let ecount := func (replicate 16 0) 1%nat iv in
      let ctr32 := u32 (ctr32 + 1) in
      let iv := put_ctr32 iv ctr32 in
      let '(out2, s, n) := rest_loop (ctr_mode id id) inp (CtrState iv ecount) n in
      (out0 ++ out1 ++ out2, s, n)
  end.

(** ** The increments *)

Lemma inc_loop_spec n : ∀ c counter, bytes counter → (n ≤ length counter)%nat → 0 ≤ c ≤ 1 →
  length (inc_loop n c counter) = length counter ∧ bytes (inc_loop n c counter) ∧
  drop n (inc_loop n c counter) = drop n counter ∧
  be_load (take n (inc_loop n c counter)) = (be_load (take n counter) + c) `mod` 2 ^ (8 * Z.of_nat n).
Proof.
  induction n as [|n IH]; intros c counter Hb Hl Hc.
  { cbn [inc_loop]. repeat split; try done. change (be_load (take 0 counter)) with 0.
    by rewrite Z.mod_1_r. }
  cbn [inc_loop]. pose proof (nthZ_byte counter n Hb) as Hx. unfold is_byte in Hx.
  set (x := nthZ counter n) in *.
  assert (u32 (c + x) = c + x) as -> by (unfold u32; apply Z.mod_small; lia).
  assert (0 ≤ (c + x) ≫ 8 ≤ 1) as Hc'.
  { rewrite Z.shiftr_div_pow2 by lia. split; [apply Z.div_pos; lia|]. apply Z.div_le_upper_bound; lia. }
  set (counter' := <[n := u8 (c + x)]> counter).
  assert (bytes counter') as Hb' by (apply Forall_insert; auto with vtls).
  assert (length counter' = length counter) as Hl' by (unfold counter'; len).
  destruct (IH ((c + x) ≫ 8) counter' Hb' ltac:(lia) Hc') as (L & B & D & V).
  set (res := inc_loop n ((c + x) ≫ 8) counter') in *.
  destruct (be_counter_step counter res n (u8 (c + x)) Hb B ltac:(lia) ltac:(lia) ltac:(auto with vtls) D)
    as (D' & -> & ->).
  split; [lia|]. split; [done|]. split; [done|]. rewrite V. fold x.
  unfold counter'. rewrite take_insert_ge by lia.
  rewrite Z.shiftr_div_pow2 by lia. unfold u8. change (2 ^ 8) with 256.
  replace (8 * Z.of_nat (S n)) with (8 + 8 * Z.of_nat n) by lia.
  rewrite Z.pow_add_r by lia. change (2 ^ 8) with 256. set (w := 2 ^ (8 * Z.of_nat n)).
  assert (0 < w) by (apply Z.pow_pos_nonneg; lia). set (v := be_load (take n counter)).
  rewrite (Z.rem_mul_r (v * 256 + x + c) 256 w) by lia.
  replace (v * 256 + x + c) with (c + x + v * 256) by lia.
  rewrite Z.mod_add, Z.div_add by lia. rewrite (Z.add_comm v). lia.
Qed.

Lemma ctr128_inc_eq counter : block counter →
  block (ctr128_inc counter) ∧ be_load (ctr128_inc counter) = (be_load counter + 1) `mod` 2 ^ 128.
Proof.
  intros [Hb Hl]. destruct (inc_loop_spec 16 1 counter Hb ltac:(lia) ltac:(lia)) as (L & B & _ & V).
  unfold ctr128_inc. split; [split; [done|lia]|]. rewrite !take_ge in V by lia. exact V.
Qed.

Lemma ctr96_inc_eq counter : block counter →
  block (ctr96_inc counter) ∧ drop 12 (ctr96_inc counter) = drop 12 counter ∧
  be_load (take 12 (ctr96_inc counter)) = (be_load (take 12 counter) + 1) `mod` 2 ^ 96.
Proof.
  intros [Hb Hl]. destruct (inc_loop_spec 12 1 counter Hb ltac:(lia) ltac:(lia)) as (L & B & D & V).
  unfold ctr96_inc. split; [split; [done|lia]|]. done.
Qed.

(** ** Abstract specification *)

(** The counter block [i] steps ahead. *)
Definition ctr_block (iv : list Z) (i : Z) : list Z := be_store 16 (be_load iv + i).

Definition keystream (blk : list Z → list Z) (iv : list Z) (k : nat) : list Z :=
  concat (map (λ i, blk (ctr_block iv (Z.of_nat i))) (seq 0 k)).

(** The blocks that a message of [len] bytes touches. *)
Definition blocks_of (len : nat) : nat := ((len + 15) / 16)%nat.

Lemma block_ctr_block iv i : block (ctr_block iv i).
Proof. unfold ctr_block. split; [auto with vtls|len]. Qed.
#[local] Hint Resolve block_ctr_block : vtls.

Lemma be_load_ctr_block iv i : be_load (ctr_block iv i) = (be_load iv + i) `mod` 2 ^ 128.
Proof. unfold ctr_block. by rewrite be_load_store. Qed.

Lemma ctr_block_unique iv i b : block b → be_load b = (be_load iv + i) `mod` 2 ^ 128 → b = ctr_block iv i.
Proof.
  intros [Hb Hl] E. destruct (block_ctr_block iv i) as [Hb' Hl'].
  apply be_load_inj; [done|done|lia|]. by rewrite be_load_ctr_block.
Qed.

Lemma ctr_block_0 iv : block iv → ctr_block iv 0 = iv.
Proof.
  intros Hb. symmetry. apply ctr_block_unique; [done|]. rewrite Z.add_0_r, Z.mod_small; [done|].
  destruct Hb as [Hb Hl]. pose proof (be_load_bound iv Hb) as H. by rewrite Hl in H.
Qed.

Lemma ctr_block_add iv i j : ctr_block (ctr_block iv i) j = ctr_block iv (i + j).
Proof.
  apply ctr_block_unique; [auto with vtls|]. rewrite !be_load_ctr_block, Z.add_mod_idemp_l by lia.
  f_equal. lia.
Qed.

Lemma ctr128_inc_block iv : block iv → ctr128_inc iv = ctr_block iv 1.
Proof. intros Hb. destruct (ctr128_inc_eq iv Hb). by apply ctr_block_unique. Qed.

Lemma keystream_S blk iv k : block iv →
  keystream blk iv (S k) = blk iv ++ keystream blk (ctr_block iv 1) k.
Proof.
  intros Hb. unfold keystream. cbn [seq map concat Z.of_nat]. rewrite ctr_block_0 by done.
  f_equal. f_equal. rewrite <- seq_shift, map_map. apply map_ext. intros i.
  rewrite ctr_block_add. do 2 f_equal. lia.
Qed.

Lemma blocks_of_add k r : (r < 16)%nat → blocks_of (16 * k + r) = (k + if (r =? 0)%nat then 0 else 1)%nat.
Proof.
  intros Hr. unfold blocks_of. destruct (Nat.eqb_spec r 0) as [->|Hr0].
  - replace (16 * k + 0 + 15)%nat with (15 + k * 16)%nat by lia.
    rewrite Nat.div_add by lia. rewrite Nat.div_small by lia. lia.
  - replace (16 * k + r + 15)%nat with (r - 1 + (k + 1) * 16)%nat by lia.
    rewrite Nat.div_add by lia. rewrite Nat.div_small by lia. lia.
Qed.

Section ctr.
Context (blk : list Z → list Z) `{!BlockFn blk}.

Definition ctr_ok (s : ctr_state) : Prop := block (ivec s) ∧ block (ecount_buf s).

Lemma ctr_step16 inc s l : ctr_ok s → block l →
  rest_loop (ctr_mode blk inc) l s 0 = (step16 (ctr_mode blk inc) s l, 16%nat).
Proof.
  intros [_ Hs] Hl. pose proof (block_length _ Hs). pose proof (block_length _ Hl) as E.
  rewrite (rest_loop_xor (ctr_mode blk inc) ecount_buf (λ _ _ _, eq_refl)) by lia.
  cbn [step16 ctr_mode drop]. by rewrite xor_words_bytes, E by done.
Qed.

Lemma ctr_refresh_ok s : ctr_ok s → ctr_ok (refresh (ctr_mode blk ctr128_inc) s).
Proof. intros [H1 H2]. split; cbn; [by apply ctr128_inc_eq|by apply block_fn]. Qed.

Lemma ctr_byte_loop p aligned inp s n : ctr_ok s → bytes inp → (n < 16)%nat →
  CRYPTO_ctr128_encrypt true aligned blk p inp s n = byte_loop (ctr_mode blk ctr128_inc) inp s n.
Proof.
  intros Hs Hi Hn. unfold CRYPTO_ctr128_encrypt.
  change (ctr128_inc_aligned true aligned) with ctr128_inc.
  assert (∀ p, stream (ctr_mode blk ctr128_inc) p inp s n = byte_loop (ctr_mode blk ctr128_inc) inp s n) as H.
  { intros p'. apply (stream_byte_loop (ctr_mode blk ctr128_inc) ctr_ok); try done.
    - apply ctr_refresh_ok.
    - intros. by apply ctr_step16. }
  destruct p; apply H.
Qed.

(** The state after a message of [len] bytes. *)
Definition ctr_after (s : ctr_state) (len : nat) : ctr_state :=
  let k := blocks_of len in
  CtrState (ctr_block (ivec s) (Z.of_nat k))
    (if (k =? 0)%nat then ecount_buf s else blk (ctr_block (ivec s) (Z.of_nat k - 1))).

Lemma ctr_after_block s iv1 ec1 len : iv1 = ctr_block (ivec s) 1 → ec1 = blk (ivec s) → block (ivec s) →
  ctr_after (CtrState iv1 ec1) len = ctr_after s (16 + len).
Proof.
  intros -> -> Hiv. unfold ctr_after.
  replace (blocks_of (16 + len)) with (S (blocks_of len)).
  2: { unfold blocks_of. replace (16 + len + 15)%nat with (len + 15 + 1 * 16)%nat by lia.
       rewrite Nat.div_add by lia. lia. }
  cbn [ivec ecount_buf Nat.eqb]. rewrite !ctr_block_add. f_equal; [f_equal; lia|].
  destruct (Nat.eqb_spec (blocks_of len) 0) as [->|]; [by rewrite ctr_block_0|]. do 2 f_equal. lia.
Qed.

Lemma ctr_stream_spec inp s : ctr_ok s → bytes inp →
  byte_loop (ctr_mode blk ctr128_inc) inp s 0 =
  (xor_bytes inp (keystream blk (ivec s) (blocks_of (length inp))), ctr_after s (length inp),
   (length inp mod 16)%nat).
Proof.
  intros Hs Hi. destruct (split_blocks inp Hi) as (bs & r & -> & Hbs & Hr & Hlr).
  revert s Hs Hi. induction Hbs as [|b bs Hb Hbs IH]; intros s Hs Hi; pose proof Hs as [Hiv Hec].
  - cbn [concat app]. destruct r as [|x r].
    { cbn. unfold ctr_after. cbn. rewrite ctr_block_0 by done. by destruct s. }
    pose proof (blocks_of_add 0 (length (x :: r)) Hlr) as Ek. cbn [length Nat.mul Nat.add Nat.eqb] in Ek.
    rewrite rest_loop_start by (cbn in Hlr; lia).
    assert (block (blk (ivec s))) as [_ HL] by auto with vtls.
    rewrite (rest_loop_xor (ctr_mode blk ctr128_inc) ecount_buf (λ _ _ _, eq_refl)) by (cbn in *; lia).
    cbn [length] in *. rewrite Ek. cbn [refresh ctr_mode ecount_buf drop].
    unfold ctr_after. cbn [length] in *. rewrite Ek. cbn [Nat.eqb].
    rewrite keystream_S by done. cbn [keystream seq map concat]. rewrite app_nil_r.
    rewrite ctr128_inc_block by done. f_equal; [|by rewrite Nat.mod_small by lia].
    f_equal. f_equal. by rewrite ctr_block_0.
  - cbn [concat] in *. rewrite <- app_assoc in *. apply Forall_app in Hi as [Hib Hi].
    rewrite byte_loop_app.
    rewrite (whole_block (ctr_mode blk ctr128_inc) ctr_ok ctr_refresh_ok (ctr_step16 ctr128_inc) b s Hs Hb).
    cbn [step16 ctr_mode refresh ecount_buf].
    rewrite xor_words_bytes by auto with vtls.
    rewrite IH by (try done; apply (ctr_refresh_ok s Hs)). cbn [ivec].
    pose proof (block_length b Hb) as Hlb. rewrite !length_app, Hlb.
    set (len := length (concat bs ++ r)) in *.
    replace (length (concat bs) + length r)%nat with len by (unfold len; len).
    f_equal; [f_equal|].
    + replace (blocks_of (16 + len)) with (S (blocks_of len)).
      2: { unfold blocks_of. replace (16 + len + 15)%nat with (len + 15 + 1 * 16)%nat by lia.
           rewrite Nat.div_add by lia. lia. }
      rewrite keystream_S, ctr128_inc_block by done. rewrite xor_bytes_app; [done|].
      rewrite Hlb. symmetry. apply block_length. auto with vtls.
    + apply ctr_after_block; [by apply ctr128_inc_block|done|done].
    + replace (16 + len)%nat with (len + 1 * 16)%nat by lia. by rewrite Nat.Div0.mod_add.
Qed.
End ctr.

(** ** The 32-bit counter variant *)

(** What the code relies on: [func] encrypts with the last four bytes of the
    counter block incremented as a 32-bit number, as long as that number does not
    overflow within the call, and does not change [ivec]. *)
Class Ctr32Fn (blk : list Z → list Z) (func : ctr128_f) : Prop :=
  ctr32_fn : ∀ inp k iv, block iv → bytes inp → (16 * k ≤ length inp)%nat →
    be_load (drop 12 iv) + Z.of_nat k ≤ 2 ^ 32 →
    func inp k iv =
    xor_bytes (take (16 * k) inp)
      (concat (map (λ i, blk (take 12 iv ++ be_store 4 (be_load (drop 12 iv) + Z.of_nat i))) (seq 0 k))).

(** The plain implementation of the interface. *)
Definition ctr32_ref (blk : list Z → list Z) : ctr128_f := λ inp k iv,
  xor_bytes (take (16 * k) inp)
    (concat (map (λ i, blk (take 12 iv ++ be_store 4 (be_load (drop 12 iv) + Z.of_nat i))) (seq 0 k))).

#[global] Instance ctr32_ref_fn blk : Ctr32Fn blk (ctr32_ref blk).
Proof. by intros ?. Qed.

Lemma be_load_12_4 iv : block iv →
  be_load iv = be_load (take 12 iv) * 2 ^ 32 + be_load (drop 12 iv) ∧
  0 ≤ be_load (take 12 iv) < 2 ^ 96 ∧ 0 ≤ be_load (drop 12 iv) < 2 ^ 32 ∧
  GETU32 iv 12 = be_load (drop 12 iv).
Proof.
  intros [Hb Hl]. split; [|split; [|split]].
  - rewrite <- (take_drop 12 iv) at 1. rewrite be_load_app by auto with vtls.
    do 3 f_equal. len.
  - pose proof (be_load_bound (take 12 iv) ltac:(auto with vtls)) as H.
    rewrite length_take, Hl in H. exact H.
  - pose proof (be_load_bound (drop 12 iv) ltac:(auto with vtls)) as H.
    rewrite length_drop, Hl in H. exact H.
  - unfold GETU32. by rewrite take_ge by len.
Qed.

(** Blocks with the same upper 96 bits. *)
Lemma ctr_block_low iv i : block iv → 0 ≤ i → be_load (drop 12 iv) + i < 2 ^ 32 →
  take 12 iv ++ be_store 4 (be_load (drop 12 iv) + i) = ctr_block iv i.
Proof.
  intros Hiv Hi Hlt. pose proof Hiv as [Hb Hl]. destruct (be_load_12_4 iv Hiv) as (E & H1 & H2 & _).
  apply ctr_block_unique; [split; [auto with vtls|len]|].
  rewrite be_load_app, length_be_store, be_load_store, E by auto with vtls.
  rewrite !Z.mod_small by lia. lia.
Qed.

Lemma low32 x : block x → be_load (drop 12 x) = u32 (be_load x).
Proof.
  intros Hx. destruct (be_load_12_4 x Hx) as (E & _ & H & _). unfold u32.
  rewrite E, Z.add_comm, Z.mod_add, Z.mod_small by lia. done.
Qed.

Lemma ctr_block_low32 iv i : block iv → be_load (drop 12 (ctr_block iv i)) = u32 (be_load (drop 12 iv) + i).
Proof.
  intros Hiv. rewrite !low32, be_load_ctr_block by auto with vtls. unfold u32.
  rewrite Z.add_mod_idemp_l by lia. apply Z.mod_mod_divide. by exists (2 ^ 96).
Qed.

Lemma PUTU32_eq iv v : block iv → PUTU32 iv 12 v = take 12 iv ++ be_store 4 v.
Proof.
  intros [_ Hl]. unfold PUTU32, splice. rewrite (drop_ge iv) by len. by rewrite app_nil_r.
Qed.

Lemma put_ctr32_eq iv k : block iv → 0 ≤ k → be_load (drop 12 iv) + k ≤ 2 ^ 32 → 0 < be_load (drop 12 iv) + k →
  put_ctr32 iv (u32 (be_load (drop 12 iv) + k)) = ctr_block iv k.
Proof.
  intros Hiv Hk Hle Hpos. pose proof Hiv as [Hb Hl].
  destruct (be_load_12_4 iv Hiv) as (E & H1 & H2 & _). unfold put_ctr32.
  rewrite PUTU32_eq by done. destruct (Z.eq_dec (be_load (drop 12 iv) + k) (2 ^ 32)) as [Ek|Ek].
  - rewrite Ek. change (u32 (2 ^ 32)) with 0. rewrite Z.eqb_refl.
    assert (block (take 12 iv ++ be_store 4 0)) as Hblk by (split; [auto with vtls|len]).
    destruct (ctr96_inc_eq _ Hblk) as (Hb96 & Hd & Hv).
    rewrite drop_app_exact in Hd by len. rewrite take_app_exact in Hv by len.
    destruct (be_load_12_4 _ Hb96) as (E' & _). rewrite Hd, Hv, be_load_store in E'.
    apply ctr_block_unique; [done|]. rewrite E', E. change (0 `mod` 2 ^ (8 * Z.of_nat 4)) with 0.
    rewrite Z.add_0_r. change (2 ^ 128) with (2 ^ 96 * 2 ^ 32).
    replace (_ + _ + k) with ((be_load (take 12 iv) + 1) * 2 ^ 32) by lia.
    by rewrite Z.mul_mod_distr_r by lia.
  - unfold u32. rewrite Z.mod_small by lia. rewrite (proj2 (Z.eqb_neq _ 0)) by lia.
    apply ctr_block_low; [done|lia|lia].
Qed.

Lemma keystream_add blk iv a b :
  keystream blk iv (a + b) = keystream blk iv a ++ keystream blk (ctr_block iv (Z.of_nat a)) b.
Proof.
  unfold keystream. rewrite seq_app, map_app, concat_app. f_equal. f_equal. cbn [Nat.add].
  pose proof (fmap_add_seq a 0 b) as E. rewrite Nat.add_0_r in E. rewrite <- E.
  change (Nat.add a <$> seq 0 b) with (map (Nat.add a) (seq 0 b)). rewrite map_map. apply map_ext. intros i.
  rewrite ctr_block_add. do 2 f_equal. lia.
Qed.

Lemma length_keystream blk `{!BlockFn blk} iv k : length (keystream blk iv k) = (16 * k)%nat.
Proof.
  unfold keystream. rewrite length_concat_blocks, length_map, length_seq; [done|].
  apply Forall_map, Forall_forall. intros i _. cbn. auto with vtls.
Qed.

Section ctr32.
Context (blk : list Z → list Z) `{!BlockFn blk} (func : ctr128_f) `{!Ctr32Fn blk func}.

Lemma func_keystream inp k iv : block iv → bytes inp → (16 * k ≤ length inp)%nat →
  be_load (drop 12 iv) + Z.of_nat k ≤ 2 ^ 32 →
  func inp k iv = xor_bytes (take (16 * k) inp) (keystream blk iv k).
Proof.
  intros Hiv Hi Hl Hlt. rewrite ctr32_fn by done. f_equal. unfold keystream. f_equal.
  apply map_ext_in. intros i [_ Hin]%in_seq. f_equal. apply ctr_block_low; [done|lia|lia].
Qed.

(** One iteration: how many blocks are handed to [func], and the new counter. *)
Lemma ctr32_step iv (b : nat) : block iv → (0 < b)%nat → Z.of_nat b ≤ 2 ^ 28 →
  let c := u32 (be_load (drop 12 iv) + Z.of_nat b) in
  let '(b', c') := if c <? Z.of_nat b then ((b - Z.to_nat c)%nat, 0) else (b, c) in
  (0 < b' ≤ b)%nat ∧ be_load (drop 12 iv) + Z.of_nat b' ≤ 2 ^ 32 ∧
  put_ctr32 iv c' = ctr_block iv (Z.of_nat b') ∧ c' = u32 (be_load (drop 12 iv) + Z.of_nat b').
Proof.
  intros Hiv Hb Hmax. destruct (be_load_12_4 iv Hiv) as (_ & _ & Hlo & _). cbv zeta.
  set (lo := be_load (drop 12 iv)) in *.
  destruct (Z.lt_ge_cases (lo + Z.of_nat b) (2 ^ 32)) as [Hs|Hs].
  - assert (u32 (lo + Z.of_nat b) = lo + Z.of_nat b) as E by (apply Z.mod_small; lia). rewrite E.
    rewrite (proj2 (Z.ltb_ge _ _)) by lia. split; [lia|]. split; [lia|]. split; [|done].
    rewrite <- E at 1. apply put_ctr32_eq; [done|lia..].
  - assert (u32 (lo + Z.of_nat b) = lo + Z.of_nat b - 2 ^ 32) as E.
    { unfold u32. symmetry. apply Z.mod_unique_pos with (q := 1); lia. }
    rewrite E, (proj2 (Z.ltb_lt _ _)) by lia.
    assert (lo + Z.of_nat (b - Z.to_nat (lo + Z.of_nat b - 2 ^ 32)) = 2 ^ 32) as Esum by lia.
    split; [lia|]. split; [lia|]. set (b' := (b - _)%nat) in *. clearbody b'.
    rewrite Esum. split; [|done]. change 0 with (u32 (2 ^ 32)). rewrite <- Esum. apply put_ctr32_eq; [done|lia..].
Qed.

Lemma ctr32_loop_spec fuel inp iv : block iv → bytes inp → (length inp ≤ fuel)%nat →
  let k := (length inp / 16)%nat in
  ctr32_loop func fuel inp iv (be_load (drop 12 iv)) =
  (xor_bytes (take (16 * k) inp) (keystream blk iv k), drop (16 * k) inp, ctr_block iv (Z.of_nat k),
   be_load (drop 12 (ctr_block iv (Z.of_nat k)))).
Proof.
  revert inp iv. induction fuel as [|fuel IH]; intros inp iv Hiv Hi Hf; cbv zeta; cbn [ctr32_loop].
  { assert (length inp = 0)%nat as ->%length_zero_iff_nil by lia. cbn. by rewrite ctr_block_0. }
  destruct (Nat.leb_spec 16 (length inp)) as [Hl|Hl].
  2: { rewrite Nat.div_small by lia. cbn [Nat.mul take drop xor_bytes]. cbn. by rewrite ctr_block_0. }
  set (k := (length inp / 16)%nat).
  assert (16 * k ≤ length inp < 16 * k + 16)%nat as Hk.
  { pose proof (Nat.div_mod_eq (length inp) 16). pose proof (Nat.mod_upper_bound (length inp) 16 ltac:(lia)).
    unfold k. lia. }
  set (b := if 2 ^ 28 <? Z.of_nat k then Z.to_nat (2 ^ 28) else k).
  assert ((0 < b ≤ k)%nat ∧ Z.of_nat b ≤ 2 ^ 28) as [Hb Hbmax].
  { unfold b. destruct (Z.ltb_spec (2 ^ 28) (Z.of_nat k)); lia. }
  pose proof (ctr32_step iv b Hiv ltac:(lia) Hbmax) as Hstep. cbv zeta in Hstep.
  destruct (if u32 _ <? _ then _ else _) as [b' c']. destruct Hstep as (Hb' & Hsum & Hput & Hc').
  rewrite (func_keystream inp b' iv) by (done || lia). rewrite Hput.
  assert (c' = be_load (drop 12 (ctr_block iv (Z.of_nat b')))) as ->.
  { rewrite Hc'. symmetry. by apply ctr_block_low32. }
  rewrite IH by (auto with vtls || len).
  assert ((length (drop (16 * b') inp) / 16)%nat = (k - b')%nat) as Ek.
  { rewrite length_drop. symmetry. apply (Nat.div_unique _ 16 (k - b') (length inp - 16 * k)); lia. }
  rewrite Ek, drop_drop, ctr_block_add.
  replace (16 * b' + 16 * (k - b'))%nat with (16 * k)%nat by lia.
  replace (Z.of_nat b' + Z.of_nat (k - b')) with (Z.of_nat k) by lia. f_equal. f_equal. f_equal.
  assert (keystream blk iv k = keystream blk iv b' ++ keystream blk (ctr_block iv (Z.of_nat b')) (k - b')) as ->
    by (rewrite <- keystream_add; f_equal; lia).
  assert (take (16 * k) inp = take (16 * b') inp ++ take (16 * (k - b')) (drop (16 * b') inp)) as ->
    by (rewrite take_take_drop; f_equal; lia).
  rewrite xor_bytes_app; [done|]. rewrite length_keystream by done. len.
Qed.

(** The loops do not use the refresh of a mode until a block is full. *)
Lemma head_loop_ctr f g f' g' inp s n :
  head_loop (ctr_mode f g) inp s n = head_loop (ctr_mode f' g') inp s n.
Proof.
  revert s n. induction inp as [|x inp IH]; intros s n; cbn; [done|].
  destruct (n =? 0)%nat; [done|]. by rewrite IH.
Qed.

Lemma ctr32_ctr128 inp s : ctr_ok s → bytes inp →
  let '(out, s1, n) := CRYPTO_ctr128_encrypt_ctr32 func inp s 0 in
  (out, ivec s1, n) = (xor_bytes inp (keystream blk (ivec s) (blocks_of (length inp))),
     ctr_block (ivec s) (Z.of_nat (blocks_of (length inp))), (length inp mod 16)%nat) ∧
  (n ≠ 0%nat → ecount_buf s1 = ecount_buf (ctr_after blk s (length inp))).
Proof.
  intros [Hiv Hec] Hi. unfold CRYPTO_ctr128_encrypt_ctr32.
  replace (head_loop _ inp s 0) with (@nil Z, inp, s, 0%nat) by (by destruct inp).
  destruct (be_load_12_4 (ivec s) Hiv) as (_ & _ & _ & ->).
  rewrite ctr32_loop_spec by (done || lia).
  set (k := (length inp / 16)%nat).
  pose proof (Nat.div_mod_eq (length inp) 16) as Hdm. fold k in Hdm.
  pose proof (Nat.mod_upper_bound (length inp) 16 ltac:(lia)) as Hr.
  set (r := (length inp mod 16)%nat) in *.
  assert (blocks_of (length inp) = k + if (r =? 0)%nat then 0 else 1)%nat as Ek
    by (rewrite Hdm; by apply blocks_of_add).
  destruct (drop (16 * k) inp) as [|x rest] eqn:Ed.
  { assert (r = 0)%nat as Hr0 by (apply (f_equal length) in Ed; rewrite length_drop in Ed; cbn [length] in Ed; lia).
    rewrite Ek, Hr0. cbn [Nat.eqb]. rewrite Nat.add_0_r. rewrite take_ge by lia. cbn. done. }
  assert (length (x :: rest) = r) as Hlr by (rewrite <- Ed, length_drop; lia).
  assert (r ≠ 0)%nat as Hr0 by (rewrite <- Hlr; cbn; lia).
  rewrite (proj2 (Nat.eqb_neq r 0)) in Ek by done. rewrite Ek.
  set (iv1 := ctr_block (ivec s) (Z.of_nat k)).
  assert (block iv1) as Hiv1 by (unfold iv1; auto with vtls).
  destruct (be_load_12_4 iv1 Hiv1) as (_ & _ & Hlo & _).
  rewrite put_ctr32_eq by (done || lia).
  rewrite (func_keystream (replicate 16 0) 1 iv1) by (done || auto with vtls || (cbn [length replicate]; lia)).
  rewrite keystream_S by done. change (keystream blk (ctr_block iv1 1) 0) with (@nil Z). rewrite app_nil_r.
  assert (block (blk iv1)) as Hblk by auto with vtls.
  rewrite (take_ge (replicate 16 0)), xor_bytes_comm, xor_bytes_0_r by (destruct Hblk; len).
  rewrite (rest_loop_xor (ctr_mode id id) ecount_buf (λ _ _ _, eq_refl)) by (destruct Hblk; cbn [ecount_buf] in *; lia).
  rewrite Hlr. cbn [ecount_buf ivec drop app Nat.add]. split.
  - f_equal; f_equal.
    + transitivity (xor_bytes (take (16 * k) inp ++ x :: rest) (keystream blk (ivec s) (k + 1)));
        [|by rewrite <- Ed, take_drop]. rewrite keystream_add.
      rewrite xor_bytes_app by (rewrite length_keystream by done; len). f_equal. fold iv1.
      rewrite keystream_S by done. change (keystream blk (ctr_block iv1 1) 0) with (@nil Z). by rewrite app_nil_r.
    + unfold iv1. rewrite ctr_block_add. f_equal. lia.
  - intros _. unfold ctr_after. rewrite Ek. rewrite (proj2 (Nat.eqb_neq _ 0)) by lia.
    cbn [ecount_buf]. unfold iv1. do 2 f_equal. lia.
Qed.
End ctr32.

(** ** Correctness *)

(** [CRYPTO_ctr128_encrypt], started at a block boundary, exclusive-ors the
    message with the key stream of consecutive counter values modulo 2^128 and
    leaves the counter, the key-stream block and the position that continue it; on
    every path of a little-endian machine. *)
Theorem ctr128_encrypt_spec blk `{!BlockFn blk} p aligned inp s :
  block (ivec s) → block (ecount_buf s) → bytes inp →
  CRYPTO_ctr128_encrypt true aligned blk p inp s 0 =
  (xor_bytes inp (keystream blk (ivec s) (blocks_of (length inp))),
   ctr_after blk s (length inp), (length inp mod 16)%nat).
Proof.
  intros Hiv Hec Hi. rewrite (ctr_byte_loop blk) by (done || lia). by apply (ctr_stream_spec blk).
Qed.

Lemma ctr128_encrypt_spec_witness :
  CRYPTO_ctr128_encrypt true true toy_encrypt Aligned (replicate 20 3) (CtrState (replicate 16 255) (replicate 16 0)) 0 =
  (xor_bytes (replicate 20 3) (keystream toy_encrypt (replicate 16 255) 2),
   ctr_after toy_encrypt (CtrState (replicate 16 255) (replicate 16 0)) 20, 4%nat).
Proof.
  apply (ctr128_encrypt_spec toy_encrypt Aligned true (replicate 20 3) (CtrState (replicate 16 255) (replicate 16 0)));
    apply (bool_decide_unpack _); vm_compute; reflexivity.
Defined.

(** the variant on a 32-bit counter function computes the same ciphertext,
    counter and position as the 128-bit counter mode, through every overflow of
    the 32-bit counter (and the same key-stream block where it will be used). *)
Theorem ctr32_equivalent blk `{!BlockFn blk} func `{!Ctr32Fn blk func} p aligned inp s num :
  block (ivec s) → block (ecount_buf s) → bytes inp → (num < 16)%nat →
  let '(out, s1, n1) := CRYPTO_ctr128_encrypt_ctr32 func inp s num in
  let '(out', s2, n2) := CRYPTO_ctr128_encrypt true aligned blk p inp s num in
  out = out' ∧ ivec s1 = ivec s2 ∧ n1 = n2 ∧ (n1 ≠ 0%nat → ecount_buf s1 = ecount_buf s2).
Proof.
  intros Hiv Hec Hi Hn. rewrite (ctr_byte_loop blk) by done.
  pose proof (head_loop_spec (ctr_mode blk ctr128_inc) inp s num Hn) as Hh.
  pose proof (head_loop_inv (ctr_mode blk ctr128_inc) ctr_ok ltac:(done) inp s num (conj Hiv Hec) Hi) as Hs1.
  rewrite (head_loop_ctr blk ctr128_inc id id) in Hh, Hs1.
  assert (∀ s, CRYPTO_ctr128_encrypt_ctr32 func inp s num =
    let '(o1, rest, s1, n1) := head_loop (ctr_mode id id) inp s num in
    match rest with
    | [] => (o1, s1, n1)
    | _ => if (n1 =? 0)%nat then
             let '(o2, s2, n2) := CRYPTO_ctr128_encrypt_ctr32 func rest s1 0 in (o1 ++ o2, s2, n2)
           else CRYPTO_ctr128_encrypt_ctr32 func inp s num
    end) as Hsplit.
  { intros s'. unfold CRYPTO_ctr128_encrypt_ctr32.
    destruct (head_loop (ctr_mode id id) inp s' num) as [[[o1 rest] s1] n1].
    destruct rest as [|x rest]; [cbn; rewrite app_nil_r; by destruct s1|].
    destruct (Nat.eqb_spec n1 0) as [->|]; [|done].
    cbn [head_loop Nat.eqb]. destruct (ctr32_loop _ _ _ _ _) as [[[o2 r2] iv2] c2].
    destruct r2; [done|]. by destruct (rest_loop _ _ _ _) as [[] ]. }
  rewrite Hsplit. destruct (head_loop _ inp s num) as [[[o1 rest] s1] n1].
  destruct Hh as (E & Hn0 & _ & a & ->). rewrite E. apply Forall_app in Hi as [_ Hrest].
  destruct rest as [|x rest]; [cbn; by rewrite app_nil_r|]. rewrite Hn0 by done. cbn [Nat.eqb].
  pose proof (ctr32_ctr128 blk func (x :: rest) s1 Hs1 Hrest) as H.
  rewrite (ctr_stream_spec blk) by done.
  destruct (CRYPTO_ctr128_encrypt_ctr32 func (x :: rest) s1 0) as [[o2 s2] n2].
  destruct H as [[= -> Eiv ->] Hec2]. done.
Qed.

Lemma ctr32_equivalent_witness :
  let s := CtrState (replicate 16 255) (replicate 16 0) in
  let '(out, s1, n1) := CRYPTO_ctr128_encrypt_ctr32 (ctr32_ref toy_encrypt) (replicate 50 3) s 0 in
  let '(out', s2, n2) := CRYPTO_ctr128_encrypt true true toy_encrypt Aligned (replicate 50 3) s 0 in
  out = out' ∧ ivec s1 = ivec s2 ∧ n1 = n2 ∧ (n1 ≠ 0%nat → ecount_buf s1 = ecount_buf s2).
Proof.
  apply (ctr32_equivalent toy_encrypt (ctr32_ref toy_encrypt) Aligned true (replicate 50 3)
    (CtrState (replicate 16 255) (replicate 16 0)) 0);
    apply (bool_decide_unpack _); vm_compute; reflexivity.
Defined.

(** On a big-endian machine with an aligned counter the word-wise increment
    is wrong: when the low word is 2^63 - 1 the carry test [(d - c) ^ d] takes the
    change of the top bit for an overflow and also increments the high word. *)
Theorem ctr128_inc_aligned_false_carry hi :
  0 ≤ hi < 2 ^ 64 →
  ctr128_inc_aligned false true (be_store 8 hi ++ be_store 8 (2 ^ 63 - 1)) =
    be_store 8 (hi + 1) ++ be_store 8 (2 ^ 63) ∧
  ctr128_inc (be_store 8 hi ++ be_store 8 (2 ^ 63 - 1)) = be_store 8 hi ++ be_store 8 (2 ^ 63).
Proof.
  intros Hhi. split.
  - unfold ctr128_inc_aligned. cbn [orb negb inc_words Nat.mul Nat.add].
    rewrite drop_app_exact by len. rewrite (take_ge (be_store 8 (2 ^ 63 - 1))) by len.
    rewrite be_load_store. change (u64 ((2 ^ 63 - 1) `mod` 2 ^ (8 * Z.of_nat 8) + 1)) with (2 ^ 63).
    change (Z.lxor (u64 (2 ^ 63 - 1)) (2 ^ 63) ≫ 63) with 1.
    assert (splice (be_store 8 hi ++ be_store 8 (2 ^ 63 - 1)) 8 (be_store 8 (2 ^ 63)) =
      be_store 8 hi ++ be_store 8 (2 ^ 63)) as ->.
    { unfold splice. rewrite take_app_exact, (drop_ge (_ ++ _)) by len. by rewrite app_nil_r. }
    rewrite drop_0, take_app_exact, be_load_store, Z.mod_small by (len || lia).
    unfold u64. rewrite be_store_mod by lia.
    apply (splice_app [] (be_store 8 hi) (be_store 8 (hi + 1)) (be_store 8 (2 ^ 63))). len.
  - assert (block (be_store 8 hi ++ be_store 8 (2 ^ 63 - 1))) as Hb by (split; [auto with vtls|len]).
    destruct (ctr128_inc_eq _ Hb) as [[Hb' Hl'] E].
    apply be_load_inj; [done|auto with vtls|rewrite Hl'; len|]. rewrite E, !be_load_app by auto with vtls.
    rewrite !length_be_store, !be_load_store. change (8 * Z.of_nat 8) with 64.
    change ((2 ^ 63 - 1) `mod` 2 ^ 64) with (2 ^ 63 - 1). change (2 ^ 63 `mod` 2 ^ 64) with (2 ^ 63).
    rewrite !(Z.mod_small hi) by lia. rewrite Z.mod_small by lia. lia.
Qed.

Lemma ctr128_inc_aligned_false_carry_witness :
  ctr128_inc_aligned false true (be_store 8 5 ++ be_store 8 (2 ^ 63 - 1)) =
    be_store 8 (5 + 1) ++ be_store 8 (2 ^ 63) ∧
  ctr128_inc (be_store 8 5 ++ be_store 8 (2 ^ 63 - 1)) = be_store 8 5 ++ be_store 8 (2 ^ 63).
Proof. apply ctr128_inc_aligned_false_carry. lia. Defined.
