(* ===== verification/Cfb.v ===== *)
(** * Cipher feedback mode

    Models [crypto/modes/cfb128.c]: full-block CFB as a stream mode, and the
    8-bit and 1-bit variants on their shared one-block routine
    [cfbr_encrypt_block].  Decryption is shown to undo encryption for each. *)

From S2P Require Import Prelude Block Stream.
#[local] Arguments Nat.modulo : simpl never.
#[local] Arguments Nat.div : simpl never.

(** ** Full-block CFB *)

(** Encryption feeds the output back, decryption the input. *)
Definition cfb_enc_mode (blk : list Z → list Z) : mode (list Z) := Mode
  blk
  (λ ivec n x, let o := Z.lxor (nthZ ivec n) x in (o, <[n := o]> ivec))
  (λ ivec l, let o := xor_words ivec l in (o, o)).

Definition cfb_dec_mode (blk : list Z → list Z) : mode (list Z) := Mode
  blk
  (λ ivec n x, (Z.lxor (nthZ ivec n) x, <[n := x]> ivec))
  (λ ivec l, (xor_words ivec l, l)).

(** The bytes written at [out], the new [ivec] and the new [*num]. *)
Definition CRYPTO_cfb128_encrypt (blk : list Z → list Z) (p : path) (inp ivec : list Z) (num : nat) (enc : bool)
  : list Z * list Z * nat :=
  if enc then stream (cfb_enc_mode blk) p inp ivec num
  else stream (cfb_dec_mode blk) p inp ivec num.

(** ** The 8-bit and 1-bit variants *)

(** [uninit] is the initial contents of [ovec], 33 bytes.  Returns the bytes
    written at [out] and the new [ivec]. *)
Definition cfbr_encrypt_block (blk : list Z → list Z) (uninit inp : list Z) (nbits : nat) (ivec : list Z) (enc : bool)
  : list Z * list Z :=
  if (nbits =? 0)%nat || (128 <? nbits)%nat then ([], ivec)
  else
    let ovec := splice uninit 0 (take 16 ivec) in
    let ivec := blk ivec in
    let num := ((nbits + 7) / 8)%nat in
    let o := xor_bytes (take num inp) (take num ivec) in
    let ovec := splice ovec 16 (if enc then o else take num inp) in
    let rem := (nbits mod 8)%nat in
    let num := (nbits / 8)%nat in
    let ivec :=
      if (rem =? 0)%nat then take 16 (drop num ovec)
      else map (λ n, u8 (Z.lor (nthZ ovec (n + num) ≪ Z.of_nat rem)
                               (nthZ ovec (n + num + 1) ≫ (8 - Z.of_nat rem)))) (seq 0 16) in
    (o, ivec).

Definition bit_mask (n : nat) : Z := 1 ≪ (7 - Z.of_nat (n mod 8)).

(** One iteration of [CRYPTO_cfb128_1_encrypt] on [out] and [ivec]. *)
Definition cfb1_iter (blk : list Z → list Z) (uninit inp : list Z) (enc : bool) (n : nat) (out ivec : list Z)
  : list Z * list Z :=
  let c := if negb (Z.land (nthZ inp (n / 8)) (bit_mask n) =? 0) then 0x80 else 0 in
  let '(d, ivec) := cfbr_encrypt_block blk uninit [c] 1 ivec enc in
  let b := u8 (Z.lor (Z.land (nthZ out (n / 8)) (Z.lnot (bit_mask n)))
                     (Z.land (nthZ d 0) 0x80 ≫ Z.of_nat (n mod 8))) in
  (<[(n / 8)%nat := b]> out, ivec).

Fixpoint cfb1_loop (blk : list Z → list Z) (uninit inp : list Z) (enc : bool) (n todo : nat) (out ivec : list Z)
  : list Z * list Z :=
  match todo with
  | O => (out, ivec)
  | S todo =>
      let '(out, ivec) := cfb1_iter blk uninit inp enc n out ivec in
      cfb1_loop blk uninit inp enc (S n) todo out ivec
  end.

(** [out] is the output buffer before the call; the result is the buffer after
    it and [ivec]. *)
Definition CRYPTO_cfb128_1_encrypt (blk : list Z → list Z) (uninit inp out : list Z) (bits : nat) (ivec : list Z)
  (enc : bool) : list Z * list Z := cfb1_loop blk uninit inp enc 0 bits out ivec.

Fixpoint CRYPTO_cfb128_8_encrypt (blk : list Z → list Z) (uninit inp ivec : list Z) (enc : bool)
  : list Z * list Z :=
  match inp with
  | [] => ([], ivec)
  | x :: inp' =>
      let '(o, ivec) := cfbr_encrypt_block blk uninit inp 8 ivec enc in
      let '(out, ivec) := CRYPTO_cfb128_8_encrypt blk uninit inp' ivec enc in
      (o ++ out, ivec)
  end.

(** ** Full-block CFB is inverted by decryption *)

Section cfb.
Context (blk : list Z → list Z) `{!BlockFn blk}.

Lemma insert_block s n x : block s → is_byte x → block (<[n := x]> s).
Proof. intros [Hb Hl] Hx. split; [by apply Forall_insert|len]. Qed.

(** A run of steps inside a block replaces the bytes it covers. *)
Lemma cfb_enc_rest l : ∀ s n, (n + length l ≤ length s)%nat →
  rest_loop (cfb_enc_mode blk) l s n =
  let o := xor_bytes (take (length l) (drop n s)) l in
  (o, splice s n o, (n + length l)%nat).
Proof.
  induction l as [|x l IH]; intros s n Hl; cbn [rest_loop length] in *.
  { rewrite take_0. cbn. unfold splice. cbn. by rewrite Nat.add_0_r, take_drop. }
  cbn [step cfb_enc_mode]. destruct (lookup_lt_is_Some_2 s n ltac:(lia)) as [k Hk].
  rewrite (nthZ_lookup _ _ _ Hk). rewrite IH by len.
  rewrite (drop_S s k n Hk). cbn [take xor_bytes zip_with].
  replace (drop (n + 1) (<[n:=Z.lxor k x]> s)) with (drop (S n) s)
    by (rewrite Nat.add_1_r, drop_insert_lt by lia; done).
  unfold splice. cbn [length].
  f_equal; [f_equal|lia].
  - rewrite Nat.add_1_r, (take_S_r _ _ (Z.lxor k x)) by (apply list_lookup_insert_eq; lia).
    rewrite take_insert_ge, <- app_assoc by lia. cbn [app]. do 3 f_equal.
    rewrite drop_insert_lt by lia. f_equal. unfold xor_bytes. lia.
Qed.

Lemma cfb_dec_rest l : ∀ s n, (n + length l ≤ length s)%nat →
  rest_loop (cfb_dec_mode blk) l s n =
  (xor_bytes (take (length l) (drop n s)) l, splice s n l, (n + length l)%nat).
Proof.
  induction l as [|x l IH]; intros s n Hl; cbn [rest_loop length] in *.
  { rewrite take_0. cbn. unfold splice. cbn. by rewrite Nat.add_0_r, take_drop. }
  cbn [step cfb_dec_mode]. destruct (lookup_lt_is_Some_2 s n ltac:(lia)) as [k Hk].
  rewrite (nthZ_lookup _ _ _ Hk). rewrite IH by len.
  rewrite (drop_S s k n Hk). cbn [take xor_bytes zip_with].
  replace (drop (n + 1) (<[n:=x]> s)) with (drop (S n) s)
    by (rewrite Nat.add_1_r, drop_insert_lt by lia; done).
  unfold splice. cbn [length]. f_equal; [f_equal|lia].
  - rewrite Nat.add_1_r, (take_S_r _ _ x) by (apply list_lookup_insert_eq; lia).
    rewrite take_insert_ge, <- app_assoc by lia. cbn [app]. do 3 f_equal.
    rewrite drop_insert_lt by lia. f_equal. lia.
Qed.

Lemma cfb_byte_loop p enc inp s n : block s → bytes inp → (n < 16)%nat →
  CRYPTO_cfb128_encrypt blk p inp s n enc =
  byte_loop (if enc then cfb_enc_mode blk else cfb_dec_mode blk) inp s n.
Proof.
  intros Hs Hi Hn. unfold CRYPTO_cfb128_encrypt. destruct enc.
  - apply (stream_byte_loop (cfb_enc_mode blk) block); try done.
    + intros s' n' x [Hb Hl] Hx. cbn. apply insert_block; [done|auto with vtls].
    + intros s' l Hs' Hl. pose proof (block_length _ Hs'). pose proof (block_length _ Hl) as El.
      rewrite cfb_enc_rest by lia. cbv zeta. rewrite El, drop_0, take_ge by lia. cbn [step16 cfb_enc_mode].
      rewrite xor_words_bytes by done. rewrite splice_whole by len. done.
  - apply (stream_byte_loop (cfb_dec_mode blk) block); try done.
    + intros s' n' x Hs' Hx. by apply insert_block.
    + intros s' l Hs' Hl. pose proof (block_length _ Hs'). pose proof (block_length _ Hl) as El.
      rewrite cfb_dec_rest by lia. rewrite El, drop_0, take_ge by lia. cbn [step16 cfb_dec_mode].
      rewrite xor_words_bytes by done. by rewrite splice_whole by len.
Qed.
End cfb.

(** CFB decryption undoes encryption on every path, also when the ciphertext
    is decrypted in two pieces, and both end in the same state. *)
Theorem cfb128_roundtrip blk `{!BlockFn blk} p p1 p2 a b iv num :
  block iv → bytes (a ++ b) → (num < 16)%nat →
  let '(ct, iv', num') := CRYPTO_cfb128_encrypt blk p (a ++ b) iv num true in
  let '(m1, iv1, num1) := CRYPTO_cfb128_encrypt blk p1 (take (length a) ct) iv num false in
  let '(m2, iv2, num2) := CRYPTO_cfb128_encrypt blk p2 (drop (length a) ct) iv1 num1 false in
  m1 = a ∧ m2 = b ∧ iv2 = iv' ∧ num2 = num'.
Proof.
  intros Hiv Hab Hn. rewrite cfb_byte_loop by done.
  assert (∀ s n x, block s → is_byte x → block (step (cfb_enc_mode blk) s n x).2) as Hst.
  { intros s n x [Hb Hl] Hx. cbn. apply insert_block; [done|auto with vtls]. }
  pose proof (piecewise_inverse (cfb_enc_mode blk) (cfb_dec_mode blk) block ltac:(done) ltac:(auto with vtls)
    Hst (ltac:(intros; cbn; by rewrite lxor_cancel_l)) a b iv num Hiv Hab Hn) as H.
  pose proof (bytes_byte_loop (cfb_enc_mode blk) block ltac:(auto with vtls) Hst (a ++ b) iv num
    ltac:(intros s n x [Hs _] Hx; cbn; auto with vtls) Hiv Hab) as Hct.
  destruct (byte_loop _ (a ++ b) iv num) as [[ct iv'] num']. cbn in Hct.
  destruct H as (s1 & n1 & E1 & E2 & Hs1 & Hn1).
  rewrite cfb_byte_loop, E1 by auto with vtls. rewrite cfb_byte_loop, E2 by auto with vtls. done.
Qed.

Lemma cfb128_roundtrip_witness :
  let '(ct, iv', num') := CRYPTO_cfb128_encrypt toy_encrypt Aligned (replicate 20 3 ++ [1; 2]) (replicate 16 7) 5 true in
  let '(m1, iv1, num1) := CRYPTO_cfb128_encrypt toy_encrypt Unaligned (take 20 ct) (replicate 16 7) 5 false in
  let '(m2, iv2, num2) := CRYPTO_cfb128_encrypt toy_encrypt Aligned (drop 20 ct) iv1 num1 false in
  m1 = replicate 20 3 ∧ m2 = [1; 2] ∧ iv2 = iv' ∧ num2 = num'.
Proof.
  apply (cfb128_roundtrip toy_encrypt Aligned Unaligned Aligned (replicate 20 3) [1; 2] (replicate 16 7) 5);
    apply (bool_decide_unpack _); vm_compute; reflexivity.
Defined.

(** ** 8-bit CFB *)

Lemma ovec_eq (uninit iv : list Z) f : block iv → length uninit = 33%nat →
  splice (splice uninit 0 (take 16 iv)) 16 [f] = iv ++ f :: drop 17 uninit.
Proof.
  intros [_ Hl] Hu. rewrite (take_ge iv) by lia.
  assert (splice uninit 0 iv = iv ++ [nthZ uninit 16] ++ drop 17 uninit) as ->.
  { unfold splice. rewrite Hl. cbn [Nat.add]. rewrite take_0. cbn [app]. f_equal.
    destruct (lookup_lt_is_Some_2 uninit 16 ltac:(lia)) as [k Hk].
    rewrite (nthZ_lookup _ _ _ Hk). by rewrite (drop_S uninit k 16 Hk). }
  pose proof (splice_app iv [nthZ uninit 16] [f] (drop 17 uninit) eq_refl) as E. by rewrite Hl in E.
Qed.

(** One byte: the register shifts by a byte and takes in the ciphertext. *)
Lemma cfbr_8 blk uninit x l iv enc `{!BlockFn blk} : block iv → length uninit = 33%nat →
  cfbr_encrypt_block blk uninit (x :: l) 8 iv enc =
  let o := Z.lxor x (nthZ (blk iv) 0) in ([o], drop 1 iv ++ [if enc then o else x]).
Proof.
  intros Hiv Hu. unfold cfbr_encrypt_block. cbv zeta.
  change ((8 =? 0)%nat || (128 <? 8)%nat) with false. cbv iota.
  change ((8 + 7) / 8)%nat with 1%nat. change (8 mod 8)%nat with 0%nat. change (8 / 8)%nat with 1%nat.
  cbn [Nat.eqb]. assert (block (blk iv)) as [_ Hb] by auto with vtls.
  destruct (blk iv) as [|e l']; [done|]. rewrite !firstn_cons, !take_0. cbn [xor_bytes zip_with].
  change (nthZ (e :: l') 0) with e. f_equal.
  replace (if enc then [Z.lxor x e] else [x]) with [if enc then Z.lxor x e else x] by (by destruct enc).
  rewrite ovec_eq by done. pose proof (block_length iv Hiv) as Hl.
  rewrite drop_app_le, take_app_ge by len. f_equal.
  replace (16 - length (drop 1 iv))%nat with 1%nat by len. by rewrite firstn_cons, take_0.
Qed.

Lemma block_shift8 iv x : block iv → is_byte x → block (drop 1 iv ++ [x]).
Proof.
  intros [Hb Hl] Hx. split; [|len]. apply bytes_app; [auto with vtls|]. by constructor.
Qed.

(** 8-bit CFB decryption undoes encryption for every message, whatever the
    uninitialised scratch memory contains, and ends with the same register. *)
Theorem cfb8_roundtrip blk `{!BlockFn blk} uninit uninit' msg iv :
  block iv → bytes msg → length uninit = 33%nat → length uninit' = 33%nat →
  let '(ct, iv') := CRYPTO_cfb128_8_encrypt blk uninit msg iv true in
  CRYPTO_cfb128_8_encrypt blk uninit' ct iv false = (msg, iv').
Proof.
  intros Hiv Hm Hu Hu'. revert iv Hiv. induction Hm as [|x msg Hx Hm IH]; intros iv Hiv; [done|].
  cbn [CRYPTO_cfb128_8_encrypt]. rewrite cfbr_8 by done. cbv beta iota zeta.
  set (o := Z.lxor x (nthZ (blk iv) 0)).
  assert (is_byte o) as Ho.
  { apply is_byte_lxor; [done|]. apply nthZ_byte. by apply block_fn. }
  specialize (IH _ (block_shift8 iv o Hiv Ho)).
  destruct (CRYPTO_cfb128_8_encrypt blk uninit msg _ true) as [ct iv'].
  cbn [app CRYPTO_cfb128_8_encrypt]. rewrite cfbr_8 by done. cbv beta iota zeta. rewrite IH.
  unfold o. by rewrite lxor_cancel_r.
Qed.

Lemma cfb8_roundtrip_witness :
  let '(ct, iv') := CRYPTO_cfb128_8_encrypt toy_encrypt (replicate 33 0) [1; 2; 3] (replicate 16 7) true in
  CRYPTO_cfb128_8_encrypt toy_encrypt (replicate 33 9) ct (replicate 16 7) false = ([1; 2; 3], iv').
Proof.
  apply (cfb8_roundtrip toy_encrypt (replicate 33 0) (replicate 33 9) [1; 2; 3] (replicate 16 7));
    apply (bool_decide_unpack _); vm_compute; reflexivity.
Defined.

(** ** 1-bit CFB *)

(** Bit [n] of a buffer, the most significant bit of a byte first. *)
Definition buf_bit (buf : list Z) (n : nat) : bool :=
  Z.testbit (nthZ buf (n / 8)) (7 - Z.of_nat (n mod 8)).

Lemma mask_testbit b j : is_byte b → (j < 8)%nat →
  negb (Z.land b (1 ≪ (7 - Z.of_nat j)) =? 0) = Z.testbit b (7 - Z.of_nat j).
Proof.
  intros Hb Hj.
  assert (forallb (λ j, eqb (negb (Z.land b (1 ≪ (7 - Z.of_nat j)) =? 0)) (Z.testbit b (7 - Z.of_nat j)))
    (seq 0 8) = true) as H.
  { revert b Hb. apply byte_forall. vm_compute. reflexivity. }
  rewrite forallb_forall in H. apply eqb_prop, (H j). apply in_seq. lia.
Qed.

Lemma set_bit_testbit b (t : bool) j i : is_byte b → (j < 8)%nat → (i < 8)%nat →
  let b' := u8 (Z.lor (Z.land b (Z.lnot (1 ≪ (7 - Z.of_nat j)))) ((if t then 0x80 else 0) ≫ Z.of_nat j)) in
  Z.testbit b' (7 - Z.of_nat i) = if (i =? j)%nat then t else Z.testbit b (7 - Z.of_nat i).
Proof.
  intros Hb Hj Hi.
  assert (forallb (λ j, forallb (λ i, eqb
    (Z.testbit (u8 (Z.lor (Z.land b (Z.lnot (1 ≪ (7 - Z.of_nat j)))) ((if t then 0x80 else 0) ≫ Z.of_nat j)))
       (7 - Z.of_nat i)) (if (i =? j)%nat then t else Z.testbit b (7 - Z.of_nat i))) (seq 0 8)) (seq 0 8) = true) as H.
  { revert b Hb. apply byte_forall. destruct t; vm_compute; reflexivity. }
  rewrite forallb_forall in H. specialize (H j ltac:(apply in_seq; lia)).
  rewrite forallb_forall in H. apply eqb_prop, (H i). apply in_seq. lia.
Qed.

Lemma top_bit_mask d : is_byte d → Z.land d 0x80 = if Z.testbit d 7 then 0x80 else 0.
Proof. intros Hd. apply Z.eqb_eq. revert d Hd. apply byte_forall. vm_compute. reflexivity. Qed.

Lemma top_bit_shift d : is_byte d → d ≫ 7 = Z.b2z (Z.testbit d 7).
Proof. intros Hd. apply Z.eqb_eq. revert d Hd. apply byte_forall. vm_compute. reflexivity. Qed.

(** The register shifted by one bit, with [b] shifted in. *)
Definition shift1 (iv : list Z) (b : bool) : list Z :=
  map (λ n, u8 (Z.lor (nthZ iv n ≪ 1)
                  (if (n =? 15)%nat then Z.b2z b else nthZ iv (n + 1) ≫ 7))) (seq 0 16).

Lemma block_shift1 iv b : block (shift1 iv b).
Proof.
  unfold shift1. split; [|by rewrite length_map, length_seq].
  apply Forall_map, Forall_forall. intros n _. cbn. apply u8_byte.
Qed.

(** One bit of the mode. *)
Definition cfb1_bit (blk : list Z → list Z) (enc : bool) (iv : list Z) (b : bool) : bool * list Z :=
  let o := xorb b (Z.testbit (nthZ (blk iv) 0) 7) in (o, shift1 iv (if enc then o else b)).

Lemma cfbr_1 blk uninit (b : bool) iv enc `{!BlockFn blk} : block iv → length uninit = 33%nat →
  ∃ d, cfbr_encrypt_block blk uninit [if b then 0x80 else 0] 1 iv enc = ([d], (cfb1_bit blk enc iv b).2) ∧
       is_byte d ∧ Z.testbit d 7 = (cfb1_bit blk enc iv b).1.
Proof.
  intros Hiv Hu. set (c := if b then 0x80 else 0).
  assert (is_byte c) as Hc by (unfold c, is_byte; destruct b; lia).
  assert (block (blk iv)) as [Hbb Hb] by auto with vtls.
  exists (Z.lxor c (nthZ (blk iv) 0)). assert (is_byte (Z.lxor c (nthZ (blk iv) 0))) as Hd by auto with vtls.
  assert (Z.testbit (Z.lxor c (nthZ (blk iv) 0)) 7 = (cfb1_bit blk enc iv b).1) as Ht.
  { rewrite Z.lxor_spec. cbn. f_equal. unfold c. by destruct b. }
  split; [|done]. unfold cfbr_encrypt_block. cbv zeta.
  change ((1 =? 0)%nat || (128 <? 1)%nat) with false. cbv iota.
  change ((1 + 7) / 8)%nat with 1%nat. change (1 mod 8)%nat with 1%nat. change (1 / 8)%nat with 0%nat.
  cbn [Nat.eqb]. destruct (blk iv) as [|e l'] eqn:Eb; [done|]. rewrite !firstn_cons, !take_0. cbn [xor_bytes zip_with].
  change (nthZ (e :: l') 0) with e in *. f_equal.
  set (f := if enc then Z.lxor c e else c).
  replace (if enc then [Z.lxor c e] else [c]) with [f] by (unfold f; by destruct enc).
  assert (f ≫ 7 = Z.b2z (if enc then (cfb1_bit blk enc iv b).1 else b)) as Hf.
  { unfold f. destruct enc; [by rewrite <- Ht; apply top_bit_shift|]. unfold c. by destruct b. }
  rewrite ovec_eq by done. cbn [cfb1_bit snd]. unfold cfb1_bit in Hf. cbn [fst] in Hf.
  unfold shift1. apply map_ext_in. intros n [_ Hn]%in_seq. rewrite Nat.add_0_r. f_equal.
  pose proof (block_length iv Hiv) as Hl. unfold nthZ. rewrite !app_nth1 by lia. f_equal.
  destruct (Nat.eqb_spec n 15) as [->|Hne].
  - rewrite app_nth2 by lia. rewrite Hl. cbn [Nat.add Nat.sub nth]. exact Hf.
  - by rewrite app_nth1 by lia.
Qed.

Fixpoint bit_stream (blk : list Z → list Z) (enc : bool) (iv : list Z) (bs : list bool) : list bool * list Z :=
  match bs with
  | [] => ([], iv)
  | b :: bs =>
      let '(o, iv) := cfb1_bit blk enc iv b in
      let '(os, iv) := bit_stream blk enc iv bs in (o :: os, iv)
  end.

Lemma bit_stream_inverse blk iv bs :
  let '(os, iv') := bit_stream blk true iv bs in bit_stream blk false iv os = (bs, iv').
Proof.
  revert iv. induction bs as [|b bs IH]; intros iv; cbn [bit_stream cfb1_bit]; [done|].
  set (o := xorb b _). specialize (IH (shift1 iv o)).
  destruct (bit_stream blk true _ bs) as [os iv']. cbn [bit_stream cfb1_bit]. rewrite IH. unfold o.
  by rewrite xorb_assoc, xorb_nilpotent, xorb_false_r.
Qed.

Lemma length_bit_stream blk enc iv bs : length (bit_stream blk enc iv bs).1 = length bs.
Proof.
  revert iv. induction bs as [|b bs IH]; intros iv; cbn [bit_stream cfb1_bit]; [done|].
  set (iv1 := shift1 _ _). specialize (IH iv1). destruct (bit_stream blk enc iv1 bs). cbn [fst length] in *. by rewrite IH.
Qed.

Section cfb1.
Context (blk : list Z → list Z) `{!BlockFn blk} (uninit inp : list Z).
Context (Hinp : bytes inp) (Hu : length uninit = 33%nat).

(** An iteration writes one bit of [out] and leaves the others. *)
Lemma cfb1_iter_spec enc n out iv : bytes out → (n / 8 < length out)%nat → block iv →
  let '(out', iv') := cfb1_iter blk uninit inp enc n out iv in
  (buf_bit out' n, iv') = cfb1_bit blk enc iv (buf_bit inp n) ∧
  bytes out' ∧ length out' = length out ∧ ∀ i, i ≠ n → buf_bit out' i = buf_bit out i.
Proof.
  intros Hout Hn Hiv. unfold cfb1_iter, bit_mask.
  pose proof (Nat.mod_upper_bound n 8 ltac:(lia)) as Hj.
  rewrite mask_testbit by auto with vtls. fold (buf_bit inp n).
  destruct (cfbr_1 blk uninit (buf_bit inp n) iv enc Hiv Hu) as (d & -> & Hd & Ht).
  change (nthZ [d] 0) with d. rewrite (top_bit_mask d Hd), Ht.
  destruct (cfb1_bit blk enc iv (buf_bit inp n)) as [o iv'] eqn:Eo. cbn [fst snd].
  set (b' := u8 _). split.
  - f_equal. unfold buf_bit. rewrite nthZ_insert, decide_True by done.
    unfold b'. rewrite set_bit_testbit by auto with vtls. by rewrite Nat.eqb_refl.
  - split; [apply Forall_insert; [done|apply u8_byte]|]. split; [len|].
    intros i Hi. unfold buf_bit. rewrite nthZ_insert by done.
    destruct (decide (n / 8 = i / 8)%nat) as [E|]; [|done].
    unfold b'. rewrite set_bit_testbit by (auto with vtls || (apply Nat.mod_upper_bound; lia)).
    rewrite (proj2 (Nat.eqb_neq (i mod 8) (n mod 8))); [by rewrite E|].
    intros Em. apply Hi. rewrite (Nat.div_mod_eq i 8), (Nat.div_mod_eq n 8). lia.
Qed.

Lemma cfb1_loop_spec enc todo : ∀ n out iv, bytes out → (n + todo ≤ 8 * length out)%nat → block iv →
  let '(out', iv') := cfb1_loop blk uninit inp enc n todo out iv in
  (map (buf_bit out') (seq n todo), iv') = bit_stream blk enc iv (map (buf_bit inp) (seq n todo)) ∧
  bytes out' ∧ length out' = length out ∧ ∀ i, (i < n)%nat → buf_bit out' i = buf_bit out i.
Proof.
  induction todo as [|todo IH]; intros n out iv Hout Hn Hiv; cbn [cfb1_loop seq map]; [done|].
  assert (n / 8 < length out)%nat as Hn8 by (apply Nat.Div0.div_lt_upper_bound; lia).
  pose proof (cfb1_iter_spec enc n out iv Hout Hn8 Hiv) as Hit.
  destruct (cfb1_iter blk uninit inp enc n out iv) as [out1 iv1].
  destruct Hit as (E & Hb1 & Hl1 & Hother). cbn [bit_stream]. rewrite <- E.
  assert (block iv1) as Hiv1.
  { apply (f_equal snd) in E. cbn in E. rewrite E. apply block_shift1. }
  specialize (IH (S n) out1 iv1 Hb1 ltac:(lia) Hiv1).
  destruct (cfb1_loop blk uninit inp enc (S n) todo out1 iv1) as [out2 iv2].
  destruct IH as (E2 & Hb2 & Hl2 & Hother2). rewrite <- E2.
  split; [by rewrite Hother2 by lia|]. split; [done|]. split; [lia|].
  intros i Hi. rewrite Hother2, Hother by lia. done.
Qed.
End cfb1.

(** 1-bit CFB: decrypting the ciphertext bits returns the message bits, for
    every number of bits and whatever the output buffers held before; bits beyond
    the message keep the value they had. *)
Theorem cfb1_roundtrip blk `{!BlockFn blk} uninit uninit' msg out out' bits iv :
  block iv → bytes msg → bytes out → bytes out' → length uninit = 33%nat → length uninit' = 33%nat →
  (bits ≤ 8 * length out)%nat → (bits ≤ 8 * length out')%nat →
  let '(ct, iv') := CRYPTO_cfb128_1_encrypt blk uninit msg out bits iv true in
  let '(pt, iv'') := CRYPTO_cfb128_1_encrypt blk uninit' ct out' bits iv false in
  iv' = iv'' ∧ ∀ i, (i < bits)%nat → buf_bit pt i = buf_bit msg i.
Proof.
  intros Hiv Hm Ho Ho' Hu Hu' Hb Hb'. unfold CRYPTO_cfb128_1_encrypt.
  pose proof (cfb1_loop_spec blk uninit msg Hm Hu true bits 0 out iv Ho ltac:(lia) Hiv) as He.
  destruct (cfb1_loop _ _ _ true _ _ _ _) as [ct iv']. destruct He as (Ee & Hct & _).
  pose proof (cfb1_loop_spec blk uninit' ct Hct Hu' false bits 0 out' iv Ho' ltac:(lia) Hiv) as Hd.
  destruct (cfb1_loop _ _ _ false _ _ _ _) as [pt iv'']. destruct Hd as (Ed & _).
  pose proof (bit_stream_inverse blk iv (map (buf_bit msg) (seq 0 bits))) as Hinv.
  rewrite <- Ee in Hinv. rewrite Hinv in Ed. injection Ed as Ebits ->. split; [done|].
  intros i Hi. apply (f_equal (λ l, l !! i)) in Ebits.
  rewrite !list_lookup_fmap, lookup_seq_lt in Ebits by done. by injection Ebits.
Qed.

Lemma cfb1_roundtrip_witness :
  let '(ct, iv') := CRYPTO_cfb128_1_encrypt toy_encrypt (replicate 33 0) [0xa5; 0xc0] [0; 0] 10 (replicate 16 7) true in
  let '(pt, iv'') := CRYPTO_cfb128_1_encrypt toy_encrypt (replicate 33 0) ct [0; 0] 10 (replicate 16 7) false in
  iv' = iv'' ∧ ∀ i, (i < 10)%nat → buf_bit pt i = buf_bit [0xa5; 0xc0] i.
Proof.
  apply (cfb1_roundtrip toy_encrypt (replicate 33 0) (replicate 33 0) [0xa5; 0xc0] [0; 0] [0; 0] 10 (replicate 16 7));
    apply (bool_decide_unpack _); vm_compute; reflexivity.
Defined.
