(* ===== verification/Wrap.v ===== *)
(** * AES key wrap

    Models [crypto/modes/wrap128.c] (RFC 3394).  The output buffer is transformed
    in place by six passes over its 8-byte registers; a zero return value is
    [None], otherwise the result is the contents of [out], whose length is the
    return value.  The main theorem is that a wrapped key unwraps to exactly the
    key it was made from, and that nothing else unwraps. *)

From S2P Require Import Prelude Block.

Definition default_iv : list Z := replicate 8 0xA6.
Definition CRYPTO128_WRAP_MAX : Z := 2 ^ 31.

(** [A[7] ^= t & 0xff; if (t > 0xff) ...] on the first half of [B]. *)
Definition xor_t (A : list Z) (t : Z) : list Z :=
  let A := <[7%nat := Z.lxor (nthZ A 7) (Z.land t 0xff)]> A in
  if 0xff <? t then
    let A := <[6%nat := Z.lxor (nthZ A 6) (Z.land (t ≫ 8) 0xff)]> A in
    let A := <[5%nat := Z.lxor (nthZ A 5) (Z.land (t ≫ 16) 0xff)]> A in
    <[4%nat := Z.lxor (nthZ A 4) (Z.land (t ≫ 24) 0xff)]> A
  else A.

(** One register: [A] and [R] are the halves of [B]. *)
Definition wrap_step (blk : list Z → list Z) (A R : list Z) (t : Z) : list Z * list Z :=
  let B := blk (A ++ R) in (xor_t (take 8 B) t, drop 8 B).

Definition unwrap_step (blk : list Z → list Z) (A R : list Z) (t : Z) : list Z * list Z :=
  let B := blk (xor_t A t ++ R) in (take 8 B, drop 8 B).

(** [for (i = 0; i < inlen; i += 8, t++, R += 8)] over [n] registers. *)
Fixpoint wrap_pass (blk : list Z → list Z) (n : nat) (A : list Z) (t : Z) (R : list Z) : list Z * Z * list Z :=
  match n with
  | O => (A, t, R)
  | S n =>
      let '(A, r) := wrap_step blk A (take 8 R) t in
      let '(A, t, R') := wrap_pass blk n A (t + 1) (drop 8 R) in
      (A, t, r ++ R')
  end.

(** [for (i = 0; i < inlen; i += 8, t--, R -= 8)], from the last register. *)
Fixpoint unwrap_pass (blk : list Z → list Z) (n : nat) (A : list Z) (t : Z) (R : list Z) : list Z * Z * list Z :=
  match n with
  | O => (A, t, R)
  | S n =>
      let '(A, r) := unwrap_step blk A (take 8 (drop (8 * n) R)) t in
      let '(A, t, R') := unwrap_pass blk n A (t - 1) (take (8 * n) R) in
      (A, t, R' ++ r)
  end.

(** [for (j = 0; j < 6; j++)]. *)
Fixpoint rounds (pass : list Z → Z → list Z → list Z * Z * list Z) (j : nat) (A : list Z) (t : Z) (R : list Z)
  : list Z * Z * list Z :=
  match j with
  | O => (A, t, R)
  | S j => let '(A, t, R) := pass A t R in rounds pass j A t R
  end.

(** The return value and the bytes written at [out]. *)
Definition CRYPTO_128_wrap (blk : list Z → list Z) (iv : option (list Z)) (inp : list Z) (inlen : Z) : Z * list Z :=
  if negb (Z.land inlen 0x7 =? 0) || (inlen <? 16) || (CRYPTO128_WRAP_MAX <? inlen) then (0, [])
  else
    let iv := default default_iv iv in
    let n := Z.to_nat (inlen / 8) in
    let '(A, t, R) := rounds (wrap_pass blk n) 6 (take 8 iv) 1 (take (Z.to_nat inlen) inp) in
    (inlen + 8, A ++ R).

Definition CRYPTO_128_unwrap (blk : list Z → list Z) (iv : option (list Z)) (inp : list Z) (inlen : Z) : Z * list Z :=
  let inlen := u64 (inlen - 8) in
  if negb (Z.land inlen 0x7 =? 0) || (inlen <? 8) || (CRYPTO128_WRAP_MAX <? inlen) then (0, [])
  else
    let n := Z.to_nat (inlen / 8) in
    let t := 6 * (inlen ≫ 3) in
    let '(A, t, R) := rounds (unwrap_pass blk n) 6 (take 8 inp) t (take (Z.to_nat inlen) (drop 8 inp)) in
    let iv := default default_iv iv in
    if negb (bool_decide (A = take 8 iv)) then (0, replicate (Z.to_nat inlen) 0)
    else (inlen, R).

(** ** The steps are inverse *)

Definition half (A : list Z) : Prop := bytes A ∧ length A = 8%nat.

Lemma is_byte_land_ff z : is_byte (Z.land z 0xff).
Proof. unfold is_byte. change 0xff with (Z.ones 8). rewrite Z.land_ones by lia. apply Z.mod_pos_bound. lia. Qed.

Lemma xor_t_half A t : half A → half (xor_t A t).
Proof.
  intros [Hb Hl]. unfold xor_t. case_match; (split; [|len]);
    repeat (apply Forall_insert; [|apply is_byte_lxor; [apply nthZ_byte|apply is_byte_land_ff]]); try done;
    repeat (apply Forall_insert; [|apply is_byte_lxor; [apply nthZ_byte|apply is_byte_land_ff]]); done.
Qed.

Lemma xor_t_involutive A t : half A → xor_t (xor_t A t) t = A.
Proof.
  intros [_ Hl]. unfold xor_t. destruct (0xff <? t);
    (do 8 (destruct A as [|? A]; [done|])); (destruct A; [|done]); cbn; by rewrite !lxor_cancel_r.
Qed.

Lemma block_halves A R : half A → half R → block (A ++ R).
Proof. intros [? ?] [? ?]. split; [auto with vtls|len]. Qed.

Lemma half_take b : block b → half (take 8 b).
Proof. intros [? ?]. split; [auto with vtls|len]. Qed.

Lemma half_drop b : block b → half (drop 8 b).
Proof. intros [? ?]. split; [auto with vtls|len]. Qed.

#[local] Hint Resolve xor_t_half block_halves half_take half_drop : vtls.

Section inverse.
Context (enc dec : list Z → list Z) `{!BlockPermutation enc dec}.

Lemma wrap_step_half A R t : half A → half R →
  half (wrap_step enc A R t).1 ∧ half (wrap_step enc A R t).2.
Proof. intros. cbn. auto 10 with vtls. Qed.

Lemma unwrap_step_half A R t : half A → half R →
  half (unwrap_step dec A R t).1 ∧ half (unwrap_step dec A R t).2.
Proof. intros. cbn. auto 10 with vtls. Qed.

Lemma unwrap_wrap_step A R t : half A → half R →
  let '(A', R') := wrap_step enc A R t in unwrap_step dec A' R' t = (A, R).
Proof.
  intros HA HR. cbn. unfold unwrap_step. rewrite xor_t_involutive, take_drop by auto 10 with vtls. rewrite (dec_enc (enc := enc) (dec := dec)) by auto with vtls.
  destruct HA as [_ HA]. by rewrite take_app_exact, drop_app_exact by done.
Qed.

Lemma wrap_unwrap_step A R t : half A → half R →
  let '(A', R') := unwrap_step dec A R t in wrap_step enc A' R' t = (A, R).
Proof.
  intros HA HR. cbn. unfold wrap_step. rewrite take_drop, (enc_dec (enc := enc) (dec := dec)) by auto 10 with vtls.
  destruct (xor_t_half A t HA) as [_ Hl].
  by rewrite take_app_exact, drop_app_exact, xor_t_involutive by done.
Qed.

(** ** The passes *)

Definition regs (n : nat) (R : list Z) : Prop := bytes R ∧ length R = (8 * n)%nat.

Lemma regs_snoc n R : regs (S n) R → ∃ R0 r, R = R0 ++ r ∧ regs n R0 ∧ half r.
Proof.
  intros [Hb Hl]. exists (take (8 * n) R), (drop (8 * n) R). rewrite take_drop.
  split; [done|]. split; split; auto with vtls; len.
Qed.

Lemma wrap_pass_snoc n : ∀ A t R r, length R = (8 * n)%nat → length r = 8%nat →
  wrap_pass enc (S n) A t (R ++ r) =
  let '(A1, t1, R1) := wrap_pass enc n A t R in
  let '(A2, r2) := wrap_step enc A1 r t1 in (A2, t1 + 1, R1 ++ r2).
Proof.
  induction n as [|n IH]; intros A t R r HR Hr.
  { assert (R = []) as -> by (by apply length_zero_iff_nil). cbn [app wrap_pass].
    rewrite take_ge, drop_ge by lia. destruct (wrap_step enc A r t) as [A2 r2]. by rewrite app_nil_r. }
  change (wrap_pass enc (S (S n)) A t (R ++ r)) with
    (let '(A, r') := wrap_step enc A (take 8 (R ++ r)) t in
     let '(A, t, R') := wrap_pass enc (S n) A (t + 1) (drop 8 (R ++ r)) in (A, t, r' ++ R')).
  rewrite take_app_le, drop_app_le by lia.
  change (wrap_pass enc (S n) A t R) with
    (let '(A, r') := wrap_step enc A (take 8 R) t in
     let '(A, t, R') := wrap_pass enc n A (t + 1) (drop 8 R) in (A, t, r' ++ R')).
  destruct (wrap_step enc A (take 8 R) t) as [A1 r1]. rewrite IH by len.
  destruct (wrap_pass enc n A1 (t + 1) (drop 8 R)) as [[A2 t2] R2].
  destruct (wrap_step enc A2 r t2) as [A3 r3]. by rewrite app_assoc.
Qed.

Lemma wrap_pass_ok n : ∀ A t R, half A → regs n R →
  let '(A', t', R') := wrap_pass enc n A t R in half A' ∧ t' = t + Z.of_nat n ∧ regs n R'.
Proof.
  induction n as [|n IH]; intros A t R HA HR; [cbn; repeat split; try apply HA; try apply HR; lia|].
  destruct (regs_snoc n R HR) as (R0 & r & -> & HR0 & Hr).
  rewrite wrap_pass_snoc by (apply HR0 || apply Hr). specialize (IH A t R0 HA HR0).
  destruct (wrap_pass enc n A t R0) as [[A1 t1] R1]. destruct IH as (HA1 & -> & HR1 & Hl1).
  pose proof (wrap_step_half A1 r (t + Z.of_nat n) HA1 Hr) as [H1 [H2 H3]].
  destruct (wrap_step enc A1 r _) as [A2 r2]. cbn in *. split; [done|]. split; [lia|].
  split; [auto with vtls|len].
Qed.

Lemma unwrap_pass_ok n : ∀ A t R, half A → regs n R →
  let '(A', t', R') := unwrap_pass dec n A t R in half A' ∧ t' = t - Z.of_nat n ∧ regs n R'.
Proof.
  induction n as [|n IH]; intros A t R HA HR; [cbn; repeat split; try apply HA; try apply HR; lia|].
  destruct (regs_snoc n R HR) as (R0 & r & -> & HR0 & Hr). cbn [unwrap_pass].
  rewrite take_app_exact, drop_app_exact, take_ge by (apply HR0 || (destruct Hr; lia)).
  pose proof (unwrap_step_half A r t HA Hr) as [H1 [H2 H3]].
  destruct (unwrap_step dec A r t) as [A1 r1]. cbn in H1, H2, H3. specialize (IH A1 (t - 1) R0 H1 HR0).
  destruct (unwrap_pass dec n A1 (t - 1) R0) as [[A2 t2] R2]. destruct IH as (HA2 & -> & HR2 & Hl2).
  split; [done|]. split; [lia|]. split; [auto with vtls|len].
Qed.

Lemma unwrap_wrap_pass n : ∀ A t R, half A → regs n R →
  let '(A', t', R') := wrap_pass enc n A t R in unwrap_pass dec n A' (t' - 1) R' = (A, t - 1, R).
Proof.
  induction n as [|n IH]; intros A t R HA HR; [done|].
  destruct (regs_snoc n R HR) as (R0 & r & -> & HR0 & Hr).
  rewrite wrap_pass_snoc by (apply HR0 || apply Hr). specialize (IH A t R0 HA HR0).
  pose proof (wrap_pass_ok n A t R0 HA HR0) as Hok.
  destruct (wrap_pass enc n A t R0) as [[A1 t1] R1]. destruct Hok as (HA1 & -> & HR1).
  pose proof (unwrap_wrap_step A1 r (t + Z.of_nat n) HA1 Hr) as Hs.
  pose proof (wrap_step_half A1 r (t + Z.of_nat n) HA1 Hr) as [_ Hr2].
  destruct (wrap_step enc A1 r _) as [A2 r2]. cbn in Hr2. cbn [unwrap_pass].
  rewrite take_app_exact, drop_app_exact, take_ge by (apply HR1 || (destruct Hr2; lia)).
  replace (t + Z.of_nat n + 1 - 1) with (t + Z.of_nat n) by lia. by rewrite Hs, IH.
Qed.

Lemma wrap_unwrap_pass n : ∀ A t R, half A → regs n R →
  let '(A', t', R') := unwrap_pass dec n A t R in wrap_pass enc n A' (t' + 1) R' = (A, t + 1, R).
Proof.
  induction n as [|n IH]; intros A t R HA HR; [done|].
  destruct (regs_snoc n R HR) as (R0 & r & -> & HR0 & Hr). cbn [unwrap_pass].
  rewrite take_app_exact, drop_app_exact, take_ge by (apply HR0 || (destruct Hr; lia)).
  pose proof (unwrap_step_half A r t HA Hr) as [H1 H2]. pose proof (wrap_unwrap_step A r t HA Hr) as Hs.
  destruct (unwrap_step dec A r t) as [A1 r1]. cbn in H1, H2. specialize (IH A1 (t - 1) R0 H1 HR0).
  pose proof (unwrap_pass_ok n A1 (t - 1) R0 H1 HR0) as Hok.
  destruct (unwrap_pass dec n A1 (t - 1) R0) as [[A2 t2] R2]. destruct Hok as (HA2 & -> & HR2).
  rewrite wrap_pass_snoc by (apply HR2 || apply H2). rewrite IH.
  replace (t - 1 + 1) with t by lia. by rewrite Hs.
Qed.

(** ** Six rounds *)

Lemma rounds_snoc p j : ∀ A t R,
  rounds p (S j) A t R = let '(A1, t1, R1) := rounds p j A t R in p A1 t1 R1.
Proof.
  induction j as [|j IH]; intros A t R; [cbn; by destruct (p A t R) as [[] ]|].
  change (rounds p (S (S j)) A t R) with (let '(A, t, R) := p A t R in rounds p (S j) A t R).
  change (rounds p (S j) A t R) with (let '(A, t, R) := p A t R in rounds p j A t R).
  destruct (p A t R) as [[A1 t1] R1]. apply IH.
Qed.

Lemma unwrap_wrap_rounds n j A t R : half A → regs n R →
  let '(A', t', R') := rounds (wrap_pass enc n) j A t R in
  rounds (unwrap_pass dec n) j A' (t' - 1) R' = (A, t - 1, R) ∧
  half A' ∧ regs n R' ∧ t' = t + Z.of_nat (j * n).
Proof.
  intros HA HR. induction j as [|j IH]; [cbn; split; [done|]; split; [done|]; split; [done|lia]|].
  rewrite rounds_snoc. destruct (rounds (wrap_pass enc n) j A t R) as [[A1 t1] R1].
  destruct IH as (E & HA1 & HR1 & ->).
  pose proof (wrap_pass_ok n A1 (t + Z.of_nat (j * n)) R1 HA1 HR1) as Hok.
  pose proof (unwrap_wrap_pass n A1 (t + Z.of_nat (j * n)) R1 HA1 HR1) as Hinv.
  destruct (wrap_pass enc n A1 _ R1) as [[A2 t2] R2]. destruct Hok as (HA2 & -> & HR2).
  cbn [rounds]. rewrite Hinv. split; [done|]. split; [done|]. split; [done|lia].
Qed.

Lemma wrap_unwrap_rounds n j A t R : half A → regs n R →
  let '(A', t', R') := rounds (unwrap_pass dec n) j A t R in
  rounds (wrap_pass enc n) j A' (t' + 1) R' = (A, t + 1, R) ∧
  half A' ∧ regs n R' ∧ t' = t - Z.of_nat (j * n).
Proof.
  intros HA HR. induction j as [|j IH]; [cbn; split; [done|]; split; [done|]; split; [done|lia]|].
  rewrite rounds_snoc. destruct (rounds (unwrap_pass dec n) j A t R) as [[A1 t1] R1].
  destruct IH as (E & HA1 & HR1 & ->).
  pose proof (unwrap_pass_ok n A1 (t - Z.of_nat (j * n)) R1 HA1 HR1) as Hok.
  pose proof (wrap_unwrap_pass n A1 (t - Z.of_nat (j * n)) R1 HA1 HR1) as Hinv.
  destruct (unwrap_pass dec n A1 _ R1) as [[A2 t2] R2]. destruct Hok as (HA2 & -> & HR2).
  cbn [rounds]. rewrite Hinv. split; [done|]. split; [done|]. split; [done|lia].
Qed.
End inverse.

(** The initial value a call uses. *)
Definition wrap_iv (iv : option (list Z)) : list Z := take 8 (default default_iv iv).

Lemma size_checks len : 0 ≤ len → Z.land len 0x7 = 0 → 16 ≤ len → len ≤ CRYPTO128_WRAP_MAX →
  negb (Z.land len 0x7 =? 0) || (len <? 16) || (CRYPTO128_WRAP_MAX <? len) = false ∧
  negb (Z.land len 0x7 =? 0) || (len <? 8) || (CRYPTO128_WRAP_MAX <? len) = false ∧
  len = 8 * (len / 8) ∧ len ≫ 3 = len / 8.
Proof.
  intros H0 H7 H16 Hmax. rewrite H7, !(proj2 (Z.ltb_ge _ _)) by lia.
  split; [done|]. split; [done|]. change 0x7 with (Z.ones 3) in H7. rewrite Z.land_ones in H7 by lia.
  split; [|by rewrite Z.shiftr_div_pow2 by lia]. pose proof (Z.div_mod len 8 ltac:(lia)).
  change (2 ^ 3) with 8 in H7. lia.
Qed.

(** for every key length the interface allows, a buffer unwraps to a key if
    and only if wrapping that key yields the buffer; a buffer that is no wrapping
    under the given initial value is refused, with the output zeroed. *)
Theorem wrap_unwrap_iff enc dec `{!BlockPermutation enc dec} iv key w len :
  16 ≤ len ≤ CRYPTO128_WRAP_MAX → Z.land len 0x7 = 0 →
  half (wrap_iv iv) → bytes key → Z.of_nat (length key) = len →
  bytes w → Z.of_nat (length w) = len + 8 →
  (CRYPTO_128_wrap enc iv key len = (len + 8, w) ↔
   CRYPTO_128_unwrap dec iv w (len + 8) = (len, key)) ∧
  (CRYPTO_128_unwrap dec iv w (len + 8) = (0, replicate (Z.to_nat len) 0) ∨
   ∃ key', CRYPTO_128_unwrap dec iv w (len + 8) = (len, key')).
Proof.
  intros [Hmin Hmax] H7 Hiv Hk Hlk Hw Hlw.
  destruct (size_checks len ltac:(lia) H7 Hmin Hmax) as (C1 & C2 & Hdiv & Hshift).
  unfold CRYPTO_128_wrap, CRYPTO_128_unwrap. fold (wrap_iv iv).
  replace (u64 (len + 8 - 8)) with len by (symmetry; rewrite Z.add_simpl_r; apply Z.mod_small;
    unfold CRYPTO128_WRAP_MAX in Hmax; lia).
  rewrite C1, C2, Hshift, (take_ge key) by lia.
  set (n := Z.to_nat (len / 8)). assert (0 ≤ len / 8) by (apply Z.div_pos; lia).
  assert (regs n key) as Hregs by (split; [done|unfold n; lia]).
  assert (half (take 8 w)) as HA by (split; [auto with vtls|len]).
  assert (regs n (take (Z.to_nat len) (drop 8 w))) as HR by (split; [auto with vtls|unfold n; len]).
  pose proof (unwrap_wrap_rounds enc dec n 6 (wrap_iv iv) 1 key Hiv Hregs) as Hf.
  pose proof (wrap_unwrap_rounds enc dec n 6 (take 8 w) (6 * (len / 8)) _ HA HR) as Hb.
  destruct (rounds (wrap_pass enc n) 6 (wrap_iv iv) 1 key) as [[A1 t1] R1] eqn:Ew.
  destruct (rounds (unwrap_pass dec n) 6 (take 8 w) _ _) as [[A2 t2] R2] eqn:Eu.
  destruct Hf as (Ef & HA1 & HR1 & ->). destruct Hb as (Eb & HA2 & HR2 & ->). split; [split|].
  - intros [= <-]. rewrite take_app_exact, drop_app_exact, take_ge in Eu
      by (apply HA1 || (destruct HR1; unfold n in *; lia)).
    replace (1 + Z.of_nat (6 * n) - 1) with (6 * (len / 8)) in Ef by (unfold n; lia).
    rewrite Eu in Ef. injection Ef as -> _ ->. by rewrite bool_decide_eq_true_2.
  - destruct (bool_decide_reflect (A2 = wrap_iv iv)) as [->|]; cbn [negb]; intros E; [|simplify_eq; lia].
    injection E as <-. replace (6 * (len / 8) - Z.of_nat (6 * n) + 1) with 1 in Eb by (unfold n; lia).
    rewrite Eb in Ew. injection Ew as <- _ <-. f_equal.
    rewrite (take_ge (drop 8 w)) by len. apply take_drop.
  - destruct (bool_decide (A2 = wrap_iv iv)); cbn [negb]; [right; by exists R2|by left].
Qed.

Lemma wrap_unwrap_iff_witness :
  CRYPTO_128_unwrap toy_decrypt None (CRYPTO_128_wrap toy_encrypt None (replicate 16 5) 16).2 24 = (16, replicate 16 5).
Proof.
  apply (wrap_unwrap_iff toy_encrypt toy_decrypt None (replicate 16 5)
    (CRYPTO_128_wrap toy_encrypt None (replicate 16 5) 16).2 16).
  - unfold CRYPTO128_WRAP_MAX. lia.
  - reflexivity.
  - split; [apply (bool_decide_unpack _)|]; vm_compute; reflexivity.
  - apply (bool_decide_unpack _); vm_compute; reflexivity.
  - reflexivity.
  - apply (bool_decide_unpack _); vm_compute; reflexivity.
  - vm_compute; reflexivity.
  - vm_compute; reflexivity.
Defined.
