(* ===== verification/Xts.v ===== *)
(** * XTS mode

    Models [crypto/modes/xts128.c].  The two block functions of the context are
    parameters: [blk1] encrypts or decrypts data, [blk2] encrypts the tweak.  The
    result is the return value and the bytes written at [out].

    [xts_double] is multiplication by x in GF(2^128), which the code computes on
    64-bit words or byte by byte depending on the byte order; the specification is
    doubling of the tweak as a little-endian number with reduction by 0x87. *)

From S2P Require Import Prelude Block.
#[local] Arguments Nat.modulo : simpl never.
#[local] Arguments Nat.leb : simpl never.

(** The little-endian path. *)
Definition double_words (tweak : list Z) : list Z :=
  let u0 := le_load (take 8 tweak) in
  let u1 := le_load (take 8 (drop 8 tweak)) in
  let d3 := le_load (take 4 (drop 12 tweak)) in
  let res := if Z.testbit d3 31 then 0x87 else 0 in
  let carry := u0 ≫ 63 in
  le_store 8 (Z.lxor (u64 (u0 ≪ 1)) res) ++ le_store 8 (Z.lor (u64 (u1 ≪ 1)) carry).

(** The other path: [c += tweak[i] << 1; tweak[i] = c; c >>= 8]. *)
Fixpoint double_bytes_loop (c : Z) (tweak : list Z) : list Z * Z :=
  match tweak with
  | [] => ([], c)
  | x :: tweak =>
      let c := c + x ≪ 1 in
      let '(t, c') := double_bytes_loop (c ≫ 8) tweak in (u8 c :: t, c')
  end.

Definition double_bytes (tweak : list Z) : list Z :=
  let '(t, c) := double_bytes_loop 0 tweak in
  <[0%nat := Z.lxor (nthZ t 0) (u8 (Z.land 0x87 (u64 (0 - c))))]> t.

Definition xts_double (little_endian : bool) (tweak : list Z) : list Z :=
  if little_endian then double_words tweak else double_bytes tweak.

Section xts.
Context (blk1 blk2 : list Z → list Z) (le : bool).

(** [while (len >= 16)]: the bytes written, whether the function returns, the
    input and [len] left, [tweak] and [scratch]. *)
Fixpoint xts_loop (fuel : nat) (inp : list Z) (len : nat) (tweak scratch : list Z)
  : list Z * bool * list Z * nat * list Z * list Z :=
  match fuel with
  | O => ([], false, inp, len, tweak, scratch)
  | S fuel =>
      if (16 <=? len)%nat then
        let scratch := xor_words (take 16 inp) tweak in
        let scratch := xor_words (blk1 scratch) tweak in
        let inp := drop 16 inp in
        let len := (len - 16)%nat in
        if (len =? 0)%nat then (scratch, true, inp, len, tweak, scratch)
        else
          let '(out, fin, inp, len, tweak, scratch') := xts_loop fuel inp len (xts_double le tweak) scratch in
          (scratch ++ out, fin, inp, len, tweak, scratch')
      else ([], false, inp, len, tweak, scratch)
  end.

Definition CRYPTO_xts128_encrypt (iv inp : list Z) (len : nat) (enc : bool) : Z * list Z :=
  if (len <? 16)%nat then (-1, [])
  else
    let tweak := blk2 (take 16 iv) in
    let len := if negb enc && negb (len mod 16 =? 0)%nat then (len - 16)%nat else len in
    let '(out, fin, inp, len, tweak, scratch) := xts_loop len inp len tweak (replicate 16 0) in
    if fin then (0, out)
    else if enc then
      let tail := take len scratch in
      let scratch := take len inp ++ drop len scratch in
      let scratch := xor_words scratch tweak in
      let scratch := xor_words (blk1 scratch) tweak in
      (0, splice out (length out - 16) scratch ++ tail)
    else
      let tweak1 := xts_double le tweak in
      let scratch := xor_words (take 16 inp) tweak1 in
      let scratch := xor_words (blk1 scratch) tweak1 in
      let tail := take len scratch in
      let scratch := take len (drop 16 inp) ++ drop len scratch in
      let scratch := xor_words scratch tweak in
      let scratch := xor_words (blk1 scratch) tweak in
      (0, out ++ scratch ++ tail).
End xts.

(** ** Doubling *)

(** Multiplication by x: shift left, and reduce when the top bit falls out. *)
Definition gf_double (v : Z) : Z :=
  Z.lxor ((2 * v) `mod` 2 ^ 128) (if v <? 2 ^ 127 then 0 else 0x87).

Lemma double_bytes_loop_spec tweak : bytes tweak → ∀ c, 0 ≤ c ≤ 1 →
  let '(t, c') := double_bytes_loop c tweak in
  bytes t ∧ length t = length tweak ∧ 0 ≤ c' ≤ 1 ∧
  le_load t + 2 ^ (8 * Z.of_nat (length tweak)) * c' = 2 * le_load tweak + c.
Proof.
  induction 1 as [|x tweak Hx Ht IH]; intros c Hc; cbn [double_bytes_loop].
  { rewrite le_load_nil. cbn [length]. repeat split; try done || lia. }
  unfold is_byte in Hx. rewrite Z.shiftl_mul_pow2 by lia.
  assert (0 ≤ (c + x * 2 ^ 1) ≫ 8 ≤ 1) as Hc'.
  { rewrite Z.shiftr_div_pow2 by lia. split; [apply Z.div_pos; lia|]. apply Z.lt_succ_r, Z.div_lt_upper_bound; lia. }
  specialize (IH _ Hc'). destruct (double_bytes_loop _ tweak) as [t c'].
  destruct IH as (Hb & Hl & Hc'' & E). split; [constructor; [apply u8_byte|done]|].
  split; [cbn; by rewrite Hl|]. split; [done|]. cbn [length].
  rewrite !le_load_cons by (apply u8_byte || done).
  replace (8 * Z.of_nat (S (length tweak))) with (8 + 8 * Z.of_nat (length tweak)) by lia.
  rewrite Z.pow_add_r by lia. change (2 ^ 8) with 256.
  rewrite Z.shiftr_div_pow2 in E by lia. change (2 ^ 8) with 256 in E.
  pose proof (Z.div_mod (c + x * 2 ^ 1) 256 ltac:(lia)) as Hdm. unfold u8. change (2 ^ 8) with 256. lia.
Qed.

Lemma testbit_carry z k : 0 ≤ k → 0 ≤ z < 2 ^ (k + 1) → Z.testbit z k = negb (z <? 2 ^ k).
Proof.
  intros Hk Hz. rewrite Z.pow_add_r in Hz by lia. pose proof (Z.pow_pos_nonneg 2 k ltac:(lia) Hk).
  apply eq_bool_prop_intro. rewrite !Is_true_true. rewrite Z.testbit_true, negb_true_iff, Z.ltb_ge by done.
  assert (z `div` 2 ^ k < 2) by (apply Z.div_lt_upper_bound; lia).
  assert (0 ≤ z `div` 2 ^ k) by (apply Z.div_pos; lia). rewrite Z.mod_small by lia. split; intros E.
  - destruct (Z.le_gt_cases (2 ^ k) z); [done|]. rewrite Z.div_small in E by lia. lia.
  - assert (1 ≤ z `div` 2 ^ k) by (apply Z.div_le_lower_bound; lia). lia.
Qed.

(** Exclusive or that only touches the low [k] bits. *)
Lemma lxor_low k a b r : 0 ≤ k → 0 ≤ a < 2 ^ k → 0 ≤ r < 2 ^ k →
  Z.lxor (a + 2 ^ k * b) r = Z.lxor a r + 2 ^ k * b.
Proof.
  intros Hk Ha Hr. pose proof (lxor_bound k a r Hk Ha Hr) as Hx.
  replace (a + 2 ^ k * b) with (b * 2 ^ k + a) by lia. replace (_ + 2 ^ k * b) with (b * 2 ^ k + Z.lxor a r) by lia.
  rewrite <- !lor_shiftl_add by done. apply Z.bits_inj'. intros i Hi.
  rewrite !Z.lxor_spec, !Z.lor_spec, Z.lxor_spec, Z.shiftl_spec by done.
  apply bounded_bits in Ha as [_ Ha], Hr as [_ Hr]; [|done..].
  destruct (Z.lt_ge_cases i k).
  - rewrite (Z.testbit_neg_r b) by lia. done.
  - rewrite Ha, Hr by done. cbn. by rewrite xorb_false_r, orb_false_r.
Qed.

Lemma double_arith v c x : 0 ≤ v < 2 ^ 128 → 0 ≤ x < 2 ^ 128 → 0 ≤ c ≤ 1 → x + 2 ^ 128 * c = 2 * v →
  x = (2 * v) `mod` 2 ^ 128 ∧ c = if v <? 2 ^ 127 then 0 else 1.
Proof.
  intros Hv Hx Hc E. split.
  - apply Z.mod_unique_pos with (q := c); lia.
  - destruct (Z.ltb_spec v (2 ^ 127)); lia.
Qed.

Lemma double_bytes_spec T : block T → block (double_bytes T) ∧ le_load (double_bytes T) = gf_double (le_load T).
Proof.
  intros [Hb Hl]. unfold double_bytes. pose proof (double_bytes_loop_spec T Hb 0 ltac:(lia)) as H.
  destruct (double_bytes_loop 0 T) as [t c]. destruct H as (Htb & Htl & Hc & E).
  rewrite Hl in *. pose proof (le_load_bound T Hb) as HT. pose proof (le_load_bound t Htb) as Ht.
  rewrite Hl in HT. rewrite Htl in Ht. change (8 * Z.of_nat 16) with 128 in *.
  destruct (double_arith (le_load T) c (le_load t) HT Ht Hc ltac:(lia)) as [Et Ec].
  set (r := u8 (Z.land 0x87 (u64 (0 - c)))).
  assert (r = if le_load T <? 2 ^ 127 then 0 else 0x87) as Er by (unfold r; rewrite Ec; by case_match).
  assert (is_byte r) as Hr by (unfold r; apply u8_byte).
  destruct t as [|t0 t]; [done|]. apply bytes_cons_inv in Htb as [Ht0 Htb].
  cbn [insert list_insert nthZ nth]. split.
  - split; [|done]. constructor; [by apply is_byte_lxor|done].
  - unfold gf_double. rewrite <- Et, <- Er. rewrite !le_load_cons by auto with vtls.
    symmetry. apply (lxor_low 8); [lia|exact Ht0|exact Hr].
Qed.

Lemma double_words_spec T : block T → block (double_words T) ∧ le_load (double_words T) = gf_double (le_load T).
Proof.
  intros [Hb Hl]. unfold double_words. rewrite !(take_ge (drop _ T)) by len.
  pose proof (le_load_bound (take 8 T) ltac:(auto with vtls)) as H0.
  pose proof (le_load_bound (drop 8 T) ltac:(auto with vtls)) as H1.
  pose proof (le_load_bound (take 12 T) ltac:(auto with vtls)) as H2.
  pose proof (le_load_bound (drop 12 T) ltac:(auto with vtls)) as H3.
  pose proof (le_load_app (take 8 T) (drop 8 T) ltac:(auto with vtls)) as E8.
  pose proof (le_load_app (take 12 T) (drop 12 T) ltac:(auto with vtls)) as E12.
  rewrite take_drop in E8, E12. rewrite length_take, Hl in *. rewrite length_drop, Hl in *.
  set (u0 := le_load (take 8 T)) in *. set (u1 := le_load (drop 8 T)) in *.
  set (d3 := le_load (drop 12 T)) in *. set (v := le_load T) in *.
  change (8 * Z.of_nat (8 `min` 16)) with 64 in *. change (8 * Z.of_nat (16 - 8)) with 64 in *.
  change (8 * Z.of_nat (12 `min` 16)) with 96 in *. change (8 * Z.of_nat (16 - 12)) with 32 in *.
  split; [split; [auto with vtls|len]|].
  set (res := if Z.testbit d3 31 then 0x87 else 0).
  assert (res = if v <? 2 ^ 127 then 0 else 0x87) as Er.
  { unfold res. rewrite testbit_carry by lia. destruct (Z.ltb_spec d3 (2 ^ 31)), (Z.ltb_spec v (2 ^ 127)); lia || done. }
  assert (0 ≤ res < 2 ^ 64) as Hres by (rewrite Er; case_match; lia).
  assert (0 ≤ u0 ≫ 63 ≤ 1 ∧ 2 * u0 = 2 ^ 64 * (u0 ≫ 63) + u64 (u0 ≪ 1)) as [Hc E0].
  { rewrite Z.shiftl_mul_pow2, Z.shiftr_div_pow2 by lia. unfold u64.
    pose proof (Z.div_mod u0 (2 ^ 63) ltac:(lia)). pose proof (Z.mod_pos_bound u0 (2 ^ 63) ltac:(lia)).
    split; [split; [apply Z.div_pos; lia|apply Z.lt_succ_r, Z.div_lt_upper_bound; lia]|].
    rewrite <- (Z.mod_unique_pos (u0 * 2 ^ 1) (2 ^ 64) (u0 `div` 2 ^ 63) (2 * (u0 `mod` 2 ^ 63))); lia. }
  assert (Z.lor (u64 (u1 ≪ 1)) (u0 ≫ 63) = (2 * u1 + u0 ≫ 63) `mod` 2 ^ 64) as E1.
  { rewrite Z.shiftl_mul_pow2 by lia. unfold u64. change (2 ^ 1) with 2.
    pose proof (Z.div_mod u1 (2 ^ 63) ltac:(lia)). pose proof (Z.mod_pos_bound u1 (2 ^ 63) ltac:(lia)).
    replace ((u1 * 2) `mod` 2 ^ 64) with ((u1 `mod` 2 ^ 63) ≪ 1).
    2: { rewrite Z.shiftl_mul_pow2 by lia. apply Z.mod_unique_pos with (q := u1 `div` 2 ^ 63); lia. }
    rewrite lor_shiftl_add by lia. apply Z.mod_unique_pos with (q := u1 `div` 2 ^ 63); lia. }
  rewrite le_load_app, length_le_store, !le_load_store by auto with vtls. change (8 * Z.of_nat 8) with 64.
  assert (0 ≤ u64 (u0 ≪ 1) < 2 ^ 64) as Hu by (apply Z.mod_pos_bound; lia).
  pose proof (lxor_bound 64 (u64 (u0 ≪ 1)) res ltac:(lia) Hu Hres) as Hx.
  rewrite E1, Z.mod_mod, (Z.mod_small (Z.lxor _ _)) by lia. unfold gf_double. rewrite <- Er.
  assert ((2 * v) `mod` 2 ^ 128 = u64 (u0 ≪ 1) + 2 ^ 64 * ((2 * u1 + u0 ≫ 63) `mod` 2 ^ 64)) as Ev.
  { pose proof (Z.div_mod (2 * u1 + u0 ≫ 63) (2 ^ 64) ltac:(lia)).
    pose proof (Z.mod_pos_bound (2 * u1 + u0 ≫ 63) (2 ^ 64) ltac:(lia)).
    symmetry. apply Z.mod_unique_pos with (q := (2 * u1 + u0 ≫ 63) `div` 2 ^ 64); lia. }
  rewrite Ev. symmetry. apply lxor_low; lia.
Qed.

Lemma block_xts_double le T : block T → block (xts_double le T).
Proof. intros. destruct le; [by apply double_words_spec|by apply double_bytes_spec]. Qed.

(** ** Specification on blocks *)

Definition xex (f : list Z → list Z) (T b : list Z) : list Z := xor_bytes (f (xor_bytes b T)) T.

Section blocks.
Context (f : list Z → list Z) `{!BlockFn f} (le : bool).

(** Block [j] under the [j]-fold doubled tweak. *)
Fixpoint xexs (T : list Z) (bs : list (list Z)) : list (list Z) :=
  match bs with
  | [] => []
  | b :: bs => xex f T b :: xexs (xts_double le T) bs
  end.

(** The tweak after [n] blocks. *)
Definition tweak_at (T : list Z) (n : nat) : list Z := Nat.iter n (xts_double le) T.

Lemma tweak_at_S T n : tweak_at T (S n) = tweak_at (xts_double le T) n.
Proof. unfold tweak_at. induction n as [|n IH]; [done|]. cbn in *. by rewrite IH. Qed.

Lemma block_tweak_at T n : block T → block (tweak_at T n).
Proof. intros HT. induction n as [|n IH]; [done|]. by apply block_xts_double. Qed.

Lemma block_xex T b : block T → block b → block (xex f T b).
Proof. intros. unfold xex. auto with vtls. Qed.

Lemma blocks_xexs T bs : block T → Forall block bs → Forall block (xexs T bs).
Proof.
  intros HT Hbs. revert T HT. induction Hbs; intros T HT; cbn; constructor.
  - by apply block_xex.
  - by apply IHHbs, block_xts_double.
Qed.

Lemma length_xexs T bs : length (xexs T bs) = length bs.
Proof. revert T. induction bs; intros T; cbn; auto. Qed.

Lemma xexs_snoc T bs b : xexs T (bs ++ [b]) = xexs T bs ++ [xex f (tweak_at T (length bs)) b].
Proof.
  revert T. induction bs as [|c bs IH]; intros T; cbn [app xexs length]; [done|]. by rewrite IH, tweak_at_S.
Qed.

Lemma xor_words_xex b T : block b → block T → xor_words (f (xor_words b T)) T = xex f T b.
Proof. intros Hb HT. unfold xex. rewrite (xor_words_bytes b T) by done. apply xor_words_bytes; auto with vtls. Qed.

Lemma last_cons_default {A} (x : A) l d : List.last (x :: l) d = List.last l x.
Proof.
  revert x d. induction l as [|y l IH]; intros x d; [done|].
  change (List.last (y :: l) d = List.last (y :: l) x). by rewrite !IH.
Qed.

(** The loop on whole blocks followed by a rest of [r] bytes. *)
Lemma xts_loop_rest bs rest r : (0 < r < 16)%nat → Forall block bs → ∀ fuel T s, block T →
  (length bs < fuel)%nat →
  xts_loop f le fuel (concat bs ++ rest) (16 * length bs + r) T s =
  (concat (xexs T bs), false, rest, r, tweak_at T (length bs), List.last (xexs T bs) s).
Proof.
  intros Hr. induction 1 as [|b bs Hb Hbs IH]; intros fuel T s HT Hf;
    (destruct fuel as [|fuel]; [lia|]); cbn [xts_loop length concat xexs] in *.
  { rewrite (proj2 (Nat.leb_gt _ _)) by lia. done. }
  rewrite (proj2 (Nat.leb_le _ _)) by lia. pose proof (block_length b Hb).
  rewrite <- app_assoc, take_app_exact, drop_app_exact, xor_words_xex by done.
  replace (16 * S (length bs) + r - 16)%nat with (16 * length bs + r)%nat by lia.
  rewrite (proj2 (Nat.eqb_neq _ 0)) by lia. rewrite IH by (by apply block_xts_double || lia).
  rewrite tweak_at_S. f_equal. symmetry. apply last_cons_default.
Qed.

Lemma xts_loop_whole bs rest : Forall block bs → bs ≠ [] → ∀ fuel T s, block T →
  (length bs ≤ fuel)%nat →
  ∃ inp' len' T' s', xts_loop f le fuel (concat bs ++ rest) (16 * length bs) T s =
    (concat (xexs T bs), true, inp', len', T', s').
Proof.
  induction 1 as [|b bs Hb Hbs IH]; intros Hne fuel T s HT Hf; [done|].
  destruct fuel as [|fuel]; [cbn in Hf; lia|]. cbn [xts_loop length concat xexs] in *.
  rewrite (proj2 (Nat.leb_le _ _)) by lia. pose proof (block_length b Hb).
  rewrite <- app_assoc, take_app_exact, drop_app_exact, xor_words_xex by done.
  replace (16 * S (length bs) - 16)%nat with (16 * length bs)%nat by lia.
  destruct (Nat.eqb_spec (16 * length bs) 0).
  { assert (length bs = 0)%nat as ->%length_zero_iff_nil by lia. cbn. rewrite app_nil_r. by do 4 eexists. }
  destruct (IH ltac:(by intros ->) fuel (xts_double le T) (xex f T b) ltac:(by apply block_xts_double) ltac:(lia))
    as (? & ? & ? & ? & ->). by do 4 eexists.
Qed.
End blocks.

Section roundtrip.
Context (enc dec : list Z → list Z) `{!BlockInverse enc dec} (blk2 : list Z → list Z) `{!BlockFn blk2}.
Context (le : bool).

Lemma xex_inverse T b : block T → block b → xex dec T (xex enc T b) = b.
Proof.
  intros HT Hb. unfold xex. rewrite xor_block_cancel by auto with vtls.
  rewrite (dec_enc (enc := enc) (dec := dec)) by auto with vtls. by apply xor_block_cancel.
Qed.

Lemma xexs_inverse T bs : block T → Forall block bs → xexs dec le T (xexs enc le T bs) = bs.
Proof.
  intros HT Hbs. revert T HT. induction Hbs as [|b bs Hb Hbs IH]; intros T HT; cbn; [done|].
  by rewrite xex_inverse, IH by (done || by apply block_xts_double).
Qed.

(** The ciphertext of whole blocks [bs], a last whole block [pl] and a rest. *)
Definition xts_steal (T : list Z) (bs : list (list Z)) (pl r : list Z) : list Z :=
  let cc := xex enc (tweak_at le T (length bs)) pl in
  concat (xexs enc le T bs) ++ xex enc (tweak_at le T (S (length bs))) (r ++ drop (length r) cc)
    ++ take (length r) cc.

Lemma block_join r cc : bytes r → (length r < 16)%nat → block cc → block (r ++ drop (length r) cc).
Proof. intros ? ? [? ?]. split; [auto with vtls|len]. Qed.

Lemma xts_encrypt_steal iv bs pl r rest : block iv → Forall block bs → block pl → bytes r →
  (0 < length r < 16)%nat →
  CRYPTO_xts128_encrypt enc blk2 le iv (concat bs ++ pl ++ r ++ rest) (16 * length bs + 16 + length r) true =
  (0, xts_steal (blk2 iv) bs pl r).
Proof.
  intros Hiv Hbs Hpl Hr Hlr. unfold CRYPTO_xts128_encrypt. cbn [negb andb].
  rewrite (proj2 (Nat.ltb_ge _ _)), (take_ge iv) by (lia || destruct Hiv; lia).
  assert (block (blk2 iv)) as HT by auto with vtls. set (T := blk2 iv) in *.
  assert (Forall block (bs ++ [pl])) as Hall by (apply Forall_app; split; [done|by apply blocks_1]).
  pose proof (xts_loop_rest enc le (bs ++ [pl]) (r ++ rest) (length r) ltac:(lia) Hall
    (16 * length bs + 16 + length r) T (replicate 16 0) HT ltac:(rewrite length_app; cbn; lia)) as E.
  rewrite concat_app, length_app in E. cbn [concat length] in E. rewrite app_nil_r, <- app_assoc in E.
  replace (16 * (length bs + 1) + length r)%nat with (16 * length bs + 16 + length r)%nat in E by lia.
  rewrite E, xexs_snoc, last_last, concat_app. cbn [concat]. rewrite app_nil_r.
  set (cc := xex enc (tweak_at le T (length bs)) pl).
  assert (block cc) as Hcc by (apply block_xex; [apply _|by apply block_tweak_at|done]).
  rewrite take_app_length, Nat.add_1_r, (xor_words_xex enc) by
    (apply block_join || apply block_tweak_at; done || lia).
  unfold xts_steal. fold cc. f_equal.
  pose proof (block_length cc Hcc) as H.
  replace (length (concat (xexs enc le T bs) ++ cc) - 16)%nat with (length (concat (xexs enc le T bs))) by len.
  rewrite <- (app_nil_r cc) at 1. rewrite splice_app, app_nil_r, <- app_assoc; [done|].
  rewrite H. symmetry. apply block_length, block_xex; [apply _|by apply block_tweak_at|].
  apply block_join; done || lia.
Qed.

Lemma xts_decrypt_steal iv bs pl r : block iv → Forall block bs → block pl → bytes r →
  (0 < length r < 16)%nat →
  CRYPTO_xts128_encrypt dec blk2 le iv (xts_steal (blk2 iv) bs pl r) (16 * length bs + 16 + length r) false =
  (0, concat bs ++ pl ++ r).
Proof.
  intros Hiv Hbs Hpl Hr Hlr. unfold CRYPTO_xts128_encrypt. cbn [negb andb].
  rewrite (proj2 (Nat.ltb_ge _ _)), (take_ge iv) by (lia || destruct Hiv; lia).
  assert ((16 * length bs + 16 + length r) mod 16 = length r)%nat as ->.
  { replace (16 * length bs + 16 + length r)%nat with (length r + (length bs + 1) * 16)%nat by lia.
    rewrite Nat.Div0.mod_add. apply Nat.mod_small. lia. }
  rewrite (proj2 (Nat.eqb_neq _ 0)) by lia. cbn [negb].
  replace (16 * length bs + 16 + length r - 16)%nat with (16 * length bs + length r)%nat by lia.
  assert (block (blk2 iv)) as HT by auto with vtls. set (T := blk2 iv) in *. unfold xts_steal.
  set (cc := xex enc (tweak_at le T (length bs)) pl).
  assert (block (tweak_at le T (length bs))) as HT0 by (by apply block_tweak_at).
  assert (block (tweak_at le T (S (length bs)))) as HT1 by (by apply block_tweak_at).
  assert (block cc) as Hcc by (apply block_xex; [apply _|done|done]). pose proof (block_length cc Hcc).
  assert (block (r ++ drop (length r) cc)) as Hj by (apply block_join; done || lia).
  set (cm := xex enc (tweak_at le T (S (length bs))) (r ++ drop (length r) cc)).
  assert (block cm) as Hcm by (apply block_xex; [apply _|done|done]). pose proof (block_length cm Hcm).
  pose proof (xts_loop_rest dec le (xexs enc le T bs) (cm ++ take (length r) cc) (length r) ltac:(lia)
    ltac:(by apply (blocks_xexs enc)) (16 * length bs + length r) T (replicate 16 0) HT
    ltac:(rewrite length_xexs; lia)) as E.
  rewrite length_xexs in E. rewrite E, xexs_inverse by done.
  change (xts_double le (tweak_at le T (length bs))) with (tweak_at le T (S (length bs))).
  rewrite (take_app_exact cm), (drop_app_exact cm) by done.
  rewrite (xor_words_xex dec cm) by done. unfold cm. rewrite xex_inverse by done.
  rewrite take_app_length, drop_app_length, (take_ge (take _ _)), take_drop by len.
  rewrite (xor_words_xex dec) by done. unfold cc. by rewrite xex_inverse.
Qed.
End roundtrip.

(** the tweak update is multiplication by x in GF(2^128) with the XTS
    reduction, in both byte orders. *)
Theorem xts_double_spec le T : block T →
  block (xts_double le T) ∧ le_load (xts_double le T) = gf_double (le_load T).
Proof. intros. destruct le; [by apply double_words_spec|by apply double_bytes_spec]. Qed.

Lemma xts_double_spec_witness :
  block (xts_double true (replicate 16 200)) ∧
  le_load (xts_double true (replicate 16 200)) = gf_double (le_load (replicate 16 200)).
Proof. apply xts_double_spec. apply (bool_decide_unpack _); vm_compute; reflexivity. Defined.

(** XTS decryption undoes encryption for every message of at least a block,
    with ciphertext stealing when the length is no multiple of 16; shorter
    messages are refused. *)
Theorem xts128_roundtrip enc dec `{!BlockInverse enc dec} blk2 `{!BlockFn blk2} le iv msg rest :
  block iv → bytes msg → (16 ≤ length msg)%nat →
  ∃ ct, CRYPTO_xts128_encrypt enc blk2 le iv (msg ++ rest) (length msg) true = (0, ct) ∧
        CRYPTO_xts128_encrypt dec blk2 le iv ct (length msg) false = (0, msg).
Proof.
  intros Hiv Hm Hlen. destruct (split_blocks msg Hm) as (bs0 & r & -> & Hbs0 & Hr & Hlr).
  rewrite length_app, length_concat_blocks in * by done.
  destruct (decide (length r = 0)%nat) as [->%length_zero_iff_nil|Hr0].
  - rewrite app_nil_r. cbn [length] in *. rewrite Nat.add_0_r in *.
    assert (block (blk2 iv)) as HT by auto with vtls.
    assert (bs0 ≠ []) as Hne by (intros ->; cbn in Hlen; lia).
    exists (concat (xexs enc le (blk2 iv) bs0)). unfold CRYPTO_xts128_encrypt.
    rewrite (proj2 (Nat.ltb_ge _ _)), (take_ge iv) by (lia || destruct Hiv; lia).
    rewrite (Nat.mul_comm 16), Nat.Div0.mod_mul, (Nat.mul_comm _ 16). cbn [negb andb Nat.eqb].
    destruct (xts_loop_whole enc le bs0 rest Hbs0 Hne (16 * length bs0) (blk2 iv) (replicate 16 0) HT ltac:(lia))
      as (? & ? & ? & ? & ->). split; [done|].
    destruct (xts_loop_whole dec le (xexs enc le (blk2 iv) bs0) [] ltac:(by apply (blocks_xexs enc))
      ltac:(by destruct bs0) (16 * length bs0) (blk2 iv) (replicate 16 0) HT ltac:(rewrite length_xexs; lia))
      as (? & ? & ? & ? & E). rewrite length_xexs, app_nil_r in E.
    rewrite E. by rewrite (xexs_inverse enc dec).
  - destruct bs0 as [|pl bs _] using rev_ind; [cbn in *; lia|].
    apply Forall_app in Hbs0 as [Hbs Hpl]. apply Forall_cons_1 in Hpl as [Hpl _].
    rewrite concat_app, length_app. cbn [concat length]. rewrite app_nil_r, <- !app_assoc.
    replace (16 * (length bs + 1) + length r)%nat with (16 * length bs + 16 + length r)%nat by lia.
    exists (xts_steal enc le (blk2 iv) bs pl r). split.
    + apply (xts_encrypt_steal enc dec); done || lia.
    + apply (xts_decrypt_steal enc dec); done || lia.
Qed.

Lemma xts128_roundtrip_witness :
  ∃ ct, CRYPTO_xts128_encrypt toy_encrypt toy_encrypt true (replicate 16 9) (replicate 37 3 ++ []) 37 true = (0, ct) ∧
        CRYPTO_xts128_encrypt toy_decrypt toy_encrypt true (replicate 16 9) ct 37 false = (0, replicate 37 3).
Proof.
  apply (xts128_roundtrip toy_encrypt toy_decrypt toy_encrypt true (replicate 16 9) (replicate 37 3) []);
    apply (bool_decide_unpack _); vm_compute; reflexivity.
Defined.
