(* ===== verification/Ccm.v ===== *)
(** * CCM mode

    Models [crypto/modes/ccm128.c]: the set-up of the context, the additional
    data, encryption and decryption on a block function and on a stream function
    ([ccm128_f]), and the tag.  The block function and its key are parameters of
    the operations instead of fields of the context.

    The abstract specification is the CBC-MAC of the formatted input and the
    counter key stream; decryption is shown to return the message and recompute
    the tag of encryption. *)

From S2P Require Import Prelude Block.
#[local] Arguments Nat.modulo : simpl never.
#[local] Arguments Nat.div : simpl never.
#[local] Arguments Nat.leb : simpl never.

Record CCM128_CONTEXT := Ctx { nonce : list Z; cmac : list Z; blocks : Z }.

(** [cmac0] is the uninitialised [cmac] field. *)
Definition CRYPTO_ccm128_init (cmac0 : list Z) (M L : Z) : CCM128_CONTEXT :=
  let flags := Z.lor (Z.land (u8 (u32 (L - 1))) 7) (u8 (Z.land (u32 (M - 2) `div` 2) 7) ≪ 3) in
  Ctx (<[0%nat := u8 flags]> (replicate 16 0)) cmac0 0.

Definition put (l : list Z) (i : nat) (v : Z) : list Z := <[i := u8 v]> l.

(** The return value and the context. *)
Definition CRYPTO_ccm128_setiv (ctx : CCM128_CONTEXT) (nonce_in : list Z) (nlen mlen : Z)
  : Z * CCM128_CONTEXT :=
  let n := nonce ctx in
  let L := Z.land (nthZ n 0) 7 in
  if nlen <? 14 - L then (-1, ctx)
  else
    let n :=
      if 3 <=? L then put (put (put (put n 8 (mlen ≫ 56)) 9 (mlen ≫ 48)) 10 (mlen ≫ 40)) 11 (mlen ≫ 32)
      else splice n 8 (replicate 8 0) in
    let n := put (put (put (put n 12 (mlen ≫ 24)) 13 (mlen ≫ 16)) 14 (mlen ≫ 8)) 15 mlen in
    let n := put n 0 (Z.land (nthZ n 0) (Z.lnot 0x40)) in
    let n := splice n 1 (take (Z.to_nat (14 - L)) nonce_in) in
    (0, Ctx n (cmac ctx) (blocks ctx)).

Section ccm.
Context (blk : list Z → list Z).

(** The encoding of the length of the additional data. *)
Definition aad_prefix (alen : Z) : list Z :=
  if alen <? 0x10000 - 0x100 then be_store 2 alen
  else if 2 ^ 32 <=? alen then [0xFF; 0xFF] ++ be_store 8 alen
  else [0xFF; 0xFE] ++ be_store 4 alen.

(** The [do ... while (alen)] loop: [i] is the position in [cmac]. *)
Fixpoint aad_loop (fuel : nat) (c : list Z) (blocks : Z) (i : nat) (aad : list Z) : list Z * Z :=
  match fuel with
  | O => (c, blocks)
  | S fuel =>
      let n := (16 - i)%nat in
      let c := blk (xor_at c i (take n aad)) in
      let blocks := u64 (blocks + 1) in
      match drop n aad with
      | [] => (c, blocks)
      | aad => aad_loop fuel c blocks 0 aad
      end
  end.

Definition CRYPTO_ccm128_aad (ctx : CCM128_CONTEXT) (aad : list Z) : CCM128_CONTEXT :=
  match aad with
  | [] => ctx
  | _ =>
      let n := <[0%nat := Z.lor (nthZ (nonce ctx) 0) 0x40]> (nonce ctx) in
      let c := blk n in
      let pre := aad_prefix (Z.of_nat (length aad)) in
      let '(c, b) := aad_loop (S (length aad)) (xor_at c 0 pre) (u64 (blocks ctx + 1)) (length pre) aad in
      Ctx n c b
  end.

(** Increments the last 8 bytes; the loop stops at the first byte that does not
    overflow. *)
Fixpoint ctr64_loop (n : nat) (counter : list Z) : list Z :=
  match n with
  | O => counter
  | S n =>
      let c := u8 (nthZ counter (8 + n) + 1) in
      let counter := <[(8 + n)%nat := c]> counter in
      if c =? 0 then ctr64_loop n counter else counter
  end.

Definition ctr64_inc (counter : list Z) : list Z := ctr64_loop 8 counter.
#[global] Arguments ctr64_inc : simpl never.

(** [ctr64_add]: adds [inc] to the last 8 bytes. *)
Fixpoint ctr64_add_loop (n : nat) (val inc : Z) (counter : list Z) : list Z :=
  match n with
  | O => counter
  | S n =>
      let val := val + (nthZ counter (8 + n) + Z.land inc 0xff) in
      let counter := <[(8 + n)%nat := u8 val]> counter in
      let val := val ≫ 8 in
      let inc := inc ≫ 8 in
      if (inc =? 0) && (val =? 0) then counter else ctr64_add_loop n val inc counter
  end.

Definition ctr64_add (counter : list Z) (inc : Z) : list Z := ctr64_add_loop 8 0 inc counter.

(** Reads the length back from the nonce block and puts the counter 1 in its
    place: [for (n = 0, i = 15 - L; i < 15; ++i) ...]. *)
Definition reconstruct_len (L : nat) (n : list Z) : Z * list Z :=
  let v := fold_left (λ v x, u64 (Z.lor v x ≪ 8)) (take L (drop (15 - L) n)) 0 in
  (Z.lor v (nthZ n 15), take (15 - L) n ++ replicate L 0 ++ [1]).

(** The end of all four functions: the tag is masked with the key stream of
    counter 0 and the flags are restored. *)
Definition ccm_finish (n c : list Z) (b : Z) (L : nat) (flags0 : Z) : CCM128_CONTEXT :=
  let n := take (15 - L) n ++ replicate (L + 1) 0 in
  let c := xor_words c (blk n) in
  Ctx (<[0%nat := flags0]> n) c b.

(** [while (len >= 16)] of encryption and decryption: output, input left, nonce
    and [cmac]. *)
Fixpoint enc_loop (fuel : nat) (inp n c : list Z) : list Z * list Z * list Z * list Z :=
  match fuel with
  | O => ([], inp, n, c)
  | S fuel =>
      if (16 <=? length inp)%nat then
        let x := take 16 inp in
        let c := blk (xor_words c x) in
        let scratch := blk n in
        let n := ctr64_inc n in
        let '(out, rest, n, c) := enc_loop fuel (drop 16 inp) n c in
        (xor_words scratch x ++ out, rest, n, c)
      else ([], inp, n, c)
  end.

Fixpoint dec_loop (fuel : nat) (inp n c : list Z) : list Z * list Z * list Z * list Z :=
  match fuel with
  | O => ([], inp, n, c)
  | S fuel =>
      if (16 <=? length inp)%nat then
        let scratch := blk n in
        let n := ctr64_inc n in
        let o := xor_words scratch (take 16 inp) in
        let c := blk (xor_words c o) in
        let '(out, rest, n, c) := dec_loop fuel (drop 16 inp) n c in
        (o ++ out, rest, n, c)
      else ([], inp, n, c)
  end.

(** The partial last block. *)
Definition enc_last (inp n c : list Z) : list Z * list Z :=
  match inp with
  | [] => ([], c)
  | _ =>
      let c := blk (xor_at c 0 inp) in
      (xor_bytes (take (length inp) (blk n)) inp, c)
  end.

Definition dec_last (inp n c : list Z) : list Z * list Z :=
  match inp with
  | [] => ([], c)
  | _ =>
      let o := xor_bytes (take (length inp) (blk n)) inp in
      (o, blk (xor_at c 0 o))
  end.

(** Return value, bytes written at [out] and context. *)
Definition CRYPTO_ccm128_encrypt (ctx : CCM128_CONTEXT) (inp : list Z) : Z * list Z * CCM128_CONTEXT :=
  let flags0 := nthZ (nonce ctx) 0 in
  let '(c, b) := if Z.land flags0 0x40 =? 0 then (blk (nonce ctx), u64 (blocks ctx + 1)) else (cmac ctx, blocks ctx) in
  let L := Z.land flags0 7 in
  let n := <[0%nat := L]> (nonce ctx) in
  let '(len, n) := reconstruct_len (Z.to_nat L) n in
  if negb (len =? Z.of_nat (length inp)) then (-1, [], Ctx n c b)
  else
    let b := u64 (b + Z.lor (u64 (Z.of_nat (length inp) + 15) ≫ 3) 1) in
    if 2 ^ 61 <? b then (-2, [], Ctx n c b)
    else
      let '(out, rest, n, c) := enc_loop (length inp) inp n c in
      let '(out', c) := enc_last rest n c in
      (0, out ++ out', ccm_finish n c b (Z.to_nat L) flags0).

Definition CRYPTO_ccm128_decrypt (ctx : CCM128_CONTEXT) (inp : list Z) : Z * list Z * CCM128_CONTEXT :=
  let flags0 := nthZ (nonce ctx) 0 in
  let c := if Z.land flags0 0x40 =? 0 then blk (nonce ctx) else cmac ctx in
  let L := Z.land flags0 7 in
  let n := <[0%nat := L]> (nonce ctx) in
  let '(len, n) := reconstruct_len (Z.to_nat L) n in
  if negb (len =? Z.of_nat (length inp)) then (-1, [], Ctx n c (blocks ctx))
  else
    let '(out, rest, n, c) := dec_loop (length inp) inp n c in
    let '(out', c) := dec_last rest n c in
    (0, out ++ out', ccm_finish n c (blocks ctx) (Z.to_nat L) flags0).

(** [stream inp blocks nonce cmac] is what a stream function writes at [out] and
    the new [cmac]; it does not change the nonce. *)
Context (stream : list Z → nat → list Z → list Z → list Z * list Z).

(** The whole blocks through the stream function. *)
Definition ccm64_blocks (inp n c : list Z) : list Z * list Z * list Z * list Z :=
  let k := (length inp / 16)%nat in
  if (k =? 0)%nat then ([], inp, n, c)
  else
    let '(out, c) := stream inp k n c in
    let rest := drop (16 * k) inp in
    let n := match rest with [] => n | _ => ctr64_add n (Z.of_nat k) end in
    (out, rest, n, c).

Definition CRYPTO_ccm128_encrypt_ccm64 (ctx : CCM128_CONTEXT) (inp : list Z) : Z * list Z * CCM128_CONTEXT :=
  let flags0 := nthZ (nonce ctx) 0 in
  let '(c, b) := if Z.land flags0 0x40 =? 0 then (blk (nonce ctx), u64 (blocks ctx + 1)) else (cmac ctx, blocks ctx) in
  let L := Z.land flags0 7 in
  let n := <[0%nat := L]> (nonce ctx) in
  let '(len, n) := reconstruct_len (Z.to_nat L) n in
  if negb (len =? Z.of_nat (length inp)) then (-1, [], Ctx n c b)
  else
    let b := u64 (b + Z.lor (u64 (Z.of_nat (length inp) + 15) ≫ 3) 1) in
    if 2 ^ 61 <? b then (-2, [], Ctx n c b)
    else
      let '(out, rest, n, c) := ccm64_blocks inp n c in
      let '(out', c) := enc_last rest n c in
      (0, out ++ out', ccm_finish n c b (Z.to_nat L) flags0).

Definition CRYPTO_ccm128_decrypt_ccm64 (ctx : CCM128_CONTEXT) (inp : list Z) : Z * list Z * CCM128_CONTEXT :=
  let flags0 := nthZ (nonce ctx) 0 in
  let c := if Z.land flags0 0x40 =? 0 then blk (nonce ctx) else cmac ctx in
  let L := Z.land flags0 7 in
  let n := <[0%nat := L]> (nonce ctx) in
  let '(len, n) := reconstruct_len (Z.to_nat L) n in
  if negb (len =? Z.of_nat (length inp)) then (-1, [], Ctx n c (blocks ctx))
  else
    let '(out, rest, n, c) := ccm64_blocks inp n c in
    let '(out', c) := dec_last rest n c in
    (0, out ++ out', ccm_finish n c (blocks ctx) (Z.to_nat L) flags0).
End ccm.

(** The tag and its length; [None] when the buffer is too short. *)
Definition CRYPTO_ccm128_tag (ctx : CCM128_CONTEXT) (len : Z) : option (list Z) :=
  let M := Z.land (nthZ (nonce ctx) 0 ≫ 3) 7 * 2 + 2 in
  if len <? M then None else Some (take (Z.to_nat M) (cmac ctx)).

(** ** Specification of the loops *)

Section spec.
Context (blk : list Z → list Z) `{!BlockFn blk}.

(** CBC-MAC. *)
Definition mac (c : list Z) (bs : list (list Z)) : list Z := fold_left (λ c b, blk (xor_bytes c b)) bs c.

(** Blocks exclusive-ored with the key stream that starts at counter block [n]. *)
Fixpoint ctr_out (n : list Z) (bs : list (list Z)) {struct bs} : list (list Z) :=
  match bs with
  | [] => []
  | b :: bs => xor_bytes (blk n) b :: ctr_out (ctr64_inc n) bs
  end.

Lemma ctr64_loop_block k : (k ≤ 8)%nat → ∀ n, block n → block (ctr64_loop k n).
Proof.
  induction k as [|k IH]; intros Hk n Hn; [done|]. cbn [ctr64_loop].
  assert (block (<[(8 + k)%nat := u8 (nthZ n (8 + k) + 1)]> n)) as Hb.
  { destruct Hn. split; [apply Forall_insert; auto with vtls|len]. }
  case_match; [apply IH; [lia|done]|done].
Qed.

Lemma block_ctr64_inc n : block n → block (ctr64_inc n).
Proof. apply ctr64_loop_block. lia. Qed.

Lemma block_iter_inc k n : block n → block (Nat.iter k ctr64_inc n).
Proof. intros. induction k; [done|]. by apply block_ctr64_inc. Qed.

Lemma block_mac c bs : block c → Forall block bs → block (mac c bs).
Proof.
  intros Hc Hbs. revert c Hc. induction Hbs; intros c Hc; [done|]. cbn. apply IHHbs. auto with vtls.
Qed.

Lemma blocks_ctr_out n bs : block n → Forall block bs → Forall block (ctr_out n bs).
Proof.
  intros Hn Hbs. revert n Hn. induction Hbs; intros n Hn; cbn; constructor; auto with vtls.
  by apply IHHbs, block_ctr64_inc.
Qed.

Lemma length_ctr_out n bs : length (ctr_out n bs) = length bs.
Proof. revert n. induction bs; intros n; cbn; auto. Qed.

Lemma ctr_out_involutive n bs : block n → Forall block bs → ctr_out n (ctr_out n bs) = bs.
Proof.
  intros Hn Hbs. revert n Hn. induction Hbs as [|b bs Hb Hbs IH]; intros n Hn; cbn; [done|].
  rewrite IH by (by apply block_ctr64_inc). f_equal. assert (block (blk n)) as [_ ?] by auto with vtls.
  destruct Hb. apply xor_bytes_cancel_l. lia.
Qed.

Lemma enc_loop_spec bs r : Forall block bs → (length r < 16)%nat → ∀ fuel n c, block n → block c →
  (length bs ≤ fuel)%nat →
  enc_loop blk fuel (concat bs ++ r) n c =
  (concat (ctr_out n bs), r, Nat.iter (length bs) ctr64_inc n, mac c bs).
Proof.
  intros Hbs Hr. induction Hbs as [|b bs Hb Hbs IH]; intros fuel n c Hn Hc Hf; cbn [concat app length] in *.
  { destruct fuel; cbn [enc_loop]; [done|]. by rewrite (proj2 (Nat.leb_gt _ _)) by lia. }
  destruct fuel as [|fuel]; [lia|]. cbn [enc_loop]. rewrite <- app_assoc.
  pose proof (block_length b Hb) as Hl.
  rewrite (proj2 (Nat.leb_le _ _)) by (rewrite length_app; lia).
  rewrite take_app_exact, drop_app_exact by done. rewrite !xor_words_bytes by auto with vtls.
  rewrite IH by (auto using block_ctr64_inc with vtls || lia). cbn [ctr_out concat]. rewrite Nat.iter_succ_r. done.
Qed.

Lemma dec_loop_spec cs r : Forall block cs → (length r < 16)%nat → ∀ fuel n c, block n → block c →
  (length cs ≤ fuel)%nat →
  dec_loop blk fuel (concat cs ++ r) n c =
  (concat (ctr_out n cs), r, Nat.iter (length cs) ctr64_inc n, mac c (ctr_out n cs)).
Proof.
  intros Hbs Hr. induction Hbs as [|b bs Hb Hbs IH]; intros fuel n c Hn Hc Hf; cbn [concat app length] in *.
  { destruct fuel; cbn [dec_loop]; [done|]. by rewrite (proj2 (Nat.leb_gt _ _)) by lia. }
  destruct fuel as [|fuel]; [lia|]. cbn [dec_loop]. rewrite <- app_assoc.
  pose proof (block_length b Hb) as Hl.
  rewrite (proj2 (Nat.leb_le _ _)) by (rewrite length_app; lia).
  rewrite take_app_exact, drop_app_exact by done. rewrite (xor_words_bytes (blk n)), (xor_words_bytes c) by auto 10 with vtls.
  rewrite IH by (auto 10 using block_ctr64_inc with vtls || lia). cbn [ctr_out concat]. rewrite Nat.iter_succ_r. done.
Qed.

Lemma dec_last_inverse r n c : (length r < 16)%nat → block n →
  let '(o, c') := enc_last blk r n c in dec_last blk o n c = (r, c').
Proof.
  intros Hr Hn. assert (block (blk n)) as [_ Hl] by auto with vtls.
  assert (∀ r, (length r < 16)%nat → xor_bytes (take (length r) (blk n)) (xor_bytes (take (length r) (blk n)) r) = r) as Hx.
  { intros r' Hr'. apply xor_bytes_cancel_l. len. }
  destruct r as [|x r]; [done|]. cbn [enc_last]. set (l := x :: r) in *.
  assert (length (xor_bytes (take (length l) (blk n)) l) = length l) as Ho by len.
  unfold dec_last. rewrite Ho, Hx by done.
  destruct (xor_bytes (take (length l) (blk n)) l) eqn:E; [done|done].
Qed.

Lemma length_enc_last r n c : (length r < 16)%nat → block n →
  length (enc_last blk r n c).1 = length r.
Proof.
  intros Hr Hn. assert (block (blk n)) as [_ Hl] by auto with vtls. destruct r; [done|]. cbn [enc_last fst]. len.
Qed.
End spec.

Lemma land7_bound b : is_byte b → 0 ≤ Z.land b 7 < 8.
Proof. intros [Hb _]. change 7 with (Z.ones 3). rewrite Z.land_ones by lia. apply Z.mod_pos_bound. lia. Qed.

Lemma reconstruct_block L n : block n → (L ≤ 7)%nat → block (reconstruct_len L n).2.
Proof.
  intros [Hb Hl] HL. cbn. split; [|len]. apply bytes_app; [auto with vtls|].
  apply bytes_app; [auto with vtls|]. repeat constructor; lia.
Qed.

(** A context whose buffers hold 16 bytes. *)
Definition ctx_ok (ctx : CCM128_CONTEXT) : Prop := block (nonce ctx) ∧ block (cmac ctx).

Lemma start_block ctx : ctx_ok ctx →
  block (reconstruct_len (Z.to_nat (Z.land (nthZ (nonce ctx) 0) 7))
           (<[0%nat := Z.land (nthZ (nonce ctx) 0) 7]> (nonce ctx))).2.
Proof.
  intros [Hn _]. pose proof (land7_bound (nthZ (nonce ctx) 0) ltac:(destruct Hn; auto with vtls)) as HL.
  apply reconstruct_block; [|lia]. destruct Hn as [Hb Hl]. split; [|len].
  apply Forall_insert; [done|]. unfold is_byte. lia.
Qed.

(** whatever the context (any nonce, length field and state of the additional
    data), if encryption succeeds then decrypting the ciphertext in the same
    context succeeds, returns the message and recomputes the same tag. *)
Theorem ccm128_roundtrip blk `{!BlockFn blk} ctx msg ct ctx1 :
  ctx_ok ctx → bytes msg →
  CRYPTO_ccm128_encrypt blk ctx msg = (0, ct, ctx1) →
  ∃ ctx2, CRYPTO_ccm128_decrypt blk ctx ct = (0, msg, ctx2) ∧
          cmac ctx2 = cmac ctx1 ∧ nonce ctx2 = nonce ctx1.
Proof.
  intros Hctx Hm. pose proof (start_block ctx Hctx) as Hn1. destruct Hctx as [Hn Hc].
  unfold CRYPTO_ccm128_encrypt, CRYPTO_ccm128_decrypt.
  set (flags0 := nthZ (nonce ctx) 0) in *.
  destruct (reconstruct_len _ _) as [len n1]. cbn [snd] in Hn1.
  set (c := if Z.land flags0 0x40 =? 0 then blk (nonce ctx) else cmac ctx).
  assert (block c) as Hcb by (unfold c; case_match; auto with vtls).
  assert (∃ b, (if Z.land flags0 0x40 =? 0 then (blk (nonce ctx), u64 (blocks ctx + 1)) else (cmac ctx, blocks ctx))
    = (c, b)) as [b ->] by (unfold c; case_match; eauto).
  destruct (split_blocks msg Hm) as (bs & r & -> & Hbs & Hr & Hlr).
  destruct (Z.eqb_spec len (Z.of_nat (length (concat bs ++ r)))) as [Hlen|]; [|done]. cbn [negb].
  destruct (2 ^ 61 <? _); [done|].
  assert (length (concat bs ++ r) = 16 * length bs + length r)%nat as Hl by (by rewrite length_app, length_concat_blocks).
  rewrite (enc_loop_spec blk) by (done || lia).
  assert (block (Nat.iter (length bs) ctr64_inc n1)) as Hn2 by (by apply block_iter_inc).
  pose proof (dec_last_inverse blk r (Nat.iter (length bs) ctr64_inc n1) (mac blk c bs) Hlr Hn2) as Hd.
  pose proof (length_enc_last blk r (Nat.iter (length bs) ctr64_inc n1) (mac blk c bs) Hlr Hn2) as Ho.
  destruct (enc_last blk r _ _) as [o c']. cbn [fst] in Ho. intros [= <- <-].
  assert (Forall block (ctr_out blk n1 bs)) as Hcs by (by apply blocks_ctr_out).
  rewrite length_app, (length_concat_blocks (ctr_out _ _ _)), length_ctr_out, Ho by done.
  rewrite Hlen, Hl, Z.eqb_refl. cbn [negb].
  rewrite (dec_loop_spec blk) by (done || (rewrite ?length_ctr_out; lia)).
  rewrite length_ctr_out, ctr_out_involutive, Hd by done. by eexists.
Qed.

Lemma ccm128_roundtrip_witness :
  let ctx := (CRYPTO_ccm128_setiv (CRYPTO_ccm128_init (replicate 16 0) 8 2) (replicate 13 7) 13 20).2 in
  ∃ ctx2, CRYPTO_ccm128_decrypt toy_encrypt ctx (CRYPTO_ccm128_encrypt toy_encrypt ctx (replicate 20 3)).1.2
            = (0, replicate 20 3, ctx2) ∧
          cmac ctx2 = cmac (CRYPTO_ccm128_encrypt toy_encrypt ctx (replicate 20 3)).2 ∧
          nonce ctx2 = nonce (CRYPTO_ccm128_encrypt toy_encrypt ctx (replicate 20 3)).2.
Proof.
  set (ctx := (CRYPTO_ccm128_setiv (CRYPTO_ccm128_init (replicate 16 0) 8 2) (replicate 13 7) 13 20).2).
  apply (ccm128_roundtrip toy_encrypt ctx (replicate 20 3)
    (CRYPTO_ccm128_encrypt toy_encrypt ctx (replicate 20 3)).1.2 (CRYPTO_ccm128_encrypt toy_encrypt ctx (replicate 20 3)).2).
  - split; apply (bool_decide_unpack _); vm_compute; reflexivity.
  - apply (bool_decide_unpack _); vm_compute; reflexivity.
  - vm_compute. reflexivity.
Defined.

(** ** The 64-bit counter *)

Lemma insert_high (h m : list Z) k v : length h = 8%nat → <[(8 + k)%nat := v]> (h ++ m) = h ++ <[k := v]> m.
Proof. intros <-. apply insert_app_r. Qed.

Lemma nthZ_high (h m : list Z) k : length h = 8%nat → nthZ (h ++ m) (8 + k) = nthZ m k.
Proof. intros Hh. unfold nthZ. rewrite app_nth2 by lia. f_equal. lia. Qed.

Lemma carry_arith v x c k : 0 ≤ k →
  (((v + (x + c) `div` 256) `mod` 2 ^ (8 * k)) * 256 + (x + c) `mod` 256) = (v * 256 + x + c) `mod` 2 ^ (8 * (k + 1)).
Proof.
  intros Hk. replace (8 * (k + 1)) with (8 + 8 * k) by lia. rewrite Z.pow_add_r by lia. change (2 ^ 8) with 256.
  assert (0 < 2 ^ (8 * k)) by (apply Z.pow_pos_nonneg; lia).
  rewrite (Z.rem_mul_r (v * 256 + x + c) 256) by lia.
  replace (v * 256 + x + c) with (x + c + v * 256) by lia.
  rewrite Z.mod_add, Z.div_add by lia. rewrite (Z.add_comm v). lia.
Qed.

Lemma ctr64_loop_spec h k : length h = 8%nat → ∀ m, bytes m → (k ≤ length m)%nat →
  ∃ m', ctr64_loop k (h ++ m) = h ++ m' ∧ bytes m' ∧ length m' = length m ∧ drop k m' = drop k m ∧
        be_load (take k m') = (be_load (take k m) + 1) `mod` 2 ^ (8 * Z.of_nat k).
Proof.
  intros Hh. induction k as [|k IH]; intros m Hm Hk.
  { exists m. by repeat split. }
  cbn [ctr64_loop]. rewrite nthZ_high, insert_high by done.
  set (y := u8 (nthZ m k + 1)). assert (is_byte y) as Hy by (unfold y; auto with vtls).
  assert (bytes (<[k := y]> m)) as Hm1 by (by apply Forall_insert).
  pose proof (nthZ_byte m k Hm) as Hx. unfold is_byte in Hx.
  replace (8 * Z.of_nat (S k)) with (8 * (Z.of_nat k + 1)) by lia.
  destruct (Z.eqb_spec y 0) as [Hy0|Hy0].
  - destruct (IH (<[k := y]> m) Hm1 ltac:(len)) as (m' & -> & Hb & Hl & D & V). exists m'.
    rewrite length_insert in Hl.
    destruct (be_counter_step m m' k y Hm Hb Hl ltac:(lia) Hy D) as (D' & -> & ->).
    repeat split; [done|done|done|]. rewrite V, take_insert_ge by lia. rewrite <- carry_arith by lia.
    assert (nthZ m k = 255) as -> by (unfold y, u8 in Hy0; destruct (Z.eq_dec (nthZ m k) 255); [done|];
      rewrite Z.mod_small in Hy0 by lia; lia). by rewrite Hy0.
  - exists (<[k := y]> m). split; [done|]. split; [done|]. split; [len|].
    destruct (be_counter_step m (<[k := y]> m) k y Hm Hm1 ltac:(len) ltac:(lia) Hy eq_refl) as (D' & -> & ->).
    split; [done|]. rewrite <- carry_arith, take_insert_ge by lia.
    assert (nthZ m k ≠ 255) by (intros E; unfold y in Hy0; rewrite E in Hy0; done).
    rewrite (Z.div_small (nthZ m k + 1)), Z.add_0_r by lia.
    pose proof (be_load_bound (take k m) ltac:(auto with vtls)) as Hbd. rewrite length_take, Nat.min_l in Hbd by lia.
    by rewrite (Z.mod_small (be_load (take k m))) by lia.
Qed.

Lemma ctr64_add_loop_spec h k : length h = 8%nat → ∀ m val inc, bytes m → (k ≤ length m)%nat →
  0 ≤ val ≤ 1 → 0 ≤ inc →
  ∃ m', ctr64_add_loop k val inc (h ++ m) = h ++ m' ∧ bytes m' ∧ length m' = length m ∧ drop k m' = drop k m ∧
        be_load (take k m') = (be_load (take k m) + (val + inc)) `mod` 2 ^ (8 * Z.of_nat k).
Proof.
  intros Hh. induction k as [|k IH]; intros m val inc Hm Hk Hval Hinc.
  { exists m. cbn [ctr64_add_loop]. repeat split; try done. by rewrite Z.mod_1_r. }
  cbn [ctr64_add_loop]. rewrite nthZ_high by done.
  pose proof (nthZ_byte m k Hm) as Hx. unfold is_byte in Hx. set (x := nthZ m k) in *.
  assert (Z.land inc 0xff = inc `mod` 256) as -> by (apply (Z.land_ones inc 8); lia).
  pose proof (Z.mod_pos_bound inc 256 ltac:(lia)) as Hi. pose proof (Z.div_mod inc 256 ltac:(lia)) as Hdm.
  set (s := val + (x + inc `mod` 256)). rewrite !Z.shiftr_div_pow2 by lia. change (2 ^ 8) with 256.
  set (y := u8 s). assert (is_byte y) as Hy by (unfold y; auto with vtls). rewrite insert_high by done.
  assert (bytes (<[k := y]> m)) as Hm1 by (by apply Forall_insert).
  replace (8 * Z.of_nat (S k)) with (8 * (Z.of_nat k + 1)) by lia.
  assert (0 ≤ s `div` 256 ≤ 1) as Hs.
  { split; [apply Z.div_pos; lia|]. apply Z.lt_succ_r, Z.div_lt_upper_bound; lia. }
  assert (0 ≤ inc `div` 256) by (apply Z.div_pos; lia).
  assert ((x + (val + inc)) `div` 256 = s `div` 256 + inc `div` 256 ∧ (x + (val + inc)) `mod` 256 = y) as [Ed Em].
  { replace (x + (val + inc)) with (s + inc `div` 256 * 256) by (unfold s; lia).
    rewrite Z.div_add, Z.mod_add by lia. done. }
  destruct ((inc `div` 256 =? 0) && (s `div` 256 =? 0)) eqn:Ez.
  - apply andb_true_iff in Ez as [E1%Z.eqb_eq E2%Z.eqb_eq].
    exists (<[k := y]> m). split; [done|]. split; [done|]. split; [len|].
    destruct (be_counter_step m (<[k := y]> m) k y Hm Hm1 ltac:(len) ltac:(lia) Hy eq_refl) as (D' & -> & ->).
    split; [done|]. rewrite <- Z.add_assoc. fold x. rewrite Z.add_assoc, <- carry_arith, take_insert_ge by lia.
    rewrite Ed, Em, E1, E2, !Z.add_0_r.
    pose proof (be_load_bound (take k m) ltac:(auto with vtls)) as Hbd. rewrite length_take, Nat.min_l in Hbd by lia.
    by rewrite (Z.mod_small (be_load (take k m))) by lia.
  - destruct (IH (<[k := y]> m) (s `div` 256) (inc `div` 256) Hm1 ltac:(len) Hs ltac:(lia)) as (m' & -> & Hb & Hl & D & V).
    exists m'. rewrite length_insert in Hl.
    destruct (be_counter_step m m' k y Hm Hb Hl ltac:(lia) Hy D) as (D' & -> & ->).
    repeat split; [done|done|done|]. rewrite V, take_insert_ge by lia. fold x. rewrite <- carry_arith by lia.
    by rewrite Ed, Em.
Qed.

(** The counter block [i] steps ahead: 64-bit arithmetic on the second half. *)
Definition ctr64_block (n : list Z) (i : Z) : list Z := take 8 n ++ be_store 8 (be_load (drop 8 n) + i).

Lemma ctr64_block_unique n i h m : block n → h = take 8 n → bytes m → length m = 8%nat →
  be_load m = (be_load (drop 8 n) + i) `mod` 2 ^ 64 → h ++ m = ctr64_block n i.
Proof.
  intros [Hb Hl] -> Hm Hlm E. unfold ctr64_block. f_equal.
  apply be_load_inj; [done|auto with vtls|len|]. by rewrite be_load_store.
Qed.

Lemma ctr64_inc_eq n : block n → ctr64_inc n = ctr64_block n 1.
Proof.
  intros Hn. pose proof Hn as [Hb Hl]. unfold ctr64_inc.
  destruct (ctr64_loop_spec (take 8 n) 8 ltac:(len) (drop 8 n) ltac:(auto with vtls) ltac:(len))
    as (m' & E & Hm' & Hl' & _ & V). rewrite take_drop in E. rewrite E.
  apply ctr64_block_unique; try done; [len|]. rewrite !take_ge in V by len. exact V.
Qed.

Lemma ctr64_add_eq n i : block n → 0 ≤ i → ctr64_add n i = ctr64_block n i.
Proof.
  intros Hn Hi. pose proof Hn as [Hb Hl]. unfold ctr64_add.
  destruct (ctr64_add_loop_spec (take 8 n) 8 ltac:(len) (drop 8 n) 0 i ltac:(auto with vtls) ltac:(len) ltac:(lia) Hi)
    as (m' & E & Hm' & Hl' & _ & V). rewrite take_drop in E. rewrite E.
  apply ctr64_block_unique; try done; [len|]. rewrite !take_ge in V by len. exact V.
Qed.

Lemma ctr64_block_add n i j : block n → ctr64_block (ctr64_block n i) j = ctr64_block n (i + j).
Proof.
  intros [Hb Hl]. unfold ctr64_block at 1 3.
  assert (take 8 (ctr64_block n i) = take 8 n) as -> by (unfold ctr64_block; apply take_app_exact; len).
  assert (drop 8 (ctr64_block n i) = be_store 8 (be_load (drop 8 n) + i)) as ->
    by (unfold ctr64_block; apply drop_app_exact; len).
  f_equal. rewrite be_load_store. apply be_load_inj; [auto with vtls..|len|].
  rewrite !be_load_store. rewrite Z.add_mod_idemp_l by lia. f_equal. lia.
Qed.

Lemma ctr64_block_0 n : block n → ctr64_block n 0 = n.
Proof.
  intros [Hb Hl]. unfold ctr64_block. rewrite Z.add_0_r. replace 8%nat with (length (drop 8 n)) at 2 by len.
  rewrite be_store_load by auto with vtls. apply take_drop.
Qed.

Lemma iter_ctr64_inc n k : block n → Nat.iter k ctr64_inc n = ctr64_block n (Z.of_nat k).
Proof.
  intros Hn. induction k as [|k IH]; [by rewrite ctr64_block_0|].
  change (Nat.iter (S k) ctr64_inc n) with (ctr64_inc (Nat.iter k ctr64_inc n)).
  rewrite ctr64_inc_eq by (by apply block_iter_inc). rewrite IH, ctr64_block_add by done. f_equal. lia.
Qed.

(** The counter field is the last [w] bytes of the nonce block. *)
Lemma ctr64_block_field p (w : nat) a i : bytes p → (length p + w = 16)%nat → (w ≤ 8)%nat →
  0 ≤ a → 0 ≤ i → a + i < 2 ^ (8 * Z.of_nat w) →
  ctr64_block (p ++ be_store w a) i = p ++ be_store w (a + i).
Proof.
  intros Hp Hl Hw Ha Hi Hlt. symmetry.
  assert (block (p ++ be_store w a)) as Hn by (split; [auto with vtls|len]).
  rewrite <- (take_drop 8 (p ++ be_store w (a + i))).
  apply ctr64_block_unique; [done|by rewrite !take_app_le by lia|auto with vtls|len|].
  rewrite !drop_app_le by lia. rewrite !be_load_app by auto with vtls. rewrite !length_be_store, !be_load_store.
  pose proof (be_load_bound (drop 8 p) ltac:(auto with vtls)) as Hb. rewrite length_drop in Hb.
  rewrite !(Z.mod_small _ (2 ^ (8 * Z.of_nat w))) by lia.
  assert (2 ^ (8 * Z.of_nat (length p - 8)) * 2 ^ (8 * Z.of_nat w) = 2 ^ 64) as E
    by (rewrite <- Z.pow_add_r by lia; f_equal; lia).
  rewrite Z.mod_small; [lia|]. nia.
Qed.

Lemma be_store_small_field (w : nat) : be_store (S w) 1 = replicate w 0 ++ [1].
Proof.
  rewrite be_store_S. change (1 ≫ 8) with 0. f_equal.
  induction w as [|w IH]; [done|]. rewrite be_store_S. change (0 ≫ 8) with 0. rewrite IH.
  change (u8 0) with 0. symmetry. apply replicate_cons_app.
Qed.

(** The length that is read back, and the first counter block. *)
Lemma reconstruct_len_spec L n : block n → (L ≤ 7)%nat →
  reconstruct_len L n = (be_load (drop (15 - L) n), take (15 - L) n ++ be_store (L + 1) 1).
Proof.
  intros [Hb Hl] HL. unfold reconstruct_len. rewrite Nat.add_1_r, be_store_small_field. f_equal.
  assert (∀ l v, bytes l → 0 ≤ v → (v * 2 ^ (8 * Z.of_nat (length l)) + be_load l) * 256 < 2 ^ 64 →
    fold_left (λ v x, u64 (Z.lor v x ≪ 8)) l (v * 256) = (v * 2 ^ (8 * Z.of_nat (length l)) + be_load l) * 256) as Hfold.
  { intros l. induction l as [|x l IH]; intros v Hbl Hv Hlt; cbn [fold_left length].
    { change (be_load []) with 0. simpl (2 ^ _). lia. }
    apply bytes_cons_inv in Hbl as [Hx Hbl]. pose proof (be_load_bound l Hbl). unfold is_byte in Hx.
    rewrite be_load_cons in * by done. cbn [length] in Hlt.
    replace (8 * Z.of_nat (S (length l))) with (8 + 8 * Z.of_nat (length l)) in * by lia.
    rewrite Z.pow_add_r in * by lia. change (2 ^ 8) with 256 in *.
    set (w := 2 ^ (8 * Z.of_nat (length l))) in *. assert (0 < w) by (apply Z.pow_pos_nonneg; lia).
    assert (Z.lor (v * 256) x = v * 256 + x) as E.
    { pose proof (lor_shiftl_add v x 8 ltac:(lia) Hx) as E. by rewrite Z.shiftl_mul_pow2 in E by lia. }
    rewrite E, Z.shiftl_mul_pow2 by lia. change (2 ^ 8) with 256. rewrite u64_small by nia.
    rewrite IH by (done || nia). unfold w. lia. }
  set (l := take L (drop (15 - L) n)).
  assert (bytes l) as Hbl by (unfold l; auto with vtls).
  assert (length l = L) as Hll by (unfold l; len).
  assert (drop (15 - L) n = l ++ [nthZ n 15]) as Ed.
  { rewrite <- (take_drop L (drop (15 - L) n)). fold l. f_equal. rewrite drop_drop.
    replace (15 - L + L)%nat with 15%nat by lia.
    destruct (lookup_lt_is_Some_2 n 15 ltac:(lia)) as [x Hx]. rewrite (drop_S n x 15 Hx), (nthZ_lookup _ _ _ Hx).
    by rewrite drop_ge by lia. }
  rewrite Ed, be_load_snoc by auto with vtls.
  pose proof (be_load_bound l Hbl) as Hbd. rewrite Hll in Hbd.
  assert (2 ^ (8 * Z.of_nat L) ≤ 2 ^ 56) by (apply Z.pow_le_mono_r; lia).
  specialize (Hfold l 0 Hbl ltac:(lia)). rewrite Z.mul_0_l, Z.add_0_l in Hfold. rewrite Z.mul_0_l in Hfold.
  rewrite Hfold by lia.
  pose proof (lor_shiftl_add (be_load l) (nthZ n 15) 8 ltac:(lia) ltac:(by apply nthZ_byte)) as E.
  by rewrite Z.shiftl_mul_pow2 in E by lia.
Qed.

(** ** The variants on a stream function *)

Abbreviation ccm128_f := (list Z → nat → list Z → list Z → list Z * list Z).

(** What the code relies on: a stream function runs counter mode and CBC-MAC over
    whole blocks, with a 64-bit counter, and leaves the nonce unchanged. *)
Class CcmStream (blk : list Z → list Z) (se sd : ccm128_f) : Prop := {
  ccm_stream_enc : ∀ bs rest n c, Forall block bs → block n → block c →
    se (concat bs ++ rest) (length bs) n c = (concat (ctr_out blk n bs), mac blk c bs);
  ccm_stream_dec : ∀ cs rest n c, Forall block cs → block n → block c →
    sd (concat cs ++ rest) (length cs) n c = (concat (ctr_out blk n cs), mac blk c (ctr_out blk n cs))
}.

(** The plain loops implement it. *)
Definition stream_enc (blk : list Z → list Z) : ccm128_f := λ inp k n c,
  let '(out, _, _, c) := enc_loop blk k (take (16 * k) inp) n c in (out, c).
Definition stream_dec (blk : list Z → list Z) : ccm128_f := λ inp k n c,
  let '(out, _, _, c) := dec_loop blk k (take (16 * k) inp) n c in (out, c).

#[global] Instance stream_loops blk `{!BlockFn blk} : CcmStream blk (stream_enc blk) (stream_dec blk).
Proof.
  split; intros bs rest n c Hbs Hn Hc; unfold stream_enc, stream_dec;
    rewrite take_app_exact by (by apply length_concat_blocks);
    rewrite <- (app_nil_r (concat bs)) at 1.
  - by rewrite (enc_loop_spec blk) by (done || cbn; lia).
  - by rewrite (dec_loop_spec blk) by (done || cbn; lia).
Qed.

Section ccm64.
Context (blk : list Z → list Z) `{!BlockFn blk}.

(** The end of the functions only depends on the bytes before the counter. *)
Lemma ccm_finish_field n n' c b L flags : take (15 - L) n = take (15 - L) n' →
  ccm_finish blk n c b L flags = ccm_finish blk n' c b L flags.
Proof. unfold ccm_finish. by intros ->. Qed.

(** Whole blocks do not overflow the counter field. *)
Lemma iter_inc_field p (w : nat) k : bytes p → (length p + w = 16)%nat → (w ≤ 8)%nat →
  1 + Z.of_nat k < 2 ^ (8 * Z.of_nat w) →
  Nat.iter k ctr64_inc (p ++ be_store w 1) = p ++ be_store w (1 + Z.of_nat k).
Proof.
  intros Hp Hl Hw Hk. rewrite iter_ctr64_inc by (split; [auto with vtls|len]).
  apply ctr64_block_field; (done || lia).
Qed.

Lemma ccm64_blocks_spec stream (out' : list (list Z) → list (list Z)) (mac' : list Z → list (list Z) → list Z) bs r n c :
  Forall block bs → (length r < 16)%nat → block n → mac' c [] = c →
  (∀ bs0 rest, bs0 = bs → stream (concat bs0 ++ rest) (length bs0) n c = (concat (out' bs0), mac' c bs0)) →
  out' [] = [] →
  ccm64_blocks stream (concat bs ++ r) n c =
  (concat (out' bs), r, match r with [] => n | _ => Nat.iter (length bs) ctr64_inc n end, mac' c bs).
Proof.
  intros Hbs Hr Hn Hmac Hs Hout. unfold ccm64_blocks.
  rewrite length_app, length_concat_blocks by done.
  assert ((16 * length bs + length r) / 16 = length bs)%nat as ->.
  { rewrite (Nat.mul_comm 16), Nat.add_comm, Nat.div_add by lia. by rewrite Nat.div_small by lia. }
  destruct (Nat.eqb_spec (length bs) 0) as [E%length_zero_iff_nil|Hne].
  { subst bs. rewrite Hout, Hmac. by destruct r. }
  rewrite Hs by done. rewrite drop_app_exact by (by apply length_concat_blocks).
  rewrite iter_ctr64_inc, ctr64_add_eq by (done || lia). done.
Qed.

Lemma field_lt L n (len : nat) : block n → (L ≤ 7)%nat → be_load (drop (15 - L) n) = Z.of_nat len →
  1 + Z.of_nat (len / 16) < 2 ^ (8 * Z.of_nat (L + 1)).
Proof.
  intros [Hb Hl] HL E. pose proof (be_load_bound (drop (15 - L) n) ltac:(auto with vtls)) as H.
  rewrite length_drop, Hl in H. replace (16 - (15 - L))%nat with (L + 1)%nat in H by lia. rewrite E in H.
  pose proof (Nat.div_mod_eq len 16). assert (2 ^ 8 ≤ 2 ^ (8 * Z.of_nat (L + 1))) by (apply Z.pow_le_mono_r; lia). lia.
Qed.

(** The nonce block with its flags replaced by the length parameter. *)
Lemma start_nonce ctx : ctx_ok ctx → let L := Z.land (nthZ (nonce ctx) 0) 7 in
  block (<[0%nat := L]> (nonce ctx)) ∧ (Z.to_nat L ≤ 7)%nat.
Proof.
  intros [[Hb Hl] _]. pose proof (land7_bound (nthZ (nonce ctx) 0) ltac:(auto with vtls)) as HL. cbv zeta.
  split; [|lia]. split; [|len]. apply Forall_insert; [done|]. unfold is_byte. lia.
Qed.

(** After the whole blocks the bytes before the counter field are unchanged. *)
Lemma nonce_kept L n bs (r : list Z) : block n → (L ≤ 7)%nat → Forall block bs →
  be_load (drop (15 - L) n) = Z.of_nat (length (concat bs ++ r)) → (length r < 16)%nat →
  let n1 := take (15 - L) n ++ be_store (L + 1) 1 in
  take (15 - L) (match r with [] => n1 | _ => Nat.iter (length bs) ctr64_inc n1 end) =
  take (15 - L) (Nat.iter (length bs) ctr64_inc n1).
Proof.
  intros Hn HL Hbs Hlen Hr. pose proof (field_lt L n _ Hn HL Hlen) as Hlt. destruct Hn as [Hb Hl].
  rewrite length_app, length_concat_blocks in Hlt by done.
  rewrite (Nat.mul_comm 16), Nat.add_comm, Nat.div_add, Nat.div_small, Nat.add_0_l in Hlt by lia.
  cbv zeta. rewrite iter_inc_field by (auto with vtls || len).
  destruct r; [|done]. by rewrite !take_app_exact by len.
Qed.
End ccm64.

(** the variants on a stream function return the same value, output and
    context as the plain functions, for every context and message. *)
Theorem ccm64_equivalent blk `{!BlockFn blk} se sd `{!CcmStream blk se sd} ctx inp :
  ctx_ok ctx → bytes inp →
  CRYPTO_ccm128_encrypt_ccm64 blk se ctx inp = CRYPTO_ccm128_encrypt blk ctx inp ∧
  CRYPTO_ccm128_decrypt_ccm64 blk sd ctx inp = CRYPTO_ccm128_decrypt blk ctx inp.
Proof.
  intros Hctx Hi. destruct (start_nonce ctx Hctx) as [Hn0 HL]. destruct Hctx as [Hn Hc].
  unfold CRYPTO_ccm128_encrypt_ccm64, CRYPTO_ccm128_encrypt, CRYPTO_ccm128_decrypt_ccm64, CRYPTO_ccm128_decrypt.
  set (flags0 := nthZ (nonce ctx) 0) in *. set (L := Z.to_nat (Z.land flags0 7)) in *.
  set (n0 := <[0%nat := Z.land flags0 7]> (nonce ctx)) in *.
  rewrite reconstruct_len_spec by done. set (n1 := take (15 - L) n0 ++ be_store (L + 1) 1).
  assert (block n1) as Hn1 by (destruct Hn0; split; [unfold n1; auto with vtls|unfold n1; len]).
  set (c := if Z.land flags0 0x40 =? 0 then blk (nonce ctx) else cmac ctx).
  assert (block c) as Hcb by (unfold c; case_match; auto with vtls).
  assert (∃ b, (if Z.land flags0 0x40 =? 0 then (blk (nonce ctx), u64 (blocks ctx + 1)) else (cmac ctx, blocks ctx))
    = (c, b)) as [b ->] by (unfold c; case_match; eauto).
  destruct (split_blocks inp Hi) as (bs & r & -> & Hbs & Hr & Hlr).
  destruct (Z.eqb_spec (be_load (drop (15 - L) n0)) (Z.of_nat (length (concat bs ++ r)))) as [Hlen|]; [|done]. cbn [negb].
  pose proof (nonce_kept L n0 bs r Hn0 HL Hbs Hlen Hlr) as Hkept. cbv zeta in Hkept. fold n1 in Hkept.
  assert (length bs ≤ length (concat bs ++ r))%nat as Hfuel by (rewrite length_app, length_concat_blocks by done; lia).
  rewrite (ccm64_blocks_spec se (ctr_out blk n1) (mac blk)) by
    (done || (intros ? ? ->; by apply (ccm_stream_enc (sd := sd)))).
  rewrite (ccm64_blocks_spec sd (ctr_out blk n1) (λ c cs, mac blk c (ctr_out blk n1 cs))) by
    (done || (intros ? ? ->; by apply (ccm_stream_dec (se := se)))).
  rewrite (enc_loop_spec blk), (dec_loop_spec blk) by done.
  assert (∀ f : list Z → list Z → list Z → list Z * list Z, (∀ n c, f [] n c = ([], c)) → ∀ x b' c',
    (let '(out', c0) := f r (match r with [] => n1 | _ => Nat.iter (length bs) ctr64_inc n1 end) c' in
     (0, x ++ out', ccm_finish blk (match r with [] => n1 | _ => Nat.iter (length bs) ctr64_inc n1 end) c0 b' L flags0)) =
    (let '(out', c0) := f r (Nat.iter (length bs) ctr64_inc n1) c' in
     (0, x ++ out', ccm_finish blk (Nat.iter (length bs) ctr64_inc n1) c0 b' L flags0))) as Hfin.
  { intros f Hf x b' c'. destruct r; [|done]. rewrite !Hf. f_equal. by apply ccm_finish_field. }
  split; [destruct (2 ^ 61 <? _); [done|]; by apply (Hfin (enc_last blk))|by apply (Hfin (dec_last blk))].
Qed.

Lemma ccm64_equivalent_witness :
  let ctx := (CRYPTO_ccm128_setiv (CRYPTO_ccm128_init (replicate 16 0) 8 2) (replicate 13 7) 13 50).2 in
  CRYPTO_ccm128_encrypt_ccm64 toy_encrypt (stream_enc toy_encrypt) ctx (replicate 50 3) =
    CRYPTO_ccm128_encrypt toy_encrypt ctx (replicate 50 3) ∧
  CRYPTO_ccm128_decrypt_ccm64 toy_encrypt (stream_dec toy_encrypt) ctx (replicate 50 3) =
    CRYPTO_ccm128_decrypt toy_encrypt ctx (replicate 50 3).
Proof.
  apply (ccm64_equivalent toy_encrypt (stream_enc toy_encrypt) (stream_dec toy_encrypt)).
  - split; apply (bool_decide_unpack _); vm_compute; reflexivity.
  - apply (bool_decide_unpack _); vm_compute; reflexivity.
Defined.

(** ** The CCM construction (RFC 3610)

    [M] is the length of the tag, [L] that of the length field, and the nonce has
    [15 - L] bytes. *)

Definition ccm_flags (adata : bool) (M L : Z) : Z :=
  (if adata then 0x40 else 0) + 8 * ((M - 2) `div` 2) + (L - 1).

Definition ccm_B0 (adata : bool) (M L : Z) (N : list Z) (mlen : Z) : list Z :=
  ccm_flags adata M L :: N ++ be_store (Z.to_nat L) mlen.

Definition ccm_A (L : Z) (N : list Z) (i : Z) : list Z := (L - 1) :: N ++ be_store (Z.to_nat L) i.

(** The blocks under the CBC-MAC. *)
Definition ccm_B (M L : Z) (N aad msg : list Z) : list (list Z) :=
  ccm_B0 (negb (bool_decide (aad = []))) M L N (Z.of_nat (length msg)) ::
  (match aad with [] => [] | _ => pad_blocks (aad_prefix (Z.of_nat (length aad)) ++ aad) end) ++
  pad_blocks msg.

Definition ccm_tag (blk : list Z → list Z) (M L : Z) (N aad msg : list Z) : list Z :=
  take (Z.to_nat M) (xor_bytes (mac blk (replicate 16 0) (ccm_B M L N aad msg)) (blk (ccm_A L N 0))).

Definition ccm_ciphertext (blk : list Z → list Z) (L : Z) (N msg : list Z) : list Z :=
  xor_bytes msg (concat (map (λ i, blk (ccm_A L N (Z.of_nat i))) (seq 1 ((length msg + 15) / 16)))).

Definition ccm_params (M L : Z) : Prop := M ∈ [4; 6; 8; 10; 12; 14; 16] ∧ L ∈ [2; 3; 4; 5; 6; 7; 8].

Section aad.
Context (blk : list Z → list Z) `{!BlockFn blk}.

Lemma aad_loop_spec : ∀ fuel c b p aad, block c → bytes p → bytes aad → (length p < 16)%nat →
  aad ≠ [] → (length aad < fuel)%nat → 0 ≤ b → b + Z.of_nat (length aad) < 2 ^ 64 →
  ∃ b', aad_loop blk fuel (xor_at c 0 p) b (length p) aad = (mac blk c (pad_blocks (p ++ aad)), b') ∧
        0 ≤ b' ≤ b + Z.of_nat (length aad).
Proof.
  induction fuel as [|fuel IH]; intros c b p aad Hc Hp Ha Hlp Hne Hf Hb Hlt; [lia|]. cbn [aad_loop].
  assert (1 ≤ length aad)%nat by (destruct aad; [done|cbn; lia]).
  rewrite xor_at_twice by (done || len). rewrite u64_small by lia.
  set (x := p ++ take (16 - length p) aad).
  assert (bytes x) as Hxb by (unfold x; auto with vtls).
  assert (length x ≤ 16)%nat as Hxl by (unfold x; len). rewrite xor_at_zero_pad by done.
  pose proof (block_zero_pad x Hxb Hxl) as Hz.
  destruct (drop (16 - length p) aad) as [|y rest] eqn:Ed.
  - exists (b + 1). assert (p ++ aad = x) as ->.
    { unfold x. rewrite take_ge; [done|]. apply (f_equal length) in Ed. rewrite length_drop in Ed. cbn in Ed. lia. }
    rewrite pad_blocks_short by (done || (unfold x; destruct p, aad; done)). split; [done|lia].
  - assert (length (y :: rest) = length aad - (16 - length p))%nat as Hlr by (by rewrite <- Ed, length_drop).
    assert (block x) as Hxblk by (split; [done|unfold x; cbn [length] in Hlr; len]).
    assert (p ++ aad = x ++ y :: rest) as ->.
    { unfold x. rewrite <- app_assoc, <- Ed, take_drop. done. }
    rewrite zero_pad_block, pad_blocks_app by done.
    assert (block (blk (xor_bytes c x))) as Hc' by auto with vtls.
    assert (bytes (y :: rest)) as Hrb by (rewrite <- Ed; auto with vtls).
    destruct (IH (blk (xor_bytes c x)) (b + 1) [] (y :: rest) Hc' ltac:(constructor) Hrb ltac:(cbn; lia)
      ltac:(done) ltac:(lia) ltac:(lia) ltac:(lia)) as (b' & E & Hb').
    cbn [length] in E. replace (xor_at (blk (xor_bytes c x)) 0 []) with (blk (xor_bytes c x)) in E
      by (unfold xor_at, splice; cbn; by rewrite drop_0).
    rewrite E. exists b'. split; [done|lia].
Qed.
End aad.

(** ** Set-up *)

(** Everything the functions read from the flags byte, for all parameters. *)
Definition flags_check (M L : Z) : bool :=
  let F0 := ccm_flags false M L in
  let F1 := ccm_flags true M L in
  (u8 (Z.lor (Z.land (u8 (u32 (L - 1))) 7) (u8 (Z.land (u32 (M - 2) `div` 2) 7) ≪ 3)) =? F0) &&
  (Z.land F0 7 =? L - 1) && (Z.land F1 7 =? L - 1) &&
  (u8 (Z.land F0 (Z.lnot 0x40)) =? F0) && (Z.lor F0 0x40 =? F1) &&
  (Z.land F0 0x40 =? 0) && negb (Z.land F1 0x40 =? 0) &&
  (Z.land (F0 ≫ 3) 7 * 2 + 2 =? M) && (Z.land (F1 ≫ 3) 7 * 2 + 2 =? M) &&
  (0 <=? F0) && (F1 <? 256) && (F0 <? F1).

Lemma flags_facts M L : ccm_params M L →
  let F0 := ccm_flags false M L in let F1 := ccm_flags true M L in
  u8 (Z.lor (Z.land (u8 (u32 (L - 1))) 7) (u8 (Z.land (u32 (M - 2) `div` 2) 7) ≪ 3)) = F0 ∧
  Z.land F0 7 = L - 1 ∧ Z.land F1 7 = L - 1 ∧
  u8 (Z.land F0 (Z.lnot 0x40)) = F0 ∧ Z.lor F0 0x40 = F1 ∧
  Z.land F0 0x40 = 0 ∧ Z.land F1 0x40 ≠ 0 ∧
  Z.land (F0 ≫ 3) 7 * 2 + 2 = M ∧ Z.land (F1 ≫ 3) 7 * 2 + 2 = M ∧
  is_byte F0 ∧ is_byte F1 ∧ 2 ≤ L ≤ 8 ∧ 4 ≤ M ≤ 16.
Proof.
  intros [HM HL].
  assert (flags_check M L && (2 <=? L) && (L <=? 8) && (4 <=? M) && (M <=? 16) = true) as H.
  { assert (forallb (λ M, forallb (λ L, flags_check M L && (2 <=? L) && (L <=? 8) && (4 <=? M) && (M <=? 16))
      [2; 3; 4; 5; 6; 7; 8]) [4; 6; 8; 10; 12; 14; 16] = true) as H by (vm_compute; reflexivity).
    rewrite forallb_forall in H. specialize (H M (proj1 (list_elem_of_In _ _) HM)).
    rewrite forallb_forall in H. exact (H L (proj1 (list_elem_of_In _ _) HL)). }
  unfold flags_check in H. rewrite !andb_true_iff, negb_true_iff, !Z.eqb_eq, !Z.leb_le, !Z.ltb_lt, Z.eqb_neq in H.
  cbv zeta. unfold is_byte. split_and!; lia || tauto.
Qed.

Lemma mlen_field (k : nat) mlen : (k ≤ 8)%nat →
  drop (8 - k) [u8 (mlen ≫ 56); u8 (mlen ≫ 48); u8 (mlen ≫ 40); u8 (mlen ≫ 32);
                u8 (mlen ≫ 24); u8 (mlen ≫ 16); u8 (mlen ≫ 8); u8 mlen] = be_store k mlen.
Proof.
  intros Hk. do 9 (destruct k as [|k]; [rewrite ?be_store_S, ?Z.shiftr_shiftr by lia; reflexivity|]). lia.
Qed.

Lemma setiv_spec cmac0 M L N rest nlen mlen : ccm_params M L → bytes N → Z.of_nat (length N) = 15 - L →
  15 - L ≤ nlen →
  CRYPTO_ccm128_setiv (CRYPTO_ccm128_init cmac0 M L) (N ++ rest) nlen mlen =
  (0, Ctx (ccm_B0 false M L N mlen) cmac0 0).
Proof.
  intros HP HN HlN Hnlen. destruct (flags_facts M L HP) as (E0 & E7 & _ & Eclr & _ & _ & _ & _ & _ & _ & _ & HL & _).
  unfold CRYPTO_ccm128_init, CRYPTO_ccm128_setiv. rewrite E0. cbn [nonce cmac blocks].
  set (F := ccm_flags false M L) in *.
  change (<[0%nat := F]> (replicate 16 0)) with (F :: replicate 15 0).
  change (nthZ (F :: replicate 15 0) 0) with F. rewrite E7.
  rewrite (proj2 (Z.ltb_ge _ _)) by lia.
  replace (14 - (L - 1)) with (Z.of_nat (length N)) by lia. rewrite Nat2Z.id, take_app_length.
  f_equal. f_equal. unfold ccm_B0. fold F.
  set (m := [u8 (mlen ≫ 56); u8 (mlen ≫ 48); u8 (mlen ≫ 40); u8 (mlen ≫ 32);
             u8 (mlen ≫ 24); u8 (mlen ≫ 16); u8 (mlen ≫ 8); u8 mlen]).
  assert (∀ h4, length h4 = 4%nat → (3 ≤ L - 1 → h4 = take 4 m) → ∀ n,
    n = F :: replicate 7 0 ++ h4 ++ drop 4 m →
    splice (put n 0 (Z.land (nthZ n 0) (Z.lnot 64))) 1 N = F :: N ++ be_store (Z.to_nat L) mlen) as Hfin.
  { intros h4 Hh4 Hh n ->. unfold put. cbn [insert list_insert nthZ nth].
    change (nth 0 (F :: _) 0) with F. rewrite Eclr. unfold splice. rewrite firstn_cons, take_0. cbn [app]. f_equal.
    f_equal. change (1 + length N)%nat with (S (length N)). cbn [skipn].
    rewrite <- (mlen_field (Z.to_nat L) mlen) by lia. fold m.
    rewrite drop_app_ge by len. rewrite length_replicate.
    destruct (Z.le_gt_cases 4 L).
    - rewrite Hh by lia. rewrite take_drop. f_equal. lia.
    - rewrite drop_app_ge by len. rewrite drop_drop. f_equal. lia. }
  destruct (Z.leb_spec 3 (L - 1)).
  - apply (Hfin (take 4 m)); [done|done|reflexivity].
  - apply (Hfin (replicate 4 0)); [done|lia|reflexivity].
Qed.

Lemma xor_zero_block b : block b → xor_bytes (replicate 16 0) b = b.
Proof. intros [_ Hl]. rewrite xor_bytes_comm, <- Hl. apply xor_bytes_0_r; lia. Qed.

Lemma B0_block adata M L N mlen : ccm_params M L → bytes N → Z.of_nat (length N) = 15 - L →
  block (ccm_B0 adata M L N mlen).
Proof.
  intros HP HN HlN. destruct (flags_facts M L HP) as (_ & _ & _ & _ & _ & _ & _ & _ & _ & HF0 & HF1 & HL & _).
  unfold ccm_B0. split.
  - constructor; [by destruct adata|auto with vtls].
  - cbn [length]. len.
Qed.

(** Counter mode on the field of [A_i] blocks. *)
Lemma ctr_out_field blk `{!BlockFn blk} p (w : nat) bs : bytes p → (length p + w = 16)%nat → (w ≤ 8)%nat →
  Forall block bs → ∀ a : nat, Z.of_nat a + Z.of_nat (length bs) < 2 ^ (8 * Z.of_nat w) →
  concat (ctr_out blk (p ++ be_store w (Z.of_nat a)) bs) =
  xor_bytes (concat bs) (concat (map (λ i, blk (p ++ be_store w (Z.of_nat i))) (seq a (length bs)))).
Proof.
  intros Hp Hl Hw Hbs. induction Hbs as [|b bs Hb Hbs IH]; intros a Ha; [done|]. cbn [length] in Ha.
  assert (block (p ++ be_store w (Z.of_nat a))) as Hn by (split; [auto with vtls|len]).
  assert (block (blk (p ++ be_store w (Z.of_nat a)))) as [_ Hk] by auto with vtls.
  cbn [ctr_out concat length seq map]. rewrite ctr64_inc_eq, ctr64_block_field by (done || lia).
  replace (Z.of_nat a + 1) with (Z.of_nat (S a)) by lia. rewrite IH by lia.
  destruct Hb as [_ Hb]. rewrite xor_bytes_app by lia. f_equal. apply xor_bytes_comm.
Qed.

Lemma lor_1_le x : 0 ≤ x → Z.lor x 1 ≤ x + 1.
Proof.
  intros Hx. pose proof (Z.add_lor_land x 1) as H. assert (0 ≤ Z.land x 1) by (apply Z.land_nonneg; lia). lia.
Qed.

Lemma aad_prefix_ok alen : bytes (aad_prefix alen) ∧ (length (aad_prefix alen) < 16)%nat.
Proof.
  assert (∀ k, bytes (be_store k alen)) as H by (intros; auto with vtls).
  unfold aad_prefix. repeat case_match; (split; [|len; cbn [length]; lia]); [done|..];
    repeat (constructor; [unfold is_byte; lia|]); apply H.
Qed.

(** The state between the additional data and the message. *)
Lemma aad_spec blk `{!BlockFn blk} cmac0 M L N aad mlen : ccm_params M L → bytes N → bytes aad →
  Z.of_nat (length N) = 15 - L → Z.of_nat (length aad) < 2 ^ 60 →
  let ctx := CRYPTO_ccm128_aad blk (Ctx (ccm_B0 false M L N mlen) cmac0 0) aad in
  let adata := negb (bool_decide (aad = [])) in
  nonce ctx = ccm_B0 adata M L N mlen ∧
  ∃ b, 0 ≤ b ≤ 2 ^ 60 + 2 ∧
  (if Z.land (ccm_flags adata M L) 0x40 =? 0 then (blk (nonce ctx), u64 (blocks ctx + 1)) else (cmac ctx, blocks ctx)) =
  (mac blk (replicate 16 0) (ccm_B0 adata M L N mlen ::
     match aad with [] => [] | _ => pad_blocks (aad_prefix (Z.of_nat (length aad)) ++ aad) end), b).
Proof.
  intros HP HN Ha HlN Hla. destruct (flags_facts M L HP) as (_ & _ & _ & _ & Eset & E40 & E41 & _).
  pose proof (λ ad, B0_block ad M L N mlen HP HN HlN) as HB0.
  destruct aad as [|x aad].
  - cbv zeta. cbn [CRYPTO_ccm128_aad nonce cmac blocks]. rewrite bool_decide_true by done. cbn [negb].
    split; [done|]. exists 1. rewrite E40. split; [lia|]. cbn [Z.eqb]. unfold mac. cbn [fold_left].
    by rewrite xor_zero_block.
  - cbv zeta. rewrite bool_decide_false by done. cbn [negb]. set (l := x :: aad) in *.
    unfold CRYPTO_ccm128_aad. unfold l at 1 3. cbn [nonce blocks].
    assert (<[0%nat := Z.lor (nthZ (ccm_B0 false M L N mlen) 0) 64]> (ccm_B0 false M L N mlen) = ccm_B0 true M L N mlen) as ->.
    { unfold ccm_B0. change (nthZ (ccm_flags false M L :: _) 0) with (ccm_flags false M L). rewrite Eset. reflexivity. }
    set (pre := aad_prefix _).
    assert (bytes pre ∧ (length pre < 16)%nat) as [Hpb Hpl].
    { apply aad_prefix_ok. }
    destruct (aad_loop_spec blk (S (length l)) (blk (ccm_B0 true M L N mlen)) (u64 (0 + 1)) pre l) as (b & E & Hb);
      try done; try (auto with vtls; done); try lia.
    { change (u64 (0 + 1)) with 1. lia. }
    change (u64 (0 + 1)) with 1 in *. rewrite E. cbn [nonce cmac blocks]. split; [done|]. exists b. split; [lia|].
    rewrite (proj2 (Z.eqb_neq _ _)) by done. f_equal. unfold mac. cbn [fold_left]. by rewrite xor_zero_block.
Qed.

(** Whole blocks and the partial one, as one string under the key stream. *)
Lemma enc_stage blk `{!BlockFn blk} L N c msg : bytes N → Z.of_nat (length N) = 15 - L → 2 ≤ L ≤ 8 →
  bytes msg → block c → Z.of_nat (length msg) < 2 ^ (8 * L) →
  ∃ n o r o', enc_loop blk (length msg) msg (ccm_A L N 1) c = (o, r, n, mac blk c (take (length msg / 16) (pad_blocks msg))) ∧
    take (Z.to_nat (16 - L)) n = (L - 1) :: N ∧
    enc_last blk r n (mac blk c (take (length msg / 16) (pad_blocks msg))) = (o', mac blk c (pad_blocks msg)) ∧
    o ++ o' = ccm_ciphertext blk L N msg.
Proof.
  intros HN HlN HL Hm Hc Hlm. set (p := (L - 1) :: N). set (w := Z.to_nat L).
  assert (bytes p) as Hp by (constructor; [unfold is_byte; lia|done]).
  assert (length p + w = 16)%nat as Hpw by (unfold p, w; cbn [length]; lia).
  assert (w ≤ 8)%nat as Hw by (unfold w; lia).
  destruct (split_blocks msg Hm) as (bs & r & -> & Hbs & Hr & Hlr).
  assert (length (concat bs ++ r) = 16 * length bs + length r)%nat as Hl by (by rewrite length_app, length_concat_blocks).
  rewrite Hl in Hlm |- *. rewrite pad_blocks_concat by done.
  replace ((16 * length bs + length r) / 16)%nat with (length bs).
  2: { apply (Nat.div_unique _ 16 (length bs) (length r)); lia. }
  rewrite take_app_length. change (ccm_A L N 1) with (p ++ be_store w 1).
  assert (16 ≤ 2 ^ (8 * Z.of_nat w)) as H16.
  { transitivity (2 ^ 8); [lia|]. apply Z.pow_le_mono_r; unfold w; lia. }
  assert (1 + Z.of_nat (length bs) < 2 ^ (8 * Z.of_nat w)) as Hlt by (unfold w in *; rewrite Z2Nat.id in * by lia; lia).
  assert (block (p ++ be_store w 1)) as Hn by (split; [auto with vtls|len]).
  rewrite (enc_loop_spec blk bs r) by (done || lia). rewrite iter_inc_field by done.
  set (n := p ++ be_store w (1 + Z.of_nat (length bs))).
  assert (block n) as Hnb by (split; [unfold n; auto with vtls|unfold n; len]).
  pose proof (ctr_out_field blk p w bs Hp Hpw Hw Hbs 1 ltac:(lia)) as Hout. change (Z.of_nat 1) with 1 in Hout.
  exists n, (concat (ctr_out blk (p ++ be_store w 1) bs)), r, (enc_last blk r n (mac blk c bs)).1.
  split; [done|]. split.
  { unfold n. replace (Z.to_nat (16 - L)) with (length p) by (unfold p; cbn [length]; lia). apply take_app_length. }
  rewrite Hout. unfold ccm_ciphertext. rewrite Hl. fold w. change (λ i, blk (ccm_A L N (Z.of_nat i)))
    with (λ i : nat, blk (p ++ be_store w (Z.of_nat i))).
  assert (block (blk n)) as [_ Hkn] by auto with vtls.
  assert (∀ a k, Forall block (map (λ i : nat, blk (p ++ be_store w (Z.of_nat i))) (seq a k))) as Hks.
  { intros a k. apply List.Forall_map, Forall_forall. intros i _. apply block_fn. split; [auto with vtls|len]. }
  destruct r as [|x r].
  - cbn [length]. replace ((16 * length bs + 0 + 15) / 16)%nat with (length bs).
    2: { apply (Nat.div_unique _ 16 (length bs) 15); lia. }
    cbn [enc_last fst]. rewrite !app_nil_r. done.
  - set (r' := x :: r) in *. replace ((16 * length bs + length r' + 15) / 16)%nat with (length bs + 1)%nat.
    2: { apply (Nat.div_unique _ 16 (length bs + 1) (length r' - 1)); unfold r' in *; cbn [length] in *; lia. }
    unfold enc_last, r' at 1 2 3. fold r'. cbn [fst]. split.
    + f_equal. unfold mac. rewrite fold_left_app. cbn [fold_left]. rewrite xor_at_zero_pad; [done| |lia].
      by apply block_mac.
    + rewrite seq_app, map_app, concat_app, (xor_bytes_app _ r').
      2: { rewrite !length_concat_blocks, length_map, length_seq by done. done. }
      f_equal. cbn [seq map concat]. rewrite app_nil_r.
      replace (Z.of_nat (1 + length bs)) with (1 + Z.of_nat (length bs)) by lia. fold n.
      rewrite (xor_bytes_comm (take _ _)). apply xor_bytes_take_r.
Qed.

(** The count of block-function calls stays below its limit. *)
Lemma blocks_small b len : 0 ≤ b ≤ 2 ^ 60 + 2 → 0 ≤ len < 2 ^ 60 →
  (2 ^ 61 <? u64 (b + Z.lor (u64 (len + 15) ≫ 3) 1)) = false.
Proof.
  intros Hb Hlen. apply Z.ltb_ge. rewrite (u64_small (len + 15)) by lia.
  rewrite Z.shiftr_div_pow2 by lia. change (2 ^ 3) with 8.
  pose proof (lor_1_le ((len + 15) `div` 8) ltac:(apply Z.div_pos; lia)).
  assert (0 ≤ Z.lor ((len + 15) `div` 8) 1) by (apply Z.lor_nonneg; split; [apply Z.div_pos|]; lia).
  assert ((len + 15) `div` 8 ≤ len + 15) by (apply Z.div_le_upper_bound; lia).
  assert ((len + 15) `div` 8 < 2 ^ 58) by (apply Z.div_lt_upper_bound; lia).
  rewrite u64_small by lia. lia.
Qed.

(** The mask of the tag and the flags left for [CRYPTO_ccm128_tag]. *)
Lemma finish_tag blk `{!BlockFn blk} M L N n c b F : bytes N → Z.of_nat (length N) = 15 - L → 2 ≤ L ≤ 8 →
  take (Z.to_nat (16 - L)) n = (L - 1) :: N → block c → Z.land (F ≫ 3) 7 * 2 + 2 = M →
  CRYPTO_ccm128_tag (ccm_finish blk n c b (Z.to_nat (L - 1)) F) M =
  Some (take (Z.to_nat M) (xor_bytes c (blk (ccm_A L N 0)))).
Proof.
  intros HN HlN HL Hn Hc HM. unfold CRYPTO_ccm128_tag, ccm_finish. cbn [nonce cmac].
  replace (15 - Z.to_nat (L - 1))%nat with (Z.to_nat (16 - L)) by lia. rewrite Hn.
  replace (Z.to_nat (L - 1) + 1)%nat with (Z.to_nat L) by lia.
  assert (replicate (Z.to_nat L) 0 = be_store (Z.to_nat L) 0) as ->.
  { generalize (Z.to_nat L). intros w. induction w as [|w IH]; [done|]. rewrite be_store_S.
    change (0 ≫ 8) with 0. rewrite <- IH. apply replicate_cons_app. }
  change (((L - 1) :: N) ++ be_store (Z.to_nat L) 0) with (ccm_A L N 0).
  assert (block (ccm_A L N 0)) as HA.
  { unfold ccm_A. split; [|cbn [length]; len]. constructor; [unfold is_byte; lia|auto with vtls]. }
  change (nthZ (<[0%nat := F]> (ccm_A L N 0)) 0) with F. rewrite HM, Z.ltb_irrefl.
  by rewrite xor_words_bytes by auto with vtls.
Qed.

(** The four calls of a packet: set-up, nonce, additional data and message. *)
Definition ccm_packet (blk : list Z → list Z) (cmac0 : list Z) (M L : Z) (N aad msg : list Z)
  : Z * list Z * CCM128_CONTEXT :=
  let '(_, ctx) := CRYPTO_ccm128_setiv (CRYPTO_ccm128_init cmac0 M L) N
                     (Z.of_nat (length N)) (Z.of_nat (length msg)) in
  CRYPTO_ccm128_encrypt blk (CRYPTO_ccm128_aad blk ctx aad) msg.

(** for every tag length 4, 6, ..., 16, length-field size 2 to 8, nonce,
    additional data and message that fits the length field (below 2^60 bytes),
    the calls of a packet succeed and compute CCM as specified in RFC 3610: the
    message under the key stream of the blocks [A_1], [A_2], ..., and as tag the
    CBC-MAC of the blocks [B_0], [B_1], ... masked with [A_0]. *)
Theorem ccm128_encrypt_spec blk `{!BlockFn blk} cmac0 M L N aad msg :
  ccm_params M L → bytes N → Z.of_nat (length N) = 15 - L → bytes aad → bytes msg →
  Z.of_nat (length aad) < 2 ^ 60 → Z.of_nat (length msg) < 2 ^ 60 → Z.of_nat (length msg) < 2 ^ (8 * L) →
  ∃ ctx, ccm_packet blk cmac0 M L N aad msg = (0, ccm_ciphertext blk L N msg, ctx) ∧
         CRYPTO_ccm128_tag ctx M = Some (ccm_tag blk M L N aad msg).
Proof.
  intros HP HN HlN Ha Hm Hla Hlm60 Hlm. unfold ccm_packet.
  pose proof (setiv_spec cmac0 M L N [] (Z.of_nat (length N)) (Z.of_nat (length msg)) HP HN HlN ltac:(lia)) as Es.
  rewrite app_nil_r in Es. rewrite Es.
  destruct (aad_spec blk cmac0 M L N aad (Z.of_nat (length msg)) HP HN Ha HlN Hla) as (En & b & Hb & Ec).
  destruct (flags_facts M L HP) as (_ & EL0 & EL1 & _ & _ & _ & _ & EM0 & EM1 & HF0 & HF1 & HL & HM).
  set (adata := negb (bool_decide (aad = []))) in *.
  assert (Z.land (ccm_flags adata M L) 7 = L - 1) as EL by (by destruct adata).
  assert (Z.land (ccm_flags adata M L ≫ 3) 7 * 2 + 2 = M) as EM by (by destruct adata).
  pose proof (B0_block adata M L N (Z.of_nat (length msg)) HP HN HlN) as HB0.
  set (ctx := CRYPTO_ccm128_aad blk _ aad) in *. unfold CRYPTO_ccm128_encrypt.
  assert (nthZ (nonce ctx) 0 = ccm_flags adata M L) as -> by (by rewrite En).
  rewrite Ec, EL. set (c := mac blk _ _). rewrite En.
  assert (block c) as Hc.
  { unfold c. apply block_mac; [done|auto with vtls|]. constructor; [done|].
    destruct aad; [constructor|]. apply blocks_pad_blocks, bytes_app; [apply aad_prefix_ok|done]. }
  change (<[0%nat := L - 1]> (ccm_B0 adata M L N (Z.of_nat (length msg)))) with
    (((L - 1) :: N) ++ be_store (Z.to_nat L) (Z.of_nat (length msg))).
  set (p := (L - 1) :: N).
  assert (bytes p) as Hp by (constructor; [unfold is_byte; lia|done]).
  assert (15 - Z.to_nat (L - 1) = length p)%nat as Elp by (unfold p; cbn [length]; lia).
  rewrite reconstruct_len_spec; [|split; [auto with vtls|unfold p; len; cbn [length]; lia]|lia].
  rewrite Elp, take_app_length, drop_app_length, be_load_store, Z2Nat.id, Z.mod_small by lia.
  rewrite Z.eqb_refl. cbn [negb].
  replace (Z.to_nat (L - 1) + 1)%nat with (Z.to_nat L) by lia.
  change (p ++ be_store (Z.to_nat L) 1) with (ccm_A L N 1).
  rewrite blocks_small by lia.
  destruct (enc_stage blk L N c msg HN HlN HL Hm Hc Hlm) as (n & o & r & o' & -> & Hn & -> & ->).
  eexists. split; [reflexivity|]. rewrite (finish_tag blk M L N) by (done || by apply block_mac, blocks_pad_blocks).
  unfold ccm_tag, ccm_B, mac, c. cbn [app]. rewrite app_comm_cons, fold_left_app. done.
Qed.

Lemma ccm128_encrypt_spec_witness :
  ∃ ctx, ccm_packet toy_encrypt (replicate 16 0) 8 2 (replicate 13 7) (replicate 20 1) (replicate 33 3) =
           (0, ccm_ciphertext toy_encrypt 2 (replicate 13 7) (replicate 33 3), ctx) ∧
         CRYPTO_ccm128_tag ctx 8 = Some (ccm_tag toy_encrypt 8 2 (replicate 13 7) (replicate 20 1) (replicate 33 3)).
Proof.
  apply (ccm128_encrypt_spec toy_encrypt).
  - split; apply (bool_decide_unpack _); vm_compute; reflexivity.
  - apply (bool_decide_unpack _); vm_compute; reflexivity.
  - reflexivity.
  - apply (bool_decide_unpack _); vm_compute; reflexivity.
  - apply (bool_decide_unpack _); vm_compute; reflexivity.
  - reflexivity.
  - reflexivity.
  - reflexivity.
Defined.
