(* ===== verification/Gcm.v ===== *)
(** * Galois/counter mode: the field and the context

    Models [crypto/modes/gcm128.c] in the build without assembly, on a 64-bit
    little-endian machine: the multiplication of a block by the hash key with a
    table of sixteen multiples ([gcm_init_4bit], [gcm_gmult_4bit],
    [gcm_ghash_4bit]) and the operations on a context, with the fast paths on whole
    blocks and on chunks, the variants on a stream function ([ctr128_f]), and the
    byte loops of builds with [OPENSSL_SMALL_FOOTPRINT].

    The block function and its key are parameters of the operations instead of
    fields of the context.  A union of words and bytes is its 16 bytes; [H] and the
    table hold words.

    The specification of the multiplication is the algorithm of NIST SP 800-38D on
    the bits of a block ([gf_mul]). *)

From S2P Require Import Prelude Block.

(** ** Multiplication *)

Record u128 := U128 { hi : Z; lo : Z }.
#[global] Instance u128_inhabited : Inhabited u128 := populate (U128 0 0).

Definition xor128 (a b : u128) : u128 := U128 (Z.lxor (hi a) (hi b)) (Z.lxor (lo a) (lo b)).

Definition PACK (s : Z) : Z := u64 (s ≪ 48).

Definition REDUCE1BIT (V : u128) : u128 :=
  let T := Z.land 0xe100000000000000 (u64 (0 - Z.land (lo V) 1)) in
  U128 (Z.lxor (hi V ≫ 1) T) (Z.lor (u64 (hi V ≪ 63)) (lo V ≫ 1)).

(** [Htable[i]] *)
Definition at_ (Htable : list u128) (i : Z) : u128 := nth (Z.to_nat i) Htable inhabitant.
Definition put_ (Htable : list u128) (i : Z) (v : u128) : list u128 := <[Z.to_nat i := v]> Htable.

(** The loops of the small version: [for (V = *Hi, j = 1; j < i; ++j)], [n] rounds left. *)
Fixpoint init_row (Htable : list u128) (i : Z) (V : u128) (j : Z) (n : nat) : list u128 :=
  match n with
  | O => Htable
  | S n => init_row (put_ Htable (i + j) (xor128 V (at_ Htable j))) i V (j + 1) n
  end.

(** [for (i = 2; i < 16; i <<= 1)] *)
Fixpoint init_rows (Htable : list u128) (i : Z) (fuel : nat) : list u128 :=
  match fuel with
  | O => Htable
  | S fuel =>
      if i <? 16 then init_rows (init_row Htable i (at_ Htable i) 1 (Z.to_nat (i - 1))) (i ≪ 1) fuel
      else Htable
  end.

(** [for (...; i > 0; i >>= 1)] *)
Fixpoint init_powers (Htable : list u128) (V : u128) (i : Z) (fuel : nat) : list u128 :=
  match fuel with
  | O => Htable
  | S fuel =>
      if 0 <? i then
        let V := REDUCE1BIT V in init_powers (put_ Htable i V) V (i ≫ 1) fuel
      else Htable
  end.

(** [small] is [OPENSSL_SMALL_FOOTPRINT]; [Htable0] is what the table holds before. *)
Definition gcm_init_4bit (small : bool) (Htable0 : list u128) (H : u128) : list u128 :=
  let T := put_ Htable0 0 (U128 0 0) in
  if small then
    let T := put_ T 8 H in
    let T := init_powers T H 4 3 in
    init_rows T 2 3
  else
    let V := H in
    let T := put_ T 8 V in
    let V := REDUCE1BIT V in
    let T := put_ T 4 V in
    let V := REDUCE1BIT V in
    let T := put_ T 2 V in
    let V := REDUCE1BIT V in
    let T := put_ T 1 V in
    let T := put_ T 3 (xor128 V (at_ T 2)) in
    let V := at_ T 4 in
    let T := put_ T 5 (xor128 V (at_ T 1)) in
    let T := put_ T 6 (xor128 V (at_ T 2)) in
    let T := put_ T 7 (xor128 V (at_ T 3)) in
    let V := at_ T 8 in
    let T := put_ T 9 (xor128 V (at_ T 1)) in
    let T := put_ T 10 (xor128 V (at_ T 2)) in
    let T := put_ T 11 (xor128 V (at_ T 3)) in
    let T := put_ T 12 (xor128 V (at_ T 4)) in
    let T := put_ T 13 (xor128 V (at_ T 5)) in
    let T := put_ T 14 (xor128 V (at_ T 6)) in
    put_ T 15 (xor128 V (at_ T 7)).

Definition rem_4bit : list Z :=
  [PACK 0x0000; PACK 0x1C20; PACK 0x3840; PACK 0x2460; PACK 0x7080; PACK 0x6CA0; PACK 0x48C0; PACK 0x54E0;
   PACK 0xE100; PACK 0xFD20; PACK 0xD940; PACK 0xC560; PACK 0x9180; PACK 0x8DA0; PACK 0xA9C0; PACK 0xB5E0].

(** Shifting [Z] by a nibble and adding the multiple for the next one. *)
Definition mult_nibble (Htable : list u128) (Z_ : u128) (n : Z) : u128 :=
  let rem := Z.land (lo Z_) 0xf in
  let lo' := Z.lor (u64 (hi Z_ ≪ 60)) (lo Z_ ≫ 4) in
  let hi' := Z.lxor (hi Z_ ≫ 4) (getb rem_4bit rem) in
  xor128 (U128 hi' lo') (at_ Htable n).

(** [while (1)] after the high nibble of byte [cnt]: the bytes before it. *)
Fixpoint mult_loop (Htable : list u128) (byte : nat → Z) (Z_ : u128) (cnt : nat) : u128 :=
  match cnt with
  | O => Z_
  | S cnt =>
      let b := byte cnt in
      let Z_ := mult_nibble Htable Z_ (Z.land b 0xf) in
      mult_loop Htable byte (mult_nibble Htable Z_ (b ≫ 4)) cnt
  end.

(** The multiplication of the block with the bytes [byte 0], ..., [byte 15]. *)
Definition mult_bytes (Htable : list u128) (byte : nat → Z) : list Z :=
  let b := byte 15%nat in
  let Z_ := at_ Htable (Z.land b 0xf) in
  let Z_ := mult_loop Htable byte (mult_nibble Htable Z_ (b ≫ 4)) 15 in
  be_store 8 (hi Z_) ++ be_store 8 (lo Z_).

Definition gcm_gmult_4bit (Htable : list u128) (Xi : list Z) : list Z :=
  mult_bytes Htable (nthZ Xi).

(** [do ... while (inp += 16, len -= 16)]: [k] blocks. *)
Fixpoint gcm_ghash_4bit (Htable : list u128) (Xi inp : list Z) (k : nat) : list Z :=
  match k with
  | O => Xi
  | S k =>
      let Xi := mult_bytes Htable (λ i, Z.lxor (nthZ Xi i) (nthZ inp i)) in
      gcm_ghash_4bit Htable Xi (drop 16 inp) k
  end.

(** ** The field *)

(** Blocks are polynomials whose coefficients are the bits, that of [x^0] first; read as a big-endian
    number, multiplication by [x] shifts to the right and reduces by [x^128 + x^7 + x^2 + x + 1]. *)
Definition mulx (v : Z) : Z := Z.lxor (v ≫ 1) (if Z.testbit v 0 then 0xe1 ≪ 120 else 0).

(** SP 800-38D, algorithm 1: the product of a string of bits and a number. *)
Fixpoint gf_mul (X : list bool) (V : Z) : Z :=
  match X with
  | [] => 0
  | x :: X => Z.lxor (if x then V else 0) (gf_mul X (mulx V))
  end.

Definition nibble_bits (n : Z) : list bool := Z.testbit n <$> [3; 2; 1; 0].
Definition byte_bits (b : Z) : list bool := Z.testbit b <$> [7; 6; 5; 4; 3; 2; 1; 0].
Definition bits_of (X : list Z) : list bool := concat (byte_bits <$> X).

(** The product of two blocks. *)
Definition gf_block (X H : list Z) : list Z := be_store 16 (gf_mul (bits_of X) (be_load H)).

(** SP 800-38D, algorithm 2. *)
Definition GHASH (H : list Z) (Y : list Z) (bs : list (list Z)) : list Z :=
  fold_left (λ Y X, gf_block (xor_bytes Y X) H) bs Y.

(** Equations between exclusive ors, bit by bit. *)
Ltac xor_bits :=
  apply Z.bits_inj'; intros ?i ?Hi; rewrite ?Z.lxor_spec, ?Z.bits_0;
  repeat match goal with |- context [Z.testbit ?a ?i] => destruct (Z.testbit a i) end; reflexivity.

Lemma mulx_lxor a b : mulx (Z.lxor a b) = Z.lxor (mulx a) (mulx b).
Proof.
  unfold mulx. rewrite Z.lxor_spec, Z.shiftr_lxor. generalize (0xe1 ≪ 120). intros r.
  destruct (Z.testbit a 0), (Z.testbit b 0); cbn [xorb]; xor_bits.
Qed.

Lemma mulx_0 : mulx 0 = 0.
Proof. reflexivity. Qed.

Lemma gf_mul_mulx X V : gf_mul X (mulx V) = mulx (gf_mul X V).
Proof.
  revert V. induction X as [|x X IH]; intros V; cbn [gf_mul]; [done|].
  rewrite mulx_lxor, IH. by destruct x.
Qed.

Lemma gf_mul_cons x X V : gf_mul (x :: X) V = Z.lxor (if x then V else 0) (mulx (gf_mul X V)).
Proof. cbn [gf_mul]. by rewrite gf_mul_mulx. Qed.

(** Four bits at once. *)
Lemma gf_mul_nibble n X V :
  gf_mul (nibble_bits n ++ X) V =
  Z.lxor (mulx (mulx (mulx (mulx (gf_mul X V))))) (gf_mul (nibble_bits n) V).
Proof.
  unfold nibble_bits. cbn [fmap list_fmap app]. rewrite !gf_mul_cons, !mulx_lxor. cbn [gf_mul].
  rewrite mulx_0, !Z.lxor_0_r. xor_bits.
Qed.

Lemma gf_mul_bound X V : 0 ≤ V < 2 ^ 128 → 0 ≤ gf_mul X V < 2 ^ 128.
Proof.
  revert V. induction X as [|x X IH]; intros V HV; cbn [gf_mul]; [lia|].
  apply lxor_bound; [lia|destruct x; lia|]. apply IH. unfold mulx. apply lxor_bound; [lia| |].
  - rewrite Z.shiftr_div_pow2 by lia. change (2 ^ 1) with 2.
    split; [apply Z.div_pos; lia|apply Z.div_lt_upper_bound; lia].
  - destruct (Z.testbit V 0); [split; [vm_compute; discriminate|reflexivity]|lia].
Qed.

(** Shifting by a nibble: what falls out is looked up in the table. *)
Lemma mulx_shiftl w k : 0 ≤ k → mulx (w ≪ (k + 1)) = w ≪ k.
Proof.
  intros Hk. unfold mulx. rewrite Z.shiftl_spec_low, Z.lxor_0_r by lia.
  rewrite Z.shiftr_shiftl_l by lia. f_equal. lia.
Qed.

Lemma mulx4_small r : 0 ≤ r < 16 → mulx (mulx (mulx (mulx r))) = getb rem_4bit r ≪ 64.
Proof.
  intros Hr. apply Z.eqb_eq. revert r Hr.
  assert (forallb (λ r, mulx (mulx (mulx (mulx r))) =? getb rem_4bit r ≪ 64) (seqZ 0 16) = true) as H
    by (vm_compute; reflexivity).
  intros r Hr. rewrite forallb_forall in H. apply (H r). apply list_elem_of_In, elem_of_seqZ. lia.
Qed.

Lemma mulx4_spec v : mulx (mulx (mulx (mulx v))) = Z.lxor (v ≫ 4) (getb rem_4bit (Z.land v 0xf) ≪ 64).
Proof.
  assert (v = Z.lxor ((v ≫ 4) ≪ 4) (Z.land v 0xf)) as Hv.
  { apply Z.bits_inj'. intros i Hi. change 0xf with (Z.ones 4). rewrite Z.lxor_spec, Z.land_spec.
    destruct (Z.lt_ge_cases i 4).
    - rewrite Z.shiftl_spec_low, Z.ones_spec_low by lia. by destruct (Z.testbit v i).
    - rewrite Z.shiftl_spec_high, Z.shiftr_spec, Z.ones_spec_high by lia.
      replace (i - 4 + 4) with i by lia. by destruct (Z.testbit v i). }
  rewrite Hv at 1. rewrite !mulx_lxor, (mulx4_small (Z.land v 0xf)).
  - f_equal. set (w := v ≫ 4).
    rewrite (mulx_shiftl w 3 ltac:(lia) : mulx (w ≪ 4) = _), (mulx_shiftl w 2 ltac:(lia) : mulx (w ≪ 3) = _).
    rewrite (mulx_shiftl w 1 ltac:(lia) : mulx (w ≪ 2) = _), (mulx_shiftl w 0 ltac:(lia) : mulx (w ≪ 1) = _).
    apply Z.shiftl_0_r.
  - change 0xf with (Z.ones 4). rewrite Z.land_ones by lia. apply Z.mod_pos_bound. lia.
Qed.

(** ** The table *)

Definition val128 (v : u128) : Z := Z.lor (hi v ≪ 64) (lo v).
Definition wf128 (v : u128) : Prop := 0 ≤ hi v < 2 ^ 64 ∧ 0 ≤ lo v < 2 ^ 64.

Lemma testbit_high k z i : 0 ≤ k ≤ i → 0 ≤ z < 2 ^ k → Z.testbit z i = false.
Proof. intros Hk Hz. apply (bounded_bits k) in Hz as [_ Hz]; [|lia]. apply Hz. lia. Qed.

Lemma val128_testbit v i : wf128 v → 0 ≤ i →
  Z.testbit (val128 v) i = if i <? 64 then Z.testbit (lo v) i else Z.testbit (hi v) (i - 64).
Proof.
  intros [Hh Hl] Hi. unfold val128. rewrite Z.lor_spec. destruct (Z.ltb_spec i 64).
  - by rewrite Z.shiftl_spec_low by lia.
  - rewrite Z.shiftl_spec_high by lia. rewrite (testbit_high 64 (lo v)) by lia. apply orb_false_r.
Qed.

Lemma val128_bound v : wf128 v → 0 ≤ val128 v < 2 ^ 128.
Proof.
  intros [Hh Hl]. unfold val128. rewrite lor_shiftl_add by lia. change (2 ^ 128) with (2 ^ 64 * 2 ^ 64). nia.
Qed.

Lemma wf_xor128 a b : wf128 a → wf128 b → wf128 (xor128 a b).
Proof. intros [] []. split; apply lxor_bound; done || lia. Qed.

Lemma val_xor128 a b : wf128 a → wf128 b → val128 (xor128 a b) = Z.lxor (val128 a) (val128 b).
Proof.
  intros Ha Hb. apply Z.bits_inj'. intros i Hi.
  rewrite Z.lxor_spec, !val128_testbit by (done || by apply wf_xor128). cbn [xor128 lo hi].
  destruct (i <? 64); apply Z.lxor_spec.
Qed.

(** Shifting the pair of words to the right by [k]. *)
Lemma shift128 v k : wf128 v → 0 < k < 64 →
  wf128 (U128 (hi v ≫ k) (Z.lor (u64 (hi v ≪ (64 - k))) (lo v ≫ k))) ∧
  val128 (U128 (hi v ≫ k) (Z.lor (u64 (hi v ≪ (64 - k))) (lo v ≫ k))) = val128 v ≫ k.
Proof.
  intros Hv Hk. pose proof Hv as [Hh Hl].
  assert (∀ z, 0 ≤ z < 2 ^ 64 → 0 ≤ z ≫ k < 2 ^ 64) as Hs.
  { intros z Hz. rewrite Z.shiftr_div_pow2 by lia. assert (0 < 2 ^ k) by (apply Z.pow_pos_nonneg; lia).
    split; [apply Z.div_pos; lia|]. apply Z.div_lt_upper_bound; nia. }
  assert (wf128 (U128 (hi v ≫ k) (Z.lor (u64 (hi v ≪ (64 - k))) (lo v ≫ k)))) as Hw.
  { split; cbn [hi lo]; [by apply Hs|]. apply lor_bound; [lia|apply Z.mod_pos_bound; lia|by apply Hs]. }
  split; [done|]. apply Z.bits_inj'. intros i Hi.
  rewrite Z.shiftr_spec, !val128_testbit by (done || lia). cbn [hi lo].
  rewrite Z.lor_spec, !Z.shiftr_spec by lia. unfold u64.
  destruct (Z.ltb_spec i 64); destruct (Z.ltb_spec (i + k) 64); try lia.
  - rewrite Z.mod_pow2_bits_low, Z.shiftl_spec_low by lia. done.
  - rewrite Z.mod_pow2_bits_low, Z.shiftl_spec_high by lia. rewrite (testbit_high 64 (lo v)) by lia.
    rewrite orb_false_r. f_equal. lia.
  - rewrite Z.shiftr_spec by lia. f_equal. lia.
Qed.

Lemma val128_hi v t : wf128 v → 0 ≤ t < 2 ^ 64 →
  wf128 (U128 (Z.lxor (hi v) t) (lo v)) ∧ val128 (U128 (Z.lxor (hi v) t) (lo v)) = Z.lxor (val128 v) (t ≪ 64).
Proof.
  intros Hv Ht. assert (wf128 (U128 t 0)) as Hw by (split; cbn; lia).
  replace (U128 (Z.lxor (hi v) t) (lo v)) with (xor128 v (U128 t 0))
    by (unfold xor128; cbn [hi lo]; by rewrite Z.lxor_0_r).
  split; [by apply wf_xor128|]. rewrite val_xor128 by done. f_equal. unfold val128. cbn [hi lo]. apply Z.lor_0_r.
Qed.

Lemma val128_bit0 v : wf128 v → Z.testbit (val128 v) 0 = Z.testbit (lo v) 0.
Proof. intros. by rewrite val128_testbit. Qed.

Lemma reduce_spec V : wf128 V → wf128 (REDUCE1BIT V) ∧ val128 (REDUCE1BIT V) = mulx (val128 V).
Proof.
  intros HV. destruct (shift128 V 1 HV ltac:(lia)) as [Hw Hs]. unfold REDUCE1BIT.
  set (T := Z.land _ _). assert (T = if Z.testbit (lo V) 0 then 0xe1 ≪ 56 else 0) as HT.
  { unfold T. change 1 with (Z.ones 1) at 1. rewrite Z.land_ones by lia. change (2 ^ 1) with 2.
    rewrite Z.bit0_odd, <- Z.bit0_mod, Z.bit0_odd. by destruct (Z.odd (lo V)). }
  destruct (val128_hi _ T Hw) as [H1 H2]; [rewrite HT; destruct (Z.testbit _ 0); vm_compute; by split|].
  cbn [hi lo] in H1, H2. split; [exact H1|]. change (64 - 1) with 63 in *. rewrite H2, Hs. unfold mulx.
  rewrite val128_bit0 by done. rewrite HT. by destruct (Z.testbit (lo V) 0).
Qed.

(** The entry for a nibble is its product with the hash key. *)
Definition is_table (T : list u128) (V : Z) : Prop :=
  ∀ n, 0 ≤ n < 16 → wf128 (at_ T n) ∧ val128 (at_ T n) = gf_mul (nibble_bits n) V.

Lemma rem_4bit_word i : 0 ≤ getb rem_4bit i < 2 ^ 64.
Proof.
  assert (Forall (λ z, 0 ≤ z < 2 ^ 64) rem_4bit) as H 
    by (apply (bool_decide_unpack _); vm_compute; exact I).
  unfold getb, nthZ. rewrite nth_lookup. destruct (rem_4bit !! _) as [z|] eqn:E; cbn [default]; [|lia].
  exact (Forall_lookup_1 _ _ _ _ H E).
Qed.

Lemma mult_nibble_spec T V Z_ n X : is_table T V → 0 ≤ n < 16 →
  wf128 Z_ → val128 Z_ = gf_mul X V →
  wf128 (mult_nibble T Z_ n) ∧ val128 (mult_nibble T Z_ n) = gf_mul (nibble_bits n ++ X) V.
Proof.
  intros HT Hn Hw Hv. destruct (HT n Hn) as [Tw Tv]. destruct (shift128 Z_ 4 Hw ltac:(lia)) as [Sw Sv].
  change (64 - 4) with 60 in *. unfold mult_nibble. set (r := getb rem_4bit (Z.land (lo Z_) 0xf)).
  assert (0 ≤ r < 2 ^ 64) as Hr by apply rem_4bit_word.
  destruct (val128_hi _ r Sw Hr) as [Rw Rv]. cbn [hi lo] in Rw, Rv.
  split; [by apply wf_xor128|]. rewrite val_xor128, Rv, Sv, Tv, gf_mul_nibble, mulx4_spec, <- Hv by done.
  f_equal. f_equal. unfold r. do 2 f_equal. change 0xf with (Z.ones 4).
  apply Z.bits_inj'. intros i Hi. rewrite !Z.land_spec, val128_testbit by done.
  destruct (Z.ltb_spec i 64); [done|]. rewrite Z.ones_spec_high, !andb_false_r by lia. done.
Qed.

(** The sixteen entries, in terms of the key and its first three multiples. *)
Definition table_of (V8 V4 V2 V1 : u128) : list u128 :=
  let V3 := xor128 V1 V2 in
  let V5 := xor128 V4 V1 in
  let V6 := xor128 V4 V2 in
  let V7 := xor128 V4 V3 in
  [U128 0 0; V1; V2; V3; V4; V5; V6; V7; V8; xor128 V8 V1; xor128 V8 V2; xor128 V8 V3;
   xor128 V8 V4; xor128 V8 V5; xor128 V8 V6; xor128 V8 V7].

Lemma xor128_comm a b : xor128 a b = xor128 b a.
Proof. unfold xor128. by rewrite (Z.lxor_comm (hi a)), (Z.lxor_comm (lo a)). Qed.

Lemma init_table small T0 H : length T0 = 16%nat →
  gcm_init_4bit small T0 H =
  table_of H (REDUCE1BIT H) (REDUCE1BIT (REDUCE1BIT H)) (REDUCE1BIT (REDUCE1BIT (REDUCE1BIT H))).
Proof.
  intros Hl. do 16 (destruct T0 as [|? T0]; [done|]). destruct T0; [|done]. clear Hl.
  destruct small; cbn -[REDUCE1BIT xor128]; [|reflexivity].
  unfold table_of. do 3 f_equal. by rewrite xor128_comm.
Qed.

Lemma init_spec small T0 H : length T0 = 16%nat → wf128 H → is_table (gcm_init_4bit small T0 H) (val128 H).
Proof.
  intros Hl HH. rewrite init_table by done. set (V4 := REDUCE1BIT H). set (V2 := REDUCE1BIT V4).
  set (V1 := REDUCE1BIT V2).
  destruct (reduce_spec H HH) as [W4 E4]. destruct (reduce_spec V4 W4) as [W2 E2].
  destruct (reduce_spec V2 W2) as [W1 E1]. fold V4 in W4, E4. fold V2 in W2, E2. fold V1 in W1, E1.
  rewrite E2 in E1. rewrite E4 in E1, E2. clearbody V4 V2 V1.
  assert (wf128 (U128 0 0)) as W0 by (split; cbn; lia).
  intros n Hn. unfold at_, table_of, nibble_bits.
  assert (n = 0 ∨ n = 1 ∨ n = 2 ∨ n = 3 ∨ n = 4 ∨ n = 5 ∨ n = 6 ∨ n = 7 ∨ n = 8 ∨ n = 9 ∨ n = 10 ∨ n = 11 ∨
    n = 12 ∨ n = 13 ∨ n = 14 ∨ n = 15) as C by lia.
  assert (val128 (U128 0 0) = 0) as E0 by reflexivity.
  decompose [or] C; subst n; cbv -[xor128 val128 wf128 mulx Z.lxor];
    (split; [auto using wf_xor128|]); rewrite ?val_xor128, ?E0, ?E1, ?E2, ?E4 by auto using wf_xor128;
    rewrite ?Z.lxor_0_l, ?Z.lxor_0_r; rewrite ?(Z.lxor_comm (mulx (mulx (mulx (val128 H))))); reflexivity.
Qed.

(** ** The multiplication *)

Lemma byte_bits_nibbles b : byte_bits b = nibble_bits (b ≫ 4) ++ nibble_bits (Z.land b 0xf).
Proof.
  unfold byte_bits, nibble_bits. cbn [fmap list_fmap app]. change 0xf with (Z.ones 4).
  rewrite !Z.shiftr_spec, !Z.land_spec, !Z.ones_spec_low, !andb_true_r by lia. reflexivity.
Qed.

Lemma nibble_range b : is_byte b → 0 ≤ b ≫ 4 < 16 ∧ 0 ≤ Z.land b 0xf < 16.
Proof.
  intros Hb. unfold is_byte in Hb. split.
  - rewrite Z.shiftr_div_pow2 by lia. split; [apply Z.div_pos; lia|apply Z.div_lt_upper_bound; lia].
  - change 0xf with (Z.ones 4). rewrite Z.land_ones by lia. apply Z.mod_pos_bound. lia.
Qed.

Lemma bits_of_app a b : bits_of (a ++ b) = bits_of a ++ bits_of b.
Proof. unfold bits_of. by rewrite fmap_app, concat_app. Qed.

Lemma mult_loop_spec T V byte cnt : is_table T V → (∀ i, (i < cnt)%nat → is_byte (byte i)) →
  ∀ Z_ X, wf128 Z_ → val128 Z_ = gf_mul X V →
  wf128 (mult_loop T byte Z_ cnt) ∧
  val128 (mult_loop T byte Z_ cnt) = gf_mul (bits_of (map byte (seq 0 cnt)) ++ X) V.
Proof.
  intros HT. induction cnt as [|cnt IH]; intros Hb Z_ X Hw Hv; cbn [mult_loop]; [done|].
  destruct (nibble_range (byte cnt) (Hb cnt ltac:(lia))) as [N1 N2].
  destruct (mult_nibble_spec T V Z_ _ X HT N2 Hw Hv) as [W1 V1].
  destruct (mult_nibble_spec T V _ _ _ HT N1 W1 V1) as [W2 V2].
  destruct (IH ltac:(intros i Hi; apply Hb; lia) _ _ W2 V2) as [W3 V3]. split; [done|].
  rewrite V3. f_equal. rewrite seq_S, map_app, bits_of_app. cbn [map].
  rewrite <- app_assoc. f_equal. unfold bits_of. cbn [fmap list_fmap concat Nat.add].
  rewrite app_nil_r, byte_bits_nibbles, app_assoc. done.
Qed.

Lemma be_store_val128 v : wf128 v → be_store 8 (hi v) ++ be_store 8 (lo v) = be_store 16 (val128 v).
Proof.
  intros [Hh Hl]. apply be_load_inj; [auto with vtls..|len|].
  rewrite be_load_app, length_be_store, !be_load_store by auto with vtls. unfold val128.
  rewrite lor_shiftl_add by lia. change (8 * Z.of_nat 8) with 64. change (8 * Z.of_nat 16) with 128.
  assert (0 ≤ hi v * 2 ^ 64 + lo v < 2 ^ 128) by (change (2 ^ 128) with (2 ^ 64 * 2 ^ 64); nia).
  by rewrite !Z.mod_small by lia.
Qed.

Lemma mult_bytes_spec T V byte : is_table T V → (∀ i, (i < 16)%nat → is_byte (byte i)) →
  mult_bytes T byte = be_store 16 (gf_mul (bits_of (map byte (seq 0 16))) V).
Proof.
  intros HT Hb. unfold mult_bytes. destruct (nibble_range (byte 15%nat) (Hb 15%nat ltac:(lia))) as [N1 N2].
  destruct (HT _ N2) as [W0 V0]. destruct (mult_nibble_spec T V _ _ _ HT N1 W0 V0) as [W1 V1].
  destruct (mult_loop_spec T V byte 15 HT ltac:(intros; apply Hb; lia) _ _ W1 V1) as [W2 V2].
  rewrite be_store_val128 by done. f_equal. rewrite V2. f_equal.
  rewrite <- byte_bits_nibbles. change (seq 0 16) with (seq 0 15 ++ [15%nat]).
  by rewrite map_app, bits_of_app.
Qed.

Lemma map_nthZ l : map (nthZ l) (seq 0 (length l)) = l.
Proof.
  induction l as [|x l IH]; [done|]. cbn [length seq map]. f_equal. rewrite <- seq_shift, map_map. exact IH.
Qed.

Lemma block_gf_block X H : block (gf_block X H).
Proof. unfold gf_block. split; [auto with vtls|len]. Qed.
#[export] Hint Resolve block_gf_block : vtls.

Lemma block_GHASH H Y bs : block Y → block (GHASH H Y bs).
Proof. revert Y. induction bs as [|b bs IH]; intros Y HY; [done|]. apply IH. auto with vtls. Qed.

Lemma gmult_spec T H X : is_table T (be_load H) → block X → gcm_gmult_4bit T X = gf_block X H.
Proof.
  intros HT [Hb Hl]. unfold gcm_gmult_4bit, gf_block. rewrite (mult_bytes_spec T (be_load H)) by (done || intros; auto with vtls).
  by rewrite <- Hl, map_nthZ.
Qed.

Lemma nthZ_xor_bytes a b i : length a = length b → nthZ (xor_bytes a b) i = Z.lxor (nthZ a i) (nthZ b i).
Proof.
  revert b i. induction a as [|x a IH]; intros [|y b] [|i] Hl; try done.
  change (nthZ (xor_bytes a b) i = Z.lxor (nthZ a i) (nthZ b i)). apply IH. by injection Hl.
Qed.

Lemma ghash_spec T H bs r : is_table T (be_load H) → Forall block bs → ∀ Y, block Y →
  gcm_ghash_4bit T Y (concat bs ++ r) (length bs) = GHASH H Y bs.
Proof.
  intros HT Hbs. induction Hbs as [|b bs Hb Hbs IH]; intros Y HY; [done|].
  cbn [length gcm_ghash_4bit concat]. rewrite <- app_assoc.
  rewrite (drop_app_exact b) by apply Hb.
  assert (∀ i, (i < 16)%nat →
    Z.lxor (nthZ Y i) (nthZ (b ++ concat bs ++ r) i) = nthZ (xor_bytes Y b) i) as E.
  { intros i Hi. destruct Hb as [_ Hl], HY as [_ Hl']. rewrite nthZ_xor_bytes by lia. f_equal.
    unfold nthZ. apply app_nth1. lia. }
  pose proof (block_xor Y b HY Hb) as Hx.
  change (GHASH H Y (b :: bs)) with (GHASH H (gf_block (xor_bytes Y b) H) bs). rewrite <- (IH (gf_block (xor_bytes Y b) H)) by auto with vtls. f_equal.
  rewrite (mult_bytes_spec T (be_load H)) by (done || intros i Hi; rewrite E by done; destruct Hx; auto with vtls).
  unfold gf_block. do 3 f_equal. transitivity (map (nthZ (xor_bytes Y b)) (seq 0 16)).
  - apply map_ext_in. intros i [_ Hi]%in_seq. by apply E.
  - destruct Hx as [_ Hl]. by rewrite <- Hl at 1; rewrite map_nthZ.
Qed.

(** The multiplication of a block by the hash key with the table of sixteen multiples is the product
    in GF(2^128) as SP 800-38D defines it, for both ways of building the table. *)
Theorem gcm_gmult_4bit_correct small T0 hk X : length T0 = 16%nat → wf128 hk → block X →
  gcm_gmult_4bit (gcm_init_4bit small T0 hk) X = be_store 16 (gf_mul (bits_of X) (val128 hk)).
Proof.
  intros HT Hk HX. pose proof (init_spec small T0 hk HT Hk) as Ht.
  assert (be_load (be_store 16 (val128 hk)) = val128 hk) as E.
  { rewrite be_load_store. apply Z.mod_small, val128_bound, Hk. }
  rewrite <- E in Ht. rewrite (gmult_spec _ _ X Ht HX). unfold gf_block. by rewrite E.
Qed.

Lemma gcm_gmult_4bit_correct_witness :
  length (replicate 16 (U128 7 7)) = 16%nat ∧
  gcm_gmult_4bit (gcm_init_4bit true (replicate 16 (U128 7 7)) (U128 (2 ^ 63) 1)) (seqZ 0 16) =
  be_store 16 (gf_mul (bits_of (seqZ 0 16)) (val128 (U128 (2 ^ 63) 1))).
Proof.
  split; [reflexivity|]. apply gcm_gmult_4bit_correct; [reflexivity|split; cbn [hi lo]; lia|].
  apply (bool_decide_unpack _). vm_compute. exact I.
Defined.
