(* ===== verification/GcmMode.v ===== *)
(** * Galois/counter mode: the context

    Models the operations of [crypto/modes/gcm128.c] on a context: set-up, the
    initialisation vector, additional data, encryption and decryption on a block
    function and on a stream function ([ctr128_f]), and the tag.  [small] is
    [OPENSSL_SMALL_FOOTPRINT]; [aligned] tells whether the test of the alignment
    of the buffers is passed.  Encryption and decryption differ in which of the two
    texts is hashed, the output or the input, and in the order of encryption and
    hashing; [dec] tells them apart.

    The specification is that of NIST SP 800-38D: [gcm_J0], [GCTR], [gcm_tag].  The
    refinement theorems relate a context to the additional data and the text it has
    been given so far ([gcm_repr]), so they cover every way of cutting the data into
    calls and of choosing among the variants from call to call. *)

From S2P Require Import Prelude ConstTime Block Stream Ctr Gcm.
#[local] Arguments Nat.modulo : simpl never.
#[local] Arguments Nat.div : simpl never.
#[local] Arguments Nat.leb : simpl never.

(** ** The code *)

Record GCM128_CONTEXT := GcmCtx {
  Yi : list Z;
  EKi : list Z;
  EK0 : list Z;
  len_aad : Z;               (* len.u[0] *)
  len_msg : Z;               (* len.u[1] *)
  Xi : list Z;
  H : u128;
  Htable : list u128;
  mres : nat;
  ares : nat
}.

Definition set_Xi (ctx : GCM128_CONTEXT) (x : list Z) : GCM128_CONTEXT :=
  GcmCtx (Yi ctx) (EKi ctx) (EK0 ctx) (len_aad ctx) (len_msg ctx) x (H ctx) (Htable ctx) (mres ctx) (ares ctx).
Definition set_Yi (ctx : GCM128_CONTEXT) (y : list Z) : GCM128_CONTEXT :=
  GcmCtx y (EKi ctx) (EK0 ctx) (len_aad ctx) (len_msg ctx) (Xi ctx) (H ctx) (Htable ctx) (mres ctx) (ares ctx).
Definition set_EKi (ctx : GCM128_CONTEXT) (e : list Z) : GCM128_CONTEXT :=
  GcmCtx (Yi ctx) e (EK0 ctx) (len_aad ctx) (len_msg ctx) (Xi ctx) (H ctx) (Htable ctx) (mres ctx) (ares ctx).
Definition set_EK0 (ctx : GCM128_CONTEXT) (e : list Z) : GCM128_CONTEXT :=
  GcmCtx (Yi ctx) (EKi ctx) e (len_aad ctx) (len_msg ctx) (Xi ctx) (H ctx) (Htable ctx) (mres ctx) (ares ctx).
Definition set_len (ctx : GCM128_CONTEXT) (a m : Z) : GCM128_CONTEXT :=
  GcmCtx (Yi ctx) (EKi ctx) (EK0 ctx) a m (Xi ctx) (H ctx) (Htable ctx) (mres ctx) (ares ctx).
Definition set_res (ctx : GCM128_CONTEXT) (m a : nat) : GCM128_CONTEXT :=
  GcmCtx (Yi ctx) (EKi ctx) (EK0 ctx) (len_aad ctx) (len_msg ctx) (Xi ctx) (H ctx) (Htable ctx) m a.

(** [GCM_MUL(ctx, Xi)] *)
Definition GCM_MUL (ctx : GCM128_CONTEXT) : GCM128_CONTEXT :=
  set_Xi ctx (gcm_gmult_4bit (Htable ctx) (Xi ctx)).

(** [Xi] after [k] whole blocks of [inp]: [GHASH(ctx, in, len)], or in small builds the loop with
    [GCM_MUL]. *)
Fixpoint mul_blocks (ctx : GCM128_CONTEXT) (inp : list Z) (k : nat) : GCM128_CONTEXT :=
  match k with
  | O => ctx
  | S k => mul_blocks (GCM_MUL (set_Xi ctx (xor_at (Xi ctx) 0 (take 16 inp)))) (drop 16 inp) k
  end.
Definition hash_blocks (small : bool) (ctx : GCM128_CONTEXT) (inp : list Z) (k : nat) : GCM128_CONTEXT :=
  if small then mul_blocks ctx inp k
  else set_Xi ctx (gcm_ghash_4bit (Htable ctx) (Xi ctx) inp k).

Ltac ctx_cbn :=
  cbn [fst snd set_Xi set_Yi set_EKi set_EK0 set_len set_res Yi EKi EK0 len_aad len_msg Xi H Htable mres ares].

Section gcm.
Context (blk : list Z → list Z).

Definition CRYPTO_gcm128_init (small : bool) : GCM128_CONTEXT :=
  let z := replicate 16 0 in
  let c := blk z in
  let h := U128 (be_load (take 8 c)) (be_load (drop 8 c)) in
  GcmCtx z z z 0 0 z h (gcm_init_4bit small (replicate 16 (U128 0 0)) h) 0 0.

(** [malloc] answers the allocation of the context. *)
Definition CRYPTO_gcm128_new (malloc small : bool) : option GCM128_CONTEXT :=
  if malloc then Some (CRYPTO_gcm128_init small) else None.

(** The [while (len >= 16)] loop and the rest of an initialisation vector. *)
Fixpoint iv_loop (T : list u128) (y iv : list Z) (fuel : nat) : list Z :=
  match fuel with
  | O => y
  | S fuel =>
      if (16 <=? length iv)%nat then
        iv_loop T (gcm_gmult_4bit T (xor_at y 0 (take 16 iv))) (drop 16 iv) fuel
      else match iv with [] => y | _ => gcm_gmult_4bit T (xor_at y 0 iv) end
  end.

Definition CRYPTO_gcm128_setiv (ctx : GCM128_CONTEXT) (iv : list Z) : GCM128_CONTEXT :=
  let z := replicate 16 0 in
  let ctx := set_res (set_len (set_Xi (set_Yi ctx z) z) 0 0) 0 0 in
  let '(y, ctr) :=
    if (length iv =? 12)%nat then (<[15%nat := 1]> (splice (Yi ctx) 0 iv), 1)
    else
      let y := iv_loop (Htable ctx) (Yi ctx) iv (S (length iv)) in
      let len0 := u64 (Z.of_nat (length iv) ≪ 3) in
      let y := xor_at y 8 (be_store 8 len0) in
      let y := gcm_gmult_4bit (Htable ctx) y in
      (y, GETU32 y 12) in
  let ctx := set_EK0 ctx (blk y) in
  set_Yi ctx (PUTU32 y 12 (u32 (ctr + 1))).

(** [ctx->Xi.c[n] ^= ...] while a block is incomplete: the context, the new [n] and the data left. *)
Fixpoint aad_head (x : list Z) (n : nat) (aad : list Z) : list Z * nat * list Z :=
  match aad with
  | [] => (x, n, [])
  | a :: rest =>
      if (n =? 0)%nat then (x, n, aad)
      else aad_head (<[n := Z.lxor (nthZ x n) a]> x) ((n + 1) mod 16)%nat rest
  end.

(** [len & (size_t)-16] *)
Definition whole (l : list Z) : nat := (16 * (length l / 16))%nat.

Definition CRYPTO_gcm128_aad (small : bool) (ctx : GCM128_CONTEXT) (aad : list Z) : Z * GCM128_CONTEXT :=
  let len := Z.of_nat (length aad) in
  if negb (len_msg ctx =? 0) then (-2, ctx)
  else
    let alen := u64 (len_aad ctx + len) in
    if (1 ≪ 61 <? alen) || (alen <? len) then (-1, ctx)
    else
      let ctx := set_len ctx alen (len_msg ctx) in
      let finish ctx n aad :=
        let i := whole aad in
        let ctx := if (i =? 0)%nat then ctx else hash_blocks small ctx aad (i / 16) in
        let aad := drop i aad in
        match aad with
        | [] => (0, set_res ctx (mres ctx) n)
        | _ => (0, set_res (set_Xi ctx (xor_at (Xi ctx) 0 aad)) (mres ctx) (length aad))
        end in
      let n := ares ctx in
      if (n =? 0)%nat then finish ctx n aad
      else
        let '(x, n, aad) := aad_head (Xi ctx) n aad in
        let ctx := set_Xi ctx x in
        if (n =? 0)%nat then finish (GCM_MUL ctx) n aad
        else (0, set_res ctx (mres ctx) n).

(** ** Encryption and decryption

    The state of a call is the context and the variable [ctr]. *)

(** The next block of the key stream. *)
Definition next_block (s : GCM128_CONTEXT * Z) : GCM128_CONTEXT * Z :=
  let '(ctx, ctr) := s in
  let ctr' := u32 (ctr + 1) in
  (set_Yi (set_EKi ctx (blk (Yi ctx))) (PUTU32 (Yi ctx) 12 ctr'), ctr').

(** The steps inside a block: a byte, and sixteen bytes by words, which are hashed later. *)
Definition gcm_raw (dec : bool) : mode (GCM128_CONTEXT * Z) := Mode
  next_block
  (λ s n x,
     let '(ctx, ctr) := s in
     let o := Z.lxor x (nthZ (EKi ctx) n) in
     let t := if dec then x else o in
     (o, (set_Xi ctx (<[n := Z.lxor (nthZ (Xi ctx) n) t]> (Xi ctx)), ctr)))
  (λ s l, (xor_words l (EKi s.1), s)).

(** A byte of the byte loop, which multiplies when [n] becomes 0. *)
Definition gcm_mode (dec : bool) : mode (GCM128_CONTEXT * Z) := Mode
  next_block
  (λ s n x,
     let '(o, s) := step (gcm_raw dec) s n x in
     (o, if ((n + 1) mod 16 =? 0)%nat then (GCM_MUL s.1, s.2) else s))
  (λ s l, (l, s)).

(** A run of whole blocks, and its hash before (decryption) or after. *)
Definition crypt_blocks (dec : bool) (s : GCM128_CONTEXT * Z) (chunk : list Z)
    : list Z * (GCM128_CONTEXT * Z) :=
  let k := (length chunk / 16)%nat in
  let s := if dec then (hash_blocks false s.1 chunk k, s.2) else s in
  let '(o, _, s) := block_loop (gcm_raw dec) k chunk s in
  (o, if dec then s else (hash_blocks false s.1 o k, s.2)).

(** The same with a call of the stream function. *)
Definition crypt_stream (dec small : bool) (func : ctr128_f) (s : GCM128_CONTEXT * Z) (chunk : list Z)
    : list Z * (GCM128_CONTEXT * Z) :=
  let k := (length chunk / 16)%nat in
  let '(ctx, ctr) := s in
  let ctx := if dec then hash_blocks small ctx chunk k else ctx in
  let o := func chunk k (Yi ctx) in
  let ctr := u32 (ctr + Z.of_nat k) in
  let ctx := set_Yi ctx (PUTU32 (Yi ctx) 12 ctr) in
  (o, (if dec then ctx else hash_blocks small ctx o k, ctr)).

Definition GHASH_CHUNK : nat := 3072.

(** [while (len >= GHASH_CHUNK)]: the bytes written, the input left and the state. *)
Fixpoint chunk_loop (f : GCM128_CONTEXT * Z → list Z → list Z * (GCM128_CONTEXT * Z)) (fuel : nat)
    (inp : list Z) (s : GCM128_CONTEXT * Z) : list Z * list Z * (GCM128_CONTEXT * Z) :=
  match fuel with
  | O => ([], inp, s)
  | S fuel =>
      if (GHASH_CHUNK <=? length inp)%nat then
        let '(o, s) := f s (take GHASH_CHUNK inp) in
        let '(out, rest, s) := chunk_loop f fuel (drop GHASH_CHUNK inp) s in
        (o ++ out, rest, s)
      else ([], inp, s)
  end.

(** From the start of a block: chunks, whole blocks and a partial block; [chunks] tells whether
    the loop over chunks is compiled. *)
Definition crypt_rest (dec chunks : bool) (f : GCM128_CONTEXT * Z → list Z → list Z * (GCM128_CONTEXT * Z))
    (inp : list Z) (s : GCM128_CONTEXT * Z) : list Z * (GCM128_CONTEXT * Z) * nat :=
  let '(out1, inp, s) := if chunks then chunk_loop f (length inp) inp s else ([], inp, s) in
  let i := whole inp in
  let '(out2, s) := if (i =? 0)%nat then ([], s) else f s (take i inp) in
  match drop i inp with
  | [] => (out1 ++ out2, s, 0%nat)
  | tail =>
      let '(out3, s, n) := rest_loop (gcm_raw dec) tail (next_block s) 0 in
      (out1 ++ out2 ++ out3, s, n)
  end.

(** The part the four functions share: the limit of the length, the end of the additional data and
    the current block; [k] goes on from the start of a block with [n = 0]. *)
Definition crypt_start (ctx : GCM128_CONTEXT) (inp : list Z) : option (GCM128_CONTEXT * Z) :=
  let len := Z.of_nat (length inp) in
  let mlen := u64 (len_msg ctx + len) in
  if ((1 ≪ 36) - 32 <? mlen) || (mlen <? len) then None
  else
    let ctx := set_len ctx (len_aad ctx) mlen in
    let ctx := if (ares ctx =? 0)%nat then ctx else set_res (GCM_MUL ctx) (mres ctx) 0 in
    Some (ctx, GETU32 (Yi ctx) 12).

Definition crypt_head (dec : bool) (inp : list Z) (s : GCM128_CONTEXT * Z) (n : nat)
    (k : list Z → GCM128_CONTEXT * Z → list Z * (GCM128_CONTEXT * Z) * nat)
    : list Z * (GCM128_CONTEXT * Z) * nat :=
  if (n =? 0)%nat then k inp s
  else
    let '(out0, inp, s, n) := head_loop (gcm_raw dec) inp s n in
    if (n =? 0)%nat then
      let '(out, s, n) := k inp (GCM_MUL s.1, s.2) in (out0 ++ out, s, n)
    else (out0, s, n).

(** The end: [ctx->mres = n; return 0]. *)
Definition crypt_end (r : list Z * (GCM128_CONTEXT * Z) * nat) : Z * list Z * GCM128_CONTEXT :=
  let '(out, (ctx, _), n) := r in (0, out, set_res ctx n (ares ctx)).

(** Return value, bytes written, context. *)
Definition gcm128_crypt (dec small aligned : bool) (ctx : GCM128_CONTEXT) (inp : list Z)
    : Z * list Z * GCM128_CONTEXT :=
  match crypt_start ctx inp with
  | None => (-1, [], ctx)
  | Some s =>
      let n := mres ctx in
      crypt_end
        (if small then byte_loop (gcm_mode dec) inp s n
         else crypt_head dec inp s n (λ inp s,
           if aligned then crypt_rest dec true (crypt_blocks dec) inp s
           else byte_loop (gcm_mode dec) inp s 0))
  end.

Definition CRYPTO_gcm128_encrypt := gcm128_crypt false.
Definition CRYPTO_gcm128_decrypt := gcm128_crypt true.

Definition gcm128_crypt_ctr32 (dec small : bool) (ctx : GCM128_CONTEXT) (inp : list Z) (func : ctr128_f)
    : Z * list Z * GCM128_CONTEXT :=
  match crypt_start ctx inp with
  | None => (-1, [], ctx)
  | Some s =>
      crypt_end (crypt_head dec inp s (mres ctx)
        (crypt_rest dec (negb small) (crypt_stream dec small func)))
  end.

Definition CRYPTO_gcm128_encrypt_ctr32 := gcm128_crypt_ctr32 false.
Definition CRYPTO_gcm128_decrypt_ctr32 := gcm128_crypt_ctr32 true.

(** [tag] is [None] for a null pointer. *)
Definition CRYPTO_gcm128_finish (ctx : GCM128_CONTEXT) (tag : option (list Z)) (len : nat)
    : Z * GCM128_CONTEXT :=
  let alen := u64 (len_aad ctx ≪ 3) in
  let clen := u64 (len_msg ctx ≪ 3) in
  let ctx := if negb (mres ctx =? 0)%nat || negb (ares ctx =? 0)%nat then GCM_MUL ctx else ctx in
  let ctx := set_Xi ctx (xor_words (Xi ctx) (be_store 8 alen ++ be_store 8 clen)) in
  let ctx := GCM_MUL ctx in
  let ctx := set_Xi ctx (xor_words (Xi ctx) (EK0 ctx)) in
  match tag with
  | Some t => if (len <=? 16)%nat then (CRYPTO_memcmp (Xi ctx) t len, ctx) else (-1, ctx)
  | None => (-1, ctx)
  end.

(** The bytes written at [tag], and the context. *)
Definition CRYPTO_gcm128_tag (ctx : GCM128_CONTEXT) (len : nat) : list Z * GCM128_CONTEXT :=
  let '(_, ctx) := CRYPTO_gcm128_finish ctx None 0 in
  (take (if (len <=? 16)%nat then len else 16%nat) (Xi ctx), ctx).
End gcm.

(** ** The specification *)

(** The counter block [i] steps after [Y]: its last four bytes count modulo [2^32]. *)
Definition inc32 (Y : list Z) (i : Z) : list Z := take 12 Y ++ be_store 4 (be_load (drop 12 Y) + i).

(** SP 800-38D, algorithm 3. *)
Definition GCTR (blk : list Z → list Z) (Y P : list Z) : list Z :=
  xor_bytes P (concat (map (λ i, blk (inc32 Y (Z.of_nat i))) (seq 0 (blocks_of (length P))))).

Definition bit_length (l : list Z) : list Z := be_store 8 (8 * Z.of_nat (length l)).

(** The block before the first counter block. *)
Definition gcm_J0 (h iv : list Z) : list Z :=
  if (length iv =? 12)%nat then iv ++ [0; 0; 0; 1]
  else GHASH h (replicate 16 0) (pad_blocks iv ++ [replicate 8 0 ++ bit_length iv]).

Definition gcm_tag (blk : list Z → list Z) (h J0 A C : list Z) : list Z :=
  xor_bytes (GHASH h (replicate 16 0) (pad_blocks A ++ pad_blocks C ++ [bit_length A ++ bit_length C])) (blk J0).

(** Hashing byte by byte, from position [n] of a block. *)
Fixpoint absorb (h x : list Z) (n : nat) (l : list Z) : list Z :=
  match l with
  | [] => x
  | a :: l =>
      let x := <[n := Z.lxor (nthZ x n) a]> x in
      if ((n + 1) mod 16 =? 0)%nat then absorb h (gf_block x h) 0 l else absorb h x ((n + 1) mod 16) l
  end.

(** What the code relies on: the stream function counts modulo [2^32] and does not change [ivec]. *)
Class Ctr32Wrap (blk : list Z → list Z) (func : ctr128_f) : Prop :=
  ctr32_wrap : ∀ inp k iv, block iv → bytes inp → (16 * k ≤ length inp)%nat →
    func inp k iv =
    xor_bytes (take (16 * k) inp) (concat (map (λ i, blk (inc32 iv (Z.of_nat i))) (seq 0 k))).

#[global] Instance ctr32_ref_wrap blk : Ctr32Wrap blk (ctr32_ref blk).
Proof. by intros ?. Qed.

(** ** Counters *)

Lemma block_inc32 Y i : block Y → block (inc32 Y i).
Proof. intros [Hb Hl]. unfold inc32. split; [auto with vtls|len]. Qed.
#[export] Hint Resolve block_inc32 : vtls.

Lemma inc32_add Y i j : block Y → inc32 (inc32 Y i) j = inc32 Y (i + j).
Proof.
  intros [Hb Hl]. unfold inc32. rewrite take_app_exact, drop_app_exact by len. f_equal.
  apply be_load_inj; [auto with vtls..|len|]. rewrite !be_load_store.
  rewrite Z.add_mod_idemp_l by (apply Z.pow_nonzero; lia). f_equal. lia.
Qed.

Lemma inc32_0 Y : block Y → inc32 Y 0 = Y.
Proof.
  intros [Hb Hl]. unfold inc32. rewrite Z.add_0_r.
  pose proof (be_store_load (drop 12 Y) ltac:(auto with vtls)) as E. rewrite length_drop, Hl in E.
  change (16 - 12)%nat with 4%nat in E. rewrite E. apply take_drop.
Qed.

Lemma put_inc32 Y i : block Y → PUTU32 Y 12 (u32 (GETU32 Y 12 + i)) = inc32 Y i.
Proof.
  intros HY. rewrite PUTU32_eq by done. unfold inc32. destruct (be_load_12_4 Y HY) as (_ & _ & _ & ->).
  f_equal. apply (be_store_mod 4 _ 32). lia.
Qed.

Lemma get_inc32 Y i : block Y → GETU32 (inc32 Y i) 12 = u32 (GETU32 Y 12 + i).
Proof.
  intros HY. destruct (be_load_12_4 _ (block_inc32 Y i HY)) as (_ & _ & _ & ->).
  destruct (be_load_12_4 Y HY) as (_ & _ & _ & ->). pose proof HY as [Hb Hl].
  unfold inc32. by rewrite drop_app_exact, be_load_store by len.
Qed.

(** ** Hashing byte by byte *)

Lemma block_insert_xor x n a : block x → is_byte a → block (<[n := Z.lxor (nthZ x n) a]> x).
Proof. intros [Hb Hl] Ha. split; [apply Forall_insert; auto with vtls|len]. Qed.
#[export] Hint Resolve block_insert_xor : vtls.

Lemma block_absorb h l : ∀ x n, block x → bytes l → block (absorb h x n l).
Proof.
  induction l as [|a l IH]; intros x n Hx Hl; cbn [absorb]; [done|].
  apply bytes_cons_inv in Hl as [Ha Hl]. destruct (_ =? _)%nat; apply IH; auto with vtls.
Qed.

Lemma mod16_lt n : (n mod 16 < 16)%nat.
Proof. apply Nat.mod_upper_bound. lia. Qed.
#[export] Hint Resolve mod16_lt : vtls.

Lemma absorb_app h a b : ∀ x n, (n < 16)%nat →
  absorb h x n (a ++ b) = absorb h (absorb h x n a) ((n + length a) mod 16) b.
Proof.
  induction a as [|y a IH]; intros x n Hn; cbn [absorb app length].
  { by rewrite Nat.add_0_r, Nat.mod_small. }
  assert ((n + S (length a)) mod 16 = ((n + 1) mod 16 + length a) mod 16)%nat as ->.
  { rewrite Nat.Div0.add_mod_idemp_l. f_equal. lia. }
  destruct (Nat.eqb_spec ((n + 1) mod 16) 0) as [->|]; [|apply IH, mod16_lt].
  rewrite IH by lia. done.
Qed.

(** Inside a block the bytes are only added. *)
Lemma insert_xor_bytes a : ∀ x p n, length x = length p → nthZ p n = 0 →
  <[n := Z.lxor (nthZ (xor_bytes x p) n) a]> (xor_bytes x p) = xor_bytes x (<[n := a]> p).
Proof.
  induction x as [|y x IH]; intros [|z p] n Hl Hz; try done. injection Hl as Hl. destruct n as [|n].
  - unfold nthZ in Hz. cbn in Hz. subst z. cbn. by rewrite Z.lxor_0_r.
  - change (y :: x) with ([y] ++ x). specialize (IH p n Hl Hz). cbn. f_equal. exact IH.
Qed.

Lemma zero_pad_snoc l a : (length l < 16)%nat → <[length l := a]> (zero_pad l) = zero_pad (l ++ [a]).
Proof.
  intros Hl. unfold zero_pad. rewrite insert_app_r_alt by lia. rewrite Nat.sub_diag, length_app.
  replace (16 - length l)%nat with (S (15 - length l)) by lia. cbn [replicate insert list_insert length].
  replace (16 - (length l + 1))%nat with (15 - length l)%nat by lia. by rewrite <- app_assoc.
Qed.

Lemma nthZ_zero_pad l : nthZ (zero_pad l) (length l) = 0.
Proof.
  unfold zero_pad, nthZ. rewrite app_nth2, Nat.sub_diag by lia. by destruct (16 - length l)%nat.
Qed.

Lemma absorb_snoc h x l a : block x → bytes l → (length l < 16)%nat →
  absorb h x 0 l = xor_bytes x (zero_pad l) →
  absorb h x 0 (l ++ [a]) =
  if (length l =? 15)%nat then gf_block (xor_bytes x (zero_pad (l ++ [a]))) h
  else xor_bytes x (zero_pad (l ++ [a])).
Proof.
  intros [Hb Hx] Hlb Hl E. rewrite absorb_app, E by lia. cbn [Nat.add].
  rewrite Nat.mod_small by done. cbn [absorb].
  rewrite insert_xor_bytes, zero_pad_snoc by
    (done || apply nthZ_zero_pad || (rewrite Hx; unfold zero_pad; len)).
  destruct (Nat.eqb_spec (length l) 15) as [->|].
  - done.
  - rewrite Nat.mod_small by lia. by rewrite (proj2 (Nat.eqb_neq _ 0)) by lia.
Qed.

Lemma absorb_short h x l : block x → bytes l → (length l < 16)%nat → absorb h x 0 l = xor_bytes x (zero_pad l).
Proof.
  intros Hx Hb Hl. induction l as [|a l IH] using rev_ind.
  { change (x = xor_bytes x (replicate 16 0)). by rewrite xor_bytes_0_r by (by rewrite (block_length x Hx)). }
  apply Forall_app in Hb as [Hb _]. rewrite length_app in Hl. cbn [length] in Hl.
  rewrite absorb_snoc by (auto with lia). by rewrite (proj2 (Nat.eqb_neq _ 15)) by lia.
Qed.

Lemma absorb_block h x b : block x → block b → absorb h x 0 b = gf_block (xor_bytes x b) h.
Proof.
  intros Hx Hb. pose proof Hb as [Hbb Hl]. destruct b as [|a l _] using rev_ind; [done|].
  pose proof Hbb as Hbb'. apply Forall_app in Hbb' as [Hlb _]. rewrite length_app in Hl. cbn [length] in Hl.
  rewrite absorb_snoc by (auto using absorb_short with lia).
  rewrite (proj2 (Nat.eqb_eq _ 15)) by lia. by rewrite zero_pad_block.
Qed.

Lemma absorb_blocks h bs : Forall block bs → ∀ x, block x → absorb h x 0 (concat bs) = GHASH h x bs.
Proof.
  induction 1 as [|b bs Hb Hbs IH]; intros x Hx; [done|]. cbn [concat].
  rewrite absorb_app, absorb_block by (done || lia). cbn [Nat.add]. destruct Hb as [Hbb ->].
  change (16 mod 16)%nat with 0%nat. rewrite IH by auto with vtls. done.
Qed.

Lemma blocks_mod bs (r : list Z) : Forall block bs → (length (concat bs ++ r) mod 16 = length r mod 16)%nat.
Proof.
  intros Hbs. rewrite length_app, length_concat_blocks by done.
  rewrite Nat.mul_comm, Nat.add_comm. apply Nat.Div0.mod_add.
Qed.

Lemma GHASH_app h x a b : GHASH h x (a ++ b) = GHASH h (GHASH h x a) b.
Proof. apply fold_left_app. Qed.

(** The end of the data completes the last block with zeros. *)
Lemma absorb_pad h x l : block x → bytes l →
  GHASH h x (pad_blocks l) =
  if (length l mod 16 =? 0)%nat then absorb h x 0 l else gf_block (absorb h x 0 l) h.
Proof.
  intros Hx Hl. destruct (split_blocks l Hl) as (bs & r & -> & Hbs & Hr & Hlr).
  rewrite pad_blocks_concat, blocks_mod, absorb_app, absorb_blocks, Nat.mod_small by (done || lia).
  cbn [Nat.add]. rewrite <- (app_nil_r (concat bs)), blocks_mod by done. change (length [] mod 16)%nat with 0%nat.
  destruct r as [|a r]; [by rewrite app_nil_r|]. rewrite GHASH_app, absorb_short by auto using block_GHASH with lia.
  done.
Qed.

(** ** Runs of a call

    [runs dec s n inp out s' n'] says that from state [s] at position [n] of a block the text [inp]
    is turned into [out] by the counter mode and hashed, in the way the byte loop does it.  The current
    block of the key stream matters only inside a block. *)

Section runs.
Context (blk : list Z → list Z) `{!BlockFn blk} (h : list Z).

Definition ctrm : mode ctr_state := ctr_mode blk (λ y, inc32 y 1).

Record st_ok (s : GCM128_CONTEXT * Z) : Prop := {
  so_Yi : block (Yi s.1);
  so_EKi : block (EKi s.1);
  so_Xi : block (Xi s.1);
  so_table : is_table (Htable s.1) (be_load h);
  so_ctr : s.2 = GETU32 (Yi s.1) 12
}.

(** What a call leaves alone. *)
Definition same_frame (c c' : GCM128_CONTEXT) : Prop :=
  EK0 c' = EK0 c ∧ len_aad c' = len_aad c ∧ len_msg c' = len_msg c ∧ H c' = H c ∧ Htable c' = Htable c ∧
  mres c' = mres c ∧ ares c' = ares c.

Record runs (dec : bool) (s : GCM128_CONTEXT * Z) (n : nat) (inp out : list Z) (s' : GCM128_CONTEXT * Z) (n' : nat)
    : Prop := {
  ru_ctr : ∃ ec, byte_loop ctrm inp (CtrState (Yi s.1) (EKi s.1)) n = (out, CtrState (Yi s'.1) ec, n') ∧
                 (n' ≠ 0%nat → ec = EKi s'.1);
  ru_Xi : Xi s'.1 = absorb h (Xi s.1) n (if dec then inp else out);
  ru_ok : st_ok s';
  ru_frame : same_frame s.1 s'.1
}.

Lemma same_frame_trans a b c : same_frame a b → same_frame b c → same_frame a c.
Proof. unfold same_frame. naive_solver congruence. Qed.

Lemma length_ctrm inp s n out s' n' : byte_loop ctrm inp s n = (out, s', n') → length out = length inp.
Proof. intros E. pose proof (length_byte_loop ctrm inp s n) as L. by rewrite E in L. Qed.

Lemma ctrm_pos inp : ∀ s n out s' n', (n < 16)%nat → byte_loop ctrm inp s n = (out, s', n') →
  n' = ((n + length inp) mod 16)%nat.
Proof.
  induction inp as [|x inp IH]; intros s n out s' n' Hn; cbn.
  { intros [= _ _ <-]. by rewrite Nat.add_0_r, Nat.mod_small. }
  set (s0 := if (n =? 0)%nat then _ else s). destruct (byte_loop ctrm inp s0 ((n + 1) mod 16)) as [[o s1] n1] eqn:E.
  intros [= _ _ <-]. apply IH in E as ->; [|apply mod16_lt].
  rewrite Nat.Div0.add_mod_idemp_l. f_equal. lia.
Qed.

(** At the start of a block the old block of the key stream is not used. *)
Lemma ctrm_restart inp Y e e' out Y' ec n' : byte_loop ctrm inp (CtrState Y e) 0 = (out, CtrState Y' ec, n') →
  ∃ ec', byte_loop ctrm inp (CtrState Y e') 0 = (out, CtrState Y' ec', n') ∧ (n' ≠ 0%nat → ec' = ec).
Proof.
  destruct inp as [|x inp]; cbn.
  - intros [= <- <- _ <-]. by exists e'.
  - intros E. by exists ec.
Qed.

Lemma runs_nil dec s n : st_ok s → runs dec s n [] [] s n.
Proof.
  intros Hs. split; [by exists (EKi s.1)|by destruct dec|done|done].
Qed.

Lemma runs_app dec s n i1 o1 s1 n1 i2 o2 s2 n2 : (n < 16)%nat →
  runs dec s n i1 o1 s1 n1 → runs dec s1 n1 i2 o2 s2 n2 → runs dec s n (i1 ++ i2) (o1 ++ o2) s2 n2.
Proof.
  intros Hn [(e1 & E1 & K1) X1 S1 F1] [(e2 & E2 & K2) X2 S2 F2].
  pose proof (length_ctrm _ _ _ _ _ _ E1) as L1. pose proof (ctrm_pos _ _ _ _ _ _ Hn E1) as P1. split.
  - rewrite byte_loop_app, E1. destruct (decide (n1 = 0%nat)) as [->|Hn1].
    + destruct (ctrm_restart _ _ _ e1 _ _ _ _ E2) as (e3 & E3 & K3). rewrite E3. exists e3. split; [done|].
      intros Hz. rewrite K3 by done. by apply K2.
    + rewrite K1, E2 by done. by exists e2.
  - rewrite X2, X1, P1. destruct dec; [by rewrite absorb_app|].
    by rewrite absorb_app, L1.
  - done.
  - by eapply same_frame_trans.
Qed.

(** *** The byte loop *)

Lemma next_block_ok s : st_ok s → st_ok (next_block blk s) ∧ same_frame s.1 (next_block blk s).1 ∧
  Yi (next_block blk s).1 = inc32 (Yi s.1) 1 ∧ EKi (next_block blk s).1 = blk (Yi s.1) ∧
  Xi (next_block blk s).1 = Xi s.1.
Proof.
  intros [HY HE HX HT Hc]. destruct s as [ctx ctr]. cbn [fst snd] in *. subst ctr. unfold next_block.
  rewrite put_inc32 by done. split; [|done].
  split; cbn; auto with vtls. by rewrite get_inc32.
Qed.

Lemma GCM_MUL_spec ctx : is_table (Htable ctx) (be_load h) → block (Xi ctx) →
  GCM_MUL ctx = set_Xi ctx (gf_block (Xi ctx) h).
Proof. intros. unfold GCM_MUL. by rewrite (gmult_spec _ h). Qed.

Lemma set_Xi_ok s x : st_ok s → block x → st_ok (set_Xi s.1 x, s.2).
Proof. intros [] Hx. by split. Qed.

Lemma runs_step dec s n x : st_ok s → is_byte x → (n < 16)%nat →
  let s0 := if (n =? 0)%nat then next_block blk s else s in
  let '(o, s1) := step (gcm_mode blk dec) s0 n x in
  runs dec s n [x] [o] s1 ((n + 1) mod 16).
Proof.
  intros Hs Hx Hn s0.
  assert (st_ok s0 ∧ same_frame s.1 s0.1 ∧ Xi s0.1 = Xi s.1) as (H0 & F0 & X0).
  { unfold s0. destruct (Nat.eqb_spec n 0); [|by split; [|split]].
    destruct (next_block_ok s Hs) as (? & ? & _ & _ & ?). done. }
  assert (CtrState (Yi s0.1) (EKi s0.1) =
    if (n =? 0)%nat then refresh ctrm (CtrState (Yi s.1) (EKi s.1)) else CtrState (Yi s.1) (EKi s.1)) as C0.
  { unfold s0. destruct (Nat.eqb_spec n 0); [|done].
    destruct (next_block_ok s Hs) as (_ & _ & -> & -> & _). done. }
  clearbody s0. destruct s0 as [ctx ctr]. cbn [fst snd] in *. cbn [gcm_mode gcm_raw step fst snd].
  set (o := Z.lxor x (nthZ (EKi ctx) n)). set (t := if dec then x else o).
  assert (is_byte t) as Ht.
  { unfold t, o. destruct dec; [done|]. apply is_byte_lxor; [done|]. destruct H0 as [_ [? _] _ _ _]. auto with vtls. }
  pose proof (set_Xi_ok (ctx, ctr) (<[n := Z.lxor (nthZ (Xi ctx) n) t]> (Xi ctx)) H0
    ltac:(destruct H0; cbn [fst] in *; auto with vtls)) as H1. cbn [fst snd] in H1.
  set (ctx1 := set_Xi ctx _) in *.
  assert (byte_loop ctrm [x] (CtrState (Yi s.1) (EKi s.1)) n
    = ([o], CtrState (Yi ctx) (EKi ctx), ((n + 1) mod 16)%nat)) as E.
  { cbn [byte_loop]. rewrite <- C0. reflexivity. }
  assert ((if dec then [x] else [o]) = [t]) as Et by (by destruct dec).
  destruct (Nat.eqb_spec ((n + 1) mod 16) 0) as [Hz|Hz].
  - rewrite GCM_MUL_spec by (destruct H1; done). split; cbn [fst snd].
    + by exists (EKi ctx).
    + rewrite Et. cbn [absorb set_Xi Xi]. rewrite Hz, Nat.eqb_refl. cbn. by rewrite X0.
    + apply (set_Xi_ok (ctx1, ctr)); auto with vtls.
    + done.
  - split; cbn [fst snd]; [by exists (EKi ctx)| |done|done].
    rewrite Et. cbn [absorb]. rewrite (proj2 (Nat.eqb_neq _ 0)) by done. cbn. by rewrite X0.
Qed.

Lemma runs_byte_loop dec inp : bytes inp → ∀ s n, st_ok s → (n < 16)%nat →
  ∃ out s' n', byte_loop (gcm_mode blk dec) inp s n = (out, s', n') ∧ runs dec s n inp out s' n'.
Proof.
  induction 1 as [|x inp Hx Hi IH]; intros s n Hs Hn.
  { exists [], s, n. split; [done|by apply runs_nil]. }
  cbn [byte_loop]. pose proof (runs_step dec s n x Hs Hx Hn) as R. cbv zeta in R.
  change (refresh (gcm_mode blk dec) s) with (next_block blk s).
  destruct (step (gcm_mode blk dec) _ n x) as [o s1].
  destruct (IH s1 ((n + 1) mod 16)%nat (ru_ok _ _ _ _ _ _ _ R) (mod16_lt _)) as (out & s' & n' & -> & R').
  exists (o :: out), s', n'. split; [done|]. exact (runs_app dec s n [x] [o] s1 _ inp out s' n' Hn R R').
Qed.

(** *** The current block and the last block *)

Lemma head_byte_loop dec inp : ∀ s n, n ≠ 0%nat → (n < 16)%nat →
  let '(out, rest, s1, n1) := head_loop (gcm_raw blk dec) inp s n in
  ∃ a, inp = a ++ rest ∧
    byte_loop (gcm_mode blk dec) a s n = (out, (if (n1 =? 0)%nat then (GCM_MUL s1.1, s1.2) else s1), n1) ∧
    (n1 ≠ 0%nat → rest = []).
Proof.
  induction inp as [|x inp IH]; intros s n Hn0 Hn; cbn [head_loop].
  { exists []. rewrite (proj2 (Nat.eqb_neq n 0)) by done. done. }
  rewrite (proj2 (Nat.eqb_neq n 0)) by done. destruct (step (gcm_raw blk dec) s n x) as [o s'] eqn:Es.
  destruct (decide ((n + 1) mod 16 = 0)%nat) as [Hz|Hz].
  - rewrite Hz. assert (head_loop (gcm_raw blk dec) inp s' 0 = ([], inp, s', 0%nat)) as -> by (by destruct inp).
    exists [x]. split; [done|]. split; [|done]. cbn [byte_loop]. rewrite (proj2 (Nat.eqb_neq n 0)) by done.
    cbn [gcm_mode step]. rewrite Es, Hz, Nat.eqb_refl. done.
  - specialize (IH s' ((n + 1) mod 16)%nat Hz (mod16_lt _)).
    destruct (head_loop (gcm_raw blk dec) inp s' _) as [[[out rest] s1] n1].
    destruct IH as (a & -> & E & Hr). exists (x :: a). split; [done|]. split; [|done].
    cbn [byte_loop]. rewrite (proj2 (Nat.eqb_neq n 0)) by done. cbn [gcm_mode step]. rewrite Es.
    rewrite (proj2 (Nat.eqb_neq ((n + 1) mod 16) 0)) by done.
    change (byte_loop _ a s' ((n + 1) mod 16)) with (byte_loop (gcm_mode blk dec) a s' ((n + 1) mod 16)).
    by rewrite E.
Qed.

Lemma raw_rest_loop dec inp : ∀ s n, (n + length inp < 16)%nat →
  rest_loop (gcm_raw blk dec) inp s n = rest_loop (gcm_mode blk dec) inp s n.
Proof.
  induction inp as [|x inp IH]; intros s n Hl; [done|]. cbn [rest_loop gcm_mode step length] in *.
  destruct (step (gcm_raw blk dec) s n x) as [o s']. rewrite Nat.mod_small by lia.
  rewrite (proj2 (Nat.eqb_neq (n + 1) 0)) by lia. rewrite IH by lia. done.
Qed.

Lemma runs_tail dec inp s : bytes inp → inp ≠ [] → (length inp < 16)%nat → st_ok s →
  ∃ out s' n', rest_loop (gcm_raw blk dec) inp (next_block blk s) 0 = (out, s', n') ∧ runs dec s 0 inp out s' n'.
Proof.
  intros Hi Hne Hl Hs. destruct (runs_byte_loop dec inp Hi s 0 Hs ltac:(lia)) as (out & s' & n' & E & R).
  exists out, s', n'. split; [|done]. rewrite raw_rest_loop by lia. destruct inp as [|x inp]; [done|].
  cbn [length] in Hl. rewrite rest_loop_start in E by lia. exact E.
Qed.

(** *** Whole blocks *)

Fixpoint gctr_blocks (Y : list Z) (bs : list (list Z)) : list (list Z) :=
  match bs with
  | [] => []
  | b :: bs => xor_bytes b (blk Y) :: gctr_blocks (inc32 Y 1) bs
  end.

Lemma blocks_gctr bs : Forall block bs → ∀ Y, block Y → Forall block (gctr_blocks Y bs).
Proof. induction 1; intros Y HY; cbn [gctr_blocks]; constructor; auto with vtls. Qed.

Lemma length_gctr Y bs : length (gctr_blocks Y bs) = length bs.
Proof. revert Y. induction bs as [|b bs IH]; intros Y; cbn; [done|by rewrite IH]. Qed.

Lemma ctrm_block Y e b : block Y → block e → block b →
  byte_loop ctrm b (CtrState Y e) 0 = (xor_bytes b (blk Y), CtrState (inc32 Y 1) (blk Y), 0%nat).
Proof.
  intros HY He Hb. rewrite (whole_block ctrm ctr_ok); [|..|done].
  - cbn. by rewrite xor_words_bytes by auto with vtls.
  - intros s [? ?]. split; cbn; auto with vtls.
  - intros s l Hs Hl. apply (ctr_step16 blk); done.
  - by split.
Qed.

Lemma ctrm_blocks bs : Forall block bs → ∀ Y e, block Y → block e → ∃ e',
  byte_loop ctrm (concat bs) (CtrState Y e) 0 =
    (concat (gctr_blocks Y bs), CtrState (inc32 Y (Z.of_nat (length bs))) e', 0%nat).
Proof.
  induction 1 as [|b bs Hb Hbs IH]; intros Y e HY He.
  { exists e. cbn. by rewrite inc32_0. }
  cbn [concat gctr_blocks length]. rewrite byte_loop_app, ctrm_block by done.
  destruct (IH (inc32 Y 1) (blk Y)) as [e' ->]; [auto with vtls..|]. exists e'.
  rewrite inc32_add by done. do 3 f_equal. f_equal. lia.
Qed.

Lemma raw_blocks dec bs : Forall block bs → ∀ s, st_ok s → ∃ s',
  block_loop (gcm_raw blk dec) (length bs) (concat bs) s = (concat (gctr_blocks (Yi s.1) bs), [], s') ∧
  st_ok s' ∧ same_frame s.1 s'.1 ∧ Xi s'.1 = Xi s.1 ∧ Yi s'.1 = inc32 (Yi s.1) (Z.of_nat (length bs)).
Proof.
  induction 1 as [|b bs Hb Hbs IH]; intros s Hs; pose proof (so_Yi s Hs) as HY.
  { exists s. cbn. by rewrite inc32_0. }
  cbn [length concat block_loop gctr_blocks]. rewrite (proj2 (Nat.leb_le _ _)) by (destruct Hb; len).
  rewrite take_app_exact, drop_app_exact by apply Hb. cbn [gcm_raw step16 refresh].
  destruct (next_block_ok s Hs) as (H1 & F1 & Y1 & E1 & X1).
  destruct (IH _ H1) as (s' & E & H2 & F2 & X2 & Y2).
  change (block_loop _ (length bs) (concat bs) (next_block blk s))
    with (block_loop (gcm_raw blk dec) (length bs) (concat bs) (next_block blk s)).
  rewrite E, E1, Y1, xor_words_bytes by auto with vtls. exists s'. split; [done|]. split; [done|].
  split; [by eapply same_frame_trans|]. split; [by rewrite X2|].
  rewrite Y2, Y1, inc32_add by done. f_equal. lia.
Qed.

Lemma mul_blocks_spec bs r : Forall block bs → ∀ ctx, is_table (Htable ctx) (be_load h) → block (Xi ctx) →
  mul_blocks ctx (concat bs ++ r) (length bs) = set_Xi ctx (GHASH h (Xi ctx) bs).
Proof.
  induction 1 as [|b bs Hb Hbs IH]; intros ctx HT HX; [by destruct ctx|].
  cbn [length mul_blocks concat]. rewrite <- app_assoc, take_app_exact, drop_app_exact by apply Hb.
  rewrite xor_at_zero_pad, zero_pad_block by (done || by rewrite block_length).
  rewrite GCM_MUL_spec by (cbn [set_Xi Htable Xi]; auto with vtls). rewrite IH by (cbn [set_Xi Htable Xi]; auto with vtls). done.
Qed.

Lemma hash_blocks_spec small bs r ctx : Forall block bs → is_table (Htable ctx) (be_load h) → block (Xi ctx) →
  hash_blocks small ctx (concat bs ++ r) (length bs) = set_Xi ctx (GHASH h (Xi ctx) bs).
Proof.
  intros Hbs HT HX. unfold hash_blocks. destruct small; [by apply mul_blocks_spec|]. by rewrite (ghash_spec _ h).
Qed.

(** Assembling a run of blocks from its parts. *)
Lemma runs_blocks (dec : bool) (s s' : GCM128_CONTEXT * Z) bs : Forall block bs → st_ok s → st_ok s' → same_frame s.1 s'.1 →
  Yi s'.1 = inc32 (Yi s.1) (Z.of_nat (length bs)) →
  Xi s'.1 = GHASH h (Xi s.1) (if dec then bs else gctr_blocks (Yi s.1) bs) →
  runs dec s 0 (concat bs) (concat (gctr_blocks (Yi s.1) bs)) s' 0.
Proof.
  intros Hbs Hs Hs' F Y X. pose proof Hs as [HY HE HX _ _]. split; [| |done|done].
  - destruct (ctrm_blocks bs Hbs _ _ HY HE) as [e' E]. rewrite Y. by exists e'.
  - rewrite X. destruct dec; rewrite absorb_blocks; auto using blocks_gctr.
Qed.

Lemma length_blocks_div bs : Forall block bs → (length (concat bs) / 16)%nat = length bs.
Proof. intros. rewrite length_concat_blocks, Nat.mul_comm by done. apply Nat.div_mul. lia. Qed.

Lemma runs_crypt_blocks dec s bs : Forall block bs → st_ok s →
  ∃ out s', crypt_blocks blk dec s (concat bs) = (out, s') ∧ runs dec s 0 (concat bs) out s' 0.
Proof.
  intros Hbs Hs. unfold crypt_blocks. rewrite length_blocks_div by done. pose proof Hs as [HY HE HX HT Hc].
  pose proof (blocks_gctr bs Hbs _ HY) as Hg. destruct dec.
  - pose proof (hash_blocks_spec false bs [] s.1 Hbs HT HX) as Eh. rewrite app_nil_r in Eh. rewrite Eh.
    pose proof (set_Xi_ok s (GHASH h (Xi s.1) bs) Hs (block_GHASH _ _ _ HX)) as H1.
    destruct (raw_blocks true bs Hbs _ H1) as (s' & -> & H2 & F & X & Y).
    exists (concat (gctr_blocks (Yi s.1) bs)), s'. split; [done|]. by apply runs_blocks.
  - destruct (raw_blocks false bs Hbs s Hs) as (s' & -> & H2 & F & X & Y).
    exists (concat (gctr_blocks (Yi s.1) bs)), (hash_blocks false s'.1 (concat (gctr_blocks (Yi s.1) bs)) (length bs), s'.2).
    split; [done|]. destruct (H2) as [HY2 HE2 HX2 HT2 Hc2].
    pose proof (hash_blocks_spec false _ [] s'.1 Hg HT2 HX2) as Eh. rewrite app_nil_r, length_gctr in Eh. rewrite Eh.
    apply runs_blocks; [done|done|by apply set_Xi_ok; [|apply block_GHASH]|done|done|].
    cbn. by rewrite X.
Qed.

Lemma gctr_blocks_stream bs : Forall block bs → ∀ Y, block Y →
  xor_bytes (concat bs) (concat (map (λ i, blk (inc32 Y (Z.of_nat i))) (seq 0 (length bs)))) =
  concat (gctr_blocks Y bs).
Proof.
  induction 1 as [|b bs Hb Hbs IH]; intros Y HY; [done|]. cbn [length seq map concat gctr_blocks].
  rewrite xor_bytes_app by (rewrite !block_length by auto with vtls; done).
  rewrite inc32_0 by done. f_equal. rewrite <- IH by auto with vtls. f_equal. f_equal.
  rewrite <- seq_shift, map_map. apply map_ext. intros i. rewrite inc32_add by done. do 2 f_equal. lia.
Qed.

Lemma runs_crypt_stream dec small func `{!Ctr32Wrap blk func} s bs : Forall block bs → st_ok s →
  ∃ out s', crypt_stream dec small func s (concat bs) = (out, s') ∧ runs dec s 0 (concat bs) out s' 0.
Proof.
  intros Hbs Hs. unfold crypt_stream. rewrite length_blocks_div by done. pose proof Hs as [HY HE HX HT Hc].
  pose proof (blocks_gctr bs Hbs _ HY) as Hg. destruct s as [ctx ctr]. cbn [fst snd] in *. subst ctr.
  pose proof (length_concat_blocks bs Hbs) as L.
  assert (func (concat bs) (length bs) (Yi ctx) = concat (gctr_blocks (Yi ctx) bs)) as Ef.
  { rewrite ctr32_wrap by (auto with vtls || lia). rewrite take_ge by lia. by apply gctr_blocks_stream. }
  assert (∀ c, block (Xi c) → Yi c = Yi ctx → EKi c = EKi ctx → Htable c = Htable ctx →
    st_ok (set_Yi c (inc32 (Yi ctx) (Z.of_nat (length bs))), u32 (GETU32 (Yi ctx) 12 + Z.of_nat (length bs)))) as Hok.
  { intros c H1 H2 H3 H4. split; cbn; auto with vtls; [by rewrite H3|by rewrite H4|by rewrite get_inc32]. }
  exists (concat (gctr_blocks (Yi ctx) bs)). destruct dec.
  - pose proof (hash_blocks_spec small bs [] ctx Hbs HT HX) as Eh. rewrite app_nil_r in Eh. rewrite Eh.
    eexists. split; [cbn [set_Xi Yi]; rewrite Ef; reflexivity|]. rewrite put_inc32 by done.
    apply runs_blocks; [done|done| |done|done|done]. apply Hok; try done. by apply block_GHASH.
  - eexists. split; [rewrite Ef; reflexivity|]. rewrite put_inc32 by done.
    set (ctx1 := set_Yi ctx _).
    pose proof (hash_blocks_spec small _ [] ctx1 Hg HT HX) as Eh. rewrite app_nil_r, length_gctr in Eh. rewrite Eh.
    apply runs_blocks; [done|done| |done|done|done].
    apply (set_Xi_ok (ctx1, u32 (GETU32 (Yi ctx) 12 + Z.of_nat (length bs)))); [by apply Hok|by apply block_GHASH].
Qed.

(** *** From the start of a block *)

Section rest.
Context (dec : bool) (f : GCM128_CONTEXT * Z → list Z → list Z * (GCM128_CONTEXT * Z)).
Context (f_runs : ∀ s bs, Forall block bs → st_ok s →
  ∃ out s', f s (concat bs) = (out, s') ∧ runs dec s 0 (concat bs) out s' 0).

Lemma prefix_blocks l k : bytes l → (16 * k ≤ length l)%nat → ∃ bs, Forall block bs ∧ take (16 * k) l = concat bs.
Proof.
  intros Hb. revert l Hb. induction k as [|k IH]; intros l Hb Hl.
  { exists []. split; [constructor|]. by rewrite Nat.mul_0_r. }
  destruct (IH (drop 16 l) ltac:(auto with vtls) ltac:(len)) as (bs & Hbs & E).
  exists (take 16 l :: bs). split; [constructor; [apply block_take16; [done|lia]|done]|].
  cbn [concat]. rewrite <- E, take_take_drop. f_equal. lia.
Qed.

Lemma runs_f s l k : bytes l → (16 * k ≤ length l)%nat → st_ok s →
  ∃ out s', f s (take (16 * k) l) = (out, s') ∧ runs dec s 0 (take (16 * k) l) out s' 0.
Proof. intros Hb Hl Hs. destruct (prefix_blocks l k Hb Hl) as (bs & Hbs & ->). by apply f_runs. Qed.

Lemma runs_chunks fuel : ∀ inp s, bytes inp → st_ok s →
  ∃ a rest out s', chunk_loop f fuel inp s = (out, rest, s') ∧ inp = a ++ rest ∧ runs dec s 0 a out s' 0.
Proof.
  induction fuel as [|fuel IH]; intros inp s Hi Hs; cbn [chunk_loop].
  { exists [], inp, [], s. split; [done|]. split; [done|]. by apply runs_nil. }
  destruct (Nat.leb_spec GHASH_CHUNK (length inp)) as [Hl|_].
  2: { exists [], inp, [], s. split; [done|]. split; [done|]. by apply runs_nil. }
  destruct (runs_f s inp 192 Hi Hl Hs) as (o & s1 & E & R). change (16 * 192)%nat with GHASH_CHUNK in E, R.
  rewrite E. destruct (IH (drop GHASH_CHUNK inp) s1 ltac:(auto with vtls) (ru_ok _ _ _ _ _ _ _ R))
    as (a & rest & out & s' & -> & Ea & R').
  exists (take GHASH_CHUNK inp ++ a), rest, (o ++ out), s'. split; [done|].
  split; [by rewrite <- app_assoc, <- Ea, take_drop|]. eapply runs_app; [lia|done|done].
Qed.

Lemma runs_rest chunks inp s : bytes inp → st_ok s →
  ∃ out s' n', crypt_rest blk dec chunks f inp s = (out, s', n') ∧ runs dec s 0 inp out s' n'.
Proof.
  intros Hi Hs. unfold crypt_rest.
  assert (∃ a rest out s', (if chunks then chunk_loop f (length inp) inp s else ([], inp, s)) = (out, rest, s') ∧
    inp = a ++ rest ∧ runs dec s 0 a out s' 0) as (a & rest & out1 & s1 & -> & -> & R1).
  { destruct chunks; [by apply runs_chunks|]. exists [], inp, [], s.
    split; [done|]. split; [done|]. by apply runs_nil. }
  apply Forall_app in Hi as [_ Hr]. unfold whole. set (k := (length rest / 16)%nat).
  pose proof (Nat.div_mod_eq (length rest) 16) as Hdm. fold k in Hdm. pose proof (mod16_lt (length rest)).
  assert (∃ out s', (if (16 * k =? 0)%nat then ([], s1) else f s1 (take (16 * k) rest)) = (out, s') ∧
    runs dec s1 0 (take (16 * k) rest) out s' 0) as (out2 & s2 & E2 & R2).
  { destruct (Nat.eqb_spec (16 * k) 0) as [->|_].
    - exists [], s1. split; [done|]. apply runs_nil, R1.
    - apply runs_f; [done|lia|apply R1]. }
  rewrite E2. pose proof (runs_app dec s 0 _ _ _ _ _ _ _ _ ltac:(lia) R1 R2) as R12.
  assert (a ++ rest = (a ++ take (16 * k) rest) ++ drop (16 * k) rest) as -> by (by rewrite <- app_assoc, take_drop).
  assert (bytes (drop (16 * k) rest)) as Ht by auto with vtls.
  assert (length (drop (16 * k) rest) < 16)%nat as Htl by len.
  destruct (drop (16 * k) rest) as [|x tail] eqn:Et.
  { exists (out1 ++ out2), s2, 0%nat. split; [done|]. by rewrite app_nil_r. }
  destruct (runs_tail dec (x :: tail) s2 Ht ltac:(done) Htl (ru_ok _ _ _ _ _ _ _ R2)) as (out3 & s3 & n3 & E3 & R3).
  rewrite E3. exists ((out1 ++ out2) ++ out3), s3, n3. split; [by rewrite <- app_assoc|].
  eapply runs_app; [lia|done|done].
Qed.
End rest.

Lemma runs_head dec inp s n k : bytes inp → st_ok s → (n < 16)%nat →
  (∀ inp s, bytes inp → st_ok s → ∃ out s' n', k inp s = (out, s', n') ∧ runs dec s 0 inp out s' n') →
  ∃ out s' n', crypt_head blk dec inp s n k = (out, s', n') ∧ runs dec s n inp out s' n'.
Proof.
  intros Hi Hs Hn Hk. unfold crypt_head. destruct (Nat.eqb_spec n 0) as [->|Hn0]; [by apply Hk|].
  pose proof (head_byte_loop dec inp s n Hn0 Hn) as Hh0.
  destruct (head_loop (gcm_raw blk dec) inp s n) as [[[out0 rest] s1] n1].
  destruct Hh0 as (a & -> & E & Hr). apply Forall_app in Hi as [Ha Hi].
  destruct (runs_byte_loop dec a Ha s n Hs Hn) as (o & s2 & n2 & E' & R). rewrite E in E'.
  injection E' as Eo Es En. rewrite <- Eo, <- Es, <- En in R. clear Eo Es En. destruct (Nat.eqb_spec n1 0) as [Hz|Hn1].
  - rewrite Hz in R. destruct (Hk rest (GCM_MUL s1.1, s1.2) Hi (ru_ok _ _ _ _ _ _ _ R)) as (out & s' & n' & -> & R').
    exists (out0 ++ out), s', n'. split; [done|]. by eapply runs_app.
  - rewrite Hr, app_nil_r by done. by exists out0, s1, n1.
Qed.
End runs.

(** ** What a context stands for *)

(** The four functions for text: encryption or decryption, and how. *)
Inductive variant := OnBlocks (small aligned : bool) | OnStream (small : bool) (func : ctr128_f).

Definition gcm_call (blk : list Z → list Z) (dec : bool) (v : variant) (ctx : GCM128_CONTEXT) (inp : list Z)
    : Z * list Z * GCM128_CONTEXT :=
  match v with
  | OnBlocks small aligned => gcm128_crypt blk dec small aligned ctx inp
  | OnStream small func => gcm128_crypt_ctr32 blk dec small ctx inp func
  end.

Definition variant_ok (blk : list Z → list Z) (v : variant) : Prop :=
  match v with OnBlocks _ _ => True | OnStream _ func => Ctr32Wrap blk func end.

Abbreviation zeros := (replicate 16 0).

Section repr.
Context (blk : list Z → list Z) `{!BlockFn blk} (h : list Z) (J0 : list Z) (HJ : block J0).

(** The additional data [A] so far. *)
Record aad_repr (A : list Z) (ctx : GCM128_CONTEXT) : Prop := {
  ar_A : bytes A;
  ar_Yi : Yi ctx = inc32 J0 1;
  ar_EKi : block (EKi ctx);
  ar_EK0 : EK0 ctx = blk J0;
  ar_Xi : Xi ctx = absorb h zeros 0 A;
  ar_table : is_table (Htable ctx) (be_load h);
  ar_alen : len_aad ctx = Z.of_nat (length A);
  ar_mlen : len_msg ctx = 0;
  ar_mres : mres ctx = 0%nat;
  ar_ares : ares ctx = (length A mod 16)%nat
}.

(** After the additional data [A], the plaintext [P] and its encryption [C] so far. *)
Record text_repr (A P C : list Z) (ctx : GCM128_CONTEXT) : Prop := {
  tr_A : bytes A;
  tr_P : bytes P;
  tr_C : bytes C;
  tr_ctr : ∃ ec, byte_loop (ctrm blk) P (CtrState (inc32 J0 1) zeros) 0 = (C, CtrState (Yi ctx) ec, mres ctx) ∧
                 (mres ctx ≠ 0%nat → ec = EKi ctx);
  tr_Yi : block (Yi ctx);
  tr_EKi : block (EKi ctx);
  tr_EK0 : EK0 ctx = blk J0;
  tr_Xi : Xi ctx = absorb h (GHASH h zeros (pad_blocks A)) 0 C;
  tr_table : is_table (Htable ctx) (be_load h);
  tr_alen : len_aad ctx = Z.of_nat (length A);
  tr_mlen : len_msg ctx = Z.of_nat (length C);
  tr_ares : ares ctx = 0%nat
}.

Definition gcm_repr (A P C : list Z) (ctx : GCM128_CONTEXT) : Prop :=
  (aad_repr A ctx ∧ P = [] ∧ C = []) ∨ text_repr A P C ctx.

(** *** Counter mode on the whole text *)

Lemma ctrm_ok_step s n x : ctr_ok s → is_byte x → ctr_ok (step (ctrm blk) s n x).2.
Proof. done. Qed.

Lemma ctrm_ok_refresh s : ctr_ok s → ctr_ok (refresh (ctrm blk) s).
Proof. intros [? ?]. split; cbn; auto with vtls. Qed.

Lemma ctrm_inverse inp s n out s' n' : ctr_ok s → bytes inp → (n < 16)%nat →
  byte_loop (ctrm blk) inp s n = (out, s', n') → byte_loop (ctrm blk) out s n = (inp, s', n').
Proof.
  intros Hs Hi Hn E.
  pose proof (byte_loop_inverse (ctrm blk) (ctrm blk) ctr_ok (λ s, eq_refl) ctrm_ok_refresh ctrm_ok_step
    (λ s n x Hn Hs Hx, f_equal (λ z, (z, s)) (lxor_cancel_r x (nthZ (ecount_buf s) n))) inp s n Hs Hi Hn) as R.
  by rewrite E in R.
Qed.

Lemma bytes_ctrm inp s n out s' n' : ctr_ok s → bytes inp →
  byte_loop (ctrm blk) inp s n = (out, s', n') → bytes out ∧ ctr_ok s'.
Proof.
  intros Hs Hi E. split.
  - pose proof (bytes_byte_loop (ctrm blk) ctr_ok ctrm_ok_refresh ctrm_ok_step inp s n) as B.
    rewrite E in B. apply B; [|done|done]. intros s0 n0 x [_ [Hb _]] Hx. cbn. auto with vtls.
  - pose proof (byte_loop_inv (ctrm blk) ctr_ok ctrm_ok_refresh ctrm_ok_step inp s n Hs Hi) as I.
    by rewrite E in I.
Qed.

Lemma ctrm_GCTR P Y e out s' n' : block Y → block e → bytes P →
  byte_loop (ctrm blk) P (CtrState Y e) 0 = (out, s', n') → out = GCTR blk Y P.
Proof.
  intros HY He HP E. destruct (split_blocks P HP) as (bs & r & -> & Hbs & Hr & Hlr).
  destruct (ctrm_blocks blk bs Hbs Y e HY He) as [e' Eb]. rewrite byte_loop_app, Eb in E.
  set (k := length bs) in *. unfold GCTR.
  assert (blocks_of (length (concat bs ++ r)) = k + if (length r =? 0)%nat then 0 else 1)%nat as ->.
  { rewrite length_app, length_concat_blocks by done. by apply blocks_of_add. }
  rewrite seq_app, map_app, concat_app.
  assert (length (concat (map (λ i, blk (inc32 Y (Z.of_nat i))) (seq 0 k))) = (16 * k)%nat) as Lk.
  { rewrite length_concat_blocks, length_map, length_seq; [done|].
    apply Forall_map, Forall_forall. intros i _. cbn. auto with vtls. }
  rewrite xor_bytes_app by (rewrite Lk, length_concat_blocks; done). unfold k at 1.
  rewrite gctr_blocks_stream by done. destruct r as [|x r].
  { cbn in E. injection E as <- _ _. done. }
  cbn [length] in Hlr. rewrite rest_loop_start in E by lia.
  rewrite (rest_loop_xor (ctrm blk) ecount_buf) in E; [|done|].
  2: { cbn [refresh ctrm ctr_mode ecount_buf ivec]. rewrite (block_length (blk _)) by auto with vtls. cbn. lia. }
  injection E as <- _ _. f_equal. cbn [refresh ctrm ctr_mode ecount_buf ivec length Nat.eqb seq map concat].
  by rewrite drop_0, app_nil_r.
Qed.

Lemma GCTR_involutive Y P : block Y → bytes P → P = GCTR blk Y (GCTR blk Y P).
Proof.
  intros HY HP. destruct (byte_loop (ctrm blk) P (CtrState Y zeros) 0) as [[out s'] n'] eqn:E.
  assert (ctr_ok (CtrState Y zeros)) as Hok by (split; auto with vtls).
  destruct (bytes_ctrm _ _ _ _ _ _ Hok HP E) as [Ho _].
  rewrite <- (ctrm_GCTR _ _ _ _ _ _ HY block_replicate0 HP E).
  apply ctrm_inverse in E; [|done|done|lia]. exact (ctrm_GCTR _ _ _ _ _ _ HY block_replicate0 Ho E).
Qed.

Lemma length_GCTR Y P : block Y → length (GCTR blk Y P) = length P.
Proof.
  intros HY. unfold GCTR. rewrite length_xor_bytes, length_concat_blocks, length_map, length_seq.
  2: { apply Forall_map, Forall_forall. intros i _. cbn. auto with vtls. }
  apply Nat.min_l. unfold blocks_of. pose proof (Nat.div_mod_eq (length P + 15) 16).
  pose proof (mod16_lt (length P + 15)). lia.
Qed.

(** *** The operations *)

Lemma absorb_head l : ∀ x n x' n' rest, (n < 16)%nat → aad_head x n l = (x', n', rest) →
  block x → bytes l →
  ∃ a, l = a ++ rest ∧ n' = ((n + length a) mod 16)%nat ∧ (n' ≠ 0%nat → rest = []) ∧ block x' ∧
    (n ≠ 0%nat → absorb h x n a = if (n' =? 0)%nat && negb (length a =? 0)%nat then gf_block x' h else x').
Proof.
  induction l as [|y l IH]; intros x n x' n' rest Hn; cbn [aad_head].
  { intros [= <- <- <-] Hx _. exists []. split; [done|]. rewrite Nat.add_0_r, Nat.mod_small by done.
    split; [done|]. split; [done|]. split; [done|]. intros _. by rewrite andb_false_r. }
  destruct (Nat.eqb_spec n 0) as [->|Hn0].
  { intros [= <- <- <-] Hx _. exists []. by rewrite andb_false_r. }
  intros E Hx Hl. apply bytes_cons_inv in Hl as [Hy Hl].
  destruct (IH _ _ _ _ _ (mod16_lt _) E ltac:(auto with vtls) Hl) as (a & -> & -> & Hr & Hx' & Ha).
  exists (y :: a). split; [done|]. cbn [length]. rewrite Nat.Div0.add_mod_idemp_l in *.
  replace (n + S (length a))%nat with (n + 1 + length a)%nat by lia.
  split; [done|]. split; [done|]. split; [done|]. intros _. cbn [absorb].
  destruct (Nat.eqb_spec ((n + 1) mod 16) 0) as [Hz|Hz].
  - assert (aad_head (<[n:=Z.lxor (nthZ x n) y]> x) ((n + 1) mod 16) (a ++ rest) =
      (<[n:=Z.lxor (nthZ x n) y]> x, 0%nat, a ++ rest)) as E' by (rewrite Hz; by destruct (a ++ rest)).
    rewrite E' in E. injection E as <- _ Hnil.
    assert (a = []) as -> by (by apply (app_inv_tail rest)).
    rewrite Nat.add_0_r, Hz. done.
  - rewrite Ha by done. destruct a as [|z a]; [|done]. cbn [length Nat.eqb negb]. rewrite andb_true_r, andb_false_r.
    rewrite Nat.add_0_r, (proj2 (Nat.eqb_neq _ 0)) by done. done.
Qed.

Lemma aad_whole small ctx aad x : is_table (Htable ctx) (be_load h) → block x → Xi ctx = x → bytes aad →
  let ctx1 := if (whole aad =? 0)%nat then ctx else hash_blocks small ctx aad (whole aad / 16) in
  match drop (whole aad) aad with
  | [] => set_res ctx1 (mres ctx1) 0
  | r => set_res (set_Xi ctx1 (xor_at (Xi ctx1) 0 r)) (mres ctx1) (length r)
  end = set_res (set_Xi ctx (absorb h x 0 aad)) (mres ctx) (length aad mod 16).
Proof.
  intros HT Hx <- Ha. destruct (split_blocks aad Ha) as (bs & r & -> & Hbs & Hr & Hlr).
  assert (whole (concat bs ++ r) = 16 * length bs)%nat as Hw.
  { unfold whole. rewrite length_app, length_concat_blocks by done. f_equal. symmetry.
    apply (Nat.div_unique _ 16 _ (length r)); lia. }
  rewrite Hw. cbv zeta. set (ctx1 := if (16 * length bs =? 0)%nat then ctx else hash_blocks small ctx (concat bs ++ r) (16 * length bs / 16)).
  assert (ctx1 = set_Xi ctx (GHASH h (Xi ctx) bs)) as ->.
  { unfold ctx1. destruct (Nat.eqb_spec (16 * length bs) 0) as [E|_].
    - assert (bs = []) as -> by (apply length_zero_iff_nil; lia). by destruct ctx.
    - rewrite (Nat.mul_comm 16), Nat.div_mul by lia. by apply (hash_blocks_spec h). }
  rewrite drop_app_exact by (by apply length_concat_blocks).
  rewrite blocks_mod, Nat.mod_small, absorb_app, absorb_blocks by (done || lia). cbn [Nat.add].
  rewrite <- (app_nil_r (concat bs)), blocks_mod by done. change (length [] mod 16)%nat with 0%nat.
  destruct r as [|y r]; [done|]. cbn [set_Xi Xi set_res mres].
  rewrite absorb_short, xor_at_zero_pad by (auto using block_GHASH with lia). done.
Qed.

Lemma aad_repr_step A a ctx x n : aad_repr A ctx → bytes a →
  x = absorb h zeros 0 (A ++ a) → n = (length (A ++ a) mod 16)%nat →
  aad_repr (A ++ a) (set_res (set_Xi (set_len ctx (Z.of_nat (length (A ++ a))) 0) x) 0 n).
Proof. intros [] Ha -> ->. split; cbn; auto with vtls. Qed.

Lemma aad_call small ctx A a : aad_repr A ctx → bytes a → Z.of_nat (length A) + Z.of_nat (length a) ≤ 2 ^ 61 →
  ∃ ctx', CRYPTO_gcm128_aad small ctx a = (0, ctx') ∧ aad_repr (A ++ a) ctx'.
Proof.
  intros HR Ha Hlim. pose proof HR as [RA RY RE RE0 RX RT Rl Rm Rr Rs]. unfold CRYPTO_gcm128_aad.
  rewrite Rm, Rl. cbn [Z.eqb negb]. rewrite u64_small by lia. change (1 ≪ 61) with (2 ^ 61).
  rewrite (proj2 (Z.ltb_ge _ _)), (proj2 (Z.ltb_ge _ _)) by lia. cbn [orb].
  assert (Z.of_nat (length A) + Z.of_nat (length a) = Z.of_nat (length (A ++ a))) as -> by (rewrite length_app; lia).
  assert (block (absorb h zeros 0 A)) as Hb by (apply block_absorb; auto with vtls).
  pose proof (aad_repr_step A a ctx _ _ HR Ha eq_refl eq_refl) as Hstep.
  eexists. split; [|exact Hstep]. clear Hstep. rewrite absorb_app by lia. cbn [Nat.add]. rewrite <- RX in *.
  set (ctx0 := set_len ctx (Z.of_nat (length (A ++ a))) 0).
  assert (length (A ++ a) mod 16 = (ares ctx + length a) mod 16)%nat as ->
    by (by rewrite Rs, length_app, Nat.Div0.add_mod_idemp_l).
  rewrite <- Rs. change (ares ctx0) with (ares ctx). destruct (Nat.eqb_spec (ares ctx) 0) as [E0|E0].
  - rewrite E0. pose proof (aad_whole small ctx0 a (Xi ctx) RT Hb eq_refl Ha) as Ew. cbv zeta in Ew.
    cbn [Nat.add]. change (mres ctx0) with (mres ctx) in Ew. rewrite Rr in Ew. rewrite <- Ew.
    by destruct (drop (whole a) a).
  - change (Xi ctx0) with (Xi ctx). destruct (aad_head (Xi ctx) (ares ctx) a) as [[x n] rest] eqn:Eh.
    destruct (absorb_head a (Xi ctx) (ares ctx) x n rest ltac:(rewrite Rs; apply mod16_lt) Eh Hb Ha)
      as (a1 & -> & -> & Hr & Hx & Hab). specialize (Hab E0). apply Forall_app in Ha as [_ Hrest].
    destruct (Nat.eqb_spec ((ares ctx + length a1) mod 16) 0) as [Ez|Ez].
    + assert (length a1 ≠ 0)%nat as Hne.
      { intros El. rewrite El, Nat.add_0_r, Nat.mod_small in Ez by (rewrite Rs; apply mod16_lt). done. }
      rewrite (proj2 (Nat.eqb_neq (length a1) 0)) in Hab by done. cbn [andb negb] in Hab.
      rewrite (GCM_MUL_spec h) by done. cbn [set_Xi Xi].
      pose proof (aad_whole small (set_Xi ctx0 (gf_block x h)) rest (gf_block x h) RT ltac:(auto with vtls) eq_refl Hrest) as Ew.
      cbv zeta in Ew. change (mres (set_Xi ctx0 (gf_block x h))) with (mres ctx) in Ew. rewrite Rr in Ew.
      rewrite absorb_app, Hab, Ez by (rewrite Rs; apply mod16_lt).
      assert ((ares ctx + length (a1 ++ rest)) mod 16 = length rest mod 16)%nat as ->.
      { rewrite length_app, Nat.add_assoc, Nat.Div0.add_mod, Ez. apply Nat.Div0.mod_mod. }
      change (set_res (set_Xi ctx0 (absorb h (gf_block x h) 0 rest)) 0 (length rest mod 16))
        with (set_res (set_Xi (set_Xi ctx0 (gf_block x h)) (absorb h (gf_block x h) 0 rest)) 0 (length rest mod 16)).
      rewrite <- Ew. by destruct (drop (whole rest) rest).
    + rewrite Hr, app_nil_r in * by done. cbn [andb] in Hab. rewrite Hab.
      cbn [set_Xi mres]. change (mres ctx0) with (mres ctx). by rewrite Rr.
Qed.

(** The additional data is over. *)
Lemma crypt_start_aad A ctx inp : aad_repr A ctx → Z.of_nat (length inp) ≤ 2 ^ 36 - 32 →
  ∃ s, crypt_start ctx inp = Some s ∧ st_ok h s ∧
    text_repr A [] [] (set_len s.1 (len_aad s.1) 0) ∧ len_msg s.1 = Z.of_nat (length inp).
Proof.
  intros [RA RY RE RE0 RX RT Rl Rm Rr Rs] Hlim. unfold crypt_start. rewrite Rm. cbn [Z.add].
  rewrite u64_small by lia. change ((1 ≪ 36) - 32) with (2 ^ 36 - 32).
  rewrite (proj2 (Z.ltb_ge _ _)), (proj2 (Z.ltb_ge _ _)) by lia. cbn [orb].
  assert (block (absorb h zeros 0 A)) as Hb by (apply block_absorb; auto with vtls).
  eexists. split; [reflexivity|]. cbn [ares set_len]. rewrite Rs.
  assert (block (Yi ctx)) as HY by (rewrite RY; auto with vtls).
  pose proof (absorb_pad h zeros A block_replicate0 RA) as Hp.
  destruct (Nat.eqb_spec (length A mod 16) 0) as [Ez|Ez].
  - split; [split; ctx_cbn; try done; by rewrite RX|]. split; [|done].
    split; ctx_cbn; try done; try constructor; [by exists zeros; rewrite RY, Rr|by rewrite RX, Hp|by rewrite Rs].
  - rewrite (GCM_MUL_spec h) by (cbn; rewrite ?RX; done). split; [split; ctx_cbn; auto with vtls|]. split; [|done].
    split; ctx_cbn; try done; try constructor; [by exists zeros; rewrite RY, Rr|by rewrite RX, Hp].
Qed.

Lemma crypt_start_text A P C ctx inp : text_repr A P C ctx →
  Z.of_nat (length C) + Z.of_nat (length inp) ≤ 2 ^ 36 - 32 →
  ∃ s, crypt_start ctx inp = Some s ∧ st_ok h s ∧
    text_repr A P C (set_len s.1 (len_aad s.1) (Z.of_nat (length C))) ∧
    len_msg s.1 = Z.of_nat (length C) + Z.of_nat (length inp).
Proof.
  intros HR Hlim. pose proof HR as [RA RP RC RR RY RE RE0 RX RT Rl Rm Rs]. unfold crypt_start. rewrite Rm.
  rewrite u64_small by lia. change ((1 ≪ 36) - 32) with (2 ^ 36 - 32).
  rewrite (proj2 (Z.ltb_ge _ _)), (proj2 (Z.ltb_ge _ _)) by lia. cbn [orb].
  eexists. split; [reflexivity|]. cbn [ares set_len]. rewrite Rs, Nat.eqb_refl.
  assert (block (GHASH h zeros (pad_blocks A))) by (apply block_GHASH; auto with vtls).
  split; [split; ctx_cbn; try done; rewrite RX; by apply block_absorb|]. split; [|done]. by split.
Qed.

(** A call goes on with the run. *)
Lemma text_step (dec : bool) A P C ctx s s' inp out n' : (mres ctx < 16)%nat →
  mres s.1 = mres ctx → len_msg s.1 = Z.of_nat (length C) + Z.of_nat (length inp) →
  text_repr A P C (set_len s.1 (len_aad s.1) (Z.of_nat (length C))) → bytes inp →
  runs blk h dec s (mres ctx) inp out s' n' →
  text_repr A (P ++ if dec then out else inp) (C ++ if dec then inp else out) (set_res s'.1 n' (ares s'.1)).
Proof.
  intros Hn Hms Hlm HT Hi [(ec & E & K) X S' F]. destruct HT as [RA RP RC (e & RR & RK) RY RE RE0 RX RT Rl Rm Rs].
  cbn [set_len Yi EKi EK0 Xi Htable len_aad len_msg mres ares] in *.
  destruct F as (F1 & F2 & F3 & F4 & F5 & F6 & F7).
  assert (block (inc32 J0 1)) as HY0 by auto with vtls.
  assert (ctr_ok (CtrState (inc32 J0 1) zeros)) as Hok0 by (split; auto with vtls).
  destruct (bytes_ctrm _ _ _ _ _ _ Hok0 RP RR) as [_ Hok1].
  assert (ctr_ok (CtrState (Yi s.1) (EKi s.1))) as Hok by (by split).
  destruct (bytes_ctrm _ _ _ _ _ _ Hok Hi E) as [Ho _].
  assert (∃ ec', byte_loop (ctrm blk) (if dec then out else inp) (CtrState (Yi s.1) (EKi s.1)) (mres ctx) =
    ((if dec then inp else out), CtrState (Yi s'.1) ec', n') ∧ (n' ≠ 0%nat → ec' = EKi s'.1)) as (e1 & E1 & K1).
  { exists ec. split; [|done]. destruct dec; [|done]. by apply ctrm_inverse. }
  split; ctx_cbn; rewrite ?F1, ?F2, ?F3, ?F5, ?F7; auto with vtls.
  - destruct dec; auto with vtls.
  - destruct dec; auto with vtls.
  - rewrite byte_loop_app, RR. rewrite Hms in *. destruct (decide (mres ctx = 0%nat)) as [Ez|Ez].
    + rewrite Ez in *. destruct (ctrm_restart blk _ _ _ e _ _ _ _ E1) as (e2 & E2 & K2). rewrite E2.
      exists e2. split; [done|]. intros Hz. rewrite K2 by done. by apply K1.
    + rewrite RK, E1 by done. by exists e1.
  - apply S'.
  - apply S'.
  - rewrite X, RX. rewrite absorb_app by lia. f_equal. cbn [Nat.add].
    rewrite (length_ctrm _ _ _ _ _ _ _ RR). rewrite Hms in RR. by rewrite (ctrm_pos blk _ _ 0 _ _ _ ltac:(lia) RR).
  - rewrite length_app, Nat2Z.inj_add, Hlm.
    destruct dec; [done|]. by rewrite (length_ctrm _ _ _ _ _ _ _ E).
Qed.

Lemma call_runs dec v ctx inp s : variant_ok blk v → crypt_start ctx inp = Some s → bytes inp → st_ok h s →
  (mres ctx < 16)%nat →
  ∃ out s' n', gcm_call blk dec v ctx inp = (0, out, set_res s'.1 n' (ares s'.1)) ∧
    runs blk h dec s (mres ctx) inp out s' n'.
Proof.
  intros Hv E Hi Hs Hn.
  assert (∀ r, (∃ out s' n', r = (out, s', n') ∧ runs blk h dec s (mres ctx) inp out s' n') →
    ∃ out s' n', crypt_end r = (0, out, set_res s'.1 n' (ares s'.1)) ∧ runs blk h dec s (mres ctx) inp out s' n') as Hend.
  { intros r (out & [c z] & n' & -> & R). by exists out, (c, z), n'. }
  destruct v as [small aligned|small func]; cbn [gcm_call variant_ok] in *.
  - unfold gcm128_crypt. rewrite E. apply Hend. destruct small; [by apply (runs_byte_loop blk h)|].
    apply (runs_head blk h); [done|done|done|]. intros inp' s0 Hi' Hs0. destruct aligned.
    + apply (runs_rest blk h); [|done|done]. intros. by apply (runs_crypt_blocks blk h).
    + by apply (runs_byte_loop blk h); [| |lia].
  - unfold gcm128_crypt_ctr32. rewrite E. apply Hend. apply (runs_head blk h); [done|done|done|].
    intros inp' s0 Hi' Hs0. apply (runs_rest blk h); [|done|done]. intros. by apply (runs_crypt_stream blk h).
Qed.

Lemma crypt_start_mres ctx inp s : crypt_start ctx inp = Some s → mres s.1 = mres ctx.
Proof.
  unfold crypt_start. destruct (_ || _); [done|]. intros [= <-]. ctx_cbn. by destruct (ares ctx =? 0)%nat.
Qed.

(** One call, whatever the variant. *)
Lemma text_call dec v A P C ctx inp : variant_ok blk v → gcm_repr A P C ctx → bytes inp →
  Z.of_nat (length C) + Z.of_nat (length inp) ≤ 2 ^ 36 - 32 →
  ∃ out ctx', gcm_call blk dec v ctx inp = (0, out, ctx') ∧ length out = length inp ∧
    text_repr A (P ++ if dec then out else inp) (C ++ if dec then inp else out) ctx'.
Proof.
  intros Hv HR Hi Hlim.
  assert (∃ s, crypt_start ctx inp = Some s ∧ st_ok h s ∧
    text_repr A P C (set_len s.1 (len_aad s.1) (Z.of_nat (length C))) ∧
    len_msg s.1 = Z.of_nat (length C) + Z.of_nat (length inp) ∧ (mres ctx < 16)%nat) as (s & E & Hs & HT & Hl & Hn).
  { destruct HR as [(HA & -> & ->)|HT].
    - destruct (crypt_start_aad A ctx inp HA) as (s & E & Hs & HT & Hl); [cbn in Hlim; lia|].
      exists s. repeat (split; [done|]). rewrite (ar_mres _ _ HA). lia.
    - destruct (crypt_start_text A P C ctx inp HT Hlim) as (s & E & Hs & HT' & Hl).
      exists s. repeat (split; [done|]). destruct (tr_ctr _ _ _ _ HT) as (ec & Er & _).
      rewrite (ctrm_pos blk _ _ 0 _ _ _ ltac:(lia) Er). apply mod16_lt. }
  destruct (call_runs dec v ctx inp s Hv E Hi Hs Hn) as (out & s' & n' & Ec & R).
  exists out, (set_res s'.1 n' (ares s'.1)). split; [done|].
  split; [destruct R as [(ec & Er & _) _ _ _]; by apply length_ctrm in Er|].
  apply (text_step dec A P C ctx s); try done. by eapply crypt_start_mres.
Qed.

(** The tag. *)
Lemma bit_length_u64 l n : n = Z.of_nat (length l) → be_store 8 (u64 (n ≪ 3)) = bit_length l.
Proof.
  intros ->. unfold bit_length, u64. rewrite (be_store_mod 8 _ 64) by lia. f_equal.
  rewrite Z.shiftl_mul_pow2 by lia. change (2 ^ 3) with 8. lia.
Qed.

Lemma block_lengths A C : block (bit_length A ++ bit_length C).
Proof. unfold bit_length. split; [auto with vtls|len]. Qed.

Lemma finish_tag_repr A P C ctx t len : gcm_repr A P C ctx →
  Xi (CRYPTO_gcm128_finish ctx t len).2 = gcm_tag blk h J0 A C ∧
  (CRYPTO_gcm128_finish ctx t len).1 =
    match t with
    | Some t => if (len <=? 16)%nat then CRYPTO_memcmp (gcm_tag blk h J0 A C) t len else -1
    | None => -1
    end.
Proof.
  intros HR. set (x := GHASH h zeros (pad_blocks A ++ pad_blocks C)).
  assert (block x) as Hx by (apply block_GHASH; auto with vtls).
  assert (∃ c, (if negb (mres ctx =? 0)%nat || negb (ares ctx =? 0)%nat then GCM_MUL ctx else ctx) = c ∧
    Xi c = x ∧ Htable c = Htable ctx ∧ EK0 c = blk J0 ∧ is_table (Htable ctx) (be_load h) ∧
    len_aad ctx = Z.of_nat (length A) ∧ len_msg ctx = Z.of_nat (length C))
    as (c & E & Xc & Tc & Ec & HT & Hla & Hlc).
  { eexists. split; [reflexivity|]. unfold x. destruct HR as [(HA & -> & ->)|HT].
    - destruct HA as [RA RY RE RE0 RX RT Rl Rm Rr Rs]. rewrite Rr, Rs. cbn [Nat.eqb negb orb]. rewrite app_nil_r.
      rewrite absorb_pad by auto with vtls.
      assert (block (Xi ctx)) by (rewrite RX; apply block_absorb; auto with vtls).
      destruct (Nat.eqb_spec (length A mod 16) 0) as [Ez|Ez]; cbn [negb]; [by rewrite Rl, Rm|].
      rewrite (GCM_MUL_spec h) by done. ctx_cbn. by rewrite Rl, Rm, RX.
    - destruct HT as [RA RP RC (ec & RR & RK) RY RE RE0 RX RT Rl Rm Rs].
      assert (block (GHASH h zeros (pad_blocks A))) as Hg by (apply block_GHASH; auto with vtls).
      assert (block (Xi ctx)) by (rewrite RX; by apply block_absorb).
      rewrite Rs, orb_false_r, GHASH_app, absorb_pad by done.
      rewrite (ctrm_pos blk _ _ 0 _ _ _ ltac:(lia) RR). cbn [Nat.add]. rewrite <- (length_ctrm _ _ _ _ _ _ _ RR).
      destruct (Nat.eqb_spec (length C mod 16) 0) as [Ez|Ez]; cbn [negb]; [by rewrite Rl, Rm|].
      rewrite (GCM_MUL_spec h) by done. ctx_cbn. by rewrite Rl, Rm, RX. }
  unfold CRYPTO_gcm128_finish. cbv zeta. rewrite E.
  rewrite (bit_length_u64 A), (bit_length_u64 C) by done. pose proof (block_lengths A C) as Hl.
  rewrite Xc, (GCM_MUL_spec h) by (ctx_cbn; rewrite ?Tc, ?xor_words_bytes; auto with vtls).
  rewrite xor_words_bytes by done. ctx_cbn. rewrite Ec, xor_words_bytes by auto with vtls.
  assert (xor_bytes (gf_block (xor_bytes x (bit_length A ++ bit_length C)) h) (blk J0) = gcm_tag blk h J0 A C) as ->.
  { unfold gcm_tag. rewrite app_assoc, GHASH_app. done. }
  destruct t as [t|]; [|done]. by destruct (len <=? 16)%nat.
Qed.
End repr.

(** ** The initialisation vector *)

Lemma iv_loop_spec T h iv : is_table T (be_load h) → bytes iv → ∀ fuel y, (length iv < fuel)%nat → block y →
  iv_loop T y iv fuel = GHASH h y (pad_blocks iv).
Proof.
  intros HT Hi. destruct (split_blocks iv Hi) as (bs & r & -> & Hbs & Hr & Hlr).
  rewrite pad_blocks_concat by done. clear Hi.
  induction Hbs as [|b bs Hb Hbs IH]; intros [|fuel] y Hf Hy; try lia; cbn [iv_loop concat app] in *.
  - rewrite (proj2 (Nat.leb_gt 16 _)) by lia. destruct r as [|a r]; [done|].
    rewrite (gmult_spec _ h); [|done|]; rewrite xor_at_zero_pad by (done || lia); [done|].
    apply block_xor; [done|]. apply block_zero_pad; [done|lia].
  - rewrite <- app_assoc in *. rewrite length_app, (block_length b Hb) in *.
    rewrite (proj2 (Nat.leb_le 16 _)) by lia. rewrite take_app_exact, drop_app_exact by apply Hb.
    rewrite xor_at_zero_pad, zero_pad_block by (done || by rewrite (block_length b Hb)).
    rewrite (gmult_spec _ h) by auto with vtls. rewrite IH by (auto with vtls || (rewrite length_app in Hf; lia)). done.
Qed.

Lemma setiv_spec_gcm blk `{!BlockFn blk} h ctx iv : is_table (Htable ctx) (be_load h) → block (EKi ctx) →
  bytes iv → block (gcm_J0 h iv) ∧ aad_repr blk h (gcm_J0 h iv) [] (CRYPTO_gcm128_setiv blk ctx iv).
Proof.
  intros HT HE Hi.
  assert (block (gcm_J0 h iv)) as HJ.
  { unfold gcm_J0. destruct (Nat.eqb_spec (length iv) 12); [|apply block_GHASH; auto with vtls].
    split; [|len]. apply bytes_app; [done|]. repeat constructor; unfold is_byte; lia. }
  split; [done|].
  assert (∃ ctr, (if (length iv =? 12)%nat then (<[15%nat := 1]> (splice zeros 0 iv), 1)
    else let y := iv_loop (Htable ctx) zeros iv (S (length iv)) in
      let y := xor_at y 8 (be_store 8 (u64 (Z.of_nat (length iv) ≪ 3))) in
      let y := gcm_gmult_4bit (Htable ctx) y in (y, GETU32 y 12)) = (gcm_J0 h iv, ctr) ∧
    u32 (ctr + 1) = u32 (GETU32 (gcm_J0 h iv) 12 + 1)) as (ctr & E & Hctr).
  { unfold gcm_J0. destruct (Nat.eqb_spec (length iv) 12) as [Hl|Hl].
    - do 12 (destruct iv as [|? iv]; [done|]). destruct iv; [|done]. eexists. split; [reflexivity|]. reflexivity.
    - cbv zeta. rewrite (iv_loop_spec _ h) by (auto with vtls || lia). rewrite (bit_length_u64 iv) by done.
      set (y := GHASH h zeros (pad_blocks iv)). assert (block y) as Hy by (apply block_GHASH; auto with vtls).
      assert (xor_at y 8 (bit_length iv) = xor_bytes y (replicate 8 0 ++ bit_length iv)) as ->.
      { unfold xor_at, splice, bit_length. rewrite length_be_store. pose proof (block_length y Hy) as Ly.
        set (z := xor_bytes (take 8 (drop 8 y)) _). assert (length z = 8%nat) as Lz by (unfold z; len).
        rewrite Lz, (drop_ge y (8 + 8)), app_nil_r by lia. unfold z. rewrite (take_ge (drop 8 y)) by len.
        rewrite <- (take_drop 8 y) at 3. rewrite xor_bytes_app, xor_bytes_0_r by len. done. }
      eexists. split; [|reflexivity]. rewrite (gmult_spec _ h); [|done|].
      + rewrite GHASH_app. fold y. done.
      + apply block_xor; [done|]. unfold bit_length. split; [auto with vtls|len]. }
  unfold CRYPTO_gcm128_setiv. cbv zeta. ctx_cbn. cbv zeta in E. rewrite E, Hctr, put_inc32 by done.
  split; ctx_cbn; try done; constructor.
Qed.

Lemma init_table_ok blk `{!BlockFn blk} small :
  is_table (Htable (CRYPTO_gcm128_init blk small)) (be_load (blk zeros)).
Proof.
  pose proof (block_fn zeros block_replicate0) as [Hb Hl]. cbn [CRYPTO_gcm128_init Htable].
  set (c := blk zeros) in *.
  pose proof (be_load_bound (take 8 c) ltac:(auto with vtls)) as B1. rewrite length_take, Hl in B1.
  pose proof (be_load_bound (drop 8 c) ltac:(auto with vtls)) as B2. rewrite length_drop, Hl in B2.
  replace (be_load c) with (val128 (U128 (be_load (take 8 c)) (be_load (drop 8 c)))).
  - apply init_spec; [done|]. by split.
  - unfold val128. cbn [hi lo]. rewrite lor_shiftl_add by (done || lia).
    rewrite <- (take_drop 8 c) at 3. rewrite be_load_app by auto with vtls. rewrite length_drop, Hl. done.
Qed.

(** ** The theorems *)

(** Additional data in pieces; [None] when a call fails. *)
Fixpoint aad_calls (ctx : GCM128_CONTEXT) (pieces : list (bool * list Z)) : option GCM128_CONTEXT :=
  match pieces with
  | [] => Some ctx
  | (small, a) :: rest =>
      let '(r, ctx) := CRYPTO_gcm128_aad small ctx a in
      if r =? 0 then aad_calls ctx rest else None
  end.

(** Text in pieces, each with its own variant: the output, or [None] when a call fails. *)
Fixpoint crypt_calls (blk : list Z → list Z) (dec : bool) (ctx : GCM128_CONTEXT) (pieces : list (variant * list Z))
    : option (list Z * GCM128_CONTEXT) :=
  match pieces with
  | [] => Some ([], ctx)
  | (v, inp) :: rest =>
      let '(r, out, ctx) := gcm_call blk dec v ctx inp in
      if r =? 0 then
        match crypt_calls blk dec ctx rest with
        | Some (out', ctx) => Some (out ++ out', ctx)
        | None => None
        end
      else None
  end.

Definition pieces_ok (blk : list Z → list Z) (pieces : list (variant * list Z)) : Prop :=
  Forall (λ p, variant_ok blk p.1 ∧ bytes p.2) pieces.

Lemma aad_calls_repr blk `{!BlockFn blk} h J0 pieces : Forall (λ p, bytes p.2) pieces → ∀ A ctx,
  aad_repr blk h J0 A ctx → Z.of_nat (length A) + Z.of_nat (length (concat (pieces.*2))) ≤ 2 ^ 61 →
  ∃ ctx', aad_calls ctx pieces = Some ctx' ∧ aad_repr blk h J0 (A ++ concat (pieces.*2)) ctx'.
Proof.
  induction 1 as [|[small a] pieces Ha _ IH]; intros A ctx HR Hl.
  { exists ctx. cbn. by rewrite app_nil_r. }
  rewrite fmap_cons in *. cbn [concat snd aad_calls] in *. rewrite length_app in Hl.
  destruct (aad_call blk h J0 small ctx A a HR Ha ltac:(lia)) as (c1 & -> & R1). rewrite Z.eqb_refl, app_assoc.
  apply IH; [done|]. rewrite length_app. lia.
Qed.

Lemma crypt_calls_repr blk `{!BlockFn blk} h J0 dec pieces : block J0 → pieces_ok blk pieces → ∀ A P C ctx,
  gcm_repr blk h J0 A P C ctx → Z.of_nat (length C) + Z.of_nat (length (concat (pieces.*2))) ≤ 2 ^ 36 - 32 →
  ∃ out ctx', crypt_calls blk dec ctx pieces = Some (out, ctx') ∧ length out = length (concat (pieces.*2)) ∧
    gcm_repr blk h J0 A (P ++ if dec then out else concat (pieces.*2))
      (C ++ if dec then concat (pieces.*2) else out) ctx'.
Proof.
  intros HJ. induction 1 as [|[v inp] pieces [Hv Hi] _ IH]; intros A P C ctx HR Hl.
  { exists [], ctx. split; [done|]. split; [done|]. destruct dec; cbn; by rewrite !app_nil_r. }
  rewrite fmap_cons in *. cbn [concat snd fst crypt_calls] in *. rewrite length_app in Hl.
  destruct (text_call blk h J0 HJ dec v A P C ctx inp Hv HR Hi ltac:(lia)) as (o & c1 & -> & Lo & R1).
  rewrite Z.eqb_refl.
  destruct (IH A _ _ c1 (or_intror R1)) as (out & ctx' & -> & L & R2); [rewrite length_app; destruct dec; lia|].
  exists (o ++ out), ctx'. split; [done|]. split; [rewrite !length_app; lia|].
  destruct dec; by rewrite <- !app_assoc in R2.
Qed.

(** The text of a context is its encryption. *)
Lemma repr_GCTR blk `{!BlockFn blk} h J0 A P C ctx : block J0 → gcm_repr blk h J0 A P C ctx →
  C = GCTR blk (inc32 J0 1) P ∧ P = GCTR blk (inc32 J0 1) C ∧ bytes P ∧ bytes C.
Proof.
  intros HJ [(_ & -> & ->)|[RA RP RC (ec & RR & _) _ _ _ _ _ _ _ _]]; [by repeat constructor|].
  assert (block (inc32 J0 1)) as HY by auto with vtls.
  split; [exact (ctrm_GCTR blk P _ zeros C _ _ HY block_replicate0 RP RR)|]. split; [|done].
  apply ctrm_inverse in RR; [|done|by split; auto with vtls|done|lia].
  exact (ctrm_GCTR blk C _ zeros P _ _ HY block_replicate0 RC RR).
Qed.

(** From the key and the initialisation vector to the end of the additional data. *)
Lemma setup_repr blk `{!BlockFn blk} small iv aads : bytes iv → Forall (λ p, bytes p.2) aads →
  Z.of_nat (length (concat (aads.*2))) ≤ 2 ^ 61 →
  block (gcm_J0 (blk zeros) iv) ∧
  ∃ ctx, aad_calls (CRYPTO_gcm128_setiv blk (CRYPTO_gcm128_init blk small) iv) aads = Some ctx ∧
    gcm_repr blk (blk zeros) (gcm_J0 (blk zeros) iv) (concat (aads.*2)) [] [] ctx.
Proof.
  intros Hiv Ha Hl.
  destruct (setiv_spec_gcm blk (blk zeros) (CRYPTO_gcm128_init blk small) iv (init_table_ok blk small)) as [HJ R0];
    [cbn; auto with vtls|done|]. split; [done|].
  destruct (aad_calls_repr blk _ _ aads Ha [] _ R0 Hl) as (ctx & E & R). exists ctx. split; [done|]. by left.
Qed.

(** C34: Encryption computes GCM.  After set-up with a key and an initialisation vector of any length,
    additional data and text that are cut into calls in any way, each call for text with any of the
    variants (byte loop, fast path, stream function), every call succeeds, the output is GCTR of the
    text and the tag is that of SP 800-38D. *)
Theorem gcm128_encrypt_spec blk `{!BlockFn blk} small iv aads msgs n :
  bytes iv → Forall (λ p, bytes p.2) aads → pieces_ok blk msgs →
  Z.of_nat (length (concat (aads.*2))) ≤ 2 ^ 61 → Z.of_nat (length (concat (msgs.*2))) ≤ 2 ^ 36 - 32 →
  (n ≤ 16)%nat →
  let h := blk zeros in
  let J0 := gcm_J0 h iv in
  let A := concat (aads.*2) in
  let C := GCTR blk (inc32 J0 1) (concat (msgs.*2)) in
  ∃ ctx1 ctx2,
    aad_calls (CRYPTO_gcm128_setiv blk (CRYPTO_gcm128_init blk small) iv) aads = Some ctx1 ∧
    crypt_calls blk false ctx1 msgs = Some (C, ctx2) ∧
    (CRYPTO_gcm128_tag ctx2 n).1 = take n (gcm_tag blk h J0 A C).
Proof.
  intros Hiv Ha Hm La Lm Hn h J0 A C. destruct (setup_repr blk small iv aads Hiv Ha La) as (HJ & ctx1 & E1 & R1).
  fold h J0 A in HJ, R1.
  destruct (crypt_calls_repr blk h J0 false msgs HJ Hm _ _ _ _ R1) as (out & ctx2 & E2 & L & R2); [cbn; lia|].
  cbn [app] in R2. destruct (repr_GCTR blk h J0 A _ _ ctx2 HJ R2) as (Eo & _ & _ & _).
  exists ctx1, ctx2. split; [done|]. rewrite Eo in E2, R2. split; [done|].
  unfold CRYPTO_gcm128_tag. pose proof (finish_tag_repr blk h J0 HJ _ _ _ ctx2 None 0 R2) as [Et _].
  destruct (CRYPTO_gcm128_finish ctx2 None 0) as [r c]. cbn [snd fst] in *. rewrite Et.
  by rewrite (proj2 (Nat.leb_le n 16)) by done.
Qed.

(** C35: Decryption inverts encryption and authenticates.  With the same set-up every text is decrypted to
    GCTR of it, in particular the encryption of a message to the message; and the final comparison
    returns 0 exactly when the tag presented agrees with the tag of the additional data and the
    text in the bytes compared. *)
Theorem gcm128_decrypt_verify blk `{!BlockFn blk} small iv aads cts tag n :
  bytes iv → Forall (λ p, bytes p.2) aads → pieces_ok blk cts →
  Z.of_nat (length (concat (aads.*2))) ≤ 2 ^ 61 → Z.of_nat (length (concat (cts.*2))) ≤ 2 ^ 36 - 32 →
  (n ≤ 16)%nat → (n ≤ length tag)%nat →
  let h := blk zeros in
  let J0 := gcm_J0 h iv in
  let A := concat (aads.*2) in
  let C := concat (cts.*2) in
  ∃ ctx1 ctx2 P,
    aad_calls (CRYPTO_gcm128_setiv blk (CRYPTO_gcm128_init blk small) iv) aads = Some ctx1 ∧
    crypt_calls blk true ctx1 cts = Some (P, ctx2) ∧
    C = GCTR blk (inc32 J0 1) P ∧ (∀ P', bytes P' → C = GCTR blk (inc32 J0 1) P' → P = P') ∧
    ((CRYPTO_gcm128_finish ctx2 (Some tag) n).1 = 0 ↔ take n tag = take n (gcm_tag blk h J0 A C)).
Proof.
  intros Hiv Ha Hm La Lm Hn Ht h J0 A C. destruct (setup_repr blk small iv aads Hiv Ha La) as (HJ & ctx1 & E1 & R1).
  fold h J0 A in HJ, R1.
  destruct (crypt_calls_repr blk h J0 true cts HJ Hm _ _ _ _ R1) as (P & ctx2 & E2 & L & R2); [cbn; lia|].
  cbn [app] in R2. fold C in L, R2. destruct (repr_GCTR blk h J0 A _ _ ctx2 HJ R2) as (EC & EP & _ & _).
  exists ctx1, ctx2, P. split; [done|]. split; [done|]. split; [done|]. split.
  - intros P' HP' E'. rewrite EP, E'. symmetry. apply GCTR_involutive; auto with vtls.
  - destruct (finish_tag_repr blk h J0 HJ _ _ _ ctx2 (Some tag) n R2) as [_ ->].
    rewrite (proj2 (Nat.leb_le n 16)) by done. unfold CRYPTO_memcmp. rewrite memcmp_loop_zero; [|len|done].
    + split; [intros [_ ->]; done|]. intros ->. done.
    + unfold gcm_tag. rewrite length_xor_bytes, !block_length; [lia|auto with vtls|apply block_GHASH; auto with vtls].
Qed.

(** ** Limits *)

(** Text beyond the limit of SP 800-38D is refused with the context unchanged, and so is additional data
    beyond 2^61 bytes or after text. *)
Lemma text_limit blk dec v A P C ctx inp h J0 : text_repr blk h J0 A P C ctx → Z.of_nat (length inp) < 2 ^ 63 →
  Z.of_nat (length C) ≤ 2 ^ 36 - 32 < Z.of_nat (length C) + Z.of_nat (length inp) →
  gcm_call blk dec v ctx inp = (-1, [], ctx).
Proof.
  intros HT Hi Hl. assert (crypt_start ctx inp = None) as E.
  { unfold crypt_start. rewrite (tr_mlen _ _ _ _ _ _ _ HT), u64_small by lia.
    change ((1 ≪ 36) - 32) with (2 ^ 36 - 32). by rewrite (proj2 (Z.ltb_lt _ _)) by lia. }
  destruct v; cbn [gcm_call]; [unfold gcm128_crypt|unfold gcm128_crypt_ctr32]; by rewrite E.
Qed.

Lemma aad_after_text blk small h J0 A P C ctx a : text_repr blk h J0 A P C ctx → C ≠ [] →
  CRYPTO_gcm128_aad small ctx a = (-2, ctx).
Proof.
  intros HT HC. unfold CRYPTO_gcm128_aad. rewrite (tr_mlen _ _ _ _ _ _ _ HT).
  rewrite (proj2 (Z.eqb_neq _ 0)); [done|]. destruct C; [done|cbn; lia].
Qed.

(** But an empty text closes the additional data without being noticed: more additional data is
    accepted, and the tag is not that of the data. *)
Definition demo_iv : list Z := seqZ 1 12.
Definition demo_gcm : GCM128_CONTEXT := CRYPTO_gcm128_setiv toy_encrypt (CRYPTO_gcm128_init toy_encrypt false) demo_iv.

Lemma aad_after_empty_text :
  ∃ c1 c2 c3, CRYPTO_gcm128_aad false demo_gcm [1] = (0, c1) ∧
    gcm_call toy_encrypt false (OnBlocks false true) c1 [] = (0, [], c2) ∧
    CRYPTO_gcm128_aad false c2 [2] = (0, c3) ∧
    (CRYPTO_gcm128_tag c3 16).1 ≠
      gcm_tag toy_encrypt (toy_encrypt zeros) (gcm_J0 (toy_encrypt zeros) demo_iv) [1; 2] [].
Proof.
  eexists _, _, _. split; [vm_compute; reflexivity|]. split; [vm_compute; reflexivity|].
  split; [vm_compute; reflexivity|]. vm_compute. discriminate.
Qed.

(** ** Concrete uses *)

Definition demo_msgs_gcm : list (variant * list Z) :=
  [(OnBlocks false true, seqZ 0 20); (OnStream false (ctr32_ref toy_encrypt), seqZ 5 40); (OnBlocks true false, [9])].

Lemma demo_msgs_gcm_ok : pieces_ok toy_encrypt demo_msgs_gcm.
Proof.
  assert (∀ l, bool_decide (bytes l) = true → bytes l) as B by (intros l; apply bool_decide_eq_true_1).
  apply Forall_cons_2; [|apply Forall_cons_2; [|apply Forall_cons_2; [|apply Forall_nil_2]]];
    (split; [cbn [fst variant_ok]; exact I || apply _|cbn [snd]; apply B; vm_compute; reflexivity]).
Qed.

Lemma gcm128_encrypt_spec_witness :
  let h := toy_encrypt zeros in
  let J0 := gcm_J0 h demo_iv in
  let C := GCTR toy_encrypt (inc32 J0 1) (concat (demo_msgs_gcm.*2)) in
  ∃ ctx1 ctx2,
    aad_calls (CRYPTO_gcm128_setiv toy_encrypt (CRYPTO_gcm128_init toy_encrypt false) demo_iv)
      [(false, [1; 2]); (true, [3])] = Some ctx1 ∧
    crypt_calls toy_encrypt false ctx1 demo_msgs_gcm = Some (C, ctx2) ∧
    (CRYPTO_gcm128_tag ctx2 12).1 = take 12 (gcm_tag toy_encrypt h J0 [1; 2; 3] C).
Proof.
  apply (gcm128_encrypt_spec toy_encrypt false demo_iv [(false, [1; 2]); (true, [3])] demo_msgs_gcm 12).
  - apply (bool_decide_eq_true_1 _). vm_compute. reflexivity.
  - apply (bool_decide_eq_true_1 _). vm_compute. reflexivity.
  - exact demo_msgs_gcm_ok.
  - vm_compute. discriminate.
  - vm_compute. discriminate.
  - lia.
Defined.

Lemma gcm128_decrypt_verify_witness :
  let h := toy_encrypt zeros in
  let J0 := gcm_J0 h demo_iv in
  let C := concat (demo_msgs_gcm.*2) in
  ∃ ctx1 ctx2 P,
    aad_calls (CRYPTO_gcm128_setiv toy_encrypt (CRYPTO_gcm128_init toy_encrypt false) demo_iv)
      [(false, [1; 2]); (true, [3])] = Some ctx1 ∧
    crypt_calls toy_encrypt true ctx1 demo_msgs_gcm = Some (P, ctx2) ∧
    C = GCTR toy_encrypt (inc32 J0 1) P ∧
    (∀ P', bytes P' → C = GCTR toy_encrypt (inc32 J0 1) P' → P = P') ∧
    ((CRYPTO_gcm128_finish ctx2 (Some (seqZ 0 16)) 12).1 = 0 ↔
     take 12 (seqZ 0 16) = take 12 (gcm_tag toy_encrypt h J0 [1; 2; 3] C)).
Proof.
  apply (gcm128_decrypt_verify toy_encrypt false demo_iv [(false, [1; 2]); (true, [3])] demo_msgs_gcm (seqZ 0 16) 12).
  - apply (bool_decide_eq_true_1 _). vm_compute. reflexivity.
  - apply (bool_decide_eq_true_1 _). vm_compute. reflexivity.
  - exact demo_msgs_gcm_ok.
  - vm_compute. discriminate.
  - vm_compute. discriminate.
  - lia.
  - vm_compute. lia.
Defined.
