(* ===== verification/Evp.v ===== *)
(** * Cipher contexts: buffering and padding

    Models [crypto/evp/evp_enc.c] in a build without engines: the initialisation of
    a context, [EVP_EncryptUpdate] and [EVP_DecryptUpdate], which collect input into
    blocks, and the final functions, which add and check the padding of the last
    block; the check works in constant time on masks.

    A cipher is a record of its parameters and methods, as in the source; its
    methods work on the part of the context that they read and change ([work]: the
    direction, the initialisation vectors, [num], [key_len] and [cipher_data]).  A call returns the return
    value, [*outl] ([None] when it is not assigned), the bytes written at [out] and
    the context; the call as a whole is [None] when the program stops, because
    there is no cipher or an assertion fails.  [*outl] is an [int] that wraps around.

    What the theorems ask of a cipher is the class [BlockCipher]: on whole blocks it
    succeeds, keeps the length, and processing in two calls is processing in one.
    The CBC mode of [Cbc] is an instance. *)

From S2P Require Import Prelude ConstTime Block Cbc.

Definition EVP_CIPH_STREAM_CIPHER : Z := 0x0.
Definition EVP_CIPH_ECB_MODE : Z := 0x1.
Definition EVP_CIPH_CBC_MODE : Z := 0x2.
Definition EVP_CIPH_CFB_MODE : Z := 0x3.
Definition EVP_CIPH_OFB_MODE : Z := 0x4.
Definition EVP_CIPH_CTR_MODE : Z := 0x5.
Definition EVP_CIPH_WRAP_MODE : Z := 0x10002.
Definition EVP_CIPH_MODE : Z := 0xF0007.
Definition EVP_CIPH_VARIABLE_LENGTH : Z := 0x8.
Definition EVP_CIPH_CUSTOM_IV : Z := 0x10.
Definition EVP_CIPH_ALWAYS_CALL_INIT : Z := 0x20.
Definition EVP_CIPH_CTRL_INIT : Z := 0x40.
Definition EVP_CIPH_CUSTOM_KEY_LENGTH : Z := 0x80.
Definition EVP_CIPH_NO_PADDING : Z := 0x100.
Definition EVP_CIPH_FLAG_CUSTOM_CIPHER : Z := 0x100000.
Definition EVP_CIPHER_CTX_FLAG_WRAP_ALLOW : Z := 0x1.
Definition EVP_CTRL_INIT : Z := 0x0.
Definition EVP_CTRL_SET_KEY_LENGTH : Z := 0x1.
Definition EVP_MAX_IV_LENGTH : Z := 16.
Definition EVP_MAX_BLOCK_LENGTH : Z := 32.

(** ** Contexts *)

Record work (D : Type) := Work {
  encrypt : Z;
  oiv : list Z;
  iv : list Z;
  num : Z;
  key_len : Z;
  cipher_data : option D
}.
Arguments Work {D}. Arguments encrypt {D}. Arguments oiv {D}. Arguments iv {D}. Arguments num {D}.
Arguments key_len {D}. Arguments cipher_data {D}.

Record EVP_CIPHER (D : Type) := mkCIPHER {
  nid : Z;
  block_size : Z;
  c_key_len : Z;
  iv_len : Z;
  c_flags : Z;
  ctx_data : option D;                 (* the memory for cipher_data, None for ctx_size = 0 *)
  c_init : work D → option (list Z) → option (list Z) → Z → Z * work D;
  do_cipher : work D → option (list Z) → Z * list Z * work D;
  cleanup : option (work D → Z);
  ctrl : option (work D → Z → Z → Z * work D)
}.
Arguments mkCIPHER {D}. Arguments nid {D}. Arguments block_size {D}. Arguments c_key_len {D}. Arguments iv_len {D}.
Arguments c_flags {D}. Arguments ctx_data {D}. Arguments c_init {D}. Arguments do_cipher {D}.
Arguments cleanup {D}. Arguments ctrl {D}.

Record EVP_CIPHER_CTX (D : Type) := mkCTX {
  cipher : option (EVP_CIPHER D);
  buf_len : Z;
  wk : work D;
  buf : list Z;
  flags : Z;
  final_used : Z;
  block_mask : Z;
  final : list Z
}.
Arguments mkCTX {D}. Arguments cipher {D}. Arguments buf_len {D}. Arguments wk {D}.
Arguments buf {D}. Arguments flags {D}. Arguments final_used {D}. Arguments block_mask {D}. Arguments final {D}.

Section evp.
Context {D : Type}.
Implicit Types ctx : EVP_CIPHER_CTX D.

Definition set_wk ctx w : EVP_CIPHER_CTX D :=
  mkCTX (cipher ctx) (buf_len ctx) w (buf ctx) (flags ctx) (final_used ctx) (block_mask ctx) (final ctx).
Definition set_buf ctx n b : EVP_CIPHER_CTX D :=
  mkCTX (cipher ctx) n (wk ctx) b (flags ctx) (final_used ctx) (block_mask ctx) (final ctx).
Definition set_final ctx u f : EVP_CIPHER_CTX D :=
  mkCTX (cipher ctx) (buf_len ctx) (wk ctx) (buf ctx) (flags ctx) u (block_mask ctx) f.
Definition set_flags ctx fl : EVP_CIPHER_CTX D :=
  mkCTX (cipher ctx) (buf_len ctx) (wk ctx) (buf ctx) fl (final_used ctx) (block_mask ctx) (final ctx).
Definition set_encrypt ctx e : EVP_CIPHER_CTX D :=
  set_wk ctx (Work e (oiv (wk ctx)) (iv (wk ctx)) (num (wk ctx)) (key_len (wk ctx)) (cipher_data (wk ctx))).
Definition set_key_len ctx k : EVP_CIPHER_CTX D :=
  set_wk ctx (Work (encrypt (wk ctx)) (oiv (wk ctx)) (iv (wk ctx)) (num (wk ctx)) k (cipher_data (wk ctx))).
Definition set_cipher ctx c : EVP_CIPHER_CTX D :=
  mkCTX c (buf_len ctx) (wk ctx) (buf ctx) (flags ctx) (final_used ctx) (block_mask ctx) (final ctx).

Definition work0 : work D := Work 0 (replicate 16 0) (replicate 16 0) 0 0 None.

Definition EVP_CIPHER_CTX_init : EVP_CIPHER_CTX D :=
  mkCTX None 0 work0 (replicate 32 0) 0 0 0 (replicate 32 0).

Definition EVP_CIPHER_CTX_cleanup ctx : Z * EVP_CIPHER_CTX D :=
  let ok := match cipher ctx with
            | Some c => match cleanup c with Some f => negb (f (wk ctx) =? 0) | None => true end
            | None => true
            end in
  if ok then (1, EVP_CIPHER_CTX_init) else (0, ctx).

Definition EVP_CIPHER_CTX_ctrl ctx (type arg : Z) : Z * EVP_CIPHER_CTX D :=
  match cipher ctx with
  | None => (0, ctx)
  | Some c =>
      match ctrl c with
      | None => (0, ctx)
      | Some f => let '(ret, w) := f (wk ctx) type arg in (if ret =? -1 then 0 else ret, set_wk ctx w)
      end
  end.

Definition EVP_CIPHER_CTX_set_key_length ctx (keylen : Z) : option (Z * EVP_CIPHER_CTX D) :=
  match cipher ctx with
  | None => None
  | Some c =>
      Some (if negb (Z.land (c_flags c) EVP_CIPH_CUSTOM_KEY_LENGTH =? 0) then
              EVP_CIPHER_CTX_ctrl ctx EVP_CTRL_SET_KEY_LENGTH keylen
            else if key_len (wk ctx) =? keylen then (1, ctx)
            else if (0 <? keylen) && negb (Z.land (c_flags c) EVP_CIPH_VARIABLE_LENGTH =? 0) then
              (1, set_key_len ctx keylen)
            else (0, ctx))
  end.

Definition EVP_CIPHER_CTX_set_padding ctx (pad : Z) : Z * EVP_CIPHER_CTX D :=
  (1, set_flags ctx (if pad =? 0 then Z.lor (flags ctx) EVP_CIPH_NO_PADDING
                     else Z.land (flags ctx) (Z.lnot EVP_CIPH_NO_PADDING))).

(** ** Initialisation *)

(** The [switch] on the mode: the work with the initialisation vector in place, [None] for the
    modes that need [EVP_CIPH_CUSTOM_IV]; the outer [None] for the failed assertion. *)
Definition set_iv (c : EVP_CIPHER D) (w : work D) (v : option (list Z)) : option (option (work D)) :=
  let mode := Z.land (c_flags c) EVP_CIPH_MODE in
  let n := Z.to_nat (iv_len c) in
  let put dst src := splice dst 0 (take n src) in
  let with_oiv num :=
    if EVP_MAX_IV_LENGTH <? iv_len c then None
    else
      let o := match v with Some v => put (oiv w) v | None => oiv w end in
      Some (Some (Work (encrypt w) o (put (iv w) o) num (key_len w) (cipher_data w))) in
  if (mode =? EVP_CIPH_STREAM_CIPHER) || (mode =? EVP_CIPH_ECB_MODE) then Some (Some w)
  else if (mode =? EVP_CIPH_CFB_MODE) || (mode =? EVP_CIPH_OFB_MODE) then with_oiv 0
  else if mode =? EVP_CIPH_CBC_MODE then with_oiv (num w)
  else if mode =? EVP_CIPH_CTR_MODE then
    Some (Some (Work (encrypt w) (oiv w) (match v with Some v => put (iv w) v | None => iv w end) 0
                     (key_len w) (cipher_data w)))
  else Some None.

(** [if (cipher)] in [EVP_CipherInit_ex]: a new cipher in the context, [inl] for a failure.
    [malloc] answers the allocation of [cipher_data]. *)
Definition install (malloc : bool) ctx (c : EVP_CIPHER D) (enc : Z) : EVP_CIPHER_CTX D + EVP_CIPHER_CTX D :=
  let ctx :=
    match cipher ctx with
    | Some _ => set_flags (set_encrypt (EVP_CIPHER_CTX_cleanup ctx).2 enc) (flags ctx)
    | None => ctx
    end in
  let ctx := set_cipher ctx (Some c) in
  let w := wk ctx in
  let with_data d := set_wk ctx (Work (encrypt w) (oiv w) (iv w) (num w) (key_len w) d) in
  match ctx_data c, malloc with
  | Some _, false => inl (with_data None)
  | data, _ =>
      let ctx := set_key_len (with_data data) (c_key_len c) in
      let ctx := set_flags ctx (Z.land (flags ctx) EVP_CIPHER_CTX_FLAG_WRAP_ALLOW) in
      if negb (Z.land (c_flags c) EVP_CIPH_CTRL_INIT =? 0) then
        let '(r, ctx) := EVP_CIPHER_CTX_ctrl ctx EVP_CTRL_INIT 0 in
        if r =? 0 then inl ctx else inr ctx
      else inr ctx
  end.

(** After [skip_to_init]. *)
Definition init_state ctx (c : EVP_CIPHER D) (key v : option (list Z)) (enc : Z) : option (Z * EVP_CIPHER_CTX D) :=
  if negb ((block_size c =? 1) || (block_size c =? 8) || (block_size c =? 16)) then None
  else if (Z.land (flags ctx) EVP_CIPHER_CTX_FLAG_WRAP_ALLOW =? 0) &&
          (Z.land (c_flags c) EVP_CIPH_MODE =? EVP_CIPH_WRAP_MODE) then Some (0, ctx)
  else
    match (if Z.land (c_flags c) EVP_CIPH_CUSTOM_IV =? 0 then set_iv c (wk ctx) v else Some (Some (wk ctx))) with
    | None => None
    | Some None => Some (0, ctx)
    | Some (Some w) =>
        let call := match key with
                    | Some _ => true
                    | None => negb (Z.land (c_flags c) EVP_CIPH_ALWAYS_CALL_INIT =? 0)
                    end in
        let '(r, w) := if call then c_init c w key v enc else (1, w) in
        if r =? 0 then Some (0, set_wk ctx w)
        else Some (1, mkCTX (cipher ctx) 0 w (buf ctx) (flags ctx) 0 (block_size c - 1) (final ctx))
    end.

Definition EVP_CipherInit_ex (malloc : bool) ctx (c : option (EVP_CIPHER D)) (key v : option (list Z)) (enc : Z)
    : option (Z * EVP_CIPHER_CTX D) :=
  let enc := if enc =? -1 then encrypt (wk ctx) else if enc =? 0 then 0 else 1 in
  let ctx := set_encrypt ctx enc in
  match c with
  | Some c =>
      match install malloc ctx c enc with
      | inl ctx => Some (0, ctx)
      | inr ctx => init_state ctx c key v enc
      end
  | None =>
      match cipher ctx with
      | Some c => init_state ctx c key v enc
      | None => Some (0, ctx)
      end
  end.

Definition EVP_CipherInit (malloc : bool) ctx (c : option (EVP_CIPHER D)) (key v : option (list Z)) (enc : Z)
    : option (Z * EVP_CIPHER_CTX D) :=
  EVP_CipherInit_ex malloc (match c with Some _ => EVP_CIPHER_CTX_init | None => ctx end) c key v enc.

Definition EVP_EncryptInit_ex (malloc : bool) ctx (c : option (EVP_CIPHER D)) (key v : option (list Z)) :=
  EVP_CipherInit_ex malloc ctx c key v 1.

Definition EVP_DecryptInit_ex (malloc : bool) ctx (c : option (EVP_CIPHER D)) (key v : option (list Z)) :=
  EVP_CipherInit_ex malloc ctx c key v 0.

(** ** Encryption *)

Abbreviation result := (option (Z * option Z * list Z * EVP_CIPHER_CTX D)).

Definition is_custom (c : EVP_CIPHER D) : bool := negb (Z.land (c_flags c) EVP_CIPH_FLAG_CUSTOM_CIPHER =? 0).

(** [M_do_cipher(ctx, out, in, inl)] *)
Definition M_do_cipher ctx (c : EVP_CIPHER D) (inp : option (list Z)) : Z * list Z * EVP_CIPHER_CTX D :=
  let '(r, o, w) := do_cipher c (wk ctx) inp in (r, o, set_wk ctx w).

(** Two's complement: [*outl] wraps around when the lengths add up to more than [INT_MAX]. *)
Definition int (z : Z) : Z := to_int (u32 z).

(** After the buffered block: whole blocks of the input, and the rest into the buffer. *)
Definition update_rest ctx (c : EVP_CIPHER D) (out : list Z) (outl : Z) (inp : list Z) (inl_ : Z) : result :=
  let i := Z.land inl_ (block_size c - 1) in
  let inl_ := inl_ - i in
  let save ctx out outl :=
    let b := if i =? 0 then buf ctx else splice (buf ctx) 0 (take (Z.to_nat i) (drop (Z.to_nat inl_) inp)) in
    Some (1, Some outl, out, set_buf ctx i b) in
  if 0 <? inl_ then
    let '(r, o, ctx) := M_do_cipher ctx c (Some (take (Z.to_nat inl_) inp)) in
    if r =? 0 then Some (0, Some outl, out ++ o, ctx)
    else save ctx (out ++ o) (int (outl + inl_))
  else save ctx out outl.

Definition EVP_EncryptUpdate ctx (inp : list Z) (inl_ : Z) : result :=
  match cipher ctx with
  | None => None
  | Some c =>
      if is_custom c then
        let '(i, o, ctx) := M_do_cipher ctx c (Some (take (Z.to_nat inl_) inp)) in
        Some (if i <? 0 then (0, None, o, ctx) else (1, Some i, o, ctx))
      else if inl_ <=? 0 then Some (if inl_ =? 0 then 1 else 0, Some 0, [], ctx)
      else if (buf_len ctx =? 0) && (Z.land inl_ (block_mask ctx) =? 0) then
        let '(r, o, ctx) := M_do_cipher ctx c (Some (take (Z.to_nat inl_) inp)) in
        Some (if r =? 0 then (0, Some 0, o, ctx) else (1, Some inl_, o, ctx))
      else
        let i := buf_len ctx in
        let bl := block_size c in
        if EVP_MAX_BLOCK_LENGTH <? bl then None
        else if negb (i =? 0) then
          if inl_ <? bl - i then
            Some (1, Some 0, [],
                  set_buf ctx (i + inl_) (splice (buf ctx) (Z.to_nat i) (take (Z.to_nat inl_) inp)))
          else
            let j := bl - i in
            let ctx := set_buf ctx (buf_len ctx) (splice (buf ctx) (Z.to_nat i) (take (Z.to_nat j) inp)) in
            let '(r, o, ctx) := M_do_cipher ctx c (Some (take (Z.to_nat bl) (buf ctx))) in
            if r =? 0 then Some (0, None, o, ctx)
            else update_rest ctx c o bl (drop (Z.to_nat j) inp) (inl_ - j)
        else update_rest ctx c [] 0 inp inl_
  end.

(** [for (i = bl; i < b; i++) ctx->buf[i] = n] *)
Definition pad_buf (b : list Z) (bl bs : Z) : list Z :=
  splice b (Z.to_nat bl) (replicate (Z.to_nat (bs - bl)) (u8 (bs - bl))).

Definition EVP_EncryptFinal_ex ctx : result :=
  match cipher ctx with
  | None => None
  | Some c =>
      if is_custom c then
        let '(r, o, ctx) := M_do_cipher ctx c None in
        Some (if r <? 0 then (0, None, o, ctx) else (1, Some r, o, ctx))
      else
        let b := block_size c in
        if EVP_MAX_BLOCK_LENGTH <? b then None
        else if b =? 1 then Some (1, Some 0, [], ctx)
        else
          let bl := buf_len ctx in
          if negb (Z.land (flags ctx) EVP_CIPH_NO_PADDING =? 0) then
            if negb (bl =? 0) then Some (0, None, [], ctx) else Some (1, Some 0, [], ctx)
          else
            let ctx := set_buf ctx bl (pad_buf (buf ctx) bl b) in
            let '(r, o, ctx) := M_do_cipher ctx c (Some (take (Z.to_nat b) (buf ctx))) in
            Some (r, if r =? 0 then None else Some b, o, ctx)
  end.

(** ** Decryption *)

(** The end of [EVP_DecryptUpdate]: the last block of the output [o] is kept back. *)
Definition keep_last ctx (b : Z) (fix_len : bool) (outl : Z) (pre o : list Z) : result :=
  let '(outl, ctx) :=
    if (1 <? b) && (buf_len ctx =? 0) then
      let outl := int (outl - b) in
      (outl, set_final ctx 1 (splice (final ctx) 0 (take (Z.to_nat b) (drop (Z.to_nat outl) o))))
    else (outl, set_final ctx 0 (final ctx)) in
  Some (1, Some (if fix_len then int (outl + b) else outl), pre ++ o, ctx).

Definition EVP_DecryptUpdate ctx (inp : list Z) (inl_ : Z) : result :=
  match cipher ctx with
  | None => None
  | Some c =>
      if is_custom c then
        let '(r, o, ctx) := M_do_cipher ctx c (Some (take (Z.to_nat inl_) inp)) in
        Some (if r <? 0 then (0, Some 0, o, ctx) else (1, Some r, o, ctx))
      else if inl_ <=? 0 then Some (if inl_ =? 0 then 1 else 0, Some 0, [], ctx)
      else if negb (Z.land (flags ctx) EVP_CIPH_NO_PADDING =? 0) then EVP_EncryptUpdate ctx inp inl_
      else
        let b := block_size c in
        if EVP_MAX_BLOCK_LENGTH <? b then None
        else
          let fix_len := negb (final_used ctx =? 0) in
          let pre := if fix_len then take (Z.to_nat b) (final ctx) else [] in
          match EVP_EncryptUpdate ctx inp inl_ with
          | None => None
          | Some (r, outl, o, ctx) =>
              if r =? 0 then Some (0, outl, pre ++ o, ctx)
              else
                keep_last ctx b fix_len (match outl with Some n => n | None => 0 end) pre o
          end
  end.

(** The loop over the bytes before the last one. *)
Fixpoint padding_mask (fin : list Z) (b pad good i : Z) (n : nat) : Z :=
  match n with
  | O => good
  | S n =>
      let is_pad_index := constant_time_lt_8 i pad in
      let pad_byte_good := constant_time_eq_8 (getb fin (b - i - 1)) pad in
      padding_mask fin b pad (Z.land good (constant_time_select_8 is_pad_index pad_byte_good 0xff)) (i + 1) n
  end.

Definition EVP_DecryptFinal_ex ctx : result :=
  match cipher ctx with
  | None => None
  | Some c =>
      if is_custom c then
        let '(r, o, ctx) := M_do_cipher ctx c None in
        Some (if r <? 0 then (0, Some 0, o, ctx) else (1, Some r, o, ctx))
      else
        let b := block_size c in
        if negb (Z.land (flags ctx) EVP_CIPH_NO_PADDING =? 0) then
          Some (if negb (buf_len ctx =? 0) then 0 else 1, Some 0, [], ctx)
        else if 1 <? b then
          if negb (buf_len ctx =? 0) || (final_used ctx =? 0) then Some (0, Some 0, [], ctx)
          else if EVP_MAX_BLOCK_LENGTH <? b then None
          else
            let pad := getb (final ctx) (b - 1) in
            let good := u8 (Z.lnot (constant_time_is_zero_8 pad)) in
            let good := Z.land good (constant_time_ge_8 b pad) in
            let good := padding_mask (final ctx) b pad good 1 (Z.to_nat (b - 1)) in
            let out := (λ x, Z.land x good) <$> take (Z.to_nat (b - 1)) (final ctx) in
            Some (Z.land good 1, Some (Z.land good (u8 (b - pad))), out, ctx)
        else Some (1, Some 0, [], ctx)
  end.

Definition EVP_CipherUpdate ctx inp inl_ : result :=
  if negb (encrypt (wk ctx) =? 0) then EVP_EncryptUpdate ctx inp inl_ else EVP_DecryptUpdate ctx inp inl_.

Definition EVP_CipherFinal_ex ctx : result :=
  if negb (encrypt (wk ctx) =? 0) then EVP_EncryptFinal_ex ctx else EVP_DecryptFinal_ex ctx.

(** ** A caller *)

(** The bytes a caller takes from a call that succeeds. *)
Definition accept (res : result) : option (list Z * EVP_CIPHER_CTX D) :=
  match res with
  | Some (ret, Some outl, o, ctx) => if ret =? 0 then None else Some (take (Z.to_nat outl) o, ctx)
  | _ => None
  end.

(** The input in pieces of any length. *)
Fixpoint updates (upd : EVP_CIPHER_CTX D → list Z → Z → result) ctx (pieces : list (list Z))
    : option (list Z * EVP_CIPHER_CTX D) :=
  match pieces with
  | [] => Some ([], ctx)
  | p :: pieces =>
      '(o, ctx) ← accept (upd ctx p (Z.of_nat (length p)));
      '(o', ctx) ← updates upd ctx pieces;
      Some (o ++ o', ctx)
  end.

Definition run upd (fin : EVP_CIPHER_CTX D → result) ctx (pieces : list (list Z)) : option (list Z) :=
  '(o, ctx) ← updates upd ctx pieces;
  '(o', _) ← accept (fin ctx);
  Some (o ++ o').

(** ** The constant-time check of the padding *)

Lemma is_u32_byte z : is_byte z → is_u32 z.
Proof. unfold is_byte, is_u32. lia. Qed.

Lemma constant_time_lt_8_mask a b : is_u32 a → is_u32 b → constant_time_lt_8 a b = mask8 (a <? b).
Proof. intros. unfold constant_time_lt_8. by rewrite constant_time_lt_mask, u8_mask32. Qed.

Lemma constant_time_is_zero_8_mask a : is_u32 a → constant_time_is_zero_8 a = mask8 (a =? 0).
Proof. intros. unfold constant_time_is_zero_8. by rewrite constant_time_is_zero_mask, u8_mask32. Qed.

(** The mask here has 8 bits: its complement has all higher bits, which select from [b]. *)
Lemma constant_time_select_8_mask8 m x : constant_time_select_8 (mask8 m) (mask8 x) 0xff = mask8 (negb m || x).
Proof. by destruct m, x. Qed.

Lemma land_mask8_mask8 x y : Z.land (mask8 x) (mask8 y) = mask8 (x && y).
Proof. by destruct x, y. Qed.

(** The last [pad] bytes of the block have the value [pad]. *)
Definition padded (fin : list Z) (b pad : Z) : bool :=
  (0 <? pad) && (pad <=? b) && forallb (λ i, getb fin (b - i - 1) =? pad) (seqZ 0 pad).

Lemma padding_mask_spec fin b pad n : bytes fin → is_byte pad → b < 2 ^ 31 → ∀ i g, 0 ≤ i → i + Z.of_nat n ≤ b →
  padding_mask fin b pad (mask8 g) i n =
  mask8 (g && forallb (λ j, negb (j <? pad) || (getb fin (b - j - 1) =? pad)) (seqZ i (Z.of_nat n))).
Proof.
  intros Hf Hp Hb. induction n as [|n IH]; intros i g Hi Hn; cbn [padding_mask].
  { rewrite seqZ_nil by lia. by rewrite andb_true_r. }
  rewrite seqZ_cons by lia. cbn [forallb].
  pose proof (getb_byte fin (b - i - 1) Hf).
  rewrite constant_time_lt_8_mask, constant_time_eq_8_mask, constant_time_select_8_mask8, land_mask8_mask8
    by first [by apply is_u32_byte | unfold is_u32; lia].
  rewrite IH by lia. rewrite andb_assoc. do 3 f_equal. f_equal; lia.
Qed.

Lemma padded_mask fin b : bytes fin → 0 < b < 256 →
  let pad := getb fin (b - 1) in
  padding_mask fin b pad (Z.land (u8 (Z.lnot (constant_time_is_zero_8 pad))) (constant_time_ge_8 b pad)) 1
    (Z.to_nat (b - 1)) = mask8 (padded fin b pad).
Proof.
  intros Hf Hb pad. pose proof (getb_byte fin (b - 1) Hf) as Hp. fold pad in Hp.
  rewrite constant_time_is_zero_8_mask, constant_time_ge_8_mask
    by first [by apply is_u32_byte | unfold is_u32; lia].
  replace (u8 (Z.lnot (mask8 (pad =? 0)))) with (mask8 (negb (pad =? 0))) by (by destruct (pad =? 0)).
  rewrite land_mask8_mask8, padding_mask_spec by (try done; lia). f_equal. unfold padded.
  destruct (Z.eqb_spec pad 0) as [E|E].
  { by rewrite E. }
  rewrite (proj2 (Z.ltb_lt _ _)) by (unfold is_byte in Hp; lia). cbn [negb andb].
  destruct (Z.leb_spec pad b) as [L|L]; [|done]. cbn [andb]. rewrite Z2Nat.id by lia.
  apply eq_bool_prop_intro. rewrite !Is_true_true, !forallb_forall.
  setoid_rewrite <- list_elem_of_In. setoid_rewrite elem_of_seqZ. split; intros H j Hj.
  - destruct (decide (j = 0)) as [->|]; [rewrite Z.sub_0_r; apply Z.eqb_refl|].
    specialize (H j ltac:(lia)). by rewrite (proj2 (Z.ltb_lt j pad)) in H by lia.
  - destruct (Z.ltb_spec j pad); [|done]. cbn [negb orb]. apply H. lia.
Qed.

Lemma padded_take l b pad : padded (take (Z.to_nat b) l) b pad = padded l b pad.
Proof.
  unfold padded. destruct (Z.ltb_spec 0 pad), (Z.leb_spec pad b); try done. cbn [andb].
  apply eq_bool_prop_intro. rewrite !Is_true_true, !forallb_forall.
  setoid_rewrite <- list_elem_of_In. setoid_rewrite elem_of_seqZ.
  split; intros Hi j Hj; specialize (Hi j Hj); by rewrite getb_take in * by lia.
Qed.

(** The padding that [EVP_EncryptFinal_ex] adds after [n] bytes. *)
Definition padding (b : Z) (n : nat) : list Z :=
  let k := b - Z.of_nat n `mod` b in replicate (Z.to_nat k) k.

(** The message under a padding, [None] for a padding that is not valid. *)
Definition unpad (b : Z) (m : list Z) : option (list Z) :=
  let last := drop (length m - Z.to_nat b) m in
  let pad := getb last (b - 1) in
  if padded last b pad then Some (take (length m - Z.to_nat pad) m) else None.

Lemma padded_spec l b pad : length l = Z.to_nat b → 0 < b →
  padded l b pad = true ↔ 0 < pad ≤ b ∧ drop (Z.to_nat (b - pad)) l = replicate (Z.to_nat pad) pad.
Proof.
  intros Hl Hb. unfold padded. rewrite !andb_true_iff, Z.ltb_lt, Z.leb_le, forallb_forall.
  setoid_rewrite <- list_elem_of_In. setoid_rewrite elem_of_seqZ. setoid_rewrite Z.eqb_eq.
  split; (intros [Hp H]; split; [lia|]).
  - apply list_eq_getb; [rewrite length_drop, length_replicate; lia|]. intros i. rewrite length_drop. intros Hi.
    rewrite getb_drop, getb_replicate by lia. etrans; [|apply (H (pad - 1 - i)); lia]. f_equal. lia.
  - intros i Hi. transitivity (getb (drop (Z.to_nat (b - pad)) l) (pad - i - 1)).
    + rewrite getb_drop by lia. f_equal. lia.
    + rewrite H, getb_replicate by lia. done.
Qed.

(** ** What a cipher promises *)

Definition whole (c : EVP_CIPHER D) (l : list Z) : Prop := (Z.to_nat (block_size c) | length l)%nat.

Class BlockCipher (c : EVP_CIPHER D) (ok : work D → Prop) (f : work D → list Z → list Z)
    (adv : work D → list Z → work D) : Prop := {
  bc_custom : is_custom c = false;
  bc_size : block_size c = 1 ∨ block_size c = 8 ∨ block_size c = 16;
  bc_do w l : ok w → bytes l → whole c l → l ≠ [] → do_cipher c w (Some l) = (1, f w l, adv w l);
  bc_ok w l : ok w → bytes l → whole c l → ok (adv w l);
  bc_encrypt w l : encrypt (adv w l) = encrypt w;
  bc_length w l : ok w → bytes l → whole c l → length (f w l) = length l;
  bc_bytes w l : ok w → bytes l → whole c l → bytes (f w l);
  bc_nil w : ok w → f w [] = [] ∧ adv w [] = w;
  bc_app w a l : ok w → bytes a → bytes l → whole c a → whole c l →
    f w (a ++ l) = f w a ++ f (adv w a) l ∧ adv w (a ++ l) = adv (adv w a) l
}.

Section laws.
Context (c : EVP_CIPHER D) (ok : work D → Prop) (f : work D → list Z → list Z) (adv : work D → list Z → work D).
Context `{HC : !BlockCipher c ok f adv}.
Implicit Types r inp S : list Z.

Local Abbreviation b := (block_size c).

Lemma ok_adv w S : ok w → bytes S → whole c S → ok (adv w S).
Proof. apply bc_ok. Qed.

Lemma enc_adv w S : encrypt (adv w S) = encrypt w.
Proof. apply bc_encrypt. Qed.

Lemma block_range : 1 ≤ b ≤ 16.
Proof. destruct bc_size as [|[|]]; lia. Qed.

Lemma land_block n : Z.land n (b - 1) = n `mod` b.
Proof.
  destruct bc_size as [E|[E|E]]; rewrite E;
    [apply (Z.land_ones n 0)|apply (Z.land_ones n 3)|apply (Z.land_ones n 4)]; lia.
Qed.

Lemma whole_mod l : whole c l ↔ Z.of_nat (length l) `mod` b = 0.
Proof.
  pose proof block_range. unfold whole. rewrite Z.mod_divide by lia. split; intros [k Hk].
  - exists (Z.of_nat k). lia.
  - exists (Z.to_nat k). nia.
Qed.

Lemma whole_nil : whole c [].
Proof. apply whole_mod. apply Z.mod_0_l. pose proof block_range. lia. Qed.

Lemma whole_app l m : whole c l → whole c m → whole c (l ++ m).
Proof. unfold whole. rewrite length_app. apply Nat.divide_add_r. Qed.

Lemma whole_app_inv l m : whole c l → whole c (l ++ m) → whole c m.
Proof. unfold whole. rewrite length_app. exact (Nat.divide_add_cancel_r _ _ _). Qed.

(** The context is between two calls and holds the bytes [r] of an unfinished block. *)
Record holds ctx r : Prop := {
  h_cipher : cipher ctx = Some c;
  h_mask : block_mask ctx = b - 1;
  h_buf : length (buf ctx) = 32%nat;
  h_len : buf_len ctx = Z.of_nat (length r);
  h_rest : take (length r) (buf ctx) = r;
  h_short : Z.of_nat (length r) < b;
  h_bytes : bytes r;
  h_ok : ok (wk ctx)
}.

(** What the update functions for encryption leave alone. *)
Definition same_rest ctx ctx' : Prop :=
  flags ctx' = flags ctx ∧ final_used ctx' = final_used ctx ∧ final ctx' = final ctx.

Lemma splice_nil {A} (l : list A) : splice l 0 [] = l.
Proof. done. Qed.

Lemma take_splice0 {A} (l src : list A) : take (length src) (splice l 0 src) = src.
Proof. unfold splice. rewrite take_0, app_nil_l. apply take_app_length. Qed.

Lemma app_parts {A} (a d l : list A) : a ++ d = l → take (length a) l = a ∧ take (length d) (drop (length a) l) = d.
Proof. intros <-. by rewrite take_app_length, drop_app_length, firstn_all. Qed.

(** The split of the remaining input into whole blocks and a rest. *)
Definition whole_part inp : list Z := take (length inp - Z.to_nat (Z.of_nat (length inp) `mod` b)) inp.
Definition rest_part inp : list Z := drop (length inp - Z.to_nat (Z.of_nat (length inp) `mod` b)) inp.

Lemma rest_length inp : Z.of_nat (length (rest_part inp)) = Z.of_nat (length inp) `mod` b.
Proof.
  pose proof block_range. unfold rest_part. rewrite length_drop.
  pose proof (Z.mod_pos_bound (Z.of_nat (length inp)) b ltac:(lia)).
  pose proof (Z.mod_le (Z.of_nat (length inp)) b ltac:(lia) ltac:(lia)). lia.
Qed.

Lemma whole_part_spec inp : whole c (whole_part inp) ∧ whole_part inp ++ rest_part inp = inp.
Proof.
  split; [|apply take_drop]. apply whole_mod.
  pose proof (rest_length inp) as H. pose proof block_range.
  assert (Z.of_nat (length (whole_part inp)) = Z.of_nat (length inp) - Z.of_nat (length inp) `mod` b) as ->.
  { rewrite <- H. rewrite <- (take_drop (length inp - Z.to_nat (Z.of_nat (length inp) `mod` b)) inp) at 2.
    rewrite length_app. fold (whole_part inp) (rest_part inp). lia. }
  rewrite Zminus_mod_idemp_r, Z.sub_diag. by apply Z.mod_0_l; lia.
Qed.

(** The context after the blocks [S], with the rest [r]. *)
Definition advanced ctx S r : EVP_CIPHER_CTX D :=
  set_buf (set_wk ctx (adv (wk ctx) S)) (Z.of_nat (length r)) (splice (buf ctx) 0 r).

Lemma do_cipher_spec ctx S : ok (wk ctx) → bytes S → whole c S → S ≠ [] →
  M_do_cipher ctx c (Some S) = (1, f (wk ctx) S, set_wk ctx (adv (wk ctx) S)).
Proof. intros. unfold M_do_cipher. by rewrite bc_do. Qed.

Lemma update_rest_spec ctx out outl inp : ok (wk ctx) → bytes inp → is_int outl →
  update_rest ctx c out outl inp (Z.of_nat (length inp)) =
  Some (1, Some (int (outl + Z.of_nat (length (whole_part inp)))), out ++ f (wk ctx) (whole_part inp),
        advanced ctx (whole_part inp) (rest_part inp)).
Proof.
  intros Hok Hb Ho. unfold update_rest. rewrite land_block.
  pose proof (rest_length inp) as Hr. destruct (whole_part_spec inp) as [Hw Hs].
  pose proof (f_equal length Hs) as Hl. rewrite length_app in Hl. rewrite <- Hr.
  replace (Z.of_nat (length inp) - Z.of_nat (length (rest_part inp))) with (Z.of_nat (length (whole_part inp))) by lia.
  assert (bytes (whole_part inp)) as Hbw by (by apply bytes_take).
  assert (take (Z.to_nat (Z.of_nat (length (whole_part inp)))) inp = whole_part inp) as ->.
  { rewrite Nat2Z.id. by apply (app_parts _ (rest_part inp)). }
  assert (take (Z.to_nat (Z.of_nat (length (rest_part inp)))) (drop (Z.to_nat (Z.of_nat (length (whole_part inp)))) inp)
          = rest_part inp) as ->.
  { rewrite !Nat2Z.id. by apply app_parts. }
  assert (∀ x, (if Z.of_nat (length (rest_part inp)) =? 0 then x else splice x 0 (rest_part inp))
               = splice x 0 (rest_part inp)) as Hbuf.
  { intros x. destruct (Z.eqb_spec (Z.of_nat (length (rest_part inp))) 0) as [E|E]; [|done].
    rewrite (nil_length_inv (rest_part inp)) by lia. done. }
  destruct (Z.ltb_spec 0 (Z.of_nat (length (whole_part inp)))) as [L|L].
  - rewrite do_cipher_spec by (try done; intros E; rewrite E in L; cbn in L; lia).
    cbn [Z.eqb]. by rewrite Hbuf.
  - rewrite (nil_length_inv (whole_part inp)) by lia. destruct (bc_nil (wk ctx) Hok) as [E1 E2].
    rewrite Hbuf, E1, app_nil_r, Z.add_0_r. unfold int. rewrite to_int_u32 by done.
    unfold advanced. rewrite E2. by destruct ctx.
Qed.

Lemma holds_advanced ctx S r : cipher ctx = Some c → block_mask ctx = b - 1 → length (buf ctx) = 32%nat →
  ok (wk ctx) → bytes S → whole c S → bytes r → Z.of_nat (length r) < b → holds (advanced ctx S r) r.
Proof.
  intros H1 H2 H3 H4 H5 H6 H7 H8. pose proof block_range. split; try done.
  - cbn [buf advanced set_buf]. rewrite length_splice; [done|lia].
  - apply take_splice0.
  - cbn [wk advanced set_buf set_wk]. by apply ok_adv.
Qed.

(** The bytes [r] at the start of the buffer, extended by [a]. *)
Lemma take_splice_app {A} (l r a : list A) : take (length r) l = r →
  take (length r + length a) (splice l (length r) a) = r ++ a.
Proof.
  intros H. unfold splice. rewrite H, app_assoc. apply take_app_exact. by rewrite length_app.
Qed.

Lemma EncryptUpdate_step ctx r inp : holds ctx r → bytes inp → Z.of_nat (length inp) < 2 ^ 31 →
  ∃ S r' ctx', r ++ inp = S ++ r' ∧ whole c S ∧
    EVP_EncryptUpdate ctx inp (Z.of_nat (length inp)) =
      Some (1, Some (int (Z.of_nat (length S))), f (wk ctx) S, ctx') ∧
    holds ctx' r' ∧ wk ctx' = adv (wk ctx) S ∧ same_rest ctx ctx'.
Proof.
  intros [Hc Hm Hb Hl Hr Hs Hby Hok] Hi Hn. pose proof block_range as Hbr.
  unfold EVP_EncryptUpdate. rewrite Hc, bc_custom, Hm, land_block.
  destruct (Z.leb_spec (Z.of_nat (length inp)) 0) as [L|L].
  { rewrite (nil_length_inv inp) by lia. exists [], r, ctx. destruct (bc_nil (wk ctx) Hok) as [E1 E2].
    rewrite E1, E2, app_nil_r. split_and!; try done; apply whole_nil. }
  destruct (Z.eqb_spec (buf_len ctx) 0) as [Z0|Z0].
  - assert (r = []) as -> by (apply nil_length_inv; lia). cbn [andb app].
    destruct (Z.eqb_spec (Z.of_nat (length inp) `mod` b) 0) as [E|E].
    + assert (whole c inp) as Hw by (by apply whole_mod).
      rewrite Nat2Z.id, firstn_all, do_cipher_spec by (try done; by intros ->). cbn [Z.eqb].
      exists inp, [], (set_wk ctx (adv (wk ctx) inp)). rewrite app_nil_r.
      split_and!; try done; [|split; try done; by apply ok_adv].
      unfold int. rewrite to_int_u32; [done|unfold is_int; lia].
    + rewrite (proj2 (Z.ltb_ge _ _)) by (unfold EVP_MAX_BLOCK_LENGTH; lia). cbn [negb].
      rewrite update_rest_spec by (try done; unfold is_int; lia).
      destruct (whole_part_spec inp) as [Hw He]. exists (whole_part inp), (rest_part inp), (advanced ctx (whole_part inp) (rest_part inp)).
      split_and!; try done. apply holds_advanced; try done; [by apply bytes_take|by apply bytes_drop|].
      rewrite rest_length. apply Z.mod_pos_bound. lia.
  - cbn [andb negb]. rewrite (proj2 (Z.ltb_ge _ _)) by (unfold EVP_MAX_BLOCK_LENGTH; lia).
    rewrite Hl, !Nat2Z.id.
    destruct (Z.ltb_spec (Z.of_nat (length inp)) (b - Z.of_nat (length r))) as [Lb|Lb].
    + exists [], (r ++ inp), (set_buf ctx (Z.of_nat (length r) + Z.of_nat (length inp)) (splice (buf ctx) (length r) inp)).
      destruct (bc_nil (wk ctx) Hok) as [E1 E2]. rewrite firstn_all, E1. split_and!; try done; [apply whole_nil|].
      split; try done; cbn [buf buf_len set_buf]; rewrite ?length_app.
      * rewrite length_splice; lia.
      * lia.
      * by apply take_splice_app.
      * lia.
      * by apply bytes_app.
    + destruct (split_at inp (Z.to_nat (b - Z.of_nat (length r))) ltac:(lia)) as (a & d & -> & Ha & _).
      apply Forall_app in Hi as [Hia Hid]. rewrite length_app in *.
      rewrite (take_app_exact _ _ _ Ha), (drop_app_exact _ _ _ Ha).
      set (ctx1 := set_buf ctx _ _).
      assert (take (Z.to_nat b) (buf ctx1) = r ++ a) as ->.
      { replace (Z.to_nat b) with (length r + length a)%nat by lia. by apply take_splice_app. }
      assert (whole c (r ++ a)) as Hw by (exists 1%nat; rewrite length_app; lia).
      assert (bytes (r ++ a)) as Hra by (by apply bytes_app).
      rewrite do_cipher_spec by (try done; (destruct r; [cbn in Hl; lia|done])). cbn [Z.eqb].
      replace (Z.of_nat (length a + length d) - (b - Z.of_nat (length r))) with (Z.of_nat (length d)) by lia.
      rewrite update_rest_spec by (first [done | by apply ok_adv | unfold is_int; lia]).
      destruct (whole_part_spec d) as [Hwd Hed].
      assert (bytes (whole_part d)) as Hbd by (by apply bytes_take).
      cbn [wk set_wk ctx1 set_buf]. destruct (bc_app (wk ctx) (r ++ a) (whole_part d)) as [E1 E2]; try done.
      eexists ((r ++ a) ++ whole_part d), (rest_part d), _. split_and!; [|by apply whole_app| | | |].
      * by rewrite <- !app_assoc, Hed.
      * rewrite E1, !length_app. repeat f_equal. lia.
      * apply holds_advanced; try done; [| |by apply bytes_drop|].
        -- cbn [buf set_wk set_buf ctx1]. rewrite length_splice; lia.
        -- cbn [wk set_wk]. by apply ok_adv.
        -- rewrite rest_length. apply Z.mod_pos_bound. lia.
      * by rewrite E2.
      * done.
Qed.

(** Close to the largest [int] the sum in [*outl] overflows: the call returns 1 and a negative length. *)
Lemma EncryptUpdate_overflow ctx r inp : holds ctx r → bytes inp → b = 16 →
  length r = 15%nat → Z.of_nat (length inp) = 2 ^ 31 - 1 →
  ∃ o ctx', EVP_EncryptUpdate ctx inp (2 ^ 31 - 1) = Some (1, Some (- 2 ^ 31), o, ctx').
Proof.
  intros Hh Hb H16 Hr Hi.
  destruct (EncryptUpdate_step ctx r inp Hh Hb ltac:(lia)) as (S & r' & ctx' & E & Hw & Hu & Hh' & _).
  rewrite Hi in Hu. exists (f (wk ctx) S), ctx'. rewrite Hu.
  pose proof (h_short _ _ Hh') as Hs. apply (f_equal length) in E. rewrite !length_app in E.
  destruct Hw as [k Hk]. rewrite H16 in *.
  replace (Z.of_nat (length S)) with (2 ^ 31) by lia. reflexivity.
Qed.

(** ** Encryption of a message in pieces *)

Definition piece (p : list Z) : Prop := bytes p ∧ Z.of_nat (length p) + 32 < 2 ^ 31.

Definition no_padding ctx : bool := negb (Z.land (flags ctx) EVP_CIPH_NO_PADDING =? 0).

Lemma piece_int r p S r' : Z.of_nat (length r) < b → piece p → r ++ p = S ++ r' →
  int (Z.of_nat (length S)) = Z.of_nat (length S) ∧ Z.of_nat (length S) + 16 < 2 ^ 31.
Proof.
  pose proof block_range. intros Hr [_ Hp] E. apply (f_equal length) in E. rewrite !length_app in E.
  split; [|lia]. apply to_int_u32. unfold is_int. lia.
Qed.

Lemma accept_whole w S ctx' r : holds ctx' r → ok w → bytes S → whole c S →
  int (Z.of_nat (length S)) = Z.of_nat (length S) →
  accept (Some (1, Some (int (Z.of_nat (length S))), f w S, ctx')) = Some (f w S, ctx').
Proof.
  intros ? Hw HS Hwh ->. cbn. rewrite Nat2Z.id. do 2 f_equal. apply take_ge.
  by rewrite (bc_length w S).
Qed.

Lemma pieces_bytes r S r' p : bytes r → bytes p → r ++ p = S ++ r' → bytes S.
Proof.
  intros Hr Hp E. assert (bytes (S ++ r')) as H by (rewrite <- E; by apply bytes_app). by apply Forall_app in H as [? _].
Qed.

Lemma updates_step upd fl pieces : Forall piece pieces →
  (∀ ctx r inp, holds ctx r → flags ctx = fl →
     upd ctx inp (Z.of_nat (length inp)) = EVP_EncryptUpdate ctx inp (Z.of_nat (length inp))) →
  ∀ ctx r, holds ctx r → flags ctx = fl →
  ∃ S r' ctx', r ++ concat pieces = S ++ r' ∧ bytes S ∧ whole c S ∧
    updates upd ctx pieces = Some (f (wk ctx) S, ctx') ∧
    holds ctx' r' ∧ wk ctx' = adv (wk ctx) S ∧ flags ctx' = fl.
Proof.
  intros Hp Hu. induction Hp as [|p pieces Hp _ IH]; intros ctx r Hh Hf; cbn [updates concat].
  - destruct (bc_nil (wk ctx) (h_ok _ _ Hh)) as [E1 E2]. exists [], r, ctx. rewrite E1, E2, app_nil_r.
    split_and!; try done; apply whole_nil.
  - rewrite (Hu ctx r p) by done.
    destruct (EncryptUpdate_step ctx r p Hh (proj1 Hp)) as (S & r1 & ctx1 & E & Hw & -> & Hh1 & Hk & Hs);
      [unfold piece in Hp; lia|].
    assert (bytes S) as HS by (by apply (pieces_bytes r S r1 p); [apply Hh|apply Hp|]).
    rewrite (accept_whole _ _ _ _ Hh1 (h_ok _ _ Hh) HS Hw) by (by apply (piece_int r p S r1 (h_short _ _ Hh))).
    cbn [mbind option_bind]. destruct Hs as (Hfl & _).
    destruct (IH ctx1 r1 Hh1 ltac:(congruence)) as (S2 & r2 & ctx2 & E2 & HS2 & Hw2 & -> & Hh2 & Hk2 & Hf2).
    cbn [mbind option_bind]. rewrite Hk in *.
    destruct (bc_app (wk ctx) S S2) as [A1 A2]; try done; [apply Hh|].
    exists (S ++ S2), r2, ctx2. split_and!; try done.
    + by rewrite app_assoc, E, <- !app_assoc, E2.
    + by apply bytes_app.
    + by apply whole_app.
    + by rewrite A1.
    + by rewrite A2.
Qed.

(** What the whole operation gives for the message [P]. *)
Definition encrypted (w : work D) (nopad : bool) (P : list Z) : option (list Z) :=
  if b =? 1 then Some (f w P)
  else if nopad then if Z.of_nat (length P) `mod` b =? 0 then Some (f w P) else None
  else Some (f w (P ++ padding b (length P))).

(** The rest of a whole number of blocks. *)
Lemma rest_unique S r : whole c S → Z.of_nat (length r) < b →
  Z.of_nat (length (S ++ r)) `mod` b = Z.of_nat (length r).
Proof.
  pose proof block_range. rewrite whole_mod. intros Hw Hr. rewrite length_app, Nat2Z.inj_add.
  rewrite Z.add_mod, Hw, Z.add_0_l, Zmod_mod by lia. apply Z.mod_small. lia.
Qed.

Lemma bytes_replicate_pad n k : is_byte k → bytes (replicate n k).
Proof. intros. by apply Forall_replicate. Qed.

Lemma EncryptFinal_padded ctx r : holds ctx r → b ≠ 1 → no_padding ctx = false →
  let pad := b - Z.of_nat (length r) in
  ∃ ctx', EVP_EncryptFinal_ex ctx =
    Some (1, Some b, f (wk ctx) (r ++ replicate (Z.to_nat pad) pad), ctx') ∧
  whole c (r ++ replicate (Z.to_nat pad) pad) ∧ bytes (r ++ replicate (Z.to_nat pad) pad) ∧
  holds ctx' r ∧ same_rest ctx ctx' ∧ encrypt (wk ctx') = encrypt (wk ctx).
Proof.
  intros [Hc Hm Hb Hl Hr Hs Hby Hok] Hb1 Hn pad. pose proof block_range as Hbr.
  assert (is_byte pad) as Hpb by (unfold is_byte; lia).
  assert (whole c (r ++ replicate (Z.to_nat pad) pad)) as Hw
    by (exists 1%nat; rewrite length_app, length_replicate; lia).
  assert (bytes (r ++ replicate (Z.to_nat pad) pad)) as Hrp by (apply bytes_app; [done|by apply bytes_replicate_pad]).
  unfold EVP_EncryptFinal_ex. rewrite Hc, bc_custom, (proj2 (Z.ltb_ge _ _)) by (unfold EVP_MAX_BLOCK_LENGTH; lia).
  rewrite (proj2 (Z.eqb_neq _ _)) by done. unfold no_padding in Hn. rewrite Hn, Hl. cbn [buf set_buf].
  assert (take (Z.to_nat b) (pad_buf (buf ctx) (Z.of_nat (length r)) b) = r ++ replicate (Z.to_nat pad) pad) as ->.
  { unfold pad_buf. rewrite u8_id, Nat2Z.id by done. fold pad.
    replace (Z.to_nat b) with (length r + length (replicate (Z.to_nat pad) pad))%nat by (rewrite length_replicate; lia).
    by apply take_splice_app. }
  rewrite do_cipher_spec by (try done; intros E; apply (f_equal length) in E; rewrite length_app, length_replicate in E; cbn in E; lia).
  cbn [Z.eqb wk set_buf]. eexists. split_and!; [done..| |done|apply enc_adv].
  assert (length (replicate (Z.to_nat pad) (u8 pad)) = Z.to_nat pad) as Hlp by apply length_replicate.
  split; try done; cbn [buf wk set_wk set_buf]; unfold pad_buf; rewrite ?Nat2Z.id.
  - rewrite length_splice; fold pad; lia.
  - unfold splice. rewrite Hr. apply take_app_length.
  - by apply ok_adv.
Qed.

Lemma EncryptFinal_plain ctx r : holds ctx r → b = 1 ∨ no_padding ctx = true →
  accept (EVP_EncryptFinal_ex ctx) = if Z.of_nat (length r) =? 0 then Some ([], ctx) else None.
Proof.
  intros [Hc Hm Hb Hl Hr Hs Hby Hok] Hor. pose proof block_range as Hbr.
  unfold EVP_EncryptFinal_ex. rewrite Hc, bc_custom, (proj2 (Z.ltb_ge _ _)) by (unfold EVP_MAX_BLOCK_LENGTH; lia).
  destruct (Z.eqb_spec b 1) as [E|E].
  { by rewrite (proj2 (Z.eqb_eq _ _)) by lia. }
  destruct Hor as [|Hn]; [done|]. unfold no_padding in Hn. rewrite Hn, Hl. by destruct (Z.of_nat (length r) =? 0).
Qed.

Lemma encrypt_pieces ctx pieces : holds ctx [] → Forall piece pieces →
  run EVP_EncryptUpdate EVP_EncryptFinal_ex ctx pieces = encrypted (wk ctx) (no_padding ctx) (concat pieces).
Proof.
  intros Hh Hp. pose proof block_range as Hbr.
  destruct (updates_step EVP_EncryptUpdate (flags ctx) pieces Hp ltac:(done) ctx [] Hh eq_refl)
    as (S & r & ctx' & E & HS & Hw & Hu & Hh' & Hk & Hf).
  unfold run. rewrite Hu. cbn [mbind option_bind]. cbn [app] in E. unfold encrypted.
  pose proof (rest_unique S r Hw (h_short _ _ Hh')) as Hm.
  assert (no_padding ctx' = no_padding ctx) as Hnp by (unfold no_padding; by rewrite Hf).
  rewrite E, Hm. destruct (Z.eqb_spec b 1) as [E1|E1].
  { rewrite (EncryptFinal_plain _ _ Hh') by auto. pose proof (h_short _ _ Hh').
    assert (r = []) as -> by (apply nil_length_inv; lia).
    change (Z.of_nat (length (@nil Z)) =? 0) with true. cbn [mbind option_bind]. by rewrite !app_nil_r. }
  destruct (no_padding ctx) eqn:En.
  { rewrite (EncryptFinal_plain _ _ Hh') by auto. destruct (Z.eqb_spec (Z.of_nat (length r)) 0) as [E0|E0]; [|done].
    assert (r = []) as -> by (apply nil_length_inv; lia).
    change (Z.of_nat (length (@nil Z)) =? 0) with true. cbn [mbind option_bind]. by rewrite !app_nil_r. }
  destruct (EncryptFinal_padded ctx' r Hh' E1 Hnp) as (ctx2 & -> & Hw2 & Hb2 & _).
  cbn [accept Z.eqb mbind option_bind].
  rewrite take_ge by (rewrite (bc_length (wk ctx')); [rewrite length_app, length_replicate; pose proof (h_short _ _ Hh'); lia|apply Hh'|done|done]).
  rewrite Hk in *. destruct (bc_app (wk ctx) S _ (h_ok _ _ Hh) HS Hb2 Hw Hw2) as [A _].
  unfold padding. by rewrite Hm, <- app_assoc, A.
Qed.

(** ** Decryption of a message in pieces *)

(** A decrypting context also keeps back the last block when nothing else is buffered. *)
Record keeps ctx r (kept : list Z) : Prop := {
  k_holds : holds ctx r;
  k_length : length (final ctx) = 32%nat;
  k_bytes : bytes (final ctx);
  k_used : if final_used ctx =? 0 then kept = []
           else kept = take (Z.to_nat b) (final ctx) ∧ r = [] ∧ 1 < b
}.

Lemma DecryptUpdate_plain ctx inp : cipher ctx = Some c → no_padding ctx = true →
  EVP_DecryptUpdate ctx inp (Z.of_nat (length inp)) = EVP_EncryptUpdate ctx inp (Z.of_nat (length inp)).
Proof.
  intros Hc Hn. unfold EVP_DecryptUpdate. rewrite Hc, bc_custom. unfold no_padding in Hn. rewrite Hn.
  destruct (Z.of_nat (length inp) <=? 0) eqn:E; [|done].
  unfold EVP_EncryptUpdate. by rewrite Hc, bc_custom, E.
Qed.

(** The last whole block of an output. *)
Lemma whole_last S : whole c S → S ≠ [] → (Z.to_nat b ≤ length S)%nat.
Proof.
  intros [k Hk] HS. destruct k; [|lia]. destruct S; [done|cbn in Hk; lia].
Qed.

Lemma keep_last_spec ctx r fix_len pre o : holds ctx r → length (final ctx) = 32%nat → bytes (final ctx) →
  bytes o → Z.of_nat (length o) + 16 < 2 ^ 31 → length pre = (if fix_len : bool then Z.to_nat b else 0%nat) →
  (1 < b → r = [] → (Z.to_nat b ≤ length o)%nat) →
  ∃ out kept ctx', keep_last ctx b fix_len (Z.of_nat (length o)) pre o =
      Some (1, Some (Z.of_nat (length out)), out ++ kept, ctx') ∧
    keeps ctx' r kept ∧ wk ctx' = wk ctx ∧ flags ctx' = flags ctx ∧ out ++ kept = pre ++ o ∧
    (1 < b → r = [] → kept ≠ []).
Proof.
  intros Hh Hf Hfb Ho Hlen Hpre Hbig. pose proof block_range as Hbr. unfold keep_last.
  assert (∀ n, 0 ≤ n ≤ Z.of_nat (length o) → int n = n ∧ (if fix_len then int (n + b) else n) = Z.of_nat (length pre) + n)
    as Hi.
  { intros n Hn. rewrite Hpre. assert (∀ m, 0 ≤ m < 2 ^ 31 → int m = m) as Hi
      by (intros m Hm; apply to_int_u32; unfold is_int; lia).
    split; [apply Hi; lia|]. destruct fix_len; [rewrite Hi|]; lia. }
  rewrite (h_len _ _ Hh). destruct (Z.ltb_spec 1 b) as [Hb|Hb]; [destruct (Z.eqb_spec (Z.of_nat (length r)) 0) as [Hr|Hr]|].
  - assert (r = []) as -> by (apply nil_length_inv; lia). specialize (Hbig Hb eq_refl). cbn [andb].
    destruct (Hi (Z.of_nat (length o) - b) ltac:(lia)) as [-> ->].
    destruct (split_at o (length o - Z.to_nat b) ltac:(lia)) as (o1 & o2 & -> & H1 & H2).
    rewrite length_app in *. apply Forall_app in Ho as [Ho1 Ho2].
    replace (Z.to_nat (Z.of_nat (length o1 + length o2) - b)) with (length o1) by lia.
    rewrite drop_app_length, take_ge by lia.
    exists (pre ++ o1), o2. eexists. split; [|split; [split|]].
    + rewrite <- app_assoc, length_app. repeat f_equal. lia.
    + destruct Hh; by split.
    + cbn [final set_final]. rewrite length_splice; lia.
    + cbn [final set_final]. by apply bytes_splice.
    + cbn [final_used set_final final Z.eqb]. split; [|done].
      replace (Z.to_nat b) with (length o2) by lia. by rewrite take_splice0.
    + split_and!; try done; [by rewrite app_assoc|]. intros _ _ ->. cbn in H2. lia.
  - cbn [andb]. destruct (Hi (Z.of_nat (length o)) ltac:(lia)) as [_ ->].
    exists (pre ++ o), [], (set_final ctx 0 (final ctx)). split_and!; try done.
    + rewrite app_nil_r, length_app. repeat f_equal. lia.
    + split; try done. destruct Hh; by split.
    + by rewrite app_nil_r.
    + intros _ ->. done.
  - cbn [andb]. destruct (Hi (Z.of_nat (length o)) ltac:(lia)) as [_ ->].
    exists (pre ++ o), [], (set_final ctx 0 (final ctx)). split_and!; try done; try lia.
    + rewrite app_nil_r, length_app. repeat f_equal. lia.
    + split; try done. destruct Hh; by split.
    + by rewrite app_nil_r.
Qed.

(** The call returns 1, with [out] as the first of at most [n] bytes written. *)
Definition returns (res : result) (out : list Z) (n : Z) ctx' : Prop :=
  ∃ rest, res = Some (1, Some (Z.of_nat (length out)), out ++ rest, ctx') ∧ Z.of_nat (length (out ++ rest)) ≤ n.

Lemma accept_returns res out n ctx' : returns res out n ctx' → accept res = Some (out, ctx').
Proof. intros (rest & -> & _). cbn. by rewrite Nat2Z.id, take_app_length. Qed.

Lemma DecryptUpdate_step ctx r kept inp : keeps ctx r kept → piece inp → no_padding ctx = false →
  ∃ S r' ctx' out kept', r ++ inp = S ++ r' ∧ bytes S ∧ whole c S ∧
    returns (EVP_DecryptUpdate ctx inp (Z.of_nat (length inp))) out (Z.of_nat (length inp) + b) ctx' ∧
    keeps ctx' r' kept' ∧ wk ctx' = adv (wk ctx) S ∧ flags ctx' = flags ctx ∧
    out ++ kept' = kept ++ f (wk ctx) S ∧
    (1 < b → r' = [] → kept' = [] → r = [] ∧ inp = [] ∧ kept = []).
Proof.
  intros [Hh Hfl Hfb Hu] Hp Hn. pose proof block_range as Hbr. pose proof Hh as [Hc _ _ _ _ Hs Hby Hok].
  destruct (bc_nil (wk ctx) Hok) as [E1 E2].
  unfold EVP_DecryptUpdate. rewrite Hc, bc_custom.
  destruct (Z.leb_spec (Z.of_nat (length inp)) 0) as [L|L].
  { assert (inp = []) as -> by (apply nil_length_inv; lia). exists [], r, ctx, [], kept. cbn [length Z.of_nat Z.eqb].
    rewrite E1, E2, !app_nil_r. split_and!; try done; [apply whole_nil|]. exists []. split; [done|cbn; lia]. }
  unfold no_padding in Hn. rewrite Hn, (proj2 (Z.ltb_ge _ _)) by (unfold EVP_MAX_BLOCK_LENGTH; lia).
  destruct (EncryptUpdate_step ctx r inp Hh (proj1 Hp) ltac:(unfold piece in Hp; lia))
    as (S & r' & ctx' & E & Hw & -> & Hh' & Hk & Hf1 & Hf2 & Hf3).
  destruct (piece_int r inp S r' Hs Hp E) as [Hint HS2]. rewrite Hint.
  assert (bytes S) as HS by (by apply (pieces_bytes r S r' inp); [|apply Hp|]).
  pose proof (bc_length (wk ctx) S Hok HS Hw) as HlS. pose proof (bc_bytes (wk ctx) S Hok HS Hw) as HbS.
  set (pre := if negb (final_used ctx =? 0) then take (Z.to_nat b) (final ctx) else []).
  assert (kept = pre) as -> by (unfold pre; destruct (final_used ctx =? 0); [done|apply Hu]).
  assert (length pre = if negb (final_used ctx =? 0) then Z.to_nat b else 0%nat) as Hpre
    by (unfold pre; destruct (final_used ctx =? 0); cbn [negb]; rewrite ?length_take; lia || done).
  cbn [Z.eqb]. rewrite <- HlS in *.
  destruct (keep_last_spec ctx' r' (negb (final_used ctx =? 0)) pre (f (wk ctx) S)) as (out & kept' & ctx2 & Ha & Hr2 & Hk2 & Hf & He & Hne);
    rewrite ?Hf3; try done.
  { intros Hb -> . rewrite HlS. apply whole_last; [done|]. intros ->. cbn [app] in E.
    apply app_eq_nil in E as [_ ->]. cbn in L. lia. }
  exists S, r', ctx2, out, kept'. split_and!; try done; try congruence.
  { exists kept'. split; [done|]. rewrite He, length_app, Hpre, HlS. apply (f_equal length) in E. rewrite !length_app in E.
    destruct (final_used ctx =? 0); cbn [negb]; [lia|]. destruct Hu as (_ & -> & _). cbn in E. lia. }
  intros Hb Hr0 Hk0. by destruct (Hne Hb Hr0).
Qed.

Lemma updates_decrypt pieces : Forall piece pieces → ∀ ctx r kept, keeps ctx r kept → no_padding ctx = false →
  ∃ S r' ctx' out kept', r ++ concat pieces = S ++ r' ∧ bytes S ∧ whole c S ∧
    updates EVP_DecryptUpdate ctx pieces = Some (out, ctx') ∧
    keeps ctx' r' kept' ∧ no_padding ctx' = false ∧ wk ctx' = adv (wk ctx) S ∧
    out ++ kept' = kept ++ f (wk ctx) S ∧
    (1 < b → r' = [] → kept' = [] → r = [] ∧ concat pieces = [] ∧ kept = []).
Proof.
  induction 1 as [|p pieces Hp _ IH]; intros ctx r kept Hk Hn; cbn [updates concat].
  - pose proof (h_ok _ _ (k_holds _ _ _ Hk)) as Hok. destruct (bc_nil (wk ctx) Hok) as [E1 E2].
    exists [], r, ctx, [], kept. rewrite E1, E2, !app_nil_r. split_and!; try done; apply whole_nil.
  - pose proof (h_ok _ _ (k_holds _ _ _ Hk)) as Hok.
    destruct (DecryptUpdate_step ctx r kept p Hk Hp Hn)
      as (S & r1 & ctx1 & o1 & k1 & E & HS & Hw & Hret & Hk1 & Hw1 & Hf & Ho & Hne).
    rewrite (accept_returns _ _ _ _ Hret). cbn [mbind option_bind].
    assert (no_padding ctx1 = false) as Hn1 by (unfold no_padding in *; by rewrite Hf).
    destruct (IH ctx1 r1 k1 Hk1 Hn1) as (S2 & r2 & ctx2 & o2 & k2 & E2 & HS2 & Hw2 & -> & Hk2 & Hn2 & Hww & Ho2 & Hne2).
    cbn [mbind option_bind]. rewrite Hw1 in *.
    destruct (bc_app (wk ctx) S S2) as [A1 A2]; try done.
    exists (S ++ S2), r2, ctx2, (o1 ++ o2), k2. split_and!; try done.
    + by rewrite app_assoc, E, <- !app_assoc, E2.
    + by apply bytes_app.
    + by apply whole_app.
    + by rewrite A2.
    + by rewrite A1, app_assoc, <- Ho, <- !app_assoc, Ho2.
    + intros Hb Hr0 Hk0. destruct (Hne2 Hb Hr0 Hk0) as (-> & -> & ->).
      destruct (Hne Hb eq_refl eq_refl) as (-> & -> & ->). done.
Qed.

Definition decrypted (w : work D) (nopad : bool) (C : list Z) : option (list Z) :=
  if nopad || (b =? 1) then if Z.of_nat (length C) `mod` b =? 0 then Some (f w C) else None
  else if (Z.of_nat (length C) `mod` b =? 0) && negb (Z.of_nat (length C) =? 0) then unpad b (f w C) else None.

Lemma DecryptFinal_plain ctx r : holds ctx r → b = 1 ∨ no_padding ctx = true →
  accept (EVP_DecryptFinal_ex ctx) = if Z.of_nat (length r) =? 0 then Some ([], ctx) else None.
Proof.
  intros [Hc Hm Hb Hl Hr Hs Hby Hok] Hor. pose proof block_range as Hbr.
  unfold EVP_DecryptFinal_ex. rewrite Hc, bc_custom. destruct (no_padding ctx) eqn:Hn; unfold no_padding in Hn; rewrite Hn, Hl.
  - by destruct (Z.of_nat (length r) =? 0).
  - destruct Hor as [E|]; [|done]. rewrite E. cbn [Z.ltb Z.compare]. by rewrite (proj2 (Z.eqb_eq (Z.of_nat (length r)) 0)) by lia.
Qed.

Lemma DecryptFinal_short ctx r kept : keeps ctx r kept → 1 < b → no_padding ctx = false → r ≠ [] ∨ kept = [] →
  EVP_DecryptFinal_ex ctx = Some (0, Some 0, [], ctx).
Proof.
  intros [Hh Hf Hfb Hu] Hb Hn Hor. pose proof block_range as Hbr.
  unfold EVP_DecryptFinal_ex. rewrite (h_cipher _ _ Hh), bc_custom. unfold no_padding in Hn. rewrite Hn, (h_len _ _ Hh).
  rewrite (proj2 (Z.ltb_lt _ _)) by done.
  destruct (Z.eqb_spec (Z.of_nat (length r)) 0) as [E|E]; [|done].
  destruct (Z.eqb_spec (final_used ctx) 0) as [E2|E2]; [done|]. exfalso.
  destruct Hor as [Hor| ->]; [destruct r; [done|cbn in E; lia]|].
  destruct Hu as [Hu _]. apply (f_equal length) in Hu. rewrite length_take in Hu. cbn in Hu. lia.
Qed.

(** On a kept block the result is that of the plain check. *)
Lemma DecryptFinal_block ctx kept : keeps ctx [] kept → 1 < b → no_padding ctx = false → kept ≠ [] →
  length kept = Z.to_nat b ∧ bytes kept ∧ option_map fst (accept (EVP_DecryptFinal_ex ctx)) = unpad b kept.
Proof.
  intros [Hh Hf Hfb Hu] Hb Hn Hne. pose proof block_range as Hbr.
  destruct (Z.eqb_spec (final_used ctx) 0) as [E2|E2]; [done|]. destruct Hu as [Hkept _].
  assert (length kept = Z.to_nat b) as Hl by (subst kept; rewrite length_take; lia).
  split; [done|]. split; [subst kept; by apply bytes_take|].
  unfold EVP_DecryptFinal_ex. rewrite (h_cipher _ _ Hh), bc_custom. unfold no_padding in Hn. rewrite Hn, (h_len _ _ Hh).
  rewrite (proj2 (Z.ltb_lt 1 _)), (proj2 (Z.ltb_ge EVP_MAX_BLOCK_LENGTH _)), (proj2 (Z.eqb_neq (final_used ctx) _)) by (unfold EVP_MAX_BLOCK_LENGTH; done || lia).
  change (Z.of_nat (length (@nil Z)) =? 0) with true. cbn [negb orb]. rewrite padded_mask by (done || lia).
  unfold unpad. rewrite Hl, Nat.sub_diag, drop_0, Hkept, getb_take, padded_take by lia.
  set (pad := getb (final ctx) (b - 1)). destruct (padded (final ctx) b pad) eqn:Hp; [|done].
  unfold padded in Hp. rewrite !andb_true_iff, Z.ltb_lt, Z.leb_le in Hp. destruct Hp as [[Hp1 Hp2] _].
  change (Z.land (mask8 true) 1) with 1.
  rewrite u8_id, land_mask8 by (unfold is_byte; lia). cbn [accept Z.eqb option_map fst]. f_equal.
  assert ((λ x : Z, Z.land x (mask8 true)) <$> take (Z.to_nat (b - 1)) (final ctx) = take (Z.to_nat (b - 1)) (final ctx)) as ->.
  { rewrite <- (list_fmap_id (take (Z.to_nat (b - 1)) (final ctx))) at 2. apply list_fmap_ext. intros i x Hx.
    rewrite Z.land_comm, land_mask8; [done|]. apply (Forall_lookup_1 _ _ _ _ (bytes_take _ _ Hfb) Hx). }
  rewrite !take_take. f_equal. lia.
Qed.

(** [unpad] looks at the last block only. *)
Lemma unpad_app a k : length k = Z.to_nat b → unpad b (a ++ k) = app a <$> unpad b k.
Proof.
  intros Hk. pose proof block_range. unfold unpad.
  rewrite length_app, (drop_app_exact a k) by lia. rewrite Hk, Nat.sub_diag, drop_0.
  set (pad := getb k (b - 1)). destruct (padded k b pad) eqn:Hp; [|done].
  apply padded_spec in Hp as [Hp _]; [|done|lia]. cbn. f_equal.
  rewrite take_app_ge by lia. f_equal. f_equal. lia.
Qed.

Lemma decrypt_pieces ctx pieces : holds ctx [] → final_used ctx = 0 → length (final ctx) = 32%nat →
  bytes (final ctx) → Forall piece pieces →
  run EVP_DecryptUpdate EVP_DecryptFinal_ex ctx pieces = decrypted (wk ctx) (no_padding ctx) (concat pieces).
Proof.
  intros Hh Hfu Hfl Hfb Hp. pose proof block_range as Hbr. unfold decrypted.
  destruct (no_padding ctx) eqn:Hn; cbn [orb].
  { destruct (updates_step EVP_DecryptUpdate (flags ctx) pieces Hp) with (ctx := ctx) (r := @nil Z)
      as (S & r & ctx' & E & HS & Hw & Hu & Hh' & Hk & Hf); try done.
    { intros ctx1 r1 inp H1 Hfl1. apply DecryptUpdate_plain; [apply H1|]. unfold no_padding in *. by rewrite Hfl1. }
    cbn [app] in E. unfold run. rewrite Hu, E, (rest_unique S r Hw (h_short _ _ Hh')). cbn [mbind option_bind].
    rewrite (DecryptFinal_plain _ _ Hh') by (right; unfold no_padding in *; by rewrite Hf).
    destruct (Z.eqb_spec (Z.of_nat (length r)) 0) as [E0|E0]; [|done].
    assert (r = []) as -> by (apply nil_length_inv; lia). cbn [mbind option_bind]. by rewrite !app_nil_r. }
  destruct (updates_decrypt pieces Hp ctx [] []) as (S & r & ctx' & out & kept & E & HS & Hw & Hu & Hk & Hn' & Hwk & Ho & Hne); try done.
  { split; try done. by rewrite Hfu. }
  cbn [app] in E, Ho. unfold run. rewrite Hu. cbn [mbind option_bind].
  rewrite E, (rest_unique S r Hw (h_short _ _ (k_holds _ _ _ Hk))).
  destruct (Z.eqb_spec b 1) as [E1|E1].
  { rewrite (DecryptFinal_plain _ _ (k_holds _ _ _ Hk)) by auto. pose proof (h_short _ _ (k_holds _ _ _ Hk)).
    assert (r = []) as -> by (apply nil_length_inv; lia).
    assert (kept = []) as -> by (pose proof (k_used _ _ _ Hk) as Hu'; destruct (final_used ctx' =? 0); [done|lia]).
    change (Z.of_nat (length (@nil Z)) =? 0) with true. cbn [mbind option_bind]. rewrite !app_nil_r in *. by subst. }
  assert (1 < b) as Hb by lia. pose proof (h_bytes _ _ (k_holds _ _ _ Hk)).
  destruct (decide (r ≠ [] ∨ kept = [])) as [Hor|Hor].
  { rewrite (DecryptFinal_short _ _ _ Hk Hb Hn' Hor). cbn [accept Z.eqb mbind option_bind].
    destruct (Z.eqb_spec (Z.of_nat (length r)) 0) as [E0|E0]; [|done]. cbn [andb].
    assert (r = []) as -> by (apply nil_length_inv; lia).
    destruct Hor as [|Hk0]; [done|]. destruct (Hne Hb eq_refl Hk0) as (_ & Hc & _).
    rewrite <- E, Hc. done. }
  assert (r = [] ∧ kept ≠ []) as [-> Hkept] by (split; [destruct r; [done|]|intros Hk0]; by destruct Hor; auto).
  destruct (DecryptFinal_block ctx' kept Hk Hb Hn' Hkept) as (Hl & Hbk & Hfin).
  change (Z.of_nat (length (@nil Z)) =? 0) with true. rewrite app_nil_r.
  assert (length S ≠ 0%nat) as HS0.
  { intros H0. assert (S = []) as -> by (by apply nil_length_inv). destruct (bc_nil (wk ctx) (h_ok _ _ Hh)) as [E0 _].
    rewrite E0 in Ho. by apply app_eq_nil in Ho as [_ ?]. }
  rewrite (proj2 (Z.eqb_neq (Z.of_nat (length S)) 0)) by lia. cbn [andb negb].
  rewrite <- Ho, (unpad_app out kept Hl), <- Hfin.
  by destruct (accept (EVP_DecryptFinal_ex ctx')) as [[o' ?]|].
Qed.

(** ** All contexts that a caller can reach *)

Inductive reachable (ctx0 : EVP_CIPHER_CTX D) : EVP_CIPHER_CTX D → Prop :=
| reach_start : reachable ctx0 ctx0
| reach_update ctx p ret outl o ctx' : reachable ctx0 ctx → piece p →
    EVP_CipherUpdate ctx p (Z.of_nat (length p)) = Some (ret, outl, o, ctx') → reachable ctx0 ctx'
| reach_final ctx ret outl o ctx' : reachable ctx0 ctx →
    EVP_CipherFinal_ex ctx = Some (ret, outl, o, ctx') → reachable ctx0 ctx'.

(** Between calls: the direction stays, and a block is kept back only by a decrypting context with padding. *)
Definition typed (e : bool) ctx : Prop :=
  negb (encrypt (wk ctx) =? 0) = e ∧ ∃ r kept, keeps ctx r kept ∧ (e || no_padding ctx = true → kept = []).

Lemma keeps_same ctx ctx' r r' : keeps ctx r [] → final_used ctx = 0 → holds ctx' r' → same_rest ctx ctx' → keeps ctx' r' [].
Proof. intros [_ Hl Hb _] Hu Hh (Hf & Hu' & Hfi). split; rewrite ?Hfi, ?Hu', ?Hu; done. Qed.

Lemma keeps_nil_unused ctx r : keeps ctx r [] → final_used ctx = 0.
Proof.
  intros [Hh Hl _ Hu]. destruct (Z.eqb_spec (final_used ctx) 0) as [|Hn]; [done|]. destruct Hu as (Hu & _ & Hb).
  apply (f_equal length) in Hu. rewrite length_take in Hu. cbn in Hu. lia.
Qed.

Lemma EncryptUpdate_typed ctx r p : keeps ctx r [] → piece p →
  ∃ out r' ctx', returns (EVP_EncryptUpdate ctx p (Z.of_nat (length p))) out (Z.of_nat (length p) + b) ctx' ∧
    keeps ctx' r' [] ∧ encrypt (wk ctx') = encrypt (wk ctx) ∧ flags ctx' = flags ctx.
Proof.
  intros Hk Hp. pose proof (k_holds _ _ _ Hk) as Hh. pose proof block_range.
  destruct (EncryptUpdate_step ctx r p Hh (proj1 Hp) ltac:(unfold piece in Hp; lia))
    as (S & r' & ctx' & E & Hw & Hu & Hh' & Hwk & Hs).
  destruct (piece_int r p S r' (h_short _ _ Hh) Hp E) as [Hi _].
  assert (bytes S) as HS by (by apply (pieces_bytes r S r' p); [apply Hh|apply Hp|]).
  pose proof (bc_length (wk ctx) S (h_ok _ _ Hh) HS Hw) as Hl.
  exists (f (wk ctx) S), r', ctx'. split_and!.
  - exists []. rewrite app_nil_r, Hu, Hi, Hl. split; [done|]. apply (f_equal length) in E. rewrite !length_app in E.
    pose proof (h_short _ _ Hh). lia.
  - by apply (keeps_same ctx ctx' r r'); [|apply (keeps_nil_unused ctx r)| |].
  - rewrite Hwk. apply enc_adv.
  - apply Hs.
Qed.

Lemma update_typed e ctx p : typed e ctx → piece p →
  ∃ out ctx', returns (EVP_CipherUpdate ctx p (Z.of_nat (length p))) out (Z.of_nat (length p) + b) ctx' ∧ typed e ctx'.
Proof.
  intros (He & r & kept & Hk & Hkept) Hp. unfold EVP_CipherUpdate. rewrite He.
  destruct (e || no_padding ctx) eqn:Hor.
  - rewrite (Hkept eq_refl) in Hk.
    destruct (EncryptUpdate_typed ctx r p Hk Hp) as (out & r' & ctx' & Hr & Hk' & He' & Hf').
    exists out, ctx'. split; [|split; [by rewrite He'|by exists r', []]].
    destruct e; [done|]. by rewrite (DecryptUpdate_plain ctx p (h_cipher _ _ (k_holds _ _ _ Hk)) Hor).
  - apply orb_false_iff in Hor as [-> Hn].
    destruct (DecryptUpdate_step ctx r kept p Hk Hp Hn)
      as (S & r' & ctx' & out & kept' & _ & _ & _ & Hr & Hk' & Hw & Hf & _).
    exists out, ctx'. split; [done|]. split; [by rewrite Hw, enc_adv|].
    exists r', kept'. split; [done|]. unfold no_padding in *. rewrite Hf. by rewrite Hn.
Qed.

Local Ltac unchanged := eexists _, _, _, _; split; [reflexivity|]; split; [cbn; lia|eassumption].

Lemma final_typed e ctx : typed e ctx →
  ∃ ret outl o ctx', EVP_CipherFinal_ex ctx = Some (ret, outl, o, ctx') ∧ Z.of_nat (length o) ≤ b ∧ typed e ctx'.
Proof.
  intros Ht. pose proof Ht as (He & r & kept & Hk & Hkept). pose proof (k_holds _ _ _ Hk) as Hh. pose proof block_range as Hbr.
  unfold EVP_CipherFinal_ex. rewrite He. destruct e.
  - destruct (decide (b = 1 ∨ no_padding ctx = true)) as [Hor|Hor].
    + unfold EVP_EncryptFinal_ex. rewrite (h_cipher _ _ Hh), bc_custom, (proj2 (Z.ltb_ge _ _)) by (unfold EVP_MAX_BLOCK_LENGTH; lia).
      destruct (Z.eqb_spec b 1) as [E|E]; [unchanged|]. destruct Hor as [|Hn]; [done|].
      unfold no_padding in Hn. rewrite Hn. destruct (negb (buf_len ctx =? 0)); unchanged.
    + assert (no_padding ctx = false) as Hn by (destruct (no_padding ctx); [exfalso; auto|done]).
      rewrite (Hkept eq_refl) in Hk.
      destruct (EncryptFinal_padded ctx r Hh ltac:(auto) Hn) as (ctx' & -> & Hw & Hb & Hh' & Hs & He').
      eexists _, _, _, _. split; [done|]. split.
      * rewrite (bc_length (wk ctx)) by (done || apply Hh). rewrite length_app, length_replicate.
        pose proof (h_short _ _ Hh). lia.
      * split; [by rewrite He'|]. exists r, []. split; [|done].
        by apply (keeps_same ctx ctx' r r); [|apply (keeps_nil_unused ctx r)| |].
  - unfold EVP_DecryptFinal_ex. rewrite (h_cipher _ _ Hh), bc_custom.
    destruct (negb (Z.land (flags ctx) EVP_CIPH_NO_PADDING =? 0)); [unchanged|].
    destruct (1 <? b); [|unchanged].
    destruct (negb (buf_len ctx =? 0) || (final_used ctx =? 0)); [unchanged|].
    rewrite (proj2 (Z.ltb_ge _ _)) by (unfold EVP_MAX_BLOCK_LENGTH; lia).
    eexists _, _, _, _. split; [reflexivity|]. split; [|done]. rewrite length_fmap, length_take. lia.
Qed.

Lemma reachable_typed e ctx0 ctx : typed e ctx0 → reachable ctx0 ctx → typed e ctx.
Proof.
  intros H0. induction 1 as [|ctx p ret outl o ctx' _ IH Hp E|ctx ret outl o ctx' _ IH E]; [done| |].
  - destruct (update_typed e ctx p IH Hp) as (out & ctx2 & (rest & E2 & _) & Ht). rewrite E in E2. by injection E2 as -> -> -> ->.
  - destruct (final_typed e ctx IH) as (? & ? & ? & ctx2 & E2 & _ & Ht). rewrite E in E2. by injection E2 as -> -> -> ->.
Qed.

Lemma start_typed ctx : holds ctx [] → final_used ctx = 0 → length (final ctx) = 32%nat → bytes (final ctx) →
  typed (negb (encrypt (wk ctx) =? 0)) ctx.
Proof. intros. split; [done|]. exists [], []. split; [|done]. split; try done. by rewrite (proj2 (Z.eqb_eq _ _)). Qed.
End laws.

(** ** Round trip *)

Lemma whole_padding c P : (block_size c = 8 ∨ block_size c = 16) → whole c (P ++ padding (block_size c) (length P)).
Proof.
  intros Hb. set (b := block_size c) in *. unfold whole, padding. fold b.
  rewrite length_app, length_replicate.
  pose proof (Z.mod_pos_bound (Z.of_nat (length P)) b ltac:(lia)).
  exists (Z.to_nat (Z.of_nat (length P) `div` b + 1)).
  pose proof (Z.div_mod (Z.of_nat (length P)) b ltac:(lia)).
  pose proof (Z.div_pos (Z.of_nat (length P)) b ltac:(lia) ltac:(lia)). nia.
Qed.

Lemma unpad_padding b P : b = 8 ∨ b = 16 → unpad b (P ++ padding b (length P)) = Some P.
Proof.
  intros Hb. unfold padding. pose proof (Z.mod_pos_bound (Z.of_nat (length P)) b ltac:(lia)) as Hm.
  pose proof (Z.mod_le (Z.of_nat (length P)) b ltac:(lia) ltac:(lia)) as Hle.
  set (k := b - Z.of_nat (length P) `mod` b) in *. unfold unpad. rewrite length_app, length_replicate.
  set (m := P ++ replicate (Z.to_nat k) k).
  assert (length m = (length P + Z.to_nat k)%nat) as Hl by (unfold m; rewrite length_app, length_replicate; lia).
  assert (Z.to_nat b ≤ length P + Z.to_nat k)%nat as Hge by lia.
  assert (getb (drop (length P + Z.to_nat k - Z.to_nat b) m) (b - 1) = k) as ->.
  { rewrite getb_drop by lia. unfold m. rewrite getb_app_r, getb_replicate by lia. done. }
  assert (padded (drop (length P + Z.to_nat k - Z.to_nat b) m) b k = true) as ->.
  { apply padded_spec; [rewrite length_drop; lia|lia|]. split; [lia|].
    rewrite drop_drop. unfold m. apply drop_app_exact. lia. }
  f_equal. unfold m. apply take_app_exact. lia.
Qed.

Section inverse.
Context (c d : EVP_CIPHER D) (okc okd : work D → Prop) (f g : work D → list Z → list Z) (adv adv' : work D → list Z → work D).
Context `{HC : !BlockCipher c okc f adv, HD : !BlockCipher d okd g adv'} (Hsize : block_size d = block_size c).

Lemma decrypted_encrypted w w' nopad P ct : okc w → bytes P →
  (∀ m, bytes m → whole c m → g w' (f w m) = m) →
  encrypted c f w nopad P = Some ct → decrypted d g w' nopad ct = Some P.
Proof using All.
  intros Hw HP Hinv. pose proof (block_range c okc f adv) as Hb. pose proof (whole_mod c okc f adv) as Hmod.
  unfold encrypted, decrypted. rewrite Hsize.
  assert (∀ m, bytes m → whole c m → Z.of_nat (length (f w m)) `mod` block_size c = 0) as Hlen.
  { intros m Hm Hwm. rewrite (bc_length (f := f) w m) by done. by apply Hmod. }
  destruct (Z.eqb_spec (block_size c) 1) as [E1|E1].
  { intros [= <-]. assert (whole c P) by (apply Hmod; rewrite E1; apply Z.mod_1_r).
    rewrite orb_true_r, Hlen by done. cbn [Z.eqb]. by rewrite Hinv. }
  rewrite orb_false_r. destruct nopad.
  { destruct (Z.eqb_spec (Z.of_nat (length P) `mod` block_size c) 0) as [E|E]; [|done]. intros [= <-].
    assert (whole c P) by (by apply Hmod). rewrite Hlen by done. cbn [Z.eqb]. by rewrite Hinv. }
  intros [= <-]. assert (block_size c = 8 ∨ block_size c = 16) as Hb2 by (destruct (bc_size (c := c)) as [|[|]]; auto; done).
  pose proof (whole_padding c P Hb2) as Hwp.
  assert (bytes (P ++ padding (block_size c) (length P))) as Hbp.
  { apply bytes_app; [done|]. unfold padding. apply bytes_replicate_pad.
    pose proof (Z.mod_pos_bound (Z.of_nat (length P)) (block_size c) ltac:(lia)). unfold is_byte. lia. }
  rewrite Hlen, (bc_length (f := f) w) by done. cbn [Z.eqb andb].
  rewrite (proj2 (Z.eqb_neq _ _)).
  2: { rewrite length_app. unfold padding. rewrite length_replicate.
       pose proof (Z.mod_pos_bound (Z.of_nat (length P)) (block_size c) ltac:(lia)). lia. }
  cbn [negb]. rewrite Hinv by done. by apply unpad_padding.
Qed.

Lemma roundtrip_pieces ctx ctx' ps qs ct : holds c okc ctx [] → holds d okd ctx' [] → final_used ctx' = 0 →
  length (final ctx') = 32%nat → bytes (final ctx') → no_padding ctx' = no_padding ctx →
  Forall piece ps → Forall piece qs → (∀ m, bytes m → whole c m → g (wk ctx') (f (wk ctx) m) = m) →
  run EVP_EncryptUpdate EVP_EncryptFinal_ex ctx ps = Some ct → concat qs = ct →
  run EVP_DecryptUpdate EVP_DecryptFinal_ex ctx' qs = Some (concat ps).
Proof using All.
  intros Hh Hh' Hu Hl Hfb Hn Hps Hqs Hinv He <-.
  rewrite (encrypt_pieces c okc f adv ctx ps) in He by done.
  rewrite (decrypt_pieces d okd g adv' ctx' qs) by done. rewrite Hn.
  apply (decrypted_encrypted (wk ctx) (wk ctx')); try done; [apply Hh|].
  clear -Hps. induction Hps as [|p ps [Hp _] _ IH]; cbn [concat]; [constructor|by apply bytes_app].
Qed.
End inverse.

(** ** Initialisation *)

(** A context after a successful initialisation is between two calls and holds nothing. *)
Lemma init_state_holds ctx c key v enc ctx' : cipher ctx = Some c → length (buf ctx) = 32%nat →
  init_state ctx c key v enc = Some (1, ctx') →
  cipher ctx' = Some c ∧ buf_len ctx' = 0 ∧ final_used ctx' = 0 ∧ block_mask ctx' = block_size c - 1 ∧
  (block_size c = 1 ∨ block_size c = 8 ∨ block_size c = 16) ∧ buf ctx' = buf ctx ∧ flags ctx' = flags ctx ∧
  final ctx' = final ctx.
Proof.
  intros Hc Hb. unfold init_state.
  destruct (Z.eqb_spec (block_size c) 1), (Z.eqb_spec (block_size c) 8), (Z.eqb_spec (block_size c) 16); cbn [orb negb]; try done.
  all: destruct (_ && _); [done|]; destruct (if Z.land _ _ =? 0 then _ else _) as [[w|]|]; try done.
  all: destruct (if match key with Some _ => true | None => _ end then _ else _) as [r w'];
    destruct (r =? 0); [done|]; intros [= <-]; cbn; auto 10.
Qed.
End evp.

(** ** The theorems *)

(** encryption through a cipher context.  For any cipher that works on whole blocks and any way of cutting the
    message into pieces, the calls of [EVP_EncryptUpdate] followed by [EVP_EncryptFinal_ex] together give the
    ciphertext of the whole message with its padding ([encrypted]: the padding is [n] bytes of value [n], a whole
    block after whole blocks; with padding off the call fails unless the message is whole blocks; none for a
    stream cipher). *)
Theorem EVP_encrypt_pieces {D : Type} (c : EVP_CIPHER D) ok f adv `{!BlockCipher c ok f adv} ctx pieces :
  holds c ok ctx [] → Forall piece pieces →
  run EVP_EncryptUpdate EVP_EncryptFinal_ex ctx pieces = encrypted c f (wk ctx) (no_padding ctx) (concat pieces).
Proof. exact (encrypt_pieces c ok f adv ctx pieces). Qed.

(** C32: decryption through a cipher context.  For any cutting of the ciphertext into pieces, the calls of
    [EVP_DecryptUpdate] followed by [EVP_DecryptFinal_ex] succeed exactly when the ciphertext is a positive number of
    blocks whose decryption ends in a valid padding, and then give the decryption without it ([decrypted]); the
    constant-time computation on masks decides exactly that.  With padding off, and for a stream cipher, they give
    the decryption of whole blocks. *)
Theorem EVP_decrypt_pieces {D : Type} (c : EVP_CIPHER D) ok f adv `{!BlockCipher c ok f adv} ctx pieces :
  holds c ok ctx [] → final_used ctx = 0 → length (final ctx) = 32%nat → bytes (final ctx) → Forall piece pieces →
  run EVP_DecryptUpdate EVP_DecryptFinal_ex ctx pieces = decrypted c f (wk ctx) (no_padding ctx) (concat pieces).
Proof. exact (decrypt_pieces c ok f adv ctx pieces). Qed.

(** C33: the calls on a cipher context are well typed.  From an initialised context, every context that any sequence of
    [EVP_CipherUpdate] and [EVP_CipherFinal_ex] calls can reach keeps its invariant ([typed]: the lengths and ranges of
    [buf], [buf_len], [final] and [final_used], the mask, the direction); on each of them a call never stops the
    program, [EVP_CipherUpdate] returns 1 with [*outl] in range and writes at most [inl] plus the block size bytes at
    [out], and [EVP_CipherFinal_ex] writes at most one block. *)
Theorem EVP_context_typed {D : Type} (c : EVP_CIPHER D) ok f adv `{!BlockCipher c ok f adv} ctx0 ctx :
  holds c ok ctx0 [] → final_used ctx0 = 0 → length (final ctx0) = 32%nat → bytes (final ctx0) → reachable ctx0 ctx →
  typed c ok (negb (encrypt (wk ctx0) =? 0)) ctx ∧
  (∀ p, piece p → ∃ outl o ctx', EVP_CipherUpdate ctx p (Z.of_nat (length p)) = Some (1, Some outl, o, ctx') ∧
     0 ≤ outl ≤ Z.of_nat (length o) ∧ Z.of_nat (length o) ≤ Z.of_nat (length p) + block_size c) ∧
  (∃ ret outl o ctx', EVP_CipherFinal_ex ctx = Some (ret, outl, o, ctx') ∧ Z.of_nat (length o) ≤ block_size c).
Proof.
  intros Hh Hu Hl Hb Hr. pose proof (start_typed c ok ctx0 Hh Hu Hl Hb) as H0.
  pose proof (reachable_typed c ok f adv _ ctx0 ctx H0 Hr) as Ht. split; [done|]. split.
  - intros p Hp. destruct (update_typed c ok f adv _ ctx p Ht Hp) as (out & ctx' & (rest & E & Hn) & _).
    exists (Z.of_nat (length out)), (out ++ rest), ctx'. split; [done|]. split; [rewrite length_app; lia|done].
  - destruct (final_typed c ok f adv _ ctx Ht) as (ret & outl & o & ctx' & E & Hn & _). by eauto 10.
Qed.
