(* ===== verification/AesSpec.v ===== *)
(** * The Advanced Encryption Standard

    The abstract specification of the block cipher, after FIPS 197: arithmetic in
    the field of 256 elements, the S-box as inversion followed by an affine map, the
    transformations of the state, the cipher, and the expansion of a key.  The
    inverse cipher is the equivalent one of section 5.3.5, with the order of the
    transformations of the cipher and with transformed round keys; it is shown to
    invert the cipher for any round keys.

    A word is its four bytes, the state four words, one for each column. *)

From Stdlib Require Import Btauto.
From S2P Require Import Prelude.

(** ** The field *)

Definition xtime (x : Z) : Z := Z.lxor (u8 (x ≪ 1)) (if Z.testbit x 7 then 0x1b else 0).

(** [c] times [x], by the bits of [c]. *)
Fixpoint gmul_bits (n : nat) (c x : Z) : Z :=
  match n with
  | O => 0
  | S n => Z.lxor (if Z.odd c then x else 0) (gmul_bits n (c ≫ 1) (xtime x))
  end.
Definition gmul (c x : Z) : Z := gmul_bits 8 c x.

(** The inverse is the power 254; zero stays zero. *)
Fixpoint gpow (n : nat) (x : Z) : Z := match n with O => 1 | S n => gmul x (gpow n x) end.
Definition ginv (x : Z) : Z := gpow 254 x.

Definition rotl8 (x : Z) (k : Z) : Z := u8 (Z.lor (x ≪ k) (x ≫ (8 - k))).

Definition sbox_fn (x : Z) : Z :=
  let y := ginv x in
  Z.lxor (Z.lxor (Z.lxor (Z.lxor (Z.lxor y (rotl8 y 1)) (rotl8 y 2)) (rotl8 y 3)) (rotl8 y 4)) 0x63.

(** The same as a table, and the table of the inverse. *)
Definition sbox_table : list Z := Eval vm_compute in sbox_fn <$> seqZ 0 256.
Definition sbox (x : Z) : Z := nthZ sbox_table (Z.to_nat x).
Definition inv_sbox_table : list Z :=
  Eval vm_compute in
    (λ y, match list_find (λ x, x = y) sbox_table with Some (i, _) => Z.of_nat i | None => 0 end) <$> seqZ 0 256.
Definition inv_sbox (x : Z) : Z := nthZ inv_sbox_table (Z.to_nat x).

(** ** The state *)

Inductive word := W4 (a b c d : Z).
Record state := St { col0 : word; col1 : word; col2 : word; col3 : word }.

Definition wmap (f : Z → Z) (w : word) : word := let '(W4 a b c d) := w in W4 (f a) (f b) (f c) (f d).
Definition wxor (v w : word) : word :=
  let '(W4 a b c d) := v in let '(W4 a' b' c' d') := w in
  W4 (Z.lxor a a') (Z.lxor b b') (Z.lxor c c') (Z.lxor d d').
Definition smap (f : word → word) (s : state) : state := St (f (col0 s)) (f (col1 s)) (f (col2 s)) (f (col3 s)).
Definition sxor (s k : state) : state :=
  St (wxor (col0 s) (col0 k)) (wxor (col1 s) (col1 k)) (wxor (col2 s) (col2 k)) (wxor (col3 s) (col3 k)).

Definition SubBytes : state → state := smap (wmap sbox).
Definition InvSubBytes : state → state := smap (wmap inv_sbox).

(** Row [r] is rotated by [r] places. *)
Definition ShiftRows (s : state) : state :=
  let '(St (W4 a0 a1 a2 a3) (W4 b0 b1 b2 b3) (W4 c0 c1 c2 c3) (W4 d0 d1 d2 d3)) := s in
  St (W4 a0 b1 c2 d3) (W4 b0 c1 d2 a3) (W4 c0 d1 a2 b3) (W4 d0 a1 b2 c3).
Definition InvShiftRows (s : state) : state :=
  let '(St (W4 a0 a1 a2 a3) (W4 b0 b1 b2 b3) (W4 c0 c1 c2 c3) (W4 d0 d1 d2 d3)) := s in
  St (W4 a0 d1 c2 b3) (W4 b0 a1 d2 c3) (W4 c0 b1 a2 d3) (W4 d0 c1 b2 a3).

(** The product with a circulant matrix. *)
Definition mix (m0 m1 m2 m3 : Z) (w : word) : word :=
  let '(W4 a b c d) := w in
  let row p q r s := Z.lxor (Z.lxor (Z.lxor (gmul p a) (gmul q b)) (gmul r c)) (gmul s d) in
  W4 (row m0 m1 m2 m3) (row m3 m0 m1 m2) (row m2 m3 m0 m1) (row m1 m2 m3 m0).
Definition MixColumn : word → word := mix 2 3 1 1.
Definition InvMixColumn : word → word := mix 14 11 13 9.
Definition MixColumns : state → state := smap MixColumn.
Definition InvMixColumns : state → state := smap InvMixColumn.

(** ** The cipher *)

Definition round (s k : state) : state := sxor (MixColumns (ShiftRows (SubBytes s))) k.
Definition last_round (s k : state) : state := sxor (ShiftRows (SubBytes s)) k.
Definition Cipher (k0 : state) (ks : list state) (kn : state) (s : state) : state :=
  last_round (foldl round (sxor s k0) ks) kn.

Definition inv_round (s k : state) : state := sxor (InvMixColumns (InvShiftRows (InvSubBytes s))) k.
Definition inv_last_round (s k : state) : state := sxor (InvShiftRows (InvSubBytes s)) k.

(** Takes the round keys in the order in which it uses them. *)
Definition EqInvCipher (k0 : state) (ks : list state) (kn : state) (s : state) : state :=
  inv_last_round (foldl inv_round (sxor s k0) ks) kn.

(** ** The key expansion *)

Definition SubWord : word → word := wmap sbox.
Definition RotWord (w : word) : word := let '(W4 a b c d) := w in W4 b c d a.
Definition Rcon (i : nat) : word := W4 (Nat.iter (i - 1) xtime 1) 0 0 0.

Definition nthW (l : list word) (i : nat) : word := nth i l (W4 0 0 0 0).

Definition next_word (Nk : nat) (w : list word) : word :=
  let i := length w in
  let temp := nthW w (i - 1) in
  let temp :=
    if (i mod Nk =? 0)%nat then wxor (SubWord (RotWord temp)) (Rcon (i / Nk))
    else if (6 <? Nk)%nat && (i mod Nk =? 4)%nat then SubWord temp
    else temp in
  wxor (nthW w (i - Nk)) temp.

Definition KeyExpansion (Nk n : nat) (key : list word) : list word :=
  Nat.iter n (λ w, w ++ [next_word Nk w]) key.

(** Four words for each round key. *)
Fixpoint round_keys (n : nat) (w : list word) : list state :=
  match n with
  | O => []
  | S n => St (nthW w 0) (nthW w 1) (nthW w 2) (nthW w 3) :: round_keys n (drop 4 w)
  end.

(** The cipher under a key of [Nk] words: [Nk + 6] rounds. *)
Definition expanded (Nk : nat) (key : list word) : list word := KeyExpansion Nk (4 * (Nk + 7) - Nk) key.
Definition nthS (ks : list state) (i : nat) : state := nth i ks (St (W4 0 0 0 0) (W4 0 0 0 0) (W4 0 0 0 0) (W4 0 0 0 0)).
Definition AES (Nk : nat) (key : list word) : state → state :=
  let ks := round_keys (Nk + 7) (expanded Nk key) in
  Cipher (nthS ks 0) (take (Nk + 5) (drop 1 ks)) (nthS ks (Nk + 6)).

(** ** Laws *)

Definition wbytes (w : word) : Prop := let '(W4 a b c d) := w in is_byte a ∧ is_byte b ∧ is_byte c ∧ is_byte d.
Definition sbytes (s : state) : Prop := wbytes (col0 s) ∧ wbytes (col1 s) ∧ wbytes (col2 s) ∧ wbytes (col3 s).

(** An equation on one byte, by evaluation for all of them. *)
Ltac check_byte x Hx :=
  apply Z.eqb_eq;
  match goal with
  | |- ?b = true =>
      let f := eval pattern x in b in
      match f with ?g x => apply (byte_forall g); [vm_compute; reflexivity|exact Hx] end
  end.

(** The table is that of the function. *)
Lemma sbox_spec x : is_byte x → sbox x = sbox_fn x.
Proof. intros Hx. check_byte x Hx. Qed.

Lemma inv_sbox_sbox x : is_byte x → inv_sbox (sbox x) = x.
Proof. intros Hx. check_byte x Hx. Qed.

Lemma sbox_inv_sbox x : is_byte x → sbox (inv_sbox x) = x.
Proof. intros Hx. check_byte x Hx. Qed.

Definition is_byteb (x : Z) : bool := (0 <=? x) && (x <? 256).
Lemma is_byteb_spec x : is_byteb x = true → is_byte x.
Proof. unfold is_byteb, is_byte. rewrite andb_true_iff, Z.leb_le, Z.ltb_lt. done. Qed.

Lemma sbox_byte x : is_byte x → is_byte (sbox x).
Proof. intros Hx. apply is_byteb_spec, (byte_forall (λ x, is_byteb (sbox x))); [by vm_compute|done]. Qed.

Lemma inv_sbox_byte x : is_byte x → is_byte (inv_sbox x).
Proof. intros Hx. apply is_byteb_spec, (byte_forall (λ x, is_byteb (inv_sbox x))); [by vm_compute|done]. Qed.

Lemma u8_lxor x y : u8 (Z.lxor x y) = Z.lxor (u8 x) (u8 y).
Proof.
  unfold u8. rewrite <- !Z.land_ones by lia. apply Z.bits_inj'. intros n Hn.
  rewrite !Z.land_spec, !Z.lxor_spec, !Z.land_spec. btauto.
Qed.

Lemma xtime_lxor x y : xtime (Z.lxor x y) = Z.lxor (xtime x) (xtime y).
Proof.
  unfold xtime. rewrite Z.shiftl_lxor, u8_lxor, Z.lxor_spec.
  destruct (Z.testbit x 7), (Z.testbit y 7); cbn [xorb]; rewrite ?Z.lxor_0_r; try done;
    apply Z.bits_inj'; intros n Hn; rewrite !Z.lxor_spec; btauto.
Qed.

Lemma gmul_lxor c x y : gmul c (Z.lxor x y) = Z.lxor (gmul c x) (gmul c y).
Proof.
  unfold gmul. generalize 8%nat. intros n. revert c x y. induction n as [|n IH]; intros c x y; [done|].
  cbn [gmul_bits]. rewrite xtime_lxor, IH.
  destruct (Z.odd c); apply Z.bits_inj'; intros m Hm; rewrite !Z.lxor_spec, ?Z.bits_0; btauto.
Qed.

Lemma xtime_byte x : is_byte x → is_byte (xtime x).
Proof.
  intros Hx. apply is_byte_lxor; [apply u8_byte|]. destruct (Z.testbit x 7); unfold is_byte; lia.
Qed.

Lemma gmul_byte c x : is_byte x → is_byte (gmul c x).
Proof.
  unfold gmul. generalize 8%nat. intros n. revert c x. induction n as [|n IH]; intros c x Hx; cbn [gmul_bits].
  { apply is_byte_0. }
  apply is_byte_lxor; [|by apply IH, xtime_byte]. destruct (Z.odd c); [done|apply is_byte_0].
Qed.

(** Products with constants are linear, so a product of two circulant matrices is determined by
    four functions of one byte. *)
Definition mix_coef (m0 m1 m2 m3 p q r s x : Z) : Z :=
  Z.lxor (Z.lxor (Z.lxor (gmul m0 (gmul p x)) (gmul m1 (gmul q x))) (gmul m2 (gmul r x))) (gmul m3 (gmul s x)).

Definition inverse_coefs (m0 m1 m2 m3 n0 n1 n2 n3 x : Z) : bool :=
  (mix_coef m0 m1 m2 m3 n0 n3 n2 n1 x =? x) && (mix_coef m0 m1 m2 m3 n1 n0 n3 n2 x =? 0) &&
  (mix_coef m0 m1 m2 m3 n2 n1 n0 n3 x =? 0) && (mix_coef m0 m1 m2 m3 n3 n2 n1 n0 x =? 0).

Lemma mix_inverse m0 m1 m2 m3 n0 n1 n2 n3 w :
  forallb (inverse_coefs m0 m1 m2 m3 n0 n1 n2 n3) (seqZ 0 256) = true → wbytes w →
  mix m0 m1 m2 m3 (mix n0 n1 n2 n3 w) = w.
Proof.
  intros H. destruct w as [a b c d]. intros (Ha & Hb & Hc & Hd).
  assert (∀ x y z t, is_byte x → is_byte y → is_byte z → is_byte t →
    Z.lxor (Z.lxor (Z.lxor (mix_coef m0 m1 m2 m3 n0 n3 n2 n1 x) (mix_coef m0 m1 m2 m3 n1 n0 n3 n2 y))
                   (mix_coef m0 m1 m2 m3 n2 n1 n0 n3 z)) (mix_coef m0 m1 m2 m3 n3 n2 n1 n0 t) = x) as Hrow.
  { intros x y z t Hx Hy Hz Ht.
    pose proof (byte_forall _ H x Hx) as Ex. pose proof (byte_forall _ H y Hy) as Ey.
    pose proof (byte_forall _ H z Hz) as Ez. pose proof (byte_forall _ H t Ht) as Et.
    unfold inverse_coefs in *. rewrite !andb_true_iff, !Z.eqb_eq in *.
    destruct Ex as [[[-> _] _] _], Ey as [[[_ ->] _] _], Ez as [[_ ->] _], Et as [_ ->]. by rewrite !Z.lxor_0_r. }
  unfold mix. rewrite !gmul_lxor. f_equal;
    [etrans; [|by apply (Hrow a b c d)]|etrans; [|by apply (Hrow b c d a)]
    |etrans; [|by apply (Hrow c d a b)]|etrans; [|by apply (Hrow d a b c)]];
    unfold mix_coef; apply Z.bits_inj'; intros n Hn; rewrite !Z.lxor_spec; btauto.
Qed.

Lemma InvMixColumn_MixColumn w : wbytes w → InvMixColumn (MixColumn w) = w.
Proof. apply mix_inverse. by vm_compute. Qed.

Lemma MixColumn_InvMixColumn w : wbytes w → MixColumn (InvMixColumn w) = w.
Proof. apply mix_inverse. by vm_compute. Qed.

Lemma InvMixColumn_wxor v w : InvMixColumn (wxor v w) = wxor (InvMixColumn v) (InvMixColumn w).
Proof.
  destruct v as [a b c d], w as [a' b' c' d']. unfold InvMixColumn, mix, wxor. rewrite !gmul_lxor.
  f_equal; apply Z.bits_inj'; intros n Hn; rewrite !Z.lxor_spec; btauto.
Qed.

Lemma wxor_bytes v w : wbytes v → wbytes w → wbytes (wxor v w).
Proof.
  destruct v, w. intros (?&?&?&?) (?&?&?&?). cbn. split_and!; by apply is_byte_lxor.
Qed.

Lemma wxor_cancel v w : wxor (wxor v w) w = v.
Proof. destruct v, w. cbn. by rewrite !lxor_cancel_r. Qed.

Lemma wmap_bytes f w : (∀ x, is_byte x → is_byte (f x)) → wbytes w → wbytes (wmap f w).
Proof. destruct w. intros Hf (?&?&?&?). cbn. split_and!; by apply Hf. Qed.

Lemma mix_bytes m0 m1 m2 m3 w : wbytes w → wbytes (mix m0 m1 m2 m3 w).
Proof.
  destruct w. intros (?&?&?&?). unfold mix, wbytes. split_and!;
    (do 3 (apply is_byte_lxor; [|by apply gmul_byte])); by apply gmul_byte.
Qed.

Lemma sxor_bytes s k : sbytes s → sbytes k → sbytes (sxor s k).
Proof. intros (?&?&?&?) (?&?&?&?). split_and!; by apply wxor_bytes. Qed.

Lemma sxor_cancel s k : sxor (sxor s k) k = s.
Proof. destruct s, k. unfold sxor. cbn [col0 col1 col2 col3]. by rewrite !wxor_cancel. Qed.

Lemma smap_bytes f s : (∀ w, wbytes w → wbytes (f w)) → sbytes s → sbytes (smap f s).
Proof. intros Hf (?&?&?&?). split_and!; by apply Hf. Qed.

Lemma SubBytes_bytes s : sbytes s → sbytes (SubBytes s).
Proof. apply smap_bytes. intros w. apply wmap_bytes, sbox_byte. Qed.

Lemma ShiftRows_bytes s : sbytes s → sbytes (ShiftRows s).
Proof.
  destruct s as [[] [] [] []]. intros (H1 & H2 & H3 & H4). cbn in *. unfold sbytes; cbn; tauto.
Qed.

Lemma MixColumns_bytes s : sbytes s → sbytes (MixColumns s).
Proof. apply smap_bytes. intros w. apply mix_bytes. Qed.

Lemma round_bytes s k : sbytes s → sbytes k → sbytes (round s k).
Proof. intros. apply sxor_bytes; [|done]. by apply MixColumns_bytes, ShiftRows_bytes, SubBytes_bytes. Qed.

Lemma InvSubBytes_SubBytes s : sbytes s → InvSubBytes (SubBytes s) = s.
Proof.
  destruct s as [[] [] [] []]. intros ((?&?&?&?) & (?&?&?&?) & (?&?&?&?) & (?&?&?&?)).
  unfold InvSubBytes, SubBytes, smap, wmap. cbn [col0 col1 col2 col3]. by rewrite !inv_sbox_sbox.
Qed.

Lemma InvShiftRows_ShiftRows s : InvShiftRows (ShiftRows s) = s.
Proof. by destruct s as [[] [] [] []]. Qed.

(** The substitution works on bytes and commutes with the rotation. *)
Lemma InvSubBytes_ShiftRows s : InvSubBytes (ShiftRows s) = ShiftRows (InvSubBytes s).
Proof. by destruct s as [[] [] [] []]. Qed.

Lemma InvMixColumns_MixColumns s : sbytes s → InvMixColumns (MixColumns s) = s.
Proof.
  destruct s. intros (?&?&?&?). unfold InvMixColumns, MixColumns, smap. cbn [col0 col1 col2 col3] in *.
  by rewrite !InvMixColumn_MixColumn.
Qed.

Lemma InvMixColumns_sxor s k : InvMixColumns (sxor s k) = sxor (InvMixColumns s) (InvMixColumns k).
Proof. destruct s, k. unfold InvMixColumns, sxor, smap. cbn [col0 col1 col2 col3]. by rewrite !InvMixColumn_wxor. Qed.

(** One round of the equivalent inverse cipher undoes one of the cipher. *)
Lemma inv_round_round s k : sbytes s → sbytes k →
  inv_round (ShiftRows (SubBytes (round s k))) (InvMixColumns k) = ShiftRows (SubBytes s).
Proof.
  intros Hs Hk. unfold inv_round. rewrite InvSubBytes_ShiftRows, InvShiftRows_ShiftRows.
  rewrite InvSubBytes_SubBytes by (by apply round_bytes).
  unfold round at 1. rewrite InvMixColumns_sxor, sxor_cancel.
  by apply InvMixColumns_MixColumns, ShiftRows_bytes, SubBytes_bytes.
Qed.

Lemma rounds_bytes ks : Forall sbytes ks → ∀ s, sbytes s → sbytes (foldl round s ks).
Proof. induction 1; intros s Hs; cbn [foldl]; [done|]. auto using round_bytes. Qed.

Lemma inv_rounds ks : Forall sbytes ks → ∀ s, sbytes s →
  foldl inv_round (ShiftRows (SubBytes (foldl round s ks))) (InvMixColumns <$> reverse ks) = ShiftRows (SubBytes s).
Proof.
  induction ks as [|k ks IH] using rev_ind; intros Hk s Hs; [done|].
  apply Forall_app in Hk as [Hks Hk]. apply Forall_inv in Hk.
  rewrite reverse_snoc, fmap_cons, foldl_app. cbn [foldl].
  rewrite inv_round_round; [by apply IH|by apply rounds_bytes|done].
Qed.

(** The equivalent inverse cipher, on reversed and transformed round keys, inverts the cipher. *)
Lemma EqInvCipher_Cipher k0 ks kn s : sbytes k0 → Forall sbytes ks → sbytes kn → sbytes s →
  EqInvCipher kn (InvMixColumns <$> reverse ks) k0 (Cipher k0 ks kn s) = s.
Proof.
  intros Hk0 Hks Hkn Hs. unfold EqInvCipher, Cipher. unfold last_round at 1. rewrite sxor_cancel.
  rewrite inv_rounds by (done || by apply sxor_bytes). unfold inv_last_round.
  rewrite InvSubBytes_ShiftRows, InvShiftRows_ShiftRows, InvSubBytes_SubBytes by (by apply sxor_bytes).
  apply sxor_cancel.
Qed.

(** ** The other direction *)

Lemma SubBytes_InvSubBytes s : sbytes s → SubBytes (InvSubBytes s) = s.
Proof.
  destruct s as [[] [] [] []]. intros ((?&?&?&?) & (?&?&?&?) & (?&?&?&?) & (?&?&?&?)).
  unfold InvSubBytes, SubBytes, smap, wmap. cbn [col0 col1 col2 col3]. by rewrite !sbox_inv_sbox.
Qed.

Lemma ShiftRows_InvShiftRows s : ShiftRows (InvShiftRows s) = s.
Proof. by destruct s as [[] [] [] []]. Qed.

Lemma SubBytes_InvShiftRows s : SubBytes (InvShiftRows s) = InvShiftRows (SubBytes s).
Proof. by destruct s as [[] [] [] []]. Qed.

Lemma MixColumns_InvMixColumns s : sbytes s → MixColumns (InvMixColumns s) = s.
Proof.
  destruct s. intros (?&?&?&?). unfold InvMixColumns, MixColumns, smap. cbn [col0 col1 col2 col3] in *.
  by rewrite !MixColumn_InvMixColumn.
Qed.

(** What the inverse cipher makes of a state before it adds a round key. *)
Definition unsub (s : state) : state := InvShiftRows (InvSubBytes s).

Lemma unsub_bytes s : sbytes s → sbytes (unsub s).
Proof.
  intros Hs. assert (sbytes (InvSubBytes s)) as H.
  { revert Hs. apply smap_bytes. intros w. apply wmap_bytes, inv_sbox_byte. }
  unfold unsub. destruct (InvSubBytes s) as [[] [] [] []]. destruct H as (H1 & H2 & H3 & H4). cbn in *.
  unfold sbytes; cbn; tauto.
Qed.

Lemma sub_unsub s : sbytes s → ShiftRows (SubBytes (unsub s)) = s.
Proof. intros. unfold unsub. by rewrite SubBytes_InvShiftRows, ShiftRows_InvShiftRows, SubBytes_InvSubBytes. Qed.

Lemma inv_round_bytes s k : sbytes s → sbytes k → sbytes (inv_round s (InvMixColumns k)).
Proof.
  intros. unfold inv_round. fold (unsub s). rewrite <- InvMixColumns_sxor.
  apply smap_bytes; [intros w; apply mix_bytes|]. apply sxor_bytes; [by apply unsub_bytes|done].
Qed.

Lemma round_inv_round s k : sbytes s → sbytes k → round (unsub (inv_round s (InvMixColumns k))) k = unsub s.
Proof.
  intros Hs Hk. unfold round. rewrite sub_unsub by (by apply inv_round_bytes).
  unfold inv_round. fold (unsub s). rewrite <- InvMixColumns_sxor, MixColumns_InvMixColumns.
  - apply sxor_cancel.
  - apply sxor_bytes; [by apply unsub_bytes|done].
Qed.

Lemma rounds_inv_rounds ks : Forall sbytes ks → ∀ s, sbytes s →
  sbytes (foldl inv_round s (InvMixColumns <$> reverse ks)) ∧
  foldl round (unsub (foldl inv_round s (InvMixColumns <$> reverse ks))) ks = unsub s.
Proof.
  induction 1 as [|k ks Hk _ IH]; intros s Hs; [done|].
  rewrite reverse_cons, fmap_app, foldl_app. cbn [fmap list_fmap foldl].
  destruct (IH s Hs) as [Hb E]. split; [by apply inv_round_bytes|]. by rewrite round_inv_round.
Qed.

Lemma Cipher_EqInvCipher k0 ks kn s : sbytes k0 → Forall sbytes ks → sbytes kn → sbytes s →
  Cipher k0 ks kn (EqInvCipher kn (InvMixColumns <$> reverse ks) k0 s) = s.
Proof.
  intros Hk0 Hks Hkn Hs. unfold Cipher, EqInvCipher. unfold inv_last_round. rewrite sxor_cancel.
  destruct (rounds_inv_rounds ks Hks (sxor s kn)) as [Hb E]; [by apply sxor_bytes|].
  fold (unsub (foldl inv_round (sxor s kn) (InvMixColumns <$> reverse ks))). rewrite E.
  unfold last_round. rewrite sub_unsub by (by apply sxor_bytes). apply sxor_cancel.
Qed.
