(* ===== verification/Aes.v ===== *)
(** * AES

    Models [crypto/aes/aes.c] in the build without assembler: the key schedules and
    the encryption and decryption of a block with the tables of [AesTables].

    The specification is that of [AesSpec].  The theorems: the schedule is the key
    expansion of FIPS 197; [AES_encrypt] with it is the cipher of FIPS 197; and
    [AES_decrypt] with the decryption schedule is its inverse, so that a key gives a
    [BlockPermutation], which is what the modes of operation ask of a block cipher.

    Words are 32-bit integers.  [rd_key] is an array of 60 words of which a key of
    128 or 192 bits uses a part; the pointer [rk] is the array from an offset on. *)

From S2P Require Import Prelude Block AesTables AesSpec.

Record AES_KEY := mkKEY { rd_key : list Z; rounds : Z }.

Definition GETU32 (p : list Z) (o : nat) : Z :=
  Z.lxor (Z.lxor (Z.lxor (nthZ p o ≪ 24) (nthZ p (o + 1) ≪ 16)) (nthZ p (o + 2) ≪ 8)) (nthZ p (o + 3)).
Definition PUTU32 (st : Z) : list Z := [u8 (st ≫ 24); u8 (st ≫ 16); u8 (st ≫ 8); u8 st].

(** ** The key schedules *)

(** [x ^ (Te2[(temp >> 16) & 0xff] & 0xff000000) ^ ...]: the bytes of [temp] rotated. *)
Definition rot_xor (x temp : Z) : Z :=
  Z.lxor (Z.lxor (Z.lxor (Z.lxor x
    (Z.land (getb Te2 (Z.land (temp ≫ 16) 0xff)) 0xff000000))
    (Z.land (getb Te3 (Z.land (temp ≫ 8) 0xff)) 0x00ff0000))
    (Z.land (getb Te0 (Z.land temp 0xff)) 0x0000ff00))
    (Z.land (getb Te1 (temp ≫ 24)) 0x000000ff).

(** The same without the rotation. *)
Definition sub_xor (x temp : Z) : Z :=
  Z.lxor (Z.lxor (Z.lxor (Z.lxor x
    (Z.land (getb Te2 (temp ≫ 24)) 0xff000000))
    (Z.land (getb Te3 (Z.land (temp ≫ 16) 0xff)) 0x00ff0000))
    (Z.land (getb Te0 (Z.land (temp ≫ 8) 0xff)) 0x0000ff00))
    (Z.land (getb Te1 (Z.land temp 0xff)) 0x000000ff).

(** [rk[j] = v], and [rk[j] = rk[p] ^ rk[q]], for [rk] at the offset [o]. *)
Definition store (rd : list Z) (o j : nat) (v : Z) : list Z := <[(o + j)%nat := v]> rd.
Definition rk_at (rd : list Z) (o j : nat) : Z := nthZ rd (o + j).
Definition chain (rd : list Z) (o j p q : nat) : list Z := store rd o j (Z.lxor (rk_at rd o p) (rk_at rd o q)).

Fixpoint expand128 (fuel : nat) (rd : list Z) (o i : nat) : list Z :=
  match fuel with
  | O => rd
  | S fuel =>
      let temp := rk_at rd o 3 in
      let rd := store rd o 4 (Z.lxor (rot_xor (rk_at rd o 0) temp) (nthZ rcon i)) in
      let rd := chain rd o 5 1 4 in
      let rd := chain rd o 6 2 5 in
      let rd := chain rd o 7 3 6 in
      if (i + 1 =? 10)%nat then rd else expand128 fuel rd (o + 4) (i + 1)
  end.

Fixpoint expand192 (fuel : nat) (rd : list Z) (o i : nat) : list Z :=
  match fuel with
  | O => rd
  | S fuel =>
      let temp := rk_at rd o 5 in
      let rd := store rd o 6 (Z.lxor (rot_xor (rk_at rd o 0) temp) (nthZ rcon i)) in
      let rd := chain rd o 7 1 6 in
      let rd := chain rd o 8 2 7 in
      let rd := chain rd o 9 3 8 in
      if (i + 1 =? 8)%nat then rd
      else
        let rd := chain rd o 10 4 9 in
        let rd := chain rd o 11 5 10 in
        expand192 fuel rd (o + 6) (i + 1)
  end.

Fixpoint expand256 (fuel : nat) (rd : list Z) (o i : nat) : list Z :=
  match fuel with
  | O => rd
  | S fuel =>
      let temp := rk_at rd o 7 in
      let rd := store rd o 8 (Z.lxor (rot_xor (rk_at rd o 0) temp) (nthZ rcon i)) in
      let rd := chain rd o 9 1 8 in
      let rd := chain rd o 10 2 9 in
      let rd := chain rd o 11 3 10 in
      if (i + 1 =? 7)%nat then rd
      else
        let temp := rk_at rd o 11 in
        let rd := store rd o 12 (sub_xor (rk_at rd o 4) temp) in
        let rd := chain rd o 13 5 12 in
        let rd := chain rd o 14 6 13 in
        let rd := chain rd o 15 7 14 in
        expand256 fuel rd (o + 8) (i + 1)
  end.

(** [rk[j] = GETU32(userKey + 4 * j)] for [j] from [from], [n] times. *)
Fixpoint load_key (userKey rd : list Z) (from n : nat) : list Z :=
  match n with
  | O => rd
  | S n => load_key userKey (store rd 0 from (GETU32 userKey (4 * from))) (S from) n
  end.

Definition AES_set_encrypt_key (userKey : option (list Z)) (bits : Z) (key : option AES_KEY) : Z * option AES_KEY :=
  match userKey, key with
  | Some userKey, Some key =>
      if negb (bits =? 128) && negb (bits =? 192) && negb (bits =? 256) then (-2, Some key)
      else
        let rounds := if bits =? 128 then 10 else if bits =? 192 then 12 else 14 in
        let rd := load_key userKey (rd_key key) 0 4 in
        if bits =? 128 then (0, Some (mkKEY (expand128 10 rd 0 0) rounds))
        else
          let rd := load_key userKey rd 4 2 in
          if bits =? 192 then (0, Some (mkKEY (expand192 8 rd 0 0) rounds))
          else
            let rd := load_key userKey rd 6 2 in
            (0, Some (mkKEY (expand256 7 rd 0 0) rounds))
  | _, key => (-1, key)
  end.

(** [temp = rk[i]; rk[i] = rk[j]; rk[j] = temp] *)
Definition swap_keys (rd : list Z) (i j : nat) : list Z :=
  let temp := nthZ rd i in <[j := temp]> (<[i := nthZ rd j]> rd).

(** Inverts the order of the round keys. *)
Fixpoint reverse_keys (fuel : nat) (rd : list Z) (i j : nat) : list Z :=
  match fuel with
  | O => rd
  | S fuel =>
      if (i <? j)%nat then
        let rd := swap_keys rd i j in
        let rd := swap_keys rd (i + 1) (j + 1) in
        let rd := swap_keys rd (i + 2) (j + 2) in
        let rd := swap_keys rd (i + 3) (j + 3) in
        reverse_keys fuel rd (i + 4) (j - 4)
      else rd
  end.

(** The inverse MixColumn transform of a word. *)
Definition inv_mix_word (w : Z) : Z :=
  let s x := Z.land (getb Te1 x) 0xff in
  Z.lxor (Z.lxor (Z.lxor (getb Td0 (s (w ≫ 24))) (getb Td1 (s (Z.land (w ≫ 16) 0xff))))
                 (getb Td2 (s (Z.land (w ≫ 8) 0xff)))) (getb Td3 (s (Z.land w 0xff))).

(** The loop over the inner round keys, with the transform as an argument. *)
Fixpoint transform_keys (f : Z → Z) (n : nat) (rd : list Z) (o : nat) : list Z :=
  match n with
  | O => rd
  | S n =>
      let o := (o + 4)%nat in
      let rd := store rd o 0 (f (rk_at rd o 0)) in
      let rd := store rd o 1 (f (rk_at rd o 1)) in
      let rd := store rd o 2 (f (rk_at rd o 2)) in
      let rd := store rd o 3 (f (rk_at rd o 3)) in
      transform_keys f n rd o
  end.

Definition AES_set_decrypt_key (userKey : option (list Z)) (bits : Z) (key : option AES_KEY) : Z * option AES_KEY :=
  let '(status, key) := AES_set_encrypt_key userKey bits key in
  if status <? 0 then (status, key)
  else
    match key with
    | None => (status, None)
    | Some key =>
        let n := Z.to_nat (rounds key) in
        let rd := reverse_keys n (rd_key key) 0 (4 * n) in
        let rd := transform_keys inv_mix_word (n - 1) rd 0 in
        (0, Some (mkKEY rd (rounds key)))
    end.

(** ** Encryption and decryption *)

Abbreviation quad := (Z * Z * Z * Z)%type.

Definition te (s0 s1 s2 s3 k : Z) : Z :=
  Z.lxor (Z.lxor (Z.lxor (Z.lxor
    (getb Te0 (s0 ≫ 24))
    (getb Te1 (Z.land (s1 ≫ 16) 0xff)))
    (getb Te2 (Z.land (s2 ≫ 8) 0xff)))
    (getb Te3 (Z.land s3 0xff)))
    k.

Definition enc_round (s : quad) (rk : list Z) (o : nat) : quad :=
  let '(s0, s1, s2, s3) := s in
  (te s0 s1 s2 s3 (nthZ rk o), te s1 s2 s3 s0 (nthZ rk (o + 1)),
   te s2 s3 s0 s1 (nthZ rk (o + 2)), te s3 s0 s1 s2 (nthZ rk (o + 3))).

(** The loop [for (;;)] for [r] greater than 0: [t] and [rk] after it. *)
Fixpoint aes_enc_loop (r : nat) (s : quad) (rk : list Z) : quad * list Z :=
  match r with
  | O => (s, rk)
  | S r =>
      let t := enc_round s rk 4 in
      let rk := drop 8 rk in
      if (r =? 0)%nat then (t, rk) else aes_enc_loop r (enc_round t rk 0) rk
  end.

Definition te_last (t0 t1 t2 t3 k : Z) : Z :=
  Z.lxor (Z.lxor (Z.lxor (Z.lxor
    (Z.land (getb Te2 (t0 ≫ 24)) 0xff000000)
    (Z.land (getb Te3 (Z.land (t1 ≫ 16) 0xff)) 0x00ff0000))
    (Z.land (getb Te0 (Z.land (t2 ≫ 8) 0xff)) 0x0000ff00))
    (Z.land (getb Te1 (Z.land t3 0xff)) 0x000000ff))
    k.

(** [s0 = GETU32(in) ^ rk[0]], ... *)
Definition add_first (inp rk : list Z) : quad :=
  (Z.lxor (GETU32 inp 0) (nthZ rk 0), Z.lxor (GETU32 inp 4) (nthZ rk 1),
   Z.lxor (GETU32 inp 8) (nthZ rk 2), Z.lxor (GETU32 inp 12) (nthZ rk 3)).

Definition AES_encrypt (key : AES_KEY) (inp : list Z) : list Z :=
  let rk := rd_key key in
  let '((t0, t1, t2, t3), rk) := aes_enc_loop (Z.to_nat (rounds key ≫ 1)) (add_first inp rk) rk in
  PUTU32 (te_last t0 t1 t2 t3 (nthZ rk 0)) ++ PUTU32 (te_last t1 t2 t3 t0 (nthZ rk 1)) ++
  PUTU32 (te_last t2 t3 t0 t1 (nthZ rk 2)) ++ PUTU32 (te_last t3 t0 t1 t2 (nthZ rk 3)).

Definition td (s0 s1 s2 s3 k : Z) : Z :=
  Z.lxor (Z.lxor (Z.lxor (Z.lxor
    (getb Td0 (s0 ≫ 24))
    (getb Td1 (Z.land (s1 ≫ 16) 0xff)))
    (getb Td2 (Z.land (s2 ≫ 8) 0xff)))
    (getb Td3 (Z.land s3 0xff)))
    k.

Definition dec_round (s : quad) (rk : list Z) (o : nat) : quad :=
  let '(s0, s1, s2, s3) := s in
  (td s0 s3 s2 s1 (nthZ rk o), td s1 s0 s3 s2 (nthZ rk (o + 1)),
   td s2 s1 s0 s3 (nthZ rk (o + 2)), td s3 s2 s1 s0 (nthZ rk (o + 3))).

Fixpoint aes_dec_loop (r : nat) (s : quad) (rk : list Z) : quad * list Z :=
  match r with
  | O => (s, rk)
  | S r =>
      let t := dec_round s rk 4 in
      let rk := drop 8 rk in
      if (r =? 0)%nat then (t, rk) else aes_dec_loop r (dec_round t rk 0) rk
  end.

Definition td_last (t0 t1 t2 t3 k : Z) : Z :=
  Z.lxor (Z.lxor (Z.lxor (Z.lxor
    (getb Td4 (t0 ≫ 24) ≪ 24)
    (getb Td4 (Z.land (t1 ≫ 16) 0xff) ≪ 16))
    (getb Td4 (Z.land (t2 ≫ 8) 0xff) ≪ 8))
    (getb Td4 (Z.land t3 0xff)))
    k.

Definition AES_decrypt (key : AES_KEY) (inp : list Z) : list Z :=
  let rk := rd_key key in
  let '((t0, t1, t2, t3), rk) := aes_dec_loop (Z.to_nat (rounds key ≫ 1)) (add_first inp rk) rk in
  PUTU32 (td_last t0 t3 t2 t1 (nthZ rk 0)) ++ PUTU32 (td_last t1 t0 t3 t2 (nthZ rk 1)) ++
  PUTU32 (td_last t2 t1 t0 t3 (nthZ rk 2)) ++ PUTU32 (td_last t3 t2 t1 t0 (nthZ rk 3)).

(** ** Words and their bytes *)

Definition repr (w : word) : Z := let '(W4 a b c d) := w in ((a * 256 + b) * 256 + c) * 256 + d.

Lemma repr_load a b c d : wbytes (W4 a b c d) → repr (W4 a b c d) = le_load [d; c; b; a].
Proof.
  intros (Ha & Hb & Hc & Hd). rewrite !le_load_cons, le_load_nil by done. cbn [repr]. lia.
Qed.

Lemma repr_xor v w : wbytes v → wbytes w → Z.lxor (repr v) (repr w) = repr (wxor v w).
Proof.
  destruct v as [a b c d], w as [a' b' c' d']. intros Hv Hw. pose proof (wxor_bytes _ _ Hv Hw) as Hx.
  cbn [wxor] in *. rewrite !repr_load by done. destruct Hv as (?&?&?&?), Hw as (?&?&?&?).
  rewrite <- le_load_xor; [done| | |done]; (do 4 (apply Forall_cons_2; [done|])); apply Forall_nil_2.
Qed.

Lemma repr_bytes a b c d : wbytes (W4 a b c d) →
  let z := repr (W4 a b c d) in
  z ≫ 24 = a ∧ Z.land (z ≫ 16) 0xff = b ∧ Z.land (z ≫ 8) 0xff = c ∧ Z.land z 0xff = d.
Proof.
  intros (Ha & Hb & Hc & Hd) z. unfold is_byte in *. rewrite !Z.shiftr_div_pow2 by lia.
  change 0xff with (Z.ones 8). rewrite !Z.land_ones by lia. unfold z. cbn [repr].
  split_and!.
  - symmetry. apply (Z.div_unique _ _ _ ((b * 256 + c) * 256 + d)); lia.
  - rewrite <- (Z.div_unique (((a * 256 + b) * 256 + c) * 256 + d) (2 ^ 16) (a * 256 + b) (c * 256 + d)) by lia.
    symmetry. apply (Z.mod_unique _ _ a); lia.
  - rewrite <- (Z.div_unique (((a * 256 + b) * 256 + c) * 256 + d) (2 ^ 8) ((a * 256 + b) * 256 + c) d) by lia.
    symmetry. apply (Z.mod_unique _ _ (a * 256 + b)); lia.
  - symmetry. apply (Z.mod_unique _ _ ((a * 256 + b) * 256 + c)); lia.
Qed.

Lemma PUTU32_repr a b c d : wbytes (W4 a b c d) → PUTU32 (repr (W4 a b c d)) = [a; b; c; d].
Proof.
  intros H. destruct (repr_bytes a b c d H) as (E1 & E2 & E3 & E4).
  change 0xff with (Z.ones 8) in *. rewrite Z.land_ones in * by lia. destruct H as (Ha & _).
  unfold PUTU32. rewrite E1, (u8_id a Ha). unfold u8. by rewrite E2, E3, E4.
Qed.

Definition word_of (p : list Z) (o : nat) : word := W4 (nthZ p o) (nthZ p (o + 1)) (nthZ p (o + 2)) (nthZ p (o + 3)).

Lemma word_of_bytes p o : bytes p → wbytes (word_of p o).
Proof. intros. split_and!; by apply nthZ_byte. Qed.

Lemma GETU32_word p o : bytes p → GETU32 p o = repr (word_of p o).
Proof.
  intros Hp. destruct (word_of_bytes p o Hp) as (Ha & Hb & Hc & Hd). unfold GETU32, word_of.
  revert Ha Hb Hc Hd. generalize (nthZ p o) (nthZ p (o + 1)) (nthZ p (o + 2)) (nthZ p (o + 3)).
  unfold is_byte. intros a b c d Ha Hb Hc Hd.
  replace (a ≪ 24) with (repr (W4 a 0 0 0)) by (rewrite Z.shiftl_mul_pow2 by lia; cbn [repr]; lia).
  replace (b ≪ 16) with (repr (W4 0 b 0 0)) by (rewrite Z.shiftl_mul_pow2 by lia; cbn [repr]; lia).
  replace (c ≪ 8) with (repr (W4 0 0 c 0)) by (rewrite Z.shiftl_mul_pow2 by lia; cbn [repr]; lia).
  replace d with (repr (W4 0 0 0 d)) at 1 by (cbn [repr]; lia).
  rewrite !repr_xor by (cbn [wxor wbytes]; rewrite ?Z.lxor_0_r, ?Z.lxor_0_l; unfold is_byte; lia).
  cbn [wxor]. by rewrite !Z.lxor_0_r, !Z.lxor_0_l.
Qed.

(** The tables are the columns of the matrices, for the substituted byte. *)
Lemma Te_table x : is_byte x → let s := sbox x in
  getb Te0 x = repr (W4 (gmul 2 s) (gmul 1 s) (gmul 1 s) (gmul 3 s)) ∧
  getb Te1 x = repr (W4 (gmul 3 s) (gmul 2 s) (gmul 1 s) (gmul 1 s)) ∧
  getb Te2 x = repr (W4 (gmul 1 s) (gmul 3 s) (gmul 2 s) (gmul 1 s)) ∧
  getb Te3 x = repr (W4 (gmul 1 s) (gmul 1 s) (gmul 3 s) (gmul 2 s)).
Proof.
  intros Hx s. unfold s. split_and!; check_byte x Hx.
Qed.

Lemma Td_table x : is_byte x → let s := inv_sbox x in
  getb Td0 x = repr (W4 (gmul 14 s) (gmul 9 s) (gmul 13 s) (gmul 11 s)) ∧
  getb Td1 x = repr (W4 (gmul 11 s) (gmul 14 s) (gmul 9 s) (gmul 13 s)) ∧
  getb Td2 x = repr (W4 (gmul 13 s) (gmul 11 s) (gmul 14 s) (gmul 9 s)) ∧
  getb Td3 x = repr (W4 (gmul 9 s) (gmul 13 s) (gmul 11 s) (gmul 14 s)).
Proof. intros Hx s. unfold s. split_and!; check_byte x Hx. Qed.

(** The S-box itself, at each of the four places of a word. *)
Lemma Te_mask x : is_byte x → let s := sbox x in
  Z.land (getb Te2 x) 0xff000000 = repr (W4 s 0 0 0) ∧
  Z.land (getb Te3 x) 0x00ff0000 = repr (W4 0 s 0 0) ∧
  Z.land (getb Te0 x) 0x0000ff00 = repr (W4 0 0 s 0) ∧
  Z.land (getb Te1 x) 0x000000ff = repr (W4 0 0 0 s).
Proof. intros Hx s. unfold s. split_and!; check_byte x Hx. Qed.

Lemma Td4_shift x : is_byte x → let s := inv_sbox x in
  getb Td4 x ≪ 24 = repr (W4 s 0 0 0) ∧ getb Td4 x ≪ 16 = repr (W4 0 s 0 0) ∧
  getb Td4 x ≪ 8 = repr (W4 0 0 s 0) ∧ getb Td4 x = repr (W4 0 0 0 s).
Proof. intros Hx s. unfold s. split_and!; check_byte x Hx. Qed.

(** ** One column of a round *)

Definition w0 (w : word) : Z := let '(W4 a _ _ _) := w in a.
Definition w1 (w : word) : Z := let '(W4 _ b _ _) := w in b.
Definition w2 (w : word) : Z := let '(W4 _ _ c _) := w in c.
Definition w3 (w : word) : Z := let '(W4 _ _ _ d) := w in d.

(** The bytes a column is made of, one from each word. *)
Definition diagonal (f : Z → Z) (s0 s1 s2 s3 : word) : word := W4 (f (w0 s0)) (f (w1 s1)) (f (w2 s2)) (f (w3 s3)).

Lemma parts w : wbytes w →
  (is_byte (w0 w) ∧ is_byte (w1 w) ∧ is_byte (w2 w) ∧ is_byte (w3 w)) ∧
  repr w ≫ 24 = w0 w ∧ Z.land (repr w ≫ 16) 0xff = w1 w ∧ Z.land (repr w ≫ 8) 0xff = w2 w ∧ Z.land (repr w) 0xff = w3 w.
Proof. intros H. destruct w as [a b c d]. split; [exact H|]. exact (repr_bytes a b c d H). Qed.

(** Replaces the places of four words by their bytes and the table entries by words. *)
Ltac column H0 H1 H2 H3 table :=
  destruct (parts _ H0) as [(? & _ & _ & _) (-> & _ & _ & _)], (parts _ H1) as [(_ & ? & _ & _) (_ & -> & _ & _)],
    (parts _ H2) as [(_ & _ & ? & _) (_ & _ & -> & _)], (parts _ H3) as [(_ & _ & _ & ?) (_ & _ & _ & ->)];
  match goal with
  | A : is_byte (w0 _), B : is_byte (w1 _), C : is_byte (w2 _), D : is_byte (w3 _) |- _ =>
      destruct (table _ A) as (-> & _ & _ & _), (table _ B) as (_ & -> & _ & _),
        (table _ C) as (_ & _ & -> & _), (table _ D) as (_ & _ & _ & ->)
  end.

Lemma gmul_bytes p q r s x : is_byte x → wbytes (W4 (gmul p x) (gmul q x) (gmul r x) (gmul s x)).
Proof. intros. split_and!; by apply gmul_byte. Qed.

Lemma place_bytes x : is_byte x →
  wbytes (W4 x 0 0 0) ∧ wbytes (W4 0 x 0 0) ∧ wbytes (W4 0 0 x 0) ∧ wbytes (W4 0 0 0 x).
Proof. pose proof is_byte_0. cbn. tauto. Qed.

Create HintDb aes.
#[export] Hint Resolve wxor_bytes gmul_bytes sbox_byte inv_sbox_byte : aes.
#[export] Hint Extern 1 (wbytes (W4 _ 0 0 0)) => apply place_bytes : aes.
#[export] Hint Extern 1 (wbytes (W4 0 _ 0 0)) => apply place_bytes : aes.
#[export] Hint Extern 1 (wbytes (W4 0 0 _ 0)) => apply place_bytes : aes.
#[export] Hint Extern 1 (wbytes (W4 0 0 0 _)) => apply place_bytes : aes.

Section columns.
Context (s0 s1 s2 s3 k : word).
Hypotheses (H0 : wbytes s0) (H1 : wbytes s1) (H2 : wbytes s2) (H3 : wbytes s3) (Hk : wbytes k).

Lemma te_col : te (repr s0) (repr s1) (repr s2) (repr s3) (repr k) =
  repr (wxor (MixColumn (diagonal sbox s0 s1 s2 s3)) k).
Proof. unfold te. column H0 H1 H2 H3 Te_table. rewrite !repr_xor by auto 10 with aes. done. Qed.

Lemma td_col : td (repr s0) (repr s1) (repr s2) (repr s3) (repr k) =
  repr (wxor (InvMixColumn (diagonal inv_sbox s0 s1 s2 s3)) k).
Proof. unfold td. column H0 H1 H2 H3 Td_table. rewrite !repr_xor by auto 10 with aes. done. Qed.

Lemma te_last_col : te_last (repr s0) (repr s1) (repr s2) (repr s3) (repr k) =
  repr (wxor (diagonal sbox s0 s1 s2 s3) k).
Proof.
  unfold te_last. column H0 H1 H2 H3 Te_mask. rewrite !repr_xor by auto 10 with aes.
  cbn [wxor]. by rewrite !Z.lxor_0_r, !Z.lxor_0_l.
Qed.

Lemma td_last_col : td_last (repr s0) (repr s1) (repr s2) (repr s3) (repr k) =
  repr (wxor (diagonal inv_sbox s0 s1 s2 s3) k).
Proof.
  unfold td_last. column H0 H1 H2 H3 Td4_shift. rewrite !repr_xor by auto 10 with aes.
  cbn [wxor]. by rewrite !Z.lxor_0_r, !Z.lxor_0_l.
Qed.
End columns.

(** ** The key schedule on words *)

Lemma rot_xor_word x t : wbytes x → wbytes t → rot_xor (repr x) (repr t) = repr (wxor x (SubWord (RotWord t))).
Proof.
  intros Hx Ht. unfold rot_xor. destruct (parts _ Ht) as [(A & B & C & D) (-> & -> & -> & ->)].
  destruct (Te_mask _ B) as (-> & _), (Te_mask _ C) as (_ & -> & _), (Te_mask _ D) as (_ & _ & -> & _), (Te_mask _ A) as (_ & _ & _ & ->).
  rewrite !repr_xor by auto 10 with aes. destruct x, t. cbn [wxor SubWord RotWord wmap w0 w1 w2 w3].
  by rewrite !Z.lxor_0_r.
Qed.

Lemma sub_xor_word x t : wbytes x → wbytes t → sub_xor (repr x) (repr t) = repr (wxor x (SubWord t)).
Proof.
  intros Hx Ht. unfold sub_xor. destruct (parts _ Ht) as [(A & B & C & D) (-> & -> & -> & ->)].
  destruct (Te_mask _ A) as (-> & _), (Te_mask _ B) as (_ & -> & _), (Te_mask _ C) as (_ & _ & -> & _), (Te_mask _ D) as (_ & _ & _ & ->).
  rewrite !repr_xor by auto 10 with aes. destruct x, t. cbn [wxor SubWord RotWord wmap w0 w1 w2 w3].
  by rewrite !Z.lxor_0_r.
Qed.

Lemma Te1_low x : is_byte x → Z.land (getb Te1 x) 0xff = sbox x.
Proof. intros Hx. check_byte x Hx. Qed.

Lemma inv_mix_word_spec w : wbytes w → inv_mix_word (repr w) = repr (InvMixColumn w).
Proof.
  intros Hw. unfold inv_mix_word. destruct (parts _ Hw) as [(A & B & C & D) (-> & -> & -> & ->)].
  rewrite !Te1_low by done.
  destruct (Td_table _ (sbox_byte _ A)) as (-> & _), (Td_table _ (sbox_byte _ B)) as (_ & -> & _),
    (Td_table _ (sbox_byte _ C)) as (_ & _ & -> & _), (Td_table _ (sbox_byte _ D)) as (_ & _ & _ & ->).
  rewrite !inv_sbox_sbox, !repr_xor by auto 10 with aes. by destruct w.
Qed.

(** ** Rounds *)

Definition qrepr (s : state) : quad := (repr (col0 s), repr (col1 s), repr (col2 s), repr (col3 s)).
Definition key_words (k : state) : list Z := [repr (col0 k); repr (col1 k); repr (col2 k); repr (col3 k)].
Definition schedule (ks : list state) : list Z := concat (key_words <$> ks).

Lemma nth_key rk o k i : take 4 (drop o rk) = key_words k → (i < 4)%nat → nthZ rk (o + i) = nthZ (key_words k) i.
Proof.
  intros E Hi. rewrite <- E. unfold nthZ. by rewrite !nth_lookup, lookup_take_lt, lookup_drop by done.
Qed.

Lemma nth_key4 rk o k : take 4 (drop o rk) = key_words k →
  nthZ rk o = repr (col0 k) ∧ nthZ rk (o + 1) = repr (col1 k) ∧ nthZ rk (o + 2) = repr (col2 k) ∧ nthZ rk (o + 3) = repr (col3 k).
Proof.
  intros E. rewrite <- (Nat.add_0_r o) at 1. by rewrite !(nth_key rk o k) by (done || lia).
Qed.

Lemma enc_round_spec s k rk o : sbytes s → sbytes k → take 4 (drop o rk) = key_words k →
  enc_round (qrepr s) rk o = qrepr (round s k).
Proof.
  intros (?&?&?&?) (?&?&?&?) E. destruct (nth_key4 rk o k E) as (E0 & E1 & E2 & E3).
  unfold enc_round, qrepr. rewrite E0, E1, E2, E3, !te_col by done. by destruct s as [[] [] [] []].
Qed.

Lemma dec_round_spec s k rk o : sbytes s → sbytes k → take 4 (drop o rk) = key_words k →
  dec_round (qrepr s) rk o = qrepr (inv_round s k).
Proof.
  intros (?&?&?&?) (?&?&?&?) E. destruct (nth_key4 rk o k E) as (E0 & E1 & E2 & E3).
  unfold dec_round, qrepr. rewrite E0, E1, E2, E3, !td_col by done. by destruct s as [[] [] [] []].
Qed.

Lemma inv_round_bytes' s k : sbytes s → sbytes k → sbytes (inv_round s k).
Proof.
  intros. unfold inv_round. fold (unsub s). apply sxor_bytes; [|done].
  apply smap_bytes; [intros w; apply mix_bytes|by apply unsub_bytes].
Qed.

(** [ks] has the keys of the [2 * r - 1] rounds of the loop and the last key. *)
Lemma aes_enc_loop_spec r rest kn : ∀ s ks k, sbytes s → Forall sbytes ks → length ks = (2 * r + 1)%nat →
  aes_enc_loop (S r) (qrepr s) (schedule (k :: ks ++ [kn]) ++ rest) = (qrepr (foldl round s ks), schedule [kn] ++ rest).
Proof.
  induction r as [|r IH]; intros s ks k Hs Hks Hl.
  - destruct ks as [|k1 [|]]; try done. apply Forall_inv in Hks. cbn [aes_enc_loop].
    by rewrite (enc_round_spec s k1) by done.
  - destruct ks as [|k1 [|k2 ks]]; try (cbn in Hl; lia).
    inversion_clear Hks as [|? ? Hk1 Hks']. inversion_clear Hks' as [|? ? Hk2 Hks].
    remember (S r) as r'. cbn [aes_enc_loop]. replace (r' =? 0)%nat with false by (subst; done).
    rewrite (enc_round_spec s k1) by done.
    change (drop 8 (schedule (k :: (k1 :: k2 :: ks) ++ [kn]) ++ rest)) with (schedule (k2 :: ks ++ [kn]) ++ rest).
    rewrite (enc_round_spec (round s k1) k2) by (done || by apply round_bytes).
    subst r'. rewrite IH; [done| |done|cbn in Hl; lia]. auto using round_bytes.
Qed.

Lemma aes_dec_loop_spec r rest kn : ∀ s ks k, sbytes s → Forall sbytes ks → length ks = (2 * r + 1)%nat →
  aes_dec_loop (S r) (qrepr s) (schedule (k :: ks ++ [kn]) ++ rest) = (qrepr (foldl inv_round s ks), schedule [kn] ++ rest).
Proof.
  induction r as [|r IH]; intros s ks k Hs Hks Hl.
  - destruct ks as [|k1 [|]]; try done. apply Forall_inv in Hks. cbn [aes_dec_loop].
    by rewrite (dec_round_spec s k1) by done.
  - destruct ks as [|k1 [|k2 ks]]; try (cbn in Hl; lia).
    inversion_clear Hks as [|? ? Hk1 Hks']. inversion_clear Hks' as [|? ? Hk2 Hks].
    remember (S r) as r'. cbn [aes_dec_loop]. replace (r' =? 0)%nat with false by (subst; done).
    rewrite (dec_round_spec s k1) by done.
    change (drop 8 (schedule (k :: (k1 :: k2 :: ks) ++ [kn]) ++ rest)) with (schedule (k2 :: ks ++ [kn]) ++ rest).
    rewrite (dec_round_spec (inv_round s k1) k2) by (done || by apply inv_round_bytes').
    subst r'. rewrite IH; [done| |done|cbn in Hl; lia]. auto using inv_round_bytes'.
Qed.

(** ** Blocks *)

(** The columns of a state are consecutive in a block. *)
Definition of_block (p : list Z) : state :=
  St (word_of p 0) (word_of p 4) (word_of p 8) (word_of p 12).
Definition word_bytes (w : word) : list Z := [w0 w; w1 w; w2 w; w3 w].
Definition to_block (s : state) : list Z :=
  word_bytes (col0 s) ++ word_bytes (col1 s) ++ word_bytes (col2 s) ++ word_bytes (col3 s).

Lemma block_cases p : block p → ∃ s, sbytes s ∧ p = to_block s.
Proof.
  intros [Hb Hl]. do 16 (destruct p as [|? p]; [done|]). destruct p; [|done].
  repeat (apply bytes_cons_inv in Hb as [? Hb]).
  eexists (St (W4 _ _ _ _) (W4 _ _ _ _) (W4 _ _ _ _) (W4 _ _ _ _)). split; [|reflexivity].
  unfold sbytes. cbn. tauto.
Qed.

Lemma of_to_block s : of_block (to_block s) = s.
Proof. by destruct s as [[] [] [] []]. Qed.

Lemma block_to_block s : sbytes s → block (to_block s).
Proof.
  destruct s as [[] [] [] []]. intros H. split; [|done]. unfold to_block, sbytes in *. cbn in *.
  repeat (apply Forall_cons_2; [tauto|]). apply Forall_nil_2.
Qed.

Lemma add_first_spec s k rk : sbytes s → sbytes k → take 4 rk = key_words k →
  add_first (to_block s) rk = qrepr (sxor s k).
Proof.
  intros Hs Hk E. destruct (nth_key4 rk 0 k E) as (E0 & E1 & E2 & E3). cbn [Nat.add] in *.
  pose proof (proj1 (block_to_block s Hs)) as Hb.
  pose proof Hs as (?&?&?&?). pose proof Hk as (?&?&?&?).
  destruct s as [[] [] [] []]. cbn [col0 col1 col2 col3] in *.
  unfold add_first. rewrite E0, E1, E2, E3, !GETU32_word by done. unfold qrepr, sxor. cbn [col0 col1 col2 col3].
  by rewrite <- !repr_xor by done.
Qed.

Lemma PUTU32_word w : wbytes w → PUTU32 (repr w) = word_bytes w.
Proof. destruct w. apply PUTU32_repr. Qed.

(** What a schedule with its rounds has to be for the functions below. *)
Record is_schedule (key : AES_KEY) (k0 : state) (ks : list state) (kn : state) : Prop := {
  sch_rounds : rounds key = Z.of_nat (length ks) + 1;
  sch_parity : ∃ r, length ks = (2 * r + 1)%nat;
  sch_words : ∃ rest, rd_key key = schedule (k0 :: ks ++ [kn]) ++ rest;
  sch_bytes : sbytes k0 ∧ Forall sbytes ks ∧ sbytes kn
}.

Lemma half_rounds n r : n = (2 * r + 1)%nat → Z.to_nat ((Z.of_nat n + 1) ≫ 1) = S r.
Proof.
  intros ->. rewrite Z.shiftr_div_pow2 by lia. change (2 ^ 1) with 2.
  replace (Z.of_nat (2 * r + 1) + 1) with (Z.of_nat (S r) * 2) by lia. rewrite Z.div_mul by lia. lia.
Qed.

Lemma AES_encrypt_cipher key k0 ks kn s : is_schedule key k0 ks kn → sbytes s →
  AES_encrypt key (to_block s) = to_block (Cipher k0 ks kn s).
Proof.
  intros [Hr [r Hp] [rest Hw] (Hk0 & Hks & Hkn)] Hs. unfold AES_encrypt.
  rewrite Hr, (half_rounds _ r Hp), Hw, (add_first_spec s k0) by done.
  rewrite aes_enc_loop_spec by (done || by apply sxor_bytes).
  assert (sbytes (foldl round (sxor s k0) ks)) as Hx by (apply rounds_bytes; [done|by apply sxor_bytes]).
  unfold Cipher. set (x := foldl round (sxor s k0) ks) in *. destruct Hx as (?&?&?&?), Hkn as (?&?&?&?).
  unfold qrepr. cbn [schedule key_words fmap list_fmap concat app nthZ nth].
  rewrite !te_last_col by done. rewrite !PUTU32_word.
  2-5: apply wxor_bytes; [|done]; unfold diagonal; destruct x as [[] [] [] []]; cbn in *; split_and!; apply sbox_byte; tauto.
  by destruct x as [[] [] [] []].
Qed.

Lemma AES_decrypt_cipher key k0 ks kn s : is_schedule key k0 ks kn → sbytes s →
  AES_decrypt key (to_block s) = to_block (EqInvCipher k0 ks kn s).
Proof.
  intros [Hr [r Hp] [rest Hw] (Hk0 & Hks & Hkn)] Hs. unfold AES_decrypt.
  rewrite Hr, (half_rounds _ r Hp), Hw, (add_first_spec s k0) by done.
  rewrite aes_dec_loop_spec by (done || by apply sxor_bytes).
  assert (sbytes (foldl inv_round (sxor s k0) ks)) as Hx.
  { assert (sbytes (sxor s k0)) as H by (by apply sxor_bytes). revert H. generalize (sxor s k0).
    clear -Hks. induction Hks; intros y Hy; cbn [foldl]; auto using inv_round_bytes'. }
  unfold EqInvCipher. set (x := foldl inv_round (sxor s k0) ks) in *. destruct Hx as (?&?&?&?), Hkn as (?&?&?&?).
  unfold qrepr. cbn [schedule key_words fmap list_fmap concat app nthZ nth].
  rewrite !td_last_col by done. rewrite !PUTU32_word.
  2-5: apply wxor_bytes; [|done]; unfold diagonal; destruct x as [[] [] [] []]; cbn in *; split_and!; apply inv_sbox_byte; tauto.
  by destruct x as [[] [] [] []].
Qed.

(** ** The key expansion *)

(** The first words of the array are [l]. *)
Definition prefix_words (rd : list Z) (l : list word) : Prop :=
  Forall wbytes l ∧ length rd = 60%nat ∧ ∃ rest, rd = (repr <$> l) ++ rest.

Lemma nthW_bytes l i : Forall wbytes l → wbytes (nthW l i).
Proof.
  intros H. unfold nthW. rewrite nth_lookup. destruct (l !! i) eqn:E; [by apply (Forall_lookup_1 _ _ _ _ H E)|].
  cbn. pose proof is_byte_0. tauto.
Qed.

Lemma prefix_at rd l o j : prefix_words rd l → (o + j < length l)%nat → rk_at rd o j = repr (nthW l (o + j)).
Proof.
  intros (_ & _ & rest & ->) Hj. unfold rk_at, nthZ, nthW.
  rewrite !nth_lookup, lookup_app_l, list_lookup_fmap by (by rewrite length_fmap).
  by destruct (lookup_lt_is_Some_2 l (o + j) Hj) as [w ->].
Qed.

Lemma prefix_store rd l o j w : prefix_words rd l → length l = (o + j)%nat → (o + j < 60)%nat → wbytes w →
  prefix_words (store rd o j (repr w)) (l ++ [w]).
Proof.
  intros (Hb & Hlen & rest & E) Hl Hj Hw. split_and!.
  - apply Forall_app_2; [done|]. by apply Forall_cons_2.
  - unfold store. by rewrite length_insert.
  - rewrite E in *. rewrite length_app, length_fmap in Hlen. destruct rest as [|x rest]; [cbn in Hlen; lia|].
    exists rest. unfold store. rewrite fmap_app, <- app_assoc, <- Hl.
    rewrite insert_app_r_alt, length_fmap, Nat.sub_diag by (by rewrite length_fmap). done.
Qed.

Definition extend (Nk : nat) (l : list word) : list word := l ++ [next_word Nk l].

Lemma length_extend Nk l : length (extend Nk l) = S (length l).
Proof. unfold extend. rewrite length_app. cbn. lia. Qed.

Lemma KeyExpansion_S Nk n l : KeyExpansion Nk (S n) l = KeyExpansion Nk n (extend Nk l).
Proof. unfold KeyExpansion. symmetry. apply Nat.iter_swap. Qed.

Lemma offset_mod Nk m j : (j < Nk)%nat → ((Nk * m + j) mod Nk = j)%nat ∧ ((Nk * m + j) / Nk = m)%nat.
Proof.
  intros Hj. split; symmetry; [apply (Nat.mod_unique _ _ m)|apply (Nat.div_unique _ _ _ j)]; lia.
Qed.

(** [rk[j] = rk[j - Nk] ^ rk[j - 1]] *)
Lemma chain_step Nk rd l o j m i : prefix_words rd l → length l = (Nk * m + i)%nat → (0 < i < Nk)%nat → (0 < m)%nat →
  (Nk ≤ 6 ∨ i ≠ 4)%nat → length l = (o + j)%nat → (o + j < 60)%nat → (Nk ≤ j)%nat →
  prefix_words (chain rd o j (j - Nk) (j - 1)) (extend Nk l).
Proof.
  intros Hp Hl Hi Hm Hs Ho Hj HN. pose proof Hp as (Hb & _). destruct (offset_mod Nk m i) as [Em Ed]; [lia|].
  unfold chain. rewrite !(prefix_at rd l) by (done || lia). rewrite repr_xor by (by apply nthW_bytes).
  assert (next_word Nk l = wxor (nthW l (o + (j - Nk))) (nthW l (o + (j - 1)))) as E.
  { unfold next_word. rewrite Hl, Em. rewrite (proj2 (Nat.eqb_neq i 0)) by lia.
    assert ((6 <? Nk)%nat && (i =? 4)%nat = false) as ->.
    { destruct Hs; [by rewrite (proj2 (Nat.ltb_ge 6 Nk))|]. rewrite (proj2 (Nat.eqb_neq i 4)) by lia. apply andb_false_r. }
    f_equal; f_equal; lia. }
  rewrite <- E. apply prefix_store; try done. rewrite E. auto using wxor_bytes, nthW_bytes.
Qed.

Lemma SubWord_bytes w : wbytes w → wbytes (SubWord w).
Proof. apply wmap_bytes, sbox_byte. Qed.

Lemma RotWord_bytes w : wbytes w → wbytes (RotWord w).
Proof. destruct w. cbn. tauto. Qed.

Lemma rcon_spec i : (i < 10)%nat → nthZ rcon i = repr (Rcon (i + 1)) ∧ wbytes (Rcon (i + 1)).
Proof.
  intros Hi. assert (is_byte (Nat.iter i xtime 1)) as Hb.
  { clear Hi. induction i; [unfold is_byte; cbn; lia|by apply xtime_byte]. }
  split; [|unfold Rcon; rewrite Nat.add_sub; by apply place_bytes].
  do 10 (destruct i as [|i]; [done|]). lia.
Qed.

(** The first word of a new group. *)
Lemma rot_step Nk rd l o i : prefix_words rd l → length l = (Nk * (i + 1))%nat → length l = (o + Nk)%nat →
  (o + Nk < 60)%nat → (0 < Nk)%nat → (i < 10)%nat →
  prefix_words (store rd o Nk (Z.lxor (rot_xor (rk_at rd o 0) (rk_at rd o (Nk - 1))) (nthZ rcon i))) (extend Nk l).
Proof.
  intros Hp Hl Ho Hj HN Hi. pose proof Hp as (Hb & _). destruct (rcon_spec i Hi) as [-> Hr].
  destruct (offset_mod Nk (i + 1) 0) as [Em Ed]; [lia|]. rewrite Nat.add_0_r in Em, Ed.
  rewrite !(prefix_at rd l) by (done || lia). rewrite rot_xor_word by (by apply nthW_bytes).
  rewrite repr_xor by auto using wxor_bytes, nthW_bytes, SubWord_bytes, RotWord_bytes.
  assert (next_word Nk l = wxor (wxor (nthW l (o + 0)) (SubWord (RotWord (nthW l (o + (Nk - 1)))))) (Rcon (i + 1))) as E.
  { unfold next_word. rewrite Hl, Em, Ed. cbn [Nat.eqb].
    replace (Nk * (i + 1) - Nk)%nat with (o + 0)%nat by lia. replace (Nk * (i + 1) - 1)%nat with (o + (Nk - 1))%nat by lia.
    generalize (nthW l (o + 0)) (SubWord (RotWord (nthW l (o + (Nk - 1))))) (Rcon (i + 1)). intros [] [] [].
    cbn. by rewrite !Z.lxor_assoc. }
  rewrite <- E. apply prefix_store; try done. rewrite E.
  auto 10 using wxor_bytes, nthW_bytes, SubWord_bytes, RotWord_bytes.
Qed.

(** The middle of a group of eight words. *)
Lemma sub_step rd l o i : prefix_words rd l → length l = (8 * (i + 1) + 4)%nat → length l = (o + 12)%nat →
  (o + 12 < 60)%nat →
  prefix_words (store rd o 12 (sub_xor (rk_at rd o 4) (rk_at rd o 11))) (extend 8 l).
Proof.
  intros Hp Hl Ho Hj. pose proof Hp as (Hb & _). destruct (offset_mod 8 (i + 1) 4) as [Em Ed]; [lia|].
  rewrite !(prefix_at rd l) by (done || lia). rewrite sub_xor_word by (by apply nthW_bytes).
  assert (next_word 8 l = wxor (nthW l (o + 4)) (SubWord (nthW l (o + 11)))) as E.
  { unfold next_word. rewrite Hl, Em. cbn [Nat.eqb Nat.ltb Nat.leb andb]. do 2 f_equal; [|f_equal]; lia. }
  rewrite <- E. apply prefix_store; try done. rewrite E. auto using wxor_bytes, nthW_bytes, SubWord_bytes.
Qed.

Ltac chain_next Nk j m i :=
  eapply (chain_step Nk _ _ _ j m i); [| |lia|lia|lia| | |lia]; rewrite ?length_extend; try lia.

Lemma expand128_spec n : ∀ rd l i, prefix_words rd l → (i + S n = 10)%nat → length l = (4 * (i + 1))%nat →
  prefix_words (expand128 (S n) rd (4 * i) i) (KeyExpansion 4 (4 * S n) l).
Proof.
  induction n as [|n IH]; intros rd l i Hp Hi Hl; [|remember (S n) as n'];
    cbn [expand128]; set (rd4 := store rd _ 4 _); set (rd5 := chain rd4 _ 5 _ _); set (rd6 := chain rd5 _ 6 _ _);
    set (rd7 := chain rd6 _ 7 _ _).
  all: assert (prefix_words rd7 (extend 4 (extend 4 (extend 4 (extend 4 l))))) as H7 by
    (chain_next 4%nat 7%nat (i + 1)%nat 3%nat; chain_next 4%nat 6%nat (i + 1)%nat 2%nat;
     chain_next 4%nat 5%nat (i + 1)%nat 1%nat; apply (rot_step 4); done || lia).
  - rewrite (proj2 (Nat.eqb_eq _ _)) by lia. done.
  - rewrite (proj2 (Nat.eqb_neq _ _)) by lia. replace (4 * S n')%nat with (4 + 4 * n')%nat by lia.
    replace (4 * i + 4)%nat with (4 * (i + 1))%nat by lia.
    cbn [Nat.add]. rewrite !KeyExpansion_S. subst n'. apply IH; rewrite ?length_extend; try done; lia.
Qed.

Lemma expand192_spec n : ∀ rd l i, prefix_words rd l → (i + S n = 8)%nat → length l = (6 * (i + 1))%nat →
  prefix_words (expand192 (S n) rd (6 * i) i) (KeyExpansion 6 (6 * n + 4) l).
Proof.
  induction n as [|n IH]; intros rd l i Hp Hi Hl; [|remember (S n) as n'];
    cbn [expand192]; set (rd6 := store rd _ 6 _); set (rd7 := chain rd6 _ 7 _ _); set (rd8 := chain rd7 _ 8 _ _);
    set (rd9 := chain rd8 _ 9 _ _).
  all: assert (prefix_words rd9 (extend 6 (extend 6 (extend 6 (extend 6 l))))) as H9 by
    (chain_next 6%nat 9%nat (i + 1)%nat 3%nat; chain_next 6%nat 8%nat (i + 1)%nat 2%nat;
     chain_next 6%nat 7%nat (i + 1)%nat 1%nat; apply (rot_step 6); done || lia).
  - rewrite (proj2 (Nat.eqb_eq _ _)) by lia. done.
  - rewrite (proj2 (Nat.eqb_neq _ _)) by lia. subst n'. replace (6 * S n + 4)%nat with (6 + (6 * n + 4))%nat by lia.
    replace (6 * i + 6)%nat with (6 * (i + 1))%nat at 1 by lia.
    cbn [Nat.add]. rewrite !KeyExpansion_S.
    replace (chain (chain rd9 (6 * i) 10 4 9) (6 * i) 11 5 10) with (chain (chain rd9 (6 * i) 10 (10 - 6) (10 - 1)) (6 * i) 11 (11 - 6) (11 - 1)) by done.
    apply IH; rewrite ?length_extend; try lia.
    chain_next 6%nat 11%nat (i + 1)%nat 5%nat. chain_next 6%nat 10%nat (i + 1)%nat 4%nat. done.
Qed.

Lemma expand256_spec n : ∀ rd l i, prefix_words rd l → (i + S n = 7)%nat → length l = (8 * (i + 1))%nat →
  prefix_words (expand256 (S n) rd (8 * i) i) (KeyExpansion 8 (8 * n + 4) l).
Proof.
  induction n as [|n IH]; intros rd l i Hp Hi Hl; [|remember (S n) as n'];
    cbn [expand256]; set (rd8 := store rd _ 8 _); set (rd9 := chain rd8 _ 9 _ _); set (rd10 := chain rd9 _ 10 _ _);
    set (rd11 := chain rd10 _ 11 _ _).
  all: assert (prefix_words rd11 (extend 8 (extend 8 (extend 8 (extend 8 l))))) as H11 by
    (chain_next 8%nat 11%nat (i + 1)%nat 3%nat; chain_next 8%nat 10%nat (i + 1)%nat 2%nat;
     chain_next 8%nat 9%nat (i + 1)%nat 1%nat; apply (rot_step 8); done || lia).
  - rewrite (proj2 (Nat.eqb_eq _ _)) by lia. done.
  - rewrite (proj2 (Nat.eqb_neq _ _)) by lia. subst n'. replace (8 * S n + 4)%nat with (8 + (8 * n + 4))%nat by lia.
    replace (8 * i + 8)%nat with (8 * (i + 1))%nat at 1 by lia.
    cbn [Nat.add]. rewrite !KeyExpansion_S. apply IH; rewrite ?length_extend; try lia.
    chain_next 8%nat 15%nat (i + 1)%nat 7%nat. chain_next 8%nat 14%nat (i + 1)%nat 6%nat.
    chain_next 8%nat 13%nat (i + 1)%nat 5%nat. apply (sub_step _ _ _ i); rewrite ?length_extend; done || lia.
Qed.

(** ** Schedules *)

Definition user_key (u : list Z) (Nk : nat) : list word := (λ j, word_of u (4 * j)) <$> seq 0 Nk.

Lemma load_key_spec u n : bytes u → ∀ rd from, prefix_words rd (user_key u from) → (from + n < 60)%nat →
  prefix_words (load_key u rd from n) (user_key u (from + n)).
Proof.
  intros Hu. induction n as [|n IH]; intros rd from Hp Hn; cbn [load_key]; [by rewrite Nat.add_0_r|].
  replace (from + S n)%nat with (S from + n)%nat by lia. apply IH; [|lia].
  unfold user_key. rewrite seq_S, fmap_app. rewrite GETU32_word by done.
  apply (prefix_store rd _ 0 from (word_of u (4 * from))); try done; [|lia|by apply word_of_bytes].
  unfold user_key. by rewrite length_fmap, length_seq.
Qed.

Definition key_size (bits : Z) (Nk : nat) : Prop := (bits = 128 ∧ Nk = 4%nat) ∨ (bits = 192 ∧ Nk = 6%nat) ∨ (bits = 256 ∧ Nk = 8%nat).

Lemma length_user_key u n : length (user_key u n) = n.
Proof. unfold user_key. by rewrite length_fmap, length_seq. Qed.

Lemma set_encrypt_key_words u bits Nk key : key_size bits Nk → bytes u → length (rd_key key) = 60%nat →
  ∃ rd, AES_set_encrypt_key (Some u) bits (Some key) = (0, Some (mkKEY rd (Z.of_nat Nk + 6))) ∧
    prefix_words rd (expanded Nk (user_key u Nk)).
Proof.
  intros Hk Hu Hl. assert (prefix_words (rd_key key) (user_key u 0)) as H0 by (split_and!; [apply Forall_nil_2|done|by eexists]).
  pose proof (load_key_spec u 4 Hu _ 0 H0 ltac:(lia)) as H4. cbn [Nat.add] in H4.
  unfold AES_set_encrypt_key, expanded.
  destruct Hk as [[-> ->]|[[-> ->]|[-> ->]]]; cbn [Z.eqb Pos.eqb negb andb]; (eexists; split; [reflexivity|]).
  - apply (expand128_spec 9 _ _ 0); [done|done|apply length_user_key].
  - pose proof (load_key_spec u 2 Hu _ 4 H4 ltac:(lia)) as H6.
    apply (expand192_spec 7 _ _ 0); [done|done|apply length_user_key].
  - pose proof (load_key_spec u 2 Hu _ 4 H4 ltac:(lia)) as H6. pose proof (load_key_spec u 2 Hu _ 6 H6 ltac:(lia)) as H8.
    apply (expand256_spec 6 _ _ 0); [done|done|apply length_user_key].
Qed.

Lemma round_keys_schedule n : ∀ l, length l = (4 * n)%nat → repr <$> l = schedule (round_keys n l).
Proof.
  induction n as [|n IH]; intros l Hl; [by destruct l|].
  do 4 (destruct l as [|? l]; [cbn in Hl; lia|]). cbn in Hl. specialize (IH l ltac:(lia)).
  unfold schedule. cbn [round_keys drop fmap list_fmap concat key_words nthW nth col0 col1 col2 col3 app].
  do 4 f_equal. exact IH.
Qed.

Lemma round_keys_bytes n : ∀ l, Forall wbytes l → Forall sbytes (round_keys n l).
Proof.
  induction n as [|n IH]; intros l Hl; cbn [round_keys]; [apply Forall_nil_2|]. apply Forall_cons_2.
  - split_and!; by apply nthW_bytes.
  - by apply IH, Forall_drop.
Qed.

Lemma length_round_keys n : ∀ l, length (round_keys n l) = n.
Proof. induction n as [|n IH]; intros l; cbn; by rewrite ?IH. Qed.

Lemma length_KeyExpansion Nk n l : length (KeyExpansion Nk n l) = (length l + n)%nat.
Proof.
  revert l. induction n as [|n IH]; intros l; [cbn; lia|]. rewrite KeyExpansion_S, IH, length_extend. lia.
Qed.

(** The round keys of [AES] as the first one, those in the middle and the last one. *)
Lemma split_keys (ks : list state) n : length ks = (n + 2)%nat →
  ks = nthS ks 0 :: take n (drop 1 ks) ++ [nthS ks (n + 1)].
Proof.
  intros Hl. destruct ks as [|k ks]; [cbn in Hl; lia|]. change (drop 1 (k :: ks)) with ks. f_equal. cbn in Hl.
  destruct ks as [|kn mid _] using rev_ind; [cbn in Hl; lia|]. rewrite length_app in Hl. cbn in Hl.
  rewrite take_app_exact by lia. f_equal. unfold nthS. replace (n + 1)%nat with (S (length mid)) by lia. cbn [nth].
  by rewrite nth_middle.
Qed.

Lemma encrypt_schedule u bits Nk key : key_size bits Nk → bytes u → length (rd_key key) = 60%nat →
  let ks := round_keys (Nk + 7) (expanded Nk (user_key u Nk)) in
  ∃ key', AES_set_encrypt_key (Some u) bits (Some key) = (0, Some key') ∧ length (rd_key key') = 60%nat ∧
    is_schedule key' (nthS ks 0) (take (Nk + 5) (drop 1 ks)) (nthS ks (Nk + 6)).
Proof.
  intros Hk Hu Hl ks. destruct (set_encrypt_key_words u bits Nk key Hk Hu Hl) as (rd & E & Hb & Hrd & rest & Hw).
  eexists. split; [exact E|]. split; [exact Hrd|].
  assert (length (expanded Nk (user_key u Nk)) = (4 * (Nk + 7))%nat) as Hle.
  { unfold expanded. rewrite length_KeyExpansion, length_user_key. unfold key_size in Hk. lia. }
  assert (length ks = (Nk + 5 + 2)%nat) as Hlk by (unfold ks; rewrite length_round_keys; lia).
  pose proof (split_keys ks (Nk + 5) Hlk) as Hsp. replace (Nk + 5 + 1)%nat with (Nk + 6)%nat in Hsp by lia.
  pose proof (round_keys_bytes (Nk + 7) _ Hb) as Hkb. fold ks in Hkb.
  assert (length (take (Nk + 5) (drop 1 ks)) = (Nk + 5)%nat) as Hmid by (rewrite length_take, length_drop; lia).
  split.
  - cbn [rounds]. rewrite Hmid. lia.
  - rewrite Hmid. destruct Hk as [[_ ->]|[[_ ->]|[_ ->]]]; [by exists 4%nat|by exists 5%nat|by exists 6%nat].
  - exists rest. cbn [rd_key]. rewrite <- Hsp, Hw. f_equal. by apply round_keys_schedule.
  - rewrite Hsp in Hkb. inversion_clear Hkb as [|? ? H0 Hr]. apply Forall_app in Hr as [Hm Hn].
    apply Forall_inv in Hn. done.
Qed.

(** The two loops of [AES_set_decrypt_key] on the three sizes of schedules. *)
Definition quad_words (q : quad) : list Z := let '(a, b, c, d) := q in [a; b; c; d].
Definition quad_map (f : Z → Z) (q : quad) : list Z := f <$> quad_words q.

Lemma decrypt_words f n (q0 : quad) (mid : list quad) (qn : quad) rest : (n = 9 ∨ n = 11 ∨ n = 13)%nat → length mid = n →
  transform_keys f n (reverse_keys (S n) (quad_words q0 ++ concat (quad_words <$> mid) ++ quad_words qn ++ rest) 0 (4 * S n)) 0 =
  quad_words qn ++ concat (quad_map f <$> reverse mid) ++ quad_words q0 ++ rest.
Proof.
  intros Hn Hl. destruct q0 as [[[? ?] ?] ?], qn as [[[? ?] ?] ?].
  destruct Hn as [->|[->| ->]].
  - do 9 (destruct mid as [|[[[? ?] ?] ?] mid]; [done|]). destruct mid; [|done]. vm_compute. reflexivity.
  - do 11 (destruct mid as [|[[[? ?] ?] ?] mid]; [done|]). destruct mid; [|done]. vm_compute. reflexivity.
  - do 13 (destruct mid as [|[[[? ?] ?] ?] mid]; [done|]). destruct mid; [|done]. vm_compute. reflexivity.
Qed.

Lemma schedule_quads ks : schedule ks = concat (quad_words <$> (qrepr <$> ks)).
Proof. induction ks as [|k ks IH]; [done|]. unfold schedule in *. cbn. by rewrite IH. Qed.

Lemma transform_schedule ks : Forall sbytes ks →
  concat (quad_map inv_mix_word <$> (qrepr <$> ks)) = schedule (InvMixColumns <$> ks).
Proof.
  induction 1 as [|k ks (?&?&?&?) _ IH]; [done|].
  rewrite !fmap_cons. cbn [concat]. rewrite IH. unfold schedule. rewrite fmap_cons. cbn [concat]. f_equal.
  unfold quad_map, key_words. cbn. by rewrite !inv_mix_word_spec by done.
Qed.

Lemma InvMixColumns_bytes k : sbytes k → sbytes (InvMixColumns k).
Proof. apply smap_bytes. intros w. apply mix_bytes. Qed.

Lemma decrypt_schedule u bits Nk key : key_size bits Nk → bytes u → length (rd_key key) = 60%nat →
  let ks := round_keys (Nk + 7) (expanded Nk (user_key u Nk)) in
  ∃ key', AES_set_decrypt_key (Some u) bits (Some key) = (0, Some key') ∧
    is_schedule key' (nthS ks (Nk + 6)) (InvMixColumns <$> reverse (take (Nk + 5) (drop 1 ks))) (nthS ks 0).
Proof.
  intros Hk Hu Hl ks. destruct (encrypt_schedule u bits Nk key Hk Hu Hl) as (key1 & E & _ & Hs). fold ks in Hs.
  unfold AES_set_decrypt_key. rewrite E. cbn [Z.ltb Z.compare]. eexists. split; [reflexivity|].
  destruct Hs as [Hr Hp [rest Hw] (H0 & Hm & Hn)]. set (mid := take (Nk + 5) (drop 1 ks)) in *.
  assert (length mid = (Nk + 5)%nat) as Hmid.
  { unfold mid. rewrite length_take, length_drop. unfold ks. rewrite length_round_keys. lia. }
  replace (Z.to_nat (rounds key1)) with (S (length mid)) by lia. rewrite Nat.sub_succ, Nat.sub_0_r.
  split.
  - cbn [rounds]. by rewrite Hr, length_fmap, length_reverse.
  - by rewrite length_fmap, length_reverse.
  - exists rest. cbn [rd_key]. rewrite Hw.
    change (nthS ks 0 :: mid ++ [nthS ks (Nk + 6)]) with ([nthS ks 0] ++ mid ++ [nthS ks (Nk + 6)]).
    rewrite schedule_quads, !fmap_app, !concat_app. cbn [fmap list_fmap concat]. rewrite !app_nil_r, <- !app_assoc.
    rewrite decrypt_words; [|rewrite Hmid; unfold key_size in Hk; lia|by rewrite length_fmap].
    rewrite <- fmap_reverse, transform_schedule by (by apply Forall_reverse).
    unfold schedule. rewrite fmap_cons, fmap_app. cbn [concat]. rewrite concat_app. cbn [fmap list_fmap concat].
    by rewrite app_nil_r, <- !app_assoc.
  - split_and!; [done| |done]. apply Forall_fmap. apply Forall_reverse. eapply Forall_impl; [|exact Hm]. apply InvMixColumns_bytes.
Qed.

(** ** The theorems *)

(** What a caller with zeroed memory has after the key setup. *)
Definition key0 : AES_KEY := mkKEY (replicate 60 0) 0.
Definition set_key (setup : option (list Z) → Z → option AES_KEY → Z * option AES_KEY) (u : list Z) (bits : Z) : AES_KEY :=
  default key0 (setup (Some u) bits (Some key0)).2.

Lemma encrypt_block u bits Nk p : key_size bits Nk → bytes u → block p →
  AES_encrypt (set_key AES_set_encrypt_key u bits) p = to_block (AES Nk (user_key u Nk) (of_block p)).
Proof.
  intros Hk Hu Hp. destruct (block_cases p Hp) as (s & Hs & ->). rewrite of_to_block.
  destruct (encrypt_schedule u bits Nk key0 Hk Hu eq_refl) as (key & E & _ & Hsch). unfold set_key. rewrite E.
  by apply AES_encrypt_cipher.
Qed.

(** Inverse functions on states give inverse functions on blocks. *)
Lemma state_permutation (E D : state → state) enc dec :
  (∀ s, sbytes s → enc (to_block s) = to_block (E s) ∧ sbytes (E s) ∧ D (E s) = s) →
  (∀ s, sbytes s → dec (to_block s) = to_block (D s) ∧ sbytes (D s) ∧ E (D s) = s) →
  BlockPermutation enc dec.
Proof.
  intros HE HD. split; [split|].
  - intros p Hp. destruct (block_cases p Hp) as (s & Hs & ->). destruct (HE s Hs) as (-> & H & _). by apply block_to_block.
  - intros p Hp. destruct (block_cases p Hp) as (s & Hs & ->). destruct (HD s Hs) as (-> & H & _). by apply block_to_block.
  - intros p Hp. destruct (block_cases p Hp) as (s & Hs & ->). destruct (HE s Hs) as (-> & H & Hi).
    destruct (HD _ H) as (-> & _ & _). by rewrite Hi.
  - intros p Hp. destruct (block_cases p Hp) as (s & Hs & ->). destruct (HD s Hs) as (-> & H & Hi).
    destruct (HE _ H) as (-> & _ & _). by rewrite Hi.
Qed.

Lemma Cipher_bytes k0 ks kn s : sbytes k0 → Forall sbytes ks → sbytes kn → sbytes s → sbytes (Cipher k0 ks kn s).
Proof.
  intros. apply sxor_bytes; [|done]. apply ShiftRows_bytes, SubBytes_bytes, rounds_bytes; [done|by apply sxor_bytes].
Qed.

Lemma EqInvCipher_bytes k0 ks kn s : sbytes k0 → Forall sbytes ks → sbytes kn → sbytes s →
  sbytes (EqInvCipher kn (InvMixColumns <$> reverse ks) k0 s).
Proof.
  intros. apply sxor_bytes; [|done]. apply unsub_bytes, rounds_inv_rounds; [done|by apply sxor_bytes].
Qed.

Lemma AES_permutation u bits Nk : key_size bits Nk → bytes u →
  BlockPermutation (AES_encrypt (set_key AES_set_encrypt_key u bits)) (AES_decrypt (set_key AES_set_decrypt_key u bits)).
Proof.
  intros Hk Hu.
  destruct (encrypt_schedule u bits Nk key0 Hk Hu eq_refl) as (ke & Ee & _ & He).
  destruct (decrypt_schedule u bits Nk key0 Hk Hu eq_refl) as (kd & Ed & Hd).
  pose proof He as [_ _ _ (H0 & Hm & Hn)]. unfold set_key. rewrite Ee, Ed. cbn [snd default].
  eapply state_permutation; intros s Hs; split_and!.
  - by apply (AES_encrypt_cipher ke _ _ _ s He).
  - by apply Cipher_bytes.
  - by apply EqInvCipher_Cipher.
  - by apply (AES_decrypt_cipher kd _ _ _ s Hd).
  - by apply EqInvCipher_bytes.
  - by apply Cipher_EqInvCipher.
Qed.

(** C30: for a key of 128, 192 or 256 bits, [AES_encrypt] with the schedule that [AES_set_encrypt_key] computes,
    on tables and 32-bit words, is the cipher of FIPS 197 under the expansion of that key: the S-box is inversion
    in the field followed by the affine map, the rounds are [SubBytes], [ShiftRows], [MixColumns] and
    [AddRoundKey]. *)
Theorem AES_encrypt_fips u bits Nk p : key_size bits Nk → bytes u → block p →
  AES_encrypt (set_key AES_set_encrypt_key u bits) p = to_block (AES Nk (user_key u Nk) (of_block p)).
Proof. apply encrypt_block. Qed.

Lemma AES_encrypt_fips_witness :
  AES_encrypt (set_key AES_set_encrypt_key (seqZ 0 16) 128) ((λ x, 17 * x) <$> seqZ 0 16) =
    to_block (AES 4 (user_key (seqZ 0 16) 4) (of_block ((λ x, 17 * x) <$> seqZ 0 16))) ∧
  be_load (AES_encrypt (set_key AES_set_encrypt_key (seqZ 0 16) 128) ((λ x, 17 * x) <$> seqZ 0 16)) =
    0x69c4e0d86a7b0430d8cdb78070b4c55a.
Proof.
  split; [|vm_compute; reflexivity].
  apply AES_encrypt_fips; [left; done| |]; apply (bool_decide_eq_true_1 _); vm_compute; reflexivity.
Defined.

(** C31: for every key of 128, 192 or 256 bits, the key setups and the two block functions of AES give a
    permutation of the blocks and its inverse: [AES_decrypt], with the reversed schedule through the inverse
    MixColumn transform, undoes [AES_encrypt], and the other way round.  This is the interface that the modes of
    operation are verified against. *)
Theorem AES_decrypt_inverse u bits Nk : key_size bits Nk → bytes u →
  BlockPermutation (AES_encrypt (set_key AES_set_encrypt_key u bits)) (AES_decrypt (set_key AES_set_decrypt_key u bits)).
Proof. apply AES_permutation. Qed.

Lemma AES_decrypt_inverse_witness :
  AES_decrypt (set_key AES_set_decrypt_key (seqZ 7 32) 256) (AES_encrypt (set_key AES_set_encrypt_key (seqZ 7 32) 256) (seqZ 3 16)) =
  seqZ 3 16.
Proof.
  assert (bytes (seqZ 7 32)) as Hu by (apply (bool_decide_eq_true_1 _); vm_compute; reflexivity).
  assert (block (seqZ 3 16)) as Hb by (apply (bool_decide_eq_true_1 _); vm_compute; reflexivity).
  exact (dec_enc (BlockInverse := block_perm_inverse (BlockPermutation := AES_decrypt_inverse (seqZ 7 32) 256 8 (or_intror (or_intror (conj eq_refl eq_refl))) Hu)) _ Hb).
Defined.

(** Keys of other sizes and missing arguments are refused and leave the key alone. *)
Lemma AES_set_encrypt_key_refuses u bits key : bits ≠ 128 → bits ≠ 192 → bits ≠ 256 →
  AES_set_encrypt_key u bits key = (match u, key with Some _, Some _ => -2 | _, _ => -1 end, key).
Proof.
  intros. unfold AES_set_encrypt_key. destruct u, key; try done. by rewrite !(proj2 (Z.eqb_neq _ _)).
Qed.
