(* ===== verification/AesModes.v ===== *)
(** * AES in the modes of operation

    Models [crypto/aes/aes_modes.c], which applies the functions of [crypto/modes] to
    the block functions of AES, and [crypto/aes/aes_ige.c], infinite garble extension,
    with its path for distinct aligned buffers and its path over copies of the blocks.

    The mode is specified by its two chaining equations; the theorem is the round trip
    through the code of both directions, with real AES schedules. *)

From S2P Require Import Prelude Block Cbc Stream Ctr Cfb Wrap AesSpec Aes.

Definition AES_DECRYPT : Z := 0.
Definition AES_ENCRYPT : Z := 1.

Definition AES_cbc_encrypt (p : path) (in_place : bool) (inp : list Z) (len : nat) (key : AES_KEY) (ivec : list Z) (enc : Z)
    : list Z * list Z :=
  if enc =? AES_ENCRYPT then CRYPTO_cbc128_encrypt (AES_encrypt key) p inp len ivec
  else CRYPTO_cbc128_decrypt (AES_decrypt key) p in_place inp len ivec.

Definition AES_cfb128_encrypt (p : path) (inp : list Z) (key : AES_KEY) (ivec : list Z) (num : nat) (enc : bool) :=
  CRYPTO_cfb128_encrypt (AES_encrypt key) p inp ivec num enc.

Definition AES_cfb1_encrypt (uninit inp out : list Z) (bits : nat) (key : AES_KEY) (ivec : list Z) (enc : bool) :=
  CRYPTO_cfb128_1_encrypt (AES_encrypt key) uninit inp out bits ivec enc.

Definition AES_cfb8_encrypt (uninit inp : list Z) (key : AES_KEY) (ivec : list Z) (enc : bool) :=
  CRYPTO_cfb128_8_encrypt (AES_encrypt key) uninit inp ivec enc.

Definition AES_ctr128_encrypt (little_endian aligned : bool) (p : path) (inp : list Z) (key : AES_KEY) (s : ctr_state) (num : nat) :=
  CRYPTO_ctr128_encrypt little_endian aligned (AES_encrypt key) p inp s num.

(** [assert] does nothing in this build. *)
Definition AES_ecb_encrypt (inp : list Z) (key : AES_KEY) (enc : Z) : list Z :=
  if enc =? AES_ENCRYPT then AES_encrypt key inp else AES_decrypt key inp.

Definition AES_ofb128_encrypt (p : path) (inp : list Z) (key : AES_KEY) (ivec : list Z) (num : nat) :=
  CRYPTO_ofb128_encrypt (AES_encrypt key) p inp ivec num.

Definition AES_wrap_key (key : AES_KEY) (iv : option (list Z)) (inp : list Z) (inlen : Z) :=
  CRYPTO_128_wrap (AES_encrypt key) iv inp inlen.

Definition AES_unwrap_key (key : AES_KEY) (iv : option (list Z)) (inp : list Z) (inlen : Z) :=
  CRYPTO_128_unwrap (AES_decrypt key) iv inp inlen.

(** ** Infinite garble extension *)

Section ige.
Context (blk : list Z → list Z).

(** The loops of the path for [in != out]: [ivp] and [iv2p] point to blocks of the two buffers. *)
Fixpoint ige_enc_distinct (len : nat) (inp ivp iv2p : list Z) : list Z * list Z * list Z :=
  match len with
  | O => ([], ivp, iv2p)
  | S len =>
      let inb := take 16 inp in
      let outb := xor_words inb ivp in
      let outb := blk outb in
      let outb := xor_words outb iv2p in
      let '(out, ivp, iv2p) := ige_enc_distinct len (drop 16 inp) outb inb in
      (outb ++ out, ivp, iv2p)
  end.

Fixpoint ige_dec_distinct (len : nat) (inp ivp iv2p : list Z) : list Z * list Z * list Z :=
  match len with
  | O => ([], ivp, iv2p)
  | S len =>
      let inb := take 16 inp in
      let tmp := xor_words inb iv2p in
      let outb := blk tmp in
      let outb := xor_words outb ivp in
      let '(out, ivp, iv2p) := ige_dec_distinct len (drop 16 inp) inb outb in
      (outb ++ out, ivp, iv2p)
  end.

(** The loops over copies of the blocks. *)
Fixpoint ige_enc_copy (len : nat) (inp iv iv2 : list Z) : list Z * list Z * list Z :=
  match len with
  | O => ([], iv, iv2)
  | S len =>
      let tmp := take 16 inp in
      let tmp2 := xor_words tmp iv in
      let tmp2 := blk tmp2 in
      let tmp2 := xor_words tmp2 iv2 in
      let '(out, iv, iv2) := ige_enc_copy len (drop 16 inp) tmp2 tmp in
      (tmp2 ++ out, iv, iv2)
  end.

Fixpoint ige_dec_copy (len : nat) (inp iv iv2 : list Z) : list Z * list Z * list Z :=
  match len with
  | O => ([], iv, iv2)
  | S len =>
      let tmp := take 16 inp in
      let tmp2 := tmp in
      let tmp := xor_words tmp iv2 in
      let tmp := blk tmp in
      let tmp := xor_words tmp iv in
      let '(out, iv, iv2) := ige_dec_copy len (drop 16 inp) tmp2 tmp in
      (tmp ++ out, iv, iv2)
  end.

(** [C_i = E(P_i xor C_{i-1}) xor P_{i-1}] and [P_i = D(C_i xor P_{i-1}) xor C_{i-1}]. *)
Fixpoint ige_enc (c p : list Z) (ps : list (list Z)) : list (list Z) :=
  match ps with
  | [] => []
  | x :: ps => let y := xor_bytes (blk (xor_bytes x c)) p in y :: ige_enc y x ps
  end.

Fixpoint ige_dec (c p : list Z) (cs : list (list Z)) : list (list Z) :=
  match cs with
  | [] => []
  | y :: cs => let x := xor_bytes (blk (xor_bytes y p)) c in x :: ige_dec y x cs
  end.

Lemma ige_paths len : ∀ inp iv iv2,
  ige_enc_distinct len inp iv iv2 = ige_enc_copy len inp iv iv2 ∧
  ige_dec_distinct len inp iv iv2 = ige_dec_copy len inp iv iv2.
Proof.
  induction len as [|len IH]; intros inp iv iv2; [done|]. cbn [ige_enc_distinct ige_enc_copy ige_dec_distinct ige_dec_copy].
  split; [by rewrite (proj1 (IH _ _ _))|by rewrite (proj2 (IH _ _ _))].
Qed.

Context `{!BlockFn blk}.

Lemma ige_enc_blocks ps c p : Forall block ps → block c → block p → Forall block (ige_enc c p ps).
Proof.
  intros H. revert c p. induction H as [|x ps Hx _ IH]; intros c p Hc Hp; cbn [ige_enc]; [constructor|].
  assert (block (xor_bytes (blk (xor_bytes x c)) p)) by (apply block_xor; [by apply block_fn, block_xor|done]).
  constructor; [done|]. by apply IH.
Qed.

Lemma ige_enc_copy_spec ps rest : Forall block ps → ∀ c p, block c → block p →
  ige_enc_copy (length ps) (concat ps ++ rest) c p =
  (concat (ige_enc c p ps), last_block c (ige_enc c p ps), last_block p ps).
Proof.
  induction 1 as [|x ps Hx _ IH]; intros c p Hc Hp; [done|].
  cbn [length concat ige_enc_copy ige_enc last_block]. pose proof (block_length x Hx) as Hl. rewrite <- app_assoc.
  rewrite (take_app_exact x _ _ Hl), (drop_app_exact x _ _ Hl), (xor_words_bytes x c Hx Hc).
  assert (block (blk (xor_bytes x c))) as Hb by (by apply block_fn, block_xor).
  rewrite (xor_words_bytes _ p Hb Hp), IH; [done|by apply block_xor|done].
Qed.

Lemma ige_dec_copy_spec cs rest : Forall block cs → ∀ c p, block c → block p →
  ige_dec_copy (length cs) (concat cs ++ rest) c p =
  (concat (ige_dec c p cs), last_block c cs, last_block p (ige_dec c p cs)).
Proof.
  induction 1 as [|y cs Hy _ IH]; intros c p Hc Hp; [done|].
  cbn [length concat ige_dec_copy ige_dec last_block]. pose proof (block_length y Hy) as Hl. rewrite <- app_assoc.
  rewrite (take_app_exact y _ _ Hl), (drop_app_exact y _ _ Hl), (xor_words_bytes y p Hy Hp).
  assert (block (blk (xor_bytes y p))) as Hb by (by apply block_fn, block_xor).
  rewrite (xor_words_bytes _ c Hb Hc), IH; [done|done|by apply block_xor].
Qed.
End ige.

(** [distinct] says that the path for [in != out] is taken; [None] for a failed assertion.
    Returns the output and [ivec], which has twice the size of a block. *)
Definition AES_ige_encrypt (distinct : bool) (inp : list Z) (length : Z) (key : AES_KEY) (ivec : list Z) (enc : Z)
    : option (list Z * list Z) :=
  if negb ((AES_ENCRYPT =? enc) || (AES_DECRYPT =? enc)) || negb (length `mod` 16 =? 0) then None
  else
    let len := Z.to_nat (length `div` 16) in
    let iv := take 16 ivec in
    let iv2 := take 16 (drop 16 ivec) in
    let '(out, iv, iv2) :=
      if AES_ENCRYPT =? enc then
        if distinct then ige_enc_distinct (AES_encrypt key) len inp iv iv2
        else ige_enc_copy (AES_encrypt key) len inp iv iv2
      else
        if distinct then ige_dec_distinct (AES_decrypt key) len inp iv iv2
        else ige_dec_copy (AES_decrypt key) len inp iv iv2 in
    Some (out, iv ++ iv2).

Section ige_roundtrip.
Context (enc dec : list Z → list Z) `{!BlockInverse enc dec}.

Lemma ige_dec_enc ps c p : Forall block ps → block c → block p → ige_dec dec c p (ige_enc enc c p ps) = ps.
Proof.
  intros H. revert c p. induction H as [|x ps Hx _ IH]; intros c p Hc Hp; [done|]. cbn [ige_enc ige_dec].
  assert (block (enc (xor_bytes x c))) as Hb by (by apply block_fn, block_xor).
  rewrite (xor_block_cancel _ p Hb Hp), dec_enc by (by apply block_xor).
  rewrite (xor_block_cancel x c Hx Hc). f_equal. apply IH; [by apply block_xor|done].
Qed.
End ige_roundtrip.

Lemma AES_ige_eq distinct key ivec enc ps rest c p : Forall block ps → ivec = c ++ p → block c → block p →
  AES_ige_encrypt distinct (concat ps ++ rest) (16 * Z.of_nat (length ps)) key ivec enc =
  let '(out, iv, iv2) :=
    if AES_ENCRYPT =? enc then ige_enc_copy (AES_encrypt key) (length ps) (concat ps ++ rest) c p
    else ige_dec_copy (AES_decrypt key) (length ps) (concat ps ++ rest) c p in
  if (AES_ENCRYPT =? enc) || (AES_DECRYPT =? enc) then Some (out, iv ++ iv2) else None.
Proof.
  intros Hps -> Hc Hp. unfold AES_ige_encrypt.
  rewrite Z.mul_comm, Z.mod_mul, Z.div_mul, Nat2Z.id by lia. cbn [Z.eqb negb].
  rewrite (take_app_exact c p), (drop_app_exact c p), (take_ge p) by (by rewrite ?block_length).
  destruct (ige_paths (AES_encrypt key) (length ps) (concat ps ++ rest) c p) as [-> _].
  destruct (ige_paths (AES_decrypt key) (length ps) (concat ps ++ rest) c p) as [_ ->].
  unfold AES_ENCRYPT, AES_DECRYPT.
  destruct (Z.eqb_spec 1 enc), (Z.eqb_spec 0 enc); try lia; cbn [orb negb]; destruct distinct; try done;
    destruct (ige_dec_copy _ _ _ _ _) as [[? ?] ?]; done.
Qed.

(** infinite garble extension with AES: on any number of blocks and for keys of all three sizes, decryption
    undoes encryption and both leave the same [ivec], whichever of the two code paths each of them takes. *)
Theorem AES_ige_roundtrip u bits Nk d1 d2 ps c p : key_size bits Nk → bytes u → Forall block ps → block c → block p →
  let n := 16 * Z.of_nat (length ps) in
  ∃ ct ivec',
    AES_ige_encrypt d1 (concat ps) n (set_key AES_set_encrypt_key u bits) (c ++ p) AES_ENCRYPT = Some (ct, ivec') ∧
    length ct = (16 * length ps)%nat ∧
    AES_ige_encrypt d2 ct n (set_key AES_set_decrypt_key u bits) (c ++ p) AES_DECRYPT = Some (concat ps, ivec').
Proof.
  intros Hk Hu Hps Hc Hp n. pose proof (AES_permutation u bits Nk Hk Hu) as HP.
  set (ek := set_key AES_set_encrypt_key u bits) in *. set (dk := set_key AES_set_decrypt_key u bits) in *.
  pose proof (ige_enc_blocks (AES_encrypt ek) ps c p Hps Hc Hp) as Hct.
  assert (length (ige_enc (AES_encrypt ek) c p ps) = length ps) as Hl.
  { clear. revert c p. induction ps as [|x ps IH]; intros c p; cbn; [done|]. by rewrite IH. }
  exists (concat (ige_enc (AES_encrypt ek) c p ps)). eexists. split_and!.
  - rewrite <- (app_nil_r (concat ps)). unfold n. rewrite (AES_ige_eq d1 ek (c ++ p) AES_ENCRYPT ps [] c p) by done.
    change (AES_ENCRYPT =? AES_ENCRYPT) with true. cbn [orb].
    rewrite (ige_enc_copy_spec (AES_encrypt ek)) by done. reflexivity.
  - by rewrite length_concat_blocks, Hl.
  - rewrite <- (app_nil_r (concat (ige_enc _ _ _ _))). unfold n. rewrite <- Hl.
    rewrite (AES_ige_eq d2 dk (c ++ p) AES_DECRYPT _ [] c p) by done.
    change (AES_ENCRYPT =? AES_DECRYPT) with false. change (AES_DECRYPT =? AES_DECRYPT) with true. cbn [orb].
    rewrite (ige_dec_copy_spec (AES_decrypt dk)) by done. by rewrite (ige_dec_enc (AES_encrypt ek) (AES_decrypt dk)).
Qed.

Lemma AES_ige_roundtrip_witness :
  let ps := [seqZ 3 16; seqZ 100 16] in
  ∃ ct ivec',
    AES_ige_encrypt true (concat ps) 32 (set_key AES_set_encrypt_key (seqZ 0 24) 192) (seqZ 0 16 ++ seqZ 50 16) AES_ENCRYPT =
      Some (ct, ivec') ∧
    length ct = 32%nat ∧
    AES_ige_encrypt false ct 32 (set_key AES_set_decrypt_key (seqZ 0 24) 192) (seqZ 0 16 ++ seqZ 50 16) AES_DECRYPT =
      Some (concat ps, ivec').
Proof.
  apply (AES_ige_roundtrip (seqZ 0 24) 192 6 true false [seqZ 3 16; seqZ 100 16] (seqZ 0 16) (seqZ 50 16));
    [right; left; done|..]; apply (bool_decide_eq_true_1 _); vm_compute; reflexivity.
Defined.
