(* ===== verification/EvpAes.v ===== *)
(** * AES in cipher contexts

    Models the generic AES ciphers of [crypto/evp/e_aes.c] in the build without
    assembler: the key setup and the CBC, ECB, OFB and CFB ciphers, as values of the
    record [EVP_CIPHER] of [Evp].  The alignment and the overlap of the buffers,
    which select code paths below, are arguments.

    The ciphers are instances of [BlockCipher], so the theorems of [Evp] about
    buffering and padding hold for them; together with the correctness of AES this
    gives the theorems from the key to the message. *)

From S2P Require Import Prelude ConstTime Block Cbc Stream Cfb AesSpec Aes AesModes Evp.

Record EVP_AES_KEY := mkAES { ks : AES_KEY; block_decrypts : bool; stream_cbc : bool }.

(** [dat->block] *)
Definition dat_block (dat : EVP_AES_KEY) : list Z → list Z :=
  if block_decrypts dat then AES_decrypt (ks dat) else AES_encrypt (ks dat).

Definition put_data (w : work EVP_AES_KEY) (dat : EVP_AES_KEY) : work EVP_AES_KEY :=
  Work (encrypt w) (oiv w) (iv w) (num w) (key_len w) (Some dat).
Definition set_iv_num (w : work EVP_AES_KEY) (v : list Z) (n : Z) : work EVP_AES_KEY :=
  Work (encrypt w) (oiv w) v n (key_len w) (cipher_data w).

(** These ciphers have [cipher_data]; [mode] is [ctx->cipher->flags & EVP_CIPH_MODE]. *)
Definition aes_init_key (mode : Z) (w : work EVP_AES_KEY) (key v : option (list Z)) (enc : Z) : Z * work EVP_AES_KEY :=
  match cipher_data w with
  | None => (0, w)
  | Some dat =>
      let dec := ((mode =? EVP_CIPH_ECB_MODE) || (mode =? EVP_CIPH_CBC_MODE)) && (enc =? 0) in
      let setup := if dec then AES_set_decrypt_key else AES_set_encrypt_key in
      let '(ret, k) := setup key (key_len w * 8) (Some (ks dat)) in
      let w := put_data w (mkAES (default (ks dat) k) dec (mode =? EVP_CIPH_CBC_MODE)) in
      if ret <? 0 then (0, w) else (1, w)
  end.

Section ciphers.
Context (p : path) (in_place : bool).

Definition aes_cbc_cipher (w : work EVP_AES_KEY) (inp : option (list Z)) : Z * list Z * work EVP_AES_KEY :=
  match cipher_data w with
  | None => (0, [], w)
  | Some dat =>
      let l := default [] inp in
      let '(out, v) :=
        if stream_cbc dat then AES_cbc_encrypt p in_place l (length l) (ks dat) (iv w) (encrypt w)
        else if negb (encrypt w =? 0) then CRYPTO_cbc128_encrypt (dat_block dat) p l (length l) (iv w)
        else CRYPTO_cbc128_decrypt (dat_block dat) p in_place l (length l) (iv w) in
      (1, out, set_iv_num w v (num w))
  end.

(** [for (i = 0, len -= bl; i <= len; i += bl)] *)
Fixpoint ecb_loop (fuel : nat) (blk : list Z → list Z) (l : list Z) (i len : nat) : list Z :=
  match fuel with
  | O => []
  | S fuel => if (i <=? len)%nat then blk (take 16 (drop i l)) ++ ecb_loop fuel blk l (i + 16) len else []
  end.

Definition aes_ecb_cipher (w : work EVP_AES_KEY) (inp : option (list Z)) : Z * list Z * work EVP_AES_KEY :=
  match cipher_data w with
  | None => (0, [], w)
  | Some dat =>
      let l := default [] inp in
      if (length l <? 16)%nat then (1, [], w)
      else (1, ecb_loop (length l) (dat_block dat) l 0 (length l - 16), w)
  end.

Definition aes_ofb_cipher (w : work EVP_AES_KEY) (inp : option (list Z)) : Z * list Z * work EVP_AES_KEY :=
  match cipher_data w with
  | None => (0, [], w)
  | Some dat =>
      let '(out, v, n) := CRYPTO_ofb128_encrypt (dat_block dat) p (default [] inp) (iv w) (Z.to_nat (num w)) in
      (1, out, set_iv_num w v (Z.of_nat n))
  end.

Definition aes_cfb_cipher (w : work EVP_AES_KEY) (inp : option (list Z)) : Z * list Z * work EVP_AES_KEY :=
  match cipher_data w with
  | None => (0, [], w)
  | Some dat =>
      let '(out, v, n) :=
        CRYPTO_cfb128_encrypt (dat_block dat) p (default [] inp) (iv w) (Z.to_nat (num w)) (negb (encrypt w =? 0)) in
      (1, out, set_iv_num w v (Z.of_nat n))
  end.

(** [uninit] is the initial content of the local [ovec] in [cfbr_encrypt_block]. *)
Definition aes_cfb8_cipher (uninit : list Z) (w : work EVP_AES_KEY) (inp : option (list Z)) : Z * list Z * work EVP_AES_KEY :=
  match cipher_data w with
  | None => (0, [], w)
  | Some dat =>
      let '(out, v) :=
        CRYPTO_cfb128_8_encrypt (dat_block dat) uninit (default [] inp) (iv w) (negb (encrypt w =? 0)) in
      (1, out, set_iv_num w v (num w))
  end.

(** [BLOCK_CIPHER_generic]; the memory of [cipher_data] is zeroed here. *)
Definition BLOCK_CIPHER_generic (id keylen blocksize ivlen mode fl : Z)
    (cipher : work EVP_AES_KEY → option (list Z) → Z * list Z * work EVP_AES_KEY) : EVP_CIPHER EVP_AES_KEY :=
  mkCIPHER id blocksize (keylen / 8) ivlen (Z.lor fl mode) (Some (mkAES key0 false false))
    (aes_init_key mode) cipher None None.

Definition EVP_CIPH_FLAG_DEFAULT_ASN1 : Z := 0x1000.

Definition NID_aes_cbc (keylen : Z) : Z := if keylen =? 128 then 419 else if keylen =? 192 then 423 else 427.
Definition NID_aes_ecb (keylen : Z) : Z := if keylen =? 128 then 418 else if keylen =? 192 then 422 else 426.
Definition NID_aes_ofb128 (keylen : Z) : Z := if keylen =? 128 then 420 else if keylen =? 192 then 424 else 428.
Definition NID_aes_cfb128 (keylen : Z) : Z := if keylen =? 128 then 421 else if keylen =? 192 then 425 else 429.
Definition NID_aes_cfb8 (keylen : Z) : Z := if keylen =? 128 then 653 else if keylen =? 192 then 654 else 655.

(** [EVP_aes_128_cbc] and the others, by the length of the key. *)
Definition EVP_aes_cbc (keylen : Z) : EVP_CIPHER EVP_AES_KEY :=
  BLOCK_CIPHER_generic (NID_aes_cbc keylen) keylen 16 16 EVP_CIPH_CBC_MODE EVP_CIPH_FLAG_DEFAULT_ASN1 aes_cbc_cipher.
Definition EVP_aes_ecb (keylen : Z) : EVP_CIPHER EVP_AES_KEY :=
  BLOCK_CIPHER_generic (NID_aes_ecb keylen) keylen 16 0 EVP_CIPH_ECB_MODE EVP_CIPH_FLAG_DEFAULT_ASN1 aes_ecb_cipher.
Definition EVP_aes_ofb (keylen : Z) : EVP_CIPHER EVP_AES_KEY :=
  BLOCK_CIPHER_generic (NID_aes_ofb128 keylen) keylen 1 16 EVP_CIPH_OFB_MODE EVP_CIPH_FLAG_DEFAULT_ASN1 aes_ofb_cipher.
Definition EVP_aes_cfb128 (keylen : Z) : EVP_CIPHER EVP_AES_KEY :=
  BLOCK_CIPHER_generic (NID_aes_cfb128 keylen) keylen 1 16 EVP_CIPH_CFB_MODE EVP_CIPH_FLAG_DEFAULT_ASN1 aes_cfb_cipher.
Definition EVP_aes_cfb8 (uninit : list Z) (keylen : Z) : EVP_CIPHER EVP_AES_KEY :=
  BLOCK_CIPHER_generic (NID_aes_cfb8 keylen) keylen 1 16 EVP_CIPH_CFB_MODE 0 (aes_cfb8_cipher uninit).

(** ** CBC as a block cipher *)

(** The context is set up for CBC with the schedule [k] in the direction [e]. *)
Definition cbc_ok (e : Z) (k : AES_KEY) (w : work EVP_AES_KEY) : Prop :=
  encrypt w = e ∧ block (iv w) ∧ cipher_data w = Some (mkAES k (e =? 0) true).

Definition cbc_out (k : AES_KEY) (w : work EVP_AES_KEY) (l : list Z) : list Z :=
  (AES_cbc_encrypt p in_place l (length l) k (iv w) (encrypt w)).1.
Definition cbc_adv (k : AES_KEY) (w : work EVP_AES_KEY) (l : list Z) : work EVP_AES_KEY :=
  set_iv_num w (AES_cbc_encrypt p in_place l (length l) k (iv w) (encrypt w)).2 (num w).

Lemma whole_blocks l : bytes l → (16 | length l)%nat → ∃ bs, l = concat bs ∧ Forall block bs.
Proof.
  intros Hl [k Hk]. destruct (split_blocks l Hl) as (bs & r & -> & Hbs & Hr & Hlr).
  rewrite length_app, length_concat_blocks in Hk by done.
  assert (r = []) as -> by (apply nil_length_inv; lia). exists bs. by rewrite app_nil_r.
Qed.

Lemma cbc_enc_blocks k bs v : BlockFn (AES_encrypt k) → Forall block bs → block v →
  AES_cbc_encrypt p in_place (concat bs) (length (concat bs)) k v 1 =
  (concat (cbc_enc (AES_encrypt k) v bs), last_block v (cbc_enc (AES_encrypt k) v bs)).
Proof.
  intros HF Hbs Hv. unfold AES_cbc_encrypt. cbn [Z.eqb AES_ENCRYPT Pos.eqb].
  pose proof (cbc128_encrypt_eq (AES_encrypt k) p bs [] [] v Hbs ltac:(constructor) ltac:(cbn; lia) Hv) as E.
  cbn [app length pad_last] in E. rewrite !app_nil_r, Nat.add_0_r in E. by rewrite length_concat_blocks.
Qed.

Lemma cbc_dec_blocks k bs v : BlockFn (AES_decrypt k) → Forall block bs → block v →
  AES_cbc_encrypt p in_place (concat bs) (length (concat bs)) k v 0 =
  (concat (cbc_dec (AES_decrypt k) v bs), last_block v bs).
Proof.
  intros HF Hbs Hv. unfold AES_cbc_encrypt. cbn [Z.eqb AES_ENCRYPT].
  rewrite length_concat_blocks by done.
  pose proof (cbc128_decrypt_eq (AES_decrypt k) p in_place bs [] (16 * length bs) v Hbs Hv) as E.
  rewrite app_nil_r in E. rewrite E by (unfold covers; lia). f_equal. apply take_ge.
  rewrite length_concat_blocks, length_cbc_dec by (by apply blocks_cbc_dec). lia.
Qed.

(** What the two directions share: a function on blocks that can be applied in two steps. *)
Lemma cbc_block_cipher e k keylen (out : list Z → list (list Z) → list (list Z)) (nxt : list Z → list (list Z) → list Z) :
  (∀ v bs, Forall block bs → block v →
     AES_cbc_encrypt p in_place (concat bs) (length (concat bs)) k v e = (concat (out v bs), nxt v bs)) →
  (∀ v bs, Forall block bs → block v → Forall block (out v bs) ∧ length (out v bs) = length bs ∧ block (nxt v bs)) →
  (∀ v, out v [] = [] ∧ nxt v [] = v) →
  (∀ v a b, Forall block a → block v → out v (a ++ b) = out v a ++ out (nxt v a) b ∧ nxt v (a ++ b) = nxt (nxt v a) b) →
  BlockCipher (EVP_aes_cbc keylen) (cbc_ok e k) (cbc_out k) (cbc_adv k).
Proof.
  intros Heq Hbl Hnil Happ. split; try done.
  - right. by right.
  - intros w l (He & Hv & Hd) Hl Hw _. cbn [do_cipher EVP_aes_cbc BLOCK_CIPHER_generic].
    unfold aes_cbc_cipher, cbc_out, cbc_adv. rewrite Hd. cbn [stream_cbc ks default].
    by destruct (AES_cbc_encrypt _ _ _ _ _ _ _).
  - intros w l (He & Hv & Hd) Hl Hw. destruct (whole_blocks l Hl Hw) as (bs & -> & Hbs).
    unfold cbc_ok, cbc_adv. rewrite He, Heq by done. split_and!; [done|by apply Hbl|done].
  - intros w l (He & Hv & Hd) Hl Hw. destruct (whole_blocks l Hl Hw) as (bs & -> & Hbs).
    unfold cbc_out. rewrite He, Heq by done. destruct (Hbl (iv w) bs Hbs Hv) as (H1 & H2 & _).
    cbn [fst]. by rewrite !length_concat_blocks, H2.
  - intros w l (He & Hv & Hd) Hl Hw. destruct (whole_blocks l Hl Hw) as (bs & -> & Hbs).
    unfold cbc_out. rewrite He, Heq by done. by apply bytes_concat_blocks, Hbl.
  - intros w (He & Hv & Hd). unfold cbc_out, cbc_adv. rewrite He.
    pose proof (Heq (iv w) [] ltac:(constructor) Hv) as E. cbn [concat length] in *. rewrite E.
    destruct (Hnil (iv w)) as [-> ->]. split; [done|]. by destruct w.
  - intros w a l (He & Hv & Hd) Ha Hl Hwa Hwl.
    destruct (whole_blocks a Ha Hwa) as (as_ & -> & Has). destruct (whole_blocks l Hl Hwl) as (bs & -> & Hbs).
    destruct (Happ (iv w) as_ bs Has Hv) as [E1 E2]. destruct (Hbl (iv w) as_ Has Hv) as (_ & _ & Hv').
    unfold cbc_out, cbc_adv. rewrite <- concat_app, He.
    rewrite (Heq (iv w) (as_ ++ bs)), (Heq (iv w) as_) by (done || by apply Forall_app).
    cbn [fst snd iv set_iv_num encrypt]. rewrite He, Heq by done. cbn [fst snd].
    by rewrite E1, E2, concat_app.
Qed.

Lemma cbc_encryption k keylen : BlockFn (AES_encrypt k) →
  BlockCipher (EVP_aes_cbc keylen) (cbc_ok 1 k) (cbc_out k) (cbc_adv k).
Proof.
  intros HF. apply (cbc_block_cipher 1 k keylen (cbc_enc (AES_encrypt k)) (λ v bs, last_block v (cbc_enc (AES_encrypt k) v bs))).
  - intros. by apply cbc_enc_blocks.
  - intros v bs Hbs Hv. split_and!; [|apply length_cbc_enc|by apply block_last_enc].
    revert v Hv. induction Hbs as [|x bs Hx _ IH]; intros v Hv; cbn [cbc_enc]; constructor.
    + by apply block_fn, block_xor.
    + by apply IH, block_fn, block_xor.
  - done.
  - intros v a b Ha Hv. split; [apply cbc_enc_app|]. by rewrite cbc_enc_app, last_block_app.
Qed.

Lemma cbc_decryption k keylen : BlockFn (AES_decrypt k) →
  BlockCipher (EVP_aes_cbc keylen) (cbc_ok 0 k) (cbc_out k) (cbc_adv k).
Proof.
  intros HF. apply (cbc_block_cipher 0 k keylen (cbc_dec (AES_decrypt k)) (λ v bs, last_block v bs)).
  - intros. by apply cbc_dec_blocks.
  - intros v bs Hbs Hv. split_and!; [by apply blocks_cbc_dec|apply length_cbc_dec|by apply block_last].
  - done.
  - intros v a b Ha Hv. split; [apply cbc_dec_app|apply last_block_app].
Qed.
End ciphers.

(** ** From the key to the message *)

(** The work of a context that [EVP_CipherInit_ex] has set up from a cleared one. *)
Definition aes_work (e : Z) (u v : list Z) (keylen : Z) : work EVP_AES_KEY :=
  let setup := if e =? 0 then AES_set_decrypt_key else AES_set_encrypt_key in
  Work e v v 0 (keylen / 8) (Some (mkAES (set_key setup u keylen) (e =? 0) true)).

Lemma EVP_aes_cbc_init p ip e u v keylen Nk : key_size keylen Nk → bytes u → block v → e = 0 ∨ e = 1 →
  EVP_CipherInit_ex true EVP_CIPHER_CTX_init (Some (EVP_aes_cbc p ip keylen)) (Some u) (Some v) e =
  Some (1, mkCTX (Some (EVP_aes_cbc p ip keylen)) 0 (aes_work e u v keylen) (replicate 32 0) 0 0 15 (replicate 32 0)).
Proof.
  intros Hk Hu [Hvb Hv] He.
  destruct (encrypt_schedule u keylen Nk key0 Hk Hu eq_refl) as (ke & Ee & _).
  destruct (decrypt_schedule u keylen Nk key0 Hk Hu eq_refl) as (kd & Ed & _).
  assert (keylen / 8 * 8 = keylen) as Hb by (destruct Hk as [[-> _]|[[-> _]|[-> _]]]; done).
  assert (splice (replicate 16 0) 0 (take 16 v) = v) as Hs by (rewrite take_ge by lia; by apply splice_whole).
  assert (∀ w : work EVP_AES_KEY, oiv w = replicate 16 0 → iv w = replicate 16 0 →
    set_iv (EVP_aes_cbc p ip keylen) w (Some v) =
    Some (Some (Work (encrypt w) v v (num w) (key_len w) (cipher_data w)))) as Hiv.
  { intros w Ho Hi. unfold set_iv. cbn [c_flags iv_len EVP_aes_cbc BLOCK_CIPHER_generic].
    change (Z.land (Z.lor EVP_CIPH_FLAG_DEFAULT_ASN1 EVP_CIPH_CBC_MODE) EVP_CIPH_MODE) with EVP_CIPH_CBC_MODE.
    change (EVP_MAX_IV_LENGTH <? 16) with false. change (Z.to_nat 16) with 16%nat. rewrite Ho, Hi, Hs.
    cbn [orb Z.eqb Pos.eqb EVP_CIPH_CBC_MODE EVP_CIPH_STREAM_CIPHER EVP_CIPH_ECB_MODE EVP_CIPH_CFB_MODE EVP_CIPH_OFB_MODE].
    by rewrite Hs. }
  set (w0 := Work e (replicate 16 0) (replicate 16 0) 0 (keylen / 8) (Some (mkAES key0 false false))).
  set (ctx0 := mkCTX (Some (EVP_aes_cbc p ip keylen)) 0 w0 (replicate 32 0) 0 0 0 (replicate 32 0)).
  assert (EVP_CipherInit_ex true EVP_CIPHER_CTX_init (Some (EVP_aes_cbc p ip keylen)) (Some u) (Some v) e =
          init_state ctx0 (EVP_aes_cbc p ip keylen) (Some u) (Some v) e) as -> by (by destruct He as [->| ->]).
  unfold init_state. cbn [block_size EVP_aes_cbc BLOCK_CIPHER_generic flags ctx0 c_flags wk cipher buf final].
  fold (EVP_aes_cbc p ip keylen). rewrite Hiv by done.
  assert (c_init (EVP_aes_cbc p ip keylen) (Work e v v 0 (keylen / 8) (Some (mkAES key0 false false))) (Some u) (Some v) e =
          (1, aes_work e u v keylen)) as Hinit.
  { cbn [c_init EVP_aes_cbc BLOCK_CIPHER_generic]. unfold aes_init_key, aes_work, set_key. cbn [cipher_data key_len ks].
    rewrite Hb, ?Ee, ?Ed. destruct He as [->| ->]; cbn [andb orb Z.eqb EVP_CIPH_CBC_MODE EVP_CIPH_ECB_MODE Pos.eqb];
      rewrite ?Ed, ?Ee; done. }
  assert ((Z.land (Z.lor EVP_CIPH_FLAG_DEFAULT_ASN1 EVP_CIPH_CBC_MODE) EVP_CIPH_CUSTOM_IV =? 0) = true) as -> by reflexivity.
  assert ((Z.land (Z.lor EVP_CIPH_FLAG_DEFAULT_ASN1 EVP_CIPH_CBC_MODE) EVP_CIPH_MODE =? EVP_CIPH_WRAP_MODE) = false)
    as -> by reflexivity.
  cbn [Z.eqb Pos.eqb orb negb andb encrypt num key_len cipher_data w0]. rewrite andb_false_r, Hinit. done.
Qed.

Section cbc_context.
Context (p : path) (ip : bool) (u v : list Z) (keylen : Z) (Nk : nat).
Context (Hk : key_size keylen Nk) (Hu : bytes u) (Hv : block v).

Definition cbc_context (e : Z) : EVP_CIPHER_CTX EVP_AES_KEY :=
  mkCTX (Some (EVP_aes_cbc p ip keylen)) 0 (aes_work e u v keylen) (replicate 32 0) 0 0 15 (replicate 32 0).

Local Abbreviation ek := (set_key AES_set_encrypt_key u keylen).
Local Abbreviation dk := (set_key AES_set_decrypt_key u keylen).

Lemma cbc_enc_instance : BlockCipher (EVP_aes_cbc p ip keylen) (cbc_ok 1 ek) (cbc_out p ip ek) (cbc_adv p ip ek).
Proof using All. pose proof (AES_permutation u keylen Nk Hk Hu). apply cbc_encryption, _. Qed.

Lemma cbc_dec_instance : BlockCipher (EVP_aes_cbc p ip keylen) (cbc_ok 0 dk) (cbc_out p ip dk) (cbc_adv p ip dk).
Proof using All.
  pose proof (AES_permutation u keylen Nk Hk Hu) as HP. apply cbc_decryption.
  exact (block_dec (BlockInverse := block_perm_inverse (BlockPermutation := HP))).
Qed.

Lemma cbc_context_holds e k : k = (if e =? 0 then dk else ek) → holds (EVP_aes_cbc p ip keylen) (cbc_ok e k) (cbc_context e) [].
Proof using All. intros ->. split; try done. split_and!; try done. cbn. by destruct (e =? 0). Qed.

(** The blocks of a whole message under both directions. *)
Lemma cbc_inverse p' ip' m : bytes m → whole (EVP_aes_cbc p ip keylen) m →
  cbc_out p' ip' dk (aes_work 0 u v keylen) (cbc_out p ip ek (aes_work 1 u v keylen) m) = m.
Proof using All.
  intros Hm Hw. pose proof (AES_permutation u keylen Nk Hk Hu) as HP.
  destruct (whole_blocks m Hm Hw) as (bs & -> & Hbs).
  unfold cbc_out. cbn [encrypt iv aes_work]. rewrite (cbc_enc_blocks p ip ek bs v) by (done || apply _). cbn [fst].
  pose proof (blocks_cbc_enc (AES_encrypt ek) (AES_decrypt dk) v bs Hbs Hv) as Hc.
  rewrite (cbc_dec_blocks p' ip' dk (cbc_enc (AES_encrypt ek) v bs) v)
    by (done || exact (block_dec (BlockInverse := block_perm_inverse (BlockPermutation := HP)))).
  cbn [fst]. by rewrite (cbc_dec_enc (AES_encrypt ek) (AES_decrypt dk)).
Qed.

Lemma cbc_ciphertext m : bytes m → whole (EVP_aes_cbc p ip keylen) m →
  cbc_out p ip ek (aes_work 1 u v keylen) m = concat (cbc_enc (AES_encrypt ek) v (pad_blocks m)).
Proof using All.
  intros Hm Hw. pose proof (AES_permutation u keylen Nk Hk Hu) as HP.
  destruct (whole_blocks m Hm Hw) as (bs & -> & Hbs).
  unfold cbc_out. cbn [encrypt iv aes_work]. rewrite (cbc_enc_blocks p ip ek bs v) by (done || apply _). cbn [fst].
  pose proof (pad_blocks_concat bs [] Hbs ltac:(cbn; lia)) as E. rewrite !app_nil_r in E. by rewrite E.
Qed.
End cbc_context.

(** ** The theorems *)

Lemma EVP_encrypt_pieces_witness :
  run EVP_EncryptUpdate EVP_EncryptFinal_ex (cbc_context Unaligned false (seqZ 0 16) (seqZ 16 16) 128 1)
    [seqZ 1 5; []; seqZ 6 30; [7]] =
  Some (cbc_out Unaligned false (set_key AES_set_encrypt_key (seqZ 0 16) 128) (aes_work 1 (seqZ 0 16) (seqZ 16 16) 128)
    (seqZ 1 35 ++ [7] ++ replicate 12 12)).
Proof.
  assert (bytes (seqZ 0 16)) as Hu by (apply (bool_decide_eq_true_1 _); vm_compute; reflexivity).
  assert (block (seqZ 16 16)) as Hv by (apply (bool_decide_eq_true_1 _); vm_compute; reflexivity).
  pose proof (cbc_enc_instance Unaligned false (seqZ 0 16) (seqZ 16 16) 128 4 (or_introl (conj eq_refl eq_refl)) Hu Hv) as HC.
  rewrite (EVP_encrypt_pieces (EVP_aes_cbc Unaligned false 128) _ _ _ (cbc_context Unaligned false (seqZ 0 16) (seqZ 16 16) 128 1)
    [seqZ 1 5; []; seqZ 6 30; [7]]).
  - reflexivity.
  - exact (cbc_context_holds Unaligned false (seqZ 0 16) (seqZ 16 16) 128 4 (or_introl (conj eq_refl eq_refl)) Hu Hv 1 _ eq_refl).
  - repeat constructor; first [lia | apply (bool_decide_eq_true_1 _); vm_compute; reflexivity].
Defined.

Lemma EVP_decrypt_pieces_witness :
  run EVP_DecryptUpdate EVP_DecryptFinal_ex (cbc_context Aligned true (seqZ 0 16) (seqZ 16 16) 128 0)
    [seqZ 1 16; seqZ 17 3; seqZ 20 13] = None.
Proof.
  assert (bytes (seqZ 0 16)) as Hu by (apply (bool_decide_eq_true_1 _); vm_compute; reflexivity).
  assert (block (seqZ 16 16)) as Hv by (apply (bool_decide_eq_true_1 _); vm_compute; reflexivity).
  pose proof (cbc_dec_instance Aligned true (seqZ 0 16) (seqZ 16 16) 128 4 (or_introl (conj eq_refl eq_refl)) Hu Hv) as HC.
  rewrite (EVP_decrypt_pieces (EVP_aes_cbc Aligned true 128) _ _ _ (cbc_context Aligned true (seqZ 0 16) (seqZ 16 16) 128 0)
    [seqZ 1 16; seqZ 17 3; seqZ 20 13]).
  - vm_compute. reflexivity.
  - exact (cbc_context_holds Aligned true (seqZ 0 16) (seqZ 16 16) 128 4 (or_introl (conj eq_refl eq_refl)) Hu Hv 0 _ eq_refl).
  - reflexivity.
  - reflexivity.
  - apply (bool_decide_eq_true_1 _). vm_compute. reflexivity.
  - repeat constructor; first [lia | apply (bool_decide_eq_true_1 _); vm_compute; reflexivity].
Defined.

(** C29: AES-CBC from the key to the message.  For a key of 128, 192 or 256 bits and any vector, initialising a
    cleared context for encryption and feeding it a message in pieces gives the CBC encryption, under FIPS 197, of the
    padded message; and a context initialised for decryption with the same key and vector gives back the message from
    that ciphertext, cut into pieces in any other way. *)
Theorem EVP_aes_cbc_roundtrip p ip p' ip' u v keylen Nk ps qs :
  key_size keylen Nk → bytes u → block v → Forall piece ps → Forall piece qs →
  let E := AES_encrypt (set_key AES_set_encrypt_key u keylen) in
  let ct := concat (cbc_enc E v (pad_blocks (concat ps ++ padding 16 (length (concat ps))))) in
  concat qs = ct →
  ∃ ctx ctx',
    EVP_EncryptInit_ex true EVP_CIPHER_CTX_init (Some (EVP_aes_cbc p ip keylen)) (Some u) (Some v) = Some (1, ctx) ∧
    run EVP_EncryptUpdate EVP_EncryptFinal_ex ctx ps = Some ct ∧
    EVP_DecryptInit_ex true EVP_CIPHER_CTX_init (Some (EVP_aes_cbc p' ip' keylen)) (Some u) (Some v) = Some (1, ctx') ∧
    run EVP_DecryptUpdate EVP_DecryptFinal_ex ctx' qs = Some (concat ps).
Proof.
  intros Hk Hu Hv Hps Hqs E ct Hq. exists (cbc_context p ip u v keylen 1), (cbc_context p' ip' u v keylen 0).
  pose proof (cbc_enc_instance p ip u v keylen Nk Hk Hu Hv) as HE.
  pose proof (cbc_dec_instance p' ip' u v keylen Nk Hk Hu Hv) as HD.
  pose proof (cbc_context_holds p ip u v keylen Nk Hk Hu Hv 1 _ eq_refl) as Hh.
  pose proof (cbc_context_holds p' ip' u v keylen Nk Hk Hu Hv 0 _ eq_refl) as Hh'.
  assert (bytes (concat ps)) as Hb.
  { clear -Hps. induction Hps as [|x l [Hx _] _ IH]; cbn [concat]; [constructor|by apply bytes_app]. }
  assert (bytes (concat ps ++ padding 16 (length (concat ps)))) as Hbp.
  { apply bytes_app; [done|]. apply bytes_replicate_pad.
    pose proof (Z.mod_pos_bound (Z.of_nat (length (concat ps))) 16 ltac:(lia)). unfold is_byte. lia. }
  assert (run EVP_EncryptUpdate EVP_EncryptFinal_ex (cbc_context p ip u v keylen 1) ps = Some ct) as Hrun.
  { rewrite (encrypt_pieces _ _ _ _ _ _ Hh Hps).
    change (Some (cbc_out p ip (set_key AES_set_encrypt_key u keylen) (aes_work 1 u v keylen)
      (concat ps ++ padding 16 (length (concat ps)))) = Some ct).
    f_equal. apply (cbc_ciphertext p ip u v keylen Nk Hk Hu Hv); [done|].
    apply (whole_padding (EVP_aes_cbc p ip keylen)). by right. }
  split_and!; [by apply (EVP_aes_cbc_init p ip 1 u v keylen Nk); auto|done
    |by apply (EVP_aes_cbc_init p' ip' 0 u v keylen Nk); auto|].
  apply (roundtrip_pieces (EVP_aes_cbc p ip keylen) (EVP_aes_cbc p' ip' keylen) _ _ _ _ _ _ eq_refl
    (cbc_context p ip u v keylen 1) (cbc_context p' ip' u v keylen 0) ps qs ct); try done.
  - apply (bool_decide_eq_true_1 _). vm_compute. reflexivity.
  - intros m Hm Hw. by apply (cbc_inverse p ip u v keylen Nk Hk Hu Hv).
Qed.

Lemma EVP_aes_cbc_roundtrip_witness :
  let E := AES_encrypt (set_key AES_set_encrypt_key (seqZ 0 32) 256) in
  let ct := concat (cbc_enc E (seqZ 16 16) (pad_blocks (seqZ 1 35 ++ padding 16 35))) in
  ∃ ctx ctx',
    EVP_EncryptInit_ex true EVP_CIPHER_CTX_init (Some (EVP_aes_cbc Aligned false 256)) (Some (seqZ 0 32)) (Some (seqZ 16 16)) =
      Some (1, ctx) ∧
    run EVP_EncryptUpdate EVP_EncryptFinal_ex ctx [seqZ 1 5; seqZ 6 30] = Some ct ∧
    EVP_DecryptInit_ex true EVP_CIPHER_CTX_init (Some (EVP_aes_cbc SmallFootprint true 256)) (Some (seqZ 0 32)) (Some (seqZ 16 16)) =
      Some (1, ctx') ∧
    run EVP_DecryptUpdate EVP_DecryptFinal_ex ctx' [take 7 ct; drop 7 ct] = Some (seqZ 1 35).
Proof.
  intros E ct.
  apply (EVP_aes_cbc_roundtrip Aligned false SmallFootprint true (seqZ 0 32) (seqZ 16 16) 256 8
    [seqZ 1 5; seqZ 6 30] [take 7 ct; drop 7 ct]).
  - right. right. split; reflexivity.
  - apply (bool_decide_eq_true_1 _). vm_compute. reflexivity.
  - apply (bool_decide_eq_true_1 _). vm_compute. reflexivity.
  - repeat constructor; first [lia | apply (bool_decide_eq_true_1 _); vm_compute; reflexivity].
  - repeat apply Forall_cons_2; [split|split|apply Forall_nil_2];
      first [apply (bool_decide_eq_true_1 _); vm_compute; reflexivity | vm_compute; reflexivity].
  - vm_compute. reflexivity.
Defined.

(** The other ciphers of the family, on a concrete message and schedule. *)
Lemma EVP_aes_examples :
  let u := seqZ 0 16 in let v := seqZ 16 16 in
  let enc c := '(_, ctx) ← EVP_EncryptInit_ex true EVP_CIPHER_CTX_init (Some c) (Some u) (Some v);
               run EVP_EncryptUpdate EVP_EncryptFinal_ex ctx [seqZ 1 5; seqZ 6 30] in
  let dec c ct := '(_, ctx) ← EVP_DecryptInit_ex true EVP_CIPHER_CTX_init (Some c) (Some u) (Some v);
                  run EVP_DecryptUpdate EVP_DecryptFinal_ex ctx [take 3 ct; drop 3 ct] in
  (enc (EVP_aes_ecb 128) ≫= dec (EVP_aes_ecb 128)) = Some (seqZ 1 35) ∧
  (enc (EVP_aes_ofb Aligned 128) ≫= dec (EVP_aes_ofb Unaligned 128)) = Some (seqZ 1 35) ∧
  (enc (EVP_aes_cfb128 Aligned 128) ≫= dec (EVP_aes_cfb128 Unaligned 128)) = Some (seqZ 1 35) ∧
  (enc (EVP_aes_cfb8 (replicate 33 0) 128) ≫= dec (EVP_aes_cfb8 (replicate 33 1) 128)) = Some (seqZ 1 35).
Proof. vm_compute. done. Qed.

Lemma EVP_context_typed_witness :
  ∃ ret outl o ctx', EVP_CipherFinal_ex (cbc_context Aligned true (seqZ 0 16) (seqZ 16 16) 128 1) = Some (ret, outl, o, ctx') ∧
    Z.of_nat (length o) ≤ 16.
Proof.
  assert (bytes (seqZ 0 16)) as Hu by (apply (bool_decide_eq_true_1 _); vm_compute; reflexivity).
  assert (block (seqZ 16 16)) as Hv by (apply (bool_decide_eq_true_1 _); vm_compute; reflexivity).
  pose proof (cbc_enc_instance Aligned true (seqZ 0 16) (seqZ 16 16) 128 4 (or_introl (conj eq_refl eq_refl)) Hu Hv) as HC.
  refine (proj2 (proj2 (EVP_context_typed (EVP_aes_cbc Aligned true 128) _ _ _ (cbc_context Aligned true (seqZ 0 16) (seqZ 16 16) 128 1)
    (cbc_context Aligned true (seqZ 0 16) (seqZ 16 16) 128 1) _ _ _ _ (reach_start _)))).
  - exact (cbc_context_holds Aligned true (seqZ 0 16) (seqZ 16 16) 128 4 (or_introl (conj eq_refl eq_refl)) Hu Hv 1 _ eq_refl).
  - reflexivity.
  - reflexivity.
  - apply (bool_decide_eq_true_1 _). vm_compute. reflexivity.
Defined.
