(* ===== verification/Md32.v ===== *)
(** * The collector of the 32-bit hash functions

    Models [crypto/md32_common.h], the template that MD5, SHA-1, SHA-256 and others
    instantiate: it counts the bits, collects the input into blocks of 64 bytes and
    pads the end.  The instantiating macros are arguments: the width of [HASH_LONG],
    the byte order, the function [HASH_BLOCK_DATA_ORDER] for one block and
    [HASH_MAKE_STRING].

    The specification is the iterated compression of the padded message; the theorem
    is that any sequence of updates followed by the final function computes it. *)

From S2P Require Import Prelude.

(** [h] is the chaining value, [md_len] is used by the SHA-2 family. *)
Record HASH_CTX := HCtx { hash : list Z; Nl : Z; Nh : Z; hdata : list Z; hnum : Z; md_len : Z }.

Definition HASH_CBLOCK : Z := 64.

Definition ROTATE (a n : Z) : Z := u32 (Z.lor (a ≪ n) (a ≫ (32 - n))).

(** [HOST_c2l] and [HOST_l2c] in the two byte orders. *)
Definition HOST_c2l_be (c : list Z) : Z :=
  Z.lor (Z.lor (Z.lor (nthZ c 0 ≪ 24) (nthZ c 1 ≪ 16)) (nthZ c 2 ≪ 8)) (nthZ c 3).
Definition HOST_l2c_be (l : Z) : list Z :=
  [u8 (Z.land (l ≫ 24) 0xff); u8 (Z.land (l ≫ 16) 0xff); u8 (Z.land (l ≫ 8) 0xff); u8 (Z.land l 0xff)].
Definition HOST_c2l_le (c : list Z) : Z :=
  Z.lor (Z.lor (Z.lor (nthZ c 0) (nthZ c 1 ≪ 8)) (nthZ c 2 ≪ 16)) (nthZ c 3 ≪ 24).
Definition HOST_l2c_le (l : Z) : list Z :=
  [u8 (Z.land l 0xff); u8 (Z.land (l ≫ 8) 0xff); u8 (Z.land (l ≫ 16) 0xff); u8 (Z.land (l ≫ 24) 0xff)].

(** ** Compressing blocks

    The loop over the blocks of a message, of any size [B], that the block functions
    [HASH_BLOCK_DATA_ORDER(ctx, p, n)] are. *)

Section blocks.
Context (B : nat) (compress : list Z → list Z → list Z).

Fixpoint iter_blocks (h p : list Z) (n : nat) : list Z :=
  match n with
  | O => h
  | S n => iter_blocks (compress h (take B p)) (drop B p) n
  end.

(** The compression function over the blocks of a message. *)
Definition iterate (h M : list Z) : list Z := iter_blocks h M (length M / B).

Lemma iter_blocks_app a d : ∀ n h m, length a = (B * n)%nat →
  iter_blocks h (a ++ d) (n + m) = iter_blocks (iter_blocks h a n) d m.
Proof.
  intros n. revert a. induction n as [|n IH]; intros a h m Ha.
  { rewrite Nat.mul_0_r in Ha. by destruct a. }
  cbn [Nat.add iter_blocks]. rewrite take_app_le, drop_app_le by lia.
  rewrite <- (IH (drop B a)) by (rewrite length_drop; lia). done.
Qed.

Lemma iter_blocks_prefix a d : ∀ n h, length a = (B * n)%nat → iter_blocks h (a ++ d) n = iter_blocks h a n.
Proof.
  intros n h Ha. pose proof (iter_blocks_app a d n h 0 Ha) as E. rewrite Nat.add_0_r in E. exact E.
Qed.

Lemma iterate_app h a d : (0 < B)%nat → (B | length a)%nat → iterate h (a ++ d) = iterate (iterate h a) d.
Proof.
  intros HB [k Hk]. unfold iterate. rewrite length_app, Hk.
  replace (k * B + length d)%nat with (length d + k * B)%nat by lia. rewrite Nat.div_add by lia.
  rewrite Nat.div_mul, Nat.add_comm by lia. apply iter_blocks_app. lia.
Qed.

Lemma iterate_one h l : (0 < B)%nat → length l = B → iterate h l = iter_blocks h l 1.
Proof. intros HB Hl. unfold iterate. by rewrite Hl, Nat.div_same by lia. Qed.

Lemma length_iter_blocks k : (∀ h b, length (compress h b) = k) → ∀ n h p, length h = k → length (iter_blocks h p n) = k.
Proof. intros Hk. induction n as [|n IH]; intros h p Hh; [done|]. cbn [iter_blocks]. by apply IH. Qed.

Lemma length_iterate k h M : (∀ h b, length (compress h b) = k) → length h = k → length (iterate h M) = k.
Proof. intros Hk Hh. by apply length_iter_blocks. Qed.
End blocks.

(** Two compression functions that agree on whole blocks of bytes. *)
Lemma iter_blocks_ext B f g : (∀ h b, bytes b → length b = B → f h b = g h b) →
  ∀ n h p, bytes p → (B * n ≤ length p)%nat → iter_blocks B f h p n = iter_blocks B g h p n.
Proof.
  intros E. induction n as [|n IH]; intros h p Hp Hl; [done|]. cbn [iter_blocks].
  rewrite E by (auto with vtls; rewrite length_take; lia). apply IH; [auto with vtls|rewrite length_drop; lia].
Qed.

(** Two words written one after the other. *)
Lemma be_store_app n m hi lo : 0 ≤ lo < 2 ^ (8 * Z.of_nat m) →
  be_store (n + m) (hi * 2 ^ (8 * Z.of_nat m) + lo) = be_store n hi ++ be_store m lo.
Proof.
  intros Hlo. apply be_load_inj; [apply bytes_be_store|apply bytes_app; apply bytes_be_store|by rewrite length_app, !length_be_store|].
  rewrite be_load_app, !be_load_store by apply bytes_be_store. rewrite length_be_store, (Z.mod_small lo) by done.
  rewrite Nat2Z.inj_add, Z.mul_add_distr_l, Z.pow_add_r by lia. set (W := 2 ^ (8 * Z.of_nat m)) in *. set (V := 2 ^ (8 * Z.of_nat n)).
  assert (0 < V) by (apply Z.pow_pos_nonneg; lia).
  pose proof (Z.div_mod hi V ltac:(lia)) as E. pose proof (Z.mod_pos_bound hi V ltac:(lia)).
  symmetry. apply (Z.mod_unique _ _ (hi `div` V)); [left; nia|]. rewrite E at 1. ring.
Qed.

(** ** Counting bits in two words of [w] bits

    A carry into the high word is seen by the low word getting smaller. *)
Lemma two_word_count w nl nh len : 3 ≤ w → 0 ≤ len → 0 ≤ nl < 2 ^ w → 0 ≤ nh < 2 ^ w →
  let l := (nl + 8 * len) `mod` 2 ^ w in
  let h := (nh + (if l <? nl then 1 else 0) + len ≫ (w - 3)) `mod` 2 ^ w in
  0 ≤ l < 2 ^ w ∧ 0 ≤ h < 2 ^ w ∧ h * 2 ^ w + l = (nh * 2 ^ w + nl + 8 * len) `mod` 2 ^ (2 * w).
Proof.
  intros Hw Hlen Hnl Hnh l h.
  assert (2 ^ w = 8 * 2 ^ (w - 3)) as H8 by (change 8 with (2 ^ 3); rewrite <- Z.pow_add_r by lia; f_equal; lia).
  replace (2 ^ (2 * w)) with (2 ^ w * 2 ^ w) by (rewrite <- Z.pow_add_r by lia; f_equal; lia).
  assert ((8 * len) `div` 2 ^ w = len ≫ (w - 3)) as Hhi.
  { rewrite Z.shiftr_div_pow2, H8 by lia. by rewrite Z.div_mul_cancel_l by lia. }
  unfold h. rewrite <- Hhi. clear h Hhi H8. set (W := 2 ^ w) in *. clearbody W.
  pose proof (Z.div_mod (8 * len) W ltac:(lia)) as HA. pose proof (Z.mod_pos_bound (8 * len) W ltac:(lia)) as HAm.
  assert (l = (nl + (8 * len) `mod` W) `mod` W) as El by (unfold l; by rewrite Zplus_mod_idemp_r).
  assert (0 ≤ l < W) as Hlr by (apply Z.mod_pos_bound; lia). clearbody l.
  set (q := (8 * len) `div` W) in *. set (m := (8 * len) `mod` W) in *. clearbody q m.
  assert (nl + m = (if l <? nl then 1 else 0) * W + l) as Hs.
  { destruct (decide (nl + m < W)) as [L|L].
    - rewrite Z.mod_small in El by lia. destruct (Z.ltb_spec l nl); lia.
    - assert (l = nl + m - W) by (rewrite El; symmetry; apply (Z.mod_unique _ _ 1); lia). destruct (Z.ltb_spec l nl); lia. }
  set (cr := if l <? nl then 1 else 0) in *. clearbody cr.
  pose proof (Z.div_mod (nh + cr + q) W ltac:(lia)) as HX. pose proof (Z.mod_pos_bound (nh + cr + q) W ltac:(lia)).
  split; [done|]. split; [done|]. set (h := (nh + cr + q) `mod` W) in *. set (k := (nh + cr + q) `div` W) in *. clearbody h k.
  apply (Z.mod_unique _ _ k); [left; nia|]. rewrite HA. replace (nh * W + nl + (W * q + m)) with (W * (nh + q) + (nl + m)) by ring.
  rewrite Hs. replace (W * (nh + q) + (cr * W + l)) with (W * (nh + cr + q) + l) by ring. rewrite HX. ring.
Qed.

Abbreviation block_data_order compress := (iter_blocks 64 compress).

(** ** Padding

    The message with a bit, zeros up to [L] bytes before the end of a block, and its
    length in bits in [L] bytes. *)
Definition bits_store (big_endian : bool) (L : nat) (v : Z) : list Z := if big_endian then be_store L v else le_store L v.
Definition md_pad (B L : nat) (big_endian : bool) (M : list Z) : list Z :=
  let n := Z.of_nat (length M) in
  M ++ [0x80] ++ replicate (Z.to_nat ((Z.of_nat B - Z.of_nat L - 1 - n) `mod` Z.of_nat B)) 0 ++ bits_store big_endian L (8 * n).

Lemma length_bits_store be L v : length (bits_store be L v) = L.
Proof. unfold bits_store. destruct be; [apply length_be_store|apply length_le_store]. Qed.

Lemma bytes_md_pad B L be M : bytes M → bytes (md_pad B L be M).
Proof.
  intros H. unfold md_pad. apply bytes_app; [done|]. apply bytes_app; [by apply (bool_decide_eq_true_1 _)|].
  apply bytes_app; [auto with vtls|]. unfold bits_store. destruct be; [apply bytes_be_store|apply bytes_le_store].
Qed.

Lemma iterate_ext B f g h M : (∀ h b, bytes b → length b = B → f h b = g h b) → bytes M → iterate B f h M = iterate B g h M.
Proof.
  intros E HM. unfold iterate. apply iter_blocks_ext; [done|done|]. apply Nat.Div0.mul_div_le.
Qed.

(** Writing into a buffer at the end of its contents. *)
Lemma splice_tail {A} (a x y : list A) : (length y ≤ length x)%nat → splice (a ++ x) (length a) y = a ++ y ++ drop (length y) x.
Proof.
  intros H. rewrite <- (take_drop (length y) x) at 1. rewrite splice_app; [done|]. rewrite length_take. lia.
Qed.

(** The zeros and the length after the bytes [a] in a buffer of [B] bytes. *)
Lemma final_block B (a x bits : list Z) : length (a ++ x) = B → (length a + length bits ≤ B)%nat →
  let n := (B - length bits)%nat in
  splice (splice (a ++ x) (length a) (replicate (n - length a) 0)) n bits = a ++ replicate (n - length a) 0 ++ bits.
Proof.
  intros Hl Ha n. rewrite length_app in Hl.
  assert (n = length (a ++ replicate (n - length a) 0)) as E by (rewrite length_app, length_replicate; lia).
  set (k := (n - length a)%nat) in *. assert (length a + k + length bits = B)%nat as Hk by lia. clearbody k. rewrite E.
  rewrite splice_tail by (rewrite length_replicate; lia).
  rewrite app_assoc, splice_tail by (rewrite length_drop, length_replicate; lia).
  rewrite drop_ge, app_nil_r by (rewrite length_drop, length_replicate; lia). by rewrite <- app_assoc.
Qed.

(** What the context of a hash function with blocks of [B] bytes and a count of two words of
    [w] bits stands for: the message so far is whole blocks [Q] and a rest [r]. *)
Record collects (B : nat) (w : Z) (compress : list Z → list Z → list Z) (h0 : list Z) (ctx : HASH_CTX) (Q r : list Z) : Prop := {
  c_whole : (B | length Q)%nat;
  c_short : (length r < B)%nat;
  c_hash : hash ctx = iterate B compress h0 Q;
  c_num : hnum ctx = Z.of_nat (length r);
  c_data : take (length r) (hdata ctx) = r;
  c_room : length (hdata ctx) = B;
  c_bits : 0 ≤ Nl ctx < 2 ^ w ∧ 0 ≤ Nh ctx < 2 ^ w ∧
           Nh ctx * 2 ^ w + Nl ctx = (8 * Z.of_nat (length Q + length r)) `mod` 2 ^ (2 * w)
}.

Lemma collects_buffer B w compress h0 ctx Q r : collects B w compress h0 ctx Q r →
  ∃ d, hdata ctx = r ++ d ∧ (length r + length d)%nat = B.
Proof.
  intros [Hw Hs Hh Hn Hd Hr _]. exists (drop (length r) (hdata ctx)).
  rewrite <- Hd at 1 3. rewrite take_drop, length_take, length_drop. split; [done|lia].
Qed.

(** ** Padding the last blocks in the buffer *)
Section last_blocks.
Context (B L : nat) (HL : (L < B)%nat) (compress : list Z → list Z → list Z) (be : bool).
Context (h0 Q r d : list Z) (HQ : (B | length Q)%nat) (Hr : (length r + S (length d))%nat = B).
Let bits := bits_store be L (8 * Z.of_nat (length Q + length r)).

Lemma bits_length : length bits = L.
Proof. apply length_bits_store. Qed.

(** The length fits into the block. *)
Lemma pad_one : (length r + 1 ≤ B - L)%nat →
  iterate B compress h0 (md_pad B L be (Q ++ r)) =
  iter_blocks B compress (iterate B compress h0 Q)
    (splice (splice ((r ++ [0x80]) ++ d) (length r + 1) (replicate (B - L - (length r + 1)) 0)) (B - L) bits) 1.
Proof.
  intros H. pose proof (final_block B (r ++ [0x80]) d bits ltac:(rewrite !length_app; cbn; lia)
    ltac:(rewrite bits_length, length_app; cbn; lia)) as Hfb. cbv zeta in Hfb. rewrite bits_length, length_app in Hfb. cbn [length] in Hfb.
  rewrite Hfb, <- iterate_one by (rewrite ?length_app, ?length_replicate, ?bits_length; cbn; lia).
  rewrite <- iterate_app by (lia || done). f_equal. unfold md_pad. rewrite length_app, <- !app_assoc. do 4 f_equal. f_equal.
  destruct HQ as [k Hk]. rewrite Hk.
  replace ((Z.of_nat B - Z.of_nat L - 1 - Z.of_nat (k * B + length r)) `mod` Z.of_nat B) with (Z.of_nat B - Z.of_nat L - 1 - Z.of_nat (length r)); [lia|].
  apply (Z.mod_unique _ _ (- Z.of_nat k)); lia.
Qed.

(** It takes another block. *)
Lemma pad_two : (B - L < length r + 1)%nat →
  let p := splice ((r ++ [0x80]) ++ d) (length r + 1) (replicate (B - (length r + 1)) 0) in
  iterate B compress h0 (md_pad B L be (Q ++ r)) =
  iter_blocks B compress (iter_blocks B compress (iterate B compress h0 Q) p 1)
    (splice (splice p 0 (replicate (B - L) 0)) (B - L) bits) 1.
Proof.
  intros H p. assert (p = (r ++ [0x80]) ++ replicate (B - (length r + 1)) 0) as Ep.
  { unfold p. replace (length r + 1)%nat with (length (r ++ [0x80])) by (rewrite length_app; cbn; lia).
    rewrite splice_tail by (rewrite length_replicate, length_app; cbn; lia).
    by rewrite drop_ge, app_nil_r by (rewrite length_replicate, length_app; cbn; lia). }
  assert (length p = B) as Hp by (rewrite Ep, !length_app, length_replicate; cbn; lia). clearbody p.
  pose proof (final_block B [] p bits Hp ltac:(rewrite bits_length; cbn; lia)) as Hfb. cbv zeta in Hfb.
  rewrite bits_length in Hfb. cbn [app length] in Hfb. rewrite Nat.sub_0_r in Hfb.
  rewrite Hfb, <- !iterate_one by (rewrite ?length_app, ?length_replicate, ?bits_length; lia || done).
  rewrite <- (iterate_app B compress h0 Q p), <- (iterate_app B compress h0 (Q ++ p))
    by first [lia | done | rewrite length_app, Hp; apply Nat.divide_add_r; [done|by exists 1%nat; lia]].
  f_equal. unfold md_pad. rewrite Ep, length_app, <- !app_assoc. do 3 f_equal. cbn [app].
  rewrite app_assoc, <- replicate_add. f_equal. f_equal. destruct HQ as [k Hk]. rewrite Hk.
  replace ((Z.of_nat B - Z.of_nat L - 1 - Z.of_nat (k * B + length r)) `mod` Z.of_nat B)
    with (2 * Z.of_nat B - Z.of_nat L - 1 - Z.of_nat (length r)); [lia|].
  apply (Z.mod_unique _ _ (- Z.of_nat k - 1)); lia.
Qed.
End last_blocks.

Section md32.
Context (long : Z) (big_endian : bool) (compress : list Z → list Z → list Z) (make_string : list Z → Z → option (list Z)).

Definition set_hash ctx h := HCtx h (Nl ctx) (Nh ctx) (hdata ctx) (hnum ctx) (md_len ctx).
Definition set_hdata ctx d n := HCtx (hash ctx) (Nl ctx) (Nh ctx) d n (md_len ctx).

(** The part of [HASH_UPDATE] that adds to the number of bits. *)
Definition count_bits ctx (len : Z) : HASH_CTX :=
  let l := Z.land ((Nl ctx + (len `mod` 2 ^ long * 8) `mod` 2 ^ long) `mod` 2 ^ long) 0xffffffff in
  let nh := if l <? Nl ctx then u32 (Nh ctx + 1) else Nh ctx in
  HCtx (hash ctx) l (u32 (nh + (len ≫ 29) `mod` 2 ^ long)) (hdata ctx) (hnum ctx) (md_len ctx).

(** From [n = len / HASH_CBLOCK] on. *)
Definition update_blocks ctx (dat : list Z) (len : Z) : HASH_CTX :=
  let n := len `div` HASH_CBLOCK in
  let '(ctx, dat, len) :=
    if 0 <? n then
      (set_hash ctx (block_data_order compress (hash ctx) dat (Z.to_nat n)), drop (Z.to_nat (n * HASH_CBLOCK)) dat, len - n * HASH_CBLOCK)
    else (ctx, dat, len) in
  if negb (len =? 0) then set_hdata ctx (splice (hdata ctx) 0 (take (Z.to_nat len) dat)) len else ctx.

Definition HASH_UPDATE ctx (dat : list Z) (len : Z) : HASH_CTX :=
  if len =? 0 then ctx
  else
    let ctx := count_bits ctx len in
    let n := hnum ctx in
    if negb (n =? 0) then
      if (HASH_CBLOCK <=? len) || (HASH_CBLOCK <=? u64 (len + n)) then
        let p := splice (hdata ctx) (Z.to_nat n) (take (Z.to_nat (HASH_CBLOCK - n)) dat) in
        let ctx := set_hash ctx (block_data_order compress (hash ctx) p 1) in
        let ctx := set_hdata ctx (replicate 64 0) 0 in
        update_blocks ctx (drop (Z.to_nat (HASH_CBLOCK - n)) dat) (len - (HASH_CBLOCK - n))
      else
        set_hdata ctx (splice (hdata ctx) (Z.to_nat n) (take (Z.to_nat len) dat)) (u32 (hnum ctx + len))
    else update_blocks ctx dat len.

Definition HASH_TRANSFORM ctx (dat : list Z) : HASH_CTX := set_hash ctx (block_data_order compress (hash ctx) dat 1).

Definition host_l2c (l : Z) : list Z := if big_endian then HOST_l2c_be l else HOST_l2c_le l.

(** The digest is [None] when [HASH_MAKE_STRING] returns 0 from the function. *)
Definition HASH_FINAL ctx : option (list Z) * HASH_CTX :=
  let p := splice (hdata ctx) (Z.to_nat (hnum ctx)) [0x80] in
  let n := hnum ctx + 1 in
  let '(ctx, p, n) :=
    if HASH_CBLOCK - 8 <? n then
      let p := splice p (Z.to_nat n) (replicate (Z.to_nat (HASH_CBLOCK - n)) 0) in
      (set_hash ctx (block_data_order compress (hash ctx) p 1), p, 0)
    else (ctx, p, n) in
  let p := splice p (Z.to_nat n) (replicate (Z.to_nat (HASH_CBLOCK - 8 - n)) 0) in
  let bits := if big_endian then host_l2c (Nh ctx) ++ host_l2c (Nl ctx) else host_l2c (Nl ctx) ++ host_l2c (Nh ctx) in
  let p := splice p (Z.to_nat (HASH_CBLOCK - 8)) bits in
  let ctx := set_hash ctx (block_data_order compress (hash ctx) p 1) in
  let ctx := set_hdata ctx (replicate 64 0) 0 in
  (make_string (hash ctx) (md_len ctx), ctx).

(** ** Specification *)

Definition md_spec (h0 : list Z) (len : Z) (M : list Z) : option (list Z) := make_string (iterate 64 compress h0 (md_pad 64 8 big_endian M)) len.

(** ** Proofs *)

Lemma land_32 z : Z.land z 0xffffffff = z `mod` 2 ^ 32.
Proof. change 0xffffffff with (Z.ones 32). by rewrite Z.land_ones by lia. Qed.

Lemma mod_mod_pow z k : 32 ≤ k → (z `mod` 2 ^ k) `mod` 2 ^ 32 = z `mod` 2 ^ 32.
Proof.
  intros. apply Z.mod_mod_divide.
  exists (2 ^ (k - 32)). rewrite <- Z.pow_add_r by lia. f_equal. lia.
Qed.

Lemma count_low nl len : 32 ≤ long →
  Z.land ((nl + (len `mod` 2 ^ long * 8) `mod` 2 ^ long) `mod` 2 ^ long) 0xffffffff = (nl + 8 * len) `mod` 2 ^ 32.
Proof.
  intros Hl. assert (2 ^ long ≠ 0) by (apply Z.pow_nonzero; lia).
  rewrite land_32, mod_mod_pow by done. rewrite <- Zplus_mod_idemp_r, mod_mod_pow by done.
  rewrite <- Zmult_mod_idemp_l, mod_mod_pow, Zmult_mod_idemp_l, Zplus_mod_idemp_r by done. f_equal. lia.
Qed.

Lemma count_bits_spec ctx len : 32 ≤ long → 0 ≤ len → 0 ≤ Nl ctx < 2 ^ 32 → 0 ≤ Nh ctx < 2 ^ 32 →
  let c := count_bits ctx len in
  0 ≤ Nl c < 2 ^ 32 ∧ 0 ≤ Nh c < 2 ^ 32 ∧
  Nh c * 2 ^ 32 + Nl c = (Nh ctx * 2 ^ 32 + Nl ctx + 8 * len) `mod` 2 ^ 64.
Proof.
  intros Hl Hlen Hnl Hnh c. unfold c, count_bits. cbn [Nl Nh]. rewrite count_low by done.
  set (l := (Nl ctx + 8 * len) `mod` 2 ^ 32).
  assert (u32 ((if l <? Nl ctx then u32 (Nh ctx + 1) else Nh ctx) + (len ≫ 29) `mod` 2 ^ long) =
          (Nh ctx + (if l <? Nl ctx then 1 else 0) + len ≫ 29) `mod` 2 ^ 32) as ->.
  { unfold u32. rewrite <- Zplus_mod_idemp_r, mod_mod_pow, Zplus_mod_idemp_r by done.
    destruct (l <? Nl ctx); [rewrite Zplus_mod_idemp_l|]; f_equal; lia. }
  exact (two_word_count 32 (Nl ctx) (Nh ctx) len ltac:(lia) Hlen Hnl Hnh).
Qed.

(** Everything but the count of bits. *)
Lemma update_blocks_spec h0 ctx Q dat : (64 | length Q)%nat → hash ctx = iterate 64 compress h0 Q → hnum ctx = 0 → length (hdata ctx) = 64%nat →
  let c := update_blocks ctx dat (Z.of_nat (length dat)) in
  ∃ S r, dat = S ++ r ∧ (64 | length S)%nat ∧ (length r < 64)%nat ∧ hash c = iterate 64 compress h0 (Q ++ S) ∧
    hnum c = Z.of_nat (length r) ∧ take (length r) (hdata c) = r ∧ length (hdata c) = 64%nat ∧
    Nl c = Nl ctx ∧ Nh c = Nh ctx ∧ md_len c = md_len ctx.
Proof.
  intros HQ Hh Hn Hd c. set (k := (length dat / 64)%nat).
  assert (Z.of_nat (length dat) `div` HASH_CBLOCK = Z.of_nat k) as Hk by (unfold k; by rewrite Nat2Z.inj_div).
  pose proof (Nat.div_mod (length dat) 64 ltac:(lia)) as Hdm. fold k in Hdm.
  pose proof (Nat.mod_upper_bound (length dat) 64 ltac:(lia)) as Hmod.
  destruct (split_at dat (64 * k) ltac:(lia)) as (S & r & E & HS & Hr). subst dat. rewrite length_app in *.
  exists S, r. split; [done|]. split; [exists k; lia|]. split; [lia|].
  assert (hash c = iterate 64 compress h0 (Q ++ S) ∧ hnum c = Z.of_nat (length r) ∧ take (length r) (hdata c) = r ∧
    length (hdata c) = 64%nat ∧ Nl c = Nl ctx ∧ Nh c = Nh ctx ∧ md_len c = md_len ctx); [|tauto].
  set (c1 := set_hash ctx (iterate 64 compress h0 (Q ++ S))).
  assert (c = if negb (Z.of_nat (length r) =? 0) then set_hdata c1 (splice (hdata c1) 0 (take (Z.to_nat (Z.of_nat (length r))) r)) (Z.of_nat (length r)) else c1) as ->.
  { unfold c, update_blocks. rewrite length_app, Hk. unfold HASH_CBLOCK.
    destruct (Z.ltb_spec 0 (Z.of_nat k)) as [L|L].
    - rewrite Nat2Z.id. replace (Z.to_nat (Z.of_nat k * 64)) with (length S) by lia. rewrite drop_app_length.
      replace (Z.of_nat (length S + length r) - Z.of_nat k * 64) with (Z.of_nat (length r)) by lia.
      rewrite iter_blocks_prefix by lia.
      assert (block_data_order compress (hash ctx) S k = iterate 64 compress h0 (Q ++ S)) as ->; [|done].
      rewrite iterate_app, <- Hh by (done || lia). unfold iterate. f_equal. rewrite HS, Nat.mul_comm. symmetry. apply Nat.div_mul. lia.
    - assert (S = []) as -> by (apply nil_length_inv; lia). unfold c1. rewrite app_nil_r, <- Hh. cbn [app length Nat.add].
      by destruct ctx. }
  rewrite Nat2Z.id, firstn_all. destruct (Z.eqb_spec (Z.of_nat (length r)) 0) as [E0|E0]; cbn [negb].
  - assert (r = []) as -> by (apply nil_length_inv; lia). by rewrite take_0.
  - cbn [hash hnum hdata Nl Nh md_len set_hdata c1 set_hash].
    split_and!; try done; [unfold splice; rewrite take_0, app_nil_l; apply take_app_length|].
    rewrite length_splice; lia.
Qed.

Lemma collects_bits h0 ctx Q r len : 32 ≤ long → 0 ≤ len → collects 64 32 compress h0 ctx Q r →
  let c := count_bits ctx len in
  0 ≤ Nl c < 2 ^ 32 ∧ 0 ≤ Nh c < 2 ^ 32 ∧
  Nh c * 2 ^ 32 + Nl c = (8 * (Z.of_nat (length Q + length r) + len)) `mod` 2 ^ 64.
Proof.
  intros Hl Hlen [_ _ _ _ _ _ (H1 & H2 & H3)] c.
  destruct (count_bits_spec ctx len Hl Hlen H1 H2) as (G1 & G2 & G3). split; [exact G1|split; [exact G2|]].
  etrans; [exact G3|]. rewrite H3, Zplus_mod_idemp_l. f_equal. lia.
Qed.

Lemma HASH_UPDATE_step h0 ctx Q r dat : 32 ≤ long → collects 64 32 compress h0 ctx Q r → Z.of_nat (length dat) < 2 ^ 64 →
  ∃ Q' r', Q' ++ r' = Q ++ r ++ dat ∧ collects 64 32 compress h0 (HASH_UPDATE ctx dat (Z.of_nat (length dat))) Q' r' ∧
    md_len (HASH_UPDATE ctx dat (Z.of_nat (length dat))) = md_len ctx.
Proof.
  intros Hl Hc Hlen. unfold HASH_UPDATE. destruct (Z.eqb_spec (Z.of_nat (length dat)) 0) as [E0|E0].
  { assert (dat = []) as -> by (apply nil_length_inv; lia). exists Q, r. by rewrite !app_nil_r. }
  destruct (collects_bits h0 ctx Q r (Z.of_nat (length dat)) Hl ltac:(lia) Hc) as (B1 & B2 & B3).
  set (c := count_bits ctx (Z.of_nat (length dat))) in *.
  pose proof Hc as [Hw Hs Hh Hn Hd Hr _].
  assert (hash c = hash ctx ∧ hdata c = hdata ctx ∧ hnum c = hnum ctx ∧ md_len c = md_len ctx) as (Ch & Cd & Cn & Cm) by done.
  rewrite Cn, Hn. destruct (Z.eqb_spec (Z.of_nat (length r)) 0) as [Er|Er]; cbn [negb].
  { assert (r = []) as -> by (apply nil_length_inv; lia).
    destruct (update_blocks_spec h0 c Q dat Hw ltac:(congruence) ltac:(rewrite Cn, Hn; done) ltac:(congruence))
      as (S & r' & -> & HS & Hr' & K1 & K2 & K3 & K4 & K5 & K6 & K7).
    exists (Q ++ S), r'. split; [by rewrite <- app_assoc|]. split; [|congruence].
    split; try done; [rewrite length_app; by apply Nat.divide_add_r|].
    rewrite K5, K6. split; [exact B1|split; [exact B2|]]. rewrite B3, !length_app. cbn [length]. do 2 f_equal. lia. }
  assert ((HASH_CBLOCK <=? Z.of_nat (length dat)) || (HASH_CBLOCK <=? u64 (Z.of_nat (length dat) + Z.of_nat (length r))) =
          (64 <=? length dat + length r)%nat) as ->.
  { unfold HASH_CBLOCK, u64. destruct (Z.leb_spec 64 (Z.of_nat (length dat))); cbn [orb].
    - symmetry. apply Nat.leb_le. lia.
    - rewrite Z.mod_small by lia. destruct (Nat.leb_spec 64 (length dat + length r)); [apply Z.leb_le|apply Z.leb_gt]; lia. }
  destruct (collects_buffer _ _ _ _ _ _ _ Hc) as (d' & Ed & Hd').
  rewrite Ch, Cd, Ed in *. rewrite length_app in Hr. destruct (Nat.leb_spec 64 (length dat + length r)) as [L|L].
  - unfold HASH_CBLOCK. rewrite Nat2Z.id.
    destruct (split_at dat (64 - length r) ltac:(lia)) as (a & e & -> & Ha & _). rewrite length_app in *.
    replace (Z.to_nat (64 - Z.of_nat (length r))) with (length a) by lia.
    rewrite take_app_length, drop_app_length, splice_tail by lia. rewrite drop_ge, app_nil_r by lia.
    replace (Z.of_nat (length a + length e) - (64 - Z.of_nat (length r))) with (Z.of_nat (length e)) by lia.
    set (c1 := set_hdata _ _ _).
    assert (hash c1 = iterate 64 compress h0 (Q ++ r ++ a)) as Hc1.
    { cbn [c1 hash set_hdata set_hash]. rewrite Hh, iterate_app by (done || lia). unfold iterate at 2.
      replace (length (r ++ a) / 64)%nat with 1%nat; [done|]. rewrite length_app. apply (Nat.div_unique _ _ _ 0); lia. }
    assert (64 | length (Q ++ r ++ a))%nat as Hw1.
    { rewrite length_app. apply Nat.divide_add_r; [done|]. exists 1%nat. rewrite length_app. lia. }
    destruct (update_blocks_spec h0 c1 (Q ++ r ++ a) e Hw1 Hc1 eq_refl eq_refl)
      as (S & r' & -> & HS & Hr' & K1 & K2 & K3 & K4 & K5 & K6 & K7).
    exists ((Q ++ r ++ a) ++ S), r'. split; [by rewrite <- !app_assoc|]. split; [|by rewrite K7].
    split; try done; [rewrite length_app; by apply Nat.divide_add_r|].
    rewrite K5, K6. split; [exact B1|split; [exact B2|]]. cbn [c1 Nl Nh set_hdata set_hash]. rewrite B3, !length_app. do 2 f_equal. lia.
  - rewrite Nat2Z.id. rewrite (take_ge dat) by lia. rewrite splice_tail by lia.
    exists Q, (r ++ dat). split; [done|]. split; [|done].
    split; cbn [hash hnum hdata set_hdata Nl Nh]; rewrite ?length_app.
    + done.
    + lia.
    + congruence.
    + unfold u32. rewrite Z.mod_small; lia.
    + rewrite app_assoc. apply take_app_exact. by rewrite length_app.
    + rewrite length_drop. lia.
    + split; [exact B1|split; [exact B2|]]. rewrite B3. do 2 f_equal. lia.
Qed.

Lemma HOST_l2c_be_spec l : HOST_l2c_be l = be_store 4 l.
Proof.
  unfold HOST_l2c_be. change 0xff with (Z.ones 8). rewrite !Z.land_ones by lia. unfold u8.
  rewrite !Z.mod_mod by lia. rewrite !be_store_S. unfold u8. rewrite !Z.shiftr_shiftr by lia. done.
Qed.

Lemma HOST_l2c_le_spec l : HOST_l2c_le l = le_store 4 l.
Proof.
  assert (le_store 4 l = reverse (be_store 4 l)) as -> by (unfold be_store; by rewrite reverse_involutive).
  rewrite <- HOST_l2c_be_spec. done.
Qed.

Lemma host_bits nh nl v : 0 ≤ nl < 2 ^ 32 → nh * 2 ^ 32 + nl = v `mod` 2 ^ 64 →
  (if big_endian then host_l2c nh ++ host_l2c nl else host_l2c nl ++ host_l2c nh) = bits_store big_endian 8 v.
Proof.
  intros Hl E. assert (be_store 8 v = be_store 4 nh ++ be_store 4 nl) as Hbe.
  { rewrite <- (be_store_app 4 4) by done. change (8 * Z.of_nat 4) with 32. rewrite E. symmetry. by apply be_store_mod. }
  unfold host_l2c, bits_store. destruct big_endian; [by rewrite !HOST_l2c_be_spec|].
  rewrite !HOST_l2c_le_spec. assert (∀ n x, le_store n x = reverse (be_store n x)) as Hr
    by (intros; unfold be_store; by rewrite reverse_involutive).
  by rewrite !Hr, Hbe, reverse_app.
Qed.

Lemma HASH_FINAL_spec h0 ctx Q r : collects 64 32 compress h0 ctx Q r →
  (HASH_FINAL ctx).1 = md_spec h0 (md_len ctx) (Q ++ r).
Proof.
  intros Hc. destruct (collects_buffer _ _ _ _ _ _ _ Hc) as (d & Ed & Hd). destruct Hc as [Hw Hs Hh Hn _ _ (B1 & B2 & B3)].
  destruct d as [|x d]; cbn [length] in Hd; [lia|].
  unfold HASH_FINAL, md_spec. rewrite Hn, Ed, Nat2Z.id, splice_tail by (cbn; lia). cbn [length drop].
  rewrite (app_assoc r [0x80]), drop_0.
  change (HASH_CBLOCK - 8) with 56. unfold HASH_CBLOCK. change (Z.to_nat 56) with (64 - 8)%nat.
  assert ((56 <? Z.of_nat (length r) + 1) = (64 - 8 <? length r + 1)%nat) as ->
    by (destruct (Nat.ltb_spec (64 - 8) (length r + 1)); [apply Z.ltb_lt|apply Z.ltb_ge]; lia).
  assert (Z.to_nat (Z.of_nat (length r) + 1) = (length r + 1)%nat) as En by lia.
  destruct (Nat.ltb_spec (64 - 8) (length r + 1)) as [L|L]; cbn [fst md_len set_hdata set_hash hash Nl Nh];
    rewrite (host_bits _ _ _ B1 B3), Hh, ?En.
  - rewrite (pad_two 64 8 ltac:(lia) compress big_endian h0 Q r d Hw Hd L).
    by replace (Z.to_nat (64 - (Z.of_nat (length r) + 1))) with (64 - (length r + 1))%nat by lia.
  - rewrite (pad_one 64 8 ltac:(lia) compress big_endian h0 Q r d Hw Hd L).
    by replace (Z.to_nat (56 - (Z.of_nat (length r) + 1))) with (64 - 8 - (length r + 1))%nat by lia.
Qed.

(** ** Any sequence of updates *)

Fixpoint hash_pieces ctx (ps : list (list Z)) : HASH_CTX :=
  match ps with
  | [] => ctx
  | p :: ps => hash_pieces (HASH_UPDATE ctx p (Z.of_nat (length p))) ps
  end.

Definition short_piece (p : list Z) : Prop := Z.of_nat (length p) < 2 ^ 64.

Lemma hash_pieces_collects h0 : 32 ≤ long → ∀ ps ctx Q r, Forall short_piece ps → collects 64 32 compress h0 ctx Q r →
  ∃ Q' r', Q' ++ r' = Q ++ r ++ concat ps ∧ collects 64 32 compress h0 (hash_pieces ctx ps) Q' r' ∧ md_len (hash_pieces ctx ps) = md_len ctx.
Proof.
  intros Hl. induction ps as [|p ps IH]; intros ctx Q r Hps Hc.
  { exists Q, r. cbn [concat hash_pieces]. by rewrite app_nil_r. }
  destruct (HASH_UPDATE_step h0 ctx Q r p Hl Hc (Forall_inv Hps)) as (Q1 & r1 & E1 & Hc1 & Hm1).
  destruct (IH _ Q1 r1 (Forall_inv_tail Hps) Hc1) as (Q2 & r2 & E2 & Hc2 & Hm2).
  exists Q2, r2. cbn [hash_pieces concat]. split; [|split; [done|congruence]].
  rewrite E2, !app_assoc. f_equal. rewrite E1. by rewrite !app_assoc.
Qed.

(** A context as the initialising functions leave it. *)
Definition hash_init (h0 : list Z) (len : Z) : HASH_CTX := HCtx h0 0 0 (replicate 64 0) 0 len.

Lemma collects_init h0 len : collects 64 32 compress h0 (hash_init h0 len) [] [].
Proof. split; try done; [apply Nat.divide_0_r|cbn; lia]. Qed.

(** Init, updates and final compute the specification on the concatenation. *)
Lemma hash_pieces_final h0 len ps : 32 ≤ long → Forall short_piece ps →
  (HASH_FINAL (hash_pieces (hash_init h0 len) ps)).1 = md_spec h0 len (concat ps).
Proof.
  intros Hl Hps. destruct (hash_pieces_collects h0 Hl ps _ [] [] Hps (collects_init h0 len)) as (Q & r & E & Hc & Hm).
  rewrite (HASH_FINAL_spec h0 _ Q r Hc), Hm, E. done.
Qed.
End md32.

(** ** Reading the words of a block *)

Lemma HOST_c2l_be_load p o : bytes p → (o + 4 ≤ length p)%nat → HOST_c2l_be (drop o p) = be_load (take 4 (drop o p)).
Proof.
  intros Hp Hl. assert (bytes (drop o p)) as Hd by auto with vtls.
  assert (4 ≤ length (drop o p))%nat as Hn by (rewrite length_drop; lia).
  destruct (drop o p) as [|a [|b [|c [|d l]]]]; try (cbn in Hn; lia).
  apply bytes_cons_inv in Hd as [Ha [Hb [Hc [Hd _]%bytes_cons_inv]%bytes_cons_inv]%bytes_cons_inv].
  cbn [take]. rewrite take_0. assert (bytes [d]) by (apply Forall_cons_2; [done|apply Forall_nil_2]).
  assert (bytes [c; d]) by (by apply Forall_cons_2). assert (bytes [b; c; d]) by (by apply Forall_cons_2).
  rewrite !be_load_cons by (try done; apply Forall_nil_2). unfold HOST_c2l_be, nthZ. cbn [nth length].
  change (be_load []) with 0. unfold is_byte in *.
  change (8 * Z.of_nat 3) with 24. change (8 * Z.of_nat 2) with 16. change (8 * Z.of_nat 1) with 8. change (8 * Z.of_nat 0) with 0.
  rewrite <- !Z.lor_assoc, (lor_shiftl_add c d 8), (lor_shiftl_add b _ 16), (lor_shiftl_add a _ 24); lia.
Qed.

Lemma HOST_c2l_le_load p o : bytes p → (o + 4 ≤ length p)%nat → HOST_c2l_le (drop o p) = le_load (take 4 (drop o p)).
Proof.
  intros Hp Hl. assert (bytes (drop o p)) as Hd by auto with vtls.
  assert (4 ≤ length (drop o p))%nat as Hn by (rewrite length_drop; lia).
  destruct (drop o p) as [|a [|b [|c [|d l]]]]; try (cbn in Hn; lia).
  apply bytes_cons_inv in Hd as [Ha [Hb [Hc [Hd _]%bytes_cons_inv]%bytes_cons_inv]%bytes_cons_inv].
  cbn [take]. rewrite take_0, !le_load_cons, le_load_nil by done. unfold HOST_c2l_le, nthZ. cbn [nth]. unfold is_byte in *.
  rewrite (Z.lor_comm a), <- (Z.lor_comm (c ≪ 16)), <- (Z.lor_comm (d ≪ 24)).
  rewrite (lor_shiftl_add b a 8), (lor_shiftl_add c _ 16), (lor_shiftl_add d _ 24); lia.
Qed.

Lemma md_spec_ext be f g str h0 len M : (∀ h b, bytes b → length b = 64%nat → f h b = g h b) → bytes M →
  md_spec be f str h0 len M = md_spec be g str h0 len M.
Proof.
  intros E HM. unfold md_spec. f_equal. apply iterate_ext; [done|by apply bytes_md_pad].
Qed.

(** ** Message schedules kept in sixteen words

    The rounds keep the last sixteen words of the schedule [w] in an array indexed
    modulo 16. *)

Definition ring (w : nat → Z) (X : list Z) (i : nat) : Prop :=
  length X = 16%nat ∧ ∀ s, (s < i)%nat → (i ≤ s + 16)%nat → nthZ X (s `mod` 16) = w s.

Lemma ring_insert w X i v : ring w X i → v = w i → ring w (<[(i `mod` 16)%nat := v]> X) (S i).
Proof.
  intros [Hl H] ->. split; [by rewrite length_insert|]. intros s H1 H2.
  rewrite nthZ_insert by (rewrite Hl; by apply Nat.mod_upper_bound).
  pose proof (Nat.div_mod i 16 ltac:(lia)). pose proof (Nat.div_mod s 16 ltac:(lia)).
  pose proof (Nat.mod_upper_bound i 16 ltac:(lia)). pose proof (Nat.mod_upper_bound s 16 ltac:(lia)).
  destruct (decide _) as [E|E].
  - assert (s = i) as ->; [|done]. rewrite <- E in *. lia.
  - apply H; [|lia]. destruct (decide (s = i)) as [->|]; [done|lia].
Qed.

(** The word that was put there [16 - k] steps ago. *)
Lemma ring_word w X i k : ring w X i → (16 ≤ i)%nat → (k < 16)%nat → nthZ X ((i + k) `mod` 16) = w (i + k - 16)%nat.
Proof.
  intros [_ H] Hi Hk. rewrite <- (H (i + k - 16)%nat) by lia. f_equal.
  replace (i + k)%nat with (i + k - 16 + 1 * 16)%nat at 1 by lia. by rewrite Nat.Div0.mod_add.
Qed.

Lemma ring_first w X i v : ring w X i → (i < 16)%nat → v = w i → ring w (<[i := v]> X) (S i).
Proof. intros H Hi ->. rewrite <- (Nat.mod_small i 16) at 1 by done. by apply ring_insert. Qed.

Lemma ring_start w : ring w (replicate 16 0) 0.
Proof. split; [done|lia]. Qed.

Lemma land_15 n : Nat.land n 15 = (n `mod` 16)%nat.
Proof. change 15%nat with (Nat.ones 4). by rewrite Nat.land_ones. Qed.

(** The words of a block, and a schedule that computes each further word from the ones before. *)
Definition block_word (load : list Z → Z) (b : list Z) (i : nat) : Z := load (take 4 (drop (4 * i) b)).

Fixpoint sched (first : list Z) (next : list Z → nat → Z) (n : nat) : list Z :=
  match n with
  | O => first
  | S n => let w := sched first next n in w ++ [next w n]
  end.

Section schedules.
Context (first : list Z) (next : list Z → nat → Z) (Hf : length first = 16%nat).

Lemma length_sched n : length (sched first next n) = (16 + n)%nat.
Proof. induction n as [|n IH]; cbn [sched]; [done|]. rewrite length_app, IH. cbn. lia. Qed.

Lemma sched_prefix n m t : (n ≤ m)%nat → (t < 16 + n)%nat → nthZ (sched first next m) t = nthZ (sched first next n) t.
Proof.
  induction 1 as [|m Hm IH]; intros Ht; [done|]. cbn [sched]. rewrite <- IH by done.
  unfold nthZ. apply app_nth1. rewrite length_sched. lia.
Qed.

Lemma sched_next m t : (16 ≤ t < 16 + m)%nat → nthZ (sched first next m) t = next (sched first next (t - 16)) (t - 16)%nat.
Proof.
  intros Ht. rewrite (sched_prefix (S (t - 16)) m t) by lia. cbn [sched]. unfold nthZ.
  rewrite app_nth2 by (rewrite length_sched; lia). rewrite length_sched. by replace (t - (16 + (t - 16)))%nat with 0%nat by lia.
Qed.
End schedules.

Lemma length_block_words load b : length (block_word load b <$> seq 0 16) = 16%nat.
Proof. by rewrite length_fmap, length_seq. Qed.

Lemma sched_first load b next m t : (t < 16)%nat →
  nthZ (sched (block_word load b <$> seq 0 16) next m) t = block_word load b t.
Proof.
  intros Ht. rewrite (sched_prefix (block_word load b <$> seq 0 16) next (length_block_words load b) 0 m) by lia. cbn [sched].
  apply nthZ_lookup. rewrite list_lookup_fmap, lookup_seq_lt by lia. done.
Qed.

Lemma u32_add_l a b : u32 (u32 a + b) = u32 (a + b).
Proof. apply Zplus_mod_idemp_l. Qed.
Lemma u32_add_r a b : u32 (a + u32 b) = u32 (a + b).
Proof. apply Zplus_mod_idemp_r. Qed.

Lemma foldl_cons {A B} (f : A → B → A) a x l : foldl f a (x :: l) = foldl f (f a x) l.
Proof. reflexivity. Qed.
