(* ===== verification/Sha2.v ===== *)
(** * The parts that the SHA-2 functions share

    [crypto/sha/sha256.c] and [crypto/sha/sha512.c] have the same rounds on words of
    different width: eight working variables, rounds written with renamed registers
    in groups of eight, and a digest that is the hash value written out and cut. *)

From S2P Require Import Prelude Md32.

(** The working variables [a] to [h]. *)
Definition regs : Type := Z * Z * Z * Z * Z * Z * Z * Z.

(** [a = ctx->h[0]], ... *)
Definition load_regs (h : list Z) : regs :=
  (nthZ h 0, nthZ h 1, nthZ h 2, nthZ h 3, nthZ h 4, nthZ h 5, nthZ h 6, nthZ h 7).

(** Eight rounds, each with the registers renamed. *)
Definition eight_rounds (round : nat → list Z → Z → Z → Z → Z → Z → Z → Z → Z → list Z * Z * Z)
    (i : nat) (st : list Z * regs) : list Z * regs :=
  let '(X, (a, b, c, d, e, f, g, h)) := st in
  let '(X, d, h) := round (i + 0)%nat X a b c d e f g h in
  let '(X, c, g) := round (i + 1)%nat X h a b c d e f g in
  let '(X, b, f) := round (i + 2)%nat X g h a b c d e f in
  let '(X, a, e) := round (i + 3)%nat X f g h a b c d e in
  let '(X, h, d) := round (i + 4)%nat X e f g h a b c d in
  let '(X, g, c) := round (i + 5)%nat X d e f g h a b c in
  let '(X, f, b) := round (i + 6)%nat X c d e f g h a b in
  let '(X, e, a) := round (i + 7)%nat X b c d e f g h a in
  (X, (a, b, c, d, e, f, g, h)).

(** The integer part of a cube root, bit by bit from [bits]; the primes. *)
Definition is_prime (p : Z) : bool := forallb (λ d, negb (p `mod` d =? 0)) (seqZ 2 (p - 2)).
Definition primes_below (n : Z) : list Z := List.filter is_prime (seqZ 2 (n - 2)).
Definition cube_root (bits n : Z) : Z :=
  foldl (λ r k, if (r + 2 ^ k) ^ 3 <=? n then r + 2 ^ k else r) 0 (reverse (seqZ 0 bits)).

Section rounds.
Context (W : nat → Z) (round : regs → nat → regs).

(** One renamed round: it writes what the round of the standard puts first and fifth. *)
Definition round_ok base lo hi (rnd : nat → list Z → Z → Z → Z → Z → Z → Z → Z → Z → list Z * Z * Z) : Prop :=
  ∀ i X a b c d e f g h, (lo ≤ i < hi)%nat → ring W X (base + i) →
    ∃ X' d' h', rnd i X a b c d e f g h = (X', d', h') ∧ ring W X' (S (base + i)) ∧
      round (a, b, c, d, e, f, g, h) (base + i)%nat = (h', a, b, c, d', e, f, g).

Lemma eight_rounds_spec base lo hi rnd i X r : round_ok base lo hi rnd → (lo ≤ i)%nat → (i + 8 ≤ hi)%nat → ring W X (base + i) →
  ring W (eight_rounds rnd i (X, r)).1 (base + i + 8) ∧ (eight_rounds rnd i (X, r)).2 = foldl round r (seq (base + i) 8).
Proof.
  intros Hr Hlo Hhi H0. destruct r as [[[[[[[a b'] c] d] e] f] g] h]. unfold eight_rounds.
  replace (seq (base + i) 8) with
    ((λ k, base + (i + k))%nat <$> [0; 1; 2; 3; 4; 5; 6; 7]%nat) by (cbn; repeat (f_equal; try lia)).
  rewrite <- (Nat.add_0_r i) in H0. rewrite <- Nat.add_assoc.
  destruct (Hr (i + 0)%nat X a b' c d e f g h ltac:(lia) H0) as (X1 & d1 & h1 & -> & H1 & R1). rewrite <- !Nat.add_succ_r in H1.
  destruct (Hr (i + 1)%nat X1 h1 a b' c d1 e f g ltac:(lia) H1) as (X2 & c1 & g1 & -> & H2 & R2). rewrite <- !Nat.add_succ_r in H2.
  destruct (Hr (i + 2)%nat X2 g1 h1 a b' c1 d1 e f ltac:(lia) H2) as (X3 & b1 & f1 & -> & H3 & R3). rewrite <- !Nat.add_succ_r in H3.
  destruct (Hr (i + 3)%nat X3 f1 g1 h1 a b1 c1 d1 e ltac:(lia) H3) as (X4 & a1 & e1 & -> & H4 & R4). rewrite <- !Nat.add_succ_r in H4.
  destruct (Hr (i + 4)%nat X4 e1 f1 g1 h1 a1 b1 c1 d1 ltac:(lia) H4) as (X5 & h2 & d2 & -> & H5 & R5). rewrite <- !Nat.add_succ_r in H5.
  destruct (Hr (i + 5)%nat X5 d2 e1 f1 g1 h2 a1 b1 c1 ltac:(lia) H5) as (X6 & g2 & c2 & -> & H6 & R6). rewrite <- !Nat.add_succ_r in H6.
  destruct (Hr (i + 6)%nat X6 c2 d2 e1 f1 g2 h2 a1 b1 ltac:(lia) H6) as (X7 & f2 & b2 & -> & H7 & R7). rewrite <- !Nat.add_succ_r in H7.
  destruct (Hr (i + 7)%nat X7 b2 c2 d2 e1 f2 g2 h2 a1 ltac:(lia) H7) as (X8 & e2 & a2 & -> & H8 & R8). rewrite <- !Nat.add_succ_r in H8.
  cbn [fst snd foldl fmap list_fmap]. rewrite R1, R2, R3, R4, R5, R6, R7, R8. done.
Qed.

End rounds.

(** The digest is a prefix of the words written out. *)
Lemma words_prefix w n : ∀ h, take (w * n) (concat (be_store w <$> h)) = concat (be_store w <$> take n h).
Proof.
  induction n as [|n IH]; intros h; [by rewrite Nat.mul_0_r, !take_0|].
  destruct h as [|x h]; [cbn; apply take_nil|]. cbn [take]. rewrite !fmap_cons. cbn [concat].
  replace (w * S n)%nat with (length (be_store w x) + w * n)%nat by (rewrite length_be_store; lia).
  by rewrite take_app_add, IH.
Qed.

