(* ===== verification/Sha256.v ===== *)
(** * SHA-256 and SHA-224

    Models [crypto/sha/sha256.c] on top of the collector of [Md32]: the initial
    values, the block function in its two builds (the loop of
    [OPENSSL_SMALL_FOOTPRINT], and the unrolled rounds that rename the registers
    instead of moving them), [HASH_MAKE_STRING] with the truncated lengths, and the
    one-shot functions.

    The specification is FIPS 180-4: the message schedule of 64 words, one round that
    moves the registers, the padded message.  Both builds compute it, for every
    way to cut the message into updates. *)

From S2P Require Import Prelude Md32 Sha2.

Definition SHA224_DIGEST_LENGTH : Z := 28.
Definition SHA256_DIGEST_LENGTH : Z := 32.

Definition SHA224_Init : HASH_CTX :=
  HCtx [0xc1059ed8; 0x367cd507; 0x3070dd17; 0xf70e5939; 0xffc00b31; 0x68581511; 0x64f98fa7; 0xbefa4fa4]
    0 0 (replicate 64 0) 0 SHA224_DIGEST_LENGTH.

Definition SHA256_Init : HASH_CTX :=
  HCtx [0x6a09e667; 0xbb67ae85; 0x3c6ef372; 0xa54ff53a; 0x510e527f; 0x9b05688c; 0x1f83d9ab; 0x5be0cd19]
    0 0 (replicate 64 0) 0 SHA256_DIGEST_LENGTH.

(** [HASH_MAKE_STRING] *)
Definition make_string (h : list Z) (md_len : Z) : option (list Z) :=
  let words n := concat (HOST_l2c_be <$> take (Z.to_nat n) h) in
  if md_len =? SHA224_DIGEST_LENGTH then Some (words (SHA224_DIGEST_LENGTH `div` 4))
  else if md_len =? SHA256_DIGEST_LENGTH then Some (words (SHA256_DIGEST_LENGTH `div` 4))
  else if SHA256_DIGEST_LENGTH <? md_len then None
  else Some (words (md_len `div` 4)).

(** Four constants to a row. *)
Definition K256 : list Z := Eval cbv in concat [
  [0x428a2f98; 0x71374491; 0xb5c0fbcf; 0xe9b5dba5]; [0x3956c25b; 0x59f111f1; 0x923f82a4; 0xab1c5ed5];
  [0xd807aa98; 0x12835b01; 0x243185be; 0x550c7dc3]; [0x72be5d74; 0x80deb1fe; 0x9bdc06a7; 0xc19bf174];
  [0xe49b69c1; 0xefbe4786; 0x0fc19dc6; 0x240ca1cc]; [0x2de92c6f; 0x4a7484aa; 0x5cb0a9dc; 0x76f988da];
  [0x983e5152; 0xa831c66d; 0xb00327c8; 0xbf597fc7]; [0xc6e00bf3; 0xd5a79147; 0x06ca6351; 0x14292967];
  [0x27b70a85; 0x2e1b2138; 0x4d2c6dfc; 0x53380d13]; [0x650a7354; 0x766a0abb; 0x81c2c92e; 0x92722c85];
  [0xa2bfe8a1; 0xa81a664b; 0xc24b8b70; 0xc76c51a3]; [0xd192e819; 0xd6990624; 0xf40e3585; 0x106aa070];
  [0x19a4c116; 0x1e376c08; 0x2748774c; 0x34b0bcb5]; [0x391c0cb3; 0x4ed8aa4a; 0x5b9cca4f; 0x682e6ff3];
  [0x748f82ee; 0x78a5636f; 0x84c87814; 0x8cc70208]; [0x90befffa; 0xa4506ceb; 0xbef9a3f7; 0xc67178f2]].

Definition Sigma0 x := Z.lxor (Z.lxor (ROTATE x 30) (ROTATE x 19)) (ROTATE x 10).
Definition Sigma1 x := Z.lxor (Z.lxor (ROTATE x 26) (ROTATE x 21)) (ROTATE x 7).
Definition sigma0 x := Z.lxor (Z.lxor (ROTATE x 25) (ROTATE x 14)) (x ≫ 3).
Definition sigma1 x := Z.lxor (Z.lxor (ROTATE x 15) (ROTATE x 13)) (x ≫ 10).
Definition Ch x y z := Z.lxor (Z.land x y) (Z.land (u32 (Z.lnot x)) z).
Definition Maj x y z := Z.lxor (Z.lxor (Z.land x y) (Z.land x z)) (Z.land y z).

(** [ctx->h[0] += a], ... *)
Definition add_regs (hs : list Z) (r : regs) : list Z :=
  let '(a, b, c, d, e, f, g, h) := r in
  [u32 (nthZ hs 0 + a); u32 (nthZ hs 1 + b); u32 (nthZ hs 2 + c); u32 (nthZ hs 3 + d);
   u32 (nthZ hs 4 + e); u32 (nthZ hs 5 + f); u32 (nthZ hs 6 + g); u32 (nthZ hs 7 + h)].

(** ** The small build *)

(** The tail of both loops, from [T1 += h + Sigma1(e) + ...] on. *)
Definition small_step (i : nat) (T1 : Z) (r : regs) : regs :=
  let '(a, b, c, d, e, f, g, h) := r in
  let T1 := u32 (T1 + (h + Sigma1 e + Ch e f g + nthZ K256 i)) in
  let T2 := u32 (Sigma0 a + Maj a b c) in
  (u32 (T1 + T2), a, b, c, u32 (d + T1), e, f, g).

(** [T1 = X[i & 0xf] += sigma0(X[(i + 1) & 0x0f]) + sigma1(X[(i + 14) & 0x0f]) + X[(i + 9) & 0xf]] *)
Definition next_word (X : list Z) (i : nat) : Z :=
  let s0 := sigma0 (nthZ X (Nat.land (i + 1) 0x0f)) in
  let s1 := sigma1 (nthZ X (Nat.land (i + 14) 0x0f)) in
  u32 (nthZ X (Nat.land i 0xf) + (s0 + s1 + nthZ X (Nat.land (i + 9) 0xf))).

Fixpoint small_first (data X : list Z) (r : regs) (i n : nat) : list Z * regs :=
  match n with
  | O => (X, r)
  | S n =>
    let l := HOST_c2l_be (drop (4 * i) data) in
    small_first data (<[i := l]> X) (small_step i l r) (S i) n
  end.

Fixpoint small_rest (X : list Z) (r : regs) (i n : nat) : regs :=
  match n with
  | O => r
  | S n =>
    let T1 := next_word X i in
    small_rest (<[Nat.land i 0xf := T1]> X) (small_step i T1 r) (S i) n
  end.

(** One block. *)
Definition compress_small (hs data : list Z) : list Z :=
  let '(X, r) := small_first data (replicate 16 0) (load_regs hs) 0 16 in
  add_regs hs (small_rest X r 16 48).

(** ** The unrolled build *)

(** [ROUND_00_15] returns the two registers it writes, [d] and [h]. *)
Definition ROUND_00_15 (i : nat) (T1 a b c d e f g h : Z) : Z * Z :=
  let T1 := u32 (T1 + (h + Sigma1 e + Ch e f g + nthZ K256 i)) in
  let h := u32 (Sigma0 a + Maj a b c) in
  (u32 (d + T1), u32 (h + T1)).

(** [T1 = X[i] = l; ROUND_00_15(i, ...)], and [ROUND_16_63(i, ..., X)]. *)
Definition load_round (data : list Z) (i : nat) (X : list Z) (a b c d e f g h : Z) : list Z * Z * Z :=
  let l := HOST_c2l_be (drop (4 * i) data) in
  let '(d, h) := ROUND_00_15 i l a b c d e f g h in
  (<[i := l]> X, d, h).
Definition ROUND_16_63 (i : nat) (X : list Z) (a b c d e f g h : Z) : list Z * Z * Z :=
  let T1 := next_word X i in
  let '(d, h) := ROUND_00_15 i T1 a b c d e f g h in
  (<[Nat.land i 0x0f := T1]> X, d, h).

Fixpoint rounds_16_63 (st : list Z * regs) (i n : nat) : list Z * regs :=
  match n with
  | O => st
  | S n => rounds_16_63 (eight_rounds ROUND_16_63 i st) (i + 8) n
  end.

Definition compress_unrolled (hs data : list Z) : list Z :=
  let st := eight_rounds (load_round data) 8 (eight_rounds (load_round data) 0 (replicate 16 0, load_regs hs)) in
  add_regs hs (rounds_16_63 st 16 6).2.

(** ** The hash functions of the two builds *)

Definition sha256_compress (small : bool) : list Z → list Z → list Z :=
  if small then compress_small else compress_unrolled.
Definition sha256_block_data_order (small : bool) := block_data_order (sha256_compress small).
Definition SHA256_Update (small : bool) := HASH_UPDATE 64 (sha256_compress small).
Definition SHA256_Transform (small : bool) := HASH_TRANSFORM (sha256_compress small).
Definition SHA256_Final (small : bool) := HASH_FINAL true (sha256_compress small) make_string.
Definition SHA224_Update := SHA256_Update.
Definition SHA224_Final := SHA256_Final.

Definition SHA224 (small : bool) (data : list Z) : option (list Z) :=
  (SHA256_Final small (SHA256_Update small SHA224_Init data (Z.of_nat (length data)))).1.
Definition SHA256 (small : bool) (data : list Z) : option (list Z) :=
  (SHA256_Final small (SHA256_Update small SHA256_Init data (Z.of_nat (length data)))).1.

(** ** Specification: FIPS 180-4 *)

(** The constants are bits of the fractional parts of roots of the first primes: 32
    bits of the cube roots for the rounds, the first and the second 32 bits of the
    square roots for the initial values. *)
Definition fips_K : list Z := (λ p, u32 (cube_root 36 (p * 2 ^ 96))) <$> primes_below 312.
Definition fips_H256 : list Z := (λ p, u32 (Z.sqrt (p * 2 ^ 64))) <$> take 8 (primes_below 312).
Definition fips_H224 : list Z := (λ p, u32 (Z.sqrt (p * 2 ^ 128))) <$> take 8 (drop 8 (primes_below 312)).

Definition ROTR (n x : Z) : Z := u32 (Z.lor (x ≫ n) (x ≪ (32 - n))).
Definition bSigma0 x := Z.lxor (ROTR 2 x) (Z.lxor (ROTR 13 x) (ROTR 22 x)).
Definition bSigma1 x := Z.lxor (ROTR 6 x) (Z.lxor (ROTR 11 x) (ROTR 25 x)).
Definition ssigma0 x := Z.lxor (ROTR 7 x) (Z.lxor (ROTR 18 x) (x ≫ 3)).
Definition ssigma1 x := Z.lxor (ROTR 17 x) (Z.lxor (ROTR 19 x) (x ≫ 10)).

(** The first [16 + n] words of the message schedule of a block. *)
Definition next_W (w : list Z) (n : nat) : Z :=
  u32 (ssigma1 (nthZ w (n + 14)) + nthZ w (n + 9) + ssigma0 (nthZ w (n + 1)) + nthZ w n).
Definition schedule (b : list Z) (n : nat) : list Z := sched (block_word be_load b <$> seq 0 16) next_W n.

Definition fips_round (k w : Z) (r : regs) : regs :=
  let '(a, b, c, d, e, f, g, h) := r in
  let T1 := h + bSigma1 e + Ch e f g + k + w in
  let T2 := bSigma0 a + Maj a b c in
  (u32 (T1 + T2), a, b, c, u32 (d + T1), e, f, g).

Definition fips_compress (hs b : list Z) : list Z :=
  let ws := schedule b 48 in
  add_regs hs (foldl (λ r t, fips_round (nthZ fips_K t) (nthZ ws t) r) (load_regs hs) (seq 0 64)).

(** The digest: the left [len] bytes of the last hash value. *)
Definition sha256_fips (h0 : list Z) (len : nat) (M : list Z) : list Z :=
  take len (concat (be_store 4 <$> iterate 64 fips_compress h0 (md_pad 64 8 true M))).
Definition SHA256_fips : list Z → list Z := sha256_fips fips_H256 32.
Definition SHA224_fips : list Z → list Z := sha256_fips fips_H224 28.

(** ** Proofs *)

Lemma ROTATE_ROTR n x : ROTATE x (32 - n) = ROTR n x.
Proof. unfold ROTATE, ROTR. rewrite Z.lor_comm. do 3 f_equal. lia. Qed.

Lemma Sigma0_fips x : Sigma0 x = bSigma0 x.
Proof. unfold Sigma0, bSigma0. rewrite <- Z.lxor_assoc. by rewrite <- !ROTATE_ROTR. Qed.
Lemma Sigma1_fips x : Sigma1 x = bSigma1 x.
Proof. unfold Sigma1, bSigma1. rewrite <- Z.lxor_assoc. by rewrite <- !ROTATE_ROTR. Qed.
Lemma sigma0_fips x : sigma0 x = ssigma0 x.
Proof. unfold sigma0, ssigma0. rewrite <- Z.lxor_assoc. by rewrite <- !ROTATE_ROTR. Qed.
Lemma sigma1_fips x : sigma1 x = ssigma1 x.
Proof. unfold sigma1, ssigma1. rewrite <- Z.lxor_assoc. by rewrite <- !ROTATE_ROTR. Qed.

Lemma K256_fips : K256 = fips_K.
Proof. vm_compute. reflexivity. Qed.
Lemma SHA256_Init_fips : hash SHA256_Init = fips_H256.
Proof. vm_compute. reflexivity. Qed.
Lemma SHA224_Init_fips : hash SHA224_Init = fips_H224.
Proof. vm_compute. reflexivity. Qed.

Section block.
Context (b : list Z) (Hb : bytes b) (Hlen : length b = 64%nat).

(** Word [t] of the schedule and round [t]. *)
Definition W (t : nat) : Z := nthZ (schedule b 48) t.
Definition round (r : regs) (t : nat) : regs := fips_round (nthZ fips_K t) (W t) r.

Lemma W_first t : (t < 16)%nat → W t = HOST_c2l_be (drop (4 * t) b).
Proof. intros Ht. rewrite HOST_c2l_be_load by (assumption || lia). by apply sched_first. Qed.

Lemma W_next t : (16 ≤ t < 64)%nat → W t = u32 (ssigma1 (W (t - 2)) + W (t - 7) + ssigma0 (W (t - 15)) + W (t - 16)).
Proof.
  intros Ht. unfold W, schedule. rewrite (sched_next (block_word be_load b <$> seq 0 16) next_W (length_block_words be_load b) 48 t) by lia.
  rewrite !(sched_prefix (block_word be_load b <$> seq 0 16) next_W (length_block_words be_load b) (t - 16) 48) by lia. unfold next_W.
  by replace (t - 16 + 14)%nat with (t - 2)%nat by lia; replace (t - 16 + 9)%nat with (t - 7)%nat by lia;
    replace (t - 16 + 1)%nat with (t - 15)%nat by lia.
Qed.

Lemma next_word_spec X i : ring W X i → (16 ≤ i < 64)%nat → next_word X i = W i.
Proof.
  intros H Hi. unfold next_word. rewrite (W_next i) by done. rewrite <- sigma0_fips, <- sigma1_fips.
  rewrite !land_15, !(ring_word W) by (assumption || lia). rewrite <- (Nat.add_0_r i) at 1. rewrite (ring_word W) by (assumption || lia).
  replace (i + 0 - 16)%nat with (i - 16)%nat by lia. replace (i + 1 - 16)%nat with (i - 15)%nat by lia.
  replace (i + 14 - 16)%nat with (i - 2)%nat by lia. replace (i + 9 - 16)%nat with (i - 7)%nat by lia. f_equal. lia.
Qed.

Lemma small_step_round i r : small_step i (W i) r = round r i.
Proof.
  destruct r as [[[[[[[a b'] c] d] e] f] g] h]. unfold small_step, round, fips_round.
  rewrite <- K256_fips, Sigma0_fips, Sigma1_fips, u32_add_l, !u32_add_r. repeat (f_equal; try lia).
Qed.

Lemma small_first_spec n : ∀ i X r, ring W X i → (i + n ≤ 16)%nat →
  ring W (small_first b X r i n).1 (i + n) ∧ (small_first b X r i n).2 = foldl round r (seq i n).
Proof.
  induction n as [|n IH]; intros i X r H Hi; cbn [small_first seq foldl].
  { by rewrite Nat.add_0_r. }
  rewrite <- W_first, small_step_round, <- Nat.add_succ_comm by lia. apply IH; [apply ring_first; [done|lia|done]|lia].
Qed.

Lemma small_rest_spec n : ∀ i X r, ring W X i → (16 ≤ i)%nat → (i + n ≤ 64)%nat →
  small_rest X r i n = foldl round r (seq i n).
Proof.
  induction n as [|n IH]; intros i X r H Hi Hn; cbn [small_rest seq foldl]; [done|].
  rewrite next_word_spec, small_step_round, land_15 by (assumption || lia). apply IH; [by apply ring_insert|lia|lia].
Qed.

Lemma fips_compress_rounds hs : fips_compress hs b = add_regs hs (foldl round (load_regs hs) (seq 0 64)).
Proof. unfold fips_compress. cbv zeta. unfold round, W. reflexivity. Qed.

Lemma compress_small_fips hs : compress_small hs b = fips_compress hs b.
Proof.
  unfold compress_small. destruct (small_first_spec 16 0 (replicate 16 0) (load_regs hs) (ring_start W) ltac:(lia)) as [H1 H2].
  destruct (small_first _ _ _ _ _) as [X r]. cbn [fst snd] in *. subst r.
  rewrite (small_rest_spec 48 16) by (assumption || lia). by rewrite fips_compress_rounds, <- foldl_app, <- seq_app.
Qed.

Lemma ROUND_00_15_round i a b' c d e f g h : ∃ d' h',
  ROUND_00_15 i (W i) a b' c d e f g h = (d', h') ∧ round (a, b', c, d, e, f, g, h) i = (h', a, b', c, d', e, f, g).
Proof.
  eexists _, _. split; [reflexivity|]. rewrite <- small_step_round. unfold small_step. do 7 f_equal. f_equal. lia.
Qed.

Lemma load_round_ok : round_ok W round 0 0 16 (load_round b).
Proof.
  intros i X a b' c d e f g h Hi H. destruct (ROUND_00_15_round i a b' c d e f g h) as (d' & h' & E & R).
  eexists _, d', h'. unfold load_round. rewrite <- W_first, E by lia. split; [done|]. split; [|done]. apply ring_first; [done|lia|done].
Qed.

Lemma ROUND_16_63_ok : round_ok W round 0 16 64 ROUND_16_63.
Proof.
  intros i X a b' c d e f g h Hi H. destruct (ROUND_00_15_round i a b' c d e f g h) as (d' & h' & E & R).
  eexists _, d', h'. unfold ROUND_16_63. rewrite next_word_spec, E, land_15 by (assumption || lia). split; [done|]. split; [|done]. by apply ring_insert.
Qed.

Lemma rounds_16_63_spec n : ∀ i X r, ring W X i → (16 ≤ i)%nat → (i + 8 * n ≤ 64)%nat →
  (rounds_16_63 (X, r) i n).2 = foldl round r (seq i (8 * n)).
Proof.
  induction n as [|n IH]; intros i X r H Hi Hn; [done|]. cbn [rounds_16_63].
  destruct (eight_rounds_spec W round 0 16 64 ROUND_16_63 i X r ROUND_16_63_ok Hi ltac:(lia) H) as [H1 H2].
  destruct (eight_rounds _ _ _) as [X' r']. cbn [fst snd] in *. subst r'.
  rewrite (IH (i + 8)%nat) by (assumption || lia). rewrite <- foldl_app, <- seq_app. f_equal. f_equal. lia.
Qed.

Lemma compress_unrolled_fips hs : compress_unrolled hs b = fips_compress hs b.
Proof.
  unfold compress_unrolled.
  destruct (eight_rounds_spec W round 0 0 16 _ 0 _ (load_regs hs) load_round_ok ltac:(lia) ltac:(lia) (ring_start W)) as [H1 H2].
  destruct (eight_rounds _ 0 _) as [X r]. cbn [fst snd] in H1, H2. subst r.
  destruct (eight_rounds_spec W round 0 0 16 _ 8 X (foldl round (load_regs hs) (seq 0 8)) load_round_ok ltac:(lia) ltac:(lia) H1) as [H3 H4].
  destruct (eight_rounds _ 8 _) as [X' r]. cbn [fst snd] in H3, H4. subst r.
  rewrite (rounds_16_63_spec 6 16) by (assumption || lia). by rewrite fips_compress_rounds, <- !foldl_app, <- !seq_app.
Qed.
End block.

Lemma sha256_compress_fips small hs b : bytes b → length b = 64%nat → sha256_compress small hs b = fips_compress hs b.
Proof. intros Hb Hl. destruct small; [exact (compress_small_fips b Hb Hl hs)|exact (compress_unrolled_fips b Hb Hl hs)]. Qed.

Lemma length_fips_compress hs b : length (fips_compress hs b) = 8%nat.
Proof. unfold fips_compress. cbv zeta. destruct (foldl _ _ _) as [[[[[[[? ?] ?] ?] ?] ?] ?] ?]. done. Qed.

Lemma make_string_spec h n : (n ≤ 8)%nat → make_string h (4 * Z.of_nat n) = Some (take (4 * n) (concat (be_store 4 <$> h))).
Proof.
  intros Hn. rewrite words_prefix.
  assert (∀ m, concat (HOST_l2c_be <$> take m h) = concat (be_store 4 <$> take m h)) as E
    by (intros; f_equal; apply list_fmap_ext; intros; apply HOST_l2c_be_spec).
  unfold make_string, SHA224_DIGEST_LENGTH, SHA256_DIGEST_LENGTH. rewrite !E.
  destruct (Z.eqb_spec (4 * Z.of_nat n) 28); [by replace n with 7%nat by lia|].
  destruct (Z.eqb_spec (4 * Z.of_nat n) 32); [by replace n with 8%nat by lia|].
  destruct (Z.ltb_spec 32 (4 * Z.of_nat n)); [lia|]. rewrite Z.mul_comm, Z.div_mul by lia. by rewrite Nat2Z.id.
Qed.

(** Any message length that is a multiple of four, up to eight words. *)
Lemma sha256_pieces small h0 n ps : (n ≤ 8)%nat → Forall short_piece ps → bytes (concat ps) →
  (SHA256_Final small (hash_pieces 64 (sha256_compress small) (hash_init h0 (4 * Z.of_nat n)) ps)).1 =
  Some (sha256_fips h0 (4 * n) (concat ps)).
Proof.
  intros Hn Hps Hb. unfold SHA256_Final. rewrite hash_pieces_final by (done || lia).
  rewrite (md_spec_ext true _ fips_compress) by (done || apply sha256_compress_fips).
  unfold md_spec. by rewrite make_string_spec.
Qed.

(** SHA-256 and SHA-224 are the hash functions of FIPS 180-4: in both builds,
    however the message is cut into calls of the update function, the final function
    succeeds and writes the digest of the whole message, with the constants that the
    standard derives from the roots of the first primes. *)
Theorem SHA256_correct small ps : Forall short_piece ps → bytes (concat ps) →
  let updates init := hash_pieces 64 (sha256_compress small) init ps in
  (SHA256_Final small (updates SHA256_Init)).1 = Some (SHA256_fips (concat ps)) ∧
  (SHA224_Final small (updates SHA224_Init)).1 = Some (SHA224_fips (concat ps)).
Proof.
  intros Hps Hb updates. unfold SHA224_Final, SHA256_fips, SHA224_fips. rewrite <- SHA256_Init_fips, <- SHA224_Init_fips.
  split; [exact (sha256_pieces small _ 8 ps ltac:(lia) Hps Hb)|exact (sha256_pieces small _ 7 ps ltac:(lia) Hps Hb)].
Qed.

Lemma SHA256_correct_witness :
  (SHA256_Final true (hash_pieces 64 (sha256_compress true) SHA256_Init [[97; 98]; []; [99]])).1 = Some (SHA256_fips [97; 98; 99]).
Proof.
  apply (SHA256_correct true [[97; 98]; []; [99]]).
  - apply (bool_decide_eq_true_1 _). vm_compute. reflexivity.
  - apply (bool_decide_eq_true_1 _). vm_compute. reflexivity.
Defined.

(** The one-shot functions. *)
Corollary SHA256_one_shot small M : bytes M → Z.of_nat (length M) < 2 ^ 64 →
  SHA256 small M = Some (SHA256_fips M) ∧ SHA224 small M = Some (SHA224_fips M).
Proof.
  intros HM Hl. unfold SHA256, SHA224, SHA256_fips, SHA224_fips. rewrite <- SHA256_Init_fips, <- SHA224_Init_fips.
  assert (Forall short_piece [M]) by (apply Forall_cons_2; [exact Hl|apply Forall_nil_2]).
  assert (concat [M] = M) as E by (cbn; apply app_nil_r). rewrite <- E in HM.
  pose proof (sha256_pieces small (hash SHA256_Init) 8 [M] ltac:(lia) ltac:(done) HM) as H8.
  pose proof (sha256_pieces small (hash SHA224_Init) 7 [M] ltac:(lia) ltac:(done) HM) as H7.
  rewrite E in H7, H8. split; [exact H8|exact H7].
Qed.

(** The digests of FIPS 180-4's example and of the empty message. *)
Example SHA256_examples :
  (be_load <$> SHA256 true [97; 98; 99] = Some 0xba7816bf8f01cfea414140de5dae2223b00361a396177a9cb410ff61f20015ad) ∧
  (be_load <$> SHA256 false [] = Some 0xe3b0c44298fc1c149afbf4c8996fb92427ae41e4649b934ca495991b7852b855) ∧
  (be_load <$> SHA224 false [97; 98; 99] = Some 0x23097d223405d8228642a477bda255b32aadbce4bda0b3f7e36c9da7).
Proof. vm_compute. done. Qed.
