(* ===== verification/Sha512.v ===== *)
(** * SHA-512 and SHA-384

    Models [crypto/sha/sha512.c]: its own collector, with blocks of 128 bytes and a
    count of 128 bits, and the block function in its two builds, the one for 32-bit
    x86 that slides an array under the working variables and the one with renamed
    registers.  [SHA512_Update] is told whether it may pass the input on as it lies or
    has to copy unaligned blocks into the buffer first; the initialising functions
    do not clear the buffer.

    The specification is FIPS 180-4. *)

From S2P Require Import Prelude Md32 Sha2.

(** [SHA512_CTX] has the members of the contexts of [md32_common.h], with words of 64
    bits and a buffer [u.p] of 128 bytes. *)
Definition SHA512_CBLOCK : Z := 128.
Definition SHA384_DIGEST_LENGTH : Z := 48.
Definition SHA512_DIGEST_LENGTH : Z := 64.

Definition SHA384_Init (ctx : HASH_CTX) : HASH_CTX :=
  HCtx [0xcbbb9d5dc1059ed8; 0x629a292a367cd507; 0x9159015a3070dd17; 0x152fecd8f70e5939;
        0x67332667ffc00b31; 0x8eb44a8768581511; 0xdb0c2e0d64f98fa7; 0x47b5481dbefa4fa4]
    0 0 (hdata ctx) 0 SHA384_DIGEST_LENGTH.

Definition SHA512_Init (ctx : HASH_CTX) : HASH_CTX :=
  HCtx [0x6a09e667f3bcc908; 0xbb67ae8584caa73b; 0x3c6ef372fe94f82b; 0xa54ff53a5f1d36f1;
        0x510e527fade682d1; 0x9b05688c2b3e6c1f; 0x1f83d9abfb41bd6b; 0x5be0cd19137e2179]
    0 0 (hdata ctx) 0 SHA512_DIGEST_LENGTH.

(** ** The collector *)

Section collector.
Context (compress : list Z → list Z → list Z).

Definition SHA512_Transform (unaligned : bool) (ctx : HASH_CTX) (data : list Z) : HASH_CTX :=
  let '(ctx, data) :=
    if unaligned then (set_hdata ctx (take 128 data) (hnum ctx), take 128 data) else (ctx, data) in
  set_hash ctx (iter_blocks 128 compress (hash ctx) data 1).

Definition count_bits128 ctx (len : Z) : HASH_CTX :=
  let l := Z.land (u64 (Nl ctx + u64 (len ≪ 3))) 0xffffffffffffffff in
  let nh := if l <? Nl ctx then u64 (Nh ctx + 1) else Nh ctx in
  HCtx (hash ctx) l (u64 (nh + len ≫ 61)) (hdata ctx) (hnum ctx) (md_len ctx).

(** The loop for unaligned data: [memcpy(p, data, sizeof(c->u))], one block, on. *)
Fixpoint copy_blocks (fuel : nat) ctx (data : list Z) (len : Z) : HASH_CTX * list Z * Z :=
  match fuel with
  | O => (ctx, data, len)
  | S fuel =>
    if 128 <=? len then
      let ctx := set_hdata ctx (take 128 data) (hnum ctx) in
      let ctx := set_hash ctx (iter_blocks 128 compress (hash ctx) (hdata ctx) 1) in
      copy_blocks fuel ctx (drop 128 data) (len - 128)
    else (ctx, data, len)
  end.

(** From [if (len >= sizeof(c->u))] on. *)
Definition update_blocks128 (unaligned : bool) ctx (data : list Z) (len : Z) : HASH_CTX :=
  let '(ctx, data, len) :=
    if 128 <=? len then
      if unaligned then copy_blocks (Z.to_nat len) ctx data len
      else
        let ctx := set_hash ctx (iter_blocks 128 compress (hash ctx) data (Z.to_nat (len `div` 128))) in
        let rest := len `mod` 128 in
        (ctx, drop (Z.to_nat (len - rest)) data, rest)
    else (ctx, data, len) in
  if negb (len =? 0) then set_hdata ctx (splice (hdata ctx) 0 (take (Z.to_nat len) data)) len else ctx.

Definition SHA512_Update (unaligned : bool) ctx (data : list Z) (len : Z) : HASH_CTX :=
  if len =? 0 then ctx
  else
    let ctx := count_bits128 ctx len in
    if negb (hnum ctx =? 0) then
      let n := 128 - hnum ctx in
      if len <? n then
        set_hdata ctx (splice (hdata ctx) (Z.to_nat (hnum ctx)) (take (Z.to_nat len) data)) (u32 (hnum ctx + len))
      else
        let p := splice (hdata ctx) (Z.to_nat (hnum ctx)) (take (Z.to_nat n) data) in
        let ctx := set_hdata ctx p 0 in
        let ctx := set_hash ctx (iter_blocks 128 compress (hash ctx) p 1) in
        update_blocks128 unaligned ctx (drop (Z.to_nat n) data) (len - n)
    else update_blocks128 unaligned ctx data len.

(** [(uint8_t)(t >> 56), ..., (uint8_t)(t)] *)
Definition word_bytes (t : Z) : list Z :=
  [u8 (t ≫ 56); u8 (t ≫ 48); u8 (t ≫ 40); u8 (t ≫ 32); u8 (t ≫ 24); u8 (t ≫ 16); u8 (t ≫ 8); u8 t].

(** The switch on [md_len]. *)
Definition make_string512 (h : list Z) (md_len : Z) : option (list Z) :=
  if md_len =? SHA384_DIGEST_LENGTH then Some (concat (word_bytes <$> take (Z.to_nat (SHA384_DIGEST_LENGTH `div` 8)) h))
  else if md_len =? SHA512_DIGEST_LENGTH then Some (concat (word_bytes <$> take (Z.to_nat (SHA512_DIGEST_LENGTH `div` 8)) h))
  else None.

(** [None] is the return value 0; [md_null] says that no place for the digest is given. *)
Definition SHA512_Final (md_null : bool) ctx : option (list Z) * HASH_CTX :=
  let p := splice (hdata ctx) (Z.to_nat (hnum ctx)) [0x80] in
  let n := hnum ctx + 1 in
  let '(ctx, p, n) :=
    if 112 <? n then
      let p := splice p (Z.to_nat n) (replicate (Z.to_nat (128 - n)) 0) in
      (set_hash ctx (iter_blocks 128 compress (hash ctx) p 1), p, 0)
    else (ctx, p, n) in
  let p := splice p (Z.to_nat n) (replicate (Z.to_nat (128 - 16 - n)) 0) in
  let p := splice p 112 (word_bytes (Nh ctx) ++ word_bytes (Nl ctx)) in
  let ctx := set_hdata (set_hash ctx (iter_blocks 128 compress (hash ctx) p 1)) p (hnum ctx) in
  if md_null then (None, ctx) else (make_string512 (hash ctx) (md_len ctx), ctx).
End collector.

(** ** The block function *)

Definition K512 : list Z := [
  0x428a2f98d728ae22; 0x7137449123ef65cd; 0xb5c0fbcfec4d3b2f; 0xe9b5dba58189dbbc; 0x3956c25bf348b538;
  0x59f111f1b605d019; 0x923f82a4af194f9b; 0xab1c5ed5da6d8118; 0xd807aa98a3030242; 0x12835b0145706fbe;
  0x243185be4ee4b28c; 0x550c7dc3d5ffb4e2; 0x72be5d74f27b896f; 0x80deb1fe3b1696b1; 0x9bdc06a725c71235;
  0xc19bf174cf692694; 0xe49b69c19ef14ad2; 0xefbe4786384f25e3; 0x0fc19dc68b8cd5b5; 0x240ca1cc77ac9c65;
  0x2de92c6f592b0275; 0x4a7484aa6ea6e483; 0x5cb0a9dcbd41fbd4; 0x76f988da831153b5; 0x983e5152ee66dfab;
  0xa831c66d2db43210; 0xb00327c898fb213f; 0xbf597fc7beef0ee4; 0xc6e00bf33da88fc2; 0xd5a79147930aa725;
  0x06ca6351e003826f; 0x142929670a0e6e70; 0x27b70a8546d22ffc; 0x2e1b21385c26c926; 0x4d2c6dfc5ac42aed;
  0x53380d139d95b3df; 0x650a73548baf63de; 0x766a0abb3c77b2a8; 0x81c2c92e47edaee6; 0x92722c851482353b;
  0xa2bfe8a14cf10364; 0xa81a664bbc423001; 0xc24b8b70d0f89791; 0xc76c51a30654be30; 0xd192e819d6ef5218;
  0xd69906245565a910; 0xf40e35855771202a; 0x106aa07032bbd1b8; 0x19a4c116b8d2d0c8; 0x1e376c085141ab53;
  0x2748774cdf8eeb99; 0x34b0bcb5e19b48a8; 0x391c0cb3c5c95a63; 0x4ed8aa4ae3418acb; 0x5b9cca4f7763e373;
  0x682e6ff3d6b2b8a3; 0x748f82ee5defb2fc; 0x78a5636f43172f60; 0x84c87814a1f0ab72; 0x8cc702081a6439ec;
  0x90befffa23631e28; 0xa4506cebde82bde9; 0xbef9a3f7b2c67915; 0xc67178f2e372532b; 0xca273eceea26619c;
  0xd186b8c721c0c207; 0xeada7dd6cde0eb1e; 0xf57d4f7fee6ed178; 0x06f067aa72176fba; 0x0a637dc5a2c898a6;
  0x113f9804bef90dae; 0x1b710b35131c471b; 0x28db77f523047d84; 0x32caab7b40c72493; 0x3c9ebe0a15c9bebc;
  0x431d67c49c100d4c; 0x4cc5d4becb3e42b6; 0x597f299cfc657e2a; 0x5fcb6fab3ad6faec; 0x6c44198c4a475817].

(** [B(x, 0) | B(x, 1) | ...] *)
Definition PULL64 (x : list Z) : Z :=
  let B j := nthZ x j ≪ ((7 - Z.of_nat j) * 8) in
  Z.lor (Z.lor (Z.lor (Z.lor (Z.lor (Z.lor (Z.lor (B 0%nat) (B 1%nat)) (B 2%nat)) (B 3%nat)) (B 4%nat)) (B 5%nat)) (B 6%nat)) (B 7%nat).

Definition ROTR x s := u64 (Z.lor (x ≫ s) (x ≪ (64 - s))).
Definition Sigma0 x := Z.lxor (Z.lxor (ROTR x 28) (ROTR x 34)) (ROTR x 39).
Definition Sigma1 x := Z.lxor (Z.lxor (ROTR x 14) (ROTR x 18)) (ROTR x 41).
Definition sigma0 x := Z.lxor (Z.lxor (ROTR x 1) (ROTR x 8)) (x ≫ 7).
Definition sigma1 x := Z.lxor (Z.lxor (ROTR x 19) (ROTR x 61)) (x ≫ 6).
Definition Ch x y z := Z.lxor (Z.land x y) (Z.land (u64 (Z.lnot x)) z).
Definition Maj x y z := Z.lxor (Z.lxor (Z.land x y) (Z.land x z)) (Z.land y z).

(** [ctx->h[0] += a], ... *)
Definition add_regs (hs : list Z) (r : regs) : list Z :=
  let '(a, b, c, d, e, f, g, h) := r in
  [u64 (nthZ hs 0 + a); u64 (nthZ hs 1 + b); u64 (nthZ hs 2 + c); u64 (nthZ hs 3 + d);
   u64 (nthZ hs 4 + e); u64 (nthZ hs 5 + f); u64 (nthZ hs 6 + g); u64 (nthZ hs 7 + h)].

(** *** The build for 32-bit x86

    [F] is the pointer into [X] as an index; [W[i]] are eight bytes of the input. *)
Definition slide_step (i F : nat) (X : list Z) (A E T : Z) : list Z * Z * Z :=
  let X := <[F := A]> X in
  let X := <[(F + 4)%nat := E]> X in
  let X := <[(F + 8)%nat := T]> X in
  let x k := nthZ X (F + k) in
  let T := u64 (T + (x 7%nat + Sigma1 E + Ch E (x 5%nat) (x 6%nat) + nthZ K512 i)) in
  let E := u64 (x 3%nat + T) in
  let A := u64 (T + Sigma0 A + Maj A (x 1%nat) (x 2%nat)) in
  (X, A, E).

Fixpoint slide_first (data : list Z) (n i F : nat) (X : list Z) (A E : Z) : list Z * Z * Z :=
  match n with
  | O => (X, A, E)
  | S n =>
    let '(X, A, E) := slide_step i F X A E (PULL64 (drop (8 * i) data)) in
    slide_first data n (S i) (F - 1) X A E
  end.

Fixpoint slide_rest (n i F : nat) (X : list Z) (A E : Z) : list Z * Z * Z :=
  match n with
  | O => (X, A, E)
  | S n =>
    let x k := nthZ X (F + k) in
    let T := sigma0 (x (8 + 16 - 1)%nat) in
    let T := u64 (T + sigma1 (x (8 + 16 - 14)%nat)) in
    let T := u64 (T + (x (8 + 16)%nat + x (8 + 16 - 9)%nat)) in
    let '(X, A, E) := slide_step i F X A E T in
    slide_rest n (S i) (F - 1) X A E
  end.

Definition compress_slide (hs data : list Z) : list Z :=
  let X := splice (replicate 89 0) 81 [nthZ hs 1; nthZ hs 2; nthZ hs 3] in
  let X := splice X 85 [nthZ hs 5; nthZ hs 6; nthZ hs 7] in
  let '(X, A, E) := slide_first data 16 0 80 X (nthZ hs 0) (nthZ hs 4) in
  let '(X, A, E) := slide_rest 64 16 64 X A E in
  add_regs hs (A, nthZ X 1, nthZ X 2, nthZ X 3, E, nthZ X 5, nthZ X 6, nthZ X 7).

(** *** The build with renamed registers *)

Definition ROUND_00_15 (i : nat) (T1 a b c d e f g h : Z) : Z * Z :=
  let T1 := u64 (T1 + (h + Sigma1 e + Ch e f g + nthZ K512 i)) in
  let h := u64 (Sigma0 a + Maj a b c) in
  (u64 (d + T1), u64 (h + T1)).

(** [T1 = X[i] = PULL64(W[i]); ROUND_00_15(i, ...)], and [ROUND_16_80(i, j, ..., X)]. *)
Definition load_round (data : list Z) (i : nat) (X : list Z) (a b c d e f g h : Z) : list Z * Z * Z :=
  let l := PULL64 (drop (8 * i) data) in
  let '(d, h) := ROUND_00_15 i l a b c d e f g h in
  (<[i := l]> X, d, h).
Definition ROUND_16_80 (i j : nat) (X : list Z) (a b c d e f g h : Z) : list Z * Z * Z :=
  let s0 := sigma0 (nthZ X (Nat.land (j + 1) 0x0f)) in
  let s1 := sigma1 (nthZ X (Nat.land (j + 14) 0x0f)) in
  let T1 := u64 (nthZ X (Nat.land j 0x0f) + (s0 + s1 + nthZ X (Nat.land (j + 9) 0x0f))) in
  let '(d, h) := ROUND_00_15 (i + j) T1 a b c d e f g h in
  (<[Nat.land j 0x0f := T1]> X, d, h).

(** [for (i = 16; i < 80; i += 16)], sixteen rounds each. *)
Fixpoint rounds_16_80 (st : list Z * regs) (i n : nat) : list Z * regs :=
  match n with
  | O => st
  | S n => rounds_16_80 (eight_rounds (ROUND_16_80 i) 8 (eight_rounds (ROUND_16_80 i) 0 st)) (i + 16) n
  end.

Definition compress_renamed (hs data : list Z) : list Z :=
  let st := eight_rounds (load_round data) 8 (eight_rounds (load_round data) 0 (replicate 16 0, load_regs hs)) in
  add_regs hs (rounds_16_80 st 16 4).2.

Definition sha512_compress (x86 : bool) : list Z → list Z → list Z := if x86 then compress_slide else compress_renamed.
Definition sha512_block_data_order (x86 : bool) := iter_blocks 128 (sha512_compress x86).
Definition SHA384_Update (x86 : bool) := SHA512_Update (sha512_compress x86).
Definition SHA384_Final (x86 : bool) := SHA512_Final (sha512_compress x86).

(** The one-shot functions; [junk] is the buffer of the uninitialised context. *)
Definition SHA384 (x86 unaligned : bool) (junk data : list Z) : option (list Z) :=
  let ctx := SHA384_Init (HCtx [] 0 0 junk 0 0) in
  (SHA512_Final (sha512_compress x86) false (SHA512_Update (sha512_compress x86) unaligned ctx data (Z.of_nat (length data)))).1.
Definition SHA512 (x86 unaligned : bool) (junk data : list Z) : option (list Z) :=
  let ctx := SHA512_Init (HCtx [] 0 0 junk 0 0) in
  (SHA512_Final (sha512_compress x86) false (SHA512_Update (sha512_compress x86) unaligned ctx data (Z.of_nat (length data)))).1.

(** ** Specification: FIPS 180-4 *)

Definition fips_K : list Z := (λ p, u64 (cube_root 68 (p * 2 ^ 192))) <$> primes_below 410.
Definition fips_H512 : list Z := (λ p, u64 (Z.sqrt (p * 2 ^ 128))) <$> take 8 (primes_below 410).
Definition fips_H384 : list Z := (λ p, u64 (Z.sqrt (p * 2 ^ 128))) <$> take 8 (drop 8 (primes_below 410)).

Definition word64 (b : list Z) (i : nat) : Z := be_load (take 8 (drop (8 * i) b)).
Definition next_W (w : list Z) (n : nat) : Z :=
  u64 (sigma1 (nthZ w (n + 14)) + nthZ w (n + 9) + sigma0 (nthZ w (n + 1)) + nthZ w n).
Definition schedule (b : list Z) (n : nat) : list Z := sched (word64 b <$> seq 0 16) next_W n.

Definition fips_round (k w : Z) (r : regs) : regs :=
  let '(a, b, c, d, e, f, g, h) := r in
  let T1 := h + Sigma1 e + Ch e f g + k + w in
  let T2 := Sigma0 a + Maj a b c in
  (u64 (T1 + T2), a, b, c, u64 (d + T1), e, f, g).

Definition fips_compress (hs b : list Z) : list Z :=
  let ws := schedule b 64 in
  add_regs hs (foldl (λ r t, fips_round (nthZ fips_K t) (nthZ ws t) r) (load_regs hs) (seq 0 80)).

Definition sha512_fips (h0 : list Z) (len : nat) (M : list Z) : list Z :=
  take len (concat (be_store 8 <$> iterate 128 fips_compress h0 (md_pad 128 16 true M))).
Definition SHA512_fips : list Z → list Z := sha512_fips fips_H512 64.
Definition SHA384_fips : list Z → list Z := sha512_fips fips_H384 48.

(** ** Proofs: the block function *)

Lemma K512_fips : K512 = fips_K.
Proof. vm_compute. reflexivity. Qed.
Lemma SHA512_Init_fips ctx : hash (SHA512_Init ctx) = fips_H512.
Proof. vm_compute. reflexivity. Qed.
Lemma SHA384_Init_fips ctx : hash (SHA384_Init ctx) = fips_H384.
Proof. vm_compute. reflexivity. Qed.

Lemma u64_add_l a b : u64 (u64 a + b) = u64 (a + b).
Proof. apply Zplus_mod_idemp_l. Qed.
Lemma u64_add_r a b : u64 (a + u64 b) = u64 (a + b).
Proof. apply Zplus_mod_idemp_r. Qed.

Lemma lor_bytes hi b k : 0 ≤ k → is_byte b → Z.lor (hi ≪ (k + 8)) (b ≪ k) = (hi * 256 + b) ≪ k.
Proof.
  intros Hk Hb. rewrite (Z.add_comm k 8), <- Z.shiftl_shiftl, <- Z.shiftl_lor by lia.
  by rewrite lor_shiftl_add by (unfold is_byte in Hb; lia).
Qed.

Lemma PULL64_load p o : bytes p → (o + 8 ≤ length p)%nat → PULL64 (drop o p) = be_load (take 8 (drop o p)).
Proof.
  intros Hp Hl. assert (bytes (drop o p)) as Hd by auto with vtls.
  assert (8 ≤ length (drop o p))%nat as Hn by (rewrite length_drop; lia).
  destruct (drop o p) as [|a0 [|a1 [|a2 [|a3 [|a4 [|a5 [|a6 [|a7 l]]]]]]]]; try (cbn in Hn; lia). clear Hn.
  repeat match goal with H : bytes (_ :: _) |- _ => apply bytes_cons_inv in H as [? H] end.
  cbn [take]. rewrite take_0. unfold PULL64, nthZ. cbn [nth].
  change ((7 - Z.of_nat 0) * 8) with (48 + 8). change ((7 - Z.of_nat 1) * 8) with 48.
  rewrite lor_bytes by (done || lia). change 48 with (40 + 8). change ((7 - Z.of_nat 2) * 8) with 40.
  rewrite lor_bytes by (done || lia). change 40 with (32 + 8). change ((7 - Z.of_nat 3) * 8) with 32.
  rewrite lor_bytes by (done || lia). change 32 with (24 + 8). change ((7 - Z.of_nat 4) * 8) with 24.
  rewrite lor_bytes by (done || lia). change 24 with (16 + 8). change ((7 - Z.of_nat 5) * 8) with 16.
  rewrite lor_bytes by (done || lia). change 16 with (8 + 8). change ((7 - Z.of_nat 6) * 8) with 8.
  rewrite lor_bytes by (done || lia). change 8 with (0 + 8). change ((7 - Z.of_nat 7) * (0 + 8)) with 0.
  rewrite lor_bytes by (done || lia). rewrite Z.shiftl_0_r.
  rewrite !be_load_cons by (repeat (apply Forall_cons_2; [assumption|]); try apply Forall_nil_2; done).
  cbn [length]. change (be_load []) with 0. lia.
Qed.

Section block.
Context (b : list Z) (Hb : bytes b) (Hlen : length b = 128%nat).

Definition W (t : nat) : Z := nthZ (schedule b 64) t.
Definition round (r : regs) (t : nat) : regs := fips_round (nthZ fips_K t) (W t) r.

Lemma length_words : length (word64 b <$> seq 0 16) = 16%nat.
Proof. by rewrite length_fmap, length_seq. Qed.

Lemma W_first512 t : (t < 16)%nat → W t = PULL64 (drop (8 * t) b).
Proof.
  intros Ht. rewrite PULL64_load by (assumption || lia). unfold W, schedule.
  rewrite (sched_prefix _ next_W length_words 0 64) by lia. cbn [sched].
  apply nthZ_lookup. rewrite list_lookup_fmap, lookup_seq_lt by lia. done.
Qed.

Lemma W_next512 t : (16 ≤ t < 80)%nat → W t = u64 (sigma1 (W (t - 2)) + W (t - 7) + sigma0 (W (t - 15)) + W (t - 16)).
Proof.
  intros Ht. unfold W, schedule. rewrite (sched_next _ next_W length_words 64 t) by lia.
  rewrite !(sched_prefix _ next_W length_words (t - 16) 64) by lia. unfold next_W.
  by replace (t - 16 + 14)%nat with (t - 2)%nat by lia; replace (t - 16 + 9)%nat with (t - 7)%nat by lia;
    replace (t - 16 + 1)%nat with (t - 15)%nat by lia.
Qed.

Lemma fips_compress_rounds512 hs : fips_compress hs b = add_regs hs (foldl round (load_regs hs) (seq 0 80)).
Proof. unfold fips_compress. cbv zeta. unfold round, W. reflexivity. Qed.

#[local] Opaque W.

Lemma ROUND_00_15_round512 i a b' c d e f g h : ∃ d' h',
  ROUND_00_15 i (W i) a b' c d e f g h = (d', h') ∧ round (a, b', c, d, e, f, g, h) i = (h', a, b', c, d', e, f, g).
Proof.
  eexists _, _. split; [reflexivity|]. unfold round, fips_round. rewrite <- K512_fips, u64_add_l, !u64_add_r.
  repeat (f_equal; try lia).
Qed.

Lemma load_round_ok512 : round_ok W round 0 0 16 (load_round b).
Proof.
  intros i X a b' c d e f g h Hi H. destruct (ROUND_00_15_round512 i a b' c d e f g h) as (d' & h' & E & R).
  eexists _, d', h'. unfold load_round. rewrite <- W_first512, E by lia. split; [done|]. split; [|done].
  apply ring_first; [done|lia|done].
Qed.

Lemma ring_base X i j k : (16 | i)%nat → (16 ≤ i)%nat → ring W X (i + j) → (k < 16)%nat →
  nthZ X (Nat.land (j + k) 15) = W (i + j + k - 16).
Proof.
  intros [q ->] Hi H Hk. rewrite <- (ring_word W X _ k H) by lia. rewrite land_15. f_equal.
  replace (q * 16 + j + k)%nat with (j + k + q * 16)%nat by lia. by rewrite Nat.Div0.mod_add.
Qed.

Lemma ROUND_16_80_ok i : (16 | i)%nat → (16 ≤ i)%nat → (i + 16 ≤ 80)%nat → round_ok W round i 0 16 (ROUND_16_80 i).
Proof.
  intros Hd Hi Hi' j X a b' c d e f g h Hj H. destruct (ROUND_00_15_round512 (i + j) a b' c d e f g h) as (d' & h' & E & R).
  eexists _, d', h'. unfold ROUND_16_80. rewrite !(ring_base X i j) by (assumption || lia).
  replace (Nat.land j 15) with (Nat.land (j + 0) 15) by (f_equal; lia). rewrite (ring_base X i j) by (assumption || lia).
  replace (u64 _) with (W (i + j)).
  2:{ rewrite (W_next512 (i + j)) by lia. replace (i + j + 0 - 16)%nat with (i + j - 16)%nat by lia.
      replace (i + j + 1 - 16)%nat with (i + j - 15)%nat by lia. replace (i + j + 14 - 16)%nat with (i + j - 2)%nat by lia.
      replace (i + j + 9 - 16)%nat with (i + j - 7)%nat by lia. f_equal. lia. }
  rewrite E. split; [done|]. split; [|done]. rewrite land_15.
  destruct Hd as [q ->]. replace ((j + 0) `mod` 16)%nat with ((q * 16 + j) `mod` 16)%nat; [by apply ring_insert|].
  rewrite Nat.add_0_r, Nat.add_comm. apply Nat.Div0.mod_add.
Qed.

Lemma sixteen_rounds rnd base X r : round_ok W round base 0 16 rnd → ring W X base →
  let st := eight_rounds rnd 8 (eight_rounds rnd 0 (X, r)) in
  ring W st.1 (base + 16) ∧ st.2 = foldl round r (seq base 16).
Proof.
  intros Hr H. rewrite <- (Nat.add_0_r base) in H.
  destruct (eight_rounds_spec W round base 0 16 rnd 0 X r Hr ltac:(lia) ltac:(lia) H) as [H1 H2].
  destruct (eight_rounds rnd 0 _) as [X1 r1]. cbn [fst snd] in H1, H2. subst r1. rewrite Nat.add_0_r in *.
  destruct (eight_rounds_spec W round base 0 16 rnd 8 X1 (foldl round r (seq base 8)) Hr ltac:(lia) ltac:(lia) H1) as [H3 H4].
  destruct (eight_rounds rnd 8 _) as [X2 r2]. cbn [fst snd] in *. subst r2.
  rewrite <- foldl_app, <- seq_app. by replace (base + 16)%nat with (base + 8 + 8)%nat by lia.
Qed.

Lemma rounds_16_80_spec n : ∀ i X r, (16 | i)%nat → ring W X i → (16 ≤ i)%nat → (i + 16 * n ≤ 80)%nat →
  (rounds_16_80 (X, r) i n).2 = foldl round r (seq i (16 * n)).
Proof.
  induction n as [|n IH]; intros i X r Hd H Hi Hn; [done|]. cbn [rounds_16_80].
  destruct (sixteen_rounds (ROUND_16_80 i) i X r (ROUND_16_80_ok i Hd Hi ltac:(lia)) H) as [H1 H2].
  destruct (eight_rounds _ 8 _) as [X' r']. cbn [fst snd] in *. subst r'.
  rewrite (IH (i + 16)%nat); [|by apply Nat.divide_add_r; [|exists 1%nat]|assumption|lia|lia].
  rewrite <- foldl_app, <- seq_app. f_equal. f_equal. lia.
Qed.

Lemma compress_renamed_fips hs : compress_renamed hs b = fips_compress hs b.
Proof.
  unfold compress_renamed.
  destruct (sixteen_rounds (load_round b) 0 _ (load_regs hs) load_round_ok512 (ring_start W)) as [H1 H2].
  destruct (eight_rounds _ 8 _) as [X r]. cbn [fst snd] in H1, H2. subst r.
  rewrite (rounds_16_80_spec 4 16) by (assumption || lia || by exists 1%nat).
  by rewrite fips_compress_rounds512, <- foldl_app, <- seq_app.
Qed.

(** The array under the pointer holds the working variables, and behind them the schedule. *)
Definition slides (i : nat) (X : list Z) (A E : Z) (r : regs) : Prop :=
  let x k := nthZ X (80 - i + k) in
  length X = 89%nat ∧ r = (A, x 1%nat, x 2%nat, x 3%nat, E, x 5%nat, x 6%nat, x 7%nat) ∧
  ∀ s, (s < i)%nat → nthZ X (88 - s) = W s.

Lemma slide_step_spec i X A E r : (i < 80)%nat → slides i X A E r →
  ∃ X' A' E', slide_step i (80 - i) X A E (W i) = (X', A', E') ∧ slides (S i) X' A' E' (round r i).
Proof.
  intros Hi (HX & -> & HW). eexists _, _, _. split; [reflexivity|]. unfold slides.
  rewrite !length_insert. split; [done|]. split.
  - rewrite !nthZ_insert by (rewrite ?length_insert; lia).
    repeat first [rewrite decide_True by lia | rewrite decide_False by lia].
    rewrite u64_add_r, <- (Z.add_assoc (u64 _)), u64_add_l. unfold round, fips_round. rewrite <- K512_fips.
    replace (80 - S i + 2)%nat with (80 - i + 1)%nat by lia. replace (80 - S i + 3)%nat with (80 - i + 2)%nat by lia.
    replace (80 - S i + 6)%nat with (80 - i + 5)%nat by lia. replace (80 - S i + 7)%nat with (80 - i + 6)%nat by lia.
    repeat (f_equal; try lia).
  - intros s Hs. rewrite !nthZ_insert by (rewrite ?length_insert; lia).
    destruct (decide (80 - i + 8 = 88 - s)%nat); [f_equal; lia|].
    repeat first [rewrite decide_True by lia | rewrite decide_False by lia]. apply HW. lia.
Qed.

Lemma slide_first_spec n : ∀ i X A E r, (i + n ≤ 16)%nat → slides i X A E r →
  ∃ X' A' E', slide_first b n i (80 - i) X A E = (X', A', E') ∧ slides (i + n) X' A' E' (foldl round r (seq i n)).
Proof.
  induction n as [|n IH]; intros i X A E r Hn H; cbn [slide_first seq foldl].
  { exists X, A, E. by rewrite Nat.add_0_r. }
  rewrite <- W_first512 by lia. destruct (slide_step_spec i X A E r ltac:(lia) H) as (X1 & A1 & E1 & -> & H1).
  replace (80 - i - 1)%nat with (80 - S i)%nat by lia. rewrite <- Nat.add_succ_comm. by apply IH; [lia|].
Qed.

Lemma slide_rest_spec n : ∀ i X A E r, (16 ≤ i)%nat → (i + n ≤ 80)%nat → slides i X A E r →
  ∃ X' A' E', slide_rest n i (80 - i) X A E = (X', A', E') ∧ slides (i + n) X' A' E' (foldl round r (seq i n)).
Proof.
  induction n as [|n IH]; intros i X A E r Hi Hn H; cbn [slide_rest seq foldl].
  { exists X, A, E. by rewrite Nat.add_0_r. }
  assert (∀ k s, (s < i)%nat → (80 - i + k = 88 - s)%nat → nthZ X (80 - i + k) = W s) as Hw
    by (intros k s Hs ->; by apply H).
  rewrite (Hw _ (i - 15)%nat), (Hw _ (i - 2)%nat), (Hw _ (i - 16)%nat), (Hw _ (i - 7)%nat) by lia.
  replace (u64 (u64 (sigma0 (W (i - 15)) + _) + _)) with (W i).
  2:{ rewrite (W_next512 i), u64_add_l by lia. f_equal. lia. }
  destruct (slide_step_spec i X A E r ltac:(lia) H) as (X1 & A1 & E1 & -> & H1).
  replace (80 - i - 1)%nat with (80 - S i)%nat by lia. rewrite <- Nat.add_succ_comm. by apply IH; [lia|lia|].
Qed.

Lemma compress_slide_fips hs : compress_slide hs b = fips_compress hs b.
Proof.
  unfold compress_slide. set (X0 := splice _ 85 _).
  assert (slides 0 X0 (nthZ hs 0) (nthZ hs 4) (load_regs hs)) as H0 by (split; [done|split; [done|lia]]).
  destruct (slide_first_spec 16 0 X0 _ _ _ ltac:(lia) H0) as (X1 & A1 & E1 & Q1 & H1). change (80 - 0)%nat with 80%nat in Q1.
  destruct (slide_rest_spec 64 16 X1 A1 E1 _ ltac:(lia) ltac:(lia) H1) as (X2 & A2 & E2 & Q2 & _ & H2 & _).
  change (80 - 16)%nat with 64%nat in Q2. rewrite Q1, Q2, fips_compress_rounds512. f_equal.
  change (16 + 64)%nat with 80%nat in H2. change (0 + 16)%nat with 16%nat in H2. cbv zeta in H2. rewrite Nat.sub_diag in H2.
  cbn [Nat.add] in H2. rewrite <- H2, <- foldl_app, <- seq_app. reflexivity.
Qed.
End block.

Lemma sha512_compress_fips x86 hs b : bytes b → length b = 128%nat → sha512_compress x86 hs b = fips_compress hs b.
Proof. intros Hb Hl. destruct x86; [exact (compress_slide_fips b Hb Hl hs)|exact (compress_renamed_fips b Hb Hl hs)]. Qed.

Lemma length_fips_compress512 hs b : length (fips_compress hs b) = 8%nat.
Proof. unfold fips_compress. cbv zeta. destruct (foldl _ _ _) as [[[[[[[? ?] ?] ?] ?] ?] ?] ?]. done. Qed.

(** ** Proofs: the collector *)

Section collector_proofs.
Context (compress : list Z → list Z → list Z).

Lemma count_bits128_spec ctx len : 0 ≤ len → 0 ≤ Nl ctx < 2 ^ 64 → 0 ≤ Nh ctx < 2 ^ 64 →
  let c := count_bits128 ctx len in
  0 ≤ Nl c < 2 ^ 64 ∧ 0 ≤ Nh c < 2 ^ 64 ∧
  Nh c * 2 ^ 64 + Nl c = (Nh ctx * 2 ^ 64 + Nl ctx + 8 * len) `mod` 2 ^ 128.
Proof.
  intros Hlen Hnl Hnh c. unfold c, count_bits128. cbn [Nl Nh].
  assert (Z.land (u64 (Nl ctx + u64 (len ≪ 3))) 0xffffffffffffffff = (Nl ctx + 8 * len) `mod` 2 ^ 64) as ->.
  { change 0xffffffffffffffff with (Z.ones 64). rewrite Z.land_ones, u64_add_r by lia. unfold u64.
    rewrite Z.mod_mod, Z.shiftl_mul_pow2 by lia. f_equal. lia. }
  set (l := (Nl ctx + 8 * len) `mod` 2 ^ 64).
  assert (u64 ((if l <? Nl ctx then u64 (Nh ctx + 1) else Nh ctx) + len ≫ 61) =
          (Nh ctx + (if l <? Nl ctx then 1 else 0) + len ≫ 61) `mod` 2 ^ 64) as ->.
  { destruct (l <? Nl ctx); [rewrite u64_add_l|]; unfold u64; f_equal; lia. }
  exact (two_word_count 64 (Nl ctx) (Nh ctx) len ltac:(lia) Hlen Hnl Hnh).
Qed.

(** The parts of the context that the loops leave alone. *)
Definition same_counts (c ctx : HASH_CTX) : Prop := Nl c = Nl ctx ∧ Nh c = Nh ctx ∧ md_len c = md_len ctx.

Lemma iterate_snoc h0 Q b : (128 | length Q)%nat → length b = 128%nat →
  iterate 128 compress h0 (Q ++ b) = iter_blocks 128 compress (iterate 128 compress h0 Q) b 1 ∧ (128 | length (Q ++ b))%nat.
Proof.
  intros HQ Hl. split; [by rewrite iterate_app, iterate_one by (done || lia)|].
  rewrite length_app, Hl. apply Nat.divide_add_r; [done|by exists 1%nat].
Qed.

Lemma copy_blocks_spec h0 fuel : ∀ ctx Q data, (length data < 128 * (fuel + 1))%nat →
  (128 | length Q)%nat → hash ctx = iterate 128 compress h0 Q → length (hdata ctx) = 128%nat →
  ∃ c S r, copy_blocks compress fuel ctx data (Z.of_nat (length data)) = (c, r, Z.of_nat (length r)) ∧ data = S ++ r ∧
    (128 | length S)%nat ∧ (length r < 128)%nat ∧ hash c = iterate 128 compress h0 (Q ++ S) ∧
    hnum c = hnum ctx ∧ length (hdata c) = 128%nat ∧ same_counts c ctx.
Proof.
  induction fuel as [|fuel IH]; intros ctx Q data Hf HQ Hh Hd; cbn [copy_blocks].
  { exists ctx, [], data. rewrite app_nil_r. split_and!; first [done | apply Nat.divide_0_r | lia]. }
  destruct (Z.leb_spec 128 (Z.of_nat (length data))) as [L|L].
  2:{ exists ctx, [], data. rewrite app_nil_r. split_and!; first [done | apply Nat.divide_0_r | lia]. }
  destruct (split_at data 128 ltac:(lia)) as (a & e & -> & Ha & _). rewrite length_app in *.
  rewrite take_app_exact, drop_app_exact by done.
  replace (Z.of_nat (length a + length e) - 128) with (Z.of_nat (length e)) by lia.
  destruct (iterate_snoc h0 Q a HQ Ha) as [E1 E2]. set (c1 := set_hash _ _).
  destruct (IH c1 (Q ++ a) e ltac:(lia) E2 ltac:(cbn [c1 hash set_hash set_hdata hdata]; by rewrite Hh, E1) Ha)
    as (c & S & r & E & -> & HS & Hr & K1 & K2 & K3 & K4 & K5 & K6).
  exists c, (a ++ S), r. rewrite E, <- !app_assoc in *. split_and!; try done.
  rewrite length_app, Ha. apply Nat.divide_add_r; [by exists 1%nat|done].
Qed.

Lemma update_blocks128_spec h0 unaligned ctx Q data : (128 | length Q)%nat → hash ctx = iterate 128 compress h0 Q →
  hnum ctx = 0 → length (hdata ctx) = 128%nat →
  let c := update_blocks128 compress unaligned ctx data (Z.of_nat (length data)) in
  ∃ S r, data = S ++ r ∧ (128 | length S)%nat ∧ (length r < 128)%nat ∧ hash c = iterate 128 compress h0 (Q ++ S) ∧
    hnum c = Z.of_nat (length r) ∧ take (length r) (hdata c) = r ∧ length (hdata c) = 128%nat ∧ same_counts c ctx.
Proof.
  intros HQ Hh Hn Hd c.
  assert (∃ c1 S r, c = (if negb (Z.of_nat (length r) =? 0)
      then set_hdata c1 (splice (hdata c1) 0 (take (Z.to_nat (Z.of_nat (length r))) r)) (Z.of_nat (length r)) else c1) ∧
    data = S ++ r ∧ (128 | length S)%nat ∧ (length r < 128)%nat ∧ hash c1 = iterate 128 compress h0 (Q ++ S) ∧
    hnum c1 = 0 ∧ length (hdata c1) = 128%nat ∧ same_counts c1 ctx)
    as (c1 & S & r & -> & -> & HS & Hr & K1 & K2 & K3 & K4).
  { unfold c, update_blocks128. destruct (Z.leb_spec 128 (Z.of_nat (length data))) as [L|L].
    2:{ exists ctx, [], data. rewrite app_nil_r. split_and!; first [done | apply Nat.divide_0_r | lia]. }
    destruct unaligned.
    { rewrite Nat2Z.id.
      destruct (copy_blocks_spec h0 (length data) ctx Q data ltac:(lia) HQ Hh Hd) as (c1 & S & r & -> & -> & H).
      exists c1, S, r. destruct H as (? & ? & ? & E & ? & ?). rewrite Hn in E. split_and!; done. }
    set (k := (length data / 128)%nat). pose proof (Nat.div_mod (length data) 128 ltac:(lia)) as Hdm. fold k in Hdm.
    pose proof (Nat.mod_upper_bound (length data) 128 ltac:(lia)) as Hmod.
    change 128 with (Z.of_nat 128). rewrite <- Nat2Z.inj_div, <- Nat2Z.inj_mod, !Nat2Z.id. fold k.
    destruct (split_at data (128 * k) ltac:(lia)) as (S & r & E & HS & Hr). subst data. rewrite length_app in *.
    exists (set_hash ctx (iterate 128 compress h0 (Q ++ S))), S, r.
    replace ((length S + length r) `mod` 128)%nat with (length r) by lia.
    replace (Z.to_nat (Z.of_nat (length S + length r) - Z.of_nat (length r))) with (length S) by lia.
    rewrite drop_app_length. rewrite iter_blocks_prefix by lia.
    assert (iter_blocks 128 compress (hash ctx) S k = iterate 128 compress h0 (Q ++ S)) as ->.
    { rewrite iterate_app, <- Hh by (done || lia). unfold iterate. f_equal. rewrite HS, Nat.mul_comm. symmetry. apply Nat.div_mul. lia. }
    rewrite Nat2Z.id. split_and!; first [done | exists k; lia | lia]. }
  exists S, r. rewrite Nat2Z.id, firstn_all. destruct (Z.eqb_spec (Z.of_nat (length r)) 0) as [E0|E0]; cbn [negb].
  - assert (r = []) as -> by (apply nil_length_inv; lia). by rewrite take_0.
  - cbn [hash hnum hdata Nl Nh md_len set_hdata].
    split_and!; try done; [unfold splice; rewrite take_0, app_nil_l; apply take_app_length|].
    rewrite length_splice; lia.
Qed.

Lemma SHA512_Update_step h0 unaligned ctx Q r dat : collects 128 64 compress h0 ctx Q r →
  let c := SHA512_Update compress unaligned ctx dat (Z.of_nat (length dat)) in
  ∃ Q' r', Q' ++ r' = Q ++ r ++ dat ∧ collects 128 64 compress h0 c Q' r' ∧ md_len c = md_len ctx.
Proof.
  intros Hc c'. unfold c', SHA512_Update. destruct (Z.eqb_spec (Z.of_nat (length dat)) 0) as [E0|E0].
  { assert (dat = []) as -> by (apply nil_length_inv; lia). exists Q, r. by rewrite !app_nil_r. }
  destruct (collects_buffer _ _ _ _ _ _ _ Hc) as (d' & Ed & Hd'). destruct Hc as [Hw Hs Hh Hn Hd Hr (C1 & C2 & C3)].
  destruct (count_bits128_spec ctx (Z.of_nat (length dat)) ltac:(lia) C1 C2) as (B1 & B2 & B3).
  change (2 * 64) with 128 in C3. rewrite C3, Zplus_mod_idemp_l in B3.
  set (c := count_bits128 ctx (Z.of_nat (length dat))) in *.
  assert (hash c = hash ctx ∧ hdata c = hdata ctx ∧ hnum c = hnum ctx ∧ md_len c = md_len ctx) as (Ch & Cd & Cn & Cm) by done.
  rewrite Cn, Hn. destruct (Z.eqb_spec (Z.of_nat (length r)) 0) as [Er|Er]; cbn [negb].
  { assert (r = []) as -> by (apply nil_length_inv; lia).
    destruct (update_blocks128_spec h0 unaligned c Q dat Hw ltac:(congruence) ltac:(rewrite Cn, Hn; done) ltac:(congruence))
      as (S & r' & -> & HS & Hr' & K1 & K2 & K3 & K4 & K5 & K6 & K7).
    exists (Q ++ S), r'. split; [by rewrite <- app_assoc|]. split; [|congruence].
    split; try done; [rewrite length_app; by apply Nat.divide_add_r|].
    rewrite K5, K6. split; [exact B1|split; [exact B2|]]. etrans; [exact B3|]. rewrite !length_app. cbn [length]. f_equal. lia. }
  rewrite Cd, Ed. destruct (Z.ltb_spec (Z.of_nat (length dat)) (128 - Z.of_nat (length r))) as [L|L].
  - rewrite !Nat2Z.id. rewrite (take_ge dat) by lia. rewrite splice_tail by lia.
    exists Q, (r ++ dat). split; [done|]. split; [|done].
    split; cbn [hash hnum hdata set_hdata Nl Nh]; rewrite ?length_app.
    + done.
    + lia.
    + congruence.
    + unfold u32. rewrite Z.mod_small; lia.
    + rewrite app_assoc. apply take_app_exact. by rewrite length_app.
    + rewrite length_drop. lia.
    + split; [exact B1|split; [exact B2|]]. etrans; [exact B3|]. f_equal. lia.
  - rewrite Nat2Z.id. destruct (split_at dat (128 - length r) ltac:(lia)) as (a & e & -> & Ha & _). rewrite length_app in *.
    replace (Z.to_nat (128 - Z.of_nat (length r))) with (length a) by lia.
    rewrite take_app_length, drop_app_length, splice_tail by lia. rewrite drop_ge, app_nil_r by lia.
    replace (Z.of_nat (length a + length e) - (128 - Z.of_nat (length r))) with (Z.of_nat (length e)) by lia.
    destruct (iterate_snoc h0 Q (r ++ a) Hw ltac:(rewrite length_app; lia)) as [E1 E2].
    set (c1 := set_hash _ _).
    destruct (update_blocks128_spec h0 unaligned c1 (Q ++ r ++ a) e E2) as (S & r' & -> & HS & Hr' & K1 & K2 & K3 & K4 & K5 & K6 & K7);
      [cbn [c1 hash set_hash set_hdata]; by rewrite Ch, Hh, E1|done|cbn [c1 hdata set_hash set_hdata]; rewrite length_app; lia|].
    exists ((Q ++ r ++ a) ++ S), r'. split; [by rewrite <- !app_assoc|]. split; [|by rewrite K7].
    split; try done; [rewrite length_app; by apply Nat.divide_add_r|].
    rewrite K5, K6. split; [exact B1|split; [exact B2|]]. cbn [c1 Nl Nh set_hdata set_hash]. etrans; [exact B3|].
    rewrite !length_app. f_equal. lia.
Qed.

Lemma word_bytes_store t : word_bytes t = be_store 8 t.
Proof. unfold word_bytes. rewrite !be_store_S. rewrite !Z.shiftr_shiftr by lia. reflexivity. Qed.

Lemma two_words nh nl v : 0 ≤ nl < 2 ^ 64 → nh * 2 ^ 64 + nl = v `mod` 2 ^ 128 →
  word_bytes nh ++ word_bytes nl = bits_store true 16 v.
Proof.
  intros Hl E. rewrite !word_bytes_store. unfold bits_store. rewrite <- (be_store_mod 16 v 128), <- E by lia.
  symmetry. by apply (be_store_app 8 8).
Qed.

Lemma SHA512_Final_spec h0 ctx Q r : collects 128 64 compress h0 ctx Q r →
  (SHA512_Final compress false ctx).1 = make_string512 (iterate 128 compress h0 (md_pad 128 16 true (Q ++ r))) (md_len ctx).
Proof.
  intros Hc. destruct (collects_buffer _ _ _ _ _ _ _ Hc) as (d & Ed & Hd). destruct Hc as [Hw Hs Hh Hn _ _ (B1 & B2 & B3)].
  destruct d as [|x d]; cbn [length] in Hd; [lia|].
  unfold SHA512_Final. rewrite Hn, Ed, Nat2Z.id, splice_tail by (cbn; lia). cbn [length drop].
  rewrite (app_assoc r [0x80]), drop_0. change (128 - 16) with 112.
  assert ((112 <? Z.of_nat (length r) + 1) = (128 - 16 <? length r + 1)%nat) as ->
    by (destruct (Nat.ltb_spec (128 - 16) (length r + 1)); [apply Z.ltb_lt|apply Z.ltb_ge]; lia).
  assert (Z.to_nat (Z.of_nat (length r) + 1) = (length r + 1)%nat) as En by lia.
  destruct (Nat.ltb_spec (128 - 16) (length r + 1)) as [L|L]; cbn [fst md_len set_hdata set_hash hash Nl Nh];
    rewrite (two_words _ _ _ B1 B3), Hh, ?En.
  - rewrite (pad_two 128 16 ltac:(lia) compress true h0 Q r d Hw Hd L).
    by replace (Z.to_nat (128 - (Z.of_nat (length r) + 1))) with (128 - (length r + 1))%nat by lia.
  - rewrite (pad_one 128 16 ltac:(lia) compress true h0 Q r d Hw Hd L).
    by replace (Z.to_nat (112 - (Z.of_nat (length r) + 1))) with (128 - 16 - (length r + 1))%nat by lia.
Qed.
End collector_proofs.

(** Any sequence of updates, each with aligned or unaligned data. *)
Fixpoint sha512_pieces (x86 : bool) ctx (ps : list (bool * list Z)) : HASH_CTX :=
  match ps with
  | [] => ctx
  | (unaligned, p) :: ps => sha512_pieces x86 (SHA512_Update (sha512_compress x86) unaligned ctx p (Z.of_nat (length p))) ps
  end.

Lemma sha512_pieces_collects x86 h0 ps : ∀ ctx Q r, collects 128 64 (sha512_compress x86) h0 ctx Q r →
  let c := sha512_pieces x86 ctx ps in
  ∃ Q' r', Q' ++ r' = Q ++ r ++ concat ps.*2 ∧ collects 128 64 (sha512_compress x86) h0 c Q' r' ∧ md_len c = md_len ctx.
Proof.
  induction ps as [|[u p] ps IH]; intros ctx Q r Hc.
  { exists Q, r. cbn. by rewrite app_nil_r. }
  destruct (SHA512_Update_step _ h0 u ctx Q r p Hc) as (Q1 & r1 & E1 & Hc1 & Hm1).
  destruct (IH _ Q1 r1 Hc1) as (Q2 & r2 & E2 & Hc2 & Hm2).
  exists Q2, r2. cbn [sha512_pieces fmap list_fmap concat snd]. split; [|split; [done|congruence]].
  rewrite E2, !app_assoc. f_equal. rewrite E1. by rewrite !app_assoc.
Qed.

Lemma collects_init512 compress h0 junk len : length junk = 128%nat → collects 128 64 compress h0 (HCtx h0 0 0 junk 0 len) [] [].
Proof. intros. split; try done; [apply Nat.divide_0_r|cbn; lia]. Qed.

Lemma make_string512_spec h n : n = 6%nat ∨ n = 8%nat →
  make_string512 h (8 * Z.of_nat n) = Some (take (8 * n) (concat (be_store 8 <$> h))).
Proof.
  intros Hn. rewrite words_prefix.
  assert (∀ m, concat (word_bytes <$> take m h) = concat (be_store 8 <$> take m h)) as E
    by (intros; f_equal; apply list_fmap_ext; intros; apply word_bytes_store).
  unfold make_string512. rewrite !E. by destruct Hn as [-> | ->].
Qed.

Lemma sha512_pieces_final x86 h0 n junk ps : n = 6%nat ∨ n = 8%nat → length junk = 128%nat → bytes (concat ps.*2) →
  (SHA512_Final (sha512_compress x86) false (sha512_pieces x86 (HCtx h0 0 0 junk 0 (8 * Z.of_nat n)) ps)).1 =
  Some (sha512_fips h0 (8 * n) (concat ps.*2)).
Proof.
  intros Hn Hj Hb. destruct (sha512_pieces_collects x86 h0 ps _ [] [] (collects_init512 _ h0 junk (8 * Z.of_nat n) Hj)) as (Q & r & E & Hc & Hm).
  rewrite (SHA512_Final_spec _ h0 _ Q r Hc), Hm, E. cbn [md_len app].
  rewrite (iterate_ext 128 _ fips_compress) by (first [intros; by apply sha512_compress_fips | by apply bytes_md_pad]).
  by apply make_string512_spec.
Qed.

(** SHA-512 and SHA-384 are the hash functions of FIPS 180-4: in both builds, from a
    context whose buffer was never initialised, however the message is cut into
    calls of the update function and whether the data of each call is aligned or
    not, the final function succeeds and writes the digest of the whole message. *)
Theorem SHA512_correct x86 ctx ps : length (hdata ctx) = 128%nat → bytes (concat ps.*2) →
  (SHA512_Final (sha512_compress x86) false (sha512_pieces x86 (SHA512_Init ctx) ps)).1 = Some (SHA512_fips (concat ps.*2)) ∧
  (SHA384_Final x86 false (sha512_pieces x86 (SHA384_Init ctx) ps)).1 = Some (SHA384_fips (concat ps.*2)).
Proof.
  intros Hj Hb. unfold SHA384_Final, SHA512_fips, SHA384_fips. rewrite <- (SHA512_Init_fips ctx), <- (SHA384_Init_fips ctx).
  split; [exact (sha512_pieces_final x86 _ 8 _ ps (or_intror eq_refl) Hj Hb)|exact (sha512_pieces_final x86 _ 6 _ ps (or_introl eq_refl) Hj Hb)].
Qed.

Lemma SHA512_correct_witness :
  (SHA512_Final (sha512_compress true) false (sha512_pieces true (SHA512_Init (HCtx [] 0 0 (replicate 128 7) 0 0))
    [(true, [97; 98]); (false, []); (false, [99])])).1 = Some (SHA512_fips [97; 98; 99]).
Proof.
  apply (SHA512_correct true (HCtx [] 0 0 (replicate 128 7) 0 0) [(true, [97; 98]); (false, []); (false, [99])]).
  - reflexivity.
  - apply (bool_decide_eq_true_1 _). vm_compute. reflexivity.
Defined.

(** The final function without a place for the digest, or with another length, reports an error. *)
Lemma SHA512_Final_errors compress ctx :
  (SHA512_Final compress true ctx).1 = None ∧
  (md_len ctx ≠ SHA384_DIGEST_LENGTH → md_len ctx ≠ SHA512_DIGEST_LENGTH → (SHA512_Final compress false ctx).1 = None).
Proof.
  unfold SHA512_Final. split; [by destruct (112 <? _)|]. intros H1 H2.
  destruct (112 <? _); cbn [fst md_len set_hdata set_hash hash]; unfold make_string512;
    rewrite (proj2 (Z.eqb_neq _ _) H1), (proj2 (Z.eqb_neq _ _) H2); done.
Qed.

Example SHA512_examples :
  (be_load <$> SHA512 true true (replicate 128 7) [97; 98; 99] =
    Some 0xddaf35a193617abacc417349ae20413112e6fa4e89a97ea20a9eeee64b55d39a2192992a274fc1a836ba3c23a3feebbd454d4423643ce80e2a9ac94fa54ca49f) ∧
  (be_load <$> SHA384 false false (replicate 128 7) [97; 98; 99] =
    Some 0xcb00753f45a35e8bb5a03d699ac65007272c32ab0eded1631a8b605a43ff5bed8086072ba1e7cc2358baeca134c825a7).
Proof. vm_compute. done. Qed.
