(* ===== verification/Sha1.v ===== *)
(** * SHA-1

    Models [crypto/sha/sha1.c] on top of the collector of [Md32].  The block function
    of the code is a straight line of 96 statements on six registers and sixteen words
    of the schedule, in which a round does not move the registers but is written with
    other names; the statements are data here, transcribed line by line, with a
    function that executes one of them.

    The specification is FIPS 180-4. *)

From S2P Require Import Prelude Md32.

Definition SHA1_Init : HASH_CTX :=
  HCtx [0x67452301; 0xefcdab89; 0x98badcfe; 0x10325476; 0xc3d2e1f0] 0 0 (replicate 64 0) 0 0.

(** [HASH_MAKE_STRING] *)
Definition sha1_string (h : list Z) (md_len : Z) : option (list Z) :=
  Some (HOST_l2c_be (nthZ h 0) ++ HOST_l2c_be (nthZ h 1) ++ HOST_l2c_be (nthZ h 2) ++
        HOST_l2c_be (nthZ h 3) ++ HOST_l2c_be (nthZ h 4)).

Definition K_00_19 : Z := 0x5a827999.
Definition K_20_39 : Z := 0x6ed9eba1.
Definition K_40_59 : Z := 0x8f1bbcdc.
Definition K_60_79 : Z := 0xca62c1d6.

Definition F_00_19 b c d := Z.lxor (Z.land (Z.lxor c d) b) d.
Definition F_20_39 b c d := Z.lxor (Z.lxor b c) d.
Definition F_40_59 b c d := Z.lor (Z.land b c) (Z.land (Z.lor b c) d).
Definition F_60_79 b c d := F_20_39 b c d.

(** ** The statements of the block function *)

(** The registers [A], [B], [C], [D], [E] and [T]. *)
Definition rA := 0%nat.
Definition rB := 1%nat.
Definition rC := 2%nat.
Definition rD := 3%nat.
Definition rE := 4%nat.
Definition rT := 5%nat.

(** [LOAD i] is [HOST_c2l(data, l); X(i) = l]; the others are the macros, with the
    number of the round, the names of the registers and of the words. *)
Inductive stmt :=
  | LOAD (i : nat)
  | BODY_00_15 (i a b c d e f xi : nat)
  | BODY_16_19 (i a b c d e f xi xa xb xc xd : nat)
  | BODY_20_31 (i a b c d e f xi xa xb xc xd : nat)
  | BODY_32_39 (i a b c d e f xa xb xc xd : nat)
  | BODY_40_59 (i a b c d e f xa xb xc xd : nat)
  | BODY_60_79 (i a b c d e f xa xb xc xd : nat).

(** The registers and [XX0] to [XX15]. *)
Record mach := Mach { mR : list Z; mX : list Z }.

Definition getR (s : mach) (r : nat) : Z := nthZ (mR s) r.
Definition setR (s : mach) (r : nat) (v : Z) : mach := Mach (<[r := v]> (mR s)) (mX s).

(** [(a) = (ia ^ ib ^ ic ^ id), ix = (a) = ROTATE((a), 1)] *)
Definition Xupdate (s : mach) (a ix ia ib ic id : nat) : mach :=
  let x := nthZ (mX s) in
  let v := ROTATE (Z.lxor (Z.lxor (Z.lxor (x ia) (x ib)) (x ic)) (x id)) 1 in
  Mach (<[a := v]> (mR s)) (<[ix := v]> (mX s)).

(** [(f) = x + (e) + K + ROTATE((a), 5) + F((b), (c), (d)); (b) = ROTATE((b), 30)], with [x]
    the old [f] in the macros that write [(f) +=]. *)
Definition body (s : mach) (K : Z) (F : Z → Z → Z → Z) (x : Z) (a b c d e f : nat) : mach :=
  let g := getR s in
  let s := setR s f (u32 (x + (g e + K + ROTATE (g a) 5 + F (g b) (g c) (g d)))) in
  setR s b (ROTATE (getR s b) 30).

Definition exec (data : list Z) (s : mach) (st : stmt) : mach :=
  match st with
  | LOAD i => Mach (mR s) (<[i := HOST_c2l_be (drop (4 * i) data)]> (mX s))
  | BODY_00_15 _ a b c d e f xi => body s K_00_19 F_00_19 (nthZ (mX s) xi) a b c d e f
  | BODY_16_19 _ a b c d e f xi xa xb xc xd =>
    let s := Xupdate s f xi xa xb xc xd in body s K_00_19 F_00_19 (getR s f) a b c d e f
  | BODY_20_31 _ a b c d e f xi xa xb xc xd =>
    let s := Xupdate s f xi xa xb xc xd in body s K_20_39 F_20_39 (getR s f) a b c d e f
  | BODY_32_39 _ a b c d e f xa xb xc xd =>
    let s := Xupdate s f xa xa xb xc xd in body s K_20_39 F_20_39 (getR s f) a b c d e f
  | BODY_40_59 _ a b c d e f xa xb xc xd =>
    let s := Xupdate s f xa xa xb xc xd in body s K_40_59 F_40_59 (getR s f) a b c d e f
  | BODY_60_79 _ a b c d e f xa xb xc xd =>
    let s := Xupdate s f xa xa xb xc xd in body s K_60_79 F_60_79 (nthZ (mX s) xa) a b c d e f
  end.

Definition sha1_lines : list stmt := [
  LOAD 0; LOAD 1; BODY_00_15 0 rA rB rC rD rE rT 0; LOAD 2; BODY_00_15 1 rT rA rB rC rD rE 1; LOAD 3;
  BODY_00_15 2 rE rT rA rB rC rD 2; LOAD 4; BODY_00_15 3 rD rE rT rA rB rC 3; LOAD 5;
  BODY_00_15 4 rC rD rE rT rA rB 4; LOAD 6; BODY_00_15 5 rB rC rD rE rT rA 5; LOAD 7;
  BODY_00_15 6 rA rB rC rD rE rT 6; LOAD 8; BODY_00_15 7 rT rA rB rC rD rE 7; LOAD 9;
  BODY_00_15 8 rE rT rA rB rC rD 8; LOAD 10; BODY_00_15 9 rD rE rT rA rB rC 9; LOAD 11;
  BODY_00_15 10 rC rD rE rT rA rB 10; LOAD 12; BODY_00_15 11 rB rC rD rE rT rA 11; LOAD 13;
  BODY_00_15 12 rA rB rC rD rE rT 12; LOAD 14; BODY_00_15 13 rT rA rB rC rD rE 13; LOAD 15;
  BODY_00_15 14 rE rT rA rB rC rD 14; BODY_00_15 15 rD rE rT rA rB rC 15; BODY_16_19 16 rC rD rE rT rA rB 0 0 2 8 13;
  BODY_16_19 17 rB rC rD rE rT rA 1 1 3 9 14; BODY_16_19 18 rA rB rC rD rE rT 2 2 4 10 15;
  BODY_16_19 19 rT rA rB rC rD rE 3 3 5 11 0; BODY_20_31 20 rE rT rA rB rC rD 4 4 6 12 1;
  BODY_20_31 21 rD rE rT rA rB rC 5 5 7 13 2; BODY_20_31 22 rC rD rE rT rA rB 6 6 8 14 3;
  BODY_20_31 23 rB rC rD rE rT rA 7 7 9 15 4; BODY_20_31 24 rA rB rC rD rE rT 8 8 10 0 5;
  BODY_20_31 25 rT rA rB rC rD rE 9 9 11 1 6; BODY_20_31 26 rE rT rA rB rC rD 10 10 12 2 7;
  BODY_20_31 27 rD rE rT rA rB rC 11 11 13 3 8; BODY_20_31 28 rC rD rE rT rA rB 12 12 14 4 9;
  BODY_20_31 29 rB rC rD rE rT rA 13 13 15 5 10; BODY_20_31 30 rA rB rC rD rE rT 14 14 0 6 11;
  BODY_20_31 31 rT rA rB rC rD rE 15 15 1 7 12; BODY_32_39 32 rE rT rA rB rC rD 0 2 8 13;
  BODY_32_39 33 rD rE rT rA rB rC 1 3 9 14; BODY_32_39 34 rC rD rE rT rA rB 2 4 10 15;
  BODY_32_39 35 rB rC rD rE rT rA 3 5 11 0; BODY_32_39 36 rA rB rC rD rE rT 4 6 12 1;
  BODY_32_39 37 rT rA rB rC rD rE 5 7 13 2; BODY_32_39 38 rE rT rA rB rC rD 6 8 14 3;
  BODY_32_39 39 rD rE rT rA rB rC 7 9 15 4; BODY_40_59 40 rC rD rE rT rA rB 8 10 0 5;
  BODY_40_59 41 rB rC rD rE rT rA 9 11 1 6; BODY_40_59 42 rA rB rC rD rE rT 10 12 2 7;
  BODY_40_59 43 rT rA rB rC rD rE 11 13 3 8; BODY_40_59 44 rE rT rA rB rC rD 12 14 4 9;
  BODY_40_59 45 rD rE rT rA rB rC 13 15 5 10; BODY_40_59 46 rC rD rE rT rA rB 14 0 6 11;
  BODY_40_59 47 rB rC rD rE rT rA 15 1 7 12; BODY_40_59 48 rA rB rC rD rE rT 0 2 8 13;
  BODY_40_59 49 rT rA rB rC rD rE 1 3 9 14; BODY_40_59 50 rE rT rA rB rC rD 2 4 10 15;
  BODY_40_59 51 rD rE rT rA rB rC 3 5 11 0; BODY_40_59 52 rC rD rE rT rA rB 4 6 12 1;
  BODY_40_59 53 rB rC rD rE rT rA 5 7 13 2; BODY_40_59 54 rA rB rC rD rE rT 6 8 14 3;
  BODY_40_59 55 rT rA rB rC rD rE 7 9 15 4; BODY_40_59 56 rE rT rA rB rC rD 8 10 0 5;
  BODY_40_59 57 rD rE rT rA rB rC 9 11 1 6; BODY_40_59 58 rC rD rE rT rA rB 10 12 2 7;
  BODY_40_59 59 rB rC rD rE rT rA 11 13 3 8; BODY_60_79 60 rA rB rC rD rE rT 12 14 4 9;
  BODY_60_79 61 rT rA rB rC rD rE 13 15 5 10; BODY_60_79 62 rE rT rA rB rC rD 14 0 6 11;
  BODY_60_79 63 rD rE rT rA rB rC 15 1 7 12; BODY_60_79 64 rC rD rE rT rA rB 0 2 8 13;
  BODY_60_79 65 rB rC rD rE rT rA 1 3 9 14; BODY_60_79 66 rA rB rC rD rE rT 2 4 10 15;
  BODY_60_79 67 rT rA rB rC rD rE 3 5 11 0; BODY_60_79 68 rE rT rA rB rC rD 4 6 12 1;
  BODY_60_79 69 rD rE rT rA rB rC 5 7 13 2; BODY_60_79 70 rC rD rE rT rA rB 6 8 14 3;
  BODY_60_79 71 rB rC rD rE rT rA 7 9 15 4; BODY_60_79 72 rA rB rC rD rE rT 8 10 0 5;
  BODY_60_79 73 rT rA rB rC rD rE 9 11 1 6; BODY_60_79 74 rE rT rA rB rC rD 10 12 2 7;
  BODY_60_79 75 rD rE rT rA rB rC 11 13 3 8; BODY_60_79 76 rC rD rE rT rA rB 12 14 4 9;
  BODY_60_79 77 rB rC rD rE rT rA 13 15 5 10; BODY_60_79 78 rA rB rC rD rE rT 14 0 6 11;
  BODY_60_79 79 rT rA rB rC rD rE 15 1 7 12
].

(** One block. *)
Definition sha1_compress (h data : list Z) : list Z :=
  let s := Mach [nthZ h 0; nthZ h 1; nthZ h 2; nthZ h 3; nthZ h 4; 0] (replicate 16 0) in
  let s := foldl (exec data) s sha1_lines in
  [u32 (nthZ h 0 + getR s rE); u32 (nthZ h 1 + getR s rT); u32 (nthZ h 2 + getR s rA);
   u32 (nthZ h 3 + getR s rB); u32 (nthZ h 4 + getR s rC)].

Definition SHA1_Update := HASH_UPDATE 32 sha1_compress.
Definition SHA1_Transform := HASH_TRANSFORM sha1_compress.
Definition SHA1_Final := HASH_FINAL true sha1_compress sha1_string.
Definition SHA1 (data : list Z) : option (list Z) :=
  (SHA1_Final (SHA1_Update SHA1_Init data (Z.of_nat (length data)))).1.

(** ** Specification: FIPS 180-4 *)

Definition sha1_next (w : list Z) (n : nat) : Z :=
  ROTATE (Z.lxor (nthZ w (n + 13)) (Z.lxor (nthZ w (n + 8)) (Z.lxor (nthZ w (n + 2)) (nthZ w n)))) 1.
Definition sha1_schedule (b : list Z) (n : nat) : list Z := sched (block_word be_load b <$> seq 0 16) sha1_next n.

Definition sha1_Ch x y z := Z.lxor (Z.land x y) (Z.land (Z.lnot x) z).
Definition sha1_Parity x y z := Z.lxor x (Z.lxor y z).
Definition sha1_Maj x y z := Z.lxor (Z.land x y) (Z.lxor (Z.land x z) (Z.land y z)).
Definition sha1_f (t : nat) : Z → Z → Z → Z :=
  if (t <? 20)%nat then sha1_Ch else if (t <? 40)%nat then sha1_Parity else if (t <? 60)%nat then sha1_Maj else sha1_Parity.

(** The first thirty bits of the square roots of 2, 3, 5 and 10, with the integer part. *)
Definition sha1_K (t : nat) : Z :=
  Z.sqrt ((if (t <? 20)%nat then 2 else if (t <? 40)%nat then 3 else if (t <? 60)%nat then 5 else 10) * 2 ^ 60).

Definition regs5 : Type := Z * Z * Z * Z * Z.
Definition sha1_round (t : nat) (w : Z) (r : regs5) : regs5 :=
  let '(a, b, c, d, e) := r in
  (u32 (ROTATE a 5 + sha1_f t b c d + e + sha1_K t + w), a, ROTATE b 30, c, d).

Definition sha1_fips_compress (h b : list Z) : list Z :=
  let ws := sha1_schedule b 64 in
  let '(a, b, c, d, e) := foldl (λ r t, sha1_round t (nthZ ws t) r) (nthZ h 0, nthZ h 1, nthZ h 2, nthZ h 3, nthZ h 4) (seq 0 80) in
  [u32 (nthZ h 0 + a); u32 (nthZ h 1 + b); u32 (nthZ h 2 + c); u32 (nthZ h 3 + d); u32 (nthZ h 4 + e)].

Definition SHA1_fips (M : list Z) : list Z :=
  concat (be_store 4 <$> iterate 64 sha1_fips_compress (hash SHA1_Init) (md_pad 64 8 true M)).

(** ** Proofs *)

Lemma F_00_19_Ch b c d : F_00_19 b c d = sha1_Ch b c d.
Proof.
  apply Z.bits_inj'. intros n Hn. unfold F_00_19, sha1_Ch. rewrite !Z.lxor_spec, !Z.land_spec, Z.lxor_spec, Z.lnot_spec by done.
  by destruct (Z.testbit b n), (Z.testbit c n), (Z.testbit d n).
Qed.
Lemma F_20_39_Parity b c d : F_20_39 b c d = sha1_Parity b c d.
Proof. apply Z.lxor_assoc. Qed.
Lemma F_40_59_Maj b c d : F_40_59 b c d = sha1_Maj b c d.
Proof.
  apply Z.bits_inj'. intros n Hn. unfold F_40_59, sha1_Maj. rewrite Z.lor_spec, !Z.lxor_spec, !Z.land_spec, Z.lor_spec.
  by destruct (Z.testbit b n), (Z.testbit c n), (Z.testbit d n).
Qed.

Lemma lxor4 x y z w : Z.lxor w (Z.lxor z (Z.lxor y x)) = Z.lxor (Z.lxor (Z.lxor x y) z) w.
Proof. by rewrite (Z.lxor_comm y x), (Z.lxor_comm z), (Z.lxor_comm w). Qed.

(** The lines of the code are the eighty rounds with rotated names: round [t] has the
    registers moved by [t] modulo 6 and the words moved by [t] modulo 16; the
    words of the block are loaded one round ahead. *)
Definition reg_at (t j : nat) : nat := ((j + 5 * t) `mod` 6)%nat.
Definition word_at (t k : nat) : nat := ((t + k) `mod` 16)%nat.
Definition round_line (t : nat) : stmt :=
  let r := reg_at t in
  let x := word_at t in
  (if (t <? 16) then BODY_00_15 t (r 0) (r 1) (r 2) (r 3) (r 4) (r 5) (x 0)
  else if (t <? 20) then BODY_16_19 t (r 0) (r 1) (r 2) (r 3) (r 4) (r 5) (x 0) (x 0) (x 2) (x 8) (x 13)
  else if (t <? 32) then BODY_20_31 t (r 0) (r 1) (r 2) (r 3) (r 4) (r 5) (x 0) (x 0) (x 2) (x 8) (x 13)
  else if (t <? 40) then BODY_32_39 t (r 0) (r 1) (r 2) (r 3) (r 4) (r 5) (x 0) (x 2) (x 8) (x 13)
  else if (t <? 60) then BODY_40_59 t (r 0) (r 1) (r 2) (r 3) (r 4) (r 5) (x 0) (x 2) (x 8) (x 13)
  else BODY_60_79 t (r 0) (r 1) (r 2) (r 3) (r 4) (r 5) (x 0) (x 2) (x 8) (x 13))%nat.
Definition ahead (t : nat) : list stmt := if (t <? 15)%nat then [LOAD (t + 1)] else [].

Lemma sha1_lines_rounds : sha1_lines = LOAD 0 :: concat ((λ t, ahead t ++ [round_line t]) <$> seq 0 80).
Proof. vm_compute. reflexivity. Qed.

Section block.
Context (b : list Z) (Hb : bytes b) (Hlen : length b = 64%nat).

Definition sha1_W (t : nat) : Z := nthZ (sha1_schedule b 64) t.
Definition spec_round (r : regs5) (t : nat) : regs5 := sha1_round t (sha1_W t) r.

Lemma sha1_W_first t : (t < 16)%nat → sha1_W t = HOST_c2l_be (drop (4 * t) b).
Proof. intros Ht. rewrite HOST_c2l_be_load by (assumption || lia). by apply sched_first. Qed.

Lemma sha1_W_next t : (16 ≤ t < 80)%nat → sha1_W t =
  ROTATE (Z.lxor (sha1_W (t - 3)) (Z.lxor (sha1_W (t - 8)) (Z.lxor (sha1_W (t - 14)) (sha1_W (t - 16))))) 1.
Proof.
  intros Ht. unfold sha1_W, sha1_schedule.
  rewrite (sched_next (block_word be_load b <$> seq 0 16) sha1_next (length_block_words be_load b) 64 t) by lia.
  rewrite !(sched_prefix (block_word be_load b <$> seq 0 16) sha1_next (length_block_words be_load b) (t - 16) 64) by lia.
  unfold sha1_next.
  by replace (t - 16 + 13)%nat with (t - 3)%nat by lia; replace (t - 16 + 8)%nat with (t - 8)%nat by lia;
    replace (t - 16 + 2)%nat with (t - 14)%nat by lia.
Qed.

Lemma sha1_fips_rounds h : sha1_fips_compress h b =
  let '(a, b, c, d, e) := foldl spec_round (nthZ h 0, nthZ h 1, nthZ h 2, nthZ h 3, nthZ h 4) (seq 0 80) in
  [u32 (nthZ h 0 + a); u32 (nthZ h 1 + b); u32 (nthZ h 2 + c); u32 (nthZ h 3 + d); u32 (nthZ h 4 + e)].
Proof. unfold sha1_fips_compress. cbv zeta. unfold spec_round, sha1_W. reflexivity. Qed.

#[local] Opaque sha1_W.

(** The registers hold the state of the standard under the names of round [t]. *)
Definition holds (t : nat) (R : list Z) (r : regs5) : Prop :=
  length R = 6%nat ∧
  (nthZ R (reg_at t 0), nthZ R (reg_at t 1), nthZ R (reg_at t 2), nthZ R (reg_at t 3), nthZ R (reg_at t 4)) = r.

Lemma reg_at_lt t j : (reg_at t j < 6)%nat.
Proof. by apply Nat.mod_upper_bound. Qed.

Lemma reg_at_S t j : reg_at (S t) (S j) = reg_at t j.
Proof.
  unfold reg_at. replace (S j + 5 * S t)%nat with (j + 5 * t + 1 * 6)%nat by lia. apply Nat.Div0.mod_add.
Qed.
Lemma reg_at_0 t : reg_at (S t) 0 = reg_at t 5.
Proof. unfold reg_at. f_equal. lia. Qed.

Lemma reg_at_inj t i j : (i < 6)%nat → (j < 6)%nat → reg_at t i = reg_at t j → i = j.
Proof.
  unfold reg_at. intros Hi Hj E.
  pose proof (Nat.div_mod (i + 5 * t) 6 ltac:(lia)). pose proof (Nat.div_mod (j + 5 * t) 6 ltac:(lia)). lia.
Qed.

Lemma nthZ_reg R t i j v : length R = 6%nat → (i < 6)%nat → (j < 6)%nat →
  nthZ (<[reg_at t i := v]> R) (reg_at t j) = if (i =? j)%nat then v else nthZ R (reg_at t j).
Proof.
  intros HR Hi Hj. rewrite nthZ_insert by (rewrite HR; apply reg_at_lt).
  destruct (Nat.eqb_spec i j) as [->|N]; [by rewrite decide_True|]. rewrite decide_False; [done|].
  intros E. by apply N, (reg_at_inj t).
Qed.

(** A body with the word and the function of its round. *)
Lemma body_round t s r K F x : holds t (mR s) r → K = sha1_K t → (∀ b c d, F b c d = sha1_f t b c d) → x = sha1_W t →
  let s' := body s K F x (reg_at t 0) (reg_at t 1) (reg_at t 2) (reg_at t 3) (reg_at t 4) (reg_at t 5) in
  holds (S t) (mR s') (spec_round r t) ∧ mX s' = mX s.
Proof.
  intros [HR <-] -> HF -> s'. split; [|done]. unfold s', body, setR, getR. cbn [mR mX].
  split; [by rewrite !length_insert|]. rewrite reg_at_0, !reg_at_S.
  rewrite !nthZ_reg by (rewrite ?length_insert; done || lia). cbn [Nat.eqb].
  unfold spec_round, sha1_round. rewrite HF. do 5 f_equal. lia.
Qed.

(** After [Xupdate] the register and the word [t] modulo 16 hold the next word. *)
Lemma Xupdate_word t s : (16 ≤ t < 80)%nat → length (mR s) = 6%nat → ring sha1_W (mX s) t →
  let s' := Xupdate s (reg_at t 5) (word_at t 0) (word_at t 0) (word_at t 2) (word_at t 8) (word_at t 13) in
  mR s' = <[reg_at t 5 := sha1_W t]> (mR s) ∧ mX s' = <[(t `mod` 16)%nat := sha1_W t]> (mX s).
Proof.
  intros Ht HR H s'. unfold s', Xupdate. cbn [mR mX]. unfold word_at. rewrite !(ring_word sha1_W) by (assumption || lia).
  replace (ROTATE _ 1) with (sha1_W t); [by rewrite Nat.add_0_r|]. rewrite (sha1_W_next t) by done. f_equal.
  replace (t + 0 - 16)%nat with (t - 16)%nat by lia. replace (t + 2 - 16)%nat with (t - 14)%nat by lia.
  replace (t + 8 - 16)%nat with (t - 8)%nat by lia. replace (t + 13 - 16)%nat with (t - 3)%nat by lia.
  apply lxor4.
Qed.

(** One line of the code is one round. *)
Lemma early_line t s r n : (t < n ≤ 16)%nat → holds t (mR s) r → ring sha1_W (mX s) n →
  let s' := exec b s (round_line t) in
  holds (S t) (mR s') (spec_round r t) ∧ mX s' = mX s.
Proof.
  intros Ht Hr HX. unfold round_line. rewrite (proj2 (Nat.ltb_lt t 16)) by lia. cbn [exec].
  apply body_round; [done| | |].
  - unfold sha1_K. rewrite (proj2 (Nat.ltb_lt t 20)) by lia. done.
  - unfold sha1_f. rewrite (proj2 (Nat.ltb_lt t 20)) by lia. exact F_00_19_Ch.
  - destruct HX as [_ HX]. rewrite <- (HX t) by lia. unfold word_at. by rewrite Nat.add_0_r.
Qed.

Lemma late_body t s r K F : (16 ≤ t < 80)%nat → holds t (mR s) r → ring sha1_W (mX s) t →
  K = sha1_K t → (∀ b c d, F b c d = sha1_f t b c d) →
  let s1 := Xupdate s (reg_at t 5) (word_at t 0) (word_at t 0) (word_at t 2) (word_at t 8) (word_at t 13) in
  ∀ x, x = getR s1 (reg_at t 5) ∨ x = nthZ (mX s1) (word_at t 0) →
  let s' := body s1 K F x (reg_at t 0) (reg_at t 1) (reg_at t 2) (reg_at t 3) (reg_at t 4) (reg_at t 5) in
  holds (S t) (mR s') (spec_round r t) ∧ ring sha1_W (mX s') (S t).
Proof.
  intros Ht [HR Hr] HX HK HF s1 x Hx s'. destruct (Xupdate_word t s Ht HR HX) as [E1 E2]. fold s1 in E1, E2.
  assert (holds t (mR s1) r) as H1.
  { rewrite E1. split; [by rewrite length_insert|]. rewrite !nthZ_reg by (assumption || lia). exact Hr. }
  assert (x = sha1_W t) as ->.
  { destruct Hx as [->| ->]; unfold getR; [rewrite E1, nthZ_reg by (assumption || lia); done|].
    rewrite E2. unfold word_at. rewrite Nat.add_0_r, nthZ_insert, decide_True; [done|done|].
    destruct HX as [-> _]. by apply Nat.mod_upper_bound. }
  destruct (body_round t s1 r K F _ H1 HK HF eq_refl) as [G1 G2]. split; [exact G1|]. unfold s'. rewrite G2, E2. by apply ring_insert.
Qed.

Lemma late_line t s r : (16 ≤ t < 80)%nat → holds t (mR s) r → ring sha1_W (mX s) t →
  let s' := exec b s (round_line t) in
  holds (S t) (mR s') (spec_round r t) ∧ ring sha1_W (mX s') (S t).
Proof.
  intros Ht Hr HX. unfold round_line. rewrite (proj2 (Nat.ltb_ge t 16)) by lia.
  assert (∀ n, (t < n)%nat → (t <? n)%nat = true) as Lt by (intros; by apply Nat.ltb_lt).
  assert (∀ n, (n ≤ t)%nat → (t <? n)%nat = false) as Ge by (intros; by apply Nat.ltb_ge).
  destruct (Nat.ltb_spec t 20); [|destruct (Nat.ltb_spec t 32); [|destruct (Nat.ltb_spec t 40); [|destruct (Nat.ltb_spec t 60)]]];
    cbn [exec]; apply late_body; try assumption; try (by left); try (by right);
    unfold sha1_K, sha1_f; repeat first [rewrite Lt by lia | rewrite Ge by lia];
    first [exact F_00_19_Ch|exact F_20_39_Parity|exact F_40_59_Maj|reflexivity].
Qed.

(** The words loaded after [t] rounds. *)
Definition loaded (t : nat) : nat := if (t <? 16)%nat then (t + 1)%nat else t.

Lemma line_step t s r : (t < 80)%nat → holds t (mR s) r → ring sha1_W (mX s) (loaded t) →
  let s' := foldl (exec b) s (ahead t ++ [round_line t]) in
  holds (S t) (mR s') (spec_round r t) ∧ ring sha1_W (mX s') (loaded (S t)).
Proof.
  unfold loaded, ahead. intros Ht Hr HX. destruct (Nat.ltb_spec t 16).
  - destruct (Nat.ltb_spec t 15); cbn [app foldl].
    + rewrite (proj2 (Nat.ltb_lt (S t) 16)) by lia. set (s1 := exec b s (LOAD (t + 1))).
      assert (ring sha1_W (mX s1) (S (t + 1))) as H1.
      { cbn [s1 exec mX]. apply ring_first; [done|lia|]. symmetry. apply sha1_W_first. lia. }
      destruct (early_line t s1 r (S (t + 1)) ltac:(lia) Hr H1) as [G1 ->]. split; [exact G1|exact H1].
    + replace t with 15%nat in * by lia. destruct (early_line 15 s r 16 ltac:(lia) Hr HX) as [G1 ->]. split; [exact G1|exact HX].
  - rewrite (proj2 (Nat.ltb_ge t 15)), (proj2 (Nat.ltb_ge (S t) 16)) by lia. cbn [app foldl]. apply late_line; [lia|done|done].
Qed.

Lemma lines_spec n : ∀ t s r, (t + n ≤ 80)%nat → holds t (mR s) r → ring sha1_W (mX s) (loaded t) →
  let s' := foldl (exec b) s (concat ((λ t, ahead t ++ [round_line t]) <$> seq t n)) in
  holds (t + n) (mR s') (foldl spec_round r (seq t n)).
Proof.
  induction n as [|n IH]; intros t s r Ht Hr HX; [by rewrite Nat.add_0_r|].
  cbn [seq foldl]. rewrite fmap_cons. cbn [concat]. rewrite foldl_app, <- Nat.add_succ_comm.
  destruct (line_step t s r ltac:(lia) Hr HX) as [G1 G2]. apply IH; [lia|exact G1|exact G2].
Qed.

Lemma sha1_lines_run R r : holds 0 R r →
  holds 80 (mR (foldl (exec b) (Mach R (replicate 16 0)) sha1_lines)) (foldl spec_round r (seq 0 80)).
Proof.
  intros Hr. rewrite sha1_lines_rounds, foldl_cons. apply (lines_spec 80 0 (exec b (Mach R (replicate 16 0)) (LOAD 0)) r); [lia|exact Hr|].
  apply (ring_first sha1_W (replicate 16 0) 0); [apply ring_start|lia|]. symmetry. apply sha1_W_first. lia.
Qed.

Lemma sha1_compress_fips h : sha1_compress h b = sha1_fips_compress h b.
Proof.
  pose proof (sha1_lines_run [nthZ h 0; nthZ h 1; nthZ h 2; nthZ h 3; nthZ h 4; 0] _ (conj eq_refl eq_refl)) as [_ G].
  rewrite sha1_fips_rounds. unfold sha1_compress. set (s' := foldl _ _ sha1_lines) in *. clearbody s'.
  set (r := foldl _ _ _) in *. clearbody r. subst r. reflexivity.
Qed.
End block.

Lemma length_sha1_compress h b : length (sha1_fips_compress h b) = 5%nat.
Proof. unfold sha1_fips_compress. cbv zeta. by destruct (foldl _ _ _) as [[[[? ?] ?] ?] ?]. Qed.

Lemma sha1_string_spec h len : length h = 5%nat → sha1_string h len = Some (concat (be_store 4 <$> h)).
Proof.
  intros Hh. destruct h as [|h0 [|h1 [|h2 [|h3 [|h4 [|]]]]]]; try done. unfold sha1_string.
  rewrite !HOST_l2c_be_spec. cbn. by rewrite app_nil_r.
Qed.

Lemma sha1_pieces ps : Forall short_piece ps → bytes (concat ps) →
  (SHA1_Final (hash_pieces 32 sha1_compress SHA1_Init ps)).1 = Some (SHA1_fips (concat ps)).
Proof.
  intros Hps Hb. unfold SHA1_Final. change SHA1_Init with (hash_init (hash SHA1_Init) 0).
  rewrite hash_pieces_final by (assumption || lia).
  rewrite (md_spec_ext true _ sha1_fips_compress); [|intros h b H1 H2; exact (sha1_compress_fips b H1 H2 h)|done].
  unfold md_spec. rewrite sha1_string_spec; [done|]. apply length_iterate; [apply length_sha1_compress|done].
Qed.

(** SHA-1 is the hash function of FIPS 180-4: however the message is cut into calls
    of the update function, the final function writes the digest of the whole
    message.  The 96 statements of the unrolled block function are the eighty rounds. *)
Theorem SHA1_correct ps : Forall short_piece ps → bytes (concat ps) →
  (SHA1_Final (hash_pieces 32 sha1_compress SHA1_Init ps)).1 = Some (SHA1_fips (concat ps)).
Proof. apply sha1_pieces. Qed.

Lemma SHA1_correct_witness :
  (SHA1_Final (hash_pieces 32 sha1_compress SHA1_Init [[97; 98]; []; [99]])).1 = Some (SHA1_fips [97; 98; 99]).
Proof.
  apply (SHA1_correct [[97; 98]; []; [99]]).
  - apply (bool_decide_eq_true_1 _). vm_compute. reflexivity.
  - apply (bool_decide_eq_true_1 _). vm_compute. reflexivity.
Defined.

Example SHA1_examples :
  (be_load <$> SHA1 [97; 98; 99] = Some 0xa9993e364706816aba3e25717850c26c9cd0d89d) ∧
  (be_load <$> SHA1 [] = Some 0xda39a3ee5e6b4b0d3255bfef95601890afd80709).
Proof. vm_compute. done. Qed.
