(* ===== verification/Md5.v ===== *)
(** * MD5

    Models [crypto/md5/md5.c] on top of the collector of [Md32], with little-endian
    words.  As for SHA-1 the straight line of statements of the block function is
    data, transcribed line by line.

    The specification is RFC 1321, its table computed from the sine. *)

From S2P Require Import Prelude Md32.

Definition MD5_Init : HASH_CTX :=
  HCtx [0x67452301; 0xefcdab89; 0x98badcfe; 0x10325476] 0 0 (replicate 64 0) 0 0.

(** [HASH_MAKE_STRING] *)
Definition md5_string (h : list Z) (md_len : Z) : option (list Z) :=
  Some (HOST_l2c_le (nthZ h 0) ++ HOST_l2c_le (nthZ h 1) ++ HOST_l2c_le (nthZ h 2) ++ HOST_l2c_le (nthZ h 3)).

Definition F b c d := Z.lxor (Z.land (Z.lxor c d) b) d.
Definition G b c d := Z.lxor (Z.land (Z.lxor b c) d) c.
Definition H b c d := Z.lxor (Z.lxor b c) d.
Definition I b c d := Z.lxor (Z.lor (u32 (Z.lnot d)) b) c.

(** The registers [A], [B], [C] and [D]. *)
Definition mA := 0%nat.
Definition mB := 1%nat.
Definition mC := 2%nat.
Definition mD := 3%nat.

(** [LOAD i] is [HOST_c2l(data, l); X(i) = l]; the others are the macros, with the
    names of the registers and of the word, the rotation and the constant. *)
Inductive line :=
  | LOAD (i : nat)
  | R0 (a b c d k : nat) (s t : Z)
  | R1 (a b c d k : nat) (s t : Z)
  | R2 (a b c d k : nat) (s t : Z)
  | R3 (a b c d k : nat) (s t : Z).

(** The registers and [XX0] to [XX15]. *)
Record vars := Vars { vR : list Z; vX : list Z }.

(** [a += ((k) + (t) + F((b), (c), (d))); a = ROTATE(a, s); a += b] *)
Definition step (f : Z → Z → Z → Z) (v : vars) (a b c d k : nat) (s t : Z) : vars :=
  let g := nthZ (vR v) in
  let x := u32 (g a + (nthZ (vX v) k + t + f (g b) (g c) (g d))) in
  let x := ROTATE x s in
  Vars (<[a := u32 (x + g b)]> (vR v)) (vX v).

Definition exec (data : list Z) (v : vars) (l : line) : vars :=
  match l with
  | LOAD i => Vars (vR v) (<[i := HOST_c2l_le (drop (4 * i) data)]> (vX v))
  | R0 a b c d k s t => step F v a b c d k s t
  | R1 a b c d k s t => step G v a b c d k s t
  | R2 a b c d k s t => step H v a b c d k s t
  | R3 a b c d k s t => step I v a b c d k s t
  end.

Definition md5_lines : list line := [
  LOAD 0; LOAD 1; R0 mA mB mC mD 0 7 0xd76aa478; LOAD 2; R0 mD mA mB mC 1 12 0xe8c7b756; LOAD 3;
  R0 mC mD mA mB 2 17 0x242070db; LOAD 4; R0 mB mC mD mA 3 22 0xc1bdceee; LOAD 5; R0 mA mB mC mD 4 7 0xf57c0faf;
  LOAD 6; R0 mD mA mB mC 5 12 0x4787c62a; LOAD 7; R0 mC mD mA mB 6 17 0xa8304613; LOAD 8;
  R0 mB mC mD mA 7 22 0xfd469501; LOAD 9; R0 mA mB mC mD 8 7 0x698098d8; LOAD 10; R0 mD mA mB mC 9 12 0x8b44f7af;
  LOAD 11; R0 mC mD mA mB 10 17 0xffff5bb1; LOAD 12; R0 mB mC mD mA 11 22 0x895cd7be; LOAD 13;
  R0 mA mB mC mD 12 7 0x6b901122; LOAD 14; R0 mD mA mB mC 13 12 0xfd987193; LOAD 15; R0 mC mD mA mB 14 17 0xa679438e;
  R0 mB mC mD mA 15 22 0x49b40821; R1 mA mB mC mD 1 5 0xf61e2562; R1 mD mA mB mC 6 9 0xc040b340;
  R1 mC mD mA mB 11 14 0x265e5a51; R1 mB mC mD mA 0 20 0xe9b6c7aa; R1 mA mB mC mD 5 5 0xd62f105d;
  R1 mD mA mB mC 10 9 0x02441453; R1 mC mD mA mB 15 14 0xd8a1e681; R1 mB mC mD mA 4 20 0xe7d3fbc8;
  R1 mA mB mC mD 9 5 0x21e1cde6; R1 mD mA mB mC 14 9 0xc33707d6; R1 mC mD mA mB 3 14 0xf4d50d87;
  R1 mB mC mD mA 8 20 0x455a14ed; R1 mA mB mC mD 13 5 0xa9e3e905; R1 mD mA mB mC 2 9 0xfcefa3f8;
  R1 mC mD mA mB 7 14 0x676f02d9; R1 mB mC mD mA 12 20 0x8d2a4c8a; R2 mA mB mC mD 5 4 0xfffa3942;
  R2 mD mA mB mC 8 11 0x8771f681; R2 mC mD mA mB 11 16 0x6d9d6122; R2 mB mC mD mA 14 23 0xfde5380c;
  R2 mA mB mC mD 1 4 0xa4beea44; R2 mD mA mB mC 4 11 0x4bdecfa9; R2 mC mD mA mB 7 16 0xf6bb4b60;
  R2 mB mC mD mA 10 23 0xbebfbc70; R2 mA mB mC mD 13 4 0x289b7ec6; R2 mD mA mB mC 0 11 0xeaa127fa;
  R2 mC mD mA mB 3 16 0xd4ef3085; R2 mB mC mD mA 6 23 0x04881d05; R2 mA mB mC mD 9 4 0xd9d4d039;
  R2 mD mA mB mC 12 11 0xe6db99e5; R2 mC mD mA mB 15 16 0x1fa27cf8; R2 mB mC mD mA 2 23 0xc4ac5665;
  R3 mA mB mC mD 0 6 0xf4292244; R3 mD mA mB mC 7 10 0x432aff97; R3 mC mD mA mB 14 15 0xab9423a7;
  R3 mB mC mD mA 5 21 0xfc93a039; R3 mA mB mC mD 12 6 0x655b59c3; R3 mD mA mB mC 3 10 0x8f0ccc92;
  R3 mC mD mA mB 10 15 0xffeff47d; R3 mB mC mD mA 1 21 0x85845dd1; R3 mA mB mC mD 8 6 0x6fa87e4f;
  R3 mD mA mB mC 15 10 0xfe2ce6e0; R3 mC mD mA mB 6 15 0xa3014314; R3 mB mC mD mA 13 21 0x4e0811a1;
  R3 mA mB mC mD 4 6 0xf7537e82; R3 mD mA mB mC 11 10 0xbd3af235; R3 mC mD mA mB 2 15 0x2ad7d2bb;
  R3 mB mC mD mA 9 21 0xeb86d391
].

(** One block. *)
Definition md5_compress (h data : list Z) : list Z :=
  let v := Vars [nthZ h 0; nthZ h 1; nthZ h 2; nthZ h 3] (replicate 16 0) in
  let v := foldl (exec data) v md5_lines in
  [u32 (nthZ h 0 + nthZ (vR v) mA); u32 (nthZ h 1 + nthZ (vR v) mB);
   u32 (nthZ h 2 + nthZ (vR v) mC); u32 (nthZ h 3 + nthZ (vR v) mD)].

Definition MD5_Update := HASH_UPDATE 32 md5_compress.
Definition MD5_Transform := HASH_TRANSFORM md5_compress.
Definition MD5_Final := HASH_FINAL false md5_compress md5_string.
Definition MD5 (data : list Z) : option (list Z) :=
  (MD5_Final (MD5_Update MD5_Init data (Z.of_nat (length data)))).1.

(** ** Specification: RFC 1321 *)

Definition rfc_F x y z := Z.lor (Z.land x y) (Z.land (Z.lnot x) z).
Definition rfc_G x y z := Z.lor (Z.land x z) (Z.land y (Z.lnot z)).
Definition rfc_H x y z := Z.lxor x (Z.lxor y z).
Definition rfc_I x y z := Z.lxor y (Z.lor x (u32 (Z.lnot z))).

(** The sine of an integer in fixed point with 300 bits, from 120 terms of its series:
    each term is the last one times [n^2 / (k (k + 1))]. *)
Definition sine_series (n : Z) : Z :=
  (foldl (λ '(sum, term, k) _, (sum + term, - (term * n * n) `div` (k * (k + 1)), k + 2)) (0, n * 2 ^ 300, 2) (replicate 120 tt)).1.1.
(** [T[i]] is the integer part of 2^32 times the absolute value of the sine of [i]. *)
Definition rfc_T (i : nat) : Z := Z.abs (sine_series (Z.of_nat i + 1)) ≫ 268.

(** The function, the word and the rotation of step [i]. *)
Definition rfc_fun (i : nat) : Z → Z → Z → Z := nth (i / 16) [rfc_F; rfc_G; rfc_H; rfc_I] rfc_I.
Definition rfc_index (i : nat) : nat :=
  nth (i / 16) [i; (5 * i + 1) `mod` 16; (3 * i + 5) `mod` 16; (7 * i) `mod` 16]%nat 0%nat.
Definition rfc_shift (i : nat) : Z :=
  nthZ (nth (i / 16) [[7; 12; 17; 22]; [5; 9; 14; 20]; [4; 11; 16; 23]; [6; 10; 15; 21]] []) (i `mod` 4).

Definition regs4 : Type := Z * Z * Z * Z.
Definition rfc_step (b : list Z) (r : regs4) (i : nat) : regs4 :=
  let '(A, B, C, D) := r in
  (D, u32 (B + ROTATE (u32 (A + rfc_fun i B C D + block_word le_load b (rfc_index i) + rfc_T i)) (rfc_shift i)), B, C).

Definition rfc_compress (h b : list Z) : list Z :=
  let '(A, B, C, D) := foldl (rfc_step b) (nthZ h 0, nthZ h 1, nthZ h 2, nthZ h 3) (seq 0 64) in
  [u32 (nthZ h 0 + A); u32 (nthZ h 1 + B); u32 (nthZ h 2 + C); u32 (nthZ h 3 + D)].

Definition MD5_rfc (M : list Z) : list Z :=
  concat (le_store 4 <$> iterate 64 rfc_compress (hash MD5_Init) (md_pad 64 8 false M)).

(** ** Proofs *)

Lemma F_rfc b c d : F b c d = rfc_F b c d.
Proof.
  apply Z.bits_inj'. intros n Hn. unfold F, rfc_F. rewrite Z.lor_spec, !Z.lxor_spec, !Z.land_spec, Z.lxor_spec, Z.lnot_spec by done.
  by destruct (Z.testbit b n), (Z.testbit c n), (Z.testbit d n).
Qed.
Lemma G_rfc b c d : G b c d = rfc_G b c d.
Proof.
  apply Z.bits_inj'. intros n Hn. unfold G, rfc_G. rewrite Z.lor_spec, !Z.lxor_spec, !Z.land_spec, Z.lxor_spec, Z.lnot_spec by done.
  by destruct (Z.testbit b n), (Z.testbit c n), (Z.testbit d n).
Qed.
Lemma H_rfc b c d : H b c d = rfc_H b c d.
Proof. apply Z.lxor_assoc. Qed.
Lemma I_rfc b c d : I b c d = rfc_I b c d.
Proof. unfold I, rfc_I. by rewrite Z.lxor_comm, Z.lor_comm. Qed.

(** The lines of the code are the 64 steps: step [t] has the registers moved by [t]
    modulo 4; the words of the block are loaded one step ahead. *)
Definition reg4 (t j : nat) : nat := ((j + 3 * t) `mod` 4)%nat.
Definition step_line (t : nat) : line :=
  let r := reg4 t in
  let R := nth (t / 16) [R0; R1; R2; R3] R3 in
  R (r 0%nat) (r 1%nat) (r 2%nat) (r 3%nat) (rfc_index t) (rfc_shift t) (rfc_T t).
Definition load_ahead (t : nat) : list line := if (t <? 15)%nat then [LOAD (t + 1)] else [].

Lemma md5_lines_steps : md5_lines = LOAD 0 :: concat ((λ t, load_ahead t ++ [step_line t]) <$> seq 0 64).
Proof. vm_compute. reflexivity. Qed.

(** All that is known of the table of words is which one step [t] reads. *)
Lemma rfc_index_lt t : (t < 64)%nat → (rfc_index t < 16)%nat ∧ ((t < 15)%nat → rfc_index t = t).
Proof.
  intros Ht. assert (forallb (λ t, (rfc_index t <? 16) && ((15 <=? t) || (rfc_index t =? t)))%nat (seq 0 64) = true) as E
    by (vm_compute; reflexivity).
  rewrite forallb_forall in E. specialize (E t ltac:(apply in_seq; lia)).
  apply andb_prop in E as [E1 E2]. apply Nat.ltb_lt in E1. split; [done|]. intros L.
  apply orb_prop in E2 as [E2|E2]; [apply Nat.leb_le in E2; lia|by apply Nat.eqb_eq].
Qed.

#[local] Opaque rfc_T.

Section block.
Context (b : list Z) (Hb : bytes b) (Hlen : length b = 64%nat).

Lemma word_first t : (t < 16)%nat → HOST_c2l_le (drop (4 * t) b) = block_word le_load b t.
Proof. intros Ht. by rewrite HOST_c2l_le_load by (assumption || lia). Qed.

(** The registers hold the state of the standard under the names of step [t]. *)
Definition holds4 (t : nat) (R : list Z) (r : regs4) : Prop :=
  length R = 4%nat ∧ (nthZ R (reg4 t 0), nthZ R (reg4 t 1), nthZ R (reg4 t 2), nthZ R (reg4 t 3)) = r.

Lemma reg4_S t j : reg4 (S t) (S j) = reg4 t j.
Proof. unfold reg4. replace (S j + 3 * S t)%nat with (j + 3 * t + 1 * 4)%nat by lia. apply Nat.Div0.mod_add. Qed.
Lemma reg4_0 t : reg4 (S t) 0 = reg4 t 3.
Proof. unfold reg4. f_equal. lia. Qed.

Lemma nthZ_reg4 R t i j v : length R = 4%nat → (i < 4)%nat → (j < 4)%nat →
  nthZ (<[reg4 t i := v]> R) (reg4 t j) = if (i =? j)%nat then v else nthZ R (reg4 t j).
Proof.
  intros HR Hi Hj. rewrite nthZ_insert by (rewrite HR; by apply Nat.mod_upper_bound).
  destruct (Nat.eqb_spec i j) as [->|N]; [by rewrite decide_True|]. rewrite decide_False; [done|].
  unfold reg4. intros E.
  pose proof (Nat.div_mod (i + 3 * t) 4 ltac:(lia)). pose proof (Nat.div_mod (j + 3 * t) 4 ltac:(lia)). lia.
Qed.

Lemma md5_step_spec t v r f : holds4 t (vR v) r → (∀ b c d, f b c d = rfc_fun t b c d) →
  nthZ (vX v) (rfc_index t) = block_word le_load b (rfc_index t) →
  let v' := step f v (reg4 t 0) (reg4 t 1) (reg4 t 2) (reg4 t 3) (rfc_index t) (rfc_shift t) (rfc_T t) in
  holds4 (S t) (vR v') (rfc_step b r t) ∧ vX v' = vX v.
Proof.
  intros [HR <-] Hf Hx v'. split; [|done]. unfold v', step. cbn [vR vX].
  split; [by rewrite length_insert|]. rewrite reg4_0, !reg4_S, !nthZ_reg4 by (assumption || lia). cbn [Nat.eqb].
  unfold rfc_step. rewrite Hx, Hf. do 3 f_equal. rewrite (Z.add_comm (ROTATE _ _)). do 4 f_equal. lia.
Qed.

Lemma step_line_spec t v r n : (t < 64)%nat → (rfc_index t < n ≤ 16)%nat → holds4 t (vR v) r → ring (block_word le_load b) (vX v) n →
  let v' := exec b v (step_line t) in
  holds4 (S t) (vR v') (rfc_step b r t) ∧ vX v' = vX v.
Proof.
  intros Ht Hn Hr [_ HX].
  assert (nthZ (vX v) (rfc_index t) = block_word le_load b (rfc_index t)) as Hx.
  { rewrite <- HX by lia. by rewrite Nat.mod_small by lia. }
  assert (t / 16 < 4)%nat as Hq by (apply Nat.Div0.div_lt_upper_bound; lia).
  unfold step_line. pose proof (λ f Hf, md5_step_spec t v r f Hr Hf Hx) as E. unfold rfc_fun in E.
  destruct (t / 16)%nat as [|[|[|[|]]]]; [| | | |lia]; cbn [nth exec]; apply E;
    [exact F_rfc|exact G_rfc|exact H_rfc|exact I_rfc].
Qed.

Lemma md5_line_step t v r : (t < 64)%nat → holds4 t (vR v) r → ring (block_word le_load b) (vX v) (Nat.min (t + 1) 16) →
  let v' := foldl (exec b) v (load_ahead t ++ [step_line t]) in
  holds4 (S t) (vR v') (rfc_step b r t) ∧ ring (block_word le_load b) (vX v') (Nat.min (S t + 1) 16).
Proof.
  intros Ht Hr HX. destruct (rfc_index_lt t Ht) as [Hi1 Hi2]. unfold load_ahead. destruct (Nat.ltb_spec t 15); cbn [app foldl].
  - specialize (Hi2 ltac:(lia)). replace (Nat.min (t + 1) 16) with (t + 1)%nat in HX by lia.
    replace (Nat.min (S t + 1) 16) with (S (t + 1))%nat by lia. set (v1 := exec b v (LOAD (t + 1))).
    assert (ring (block_word le_load b) (vX v1) (S (t + 1))) as H1.
    { cbn [v1 exec vX]. apply ring_first; [done|lia|]. apply word_first. lia. }
    destruct (step_line_spec t v1 r (S (t + 1)) Ht ltac:(lia) Hr H1) as [G1 ->]. split; [exact G1|exact H1].
  - replace (Nat.min (t + 1) 16) with 16%nat in HX by lia. replace (Nat.min (S t + 1) 16) with 16%nat by lia.
    destruct (step_line_spec t v r 16 Ht ltac:(lia) Hr HX) as [G1 ->]. split; [exact G1|exact HX].
Qed.

Lemma md5_lines_spec n : ∀ t v r, (t + n ≤ 64)%nat → holds4 t (vR v) r → ring (block_word le_load b) (vX v) (Nat.min (t + 1) 16) →
  let v' := foldl (exec b) v (concat ((λ t, load_ahead t ++ [step_line t]) <$> seq t n)) in
  holds4 (t + n) (vR v') (foldl (rfc_step b) r (seq t n)).
Proof.
  induction n as [|n IH]; intros t v r Ht Hr HX; [by rewrite Nat.add_0_r|].
  cbn [seq foldl]. rewrite fmap_cons. cbn [concat]. rewrite foldl_app, <- Nat.add_succ_comm.
  destruct (md5_line_step t v r ltac:(lia) Hr HX) as [G1 G2]. apply IH; [lia|exact G1|exact G2].
Qed.

Lemma md5_lines_run R r : holds4 0 R r →
  holds4 64 (vR (foldl (exec b) (Vars R (replicate 16 0)) md5_lines)) (foldl (rfc_step b) r (seq 0 64)).
Proof.
  intros Hr. rewrite md5_lines_steps, foldl_cons.
  apply (md5_lines_spec 64 0 (exec b (Vars R (replicate 16 0)) (LOAD 0)) r); [lia|exact Hr|].
  apply (ring_first _ (replicate 16 0) 0); [apply ring_start|lia|]. apply word_first. lia.
Qed.

Lemma md5_compress_rfc h : md5_compress h b = rfc_compress h b.
Proof.
  pose proof (md5_lines_run [nthZ h 0; nthZ h 1; nthZ h 2; nthZ h 3] _ (conj eq_refl eq_refl)) as [_ E].
  unfold rfc_compress, md5_compress. set (v := foldl _ _ md5_lines) in *. clearbody v.
  set (r := foldl _ _ _) in *. clearbody r. subst r. reflexivity.
Qed.
End block.

Lemma length_rfc_compress h b : length (rfc_compress h b) = 4%nat.
Proof. unfold rfc_compress. by destruct (foldl _ _ _) as [[[? ?] ?] ?]. Qed.

Lemma md5_string_spec h len : length h = 4%nat → md5_string h len = Some (concat (le_store 4 <$> h)).
Proof.
  intros Hh. destruct h as [|h0 [|h1 [|h2 [|h3 [|]]]]]; try done. unfold md5_string.
  rewrite !HOST_l2c_le_spec. cbn. by rewrite app_nil_r.
Qed.

Lemma md5_pieces ps : Forall short_piece ps → bytes (concat ps) →
  (MD5_Final (hash_pieces 32 md5_compress MD5_Init ps)).1 = Some (MD5_rfc (concat ps)).
Proof.
  intros Hps Hb. unfold MD5_Final. change MD5_Init with (hash_init (hash MD5_Init) 0).
  rewrite hash_pieces_final by (assumption || lia).
  rewrite (md_spec_ext false _ rfc_compress); [|intros h b H1 H2; exact (md5_compress_rfc b H1 H2 h)|done].
  unfold md_spec. rewrite md5_string_spec; [done|]. apply length_iterate; [apply length_rfc_compress|done].
Qed.

(** MD5 is the hash function of RFC 1321: however the message is cut into calls of
    the update function, the final function writes the digest of the whole message.
    The constants of the code are the table of the sine. *)
Theorem MD5_correct ps : Forall short_piece ps → bytes (concat ps) →
  (MD5_Final (hash_pieces 32 md5_compress MD5_Init ps)).1 = Some (MD5_rfc (concat ps)).
Proof. apply md5_pieces. Qed.

Lemma MD5_correct_witness :
  (MD5_Final (hash_pieces 32 md5_compress MD5_Init [[97; 98]; []; [99]])).1 = Some (MD5_rfc [97; 98; 99]).
Proof.
  apply (MD5_correct [[97; 98]; []; [99]]).
  - apply (bool_decide_eq_true_1 _). vm_compute. reflexivity.
  - apply (bool_decide_eq_true_1 _). vm_compute. reflexivity.
Defined.

(** The test suite of RFC 1321. *)
Example MD5_examples :
  (be_load <$> MD5 [] = Some 0xd41d8cd98f00b204e9800998ecf8427e) ∧
  (be_load <$> MD5 [97] = Some 0x0cc175b9c0f1b6a831c399e269772661) ∧
  (be_load <$> MD5 [97; 98; 99] = Some 0x900150983cd24fb0d6963f7d28e17f72).
Proof. vm_compute. done. Qed.
