(* ===== verification/EvpDigest.v ===== *)
(** * The digest interface

    Models [crypto/evp/digest.c], without engines and public-key contexts: a context
    holds a digest and the memory of its state, which the functions allocate, copy
    and clear.  [None] is a call through a null pointer; otherwise the functions
    return their return value and the context.  [mem] lists the outcomes of the coming
    calls of [malloc], all further ones succeed; fresh memory has any contents.

    [Digest] states what a digest promises to the clients of this interface, the
    hash functions discharge it. *)

From S2P Require Import Prelude Md32 Sha2 Sha256 Sha512 Sha1 Md5.

(** [EVP_MD] for digests without functions [copy] and [cleanup].  The methods work
    on [md_data]; [update] is told whether the data is unaligned.  A digest is
    identified by its [type], as the addresses of the static structures are. *)
Record EVP_MD := Md {
  mtype : Z;
  md_size : Z;
  block_size : Z;
  init : HASH_CTX → HASH_CTX;
  update : bool → HASH_CTX → list Z → HASH_CTX;
  final : HASH_CTX → option (list Z) * HASH_CTX
}.

Definition same_md (a b : EVP_MD) : bool := mtype a =? mtype b.

Record EVP_MD_CTX := MdCtx {
  digest : option EVP_MD;
  flags : Z;
  md_data : option HASH_CTX;
  cupdate : option (bool → HASH_CTX → list Z → HASH_CTX)
}.

Definition EVP_MD_CTX_FLAG_CLEANED : Z := 0x0002.
Definition EVP_MD_CTX_FLAG_NO_INIT : Z := 0x0100.

Definition EVP_MD_CTX_init : EVP_MD_CTX := MdCtx None 0 None None.
Definition EVP_MD_CTX_set_flags (ctx : EVP_MD_CTX) (f : Z) : EVP_MD_CTX :=
  MdCtx (digest ctx) (Z.lor (flags ctx) f) (md_data ctx) (cupdate ctx).
Definition EVP_MD_CTX_clear_flags (ctx : EVP_MD_CTX) (f : Z) : EVP_MD_CTX :=
  MdCtx (digest ctx) (Z.ldiff (flags ctx) f) (md_data ctx) (cupdate ctx).
Definition EVP_MD_CTX_cleanup (ctx : EVP_MD_CTX) : EVP_MD_CTX := EVP_MD_CTX_init.

Definition malloc (mem : list bool) : bool * list bool :=
  match mem with
  | [] => (true, [])
  | b :: mem => (b, mem)
  end.

Section evp_digest.
Context (junk : EVP_MD → HASH_CTX).

Definition no_init (ctx : EVP_MD_CTX) : bool := negb (Z.land (flags ctx) EVP_MD_CTX_FLAG_NO_INIT =? 0).

(** From [skip_to_init] on. *)
Definition skip_to_init (ctx : EVP_MD_CTX) : option (bool * EVP_MD_CTX) :=
  if no_init ctx then Some (true, ctx)
  else
    d ← digest ctx;
    c ← md_data ctx;
    Some (true, MdCtx (digest ctx) (flags ctx) (Some (init d c)) (cupdate ctx)).

Definition EVP_DigestInit_ex (mem : list bool) (ctx : EVP_MD_CTX) (type : option EVP_MD) : option (bool * EVP_MD_CTX * list bool) :=
  let ctx := EVP_MD_CTX_clear_flags ctx EVP_MD_CTX_FLAG_CLEANED in
  match (match type with Some t => Some t | None => digest ctx end) with
  | None => Some (false, ctx, mem)
  | Some t =>
    if (match digest ctx with Some d => same_md d t | None => false end) then
      '(r, ctx) ← skip_to_init ctx;
      Some (r, ctx, mem)
    else
      let data := match digest ctx with Some _ => None | None => md_data ctx end in
      let ctx := MdCtx (Some t) (flags ctx) data (cupdate ctx) in
      if no_init ctx then
        '(r, ctx) ← skip_to_init ctx;
        Some (r, ctx, mem)
      else
        let '(ok, mem) := malloc mem in
        if ok then
          '(r, ctx) ← skip_to_init (MdCtx (Some t) (flags ctx) (Some (junk t)) (Some (update t)));
          Some (r, ctx, mem)
        else Some (false, MdCtx (Some t) (flags ctx) None (Some (update t)), mem)
  end.

Definition EVP_DigestInit (mem : list bool) (type : option EVP_MD) := EVP_DigestInit_ex mem EVP_MD_CTX_init type.

Definition EVP_DigestUpdate (ctx : EVP_MD_CTX) (unaligned : bool) (data : list Z) : option (bool * EVP_MD_CTX) :=
  u ← cupdate ctx;
  c ← md_data ctx;
  Some (true, MdCtx (digest ctx) (flags ctx) (Some (u unaligned c data)) (cupdate ctx)).

(** [memset(ctx->md_data, 0, ctx->digest->ctx_size)] *)
Definition zero_data (d : EVP_MD) : HASH_CTX := HCtx (replicate 8 0) 0 0 (replicate (Z.to_nat (block_size d)) 0) 0 0.

(** The digest, [None] when the final function fails, and [*size]. *)
Definition EVP_DigestFinal_ex (ctx : EVP_MD_CTX) : option (option (list Z) * Z * EVP_MD_CTX) :=
  d ← digest ctx;
  c ← md_data ctx;
  let ret := (final d c).1 in
  Some (ret, md_size d, MdCtx (digest ctx) (flags ctx) (Some (zero_data d)) (cupdate ctx)).

Definition EVP_DigestFinal (ctx : EVP_MD_CTX) : option (option (list Z) * Z * EVP_MD_CTX) :=
  '(r, size, ctx) ← EVP_DigestFinal_ex ctx;
  Some (r, size, EVP_MD_CTX_cleanup ctx).

(** [out] and [in] are different contexts. *)
Definition EVP_MD_CTX_copy_ex (mem : list bool) (out inp : EVP_MD_CTX) : bool * EVP_MD_CTX * list bool :=
  match digest inp with
  | None => (false, out, mem)
  | Some d =>
    let tmp_buf := if (match digest out with Some o => same_md o d | None => false end) then md_data out else None in
    match md_data inp with
    | None => (true, MdCtx (Some d) (flags inp) None (cupdate inp), mem)
    | Some c =>
      let '(ok, mem) := match tmp_buf with Some _ => (true, mem) | None => malloc mem end in
      if ok then (true, MdCtx (Some d) (flags inp) (Some c) (cupdate inp), mem)
      else (false, MdCtx (Some d) (flags inp) None (cupdate inp), mem)
    end
  end.

Definition EVP_MD_CTX_copy (mem : list bool) (inp : EVP_MD_CTX) := EVP_MD_CTX_copy_ex mem EVP_MD_CTX_init inp.

Definition EVP_Digest (mem : list bool) (data : list Z) (unaligned : bool) (type : option EVP_MD) : option (option (list Z)) :=
  let ctx := EVP_MD_CTX_set_flags EVP_MD_CTX_init 0x0001 in
  '(r, ctx, mem) ← EVP_DigestInit_ex mem ctx type;
  if negb r then Some None
  else
    '(r, ctx) ← EVP_DigestUpdate ctx unaligned data;
    if negb r then Some None
    else
      '(r, size, ctx) ← EVP_DigestFinal_ex ctx;
      Some r.
End evp_digest.

(** ** The digests of [m_md5.c] and [m_sha1.c] *)

Definition NID_md5 : Z := 4.
Definition NID_sha1 : Z := 64.
Definition NID_sha224 : Z := 675.
Definition NID_sha256 : Z := 672.
Definition NID_sha384 : Z := 673.
Definition NID_sha512 : Z := 674.

Definition lift (f : HASH_CTX → list Z → Z → HASH_CTX) : bool → HASH_CTX → list Z → HASH_CTX :=
  λ _ c data, f c data (Z.of_nat (length data)).

Definition md5_md : EVP_MD := Md NID_md5 16 64 (λ _, MD5_Init) (lift MD5_Update) MD5_Final.
Definition sha1_md : EVP_MD := Md NID_sha1 20 64 (λ _, SHA1_Init) (lift SHA1_Update) SHA1_Final.
Definition sha224_md (small : bool) : EVP_MD :=
  Md NID_sha224 SHA224_DIGEST_LENGTH 64 (λ _, SHA224_Init) (lift (SHA256_Update small)) (SHA256_Final small).
Definition sha256_md (small : bool) : EVP_MD :=
  Md NID_sha256 SHA256_DIGEST_LENGTH 64 (λ _, SHA256_Init) (lift (SHA256_Update small)) (SHA256_Final small).
Definition sha384_md (x86 : bool) : EVP_MD :=
  Md NID_sha384 SHA384_DIGEST_LENGTH SHA512_CBLOCK SHA384_Init
    (λ u c data, SHA512_Update (sha512_compress x86) u c data (Z.of_nat (length data))) (SHA512_Final (sha512_compress x86) false).
Definition sha512_md (x86 : bool) : EVP_MD :=
  Md NID_sha512 SHA512_DIGEST_LENGTH SHA512_CBLOCK SHA512_Init
    (λ u c data, SHA512_Update (sha512_compress x86) u c data (Z.of_nat (length data))) (SHA512_Final (sha512_compress x86) false).

(** ** What a digest promises

    [rep c M] says that the state [c] has collected the message [M]. *)

Class Digest (md : EVP_MD) (rep : HASH_CTX → list Z → Prop) (H : list Z → list Z) : Prop := {
  d_init c : Z.of_nat (length (hdata c)) = block_size md → rep (init md c) [];
  d_update u c M p : rep c M → Z.of_nat (length p) < 2 ^ 64 → rep (update md u c p) (M ++ p);
  d_final c M : rep c M → bytes M → (final md c).1 = Some (H M);
  d_room c M : rep c M → Z.of_nat (length (hdata c)) = block_size md;
  d_size M : Z.of_nat (length (H M)) = md_size md;
  d_bytes M : bytes (H M);
  d_block : 0 < md_size md ≤ 64 ∧ md_size md ≤ block_size md ≤ 128
}.

Definition collected (B : nat) (w : Z) (compress : list Z → list Z → list Z) (h0 : list Z) (ml : Z) (c : HASH_CTX) (M : list Z) : Prop :=
  ∃ Q r, collects B w compress h0 c Q r ∧ Q ++ r = M ∧ md_len c = ml.

Lemma length_concat_words (store : Z → list Z) w (h : list Z) : (∀ z, length (store z) = w) → length (concat (store <$> h)) = (length h * w)%nat.
Proof. intros E. induction h as [|x h IH]; [done|]. rewrite fmap_cons. cbn [concat]. rewrite length_app, IH, E. cbn. lia. Qed.

Lemma bytes_concat_words (store : Z → list Z) (h : list Z) : (∀ z, bytes (store z)) → bytes (concat (store <$> h)).
Proof. intros E. induction h as [|x h IH]; [apply Forall_nil_2|]. rewrite fmap_cons. cbn [concat]. by apply bytes_app. Qed.

(** The collectors of [Md32] and [Sha512]. *)
Lemma md32_digest id size be long compress str h0 ml H : 32 ≤ long → 0 < size ≤ 64 →
  (∀ M, bytes M → md_spec be compress str h0 ml M = Some (H M)) →
  (∀ M, Z.of_nat (length (H M)) = size ∧ bytes (H M)) →
  Digest (Md id size 64 (λ _, hash_init h0 ml) (lift (HASH_UPDATE long compress)) (HASH_FINAL be compress str))
    (collected 64 32 compress h0 ml) H.
Proof.
  intros Hl Hs HH Hsize. split; cbn [md_size block_size init update final].
  - intros c _. exists [], []. split; [apply collects_init|done].
  - intros u c M p (Q & r & Hc & <- & Hm) Hp.
    destruct (HASH_UPDATE_step long compress str h0 c Q r p Hl Hc Hp) as (Q' & r' & E & Hc' & Hm').
    exists Q', r'. split; [exact Hc'|]. split; [by rewrite E, app_assoc|]. unfold lift. congruence.
  - intros c M (Q & r & Hc & <- & Hm) HM. rewrite (HASH_FINAL_spec _ _ _ h0 c Q r Hc), Hm. by apply HH.
  - intros c M (Q & r & [_ _ _ _ _ Hr _] & _). by rewrite Hr.
  - intros M. apply Hsize.
  - intros M. apply Hsize.
  - lia.
Qed.

Lemma sha512_digest id size x86 h0 n H : n = 6%nat ∨ n = 8%nat → size = 8 * Z.of_nat n →
  (∀ M, H M = sha512_fips h0 (8 * n) M) → length h0 = 8%nat →
  Digest (Md id size SHA512_CBLOCK (λ c, HCtx h0 0 0 (hdata c) 0 size)
    (λ u c data, SHA512_Update (sha512_compress x86) u c data (Z.of_nat (length data))) (SHA512_Final (sha512_compress x86) false))
    (collected 128 64 (sha512_compress x86) h0 size) H.
Proof.
  intros Hn -> HH Hh0. assert (∀ M, length (iterate 128 Sha512.fips_compress h0 (md_pad 128 16 true M)) = 8%nat) as Hlen
    by (intros; by apply length_iterate; [apply Sha512.length_fips_compress512|]).
  split; cbn [md_size block_size init update final].
  - intros c Hc. exists [], []. split; [apply collects_init512; unfold SHA512_CBLOCK in Hc; lia|done].
  - intros u c M p (Q & r & Hc & <- & Hm) _.
    destruct (SHA512_Update_step (sha512_compress x86) h0 u c Q r p Hc) as (Q' & r' & E & Hc' & Hm').
    exists Q', r'. split; [exact Hc'|]. split; [by rewrite E, app_assoc|]. congruence.
  - intros c M (Q & r & Hc & <- & Hm) HM. rewrite (SHA512_Final_spec _ h0 c Q r Hc), Hm, HH.
    rewrite (iterate_ext 128 _ Sha512.fips_compress) by (first [intros; by apply sha512_compress_fips | by apply bytes_md_pad]).
    by apply make_string512_spec.
  - intros c M (Q & r & [_ _ _ _ _ Hr _] & _). by rewrite Hr.
  - intros M. rewrite HH. unfold sha512_fips.
    rewrite length_take, (length_concat_words _ 8) by (intros; apply length_be_store). rewrite Hlen. lia.
  - intros M. rewrite HH. apply bytes_take, bytes_concat_words. intros. apply bytes_be_store.
  - unfold SHA512_CBLOCK. lia.
Qed.

(** ** The instances *)

#[global] Instance md5_digest : Digest md5_md (collected 64 32 md5_compress (hash MD5_Init) 0) MD5_rfc.
Proof.
  apply (md32_digest NID_md5 16 false 32 md5_compress md5_string); [lia|lia| |].
  - intros M HM. rewrite (md_spec_ext false _ rfc_compress); [|intros h b H1 H2; exact (md5_compress_rfc b H1 H2 h)|done].
    unfold md_spec. rewrite md5_string_spec; [done|]. apply length_iterate; [apply length_rfc_compress|done].
  - intros M. unfold MD5_rfc. rewrite (length_concat_words _ 4) by (intros; apply length_le_store).
    rewrite (length_iterate _ _ 4) by (done || apply length_rfc_compress).
    split; [done|]. apply bytes_concat_words. intros. apply bytes_le_store.
Qed.

#[global] Instance sha1_digest : Digest sha1_md (collected 64 32 sha1_compress (hash SHA1_Init) 0) SHA1_fips.
Proof.
  apply (md32_digest NID_sha1 20 true 32 sha1_compress sha1_string); [lia|lia| |].
  - intros M HM. rewrite (md_spec_ext true _ sha1_fips_compress); [|intros h b H1 H2; exact (sha1_compress_fips b H1 H2 h)|done].
    unfold md_spec. rewrite sha1_string_spec; [done|]. apply length_iterate; [apply length_sha1_compress|done].
  - intros M. unfold SHA1_fips. rewrite (length_concat_words _ 4) by (intros; apply length_be_store).
    rewrite (length_iterate _ _ 5) by (done || apply length_sha1_compress).
    split; [done|]. apply bytes_concat_words. intros. apply bytes_be_store.
Qed.

Lemma sha256_family id small h0 n H : (0 < n ≤ 8)%nat → length h0 = 8%nat → (∀ M, H M = sha256_fips h0 (4 * n) M) →
  Digest (Md id (4 * Z.of_nat n) 64 (λ _, hash_init h0 (4 * Z.of_nat n)) (lift (SHA256_Update small)) (SHA256_Final small))
    (collected 64 32 (sha256_compress small) h0 (4 * Z.of_nat n)) H.
Proof.
  intros Hn Hh0 HH. apply (md32_digest id (4 * Z.of_nat n) true 64); [lia|lia| |].
  - intros M HM. rewrite (md_spec_ext true _ Sha256.fips_compress) by (done || apply sha256_compress_fips).
    unfold md_spec. rewrite make_string_spec by lia. by rewrite HH.
  - intros M. rewrite HH. unfold sha256_fips.
    rewrite length_take, (length_concat_words _ 4) by (intros; apply length_be_store).
    rewrite (length_iterate _ _ 8) by (done || apply Sha256.length_fips_compress).
    split; [lia|]. apply bytes_take, bytes_concat_words. intros. apply bytes_be_store.
Qed.

#[global] Instance sha256_instance small :
  Digest (sha256_md small) (collected 64 32 (sha256_compress small) (hash SHA256_Init) 32) SHA256_fips.
Proof.
  apply (sha256_family NID_sha256 small (hash SHA256_Init) 8 SHA256_fips); [lia|done|].
  intros M. unfold SHA256_fips. by rewrite <- SHA256_Init_fips.
Qed.

#[global] Instance sha224_instance small :
  Digest (sha224_md small) (collected 64 32 (sha256_compress small) (hash SHA224_Init) 28) SHA224_fips.
Proof.
  apply (sha256_family NID_sha224 small (hash SHA224_Init) 7 SHA224_fips); [lia|done|].
  intros M. unfold SHA224_fips. by rewrite <- SHA224_Init_fips.
Qed.

#[global] Instance sha512_instance x86 :
  Digest (sha512_md x86) (collected 128 64 (sha512_compress x86) fips_H512 64) SHA512_fips.
Proof.
  rewrite <- (SHA512_Init_fips (hash_init [] 0)).
  apply (sha512_digest NID_sha512 64 x86 (hash (SHA512_Init (hash_init [] 0))) 8 SHA512_fips); [by right|done| |done].
  intros M. by rewrite (SHA512_Init_fips (hash_init [] 0)).
Qed.

#[global] Instance sha384_instance x86 :
  Digest (sha384_md x86) (collected 128 64 (sha512_compress x86) fips_H384 48) SHA384_fips.
Proof.
  rewrite <- (SHA384_Init_fips (hash_init [] 0)).
  apply (sha512_digest NID_sha384 48 x86 (hash (SHA384_Init (hash_init [] 0))) 6 SHA384_fips); [by left|done| |done].
  intros M. by rewrite (SHA384_Init_fips (hash_init [] 0)).
Qed.

(** ** The interface keeps the promises *)

Definition plenty (mem : list bool) : Prop := Forall (λ b, b = true) mem.

Section contexts.
Context (junk : EVP_MD → HASH_CTX) (md : EVP_MD) (rep : HASH_CTX → list Z → Prop) (H : list Z → list Z) `{!Digest md rep H}.

(** The context has collected the message [M]. *)
Definition active (ctx : EVP_MD_CTX) (M : list Z) : Prop :=
  digest ctx = Some md ∧ no_init ctx = false ∧ cupdate ctx = Some (update md) ∧ ∃ c, md_data ctx = Some c ∧ rep c M.

(** The context can be initialised: if it has this digest already, it has memory for it. *)
Definition ready (ctx : EVP_MD_CTX) : Prop :=
  no_init ctx = false ∧
  ∀ d, digest ctx = Some d → same_md d md = true →
    d = md ∧ cupdate ctx = Some (update md) ∧ ∃ c, md_data ctx = Some c ∧ Z.of_nat (length (hdata c)) = block_size md.

Lemma ready_init : ready EVP_MD_CTX_init.
Proof. by split. Qed.

Lemma active_ready ctx M : active ctx M → ready ctx.
Proof.
  intros (Hd & Hf & Hu & c & Hc & Hr). split; [done|]. intros d E _. assert (d = md) as -> by congruence.
  split; [done|]. split; [done|]. exists c. split; [done|]. by eapply d_room.
Qed.

Lemma plenty_malloc mem : plenty mem → (malloc mem).1 = true ∧ plenty (malloc mem).2.
Proof. destruct mem as [|b mem]; [done|]. intros Hm. inversion Hm; subst. done. Qed.

Lemma clear_cleaned ctx : let c := EVP_MD_CTX_clear_flags ctx EVP_MD_CTX_FLAG_CLEANED in
  no_init c = no_init ctx ∧ digest c = digest ctx ∧ md_data c = md_data ctx ∧ cupdate c = cupdate ctx.
Proof.
  split; [|done]. unfold no_init, EVP_MD_CTX_clear_flags. cbn [flags]. do 2 f_equal.
  apply Z.bits_inj'. intros n Hn. rewrite !Z.land_spec, Z.ldiff_spec.
  unfold EVP_MD_CTX_FLAG_CLEANED, EVP_MD_CTX_FLAG_NO_INIT. change 2 with (2 ^ 1). change 256 with (2 ^ 8).
  rewrite !Z.pow2_bits_eqb by lia. destruct (Z.eqb_spec 8 n), (Z.eqb_spec 1 n); try lia; rewrite ?andb_false_r, ?andb_true_r; done.
Qed.

Lemma EVP_DigestInit_ex_spec mem ctx : Z.of_nat (length (hdata (junk md))) = block_size md → ready ctx → ∃ r ctx' mem',
  EVP_DigestInit_ex junk mem ctx (Some md) = Some (r, ctx', mem') ∧ (r = true → active ctx' []) ∧
  (plenty mem → r = true ∧ plenty mem').
Proof.
  intros Hjunk [Hf Hr]. unfold EVP_DigestInit_ex. destruct (clear_cleaned ctx) as (C1 & C2 & C3 & C4).
  set (c := EVP_MD_CTX_clear_flags _ _) in *. clearbody c. rewrite <- C1 in Hf. rewrite <- C2, <- C3, <- C4 in Hr. clear ctx C1 C2 C3 C4.
  assert (∀ data, ∃ r ctx' mem',
    (let ctx := MdCtx (Some md) (flags c) data (cupdate c) in
     if no_init ctx then '(r, ctx) ← skip_to_init ctx; Some (r, ctx, mem)
     else let '(ok, mem) := malloc mem in
       if ok then '(r, ctx) ← skip_to_init (MdCtx (Some md) (flags ctx) (Some (junk md)) (Some (update md))); Some (r, ctx, mem)
       else Some (false, MdCtx (Some md) (flags ctx) None (Some (update md)), mem)) = Some (r, ctx', mem') ∧
    (r = true → active ctx' []) ∧ (plenty mem → r = true ∧ plenty mem')) as fresh.
  { intros data. assert (∀ x u, no_init (MdCtx (Some md) (flags c) x u) = false) as Hf' by (intros; exact Hf).
    cbv zeta. rewrite Hf'. pose proof (plenty_malloc mem) as Hp. destruct (malloc mem) as [ok mem'].
    destruct ok; unfold skip_to_init; rewrite ?Hf'; cbn [mbind option_bind digest md_data]; eexists _, _, _; (split; [reflexivity|]).
    - split; [|intros P; split; [done|by apply Hp]]. intros _.
      split; [done|]. split; [apply Hf'|]. split; [done|]. eexists. split; [reflexivity|]. by apply d_init.
    - split; [done|]. intros P. by destruct (Hp P). }
  destruct (digest c) as [d|] eqn:Ed; [destruct (same_md d md) eqn:Es|]; [|apply fresh|apply fresh].
  destruct (Hr d eq_refl Es) as (-> & Hu & x & Hx & Hroom). unfold skip_to_init. rewrite Hf, Ed, Hx.
  eexists _, _, _. split; [reflexivity|]. split; [|done]. intros _. split; [done|]. split; [done|]. split; [done|].
  eexists. split; [reflexivity|]. by apply d_init.
Qed.

Lemma EVP_DigestUpdate_spec ctx u M p : active ctx M → Z.of_nat (length p) < 2 ^ 64 → ∃ ctx',
  EVP_DigestUpdate ctx u p = Some (true, ctx') ∧ active ctx' (M ++ p).
Proof.
  intros (Hd & Hf & Hu & c & Hc & Hr) Hp. unfold EVP_DigestUpdate. rewrite Hu, Hc. cbn [mbind option_bind].
  eexists. split; [reflexivity|]. split; [done|]. split; [done|]. split; [done|]. eexists. split; [reflexivity|]. by apply d_update.
Qed.

Lemma EVP_DigestFinal_ex_spec ctx M : active ctx M → bytes M → ∃ ctx',
  EVP_DigestFinal_ex ctx = Some (Some (H M), md_size md, ctx') ∧ ready ctx'.
Proof.
  intros (Hd & Hf & Hu & c & Hc & Hr) HM. unfold EVP_DigestFinal_ex. rewrite Hd, Hc. cbn [mbind option_bind].
  rewrite (d_final c M Hr HM). eexists. split; [reflexivity|]. split; [done|]. intros d E _. cbn [digest] in E.
  assert (d = md) as -> by congruence. split; [done|]. split; [done|]. eexists. split; [reflexivity|].
  unfold zero_data. cbn [hdata]. rewrite length_replicate. destruct d_block as [? ?]. lia.
Qed.

Lemma EVP_MD_CTX_copy_ex_spec mem out inp M : active inp M → ∃ r out' mem',
  EVP_MD_CTX_copy_ex mem out inp = (r, out', mem') ∧ (r = true → active out' M) ∧ (plenty mem → r = true ∧ plenty mem').
Proof.
  intros (Hd & Hf & Hu & c & Hc & Hr). unfold EVP_MD_CTX_copy_ex. rewrite Hd, Hc.
  set (tmp := if (match digest out with Some o => same_md o md | None => false end) then md_data out else None).
  assert (∃ ok mem', (match tmp with Some _ => (true, mem) | None => malloc mem end) = (ok, mem') ∧ (plenty mem → ok = true ∧ plenty mem'))
    as (ok & mem' & -> & Hp).
  { destruct tmp; [by eexists _, _|]. pose proof (plenty_malloc mem) as Hp. destruct (malloc mem) as [ok mem']. by exists ok, mem'. }
  destruct ok; eexists _, _, _; (split; [reflexivity|]); (split; [|by intros P; destruct (Hp P)]); [|done].
  intros _. split; [done|]. split; [done|]. split; [done|]. by exists c.
Qed.

(** The updates of a list of pieces, each with its alignment. *)
Fixpoint digest_pieces (ctx : EVP_MD_CTX) (ps : list (bool * list Z)) : option (bool * EVP_MD_CTX) :=
  match ps with
  | [] => Some (true, ctx)
  | (u, p) :: ps =>
    '(ok, ctx) ← EVP_DigestUpdate ctx u p;
    if ok : bool then digest_pieces ctx ps else Some (false, ctx)
  end.

Lemma digest_pieces_spec ps : ∀ ctx M, active ctx M → Forall short_piece ps.*2 → ∃ ctx',
  digest_pieces ctx ps = Some (true, ctx') ∧ active ctx' (M ++ concat ps.*2).
Proof.
  induction ps as [|[u p] ps IH]; intros ctx M Ha Hp; cbn [digest_pieces].
  { exists ctx. cbn. by rewrite app_nil_r. }
  rewrite fmap_cons in *. cbn [concat snd] in *.
  destruct (EVP_DigestUpdate_spec ctx u M p Ha (Forall_inv Hp)) as (c1 & -> & H1). cbn [mbind option_bind].
  destruct (IH c1 (M ++ p) H1 (Forall_inv_tail Hp)) as (c2 & -> & H2). exists c2. by rewrite app_assoc.
Qed.
End contexts.

(** The six methods, each with the size of its digest, its block size and the hash function of the
    standard; [small] and [x86] are the builds of the compression functions. *)
Definition evp_digests (small x86 : bool) : list (EVP_MD * Z * Z * (list Z → list Z)) :=
  [(md5_md, 16, 64, MD5_rfc); (sha1_md, 20, 64, SHA1_fips);
   (sha224_md small, 28, 64, SHA224_fips); (sha256_md small, 32, 64, SHA256_fips);
   (sha384_md x86, 48, 128, SHA384_fips); (sha512_md x86, 64, 128, SHA512_fips)].

Lemma evp_digests_ok small x86 md size block H : (md, size, block, H) ∈ evp_digests small x86 →
  md_size md = size ∧ block_size md = block ∧ ∃ rep, Digest md rep H.
Proof.
  unfold evp_digests. rewrite !elem_of_cons, elem_of_nil.
  intros [[= -> -> -> ->]|[[= -> -> -> ->]|[[= -> -> -> ->]|[[= -> -> -> ->]|[[= -> -> -> ->]|[[= -> -> -> ->]|[]]]]]]];
    (split; [done|]); (split; [done|]); eexists; apply _.
Qed.

(** C15: The digest interface computes MD5, SHA-1, SHA-224, SHA-256, SHA-384 and SHA-512 as the standards
    define them.  For each of the six methods, in a context that is fresh or was used before (with this
    digest or another; one that has this digest has memory for it), initialising never goes through a
    null pointer whatever the outcome of the allocation; if it returns 1 then the updates of any pieces
    return 1, the final function returns the hash of the concatenation and its size, and the context can
    be initialised again.  It returns 1 when memory suffices. *)
Theorem EVP_digest_correct small x86 md size block H junk mem ctx ps :
  (md, size, block, H) ∈ evp_digests small x86 →
  Z.of_nat (length (hdata (junk md))) = block → ready md ctx →
  Forall short_piece ps.*2 → bytes (concat ps.*2) → ∃ r c mem',
  EVP_DigestInit_ex junk mem ctx (Some md) = Some (r, c, mem') ∧ (plenty mem → r = true) ∧
  (r = true → ∃ c1 c2, digest_pieces c ps = Some (true, c1) ∧
    EVP_DigestFinal_ex c1 = Some (Some (H (concat ps.*2)), size, c2) ∧
    Z.of_nat (length (H (concat ps.*2))) = size ∧ ready md c2).
Proof.
  intros (Hs & Hk & rep & Hd)%evp_digests_ok Hj Hr Hp Hb. rewrite <- Hk in Hj. rewrite <- Hs.
  destruct (EVP_DigestInit_ex_spec junk md rep H mem ctx Hj Hr) as (r & c & mem' & E & Ha & Hm).
  exists r, c, mem'. split; [done|]. split; [intros P; by destruct (Hm P)|]. intros R.
  destruct (digest_pieces_spec md rep H ps c [] (Ha R) Hp) as (c1 & E1 & H1).
  destruct (EVP_DigestFinal_ex_spec md rep H c1 _ H1 Hb) as (c2 & E2 & H2). exists c1, c2.
  do 2 (split; [done|]). split; [|done]. apply d_size.
Qed.

Definition demo_junk (m : EVP_MD) : HASH_CTX := HCtx [] 0 0 (replicate (Z.to_nat (block_size m)) 7) 0 0.

Lemma EVP_digest_correct_witness :
  Forall (λ '(md, size, block, H), ∃ c c1 c2,
    EVP_DigestInit_ex demo_junk [] EVP_MD_CTX_init (Some md) = Some (true, c, []) ∧
    digest_pieces c [(false, [97; 98]); (true, [99])] = Some (true, c1) ∧
    EVP_DigestFinal_ex c1 = Some (Some (H [97; 98; 99]), size, c2)) (evp_digests false true).
Proof.
  apply Forall_forall. intros [[[md size] block] H] Hm. rewrite <- list_elem_of_In in Hm.
  destruct (evp_digests_ok _ _ _ _ _ _ Hm) as (_ & Hk & _ & [_ _ _ _ _ _ Hb]).
  destruct (EVP_digest_correct false true md size block H demo_junk [] EVP_MD_CTX_init
    [(false, [97; 98]); (true, [99])] Hm) as (r & c & mem' & E & Hr & Hc).
  - unfold demo_junk. cbn [hdata]. rewrite length_replicate, <- Hk. lia.
  - split; [reflexivity|]. intros d E. discriminate E.
  - apply (bool_decide_eq_true_1 _). vm_compute. reflexivity.
  - apply (bool_decide_eq_true_1 _). vm_compute. reflexivity.
  - rewrite Hr in E by constructor. destruct (Hc (Hr (Forall_nil_2 _))) as (c1 & c2 & E1 & E2 & _). exists c, c1, c2.
    split; [|split; [exact E1|exact E2]]. rewrite E. injection E as _ <-. reflexivity.
Defined.

(** The name of the digest is stored before its memory is allocated: when the
    allocation fails and the caller tries again with the same digest, the second
    call does not allocate and initialises through the null pointer. *)
Lemma EVP_DigestInit_ex_retry junk md :
  ∃ c, EVP_DigestInit_ex junk [false] EVP_MD_CTX_init (Some md) = Some (false, c, []) ∧
    EVP_DigestInit_ex junk [] c (Some md) = None.
Proof.
  eexists. split; [reflexivity|]. unfold EVP_DigestInit_ex, same_md. cbn [digest EVP_MD_CTX_clear_flags]. rewrite Z.eqb_refl. reflexivity.
Qed.
