(* ===== verification/Hmac.v ===== *)
(** * HMAC

    Models [crypto/hmac/hmac.c]: keying, restarting with the same key, updates, the
    final function, copying and the one-shot function, over the digest contexts of
    [EvpDigest].  A context keeps two digest states that have read the padded key, and
    a working one that starts as a copy of the first.

    The specification is RFC 2104, for any digest that keeps the promises of
    [Digest]. *)

From S2P Require Import Prelude Md32 Sha256 Sha512 EvpDigest.

Definition HMAC_MAX_MD_CBLOCK : Z := 128.

Record HMAC_CTX := HmacCtx {
  hmd : option EVP_MD;
  md_ctx : EVP_MD_CTX;
  i_ctx : EVP_MD_CTX;
  o_ctx : EVP_MD_CTX;
  key_length : Z;
  key : list Z;
  key_init : bool
}.

Definition set_hmd ctx m := HmacCtx m (md_ctx ctx) (i_ctx ctx) (o_ctx ctx) (key_length ctx) (key ctx) (key_init ctx).
Definition set_md_ctx ctx c := HmacCtx (hmd ctx) c (i_ctx ctx) (o_ctx ctx) (key_length ctx) (key ctx) (key_init ctx).
Definition set_i_ctx ctx c := HmacCtx (hmd ctx) (md_ctx ctx) c (o_ctx ctx) (key_length ctx) (key ctx) (key_init ctx).
Definition set_o_ctx ctx c := HmacCtx (hmd ctx) (md_ctx ctx) (i_ctx ctx) c (key_length ctx) (key ctx) (key_init ctx).
Definition set_key ctx k len := HmacCtx (hmd ctx) (md_ctx ctx) (i_ctx ctx) (o_ctx ctx) len k (key_init ctx).
Definition set_key_init ctx := HmacCtx (hmd ctx) (md_ctx ctx) (i_ctx ctx) (o_ctx ctx) (key_length ctx) (key ctx) true.

(** The members that [HMAC_CTX_init] does not write stay as they were. *)
Definition HMAC_CTX_init (ctx : HMAC_CTX) : HMAC_CTX :=
  HmacCtx None EVP_MD_CTX_init EVP_MD_CTX_init EVP_MD_CTX_init (key_length ctx) (key ctx) false.
Definition HMAC_CTX_cleanup (ctx : HMAC_CTX) : HMAC_CTX :=
  HmacCtx None EVP_MD_CTX_init EVP_MD_CTX_init EVP_MD_CTX_init 0 (replicate 128 0) false.
Definition HMAC_CTX_set_flags (ctx : HMAC_CTX) (f : Z) : HMAC_CTX :=
  let ctx := set_i_ctx ctx (EVP_MD_CTX_set_flags (i_ctx ctx) f) in
  let ctx := set_o_ctx ctx (EVP_MD_CTX_set_flags (o_ctx ctx) f) in
  set_md_ctx ctx (EVP_MD_CTX_set_flags (md_ctx ctx) f).

(** A return value, the context and the coming allocations; [None] is a call through
    a null pointer or a failed assertion. *)
Definition res : Type := option (bool * HMAC_CTX * list bool).

(** [if (!...) goto err], and go on. *)
Definition and_then (r : res) (f : HMAC_CTX → list bool → res) : res :=
  '(ok, ctx, mem) ← r;
  if ok : bool then f ctx mem else Some (false, ctx, mem).

Section hmac.
Context (junk : EVP_MD → HASH_CTX).

(** Calls of the digest functions on the members. *)
Definition init_md ctx mem m : res :=
  '(ok, c, mem) ← EVP_DigestInit_ex junk mem (md_ctx ctx) (Some m); Some (ok, set_md_ctx ctx c, mem).
Definition init_i ctx mem m : res :=
  '(ok, c, mem) ← EVP_DigestInit_ex junk mem (i_ctx ctx) (Some m); Some (ok, set_i_ctx ctx c, mem).
Definition init_o ctx mem m : res :=
  '(ok, c, mem) ← EVP_DigestInit_ex junk mem (o_ctx ctx) (Some m); Some (ok, set_o_ctx ctx c, mem).
Definition update_md ctx mem (u : bool) data : res :=
  '(ok, c) ← EVP_DigestUpdate (md_ctx ctx) u data; Some (ok, set_md_ctx ctx c, mem).
Definition update_i ctx mem data : res :=
  '(ok, c) ← EVP_DigestUpdate (i_ctx ctx) false data; Some (ok, set_i_ctx ctx c, mem).
Definition update_o ctx mem data : res :=
  '(ok, c) ← EVP_DigestUpdate (o_ctx ctx) false data; Some (ok, set_o_ctx ctx c, mem).
Definition copy_md ctx mem (from : EVP_MD_CTX) : res :=
  let '(ok, c, mem) := EVP_MD_CTX_copy_ex mem (md_ctx ctx) from in Some (ok, set_md_ctx ctx c, mem).

(** [memset(&ctx->key[ctx->key_length], 0, ...); ctx->key_init = 1] *)
Definition finish_key ctx : HMAC_CTX :=
  let n := key_length ctx in
  let k := if n =? HMAC_MAX_MD_CBLOCK then key ctx
           else splice (key ctx) (Z.to_nat n) (replicate (Z.to_nat (HMAC_MAX_MD_CBLOCK - n)) 0) in
  set_key_init (set_key ctx k n).

(** The branch [if (key != NULL)]; [u] says whether the key is unaligned. *)
Definition take_key ctx (mem : list bool) (k : list Z) (len : Z) (u : bool) (m : EVP_MD) : res :=
  let j := block_size m in
  if HMAC_MAX_MD_CBLOCK <? j then None
  else if j <? len then
    and_then (init_md ctx mem m) (λ ctx mem,
    and_then (update_md ctx mem u (take (Z.to_nat len) k)) (λ ctx mem,
      '(ret, size, c) ← EVP_DigestFinal_ex (md_ctx ctx);
      let ctx := set_md_ctx ctx c in
      match ret with
      | None => Some (false, ctx, mem)
      | Some d => Some (true, finish_key (set_key ctx (splice (key ctx) 0 d) size), mem)
      end))
  else if (len <? 0) || (HMAC_MAX_MD_CBLOCK <? len) then Some (false, ctx, mem)
  else Some (true, finish_key (set_key ctx (splice (key ctx) 0 (take (Z.to_nat len) k)) len), mem).

(** The branch [if (reset)]. *)
Definition set_pads ctx (mem : list bool) (m : EVP_MD) : res :=
  let pad x := Z.lxor x <$> key ctx in
  let j := Z.to_nat (block_size m) in
  and_then (init_i ctx mem m) (λ ctx mem,
  and_then (update_i ctx mem (take j (pad 0x36))) (λ ctx mem,
  and_then (init_o ctx mem m) (λ ctx mem,
  update_o ctx mem (take j (pad 0x5c))))).

Definition HMAC_Init_ex (mem : list bool) ctx (k : option (list Z)) (len : Z) (u : bool) (md : option EVP_MD) : res :=
  match (match md with Some m => Some m | None => hmd ctx end) with
  | None => Some (false, ctx, mem)
  | Some m =>
    let ctx := set_hmd ctx (Some m) in
    let no_key := match k with None => true | _ => false end in
    if negb (key_init ctx) && no_key then Some (false, ctx, mem)
    else
      let reset := match md with Some _ => true | None => negb no_key end in
      and_then (match k with Some k => take_key ctx mem k len u m | None => Some (true, ctx, mem) end) (λ ctx mem,
      and_then (if reset then set_pads ctx mem m else Some (true, ctx, mem)) (λ ctx mem,
      copy_md ctx mem (i_ctx ctx)))
  end.

Definition HMAC_Init (mem : list bool) ctx (k : option (list Z)) (len : Z) (u : bool) (md : option EVP_MD) : res :=
  let ctx := match k, md with Some _, Some _ => HMAC_CTX_init ctx | _, _ => ctx end in
  HMAC_Init_ex mem ctx k len u md.

Definition HMAC_Update ctx (u : bool) (data : list Z) : option (bool * HMAC_CTX) :=
  if negb (key_init ctx) then Some (false, ctx)
  else
    '(ok, c) ← EVP_DigestUpdate (md_ctx ctx) u data;
    Some (ok, set_md_ctx ctx c).

(** The code [*md], or [None] for the return value 0. *)
Definition HMAC_Final (mem : list bool) ctx : option (option (list Z) * HMAC_CTX * list bool) :=
  if negb (key_init ctx) then Some (None, ctx, mem)
  else
    '(ret, i, c) ← EVP_DigestFinal_ex (md_ctx ctx);
    let ctx := set_md_ctx ctx c in
    match ret with
    | None => Some (None, ctx, mem)
    | Some buf =>
      let '(ok, c, mem) := EVP_MD_CTX_copy_ex mem (md_ctx ctx) (o_ctx ctx) in
      let ctx := set_md_ctx ctx c in
      if negb ok then Some (None, ctx, mem)
      else
        '(ok, c) ← EVP_DigestUpdate (md_ctx ctx) false (take (Z.to_nat i) buf);
        let ctx := set_md_ctx ctx c in
        if negb ok then Some (None, ctx, mem)
        else
          '(ret, _, c) ← EVP_DigestFinal_ex (md_ctx ctx);
          Some (ret, set_md_ctx ctx c, mem)
    end.

Definition HMAC_CTX_copy (mem : list bool) (dctx sctx : HMAC_CTX) : bool * HMAC_CTX * list bool :=
  let '(ok, c, mem) := EVP_MD_CTX_copy mem (i_ctx sctx) in
  let dctx := set_i_ctx dctx c in
  if negb ok then (false, dctx, mem)
  else
    let '(ok, c, mem) := EVP_MD_CTX_copy mem (o_ctx sctx) in
    let dctx := set_o_ctx dctx c in
    if negb ok then (false, dctx, mem)
    else
      let '(ok, c, mem) := EVP_MD_CTX_copy mem (md_ctx sctx) in
      let dctx := set_md_ctx dctx c in
      if negb ok then (false, dctx, mem)
      else
        let '(len, k) := if key_init sctx then (key_length sctx, key sctx) else (key_length dctx, key dctx) in
        (true, HmacCtx (hmd sctx) (md_ctx dctx) (i_ctx dctx) (o_ctx dctx) len k (key_init sctx), mem).

(** The code, or [None] for [NULL]; [c0] is the uninitialised context. *)
Definition HMAC (mem : list bool) (c0 : HMAC_CTX) (evp_md : option EVP_MD) (k : option (list Z)) (key_len : Z) (d : list Z) : option (option (list Z)) :=
  let c := HMAC_CTX_init c0 in
  '(ok, c, mem) ← HMAC_Init mem c k key_len false evp_md;
  if negb ok then Some None
  else
    '(ok, c) ← HMAC_Update c false d;
    if negb ok then Some None
    else
      '(ret, c, mem) ← HMAC_Final mem c;
      Some ret.
End hmac.

(** ** Specification: RFC 2104 *)

Definition hmac_key (H : list Z → list Z) (B : Z) (K : list Z) : list Z :=
  let K := if B <? Z.of_nat (length K) then H K else K in
  K ++ replicate (Z.to_nat (B - Z.of_nat (length K))) 0.
Definition ipad_key (H : list Z → list Z) (B : Z) (K : list Z) : list Z := Z.lxor 0x36 <$> hmac_key H B K.
Definition opad_key (H : list Z → list Z) (B : Z) (K : list Z) : list Z := Z.lxor 0x5c <$> hmac_key H B K.
Definition hmac_spec (H : list Z → list Z) (B : Z) (K M : list Z) : list Z :=
  H (opad_key H B K ++ H (ipad_key H B K ++ M)).

(** ** Proofs *)

(** A call that starts with the allocations [mem] does not crash; if it returns 1 then
    the context satisfies [P], and it does so when memory suffices. *)
Definition outcome (mem : list bool) (x : res) (P : HMAC_CTX → Prop) : Prop :=
  ∃ r c mem', x = Some (r, c, mem') ∧ (r = true → P c) ∧ (plenty mem → r = true ∧ plenty mem').

Lemma outcome_ret mem c (P : HMAC_CTX → Prop) : P c → outcome mem (Some (true, c, mem)) P.
Proof. intros. by exists true, c, mem. Qed.

Lemma outcome_bind mem x f (P Q : HMAC_CTX → Prop) : outcome mem x P →
  (∀ c mem', P c → outcome mem' (f c mem') Q) → outcome mem (and_then x f) Q.
Proof.
  intros (r & c & mem' & -> & HP & Hm) Hf. unfold and_then. cbn [mbind option_bind]. destruct r.
  - destruct (Hf c mem' (HP eq_refl)) as (r & c' & mem'' & E & HQ & Hm'). exists r, c', mem''.
    split; [done|]. split; [done|]. intros P1. destruct (Hm P1) as [_ P2]. by apply Hm'.
  - exists false, c, mem'. split; [done|]. split; [done|]. intros P1. by destruct (Hm P1).
Qed.

Section correct.
Context (junk : EVP_MD → HASH_CTX) (md : EVP_MD) (rep : HASH_CTX → list Z → Prop) (H : list Z → list Z) `{!Digest md rep H}.
Context (Hjunk : Z.of_nat (length (hdata (junk md))) = block_size md).

Abbreviation act := (active md rep).
Abbreviation B := (block_size md).

(** Every member can be initialised. *)
Definition initialised (ctx : HMAC_CTX) : Prop :=
  ready md (md_ctx ctx) ∧ ready md (i_ctx ctx) ∧ ready md (o_ctx ctx) ∧ length (key ctx) = 128%nat.

(** The key is in its place, padded with zeros. *)
Definition has_key (K : list Z) (ctx : HMAC_CTX) : Prop :=
  initialised ctx ∧ hmd ctx = Some md ∧ key_init ctx = true ∧ take (Z.to_nat B) (key ctx) = hmac_key H B K.

(** The two states have read the padded key. *)
Definition keyed (K : list Z) (ctx : HMAC_CTX) : Prop :=
  has_key K ctx ∧ act (i_ctx ctx) (ipad_key H B K) ∧ act (o_ctx ctx) (opad_key H B K).

(** The working state has read the message [M]. *)
Definition running (K M : list Z) (ctx : HMAC_CTX) : Prop :=
  keyed K ctx ∧ act (md_ctx ctx) (ipad_key H B K ++ M).

Definition key_ok (K : list Z) : Prop := bytes K ∧ Z.of_nat (length K) < 2 ^ 31.

Lemma block_bounds : 0 < B ≤ 128 ∧ md_size md ≤ B ∧ 0 < md_size md.
Proof. destruct (d_block (md := md) (rep := rep) (H := H)). lia. Qed.

Lemma finish_key_spec ctx k : initialised ctx → hmd ctx = Some md → (length k ≤ Z.to_nat B)%nat →
  let ctx' := finish_key (set_key ctx (splice (key ctx) 0 k) (Z.of_nat (length k))) in
  initialised ctx' ∧ hmd ctx' = Some md ∧ key_init ctx' = true ∧
  take (Z.to_nat B) (key ctx') = k ++ replicate (Z.to_nat (B - Z.of_nat (length k))) 0.
Proof.
  intros (H1 & H2 & H3 & H4) Hm Hk ctx'. pose proof block_bounds as HB.
  assert (key ctx' = k ++ replicate (128 - length k) 0) as Ek.
  { unfold ctx', finish_key. cbn [key key_length set_key set_key_init]. unfold HMAC_MAX_MD_CBLOCK.
    assert (splice (key ctx) 0 k = k ++ drop (length k) (key ctx)) as -> by done. destruct (Z.eqb_spec (Z.of_nat (length k)) 128).
    - replace (128 - length k)%nat with 0%nat by lia. by rewrite drop_ge by lia.
    - rewrite Nat2Z.id, splice_tail by (rewrite length_drop, length_replicate; lia).
      rewrite drop_ge, app_nil_r by (rewrite length_drop, length_replicate; lia). do 2 f_equal. lia. }
  split; [|split; [done|split; [done|]]].
  - split; [exact H1|]. split; [exact H2|]. split; [exact H3|]. rewrite Ek, length_app, length_replicate. lia.
  - rewrite Ek, take_app_ge, take_replicate by lia. do 2 f_equal. lia.
Qed.

Lemma init_md_spec ctx mem : initialised ctx →
  outcome mem (init_md junk ctx mem md) (λ c, c = set_md_ctx ctx (md_ctx c) ∧ act (md_ctx c) []).
Proof.
  intros (H1 & _). destruct (EVP_DigestInit_ex_spec junk md rep H mem (md_ctx ctx) Hjunk H1) as (r & c & mem' & E & Ha & Hm).
  unfold init_md. rewrite E. cbn [mbind option_bind]. exists r, (set_md_ctx ctx c), mem'. split; [done|]. split; [|done].
  intros R. split; [done|by apply Ha].
Qed.

Lemma init_i_spec ctx mem : ready md (i_ctx ctx) →
  outcome mem (init_i junk ctx mem md) (λ c, c = set_i_ctx ctx (i_ctx c) ∧ act (i_ctx c) []).
Proof.
  intros H1. destruct (EVP_DigestInit_ex_spec junk md rep H mem (i_ctx ctx) Hjunk H1) as (r & c & mem' & E & Ha & Hm).
  unfold init_i. rewrite E. cbn [mbind option_bind]. exists r, (set_i_ctx ctx c), mem'. split; [done|]. split; [|done].
  intros R. split; [done|by apply Ha].
Qed.

Lemma init_o_spec ctx mem : ready md (o_ctx ctx) →
  outcome mem (init_o junk ctx mem md) (λ c, c = set_o_ctx ctx (o_ctx c) ∧ act (o_ctx c) []).
Proof.
  intros H1. destruct (EVP_DigestInit_ex_spec junk md rep H mem (o_ctx ctx) Hjunk H1) as (r & c & mem' & E & Ha & Hm).
  unfold init_o. rewrite E. cbn [mbind option_bind]. exists r, (set_o_ctx ctx c), mem'. split; [done|]. split; [|done].
  intros R. split; [done|by apply Ha].
Qed.

Lemma take_key_spec ctx mem K u : key_ok K → initialised ctx → hmd ctx = Some md →
  outcome mem (take_key junk ctx mem K (Z.of_nat (length K)) u md) (has_key K).
Proof.
  intros [HK Hlen] Hi Hm. pose proof block_bounds as HB. unfold take_key, HMAC_MAX_MD_CBLOCK.
  rewrite (proj2 (Z.ltb_ge 128 B)) by lia. destruct (Z.ltb_spec B (Z.of_nat (length K))) as [L|L].
  - eapply outcome_bind; [by apply init_md_spec|]. intros c1 mem1 [E1 A1].
    rewrite Nat2Z.id, firstn_all.
    destruct (EVP_DigestUpdate_spec md rep H (md_ctx c1) u [] K A1 ltac:(lia)) as (c2 & E2 & A2).
    unfold update_md at 1. rewrite E2. cbn [mbind option_bind and_then]. cbn [app] in A2.
    destruct (EVP_DigestFinal_ex_spec md rep H c2 K A2 HK) as (c3 & E3 & R3).
    cbn [md_ctx set_md_ctx]. rewrite E3. cbn [mbind option_bind]. apply outcome_ret.
    pose proof (d_size (md := md) (rep := rep) (H := H) K) as HS. rewrite <- HS.
    set (c := set_md_ctx _ c3). assert (initialised c ∧ hmd c = Some md) as [Hi' Hm'].
    { unfold c. rewrite E1. cbn. split; [|done]. destruct Hi as (_ & I2 & I3 & I4). by split. }
    destruct (finish_key_spec c (H K) Hi' Hm' ltac:(lia)) as (F1 & F2 & F3 & F4).
    split; [exact F1|]. split; [exact F2|]. split; [exact F3|]. etrans; [exact F4|]. unfold hmac_key.
    by rewrite (proj2 (Z.ltb_lt _ _)) by lia.
  - rewrite (proj2 (Z.ltb_ge (Z.of_nat (length K)) 0)), (proj2 (Z.ltb_ge 128 _)) by lia. cbn [orb].
    rewrite Nat2Z.id, firstn_all. apply outcome_ret.
    destruct (finish_key_spec ctx K Hi Hm ltac:(lia)) as (F1 & F2 & F3 & F4).
    split; [exact F1|]. split; [exact F2|]. split; [exact F3|]. etrans; [exact F4|]. unfold hmac_key.
    by rewrite (proj2 (Z.ltb_ge _ _)) by lia.
Qed.

Lemma update_i_spec ctx mem M data : act (i_ctx ctx) M → Z.of_nat (length data) < 2 ^ 64 →
  outcome mem (update_i ctx mem data) (λ c, c = set_i_ctx ctx (i_ctx c) ∧ act (i_ctx c) (M ++ data)).
Proof.
  intros A Hl. destruct (EVP_DigestUpdate_spec md rep H (i_ctx ctx) false M data A Hl) as (c & E & A').
  unfold update_i. rewrite E. cbn [mbind option_bind]. by apply outcome_ret.
Qed.

Lemma update_o_spec ctx mem M data : act (o_ctx ctx) M → Z.of_nat (length data) < 2 ^ 64 →
  outcome mem (update_o ctx mem data) (λ c, c = set_o_ctx ctx (o_ctx c) ∧ act (o_ctx c) (M ++ data)).
Proof.
  intros A Hl. destruct (EVP_DigestUpdate_spec md rep H (o_ctx ctx) false M data A Hl) as (c & E & A').
  unfold update_o. rewrite E. cbn [mbind option_bind]. by apply outcome_ret.
Qed.

Lemma set_pads_spec ctx mem K : has_key K ctx → outcome mem (set_pads junk ctx mem md) (keyed K).
Proof.
  intros (Hi & Hm & Hk & EK). pose proof Hi as (I1 & I2 & I3 & I4). pose proof block_bounds as HB. unfold set_pads.
  assert (∀ x, take (Z.to_nat B) (Z.lxor x <$> key ctx) = Z.lxor x <$> hmac_key H B K) as Epad
    by (intros; by rewrite <- EK, fmap_take).
  assert (∀ x, Z.of_nat (length (Z.lxor x <$> hmac_key H B K)) < 2 ^ 64) as Hlp
    by (intros; rewrite <- Epad, length_take, length_fmap, I4; lia).
  eapply outcome_bind; [by apply init_i_spec|]. intros c1 mem1 [E1 A1].
  eapply outcome_bind; [eapply update_i_spec; [exact A1|rewrite Epad; apply Hlp]|]. intros c2 mem2 [E2 A2].
  eapply outcome_bind; [apply init_o_spec; rewrite E2, E1; exact I3|]. intros c3 mem3 [E3 A3].
  destruct (update_o_spec c3 mem3 [] (take (Z.to_nat B) (Z.lxor 0x5c <$> key ctx)) A3 ltac:(rewrite Epad; apply Hlp))
    as (r & c4 & mem4 & E & P & Hmem). exists r, c4, mem4. split; [exact E|]. split; [|exact Hmem].
  intros R. destruct (P R) as [E4 A4]. cbn [app] in A2, A4. rewrite Epad in A2, A4.
  assert (i_ctx c4 = i_ctx c2) as Ei by (rewrite E4, E3; done).
  split; [|split; [rewrite Ei; exact A2|exact A4]].
  split.
  - split; [rewrite E4, E3, E2, E1; exact I1|]. split; [rewrite Ei; by eapply active_ready|].
    split; [by eapply active_ready|]. rewrite E4, E3, E2, E1. exact I4.
  - rewrite E4, E3, E2, E1. split; [exact Hm|]. split; [exact Hk|exact EK].
Qed.

Lemma copy_md_spec ctx mem K : keyed K ctx → outcome mem (copy_md ctx mem (i_ctx ctx)) (running K []).
Proof.
  intros Hk. pose proof Hk as (((I1 & I2 & I3 & I4) & Hm & Hi & EK) & Ai & Ao).
  destruct (EVP_MD_CTX_copy_ex_spec md rep mem (md_ctx ctx) (i_ctx ctx) _ Ai) as (r & c & mem' & E & Ha & Hmem).
  unfold copy_md. rewrite E. exists r, (set_md_ctx ctx c), mem'. split; [done|]. split; [|done]. intros R.
  split; [|rewrite app_nil_r; by apply Ha].
  split; [|by split]. split; [|by split]. split; [|by split]. by eapply active_ready, Ha.
Qed.

(** Keying: a key and a digest, or a key for the digest the context has. *)
Lemma HMAC_Init_ex_key mem ctx K u omd : key_ok K → initialised ctx → omd = Some md ∨ omd = None ∧ hmd ctx = Some md →
  outcome mem (HMAC_Init_ex junk mem ctx (Some K) (Z.of_nat (length K)) u omd) (running K []).
Proof.
  intros HK Hi Ho. unfold HMAC_Init_ex.
  assert ((match omd with Some m => Some m | None => hmd ctx end) = Some md) as -> by (by destruct Ho as [->|[-> ?]]).
  rewrite andb_false_r. replace (match omd with Some _ => true | None => negb false end) with true by (by destruct omd).
  eapply outcome_bind; [by apply take_key_spec|]. intros c1 mem1 H1.
  eapply outcome_bind; [by apply set_pads_spec|]. intros c2 mem2 H2. by apply copy_md_spec.
Qed.

(** Restarting with the key and the digest that the context has. *)
Lemma HMAC_Init_ex_restart mem ctx K len u omd : keyed K ctx → omd = Some md ∨ omd = None →
  outcome mem (HMAC_Init_ex junk mem ctx None len u omd) (running K []).
Proof.
  intros Hk Ho. pose proof Hk as ((Hi & Hm & Hki & EK) & Ai & Ao). unfold HMAC_Init_ex.
  assert ((match omd with Some m => Some m | None => hmd ctx end) = Some md) as -> by (by destruct Ho as [->| ->]).
  assert (set_hmd ctx (Some md) = ctx) as -> by (destruct ctx; cbn in Hm; by subst).
  rewrite Hki. cbn [negb andb]. eapply (outcome_bind _ _ _ (λ c, c = ctx)); [by apply outcome_ret|].
  intros c1 mem1 ->. eapply (outcome_bind _ _ _ (keyed K)); [|intros; by apply copy_md_spec].
  destruct Ho as [->| ->]; [by apply set_pads_spec|by apply outcome_ret].
Qed.

Fixpoint hmac_pieces (ctx : HMAC_CTX) (ps : list (bool * list Z)) : option (bool * HMAC_CTX) :=
  match ps with
  | [] => Some (true, ctx)
  | (u, p) :: ps =>
    '(ok, ctx) ← HMAC_Update ctx u p;
    if ok : bool then hmac_pieces ctx ps else Some (false, ctx)
  end.

Lemma hmac_pieces_spec K ps : ∀ ctx M, running K M ctx → Forall short_piece ps.*2 → ∃ ctx',
  hmac_pieces ctx ps = Some (true, ctx') ∧ running K (M ++ concat ps.*2) ctx'.
Proof.
  induction ps as [|[u p] ps IH]; intros ctx M Hr Hp; cbn [hmac_pieces].
  { exists ctx. cbn. by rewrite app_nil_r. }
  rewrite fmap_cons in *. cbn [concat snd] in *. pose proof Hr as [(((I1 & I2 & I3 & I4) & Hm & Hi & EK) & Ai & Ao) A].
  destruct (EVP_DigestUpdate_spec md rep H (md_ctx ctx) u _ p A (Forall_inv Hp)) as (c & E & A').
  unfold HMAC_Update. rewrite Hi, E. cbn [negb mbind option_bind]. rewrite app_assoc.
  apply IH; [|exact (Forall_inv_tail Hp)]. split; [|by rewrite app_assoc].
  split; [|by split]. split; [|by split]. split; [|by split]. by eapply active_ready.
Qed.

Lemma bytes_pads K x : key_ok K → is_byte x → bytes (Z.lxor x <$> hmac_key H B K).
Proof.
  intros [HK _] Hx. apply Forall_fmap. assert (bytes (hmac_key H B K)) as Hb.
  { unfold hmac_key. apply bytes_app; [|auto with vtls]. destruct (B <? _); [|done]. exact (d_bytes (md := md) (rep := rep) K). }
  eapply Forall_impl; [|exact Hb]. intros y Hy. by apply is_byte_lxor.
Qed.

Lemma HMAC_Final_spec mem K M ctx : key_ok K → bytes M → running K M ctx → ∃ ret ctx' mem',
  HMAC_Final mem ctx = Some (ret, ctx', mem') ∧ (ret = None ∨ ret = Some (hmac_spec H B K M) ∧ keyed K ctx') ∧
  (plenty mem → ret ≠ None ∧ plenty mem').
Proof.
  intros HK HM Hr. pose proof Hr as [(((I1 & I2 & I3 & I4) & Hm & Hi & EK) & Ai & Ao) A].
  assert (bytes (ipad_key H B K)) as Hbi by (by apply bytes_pads). assert (bytes (opad_key H B K)) as Hbo by (by apply bytes_pads).
  destruct (EVP_DigestFinal_ex_spec md rep H (md_ctx ctx) _ A ltac:(by apply bytes_app)) as (c1 & E1 & R1).
  unfold HMAC_Final. rewrite Hi, E1. cbn [negb mbind option_bind md_ctx set_md_ctx o_ctx].
  destruct (EVP_MD_CTX_copy_ex_spec md rep mem c1 (o_ctx ctx) _ Ao) as (r & c2 & mem2 & E2 & A2 & Hmem).
  rewrite E2. destruct r; cbn [negb].
  2:{ eexists None, _, mem2. split; [reflexivity|]. split; [by left|]. intros P. by destruct (Hmem P). }
  pose proof (d_size (md := md) (rep := rep) (H := H) (ipad_key H B K ++ M)) as HS. pose proof block_bounds as HB.
  rewrite <- HS, Nat2Z.id, firstn_all.
  destruct (EVP_DigestUpdate_spec md rep H c2 false _ (H (ipad_key H B K ++ M)) (A2 eq_refl) ltac:(lia)) as (c3 & E3 & A3).
  rewrite E3. cbn [negb mbind option_bind md_ctx set_md_ctx].
  destruct (EVP_DigestFinal_ex_spec md rep H c3 _ A3 ltac:(apply bytes_app; [done|exact (d_bytes (md := md) (rep := rep) _)])) as (c4 & E4 & R4).
  rewrite E4. cbn [mbind option_bind]. eexists _, _, mem2. split; [reflexivity|]. split; [|intros P; split; [done|by apply Hmem]].
  right. split; [done|]. split; [|by split]. split; [|by split]. by split.
Qed.
End correct.

(** C13: HMAC is the code of RFC 2104 for every digest that keeps its promises: keying
    a context (fresh or used before) with a key of any length never goes through a
    null pointer, whatever the outcomes of the allocations; if it returns 1, then
    the updates of any pieces return 1, and the final function returns either the
    code of the concatenation or, for want of memory, an error; and after
    a code was returned a restart without key and digest makes the context ready for
    another message under the same key.  With enough memory nothing fails. *)
Theorem HMAC_correct junk md rep H `{!Digest md rep H} mem ctx K u omd ps :
  Z.of_nat (length (hdata (junk md))) = block_size md → initialised md ctx → omd = Some md ∨ omd = None ∧ hmd ctx = Some md →
  key_ok K → Forall short_piece ps.*2 → bytes (concat ps.*2) → ∃ r c mem1,
  HMAC_Init_ex junk mem ctx (Some K) (Z.of_nat (length K)) u omd = Some (r, c, mem1) ∧ (plenty mem → r = true) ∧
  (r = true → ∃ c1 ret c2 mem2, hmac_pieces c ps = Some (true, c1) ∧ HMAC_Final mem1 c1 = Some (ret, c2, mem2) ∧
    (plenty mem → ret ≠ None) ∧
    (ret ≠ None → ret = Some (hmac_spec H (block_size md) K (concat ps.*2)) ∧
      outcome mem2 (HMAC_Init_ex junk mem2 c2 None 0 false None) (running md rep H K []))).
Proof.
  intros Hj Hi Ho HK Hp Hb.
  destruct (HMAC_Init_ex_key junk md rep H Hj mem ctx K u omd HK Hi Ho) as (r & c & mem1 & E & Hr & Hm).
  exists r, c, mem1. split; [exact E|]. split; [intros P; by destruct (Hm P)|]. intros R.
  destruct (hmac_pieces_spec md rep H K ps c [] (Hr R) Hp) as (c1 & E1 & H1).
  destruct (HMAC_Final_spec junk md rep H mem1 K _ c1 HK Hb H1) as (ret & c2 & mem2 & E2 & H2 & Hm2).
  exists c1, ret, c2, mem2. split; [exact E1|]. split; [exact E2|]. split; [intros P; destruct (Hm P) as [_ P1]; by destruct (Hm2 P1)|].
  intros N. destruct H2 as [->|[-> Hk]]; [done|]. split; [done|]. apply (HMAC_Init_ex_restart junk md rep H Hj); [exact Hk|by right].
Qed.

(** A fresh context and a stray one, for SHA-256 and a key longer than a block. *)
Lemma HMAC_correct_witness :
  let junk m := HCtx [] 0 0 (replicate (Z.to_nat (block_size m)) 7) 0 0 in
  let ctx := HMAC_CTX_init (HmacCtx None EVP_MD_CTX_init EVP_MD_CTX_init EVP_MD_CTX_init 3 (replicate 128 9) true) in
  let K := replicate 70 11 in
  ∃ r c mem1, HMAC_Init_ex junk [true; false] ctx (Some K) (Z.of_nat (length K)) true (Some (sha256_md true)) = Some (r, c, mem1) ∧
  (plenty [true; false] → r = true) ∧
  (r = true → ∃ c1 ret c2 mem2, hmac_pieces c [(true, [97; 98]); (false, [99])] = Some (true, c1) ∧
    HMAC_Final mem1 c1 = Some (ret, c2, mem2) ∧ (plenty [true; false] → ret ≠ None) ∧
    (ret ≠ None → ret = Some (hmac_spec SHA256_fips 64 K [97; 98; 99]) ∧
      outcome mem2 (HMAC_Init_ex junk mem2 c2 None 0 false None)
        (running (sha256_md true) (collected 64 32 (sha256_compress true) (hash SHA256_Init) 32) SHA256_fips K []))).
Proof.
  intros junk ctx K.
  apply (HMAC_correct junk (sha256_md true) _ SHA256_fips [true; false] ctx K true (Some (sha256_md true))
    [(true, [97; 98]); (false, [99])]).
  - reflexivity.
  - split; [by apply ready_init|]. split; [by apply ready_init|]. split; [by apply ready_init|reflexivity].
  - by left.
  - split; [|reflexivity]. apply (bool_decide_eq_true_1 _). vm_compute. reflexivity.
  - apply (bool_decide_eq_true_1 _). vm_compute. reflexivity.
  - apply (bool_decide_eq_true_1 _). vm_compute. reflexivity.
Defined.

(** The one-shot function returns the code, or [NULL] for want of memory. *)
Lemma HMAC_one_shot junk md rep H `{!Digest md rep H} mem c0 K M :
  Z.of_nat (length (hdata (junk md))) = block_size md → length (key c0) = 128%nat → key_ok K →
  Z.of_nat (length M) < 2 ^ 64 → bytes M → ∃ ret,
  HMAC junk mem c0 (Some md) (Some K) (Z.of_nat (length K)) M = Some ret ∧
  (ret = None ∨ ret = Some (hmac_spec H (block_size md) K M)) ∧ (plenty mem → ret ≠ None).
Proof.
  intros Hj Hc HK Hl HM. unfold HMAC, HMAC_Init.
  assert (initialised md (HMAC_CTX_init (HMAC_CTX_init c0))) as Hi
    by (split; [apply ready_init|split; [apply ready_init|split; [apply ready_init|exact Hc]]]).
  destruct (HMAC_Init_ex_key junk md rep H Hj mem _ K false (Some md) HK Hi (or_introl eq_refl)) as (r & c & mem1 & -> & Hr & Hm).
  cbn [mbind option_bind]. destruct r; cbn [negb].
  2:{ exists None. split; [done|]. split; [by left|]. intros P. by destruct (Hm P). }
  assert (Forall short_piece [(false, M)].*2) as Hp by (apply Forall_cons_2; [exact Hl|apply Forall_nil_2]).
  destruct (hmac_pieces_spec md rep H K [(false, M)] c [] (Hr eq_refl) Hp) as (c1 & E1 & H1).
  cbn [hmac_pieces] in E1. cbn in H1. rewrite app_nil_r in H1.
  destruct (HMAC_Update c false M) as [[[|] c1']|]; [|done|done]. cbn in E1. injection E1 as ->. cbn [mbind option_bind negb].
  destruct (HMAC_Final_spec junk md rep H mem1 K M c1 HK HM H1) as (ret & c2 & mem2 & -> & H2 & Hm2).
  exists ret. split; [done|]. split; [destruct H2 as [?|[? _]]; tauto|]. intros P. destruct (Hm P) as [_ P1]. by destruct (Hm2 P1).
Qed.

(** A copy of a context goes on where the original is. *)
Lemma HMAC_CTX_copy_running mem dctx sctx md rep H `{!Digest md rep H} K M : length (key sctx) = 128%nat →
  running md rep H K M sctx → ∃ r c mem', HMAC_CTX_copy mem dctx sctx = (r, c, mem') ∧ (r = true → running md rep H K M c) ∧
  (plenty mem → r = true ∧ plenty mem').
Proof.
  intros Hk Hr. pose proof Hr as [(((I1 & I2 & I3 & I4) & Hm & Hi & EK) & Ai & Ao) A]. unfold HMAC_CTX_copy, EVP_MD_CTX_copy.
  destruct (EVP_MD_CTX_copy_ex_spec md rep mem EVP_MD_CTX_init (i_ctx sctx) _ Ai) as (r1 & c1 & mem1 & -> & A1 & M1).
  destruct r1; cbn [negb]; [|by eexists false, _, mem1; split; [reflexivity|]; split; [done|]; intros P; destruct (M1 P)].
  destruct (EVP_MD_CTX_copy_ex_spec md rep mem1 EVP_MD_CTX_init (o_ctx sctx) _ Ao) as (r2 & c2 & mem2 & -> & A2 & M2).
  destruct r2; cbn [negb]; [|by eexists false, _, mem2; split; [reflexivity|]; split; [done|]; intros P; destruct (M1 P) as [_ P1]; destruct (M2 P1)].
  destruct (EVP_MD_CTX_copy_ex_spec md rep mem2 EVP_MD_CTX_init (md_ctx sctx) _ A) as (r3 & c3 & mem3 & -> & A3 & M3).
  destruct r3; cbn [negb];
    [|by eexists false, _, mem3; split; [reflexivity|]; split; [done|]; intros P; destruct (M1 P) as [_ P1]; destruct (M2 P1) as [_ P2]; destruct (M3 P2)].
  rewrite Hi. eexists true, _, mem3. split; [reflexivity|].
  split; [|intros P; destruct (M1 P) as [_ P1]; destruct (M2 P1) as [_ P2]; by destruct (M3 P2)]. intros _.
  specialize (A1 eq_refl). specialize (A2 eq_refl). specialize (A3 eq_refl).
  split; [|exact A3]. split; [|by split]. split; [|by split].
  split; [by eapply active_ready|]. split; [by eapply active_ready|]. split; [by eapply active_ready|exact I4].
Qed.

(** With another digest and no key the padded key of the old digest is used: a key of 100
    bytes fits into a block of SHA-512 but has to be hashed for SHA-256. *)
Definition change_digest (K M : list Z) : option (option (list Z)) :=
  let junk m := HCtx [] 0 0 (replicate (Z.to_nat (block_size m)) 7) 0 0 in
  let ctx := HMAC_CTX_init (HmacCtx None EVP_MD_CTX_init EVP_MD_CTX_init EVP_MD_CTX_init 0 (replicate 128 0) false) in
  '(ok, c, mem) ← HMAC_Init_ex junk [] ctx (Some K) (Z.of_nat (length K)) false (Some (sha512_md false));
  '(ok, c, mem) ← HMAC_Init_ex junk mem c None 0 false (Some (sha256_md true));
  '(ok, c) ← HMAC_Update c false M;
  '(ret, c, mem) ← HMAC_Final mem c;
  Some ret.

Example HMAC_change_digest :
  change_digest (replicate 100 11) [97] ≠ Some (Some (hmac_spec SHA256_fips 64 (replicate 100 11) [97])) ∧
  change_digest (replicate 100 11) [97] = Some (Some (hmac_spec SHA256_fips 64 (replicate 64 11) [97])).
Proof. apply (bool_decide_eq_true_1 _). vm_compute. reflexivity. Qed.

(** Test case 2 of RFC 4231. *)
Example HMAC_examples :
  let junk m := HCtx [] 0 0 (replicate (Z.to_nat (block_size m)) 7) 0 0 in
  let c0 := HmacCtx None EVP_MD_CTX_init EVP_MD_CTX_init EVP_MD_CTX_init 5 (replicate 128 1) true in
  let mac m := HMAC junk [] c0 (Some m) (Some [74; 101; 102; 101]) 4
    [119; 104; 97; 116; 32; 100; 111; 32; 121; 97; 32; 119; 97; 110; 116; 32; 102; 111; 114; 32; 110; 111; 116; 104; 105; 110; 103; 63] in
  ((fmap (M := option) be_load) <$> mac (sha256_md false)) = Some (Some 0x5bdcc146bf60754e6a042426089575c75a003f089d2739839dec58b964ec3843) ∧
  ((fmap (M := option) be_load) <$> mac (sha384_md false)) =
    Some (Some 0xaf45d2e376484031617f78d2b58a6b1b9c7ef464f5a01b47e42ec3736322445e8e2240ca5e69e2c78b3239ecfab21649).
Proof. vm_compute. done. Qed.
