(* ===== verification/CbcDigest.v ===== *)
(** * The digest of CBC records in constant time

    Models [ssl3_cbc_digest_record] of [ssl/s3_cbc.c]: the MAC of a decrypted TLS record
    whose length (after removing the padding) is secret.  The hash blocks that the
    padding can reach are all computed with the raw block function, each
    byte selected by masks, and the state after the right one is picked
    by a mask; the outer hash goes through the digest interface.

    The theorem is that this is the HMAC of header and data, for every digest and every
    length that the padding check can leave. *)

From S2P Require Import Prelude ConstTime Md32 Sha2 Sha256 Sha512 Sha1 Md5 EvpDigest Hmac.

Definition MAX_HASH_BIT_COUNT_BYTES : Z := 16.
Definition MAX_HASH_BLOCK_SIZE : Z := 128.

(** ** Raw digests *)

(** [u32toLE], [l2n] and [l2n8] *)
Definition u32toLE (n : Z) : list Z := [u8 n; u8 (n ≫ 8); u8 (n ≫ 16); u8 (n ≫ 24)].
Definition l2n (l : Z) : list Z :=
  [u8 (Z.land (l ≫ 24) 0xff); u8 (Z.land (l ≫ 16) 0xff); u8 (Z.land (l ≫ 8) 0xff); u8 (Z.land l 0xff)].
Definition l2n8 (l : Z) : list Z :=
  [u8 (Z.land (l ≫ 56) 0xff); u8 (Z.land (l ≫ 48) 0xff); u8 (Z.land (l ≫ 40) 0xff); u8 (Z.land (l ≫ 32) 0xff);
   u8 (Z.land (l ≫ 24) 0xff); u8 (Z.land (l ≫ 16) 0xff); u8 (Z.land (l ≫ 8) 0xff); u8 (Z.land l 0xff)].

Definition tls1_md5_final_raw (h : list Z) : list Z :=
  u32toLE (nthZ h 0) ++ u32toLE (nthZ h 1) ++ u32toLE (nthZ h 2) ++ u32toLE (nthZ h 3).
Definition tls1_sha1_final_raw (h : list Z) : list Z :=
  l2n (nthZ h 0) ++ l2n (nthZ h 1) ++ l2n (nthZ h 2) ++ l2n (nthZ h 3) ++ l2n (nthZ h 4).
Definition tls1_sha256_final_raw (h : list Z) : list Z := concat ((λ i, l2n (nthZ h i)) <$> seq 0 8).
Definition tls1_sha512_final_raw (h : list Z) : list Z := concat ((λ i, l2n8 (nthZ h i)) <$> seq 0 8).

(** What the switch over the digests sets. *)
Record raw_md := RawMd {
  r_init : HASH_CTX;
  md_transform : HASH_CTX → list Z → HASH_CTX;
  md_final_raw : list Z → list Z;
  r_size : Z;
  r_block : Z;
  r_length_size : Z;
  r_big_endian : bool
}.

(** [junk] is the uninitialised [md_state]; [unaligned] says whether the blocks are. *)
Definition raw_digest (small x86 unaligned : bool) (junk : HASH_CTX) (type : Z) : option raw_md :=
  if type =? NID_md5 then Some (RawMd MD5_Init MD5_Transform tls1_md5_final_raw 16 64 8 false)
  else if type =? NID_sha1 then Some (RawMd SHA1_Init SHA1_Transform tls1_sha1_final_raw 20 64 8 true)
  else if type =? NID_sha224 then Some (RawMd SHA224_Init (SHA256_Transform small) tls1_sha256_final_raw (224 `div` 8) 64 8 true)
  else if type =? NID_sha256 then Some (RawMd SHA256_Init (SHA256_Transform small) tls1_sha256_final_raw 32 64 8 true)
  else if type =? NID_sha384 then
    Some (RawMd (SHA384_Init junk) (SHA512_Transform (sha512_compress x86) unaligned) tls1_sha512_final_raw (384 `div` 8) 128 16 true)
  else if type =? NID_sha512 then
    Some (RawMd (SHA512_Init junk) (SHA512_Transform (sha512_compress x86) unaligned) tls1_sha512_final_raw 64 128 16 true)
  else None.

(** [ssl3_cbc_record_digest_supported] *)
Definition ssl3_cbc_record_digest_supported (type : Z) : bool :=
  (type =? NID_md5) || (type =? NID_sha1) || (type =? NID_sha224) || (type =? NID_sha256) || (type =? NID_sha384) || (type =? NID_sha512).

(** ** The record digest *)

Definition header_length : Z := 13.
Definition variance_blocks : Z := 6.

(** [length_bytes] *)
Definition make_length_bytes (big_endian : bool) (md_length_size bits : Z) : list Z :=
  if big_endian then
    replicate (Z.to_nat (md_length_size - 4)) 0 ++ [u8 (bits ≫ 24); u8 (bits ≫ 16); u8 (bits ≫ 8); u8 bits]
  else
    let l := replicate (Z.to_nat md_length_size) 0 in
    let l := setb l (md_length_size - 5) (u8 (bits ≫ 24)) in
    let l := setb l (md_length_size - 6) (u8 (bits ≫ 16)) in
    let l := setb l (md_length_size - 7) (u8 (bits ≫ 8)) in
    setb l (md_length_size - 8) (u8 bits).

Section record.
Context (header data : list Z) (size : Z).
(** [size] is [data_plus_mac_plus_padding_size] *)

Section final_blocks.
Context (r : raw_md) (length_bytes : list Z) (index_a index_b c : Z).

(** Byte [j] of a block, at position [k] of header and data. *)
Definition block_byte (is_block_a is_block_b k j : Z) : Z :=
  let b := if k <? header_length then getb header k
           else if k <? size + header_length then getb data (k - header_length) else 0 in
  let is_past_c := Z.land is_block_a (constant_time_ge_8 j c) in
  let is_past_cp1 := Z.land is_block_a (constant_time_ge_8 j (u32 (c + 1))) in
  let b := constant_time_select_8 is_past_c 0x80 b in
  let b := u8 (Z.land b (Z.lnot is_past_cp1)) in
  let b := u8 (Z.land b (Z.lor (Z.lnot is_block_b) is_block_a)) in
  if r_block r - r_length_size r <=? j then
    constant_time_select_8 is_block_b (getb length_bytes (j - (r_block r - r_length_size r))) b
  else b.

Fixpoint make_block (n : nat) (is_block_a is_block_b k j : Z) : list Z :=
  match n with
  | O => []
  | S n => block_byte is_block_a is_block_b k j :: make_block n is_block_a is_block_b (k + 1) (j + 1)
  end.

(** [mac_out[j] |= block[j] & is_block_b] for [n] bytes. *)
Fixpoint or_mac (mac_out block : list Z) (is_block_b : Z) (n : nat) : list Z :=
  match n, mac_out, block with
  | S n, m :: mac_out, x :: block => u8 (Z.lor m (Z.land x is_block_b)) :: or_mac mac_out block is_block_b n
  | _, _, _ => mac_out
  end.

(** The loop over the last blocks, from block [i] and position [k]. *)
Fixpoint final_loop (n : nat) (i k : Z) (md_state : HASH_CTX) (mac_out : list Z) : list Z :=
  match n with
  | O => mac_out
  | S n =>
    let is_block_a := constant_time_eq_8 i index_a in
    let is_block_b := constant_time_eq_8 i index_b in
    let block := make_block (Z.to_nat (r_block r)) is_block_a is_block_b k 0 in
    let md_state := md_transform r md_state block in
    let block := splice block 0 (md_final_raw r (hash md_state)) in
    final_loop n (i + 1) (k + r_block r) md_state (or_mac mac_out block is_block_b (Z.to_nat (r_size r)))
  end.
End final_blocks.

(** [for (i = 1; i < k / md_block_size; i++)] *)
Fixpoint starting_loop (r : raw_md) (n : nat) (i : Z) (md_state : HASH_CTX) : HASH_CTX :=
  match n with
  | O => md_state
  | S n =>
    let md_state := md_transform r md_state (drop (Z.to_nat (r_block r * i - 13)) data) in
    starting_loop r n (i + 1) md_state
  end.

(** The inner hash of the MAC; [hmac_pad] is the key with the inner pad. *)
Definition inner_digest (r : raw_md) (data_plus_mac_size : Z) (hmac_pad : list Z) : list Z :=
  let md_size := r_size r in
  let md_block_size := r_block r in
  let md_length_size := r_length_size r in
  let len := u32 (size + header_length) in
  let max_mac_bytes := u32 (len - md_size - 1) in
  let num_blocks := u32 (max_mac_bytes + 1 + md_length_size + md_block_size - 1) `div` md_block_size in
  let mac_end_offset := u32 (data_plus_mac_size + header_length - md_size) in
  let c := mac_end_offset `mod` md_block_size in
  let index_a := mac_end_offset `div` md_block_size in
  let index_b := u32 (mac_end_offset + md_length_size) `div` md_block_size in
  let '(num_starting_blocks, k) :=
    if variance_blocks <? num_blocks then (num_blocks - variance_blocks, u32 (md_block_size * (num_blocks - variance_blocks))) else (0, 0) in
  let bits := u32 (u32 (8 * mac_end_offset) + 8 * md_block_size) in
  let md_state := md_transform r (r_init r) hmac_pad in
  let length_bytes := make_length_bytes (r_big_endian r) md_length_size bits in
  let md_state :=
    if 0 <? k then
      let first_block := take 13 header ++ take (Z.to_nat (md_block_size - 13)) data in
      starting_loop r (Z.to_nat (k `div` md_block_size - 1)) 1 (md_transform r md_state first_block)
    else md_state in
  final_loop r length_bytes index_a index_b c (Z.to_nat (variance_blocks + 1)) num_starting_blocks k md_state (replicate 64 0).
End record.

(** [None] is an abort or a call through a null pointer; otherwise [md_out], [None]
    inside when the final function fails.  The return values of the digest functions
    are not looked at. *)
Definition ssl3_cbc_digest_record (junk : EVP_MD → HASH_CTX) (mem : list bool) (small x86 unaligned : bool) (stack : HASH_CTX)
    (md : EVP_MD) (header data : list Z) (data_plus_mac_size size : Z) (mac_secret : list Z) : option (option (list Z)) :=
  if 1024 * 1024 <=? size then None
  else
    r ← raw_digest small x86 unaligned stack (mtype md);
    if (MAX_HASH_BIT_COUNT_BYTES <? r_length_size r) || (MAX_HASH_BLOCK_SIZE <? r_block r) || (64 <? r_size r) ||
       (MAX_HASH_BLOCK_SIZE <? Z.of_nat (length mac_secret)) then None
    else
      let md_block_size := Z.to_nat (r_block r) in
      let hmac_pad := splice (replicate md_block_size 0) 0 mac_secret in
      let hmac_pad := (λ b, Z.lxor b 0x36) <$> hmac_pad in
      let mac_out := inner_digest header data size r data_plus_mac_size hmac_pad in
      '(_, c, _) ← EVP_DigestInit_ex junk mem EVP_MD_CTX_init (Some md);
      let hmac_pad := (λ b, Z.lxor b 0x6a) <$> hmac_pad in
      '(_, c) ← EVP_DigestUpdate c unaligned (take md_block_size hmac_pad);
      '(_, c) ← EVP_DigestUpdate c unaligned (take (Z.to_nat (r_size r)) mac_out);
      '(ret, _, _) ← EVP_DigestFinal c;
      Some ret.

(** ** What a raw digest promises *)

Class RawDigest (r : raw_md) (md : EVP_MD) (H : list Z → list Z) (compress : list Z → list Z → list Z) : Prop := {
  raw_params : r_block r = 64 ∧ r_length_size r = 8 ∨ r_block r = 128 ∧ r_length_size r = 16 ∧ r_big_endian r = true;
  raw_block : r_block r = block_size md;
  raw_size : r_size r = md_size md ∧ 0 < r_size r ≤ 64;
  raw_transform c b : hash (md_transform r c b) = compress (hash c) (take (Z.to_nat (r_block r)) b);
  raw_final h : bytes (md_final_raw r h) ∧ r_size r ≤ Z.of_nat (length (md_final_raw r h)) ≤ r_block r;
  raw_hash M : bytes M → H M = take (Z.to_nat (r_size r)) (md_final_raw r
    (iterate (Z.to_nat (r_block r)) compress (hash (r_init r))
      (md_pad (Z.to_nat (r_block r)) (Z.to_nat (r_length_size r)) (r_big_endian r) M)))
}.

(** ** Helpers *)

Lemma iter_blocks_snoc B compress : ∀ n h p,
  iter_blocks B compress h p (S n) = compress (iter_blocks B compress h p n) (take B (drop (n * B) p)).
Proof.
  induction n as [|n IH]; intros h p; [done|]. change (iter_blocks B compress h p (S (S n))) with
    (iter_blocks B compress (compress h (take B p)) (drop B p) (S n)).
  rewrite IH. cbn [iter_blocks]. rewrite drop_drop. done.
Qed.

Lemma select_8_mask b x y : is_byte x → is_byte y → constant_time_select_8 (mask8 b) x y = if b then x else y.
Proof.
  intros Hx Hy. unfold constant_time_select_8, constant_time_select. destruct b; unfold mask8.
  - change 255 with (Z.ones 8). rewrite Z.land_comm, Z.land_ones by lia. rewrite (Z.mod_small x) by done.
    apply Z.bits_inj'. intros n Hn. unfold u8. destruct (decide (n < 8)) as [L|L].
    + rewrite Z.mod_pow2_bits_low, Z.lor_spec, Z.land_spec by lia. unfold u32.
      rewrite Z.mod_pow2_bits_low, Z.lnot_spec, Z.ones_spec_low by lia. cbn. by rewrite orb_false_r.
    + rewrite Z.mod_pow2_bits_high by lia. symmetry. by apply (bounded_bits 8); [lia|unfold is_byte in Hx; lia|lia].
  - rewrite Z.land_0_l, Z.lor_0_l. change (u32 (Z.lnot 0)) with (Z.ones 32). rewrite Z.land_comm, Z.land_ones by lia.
    rewrite (Z.mod_small y) by (unfold is_byte in Hy; lia). by apply u8_id.
Qed.

Lemma land_mask8_and a b : Z.land (mask8 a) (mask8 b) = mask8 (a && b).
Proof. by destruct a, b. Qed.

Lemma clear_mask b x : is_byte x → u8 (Z.land x (Z.lnot (mask8 b))) = if b then 0 else x.
Proof.
  intros Hx. destruct b; unfold mask8; [|rewrite Z.land_m1_r; by apply u8_id].
  apply (proj1 (Z.eqb_eq _ _)). revert x Hx. apply (byte_forall (λ x, u8 (Z.land x (Z.lnot 255)) =? 0)). vm_compute. reflexivity.
Qed.

Lemma keep_mask a b x : is_byte x → u8 (Z.land x (Z.lor (Z.lnot (mask8 b)) (mask8 a))) = if b && negb a then 0 else x.
Proof.
  intros Hx. destruct a, b; cbn [andb negb].
  - replace (Z.lor (Z.lnot (mask8 true)) (mask8 true)) with (-1) by done. rewrite Z.land_m1_r. by apply u8_id.
  - replace (Z.lor (Z.lnot (mask8 false)) (mask8 true)) with (-1) by done. rewrite Z.land_m1_r. by apply u8_id.
  - cbn [mask8]. rewrite Z.lor_0_r. exact (clear_mask true x Hx).
  - replace (Z.lor (Z.lnot (mask8 false)) (mask8 false)) with (-1) by done. rewrite Z.land_m1_r. by apply u8_id.
Qed.

Lemma or_mac_skip n : ∀ mac block, bytes mac → or_mac mac block (mask8 false) n = mac.
Proof.
  induction n as [|n IH]; intros [|m mac] [|x block] Hm; try done. cbn [or_mac].
  apply bytes_cons_inv in Hm as [Hm1 Hm2]. rewrite IH by done. cbn [mask8]. rewrite Z.land_0_r, Z.lor_0_r. f_equal. by apply u8_id.
Qed.

Lemma or_mac_take n : ∀ k block, bytes block → (n ≤ k)%nat → (n ≤ length block)%nat →
  take n (or_mac (replicate k 0) block (mask8 true) n) = take n block.
Proof.
  induction n as [|n IH]; intros k block Hb Hk Hl; [done|].
  destruct k as [|k]; [lia|]. destruct block as [|x block]; [cbn in Hl; lia|]. cbn [replicate or_mac take].
  apply bytes_cons_inv in Hb as [Hx Hb]. cbn [length] in Hl. rewrite IH by (done || lia). f_equal.
  rewrite Z.lor_0_l. cbn [mask8]. change 255 with (Z.ones 8). rewrite Z.land_ones by lia. unfold u8. by rewrite Z.mod_mod, Z.mod_small by (unfold is_byte in Hx; lia).
Qed.

Lemma bytes_or_mac b n : ∀ mac block, bytes mac → bytes (or_mac mac block b n).
Proof.
  induction n as [|n IH]; intros [|m mac] [|x block] Hm; try done. cbn [or_mac].
  apply bytes_cons_inv in Hm as [Hm1 Hm2]. apply Forall_cons_2; [apply u8_byte|by apply IH].
Qed.

Lemma be_store_0 n : be_store n 0 = replicate n 0.
Proof. induction n as [|n IH]; [done|]. rewrite be_store_S, Z.shiftr_0_l, IH. change (u8 0) with 0. by rewrite <- replicate_cons_app. Qed.

Lemma length_bytes_store r md H compress bits : RawDigest r md H compress → 0 ≤ bits < 2 ^ 32 →
  make_length_bytes (r_big_endian r) (r_length_size r) bits = bits_store (r_big_endian r) (Z.to_nat (r_length_size r)) bits.
Proof.
  intros R Hb. unfold make_length_bytes, bits_store.
  assert (∀ n, be_store (n + 4) bits = replicate n 0 ++ [u8 (bits ≫ 24); u8 (bits ≫ 16); u8 (bits ≫ 8); u8 bits]) as E.
  { intros n. pose proof (be_store_app n 4 0 bits Hb) as E. rewrite Z.mul_0_l, Z.add_0_l in E. rewrite E, be_store_0. f_equal.
    rewrite !be_store_S, !Z.shiftr_shiftr by lia. done. }
  destruct (raw_params (r := r) (md := md) (H := H)) as [[_ ->]|(_ & -> & ->)]; [destruct (r_big_endian r)|]; [symmetry; apply (E 4%nat)| |symmetry; apply (E 12%nat)].
  change (Z.to_nat 8) with 8%nat. assert (le_store 8 bits = reverse (be_store 8 bits)) as -> by (unfold be_store; by rewrite reverse_involutive).
  change 8%nat with (4 + 4)%nat at 2. rewrite (E 4%nat). reflexivity.
Qed.

(** ** The padded message, byte by byte *)

Section padded.
Context (r : raw_md) (md : EVP_MD) (H : list Z → list Z) (compress : list Z → list Z → list Z) `{!RawDigest r md H compress}.
Context (header data : list Z) (size dpm : Z).
Context (Hh : bytes header) (Hhl : length header = 13%nat) (Hd : bytes data) (Hdl : Z.of_nat (length data) = size).
Context (Hsize : size < 2 ^ 20) (Hlo : r_size r ≤ dpm) (Hhi : dpm ≤ size) (Hpad : size ≤ dpm + 256).

Abbreviation B := (r_block r).
Abbreviation L := (r_length_size r).

(** The bytes that are authenticated and their number. *)
Definition msg : list Z := header ++ take (Z.to_nat (dpm - r_size r)) data.
Definition E : Z := dpm + 13 - r_size r.
Definition bits : Z := 8 * (B + E).
Definition last_block : Z := (E + L) `div` B.

(** What follows the key block in the padded message. *)
Definition padded : list Z :=
  msg ++ [0x80] ++ replicate (Z.to_nat ((last_block + 1) * B - L - 1 - E)) 0 ++ bits_store (r_big_endian r) (Z.to_nat L) bits.

Lemma params : (B = 64 ∧ L = 8 ∨ B = 128 ∧ L = 16) ∧ 0 ≤ E.
Proof. unfold E. destruct (raw_params (r := r) (md := md) (H := H)) as [?|?]; lia. Qed.

Lemma length_msg : Z.of_nat (length msg) = E.
Proof. unfold msg, E. rewrite length_app, length_take, Hhl. destruct (raw_size (r := r) (md := md) (H := H)). lia. Qed.

Lemma last_block_spec : last_block * B ≤ E + L < (last_block + 1) * B ∧ 0 ≤ last_block.
Proof.
  destruct params as [Hp HE]. unfold last_block. pose proof (Z.div_mod (E + L) B ltac:(lia)).
  pose proof (Z.mod_pos_bound (E + L) B ltac:(lia)). assert (0 ≤ (E + L) `div` B) by (apply Z.div_pos; lia). nia.
Qed.

Lemma length_padded : Z.of_nat (length padded) = (last_block + 1) * B.
Proof.
  destruct params as [Hp HE]. pose proof last_block_spec. unfold padded.
  rewrite !length_app, length_replicate, length_bits_store. cbn [length]. pose proof length_msg. lia.
Qed.

Lemma md_pad_key key : Z.of_nat (length key) = B →
  md_pad (Z.to_nat B) (Z.to_nat L) (r_big_endian r) (key ++ msg) = key ++ padded.
Proof.
  intros Hk. destruct params as [Hp HE]. pose proof last_block_spec as Hlb. pose proof length_msg as Hm.
  unfold md_pad, padded. rewrite length_app, <- app_assoc. do 3 f_equal. f_equal; [|f_equal; unfold bits; lia].
  f_equal. rewrite !Z2Nat.id by lia.
  replace (_ `mod` B) with ((last_block + 1) * B - L - 1 - E); [lia|].
  apply (Z.mod_unique _ _ (- last_block - 1)); [left; lia|]. lia.
Qed.

Lemma bytes_padded : bytes padded.
Proof.
  unfold padded, msg. repeat (apply bytes_app; auto with vtls); [by apply (bool_decide_eq_true_1 _)|].
  unfold bits_store. destruct (r_big_endian r); [apply bytes_be_store|apply bytes_le_store].
Qed.

Lemma getb_msg n : 0 ≤ n < E → getb padded n = if n <? 13 then getb header n else getb data (n - 13).
Proof.
  intros Hn. pose proof length_msg as Hm. unfold padded. rewrite getb_app_l by lia. unfold msg.
  destruct (Z.ltb_spec n 13); [by rewrite getb_app_l by lia|]. rewrite getb_app_r, Hhl by lia.
  rewrite getb_take; [done|]. unfold E in Hn. lia.
Qed.

Lemma getb_mark : getb padded E = 0x80.
Proof. unfold padded. pose proof length_msg as Hm. rewrite getb_app_r by lia. rewrite Hm, Z.sub_diag. done. Qed.

Lemma getb_tail n : E < n < (last_block + 1) * B → getb padded n =
  if (last_block + 1) * B - L <=? n then getb (bits_store (r_big_endian r) (Z.to_nat L) bits) (n - ((last_block + 1) * B - L)) else 0.
Proof.
  intros Hn. destruct params as [Hp HE]. pose proof last_block_spec as Hlb. pose proof length_msg as Hm.
  unfold padded. rewrite getb_app_r, Hm by lia. rewrite (getb_app_r [0x80]) by (cbn; lia). cbn [length].
  destruct (Z.leb_spec ((last_block + 1) * B - L) n) as [Q|Q].
  - rewrite getb_app_r by (rewrite length_replicate; lia). rewrite length_replicate. f_equal. lia.
  - rewrite getb_app_l by (rewrite length_replicate; lia). apply getb_replicate. lia.
Qed.

(** The bytes of the loop are the bytes of the padded message. *)
Lemma block_byte_spec i j : 0 ≤ i ≤ last_block → 0 ≤ j < B →
  block_byte header data size r (bits_store (r_big_endian r) (Z.to_nat L) bits) (E `mod` B)
    (mask8 (i =? E `div` B)) (mask8 (i =? last_block)) (i * B + j) j = getb padded (i * B + j).
Proof.
  intros Hi Hj. destruct params as [Hp HE]. pose proof last_block_spec as Hlb.
  destruct (raw_size (r := r) (md := md) (H := H)) as [_ Hrs].
  pose proof (Z.div_mod E B ltac:(lia)) as Hdm. pose proof (Z.mod_pos_bound E B ltac:(lia)) as Hc.
  set (a := E `div` B) in *. set (c := E `mod` B) in *. assert (0 ≤ a) by (apply Z.div_pos; lia).
  assert (a ≤ last_block ≤ a + 1) as Hab by nia. assert (E < 2 ^ 21) by (unfold E; lia).
  unfold block_byte. replace (u32 (c + 1)) with (c + 1) by (unfold u32; by rewrite Z.mod_small by lia).
  rewrite !constant_time_ge_8_mask by (unfold is_u32; lia). rewrite !land_mask8_and.
  set (b0 := if i * B + j <? header_length then _ else _).
  assert (is_byte b0) as Hb0. { unfold b0. destruct (_ <? _); [by apply getb_byte|]. destruct (_ <? _); [by apply getb_byte|apply is_byte_0]. }
  assert (is_byte 0x80) as H80 by (unfold is_byte; lia). set (Lb := bits_store _ _ _).
  assert (∀ x, is_byte (getb Lb x)) as HLb.
  { intros x. apply getb_byte. unfold Lb, bits_store. destruct (r_big_endian r); [apply bytes_be_store|apply bytes_le_store]. }
  rewrite (select_8_mask _ 0x80 b0) by done. rewrite clear_mask by (by destruct (_ && _)).
  rewrite keep_mask by (destruct (_ && _); [apply is_byte_0|by destruct (_ && _)]).
  assert (i * B + j < E → b0 = getb padded (i * B + j)) as Hmsg.
  { intros Q. rewrite getb_msg by nia. unfold b0, header_length. destruct (_ <? 13); [done|].
    rewrite (proj2 (Z.ltb_lt _ _)); [done|]. unfold E in Q. lia. }
  rewrite select_8_mask; [|done|repeat match goal with |- is_byte (if ?x then _ else _) => destruct x end; done || apply is_byte_0].
  destruct (Z.eqb_spec i a) as [Ea|Ea]; cbn [andb negb].
  - rewrite andb_false_r. destruct (Z.leb_spec c j) as [Qj|Qj].
    + destruct (Z.eqb_spec j c) as [Ec|Ec].
      * rewrite (proj2 (Z.leb_gt (c + 1) j)) by lia. replace (i * B + j) with E by nia. rewrite getb_mark.
        destruct (Z.leb_spec (B - L) j); [|done]. destruct (Z.eqb_spec i last_block); [nia|done].
      * rewrite (proj2 (Z.leb_le (c + 1) j)) by lia. rewrite getb_tail by nia.
        destruct (Z.eqb_spec i last_block) as [El|El].
        -- destruct (Z.leb_spec (B - L) j), (Z.leb_spec ((last_block + 1) * B - L) (i * B + j)); try nia. f_equal. nia.
        -- rewrite (proj2 (Z.leb_gt ((last_block + 1) * B - L) (i * B + j))) by nia. by destruct (B - L <=? j).
    + rewrite (proj2 (Z.leb_gt (c + 1) j)) by lia. rewrite <- Hmsg by nia.
      destruct (Z.leb_spec (B - L) j); [|done]. destruct (Z.eqb_spec i last_block); [nia|done].
  - rewrite andb_true_r. destruct (Z.eqb_spec i last_block) as [El|El].
    + rewrite getb_tail by nia.
      destruct (Z.leb_spec (B - L) j), (Z.leb_spec ((last_block + 1) * B - L) (i * B + j)); try nia. f_equal. nia.
    + rewrite <- Hmsg by nia. by destruct (B - L <=? j).
Qed.

Abbreviation lbytes := (bits_store (r_big_endian r) (Z.to_nat L) bits).

Lemma length_make_block lb c n : ∀ a b k j, length (make_block header data size r lb c n a b k j) = n.
Proof. induction n as [|n IH]; intros; cbn [make_block length]; [done|]. by rewrite IH. Qed.

Lemma getb_make_block lb c n : ∀ a b k j t, 0 ≤ t < Z.of_nat n →
  getb (make_block header data size r lb c n a b k j) t = block_byte header data size r lb c a b (k + t) (j + t).
Proof.
  induction n as [|n IH]; intros a b k j t Ht; [lia|]. cbn [make_block].
  destruct (decide (t = 0)) as [->|N]; [by rewrite !Z.add_0_r|].
  replace (getb (_ :: _) t) with (getb (make_block header data size r lb c n a b (k + 1) (j + 1)) (t - 1)).
  2:{ unfold getb, nthZ. by replace (Z.to_nat t) with (S (Z.to_nat (t - 1))) by lia. }
  rewrite IH by lia. f_equal; lia.
Qed.

Lemma make_block_spec i : 0 ≤ i ≤ last_block →
  make_block header data size r lbytes (E `mod` B) (Z.to_nat B) (mask8 (i =? E `div` B)) (mask8 (i =? last_block)) (i * B) 0 =
  take (Z.to_nat B) (drop (Z.to_nat i * Z.to_nat B) padded).
Proof.
  intros Hi. destruct params as [Hp HE]. pose proof last_block_spec as Hlb. pose proof length_padded as Hl.
  assert (Z.to_nat i * Z.to_nat B = Z.to_nat (i * B))%nat as -> by (rewrite Z2Nat.inj_mul; lia).
  assert ((i + 1) * B ≤ (last_block + 1) * B) by nia. assert (0 ≤ i * B) by nia.
  apply list_eq_getb; [rewrite length_make_block, length_take, length_drop; lia|].
  intros t Ht. rewrite length_make_block in Ht.
  rewrite getb_make_block, Z.add_0_l, block_byte_spec by lia. rewrite getb_take, getb_drop by lia. f_equal. lia.
Qed.

(** The state after [i] blocks of the padded message. *)
Definition after (h1 : list Z) (i : Z) : list Z := iter_blocks (Z.to_nat B) compress h1 padded (Z.to_nat i).

Lemma after_S h1 i : 0 ≤ i → after h1 (i + 1) = compress (after h1 i) (take (Z.to_nat B) (drop (Z.to_nat i * Z.to_nat B) padded)).
Proof. intros Hi. unfold after. replace (Z.to_nat (i + 1)) with (S (Z.to_nat i)) by lia. apply iter_blocks_snoc. Qed.

Lemma E_bounds : E < 2 ^ 21 ∧ 0 ≤ E `div` B ≤ E ∧ last_block ≤ E.
Proof.
  destruct params as [Hp HE]. pose proof last_block_spec as Hlb. destruct (raw_size (r := r) (md := md) (H := H)) as [_ Hrs].
  assert (0 ≤ E `div` B) by (apply Z.div_pos; lia). pose proof (Z.div_mod E B ltac:(lia)). pose proof (Z.mod_pos_bound E B ltac:(lia)).
  assert (13 ≤ E) by (unfold E; lia). split; [unfold E; lia|]. nia.
Qed.

(** The loop picks the state after the last block. *)
Lemma final_loop_past n : ∀ i k st mac, last_block < i → i + Z.of_nat n < 2 ^ 31 → bytes mac →
  final_loop header data size r lbytes (E `div` B) last_block (E `mod` B) n i k st mac = mac.
Proof.
  pose proof E_bounds as HE. pose proof last_block_spec as Hlb.
  induction n as [|n IH]; intros i k st mac Hi Hn Hm; cbn [final_loop]; [done|].
  rewrite (constant_time_eq_8_mask i last_block), (proj2 (Z.eqb_neq i last_block)) by (unfold is_u32; lia).
  rewrite or_mac_skip by done. apply IH; [lia|lia|done].
Qed.

Lemma final_loop_spec h1 n : ∀ i st, 0 ≤ i ≤ last_block → last_block < i + Z.of_nat n → i + Z.of_nat n < 2 ^ 31 → hash st = after h1 i →
  take (Z.to_nat (r_size r)) (final_loop header data size r lbytes (E `div` B) last_block (E `mod` B) n i (i * B) st (replicate 64 0)) =
  take (Z.to_nat (r_size r)) (md_final_raw r (after h1 (last_block + 1))).
Proof.
  pose proof E_bounds as HE. destruct params as [Hp _]. destruct (raw_size (r := r) (md := md) (H := H)) as [_ Hrs].
  induction n as [|n IH]; intros i st Hi Hlast Hn Hst; [lia|]. cbn [final_loop].
  rewrite !constant_time_eq_8_mask by (unfold is_u32; lia). rewrite make_block_spec by lia.
  set (blk := take _ (drop _ padded)). set (st' := md_transform r st blk).
  assert (hash st' = after h1 (i + 1)) as Hst'.
  { unfold st'. rewrite raw_transform, after_S, Hst by lia. f_equal. unfold blk. by rewrite take_take, Nat.min_id. }
  replace (i * B + B) with ((i + 1) * B) by lia.
  destruct (Z.eqb_spec i last_block) as [El|El].
  - rewrite final_loop_past; [|lia|lia|].
    + rewrite Hst', El. destruct (raw_final (r := r) (md := md) (H := H) (after h1 (last_block + 1))) as [Hb Hl].
      unfold splice. rewrite take_0, app_nil_l, or_mac_take.
      * rewrite take_app_le by lia. done.
      * apply bytes_app; [done|]. apply bytes_drop, bytes_take, bytes_drop, bytes_padded.
      * lia.
      * rewrite length_app. lia.
    + apply bytes_or_mac, bytes_replicate0.
  - rewrite or_mac_skip by apply bytes_replicate0. apply IH; [lia|lia|lia|done].
Qed.

(** The blocks in front are whole blocks of header and data. *)
Lemma first_block_spec : B ≤ E → take 13 header ++ take (Z.to_nat (B - 13)) data = take (Z.to_nat B) padded.
Proof.
  intros HB. destruct params as [Hp HE]. destruct (raw_size (r := r) (md := md) (H := H)) as [_ Hrs].
  unfold padded, msg. rewrite (take_ge header) by lia. rewrite <- app_assoc, take_app_ge, Hhl by lia. f_equal.
  unfold E in HB. rewrite take_app_le by (rewrite length_take; lia). rewrite take_take. f_equal. lia.
Qed.

Lemma data_block_spec i : 1 ≤ i → (i + 1) * B ≤ E →
  take (Z.to_nat B) (drop (Z.to_nat (B * i - 13)) data) = take (Z.to_nat B) (drop (Z.to_nat i * Z.to_nat B) padded).
Proof.
  intros Hi HB. destruct params as [Hp HE]. destruct (raw_size (r := r) (md := md) (H := H)) as [_ Hrs].
  assert (Z.to_nat i * Z.to_nat B = Z.to_nat (i * B))%nat as -> by (rewrite Z2Nat.inj_mul; lia).
  assert (B ≤ i * B) by nia. assert (i * B + B = (i + 1) * B) by lia.
  unfold padded, msg. rewrite <- app_assoc, drop_app_ge, Hhl by lia. unfold E in HB.
  rewrite drop_app_le by (rewrite length_take; lia). rewrite take_app_le by (rewrite length_drop, length_take; lia).
  replace (Z.to_nat (i * B) - 13)%nat with (Z.to_nat (B * i - 13)) by lia.
  rewrite skipn_firstn_comm, take_take. f_equal. lia.
Qed.

Lemma starting_loop_spec h1 n : ∀ i st, 1 ≤ i → (i + Z.of_nat n) * B ≤ E → hash st = after h1 i →
  hash (starting_loop data r n i st) = after h1 (i + Z.of_nat n).
Proof.
  destruct params as [Hp HE]. induction n as [|n IH]; intros i st Hi Hn Hst; cbn [starting_loop]; [by rewrite Z.add_0_r|].
  rewrite IH; [f_equal; lia|lia|lia|]. rewrite raw_transform, after_S, Hst by lia. f_equal. apply data_block_spec; [done|]. nia.
Qed.

(** The arithmetic of the blocks: what is hashed in front is data whatever the padding is, and
    the last block is within reach of the loop. *)
Lemma block_counts :
  let max_mac_bytes := size + 13 - r_size r - 1 in
  let num_blocks := (max_mac_bytes + 1 + L + B - 1) `div` B in
  let num_starting_blocks := if 6 <? num_blocks then num_blocks - 6 else 0 in
  num_starting_blocks * B ≤ E ∧ 0 ≤ num_starting_blocks ≤ last_block ∧ last_block < num_starting_blocks + 7 ∧ num_starting_blocks < 2 ^ 20.
Proof.
  intros max nb ns. destruct params as [Hp HE]. pose proof last_block_spec as Hlb. destruct (raw_size (r := r) (md := md) (H := H)) as [_ Hrs].
  pose proof (Z.div_mod (max + 1 + L + B - 1) B ltac:(lia)) as Hdm. pose proof (Z.mod_pos_bound (max + 1 + L + B - 1) B ltac:(lia)).
  fold nb in Hdm. assert (E ≤ max + 1 ≤ E + 256) as Hm by (unfold max, E; lia). assert (max < 2 ^ 21) by (unfold max; lia). clearbody max nb.
  assert (last_block ≤ nb) as Hlt by nia. assert (last_block < 2 ^ 20) by nia.
  unfold ns. destruct (Z.ltb_spec 6 nb) as [Q|Q].
  - assert ((nb - 6) * B ≤ E) by (destruct Hp as [[EB EL]|[EB EL]]; rewrite EB, ?EL in *; lia).
    assert (nb - 6 ≤ last_block) by nia. lia.
  - lia.
Qed.

Lemma inner_digest_spec key : bytes key → Z.of_nat (length key) = B →
  take (Z.to_nat (r_size r)) (inner_digest header data size r dpm key) = H (key ++ msg).
Proof.
  intros Hk Hkl. destruct params as [Hp HE]. pose proof last_block_spec as Hlb. destruct (raw_size (r := r) (md := md) (H := H)) as [_ Hrs].
  pose proof E_bounds as Hb. pose proof block_counts as Hn. cbv zeta in Hn.
  assert (∀ x, 0 ≤ x < 2 ^ 32 → u32 x = x) as U by (intros; unfold u32; by apply Z.mod_small).
  assert (bytes msg) as Hbm by (apply bytes_app; auto with vtls).
  unfold inner_digest, header_length, variance_blocks. rewrite !(U (size + 13)), (U (size + 13 - r_size r - 1)) by lia.
  rewrite (U (size + 13 - r_size r - 1 + 1 + L + B - 1)) by lia.
  change (dpm + 13 - r_size r) with E. rewrite (U E), (U (E + L)), (U (8 * E)), (U (8 * E + 8 * B)) by lia. fold last_block.
  set (nb := (size + 13 - r_size r - 1 + 1 + L + B - 1) `div` B) in *.
  replace (8 * E + 8 * B) with bits by (unfold bits; lia).
  rewrite (length_bytes_store r md H compress) by (done || unfold bits; lia).
  set (h1 := compress (hash (r_init r)) key).
  assert (hash (md_transform r (r_init r) key) = h1) as Hh1 by (rewrite raw_transform; by rewrite take_ge by lia).
  assert (H (key ++ msg) = take (Z.to_nat (r_size r)) (md_final_raw r (after h1 (last_block + 1)))) as ->.
  { rewrite raw_hash by (by apply bytes_app). rewrite md_pad_key by done. do 2 f_equal. unfold iterate, after.
    pose proof length_padded as Hl. rewrite length_app.
    replace ((length key + length padded) / Z.to_nat B)%nat with (1 + Z.to_nat (last_block + 1))%nat.
    2:{ replace (length key + length padded)%nat with ((1 + Z.to_nat (last_block + 1)) * Z.to_nat B)%nat by nia.
        by rewrite Nat.div_mul by lia. }
    rewrite iter_blocks_app by lia. cbn [iter_blocks]. by rewrite take_ge by lia. }
  set (ns := if 6 <? nb then nb - 6 else 0) in *. destruct Hn as (N1 & N2 & N3 & N4).
  replace (if 6 <? nb then (nb - 6, u32 (B * (nb - 6))) else (0, 0)) with (ns, ns * B).
  2:{ assert (0 ≤ ns * B < 2 ^ 32) as Hk32 by nia. unfold ns in *. destruct (Z.ltb_spec 6 nb); [|done].
      rewrite U by lia. f_equal. lia. }
  clearbody ns nb. apply (final_loop_spec h1); [lia|lia|lia|].
  destruct (Z.ltb_spec 0 (ns * B)) as [Q|Q].
  - assert (0 < ns) by nia. rewrite Z.div_mul by lia. rewrite (starting_loop_spec h1); [f_equal; lia|lia| |].
    + replace (1 + Z.of_nat (Z.to_nat (ns - 1))) with ns by lia. done.
    + rewrite raw_transform, first_block_spec, Hh1 by nia. change 1 with (0 + 1). rewrite after_S by lia.
      rewrite take_take, Nat.min_id. done.
  - assert (ns = 0) as -> by nia. exact Hh1.
Qed.
End padded.

(** ** The digests *)

Lemma l2n_store l : l2n l = be_store 4 l.
Proof. exact (HOST_l2c_be_spec l). Qed.

Lemma u32toLE_store n : u32toLE n = le_store 4 n.
Proof.
  rewrite <- HOST_l2c_le_spec. unfold u32toLE, HOST_l2c_le. change 0xff with (Z.ones 8). rewrite !Z.land_ones by lia.
  unfold u8. by rewrite !Z.mod_mod by lia.
Qed.

Lemma l2n8_store l : l2n8 l = be_store 8 l.
Proof.
  rewrite <- word_bytes_store. unfold l2n8, word_bytes. change 0xff with (Z.ones 8). rewrite !Z.land_ones by lia.
  unfold u8. by rewrite !Z.mod_mod by lia.
Qed.

Lemma SHA512_Transform_hash compress unaligned c b : hash (SHA512_Transform compress unaligned c b) = compress (hash c) (take 128 b).
Proof. unfold SHA512_Transform. destruct unaligned; [|done]. cbn [hash set_hash set_hdata iter_blocks]. by rewrite take_take. Qed.

Lemma eight_words (w : nat) (h : list Z) (f : Z → list Z) : length h = 8%nat → (∀ z, f z = be_store w z) →
  concat ((λ i, f (nthZ h i)) <$> seq 0 8) = concat (be_store w <$> h).
Proof.
  intros Hh Ef. destruct h as [|h0 [|h1 [|h2 [|h3 [|h4 [|h5 [|h6 [|h7 [|]]]]]]]]]; try done.
  cbn [fmap list_fmap seq nthZ nth]. unfold nthZ. cbn [nth]. by rewrite !Ef.
Qed.

Lemma raw_sha256 h : bytes (tls1_sha256_final_raw h) ∧ length (tls1_sha256_final_raw h) = 32%nat.
Proof.
  unfold tls1_sha256_final_raw. cbn [fmap list_fmap seq concat]. rewrite !l2n_store.
  split; [repeat apply bytes_app; try apply bytes_be_store; apply Forall_nil_2|].
  rewrite !length_app, !length_be_store. done.
Qed.

Lemma raw_sha512 h : bytes (tls1_sha512_final_raw h) ∧ length (tls1_sha512_final_raw h) = 64%nat.
Proof.
  unfold tls1_sha512_final_raw. cbn [fmap list_fmap seq concat]. rewrite !l2n8_store.
  split; [repeat apply bytes_app; try apply bytes_be_store; apply Forall_nil_2|].
  rewrite !length_app, !length_be_store. done.
Qed.

#[global] Instance raw_md5 : RawDigest (RawMd MD5_Init MD5_Transform tls1_md5_final_raw 16 64 8 false) md5_md MD5_rfc md5_compress.
Proof.
  split; cbn [r_init md_transform md_final_raw r_size r_block r_length_size r_big_endian].
  - by left.
  - done.
  - split; [done|lia].
  - done.
  - intros h. unfold tls1_md5_final_raw. rewrite !u32toLE_store. split; [repeat apply bytes_app; apply bytes_le_store|].
    rewrite !length_app, !length_le_store. cbn. lia.
  - intros M HM. unfold MD5_rfc. rewrite <- (iterate_ext 64 md5_compress) by
      first [intros h b H1 H2; exact (md5_compress_rfc b H1 H2 h) | by apply bytes_md_pad].
    set (h := iterate _ _ _ _). assert (length h = 4%nat) as Hl by (apply length_iterate; [intros; reflexivity|done]).
    destruct h as [|h0 [|h1 [|h2 [|h3 [|]]]]]; try done. unfold tls1_md5_final_raw, nthZ. cbn [nth].
    rewrite !u32toLE_store. cbn [fmap list_fmap concat]. rewrite app_nil_r, take_ge; [done|].
    rewrite !length_app, !length_le_store. cbn. lia.
Qed.

#[global] Instance raw_sha1 : RawDigest (RawMd SHA1_Init SHA1_Transform tls1_sha1_final_raw 20 64 8 true) sha1_md SHA1_fips sha1_compress.
Proof.
  split; cbn [r_init md_transform md_final_raw r_size r_block r_length_size r_big_endian].
  - by left.
  - done.
  - split; [done|lia].
  - done.
  - intros h. unfold tls1_sha1_final_raw. rewrite !l2n_store. split; [repeat apply bytes_app; apply bytes_be_store|].
    rewrite !length_app, !length_be_store. cbn. lia.
  - intros M HM. unfold SHA1_fips. rewrite <- (iterate_ext 64 sha1_compress) by
      first [intros h b H1 H2; exact (sha1_compress_fips b H1 H2 h) | by apply bytes_md_pad].
    set (h := iterate _ _ _ _). assert (length h = 5%nat) as Hl by (apply length_iterate; [intros; reflexivity|done]).
    destruct h as [|h0 [|h1 [|h2 [|h3 [|h4 [|]]]]]]; try done. unfold tls1_sha1_final_raw, nthZ. cbn [nth].
    rewrite !l2n_store. cbn [fmap list_fmap concat]. rewrite app_nil_r, take_ge; [done|].
    rewrite !length_app, !length_be_store. cbn. lia.
Qed.

Lemma raw_sha256_family small init n md H : (0 < n ≤ 8)%nat → length (hash init) = 8%nat →
  block_size md = 64 → md_size md = 4 * Z.of_nat n → (∀ M, H M = sha256_fips (hash init) (4 * n) M) →
  RawDigest (RawMd init (SHA256_Transform small) tls1_sha256_final_raw (4 * Z.of_nat n) 64 8 true) md H (sha256_compress small).
Proof.
  intros Hn Hi HB HS HH. split; cbn [r_init md_transform md_final_raw r_size r_block r_length_size r_big_endian].
  - by left.
  - done.
  - lia.
  - done.
  - intros h. destruct (raw_sha256 h) as [? ->]. split; [done|lia].
  - intros M HM. rewrite HH. unfold sha256_fips. rewrite <- (iterate_ext 64 (sha256_compress small)) by
      first [intros; by apply sha256_compress_fips | by apply bytes_md_pad].
    unfold tls1_sha256_final_raw. rewrite (eight_words 4); [f_equal; lia| |exact l2n_store].
    rewrite (iterate_ext 64 _ Sha256.fips_compress) by first [intros; by apply sha256_compress_fips | by apply bytes_md_pad].
    apply length_iterate; [apply Sha256.length_fips_compress|done].
Qed.

#[global] Instance raw_sha256_instance small :
  RawDigest (RawMd SHA256_Init (SHA256_Transform small) tls1_sha256_final_raw 32 64 8 true) (sha256_md small) SHA256_fips (sha256_compress small).
Proof. apply (raw_sha256_family small SHA256_Init 8); first [lia | reflexivity | intros M; unfold SHA256_fips; by rewrite <- SHA256_Init_fips]. Qed.

#[global] Instance raw_sha224_instance small :
  RawDigest (RawMd SHA224_Init (SHA256_Transform small) tls1_sha256_final_raw (224 `div` 8) 64 8 true) (sha224_md small) SHA224_fips (sha256_compress small).
Proof. apply (raw_sha256_family small SHA224_Init 7); first [lia | reflexivity | intros M; unfold SHA224_fips; by rewrite <- SHA224_Init_fips]. Qed.

Lemma raw_sha512_family x86 unaligned init n md H : (0 < n ≤ 8)%nat → length (hash init) = 8%nat →
  block_size md = 128 → md_size md = 8 * Z.of_nat n → (∀ M, H M = sha512_fips (hash init) (8 * n) M) →
  RawDigest (RawMd init (SHA512_Transform (sha512_compress x86) unaligned) tls1_sha512_final_raw (8 * Z.of_nat n) 128 16 true) md H (sha512_compress x86).
Proof.
  intros Hn Hi HB HS HH. split; cbn [r_init md_transform md_final_raw r_size r_block r_length_size r_big_endian].
  - by right.
  - done.
  - lia.
  - intros c b. apply SHA512_Transform_hash.
  - intros h. destruct (raw_sha512 h) as [? ->]. split; [done|lia].
  - intros M HM. rewrite HH. unfold sha512_fips. rewrite <- (iterate_ext 128 (sha512_compress x86)) by
      first [intros; by apply sha512_compress_fips | by apply bytes_md_pad].
    unfold tls1_sha512_final_raw. rewrite (eight_words 8); [f_equal; lia| |exact l2n8_store].
    rewrite (iterate_ext 128 _ Sha512.fips_compress) by first [intros; by apply sha512_compress_fips | by apply bytes_md_pad].
    apply length_iterate; [apply Sha512.length_fips_compress512|done].
Qed.

#[global] Instance raw_sha512_instance x86 unaligned stack :
  RawDigest (RawMd (SHA512_Init stack) (SHA512_Transform (sha512_compress x86) unaligned) tls1_sha512_final_raw 64 128 16 true)
    (sha512_md x86) SHA512_fips (sha512_compress x86).
Proof. apply (raw_sha512_family x86 unaligned (SHA512_Init stack) 8); first [lia | reflexivity | intros M; unfold SHA512_fips; by rewrite <- (SHA512_Init_fips stack)]. Qed.

#[global] Instance raw_sha384_instance x86 unaligned stack :
  RawDigest (RawMd (SHA384_Init stack) (SHA512_Transform (sha512_compress x86) unaligned) tls1_sha512_final_raw (384 `div` 8) 128 16 true)
    (sha384_md x86) SHA384_fips (sha512_compress x86).
Proof. apply (raw_sha512_family x86 unaligned (SHA384_Init stack) 6); first [lia | reflexivity | intros M; unfold SHA384_fips; by rewrite <- (SHA384_Init_fips stack)]. Qed.

(** ** The theorem *)

(** The digests that the function supports, in the builds [small] and [x86]. *)
Inductive tls_digest (small x86 : bool) : EVP_MD → (list Z → list Z) → Prop :=
  | td_md5 : tls_digest small x86 md5_md MD5_rfc
  | td_sha1 : tls_digest small x86 sha1_md SHA1_fips
  | td_sha224 : tls_digest small x86 (sha224_md small) SHA224_fips
  | td_sha256 : tls_digest small x86 (sha256_md small) SHA256_fips
  | td_sha384 : tls_digest small x86 (sha384_md x86) SHA384_fips
  | td_sha512 : tls_digest small x86 (sha512_md x86) SHA512_fips.

Lemma tls_digest_classes small x86 unaligned stack md H : tls_digest small x86 md H →
  ssl3_cbc_record_digest_supported (mtype md) = true ∧ ∃ r compress rep,
  raw_digest small x86 unaligned stack (mtype md) = Some r ∧ RawDigest r md H compress ∧ Digest md rep H.
Proof.
  destruct 1; (split; [reflexivity|]); eexists _, _, _; (split; [reflexivity|]); split; apply _.
Qed.

Lemma key_pads H B K x : Z.of_nat (length K) ≤ B →
  (λ b, Z.lxor b x) <$> splice (replicate (Z.to_nat B) 0) 0 K = Z.lxor x <$> hmac_key H B K.
Proof.
  intros HK. assert (splice (replicate (Z.to_nat B) 0) 0 K = hmac_key H B K) as ->.
  { unfold hmac_key. rewrite (proj2 (Z.ltb_ge _ _)) by lia. unfold splice. rewrite take_0, app_nil_l, drop_replicate. do 2 f_equal. lia. }
  apply list_fmap_ext. intros. apply Z.lxor_comm.
Qed.

Lemma outer_pad H B K : (λ b, Z.lxor b 0x6a) <$> ipad_key H B K = opad_key H B K.
Proof.
  unfold ipad_key, opad_key. rewrite <- list_fmap_compose. apply list_fmap_ext. intros i x _. unfold compose.
  rewrite (Z.lxor_comm 0x36), Z.lxor_assoc, Z.lxor_comm. done.
Qed.

Lemma record_digest_spec junk mem small x86 unaligned stack md H r compress rep header data dpm size K :
  RawDigest r md H compress → Digest md rep H → raw_digest small x86 unaligned stack (mtype md) = Some r →
  plenty mem → Z.of_nat (length (hdata (junk md))) = block_size md →
  bytes header → length header = 13%nat → bytes data → Z.of_nat (length data) = size → size < 2 ^ 20 →
  md_size md ≤ dpm → dpm ≤ size → size ≤ dpm + 256 → bytes K → Z.of_nat (length K) ≤ block_size md →
  ssl3_cbc_digest_record junk mem small x86 unaligned stack md header data dpm size K =
  Some (Some (hmac_spec H (block_size md) K (header ++ take (Z.to_nat (dpm - md_size md)) data))).
Proof.
  intros R D Er Hmem Hj Hh Hhl Hd Hdl Hs Hlo Hhi Hp HK HKl.
  pose proof (raw_block (r := r)) as EB. destruct (raw_size (r := r)) as [ES Hrs]. pose proof (raw_params (r := r)) as Hpar.
  pose proof (d_size (md := md) (rep := rep) (H := H)) as Hsz.
  unfold ssl3_cbc_digest_record. rewrite (proj2 (Z.leb_gt (1024 * 1024) size)) by (change (1024 * 1024) with (2 ^ 20); lia).
  rewrite Er. cbn [mbind option_bind].
  assert ((MAX_HASH_BIT_COUNT_BYTES <? r_length_size r) || (MAX_HASH_BLOCK_SIZE <? r_block r) || (64 <? r_size r) ||
    (MAX_HASH_BLOCK_SIZE <? Z.of_nat (length K)) = false) as ->.
  { unfold MAX_HASH_BIT_COUNT_BYTES, MAX_HASH_BLOCK_SIZE. rewrite !orb_false_iff, !Z.ltb_ge. lia. }
  rewrite EB, (key_pads H) by done. change (Z.lxor 0x36 <$> hmac_key H (block_size md) K) with (ipad_key H (block_size md) K).
  assert (Z.of_nat (length (hmac_key H (block_size md) K)) = block_size md) as Hkl.
  { unfold hmac_key. rewrite (proj2 (Z.ltb_ge _ _)) by lia. rewrite length_app, length_replicate. lia. }
  assert (bytes (hmac_key H (block_size md) K)) as Hkb.
  { unfold hmac_key. rewrite (proj2 (Z.ltb_ge _ _)) by lia. auto with vtls. }
  assert (∀ x, is_byte x → bytes (Z.lxor x <$> hmac_key H (block_size md) K)) as Hpads.
  { intros x Hx. apply Forall_fmap. eapply Forall_impl; [|exact Hkb]. intros y Hy. by apply is_byte_lxor. }
  assert (bytes (ipad_key H (block_size md) K)) as Hib by (apply Hpads; unfold is_byte; lia).
  assert (bytes (opad_key H (block_size md) K)) as Hob by (apply Hpads; unfold is_byte; lia).
  rewrite <- ES in Hlo. rewrite (inner_digest_spec r md H compress header data size dpm) by
    (try done; unfold ipad_key; rewrite length_fmap; lia).
  rewrite outer_pad, take_ge by (unfold opad_key; rewrite length_fmap; lia).
  destruct (EVP_DigestInit_ex_spec junk md rep H mem EVP_MD_CTX_init Hj (ready_init md)) as (ok & c1 & mem1 & -> & A1 & M1).
  destruct (M1 Hmem) as [-> _]. cbn [mbind option_bind]. specialize (A1 eq_refl).
  set (inner := H (ipad_key H (block_size md) K ++ msg r header data dpm)).
  destruct (EVP_DigestUpdate_spec md rep H c1 unaligned [] (opad_key H (block_size md) K) A1
    ltac:(unfold opad_key; rewrite length_fmap; lia)) as (c2 & -> & A2). cbn [mbind option_bind].
  destruct (EVP_DigestUpdate_spec md rep H c2 unaligned _ inner A2 ltac:(unfold inner; rewrite Hsz; lia)) as (c3 & -> & A3).
  cbn [mbind option_bind]. unfold EVP_DigestFinal.
  destruct (EVP_DigestFinal_ex_spec md rep H c3 _ A3 ltac:(apply bytes_app; [done|exact (d_bytes (md := md) (rep := rep) _)])) as (c4 & -> & _).
  cbn [mbind option_bind]. unfold hmac_spec, inner, msg. by rewrite ES.
Qed.

(** C12: The constant-time MAC of CBC records is the HMAC of RFC 2104: for every digest
    that the function supports and every length that the padding check can leave (at
    most 256 bytes fewer than the record, none fewer when the padding is wrong), the
    result is the HMAC under the key of the header and of the data without MAC
    and padding.  What lies behind the data does not influence it. *)
Theorem ssl3_cbc_digest_record_correct junk mem small x86 unaligned stack md H header data dpm size K :
  tls_digest small x86 md H → plenty mem → Z.of_nat (length (hdata (junk md))) = block_size md →
  bytes header → length header = 13%nat → bytes data → Z.of_nat (length data) = size → size < 2 ^ 20 →
  md_size md ≤ dpm → dpm ≤ size → size ≤ dpm + 256 → bytes K → Z.of_nat (length K) ≤ block_size md →
  ssl3_cbc_digest_record junk mem small x86 unaligned stack md header data dpm size K =
  Some (Some (hmac_spec H (block_size md) K (header ++ take (Z.to_nat (dpm - md_size md)) data))).
Proof.
  intros T. destruct (tls_digest_classes small x86 unaligned stack md H T) as (_ & r & compress & rep & Er & R & D).
  by apply (record_digest_spec junk mem small x86 unaligned stack md H r compress rep).
Qed.

Lemma ssl3_cbc_digest_record_correct_witness :
  ssl3_cbc_digest_record (λ m, HCtx [] 0 0 (replicate (Z.to_nat (block_size m)) 7) 0 0) [true] true false true (hash_init [] 0) sha1_md
    (replicate 13 1) (replicate 100 2) 60 100 (replicate 20 3) =
  Some (Some (hmac_spec SHA1_fips 64 (replicate 20 3) (replicate 13 1 ++ take 40 (replicate 100 2)))).
Proof.
  apply (ssl3_cbc_digest_record_correct (λ m, HCtx [] 0 0 (replicate (Z.to_nat (block_size m)) 7) 0 0) [true] true false true (hash_init [] 0)
    sha1_md SHA1_fips (replicate 13 1) (replicate 100 2) 60 100 (replicate 20 3)).
  - apply td_sha1.
  - apply (bool_decide_eq_true_1 _). vm_compute. reflexivity.
  - reflexivity.
  - apply (bool_decide_eq_true_1 _). vm_compute. reflexivity.
  - reflexivity.
  - apply (bool_decide_eq_true_1 _). vm_compute. reflexivity.
  - reflexivity.
  - lia.
  - apply (bool_decide_eq_true_1 _). vm_compute. reflexivity.
  - lia.
  - lia.
  - apply (bool_decide_eq_true_1 _). vm_compute. reflexivity.
  - apply (bool_decide_eq_true_1 _). vm_compute. reflexivity.
Defined.

(** The return value of [EVP_DigestInit_ex] is not looked at: without memory for the outer
    hash the next call goes through a null pointer. *)
Lemma ssl3_cbc_digest_record_no_memory junk small x86 unaligned stack md H header data dpm size K : tls_digest small x86 md H →
  ssl3_cbc_digest_record junk [false] small x86 unaligned stack md header data dpm size K = None.
Proof.
  intros T. destruct (tls_digest_classes small x86 unaligned stack md H T) as (_ & r & compress & rep & Er & R & D).
  unfold ssl3_cbc_digest_record. destruct (_ <=? _); [done|]. rewrite Er. cbn [mbind option_bind]. by destruct (_ || _).
Qed.
