(* ===== verification/EvpMac.v ===== *)
(** * Message authentication through digest contexts

    Models the way TLS uses HMAC: [EVP_PKEY_new_mac_key] ([crypto/evp/pmeth_gn.c])
    makes a key, [EVP_DigestSignInit], [EVP_DigestSignUpdate], [EVP_DigestSignFinal]
    ([crypto/evp/m_sigver.c]) run a digest context whose public-key context holds an
    HMAC context ([crypto/hmac/hm_pmeth.c], [crypto/evp/pmeth_lib.c]), and
    [EVP_MD_CTX_copy_ex] copies both.  The only method here is [hmac_pkey_meth]; there
    are no engines.

    A computation takes the outcomes of the coming allocations; [None] is a crash, a
    return value of 0 is a value.  [succeeds] states what a computation does
    when it returns successfully, and that it does so when memory suffices. *)

From S2P Require Import Prelude Md32 Sha256 Sha512 EvpDigest Hmac.

(** ** Computations that allocate *)

Definition comp (A : Type) : Type := list bool → option (A * list bool).
#[global] Instance comp_ret : MRet comp := λ A a mem, Some (a, mem).
#[global] Instance comp_bind : MBind comp := λ A B f x mem, match x mem with Some (a, mem) => f a mem | None => None end.

Definition crash {A} : comp A := λ _, None.
Definition alloc : comp (option unit) := λ mem, let '(ok, mem) := malloc mem in Some (if ok then Some () else None, mem).

(** What a return value holds when it reports success. *)
Class View (R A : Type) := view : R → option A.
#[global] Instance view_option A : View (option A) A := λ r, r.
#[global] Instance view_int A : View (Z * A) A := λ r, if r.1 <=? 0 then None else Some r.2.
#[global] Instance view_bool A : View (bool * A) A := λ r, if r.1 then Some r.2 else None.

Definition succeeds `{View R A} (x : comp R) (P : A → Prop) : Prop := ∀ mem,
  (∀ r mem' a, x mem = Some (r, mem') → view r = Some a → P a) ∧
  (plenty mem → ∃ r mem' a, x mem = Some (r, mem') ∧ view r = Some a ∧ plenty mem').
Definition fails `{View R A} (x : comp R) : Prop := ∀ mem r mem', x mem = Some (r, mem') → view r = None.

Section rules.
Context `{View R A, View T B}.

Lemma fails_ret (r : R) : view r = None → fails (mret (M := comp) r).
Proof. intros E mem r' mem' [= <- <-]. done. Qed.

Lemma fails_crash : fails (crash : comp R).
Proof. done. Qed.

Lemma succeeds_ret (r : R) (a : A) (P : A → Prop) : view r = Some a → P a → succeeds (mret (M := comp) r) P.
Proof. intros E Ha mem. split; [by intros ? ? ? [= <- <-] ?; simplify_eq|]. intros Hm. by exists r, mem, a. Qed.

Lemma succeeds_bind (x : comp R) (f : R → comp T) (P : A → Prop) (Q : B → Prop) : succeeds x P →
  (∀ r, view r = None → fails (f r)) → (∀ r a, view r = Some a → P a → succeeds (f r) Q) → succeeds (x ≫= f) Q.
Proof.
  intros Hx Hn Hs mem. destruct (Hx mem) as [Hp He]. split.
  - intros s mem' b E V. unfold mbind, comp_bind in E. destruct (x mem) as [[r mem1]|] eqn:Ex; [|done].
    destruct (view r) as [a|] eqn:Vr.
    + destruct (Hs r a Vr (Hp _ _ _ eq_refl Vr) mem1) as [Hq _]. by eapply Hq.
    + specialize (Hn r Vr mem1 s mem' E). congruence.
  - intros Hm. destruct (He Hm) as (r & mem1 & a & Ex & V & Hm1).
    destruct (Hs r a V (Hp _ _ _ Ex V) mem1) as [_ Hq]. destruct (Hq Hm1) as (s & mem2 & b & E & ? & ?).
    exists s, mem2, b. split; [|done]. unfold mbind, comp_bind. by rewrite Ex.
Qed.

Lemma succeeds_mono (x : comp R) (P Q : A → Prop) : succeeds x P → (∀ a, P a → Q a) → succeeds x Q.
Proof. intros Hx HPQ mem. destruct (Hx mem) as [Hp He]. split; [|done]. intros r mem' a E V. eapply HPQ, Hp; done. Qed.
End rules.

(** [if (!x) goto err]: on failure the result is [bad]. *)
Definition check `{View R A} {T} (x : comp R) (bad : T) (k : A → comp T) : comp T :=
  r ← x;
  match view r with Some a => k a | None => mret bad end.

Lemma succeeds_check `{View R A, View T B} (x : comp R) (bad : T) (k : A → comp T) (P : A → Prop) (Q : B → Prop) : succeeds x P → view bad = None →
  (∀ a, P a → succeeds (k a) Q) → succeeds (check x bad k) Q.
Proof.
  intros Hx Hb Hk. eapply succeeds_bind; [exact Hx| |].
  - intros r ->. by apply fails_ret.
  - intros r a -> Ha. by apply Hk.
Qed.

Lemma succeeds_alloc : succeeds alloc (λ _, True).
Proof.
  intros mem. split; [done|]. intros Hm. destruct (plenty_malloc mem Hm) as [E Hm']. unfold alloc.
  destruct (malloc mem) as [ok mem']. cbn in E. subst ok. by exists (Some ()), mem', ().
Qed.

(** The functions on HMAC contexts are such computations. *)
Lemma outcome_succeeds (x : comp (bool * HMAC_CTX)) (P : HMAC_CTX → Prop) : (∀ mem, outcome mem (x mem) P) → succeeds x P.
Proof.
  intros Hx mem. destruct (Hx mem) as (r & c & mem' & E & HP & Hm). rewrite E. split.
  - intros r' mem'' a [= <- <-] V. destruct r; [|done]. injection V as <-. by apply HP.
  - intros P0. destruct (Hm P0) as [-> ?]. by eexists _, _, _.
Qed.

(** ** Keys and public-key contexts *)

Definition EVP_PKEY_OP_UNDEFINED : Z := 0.
Definition EVP_PKEY_OP_KEYGEN : Z := 4.
Definition EVP_PKEY_OP_SIGN : Z := 8.
Definition EVP_PKEY_OP_VERIFY : Z := 16.
Definition EVP_PKEY_OP_VERIFYRECOVER : Z := 32.
Definition EVP_PKEY_OP_SIGNCTX : Z := 64.
Definition EVP_PKEY_OP_VERIFYCTX : Z := 128.
Definition EVP_PKEY_OP_TYPE_SIG : Z :=
  Z.lor (Z.lor (Z.lor (Z.lor EVP_PKEY_OP_SIGN EVP_PKEY_OP_VERIFY) EVP_PKEY_OP_VERIFYRECOVER) EVP_PKEY_OP_SIGNCTX) EVP_PKEY_OP_VERIFYCTX.

(** A key is the contents of its octet string; so is [ktmp], [None] without data. *)
Definition EVP_PKEY : Type := list Z.
Record HMAC_PKEY_CTX := HmacPkey { p_md : option EVP_MD; ktmp : option (list Z); p_ctx : HMAC_CTX }.
Record EVP_PKEY_CTX := PkeyCtx { operation : Z; pkey : option EVP_PKEY; pdata : HMAC_PKEY_CTX }.

(** [ASN1_STRING_set] on a string with contents [str]; [None] when it returns 0. *)
Definition strlen (data : list Z) : Z := match list_find (λ b, b = 0) data with Some (i, _) => Z.of_nat i | None => Z.of_nat (length data) end.
Definition ASN1_STRING_set (str : option (list Z)) (data : list Z) (len : Z) : comp (option (list Z)) :=
  let len := if len <? 0 then strlen data else len in
  if (match str with None => true | Some s => Z.of_nat (length s) <=? len end) then
    o ← alloc;
    match o with
    | None => mret None
    | Some _ => mret (Some (take (Z.to_nat len) data))
    end
  else mret (Some (take (Z.to_nat len) data)).
Definition ASN1_STRING_dup (str : list Z) : comp (option (list Z)) :=
  o ← alloc;
  match o with
  | None => mret None
  | Some _ => ASN1_STRING_set None str (Z.of_nat (length str))
  end.

Inductive pkey_ctrl :=
| EVP_PKEY_CTRL_SET_MAC_KEY (key : list Z) (len : Z)
| EVP_PKEY_CTRL_MD (md : option EVP_MD)
| EVP_PKEY_CTRL_DIGESTINIT
| EVP_PKEY_CTRL_OTHER.

(** [junk] and [stray] are the contents of fresh memory. *)
Section pkey.
Context (junk : EVP_MD → HASH_CTX) (stray : HMAC_CTX).

Definition pkey_hmac_init : comp (option HMAC_PKEY_CTX) :=
  o ← alloc;
  match o with
  | None => mret None
  | Some _ => mret (Some (HmacPkey None None (HMAC_CTX_init stray)))
  end.

(** [int_ctx_new]: when the method cannot allocate its data, [EVP_PKEY_CTX_free] calls
    [pkey_hmac_cleanup], which goes through the null pointer [ctx->data]. *)
Definition int_ctx_new (key : option EVP_PKEY) : comp (option EVP_PKEY_CTX) :=
  o ← alloc;
  match o with
  | None => mret None
  | Some _ =>
    h ← pkey_hmac_init;
    match h with
    | None => crash
    | Some h => mret (Some (PkeyCtx EVP_PKEY_OP_UNDEFINED key h))
    end
  end.
Definition EVP_PKEY_CTX_new (key : option EVP_PKEY) : comp (option EVP_PKEY_CTX) :=
  match key with None => mret None | Some _ => int_ctx_new key end.
Definition EVP_PKEY_CTX_new_id : comp (option EVP_PKEY_CTX) := int_ctx_new None.

(** The return value and [dst->data]. *)
Definition pkey_hmac_copy (src : HMAC_PKEY_CTX) : comp (bool * option HMAC_PKEY_CTX) :=
  h ← pkey_hmac_init;
  match h with
  | None => mret (false, None)
  | Some d =>
    let d := HmacPkey (p_md src) (ktmp d) (HMAC_CTX_init (p_ctx d)) in
    '(ok, c) ← ((λ mem, Some (HMAC_CTX_copy mem (p_ctx d) (p_ctx src))) : comp (bool * HMAC_CTX));
    let d := HmacPkey (p_md d) (ktmp d) c in
    if negb ok then mret (false, Some d)
    else
      match ktmp src with
      | None => mret (true, Some d)
      | Some k =>
        s ← ASN1_STRING_set (ktmp d) k (Z.of_nat (length k));
        match s with
        | None => mret (false, Some d)
        | Some s => mret (true, Some (HmacPkey (p_md d) (Some s) (p_ctx d)))
        end
      end
  end.

Definition EVP_PKEY_CTX_dup (p : EVP_PKEY_CTX) : comp (option EVP_PKEY_CTX) :=
  o ← alloc;
  match o with
  | None => mret None
  | Some _ =>
    '(ok, d) ← pkey_hmac_copy (pdata p);
    match d with
    | None => crash
    | Some d => mret (if ok : bool then Some (PkeyCtx (operation p) (pkey p) d) else None)
    end
  end.

Definition pkey_hmac_ctrl (p : EVP_PKEY_CTX) (cmd : pkey_ctrl) : comp (Z * EVP_PKEY_CTX) :=
  let h := pdata p in
  let set h := PkeyCtx (operation p) (pkey p) h in
  match cmd with
  | EVP_PKEY_CTRL_SET_MAC_KEY key len =>
    if len <? -1 then mret (0, p)
    else
      s ← ASN1_STRING_set (ktmp h) key len;
      match s with
      | None => mret (0, p)
      | Some s => mret (1, set (HmacPkey (p_md h) (Some s) (p_ctx h)))
      end
  | EVP_PKEY_CTRL_MD md => mret (1, set (HmacPkey md (ktmp h) (p_ctx h)))
  | EVP_PKEY_CTRL_DIGESTINIT =>
    match pkey p with
    | None => crash
    | Some k =>
      '(ok, c) ← ((λ mem, HMAC_Init_ex junk mem (p_ctx h) (Some k) (Z.of_nat (length k)) false (p_md h)) : comp (bool * HMAC_CTX));
      mret (if ok : bool then 1 else 0, set (HmacPkey (p_md h) (ktmp h) c))
    end
  | EVP_PKEY_CTRL_OTHER => mret (-2, p)
  end.

(** For any type of key; [optype] may be -1. *)
Definition EVP_PKEY_CTX_ctrl (p : EVP_PKEY_CTX) (optype : Z) (cmd : pkey_ctrl) : comp (Z * EVP_PKEY_CTX) :=
  if operation p =? EVP_PKEY_OP_UNDEFINED then mret (-1, p)
  else if negb (optype =? -1) && (Z.land (operation p) optype =? 0) then mret (-1, p)
  else pkey_hmac_ctrl p cmd.

Definition EVP_PKEY_keygen_init (p : EVP_PKEY_CTX) : EVP_PKEY_CTX := PkeyCtx EVP_PKEY_OP_KEYGEN (pkey p) (pdata p).

(** The structure and its lock; only whether there is one matters. *)
Definition EVP_PKEY_new : comp (option unit) :=
  o ← alloc;
  match o with None => mret None | Some _ => alloc end.

Definition pkey_hmac_keygen (p : EVP_PKEY_CTX) : comp (option EVP_PKEY) :=
  match ktmp (pdata p) with
  | None => mret None
  | Some k => ASN1_STRING_dup k
  end.

(** The key, [None] for [NULL]: the result of [EVP_PKEY_assign] is ignored, which
    leaves [NULL] when there is no structure. *)
Definition EVP_PKEY_keygen (p : EVP_PKEY_CTX) : comp (Z * option EVP_PKEY) :=
  if negb (operation p =? EVP_PKEY_OP_KEYGEN) then mret (-1, None)
  else
    s ← EVP_PKEY_new;
    k ← pkey_hmac_keygen p;
    match k with
    | None => mret (0, None)
    | Some k => mret (1, match s with Some _ => Some k | None => None end)
    end.

Definition EVP_PKEY_new_mac_key (key : list Z) (keylen : Z) : comp (option EVP_PKEY) :=
  c ← EVP_PKEY_CTX_new_id;
  match c with
  | None => mret None
  | Some c =>
    '(r, c) ← EVP_PKEY_CTX_ctrl (EVP_PKEY_keygen_init c) EVP_PKEY_OP_KEYGEN (EVP_PKEY_CTRL_SET_MAC_KEY key keylen);
    if r <=? 0 then mret None
    else
      '(r, k) ← EVP_PKEY_keygen c;
      mret k
  end.

(** ** Digest contexts with a public-key context *)

(** [int_upd]: the update function is [int_update]. *)
Record MAC_CTX := MacCtx { base : EVP_MD_CTX; pctx : option EVP_PKEY_CTX; int_upd : bool }.
Definition MAC_CTX_init : MAC_CTX := MacCtx EVP_MD_CTX_init None false.

Definition hmac_signctx_init (p : EVP_PKEY_CTX) (m : MAC_CTX) : EVP_PKEY_CTX * MAC_CTX :=
  let h := pdata p in
  let f := Z.land (flags (base m)) (Z.lnot EVP_MD_CTX_FLAG_NO_INIT) in
  let p := PkeyCtx (operation p) (pkey p) (HmacPkey (p_md h) (ktmp h) (HMAC_CTX_set_flags (p_ctx h) f)) in
  (p, MacCtx (EVP_MD_CTX_set_flags (base m) EVP_MD_CTX_FLAG_NO_INIT) (Some p) true).

(** [EVP_DigestInit_ex] on a context whose public-key context is set: the flag
    [NO_INIT] is, so that the digest itself is not initialised. *)
Definition MAC_DigestInit_ex (ctx : MAC_CTX) (type : option EVP_MD) : comp (bool * MAC_CTX) :=
  '(r, b) ← ((λ mem, EVP_DigestInit_ex junk mem (base ctx) type) : comp (bool * EVP_MD_CTX));
  let ctx := MacCtx b (pctx ctx) (int_upd ctx) in
  if negb r then mret (false, ctx)
  else
    match pctx ctx with
    | None => mret (true, ctx)
    | Some p =>
      '(r, p) ← EVP_PKEY_CTX_ctrl p EVP_PKEY_OP_TYPE_SIG EVP_PKEY_CTRL_DIGESTINIT;
      mret (negb ((r <=? 0) && negb (r =? -2)), MacCtx b (Some p) (int_upd ctx))
    end.

(** [do_sigver_init] for signing with a given digest. *)
Definition EVP_DigestSignInit (ctx : MAC_CTX) (type : EVP_MD) (key : option EVP_PKEY) : comp (bool * MAC_CTX) :=
  c ← match pctx ctx with Some p => mret (Some p) | None => EVP_PKEY_CTX_new key end;
  match c with
  | None => mret (false, ctx)
  | Some p =>
    let '(p, ctx) := hmac_signctx_init p ctx in
    let p := PkeyCtx EVP_PKEY_OP_SIGNCTX (pkey p) (pdata p) in
    '(r, p) ← EVP_PKEY_CTX_ctrl p EVP_PKEY_OP_TYPE_SIG (EVP_PKEY_CTRL_MD (Some type));
    let ctx := MacCtx (base ctx) (Some p) (int_upd ctx) in
    if r <=? 0 then mret (false, ctx) else MAC_DigestInit_ex ctx (Some type)
  end.

(** [EVP_DigestSignUpdate] is [EVP_DigestUpdate]. *)
Definition EVP_DigestSignUpdate (ctx : MAC_CTX) (u : bool) (data : list Z) : comp (bool * MAC_CTX) :=
  if int_upd ctx then
    match pctx ctx with
    | None => crash
    | Some p =>
      let h := pdata p in
      '(ok, c) ← ((λ mem, r ← HMAC_Update (p_ctx h) u data; Some (r, mem)) : comp (bool * HMAC_CTX));
      mret (ok, MacCtx (base ctx) (Some (PkeyCtx (operation p) (pkey p) (HmacPkey (p_md h) (ktmp h) c))) true)
    end
  else
    '(ok, b) ← ((λ mem, r ← EVP_DigestUpdate (base ctx) u data; Some (r, mem)) : comp (bool * EVP_MD_CTX));
    mret (ok, MacCtx b (pctx ctx) false).

(** [EVP_MD_CTX_copy_ex] with the public-key context. *)
Definition MAC_CTX_copy_ex (out inp : MAC_CTX) : comp (bool * MAC_CTX) :=
  match digest (base inp) with
  | None => mret (false, out)
  | Some _ =>
    '(ok, b) ← ((λ mem, Some (EVP_MD_CTX_copy_ex mem (base out) (base inp))) : comp (bool * EVP_MD_CTX));
    if negb ok then mret (false, MacCtx b (pctx inp) (int_upd inp))
    else
      match pctx inp with
      | None => mret (true, MacCtx b None (int_upd inp))
      | Some p =>
        d ← EVP_PKEY_CTX_dup p;
        match d with
        | None => mret (false, MAC_CTX_init)
        | Some d => mret (true, MacCtx b (Some d) (int_upd inp))
        end
      end
  end.

(** The code; [None] for a return value of 0. *)
Definition hmac_signctx (p : EVP_PKEY_CTX) (m : MAC_CTX) : comp (option (list Z)) :=
  match digest (base m) with
  | None => mret None
  | Some _ =>
    '(ret, _) ← ((λ mem, '(ret, c, mem) ← HMAC_Final mem (p_ctx (pdata p)); Some ((ret, c), mem)) : comp (option (list Z) * HMAC_CTX));
    mret ret
  end.

(** With a place for the code, which is computed on a copy. *)
Definition EVP_DigestSignFinal (ctx : MAC_CTX) : comp (option (list Z)) :=
  match pctx ctx with
  | None => crash
  | Some _ =>
    '(ok, tmp) ← MAC_CTX_copy_ex MAC_CTX_init ctx;
    if negb ok then mret None
    else
      match pctx tmp with
      | None => crash
      | Some p => hmac_signctx p tmp
      end
  end.
End pkey.

(** ** Correctness *)

(** Going through the steps of a computation. *)
Ltac csteps := repeat first
  [ apply succeeds_alloc
  | apply fails_ret; reflexivity
  | apply fails_crash ].

Section keys.
Context (junk : EVP_MD → HASH_CTX) (stray : HMAC_CTX).

Lemma ASN1_STRING_set_spec data len : 0 ≤ len → succeeds (ASN1_STRING_set None data len) (λ s, s = take (Z.to_nat len) data).
Proof.
  intros Hl. unfold ASN1_STRING_set. rewrite (proj2 (Z.ltb_ge len 0)) by done.
  eapply succeeds_bind; [apply succeeds_alloc| |]; intros [u|] *; [done|intros _; csteps| |done].
  intros _ _. by eapply succeeds_ret.
Qed.

Lemma ASN1_STRING_dup_spec s : succeeds (ASN1_STRING_dup s) (λ k, k = s).
Proof.
  eapply succeeds_bind; [apply succeeds_alloc| |]; intros [u|] *; [done|intros _; csteps| |done].
  intros _ _. eapply succeeds_mono; [apply ASN1_STRING_set_spec; lia|]. intros k ->. by rewrite Nat2Z.id, firstn_all.
Qed.

Lemma pkey_hmac_init_spec : succeeds (pkey_hmac_init stray) (λ h, h = HmacPkey None None (HMAC_CTX_init stray)).
Proof.
  eapply succeeds_bind; [apply succeeds_alloc| |]; intros [u|] *; [done|intros _; csteps| |done].
  intros _ _. by eapply succeeds_ret.
Qed.

Lemma int_ctx_new_spec key : succeeds (int_ctx_new stray key)
  (λ p, p = PkeyCtx EVP_PKEY_OP_UNDEFINED key (HmacPkey None None (HMAC_CTX_init stray))).
Proof.
  eapply succeeds_bind; [apply succeeds_alloc| |]; intros [u|] *; [done|intros _; csteps| |done].
  intros _ _. eapply succeeds_bind; [apply pkey_hmac_init_spec| |]; intros [h|] *; [done|intros _; csteps| |done].
  intros [= <-] ->. by eapply succeeds_ret.
Qed.

(** [EVP_PKEY_keygen] succeeds when it leaves a key. *)
Definition view_key : View (Z * option EVP_PKEY) EVP_PKEY := λ r, r.2.

(** [MAC_DigestInit_ex] takes the return value -2 for success as well. *)
Definition view_ctrl A : View (Z * A) A := λ r, if (r.1 <=? 0) && negb (r.1 =? -2) then None else Some r.2.

(** A code and the context that computed it. *)
Definition view_mac : View (option (list Z) * HMAC_CTX) (list Z) := λ r, r.1.

Lemma EVP_PKEY_keygen_spec p k : operation p = EVP_PKEY_OP_KEYGEN → ktmp (pdata p) = Some k →
  succeeds (H := view_key) (EVP_PKEY_keygen p) (λ k', k' = k).
Proof.
  intros Ho Hk. unfold EVP_PKEY_keygen, pkey_hmac_keygen. rewrite Ho, Hk. cbn [negb Z.eqb EVP_PKEY_OP_KEYGEN Pos.eqb].
  eapply (succeeds_bind (H := view_option unit) (H0 := view_key) _ _ (λ _, True)).
  - eapply succeeds_bind; [apply succeeds_alloc| |]; intros [u|] *; [done|intros _; csteps| |done]. intros _ _. apply succeeds_alloc.
  - intros [u|] V; [done|]. intros mem r mem' E. unfold mbind, comp_bind in E.
    destruct (ASN1_STRING_dup k mem) as [[[k'|] mem1]|]; [| |done]; by injection E as <- <-.
  - intros [u|] a V; [|done]. intros _. eapply (succeeds_bind (H0 := view_key)); [apply ASN1_STRING_dup_spec| |].
    + intros [k'|] V'; [done|]. by apply (fails_ret (H := view_key)).
    + intros [k'|] k'' V'; [|done]. intros ->. by eapply (succeeds_ret (H := view_key)).
Qed.

(** A new key has the bytes it is made from. *)
Lemma EVP_PKEY_new_mac_key_spec key len : 0 ≤ len →
  succeeds (EVP_PKEY_new_mac_key junk stray key len) (λ k, k = take (Z.to_nat len) key).
Proof.
  intros Hl. unfold EVP_PKEY_new_mac_key, EVP_PKEY_CTX_new_id.
  eapply succeeds_bind; [apply int_ctx_new_spec| |]; intros [c|] *; [done|intros _; csteps| |done].
  intros [= <-] ->. unfold EVP_PKEY_CTX_ctrl, pkey_hmac_ctrl, EVP_PKEY_keygen_init.
  cbn [operation pkey pdata ktmp p_md p_ctx Z.eqb EVP_PKEY_OP_KEYGEN EVP_PKEY_OP_UNDEFINED Z.land Pos.land Pos.eqb negb andb].
  rewrite (proj2 (Z.ltb_ge len (-1))) by lia.
  eapply (succeeds_bind (A := EVP_PKEY_CTX) _ _
    (λ p, operation p = EVP_PKEY_OP_KEYGEN ∧ ktmp (pdata p) = Some (take (Z.to_nat len) key))).
  - eapply succeeds_bind; [by apply ASN1_STRING_set_spec| |]; intros [s|] *; [done|intros _; csteps| |done].
    intros [= <-] ->. by eapply succeeds_ret.
  - intros [r p] V. unfold view, view_int in V. cbn [fst snd] in V. destruct (r <=? 0); [|done]. csteps.
  - intros [r p] p' V [Ho Hk]. unfold view, view_int in V. cbn [fst snd] in V. destruct (r <=? 0); [done|].
    injection V as ->. eapply (succeeds_bind (H := view_key)); [by apply EVP_PKEY_keygen_spec| |].
    + intros [r' k'] V. by apply fails_ret.
    + intros [r' k'] k V ->. by eapply succeeds_ret.
Qed.
End keys.

Section contexts.
Context (junk : EVP_MD → HASH_CTX) (stray : HMAC_CTX) (md : EVP_MD) (rep : HASH_CTX → list Z → Prop) (H : list Z → list Z)
  `{!Digest md rep H}.
Context (Hjunk : Z.of_nat (length (hdata (junk md))) = block_size md) (Hstray : length (key stray) = 128%nat).

(** The context has read the message [M] under the key [K]. *)
Definition authenticates (K M : list Z) (ctx : MAC_CTX) : Prop :=
  digest (base ctx) = Some md ∧ md_data (base ctx) = None ∧ int_upd ctx = true ∧
  ∃ p, pctx ctx = Some p ∧ ktmp (pdata p) = None ∧ running md rep H K M (p_ctx (pdata p)).

Lemma EVP_DigestSignInit_spec K : key_ok K →
  succeeds (EVP_DigestSignInit junk stray MAC_CTX_init md (Some K)) (authenticates K []).
Proof.
  intros HK. unfold EVP_DigestSignInit. cbn [pctx MAC_CTX_init EVP_PKEY_CTX_new].
  eapply succeeds_bind; [apply int_ctx_new_spec| |]; intros [c|] *; [done|intros _; csteps| |done].
  intros [= <-] ->. cbv zeta. unfold hmac_signctx_init, EVP_PKEY_CTX_ctrl, pkey_hmac_ctrl.
  cbn [operation pkey pdata ktmp p_md p_ctx Z.eqb base MAC_CTX_init].
  eapply (succeeds_bind (A := EVP_PKEY_CTX) _ _ (eq _)); [by eapply succeeds_ret| |]; intros [r p] *.
  { unfold view, view_int. cbn [fst snd]. destruct (r <=? 0); [|done]. intros _. csteps. }
  intros V <-. unfold view, view_int in V. cbn [fst snd] in V. destruct (r <=? 0); [done|]. injection V as ->. clear r.
  unfold MAC_DigestInit_ex.
  eapply (succeeds_bind (A := EVP_MD_CTX) _ _ (λ b, digest b = Some md ∧ md_data b = None)).
  { intros mem. split; [|intros Hm; by eexists _, _, _].
    intros r mem' a E V. cbn in E. injection E as <- <-. by injection V as <-. }
  { intros [[|] b] *; [done|intros _; csteps]. }
  intros [[|] b] b' V [Hd Hm]; [|done]. injection V as ->. cbn [negb pctx base int_upd].
  eapply (succeeds_bind (H := view_ctrl _) _ _ (λ p, ktmp (pdata p) = None ∧ running md rep H K [] (p_ctx (pdata p)))).
  - unfold EVP_PKEY_CTX_ctrl, pkey_hmac_ctrl. cbn [operation pkey pdata p_ctx p_md ktmp]. cbn [Z.eqb].
    eapply (succeeds_bind (A := HMAC_CTX) (H0 := view_ctrl _)).
    + apply outcome_succeeds. intros mem. eapply (HMAC_Init_ex_key junk md rep H Hjunk); [done| |by left].
      split; [by split|]. split; [by split|]. split; [by split|exact Hstray].
    + intros [[|] c] V; [done|]. by apply (fails_ret (H := view_ctrl _)).
    + intros [[|] c] c' V Hr; [|done]. injection V as ->. by eapply (succeeds_ret (H := view_ctrl _)).
  - intros [r p] V. unfold view, view_ctrl in V. cbn [fst snd] in V. destruct (_ && _); [|done].
    by apply fails_ret.
  - intros [r p] p' V [Hk Hr]. unfold view, view_ctrl in V. cbn [fst snd] in V. destruct (_ && _); [done|].
    injection V as ->. eapply succeeds_ret; [done|].
    split; [done|]. split; [done|]. split; [done|]. by exists p'.
Qed.

(** Updates need no memory. *)
Lemma EVP_DigestSignUpdate_total K M ctx u p : authenticates K M ctx → Z.of_nat (length p) < 2 ^ 64 →
  ∃ c, authenticates K (M ++ p) c ∧ ∀ mem, EVP_DigestSignUpdate ctx u p mem = Some (true, c, mem).
Proof.
  intros (Hd & Hm & Hu & q & Hq & Hk & Hr) Hp. unfold EVP_DigestSignUpdate. rewrite Hu, Hq.
  assert (Forall short_piece [(u, p)].*2) as Hps by (apply Forall_cons_2; [exact Hp|apply Forall_nil_2]).
  destruct (hmac_pieces_spec md rep H K [(u, p)] _ M Hr Hps) as (c & E & Hc). cbn in Hc. rewrite app_nil_r in Hc. cbn [hmac_pieces] in E.
  destruct (HMAC_Update (p_ctx (pdata q)) u p) as [[[|] c']|]; [|done|done]. cbn in E. injection E as ->.
  eexists. split; [|intros mem; reflexivity].
  split; [done|]. split; [done|]. split; [done|]. eexists. split; [reflexivity|]. by split.
Qed.

Lemma EVP_DigestSignUpdate_spec K M ctx u p : authenticates K M ctx → Z.of_nat (length p) < 2 ^ 64 →
  succeeds (EVP_DigestSignUpdate ctx u p) (authenticates K (M ++ p)).
Proof.
  intros Ha Hp. destruct (EVP_DigestSignUpdate_total K M ctx u p Ha Hp) as (c & Hc & E). intros mem. rewrite E. split.
  - intros r mem' a [= <- <-] V. by injection V as <-.
  - intros P0. by eexists _, _, _.
Qed.

Lemma HMAC_CTX_copy_spec K M d s : running md rep H K M s →
  succeeds ((λ mem, Some (HMAC_CTX_copy mem d s)) : comp (bool * HMAC_CTX)) (running md rep H K M).
Proof.
  intros Hr. apply outcome_succeeds. intros mem.
  assert (length (key s) = 128%nat) as Hl by (by destruct Hr as [[[(_ & _ & _ & ?) _] _] _]).
  destruct (HMAC_CTX_copy_running mem d s md rep H K M Hl Hr) as (r & c & mem' & -> & ? & ?). by exists r, c, mem'.
Qed.

Lemma EVP_PKEY_CTX_dup_spec K M p : ktmp (pdata p) = None → running md rep H K M (p_ctx (pdata p)) →
  succeeds (EVP_PKEY_CTX_dup stray p) (λ d, ktmp (pdata d) = None ∧ running md rep H K M (p_ctx (pdata d))).
Proof.
  intros Hk Hr. unfold EVP_PKEY_CTX_dup, pkey_hmac_copy.
  eapply succeeds_bind; [apply succeeds_alloc| |]; intros [u|] *; [done|intros _; csteps| |done]. intros _ _.
  eapply (succeeds_bind (A := option HMAC_PKEY_CTX) _ _
    (λ d, ∃ c, d = Some (HmacPkey (p_md (pdata p)) None c) ∧ running md rep H K M c)).
  - eapply succeeds_bind; [apply pkey_hmac_init_spec| |]; intros [h|] *; [done|intros _; csteps| |done]. intros [= <-] ->.
    cbn [p_ctx p_md ktmp]. eapply succeeds_bind; [by apply HMAC_CTX_copy_spec| |]; intros [[|] c] *; [done|intros _; csteps| |done].
    intros [= <-] Hc. cbn [negb]. rewrite Hk. eapply succeeds_ret; [done|]. by exists c.
  - intros [[|] d] V; [done|]. destruct d; [by apply fails_ret|apply fails_crash].
  - intros [[|] d] d' V (c & -> & Hc); [|done]. injection V as ->. by eapply succeeds_ret.
Qed.

Lemma MAC_CTX_copy_ex_spec K M out ctx : authenticates K M ctx → succeeds (MAC_CTX_copy_ex stray out ctx) (authenticates K M).
Proof.
  intros (Hd & Hm & Hu & q & Hq & Hk & Hr). unfold MAC_CTX_copy_ex. rewrite Hd.
  eapply (succeeds_bind (A := EVP_MD_CTX) _ _ (λ b, digest b = Some md ∧ md_data b = None)).
  { unfold EVP_MD_CTX_copy_ex. rewrite Hd, Hm. intros mem. split; [|intros P0; by eexists _, _, _].
    intros r mem' a E V. injection E as <- <-. by injection V as <-. }
  { intros [[|] b] *; [done|intros _; csteps]. }
  intros [[|] b] b' V [Hd' Hm']; [|done]. injection V as ->. cbn [negb]. rewrite Hq.
  eapply succeeds_bind; [by eapply EVP_PKEY_CTX_dup_spec| |]; intros [d|] *; [done|intros _; csteps| |done].
  intros [= <-] [Hk' Hr']. eapply succeeds_ret; [done|]. split; [done|]. split; [done|]. split; [done|]. by exists d.
Qed.

Lemma EVP_DigestSignFinal_spec K M ctx : key_ok K → bytes M → authenticates K M ctx →
  succeeds (EVP_DigestSignFinal stray ctx) (λ mac, mac = hmac_spec H (block_size md) K M).
Proof.
  intros HK HM Ha. pose proof Ha as (Hd & Hm & Hu & q & Hq & Hk & Hr). unfold EVP_DigestSignFinal. rewrite Hq.
  eapply succeeds_bind; [by eapply MAC_CTX_copy_ex_spec| |]; intros [[|] c] *; [done|intros _; csteps| |done].
  intros [= <-] (Hd' & _ & _ & p & Hp & _ & Hr'). cbn [negb]. rewrite Hp. unfold hmac_signctx. rewrite Hd'.
  eapply (succeeds_bind (H := view_mac) _ _ (λ mac, mac = hmac_spec H (block_size md) K M)).
  - intros mem. destruct (HMAC_Final_spec junk md rep H mem K M _ HK HM Hr') as (ret & c' & mem' & E & H2 & Hmem).
    cbv beta. rewrite E. cbn [mbind option_bind]. split.
    + intros r mem'' a E' V. injection E' as <- <-. cbn in V. subst ret. destruct H2 as [?|[[= ->] _]]; [done|reflexivity].
    + intros P0. destruct (Hmem P0) as [N Hm']. destruct ret as [mac|]; [|done]. by eexists _, _, _.
  - intros [r c'] V. by apply fails_ret.
  - intros [r c'] mac V ->. by eapply succeeds_ret.
Qed.
(** The updates of a list of pieces, each with its alignment. *)
Fixpoint sign_pieces (ctx : MAC_CTX) (ps : list (bool * list Z)) : comp (bool * MAC_CTX) :=
  match ps with
  | [] => mret (true, ctx)
  | (u, p) :: ps =>
    '(ok, ctx) ← EVP_DigestSignUpdate ctx u p;
    if ok : bool then sign_pieces ctx ps else mret (false, ctx)
  end.

Lemma sign_pieces_spec K ps : ∀ M ctx, authenticates K M ctx → Forall short_piece ps.*2 →
  succeeds (sign_pieces ctx ps) (authenticates K (M ++ concat ps.*2)).
Proof.
  induction ps as [|[u p] ps IH]; intros M ctx Ha Hp; cbn [sign_pieces].
  { eapply succeeds_ret; [done|]. cbn. by rewrite app_nil_r. }
  rewrite fmap_cons in *. cbn [concat snd] in *.
  eapply succeeds_bind; [by eapply EVP_DigestSignUpdate_spec, (Forall_inv Hp)| |]; intros [[|] c] *; [done|intros _; csteps| |done].
  intros [= <-] Hc. rewrite app_assoc. by apply IH; [|apply (Forall_inv_tail Hp)].
Qed.

(** A key, a context for it, updates with any pieces and the code. *)
Definition sign (key : list Z) (ps : list (bool * list Z)) : comp (option (list Z)) :=
  k ← EVP_PKEY_new_mac_key junk stray key (Z.of_nat (length key));
  match k with
  | None => mret None
  | Some k =>
    '(ok, ctx) ← EVP_DigestSignInit junk stray MAC_CTX_init md (Some k);
    if negb ok then mret None
    else
      '(ok, ctx) ← sign_pieces ctx ps;
      if negb ok then mret None else EVP_DigestSignFinal stray ctx
  end.

Lemma sign_spec key ps : key_ok key → Forall short_piece ps.*2 → bytes (concat ps.*2) →
  succeeds (sign key ps) (λ mac, mac = hmac_spec H (block_size md) key (concat ps.*2)).
Proof.
  intros HK Hp Hb. unfold sign.
  eapply succeeds_bind; [apply EVP_PKEY_new_mac_key_spec; lia| |]; intros [k|] *; [done|intros _; csteps| |done].
  intros [= <-] ->. rewrite Nat2Z.id, firstn_all.
  eapply succeeds_bind; [by apply EVP_DigestSignInit_spec| |]; intros [[|] c] *; [done|intros _; csteps| |done].
  intros [= <-] Hc. cbn [negb].
  eapply succeeds_bind; [by eapply sign_pieces_spec| |]; intros [[|] c'] *; [done|intros _; csteps| |done].
  intros [= <-] Hc'. cbn [negb]. by apply (EVP_DigestSignFinal_spec key (concat ps.*2)).
Qed.
End contexts.

(** C14: Signing through a digest context is HMAC: making a key from any bytes, starting a context
    with it, updating it with any pieces and asking for the code returns the code of
    RFC 2104 of the concatenation whenever it returns a code, and returns one when memory
    suffices, for every digest that keeps its promises. *)
Theorem EVP_DigestSign_correct junk stray md rep H `{!Digest md rep H} mem key ps :
  Z.of_nat (length (hdata (junk md))) = block_size md → length (Hmac.key stray) = 128%nat →
  key_ok key → Forall short_piece ps.*2 → bytes (concat ps.*2) →
  (∀ mac mem', sign junk stray md key ps mem = Some (Some mac, mem') → mac = hmac_spec H (block_size md) key (concat ps.*2)) ∧
  (plenty mem → ∃ mem', sign junk stray md key ps mem = Some (Some (hmac_spec H (block_size md) key (concat ps.*2)), mem')).
Proof.
  intros Hj Hs HK Hp Hb. destruct (sign_spec junk stray md rep H Hj Hs key ps HK Hp Hb mem) as [H1 H2]. split.
  - intros mac mem' E. by apply (H1 _ _ _ E).
  - intros P. destruct (H2 P) as (r & mem' & a & E & V & _). pose proof (H1 _ _ _ E V) as ->. exists mem'. rewrite E. unfold view, view_option in V. by rewrite V.
Qed.

Lemma EVP_DigestSign_correct_witness :
  let junk m := HCtx [] 0 0 (replicate (Z.to_nat (block_size m)) 7) 0 0 in
  let stray := HmacCtx None EVP_MD_CTX_init EVP_MD_CTX_init EVP_MD_CTX_init 3 (replicate 128 9) true in
  let ps := [(true, [97; 98]); (false, [99])] in
  (∀ mac mem', sign junk stray (sha256_md true) (replicate 70 11) ps [true; true] = Some (Some mac, mem') →
    mac = hmac_spec SHA256_fips 64 (replicate 70 11) [97; 98; 99]) ∧
  (plenty [true; true] → ∃ mem', sign junk stray (sha256_md true) (replicate 70 11) ps [true; true] =
    Some (Some (hmac_spec SHA256_fips 64 (replicate 70 11) [97; 98; 99]), mem')).
Proof.
  intros junk stray ps.
  apply (EVP_DigestSign_correct junk stray (sha256_md true) _ SHA256_fips [true; true] (replicate 70 11) ps).
  - reflexivity.
  - reflexivity.
  - split; [|reflexivity]. apply (bool_decide_eq_true_1 _). vm_compute. reflexivity.
  - apply (bool_decide_eq_true_1 _). vm_compute. reflexivity.
  - apply (bool_decide_eq_true_1 _). vm_compute. reflexivity.
Defined.

(** Without memory for the data of the method, making a key goes through a null pointer,
    and so does copying a context. *)
Lemma EVP_PKEY_new_mac_key_crash junk stray key len mem : EVP_PKEY_new_mac_key junk stray key len (true :: false :: mem) = None.
Proof. done. Qed.

Lemma EVP_PKEY_CTX_dup_crash stray p mem : EVP_PKEY_CTX_dup stray p (true :: false :: mem) = None.
Proof. done. Qed.

