(* ===== verification/TlsPrf.v ===== *)
(** * The pseudorandom function of TLS and what is derived with it

    Models the key derivation of [ssl/t1_enc.c]: [tls1_P_hash], [tls1_PRF] and the
    functions that call them for the master secret, the key block, the Finished messages and
    exported keys, on the MAC contexts of [EvpMac].  Out of memory [tls1_PRF] returns 0 with
    whatever its buffer holds by then.

    The specifications are P_hash and PRF of RFC 2246, section 5, and RFC 5246,
    section 5. *)

From Stdlib Require Import String Ascii.
From S2P Require Import Prelude Md32 Sha256 Sha512 Sha1 Md5 EvpDigest Hmac EvpMac.

Definition SSL_HANDSHAKE_MAC_MD5 : Z := 0x10.
Definition SSL_HANDSHAKE_MAC_SHA : Z := 0x20.
Definition SSL_HANDSHAKE_MAC_GOST94 : Z := 0x40.
Definition SSL_HANDSHAKE_MAC_SHA256 : Z := 0x80.
Definition SSL_HANDSHAKE_MAC_SHA384 : Z := 0x100.
Definition SSL_HANDSHAKE_MAC_DEFAULT : Z := Z.lor SSL_HANDSHAKE_MAC_MD5 SSL_HANDSHAKE_MAC_SHA.
Definition TLS1_PRF_DGST_SHIFT : Z := 10.
Definition TLS1_PRF_SHA256 : Z := SSL_HANDSHAKE_MAC_SHA256 ≪ TLS1_PRF_DGST_SHIFT.
Definition TLS1_PRF_SHA384 : Z := SSL_HANDSHAKE_MAC_SHA384 ≪ TLS1_PRF_DGST_SHIFT.
Definition TLS1_PRF : Z := Z.lor (SSL_HANDSHAKE_MAC_MD5 ≪ TLS1_PRF_DGST_SHIFT) (SSL_HANDSHAKE_MAC_SHA ≪ TLS1_PRF_DGST_SHIFT).

(** The bytes of a string. *)
Definition str (s : string) : list Z := (λ c, Z.of_nat (nat_of_ascii c)) <$> list_ascii_of_string s.

Section prf.
Context (junk : EVP_MD → HASH_CTX) (stray : HMAC_CTX).
(** Whether a piece of memory is unaligned. *)
Context (unaligned : list Z → bool).

(** [if (seed && !EVP_DigestSignUpdate(...)) goto err], for each seed. *)
Fixpoint seed_updates (ctx : MAC_CTX) (seeds : list (option (list Z))) : comp (bool * MAC_CTX) :=
  match seeds with
  | [] => mret (true, ctx)
  | None :: seeds => seed_updates ctx seeds
  | Some s :: seeds => check (EVP_DigestSignUpdate ctx (unaligned s) s) (false, ctx) (λ ctx, seed_updates ctx seeds)
  end.

(** The loop; [acc] has been written, [rest] is the buffer from [out] on. *)
Fixpoint P_loop (fuel : nat) (chunk : Z) (seeds : list (option (list Z))) (ctx_init ctx ctx_tmp : MAC_CTX) (A1 acc rest : list Z) (olen : Z) :
    comp (bool * list Z) :=
  match fuel with
  | O => crash
  | S fuel =>
    let bad := (false, acc ++ rest) in
    check (MAC_CTX_copy_ex stray ctx ctx_init) bad (λ ctx,
    check (EVP_DigestSignUpdate ctx (unaligned A1) A1) bad (λ ctx,
    check (if chunk <? olen then MAC_CTX_copy_ex stray ctx_tmp ctx else mret (true, ctx_tmp)) bad (λ ctx_tmp,
    check (seed_updates ctx seeds) bad (λ ctx,
    if chunk <? olen then
      check (EVP_DigestSignFinal stray ctx) bad (λ out,
      let j := Z.of_nat (length out) in
      let acc := acc ++ out in
      let rest := drop (length out) rest in
      check (EVP_DigestSignFinal stray ctx_tmp) (false, acc ++ rest) (λ A1,
      P_loop fuel chunk seeds ctx_init ctx ctx_tmp A1 acc rest (olen - j)))
    else
      check (EVP_DigestSignFinal stray ctx) bad (λ A1,
      mret (true, acc ++ splice rest 0 (take (Z.to_nat olen) A1)))))))
  end.

(** The buffer [out] has [olen] bytes. *)
Definition tls1_P_hash (md : EVP_MD) (sec : list Z) (sec_len : Z) (seeds : list (option (list Z))) (out : list Z) (olen : Z) : comp (bool * list Z) :=
  let chunk := md_size md in
  let bad := (false, out) in
  check (EVP_PKEY_new_mac_key junk stray sec sec_len) bad (λ mac_key,
  check (EVP_DigestSignInit junk stray MAC_CTX_init md (Some mac_key)) bad (λ ctx_init,
  check (MAC_CTX_copy_ex stray MAC_CTX_init ctx_init) bad (λ ctx,
  check (seed_updates ctx seeds) bad (λ ctx,
  check (EVP_DigestSignFinal stray ctx) bad (λ A1,
  P_loop (S (Z.to_nat olen)) chunk seeds ctx_init ctx MAC_CTX_init A1 [] out olen))))).

(** ** The pseudorandom function *)

(** [ssl_get_handshake_digest] for each index: the flag of a digest and its method, [None]
    where it is not available; the method for GOST R 34.11-94 is not modelled. *)
Context (small x86 : bool) (gost94 : option EVP_MD).
Definition handshake_digests : list (Z * option EVP_MD) := [
  (SSL_HANDSHAKE_MAC_MD5, Some md5_md); (SSL_HANDSHAKE_MAC_SHA, Some sha1_md); (SSL_HANDSHAKE_MAC_GOST94, gost94);
  (0, None); (SSL_HANDSHAKE_MAC_SHA256, Some (sha256_md small)); (SSL_HANDSHAKE_MAC_SHA384, Some (sha384_md x86))].

Definition selected (digest_mask : Z) (e : Z * option EVP_MD) : bool := negb (Z.land (e.1 ≪ TLS1_PRF_DGST_SHIFT) digest_mask =? 0).

(** [off] is [S1 - sec]. *)
Fixpoint PRF_loop (digest_mask : Z) (es : list (Z * option EVP_MD)) (seeds : list (option (list Z))) (sec : list Z) (off len odd : Z)
    (out1 out2 : list Z) (olen : Z) : comp (bool * list Z) :=
  match es with
  | [] => mret (true, out1)
  | e :: es =>
    if selected digest_mask e then
      match e.2 with
      | None => mret (false, out1)
      | Some md =>
        check (tls1_P_hash md (drop (Z.to_nat off) sec) (len + odd) seeds out2 olen) (false, out1) (λ out2,
        PRF_loop digest_mask es seeds sec (off + len) len odd (xor_bytes out1 out2) out2 olen)
      end
    else PRF_loop digest_mask es seeds sec off len odd out1 out2 olen
  end.

(** The return value and [out1]; [out1] and [out2] have [olen] bytes. *)
Definition tls1_PRF (digest_mask : Z) (seeds : list (option (list Z))) (sec : list Z) (slen : Z) (out1 out2 : list Z) (olen : Z) : comp (bool * list Z) :=
  let count := Z.of_nat (length (List.filter (selected digest_mask) handshake_digests)) in
  if count =? 0 then mret (false, out1)
  else
    let len := slen `quot` count in
    let slen := if count =? 1 then 0 else slen in
    PRF_loop digest_mask handshake_digests seeds sec 0 len (Z.land slen 1) (replicate (Z.to_nat olen) 0) out2 olen.

(** ** What is derived *)

(** [s->s3->tmp.new_cipher->algorithm2], [None] without a cipher; [sha256_prf] is the
    flag of the protocol version. *)
Definition ssl_get_algorithm2 (sha256_prf : bool) (algorithm2 : option Z) : Z :=
  match algorithm2 with
  | None => -1
  | Some alg2 =>
    if sha256_prf && (alg2 =? Z.lor SSL_HANDSHAKE_MAC_DEFAULT TLS1_PRF) then Z.lor SSL_HANDSHAKE_MAC_SHA256 TLS1_PRF_SHA256 else alg2
  end.

Definition TLS_MD_CLIENT_FINISH_CONST : list Z := str "client finished".
Definition TLS_MD_SERVER_FINISH_CONST : list Z := str "server finished".
Definition TLS_MD_KEY_EXPANSION_CONST : list Z := str "key expansion".
Definition TLS_MD_MASTER_SECRET_CONST : list Z := str "master secret".
Definition SSL_MAX_MASTER_KEY_LENGTH : Z := 48.
Definition SSL3_MASTER_SECRET_SIZE : Z := 48.

(** The functions that call [tls1_PRF], with [ssl_get_algorithm2(s)], the random values
    and the secrets as arguments; [tmp] and the like are uninitialised memory. *)
Definition tls1_generate_key_block (alg2 : Z) (server_random client_random master_key km tmp : list Z) (num : Z) : comp (bool * list Z) :=
  tls1_PRF alg2 [Some TLS_MD_KEY_EXPANSION_CONST; Some server_random; Some client_random; None; None]
    master_key (Z.of_nat (length master_key)) km tmp num.

(** The return value of [tls1_PRF] is ignored: the new [s->session->master_key] is
    whatever it leaves there. *)
Definition tls1_generate_master_secret (alg2 : Z) (client_random server_random p master_key buff : list Z) : comp (Z * list Z) :=
  '(_, out) ← tls1_PRF alg2 [Some TLS_MD_MASTER_SECRET_CONST; Some client_random; None; Some server_random; None]
    p (Z.of_nat (length p)) master_key buff SSL_MAX_MASTER_KEY_LENGTH;
  mret (SSL3_MASTER_SECRET_SIZE, out).

(** From the hash of the handshake on; the value has [sizeof(buf2)] bytes. *)
Definition finish_mac (alg2 : Z) (label hash master_key out buf2 : list Z) : comp (bool * list Z) :=
  tls1_PRF alg2 [Some label; Some hash; None; None; None] master_key (Z.of_nat (length master_key)) out buf2 12.

Definition prohibited (val : list Z) : bool :=
  existsb (λ l, bool_decide (take (length l) val = l))
    [TLS_MD_CLIENT_FINISH_CONST; TLS_MD_SERVER_FINISH_CONST; TLS_MD_MASTER_SECRET_CONST; TLS_MD_KEY_EXPANSION_CONST].

(** [context] is [None] when [use_context] is not set; its length is taken modulo 2^16. *)
Definition tls1_export_keying_material (alg2 : Z) (client_random server_random master_key out buff label : list Z) (context : option (list Z)) (olen : Z) :
    comp (bool * list Z) :=
  check alloc (false, out) (λ _,
  check alloc (false, out) (λ _,
  let val := label ++ client_random ++ server_random ++
    match context with
    | None => []
    | Some c => let n := Z.of_nat (length c) in [Z.land (n ≫ 8) 0xff; Z.land n 0xff] ++ c
    end in
  if prohibited val then mret (false, out)
  else tls1_PRF alg2 [Some val; None; None; None; None] master_key (Z.of_nat (length master_key)) out buff olen)).
End prf.

(** ** Specification *)

(** Blocks of P_hash from [A] on; [S n] blocks have more than [n] bytes. *)
Fixpoint P_blocks (mac : list Z → list Z) (seed : list Z) (n : nat) (A : list Z) : list Z :=
  match n with
  | O => []
  | S n => mac (A ++ seed) ++ P_blocks mac seed n (mac A)
  end.
Definition P_hash (mac : list Z → list Z) (seed : list Z) (n : nat) : list Z := take n (P_blocks mac seed (S n) (mac seed)).

(** RFC 5246 with the hash function [H], and RFC 2246. *)
Definition PRF_tls12 (H : list Z → list Z) (B : Z) (secret seed : list Z) (n : nat) : list Z := P_hash (hmac_spec H B secret) seed n.
Definition PRF_tls10 (secret seed : list Z) (n : nat) : list Z :=
  let half := ((length secret + 1) / 2)%nat in
  xor_bytes (P_hash (hmac_spec MD5_rfc 64 (take half secret)) seed n)
            (P_hash (hmac_spec SHA1_fips 64 (drop (length secret - half) secret)) seed n).

(** ** Proofs *)

(** The seeds together. *)
Definition seed_bytes (seeds : list (option (list Z))) : list Z := concat (default [] <$> seeds).
Definition seeds_ok (seeds : list (option (list Z))) : Prop := Forall (λ s, bytes (default [] s) ∧ short_piece (default [] s)) seeds.

Lemma bytes_seed seeds : seeds_ok seeds → bytes (seed_bytes seeds).
Proof.
  unfold seed_bytes. induction 1 as [|s seeds [Hs _] _ IH]; [apply Forall_nil_2|]. rewrite fmap_cons. cbn [concat]. by apply bytes_app.
Qed.

Section P_hash.
Context (junk : EVP_MD → HASH_CTX) (stray : HMAC_CTX) (unaligned : list Z → bool) (md : EVP_MD) (rep : HASH_CTX → list Z → Prop) (H : list Z → list Z)
  `{!Digest md rep H}.
Context (Hjunk : Z.of_nat (length (hdata (junk md))) = block_size md) (Hstray : length (key stray) = 128%nat).
Context (K : list Z) (seeds : list (option (list Z))) (HK : key_ok K) (Hseeds : seeds_ok seeds).

Abbreviation auth := (authenticates md rep H K).
Abbreviation mac := (hmac_spec H (block_size md) K).

Lemma length_mac M : Z.of_nat (length (mac M)) = md_size md.
Proof. exact (d_size (md := md) (rep := rep) (H := H) _). Qed.

Lemma bytes_mac M : bytes (mac M).
Proof. exact (d_bytes (md := md) (rep := rep) (H := H) _). Qed.

Lemma seed_updates_spec ss : seeds_ok ss → ∀ M ctx, auth M ctx →
  succeeds (seed_updates unaligned ctx ss) (auth (M ++ seed_bytes ss)).
Proof.
  unfold seed_bytes. induction 1 as [|s ss [Hs Hl] Hss IH]; intros M ctx Ha; cbn [seed_updates].
  { eapply succeeds_ret; [done|]. cbn. by rewrite app_nil_r. }
  rewrite fmap_cons. cbn [concat]. destruct s as [s|]; cbn [default] in *; [|by apply IH].
  eapply succeeds_check; [by eapply EVP_DigestSignUpdate_spec|done|]. intros c Hc. rewrite app_assoc. by apply IH.
Qed.

Lemma P_loop_spec ctx_init fuel : auth [] ctx_init → ∀ ctx ctx_tmp A acc rest olen, bytes A → short_piece A →
  0 ≤ olen ≤ md_size md * Z.of_nat fuel → (0 < fuel)%nat → Z.of_nat (length rest) = olen →
  succeeds (P_loop stray unaligned fuel (md_size md) seeds ctx_init ctx ctx_tmp A acc rest olen)
    (λ out, out = acc ++ take (Z.to_nat olen) (P_blocks mac (seed_bytes seeds) fuel A)).
Proof.
  intros Hi. pose proof (bytes_seed seeds Hseeds) as Hsb. destruct (d_block (md := md) (rep := rep) (H := H)) as [Hsz _].
  induction fuel as [|fuel IH]; intros ctx ctx_tmp A acc rest olen HA HAl Ho Hf Hr; [lia|]. cbn [P_loop P_blocks].
  pose proof (length_mac (A ++ seed_bytes seeds)) as Hlm.
  eapply succeeds_check; [by eapply (MAC_CTX_copy_ex_spec stray md rep H)|done|]. intros c1 H1.
  eapply succeeds_check; [by eapply EVP_DigestSignUpdate_spec|done|]. intros c2 H2. cbn [app] in H2.
  eapply (succeeds_check _ _ _ (λ c, md_size md < olen → auth A c)).
  { destruct (Z.ltb_spec (md_size md) olen) as [L|L]; [|eapply succeeds_ret; [done|lia]].
    eapply succeeds_mono; [by eapply (MAC_CTX_copy_ex_spec stray md rep H)|]. done. }
  { done. }
  intros c3 H3. eapply succeeds_check; [by eapply seed_updates_spec|done|]. intros c4 H4.
  destruct (Z.ltb_spec (md_size md) olen) as [L|L].
  - eapply succeeds_check; [eapply (EVP_DigestSignFinal_spec junk stray md rep H K); [done| |exact H4]; by apply bytes_app|done|].
    intros out ->. eapply succeeds_check; [eapply (EVP_DigestSignFinal_spec junk stray md rep H K); [done| |by apply H3]; done|done|].
    intros A' ->. rewrite Hlm.
    eapply succeeds_mono; [apply IH|].
    + apply bytes_mac.
    + unfold short_piece. rewrite length_mac. lia.
    + lia.
    + destruct fuel; [|lia]. nia.
    + rewrite length_drop. lia.
    + intros o ->. rewrite <- app_assoc. f_equal. rewrite take_app_ge by lia. do 2 f_equal. lia.
  - eapply succeeds_check; [eapply (EVP_DigestSignFinal_spec junk stray md rep H K); [done| |exact H4]; by apply bytes_app|done|].
    intros A' ->. eapply succeeds_ret; [done|]. f_equal. rewrite take_app_le by lia. unfold splice. cbn [take app].
    rewrite drop_ge, app_nil_r by (rewrite length_take; lia). done.
Qed.

Lemma tls1_P_hash_spec sec sec_len out olen : take (Z.to_nat sec_len) sec = K → 0 ≤ sec_len → 0 ≤ olen → Z.of_nat (length out) = olen →
  succeeds (tls1_P_hash junk stray unaligned md sec sec_len seeds out olen) (λ o, o = P_hash mac (seed_bytes seeds) (Z.to_nat olen)).
Proof.
  intros EK Hl Ho Hout. pose proof (bytes_seed seeds Hseeds) as Hsb. destruct (d_block (md := md) (rep := rep) (H := H)) as [Hsz _]. unfold tls1_P_hash.
  eapply succeeds_check; [by apply EVP_PKEY_new_mac_key_spec|done|]. intros k ->. rewrite EK.
  eapply succeeds_check; [by eapply (EVP_DigestSignInit_spec junk stray md rep H)|done|]. intros ci Hi.
  eapply succeeds_check; [by eapply (MAC_CTX_copy_ex_spec stray md rep H)|done|]. intros c1 H1.
  eapply succeeds_check; [by eapply seed_updates_spec|done|]. intros c2 H2. cbn [app] in H2.
  eapply succeeds_check; [by eapply (EVP_DigestSignFinal_spec junk stray md rep H K)|done|]. intros A ->.
  eapply succeeds_mono; [apply P_loop_spec; [exact Hi|apply bytes_mac|..]|].
  - unfold short_piece. rewrite length_mac. lia.
  - nia.
  - lia.
  - done.
  - intros o ->. done.
Qed.
End P_hash.

Lemma length_P_blocks mac seed n m : (∀ x, length (mac x) = n) → ∀ k A, k = m → length (P_blocks mac seed k A) = (m * n)%nat.
Proof. intros Hm k A <-. revert A. induction k as [|k IH]; intros A; [done|]. cbn [P_blocks]. rewrite length_app, IH, Hm. lia. Qed.

Lemma length_P_hash mac seed n m : (∀ x, length (mac x) = m) → (0 < m)%nat → length (P_hash mac seed n) = n.
Proof. intros Hm Hp. unfold P_hash. rewrite length_take, (length_P_blocks mac seed m (S n)) by done. nia. Qed.

Lemma xor_bytes_zeros n x : length x = n → xor_bytes (replicate n 0) x = x.
Proof. revert n. induction x as [|b x IH]; intros [|n] Hn; try done. cbn. f_equal. apply IH. by injection Hn. Qed.

(** The masks that the cipher suites have. *)
Inductive tls_prf : Z → (list Z → list Z → nat → list Z) → Prop :=
| prf_default : tls_prf (Z.lor SSL_HANDSHAKE_MAC_DEFAULT TLS1_PRF) PRF_tls10
| prf_sha256 : tls_prf (Z.lor SSL_HANDSHAKE_MAC_SHA256 TLS1_PRF_SHA256) (PRF_tls12 SHA256_fips 64)
| prf_sha384 : tls_prf (Z.lor SSL_HANDSHAKE_MAC_SHA384 TLS1_PRF_SHA384) (PRF_tls12 SHA384_fips 128).

Definition roomy (junk : EVP_MD → HASH_CTX) : Prop := ∀ md, 0 ≤ block_size md → Z.of_nat (length (hdata (junk md))) = block_size md.

Section PRF.
Context (junk : EVP_MD → HASH_CTX) (stray : HMAC_CTX) (unaligned : list Z → bool) (small x86 : bool) (gost94 : option EVP_MD).
Context (Hjunk : roomy junk) (Hstray : length (key stray) = 128%nat).
Context (seeds : list (option (list Z))) (Hseeds : seeds_ok seeds).
Abbreviation digests := (handshake_digests small x86 gost94).

(** One selected digest. *)
Lemma PRF_step mask f md rep H `{!Digest md rep H} es sec off len odd out1 out2 olen K (Q : list Z → Prop) :
  selected mask (f, Some md) = true → key_ok K → take (Z.to_nat (len + odd)) (drop (Z.to_nat off) sec) = K → 0 ≤ len + odd →
  0 ≤ olen → Z.of_nat (length out2) = olen →
  (∀ o, o = P_hash (hmac_spec H (block_size md) K) (seed_bytes seeds) (Z.to_nat olen) → Z.of_nat (length o) = olen →
    succeeds (PRF_loop junk stray unaligned mask es seeds sec (off + len) len odd (xor_bytes out1 o) o olen) Q) →
  succeeds (PRF_loop junk stray unaligned mask ((f, Some md) :: es) seeds sec off len odd out1 out2 olen) Q.
Proof.
  intros Hs HK EK Hl Ho Hout Hk. cbn [PRF_loop]. rewrite Hs. cbn [snd].
  destruct (d_block (md := md) (rep := rep) (H := H)) as [Hsz Hbs].
  eapply succeeds_check; [eapply (tls1_P_hash_spec junk stray unaligned md rep H _ Hstray K); done|done|].
  intros o ->. apply Hk; [done|]. rewrite (length_P_hash _ _ _ (Z.to_nat (md_size md))); [lia| |lia].
  intros x. pose proof (length_mac md rep H K x). lia.
  Unshelve. apply Hjunk. lia.
Qed.

Lemma PRF_skip mask e es sec off len odd out1 out2 olen : selected mask e = false →
  PRF_loop junk stray unaligned mask (e :: es) seeds sec off len odd out1 out2 olen =
  PRF_loop junk stray unaligned mask es seeds sec off len odd out1 out2 olen.
Proof. intros Hs. cbn [PRF_loop]. by rewrite Hs. Qed.
Lemma slices_key_ok sec n m : key_ok sec → key_ok (take n (drop m sec)).
Proof.
  intros [Hb Hl]. split; [by apply Forall_take, Forall_drop|]. rewrite length_take, length_drop. lia.
Qed.

(** One digest: the whole secret. *)
Lemma PRF_one mask f md rep H `{!Digest md rep H} pre es sec out1 out2 olen :
  digests = pre ++ (f, Some md) :: es → Forall (λ e, selected mask e = false) pre → Forall (λ e, selected mask e = false) es →
  selected mask (f, Some md) = true → key_ok sec → 0 ≤ olen → Z.of_nat (length out2) = olen →
  succeeds (tls1_PRF junk stray unaligned small x86 gost94 mask seeds sec (Z.of_nat (length sec)) out1 out2 olen)
    (λ o, o = P_hash (hmac_spec H (block_size md) sec) (seed_bytes seeds) (Z.to_nat olen)).
Proof.
  intros E Hpre Hes Hs HK Ho Hout. unfold tls1_PRF. rewrite E.
  assert (∀ l, Forall (λ e, selected mask e = false) l → List.filter (selected mask) l = []) as Hf.
  { induction 1 as [|e l He _ IH]; [done|]. cbn [List.filter]. by rewrite He. }
  assert (List.filter (selected mask) (pre ++ (f, Some md) :: es) = [(f, Some md)]) as ->.
  { rewrite List.filter_app, Hf by done. cbn [List.filter app]. by rewrite Hs, Hf. }
  cbn [length]. change (Z.of_nat 1) with 1. cbn [Z.eqb Pos.eqb]. rewrite Z.quot_1_r. change (Z.land 0 1) with 0.
  assert (∀ l es' sec off len odd out1 out2, Forall (λ e, selected mask e = false) l →
    PRF_loop junk stray unaligned mask (l ++ es') seeds sec off len odd out1 out2 olen =
    PRF_loop junk stray unaligned mask es' seeds sec off len odd out1 out2 olen) as Hskip.
  { induction 1 as [|e l He _ IH]; [done|]. cbn [app]. by rewrite PRF_skip. }
  rewrite Hskip by done. eapply (PRF_step mask f md rep H); [done|exact HK| |lia|done|done|].
  { rewrite Z.add_0_r, Nat2Z.id. cbn [Z.to_nat drop]. apply firstn_all. }
  intros o -> Hlo. rewrite <- (app_nil_r es), Hskip by done. cbn [PRF_loop]. eapply succeeds_ret; [done|].
  apply xor_bytes_zeros. lia.
Qed.

Lemma tls1_PRF_spec mask prf sec out1 out2 olen : tls_prf mask prf → key_ok sec → 0 ≤ olen → Z.of_nat (length out2) = olen →
  succeeds (tls1_PRF junk stray unaligned small x86 gost94 mask seeds sec (Z.of_nat (length sec)) out1 out2 olen)
    (λ o, o = prf sec (seed_bytes seeds) (Z.to_nat olen)).
Proof.
  intros Hp HK Ho Hout. destruct Hp.
  - unfold tls1_PRF, handshake_digests.
    set (mask := Z.lor _ _). change (Z.of_nat (length (List.filter (selected mask) _))) with 2.
    cbn [Z.eqb Pos.eqb]. set (L := Z.of_nat (length sec)).
    assert (L `quot` 2 = L / 2) as -> by (apply Z.quot_div_nonneg; lia).
    assert (Z.land L 1 = L mod 2) as -> by (by apply (Z.land_ones L 1)).
    pose proof (Z.div_mod L 2 ltac:(lia)) as HL. pose proof (Z.mod_pos_bound L 2 ltac:(lia)) as HM.
    assert (Z.of_nat ((length sec + 1) / 2) = L / 2 + L mod 2) as Eh.
    { rewrite Nat2Z.inj_div, Nat2Z.inj_add. fold L. change (Z.of_nat 1) with 1. change (Z.of_nat 2) with 2.
      pose proof (Z.div_mod (L + 1) 2 ltac:(lia)). pose proof (Z.mod_pos_bound (L + 1) 2 ltac:(lia)). lia. }
    eapply (PRF_step mask _ md5_md _ MD5_rfc); [done|by apply (slices_key_ok sec)|done|lia|done|done|]. intros o1 -> Hl1.
    eapply (PRF_step mask _ sha1_md _ SHA1_fips); [done|by apply (slices_key_ok sec)|done|lia|done|done|]. intros o2 -> Hl2.
    do 4 (rewrite PRF_skip by done). cbn [PRF_loop]. eapply succeeds_ret; [done|].
    cbn [snd]. rewrite xor_bytes_zeros by lia. unfold PRF_tls10.
    replace (take (Z.to_nat (L / 2 + L mod 2)) (drop (Z.to_nat 0) sec)) with (take ((length sec + 1) / 2) sec) by (rewrite <- Eh, Nat2Z.id; done).
    rewrite Z.add_0_l. rewrite (take_ge (drop _ sec)) by (rewrite length_drop; lia).
    replace (length sec - (length sec + 1) / 2)%nat with (Z.to_nat (L / 2)) by lia. done.
  - eapply (PRF_one _ _ (sha256_md small) _ SHA256_fips [_; _; _; _] [_]); try done; by repeat constructor.
  - eapply (PRF_one _ _ (sha384_md x86) _ SHA384_fips [_; _; _; _; _] []); try done; by repeat constructor.
Qed.
End PRF.

(** C4: The pseudorandom function is that of RFC 2246 and RFC 5246: for each mask that a cipher
    suite has, [tls1_PRF] returns 1 only with the value that the standard defines for
    the secret and the concatenation of the seeds, for outputs and seeds of any length,
    and it returns 1 when memory suffices. *)
Theorem tls1_PRF_correct junk stray unaligned small x86 gost94 mask prf seeds sec out1 out2 olen mem :
  roomy junk → length (key stray) = 128%nat → tls_prf mask prf → seeds_ok seeds → key_ok sec → 0 ≤ olen → Z.of_nat (length out2) = olen →
  let r := tls1_PRF junk stray unaligned small x86 gost94 mask seeds sec (Z.of_nat (length sec)) out1 out2 olen mem in
  let value := prf sec (seed_bytes seeds) (Z.to_nat olen) in
  (∀ out mem', r = Some ((true, out), mem') → out = value) ∧ (plenty mem → ∃ mem', r = Some ((true, value), mem')).
Proof.
  intros Hj Hs Hp Hseeds HK Ho Hout r value.
  destruct (tls1_PRF_spec junk stray unaligned small x86 gost94 Hj Hs seeds Hseeds mask prf sec out1 out2 olen Hp HK Ho Hout mem) as [H1 H2].
  split.
  - intros out mem' E. by apply (H1 _ _ _ E).
  - intros P. destruct (H2 P) as ([[|] o] & mem' & a & E & V & _); [|done]. exists mem'. unfold r. rewrite E.
    injection V as ->. pose proof (H1 _ _ a E eq_refl) as ->. done.
Qed.

Lemma tls1_PRF_correct_witness :
  let junk m := HCtx [] 0 0 (replicate (Z.to_nat (block_size m)) 7) 0 0 in
  let stray := HmacCtx None EVP_MD_CTX_init EVP_MD_CTX_init EVP_MD_CTX_init 3 (replicate 128 9) true in
  let r := tls1_PRF junk stray (λ _, true) true false None (Z.lor SSL_HANDSHAKE_MAC_DEFAULT TLS1_PRF) [Some (str "label"); None; Some [1; 2; 3]]
    [5; 6; 7] 3 (replicate 50 0) (replicate 50 1) 50 [true] in
  let value := PRF_tls10 [5; 6; 7] (str "label" ++ [1; 2; 3]) 50 in
  (∀ out mem', r = Some ((true, out), mem') → out = value) ∧ (plenty [true] → ∃ mem', r = Some ((true, value), mem')).
Proof.
  intros junk stray.
  apply (tls1_PRF_correct junk stray (λ _, true) true false None _ _ [Some (str "label"); None; Some [1; 2; 3]] [5; 6; 7] (replicate 50 0) (replicate 50 1) 50 [true]).
  - intros md Hm. cbn [junk hdata]. rewrite length_replicate. lia.
  - reflexivity.
  - exact prf_default.
  - apply (bool_decide_eq_true_1 _). vm_compute. reflexivity.
  - split; [|reflexivity]. apply (bool_decide_eq_true_1 _). vm_compute. reflexivity.
  - done.
  - reflexivity.
Defined.

(** Without memory the master secret is 48 zero bytes, and the function reports
    success: the session then has a key that everybody knows. *)
Lemma tls1_generate_master_secret_zero junk stray unaligned small x86 gost94 mask prf cr sr p mk buff mem : tls_prf mask prf →
  tls1_generate_master_secret junk stray unaligned small x86 gost94 mask cr sr p mk buff (false :: mem) =
  Some ((48, replicate 48 0), mem).
Proof. by destruct 1. Qed.
