(* ===== verification/TlsRecord.v ===== *)
(** * Protection of TLS records

    Models [tls1_mac] and the part of [tls1_enc] for ciphers in cipher contexts
    ([ssl/t1_enc.c]), what [ssl3_get_record] does with a record once it has been
    read, and how [do_ssl3_write] makes one ([ssl/s3_pkt.c]), for TLS over a reliable
    transport.  They compose the padding check and the extraction of the MAC of
    [RecordCbc], the constant-time MAC of [CbcDigest], the MAC contexts of [EvpMac]
    and the cipher contexts of [Evp].

    A connection has two halves, for reading and for writing, that do not share
    state.  Ciphers with the flag [EVP_CIPH_FLAG_AEAD_CIPHER] and [EVP_AEAD] contexts
    are not modelled: the branches are crashes here.

    The theorems are proved for any cipher that keeps the promises of [BlockCipher];
    they show that a record is accepted exactly when its padding and its MAC are
    right, that all other records of the right size lead to the same
    alert, and that the reader recovers what the writer protected. *)

From S2P Require Import Prelude ConstTime RecordCbc DtlsWrite Block Cbc Evp AesSpec Aes AesModes EvpAes Md32 Sha256 Sha512 Sha1 Md5 EvpDigest Hmac CbcDigest EvpMac.

Definition SSL3_RT_HEADER_LENGTH : Z := 5.
Definition SSL3_RT_MAX_PLAIN_LENGTH : Z := 16384.
Definition SSL3_RT_MAX_COMPRESSED_LENGTH : Z := SSL3_RT_MAX_PLAIN_LENGTH.
Definition SSL3_RT_MAX_MD_SIZE : Z := 64.
Definition SSL3_RT_MAX_ENCRYPTED_OVERHEAD : Z := 256 + SSL3_RT_MAX_MD_SIZE.
Definition SSL3_RT_MAX_ENCRYPTED_LENGTH : Z := SSL3_RT_MAX_ENCRYPTED_OVERHEAD + SSL3_RT_MAX_COMPRESSED_LENGTH.
Definition EVP_CIPH_FLAG_AEAD_CIPHER : Z := 0x200000.
Definition EVP_CIPH_GCM_MODE : Z := 0x6.
Definition EVP_GCM_TLS_EXPLICIT_IV_LEN : Z := 8.
Definition SSL3_VERSION_MAJOR : Z := 3.
Definition SSL3_RT_ALERT : Z := 21.
Definition SSL3_RT_APPLICATION_DATA : Z := 23.
Definition SSL_RT_MAX_CIPHER_BLOCK_SIZE : Z := 16.
Definition SSL3_RT_SEND_MAX_ENCRYPTED_OVERHEAD : Z := SSL_RT_MAX_CIPHER_BLOCK_SIZE + SSL3_RT_MAX_MD_SIZE.
Definition MAX_EMPTY_RECORDS : Z := 32.

Definition SSL_AD_UNEXPECTED_MESSAGE : Z := 10.
Definition SSL_AD_BAD_RECORD_MAC : Z := 20.
Definition SSL_AD_DECRYPTION_FAILED : Z := 21.
Definition SSL_AD_RECORD_OVERFLOW : Z := 22.
Definition SSL_AD_DECODE_ERROR : Z := 50.
Definition SSL_AD_PROTOCOL_VERSION : Z := 70.

(** One direction: [enc_read_ctx], [read_hash], [read_sequence], [read_mac_secret] and the
    flag [SSL_MAC_FLAG_READ_MAC_STREAM], or those for writing. *)
Record half (D : Type) := Half {
  h_enc : option (EVP_CIPHER_CTX D);
  h_hash : option MAC_CTX;
  h_seq : list Z;
  h_secret : list Z;
  h_stream_mac : bool
}.
Arguments Half {D}. Arguments h_enc {D}. Arguments h_hash {D}. Arguments h_seq {D}. Arguments h_secret {D}. Arguments h_stream_mac {D}.

(** What the functions ask about the rest of the connection: [s->version], [SSL_USE_EXPLICIT_IV(s)],
    whether there is a session, [extra], [s->first_packet], and whether neither
    [s->enc_write_ctx] nor [s->write_hash] is set. *)
Record conn := Conn { c_version : Z; c_explicit_iv : bool; c_session : bool; c_extra : Z; c_first_packet : bool; c_write_clear : bool }.
Definition set_version (s : conn) (v : Z) : conn := Conn v (c_explicit_iv s) (c_session s) (c_extra s) (c_first_packet s) (c_write_clear s).

Definition mac_header (seq : list Z) (type version len : Z) : list Z :=
  take 8 seq ++ [u8 type; u8 (version ≫ 8); u8 version; u8 (len ≫ 8); Z.land len 0xff].

(** [EVP_MD_CTX_md] of [read_hash] or [write_hash]. *)
Definition hash_md (o : option MAC_CTX) : option EVP_MD := match o with Some h => digest (base h) | None => None end.

Section record.
Context {D : Type}.
Context (junk : EVP_MD → HASH_CTX) (stray : HMAC_CTX) (unaligned : list Z → bool).
(** The builds, the local [md_state] and [md] before they are written, and the random
    generator, which delivers these bytes or fails. *)
Context (small x86 : bool) (stack : HASH_CTX) (md0 : list Z).
Implicit Types h : half D.

Definition set_enc h c : half D := Half c (h_hash h) (h_seq h) (h_secret h) (h_stream_mac h).
Definition mac_done h (m : MAC_CTX) : half D :=
  Half (h_enc h) (if h_stream_mac h then Some m else h_hash h) (tls1_record_sequence_increment (h_seq h)) (h_secret h) (h_stream_mac h).

(** [EVP_CIPHER_CTX_mode]: a null pointer without a context or a cipher. *)
Definition ctx_mode (ds : option (EVP_CIPHER_CTX D)) : option Z :=
  ds ← ds;
  c ← cipher ds;
  Some (Z.land (c_flags c) EVP_CIPH_MODE).
Definition mode_of (ds : option (EVP_CIPHER_CTX D)) : comp Z := λ mem, m ← ctx_mode ds; Some (m, mem).

(** The MAC of a record computed with [mac_ctx], and [mac_ctx] afterwards. *)
Definition record_mac (send : bool) h (mac_ctx : MAC_CTX) (d : EVP_MD) (header : list Z) (rec : SSL3_RECORD) (orig_len : Z) : comp (list Z * MAC_CTX) :=
  cbc ← if send then mret false else m ← mode_of (h_enc h); mret (m =? EVP_CIPH_CBC_MODE);
  if (cbc : bool) && ssl3_cbc_record_digest_supported (mtype d) then
    o ← ((λ mem,
      r ← ssl3_cbc_digest_record junk mem small x86 (unaligned (rec_input rec)) stack d header (take (Z.to_nat orig_len) (rec_input rec))
        (rec_length rec + md_size d) orig_len (h_secret h);
      Some (r, (malloc mem).2)) : comp (option (list Z)));
    mret (default md0 o, mac_ctx)
  else
    '(_, c) ← EVP_DigestSignUpdate mac_ctx (unaligned header) header;
    '(_, c) ← EVP_DigestSignUpdate c (unaligned (rec_input rec)) (take (Z.to_nat (rec_length rec)) (rec_input rec));
    t ← EVP_DigestSignFinal stray c;
    match t with
    | None => crash
    | Some m => mret (m, c)
    end.

(** The return value, [md], the half and the record; a missing digest fails the
    assertion on [EVP_MD_CTX_size]. *)
Definition tls1_mac (s : conn) (send : bool) h (rec : SSL3_RECORD) : comp (Z * list Z * half D * SSL3_RECORD) :=
  match h_hash h, hash_md (h_hash h) with
  | Some hash, Some d =>
    '(ok, mac_ctx) ← if h_stream_mac h then mret (true, hash) else MAC_CTX_copy_ex stray MAC_CTX_init hash;
    if negb ok then mret (-1, md0, h, rec)
    else
      let orig_len := rec_length rec + md_size d + rec_type rec ≫ 8 in
      let rec := set_rec rec (Z.land (rec_type rec) 0xff) (rec_length rec) (rec_data rec) (rec_input rec) in
      let header := mac_header (h_seq h) (rec_type rec) (c_version s) (rec_length rec) in
      '(md, mac_ctx) ← record_mac send h mac_ctx d header rec orig_len;
      mret (md_size d, md, mac_done h mac_ctx, rec)
  | _, _ => crash
  end.

(** ** Reading *)

(** [tls1_enc(s, 0)]: the return value, the half and the record. *)
Definition tls1_enc_read (s : conn) h (rec : SSL3_RECORD) : option (Z * half D * SSL3_RECORD) :=
  match h_enc h, c_session s with
  | Some ds, true =>
    match cipher ds with
    | None => Some (1, h, set_rec rec (rec_type rec) (rec_length rec) (rec_input rec) (rec_input rec))
    | Some c =>
      let l := rec_length rec in
      let bs := Evp.block_size c in
      if negb (Z.land (c_flags c) EVP_CIPH_FLAG_AEAD_CIPHER =? 0) then None
      else if (l =? 0) || negb (l `mod` bs =? 0) then Some (0, h, rec)
      else
        let '(i, out, w) := do_cipher c (wk ds) (Some (take (Z.to_nat l) (rec_input rec))) in
        let h := set_enc h (Some (set_wk ds w)) in
        let rec := set_rec rec (rec_type rec) l out out in
        if (if is_custom c then i <? 0 else i =? 0) then Some (-1, h, rec)
        else
          let rec := if Z.land (c_flags c) EVP_CIPH_MODE =? EVP_CIPH_GCM_MODE then
              let n := Z.to_nat EVP_GCM_TLS_EXPLICIT_IV_LEN in
              set_rec rec (rec_type rec) (u32 (l - EVP_GCM_TLS_EXPLICIT_IV_LEN)) (drop n (rec_data rec)) (drop n (rec_input rec))
            else rec in
          let mac_size := match hash_md (h_hash h) with Some d => md_size d | None => 0 end in
          if negb (bs =? 1) then
            let '(ret, rec) := tls1_cbc_remove_padding
              {| SSL_USE_EXPLICIT_IV := c_explicit_iv s; flag_aead_cipher := false |} rec bs mac_size in
            Some (ret, h, rec)
          else Some (1, h, rec)
    end
  | _, _ => Some (1, h, set_rec rec (rec_type rec) (rec_length rec) (rec_input rec) (rec_input rec))
  end.

(** [Error] is a return value of -1 without an alert, [Blocked] one that asks for more input. *)
Inductive verdict := Accept | Alert (al : Z) | Error | Blocked.

(** Shorten the record by the MAC. *)
Definition cut_mac (rec : SSL3_RECORD) (n : Z) : SSL3_RECORD :=
  set_rec rec (rec_type rec) (u32 (rec_length rec - n)) (rec_data rec) (rec_input rec).

(** The check of the MAC, from the digest [d]: [enc_err] afterwards, or an alert. *)
Definition check_mac (s : conn) h (rec : SSL3_RECORD) (d : EVP_MD) (enc_err : Z) : comp (Z + Z * half D * SSL3_RECORD) :=
  let mac_size := md_size d in
  if EVP_MAX_MD_SIZE <? mac_size then crash
  else
    let orig_len := u32 (rec_length rec + rec_type rec ≫ 8) in
    if orig_len <? mac_size then mret (inl SSL_AD_DECODE_ERROR)
    else
      m ← mode_of (h_enc h);
      if (m =? EVP_CIPH_CBC_MODE) && (orig_len <? mac_size + 1) then mret (inl SSL_AD_DECODE_ERROR)
      else
      match (if m =? EVP_CIPH_CBC_MODE then ssl3_cbc_copy_mac rec mac_size orig_len
             else Some (drop (Z.to_nat (u32 (rec_length rec - mac_size))) (rec_data rec))) with
      | None => crash
      | Some mac =>
        '(i, md, h, rec) ← tls1_mac s false h (cut_mac rec mac_size);
        let enc_err := if (i <? 0) || negb (CRYPTO_memcmp md mac (Z.to_nat mac_size) =? 0) then -1 else enc_err in
        let enc_err := if SSL3_RT_MAX_COMPRESSED_LENGTH + c_extra s + mac_size <? rec_length rec then -1 else enc_err in
        mret (inr (enc_err, h, rec))
      end.

(** [ssl3_get_record] from the point where the record is in the buffer: its type,
    length and contents. *)
Definition open_record (s : conn) h (type len : Z) (body : list Z) : comp (verdict * half D * SSL3_RECORD) :=
  let rec := set_rec blank_record type len body body in
  match tls1_enc_read s h rec with
  | None => crash
  | Some (enc_err, h, rec) =>
    if enc_err =? 0 then mret (Alert SSL_AD_DECRYPTION_FAILED, h, rec)
    else
      r ← match hash_md (h_hash h), h_enc h, c_session s with
          | Some d, Some _, true => check_mac s h rec d enc_err
          | _, _, _ => mret (inr (enc_err, h, rec))
          end;
      match r with
      | inl al => mret (Alert al, h, rec)
      | inr (enc_err, h, rec) =>
        if enc_err <? 0 then mret (Alert SSL_AD_BAD_RECORD_MAC, h, rec)
        else if SSL3_RT_MAX_PLAIN_LENGTH + c_extra s <? rec_length rec then mret (Alert SSL_AD_RECORD_OVERFLOW, h, rec)
        else mret (Accept, h, rec)
      end
  end.

(** ** Writing *)

(** [tls1_enc(s, 1)] on the buffer [buf] of which [l] bytes are the record so far; [rand] are the
    random bytes for the explicit IV.  The new contents. *)
Definition tls1_enc_write (s : conn) h (buf : list Z) (rand : option (list Z)) : option (Z * half D * list Z) :=
  match h_enc h with
  | None => Some (1, h, buf)
  | Some ds =>
    match cipher ds with
    | None => if c_explicit_iv s then None else Some (1, h, buf)
    | Some c =>
      let ivlen := if c_explicit_iv s && (Z.land (c_flags c) EVP_CIPH_MODE =? EVP_CIPH_CBC_MODE) then iv_len c else 0 in
      match (if 1 <? ivlen then r ← rand; Some (splice buf 0 (take (Z.to_nat ivlen) r)) else Some buf) with
      | None => Some (-1, h, buf)
      | Some buf =>
        if negb (c_session s) then Some (1, h, buf)
        else if negb (Z.land (c_flags c) EVP_CIPH_FLAG_AEAD_CIPHER =? 0) then None
        else
          let l := Z.of_nat (length buf) in
          let bs := Evp.block_size c in
          let buf := if negb (bs =? 1) then let i := bs - l `mod` bs in buf ++ replicate (Z.to_nat i) (i - 1) else buf in
          let '(i, out, w) := do_cipher c (wk ds) (Some buf) in
          let h := set_enc h (Some (set_wk ds w)) in
          if (if is_custom c then i <? 0 else i =? 0) then Some (-1, h, buf) else Some (1, h, out)
      end
    end
  end.

(** The length of the explicit IV in [do_ssl3_write]. *)
Definition eivlen (s : conn) h : comp Z :=
  match h_enc h with
  | Some ds =>
    if c_explicit_iv s then
      m ← mode_of (Some ds);
      let n := match cipher ds with Some c => iv_len c | None => 0 end in
      mret (if m =? EVP_CIPH_CBC_MODE then if n <=? 1 then 0 else n
            else if m =? EVP_CIPH_GCM_MODE then EVP_GCM_TLS_EXPLICIT_IV_LEN else 0)
    else mret 0
  | None => mret 0
  end.

(** [do_ssl3_write] from the header on: the record of type [type] for [data], [None] for -1.  [hello]: this is an initial
    client hello for a version above TLS 1.0; [gap] is what the buffer holds at the place of the explicit IV. *)
Definition seal_record (s : conn) h (type : Z) (hello : bool) (data : list Z) (rand : option (list Z)) (gap : list Z) : comp (option (list Z) * half D) :=
  n ← eivlen s h;
  let mac_size := match hash_md (h_hash h), h_enc h, c_session s with Some d, Some _, true => md_size d | _, _, _ => 0 end in
  r ← if mac_size =? 0 then mret (Some ([], h))
      else
        '(i, md, h, _) ← tls1_mac s true h (set_rec blank_record type (Z.of_nat (length data)) data data);
        mret (if i <? 0 then None else Some (md, h));
  match r with
  | None => mret (None, h)
  | Some (md, h) =>
    match tls1_enc_write s h (take (Z.to_nat n) gap ++ data ++ md) rand with
    | None => crash
    | Some (i, h, out) =>
      if i <? 1 then mret (None, h)
      else
        let l := Z.of_nat (length out) in
        mret (Some ([Z.land type 0xff; u8 (c_version s ≫ 8); if hello then 1 else Z.land (c_version s) 0xff; Z.land (l ≫ 8) 0xff; Z.land l 0xff] ++ out), h)
    end
  end.

(** [do_ssl3_write] when nothing is pending: what goes into the buffer to be sent, [None] for -1, nothing for 0, and
    [empty_fragment_done].  An empty record before application data makes the vector of the next one
    unpredictable where [need] is [need_empty_fragments]. *)
Definition do_ssl3_write (s : conn) h (need done : bool) (type : Z) (hello : bool) (data : list Z) (rand1 rand2 : option (list Z)) (gap1 gap2 : list Z) :
    comp (option (list Z) * half D * bool) :=
  if Z.of_nat (length data) =? 0 then mret (Some [], h, done)
  else
    let clear := match h_enc h with Some _ => false | None => true end in
    let start := negb clear && negb done in
    '(p, h) ← if start && need && (type =? SSL3_RT_APPLICATION_DATA) then seal_record s h type hello [] rand1 gap1 else mret (Some [], h);
    match p with
    | None => mret (None, h, done)
    | Some p =>
      if SSL3_RT_HEADER_LENGTH + SSL3_RT_SEND_MAX_ENCRYPTED_OVERHEAD <? Z.of_nat (length p) then mret (None, h, done)
      else
        '(w, h) ← seal_record s h type hello data rand2 gap2;
        mret (match w with Some w => Some (p ++ w) | None => None end, h, done || start)
    end.

(** ** Records from a stream *)

(** The header of a record, with the version as a [short]. *)
Definition s16 (x : Z) : Z := (x + 2 ^ 15) `mod` 2 ^ 16 - 2 ^ 15.

(** The checks of the header: a verdict and [s->version], or nothing. *)
Definition check_header (s : conn) (type version len : Z) : option (verdict * conn) :=
  if negb (c_first_packet s) && negb (version =? c_version s) then
    if (Z.land (c_version s) 0xFF00 =? Z.land version 0xFF00) && c_write_clear s then
      if type =? SSL3_RT_ALERT then Some (Error, s)
      else Some (Alert SSL_AD_PROTOCOL_VERSION, set_version s (version `mod` 2 ^ 16))
    else Some (Alert SSL_AD_PROTOCOL_VERSION, s)
  else if negb (version ≫ 8 =? SSL3_VERSION_MAJOR) then Some (Error, s)
  else if SSL3_RT_MAX_ENCRYPTED_LENGTH + c_extra s <? len then Some (Alert SSL_AD_RECORD_OVERFLOW, s)
  else None.

(** The loop of [ssl3_get_record] when the bytes [input] can be read; with fewer than it needs it is
    [Blocked], and starts again from the same record when there are more.  [count] is
    [empty_record_count].  The verdict, the connection, the half, the record and the input that is left. *)
Fixpoint get_record_loop (fuel : nat) (s : conn) h (input : list Z) (count : Z) : comp (verdict * conn * half D * SSL3_RECORD * list Z) :=
  match fuel with
  | O => crash
  | S fuel =>
    match input with
    | type :: major :: minor :: l1 :: l2 :: rest =>
      let len := Z.lor (l1 ≪ 8) l2 in
      match check_header s type (s16 (Z.lor (major ≪ 8) minor)) len with
      | Some (v, s) => mret (v, s, h, blank_record, rest)
      | None =>
        if Z.of_nat (length rest) <? len then mret (Blocked, s, h, blank_record, input)
        else
          '(v, h, rec) ← open_record s h type len (take (Z.to_nat len) rest);
          let rest := drop (Z.to_nat len) rest in
          match v with
          | Accept =>
            if rec_length rec =? 0 then
              if MAX_EMPTY_RECORDS <? count + 1 then mret (Alert SSL_AD_UNEXPECTED_MESSAGE, s, h, rec, rest)
              else get_record_loop fuel s h rest (count + 1)
            else mret (v, s, h, rec, rest)
          | _ => mret (v, s, h, rec, rest)
          end
      end
    | _ => mret (Blocked, s, h, blank_record, input)
    end
  end.
Definition ssl3_get_record (s : conn) h (input : list Z) : comp (verdict * conn * half D * SSL3_RECORD * list Z) :=
  get_record_loop (S (S (Z.to_nat MAX_EMPTY_RECORDS))) s h input 0.
End record.

(** Each turn but the last counts an empty record, so 34 turns are enough. *)
Lemma get_record_fuel {D} junk stray unaligned small x86 stack md0 s n k k' (h : half D) input count : (n < k)%nat → (n < k')%nat →
  0 ≤ count → MAX_EMPTY_RECORDS + 1 - count ≤ Z.of_nat n → ∀ mem,
  get_record_loop junk stray unaligned small x86 stack md0 k s h input count mem = get_record_loop junk stray unaligned small x86 stack md0 k' s h input count mem.
Proof.
  revert k k' h input count. induction n as [|n IH]; intros [|k] [|k'] h input count Hk Hk' Hc Hn mem; try lia; cbn [get_record_loop];
    destruct input as [|type [|major [|minor [|l1 [|l2 rest]]]]]; try done; cbv zeta;
    destruct (check_header _ _ _ _) as [[v s1]|]; try done; destruct (_ <? Z.lor _ _); try done;
    unfold mbind, comp_bind; destruct (open_record _ _ _ _ _ _ _ _ _ _ _ _ mem) as [[[[v h1] rec] mem']|]; try done; destruct v; try done;
    destruct (rec_length rec =? 0); try done; destruct (Z.ltb_spec MAX_EMPTY_RECORDS (count + 1)); try done; try lia.
  apply IH; lia.
Qed.

(** ** Specification *)

(** The padding of a record: [pl] bytes of value [pl] and the length byte [pl], of
    which the code looks at the last 255. *)
Definition good_pad (pad : list Z) : Prop :=
  ∃ pl, 0 ≤ pl < 256 ∧ Z.of_nat (length pad) = pl + 1 ∧ drop (length pad - 255) pad = replicate (length pad `min` 255) pl.

(** A decrypted record that carries [m]. *)
Definition sealed (mac : list Z → list Z) (header : Z → list Z) (R m : list Z) : Prop :=
  ∃ pad, R = m ++ mac (header (Z.of_nat (length m)) ++ m) ++ pad ∧ good_pad pad.

(** What becomes of a record of type [type] that carries the messages [carries]. *)
Inductive judged (carries : list Z → Prop) (ms extra type : Z) : verdict → SSL3_RECORD → Prop :=
  | judged_accept m rec : carries m → Z.of_nat (length m) ≤ SSL3_RT_MAX_PLAIN_LENGTH + extra →
      rec_type rec = type → rec_length rec = Z.of_nat (length m) → take (length m) (rec_data rec) = m →
      judged carries ms extra type Accept rec
  | judged_long m rec : carries m → SSL3_RT_MAX_PLAIN_LENGTH + extra < Z.of_nat (length m) →
      judged carries ms extra type
        (Alert (if SSL3_RT_MAX_COMPRESSED_LENGTH + extra + ms <? Z.of_nat (length m) then SSL_AD_BAD_RECORD_MAC else SSL_AD_RECORD_OVERFLOW)) rec
  | judged_bad rec : (∀ m, ¬ carries m) → judged carries ms extra type (Alert SSL_AD_BAD_RECORD_MAC) rec.

Lemma judged_iff P Q ms extra type v rec : (∀ m, P m ↔ Q m) → judged P ms extra type v rec → judged Q ms extra type v rec.
Proof.
  intros E [m r Hm H1 H2 H3 H4|m r Hm H1|r Hm]; [eapply judged_accept; eauto; by apply E|eapply judged_long; [|done]; by apply E|].
  apply judged_bad. intros m HQ. by apply (Hm m), E.
Qed.

(** RFC 5246, 6.2.3.1 and 6.2.3.2: what is authenticated with a message, and the padding. *)
Definition pseudo_header (seq type version len : Z) : list Z := be_store 8 seq ++ be_store 1 type ++ be_store 2 version ++ be_store 2 len.
Definition rfc_pad (pad : list Z) : Prop := ∃ pl, 0 ≤ pl < 256 ∧ pad = replicate (Z.to_nat (pl + 1)) pl.
Definition carries (mac : list Z → list Z) (seq type version : Z) (R m : list Z) : Prop :=
  ∃ pad, R = m ++ mac (pseudo_header seq type version (Z.of_nat (length m)) ++ m) ++ pad ∧ rfc_pad pad.

(** ** The padding *)

Lemma padding_ok_good_pad R ms pl : bytes R → 0 ≤ ms → 1 + ms ≤ Z.of_nat (length R) → pl = getb R (Z.of_nat (length R) - 1) →
  padding_ok R (Z.of_nat (length R)) ms pl ↔ 1 + ms + pl ≤ Z.of_nat (length R) ∧ good_pad (drop (length R - Z.to_nat (pl + 1)) R).
Proof.
  intros Hb Hms Hl Epl. pose proof (getb_byte R (Z.of_nat (length R) - 1) Hb) as Hp. rewrite <- Epl in Hp. unfold is_byte in Hp.
  unfold padding_ok, good_pad. split; (intros [H1 H2]; split; [done|]).
  - exists pl. split; [done|]. rewrite length_drop. split; [lia|].
    apply list_eq_getb; [rewrite !length_drop, length_replicate; lia|]. intros i. rewrite !length_drop. intros Hi.
    rewrite !getb_drop, getb_replicate by lia. etrans; [|apply (H2 (Z.of_nat (length R) - 1 - (Z.of_nat (length R - Z.to_nat (pl + 1)) +
      (Z.of_nat (length R - (length R - Z.to_nat (pl + 1)) - 255) + i)))); lia]. f_equal. lia.
  - destruct H2 as (q & Hq & Hlq & Eq). rewrite length_drop in *. assert (q = pl) as -> by lia. intros k Hk1 Hk2.
    remember (length R - Z.to_nat (pl + 1))%nat as n eqn:En.
    assert (getb (drop (length R - n - 255) (drop n R)) (Z.of_nat ((length R - n) `min` 255) - 1 - k) = pl) as <-.
    { rewrite Eq. apply getb_replicate. lia. }
    rewrite !getb_drop by lia. f_equal. lia.
Qed.

(** The last byte of a record gives the length of the padding. *)
Lemma good_pad_last a pad : bytes pad → good_pad pad → getb (a ++ pad) (Z.of_nat (length (a ++ pad)) - 1) = Z.of_nat (length pad) - 1.
Proof.
  intros Hb (pl & Hpl & Hl & E). rewrite length_app, getb_app_r by lia.
  assert (getb (drop (length pad - 255) pad) (Z.of_nat (length pad `min` 255) - 1) = pl) as Hg by (rewrite E, getb_replicate; lia).
  rewrite getb_drop in Hg by lia. etrans; [|etrans; [exact Hg|lia]]. f_equal. lia.
Qed.

(** ** The MAC *)

Lemma digest_record_any junk mem small x86 unaligned stack md H header data dpm size K :
  tls_digest small x86 md H → Z.of_nat (length (hdata (junk md))) = block_size md →
  bytes header → length header = 13%nat → bytes data → Z.of_nat (length data) = size → size < 2 ^ 20 →
  md_size md ≤ dpm → dpm ≤ size → size ≤ dpm + 256 → bytes K → Z.of_nat (length K) ≤ block_size md →
  ssl3_cbc_digest_record junk mem small x86 unaligned stack md header data dpm size K =
  if (malloc mem).1 then Some (Some (hmac_spec H (block_size md) K (header ++ take (Z.to_nat (dpm - md_size md)) data))) else None.
Proof.
  intros T Hj Hh Hhl Hd Hdl Hs Hlo Hhi Hp HK HKl.
  destruct (tls_digest_classes small x86 unaligned stack md H T) as (_ & r & compress & rep & Er & R & Dg).
  assert (plenty []) as Hpl by apply Forall_nil_2.
  pose proof (record_digest_spec junk [] small x86 unaligned stack md H r compress rep header data dpm size K R Dg Er Hpl Hj Hh Hhl Hd Hdl Hs Hlo Hhi Hp HK HKl) as E.
  destruct mem as [|[|] mem]; cbn [malloc fst]; [exact E|rewrite <- E; reflexivity|].
  unfold ssl3_cbc_digest_record in *. destruct (_ <=? size); [done|]. rewrite Er in *. cbn [mbind option_bind] in *. by destruct (_ || _).
Qed.

(** A MAC with the rest of the result, [None] for a negative length. *)
#[global] Instance view_tls1_mac A B : View (Z * list Z * A * B) (list Z * A * B) :=
  λ '(i, md, a, b), if i <? 0 then None else Some (md, a, b).

Section mac.
Context {D : Type} (junk : EVP_MD → HASH_CTX) (stray : HMAC_CTX) (unaligned : list Z → bool) (small x86 : bool) (stack : HASH_CTX) (md0 : list Z).
Context (d : EVP_MD) (rep : HASH_CTX → list Z → Prop) (H : list Z → list Z) `{!Digest d rep H}.
Context (Hjunk : Z.of_nat (length (hdata (junk d))) = block_size d) (Hstray : length (key stray) = 128%nat).
Implicit Types h : half D.

(** The half is ready to authenticate records with the key [K]. *)
Definition mac_ready (K : list Z) h : Prop :=
  bytes (h_seq h) ∧ length (h_seq h) = 8%nat ∧ bytes (h_secret h) ∧ h_secret h = K ∧ Z.of_nat (length K) ≤ block_size d ∧ h_stream_mac h = false ∧
  ∃ m, h_hash h = Some m ∧ authenticates d rep H K [] m.
Definition next_half h : half D := Half (h_enc h) (h_hash h) (tls1_record_sequence_increment (h_seq h)) (h_secret h) (h_stream_mac h).

Abbreviation MAC K := (hmac_spec H (block_size d) K).
Definition header_of (s : conn) h (type len : Z) : list Z := mac_header (h_seq h) type (c_version s) len.

Lemma mac_ready_next K h : mac_ready K h → mac_ready K (next_half h).
Proof.
  intros (Hb & Hl & Hs & Es & Hk & Hm & Hh). destruct (tls1_record_sequence_increment_spec _ Hb Hl) as (_ & ? & ?). by split_and!.
Qed.

Lemma hash_md_ready K h : mac_ready K h → hash_md (h_hash h) = Some d.
Proof. by intros (_ & _ & _ & _ & _ & _ & m & -> & ? & _). Qed.

Lemma bytes_header s h type len : bytes (h_seq h) → bytes (header_of s h type len).
Proof.
  intros Hs. apply bytes_app; [by apply Forall_take|].
  repeat apply Forall_cons_2; try apply Forall_nil_2; auto with vtls.
  change (Z.land len 0xff) with (Z.land len (Z.ones 8)). rewrite Z.land_ones by lia. apply u8_byte.
Qed.

Lemma length_header s h type len : length (h_seq h) = 8%nat → length (header_of s h type len) = 13%nat.
Proof. intros Hl. unfold header_of, mac_header. rewrite length_app, length_take, Hl. done. Qed.

(** The MAC of a record that is read, and memory for it. *)
Lemma record_mac_read K h ctx header rec mem : tls_digest small x86 d H → mac_ready K h → ctx_mode (h_enc h) = Some EVP_CIPH_CBC_MODE →
  bytes header → length header = 13%nat → bytes (rec_input rec) → Z.of_nat (length (rec_input rec)) < 2 ^ 20 →
  0 ≤ rec_length rec → rec_length rec + md_size d ≤ Z.of_nat (length (rec_input rec)) ≤ rec_length rec + md_size d + 256 →
  record_mac junk stray unaligned small x86 stack md0 false h ctx d header rec (Z.of_nat (length (rec_input rec))) mem =
  if (malloc mem).1 then Some (MAC K (header ++ take (Z.to_nat (rec_length rec)) (rec_input rec)), ctx, (malloc mem).2) else None.
Proof.
  intros T (_ & _ & Hkb & EK & HKl & _) Hcbc Hh Hhl Hb Hl Hl0 Hl1. destruct d_block as [Hds _].
  destruct (tls_digest_classes small x86 (unaligned (rec_input rec)) stack d H T) as [Hsup _].
  unfold record_mac, mode_of, mbind, comp_bind, mret, comp_ret. rewrite Hcbc. cbn [option_bind Z.eqb EVP_CIPH_CBC_MODE Pos.eqb].
  rewrite Hsup, Nat2Z.id, firstn_all. cbn [andb].
  rewrite (digest_record_any _ _ _ _ _ _ _ H) by (done || lia || by rewrite EK).
  destruct (malloc mem) as [[|] mem']; [|done]. cbn. rewrite EK. do 6 f_equal. lia.
Qed.

(** [tls1_mac] when reading: the padding length is in the type of the record. *)
Lemma tls1_mac_read s h K rec : tls_digest small x86 d H → mac_ready K h → ctx_mode (h_enc h) = Some EVP_CIPH_CBC_MODE → bytes (rec_input rec) →
  0 ≤ rec_type rec ≫ 8 ≤ 256 → 0 ≤ rec_length rec → rec_length rec + md_size d + rec_type rec ≫ 8 = Z.of_nat (length (rec_input rec)) →
  Z.of_nat (length (rec_input rec)) < 2 ^ 20 →
  let type := Z.land (rec_type rec) 0xff in
  succeeds (tls1_mac junk stray unaligned small x86 stack md0 s false h rec)
    (eq (MAC K (header_of s h type (rec_length rec) ++ take (Z.to_nat (rec_length rec)) (rec_input rec)), next_half h,
         set_rec rec type (rec_length rec) (rec_data rec) (rec_input rec))).
Proof.
  intros T Hr Hcbc Hb Ht Hl0 Hl Hl2 type. pose proof (hash_md_ready K h Hr) as Emd.
  pose proof Hr as (Hsq & Hsl & _ & _ & _ & Hst & m & Hm & Ha). unfold tls1_mac. rewrite Emd, Hm, Hst. destruct d_block as [Hds _].
  eapply succeeds_bind; [by eapply MAC_CTX_copy_ex_spec| |]; intros [[|] c] *; [done|intros _; by apply fails_ret| |done].
  intros [= <-] _. cbn [negb]. fold type. cbv zeta. cbn [rec_type rec_length rec_data rec_input set_rec]. rewrite Hl.
  change (mac_header (h_seq h) type (c_version s) (rec_length rec)) with (header_of s h type (rec_length rec)).
  set (rec' := set_rec _ _ _ _ _).
  pose proof (λ mem, record_mac_read K h c (header_of s h type (rec_length rec)) rec' mem T Hr Hcbc (bytes_header s h type _ Hsq)
    (length_header s h type _ Hsl) Hb Hl2 Hl0 ltac:(subst rec'; cbn; lia)) as E.
  change (rec_input rec') with (rec_input rec) in E. change (rec_length rec') with (rec_length rec) in E.
  intros mem. unfold mbind, comp_bind. rewrite (E mem).
  subst rec'. destruct (malloc mem) as [[|] mem'] eqn:Em; cbn [fst snd]; [split|split; [done|]].
  - intros r mem'' a [= <- <-] V. unfold view, view_tls1_mac in V. rewrite (proj2 (Z.ltb_ge _ _)) in V by lia. injection V as <-.
    unfold mac_done, next_half. by rewrite Hst.
  - intros P0. eexists _, _, _. split; [reflexivity|]. unfold view, view_tls1_mac. rewrite (proj2 (Z.ltb_ge _ _)) by lia.
    split; [reflexivity|]. destruct (plenty_malloc mem P0) as [_ ?]. by rewrite Em in *.
  - intros P0. destruct (plenty_malloc mem P0) as [F _]. by rewrite Em in F.
Qed.

(** [tls1_mac] when writing. *)
Lemma tls1_mac_write s h K rec : mac_ready K h → bytes (rec_input rec) → is_byte (rec_type rec) →
  0 ≤ rec_length rec < 2 ^ 31 →
  succeeds (tls1_mac junk stray unaligned small x86 stack md0 s true h rec)
    (eq (MAC K (header_of s h (rec_type rec) (rec_length rec) ++ take (Z.to_nat (rec_length rec)) (rec_input rec)), next_half h, rec)).
Proof.
  intros Hr Hb Ht Hl. pose proof (hash_md_ready K h Hr) as Emd.
  pose proof Hr as (Hsq & Hsl & Hkb & EK & HKl & Hst & m & Hm & Ha). unfold tls1_mac. rewrite Emd, Hm, Hst. destruct d_block as [Hds Hdb].
  eapply succeeds_bind; [by eapply MAC_CTX_copy_ex_spec| |]; intros [[|] c] *; [done|intros _; by apply fails_ret| |done].
  intros [= <-] Hc. cbn [negb].
  assert (Z.land (rec_type rec) 0xff = rec_type rec) as ->.
  { change 0xff with (Z.ones 8). rewrite Z.land_ones by lia. apply Z.mod_small. exact Ht. }
  assert (∀ r, set_rec r (rec_type r) (rec_length r) (rec_data r) (rec_input r) = r) as -> by by intros [].
  cbv zeta. change (mac_header (h_seq h) (rec_type rec) (c_version s) (rec_length rec)) with (header_of s h (rec_type rec) (rec_length rec)).
  set (hd := header_of _ _ _ _). set (body := take _ _).
  assert (bytes hd) as Hhb by by apply bytes_header. assert (bytes body) as Hbb by by apply Forall_take.
  destruct (EVP_DigestSignUpdate_total d rep H K [] c (unaligned hd) hd Hc) as (c1 & Hc1 & E1).
  { unfold hd. rewrite length_header by done. lia. }
  destruct (EVP_DigestSignUpdate_total d rep H K ([] ++ hd) c1 (unaligned (rec_input rec)) body Hc1) as (c2 & Hc2 & E2).
  { unfold body. rewrite length_take. lia. }
  eapply (succeeds_bind (H := λ r, Some r) _ _ (eq (MAC K (hd ++ body), c2))).
  - unfold record_mac. cbn [andb]. intros mem. unfold mbind, comp_bind. cbn [mret comp_ret andb]. rewrite E1.
    change (Z.to_nat (rec_length rec)) with (Z.to_nat (rec_length rec)). fold body. rewrite E2.
    destruct (EVP_DigestSignFinal_spec junk stray d rep H K (([] ++ hd) ++ body) c2) with (mem := mem) as [F1 F2]; try done.
    { split; [by rewrite <- EK|lia]. } { by apply bytes_app. }
    destruct (EVP_DigestSignFinal stray c2 mem) as [[[mac|] mem']|]; (split; [intros r mem'' a E V|intros P0; destruct (F2 P0) as (r & mem'' & a & E & V & ?)]); try done.
    + injection E as <- <-. injection V as <-. by rewrite (F1 _ _ _ eq_refl eq_refl).
    + injection E as <- <-. injection V as <-. by eexists _, _, _.
    + by injection E as <- <-.
  - done.
  - intros [mac c'] a [= <-] [= <- <-]. eapply succeeds_ret; [unfold view, view_tls1_mac; by rewrite (proj2 (Z.ltb_ge _ _)) by lia|].
    unfold mac_done, next_half. by rewrite Hst.
Qed.
End mac.

(** ** Records that carry a message *)

Section sealed.
Context (mac : list Z → list Z) (header : Z → list Z) (ms : Z) (Hmac : ∀ x, Z.of_nat (length (mac x)) = ms).
Context (R : list Z) (HR : bytes R) (HRl : 1 + ms ≤ Z.of_nat (length R)).
Abbreviation len := (Z.of_nat (length R)).
Abbreviation pl := (getb R (len - 1)).
Abbreviation n := (len - (pl + 1) - ms).

Lemma sealed_parts m : sealed mac header R m →
  padding_ok R len ms pl ∧ m = take (Z.to_nat n) R ∧ mac (header n ++ m) = take (Z.to_nat ms) (drop (Z.to_nat n) R).
Proof using All.
  intros (pad & ER & Hg). set (t := mac _) in ER. assert (Z.of_nat (length t) = ms) as Ht by apply Hmac.
  assert (bytes pad) as Hp by (rewrite ER in HR; apply Forall_app in HR as [_ HR]; by apply Forall_app in HR as [_ ?]).
  assert (len = Z.of_nat (length m) + ms + Z.of_nat (length pad)) as Hlen by (rewrite ER, !length_app; lia).
  assert (pl = Z.of_nat (length pad) - 1) as Epl.
  { rewrite <- (good_pad_last (m ++ t) pad) by done. by rewrite <- app_assoc, <- ER. }
  assert (n = Z.of_nat (length m)) as En by lia. pose proof Hg as (q & Hq & Hlq & _).
  split_and!.
  - rewrite padding_ok_good_pad by (done || lia). split; [lia|]. rewrite Epl.
    replace (length R - Z.to_nat (Z.of_nat (length pad) - 1 + 1))%nat with (length (m ++ t)) by (rewrite length_app; lia).
    by rewrite ER, app_assoc, drop_app_length.
  - rewrite En, Nat2Z.id, ER. by rewrite take_app_length.
  - rewrite En, Nat2Z.id. rewrite ER, drop_app_length, take_app_length'; [done|lia].
Qed.

Lemma sealed_intro : padding_ok R len ms pl → mac (header n ++ take (Z.to_nat n) R) = take (Z.to_nat ms) (drop (Z.to_nat n) R) →
  sealed mac header R (take (Z.to_nat n) R).
Proof using All.
  assert (0 ≤ ms) as Hms by (rewrite <- (Hmac []); lia). pose proof (getb_byte R (len - 1) HR) as Hpl. unfold is_byte in Hpl.
  intros Hp E. rewrite padding_ok_good_pad in Hp by (done || lia). destruct Hp as [Hl Hg].
  exists (drop (length R - Z.to_nat (pl + 1)) R). split; [|done]. rewrite length_take.
  replace (Z.of_nat (Z.to_nat n `min` length R)) with n by lia. rewrite E.
  transitivity (take (Z.to_nat n) R ++ drop (Z.to_nat n) R); [by rewrite take_drop|]. f_equal.
  rewrite <- (take_drop (Z.to_nat ms) (drop (Z.to_nat n) R)) at 1. f_equal. rewrite drop_drop. f_equal. lia.
Qed.
End sealed.

(** ** Reading *)

Section reader.
Context {D : Type} (junk : EVP_MD → HASH_CTX) (stray : HMAC_CTX) (unaligned : list Z → bool) (small x86 : bool) (stack : HASH_CTX) (md0 : list Z).
Context (d : EVP_MD) (rep : HASH_CTX → list Z → Prop) (H : list Z → list Z) `{!Digest d rep H} (T : tls_digest small x86 d H).
Context (Hjunk : Z.of_nat (length (hdata (junk d))) = block_size d) (Hstray : length (key stray) = 128%nat).
Context (Hms : md_size d ∈ [16; 20; 32; 48]).
Implicit Types h : half D.
Abbreviation MAC K := (hmac_spec H (block_size d) K).
Abbreviation ms := (md_size d).

Lemma ms_range : 16 ≤ ms ≤ 48.
Proof using Hms. clear -Hms. apply list_elem_of_In in Hms. simpl in Hms. lia. Qed.

Lemma mac_length K x : Z.of_nat (length (MAC K x)) = ms.
Proof using Digest0. apply (d_size (H := H)). Qed.

(** The record after [p] bytes of padding have been taken away. *)
Definition stripped (type p : Z) (R : list Z) : SSL3_RECORD :=
  set_rec blank_record (Z.lor type (p ≪ 8)) (Z.of_nat (length R) - p) R R.

Lemma stripped_type type p : is_byte type → 0 ≤ p ≤ 256 → Z.lor type (p ≪ 8) ≫ 8 = p ∧ Z.land (Z.lor type (p ≪ 8)) 0xff = type.
Proof.
  intros Ht Hp. unfold is_byte in Ht. split.
  - rewrite Z.shiftr_lor, Z.shiftr_shiftl_l, Z.sub_diag, Z.shiftl_0_r by lia.
    rewrite Z.shiftr_div_pow2, Z.div_small by lia. done.
  - change 0xff with (Z.ones 8). rewrite Z.land_lor_distr_l, !Z.land_ones by lia.
    rewrite Z.shiftl_mul_pow2, Z.mod_mul, Z.lor_0_r by lia. by apply Z.mod_small.
Qed.

(** The outcome of the check of the MAC when there is memory for it. *)
Definition mac_checked (s : conn) K h (type p : Z) (R : list Z) (enc_err : Z) : Z * half D * SSL3_RECORD :=
  let n := Z.of_nat (length R) - p - ms in
  (if bool_decide (MAC K (header_of s h type n ++ take (Z.to_nat n) R) = take (Z.to_nat ms) (drop (Z.to_nat n) R))
      && negb (SSL3_RT_MAX_COMPRESSED_LENGTH + c_extra s + ms <? n) then enc_err else -1,
   next_half h, set_rec blank_record type n R R).

Definition after_mac (s : conn) (mac : list Z) (enc_err : Z) (r : Z * list Z * half D * SSL3_RECORD) : Z * half D * SSL3_RECORD :=
  let '(i, md, h, rec) := r in
  let enc_err := if (i <? 0) || negb (CRYPTO_memcmp md mac (Z.to_nat ms) =? 0) then -1 else enc_err in
  (if SSL3_RT_MAX_COMPRESSED_LENGTH + c_extra s + ms <? rec_length rec then -1 else enc_err, h, rec).

Lemma check_mac_eq s h type p R enc_err mem : ctx_mode (h_enc h) = Some EVP_CIPH_CBC_MODE → bytes R → is_byte type →
  0 ≤ p ≤ 256 → p + ms ≤ Z.of_nat (length R) → ms + 1 ≤ Z.of_nat (length R) < 2 ^ 20 →
  let n := Z.of_nat (length R) - p - ms in
  check_mac junk stray unaligned small x86 stack md0 s h (stripped type p R) d enc_err mem =
  match tls1_mac junk stray unaligned small x86 stack md0 s false h (set_rec blank_record (Z.lor type (p ≪ 8)) n R R) mem with
  | Some (r, mem') => Some (inr (after_mac s (take (Z.to_nat ms) (drop (Z.to_nat n) R)) enc_err r), mem')
  | None => None
  end.
Proof using All.
  intros Hcbc HR Ht Hp Hl Hl2 n. destruct (stripped_type type p Ht Hp) as [Ep Et]. pose proof ms_range as Hmr.
  unfold check_mac, stripped. cbn [rec_type rec_length rec_data rec_input set_rec]. rewrite Ep.
  rewrite (proj2 (Z.ltb_ge EVP_MAX_MD_SIZE ms)) by (unfold EVP_MAX_MD_SIZE; lia).
  rewrite (u32_id (_ + _)) by (unfold is_u32; lia). rewrite (proj2 (Z.ltb_ge _ ms)) by lia.
  set (rec := set_rec _ _ _ _ _). unfold mode_of. unfold mbind at 1, comp_bind at 1. rewrite Hcbc. cbn [mbind option_bind Z.eqb EVP_CIPH_CBC_MODE Pos.eqb].
  rewrite (proj2 (Z.ltb_ge _ (ms + 1))) by lia. cbn [andb].
  rewrite (copy_mac_spec rec) by (done || subst rec; cbn; lia). subst rec. cbn [rec_type rec_length rec_data rec_input set_rec].
  unfold cut_mac. cbn [rec_type rec_length rec_data rec_input set_rec]. rewrite (u32_id (_ - ms)) by (unfold is_u32; lia).
  fold n. change (set_rec (set_rec _ _ _ _ _) (Z.lor type (p ≪ 8)) n R R) with (set_rec blank_record (Z.lor type (p ≪ 8)) n R R).
  unfold mbind, comp_bind. by destruct (tls1_mac _ _ _ _ _ _ _ _ _ _ _ mem) as [[[[[i md] h1] rec1] mem1]|].
Qed.

Lemma after_mac_good s K h type p R enc_err : bytes R → 0 ≤ p → p + ms ≤ Z.of_nat (length R) →
  let n := Z.of_nat (length R) - p - ms in
  after_mac s (take (Z.to_nat ms) (drop (Z.to_nat n) R)) enc_err
    (ms, MAC K (header_of s h type n ++ take (Z.to_nat n) R), next_half h, set_rec blank_record type n R R) = mac_checked s K h type p R enc_err.
Proof using All.
  intros HR Hp Hl n. pose proof ms_range as Hmr. unfold after_mac, mac_checked. fold n. cbn [rec_length set_rec]. f_equal. f_equal.
  rewrite (proj2 (Z.ltb_ge ms 0)) by lia. cbn [orb].
  pose proof (mac_length K (header_of s h type n ++ take (Z.to_nat n) R)) as Hml. set (md := MAC K _) in *.
  set (t := take (Z.to_nat ms) (drop (Z.to_nat n) R)). assert (length t = Z.to_nat ms) as Hlt.
  { unfold t. rewrite length_take, length_drop. clear -Hl Hp Hmr n. lia. }
  assert (CRYPTO_memcmp md t (Z.to_nat ms) = 0 ↔ md = t) as Hc.
  { unfold CRYPTO_memcmp. clear -Hlt Hml. rewrite memcmp_loop_zero, !take_ge by lia. tauto. }
  destruct (_ <? n); [by rewrite andb_false_r|]. rewrite andb_true_r.
  case_bool_decide as Hd; destruct (Z.eqb_spec (CRYPTO_memcmp md t (Z.to_nat ms)) 0); cbn; tauto.
Qed.

Lemma check_mac_spec s h K type p R enc_err mem : mac_ready d rep H K h → ctx_mode (h_enc h) = Some EVP_CIPH_CBC_MODE → bytes R → is_byte type →
  0 ≤ p ≤ 256 → p + ms ≤ Z.of_nat (length R) → ms + 1 ≤ Z.of_nat (length R) < 2 ^ 20 →
  let good := mac_checked s K h type p R enc_err in
  let run := check_mac junk stray unaligned small x86 stack md0 s h (stripped type p R) d enc_err mem in
  (∀ o mem', run = Some (o, mem') → o = inr good ∨ ∃ h' rec', o = inr (-1, h', rec')) ∧ (plenty mem → ∃ mem', run = Some (inr good, mem') ∧ plenty mem').
Proof using All.
  intros Hr Hcbc HR Ht Hp Hl Hl2 good run. subst run good. rewrite check_mac_eq by done. pose proof ms_range as Hmr.
  destruct (stripped_type type p Ht Hp) as [Ep Et]. rewrite <- after_mac_good by (done || lia).
  set (n := Z.of_nat (length R) - p - ms). set (rec := set_rec blank_record (Z.lor type (p ≪ 8)) n R R).
  destruct (tls1_mac_read junk stray unaligned small x86 stack md0 d rep H Hjunk Hstray s h K rec T Hr Hcbc HR) with (mem := mem) as [F1 F2];
    try (subst rec n; cbn; rewrite ?Ep; lia).
  cbn [rec_type rec_length rec_data rec_input set_rec rec] in F1. rewrite Et in F1. split.
  - intros o mem' E. destruct (tls1_mac _ _ _ _ _ _ _ _ _ _ _ mem) as [[[[[i md] h'] rec'] mem1]|]; [|done]. injection E as <- <-.
    specialize (F1 _ _ (md, h', rec') eq_refl). unfold view, view_tls1_mac in F1. unfold after_mac at 1.
    destruct (Z.ltb_spec i 0) as [Hi|Hi].
    + right. exists h', rec'. cbn [orb]. by destruct (_ <? rec_length rec').
    + left. injection (F1 eq_refl) as <- <- <-. unfold after_mac. by rewrite (proj2 (Z.ltb_ge ms 0)) by lia.
  - intros P0. destruct (F2 P0) as (r & mem' & a & E & V & P1). specialize (F1 _ _ _ E V). subst a. destruct r as [[[i md] h'] rec'].
    unfold view, view_tls1_mac in V. destruct (Z.ltb_spec i 0) as [Hi|Hi]; [done|]. injection V as -> -> ->.
    exists mem'. split; [|done]. rewrite E. do 3 f_equal. unfold after_mac. by rewrite (proj2 (Z.ltb_ge i 0)), (proj2 (Z.ltb_ge ms 0)) by lia.
Qed.

(** The last steps of [open_record]. *)
Definition final_verdict (s : conn) (r : Z * half D * SSL3_RECORD) : verdict * half D * SSL3_RECORD :=
  let '(enc_err, h, rec) := r in
  (if enc_err <? 0 then Alert SSL_AD_BAD_RECORD_MAC
   else if SSL3_RT_MAX_PLAIN_LENGTH + c_extra s <? rec_length rec then Alert SSL_AD_RECORD_OVERFLOW else Accept, h, rec).

Lemma judge_padded s K h type R : bytes R → 1 + ms ≤ Z.of_nat (length R) → 0 ≤ c_extra s →
  let pl := getb R (Z.of_nat (length R) - 1) in
  padding_ok R (Z.of_nat (length R)) ms pl →
  let '(v, h', rec) := final_verdict s (mac_checked s K h type (pl + 1) R 1) in
  judged (sealed (MAC K) (header_of s h type) R) ms (c_extra s) type v rec ∧ h' = next_half h.
Proof using All.
  intros HR Hl Hx pl Hp. unfold mac_checked, final_verdict. set (n := Z.of_nat (length R) - (pl + 1) - ms).
  pose proof ms_range as Hmr. pose proof (getb_byte R (Z.of_nat (length R) - 1) HR) as Hpl. fold pl in Hpl. unfold is_byte in Hpl.
  assert (0 ≤ n ≤ Z.of_nat (length R)) as Hn by (destruct Hp; lia).
  assert (Z.of_nat (length (take (Z.to_nat n) R)) = n) as Hln by (rewrite length_take; lia).
  split; [|done]. case_bool_decide as Hm; cbn [andb].
  - pose proof (sealed_intro (MAC K) (header_of s h type) ms (mac_length K) R HR Hl Hp Hm) as Hs. fold pl n in Hs.
    cbn [rec_length set_rec]. destruct (Z.ltb_spec (SSL3_RT_MAX_COMPRESSED_LENGTH + c_extra s + ms) n) as [Hc|Hc]; cbn [negb Z.ltb Z.compare].
    + pose proof (judged_long (sealed (MAC K) (header_of s h type) R) ms (c_extra s) type _ (set_rec blank_record type n R R) Hs) as J.
      rewrite Hln, (proj2 (Z.ltb_lt _ n)) in J by lia. apply J. unfold SSL3_RT_MAX_COMPRESSED_LENGTH in Hc. lia.
    + destruct (Z.ltb_spec (SSL3_RT_MAX_PLAIN_LENGTH + c_extra s) n) as [Hc2|Hc2].
      * pose proof (judged_long (sealed (MAC K) (header_of s h type) R) ms (c_extra s) type _ (set_rec blank_record type n R R) Hs) as J.
        rewrite Hln, (proj2 (Z.ltb_ge _ n)) in J by lia. apply J. lia.
      * apply (judged_accept _ _ _ _ _ _ Hs); [lia|done|cbn; lia|]. cbn. by rewrite length_take, Nat.min_l by lia.
  - apply judged_bad. intros m Hs. apply (sealed_parts _ _ _ (mac_length K) R HR Hl) in Hs as (_ & -> & E). done.
Qed.

(** ** With a block cipher in CBC mode *)

Context (c : EVP_CIPHER D) (ok : work D → Prop) (f : work D → list Z → list Z) (adv : work D → list Z → work D) `{HC : !BlockCipher c ok f adv}.
Context (Hmode : Z.land (c_flags c) EVP_CIPH_MODE = EVP_CIPH_CBC_MODE) (Haead : Z.land (c_flags c) EVP_CIPH_FLAG_AEAD_CIPHER = 0).
Context (Hbs1 : Evp.block_size c ≠ 1).
Abbreviation bs := (Evp.block_size c).

(** The half decrypts with the context [ds] and authenticates with [K]. *)
Definition reads (K : list Z) (ds : EVP_CIPHER_CTX D) h : Prop :=
  h_enc h = Some ds ∧ cipher ds = Some c ∧ ok (wk ds) ∧ mac_ready d rep H K h.

Definition iv_size (s : conn) : Z := if c_explicit_iv s then bs else 0.
Definition after_record h (ds : EVP_CIPHER_CTX D) (body : list Z) : half D := next_half (set_enc h (Some (set_wk ds (adv (wk ds) body)))).

Lemma reads_after K ds h l : reads K ds h → bytes l → whole c l → reads K (set_wk ds (adv (wk ds) l)) (after_record h ds l).
Proof using HC.
  intros (Henc & Hc & Hok & Hr) Hl Hw. split; [done|]. split; [done|]. split; [by apply (bc_ok (BlockCipher := HC))|].
  by apply (mac_ready_next d rep H K (set_enc h _)).
Qed.

Abbreviation opened := (open_record junk stray unaligned small x86 stack md0).

Lemma enc_read_eq s h K ds type body : reads K ds h → c_session s = true → bytes body → is_byte type → Z.of_nat (length body) < 2 ^ 20 →
  let len := Z.of_nat (length body) in
  let R := drop (Z.to_nat (iv_size s)) (f (wk ds) body) in
  let pl := getb R (Z.of_nat (length R) - 1) in
  let h' := set_enc h (Some (set_wk ds (adv (wk ds) body))) in
  let run := tls1_enc_read s h (set_rec blank_record type len body body) in
  ((len = 0 ∨ len `mod` bs ≠ 0 ∨ len < iv_size s + 1 + ms) → ∃ h' rec, run = Some (0, h', rec)) ∧
  (len ≠ 0 → len `mod` bs = 0 → iv_size s + 1 + ms ≤ len → bytes R ∧ Z.of_nat (length R) = len - iv_size s ∧
    (padding_ok R (Z.of_nat (length R)) ms pl ∧ run = Some (1, h', stripped type (pl + 1) R) ∨
     ¬ padding_ok R (Z.of_nat (length R)) ms pl ∧ run = Some (-1, h', stripped type 0 R))).
Proof using All.
  intros (Henc & Hc & Hok & Hr) Hse Hb Ht Hl len R pl h' run. pose proof ms_range as Hmr. pose proof (block_range c ok f adv) as Hbr.
  assert (run = if (len =? 0) || negb (len `mod` bs =? 0) then Some (0, h, set_rec blank_record type len body body) else
    let '(ret, rec) := tls1_cbc_remove_padding {| SSL_USE_EXPLICIT_IV := c_explicit_iv s; flag_aead_cipher := false |}
      (set_rec blank_record type len (f (wk ds) body) (f (wk ds) body)) bs ms in Some (ret, h', rec)) as Erun.
  { unfold run, tls1_enc_read. rewrite Henc, Hse, Hc, Haead. cbn [Z.eqb negb rec_length rec_input rec_type set_rec].
    destruct ((len =? 0) || negb (len `mod` bs =? 0)) eqn:Ez; [done|]. apply orb_false_iff in Ez as [Ez1 Ez2].
    apply Z.eqb_neq in Ez1. apply negb_false_iff, Z.eqb_eq in Ez2.
    unfold len at 1. rewrite Nat2Z.id, firstn_all.
    rewrite (bc_do (BlockCipher := HC)) by (done || by apply (whole_mod c ok f adv) || (intros ->; done)).
    rewrite (bc_custom (BlockCipher := HC)), Hmode. cbn [Z.eqb EVP_CIPH_CBC_MODE EVP_CIPH_GCM_MODE Pos.eqb].
    rewrite (proj2 (Z.eqb_neq bs 1)) by done. cbn [negb]. fold h'. rewrite (hash_md_ready d rep H K h') by done. done. }
  destruct ((len =? 0) || negb (len `mod` bs =? 0)) eqn:Ez.
  { split; [intros _; by eexists _, _|]. intros Hn Hm. rewrite (proj2 (Z.eqb_neq len 0)), Hm in Ez by done. done. }
  apply orb_false_iff in Ez as [Ez1 Ez2]. apply Z.eqb_neq in Ez1. apply negb_false_iff, Z.eqb_eq in Ez2.
  assert (whole c body) as Hw by by apply (whole_mod c ok f adv).
  assert (bytes (f (wk ds) body)) as HP by by apply bc_bytes. assert (length (f (wk ds) body) = length body) as HPl by by apply bc_length.
  set (st := {| SSL_USE_EXPLICIT_IV := c_explicit_iv s; flag_aead_cipher := false |}) in *.
  clearbody run. set (rec := set_rec blank_record type len _ _) in *.
  pose proof (remove_padding_spec st rec bs ms eq_refl HP ltac:(lia) ltac:(lia) ltac:(unfold rec; cbn; unfold len; lia)) as Hrp. cbv zeta in Hrp.
  assert (0 ≤ iv_size s ≤ 16) as Hiv by (unfold iv_size; destruct (c_explicit_iv s); lia).
  assert (Z.of_nat (length R) = len - iv_size s ∨ len < iv_size s + 1 + ms) as HRl by (unfold R; rewrite length_drop, HPl; lia).
  assert (rec_data (skip_iv st rec bs) = R ∧ rec_input (skip_iv st rec bs) = R ∧ rec_length (skip_iv st rec bs) = len - iv_size s ∧
    skip_iv st rec bs = set_rec blank_record type (len - iv_size s) R R) as (ED & EI & EL & ER).
  { unfold skip_iv, iv_size, R, iv_size. cbn [SSL_USE_EXPLICIT_IV st]. destruct (c_explicit_iv s); [done|].
    cbn. by rewrite Z.sub_0_r. }
  rewrite ED, EI, EL, ER in Hrp. split.
  - intros [?|[?|Hlt]]; [done|done|]. destruct Hrp as [[_ E]|[[? _]|[? _]]]; [|lia..]. rewrite E in Erun. by eexists _, _.
  - intros _ _ Hge. destruct HRl as [HRl|?]; [|lia]. split; [by apply Forall_drop|]. split; [done|].
    unfold pl. rewrite HRl. destruct Hrp as [[? _]|[(_ & Hok' & E)|(_ & Hok' & E)]]; [lia|left|right]; (split; [done|]); rewrite Erun, E.
    + unfold stripped. by rewrite HRl.
    + unfold stripped. rewrite HRl, Z.sub_0_r, Z.shiftl_0_l, Z.lor_0_r. done.
Qed.

Lemma open_record_cases s h K ds type body mem : reads K ds h → c_session s = true → 0 ≤ c_extra s → bytes body → is_byte type →
  Z.of_nat (length body) < 2 ^ 20 →
  let len := Z.of_nat (length body) in
  let R := drop (Z.to_nat (iv_size s)) (f (wk ds) body) in
  let run := opened s h type len body mem in
  let good v rec := judged (sealed (MAC K) (header_of s h type) R) ms (c_extra s) type v rec in
  ((len = 0 ∨ len `mod` bs ≠ 0 ∨ len < iv_size s + 1 + ms) → ∃ h' rec, run = Some (Alert SSL_AD_DECRYPTION_FAILED, h', rec, mem)) ∧
  (len ≠ 0 → len `mod` bs = 0 → iv_size s + 1 + ms ≤ len →
   (∀ v h' rec mem', run = Some (v, h', rec, mem') → good v rec ∧ h' = after_record h ds body ∨ v = Alert SSL_AD_BAD_RECORD_MAC) ∧
   (plenty mem → ∃ v rec mem', run = Some (v, after_record h ds body, rec, mem') ∧ good v rec ∧ plenty mem')).
Proof using All.
  intros Hrd Hse Hx Hb Ht Hl len R run good. pose proof Hrd as (Henc & Hc & Hok & Hr).
  destruct (enc_read_eq s h K ds type body Hrd Hse Hb Ht Hl) as [E0 E1]. fold len R in E0, E1. split.
  { intros Hbad. destruct (E0 Hbad) as (h' & rec & E). unfold run, open_record. fold len. rewrite E. by eexists _, _. }
  intros Hn0 Hmod Hge. destruct (E1 Hn0 Hmod Hge) as (HR & HRl & Hcase). clear E0 E1. pose proof ms_range as Hmr.
  assert (0 ≤ iv_size s) as Hiv by (pose proof (block_range c ok f adv); unfold iv_size; destruct (c_explicit_iv s); lia).
  set (h1 := set_enc h (Some (set_wk ds (adv (wk ds) body)))) in *.
  assert (mac_ready d rep H K h1) as Hr1 by exact Hr.
  assert (ctx_mode (h_enc h1) = Some EVP_CIPH_CBC_MODE) as Hm1 by (unfold ctx_mode; cbn; rewrite Hc; cbn; by rewrite Hmode).
  assert (∀ e p, e ≠ 0 → 0 ≤ p ≤ 256 → p + ms ≤ Z.of_nat (length R) → tls1_enc_read s h (set_rec blank_record type len body body) = Some (e, h1, stripped type p R) →
    let r := final_verdict s (mac_checked s K h1 type p R e) in
    (∀ x mem', run = Some (x, mem') → x = r ∨ x.1.1 = Alert SSL_AD_BAD_RECORD_MAC) ∧ (plenty mem → ∃ mem', run = Some (r, mem') ∧ plenty mem')) as Hgen.
  { intros e p He Hp Hpl E r. unfold run, open_record. rewrite E, (proj2 (Z.eqb_neq e 0)) by done.
    rewrite (hash_md_ready d rep H K h1 Hr1), Hse. cbn [h_enc h1 set_enc]. fold h1.
    destruct (check_mac_spec s h1 K type p R e mem Hr1 Hm1 HR Ht Hp Hpl ltac:(lia)) as [F1 F2].
    unfold mbind, comp_bind. split.
    - intros x mem' Ex. destruct (check_mac _ _ _ _ _ _ _ _ _ _ _ _ mem) as [[o mem1]|]; [|done].
      destruct (F1 _ _ eq_refl) as [->|(h' & rec' & ->)].
      + left. unfold r, final_verdict. destruct (mac_checked s K h1 type p R e) as [[e' h'] rec'].
        destruct (e' <? 0); [by injection Ex as <-|]. by destruct (_ <? rec_length rec'); injection Ex as <-.
      + right. by injection Ex as <-.
    - intros P0. destruct (F2 P0) as (mem1 & -> & P1). exists mem1. split; [|done]. unfold r, final_verdict.
      destruct (mac_checked s K h1 type p R e) as [[e' h'] rec']. destruct (e' <? 0); [done|]. by destruct (_ <? rec_length rec'). }
  assert (∃ r, good r.1.1 r.2 ∧ r.1.2 = after_record h ds body ∧
    (∀ x mem', run = Some (x, mem') → x = r ∨ x.1.1 = Alert SSL_AD_BAD_RECORD_MAC) ∧ (plenty mem → ∃ mem', run = Some (r, mem') ∧ plenty mem')) as (r & G1 & G2 & G3 & G4).
  { destruct Hcase as [[Hp E]|[Hp E]].
    - pose proof (judge_padded s K h1 type R HR ltac:(lia) Hx Hp) as J. pose proof (getb_byte R (Z.of_nat (length R) - 1) HR) as Hpl. unfold is_byte in Hpl.
      pose proof (proj1 Hp) as Hlp. eexists. split; [|split; [|apply (Hgen 1 (getb R (Z.of_nat (length R) - 1) + 1)); [lia| | |exact E]; lia]];
      destruct (final_verdict _ _) as [[v h'] rec]; by destruct J.
    - eexists. split; [|split; [|apply (Hgen (-1) 0); [lia| | |exact E]; lia]].
      + unfold mac_checked, final_verdict. destruct (_ && _); apply judged_bad; intros m Hs; apply Hp;
          by apply (sealed_parts _ _ _ (mac_length K) R HR ltac:(lia)) in Hs as (? & _).
      + done. }
  destruct r as [[v h'] rec]. cbn [fst snd] in *. subst h'. split.
  - intros v' h' rec' mem' Er. destruct (G3 _ _ Er) as [[= -> -> ->]|Hv]; [by left|by right].
  - intros P0. destruct (G4 P0) as (mem' & ? & ?). by exists v, rec, mem'.
Qed.
End reader.

(** ** Writing *)

(** A record or a message with the state afterwards. *)
#[global] Instance view_written A B : View (option A * B) (A * B) := λ '(a, b), a ← a; Some (a, b).

Section writer.
Context {D : Type} (junk : EVP_MD → HASH_CTX) (stray : HMAC_CTX) (unaligned : list Z → bool) (small x86 : bool) (stack : HASH_CTX) (md0 : list Z).
Context (d : EVP_MD) (rep : HASH_CTX → list Z → Prop) (H : list Z → list Z) `{!Digest d rep H}.
Context (Hjunk : Z.of_nat (length (hdata (junk d))) = block_size d) (Hstray : length (key stray) = 128%nat).
Context (Hms : md_size d ∈ [16; 20; 32; 48]).
Context (c : EVP_CIPHER D) (ok : work D → Prop) (f : work D → list Z → list Z) (adv : work D → list Z → work D) `{HC : !BlockCipher c ok f adv}.
Context (Hmode : Z.land (c_flags c) EVP_CIPH_MODE = EVP_CIPH_CBC_MODE) (Haead : Z.land (c_flags c) EVP_CIPH_FLAG_AEAD_CIPHER = 0).
Context (Hbs1 : Evp.block_size c ≠ 1) (Hiv : iv_len c = Evp.block_size c).
Implicit Types h : half D.
Abbreviation MAC K := (hmac_spec H (block_size d) K).
Abbreviation ms := (md_size d).
Abbreviation bs := (Evp.block_size c).

(** What is encrypted for [data], with the bytes [r] for the vector. *)
Definition tls_padding (n : nat) : list Z := let k := bs - Z.of_nat n `mod` bs in replicate (Z.to_nat k) (k - 1).
Definition plaintext (s : conn) K h (type : Z) (data r : list Z) : list Z :=
  let m := take (Z.to_nat (iv_size c s)) r ++ data ++ MAC K (header_of s h type (Z.of_nat (length data)) ++ data) in
  m ++ tls_padding (length m).
Definition record_header (s : conn) (type len : Z) : list Z :=
  [Z.land type 0xff; u8 (c_version s ≫ 8); Z.land (c_version s) 0xff; Z.land (len ≫ 8) 0xff; Z.land len 0xff].

Lemma bs_range : 8 ≤ bs ≤ 16.
Proof using HC Hbs1. clear -HC Hbs1. destruct (bc_size (BlockCipher := HC)) as [|[|]]; lia. Qed.

Lemma tls_padding_good n : good_pad (tls_padding n) ∧ bytes (tls_padding n) ∧ Z.of_nat (length (tls_padding n)) = bs - Z.of_nat n `mod` bs.
Proof using HC Hbs1.
  pose proof bs_range as Hb. pose proof (Z.mod_pos_bound (Z.of_nat n) bs ltac:(clear -Hb; lia)) as Hm. unfold tls_padding.
  set (k := bs - Z.of_nat n `mod` bs) in *. assert (1 ≤ k ≤ 16) as Hk by (clear -Hb Hm k; lia). clearbody k. clear -Hk. rewrite length_replicate. split_and!.
  - exists (k - 1). rewrite length_replicate. split; [lia|]. split; [lia|].
    replace (Z.to_nat k - 255)%nat with 0%nat by lia. rewrite drop_0. f_equal. lia.
  - apply Forall_replicate. unfold is_byte. lia.
  - lia.
Qed.

Section plaintext.
Context (s : conn) (K : list Z) (h : half D) (type : Z) (data r : list Z).
Context (HK : mac_ready d rep H K h) (Hdata : bytes data) (Hr : bytes r) (Hrl : iv_size c s ≤ Z.of_nat (length r)).
Abbreviation P := (plaintext s K h type data r).
Abbreviation macs := (MAC K (header_of s h type (Z.of_nat (length data)) ++ data)).

Lemma iv_range : 0 ≤ iv_size c s ≤ 16.
Proof using HC Hbs1. pose proof bs_range as Hb. clear -Hb. unfold iv_size. destruct (c_explicit_iv s); lia. Qed.

Lemma plaintext_bytes : bytes P.
Proof using Digest0 HC Hbs1 Hdata Hr.
  apply bytes_app; [|apply tls_padding_good]. apply bytes_app; [by apply Forall_take|]. apply bytes_app; [done|]. apply (d_bytes (H := H)).
Qed.

Lemma plaintext_length : Z.of_nat (length P) `mod` bs = 0 ∧
  iv_size c s + Z.of_nat (length data) + ms < Z.of_nat (length P) ≤ iv_size c s + Z.of_nat (length data) + ms + bs.
Proof using Digest0 HC Hbs1 Hrl.
  unfold plaintext. set (m := take _ r ++ _). destruct (tls_padding_good (length m)) as (_ & _ & E). pose proof bs_range as Hb. pose proof iv_range as Hi.
  assert (Z.of_nat (length m) = iv_size c s + Z.of_nat (length data) + ms) as Hm.
  { unfold m. rewrite !length_app, length_take.
    pose proof (mac_length d rep H K (header_of s h type (Z.of_nat (length data)) ++ data)) as Hml. clear -Hml Hrl Hi. lia. }
  rewrite length_app, Nat2Z.inj_add, E. pose proof (Z.mod_pos_bound (Z.of_nat (length m)) bs ltac:(clear -Hb; lia)) as Hmb. split.
  - replace (_ + _) with (bs + (Z.of_nat (length m) - Z.of_nat (length m) `mod` bs)) by (clear; lia).
    rewrite (Z.mod_eq (Z.of_nat (length m)) bs) by (clear -Hb; lia).
    replace (_ + _) with ((1 + Z.of_nat (length m) / bs) * bs) by (clear; lia). apply Z.mod_mul. clear -Hb. lia.
  - clear -Hm Hmb Hb. lia.
Qed.

Lemma plaintext_sealed : sealed (MAC K) (header_of s h type) (drop (Z.to_nat (iv_size c s)) P) data.
Proof using HC Hbs1 Hrl.
  pose proof iv_range as Hi. unfold plaintext. set (m := take _ r ++ _). exists (tls_padding (length m)). split; [|apply tls_padding_good].
  unfold m at 1. rewrite <- app_assoc, drop_app_length' by (rewrite length_take; clear -Hi Hrl; lia). by rewrite <- app_assoc.
Qed.
End plaintext.

Lemma enc_write_eq s h K ds data r type gap : h_enc h = Some ds → cipher ds = Some c → ok (wk ds) → c_session s = true →
  mac_ready d rep H K h → bytes data → bytes r → iv_size c s ≤ Z.of_nat (length r) → length gap = Z.to_nat (iv_size c s) → ∀ h1, h_enc h1 = Some ds →
  tls1_enc_write s h1 (gap ++ data ++ MAC K (header_of s h type (Z.of_nat (length data)) ++ data)) (Some r) =
  Some (1, set_enc h1 (Some (set_wk ds (adv (wk ds) (plaintext s K h type data r)))), f (wk ds) (plaintext s K h type data r)).
Proof using All.
  intros _ Hc Hok Hse Hr Hb Hrb Hrl Hg h1 Henc. pose proof bs_range as Hbr. unfold tls1_enc_write. rewrite Henc, Hc, Hmode. cbn [Z.eqb EVP_CIPH_CBC_MODE Pos.eqb].
  rewrite andb_true_r, Hiv. set (body := data ++ _). set (n := if c_explicit_iv s then bs else 0). change (iv_size c s) with n in *.
  assert ((if 1 <? n then r ← Some r; Some (splice (gap ++ body) 0 (take (Z.to_nat n) r)) else Some (gap ++ body)) =
    Some (take (Z.to_nat n) r ++ body)) as ->.
  { destruct (Z.ltb_spec 1 n) as [Hn|Hn].
    - cbn [mbind option_bind]. f_equal. unfold splice. rewrite take_0, app_nil_l. f_equal.
      rewrite length_take, Nat.min_l, Nat.add_0_l by lia. by rewrite drop_app_length'.
    - assert (n = 0) as -> by (subst n; destruct (c_explicit_iv s); lia). destruct gap; [done|cbn in Hg; lia]. }
  rewrite Hse, Haead. cbn [negb Z.eqb]. rewrite (proj2 (Z.eqb_neq bs 1)) by done. cbn [negb].
  pose proof (plaintext_bytes s K h type data r Hb Hrb) as HPb.
  destruct (plaintext_length s K h type data r Hrl) as [HPm HPl]. destruct (d_block (md := d) (H := H)) as [Hd1 _].
  change ((take (Z.to_nat n) r ++ body) ++ _) with (plaintext s K h type data r).
  rewrite (bc_do (BlockCipher := HC)).
  - by rewrite (bc_custom (BlockCipher := HC)).
  - done.
  - done.
  - by apply (whole_mod c ok f adv).
  - intros E. rewrite E in HPl. pose proof (iv_range s). cbn [length] in HPl. lia.
Qed.

(** What [do_ssl3_write] puts on the wire. *)
Lemma seal_record_spec s h K ds type data r gap : reads d rep H c ok K ds h → c_session s = true → bytes data → bytes r → is_byte type →
  Z.of_nat (length data) < 2 ^ 31 → iv_size c s ≤ Z.of_nat (length r) → iv_size c s ≤ Z.of_nat (length gap) →
  let ct := f (wk ds) (plaintext s K h type data r) in
  succeeds (seal_record junk stray unaligned small x86 stack md0 s h type false data (Some r) gap)
    (eq (record_header s type (Z.of_nat (length ct)) ++ ct, after_record adv h ds (plaintext s K h type data r))).
Proof using All.
  intros (Henc & Hc & Hok & Hr) Hse Hb Hrb Ht Hl Hrl Hgl ct. pose proof bs_range as Hbr. pose proof (iv_range s) as Hir.
  assert (16 ≤ ms) as Hmr by (apply list_elem_of_In in Hms; simpl in Hms; lia).
  unfold seal_record. eapply (succeeds_bind (H := λ n, Some n) _ _ (eq (iv_size c s))); [|done|].
  { unfold eivlen, mode_of, ctx_mode. rewrite Henc. destruct (c_explicit_iv s) eqn:Eex; [|eapply succeeds_ret; [done|unfold iv_size; by rewrite Eex]].
    cbn [mbind option_bind]. rewrite Hc. intros mem. unfold mbind, comp_bind, mret, comp_ret. cbn [option_bind]. rewrite Hmode, Hiv.
    cbn [Z.eqb EVP_CIPH_CBC_MODE Pos.eqb]. rewrite (proj2 (Z.leb_gt bs 1)) by lia.
    unfold iv_size. rewrite Eex. split; [by intros ? ? ? [= <- <-] [= <-]|]. intros P0. by eexists _, _, _. }
  intros n a [= <-] <-. rewrite (hash_md_ready d rep H K h Hr), Henc, Hse, (proj2 (Z.eqb_neq ms 0)) by lia.
  set (hd := header_of s h type (Z.of_nat (length data))).
  eapply (succeeds_bind _ _ (eq (MAC K (hd ++ data), next_half h))).
  - eapply succeeds_bind; [apply (tls1_mac_write junk stray unaligned small x86 stack md0 d rep H Hstray s h K); try done; cbn; lia| |].
    + intros [[[i md] h'] rec'] V. unfold view, view_tls1_mac in V. destruct (i <? 0) eqn:E; [|done]. by apply fails_ret.
    + intros [[[i md] h'] rec'] a V <-. unfold view, view_tls1_mac in V. destruct (i <? 0) eqn:E; [done|]. injection V as -> -> ->.
      eapply succeeds_ret; [done|]. cbn [rec_type rec_length rec_input set_rec]. by rewrite Nat2Z.id, firstn_all.
  - intros [[md h']|] V; [done|]. by apply fails_ret.
  - intros [[md h']|] a V <-; [|done]. injection V as -> ->.
    assert (length (take (Z.to_nat (iv_size c s)) gap) = Z.to_nat (iv_size c s)) as Hg by (rewrite length_take; lia).
    unfold hd. rewrite (enc_write_eq s h K ds data r type _ Henc Hc Hok Hse Hr Hb Hrb Hrl Hg (next_half h) Henc).
    eapply succeeds_ret; [reflexivity|]. done.
Qed.
End writer.

(** ** From one end to the other *)

#[global] Instance view_opened A B : View (verdict * A * B) (A * B) := λ '(v, a, b), match v with Accept => Some (a, b) | _ => None end.
#[global] Instance view_got S A B C : View (verdict * S * A * B * C) (S * A * B * C) := λ '(v, s, a, b, c), match v with Accept => Some (s, a, b, c) | _ => None end.

Lemma join_bytes z : 0 ≤ z < 2 ^ 16 → Z.lor (Z.land (z ≫ 8) 0xff ≪ 8) (Z.land z 0xff) = z.
Proof.
  intros Hz. change 0xff with (Z.ones 8). rewrite !Z.land_ones, Z.shiftr_div_pow2 by lia. change (2 ^ 8) with 256. change (2 ^ 16) with 65536 in Hz.
  rewrite (Z.mod_small (z / 256)) by (split; [apply Z.div_pos|apply Z.div_lt_upper_bound]; lia).
  rewrite lor_shiftl_add by (lia || (change (2 ^ 8) with 256; apply Z.mod_pos_bound; lia)).
  change (2 ^ 8) with 256. pose proof (Z.div_mod z 256). lia.
Qed.

(** A record of a message is accepted with this message. *)
Lemma judged_sealed mac header ms extra type R v rec m : (∀ x, Z.of_nat (length (mac x)) = ms) → bytes R → 1 + ms ≤ Z.of_nat (length R) →
  judged (sealed mac header R) ms extra type v rec → sealed mac header R m → Z.of_nat (length m) ≤ SSL3_RT_MAX_PLAIN_LENGTH + extra →
  v = Accept ∧ rec_type rec = type ∧ rec_length rec = Z.of_nat (length m) ∧ take (length m) (rec_data rec) = m.
Proof.
  intros Hm HR Hl J Hs Hml. assert (∀ m', sealed mac header R m' → m' = m) as Hu.
  { intros m' Hs'. apply (sealed_parts mac header ms Hm R HR Hl) in Hs as (_ & -> & _), Hs' as (_ & -> & _). done. }
  destruct J as [m' rec Hs' H1 H2 H3 H4|m' rec Hs' H1|rec Hn].
  - apply Hu in Hs'. by subst m'.
  - apply Hu in Hs'. subst m'. lia.
  - by destruct (Hn m).
Qed.

(** Two contexts of which one decrypts what the other encrypts. *)
Class Paired {D} (c : EVP_CIPHER D) (fE : work D → list Z → list Z) (advE : work D → list Z → work D)
    (fD : work D → list Z → list Z) (advD : work D → list Z → work D) (rel : work D → work D → Prop) : Prop := {
  pair_open w w' l : rel w w' → bytes l → whole c l → fD w' (fE w l) = l;
  pair_adv w w' l : rel w w' → bytes l → whole c l → rel (advE w l) (advD w' (fE w l))
}.

(** Bytes for the vector of a record. *)
Definition vector {D} (c : EVP_CIPHER D) (s : conn) (l : list Z) : Prop := bytes l ∧ iv_size c s ≤ Z.of_nat (length l).

Section ends.
Context {D : Type} (junk : EVP_MD → HASH_CTX) (stray : HMAC_CTX) (unaligned : list Z → bool) (small x86 : bool) (stack : HASH_CTX) (md0 : list Z).
Context (d : EVP_MD) (rep : HASH_CTX → list Z → Prop) (H : list Z → list Z) `{!Digest d rep H} (T : tls_digest small x86 d H).
Context (Hjunk : Z.of_nat (length (hdata (junk d))) = block_size d) (Hstray : length (key stray) = 128%nat).
Context (Hms : md_size d ∈ [16; 20; 32; 48]).
Context (c : EVP_CIPHER D) (Hmode : Z.land (c_flags c) EVP_CIPH_MODE = EVP_CIPH_CBC_MODE) (Haead : Z.land (c_flags c) EVP_CIPH_FLAG_AEAD_CIPHER = 0).
Context (Hbs1 : Evp.block_size c ≠ 1) (Hiv : iv_len c = Evp.block_size c).
Context (okE : work D → Prop) (fE : work D → list Z → list Z) (advE : work D → list Z → work D) `{HE : !BlockCipher c okE fE advE}.
Context (okD : work D → Prop) (fD : work D → list Z → list Z) (advD : work D → list Z → work D) `{HD : !BlockCipher c okD fD advD}.
Context (rel : work D → work D → Prop) `{HP : !Paired c fE advE fD advD rel}.
Implicit Types h : half D.
Abbreviation MAC K := (hmac_spec H (block_size d) K).
Abbreviation ms := (md_size d).
Abbreviation bs := (Evp.block_size c).

(** The writer [h] and the reader [h'] are at the same record. *)
Definition in_step (K : list Z) h h' : Prop := ∃ ds ds',
  reads d rep H c okE K ds h ∧ reads d rep H c okD K ds' h' ∧ rel (wk ds) (wk ds') ∧ h_seq h = h_seq h'.

(** The two ends speak the same version. *)
Definition agree (s s' : conn) : Prop := c_version s = c_version s' ∧ c_explicit_iv s = c_explicit_iv s' ∧
  c_session s = true ∧ c_session s' = true ∧ c_version s ≫ 8 = 3 ∧ 0 ≤ c_extra s' ≤ 16384.

(** What the reader has when [data] has arrived. *)
Definition arrived (K : list Z) h1 (type : Z) (data : list Z) h' (rec : SSL3_RECORD) : Prop :=
  in_step K h1 h' ∧ rec_type rec = type ∧ rec_length rec = Z.of_nat (length data) ∧ take (length data) (rec_data rec) = data.

Lemma header_accepted s s' type len : agree s s' → 0 ≤ len ≤ SSL3_RT_MAX_ENCRYPTED_LENGTH →
  check_header s' type (s16 (Z.lor (u8 (c_version s ≫ 8) ≪ 8) (Z.land (c_version s) 0xff))) len = None.
Proof.
  clear. intros (Ev & _ & _ & _ & Hv & Hx) Hl. rewrite Z.shiftr_div_pow2 in Hv by lia.
  assert (768 ≤ c_version s < 1024) as Hr by (pose proof (Z.div_mod (c_version s) (2 ^ 8)); pose proof (Z.mod_pos_bound (c_version s) (2 ^ 8)); lia).
  assert (u8 (c_version s ≫ 8) = Z.land (c_version s ≫ 8) 0xff) as -> by (symmetry; apply (Z.land_ones _ 8); lia).
  rewrite join_bytes by lia. unfold s16. rewrite Z.mod_small by lia. rewrite Z.add_simpl_r. unfold check_header.
  rewrite Ev, Z.eqb_refl, andb_false_r, <- Ev, Z.shiftr_div_pow2, Hv by lia. cbn [negb Z.eqb SSL3_VERSION_MAJOR Pos.eqb].
  by rewrite (proj2 (Z.ltb_ge _ len)) by lia.
Qed.

(** [ssl3_get_record] at the start of a record that has arrived. *)
Lemma get_record_step fuel s s' h' type ct rest count mem : agree s s' → is_byte type → Z.of_nat (length ct) ≤ SSL3_RT_MAX_ENCRYPTED_LENGTH →
  get_record_loop junk stray unaligned small x86 stack md0 (S fuel) s' h' ((record_header s type (Z.of_nat (length ct)) ++ ct) ++ rest) count mem =
  match open_record junk stray unaligned small x86 stack md0 s' h' type (Z.of_nat (length ct)) ct mem with
  | Some (Accept, h1, rec, mem') =>
    if rec_length rec =? 0 then
      if MAX_EMPTY_RECORDS <? count + 1 then Some (Alert SSL_AD_UNEXPECTED_MESSAGE, s', h1, rec, rest, mem')
      else get_record_loop junk stray unaligned small x86 stack md0 fuel s' h1 rest (count + 1) mem'
    else Some (Accept, s', h1, rec, rest, mem')
  | Some (v, h1, rec, mem') => Some (v, s', h1, rec, rest, mem')
  | None => None
  end.
Proof.
  clear. intros Hag Ht Hl. rewrite <- app_assoc. cbn [record_header app get_record_loop].
  unfold SSL3_RT_MAX_ENCRYPTED_LENGTH, SSL3_RT_MAX_ENCRYPTED_OVERHEAD, SSL3_RT_MAX_MD_SIZE, SSL3_RT_MAX_COMPRESSED_LENGTH, SSL3_RT_MAX_PLAIN_LENGTH in Hl.
  rewrite join_bytes by lia. rewrite (header_accepted s s') by (done || unfold SSL3_RT_MAX_ENCRYPTED_LENGTH, SSL3_RT_MAX_ENCRYPTED_OVERHEAD,
    SSL3_RT_MAX_MD_SIZE, SSL3_RT_MAX_COMPRESSED_LENGTH, SSL3_RT_MAX_PLAIN_LENGTH; lia).
  assert (Z.land type 0xff = type) as -> by (change 0xff with (Z.ones 8); rewrite Z.land_ones by lia; by apply Z.mod_small).
  rewrite length_app, (proj2 (Z.ltb_ge _ _)) by lia. rewrite Nat2Z.id, take_app_length, drop_app_length.
  unfold mbind, comp_bind. destruct (open_record _ _ _ _ _ _ _ _ _ _ _ _ mem) as [[[[v h1] rec] mem']|]; [|done]. destruct v; [|done..].
  destruct (rec_length rec =? 0); [|done]. by destruct (_ <? count + 1).
Qed.

Section one_record.
Context (s s' : conn) (h h' : half D) (K : list Z) (ds ds' : EVP_CIPHER_CTX D) (type : Z) (data r : list Z).
Context (Hag : agree s s') (Hw : reads d rep H c okE K ds h) (Hr : reads d rep H c okD K ds' h') (Hrel : rel (wk ds) (wk ds')) (Esq : h_seq h = h_seq h').
Context (Hb : bytes data) (Hrb : bytes r) (Ht : is_byte type) (Hl : Z.of_nat (length data) ≤ SSL3_RT_MAX_PLAIN_LENGTH) (Hrl : iv_size c s ≤ Z.of_nat (length r)).
Abbreviation P := (plaintext d H c s K h type data r).
Abbreviation ct := (fE (wk ds) P).
Abbreviation wire := (record_header s type (Z.of_nat (length ct)) ++ ct).

Lemma sealed_size : 0 < Z.of_nat (length ct) ≤ 16464 ∧ (data = [] → Z.of_nat (length ct) ≤ 80).
Proof using All.
  pose proof (plaintext_bytes d rep H c okE fE advE Hbs1 s K h type data r Hb Hrb) as HPb.
  destruct (plaintext_length d rep H c okE fE advE Hbs1 s K h type data r Hrl) as [HPm HPl].
  pose proof (bs_range c okE fE advE Hbs1) as Hbr. pose proof (iv_range c okE fE advE Hbs1 s) as Hir. pose proof (ms_range d Hms) as Hmr.
  destruct Hw as (_ & _ & Hok & _). rewrite (bc_length (BlockCipher := HE)) by (done || by apply (whole_mod c okE fE advE)).
  unfold SSL3_RT_MAX_PLAIN_LENGTH in Hl. split; [lia|]. intros E. rewrite E in HPl. cbn [length] in HPl. rewrite E. lia.
Qed.

Lemma open_sealed : succeeds (open_record junk stray unaligned small x86 stack md0 s' h' type (Z.of_nat (length ct)) ct)
  (λ '(h1', rec), arrived K (after_record advE h ds P) type data h1' rec).
Proof using All.
  destruct Hag as (Ev & Ex & Hse & Hse' & Hv & Hxt).
  pose proof (plaintext_bytes d rep H c okE fE advE Hbs1 s K h type data r Hb Hrb) as HPb.
  destruct (plaintext_length d rep H c okE fE advE Hbs1 s K h type data r Hrl) as [HPm HPl]. 
  pose proof (plaintext_sealed d H c okE fE advE Hbs1 s K h type data r Hrl) as HPs.
  pose proof (bs_range c okE fE advE Hbs1) as Hbr. pose proof (iv_range c okE fE advE Hbs1 s) as Hir. pose proof (ms_range d Hms) as Hmr.
  assert (whole c P) as HPw by by apply (whole_mod c okE fE advE).
  pose proof Hw as (Henc & Hc & Hok & Hmk). pose proof Hr as (Henc' & Hc' & Hok' & Hmk').
  assert (bytes ct) as Hctb by by apply bc_bytes. assert (length ct = length P) as Hctl by by apply bc_length.
  assert (whole c ct) as Hctw by (unfold whole; rewrite Hctl; exact HPw).
  assert (fD (wk ds') ct = P) as Hopen by by apply (pair_open (Paired := HP)).
  assert (iv_size c s' = iv_size c s) as Eiv by (unfold iv_size; by rewrite Ex).
  assert (header_of s' h' type = header_of s h type) as Eh by (unfold header_of; by rewrite Esq, Ev).
  unfold SSL3_RT_MAX_PLAIN_LENGTH in Hl. intros mem.
  destruct (open_record_cases junk stray unaligned small x86 stack md0 d rep H T Hjunk Hstray Hms c okD fD advD Hmode Haead Hbs1 s' h' K ds' type ct mem Hr Hse'
    (proj1 Hxt) Hctb Ht ltac:(rewrite Hctl; lia)) as [_ Hcase].
  rewrite Hopen, Eiv, Eh, Hctl in Hcase. specialize (Hcase ltac:(lia) HPm ltac:(lia)). destruct Hcase as [F1 F2].
  assert (∀ v rec, judged (sealed (MAC K) (header_of s h type) (drop (Z.to_nat (iv_size c s)) P)) ms (c_extra s') type v rec →
    v = Accept ∧ arrived K (after_record advE h ds P) type data (after_record advD h' ds' ct) rec) as HJ.
  { intros v rec J. assert (1 + ms ≤ Z.of_nat (length (drop (Z.to_nat (iv_size c s)) P))) as HRl by (rewrite length_drop; lia).
    destruct (judged_sealed _ _ _ _ _ _ _ _ data (mac_length d rep H K) (Forall_drop _ _ _ HPb) HRl J HPs
      ltac:(unfold SSL3_RT_MAX_PLAIN_LENGTH; lia)) as (-> & J1 & J2 & J3).
    split; [done|]. split; [|done]. exists (set_wk ds (advE (wk ds) P)), (set_wk ds' (advD (wk ds') ct)).
    split; [by apply (reads_after d rep H c okE fE advE)|]. split; [by apply (reads_after d rep H c okD fD advD)|]. split; [by apply (pair_adv (Paired := HP))|cbn; by rewrite Esq]. }
  rewrite Hctl. split.
  - intros [[v h1'] rec] mem' [h2 rec2] E V. destruct v; [|done..]. injection V as -> ->.
    destruct (F1 _ _ _ _ E) as [[J ->]|?]; [by apply HJ in J as [_ ?]|done].
  - intros P0. destruct (F2 P0) as (v & rec & mem' & E & J & P1). apply HJ in J as [-> J]. by eexists _, _, _.
Qed.


(** A record that is not empty reaches the caller. *)
Lemma get_sealed fuel rest count : data ≠ [] →
  succeeds (get_record_loop junk stray unaligned small x86 stack md0 (S fuel) s' h' (wire ++ rest) count)
    (λ '(s1, h1', rec, rest'), s1 = s' ∧ rest' = rest ∧ arrived K (after_record advE h ds P) type data h1' rec).
Proof using All.
  intros Hne mem. destruct sealed_size as [Hsz _]. rewrite (get_record_step fuel s s') by (done || unfold SSL3_RT_MAX_ENCRYPTED_LENGTH,
    SSL3_RT_MAX_ENCRYPTED_OVERHEAD, SSL3_RT_MAX_MD_SIZE, SSL3_RT_MAX_COMPRESSED_LENGTH, SSL3_RT_MAX_PLAIN_LENGTH; lia).
  destruct (open_sealed mem) as [F1 F2]. split.
  - intros [[[[v s1] h1] rec] rest'] mem' [[[s2 h2] rec2] rest2] E V. destruct v; [|done..]. injection V as -> -> -> ->.
    destruct (open_record _ _ _ _ _ _ _ _ _ _ _ _ mem) as [[[[v h1] rec] mem1]|]; [|done]. destruct v; [|done..].
    specialize (F1 _ _ (h1, rec) eq_refl eq_refl). cbn in F1. pose proof F1 as (_ & _ & El & _).
    rewrite (proj2 (Z.eqb_neq (rec_length rec) 0)) in E by (destruct data; [done|cbn in El; lia]). by injection E as <- <- <- <- <-.
  - intros P0. destruct (F2 P0) as ([[v h1] rec] & mem1 & [h2 rec2] & E & V & P1). specialize (F1 _ _ _ E V). destruct v; [|done..]. injection V as -> ->.
    pose proof F1 as (_ & _ & El & _). rewrite E, (proj2 (Z.eqb_neq (rec_length rec2) 0)) by (destruct data; [done|cbn in El; lia]).
    by eexists _, _, _.
Qed.
End one_record.

(** An empty record is passed over. *)
Lemma get_empty s s' h h' K ds ds' type r fuel rest count (Q : conn * half D * SSL3_RECORD * list Z → Prop) :
  agree s s' → reads d rep H c okE K ds h → reads d rep H c okD K ds' h' → rel (wk ds) (wk ds') → h_seq h = h_seq h' →
  bytes r → is_byte type → iv_size c s ≤ Z.of_nat (length r) → count < MAX_EMPTY_RECORDS →
  let P := plaintext d H c s K h type [] r in
  let ct := fE (wk ds) P in
  (∀ h1', in_step K (after_record advE h ds P) h1' → succeeds (get_record_loop junk stray unaligned small x86 stack md0 fuel s' h1' rest (count + 1)) Q) →
  succeeds (get_record_loop junk stray unaligned small x86 stack md0 (S fuel) s' h' ((record_header s type (Z.of_nat (length ct)) ++ ct) ++ rest) count) Q.
Proof using All.
  intros Hag Hw Hr Hrel Esq Hrb Ht Hrl Hcnt P ct HQ mem. assert (bytes []) as Hb0 by apply Forall_nil_2.
  destruct (sealed_size s s' h h' K ds ds' type [] r Hag Hw Hr Hrel Esq Hb0 Hrb Ht ltac:(done) Hrl) as [Hsz _]. fold P ct in Hsz.
  rewrite (get_record_step fuel s s') by (done || unfold SSL3_RT_MAX_ENCRYPTED_LENGTH,
    SSL3_RT_MAX_ENCRYPTED_OVERHEAD, SSL3_RT_MAX_MD_SIZE, SSL3_RT_MAX_COMPRESSED_LENGTH, SSL3_RT_MAX_PLAIN_LENGTH; lia).
  destruct (open_sealed s s' h h' K ds ds' type [] r Hag Hw Hr Hrel Esq Hb0 Hrb Ht ltac:(done) Hrl mem) as [F1 F2]. fold P ct in F1, F2.
  rewrite (proj2 (Z.ltb_ge MAX_EMPTY_RECORDS (count + 1))) by lia. split.
  - intros x mem' a E V. destruct (open_record _ _ _ _ _ _ _ _ _ _ _ _ mem) as [[[[v h1] rec] mem1]|]; [|done].
    destruct v; [|by injection E as <- <-..]. specialize (F1 _ _ (h1, rec) eq_refl eq_refl). destruct F1 as (Hst & _ & El & _).
    rewrite El in E. cbn [length Z.of_nat Z.eqb] in E. destruct (HQ h1 Hst mem1) as [G _]. by apply (G _ _ _ E).
  - intros P0. destruct (F2 P0) as ([[v h1] rec] & mem1 & [h2 rec2] & E & V & P1). specialize (F1 _ _ _ E V). destruct v; [|done..]. injection V as -> ->.
    destruct F1 as (Hst & _ & El & _). rewrite E, El. by apply (HQ h2 Hst mem1).
Qed.

(** What [do_ssl3_write] leaves for the reader: the data, after an empty record or not. *)
#[local] Instance view_sent A B C : View (option A * B * C) (A * B * C) := λ '(a, b, c), a ← a; Some (a, b, c).
Abbreviation written := (do_ssl3_write junk stray unaligned small x86 stack md0).
Abbreviation read s' h' input := (ssl3_get_record junk stray unaligned small x86 stack md0 s' h' input).

Lemma write_read s s' h h' K need fin type data r1 r2 gap1 gap2 : agree s s' → in_step K h h' → bytes data → data ≠ [] → is_byte type →
  Z.of_nat (length data) ≤ SSL3_RT_MAX_PLAIN_LENGTH → vector c s r1 → vector c s r2 → vector c s gap1 → vector c s gap2 →
  succeeds (written s h need fin type false data (Some r1) (Some r2) gap1 gap2)
    (λ '(w, h1, _), ∀ rest, succeeds (read s' h' (w ++ rest)) (λ '(s1, h1', rec, rest'), s1 = s' ∧ rest' = rest ∧ arrived K h1 type data h1' rec)).
Proof using All.
  intros Hag (ds & ds' & Hw & Hr & Hrel & Esq) Hb Hne Ht Hl [Hr1 Hrl1] [Hr2 Hrl2] [_ Hg1] [_ Hg2].
  pose proof Hag as (_ & _ & Hse & _). assert (bytes []) as Hb0 by apply Forall_nil_2.
  pose proof (λ h ds data r gap, seal_record_spec junk stray unaligned small x86 stack md0 d rep H Hjunk Hstray Hms c okE fE advE Hmode Haead Hbs1 Hiv s h K ds type data r gap) as Hseal.
  assert (Z.of_nat (length data) < 2 ^ 31) as Hl31 by (unfold SSL3_RT_MAX_PLAIN_LENGTH in Hl; lia).
  unfold do_ssl3_write. rewrite (proj2 (Z.eqb_neq (Z.of_nat (length data)) 0)) by (destruct data; [done|cbn; lia]).
  set (go := _ && (type =? SSL3_RT_APPLICATION_DATA)). destruct go.
  - eapply succeeds_bind; [by apply (Hseal h ds [] r1 gap1)|by intros [[?|] ?] V; [|apply fails_ret]|].
    intros [[p|] h1] a V <-; [|done]. injection V as -> ->. cbv zeta.
    destruct (sealed_size s s' h h' K ds ds' type [] r1 Hag Hw Hr Hrel Esq Hb0 Hr1 Ht ltac:(done) Hrl1) as [_ Hsz]. specialize (Hsz eq_refl).
    set (ct1 := fE (wk ds) _) in *. set (h1 := after_record _ _ _ _).
    assert (Z.of_nat (length (record_header s type (Z.of_nat (length ct1)) ++ ct1)) ≤ 85) as Hp by (rewrite length_app; cbn [record_header length]; lia).
    rewrite (proj2 (Z.ltb_ge (SSL3_RT_HEADER_LENGTH + SSL3_RT_SEND_MAX_ENCRYPTED_OVERHEAD) _)) by exact Hp.
    assert (∃ ds1, reads d rep H c okE K ds1 h1) as (ds1 & Hw1).
    { eexists. apply (reads_after d rep H c okE fE advE); [done| |].
      - by apply (plaintext_bytes d rep H c okE fE advE Hbs1).
      - by apply (whole_mod c okE fE advE), (plaintext_length d rep H c okE fE advE Hbs1). }
    eapply succeeds_bind; [by apply (Hseal h1 ds1 data r2 gap2)|by intros [[?|] ?] V; [|apply fails_ret]|].
    intros [[w|] h2] a V <-; [|done]. injection V as -> ->. eapply succeeds_ret; [done|]. intros rest.
    rewrite <- app_assoc. unfold ssl3_get_record.
    apply (get_empty s s' h h' K ds ds'); try done. intros h1' (ds2 & ds1' & Hw2 & Hr' & Hrel' & Esq').
    assert (Some ds2 = Some ds1) as [= ->] by (transitivity (h_enc h1); [symmetry; apply Hw2|apply Hw1]).
    by apply (get_sealed s s' h1 h1' K ds1 ds1').
  - eapply (succeeds_bind _ _ (eq ([], h))); [by eapply succeeds_ret|by intros [[?|] ?] V; [|apply fails_ret]|].
    intros [[p|] h1] a V <-; [|done]. injection V as -> ->. cbv zeta. cbn [length Z.of_nat]. rewrite (proj2 (Z.ltb_ge _ 0)) by done.
    eapply succeeds_bind; [by apply (Hseal h ds data r2 gap2)|by intros [[?|] ?] V; [|apply fails_ret]|].
    intros [[w|] h2] a V <-; [|done]. injection V as -> ->. eapply succeeds_ret; [done|]. cbn [app]. intros rest.
    by apply (get_sealed s s' h h' K ds ds').
Qed.
End ends.

(** ** AES in CBC mode *)

Section aes.
Context (p : path) (ip : bool) (u : list Z) (keylen : Z) (Nk : nat) (Hk : key_size keylen Nk) (Hu : bytes u).
Abbreviation ek := (Aes.set_key AES_set_encrypt_key u keylen).
Abbreviation dk := (Aes.set_key AES_set_decrypt_key u keylen).

(** The two contexts have the same vector. *)
Definition same_iv (w w' : work EVP_AES_KEY) : Prop := encrypt w = 1 ∧ encrypt w' = 0 ∧ block (iv w) ∧ iv w' = iv w.

Lemma aes_cbc_paired : Paired (EVP_aes_cbc p ip keylen) (cbc_out p ip ek) (cbc_adv p ip ek) (cbc_out p ip dk) (cbc_adv p ip dk) same_iv.
Proof using All.
  pose proof (AES_permutation u keylen Nk Hk Hu) as HP.
  pose proof (block_dec (BlockInverse := block_perm_inverse (BlockPermutation := HP))) as HB.
  assert (∀ w w' l, same_iv w w' → bytes l → whole (EVP_aes_cbc p ip keylen) l → cbc_out p ip dk w' (cbc_out p ip ek w l) = l ∧
    same_iv (cbc_adv p ip ek w l) (cbc_adv p ip dk w' (cbc_out p ip ek w l))) as HA; [|split; intros; by apply HA].
  intros w w' l (E1 & E2 & Hv & E3) Hl Hw. destruct (whole_blocks l Hl Hw) as (bs & -> & Hbs).
  unfold cbc_adv, cbc_out. rewrite E1, E2, E3, (cbc_enc_blocks p ip ek bs (iv w)) by (done || apply _). cbn [fst snd].
  pose proof (blocks_cbc_enc (AES_encrypt ek) (AES_decrypt dk) (iv w) bs Hbs Hv) as Hc.
  rewrite (cbc_dec_blocks p ip dk (cbc_enc (AES_encrypt ek) (iv w) bs) (iv w)) by done. cbn [fst snd].
  split; [by rewrite (cbc_dec_enc (AES_encrypt ek) (AES_decrypt dk))|].
  split_and!; [done|done| |done]. cbn [iv set_iv_num]. by apply Cbc.block_last.
Qed.
End aes.

(** ** An example: AES-128 and SHA-1 *)

Definition demo_junk (m : EVP_MD) : HASH_CTX := HCtx [] 0 0 (replicate (Z.to_nat (block_size m)) 7) 0 0.
Definition demo_stray : HMAC_CTX := HmacCtx None EVP_MD_CTX_init EVP_MD_CTX_init EVP_MD_CTX_init 3 (replicate 128 9) true.
Definition demo_mac : MAC_CTX :=
  match EVP_DigestSignInit demo_junk demo_stray MAC_CTX_init sha1_md (Some (replicate 20 11)) [] with Some (_, m, _) => m | None => MAC_CTX_init end.
Abbreviation demo_cipher := (EVP_aes_cbc Aligned false 128).
Abbreviation demo_ctx e := (cbc_context Aligned false (seqZ 0 16) (seqZ 16 16) 128 e).
Definition demo_half (e : Z) : half EVP_AES_KEY := Half (Some (demo_ctx e)) (Some demo_mac) (replicate 7 0 ++ [255]) (replicate 20 11) false.
Definition demo_conn : conn := Conn 0x303 true true 0 false false.
Abbreviation sha1_rep := (collected 64 32 sha1_compress (hash SHA1_Init) 0).
Abbreviation demo_key e := (Aes.set_key (if e =? 0 then AES_set_decrypt_key else AES_set_encrypt_key) (seqZ 0 16) 128).

Lemma demo_key_size : key_size 128 4.
Proof. by left. Qed.

Lemma demo_bytes : bytes (seqZ 0 16) ∧ block (seqZ 16 16).
Proof. split; apply (bool_decide_eq_true_1 _); vm_compute; reflexivity. Qed.

Lemma demo_reads e : e = 0 ∨ e = 1 → reads sha1_md sha1_rep SHA1_fips demo_cipher (cbc_ok e (demo_key e)) (replicate 20 11) (demo_ctx e) (demo_half e).
Proof.
  intros He. destruct demo_bytes as [Hu Hv].
  assert (bytes (replicate 20 11)) as HK by (apply (bool_decide_eq_true_1 _); vm_compute; reflexivity).
  split; [done|]. split; [done|]. split.
  { split; [done|]. split; [done|]. by destruct He as [->| ->]. }
  split; [apply (bool_decide_eq_true_1 _); vm_compute; reflexivity|]. split; [done|]. split; [done|]. split; [done|]. split; [done|]. split; [done|].
  exists demo_mac. split; [done|].
  destruct (EVP_DigestSignInit_spec demo_junk demo_stray sha1_md sha1_rep SHA1_fips eq_refl eq_refl (replicate 20 11)) with (mem := @nil bool) as [F1 F2].
  { by split. }
  destruct (F2 ltac:(apply Forall_nil_2)) as ([r m] & mem' & a & E & V & _). unfold demo_mac. rewrite E. apply (F1 _ _ _ E).
  destruct r; [|done]. by injection V as <-.
Qed.

Lemma demo_in_step : in_step sha1_md sha1_rep SHA1_fips demo_cipher (cbc_ok 1 (demo_key 1)) (cbc_ok 0 (demo_key 0)) same_iv
  (replicate 20 11) (demo_half 1) (demo_half 0).
Proof.
  exists (demo_ctx 1), (demo_ctx 0). split; [apply (demo_reads 1); by right|]. split; [apply (demo_reads 0); by left|].
  split; [|done]. destruct demo_bytes as [_ Hv]. by split_and!.
Qed.

(** ** Theorems *)

Lemma header_of_spec {D} s (h : half D) type len : bytes (h_seq h) → length (h_seq h) = 8%nat →
  header_of s h type len = pseudo_header (be_load (h_seq h)) type (c_version s) len.
Proof.
  intros Hb Hl. unfold header_of, mac_header, pseudo_header. rewrite take_ge by lia. pose proof (be_store_load _ Hb) as E. rewrite Hl in E.
  assert (Z.land len 0xff = u8 len) as -> by (apply (Z.land_ones _ 8); lia). rewrite E, !be_store_S. reflexivity.
Qed.

(** The code looks at the whole padding unless it has 256 bytes. *)
Lemma rfc_pad_good pad : rfc_pad pad → good_pad pad.
Proof. intros (pl & Hpl & ->). exists pl. rewrite length_replicate, drop_replicate. split; [done|]. split; [lia|]. f_equal. lia. Qed.

Lemma good_pad_rfc pad : good_pad pad → length pad ≠ 256%nat → rfc_pad pad.
Proof.
  intros (pl & Hpl & Hl & E) Hn. exists pl. split; [done|]. replace (length pad - 255)%nat with 0%nat in E by lia. rewrite drop_0 in E.
  rewrite E at 1. f_equal. lia.
Qed.

Lemma sealed_carries mac header seq type version ms R : (∀ n, header n = pseudo_header seq type version n) → (∀ x, Z.of_nat (length (mac x)) = ms) →
  bytes R → 1 + ms ≤ Z.of_nat (length R) → getb R (Z.of_nat (length R) - 1) ≠ 255 ∨ (∃ m, carries mac seq type version R m) →
  ∀ m, sealed mac header R m ↔ carries mac seq type version R m.
Proof.
  intros Hh Hm HR Hl Hpad. assert (∀ m, carries mac seq type version R m → sealed mac header R m) as Hto.
  { intros m (pad & E & Hp). exists pad. rewrite Hh. split; [done|by apply rfc_pad_good]. }
  intros m. split; [|apply Hto]. intros Hs. destruct Hpad as [H255|[m' Hc]].
  - destruct Hs as (pad & E & Hg). exists pad. rewrite <- Hh. split; [done|]. apply good_pad_rfc; [done|]. intros H256. apply H255.
    assert (bytes pad) as Hb by (rewrite E in HR; apply Forall_app in HR as [_ HR]; by apply Forall_app in HR as [_ ?]).
    pose proof (good_pad_last (m ++ mac (header (Z.of_nat (length m)) ++ m)) pad Hb Hg) as Hlast. rewrite <- app_assoc, <- E, H256 in Hlast. done.
  - pose proof (Hto _ Hc) as Hs'. apply (sealed_parts mac header ms Hm R HR Hl) in Hs as (_ & -> & _), Hs' as (_ & Em & _). by rewrite <- Em.
Qed.



(** C1: What one end writes the other reads.  When a writer and a reader are in step, the bytes that [do_ssl3_write] makes of data
    (one record, or an empty one before it as countermeasure) make [ssl3_get_record] deliver the type and
    the data, leave the bytes behind, and the two ends are in step again; [do_ssl3_write] fails, and the reader refuses the
    record, only for want of memory.  For any pair of ciphers in CBC mode of which one undoes the other. *)
Theorem tls_record_roundtrip {D} junk stray unaligned small x86 stack md0 d rep H `{!Digest d rep H} (c : EVP_CIPHER D)
    okE fE advE `{!BlockCipher c okE fE advE} okD fD advD `{!BlockCipher c okD fD advD} rel `{!Paired c fE advE fD advD rel}
    s s' h h' K need fin type data r1 r2 gap1 gap2 mem :
  tls_digest small x86 d H → Z.of_nat (length (hdata (junk d))) = block_size d → length (key stray) = 128%nat →
  md_size d ∈ [16; 20; 32; 48] → Z.land (c_flags c) EVP_CIPH_MODE = EVP_CIPH_CBC_MODE → Z.land (c_flags c) EVP_CIPH_FLAG_AEAD_CIPHER = 0 →
  Evp.block_size c ≠ 1 → iv_len c = Evp.block_size c → agree s s' → in_step d rep H c okE okD rel K h h' →
  bytes data → data ≠ [] → is_byte type → Z.of_nat (length data) ≤ SSL3_RT_MAX_PLAIN_LENGTH →
  vector c s r1 → vector c s r2 → vector c s gap1 → vector c s gap2 →
  let write := do_ssl3_write junk stray unaligned small x86 stack md0 s h need fin type false data (Some r1) (Some r2) gap1 gap2 mem in
  (∀ w h1 fin' mem1, write = Some (Some w, h1, fin', mem1) → ∀ rest mem2,
    let read := ssl3_get_record junk stray unaligned small x86 stack md0 s' h' (w ++ rest) mem2 in
    (∀ s1 h1' rec rest' mem3, read = Some (Accept, s1, h1', rec, rest', mem3) →
      s1 = s' ∧ rest' = rest ∧ arrived d rep H c okE okD rel K h1 type data h1' rec) ∧
    (plenty mem2 → ∃ s1 h1' rec rest' mem3, read = Some (Accept, s1, h1', rec, rest', mem3))) ∧
  (plenty mem → ∃ w h1 fin' mem1, write = Some (Some w, h1, fin', mem1)).
Proof.
  intros T Hj Hs Hm Hmode Haead Hb Hi Hag Hst Hd Hne Ht Hl Hr1 Hr2 Hg1 Hg2 write.
  destruct (write_read junk stray unaligned small x86 stack md0 d rep H T Hj Hs Hm c Hmode Haead Hb Hi okE fE advE okD fD advD rel s s' h h' K
    need fin type data r1 r2 gap1 gap2 Hag Hst Hd Hne Ht Hl Hr1 Hr2 Hg1 Hg2 mem) as [F1 F2]. fold write in F1, F2. split.
  - intros w h1 fin' mem1 E rest mem2 read. destruct (F1 _ _ (w, h1, fin') E eq_refl rest mem2) as [G1 G2]. split.
    + intros s1 h1' rec rest' mem3 Er. by apply (G1 _ _ (s1, h1', rec, rest') Er).
    + intros P0. destruct (G2 P0) as ([[[[v s1] h1'] rec] rest'] & mem3 & a & Er & V & _). destruct v; [|done..]. by exists s1, h1', rec, rest', mem3.
  - intros P0. destruct (F2 P0) as ([[[w|] h1] fin'] & mem1 & a & E & V & _); [|done]. by exists w, h1, fin', mem1.
Qed.

Lemma tls_record_roundtrip_witness :
  let write := do_ssl3_write demo_junk demo_stray (λ _, true) true false (hash_init [] 0) [] demo_conn (demo_half 1) true false 23 false (seqZ 1 40)
    (Some (replicate 16 5)) (Some (replicate 20 6)) (replicate 16 0) (replicate 16 0) [] in
  (∀ w h1 fin' mem1, write = Some (Some w, h1, fin', mem1) → ∀ rest mem2,
    let read := ssl3_get_record demo_junk demo_stray (λ _, true) true false (hash_init [] 0) [] demo_conn (demo_half 0) (w ++ rest) mem2 in
    (∀ s1 h1' rec rest' mem3, read = Some (Accept, s1, h1', rec, rest', mem3) →
      s1 = demo_conn ∧ rest' = rest ∧ arrived sha1_md sha1_rep SHA1_fips demo_cipher (cbc_ok 1 (demo_key 1)) (cbc_ok 0 (demo_key 0)) same_iv
        (replicate 20 11) h1 23 (seqZ 1 40) h1' rec) ∧
    (plenty mem2 → ∃ s1 h1' rec rest' mem3, read = Some (Accept, s1, h1', rec, rest', mem3))) ∧
  (plenty [] → ∃ w h1 fin' mem1, write = Some (Some w, h1, fin', mem1)).
Proof.
  intros write. destruct demo_bytes as [Hu Hv].
  pose proof (cbc_enc_instance Aligned false (seqZ 0 16) (seqZ 16 16) 128 4 demo_key_size Hu Hv) as HE.
  pose proof (cbc_dec_instance Aligned false (seqZ 0 16) (seqZ 16 16) 128 4 demo_key_size Hu Hv) as HD.
  pose proof (aes_cbc_paired Aligned false (seqZ 0 16) 128 4 demo_key_size Hu) as HP.
  apply (tls_record_roundtrip demo_junk demo_stray (λ _, true) true false (hash_init [] 0) [] sha1_md sha1_rep SHA1_fips demo_cipher
    (cbc_ok 1 (demo_key 1)) _ _ (cbc_ok 0 (demo_key 0)) _ _ same_iv demo_conn demo_conn (demo_half 1) (demo_half 0) (replicate 20 11) true false 23 (seqZ 1 40)
    (replicate 16 5) (replicate 20 6) (replicate 16 0) (replicate 16 0) []); try done.
  - apply td_sha1.
  - apply (bool_decide_eq_true_1 _). vm_compute. reflexivity.
  - apply demo_in_step.
  - apply (bool_decide_eq_true_1 _). vm_compute. reflexivity.
  - split; [apply (bool_decide_eq_true_1 _); vm_compute; reflexivity|done].
  - split; [apply (bool_decide_eq_true_1 _); vm_compute; reflexivity|done].
  - split; [apply (bool_decide_eq_true_1 _); vm_compute; reflexivity|done].
  - split; [apply (bool_decide_eq_true_1 _); vm_compute; reflexivity|done].
Defined.
