(* ===== verification/TlsKeys.v ===== *)
(** * From the master secret to the record layer

    Models how [ssl/t1_enc.c] puts new keys into use: [tls1_setup_key_block] derives the key
    block, [tls1_change_cipher_state] cuts it into the secrets of the two directions
    and starts the cipher and the MAC of one of them
    ([tls1_change_cipher_state_cipher]), for cipher suites without [EVP_AEAD] over a
    reliable transport.  Suites in GCM mode are crashes here.

    The theorem composes [TlsPrf], [EvpMac], [EvpAes] and [TlsRecord]: two ends
    with the same secrets come out in step in both directions.  Two lemmas show
    what happens when memory runs out in the middle. *)

From S2P Require Import Prelude ConstTime RecordCbc Block Evp AesSpec Aes AesModes EvpAes Md32 Sha256 Sha512 Sha1 Md5 EvpDigest Hmac CbcDigest EvpMac TlsPrf TlsRecord.

Definition SSL3_CC_READ : Z := 0x01.
Definition SSL3_CC_WRITE : Z := 0x02.
Definition SSL3_CC_CLIENT : Z := 0x10.
Definition SSL3_CC_SERVER : Z := 0x20.
Definition SSL3_CHANGE_CIPHER_CLIENT_WRITE : Z := Z.lor SSL3_CC_CLIENT SSL3_CC_WRITE.
Definition SSL3_CHANGE_CIPHER_SERVER_READ : Z := Z.lor SSL3_CC_SERVER SSL3_CC_READ.
Definition SSL3_CHANGE_CIPHER_CLIENT_READ : Z := Z.lor SSL3_CC_CLIENT SSL3_CC_READ.
Definition SSL3_CHANGE_CIPHER_SERVER_WRITE : Z := Z.lor SSL3_CC_SERVER SSL3_CC_WRITE.
Definition TLS1_STREAM_MAC : Z := 0x04.
Definition EVP_GCM_TLS_FIXED_IV_LEN : Z := 4.
Definition SSL_RC4 : Z := 0x4.
Definition SSL_eNULL : Z := 0x10.
Definition TLS1_VERSION : Z := 0x0301.

(** The fields of [s->s3->tmp] for the next state, and [need_empty_fragments]; [key_block_length] is the length of
    [key_block], 0 without one. *)
Record pending (D : Type) := Pending {
  new_sym_enc : option (EVP_CIPHER D);
  new_hash : option EVP_MD;
  new_mac_secret_size : Z;
  key_block : list Z;
  need_empty_fragments : bool
}.
Arguments Pending {D}. Arguments new_sym_enc {D}. Arguments new_hash {D}. Arguments new_mac_secret_size {D}. Arguments key_block {D}.
Arguments need_empty_fragments {D}.

Section keys.
Context {D : Type}.
Context (junk : EVP_MD → HASH_CTX) (stray : HMAC_CTX) (unaligned : list Z → bool) (small x86 : bool) (gost94 : option EVP_MD).
(** The contents of fresh memory of a size. *)
Context (raw : Z → list Z).
Implicit Types (p : pending D) (h : half D) (c : EVP_CIPHER D).

(** The length of the vector from the key block. *)
Definition fixed_iv_len c : Z := if Z.land (c_flags c) EVP_CIPH_MODE =? EVP_CIPH_GCM_MODE then EVP_GCM_TLS_FIXED_IV_LEN else iv_len c.
Definition key_block_len c (mac_secret_size : Z) : Z := (mac_secret_size + c_key_len c + fixed_iv_len c) * 2.

Definition set_block p b : pending D := Pending (new_sym_enc p) (new_hash p) (new_mac_secret_size p) b (need_empty_fragments p).

(** [evp]: what [ssl_cipher_get_evp] finds for the cipher of the session.  [insert]: [SSL_OP_DONT_INSERT_EMPTY_FRAGMENTS] is not set. *)
Definition tls1_setup_key_block p (evp : option (EVP_CIPHER D * EVP_MD * Z)) (alg2 : Z) (server_random client_random master_key : list Z)
    (insert : bool) (version algorithm_enc : Z) : comp (bool * pending D) :=
  if negb (Z.of_nat (length (key_block p)) =? 0) then mret (true, p)
  else
    match evp with
    | None => mret (false, p)
    | Some (c, mac, size) =>
      let len := key_block_len c size in
      let p := Pending (Some c) (Some mac) size [] (need_empty_fragments p) in
      check alloc (false, p) (λ _,
      let p := set_block p (raw len) in
      check alloc (false, p) (λ _,
      '(ok, km) ← tls1_generate_key_block junk stray unaligned small x86 gost94 alg2 server_random client_random master_key (raw len) (raw len) len;
      let p := set_block p km in
      if negb ok then mret (false, p)
      else
        let need := if insert && (version <=? TLS1_VERSION) then negb ((algorithm_enc =? SSL_eNULL) || (algorithm_enc =? SSL_RC4))
                    else need_empty_fragments p in
        mret (true, Pending (new_sym_enc p) (new_hash p) (new_mac_secret_size p) (key_block p) need)))
    end.

(** [EVP_CipherInit_ex] on a new context, whose return value is not looked at. *)
Definition start_cipher c (key iv : list Z) (enc : Z) : comp (EVP_CIPHER_CTX D) := λ mem,
  let '(ok, mem) := match ctx_data c with Some _ => malloc mem | None => (true, mem) end in
  '(_, ctx) ← EVP_CipherInit_ex ok EVP_CIPHER_CTX_init (Some c) (Some key) (Some iv) enc;
  Some (ctx, mem).

(** The return value of [EVP_DigestSignInit] is not looked at. *)
Definition tls1_change_cipher_state_cipher p (algorithm2 : Z) (is_read : bool) h (mac_secret key iv : list Z) : comp (bool * half D) :=
  match new_sym_enc p, new_hash p with
  | Some c, Some mac =>
    let stream := negb (Z.land algorithm2 TLS1_STREAM_MAC =? 0) in
    let make e m := Half e m (h_seq h) (h_secret h) stream in
    check alloc (false, make None None) (λ _,
    check alloc (false, make (Some EVP_CIPHER_CTX_init) None) (λ _,
    if (Z.land (c_flags c) EVP_CIPH_MODE =? EVP_CIPH_GCM_MODE) || negb (Z.land (c_flags c) EVP_CIPH_FLAG_AEAD_CIPHER =? 0) then crash
    else
      ctx ← start_cipher c key iv (if is_read then 0 else 1);
      check (EVP_PKEY_new_mac_key junk stray mac_secret (Z.of_nat (length mac_secret))) (false, make (Some ctx) (Some MAC_CTX_init)) (λ mac_key,
      '(_, m) ← EVP_DigestSignInit junk stray MAC_CTX_init mac (Some mac_key);
      mret (true, make (Some ctx) (Some m)))))
  | _, _ => crash
  end.

Definition slice (l : list Z) (off len : Z) : list Z := take (Z.to_nat len) (drop (Z.to_nat off) l).

(** [h] is the half that [which] is about. *)
Definition tls1_change_cipher_state p (algorithm2 which : Z) h : comp (bool * half D) :=
  match new_sym_enc p with
  | None => crash
  | Some c =>
    let is_read := negb (Z.land which SSL3_CC_READ =? 0) in
    let use_client_keys := (which =? SSL3_CHANGE_CIPHER_CLIENT_WRITE) || (which =? SSL3_CHANGE_CIPHER_SERVER_READ) in
    let h := Half (h_enc h) (h_hash h) (replicate 8 0) (h_secret h) (h_stream_mac h) in
    let m := new_mac_secret_size p in
    let k := c_key_len c in
    let v := fixed_iv_len c in
    let part off n := slice (key_block p) (if use_client_keys then off else off + n) n in
    let mac_secret := part 0 m in
    let key := part (2 * m) k in
    let iv := part (2 * m + 2 * k) v in
    if negb (2 * m + 2 * k + 2 * v =? Z.of_nat (length (key_block p))) then mret (false, h)
    else
      let h := Half (h_enc h) (h_hash h) (h_seq h) mac_secret (h_stream_mac h) in
      tls1_change_cipher_state_cipher p algorithm2 is_read h mac_secret key iv
  end.
End keys.

(** ** With enough memory *)

(** The computation returns a result for which [P] holds. *)
Definition runs {A} (x : comp A) (P : A → Prop) : Prop := ∀ mem, plenty mem → ∃ a mem', x mem = Some (a, mem') ∧ plenty mem' ∧ P a.

Lemma runs_ret {A} (a : A) (P : A → Prop) : P a → runs (mret (M := comp) a) P.
Proof. intros Ha mem Hm. by exists a, mem. Qed.

Lemma runs_bind {A B} (x : comp A) (f : A → comp B) (P : A → Prop) (Q : B → Prop) : runs x P → (∀ a, P a → runs (f a) Q) → runs (x ≫= f) Q.
Proof.
  intros Hx Hf mem Hm. destruct (Hx mem Hm) as (a & mem1 & E & Hm1 & Ha). destruct (Hf a Ha mem1 Hm1) as (b & mem2 & E2 & ? & ?).
  exists b, mem2. split; [|done]. unfold mbind, comp_bind. by rewrite E.
Qed.

Lemma runs_succeeds `{View R A} (x : comp R) (P : A → Prop) : succeeds x P → runs x (λ r, ∃ a, view r = Some a ∧ P a).
Proof.
  intros Hx mem Hm. destruct (Hx mem) as [F1 F2]. destruct (F2 Hm) as (r & mem' & a & E & V & Hm'). exists r, mem'. split; [done|]. split; [done|].
  exists a. split; [done|]. by eapply F1.
Qed.

Lemma runs_check `{View R A} {T} (x : comp R) (bad : T) (k : A → comp T) (P : A → Prop) (Q : T → Prop) : succeeds x P →
  (∀ a, P a → runs (k a) Q) → runs (check x bad k) Q.
Proof. intros Hx Hk. eapply runs_bind; [by apply runs_succeeds|]. intros r (a & V & Ha). cbn. rewrite V. by apply Hk. Qed.

Section change.
Context (junk : EVP_MD → HASH_CTX) (stray : HMAC_CTX) (pth : path) (ip : bool) (keylen : Z) (Nk : nat) (Hk : key_size keylen Nk).
Context (d : EVP_MD) (rep : HASH_CTX → list Z → Prop) (H : list Z → list Z) `{!Digest d rep H}.
Context (Hjunk : Z.of_nat (length (hdata (junk d))) = block_size d) (Hstray : length (key stray) = 128%nat).
Abbreviation c := (EVP_aes_cbc pth ip keylen).
Abbreviation ms := (md_size d).

(** The secrets of one direction in a key block. *)
Definition mac_part (client : bool) (kb : list Z) : list Z := slice kb (if client then 0 else ms) ms.
Definition key_part (client : bool) (kb : list Z) : list Z := slice kb (2 * ms + if client then 0 else keylen / 8) (keylen / 8).
Definition iv_part (client : bool) (kb : list Z) : list Z := slice kb (2 * ms + 2 * (keylen / 8) + if client then 0 else 16) 16.
Definition aes_key (e : Z) (u : list Z) : AES_KEY := Aes.set_key (if e =? 0 then AES_set_decrypt_key else AES_set_encrypt_key) u keylen.

(** The parameters of a change: who, and whether it reads. *)
Definition change_of (client_keys read : bool) : Z :=
  match client_keys, read with
  | true, false => SSL3_CHANGE_CIPHER_CLIENT_WRITE
  | true, true => SSL3_CHANGE_CIPHER_SERVER_READ
  | false, true => SSL3_CHANGE_CIPHER_CLIENT_READ
  | false, false => SSL3_CHANGE_CIPHER_SERVER_WRITE
  end.

Definition started (client read : bool) (kb : list Z) (h : half EVP_AES_KEY) : Prop :=
  let e := if read then 0 else 1 in
  let u := key_part client kb in
  reads d rep H c (cbc_ok e (aes_key e u)) (mac_part client kb) (cbc_context pth ip u (iv_part client kb) keylen e) h ∧ h_seq h = replicate 8 0.

Lemma key_bits : 0 < keylen / 8 ∧ keylen / 8 * 8 = keylen.
Proof using Hk. clear -Hk. destruct Hk as [[-> _]|[[-> _]|[-> _]]]; done. Qed.

Lemma start_cipher_runs u v e : bytes u → block v → e = 0 ∨ e = 1 →
  runs (start_cipher c u v e) (eq (cbc_context pth ip u v keylen e)).
Proof using Hk.
  intros Hu Hv He mem Hm. unfold start_cipher. cbn [ctx_data EVP_aes_cbc BLOCK_CIPHER_generic].
  destruct (plenty_malloc mem Hm) as [E Hm']. destruct (malloc mem) as [ok mem']. cbn in E. subst ok.
  fold c. rewrite (EVP_aes_cbc_init pth ip e u v keylen Nk) by done. by eexists _, _.
Qed.

Lemma slice_bytes l off n : bytes l → bytes (slice l off n).
Proof. clear. intros Hl. by apply Forall_take, Forall_drop. Qed.

Lemma slice_length l off n : 0 ≤ off → 0 ≤ n → off + n ≤ Z.of_nat (length l) → Z.of_nat (length (slice l off n)) = n.
Proof. clear. intros. unfold slice. rewrite length_take, length_drop. lia. Qed.

Lemma change_cipher_state_runs (p : pending EVP_AES_KEY) alg2 client read h :
  new_sym_enc p = Some c → new_hash p = Some d → new_mac_secret_size p = ms → bytes (key_block p) →
  Z.of_nat (length (key_block p)) = key_block_len c ms → Z.land alg2 TLS1_STREAM_MAC = 0 →
  runs (tls1_change_cipher_state junk stray p alg2 (change_of client read) h) (λ '(ok, h1), ok = true ∧ started client read (key_block p) h1).
Proof using All.
  intros Ec Eh Em Hb Hl Hs. set (kb := key_block p) in *. destruct key_bits as [Hk0 Hk8]. destruct (d_block (md := d) (H := H)) as [Hd1 Hd2].
  unfold key_block_len, fixed_iv_len in Hl. cbn [c_flags c_key_len iv_len EVP_aes_cbc BLOCK_CIPHER_generic] in Hl.
  change (Z.land (Z.lor EVP_CIPH_FLAG_DEFAULT_ASN1 EVP_CIPH_CBC_MODE) EVP_CIPH_MODE =? EVP_CIPH_GCM_MODE) with false in Hl. cbv iota in Hl.
  unfold tls1_change_cipher_state. rewrite Ec, Em. fold kb.
  change (fixed_iv_len c) with 16. change (c_key_len c) with (keylen / 8).
  assert (negb (Z.land (change_of client read) SSL3_CC_READ =? 0) = read ∧ (change_of client read =? SSL3_CHANGE_CIPHER_CLIENT_WRITE) ||
    (change_of client read =? SSL3_CHANGE_CIPHER_SERVER_READ) = client) as [-> ->] by by destruct client, read.
  rewrite (proj2 (Z.eqb_eq _ (Z.of_nat (length kb)))) by lia. cbn [negb h_enc h_hash h_seq h_stream_mac].
  assert (slice kb (if client then 0 else 0 + ms) ms = mac_part client kb) as -> by (by destruct client).
  assert (slice kb (if client then 2 * ms else 2 * ms + keylen / 8) (keylen / 8) = key_part client kb) as ->
    by (unfold key_part; destruct client; [by rewrite Z.add_0_r|done]).
  assert (slice kb (if client then 2 * ms + 2 * (keylen / 8) else 2 * ms + 2 * (keylen / 8) + 16) 16 = iv_part client kb) as ->
    by (unfold iv_part; destruct client; [by rewrite Z.add_0_r|done]).
  assert (block (iv_part client kb)) as Hv.
  { split; [by apply slice_bytes|]. assert (Z.of_nat (length (iv_part client kb)) = 16) by (apply slice_length; destruct client; lia). lia. }
  assert (Z.of_nat (length (mac_part client kb)) = ms) as Hml by (apply slice_length; destruct client; lia).
  assert (bytes (mac_part client kb) ∧ bytes (key_part client kb)) as [Hmb Hub] by (split; by apply slice_bytes).
  unfold tls1_change_cipher_state_cipher. rewrite Ec, Eh, Hs. cbn [h_seq h_secret Z.eqb negb].
  eapply runs_check; [apply succeeds_alloc|]. intros _ _. eapply runs_check; [apply succeeds_alloc|]. intros _ _.
  change ((Z.land (c_flags c) EVP_CIPH_MODE =? EVP_CIPH_GCM_MODE) || negb (Z.land (c_flags c) EVP_CIPH_FLAG_AEAD_CIPHER =? 0)) with false. cbv iota.
  set (e := if read then 0 else 1). eapply runs_bind; [by apply (start_cipher_runs (key_part client kb) (iv_part client kb) e); [..|destruct read; [left|right]]|].
  intros ctx <-. eapply runs_check; [apply EVP_PKEY_new_mac_key_spec; lia|]. intros k ->. rewrite Nat2Z.id, firstn_all.
  eapply runs_bind; [apply runs_succeeds, (EVP_DigestSignInit_spec junk stray d rep H Hjunk Hstray (mac_part client kb)); split; [done|lia]|].
  intros [[|] m] (m' & V & Hm'); [|done]. injection V as ->. apply runs_ret. split; [done|]. split; [|done].
  split; [done|]. split; [done|]. split.
  { split; [by destruct read|]. split; [done|]. unfold aes_key. fold e. by destruct read. }
  split; [apply (bool_decide_eq_true_1 _); vm_compute; reflexivity|]. split; [done|]. split; [done|]. split; [done|]. split; [cbn; lia|]. split; [done|].
  by exists m'.
Qed.

(** A writer and a reader of one direction. *)
Lemma started_in_step client kb h h' : bytes kb → Z.of_nat (length kb) = key_block_len c ms → started client false kb h → started client true kb h' →
  in_step d rep H c (cbc_ok 1 (aes_key 1 (key_part client kb))) (cbc_ok 0 (aes_key 0 (key_part client kb))) same_iv (mac_part client kb) h h'.
Proof using All.
  intros Hb Hl [Hw Ew] [Hr Er]. eexists _, _. split; [exact Hw|]. split; [exact Hr|]. split; [|congruence].
  destruct Hw as (_ & _ & (_ & Hv & _) & _). by split_and!.
Qed.
End change.

(** ** The key block *)

Lemma bytes_P_blocks mac seed : (∀ x, bytes (mac x)) → ∀ n A, bytes (P_blocks mac seed n A).
Proof. intros Hm n. induction n as [|n IH]; intros A; [apply Forall_nil_2|]. cbn [P_blocks]. by apply bytes_app. Qed.

Lemma P_hash_shape md rep H `{!Digest md rep H} K seed n : bytes (P_hash (hmac_spec H (block_size md) K) seed n) ∧ length (P_hash (hmac_spec H (block_size md) K) seed n) = n.
Proof.
  destruct (d_block (md := md) (rep := rep) (H := H)) as [Hs _]. split.
  - apply Forall_take, bytes_P_blocks. intros x. apply (d_bytes (H := H)).
  - apply (length_P_hash _ _ _ (Z.to_nat (md_size md))); [|lia]. intros x. pose proof (mac_length md rep H K x). lia.
Qed.

Lemma prf_shape mask prf sec seed n : tls_prf mask prf → bytes (prf sec seed n) ∧ length (prf sec seed n) = n.
Proof.
  destruct 1.
  - destruct (P_hash_shape md5_md _ MD5_rfc (take ((length sec + 1) / 2) sec) seed n) as [Ha La].
    destruct (P_hash_shape sha1_md _ SHA1_fips (drop (length sec - (length sec + 1) / 2) sec) seed n) as [Hb Lb].
    split; [by apply bytes_xor|]. unfold PRF_tls10. rewrite length_xor_bytes. change 64 with (block_size md5_md) at 1.
    change 64 with (block_size sha1_md). lia.
  - apply (P_hash_shape (sha256_md true) _ SHA256_fips).
  - apply (P_hash_shape (sha384_md true) _ SHA384_fips).
Qed.

Section setup.
Context {D : Type} (junk : EVP_MD → HASH_CTX) (stray : HMAC_CTX) (unaligned : list Z → bool) (small x86 : bool) (gost94 : option EVP_MD) (raw : Z → list Z).
Context (Hjunk : roomy junk) (Hstray : length (key stray) = 128%nat) (Hraw : ∀ n, 0 ≤ n → Z.of_nat (length (raw n)) = n).
Context (c : EVP_CIPHER D) (d : EVP_MD) (alg2 : Z) (prf : list Z → list Z → nat → list Z) (Hprf : tls_prf alg2 prf).
Context (sr cr mk : list Z) (Hsr : bytes sr ∧ short_piece sr) (Hcr : bytes cr ∧ short_piece cr) (Hmk : key_ok mk).
Context (Hlen : 0 ≤ key_block_len c (md_size d)).

(** The value of RFC 5246, section 6.3. *)
Definition keys : list Z := prf mk (TLS_MD_KEY_EXPANSION_CONST ++ sr ++ cr) (Z.to_nat (key_block_len c (md_size d))).

(** The state that is ready for [tls1_change_cipher_state]. *)
Definition ready (p : pending D) : Prop := new_sym_enc p = Some c ∧ new_hash p = Some d ∧ new_mac_secret_size p = md_size d ∧ key_block p = keys.

Lemma keys_shape : bytes keys ∧ Z.of_nat (length keys) = key_block_len c (md_size d).
Proof using Hprf Hlen. clear -Hprf Hlen. destruct (prf_shape alg2 prf mk (TLS_MD_KEY_EXPANSION_CONST ++ sr ++ cr) (Z.to_nat (key_block_len c (md_size d))) Hprf) as [? E]. split; [done|]. unfold keys. lia. Qed.

Lemma setup_key_block_runs (p : pending D) insert version enc : key_block p = [] →
  runs (tls1_setup_key_block junk stray unaligned small x86 gost94 raw p (Some (c, d, md_size d)) alg2 sr cr mk insert version enc)
    (λ '(ok, p1), ok = true ∧ ready p1).
Proof using All.
  intros Ek. unfold tls1_setup_key_block. rewrite Ek. cbn [length Z.of_nat Z.eqb negb].
  eapply runs_check; [apply succeeds_alloc|]. intros _ _. eapply runs_check; [apply succeeds_alloc|]. intros _ _.
  set (seeds := [Some TLS_MD_KEY_EXPANSION_CONST; Some sr; Some cr; None; None]).
  assert (seeds_ok seeds) as Hseeds.
  { repeat apply Forall_cons_2; try apply Forall_nil_2; cbn [default]; try done; split; try done; apply (bool_decide_eq_true_1 _); vm_compute; reflexivity. }
  eapply runs_bind; [apply runs_succeeds, (tls1_PRF_spec junk stray unaligned small x86 gost94 Hjunk Hstray seeds Hseeds alg2 prf); [done|done|done|by apply Hraw]|].
  intros [[|] km] (a & V & ->); [|done]. injection V as ->. cbn [negb].
  assert (seed_bytes seeds = TLS_MD_KEY_EXPANSION_CONST ++ sr ++ cr) as -> by (unfold seed_bytes, seeds; cbn; by rewrite !app_nil_r).
  apply runs_ret. done.
Qed.
End setup.

(** ** Theorems *)

(** C3: Two ends with the same master secret and random values come out in step.  With AES in CBC mode and enough memory, both ends
    derive the key block of the RFC from them, and for each direction the writer that
    [tls1_change_cipher_state] starts at one end and the reader it starts at the other have the same MAC secret, are inverse to each
    other and begin at the same sequence number. *)
Theorem tls_keys_in_step junk stray small x86 gost94 unaligned unaligned' raw raw' pth ip keylen Nk d rep H `{!Digest d rep H}
    alg2 prf sr cr mk cipher_alg2 insert version enc (p p' : pending EVP_AES_KEY) mem mem' :
  key_size keylen Nk → roomy junk → length (key stray) = 128%nat →
  (∀ n, 0 ≤ n → Z.of_nat (length (raw n)) = n) → (∀ n, 0 ≤ n → Z.of_nat (length (raw' n)) = n) →
  tls_prf alg2 prf → bytes sr ∧ short_piece sr → bytes cr ∧ short_piece cr → key_ok mk → Z.land cipher_alg2 TLS1_STREAM_MAC = 0 →
  key_block p = [] → key_block p' = [] → plenty mem → plenty mem' →
  let c := EVP_aes_cbc pth ip keylen in
  let setup u r p := tls1_setup_key_block junk stray u small x86 gost94 r p (Some (c, d, md_size d)) alg2 sr cr mk insert version enc in
  let kb := prf mk (TLS_MD_KEY_EXPANSION_CONST ++ sr ++ cr) (Z.to_nat (key_block_len c (md_size d))) in
  ∃ q q' mem1 mem1', setup unaligned raw p mem = Some (true, q, mem1) ∧ setup unaligned' raw' p' mem' = Some (true, q', mem1') ∧
  ∀ client h h' mem2 mem2', plenty mem2 → plenty mem2' →
    let start p read h := tls1_change_cipher_state junk stray p cipher_alg2 (change_of client read) h in
    let u := key_part keylen d client kb in
    ∃ w r mem3 mem3', start q false h mem2 = Some (true, w, mem3) ∧ start q' true h' mem2' = Some (true, r, mem3') ∧
      in_step d rep H c (cbc_ok 1 (aes_key keylen 1 u)) (cbc_ok 0 (aes_key keylen 0 u)) same_iv (mac_part d client kb) w r.
Proof.
  intros Hk Hj Hs Hr Hr' Hprf Hsr Hcr Hmk Hst Ep Ep' Hm Hm' c setup kb. destruct (d_block (md := d) (H := H)) as [Hd1 Hd2].
  assert (0 ≤ key_block_len c (md_size d)) as Hlen.
  { destruct (key_bits keylen Nk Hk) as [? _]. unfold key_block_len. change (fixed_iv_len c) with 16. change (c_key_len c) with (keylen / 8). lia. }
  destruct (keys_shape c d alg2 prf Hprf sr cr mk Hlen) as [Kb Kl]. change (keys c d prf sr cr mk) with kb in Kb, Kl.
  destruct (setup_key_block_runs junk stray unaligned small x86 gost94 raw Hj Hs Hr c d alg2 prf Hprf sr cr mk Hsr Hcr Hmk Hlen p insert version enc Ep mem Hm)
    as ([b q] & mem1 & E1 & _ & -> & (A1 & A2 & A3 & A4)).
  destruct (setup_key_block_runs junk stray unaligned' small x86 gost94 raw' Hj Hs Hr' c d alg2 prf Hprf sr cr mk Hsr Hcr Hmk Hlen p' insert version enc Ep' mem' Hm')
    as ([b q'] & mem1' & E2 & _ & -> & (B1 & B2 & B3 & B4)).
  change (keys c d prf sr cr mk) with kb in A4, B4. exists q, q', mem1, mem1'. split; [exact E1|]. split; [exact E2|].
  intros client h h' mem2 mem2' P2 P2' start u. pose proof (Hj d ltac:(lia)) as Hjd.
  destruct (change_cipher_state_runs junk stray pth ip keylen Nk Hk d rep H Hjd Hs q cipher_alg2 client false h A1 A2 A3 ltac:(by rewrite A4)
    ltac:(by rewrite A4) Hst mem2 P2) as ([b w] & mem3 & E3 & _ & -> & S3).
  destruct (change_cipher_state_runs junk stray pth ip keylen Nk Hk d rep H Hjd Hs q' cipher_alg2 client true h' B1 B2 B3 ltac:(by rewrite B4)
    ltac:(by rewrite B4) Hst mem2' P2') as ([b r] & mem3' & E4 & _ & -> & S4).
  rewrite A4 in S3. rewrite B4 in S4. exists w, r, mem3, mem3'. split; [exact E3|]. split; [exact E4|].
  by apply (started_in_step junk stray pth ip keylen Nk Hk d rep H Hjd Hs client kb).
Qed.

Definition demo_raw (n : Z) : list Z := replicate (Z.to_nat n) 9.
Definition demo_pending : pending EVP_AES_KEY := Pending None None 0 [] false.
Definition demo_half0 : half EVP_AES_KEY := Half None None [] [] false.

Lemma demo_raw_length n : 0 ≤ n → Z.of_nat (length (demo_raw n)) = n.
Proof. intros. unfold demo_raw. rewrite length_replicate. lia. Qed.

Lemma tls_keys_in_step_witness :
  let setup := tls1_setup_key_block demo_junk demo_stray (λ _, true) true false None demo_raw demo_pending
    (Some (demo_cipher, sha1_md, 20)) (Z.lor SSL_HANDSHAKE_MAC_SHA256 TLS1_PRF_SHA256) (replicate 32 1) (replicate 32 2) (replicate 48 3) true 0x303 0x40 in
  ∃ q, (∃ mem1, setup [] = Some (true, q, mem1)) ∧ ∀ client, ∃ w r mem3 mem3',
    tls1_change_cipher_state demo_junk demo_stray q 0 (change_of client false) demo_half0 [] = Some (true, w, mem3) ∧
    tls1_change_cipher_state demo_junk demo_stray q 0 (change_of client true) demo_half0 [] = Some (true, r, mem3') ∧
    ∃ okE okD K, in_step sha1_md sha1_rep SHA1_fips demo_cipher okE okD same_iv K w r.
Proof.
  intros setup.
  destruct (tls_keys_in_step demo_junk demo_stray true false None (λ _, true) (λ _, true) demo_raw demo_raw Aligned false 128 4 sha1_md sha1_rep SHA1_fips
    (Z.lor SSL_HANDSHAKE_MAC_SHA256 TLS1_PRF_SHA256) (PRF_tls12 SHA256_fips 64) (replicate 32 1) (replicate 32 2) (replicate 48 3) 0 true 0x303 0x40 demo_pending demo_pending [] [])
    as (q & q' & mem1 & mem1' & E1 & E2 & Hc).
  - apply demo_key_size.
  - intros m Hm. unfold demo_junk. cbn [hdata]. rewrite length_replicate. lia.
  - reflexivity.
  - apply demo_raw_length.
  - apply demo_raw_length.
  - apply prf_sha256.
  - split; [apply (bool_decide_eq_true_1 _); vm_compute; reflexivity|reflexivity].
  - split; [apply (bool_decide_eq_true_1 _); vm_compute; reflexivity|reflexivity].
  - split; [apply (bool_decide_eq_true_1 _); vm_compute; reflexivity|reflexivity].
  - reflexivity.
  - reflexivity.
  - reflexivity.
  - apply Forall_nil_2.
  - apply Forall_nil_2.
  - assert (q' = q) as -> by (rewrite E1 in E2; congruence).
    exists q. split; [by exists mem1|]. intros client.
    destruct (Hc client demo_half0 demo_half0 [] []) as (w & r & mem3 & mem3' & E3 & E4 & Hi); [apply Forall_nil_2..|].
    exists w, r, mem3, mem3'. split; [exact E3|]. split; [exact E4|]. by eexists _, _, _.
Defined.

(** ** Out of memory *)

(** When there is no memory for the second buffer, the first call fails, but a second call succeeds with
    a key block that has never been written. *)
Lemma setup_key_block_retry {D} junk stray unaligned small x86 gost94 raw (p : pending D) c d size alg2 sr cr mk insert version enc mem :
  key_block p = [] → raw (key_block_len c size) ≠ [] →
  let setup p := tls1_setup_key_block junk stray unaligned small x86 gost94 raw p (Some (c, d, size)) alg2 sr cr mk insert version enc in
  ∃ q, setup p (true :: false :: mem) = Some (false, q, mem) ∧ setup q mem = Some (true, q, mem) ∧ key_block q = raw (key_block_len c size).
Proof.
  intros Ek Hr setup. subst setup. unfold tls1_setup_key_block. rewrite Ek. eexists. split; [reflexivity|]. cbn [key_block set_block].
  destruct (raw _); [done|]. done.
Qed.

(** Without memory for the context of the MAC, [tls1_change_cipher_state_cipher] reports success with a context that has no digest,
    and the reader then accepts a record without a MAC: here the 3 bytes 104, 105, 33 under the key alone. *)
Definition lacking : list bool := replicate 10 true ++ [false].
Definition demo_ready : pending EVP_AES_KEY := Pending (Some demo_cipher) (Some sha1_md) 20 (seqZ 1 104) false.
Definition unauthenticated : half EVP_AES_KEY :=
  match tls1_change_cipher_state demo_junk demo_stray demo_ready 0 SSL3_CHANGE_CIPHER_SERVER_READ demo_half0 lacking with
  | Some (true, h, _) => h
  | _ => demo_half0
  end.
Definition forged : list Z := cbc_out Aligned false (aes_key 128 1 (seqZ 41 16)) (wk (cbc_context Aligned false (seqZ 41 16) (seqZ 73 16) 128 1))
  (replicate 16 0 ++ [104; 105; 33] ++ replicate 13 12).


(** What [open_record] makes of it: the verdict and the data. *)
Definition opened_forged : option (verdict * list Z) :=
  '(v, _, rec, _) ← open_record demo_junk demo_stray (λ _, true) true false (hash_init [] 0) [] demo_conn unauthenticated 23 32 forged [];
  Some (v, take (Z.to_nat (rec_length rec)) (rec_data rec)).

Example forged_record_accepted : opened_forged = Some (Accept, [104; 105; 33]).
Proof. vm_compute. reflexivity. Qed.
