(* ===== verification/Poly1305.v ===== *)
(** * Poly1305

    Models [crypto/poly1305/poly1305.c] without assembly: the two builds of the accumulator
    ([poly1305_init], [poly1305_blocks], [poly1305_emit] in words of 64 bits with products
    of 128 bits, and in words of 32 bits with products of 64 bits) and the calls
    [CRYPTO_poly1305_init], [_update], [_finish] above them.  The reference is RFC 8439,
    section 2.5.

    Both builds drop the carry out of the last but one word at the end of the reduction
    (the comment there says that it does not overflow).  [loses_w64] and [loses_w32] say
    when that happens; the theorems hold for messages where it does not, and
    [poly1305_wrong_tag] gives one where it does. *)

From S2P Require Import Prelude.

Definition POLY1305_BLOCK_SIZE : Z := 16.
Definition uint128 (z : Z) : Z := z `mod` 2 ^ 128.

(** [w] is the width of [a]. *)
Definition CONSTANT_TIME_CARRY (w a b : Z) : Z := Z.lxor a (Z.lor (Z.lxor a b) (Z.lxor ((a - b) `mod` 2 ^ w) b)) ≫ (w - 1).

Definition U8TOU32 (p : list Z) : Z :=
  Z.lor (Z.lor (Z.lor (Z.land (nthZ p 0) 0xff) (Z.land (nthZ p 1) 0xff ≪ 8)) (Z.land (nthZ p 2) 0xff ≪ 16)) (Z.land (nthZ p 3) 0xff ≪ 24).

(** The loop of [poly1305_blocks] around the body of a build. *)
Fixpoint blocks_loop {A} (body : A → list Z → Z → A) (fuel : nat) (st : A) (inp : list Z) (len padbit : Z) : A :=
  match fuel with
  | O => st
  | S fuel =>
    if POLY1305_BLOCK_SIZE <=? len then blocks_loop body fuel (body st inp padbit) (drop 16 inp) (len - POLY1305_BLOCK_SIZE) padbit
    else st
  end.

(** ** Words of 64 bits *)

Record poly1305_w64 := W64 { h64 : Z * Z * Z; r64 : Z * Z }.

Definition U8TOU64 (p : list Z) : Z :=
  Z.lor (Z.lor (Z.lor (Z.lor (Z.lor (Z.lor (Z.lor (Z.land (nthZ p 0) 0xff) (Z.land (nthZ p 1) 0xff ≪ 8))
    (Z.land (nthZ p 2) 0xff ≪ 16)) (Z.land (nthZ p 3) 0xff ≪ 24)) (Z.land (nthZ p 4) 0xff ≪ 32)) (Z.land (nthZ p 5) 0xff ≪ 40))
    (Z.land (nthZ p 6) 0xff ≪ 48)) (Z.land (nthZ p 7) 0xff ≪ 56).

Definition U64TO8 (v : Z) : list Z :=
  [u8 (Z.land v 0xff); u8 (Z.land (v ≫ 8) 0xff); u8 (Z.land (v ≫ 16) 0xff); u8 (Z.land (v ≫ 24) 0xff);
   u8 (Z.land (v ≫ 32) 0xff); u8 (Z.land (v ≫ 40) 0xff); u8 (Z.land (v ≫ 48) 0xff); u8 (Z.land (v ≫ 56) 0xff)].

Definition poly1305_init_w64 (key : list Z) : poly1305_w64 :=
  W64 (0, 0, 0) (Z.land (U8TOU64 key) 0x0ffffffc0fffffff, Z.land (U8TOU64 (drop 8 key)) 0x0ffffffc0ffffffc).

(** [h += m[i]] *)
Definition add_w64 (h : Z * Z * Z) (inp : list Z) (padbit : Z) : Z * Z * Z :=
  let '(h0, h1, h2) := h in
  let d0 := uint128 (h0 + U8TOU64 inp) in
  let d1 := uint128 (h1 + d0 ≫ 64 + U8TOU64 (drop 8 inp)) in
  (u64 d0, u64 d1, u64 (h2 + u64 (u64 (d1 ≫ 64) + padbit))).

(** [h *= r], and step a) of the reduction. *)
Definition mul_w64 (h : Z * Z * Z) (r0 r1 s1 : Z) : Z * Z * Z :=
  let '(h0, h1, h2) := h in
  let d0 := uint128 (uint128 (h0 * r0) + uint128 (h1 * s1)) in
  let d1 := uint128 (uint128 (uint128 (h0 * r1) + uint128 (h1 * r0)) + u64 (h2 * s1)) in
  let h2 := u64 (h2 * r0) in
  let d1 := uint128 (d1 + d0 ≫ 64) in
  (u64 d0, u64 d1, u64 (h2 + u64 (d1 ≫ 64))).

(** Step b): the words, and the last carry, which is dropped. *)
Definition reduce_w64 (h : Z * Z * Z) : Z * Z * Z :=
  let '(h0, h1, h2) := h in
  let c := u64 (h2 ≫ 2 + Z.land h2 (u64 (Z.lnot 3))) in
  let h2 := Z.land h2 3 in
  let h0 := u64 (h0 + c) in
  let c := CONSTANT_TIME_CARRY 64 h0 c in
  (h0, u64 (h1 + c), h2).

Definition step_w64 (st : poly1305_w64) (inp : list Z) (padbit : Z) : poly1305_w64 :=
  let '(r0, r1) := r64 st in
  let s1 := u64 (r1 + r1 ≫ 2) in
  W64 (reduce_w64 (mul_w64 (add_w64 (h64 st) inp padbit) r0 r1 s1)) (r64 st).

Definition poly1305_blocks_w64 (st : poly1305_w64) (inp : list Z) (len padbit : Z) : poly1305_w64 :=
  blocks_loop step_w64 (Z.to_nat len) st inp len padbit.

Definition poly1305_emit_w64 (st : poly1305_w64) (nonce : list Z) : list Z :=
  let '(h0, h1, h2) := h64 st in
  let t := uint128 (h0 + 5) in
  let g0 := u64 t in
  let t := uint128 (h1 + t ≫ 64) in
  let g1 := u64 t in
  let g2 := u64 (h2 + u64 (t ≫ 64)) in
  let mask := u64 (0 - g2 ≫ 2) in
  let g0 := Z.land g0 mask in
  let g1 := Z.land g1 mask in
  let mask := u64 (Z.lnot mask) in
  let h0 := Z.lor (Z.land h0 mask) g0 in
  let h1 := Z.lor (Z.land h1 mask) g1 in
  let t := uint128 (h0 + nthZ nonce 0 + u64 (nthZ nonce 1 ≪ 32)) in
  let h0 := u64 t in
  let t := uint128 (h1 + nthZ nonce 2 + u64 (nthZ nonce 3 ≪ 32) + t ≫ 64) in
  let h1 := u64 t in
  U64TO8 h0 ++ U64TO8 h1.

(** ** Words of 32 bits *)

Record poly1305_w32 := W32 { h32 : Z * Z * Z * Z * Z; r32 : Z * Z * Z * Z }.

Definition U32TO8 (v : Z) : list Z := [u8 (Z.land v 0xff); u8 (Z.land (v ≫ 8) 0xff); u8 (Z.land (v ≫ 16) 0xff); u8 (Z.land (v ≫ 24) 0xff)].

Definition poly1305_init_w32 (key : list Z) : poly1305_w32 :=
  W32 (0, 0, 0, 0, 0) (Z.land (U8TOU32 key) 0x0fffffff, Z.land (U8TOU32 (drop 4 key)) 0x0ffffffc,
                       Z.land (U8TOU32 (drop 8 key)) 0x0ffffffc, Z.land (U8TOU32 (drop 12 key)) 0x0ffffffc).

Definition add_w32 (h : Z * Z * Z * Z * Z) (inp : list Z) (padbit : Z) : Z * Z * Z * Z * Z :=
  let '(h0, h1, h2, h3, h4) := h in
  let d0 := u64 (h0 + U8TOU32 inp) in
  let d1 := u64 (h1 + d0 ≫ 32 + U8TOU32 (drop 4 inp)) in
  let d2 := u64 (h2 + d1 ≫ 32 + U8TOU32 (drop 8 inp)) in
  let d3 := u64 (h3 + d2 ≫ 32 + U8TOU32 (drop 12 inp)) in
  (u32 d0, u32 d1, u32 d2, u32 d3, u32 (h4 + u32 (u32 (d3 ≫ 32) + padbit))).

Definition mul_w32 (h : Z * Z * Z * Z * Z) (r : Z * Z * Z * Z) (s1 s2 s3 : Z) : Z * Z * Z * Z * Z :=
  let '(h0, h1, h2, h3, h4) := h in
  let '(r0, r1, r2, r3) := r in
  let d0 := u64 (h0 * r0 + h1 * s3 + h2 * s2 + h3 * s1) in
  let d1 := u64 (h0 * r1 + h1 * r0 + h2 * s3 + h3 * s2 + u32 (h4 * s1)) in
  let d2 := u64 (h0 * r2 + h1 * r1 + h2 * r0 + h3 * s3 + u32 (h4 * s2)) in
  let d3 := u64 (h0 * r3 + h1 * r2 + h2 * r1 + h3 * r0 + u32 (h4 * s3)) in
  let h4 := u32 (h4 * r0) in
  let d1 := u64 (d1 + d0 ≫ 32) in
  let d2 := u64 (d2 + d1 ≫ 32) in
  let d3 := u64 (d3 + d2 ≫ 32) in
  (u32 d0, u32 d1, u32 d2, u32 d3, u32 (h4 + u32 (d3 ≫ 32))).

Definition reduce_w32 (h : Z * Z * Z * Z * Z) : Z * Z * Z * Z * Z :=
  let '(h0, h1, h2, h3, h4) := h in
  let c := u32 (h4 ≫ 2 + Z.land h4 (u32 (Z.lnot 3))) in
  let h4 := Z.land h4 3 in
  let h0 := u32 (h0 + c) in
  let c := CONSTANT_TIME_CARRY 32 h0 c in
  let h1 := u32 (h1 + c) in
  let c := CONSTANT_TIME_CARRY 32 h1 c in
  let h2 := u32 (h2 + c) in
  let c := CONSTANT_TIME_CARRY 32 h2 c in
  let h3 := u32 (h3 + c) in
  (h0, h1, h2, h3, h4).

Definition step_w32 (st : poly1305_w32) (inp : list Z) (padbit : Z) : poly1305_w32 :=
  let '(r0, r1, r2, r3) := r32 st in
  let s1 := u32 (r1 + r1 ≫ 2) in
  let s2 := u32 (r2 + r2 ≫ 2) in
  let s3 := u32 (r3 + r3 ≫ 2) in
  W32 (reduce_w32 (mul_w32 (add_w32 (h32 st) inp padbit) (r32 st) s1 s2 s3)) (r32 st).

Definition poly1305_blocks_w32 (st : poly1305_w32) (inp : list Z) (len padbit : Z) : poly1305_w32 :=
  blocks_loop step_w32 (Z.to_nat len) st inp len padbit.

Definition poly1305_emit_w32 (st : poly1305_w32) (nonce : list Z) : list Z :=
  let '(h0, h1, h2, h3, h4) := h32 st in
  let t := u64 (h0 + 5) in
  let g0 := u32 t in
  let t := u64 (h1 + t ≫ 32) in
  let g1 := u32 t in
  let t := u64 (h2 + t ≫ 32) in
  let g2 := u32 t in
  let t := u64 (h3 + t ≫ 32) in
  let g3 := u32 t in
  let g4 := u32 (h4 + u32 (t ≫ 32)) in
  let mask := u32 (0 - g4 ≫ 2) in
  let g0 := Z.land g0 mask in
  let g1 := Z.land g1 mask in
  let g2 := Z.land g2 mask in
  let g3 := Z.land g3 mask in
  let mask := u32 (Z.lnot mask) in
  let h0 := Z.lor (Z.land h0 mask) g0 in
  let h1 := Z.lor (Z.land h1 mask) g1 in
  let h2 := Z.lor (Z.land h2 mask) g2 in
  let h3 := Z.lor (Z.land h3 mask) g3 in
  let t := u64 (h0 + nthZ nonce 0) in
  let h0 := u32 t in
  let t := u64 (h1 + t ≫ 32 + nthZ nonce 1) in
  let h1 := u32 t in
  let t := u64 (h2 + t ≫ 32 + nthZ nonce 2) in
  let h2 := u32 t in
  let t := u64 (h3 + t ≫ 32 + nthZ nonce 3) in
  let h3 := u32 t in
  U32TO8 h0 ++ U32TO8 h1 ++ U32TO8 h2 ++ U32TO8 h3.

(** ** The calls

    [build] is the choice between the two at compile time. *)

Record build := Build {
  internal : Type;
  poly1305_init : list Z → internal;
  poly1305_blocks : internal → list Z → Z → Z → internal;
  poly1305_emit : internal → list Z → list Z
}.
Definition build_w64 : build := Build poly1305_w64 poly1305_init_w64 poly1305_blocks_w64 poly1305_emit_w64.
Definition build_w32 : build := Build poly1305_w32 poly1305_init_w32 poly1305_blocks_w32 poly1305_emit_w32.

Record poly1305_state (B : build) := PolyState { opaque : internal B; nonce : list Z; data : list Z; num : Z }.
Arguments PolyState {B}. Arguments opaque {B}. Arguments nonce {B}. Arguments data {B}. Arguments num {B}.

Section calls.
Context {B : build}.

Definition CRYPTO_poly1305_init (ctx : poly1305_state B) (key : list Z) : poly1305_state B :=
  PolyState (poly1305_init B key) [U8TOU32 (drop 16 key); U8TOU32 (drop 20 key); U8TOU32 (drop 24 key); U8TOU32 (drop 28 key)] (data ctx) 0.

(** From [rem = len % POLY1305_BLOCK_SIZE] on. *)
Definition whole_blocks (ctx : poly1305_state B) (inp : list Z) : poly1305_state B :=
  let len := Z.of_nat (length inp) in
  let rem := len `mod` POLY1305_BLOCK_SIZE in
  let len := len - rem in
  let '(st, inp) := if POLY1305_BLOCK_SIZE <=? len then (poly1305_blocks B (opaque ctx) inp len 1, drop (Z.to_nat len) inp) else (opaque ctx, inp) in
  PolyState st (nonce ctx) (if negb (rem =? 0) then splice (data ctx) 0 (take (Z.to_nat rem) inp) else data ctx) rem.

Definition CRYPTO_poly1305_update (ctx : poly1305_state B) (inp : list Z) : poly1305_state B :=
  let len := Z.of_nat (length inp) in
  let n := num ctx in
  if negb (n =? 0) then
    let rem := POLY1305_BLOCK_SIZE - n in
    if rem <=? len then
      let d := splice (data ctx) (Z.to_nat n) (take (Z.to_nat rem) inp) in
      whole_blocks (PolyState (poly1305_blocks B (opaque ctx) d POLY1305_BLOCK_SIZE 1) (nonce ctx) d n) (drop (Z.to_nat rem) inp)
    else PolyState (opaque ctx) (nonce ctx) (splice (data ctx) (Z.to_nat n) inp) (n + len)
  else whole_blocks ctx inp.

Fixpoint pad_loop (fuel : nat) (d : list Z) (n : Z) : list Z :=
  match fuel with
  | O => d
  | S fuel => if n <? POLY1305_BLOCK_SIZE then pad_loop fuel (setb d n 0) (n + 1) else d
  end.

(** The tag; the state is wiped. *)
Definition CRYPTO_poly1305_finish (ctx : poly1305_state B) : list Z :=
  let n := num ctx in
  let st := if negb (n =? 0) then poly1305_blocks B (opaque ctx) (pad_loop 16 (setb (data ctx) n 1) (n + 1)) POLY1305_BLOCK_SIZE 0
            else opaque ctx in
  poly1305_emit B st (nonce ctx).
End calls.

(** ** Specification *)

Definition P1305 : Z := 2 ^ 130 - 5.
Definition clamp (r : Z) : Z := Z.land r 0x0ffffffc0ffffffc0ffffffc0fffffff.

Fixpoint cut16 (fuel : nat) (m : list Z) : list (list Z) :=
  match fuel, m with
  | S fuel, _ :: _ => take 16 m :: cut16 fuel (drop 16 m)
  | _, _ => []
  end.
(** The message in blocks of 16 bytes, the last may be shorter. *)
Definition blocks16 (m : list Z) : list (list Z) := cut16 (length m) m.

(** A block as a number, with a one behind its last byte. *)
Definition block_num (b : list Z) : Z := le_load (b ++ [1]).
Definition poly_acc (r : Z) (bs : list (list Z)) : Z := foldl (λ a b, ((a + block_num b) * r) `mod` P1305) 0 bs.
Definition poly1305 (key m : list Z) : list Z :=
  le_store 16 (poly_acc (clamp (le_load (take 16 key))) (blocks16 m) + le_load (take 16 (drop 16 key))).

(** ** What the two builds promise *)

Class PolyBuild (B : build) := {
  step : internal B → list Z → Z → internal B;
  loses : internal B → list Z → Z → bool;
  acc_val : internal B → Z;
  r_val : internal B → Z;
  ok : internal B → Prop;
  blocks_end st inp len pad : len < 16 → poly1305_blocks B st inp len pad = st;
  blocks_step st inp len pad : 16 ≤ len → poly1305_blocks B st inp len pad = poly1305_blocks B (step st inp pad) (drop 16 inp) (len - 16) pad;
  step_take st inp pad : step st inp pad = step st (take 16 inp) pad;
  init_ok key : bytes key → (16 ≤ length key)%nat →
    ok (poly1305_init B key) ∧ acc_val (poly1305_init B key) = 0 ∧ r_val (poly1305_init B key) = clamp (le_load (take 16 key));
  step_ok st b pad : ok st → bytes b → length b = 16%nat → 0 ≤ pad ≤ 1 → ok (step st b pad) ∧ r_val (step st b pad) = r_val st ∧
    (loses st b pad = false → acc_val (step st b pad) `mod` P1305 = ((acc_val st + le_load b + pad * 2 ^ 128) * r_val st) `mod` P1305);
  emit_ok st n : ok st → bytes n → length n = 16%nat →
    poly1305_emit B st [U8TOU32 n; U8TOU32 (drop 4 n); U8TOU32 (drop 8 n); U8TOU32 (drop 12 n)] = le_store 16 (acc_val st `mod` P1305 + le_load n)
}.

(** ** Words *)

Lemma land_ff b : is_byte b → Z.land b 0xff = b.
Proof. intros Hb. change 0xff with (Z.ones 8). rewrite Z.land_ones by lia. by apply Z.mod_small. Qed.

Ltac split_bytes H := repeat (let Hx := fresh "Hx" in apply bytes_cons_inv in H as [Hx H]).

Lemma U8TOU32_load p : bytes p → (4 ≤ length p)%nat → U8TOU32 p = le_load (take 4 p).
Proof. intros Hp Hl. unfold U8TOU32. rewrite !land_ff by auto with vtls. by apply lor4_load. Qed.

Lemma U8TOU64_load p : bytes p → (8 ≤ length p)%nat → U8TOU64 p = le_load (take 8 p).
Proof.
  intros Hp Hl. destruct p as [|a [|b [|c [|d [|e [|f [|g [|h p]]]]]]]]; try (cbn in Hl; lia). split_bytes Hp.
  cbn [take]. rewrite take_0, !le_load_cons, le_load_nil by done.
  unfold U8TOU64, nthZ. cbn [nth]. rewrite !land_ff by done. unfold is_byte in *.
  rewrite (lor_add a b 8), (lor_add _ c 16), (lor_add _ d 24), (lor_add _ e 32), (lor_add _ f 40), (lor_add _ g 48), (lor_add _ h 56) by lia. lia.
Qed.

Lemma u8_land v : u8 (Z.land v 0xff) = u8 v.
Proof. change 0xff with (Z.ones 8). rewrite Z.land_ones by lia. apply Z.mod_mod. done. Qed.

Lemma U64TO8_store v : U64TO8 v = le_store 8 v.
Proof. unfold U64TO8. rewrite !u8_land, !le_store_S, !Z.shiftr_shiftr by lia. done. Qed.

Lemma U32TO8_store v : U32TO8 v = le_store 4 v.
Proof. unfold U32TO8. rewrite !u8_land, !le_store_S, !Z.shiftr_shiftr by lia. done. Qed.

Lemma top_bit w z : 0 < w → 0 ≤ z < 2 ^ w → Z.testbit z (w - 1) = (2 ^ (w - 1) <=? z) ∧ z ≫ (w - 1) = Z.b2z (Z.testbit z (w - 1)).
Proof.
  intros Hw Hz. assert (2 ^ w = 2 * 2 ^ (w - 1)) as E by (rewrite <- Z.pow_succ_r by lia; f_equal; lia). assert (0 < 2 ^ (w - 1)) by (apply Z.pow_pos_nonneg; lia).
  rewrite Z.testbit_eqb, Z.shiftr_div_pow2 by lia. destruct (Z.leb_spec (2 ^ (w - 1)) z).
  - assert (z / 2 ^ (w - 1) = 1) as -> by (symmetry; apply (Z.div_unique _ _ 1 (z - 2 ^ (w - 1))); lia). done.
  - by rewrite Z.div_small by lia.
Qed.

Lemma carry_spec w a b : 0 < w → 0 ≤ a < 2 ^ w → 0 ≤ b < 2 ^ w → CONSTANT_TIME_CARRY w a b = Z.b2z (a <? b).
Proof.
  intros Hw Ha Hb. unfold CONSTANT_TIME_CARRY. set (d := (a - b) `mod` 2 ^ w). assert (0 ≤ d < 2 ^ w) as Hd by (apply Z.mod_pos_bound; lia).
  assert (d = if a <? b then a - b + 2 ^ w else a - b) as Ed.
  { unfold d. destruct (Z.ltb_spec a b); [symmetry; apply (Z.mod_unique _ _ (-1)); lia|apply Z.mod_small; lia]. }
  assert (2 ^ w = 2 * 2 ^ (w - 1)) as E by (rewrite <- Z.pow_succ_r by lia; f_equal; lia).
  rewrite (proj2 (top_bit w _ Hw (lxor_bound w _ _ ltac:(lia) Ha (lor_bound w _ _ ltac:(lia) (lxor_bound w _ _ ltac:(lia) Ha Hb) (lxor_bound w _ _ ltac:(lia) Hd Hb))))).
  f_equal. rewrite !Z.lxor_spec, Z.lor_spec, !Z.lxor_spec. rewrite !(λ z H, proj1 (top_bit w z Hw H)) by done. rewrite Ed.
  destruct (Z.ltb_spec a b); repeat match goal with |- context [?x <=? ?y] => destruct (Z.leb_spec x y) end; cbn; lia.
Qed.

Lemma uint128_small z : 0 ≤ z < 2 ^ 128 → uint128 z = z.
Proof. apply Z.mod_small. Qed.

(** A double word and its halves. *)
Lemma halves64 z : 0 ≤ z → z = u64 z + 2 ^ 64 * (z ≫ 64) ∧ 0 ≤ u64 z < 2 ^ 64 ∧ 0 ≤ z ≫ 64.
Proof. intros Hz. rewrite Z.shiftr_div_pow2 by lia. unfold u64. Z.div_mod_to_equations. lia. Qed.
Lemma halves32 z : 0 ≤ z → z = u32 z + 2 ^ 32 * (z ≫ 32) ∧ 0 ≤ u32 z < 2 ^ 32 ∧ 0 ≤ z ≫ 32.
Proof. intros Hz. rewrite Z.shiftr_div_pow2 by lia. unfold u32. Z.div_mod_to_equations. lia. Qed.

Lemma mul_range a b x y : 0 ≤ a ≤ x → 0 ≤ b ≤ y → 0 ≤ a * b ≤ x * y.
Proof. intros. split; [apply Z.mul_nonneg_nonneg; lia|apply Z.mul_le_mono_nonneg; lia]. Qed.

(** [5 * (x / 4)], as the reduction writes it. *)
Lemma fold_top w x : 3 ≤ w → 0 ≤ x < 2 ^ w → x ≫ 2 + Z.land x (Z.lnot 3 `mod` 2 ^ w) = 5 * (x / 4) ∧ Z.land x 3 = x mod 4.
Proof.
  intros Hw Hx. change 3 with (Z.ones 2). rewrite Z.land_ones by lia. split; [|done]. rewrite Z.shiftr_div_pow2 by lia. change (2 ^ 2) with 4.
  assert (Z.land x (Z.lnot (Z.ones 2) `mod` 2 ^ w) = 4 * (x / 4)) as ->; [|lia].
  rewrite <- Z.land_ones, Z.land_assoc by lia. rewrite <- Z.ldiff_land, Z.ldiff_ones_r by lia. rewrite Z.land_ones by lia.
  rewrite Z.shiftl_mul_pow2, Z.shiftr_div_pow2 by lia. change (2 ^ 2) with 4. rewrite Z.mod_small; [lia|]. Z.div_mod_to_equations. lia.
Qed.

(** Sixteen bytes in words. *)
Lemma load_words32 p : bytes p → (16 ≤ length p)%nat →
  le_load (take 16 p) = U8TOU32 p + 2 ^ 32 * U8TOU32 (drop 4 p) + 2 ^ 64 * U8TOU32 (drop 8 p) + 2 ^ 96 * U8TOU32 (drop 12 p) ∧
  0 ≤ U8TOU32 p < 2 ^ 32 ∧ 0 ≤ U8TOU32 (drop 4 p) < 2 ^ 32 ∧ 0 ≤ U8TOU32 (drop 8 p) < 2 ^ 32 ∧ 0 ≤ U8TOU32 (drop 12 p) < 2 ^ 32.
Proof.
  intros Hp Hl. rewrite !U8TOU32_load by (auto with vtls; rewrite ?length_drop; lia).
  assert (∀ k, (k ≤ 12)%nat → 0 ≤ le_load (take 4 (drop k p)) < 2 ^ 32) as HB.
  { intros k Hk. apply (le_load_take_bound 4); [auto with vtls|rewrite length_drop; lia]. }
  split; [|split_and!; first [apply (HB 0%nat); lia|apply HB; lia]]. change 16%nat with (4 + (4 + (4 + 4)))%nat.
  rewrite !le_load_split, !drop_drop by (auto with vtls; rewrite ?length_drop; lia). cbn [Nat.add]. lia.
Qed.

(** ** Words of 64 bits: correctness *)

Definition val64 (h : Z * Z * Z) : Z := let '(h0, h1, h2) := h in h0 + 2 ^ 64 * h1 + 2 ^ 128 * h2.
Definition words64 (top : Z) (h : Z * Z * Z) : Prop := let '(h0, h1, h2) := h in 0 ≤ h0 < 2 ^ 64 ∧ 0 ≤ h1 < 2 ^ 64 ∧ 0 ≤ h2 < top.

Lemma add_w64_spec h b pad : words64 4 h → bytes b → length b = 16%nat → 0 ≤ pad ≤ 1 →
  words64 6 (add_w64 h b pad) ∧ val64 (add_w64 h b pad) = val64 h + le_load b + pad * 2 ^ 128.
Proof.
  destruct h as [[h0 h1] h2]. intros (H0 & H1 & H2) Hb Hl Hp. unfold add_w64.
  assert (le_load b = U8TOU64 b + 2 ^ 64 * U8TOU64 (drop 8 b)) as ->.
  { rewrite !U8TOU64_load by (auto with vtls; rewrite ?length_drop; lia). rewrite <- (le_load_split 8 8) by (done || lia). by rewrite take_ge by lia. }
  assert (0 ≤ U8TOU64 b < 2 ^ 64) as Hm0 by (rewrite U8TOU64_load by (done || lia); by apply (le_load_take_bound 8); [|lia]).
  assert (0 ≤ U8TOU64 (drop 8 b) < 2 ^ 64) as Hm1.
  { rewrite U8TOU64_load by (auto with vtls; rewrite length_drop; lia). apply (le_load_take_bound 8); [auto with vtls|rewrite length_drop; lia]. }
  rewrite (uint128_small (h0 + _)) by lia. destruct (halves64 (h0 + U8TOU64 b)) as (E0 & B0 & C0); [lia|].
  rewrite uint128_small by lia. set (d1 := h1 + _ + _). destruct (halves64 d1) as (E1 & B1 & C1); [lia|].
  assert (d1 ≫ 64 ≤ 1) by lia. rewrite (u64_small (d1 ≫ 64)), (u64_small (_ + pad)), (u64_small (h2 + _)) by lia.
  unfold words64, val64. lia.
Qed.

Lemma mul_w64_spec h r0 q : words64 6 h → 0 ≤ r0 < 2 ^ 60 → 0 ≤ q < 2 ^ 58 → let x := mul_w64 h r0 (4 * q) (5 * q) in
  words64 (9 * 2 ^ 60) x ∧ ∃ k, val64 x + k * P1305 = val64 h * (r0 + 2 ^ 64 * (4 * q)).
Proof.
  destruct h as [[h0 h1] h2]. intros (H0 & H1 & H2) Hr Hq x. unfold mul_w64 in x.
  pose proof (mul_range h0 r0 (2 ^ 64 - 1) (2 ^ 60 - 1) ltac:(lia) ltac:(lia)) as M00. pose proof (mul_range h1 r0 (2 ^ 64 - 1) (2 ^ 60 - 1) ltac:(lia) ltac:(lia)) as M10.
  pose proof (mul_range h2 r0 5 (2 ^ 60 - 1) ltac:(lia) ltac:(lia)) as M20. pose proof (mul_range h0 q (2 ^ 64 - 1) (2 ^ 58 - 1) ltac:(lia) ltac:(lia)) as N0.
  pose proof (mul_range h1 q (2 ^ 64 - 1) (2 ^ 58 - 1) ltac:(lia) ltac:(lia)) as N1. pose proof (mul_range h2 q 5 (2 ^ 58 - 1) ltac:(lia) ltac:(lia)) as N2.
  assert (h0 * (4 * q) = 4 * (h0 * q) ∧ h1 * (5 * q) = 5 * (h1 * q) ∧ h2 * (5 * q) = 5 * (h2 * q)) as (Q0 & Q1 & Q2) by lia.
  revert x. rewrite Q0, Q1, Q2. rewrite (uint128_small (h0 * r0)), (uint128_small (5 * _)), (uint128_small (h0 * r0 + _)) by lia.
  rewrite (uint128_small (4 * _)), (uint128_small (h1 * r0)), (u64_small (5 * _)), (uint128_small (4 * _ + _)), (uint128_small (4 * _ + _ + _)), (u64_small (h2 * r0)) by lia.
  destruct (halves64 (h0 * r0 + 5 * (h1 * q))) as (E0 & B0 & C0); [lia|]. set (d0 := h0 * r0 + _) in *.
  rewrite uint128_small by lia. set (d1 := _ + d0 ≫ 64). destruct (halves64 d1) as (E1 & B1 & C1); [unfold d1; lia|].
  assert (d1 ≫ 64 < 2 ^ 62) by (unfold d1 in *; lia). rewrite (u64_small (d1 ≫ 64)), (u64_small (_ + d1 ≫ 64)) by lia. intros x.
  split; [unfold x, words64; lia|]. exists (h1 * q + 2 ^ 64 * (h2 * q)). unfold x, val64, P1305.
  assert (u64 d0 + 2 ^ 64 * u64 d1 + 2 ^ 128 * (h2 * r0 + d1 ≫ 64) = d0 + 2 ^ 64 * (4 * (h0 * q) + h1 * r0 + 5 * (h2 * q)) + 2 ^ 128 * (h2 * r0)) as -> by (unfold d1 in *; lia).
  unfold d0. ring.
Qed.

Definition lost64 (x : Z * Z * Z) : bool := let '(x0, x1, x2) := x in (x1 =? 2 ^ 64 - 1) && (2 ^ 64 <=? x0 + 5 * (x2 / 4)).

Lemma reduce_w64_spec x : words64 (9 * 2 ^ 60) x →
  words64 4 (reduce_w64 x) ∧ ∃ k, val64 (reduce_w64 x) + k * P1305 = val64 x - (if lost64 x then 2 ^ 128 else 0).
Proof.
  destruct x as [[x0 x1] x2]. intros (H0 & H1 & H2). unfold reduce_w64. destruct (fold_top 64 x2 ltac:(lia) ltac:(lia)) as [E1 E2].
  change (u64 (Z.lnot 3)) with (Z.lnot 3 `mod` 2 ^ 64). rewrite E1, E2. set (c := 5 * (x2 / 4)). assert (0 ≤ c < 2 ^ 64) as Hc by (unfold c; Z.div_mod_to_equations; lia).
  rewrite (u64_small c) by done. destruct (halves64 (x0 + c)) as (E3 & B3 & C3); [lia|]. rewrite carry_spec by (done || lia).
  assert (Z.b2z (u64 (x0 + c) <? c) = (x0 + c) ≫ 64) as ->.
  { destruct (Z.ltb_spec (u64 (x0 + c)) c); cbn [Z.b2z]; lia. }
  destruct (halves64 (x1 + (x0 + c) ≫ 64)) as (E4 & B4 & C4); [lia|].
  split; [unfold words64; Z.div_mod_to_equations; lia|]. exists (x2 / 4). unfold val64, P1305, lost64. fold c.
  assert ((x1 + (x0 + c) ≫ 64) ≫ 64 = if (x1 =? 2 ^ 64 - 1) && (2 ^ 64 <=? x0 + c) then 1 else 0) as E5.
  { destruct (Z.eqb_spec x1 (2 ^ 64 - 1)), (Z.leb_spec (2 ^ 64) (x0 + c)); cbn [andb]; lia. }
  pose proof (Z.div_mod x2 4 ltac:(lia)) as E6. unfold c in *. destruct (_ && _); lia.
Qed.

Lemma land_split n lo hi mlo mhi : 0 ≤ n → 0 ≤ lo < 2 ^ n → 0 ≤ mlo < 2 ^ n →
  Z.land (lo + 2 ^ n * hi) (mlo + 2 ^ n * mhi) = Z.land lo mlo + 2 ^ n * Z.land hi mhi.
Proof.
  intros Hn Hlo Hm. rewrite !(Z.mul_comm (2 ^ n)), <- !lor_add by (done || (apply land_bound; lia)). apply Z.bits_inj'. intros i Hi.
  rewrite Z.land_spec, !Z.lor_spec, !Z.land_spec. destruct (Z.lt_ge_cases i n) as [H|H].
  - rewrite !(Z.shiftl_spec_low _ n i) by done. by rewrite !orb_false_r.
  - apply bounded_bits in Hlo as [_ Hlo], Hm as [_ Hm]; [|done..]. rewrite Hlo, Hm, !Z.shiftl_spec, Z.land_spec by lia. done.
Qed.

Lemma land_quarter k m : 0 ≤ m → m mod 4 = 0 → Z.land k m = 4 * (Z.land k m / 4).
Proof.
  intros Hm H4. assert (Z.land k m mod 4 = 0) as E; [|pose proof (Z.div_mod (Z.land k m) 4); lia].
  change 4 with (2 ^ 2) in *. rewrite <- Z.land_ones in * by lia. by rewrite <- Z.land_assoc, H4, Z.land_0_r.
Qed.

Lemma quarter_add k : 0 ≤ k → 4 * k + (4 * k) ≫ 2 = 5 * k.
Proof. intros. rewrite Z.shiftr_div_pow2 by lia. change (2 ^ 2) with 4. rewrite Z.mul_comm, Z.div_mul by lia. lia. Qed.

(** The numbers [r] a key can give. *)
Definition ok64 (st : poly1305_w64) : Prop := words64 4 (h64 st) ∧ 0 ≤ (r64 st).1 < 2 ^ 60 ∧ 0 ≤ (r64 st).2 < 2 ^ 60 ∧ (r64 st).2 = 4 * ((r64 st).2 / 4).

Lemma init_w64 key : bytes key → (16 ≤ length key)%nat → let st := poly1305_init_w64 key in
  ok64 st ∧ val64 (h64 st) = 0 ∧ (r64 st).1 + 2 ^ 64 * (r64 st).2 = clamp (le_load (take 16 key)).
Proof.
  intros Hk Hl st. unfold st, poly1305_init_w64, ok64. cbn [h64 r64 fst snd].
  rewrite !U8TOU64_load by (auto with vtls; rewrite ?length_drop; lia).
  pose proof (le_load_take_bound 8 key Hk ltac:(lia)) as B0. pose proof (le_load_take_bound 8 (drop 8 key) ltac:(auto with vtls) ltac:(rewrite length_drop; lia)) as B1.
  split; [|split; [done|]].
  - split; [cbn; lia|]. split; [apply land_bound; lia|]. split; [apply land_bound; lia|]. by apply land_quarter.
  - unfold clamp. change (take 16 key) with (take (8 + 8) key). rewrite (le_load_split 8 8 key) by (done || lia).
    change 0x0ffffffc0ffffffc0ffffffc0fffffff with (0x0ffffffc0fffffff + 2 ^ (8 * Z.of_nat 8) * 0x0ffffffc0ffffffc). by rewrite land_split by lia.
Qed.

Definition loses_w64 (st : poly1305_w64) (b : list Z) (pad : Z) : bool :=
  let '(r0, r1) := r64 st in lost64 (mul_w64 (add_w64 (h64 st) b pad) r0 r1 (u64 (r1 + r1 ≫ 2))).

Lemma step_w64_ok st b pad : ok64 st → bytes b → length b = 16%nat → 0 ≤ pad ≤ 1 → let st' := step_w64 st b pad in
  ok64 st' ∧ r64 st' = r64 st ∧
  (loses_w64 st b pad = false → val64 (h64 st') `mod` P1305 = ((val64 (h64 st) + le_load b + pad * 2 ^ 128) * ((r64 st).1 + 2 ^ 64 * (r64 st).2)) `mod` P1305).
Proof.
  destruct st as [h [r0 r1]]. intros (Hh & H0 & H1 & H4) Hb Hl Hp. unfold step_w64, loses_w64, ok64. cbn [h64 r64 fst snd] in *. set (q := r1 / 4) in *.
  rewrite H4 in *. clearbody q. rewrite quarter_add, u64_small by lia. destruct (add_w64_spec h b pad Hh Hb Hl Hp) as [A1 A2]. set (a := add_w64 h b pad) in *.
  destruct (mul_w64_spec a r0 q A1 H0 ltac:(lia)) as (M1 & k1 & M2). set (x := mul_w64 a _ _ _) in *. destruct (reduce_w64_spec x M1) as (R1 & k2 & R2).
  split; [split; [done|]; split; [done|]; split; [done|]; clear; Z.div_mod_to_equations; lia|]. split; [done|]. intros Hlost. rewrite Hlost in R2. rewrite A2 in M2.
  rewrite <- M2. symmetry. replace (val64 x + k1 * P1305) with (val64 (reduce_w64 x) + (k1 + k2) * P1305) by lia. apply Z.mod_add. done.
Qed.

Lemma mask_spec w b : 0 < w → 0 ≤ b ≤ 1 → (0 - b) `mod` 2 ^ w = b * (2 ^ w - 1) ∧ (Z.lnot (b * (2 ^ w - 1))) `mod` 2 ^ w = (1 - b) * (2 ^ w - 1).
Proof.
  intros Hw Hb. assert (1 < 2 ^ w) by (apply Z.pow_gt_1; lia). unfold Z.lnot. destruct (Z.eq_dec b 0) as [->|]; [|assert (b = 1) as -> by lia].
  - split; [by rewrite Z.mod_0_l by lia|]. symmetry. apply (Z.mod_unique _ _ (-1)); lia.
  - split; symmetry; apply (Z.mod_unique _ _ (-1)); lia.
Qed.

(** The choice between [h] and [g] by the mask. *)
Lemma select_spec w b x g : 0 < w → 0 ≤ b ≤ 1 → 0 ≤ x < 2 ^ w → 0 ≤ g < 2 ^ w →
  Z.lor (Z.land x ((1 - b) * (2 ^ w - 1))) (Z.land g (b * (2 ^ w - 1))) = if b =? 1 then g else x.
Proof.
  intros Hw Hb Hx Hg. assert (∀ z, 0 ≤ z < 2 ^ w → Z.land z (2 ^ w - 1) = z) as E.
  { intros z Hz. rewrite Z.sub_1_r, <- Z.ones_equiv, Z.land_ones by lia. by apply Z.mod_small. }
  destruct (Z.eq_dec b 0) as [->|]; [|assert (b = 1) as -> by lia]; cbn [Z.eqb]; rewrite ?Z.sub_0_r, ?Z.sub_diag, ?Z.mul_0_l, ?Z.mul_1_l, ?Z.land_0_r, E by done;
    [apply Z.lor_0_r|apply Z.lor_0_l].
Qed.

(** The final subtraction: [g] is [h + 5] without its top word. *)
Lemma final_sub v g lo : 0 ≤ v < 2 ^ 130 → v + 5 = g + 2 ^ 128 * lo → 0 ≤ g < 2 ^ 128 → ∃ k, v mod P1305 = (if lo / 4 =? 1 then g else v) + k * 2 ^ 128.
Proof.
  intros Hv E Hg. unfold P1305. exists 0. destruct (Z.eqb_spec (lo / 4) 1) as [H|H].
  - assert (4 ≤ lo) by (Z.div_mod_to_equations; lia). symmetry. apply (Z.mod_unique _ _ 1); lia.
  - rewrite Z.mod_small; [lia|]. assert (lo < 4) by (Z.div_mod_to_equations; lia). lia.
Qed.

Lemma emit_w64 st n : ok64 st → bytes n → length n = 16%nat →
  poly1305_emit_w64 st [U8TOU32 n; U8TOU32 (drop 4 n); U8TOU32 (drop 8 n); U8TOU32 (drop 12 n)] = le_store 16 (val64 (h64 st) `mod` P1305 + le_load n).
Proof.
  destruct st as [[[h0 h1] h2] r]. intros [(H0 & H1 & H2) _] Hn Hl. cbn [h64 val64] in *. unfold poly1305_emit_w64, nthZ. cbn [h64 nth].
  destruct (load_words32 n Hn ltac:(lia)) as (L & N0 & N1 & N2 & N3). rewrite take_ge in L by lia. rewrite L.
  set (n0 := U8TOU32 n) in *. set (n1 := U8TOU32 (drop 4 n)) in *. set (n2 := U8TOU32 (drop 8 n)) in *. set (n3 := U8TOU32 (drop 12 n)) in *. clearbody n0 n1 n2 n3.
  rewrite !(uint128_small (h0 + 5)) by lia. destruct (halves64 (h0 + 5)) as (E0 & B0 & C0); [lia|]. set (t0 := (h0 + 5) ≫ 64) in *. rewrite !(uint128_small (h1 + t0)) by lia.
  destruct (halves64 (h1 + t0)) as (E1 & B1 & C1); [lia|]. set (t1 := (h1 + t0) ≫ 64) in *. set (g0 := u64 (h0 + 5)) in *. set (g1 := u64 (h1 + t0)) in *.
  rewrite !(u64_small t1), !(u64_small (h2 + t1)) by lia. rewrite (Z.shiftr_div_pow2 (h2 + t1)) by lia. change (2 ^ 2) with 4.
  assert (0 ≤ (h2 + t1) / 4 ≤ 1) as Hb by (Z.div_mod_to_equations; lia). destruct (mask_spec 64 ((h2 + t1) / 4) ltac:(lia) Hb) as [K1 K2].
  change (u64 (0 - (h2 + t1) / 4)) with ((0 - (h2 + t1) / 4) `mod` 2 ^ 64). rewrite K1. change (u64 (Z.lnot ?x)) with (Z.lnot x `mod` 2 ^ 64).
  rewrite K2, !select_spec by (done || lia).
  set (b := (h2 + t1) / 4 =? 1) in *. destruct (final_sub (h0 + 2 ^ 64 * h1 + 2 ^ 128 * h2) (g0 + 2 ^ 64 * g1) (h2 + t1)) as [k Ek]; [lia..|].
  assert (∃ k', (h0 + 2 ^ 64 * h1 + 2 ^ 128 * h2) `mod` P1305 =
    (if b then g0 else h0) + 2 ^ 64 * (if b then g1 else h1) + k' * 2 ^ 128) as [k' Ek'].
  { exists (if b then k else k + h2). rewrite Ek. fold b. destruct b; lia. }
  rewrite Ek'. set (f0 := if b then g0 else h0) in *. set (f1 := if b then g1 else h1) in *.
  assert (0 ≤ f0 < 2 ^ 64 ∧ 0 ≤ f1 < 2 ^ 64) as [F0 F1] by (unfold f0, f1; by destruct b). clearbody f0 f1.
  rewrite !Z.shiftl_mul_pow2, (u64_small (n1 * _)), (u64_small (n3 * _)), (uint128_small (f0 + _ + _)) by lia.
  destruct (halves64 (f0 + n0 + n1 * 2 ^ 32)) as (E2 & B2 & C2); [lia|]. set (c2 := (f0 + n0 + n1 * 2 ^ 32) ≫ 64) in *. rewrite uint128_small by lia.
  destruct (halves64 (f1 + n2 + n3 * 2 ^ 32 + c2)) as (E3 & B3 & C3); [lia|]. rewrite !U64TO8_store, (le_store_app 8 8) by done.
  change (8 * Z.of_nat 8) with 64. apply (le_store_cong 16 _ _ (- ((f1 + n2 + n3 * 2 ^ 32 + c2) ≫ 64) - k')). change (8 * Z.of_nat 16) with 128. lia.
Qed.

Lemma loop_end {A} (body : A → list Z → Z → A) st inp len pad : len < 16 → blocks_loop body (Z.to_nat len) st inp len pad = st.
Proof. intros Hl. destruct (Z.to_nat len); [done|]. cbn [blocks_loop]. by rewrite (proj2 (Z.leb_gt _ _)) by (unfold POLY1305_BLOCK_SIZE; lia). Qed.

Lemma loop_fuel {A} (body : A → list Z → Z → A) f : ∀ f' st inp len pad, len ≤ Z.of_nat f → len ≤ Z.of_nat f' →
  blocks_loop body f st inp len pad = blocks_loop body f' st inp len pad.
Proof.
  unfold POLY1305_BLOCK_SIZE. induction f as [|f IH]; intros [|f'] st inp len pad H1 H2; cbn [blocks_loop]; unfold POLY1305_BLOCK_SIZE;
    destruct (Z.leb_spec 16 len); try done; try lia. apply IH; lia.
Qed.

Lemma loop_step {A} (body : A → list Z → Z → A) st inp len pad : 16 ≤ len →
  blocks_loop body (Z.to_nat len) st inp len pad = blocks_loop body (Z.to_nat (len - 16)) (body st inp pad) (drop 16 inp) (len - 16) pad.
Proof.
  intros Hl. destruct (Z.to_nat len) as [|f] eqn:E; [lia|]. cbn [blocks_loop]. rewrite (proj2 (Z.leb_le _ _)) by done. apply loop_fuel; unfold POLY1305_BLOCK_SIZE; lia.
Qed.

Lemma U8TOU64_take n p : (8 ≤ n)%nat → U8TOU64 (take n p) = U8TOU64 p.
Proof. intros. unfold U8TOU64. by rewrite !nthZ_take by lia. Qed.
Lemma U8TOU32_take n p : (4 ≤ n)%nat → U8TOU32 (take n p) = U8TOU32 p.
Proof. intros. unfold U8TOU32. by rewrite !nthZ_take by lia. Qed.

Lemma step_w64_take st inp pad : step_w64 st inp pad = step_w64 st (take 16 inp) pad.
Proof.
  unfold step_w64, add_w64. destruct (h64 st) as [[? ?] ?]. by rewrite skipn_firstn_comm, !U8TOU64_take by lia.
Qed.

#[export] Instance polybuild_w64 : PolyBuild build_w64.
Proof.
  refine {| step := step_w64 : internal build_w64 → _; loses := loses_w64; acc_val := λ st : internal build_w64, val64 (h64 st);
            r_val := λ st : internal build_w64, (r64 st).1 + 2 ^ 64 * (r64 st).2; ok := ok64;
            blocks_end := loop_end step_w64; blocks_step := loop_step step_w64; step_take := step_w64_take; init_ok := init_w64; emit_ok := emit_w64 |}.
  intros st b pad H1 H2 H3 H4. destruct (step_w64_ok st b pad H1 H2 H3 H4) as (A1 & A2 & A3). split; [done|]. by rewrite A2.
Defined.

(** ** Words of 32 bits: correctness *)

Definition val32 (h : Z * Z * Z * Z * Z) : Z := let '(h0, h1, h2, h3, h4) := h in h0 + 2 ^ 32 * h1 + 2 ^ 64 * h2 + 2 ^ 96 * h3 + 2 ^ 128 * h4.
Definition words32 (top : Z) (h : Z * Z * Z * Z * Z) : Prop :=
  let '(h0, h1, h2, h3, h4) := h in 0 ≤ h0 < 2 ^ 32 ∧ 0 ≤ h1 < 2 ^ 32 ∧ 0 ≤ h2 < 2 ^ 32 ∧ 0 ≤ h3 < 2 ^ 32 ∧ 0 ≤ h4 < top.

Lemma add_w32_spec h b pad : words32 4 h → bytes b → length b = 16%nat → 0 ≤ pad ≤ 1 →
  words32 6 (add_w32 h b pad) ∧ val32 (add_w32 h b pad) = val32 h + le_load b + pad * 2 ^ 128.
Proof.
  destruct h as [[[[h0 h1] h2] h3] h4]. intros (H0 & H1 & H2 & H3 & H4) Hb Hl Hp. unfold add_w32.
  destruct (load_words32 b Hb ltac:(lia)) as (L & N0 & N1 & N2 & N3). rewrite take_ge in L by lia. rewrite L. clear L.
  generalize dependent (U8TOU32 b). intros n0 N0. generalize dependent (U8TOU32 (drop 4 b)). intros n1 N1. generalize dependent (U8TOU32 (drop 8 b)). intros n2 N2.
  generalize dependent (U8TOU32 (drop 12 b)). intros n3 N3.
  rewrite (u64_small (h0 + n0)) by lia. destruct (halves32 (h0 + n0)) as (E0 & B0 & C0); [lia|]. set (c0 := (h0 + n0) ≫ 32) in *.
  rewrite (u64_small (h1 + c0 + n1)) by lia. destruct (halves32 (h1 + c0 + n1)) as (E1 & B1 & C1); [lia|]. set (c1 := (h1 + c0 + n1) ≫ 32) in *.
  rewrite (u64_small (h2 + c1 + n2)) by lia. destruct (halves32 (h2 + c1 + n2)) as (E2 & B2 & C2); [lia|]. set (c2 := (h2 + c1 + n2) ≫ 32) in *.
  rewrite (u64_small (h3 + c2 + n3)) by lia. destruct (halves32 (h3 + c2 + n3)) as (E3 & B3 & C3); [lia|]. set (c3 := (h3 + c2 + n3) ≫ 32) in *.
  assert (c3 ≤ 1) by lia. rewrite (u32_small c3), (u32_small (c3 + pad)), (u32_small (h4 + _)) by lia. unfold words32, val32. lia.
Qed.

(** The carries of step a) keep the value of the columns. *)
Lemma carry_columns d0 d1 d2 d3 t : 0 ≤ d0 < 5 * 2 ^ 60 → 0 ≤ d1 < 5 * 2 ^ 60 → 0 ≤ d2 < 5 * 2 ^ 60 → 0 ≤ d3 < 5 * 2 ^ 60 → 0 ≤ t ≤ 5 * 2 ^ 28 →
  let e1 := u64 (d1 + d0 ≫ 32) in let e2 := u64 (d2 + e1 ≫ 32) in let e3 := u64 (d3 + e2 ≫ 32) in
  let x := (u32 d0, u32 e1, u32 e2, u32 e3, u32 (t + u32 (e3 ≫ 32))) in
  words32 (11 * 2 ^ 28) x ∧ val32 x = d0 + 2 ^ 32 * d1 + 2 ^ 64 * d2 + 2 ^ 96 * d3 + 2 ^ 128 * t.
Proof.
  intros D0 D1 D2 D3 Ht e1 e2 e3 x. destruct (halves32 d0) as (E0 & B0 & C0); [lia|].
  assert (e1 = d1 + d0 ≫ 32) as H1 by (apply u64_small; lia). destruct (halves32 e1) as (E1 & B1 & C1); [lia|].
  assert (e2 = d2 + e1 ≫ 32) as H2 by (apply u64_small; lia). destruct (halves32 e2) as (E2 & B2 & C2); [lia|].
  assert (e3 = d3 + e2 ≫ 32) as H3 by (apply u64_small; lia). destruct (halves32 e3) as (E3 & B3 & C3); [lia|].
  assert (e3 ≫ 32 ≤ 5 * 2 ^ 28) by lia. unfold x. rewrite (u32_small (e3 ≫ 32)), (u32_small (t + _)) by lia. unfold words32, val32. clearbody e1 e2 e3. lia.
Qed.

(** A column of the product fits 64 bits. *)
Lemma column_bound a b c d s t u v e : 0 ≤ a < 2 ^ 32 → 0 ≤ b < 2 ^ 32 → 0 ≤ c < 2 ^ 32 → 0 ≤ d < 2 ^ 32 →
  0 ≤ s ≤ 5 * 2 ^ 26 - 5 → 0 ≤ t ≤ 5 * 2 ^ 26 - 5 → 0 ≤ u ≤ 5 * 2 ^ 26 - 5 → 0 ≤ v ≤ 5 * 2 ^ 26 - 5 → 0 ≤ e ≤ 25 * 2 ^ 26 →
  0 ≤ a * s + b * t + c * u + d * v + e < 5 * 2 ^ 60.
Proof.
  intros Ha Hb Hc Hd Hs Ht Hu Hv He. pose proof (mul_range a s (2 ^ 32 - 1) _ ltac:(lia) Hs). pose proof (mul_range b t (2 ^ 32 - 1) _ ltac:(lia) Ht).
  pose proof (mul_range c u (2 ^ 32 - 1) _ ltac:(lia) Hu). pose proof (mul_range d v (2 ^ 32 - 1) _ ltac:(lia) Hv). lia.
Qed.

Lemma mul_w32_spec h r0 q1 q2 q3 : words32 6 h → 0 ≤ r0 < 2 ^ 28 → 0 ≤ q1 < 2 ^ 26 → 0 ≤ q2 < 2 ^ 26 → 0 ≤ q3 < 2 ^ 26 →
  let x := mul_w32 h (r0, 4 * q1, 4 * q2, 4 * q3) (5 * q1) (5 * q2) (5 * q3) in
  words32 (11 * 2 ^ 28) x ∧ ∃ k, val32 x + k * P1305 = val32 h * (r0 + 2 ^ 32 * (4 * q1) + 2 ^ 64 * (4 * q2) + 2 ^ 96 * (4 * q3)).
Proof.
  destruct h as [[[[h0 h1] h2] h3] h4]. intros (H0 & H1 & H2 & H3 & H4) Hr Q1 Q2 Q3 x. unfold mul_w32 in x. revert x.
  pose proof (mul_range h4 r0 5 (2 ^ 28) ltac:(lia) ltac:(lia)) as MT.
  assert (∀ q, 0 ≤ q < 2 ^ 26 → 0 ≤ h4 * (5 * q) ≤ 25 * 2 ^ 26) as M4 by (intros q Hq; pose proof (mul_range h4 (5 * q) 5 (5 * 2 ^ 26)); lia).
  rewrite (u32_small (h4 * r0)) by lia. assert (∀ q, 0 ≤ q < 2 ^ 26 → u32 (h4 * (5 * q)) = h4 * (5 * q)) as U4 by (intros q Hq; apply u32_small; specialize (M4 q Hq); lia).
  rewrite !U4 by done.
  set (d0 := h0 * r0 + _ + _ + _). set (d1 := h0 * _ + _ + _ + _ + h4 * (5 * q1)). set (d2 := h0 * _ + _ + _ + _ + h4 * (5 * q2)). set (d3 := h0 * _ + _ + _ + _ + h4 * (5 * q3)).
  assert (0 ≤ d0 < 5 * 2 ^ 60) as D0 by (unfold d0; rewrite <- (Z.add_0_r (_ + _)); apply column_bound; lia).
  assert (0 ≤ d1 < 5 * 2 ^ 60) as D1 by (apply column_bound; try apply M4; lia).
  assert (0 ≤ d2 < 5 * 2 ^ 60) as D2 by (apply column_bound; try apply M4; lia).
  assert (0 ≤ d3 < 5 * 2 ^ 60) as D3 by (apply column_bound; try apply M4; lia).
  rewrite !(u64_small d0), !(u64_small d1), !(u64_small d2), !(u64_small d3) by (clear -D0 D1 D2 D3; lia). intros x.
  destruct (carry_columns d0 d1 d2 d3 (h4 * r0) D0 D1 D2 D3 ltac:(lia)) as [W V]. split; [done|].
  exists (h1 * q3 + h2 * q2 + h3 * q1 + 2 ^ 32 * (h2 * q3 + h3 * q2 + h4 * q1) + 2 ^ 64 * (h3 * q3 + h4 * q2) + 2 ^ 96 * (h4 * q3)).
  unfold x. rewrite V. unfold d0, d1, d2, d3, val32, P1305. ring.
Qed.

Definition lost32 (x : Z * Z * Z * Z * Z) : bool :=
  let '(x0, x1, x2, x3, x4) := x in (x3 =? 2 ^ 32 - 1) && (2 ^ 96 <=? x0 + 2 ^ 32 * x1 + 2 ^ 64 * x2 + 5 * (x4 / 4)).

(** A word and the carry into it. *)
Lemma carry_word x c : 0 ≤ x < 2 ^ 32 → 0 ≤ c < 2 ^ 32 → CONSTANT_TIME_CARRY 32 (u32 (x + c)) c = (x + c) ≫ 32.
Proof.
  intros Hx Hc. destruct (halves32 (x + c)) as (E & B & C); [lia|]. rewrite carry_spec by (done || lia). destruct (Z.ltb_spec (u32 (x + c)) c); cbn [Z.b2z]; lia.
Qed.

Lemma reduce_w32_spec x : words32 (11 * 2 ^ 28) x →
  words32 4 (reduce_w32 x) ∧ ∃ k, val32 (reduce_w32 x) + k * P1305 = val32 x - (if lost32 x then 2 ^ 128 else 0).
Proof.
  destruct x as [[[[x0 x1] x2] x3] x4]. intros (H0 & H1 & H2 & H3 & H4). unfold reduce_w32. destruct (fold_top 32 x4 ltac:(lia) ltac:(lia)) as [E1 E2].
  change (u32 (Z.lnot 3)) with (Z.lnot 3 `mod` 2 ^ 32). rewrite E1, E2. set (c := 5 * (x4 / 4)). assert (0 ≤ c < 2 ^ 32) as Hc by (unfold c; Z.div_mod_to_equations; lia).
  rewrite (u32_small c) by done. destruct (halves32 (x0 + c)) as (F0 & B0 & C0); [lia|]. rewrite (carry_word x0 c) by lia. set (c0 := (x0 + c) ≫ 32) in *.
  destruct (halves32 (x1 + c0)) as (F1 & B1 & C1); [lia|]. rewrite (carry_word x1 c0) by lia. set (c1 := (x1 + c0) ≫ 32) in *.
  destruct (halves32 (x2 + c1)) as (F2 & B2 & C2); [lia|]. rewrite (carry_word x2 c1) by lia. set (c2 := (x2 + c1) ≫ 32) in *.
  destruct (halves32 (x3 + c2)) as (F3 & B3 & C3); [lia|].
  split; [unfold words32; Z.div_mod_to_equations; lia|]. exists (x4 / 4). unfold val32, P1305, lost32. fold c.
  assert ((x3 + c2) ≫ 32 = if (x3 =? 2 ^ 32 - 1) && (2 ^ 96 <=? x0 + 2 ^ 32 * x1 + 2 ^ 64 * x2 + c) then 1 else 0) as E5.
  { destruct (Z.eqb_spec x3 (2 ^ 32 - 1)), (Z.leb_spec (2 ^ 96) (x0 + 2 ^ 32 * x1 + 2 ^ 64 * x2 + c)); cbn [andb]; lia. }
  pose proof (Z.div_mod x4 4 ltac:(lia)) as E6. unfold c in *. destruct (_ && _); lia.
Qed.

Definition r32_val (r : Z * Z * Z * Z) : Z := let '(r0, r1, r2, r3) := r in r0 + 2 ^ 32 * r1 + 2 ^ 64 * r2 + 2 ^ 96 * r3.
Definition r32_ok (r : Z * Z * Z * Z) : Prop :=
  let '(r0, r1, r2, r3) := r in 0 ≤ r0 < 2 ^ 28 ∧ ∃ q1 q2 q3, (0 ≤ q1 < 2 ^ 26 ∧ r1 = 4 * q1) ∧ (0 ≤ q2 < 2 ^ 26 ∧ r2 = 4 * q2) ∧ (0 ≤ q3 < 2 ^ 26 ∧ r3 = 4 * q3).
Definition ok32 (st : poly1305_w32) : Prop := words32 4 (h32 st) ∧ r32_ok (r32 st).

Lemma init_w32 key : bytes key → (16 ≤ length key)%nat → let st := poly1305_init_w32 key in
  ok32 st ∧ val32 (h32 st) = 0 ∧ r32_val (r32 st) = clamp (le_load (take 16 key)).
Proof.
  intros Hk Hl st. unfold st, poly1305_init_w32, ok32. cbn [h32 r32 r32_val r32_ok].
  destruct (load_words32 key Hk Hl) as (-> & N0 & N1 & N2 & N3). split; [|split; [done|]].
  - split; [cbn; lia|]. split; [apply land_bound; lia|].
    assert (∀ z, 0 ≤ z < 2 ^ 32 → 0 ≤ Z.land z 0x0ffffffc / 4 < 2 ^ 26 ∧ Z.land z 0x0ffffffc = 4 * (Z.land z 0x0ffffffc / 4)) as HQ.
    { intros z Hz. pose proof (land_bound 28 z 0x0ffffffc) as HB. split; [Z.div_mod_to_equations; lia|by apply land_quarter]. }
    do 3 eexists. split_and!; apply HQ; done.
  - unfold clamp. rewrite <- !Z.add_assoc.
    replace (2 ^ 32 * U8TOU32 (drop 4 key) + (2 ^ 64 * U8TOU32 (drop 8 key) + 2 ^ 96 * U8TOU32 (drop 12 key)))
      with (2 ^ 32 * (U8TOU32 (drop 4 key) + 2 ^ 32 * (U8TOU32 (drop 8 key) + 2 ^ 32 * U8TOU32 (drop 12 key)))) by lia.
    change 0x0ffffffc0ffffffc0ffffffc0fffffff with (0x0fffffff + 2 ^ 32 * (0x0ffffffc + 2 ^ 32 * (0x0ffffffc + 2 ^ 32 * 0x0ffffffc))).
    rewrite !land_split by lia. lia.
Qed.

Definition loses_w32 (st : poly1305_w32) (b : list Z) (pad : Z) : bool :=
  let '(r0, r1, r2, r3) := r32 st in
  lost32 (mul_w32 (add_w32 (h32 st) b pad) (r32 st) (u32 (r1 + r1 ≫ 2)) (u32 (r2 + r2 ≫ 2)) (u32 (r3 + r3 ≫ 2))).

Lemma step_w32_ok st b pad : ok32 st → bytes b → length b = 16%nat → 0 ≤ pad ≤ 1 → let st' := step_w32 st b pad in
  ok32 st' ∧ r32 st' = r32 st ∧
  (loses_w32 st b pad = false → val32 (h32 st') `mod` P1305 = ((val32 (h32 st) + le_load b + pad * 2 ^ 128) * r32_val (r32 st)) `mod` P1305).
Proof.
  destruct st as [h [[[r0 r1] r2] r3]]. intros [Hh (H0 & q1 & q2 & q3 & [Q1 ->] & [Q2 ->] & [Q3 ->])] Hb Hl Hp. unfold step_w32, loses_w32, ok32. cbn [h32 r32 r32_val] in *.
  rewrite !quarter_add, !u32_small by lia. destruct (add_w32_spec h b pad Hh Hb Hl Hp) as [A1 A2]. set (a := add_w32 h b pad) in *.
  destruct (mul_w32_spec a r0 q1 q2 q3 A1 H0 Q1 Q2 Q3) as (M1 & k1 & M2). set (x := mul_w32 a _ _ _ _) in *. destruct (reduce_w32_spec x M1) as (R1 & k2 & R2).
  split; [split; [done|]; split; [done|]; by exists q1, q2, q3|]. split; [done|]. intros Hlost. rewrite Hlost in R2. rewrite A2 in M2.
  rewrite <- M2. symmetry. replace (val32 x + k1 * P1305) with (val32 (reduce_w32 x) + (k1 + k2) * P1305) by lia. apply Z.mod_add. done.
Qed.

Lemma step_w32_take st inp pad : step_w32 st inp pad = step_w32 st (take 16 inp) pad.
Proof.
  unfold step_w32, add_w32. destruct (h32 st) as [[[[? ?] ?] ?] ?]. by rewrite !skipn_firstn_comm, !U8TOU32_take by lia.
Qed.

(** Adding [n] to [f], word by word. *)
Lemma add_words32 f0 f1 f2 f3 n0 n1 n2 n3 : 0 ≤ f0 < 2 ^ 32 → 0 ≤ f1 < 2 ^ 32 → 0 ≤ f2 < 2 ^ 32 → 0 ≤ f3 < 2 ^ 32 →
  0 ≤ n0 < 2 ^ 32 → 0 ≤ n1 < 2 ^ 32 → 0 ≤ n2 < 2 ^ 32 → 0 ≤ n3 < 2 ^ 32 →
  let t0 := u64 (f0 + n0) in let t1 := u64 (f1 + t0 ≫ 32 + n1) in let t2 := u64 (f2 + t1 ≫ 32 + n2) in let t3 := u64 (f3 + t2 ≫ 32 + n3) in
  U32TO8 (u32 t0) ++ U32TO8 (u32 t1) ++ U32TO8 (u32 t2) ++ U32TO8 (u32 t3) =
  le_store 16 (f0 + 2 ^ 32 * f1 + 2 ^ 64 * f2 + 2 ^ 96 * f3 + (n0 + 2 ^ 32 * n1 + 2 ^ 64 * n2 + 2 ^ 96 * n3)).
Proof.
  intros F0 F1 F2 F3 N0 N1 N2 N3 t0 t1 t2 t3. assert (t0 = f0 + n0) as T0 by (apply u64_small; lia). destruct (halves32 t0) as (E0 & B0 & C0); [lia|].
  assert (t1 = f1 + t0 ≫ 32 + n1) as T1 by (apply u64_small; lia). destruct (halves32 t1) as (E1 & B1 & C1); [lia|].
  assert (t2 = f2 + t1 ≫ 32 + n2) as T2 by (apply u64_small; lia). destruct (halves32 t2) as (E2 & B2 & C2); [lia|].
  assert (t3 = f3 + t2 ≫ 32 + n3) as T3 by (apply u64_small; lia). destruct (halves32 t3) as (E3 & B3 & C3); [lia|].
  rewrite !U32TO8_store, (le_store_app 4 4), (le_store_app 4 8), (le_store_app 4 12) by done. change (8 * Z.of_nat 4) with 32.
  apply (le_store_cong 16 _ _ (- (t3 ≫ 32))). change (8 * Z.of_nat 16) with 128. clearbody t0 t1 t2 t3. lia.
Qed.

Lemma emit_w32 st n : ok32 st → bytes n → length n = 16%nat →
  poly1305_emit_w32 st [U8TOU32 n; U8TOU32 (drop 4 n); U8TOU32 (drop 8 n); U8TOU32 (drop 12 n)] = le_store 16 (val32 (h32 st) `mod` P1305 + le_load n).
Proof.
  destruct st as [[[[[h0 h1] h2] h3] h4] r]. intros [(H0 & H1 & H2 & H3 & H4) _] Hn Hl. cbn [h32 val32] in *. unfold poly1305_emit_w32, nthZ. cbn [h32 nth].
  destruct (load_words32 n Hn ltac:(lia)) as (L & N0 & N1 & N2 & N3). rewrite take_ge in L by lia. rewrite L.
  set (n0 := U8TOU32 n) in *. set (n1 := U8TOU32 (drop 4 n)) in *. set (n2 := U8TOU32 (drop 8 n)) in *. set (n3 := U8TOU32 (drop 12 n)) in *. clearbody n0 n1 n2 n3.
  rewrite !(u64_small (h0 + 5)) by lia. destruct (halves32 (h0 + 5)) as (E0 & B0 & C0); [lia|]. set (t0 := (h0 + 5) ≫ 32) in *.
  rewrite !(u64_small (h1 + t0)) by lia. destruct (halves32 (h1 + t0)) as (E1 & B1 & C1); [lia|]. set (t1 := (h1 + t0) ≫ 32) in *.
  rewrite !(u64_small (h2 + t1)) by lia. destruct (halves32 (h2 + t1)) as (E2 & B2 & C2); [lia|]. set (t2 := (h2 + t1) ≫ 32) in *.
  rewrite !(u64_small (h3 + t2)) by lia. destruct (halves32 (h3 + t2)) as (E3 & B3 & C3); [lia|]. set (t3 := (h3 + t2) ≫ 32) in *.
  set (g0 := u32 (h0 + 5)) in *. set (g1 := u32 (h1 + t0)) in *. set (g2 := u32 (h2 + t1)) in *. set (g3 := u32 (h3 + t2)) in *. clearbody g0 g1 g2 g3 t0 t1 t2 t3.
  rewrite !(u32_small t3), !(u32_small (h4 + t3)) by lia. rewrite (Z.shiftr_div_pow2 (h4 + t3)) by lia. change (2 ^ 2) with 4.
  assert (0 ≤ (h4 + t3) / 4 ≤ 1) as Hb by (Z.div_mod_to_equations; lia). destruct (mask_spec 32 ((h4 + t3) / 4) ltac:(lia) Hb) as [K1 K2].
  change (u32 (0 - (h4 + t3) / 4)) with ((0 - (h4 + t3) / 4) `mod` 2 ^ 32). rewrite K1. change (u32 (Z.lnot ?x)) with (Z.lnot x `mod` 2 ^ 32).
  rewrite K2, !select_spec by (done || lia). set (v := h0 + _ + _ + _ + _). set (b := (h4 + t3) / 4 =? 1) in *.
  destruct (final_sub v (g0 + 2 ^ 32 * g1 + 2 ^ 64 * g2 + 2 ^ 96 * g3) (h4 + t3)) as [k Ek]; [unfold v; lia..|]. fold b in Ek.
  rewrite add_words32 by (done || by destruct b). apply (le_store_cong 16 _ _ (if b then - k else - k - h4)). change (8 * Z.of_nat 16) with 128. rewrite Ek.
  unfold v. destruct b; lia.
Qed.

#[export] Instance polybuild_w32 : PolyBuild build_w32.
Proof.
  refine {| step := step_w32 : internal build_w32 → _; loses := loses_w32; acc_val := λ st : internal build_w32, val32 (h32 st);
            r_val := λ st : internal build_w32, r32_val (r32 st); ok := ok32;
            blocks_end := loop_end step_w32; blocks_step := loop_step step_w32; step_take := step_w32_take; init_ok := init_w32; emit_ok := emit_w32 |}.
  intros st b pad H1 H2 H3 H4. destruct (step_w32_ok st b pad H1 H2 H3 H4) as (A1 & A2 & A3). split; [done|]. by rewrite A2.
Defined.

(** ** Blocks *)

Lemma cut16_fuel f : ∀ m, (length m ≤ f)%nat → cut16 f m = blocks16 m.
Proof.
  unfold blocks16. assert (∀ f f' m, (length m ≤ f)%nat → (length m ≤ f')%nat → cut16 f m = cut16 f' m) as H; [|intros; by apply H].
  clear f. induction f as [|f IH]; intros [|f'] [|x m] H1 H2; try done; try (cbn in *; lia). cbn [cut16]. f_equal. apply IH; rewrite length_drop; cbn [length] in *; lia.
Qed.

Lemma blocks16_cons m : m ≠ [] → blocks16 m = take 16 m :: blocks16 (drop 16 m).
Proof.
  intros Hm. destruct m as [|x m]; [done|]. unfold blocks16 at 1. cbn [length cut16]. f_equal. apply cut16_fuel. rewrite length_drop. cbn [length]. lia.
Qed.

Lemma blocks16_last m : m ≠ [] → (length m ≤ 16)%nat → blocks16 m = [m].
Proof. intros Hm Hl. rewrite blocks16_cons, take_ge, drop_ge by done. done. Qed.

Lemma blocks16_app k : ∀ a b, length a = (16 * k)%nat → blocks16 (a ++ b) = blocks16 a ++ blocks16 b.
Proof.
  induction k as [|k IH]; intros a b Hl; [by rewrite (nil_length_inv a) by lia|].
  rewrite (blocks16_cons (a ++ b)), (blocks16_cons a) by (intros E; apply (f_equal length) in E; rewrite ?length_app in E; cbn in E; lia).
  rewrite take_app_le, drop_app_le by lia. cbn [app]. f_equal. apply IH. rewrite length_drop. lia.
Qed.

Lemma blocks16_lengths m : bytes m → Forall (λ b, bytes b ∧ (0 < length b ≤ 16)%nat) (blocks16 m).
Proof.
  unfold blocks16. generalize (length m) as f. intros f. revert m. induction f as [|f IH]; intros [|x m] Hm; try apply Forall_nil_2. cbn [cut16].
  apply Forall_cons_2; [|apply IH; auto with vtls]. split; [auto with vtls|]. rewrite length_take. cbn [length]. lia.
Qed.

(** How the code hands over a block: padded, with the bit of full blocks. *)
Definition pad_block (b : list Z) : list Z * Z := if decide (length b = 16)%nat then (b, 1) else (b ++ 1 :: replicate (15 - length b) 0, 0).

Lemma pad_block_num b : bytes b → (0 < length b ≤ 16)%nat → let '(p, bit) := pad_block b in
  bytes p ∧ length p = 16%nat ∧ 0 ≤ bit ≤ 1 ∧ le_load p + bit * 2 ^ 128 = block_num b.
Proof.
  intros Hb Hl. unfold pad_block, block_num. rewrite le_load_app by done. destruct (decide (length b = 16)%nat) as [E|E].
  - rewrite E. split; [done|]. split; [done|]. split; [lia|]. done.
  - split; [apply bytes_app; [done|]; apply Forall_cons_2; [done|apply bytes_replicate0]|]. split; [rewrite length_app; cbn [length]; rewrite length_replicate; lia|].
    split; [lia|]. rewrite le_load_app, le_load_cons, le_load_zeros by done. change (le_load [1]) with 1. lia.
Qed.

(** ** The calls *)

Section calls_correct.
Context {B : build} `{!PolyBuild B}.

Definition run_block (st : internal B) (b : list Z) : internal B := let '(p, bit) := pad_block b in step st p bit.
Definition run (st : internal B) (bs : list (list Z)) : internal B := foldl run_block st bs.

(** No block loses a carry. *)
Fixpoint carries_kept (st : internal B) (bs : list (list Z)) : bool :=
  match bs with
  | [] => true
  | b :: bs => (let '(p, bit) := pad_block b in negb (loses st p bit)) && carries_kept (run_block st b) bs
  end.

Lemma run_acc r bs : Forall (λ b, bytes b ∧ (0 < length b ≤ 16)%nat) bs → ∀ st a, ok st → r_val st = r → acc_val st mod P1305 = a mod P1305 → 
  ok (run st bs) ∧ (carries_kept st bs = true → acc_val (run st bs) mod P1305 = foldl (λ a b, ((a + block_num b) * r) `mod` P1305) a bs mod P1305).
Proof.
  unfold run. induction 1 as [|b bs [Hb Hl] _ IH]; intros st a Ho Hr Ha; [done|]. cbn [foldl carries_kept].
  pose proof (pad_block_num b Hb Hl) as HP. unfold run_block at 1 2 3 5. destruct (pad_block b) as [p bit]. destruct HP as (P1 & P2 & P3 & P4).
  destruct (step_ok st p bit Ho P1 P2 P3) as (S1 & S2 & S3). destruct (loses st p bit) eqn:El; cbn [negb andb].
  - split; [|done]. by eapply (IH (step st p bit) (acc_val (step st p bit))); [done|congruence|].
  - apply IH; [done|congruence|]. rewrite (S3 eq_refl), Hr, <- Z.add_assoc, P4, Z.mod_mod by done. rewrite Z.mul_mod, Z.add_mod, Ha, <- Z.add_mod, <- Z.mul_mod by done. done.
Qed.

Lemma blocks_run k : ∀ d rest st, length d = (16 * k)%nat → poly1305_blocks B st (d ++ rest) (16 * Z.of_nat k) 1 = run st (blocks16 d).
Proof.
  induction k as [|k IH]; intros d rest st Hl.
  - rewrite blocks_end by lia. by rewrite (nil_length_inv d) by lia.
  - rewrite blocks_step by lia. rewrite step_take, take_app_le, drop_app_le by lia. replace (16 * Z.of_nat (S k) - 16) with (16 * Z.of_nat k) by lia.
    rewrite IH by (rewrite length_drop; lia). rewrite (blocks16_cons d) by (intros ->; cbn in Hl; lia). unfold run. cbn [foldl]. f_equal.
    unfold run_block, pad_block. by rewrite decide_True by (rewrite length_take; lia).
Qed.

Definition nonce_words (key : list Z) : list Z := [U8TOU32 (drop 16 key); U8TOU32 (drop 20 key); U8TOU32 (drop 24 key); U8TOU32 (drop 28 key)].

(** The context has taken in whole blocks [F] and keeps [r]. *)
Definition holds (key : list Z) (ctx : poly1305_state B) (F r : list Z) : Prop :=
  (∃ k, length F = (16 * k)%nat) ∧ (length r < 16)%nat ∧ nonce ctx = nonce_words key ∧ length (data ctx) = 16%nat ∧
  num ctx = Z.of_nat (length r) ∧ take (length r) (data ctx) = r ∧ opaque ctx = run (poly1305_init B key) (blocks16 F).

Lemma take_splice_app' (l r a : list Z) : take (length r) l = r → take (length (r ++ a)) (splice l (length r) a) = r ++ a.
Proof. intros H. unfold splice. rewrite H, app_assoc. by rewrite take_app_length. Qed.

Lemma whole_blocks_spec key ctx F p : (∃ k, length F = (16 * k)%nat) → nonce ctx = nonce_words key → length (data ctx) = 16%nat →
  opaque ctx = run (poly1305_init B key) (blocks16 F) → ∃ F' r', F ++ p = F' ++ r' ∧ holds key (whole_blocks ctx p) F' r'.
Proof.
  intros [k Hk] Hn Hd Ho. unfold whole_blocks, POLY1305_BLOCK_SIZE. set (l := Z.of_nat (length p)). set (j := Z.to_nat (l / 16)).
  assert (l - l `mod` 16 = 16 * Z.of_nat j) as El by (unfold j; Z.div_mod_to_equations; lia). rewrite El.
  assert (16 * j ≤ length p)%nat as Hj by (unfold j, l in *; Z.div_mod_to_equations; lia).
  set (d := take (16 * j) p). set (r := drop (16 * j) p). assert (p = d ++ r) as Ep by (unfold d, r; by rewrite take_drop).
  assert (length d = (16 * j)%nat) as Hld by (unfold d; rewrite length_take; lia). assert (Z.of_nat (length r) = l `mod` 16) as Hr by (unfold r; rewrite length_drop; lia).
  assert (length r < 16)%nat as Hr16 by (Z.div_mod_to_equations; lia).
  exists (F ++ d), r. split; [by rewrite Ep, app_assoc|].
  assert ((if 16 <=? 16 * Z.of_nat j then (poly1305_blocks B (opaque ctx) p (16 * Z.of_nat j) 1, drop (Z.to_nat (16 * Z.of_nat j)) p) else (opaque ctx, p)) =
    (run (opaque ctx) (blocks16 d), r)) as ->.
  { destruct (Z.leb_spec 16 (16 * Z.of_nat j)) as [H|H].
    - rewrite Ep at 1. rewrite blocks_run by done. do 2 f_equal. lia.
    - assert (j = 0%nat) as E0 by lia. unfold d, r. rewrite E0. cbn [Nat.mul take drop]. by rewrite take_0, drop_0. }
  rewrite <- Hr. unfold holds. cbn [nonce data num opaque]. rewrite Nat2Z.id, firstn_all.
  split; [exists (k + j)%nat; rewrite length_app; lia|]. split; [done|]. split; [done|].
  split; [destruct (negb _); [rewrite length_splice; [done|lia]|done]|]. split; [done|]. split.
  - destruct (Z.eqb_spec (Z.of_nat (length r)) 0) as [E|E]; cbn [negb]; [by rewrite (nil_length_inv r) by lia|]. by apply (take_splice_app' _ [] r).
  - rewrite Ho, (blocks16_app k) by done. unfold run. by rewrite foldl_app.
Qed.

Lemma update_holds key ctx F r p : holds key ctx F r → ∃ F' r', F ++ r ++ p = F' ++ r' ∧ holds key (CRYPTO_poly1305_update ctx p) F' r'.
Proof.
  intros ([k Hk] & Hr & Hn & Hd & Hnum & Ht & Ho). unfold CRYPTO_poly1305_update, POLY1305_BLOCK_SIZE. rewrite Hnum.
  destruct (Z.eqb_spec (Z.of_nat (length r)) 0) as [E|E]; cbn [negb].
  { rewrite (nil_length_inv r) by lia. apply whole_blocks_spec; [by exists k|done..]. }
  destruct (Z.leb_spec (16 - Z.of_nat (length r)) (Z.of_nat (length p))) as [Hle|Hlt].
  - rewrite Nat2Z.id. set (i := Z.to_nat (16 - Z.of_nat (length r))). set (d := splice _ _ _).
    assert (length (take i p) = i) as Hi by (rewrite length_take; lia).
    assert (d = r ++ take i p) as Ed.
    { rewrite <- (take_splice_app' (data ctx) r (take i p) Ht). symmetry. apply take_ge. unfold d. rewrite length_splice by lia. rewrite length_app. lia. }
    assert (length d = 16%nat) as Hld by (rewrite Ed, length_app; lia).
    destruct (whole_blocks_spec key (PolyState (poly1305_blocks B (opaque ctx) d 16 1) (nonce ctx) d (Z.of_nat (length r))) (F ++ d) (drop i p)) as (F' & r' & EF & HF);
      [exists (k + 1)%nat; rewrite length_app; lia|done|done| |].
    + cbn [opaque]. rewrite <- (app_nil_r d) at 1. change 16 with (16 * Z.of_nat 1). rewrite blocks_run by done. rewrite Ho, (blocks16_app k) by done. unfold run. by rewrite foldl_app.
    + exists F', r'. split; [|done]. rewrite <- EF, Ed, <- !app_assoc. by rewrite take_drop.
  - exists F, (r ++ p). split; [done|]. rewrite Nat2Z.id. unfold holds. cbn [nonce data num opaque]. rewrite length_app.
    split; [by exists k|]. split; [lia|]. split; [done|]. split; [rewrite length_splice; [done|lia]|]. split; [lia|]. split; [|done].
    rewrite <- length_app. by apply take_splice_app'.
Qed.

Lemma pad_loop_spec f : ∀ d n, 0 ≤ n ≤ 16 → length d = 16%nat → 16 - n ≤ Z.of_nat f → pad_loop f d n = take (Z.to_nat n) d ++ replicate (16 - Z.to_nat n) 0.
Proof.
  induction f as [|f IH]; intros d n Hn Hl Hf; cbn [pad_loop]; unfold POLY1305_BLOCK_SIZE.
  - assert (n = 16) as -> by lia. change (Z.to_nat 16) with 16%nat. by rewrite take_ge, app_nil_r by lia.
  - destruct (Z.ltb_spec n 16) as [H|H].
    + rewrite IH by (rewrite ?length_setb; lia). unfold setb. replace (Z.to_nat (n + 1)) with (S (Z.to_nat n)) by lia.
      rewrite (take_S_r _ _ 0) by (apply list_lookup_insert_eq; lia). rewrite take_insert_ge, <- app_assoc by lia.
      by replace (16 - Z.to_nat n)%nat with (S (16 - S (Z.to_nat n)))%nat by lia.
    + assert (n = 16) as -> by lia. change (Z.to_nat 16) with 16%nat. by rewrite take_ge, app_nil_r by lia.
Qed.

(** The last block. *)
Lemma finish_run key ctx F r : holds key ctx F r → CRYPTO_poly1305_finish ctx = poly1305_emit B (run (poly1305_init B key) (blocks16 (F ++ r))) (nonce_words key).
Proof.
  intros ([k Hk] & Hr & Hn & Hd & Hnum & Ht & Ho). unfold CRYPTO_poly1305_finish, POLY1305_BLOCK_SIZE. rewrite Hnum, Hn, (blocks16_app k) by done. f_equal.
  destruct (Z.eqb_spec (Z.of_nat (length r)) 0) as [E|E]; cbn [negb]; [by rewrite (nil_length_inv r), app_nil_r by lia|].
  rewrite blocks_step, blocks_end by lia. rewrite (blocks16_last r) by (lia || by intros ->). unfold run. rewrite foldl_app, Ho. cbn [foldl]. unfold run, run_block, pad_block.
  rewrite decide_False by lia. f_equal. rewrite pad_loop_spec by (rewrite ?length_setb; lia). replace (Z.to_nat (Z.of_nat (length r) + 1)) with (S (length r)) by lia.
  unfold setb. rewrite Nat2Z.id, (take_S_r _ _ 1) by (apply list_lookup_insert_eq; lia). rewrite take_insert_ge, Ht, <- app_assoc by lia. done.
Qed.

(** From the key to the tag. *)
Definition poly1305_tag (ctx : poly1305_state B) (key : list Z) (ps : list (list Z)) : list Z :=
  CRYPTO_poly1305_finish (foldl CRYPTO_poly1305_update (CRYPTO_poly1305_init ctx key) ps).

Lemma updates_hold key ps : ∀ ctx F r, holds key ctx F r → ∃ F' r', F ++ r ++ concat ps = F' ++ r' ∧ holds key (foldl CRYPTO_poly1305_update ctx ps) F' r'.
Proof.
  induction ps as [|p ps IH]; intros ctx F r Hh; cbn [concat foldl]; [exists F, r; by rewrite app_nil_r|].
  destruct (update_holds key ctx F r p Hh) as (F1 & r1 & E1 & H1). destruct (IH _ _ _ H1) as (F2 & r2 & E2 & H2). exists F2, r2. split; [|done].
  rewrite <- E2, (app_assoc F1 r1), <- E1, <- !app_assoc. done.
Qed.

Lemma poly1305_tag_run ctx key ps : length (data ctx) = 16%nat →
  poly1305_tag ctx key ps = poly1305_emit B (run (poly1305_init B key) (blocks16 (concat ps))) (nonce_words key).
Proof.
  intros Hd. unfold poly1305_tag. destruct (updates_hold key ps (CRYPTO_poly1305_init ctx key) [] []) as (F & r & E & H).
  { split; [by exists 0%nat|]. split; [cbn; lia|]. by split_and!. }
  rewrite (finish_run key _ F r H). by rewrite <- E.
Qed.

Lemma poly1305_tag_correct ctx key ps : length (data ctx) = 16%nat → bytes key → length key = 32%nat → bytes (concat ps) →
  carries_kept (poly1305_init B key) (blocks16 (concat ps)) = true → poly1305_tag ctx key ps = poly1305 key (concat ps).
Proof.
  intros Hd Hk Hl Hp Hc. rewrite poly1305_tag_run by done. destruct (init_ok key Hk ltac:(lia)) as (I1 & I2 & I3).
  destruct (run_acc _ _ (blocks16_lengths _ Hp) _ 0 I1 I3 ltac:(by rewrite I2)) as [R1 R2]. unfold nonce_words.
  pose proof (emit_ok (run (poly1305_init B key) (blocks16 (concat ps))) (drop 16 key) R1 ltac:(auto with vtls) ltac:(rewrite length_drop; lia)) as E.
  rewrite !drop_drop in E. cbn [Nat.add] in E. rewrite E. unfold poly1305. rewrite (R2 Hc), (take_ge (drop 16 key)) by (rewrite length_drop; lia).
  do 2 f_equal. apply Z.mod_small. clear. unfold poly_acc. rewrite <- (reverse_involutive (blocks16 _)). destruct (reverse (blocks16 _)) as [|b bs]; [done|].
  rewrite reverse_cons, foldl_app. cbn [foldl]. by apply Z.mod_pos_bound.
Qed.
End calls_correct.

(** C17: Poly1305.  Both builds compute the tag of RFC 8439, however the message is cut into
    calls of [CRYPTO_poly1305_update], for every key and message for which the reduction
    drops no carry. *)
Theorem poly1305_correct (ctx64 : poly1305_state build_w64) (ctx32 : poly1305_state build_w32) key ps :
  length (data ctx64) = 16%nat → length (data ctx32) = 16%nat → bytes key → length key = 32%nat → bytes (concat ps) →
  let m := concat ps in
  (carries_kept (poly1305_init build_w64 key) (blocks16 m) = true → poly1305_tag ctx64 key ps = poly1305 key m) ∧
  (carries_kept (poly1305_init build_w32 key) (blocks16 m) = true → poly1305_tag ctx32 key ps = poly1305 key m).
Proof. intros. split; intros; by apply poly1305_tag_correct. Qed.

Definition demo_key : list Z :=
  [0x85; 0xd6; 0xbe; 0x78; 0x57; 0x55; 0x6d; 0x33; 0x7f; 0x44; 0x52; 0xfe; 0x42; 0xd5; 0x06; 0xa8;
   0x01; 0x03; 0x80; 0x8a; 0xfb; 0x0d; 0xb2; 0xfd; 0x4a; 0xbf; 0xf6; 0xaf; 0x41; 0x49; 0xf5; 0x1b].
(** "Cryptographic Forum Research Group" *)
Definition demo_pieces : list (list Z) :=
  [[67; 114; 121; 112; 116; 111; 103; 114; 97; 112; 104; 105; 99; 32]; []; [70; 111; 114; 117; 109; 32; 82; 101; 115; 101; 97; 114; 99; 104; 32; 71; 114; 111; 117; 112]].
Definition demo_tag : list Z := [0xa8; 0x06; 0x1d; 0xc1; 0x30; 0x51; 0x36; 0xc6; 0xc2; 0x2b; 0x8b; 0xaf; 0x0c; 0x01; 0x27; 0xa9].
Definition blank_w64 : poly1305_state build_w64 := PolyState (B := build_w64) (W64 (0, 0, 0) (0, 0)) [] (replicate 16 0) 0.
Definition blank_w32 : poly1305_state build_w32 := PolyState (B := build_w32) (W32 (0, 0, 0, 0, 0) (0, 0, 0, 0)) [] (replicate 16 0) 0.

(** The test vector of RFC 8439, section 2.5.2. *)
Example poly1305_rfc : poly1305 demo_key (concat demo_pieces) = demo_tag.
Proof. vm_compute. reflexivity. Qed.

Lemma poly1305_correct_witness :
  poly1305_tag blank_w64 demo_key demo_pieces = poly1305 demo_key (concat demo_pieces) ∧
  poly1305_tag blank_w32 demo_key demo_pieces = poly1305 demo_key (concat demo_pieces).
Proof.
  destruct (poly1305_correct blank_w64 blank_w32 demo_key demo_pieces) as [H1 H2].
  - reflexivity.
  - reflexivity.
  - apply (bool_decide_eq_true_1 _). vm_compute. reflexivity.
  - reflexivity.
  - apply (bool_decide_eq_true_1 _). vm_compute. reflexivity.
  - split; [apply H1|apply H2]; vm_compute; reflexivity.
Defined.

(** With [r = 4] and a block of ones a carry is dropped: the tag should be 6 and is 1. *)
Lemma poly1305_wrong_tag : let key := 4 :: replicate 31 0 in let m := replicate 16 255 in
  poly1305 key m = 6 :: replicate 15 0 ∧ poly1305_tag blank_w64 key [m] = 1 :: replicate 15 0 ∧ poly1305_tag blank_w32 key [m] = 1 :: replicate 15 0.
Proof. vm_compute. done. Qed.
