(* ===== verification/ChaCha.v ===== *)
(** * ChaCha20

    Models [crypto/chacha/chacha_generic.c] and [crypto/chacha/chacha.c]: the block function
    on an array of sixteen words, the keystream with a 32-bit block counter and the entry
    that loads key and nonce.  The reference is RFC 8439, section 2, with the rounds on the
    rows of a matrix: a round of diagonals is a round of columns between two rotations of
    the rows. *)

From S2P Require Import Prelude.

Definition U8TO32_LITTLE (p : list Z) : Z := Z.lor (Z.lor (Z.lor (nthZ p 0) (nthZ p 1 ≪ 8)) (nthZ p 2 ≪ 16)) (nthZ p 3 ≪ 24).
Definition U32TO8_LITTLE (v : Z) : list Z := [Z.land v 0xff; Z.land (v ≫ 8) 0xff; Z.land (v ≫ 16) 0xff; Z.land (v ≫ 24) 0xff].
Definition ROTATE (v n : Z) : Z := Z.lor (u32 (v ≪ n)) (v ≫ (32 - n)).

Definition QUARTERROUND (a b c d : nat) (x : list Z) : list Z :=
  let x := <[a := u32 (nthZ x a + nthZ x b)]> x in
  let x := <[d := ROTATE (Z.lxor (nthZ x d) (nthZ x a)) 16]> x in
  let x := <[c := u32 (nthZ x c + nthZ x d)]> x in
  let x := <[b := ROTATE (Z.lxor (nthZ x b) (nthZ x c)) 12]> x in
  let x := <[a := u32 (nthZ x a + nthZ x b)]> x in
  let x := <[d := ROTATE (Z.lxor (nthZ x d) (nthZ x a)) 8]> x in
  let x := <[c := u32 (nthZ x c + nthZ x d)]> x in
  <[b := ROTATE (Z.lxor (nthZ x b) (nthZ x c)) 7]> x.

Definition sigma : list Z := [101; 120; 112; 97; 110; 100; 32; 51; 50; 45; 98; 121; 116; 101; 32; 107].

Definition double_round (x : list Z) : list Z :=
  let x := QUARTERROUND 0 4 8 12 x in
  let x := QUARTERROUND 1 5 9 13 x in
  let x := QUARTERROUND 2 6 10 14 x in
  let x := QUARTERROUND 3 7 11 15 x in
  let x := QUARTERROUND 0 5 10 15 x in
  let x := QUARTERROUND 1 6 11 12 x in
  let x := QUARTERROUND 2 7 8 13 x in
  QUARTERROUND 3 4 9 14 x.

Fixpoint round_loop (fuel : nat) (i : Z) (x : list Z) : list Z :=
  match fuel with
  | O => x
  | S fuel => if 0 <? i then round_loop fuel (i - 2) (double_round x) else x
  end.

Definition chacha20_core (input : list Z) : list Z :=
  let x := round_loop 20 20 input in
  let x := zip_with (λ a b, u32 (a + b)) x input in
  concat (U32TO8_LITTLE <$> x).

(** [in] and [out] advance together; the result is what is written. *)
Fixpoint chacha_loop (fuel : nat) (input inp : list Z) : list Z :=
  match fuel with
  | O => []
  | S fuel =>
    if (0 <? length inp)%nat then
      let todo := if (length inp <? 64)%nat then length inp else 64%nat in
      let buf := chacha20_core input in
      xor_bytes (take todo inp) buf ++ chacha_loop fuel (<[12%nat := u32 (nthZ input 12 + 1)]> input) (drop todo inp)
    else []
  end.

Definition ChaCha20_ctr32 (inp key counter : list Z) : list Z :=
  let input := [U8TO32_LITTLE sigma; U8TO32_LITTLE (drop 4 sigma); U8TO32_LITTLE (drop 8 sigma); U8TO32_LITTLE (drop 12 sigma);
                nthZ key 0; nthZ key 1; nthZ key 2; nthZ key 3; nthZ key 4; nthZ key 5; nthZ key 6; nthZ key 7;
                nthZ counter 0; nthZ counter 1; nthZ counter 2; nthZ counter 3] in
  chacha_loop (length inp) input inp.

Definition CRYPTO_chacha_20 (inp key nonce : list Z) (counter : Z) : list Z :=
  let k := [U8TO32_LITTLE key; U8TO32_LITTLE (drop 4 key); U8TO32_LITTLE (drop 8 key); U8TO32_LITTLE (drop 12 key);
            U8TO32_LITTLE (drop 16 key); U8TO32_LITTLE (drop 20 key); U8TO32_LITTLE (drop 24 key); U8TO32_LITTLE (drop 28 key)] in
  let ctr := [counter; U8TO32_LITTLE nonce; U8TO32_LITTLE (drop 4 nonce); U8TO32_LITTLE (drop 8 nonce)] in
  ChaCha20_ctr32 inp k ctr.

(** ** Specification *)

Definition rotl (v : Z) (n : Z) : Z := (v * 2 ^ n) `mod` 2 ^ 32 + v / 2 ^ (32 - n).
Definition add32 (a b : Z) : Z := (a + b) `mod` 2 ^ 32.

(** The quarter round on a column. *)
Definition quarter (a b c d : Z) : Z * Z * Z * Z :=
  let a := add32 a b in let d := rotl (Z.lxor d a) 16 in
  let c := add32 c d in let b := rotl (Z.lxor b c) 12 in
  let a := add32 a b in let d := rotl (Z.lxor d a) 8 in
  let c := add32 c d in let b := rotl (Z.lxor b c) 7 in
  (a, b, c, d).

Record matrix := Rows { row0 : list Z; row1 : list Z; row2 : list Z; row3 : list Z }.

Fixpoint columns (a b c d : list Z) : matrix :=
  match a, b, c, d with
  | x :: a, y :: b, z :: c, w :: d =>
    let '(x, y, z, w) := quarter x y z w in
    let r := columns a b c d in Rows (x :: row0 r) (y :: row1 r) (z :: row2 r) (w :: row3 r)
  | _, _, _, _ => Rows [] [] [] []
  end.
Definition column_round (m : matrix) : matrix := columns (row0 m) (row1 m) (row2 m) (row3 m).

Definition rot (n : nat) (r : list Z) : list Z := drop n r ++ take n r.
Definition diagonals (m : matrix) : matrix := Rows (row0 m) (rot 1 (row1 m)) (rot 2 (row2 m)) (rot 3 (row3 m)).
Definition undo_diagonals (m : matrix) : matrix := Rows (row0 m) (rot 3 (row1 m)) (rot 2 (row2 m)) (rot 1 (row3 m)).
Definition chacha_double_round (m : matrix) : matrix := undo_diagonals (column_round (diagonals (column_round m))).

Definition rows_of (x : list Z) : matrix := Rows (take 4 x) (take 4 (drop 4 x)) (take 4 (drop 8 x)) (drop 12 x).
Definition words_of (m : matrix) : list Z := row0 m ++ row1 m ++ row2 m ++ row3 m.

(** "expand 32-byte k", the key, the block counter and the nonce. *)
Definition chacha_state (key nonce : list Z) (ctr : Z) : list Z :=
  [0x61707865; 0x3320646e; 0x79622d32; 0x6b206574] ++ ((λ i, le_load (take 4 (drop (4 * i) key))) <$> seq 0 8) ++ [ctr] ++
  ((λ i, le_load (take 4 (drop (4 * i) nonce))) <$> seq 0 3).

Definition chacha_block (key nonce : list Z) (ctr : Z) : list Z :=
  let s := chacha_state key nonce ctr in
  concat (le_store 4 <$> zip_with add32 (words_of (Nat.iter 10 chacha_double_round (rows_of s))) s).

(** The keystream of [n] blocks from block [ctr] on; the counter has 32 bits. *)
Definition chacha_stream (key nonce : list Z) (ctr : Z) (n : nat) : list Z :=
  concat ((λ i, chacha_block key nonce ((ctr + Z.of_nat i) `mod` 2 ^ 32)) <$> seq 0 n).

Definition chacha20 (key nonce : list Z) (ctr : Z) (m : list Z) : list Z := xor_bytes m (chacha_stream key nonce ctr ((length m + 63) / 64)).

(** ** The block function *)

Definition word (v : Z) : Prop := 0 ≤ v < 2 ^ 32.
Definition words (x : list Z) : Prop := Forall word x.

Lemma ROTATE_rotl v n : word v → 0 < n < 32 → ROTATE v n = rotl v n ∧ word (rotl v n).
Proof.
  intros Hv Hn. unfold ROTATE, rotl, u32, word in *. rewrite Z.shiftl_mul_pow2, Z.shiftr_div_pow2 by lia.
  assert (2 ^ 32 = 2 ^ (32 - n) * 2 ^ n) as E by (rewrite <- Z.pow_add_r by lia; f_equal; lia).
  assert (0 < 2 ^ n ∧ 0 < 2 ^ (32 - n)) as [H1 H2] by (split; apply Z.pow_pos_nonneg; lia).
  assert ((v * 2 ^ n) `mod` 2 ^ 32 = (v mod 2 ^ (32 - n)) * 2 ^ n) as E1 by (rewrite E; apply Z.mul_mod_distr_r; lia).
  pose proof (Z.mod_pos_bound v (2 ^ (32 - n)) H2) as Hm.
  assert (0 ≤ v / 2 ^ (32 - n) < 2 ^ n) as Hd by (split; [apply Z.div_pos; lia|apply Z.div_lt_upper_bound; lia]).
  rewrite E1. split; [rewrite <- Z.shiftl_mul_pow2, lor_shiftl_add, Z.shiftl_mul_pow2 by lia; done|]. rewrite E. nia.
Qed.

Lemma word_add a b : word (add32 a b).
Proof. apply Z.mod_pos_bound. lia. Qed.
Lemma word_lxor a b : word a → word b → word (Z.lxor a b).
Proof. apply lxor_bound. lia. Qed.

(** The body of the macro on its four words. *)
Definition quarter_by (rotate : Z → Z → Z) (a b c d : Z) : Z * Z * Z * Z :=
  let a := add32 a b in let d := rotate (Z.lxor d a) 16 in
  let c := add32 c d in let b := rotate (Z.lxor b c) 12 in
  let a := add32 a b in let d := rotate (Z.lxor d a) 8 in
  let c := add32 c d in let b := rotate (Z.lxor b c) 7 in
  (a, b, c, d).

Lemma quarter_rotate a b c d : word a → word b → word c → word d → quarter_by ROTATE a b c d = quarter a b c d ∧
  let '(a', b', c', d') := quarter a b c d in word a' ∧ word b' ∧ word c' ∧ word d'.
Proof.
  intros Ha Hb Hc Hd. unfold quarter_by, quarter. pose proof (word_add a b) as A1. set (a1 := add32 a b) in *.
  destruct (ROTATE_rotl (Z.lxor d a1) 16) as [-> D1]; [by apply word_lxor|lia|]. set (d1 := rotl (Z.lxor d a1) 16) in *. pose proof (word_add c d1) as C1. set (c1 := add32 c d1) in *.
  destruct (ROTATE_rotl (Z.lxor b c1) 12) as [-> B1]; [by apply word_lxor|lia|]. set (b1 := rotl (Z.lxor b c1) 12) in *. pose proof (word_add a1 b1) as A2. set (a2 := add32 a1 b1) in *.
  destruct (ROTATE_rotl (Z.lxor d1 a2) 8) as [-> D2]; [by apply word_lxor|lia|]. set (d2 := rotl (Z.lxor d1 a2) 8) in *. pose proof (word_add c1 d2) as C2. set (c2 := add32 c1 d2) in *.
  destruct (ROTATE_rotl (Z.lxor b1 c2) 7) as [-> B2]; [by apply word_lxor|lia|]. done.
Qed.

(** The eight instances of the macro. *)
Lemma QUARTERROUND_lines a0 a1 a2 a3 b0 b1 b2 b3 c0 c1 c2 c3 d0 d1 d2 d3 : let x := [a0; a1; a2; a3; b0; b1; b2; b3; c0; c1; c2; c3; d0; d1; d2; d3] in
    QUARTERROUND 0 4 8 12 x = (let '(a, b, c, d) := quarter_by ROTATE a0 b0 c0 d0 in [a; a1; a2; a3; b; b1; b2; b3; c; c1; c2; c3; d; d1; d2; d3]) ∧
    QUARTERROUND 1 5 9 13 x = (let '(a, b, c, d) := quarter_by ROTATE a1 b1 c1 d1 in [a0; a; a2; a3; b0; b; b2; b3; c0; c; c2; c3; d0; d; d2; d3]) ∧
    QUARTERROUND 2 6 10 14 x = (let '(a, b, c, d) := quarter_by ROTATE a2 b2 c2 d2 in [a0; a1; a; a3; b0; b1; b; b3; c0; c1; c; c3; d0; d1; d; d3]) ∧
    QUARTERROUND 3 7 11 15 x = (let '(a, b, c, d) := quarter_by ROTATE a3 b3 c3 d3 in [a0; a1; a2; a; b0; b1; b2; b; c0; c1; c2; c; d0; d1; d2; d]) ∧
    QUARTERROUND 0 5 10 15 x = (let '(a, b, c, d) := quarter_by ROTATE a0 b1 c2 d3 in [a; a1; a2; a3; b0; b; b2; b3; c0; c1; c; c3; d0; d1; d2; d]) ∧
    QUARTERROUND 1 6 11 12 x = (let '(a, b, c, d) := quarter_by ROTATE a1 b2 c3 d0 in [a0; a; a2; a3; b0; b1; b; b3; c0; c1; c2; c; d; d1; d2; d3]) ∧
    QUARTERROUND 2 7 8 13 x = (let '(a, b, c, d) := quarter_by ROTATE a2 b3 c0 d1 in [a0; a1; a; a3; b0; b1; b2; b; c; c1; c2; c3; d0; d; d2; d3]) ∧
    QUARTERROUND 3 4 9 14 x = (let '(a, b, c, d) := quarter_by ROTATE a3 b0 c1 d2 in [a0; a1; a2; a; b; b1; b2; b3; c0; c; c2; c3; d0; d1; d; d3]).
Proof. intros x. split_and!; reflexivity. Qed.

Ltac quarter_step :=
  match goal with |- context [quarter_by ROTATE ?a ?b ?c ?d] =>
    let H := fresh in let E := fresh "E" in
    destruct (quarter_rotate a b c d) as [E H]; [assumption..|]; rewrite E; clear E;
    destruct (quarter a b c d) as [[[? ?] ?] ?] eqn:E; destruct H as (? & ? & ? & ?); cbn [fst snd]
  end.

Lemma double_round_spec x : length x = 16%nat → words x →
  rows_of (double_round x) = chacha_double_round (rows_of x) ∧ length (double_round x) = 16%nat ∧ words (double_round x).
Proof.
  intros Hl Hx. do 16 (destruct x as [|? x]; [done|]). destruct x; [|done]. unfold words in *. do 16 (apply Forall_cons_1 in Hx as [? Hx]). clear Hl Hx.
  unfold double_round.
  rewrite (proj1 (QUARTERROUND_lines _ _ _ _ _ _ _ _ _ _ _ _ _ _ _ _)). quarter_step.
  rewrite (proj1 (proj2 (QUARTERROUND_lines _ _ _ _ _ _ _ _ _ _ _ _ _ _ _ _))). quarter_step.
  rewrite (proj1 (proj2 (proj2 (QUARTERROUND_lines _ _ _ _ _ _ _ _ _ _ _ _ _ _ _ _)))). quarter_step.
  rewrite (proj1 (proj2 (proj2 (proj2 (QUARTERROUND_lines _ _ _ _ _ _ _ _ _ _ _ _ _ _ _ _))))). quarter_step.
  rewrite (proj1 (proj2 (proj2 (proj2 (proj2 (QUARTERROUND_lines _ _ _ _ _ _ _ _ _ _ _ _ _ _ _ _)))))). quarter_step.
  rewrite (proj1 (proj2 (proj2 (proj2 (proj2 (proj2 (QUARTERROUND_lines _ _ _ _ _ _ _ _ _ _ _ _ _ _ _ _))))))). quarter_step.
  rewrite (proj1 (proj2 (proj2 (proj2 (proj2 (proj2 (proj2 (QUARTERROUND_lines _ _ _ _ _ _ _ _ _ _ _ _ _ _ _ _)))))))). quarter_step.
  rewrite (proj2 (proj2 (proj2 (proj2 (proj2 (proj2 (proj2 (QUARTERROUND_lines _ _ _ _ _ _ _ _ _ _ _ _ _ _ _ _)))))))). quarter_step.
  split; [|split; [done|]; repeat (apply Forall_cons_2; [assumption|]); apply Forall_nil_2].
  unfold chacha_double_round, column_round, rows_of. cbn [take drop row0 row1 row2 row3 columns].
  repeat match goal with E : quarter _ _ _ _ = _ |- _ => rewrite E; clear E; cbn [take drop row0 row1 row2 row3 columns diagonals rot app] end.
  done.
Qed.

Lemma rounds_spec n : ∀ x fuel, length x = 16%nat → words x → (n < fuel)%nat →
  let y := round_loop fuel (2 * Z.of_nat n) x in rows_of y = Nat.iter n chacha_double_round (rows_of x) ∧ length y = 16%nat ∧ words y.
Proof.
  induction n as [|n IH]; intros x [|fuel] Hl Hx Hf; try lia; cbn [round_loop]; [done|].
  rewrite (proj2 (Z.ltb_lt 0 _)) by lia. replace (2 * Z.of_nat (S n) - 2) with (2 * Z.of_nat n) by lia.
  destruct (double_round_spec x Hl Hx) as (E & Hl' & Hx'). destruct (IH (double_round x) fuel Hl' Hx' ltac:(lia)) as (E1 & H). split; [|done].
  rewrite E1, E. by rewrite Nat.iter_succ_r.
Qed.

Lemma words_rows x : words_of (rows_of x) = x.
Proof.
  unfold words_of, rows_of. cbn [row0 row1 row2 row3]. replace (drop 12 x) with (drop 4 (drop 8 x)) by (by rewrite drop_drop). rewrite take_drop.
  replace (drop 8 x) with (drop 4 (drop 4 x)) by (by rewrite drop_drop). by rewrite !take_drop.
Qed.

Lemma U32TO8_LITTLE_store v : U32TO8_LITTLE v = le_store 4 v.
Proof.
  unfold U32TO8_LITTLE. change 0xff with (Z.ones 8). rewrite !Z.land_ones by lia. rewrite !le_store_S, !Z.shiftr_shiftr by lia. done.
Qed.

Lemma length_stored l : length (concat (le_store 4 <$> l)) = (4 * length l)%nat.
Proof. induction l as [|v l IH]; [done|]. rewrite fmap_cons. cbn [concat length]. rewrite length_app, IH, length_le_store. lia. Qed.

Lemma core_spec x : length x = 16%nat → words x →
  chacha20_core x = concat (le_store 4 <$> zip_with add32 (words_of (Nat.iter 10 chacha_double_round (rows_of x))) x) ∧ length (chacha20_core x) = 64%nat.
Proof.
  intros Hl Hx. destruct (rounds_spec 10 x 20 Hl Hx ltac:(lia)) as (E & Hl' & _). change (2 * Z.of_nat 10) with 20 in *. rewrite <- E, words_rows. unfold chacha20_core.
  set (y := round_loop 20 20 x) in *. assert (U32TO8_LITTLE <$> zip_with (λ a b, u32 (a + b)) y x = le_store 4 <$> zip_with add32 y x) as ->.
  { apply list_fmap_ext. intros _ v _. apply U32TO8_LITTLE_store. }
  split; [done|]. rewrite length_stored, length_zip_with. lia.
Qed.

(** ** The keystream *)

Lemma U8TO32_LITTLE_load p : bytes p → (4 ≤ length p)%nat → U8TO32_LITTLE p = le_load (take 4 p).
Proof. apply lor4_load. Qed.

Lemma state_words key nonce ctr : bytes key → bytes nonce → length key = 32%nat → length nonce = 12%nat → word ctr →
  length (chacha_state key nonce ctr) = 16%nat ∧ words (chacha_state key nonce ctr).
Proof.
  intros Hk Hn Lk Ln Hc. split; [done|]. assert (∀ p i, bytes p → (4 * i + 4 ≤ length p)%nat → word (le_load (take 4 (drop (4 * i) p)))) as HW.
  { intros p i Hp Hi. apply (le_load_take_bound 4); [auto with vtls|rewrite length_drop; lia]. }
  unfold chacha_state. cbn [seq fmap list_fmap app]. repeat (apply Forall_cons_2; [first [assumption|apply HW; [assumption|lia]|unfold word; lia]|]). apply Forall_nil_2.
Qed.

Lemma xor_bytes_cut (m a b : list Z) : xor_bytes m (a ++ b) = xor_bytes (take (length a) m) a ++ xor_bytes (drop (length a) m) b.
Proof.
  unfold xor_bytes. revert m. induction a as [|x a IH]; intros [|y m]; cbn [length app take drop zip_with]; try done. by rewrite IH.
Qed.

Lemma stream_nil key nonce ctr : chacha_stream key nonce ctr 0 = [].
Proof. reflexivity. Qed.

Lemma stream_cons key nonce ctr n : word ctr → chacha_stream key nonce ctr (S n) = chacha_block key nonce ctr ++ chacha_stream key nonce ((ctr + 1) `mod` 2 ^ 32) n.
Proof.
  intros Hc. unfold chacha_stream. cbn [seq fmap list_fmap concat]. rewrite Z.add_0_r, Z.mod_small by done. apply (f_equal (app _)). rewrite <- fmap_S_seq. apply (f_equal (@concat Z)).
  rewrite <- list_fmap_compose. apply list_fmap_ext. intros _ i _. unfold compose. apply (f_equal (chacha_block key nonce)). rewrite Zplus_mod_idemp_l.
  apply (f_equal (λ z, z mod 2 ^ 32)). lia.
Qed.

Section stream.
Context (key nonce : list Z).
Context (Hk : bytes key) (Hn : bytes nonce) (Lk : length key = 32%nat) (Ln : length nonce = 12%nat).

Lemma block_core ctr : word ctr → chacha20_core (chacha_state key nonce ctr) = chacha_block key nonce ctr ∧ length (chacha_block key nonce ctr) = 64%nat.
Proof.
  intros Hc. destruct (state_words key nonce ctr Hk Hn Lk Ln Hc) as [H1 H2]. destruct (core_spec _ H1 H2) as [E1 E2]. rewrite E1 in E2. by split.
Qed.

Lemma chacha_loop_spec n : ∀ fuel inp ctr, word ctr → (length inp ≤ fuel)%nat → (length inp ≤ 64 * n)%nat →
  chacha_loop fuel (chacha_state key nonce ctr) inp = xor_bytes inp (chacha_stream key nonce ctr n).
Proof.
  induction n as [|n IH]; intros fuel inp ctr Hc Hf Hl.
  { assert (inp = []) as -> by (apply nil_length_inv; lia). by destruct fuel. }
  destruct inp as [|x inp]; [by destruct fuel|]. destruct fuel as [|fuel]; [cbn in Hf; lia|]. set (m := x :: inp) in *. cbn [chacha_loop].
  assert (0 < length m)%nat as H0 by (unfold m; cbn; lia). rewrite (proj2 (Nat.ltb_lt 0 _)) by done.
  destruct (block_core ctr Hc) as [-> Hb]. rewrite stream_cons, xor_bytes_cut, Hb by done.
  change (<[12%nat := u32 (nthZ (chacha_state key nonce ctr) 12 + 1)]> (chacha_state key nonce ctr)) with (chacha_state key nonce ((ctr + 1) `mod` 2 ^ 32)).
  assert (word ((ctr + 1) `mod` 2 ^ 32)) as Hc' by (apply Z.mod_pos_bound; lia).
  destruct (Nat.ltb_spec (length m) 64) as [H|H].
  - rewrite take_ge, !drop_ge, (take_ge m) by lia. apply (f_equal (app _)). destruct fuel; reflexivity.
  - apply (f_equal (app _)). apply IH; [done|rewrite length_drop; lia..].
Qed.

Lemma load_word p i : bytes p → (4 * i + 4 ≤ length p)%nat → le_load (take 4 (drop (4 * i) p)) = U8TO32_LITTLE (drop (4 * i) p).
Proof. intros Hp Hi. symmetry. apply U8TO32_LITTLE_load; [auto with vtls|rewrite length_drop; lia]. Qed.

Lemma chacha_20_spec m ctr : word ctr → CRYPTO_chacha_20 m key nonce ctr = chacha20 key nonce ctr m.
Proof.
  intros Hc. transitivity (chacha_loop (length m) (chacha_state key nonce ctr) m).
  - unfold CRYPTO_chacha_20, ChaCha20_ctr32, nthZ. cbn [nth]. apply (f_equal (λ s, chacha_loop (length m) s m)). unfold chacha_state. cbn [seq fmap list_fmap app].
    rewrite !load_word by (done || lia). reflexivity.
  - apply chacha_loop_spec; [done|done|]. pose proof (Nat.div_mod_eq (length m + 63) 64). pose proof (Nat.mod_upper_bound (length m + 63) 64 ltac:(lia)). lia.
Qed.

Lemma chacha_stream_length ctr n : word ctr → length (chacha_stream key nonce ctr n) = (64 * n)%nat.
Proof.
  revert ctr. induction n as [|n IH]; intros ctr Hc; [done|]. rewrite stream_cons, length_app, IH by (done || (apply Z.mod_pos_bound; lia)).
  destruct (block_core ctr Hc) as [_ ->]. lia.
Qed.

Lemma chacha20_length ctr m : word ctr → length (chacha20 key nonce ctr m) = length m.
Proof.
  intros Hc. unfold chacha20, xor_bytes. rewrite length_zip_with, chacha_stream_length by done.
  pose proof (Nat.div_mod_eq (length m + 63) 64). pose proof (Nat.mod_upper_bound (length m + 63) 64 ltac:(lia)). lia.
Qed.

Lemma chacha20_involutive ctr m : word ctr → chacha20 key nonce ctr (chacha20 key nonce ctr m) = m.
Proof.
  intros Hc. pose proof (chacha20_length ctr m Hc) as Hl. unfold chacha20 at 1. rewrite Hl. unfold chacha20. clear Hl.
  assert (length m ≤ length (chacha_stream key nonce ctr ((length m + 63) / 64)))%nat as Hs.
  { rewrite chacha_stream_length by done. pose proof (Nat.div_mod_eq (length m + 63) 64). pose proof (Nat.mod_upper_bound (length m + 63) 64 ltac:(lia)). lia. }
  generalize dependent (chacha_stream key nonce ctr ((length m + 63) / 64)). unfold xor_bytes.
  induction m as [|x m IH]; intros [|y s] Hs; cbn [length zip_with] in *; try done; try lia. rewrite IH by lia. by rewrite Z.lxor_assoc, Z.lxor_nilpotent, Z.lxor_0_r.
Qed.
End stream.

(** C18: ChaCha20.  The code computes the stream cipher of RFC 8439 for every key, nonce,
    message and starting block, the counter wrapping around at 32 bits, and applied twice it
    gives the message back. *)
Theorem chacha20_correct key nonce m ctr : bytes key → bytes nonce → length key = 32%nat → length nonce = 12%nat → 0 ≤ ctr < 2 ^ 32 →
  CRYPTO_chacha_20 m key nonce ctr = chacha20 key nonce ctr m ∧
  CRYPTO_chacha_20 (CRYPTO_chacha_20 m key nonce ctr) key nonce ctr = m.
Proof.
  intros Hk Hn Lk Ln Hc. rewrite !(chacha_20_spec key nonce Hk Hn Lk Ln) by done. split; [done|]. by apply chacha20_involutive.
Qed.

Definition demo_nonce : list Z := [0; 0; 0; 9; 0; 0; 0; 0x4a; 0; 0; 0; 0].

(** The block of RFC 8439, section 2.3.2. *)
Example chacha_block_rfc : take 8 (chacha_block (seqZ 0 32) demo_nonce 1) = [0x10; 0xf1; 0xe7; 0xe4; 0xd1; 0x3b; 0x59; 0x15].
Proof. vm_compute. reflexivity. Qed.

Lemma chacha20_correct_witness :
  CRYPTO_chacha_20 (seqZ 0 100) (seqZ 0 32) demo_nonce (2 ^ 32 - 1) = chacha20 (seqZ 0 32) demo_nonce (2 ^ 32 - 1) (seqZ 0 100) ∧
  CRYPTO_chacha_20 (CRYPTO_chacha_20 (seqZ 0 100) (seqZ 0 32) demo_nonce (2 ^ 32 - 1)) (seqZ 0 32) demo_nonce (2 ^ 32 - 1) = seqZ 0 100.
Proof.
  apply (chacha20_correct (seqZ 0 32) demo_nonce (seqZ 0 100) (2 ^ 32 - 1)).
  - apply (bool_decide_eq_true_1 _). vm_compute. reflexivity.
  - apply (bool_decide_eq_true_1 _). vm_compute. reflexivity.
  - reflexivity.
  - reflexivity.
  - lia.
Defined.
