(* ===== verification/AeadChaCha.v ===== *)
(** * Authenticated encryption with ChaCha20 and Poly1305

    Models [crypto/evp/e_chacha20poly1305.c] (both formats, the one of RFC 8439 and the
    older one) and [crypto/evp/evp_aead.c].  The build of Poly1305 is a parameter.

    [out] is the caller's buffer, of [max_out_len] bytes.  [None] is a write outside of it or
    an access through an unset [aead_state].  The input is read before a byte of the output
    overwrites it whenever [check_alias] passes, so that it is passed by value; [in_] and
    [out_] are the addresses. *)

From Stdlib Require Import String Ascii.
From S2P Require Import Prelude ConstTime Poly1305 ChaCha.

Definition POLY1305_TAG_LEN : Z := 16.
Record aead_chacha20_poly1305_ctx := C20 { c20_key : list Z; tag_len : Z }.

(** ** The interface *)

Section interface.
Context {S : Type}.

(** [seal] and [open] return 0 ([Some None]) or the buffer and [*out_len]. *)
Record EVP_AEAD := AEAD {
  key_len : Z; nonce_len : Z; overhead : Z; max_tag_len : Z;
  init : list Z → Z → bool → option S;
  cleanup : option S → option unit;
  seal : option S → list Z → list Z → list Z → list Z → option (option (list Z * Z));
  open : option S → list Z → list Z → list Z → list Z → option (option (list Z * Z))
}.
Record EVP_AEAD_CTX := AeadCtx { aead : option EVP_AEAD; aead_state : option S }.

(** [mem]: whether memory can be allocated. *)
Definition EVP_AEAD_CTX_init (ctx : EVP_AEAD_CTX) (a : EVP_AEAD) (key : list Z) (tag_len : Z) (mem : bool) : Z * EVP_AEAD_CTX :=
  if negb (Z.of_nat (length key) =? key_len a) then (0, AeadCtx (Some a) (aead_state ctx))
  else match init a key tag_len mem with
       | None => (0, AeadCtx (Some a) (aead_state ctx))
       | Some s => (1, AeadCtx (Some a) (Some s))
       end.

Definition EVP_AEAD_CTX_cleanup (ctx : EVP_AEAD_CTX) : option EVP_AEAD_CTX :=
  match aead ctx with
  | None => Some ctx
  | Some a => _ ← cleanup a (aead_state ctx); Some (AeadCtx None (aead_state ctx))
  end.

Definition check_alias (in_ in_len out_ : Z) : bool :=
  if out_ <=? in_ then true else if in_ + in_len <=? out_ then true else false.

(** The return value, the buffer and [*out_len]. *)
Definition aead_error (out : list Z) : Z * list Z * Z := (0, replicate (length out) 0, 0).

Definition EVP_AEAD_CTX_seal (ctx : EVP_AEAD_CTX) (in_ out_ : Z) (out nonce inp ad : list Z) : option (Z * list Z * Z) :=
  a ← aead ctx;
  let in_len := Z.of_nat (length inp) in
  if u64 (in_len + overhead a) <? in_len then Some (aead_error out)
  else if negb (check_alias in_ in_len out_) then Some (aead_error out)
  else
    r ← seal a (aead_state ctx) out nonce inp ad;
    Some (match r with Some (out', n) => (1, out', n) | None => aead_error out end).

Definition EVP_AEAD_CTX_open (ctx : EVP_AEAD_CTX) (in_ out_ : Z) (out nonce inp ad : list Z) : option (Z * list Z * Z) :=
  a ← aead ctx;
  if negb (check_alias in_ (Z.of_nat (length inp)) out_) then Some (aead_error out)
  else
    r ← open a (aead_state ctx) out nonce inp ad;
    Some (match r with Some (out', n) => (1, out', n) | None => aead_error out end).
End interface.
Arguments EVP_AEAD S : clear implicits.
Arguments EVP_AEAD_CTX S : clear implicits.

(** ** ChaCha20 and Poly1305 *)

Definition aead_chacha20_poly1305_init (key : list Z) (tag_len : Z) (mem : bool) : option aead_chacha20_poly1305_ctx :=
  let tag_len := if tag_len =? 0 then POLY1305_TAG_LEN else tag_len in
  if POLY1305_TAG_LEN <? tag_len then None
  else if negb (Z.of_nat (length key) =? 32) then None
  else if negb mem then None
  else Some (C20 key (u8 tag_len)).

Definition aead_chacha20_poly1305_cleanup (s : option aead_chacha20_poly1305_ctx) : option unit := _ ← s; Some ().

Section aead.
Context {B : build}.

(** The automatic variable, before it is initialised. *)
Context (stack : poly1305_state B).

Fixpoint length_loop (n : nat) (data_len : Z) : list Z :=
  match n with
  | O => []
  | S n => u8 data_len :: length_loop n (data_len ≫ 8)
  end.
Definition poly1305_update_length (ctx : poly1305_state B) (data_len : Z) : poly1305_state B := CRYPTO_poly1305_update ctx (length_loop 8 data_len).

Definition poly1305_update_padded_16 (ctx : poly1305_state B) (d : list Z) : poly1305_state B :=
  let ctx := CRYPTO_poly1305_update ctx d in
  let rem := Z.of_nat (length d) `mod` 16 in
  if negb (rem =? 0) then CRYPTO_poly1305_update ctx (take (Z.to_nat (16 - rem)) (replicate 16 0)) else ctx.

Definition poly1305_update (ctx : poly1305_state B) (ad ciphertext : list Z) : poly1305_state B :=
  let ctx := poly1305_update_padded_16 ctx ad in
  let ctx := poly1305_update_padded_16 ctx ciphertext in
  let ctx := poly1305_update_length ctx (Z.of_nat (length ad)) in
  poly1305_update_length ctx (Z.of_nat (length ciphertext)).

Definition poly1305_update_old (ctx : poly1305_state B) (ad ciphertext : list Z) : poly1305_state B :=
  let ctx := CRYPTO_poly1305_update ctx ad in
  let ctx := poly1305_update_length ctx (Z.of_nat (length ad)) in
  let ctx := CRYPTO_poly1305_update ctx ciphertext in
  poly1305_update_length ctx (Z.of_nat (length ciphertext)).

Definition aead_poly1305 (update : poly1305_state B → list Z → list Z → poly1305_state B) (c : aead_chacha20_poly1305_ctx) (nonce ad ciphertext : list Z) : list Z :=
  let poly1305_key := CRYPTO_chacha_20 (replicate 32 0) (c20_key c) nonce 0 in
  CRYPTO_poly1305_finish (update (CRYPTO_poly1305_init stack poly1305_key) ad ciphertext).

Definition seal_impl (update : poly1305_state B → list Z → list Z → poly1305_state B) (s : option aead_chacha20_poly1305_ctx) (out nonce inp ad : list Z) : option (option (list Z * Z)) :=
  c ← s;
  let in_len := Z.of_nat (length inp) in
  if 2 ^ 32 * 64 - 64 <=? in_len then Some None
  else if u64 (in_len + tag_len c) <? in_len then Some None
  else if Z.of_nat (length out) <? u64 (in_len + tag_len c) then Some None
  else
    let out := splice out 0 (CRYPTO_chacha_20 inp (c20_key c) nonce 1) in
    let tag := aead_poly1305 update c nonce ad (take (length inp) out) in
    Some (Some (splice out (length inp) (take (Z.to_nat (tag_len c)) tag), u64 (in_len + tag_len c))).

Definition open_impl (update : poly1305_state B → list Z → list Z → poly1305_state B) (s : option aead_chacha20_poly1305_ctx) (out nonce inp ad : list Z) : option (option (list Z * Z)) :=
  c ← s;
  let in_len := Z.of_nat (length inp) in
  if in_len <? tag_len c then Some None
  else if 2 ^ 32 * 64 - 64 <=? in_len then Some None
  else
    let plaintext_len := Z.to_nat (in_len - tag_len c) in
    let tag := aead_poly1305 update c nonce ad (take plaintext_len inp) in
    if negb (CRYPTO_memcmp tag (drop plaintext_len inp) (Z.to_nat (tag_len c)) =? 0) then Some None
    else if (length out <? plaintext_len)%nat then None
    else Some (Some (splice out 0 (CRYPTO_chacha_20 (take plaintext_len inp) (c20_key c) nonce 1), Z.of_nat plaintext_len)).

Definition aead_chacha20_poly1305_seal (s : option aead_chacha20_poly1305_ctx) (out nonce inp ad : list Z) : option (option (list Z * Z)) :=
  if negb (length nonce =? 12)%nat then Some None else seal_impl poly1305_update s out nonce inp ad.
Definition aead_chacha20_poly1305_open (s : option aead_chacha20_poly1305_ctx) (out nonce inp ad : list Z) : option (option (list Z * Z)) :=
  if negb (length nonce =? 12)%nat then Some None else open_impl poly1305_update s out nonce inp ad.

Definition aead_chacha20_poly1305_old_seal (s : option aead_chacha20_poly1305_ctx) (out nonce inp ad : list Z) : option (option (list Z * Z)) :=
  if negb (length nonce =? 8)%nat then Some None else seal_impl poly1305_update_old s out (replicate 4 0 ++ nonce) inp ad.
Definition aead_chacha20_poly1305_old_open (s : option aead_chacha20_poly1305_ctx) (out nonce inp ad : list Z) : option (option (list Z * Z)) :=
  if negb (length nonce =? 8)%nat then Some None else open_impl poly1305_update_old s out (replicate 4 0 ++ nonce) inp ad.

Definition EVP_aead_chacha20_poly1305 : EVP_AEAD aead_chacha20_poly1305_ctx :=
  AEAD 32 12 POLY1305_TAG_LEN POLY1305_TAG_LEN aead_chacha20_poly1305_init aead_chacha20_poly1305_cleanup aead_chacha20_poly1305_seal aead_chacha20_poly1305_open.
Definition EVP_aead_chacha20_poly1305_old : EVP_AEAD aead_chacha20_poly1305_ctx :=
  AEAD 32 8 POLY1305_TAG_LEN POLY1305_TAG_LEN aead_chacha20_poly1305_init aead_chacha20_poly1305_cleanup aead_chacha20_poly1305_old_seal aead_chacha20_poly1305_old_open.
End aead.

(** ** Specification *)

Definition pad16 (d : list Z) : list Z := d ++ replicate (Z.to_nat ((- Z.of_nat (length d)) `mod` 16)) 0.
(** What is authenticated, in the two formats. *)
Definition auth_data (old : bool) (ad c : list Z) : list Z :=
  if old then ad ++ le_store 8 (Z.of_nat (length ad)) ++ c ++ le_store 8 (Z.of_nat (length c))
  else pad16 ad ++ pad16 c ++ le_store 8 (Z.of_nat (length ad)) ++ le_store 8 (Z.of_nat (length c)).
Definition full_nonce (old : bool) (nonce : list Z) : list Z := if old then replicate 4 0 ++ nonce else nonce.
Definition one_time_key (key nonce : list Z) : list Z := take 32 (chacha_block key nonce 0).

(** Encryption with a [mac] and tags of [tl] bytes; RFC 8439 for [mac := poly1305]. *)
Definition sealed (mac : list Z → list Z → list Z) (old : bool) (tl : nat) (key nonce ad m : list Z) : list Z :=
  let nonce := full_nonce old nonce in
  let c := chacha20 key nonce 1 m in
  c ++ take tl (mac (one_time_key key nonce) (auth_data old ad c)).

(** ** Correctness *)

Lemma length_loop_store n v : length_loop n v = le_store n v.
Proof. revert v. induction n as [|n IH]; intros v; [done|]. cbn [length_loop]. by rewrite le_store_S, IH. Qed.

Lemma xor_zeros n s : xor_bytes (replicate n 0) s = take n s.
Proof. unfold xor_bytes. revert s. induction n as [|n IH]; intros [|x s]; cbn [replicate zip_with take]; try done. by rewrite IH. Qed.

Lemma bytes_stream key nonce ctr n : bytes (chacha_stream key nonce ctr n).
Proof.
  assert (∀ l, bytes (concat (le_store 4 <$> l))) as Hs.
  { induction l as [|v l IH]; [apply Forall_nil_2|]. rewrite fmap_cons. cbn [concat]. apply bytes_app; [apply bytes_le_store|done]. }
  unfold chacha_stream. generalize (seq 0 n) as l. induction l as [|i l IH]; [apply Forall_nil_2|]. rewrite fmap_cons. cbn [concat]. apply bytes_app; [apply Hs|done].
Qed.

#[local] Opaque chacha_block.

Lemma bytes_chacha20 key nonce ctr m : bytes m → bytes (chacha20 key nonce ctr m).
Proof. intros Hm. apply bytes_xor; [done|apply bytes_stream]. Qed.

Lemma bytes_pad16 d : bytes d → bytes (pad16 d).
Proof. intros. unfold pad16. auto with vtls. Qed.

Lemma bytes_auth old ad c : bytes ad → bytes c → bytes (auth_data old ad c).
Proof. intros. unfold auth_data. destruct old; auto 10 using bytes_app, bytes_le_store, bytes_pad16. Qed.

Section correct.
Context {B : build} `{!PolyBuild B} (stack : poly1305_state B) (Hstack : length (data stack) = 16%nat).

(** The tag does not depend on how the message is cut. *)
Lemma tag_cut key ps : poly1305_tag stack key ps = poly1305_tag stack key [concat ps].
Proof. rewrite !poly1305_tag_run by done. cbn [concat]. by rewrite app_nil_r. Qed.

Definition code_mac (key m : list Z) : list Z := poly1305_tag stack key [m].

Lemma code_mac_store key m : bytes key → length key = 32%nat → bytes m → ∃ v, code_mac key m = le_store 16 v.
Proof.
  intros Hk Hl Hm. unfold code_mac. rewrite poly1305_tag_run by done. cbn [concat]. rewrite app_nil_r. destruct (init_ok key Hk ltac:(lia)) as (I1 & I2 & I3).
  destruct (run_acc _ _ (blocks16_lengths _ Hm) _ 0 I1 I3 ltac:(by rewrite I2)) as [R1 _]. unfold nonce_words.
  pose proof (emit_ok (run (poly1305_init B key) (blocks16 m)) (drop 16 key) R1 ltac:(auto with vtls) ltac:(rewrite length_drop; lia)) as E.
  rewrite !drop_drop in E. cbn [Nat.add] in E. rewrite E. by eexists.
Qed.

Lemma code_mac_length key m : bytes key → length key = 32%nat → bytes m → length (code_mac key m) = 16%nat.
Proof. intros Hk Hl Hm. destruct (code_mac_store key m Hk Hl Hm) as [v ->]. apply length_le_store. Qed.

Lemma code_mac_bytes key m : bytes key → length key = 32%nat → bytes m → bytes (code_mac key m).
Proof. intros Hk Hl Hm. destruct (code_mac_store key m Hk Hl Hm) as [v ->]. apply bytes_le_store. Qed.

Definition update_of (old : bool) : poly1305_state B → list Z → list Z → poly1305_state B := if old then poly1305_update_old else poly1305_update.

Definition pieces16 (d : list Z) : list (list Z) := d :: if Z.of_nat (length d) `mod` 16 =? 0 then [] else [drop (length d) (pad16 d)].

Lemma concat_pieces16 d : concat (pieces16 d) = pad16 d.
Proof.
  unfold pieces16, pad16. rewrite drop_app_length. destruct (Z.eqb_spec (Z.of_nat (length d) `mod` 16) 0) as [E|E]; cbn [concat]; [|by rewrite app_nil_r].
  rewrite Z.mod_opp_l_z by (done || lia). done.
Qed.

Lemma padded_pieces (ctx : poly1305_state B) d : poly1305_update_padded_16 ctx d = foldl CRYPTO_poly1305_update ctx (pieces16 d).
Proof.
  unfold poly1305_update_padded_16, pieces16, pad16. rewrite drop_app_length. destruct (Z.eqb_spec (Z.of_nat (length d) `mod` 16) 0) as [E|E]; cbn [negb foldl]; [done|].
  rewrite take_replicate, Z.mod_opp_l_nz by (done || lia). do 2 f_equal. Z.div_mod_to_equations. lia.
Qed.

Lemma update_pieces old (ctx : poly1305_state B) ad c : ∃ ps, update_of old ctx ad c = foldl CRYPTO_poly1305_update ctx ps ∧ concat ps = auth_data old ad c.
Proof.
  destruct old; cbn [update_of auth_data].
  - exists [ad; le_store 8 (Z.of_nat (length ad)); c; le_store 8 (Z.of_nat (length c))]. unfold poly1305_update_old, poly1305_update_length. rewrite !length_loop_store.
    split; [reflexivity|]. cbn [concat]. by rewrite app_nil_r.
  - exists (pieces16 ad ++ pieces16 c ++ [le_store 8 (Z.of_nat (length ad)); le_store 8 (Z.of_nat (length c))]). unfold poly1305_update, poly1305_update_length.
    rewrite !length_loop_store, !padded_pieces, !foldl_app. split; [reflexivity|]. rewrite !concat_app, !concat_pieces16. cbn [concat]. by rewrite app_nil_r.
Qed.

Context (old : bool) (key nonce : list Z) (tl : Z).
Context (Hk : bytes key) (Lk : length key = 32%nat) (Hn : bytes nonce) (Ln : length nonce = if old then 8%nat else 12%nat) (Htl : 0 < tl ≤ 16).
Let N := full_nonce old nonce.
Let seal_of := sealed code_mac old (Z.to_nat tl) key nonce.

Lemma N_ok : bytes N ∧ length N = 12%nat.
Proof.
  unfold N, full_nonce. destruct old; [|by split]. split; [auto with vtls|]. rewrite length_app, length_replicate. lia.
Qed.

Lemma key_spec : CRYPTO_chacha_20 (replicate 32 0) key N 0 = one_time_key key N ∧ bytes (one_time_key key N) ∧ length (one_time_key key N) = 32%nat.
Proof.
  destruct N_ok as [H1 H2]. rewrite chacha_20_spec by (done || (unfold word; lia)). unfold chacha20. rewrite xor_zeros. rewrite length_replicate.
  assert (chacha_stream key N 0 ((32 + 63) / 64) = chacha_block key N 0) as E.
  { change ((32 + 63) / 64)%nat with 1%nat. rewrite stream_cons by (unfold word; lia). rewrite stream_nil, app_nil_r. reflexivity. }
  pose proof (bytes_stream key N 0 ((32 + 63) / 64)) as Hb. rewrite E in Hb |- *. split; [reflexivity|]. unfold one_time_key. split; [by apply bytes_take|].
  rewrite length_take. destruct (block_core key N Hk H1 Lk H2 0) as [_ ->]; [unfold word; lia|]. lia.
Qed.

Lemma aead_poly1305_spec ad c : aead_poly1305 stack (update_of old) (C20 key tl) N ad c = code_mac (one_time_key key N) (auth_data old ad c).
Proof.
  unfold aead_poly1305. cbn [c20_key]. rewrite (proj1 key_spec). destruct (update_pieces old (CRYPTO_poly1305_init stack (one_time_key key N)) ad c) as (ps & -> & Ep).
  change (poly1305_tag stack (one_time_key key N) ps = code_mac (one_time_key key N) (auth_data old ad c)). rewrite tag_cut, Ep. reflexivity.
Qed.

Lemma aead_tag_length ad c : bytes ad → bytes c → length (code_mac (one_time_key key N) (auth_data old ad c)) = 16%nat.
Proof. intros. destruct key_spec as (_ & H1 & H2). apply code_mac_length; [done|done|by apply bytes_auth]. Qed.

Lemma sealed_length ad m : bytes ad → bytes m → Z.of_nat (length (seal_of ad m)) = Z.of_nat (length m) + tl.
Proof.
  intros. unfold seal_of, sealed. fold N. destruct N_ok. rewrite length_app, length_take, aead_tag_length by (done || by apply bytes_chacha20).
  rewrite chacha20_length by (done || (unfold word; lia)). lia.
Qed.

Definition limit : Z := 2 ^ 32 * 64 - 64.

Lemma splice_start (out a : list Z) : splice out 0 a = a ++ drop (length a) out.
Proof. done. Qed.

Lemma seal_impl_spec out ad m : bytes ad → bytes m →
  seal_impl stack (update_of old) (Some (C20 key tl)) out N m ad =
  Some (if (Z.of_nat (length m) <? limit) && (Z.of_nat (length (seal_of ad m)) <=? Z.of_nat (length out))
        then Some (seal_of ad m ++ drop (length (seal_of ad m)) out, Z.of_nat (length (seal_of ad m))) else None).
Proof.
  intros Ha Hm. pose proof (sealed_length ad m Ha Hm) as Hs. rewrite Hs. destruct N_ok as [H1 H2]. unfold seal_impl. cbn [mbind option_bind tag_len c20_key]. fold limit.
  destruct (Z.leb_spec limit (Z.of_nat (length m))) as [H|H]; [by rewrite (proj2 (Z.ltb_ge _ _)) by done|].
  rewrite (proj2 (Z.ltb_lt _ limit)) by done. cbn [andb]. unfold limit in H. rewrite u64_small by lia. rewrite (proj2 (Z.ltb_ge _ _)) by lia.
  rewrite Z.ltb_antisym. destruct (Z.leb_spec (Z.of_nat (length m) + tl) (Z.of_nat (length out))) as [Ho|Ho]; cbn [negb]; [|done]. do 2 f_equal. f_equal.
  rewrite chacha_20_spec by (done || (unfold word; lia)). set (c := chacha20 key N 1 m).
  assert (length c = length m) as Hc by (apply chacha20_length; done || (unfold word; lia)). assert (bytes c) as Hcb by by apply bytes_chacha20.
  rewrite splice_start, <- Hc, take_app_length, aead_poly1305_spec. pose proof (aead_tag_length ad c Ha Hcb) as Ht.
  set (t := code_mac _ _) in *. assert (seal_of ad m = c ++ take (Z.to_nat tl) t) as -> by reflexivity. unfold splice. rewrite take_app_length.
  rewrite <- app_assoc. f_equal. f_equal. rewrite drop_app_ge, drop_drop by lia. f_equal. rewrite length_app. lia.
Qed.

(** What is accepted: the tag of the rest. *)
Lemma open_impl_cases out ad c : bytes ad → bytes c → Z.of_nat (length c) - tl ≤ Z.of_nat (length out) →
  let m := chacha20 key N 1 (take (Z.to_nat (Z.of_nat (length c) - tl)) c) in
  open_impl stack (update_of old) (Some (C20 key tl)) out N c ad =
  Some (if decide (tl ≤ Z.of_nat (length c) < limit ∧ c = seal_of ad m) then Some (m ++ drop (length m) out, Z.of_nat (length m)) else None).
Proof.
  intros Ha Hc Ho m. destruct N_ok as [H1 H2]. unfold open_impl. cbn [mbind option_bind tag_len c20_key]. fold limit.
  destruct (Z.ltb_spec (Z.of_nat (length c)) tl) as [H|H]; [by rewrite decide_False by lia|].
  destruct (Z.leb_spec limit (Z.of_nat (length c))) as [H'|H']; [by rewrite decide_False by lia|].
  set (k := Z.to_nat (Z.of_nat (length c) - tl)) in *. set (p := take k c) in *. assert (length p = k) as Hp by (unfold p; rewrite length_take; lia).
  assert (bytes p) as Hpb by by apply bytes_take. rewrite aead_poly1305_spec, chacha_20_spec by (done || (unfold word; lia)). fold m.
  assert (length m = k) as Hm by (unfold m; rewrite chacha20_length; done || (unfold word; lia)).
  pose proof (aead_tag_length ad p Ha Hpb) as Ht. set (t := code_mac (one_time_key key N) (auth_data old ad p)) in *.
  assert (seal_of ad m = p ++ take (Z.to_nat tl) t) as Es.
  { unfold seal_of, sealed. fold N. unfold m. rewrite chacha20_involutive by (done || (unfold word; lia)). reflexivity. }
  assert (CRYPTO_memcmp t (drop k c) (Z.to_nat tl) = 0 ↔ c = seal_of ad m) as Hiff.
  { unfold CRYPTO_memcmp. rewrite memcmp_loop_zero by (rewrite ?length_drop; lia). rewrite Es, (take_ge (drop k c)) by (rewrite length_drop; lia).
    rewrite <- (take_drop k c) at 2. fold p. split; [by intros [_ ->]|]. intros E. apply app_inj_1 in E as [_ E]; [by split|done]. }
  destruct (Z.eqb_spec (CRYPTO_memcmp t (drop k c) (Z.to_nat tl)) 0) as [E|E]; cbn [negb].
  - rewrite decide_True by (split; [lia|by apply Hiff]). rewrite (proj2 (Nat.ltb_ge _ _)) by lia. rewrite splice_start, Hm. done.
  - rewrite decide_False; [done|]. intros [_ E']. by apply Hiff in E'.
Qed.

Lemma unseal ad c m : bytes ad → bytes m → c = seal_of ad m → chacha20 key N 1 (take (Z.to_nat (Z.of_nat (length c) - tl)) c) = m.
Proof.
  intros Ha Hm E. destruct N_ok as [H1 H2]. pose proof (sealed_length ad m Ha Hm) as Hs. rewrite <- E in Hs.
  replace (Z.to_nat (Z.of_nat (length c) - tl)) with (length m) by lia. rewrite E.
  assert (length (chacha20 key N 1 m) = length m) as Hlm by (apply chacha20_length; done || (unfold word; lia)).
  assert (take (length m) (seal_of ad m) = chacha20 key N 1 m) as ->; [|apply chacha20_involutive; done || (unfold word; lia)].
  unfold seal_of, sealed. fold N. by rewrite take_app_le, take_ge by lia.
Qed.

Lemma sealed_dec ad c : bytes ad → bytes c → (∃ m, bytes m ∧ c = seal_of ad m) ∨ (∀ m, bytes m → c ≠ seal_of ad m).
Proof.
  intros Ha Hc. set (m0 := chacha20 key N 1 (take (Z.to_nat (Z.of_nat (length c) - tl)) c)). destruct (decide (c = seal_of ad m0)) as [E|E].
  - left. exists m0. split; [apply bytes_chacha20; auto with vtls|done].
  - right. intros m Hm E'. apply E. unfold m0. by rewrite (unseal ad c m Ha Hm E').
Qed.

Lemma open_impl_spec out ad c : bytes ad → bytes c → Z.of_nat (length c) - tl ≤ Z.of_nat (length out) →
  (∀ m, bytes m → c = seal_of ad m → Z.of_nat (length c) < limit →
     open_impl stack (update_of old) (Some (C20 key tl)) out N c ad = Some (Some (m ++ drop (length m) out, Z.of_nat (length m)))) ∧
  ((∀ m, bytes m → c = seal_of ad m → limit ≤ Z.of_nat (length c)) → open_impl stack (update_of old) (Some (C20 key tl)) out N c ad = Some None).
Proof.
  intros Ha Hc Ho. rewrite open_impl_cases by done. set (m0 := chacha20 key N 1 _). split.
  - intros m Hm E Hl. pose proof (sealed_length ad m Ha Hm) as Hs. rewrite <- E in Hs.
    assert (m0 = m) as -> by by apply (unseal ad). by rewrite decide_True by (split; [lia|done]).
  - intros H. rewrite decide_False; [done|]. intros [Hl E]. assert (bytes m0) as Hb by (apply bytes_chacha20; auto with vtls). specialize (H m0 Hb E). lia.
Qed.
End correct.

Definition aead_of {B} (stack : poly1305_state B) (old : bool) : EVP_AEAD aead_chacha20_poly1305_ctx :=
  if old then EVP_aead_chacha20_poly1305_old stack else EVP_aead_chacha20_poly1305 stack.

Lemma aead_calls {B} (stack : poly1305_state B) (old : bool) (s : option aead_chacha20_poly1305_ctx) (out nonce inp ad : list Z) : length nonce = (if old then 8%nat else 12%nat) →
  seal (aead_of stack old) s out nonce inp ad = seal_impl stack (update_of old) s out (full_nonce old nonce) inp ad ∧
  open (aead_of stack old) s out nonce inp ad = open_impl stack (update_of old) s out (full_nonce old nonce) inp ad.
Proof.
  intros Hl. destruct old; cbn [aead_of seal open EVP_aead_chacha20_poly1305_old EVP_aead_chacha20_poly1305];
    unfold aead_chacha20_poly1305_seal, aead_chacha20_poly1305_open, aead_chacha20_poly1305_old_seal, aead_chacha20_poly1305_old_open; by rewrite Hl.
Qed.

Definition default_tag (tag : Z) : Z := if tag =? 0 then POLY1305_TAG_LEN else tag.

Lemma aead_init {B} (stack : poly1305_state B) old ctx key tag : length key = 32%nat → 0 ≤ tag ≤ 16 →
  EVP_AEAD_CTX_init ctx (aead_of stack old) key tag true = (1, AeadCtx (Some (aead_of stack old)) (Some (C20 key (default_tag tag)))) ∧ 0 < default_tag tag ≤ 16.
Proof.
  intros Hk Ht. assert (0 < default_tag tag ≤ 16) as Hd by (unfold default_tag, POLY1305_TAG_LEN; destruct (Z.eqb_spec tag 0); lia). split; [|done].
  unfold EVP_AEAD_CTX_init. assert (key_len (aead_of stack old) = 32) as -> by by destruct old. assert (init (aead_of stack old) = aead_chacha20_poly1305_init) as -> by by destruct old.
  unfold aead_chacha20_poly1305_init. rewrite Hk. cbn [negb Z.of_nat Z.eqb]. fold (default_tag tag).
  rewrite (proj2 (Z.ltb_ge POLY1305_TAG_LEN _)) by (unfold POLY1305_TAG_LEN; lia). cbn. unfold u8. rewrite Z.mod_small by lia. done.
Qed.

Lemma seal_refused {B} (stack : poly1305_state B) (old : bool) s (out nonce m ad : list Z) (c : aead_chacha20_poly1305_ctx) : length nonce = (if old then 8%nat else 12%nat) → s = Some c →
  limit ≤ Z.of_nat (length m) → seal (aead_of stack old) s out nonce m ad = Some None.
Proof.
  intros Hl -> Hm. rewrite (proj1 (aead_calls stack old _ _ _ _ _ Hl)). unfold seal_impl. cbn [mbind option_bind]. by rewrite (proj2 (Z.leb_le _ _)) by done.
Qed.

Lemma aead_ctx_correct {B} `{!PolyBuild B} (stack : poly1305_state B) (old : bool) ctx0 key nonce ad tag in_ out_ :
  length (data stack) = 16%nat → bytes key → length key = 32%nat → bytes nonce → length nonce = (if old then 8%nat else 12%nat) → bytes ad → 0 ≤ tag ≤ 16 →
  let tl := default_tag tag in
  let s := sealed (code_mac stack) old (Z.to_nat tl) key nonce ad in
  ∃ ctx, EVP_AEAD_CTX_init ctx0 (aead_of stack old) key tag true = (1, ctx) ∧
  (∀ m out, bytes m → check_alias in_ (Z.of_nat (length m)) out_ = true →
     EVP_AEAD_CTX_seal ctx in_ out_ out nonce m ad =
     Some (if (Z.of_nat (length m) <? limit) && (Z.of_nat (length (s m)) <=? Z.of_nat (length out))
           then (1, s m ++ drop (length (s m)) out, Z.of_nat (length (s m))) else aead_error out)) ∧
  (∀ c out, bytes c → check_alias in_ (Z.of_nat (length c)) out_ = true → Z.of_nat (length c) - tl ≤ Z.of_nat (length out) →
     (∀ m, bytes m → c = s m → Z.of_nat (length c) < limit → EVP_AEAD_CTX_open ctx in_ out_ out nonce c ad = Some (1, m ++ drop (length m) out, Z.of_nat (length m))) ∧
     ((∀ m, bytes m → c = s m → limit ≤ Z.of_nat (length c)) → EVP_AEAD_CTX_open ctx in_ out_ out nonce c ad = Some (aead_error out))) ∧
  (∀ m, bytes m → let N := full_nonce old nonce in
     carries_kept (poly1305_init B (one_time_key key N)) (blocks16 (auth_data old ad (chacha20 key N 1 m))) = true →
     s m = sealed poly1305 old (Z.to_nat tl) key nonce ad m).
Proof.
  intros Hs Hk Lk Hn Ln Ha Ht tl s. destruct (aead_init stack old ctx0 key tag Lk Ht) as [Hi Hd]. fold tl in Hi, Hd. eexists. split; [exact Hi|]. split_and!.
  - intros m out Hm Hal. unfold EVP_AEAD_CTX_seal. cbn [aead aead_state mbind option_bind]. rewrite Hal. cbn [negb].
    destruct (Z.ltb_spec (Z.of_nat (length m)) limit) as [H|H]; cbn [andb].
    + assert (overhead (aead_of stack old) = 16) as -> by by destruct old. unfold limit in H. rewrite u64_small, (proj2 (Z.ltb_ge _ _)) by lia.
      rewrite (proj1 (aead_calls stack old _ _ _ _ _ Ln)), (seal_impl_spec stack Hs old key nonce tl Hk Lk Hn Ln Hd) by done.
      rewrite (proj2 (Z.ltb_lt _ _)) by done. cbn [andb mbind option_bind]. fold s. by destruct (_ <=? _).
    + destruct (_ <? _); [done|]. by rewrite (seal_refused stack old _ out nonce m ad (C20 key tl) Ln eq_refl H).
  - intros c out Hc Hal Ho. destruct (open_impl_spec stack Hs old key nonce tl Hk Lk Hn Ln Hd out ad c Ha Hc Ho) as [O1 O2].
    unfold EVP_AEAD_CTX_open. cbn [aead aead_state mbind option_bind]. rewrite Hal. cbn [negb]. rewrite (proj2 (aead_calls stack old _ _ _ _ _ Ln)).
    split; [intros m Hm E Hl; by rewrite (O1 m Hm E Hl)|intros H; by rewrite (O2 H)].
  - intros m Hm N Hkept. unfold s, sealed. fold N. f_equal. f_equal. unfold code_mac.
    destruct (key_spec stack Hs old key nonce tl Hk Lk Hn Ln) as (_ & K1 & K2). fold N in K1, K2.
    rewrite (poly1305_tag_correct stack) by (cbn [concat]; rewrite ?app_nil_r; auto using bytes_auth, bytes_chacha20). cbn [concat]. by rewrite app_nil_r.
Qed.

(** C16: authenticated encryption.  In both formats and for tags of every length, a context
    made by [EVP_AEAD_CTX_init] seals to the encryption and the tag, or clears the buffer
    when the message is too long or the buffer too short; it opens exactly what it seals,
    to the message, and clears the buffer otherwise; and the tag is that of RFC 8439 as long
    as Poly1305 drops no carry. *)
Theorem aead_seal_open {B} `{!PolyBuild B} (stack : poly1305_state B) (old : bool) ctx0 key nonce ad tag in_ out_ :
  length (data stack) = 16%nat → bytes key → length key = 32%nat → bytes nonce → length nonce = (if old then 8%nat else 12%nat) → bytes ad → 0 ≤ tag ≤ 16 →
  let tl := default_tag tag in
  let s := sealed (code_mac stack) old (Z.to_nat tl) key nonce ad in
  ∃ ctx, EVP_AEAD_CTX_init ctx0 (aead_of stack old) key tag true = (1, ctx) ∧
  (∀ m out, bytes m → check_alias in_ (Z.of_nat (length m)) out_ = true →
     EVP_AEAD_CTX_seal ctx in_ out_ out nonce m ad =
     Some (if (Z.of_nat (length m) <? limit) && (Z.of_nat (length (s m)) <=? Z.of_nat (length out))
           then (1, s m ++ drop (length (s m)) out, Z.of_nat (length (s m))) else aead_error out)) ∧
  (∀ c out, bytes c → check_alias in_ (Z.of_nat (length c)) out_ = true → Z.of_nat (length c) - tl ≤ Z.of_nat (length out) →
     (∀ m, bytes m → c = s m → Z.of_nat (length c) < limit → EVP_AEAD_CTX_open ctx in_ out_ out nonce c ad = Some (1, m ++ drop (length m) out, Z.of_nat (length m))) ∧
     ((∀ m, bytes m → c = s m → limit ≤ Z.of_nat (length c)) → EVP_AEAD_CTX_open ctx in_ out_ out nonce c ad = Some (aead_error out))) ∧
  (∀ m, bytes m → let N := full_nonce old nonce in
     carries_kept (poly1305_init B (one_time_key key N)) (blocks16 (auth_data old ad (chacha20 key N 1 m))) = true →
     s m = sealed poly1305 old (Z.to_nat tl) key nonce ad m).
Proof. apply aead_ctx_correct. Qed.

Definition demo_ad : list Z := [0x50; 0x51; 0x52; 0x53; 0xc0; 0xc1; 0xc2; 0xc3; 0xc4; 0xc5; 0xc6; 0xc7].
Definition demo_nonce12 : list Z := [7; 0; 0; 0; 0x40; 0x41; 0x42; 0x43; 0x44; 0x45; 0x46; 0x47].
Definition demo_text : list Z := (λ c, Z.of_nat (nat_of_ascii c)) <$> list_ascii_of_string
  "Ladies and Gentlemen of the class of '99: If I could offer you only one tip for the future, sunscreen would be it.".

(** The test vector of RFC 8439, section 2.8.2. *)
Example aead_rfc : drop 114 (sealed poly1305 false 16 (seqZ 0x80 32) demo_nonce12 demo_ad demo_text) =
  [0x1a; 0xe1; 0x0b; 0x59; 0x4f; 0x09; 0xe2; 0x6a; 0x7e; 0x90; 0x2e; 0xcb; 0xd0; 0x60; 0x06; 0x91].
Proof. vm_compute. reflexivity. Qed.

Lemma aead_seal_open_witness :
  let c := sealed poly1305 false 16 (seqZ 0x80 32) demo_nonce12 demo_ad demo_text in
  ∃ ctx, EVP_AEAD_CTX_init (AeadCtx None None) (aead_of blank_w64 false) (seqZ 0x80 32) 0 true = (1, ctx) ∧
  EVP_AEAD_CTX_open ctx 0 200 (replicate 120 0) demo_nonce12 c demo_ad = Some (1, demo_text ++ replicate 6 0, 114).
Proof.
  intros c. destruct (aead_seal_open blank_w64 false (AeadCtx None None) (seqZ 0x80 32) demo_nonce12 demo_ad 0 0 200) as (ctx & H1 & _ & H3 & H4).
  - reflexivity.
  - apply (bool_decide_eq_true_1 _). vm_compute. reflexivity.
  - reflexivity.
  - apply (bool_decide_eq_true_1 _). vm_compute. reflexivity.
  - reflexivity.
  - apply (bool_decide_eq_true_1 _). vm_compute. reflexivity.
  - lia.
  - exists ctx. split; [exact H1|]. assert (bytes demo_text) as Ht by (apply (bool_decide_eq_true_1 _); vm_compute; reflexivity).
    destruct (H3 c (replicate 120 0)) as [H5 _].
    + apply (bool_decide_eq_true_1 _). vm_compute. reflexivity.
    + vm_compute. reflexivity.
    + apply (bool_decide_eq_true_1 _). vm_compute. reflexivity.
    + apply (H5 demo_text Ht); [symmetry; apply (H4 demo_text Ht)|apply (bool_decide_eq_true_1 _)]; vm_compute; reflexivity.
Defined.

(** [open] does not look at [max_out_len]: a valid input is decrypted past the end of a
    buffer that is too short. *)
Lemma open_short_buffer :
  let ctx := AeadCtx (Some (aead_of blank_w64 false)) (Some (C20 (seqZ 0x80 32) 16)) in
  EVP_AEAD_CTX_open ctx 0 200 [0] demo_nonce12 (sealed poly1305 false 16 (seqZ 0x80 32) demo_nonce12 demo_ad [1; 2; 3]) demo_ad = None.
Proof. vm_compute. reflexivity. Qed.

(** [EVP_AEAD_CTX_init] names the algorithm in the context before it can fail; cleaning up
    the context goes through the state that was never set. *)
Lemma cleanup_after_failed_init {B} (stack : poly1305_state B) old key tag :
  let '(ret, ctx) := EVP_AEAD_CTX_init (AeadCtx None None) (aead_of stack old) key tag false in ret = 0 ∧ EVP_AEAD_CTX_cleanup ctx = None.
Proof.
  unfold EVP_AEAD_CTX_init. assert (init (aead_of stack old) = aead_chacha20_poly1305_init) as -> by by destruct old.
  assert (aead_chacha20_poly1305_init key tag false = None) as E.
  { unfold aead_chacha20_poly1305_init. destruct (_ <? _); [done|]. by destruct (negb (_ =? 32)). }
  rewrite E. destruct (negb _); by destruct old.
Qed.

(** The longest messages that are sealed are not opened: [open] compares the length with
    the tag to the same limit. *)
Lemma sealed_too_long {B} (stack : poly1305_state B) (old : bool) (key nonce : list Z) (tl : Z) (out ad c : list Z) : length nonce = (if old then 8%nat else 12%nat) → limit ≤ Z.of_nat (length c) → 
  open (aead_of stack old) (Some (C20 key tl)) out nonce c ad = Some None.
Proof.
  intros Hl Hc. rewrite (proj2 (aead_calls stack old _ _ _ _ _ Hl)). unfold open_impl. cbn [mbind option_bind]. destruct (_ <? _); [done|]. by rewrite (proj2 (Z.leb_le _ _)) by done.
Qed.
