(* ===== verification/TlsAead.v ===== *)
(** * Records under authenticated encryption

    Models the part of [tls1_enc] for [EVP_AEAD] contexts and how
    [tls1_change_cipher_state_aead] starts them ([ssl/t1_enc.c]), over a reliable transport.
    [AeadSpec] is what the record layer needs of an algorithm; both formats of
    ChaCha20-Poly1305 provide it.

    The theorems: two ends that start with the same key and nonce exchange records, a reader
    accepts exactly what a writer in step protects, and no nonce is used twice for 2^64
    records. *)

From S2P Require Import Prelude DtlsWrite Poly1305 ChaCha AeadChaCha.

Definition SSL_CHACHA20POLY1305 : Z := 0x1000.
Definition SSL_CIPHER_ALGORITHM2_VARIABLE_NONCE_IN_RECORD : Z := 2 ^ 22.
Definition EVP_AEAD_DEFAULT_TAG_LENGTH : Z := 0.

Record SSL_AEAD_CTX (S : Type) := SslAead {
  actx : EVP_AEAD_CTX S;
  fixed_nonce : list Z;
  fixed_nonce_len : Z;
  variable_nonce_len : Z;
  xor_fixed_nonce : bool;
  atag_len : Z;
  variable_nonce_in_record : bool
}.
Arguments SslAead {S}. Arguments actx {S}. Arguments fixed_nonce {S}. Arguments fixed_nonce_len {S}. Arguments variable_nonce_len {S}.
Arguments xor_fixed_nonce {S}. Arguments atag_len {S}. Arguments variable_nonce_in_record {S}.

Section tls_aead.
Context {S : Type}.
Implicit Types (a : EVP_AEAD S) (c : SSL_AEAD_CTX S).

Definition set_actx c x : SSL_AEAD_CTX S :=
  SslAead x (fixed_nonce c) (fixed_nonce_len c) (variable_nonce_len c) (xor_fixed_nonce c) (atag_len c) (variable_nonce_in_record c).

(** [raw] is a new structure; [mem]: whether there is memory.  [None] is a wild pointer. *)
Definition tls1_aead_ctx_init (raw : SSL_AEAD_CTX S) (o : option (SSL_AEAD_CTX S)) (mem : bool) : option (bool * option (SSL_AEAD_CTX S)) :=
  match o with
  | Some c => x ← EVP_AEAD_CTX_cleanup (actx c); Some (true, Some (set_actx c x))
  | None => Some (if mem then (true, Some raw) else (false, None))
  end.

(** [o] is [s->aead_read_ctx] or [s->aead_write_ctx]. *)
Definition tls1_change_cipher_state_aead (raw : SSL_AEAD_CTX S) a (o : option (SSL_AEAD_CTX S)) (key iv : list Z) (algorithm2 algorithm_enc : Z) (mem1 mem2 : bool) :
    option (bool * option (SSL_AEAD_CTX S)) :=
  '(ok, o) ← tls1_aead_ctx_init raw o mem1;
  match ok, o with
  | true, Some c =>
    let '(ret, x) := EVP_AEAD_CTX_init (actx c) a key EVP_AEAD_DEFAULT_TAG_LENGTH mem2 in
    let c := set_actx c x in
    let iv_len := Z.of_nat (length iv) in
    if ret =? 0 then Some (false, Some c)
    else if 12 <? iv_len then Some (false, Some c)
    else
      let c := SslAead (actx c) (splice (fixed_nonce c) 0 iv) iv_len 8 (algorithm_enc =? SSL_CHACHA20POLY1305) (overhead a)
                 (negb (Z.land algorithm2 SSL_CIPHER_ALGORITHM2_VARIABLE_NONCE_IN_RECORD =? 0)) in
      if xor_fixed_nonce c then
        if negb (fixed_nonce_len c =? nonce_len a) || (nonce_len a <? variable_nonce_len c) then Some (false, Some c) else Some (true, Some c)
      else
        if negb (variable_nonce_len c + fixed_nonce_len c =? nonce_len a) then Some (false, Some c) else Some (true, Some c)
  | _, _ => Some (false, o)
  end.

(** [ad] before the length, and with it. *)
Definition ad_head (seq : list Z) (type version : Z) : list Z := take 8 seq ++ [u8 type; u8 (version ≫ 8); u8 version].
Definition ad_full (seq : list Z) (type version len : Z) : list Z := ad_head seq type version ++ [u8 (len ≫ 8); Z.land len 0xff].

(** The checks on the lengths of the parts of the nonce. *)
Definition nonce_fits c : bool :=
  negb ((8 <? variable_nonce_len c) || (16 <? variable_nonce_len c)) &&
  (if xor_fixed_nonce c then negb ((16 <? fixed_nonce_len c) || (fixed_nonce_len c <? variable_nonce_len c))
   else negb (16 <? fixed_nonce_len c + variable_nonce_len c)).

(** The nonce, with the variable part taken from [v]. *)
Definition record_nonce c (seq v : list Z) : list Z :=
  let vl := Z.to_nat (variable_nonce_len c) in
  let fl := Z.to_nat (fixed_nonce_len c) in
  if xor_fixed_nonce c then xor_bytes (replicate (fl - vl) 0 ++ take vl seq) (take fl (fixed_nonce c))
  else take fl (fixed_nonce c) ++ take vl v.

(** [tls1_enc(s, 1)] on the buffer [buf] with [spare] behind it: the return value, the sequence
    number and the record. *)
Definition tls1_aead_write c (seq : list Z) (type version : Z) (buf spare : list Z) : option (Z * list Z * list Z) :=
  let ad := ad_head seq type version in
  let seq' := tls1_record_sequence_increment seq in
  if negb (nonce_fits c) then Some (-1, seq', buf)
  else
    let nonce := record_nonce c seq ad in
    let eivlen := if variable_nonce_in_record c then Z.to_nat (variable_nonce_len c) else 0%nat in
    let buf := if variable_nonce_in_record c then splice buf 0 (take eivlen ad) else buf in
    let len := u64 (Z.of_nat (length buf) - Z.of_nat eivlen) in
    let inp := drop eivlen buf in
    '(ret, out, n) ← EVP_AEAD_CTX_seal (actx c) 0 0 (take (Z.to_nat (len + atag_len c)) (inp ++ spare)) nonce inp (ad_full seq type version len);
    if ret =? 0 then Some (-1, seq', take eivlen buf ++ out)
    else Some (1, seq', take eivlen buf ++ take (Z.to_nat n) out).

(** [tls1_enc(s, 0)] on the body of a record: the return value, the sequence number and [rec->data]. *)
Definition tls1_aead_read c (seq : list Z) (type version : Z) (body : list Z) : option (Z * list Z * list Z) :=
  let ad := ad_head seq type version in
  let seq' := tls1_record_sequence_increment seq in
  if negb (nonce_fits c) then Some (-1, seq', body)
  else if Z.of_nat (length body) <? variable_nonce_len c then Some (0, seq', body)
  else
    let nonce := record_nonce c seq (if variable_nonce_in_record c then body else ad) in
    let eivlen := if variable_nonce_in_record c then Z.to_nat (variable_nonce_len c) else 0%nat in
    let inp := drop eivlen body in
    let len := Z.of_nat (length inp) in
    if len <? atag_len c then Some (0, seq', body)
    else
      let len := len - atag_len c in
      '(ret, out, n) ← EVP_AEAD_CTX_open (actx c) 0 0 (take (Z.to_nat len) inp) nonce inp (ad_full seq type version len);
      if ret =? 0 then Some (-1, seq', take eivlen body ++ out ++ drop (Z.to_nat len) inp)
      else Some (1, seq', take (Z.to_nat n) out).

(** ** What is needed of an algorithm *)

(** The state [s] encrypts with [enc key], in place, and opens exactly what it encrypts. *)
Definition keyed a (enc : list Z → list Z → list Z → list Z → list Z) (s : S) (key : list Z) : Prop :=
  ∀ nonce ad, bytes nonce → Z.of_nat (length nonce) = nonce_len a → bytes ad →
  (∀ m out, bytes m → Z.of_nat (length m) < 2 ^ 17 → Z.of_nat (length out) = Z.of_nat (length m) + overhead a →
     EVP_AEAD_CTX_seal (AeadCtx (Some a) (Some s)) 0 0 out nonce m ad = Some (1, enc key nonce ad m, Z.of_nat (length out))) ∧
  (∀ b out, bytes b → Z.of_nat (length b) < 2 ^ 17 → Z.of_nat (length out) = Z.of_nat (length b) - overhead a →
     (∀ m, bytes m → b = enc key nonce ad m → EVP_AEAD_CTX_open (AeadCtx (Some a) (Some s)) 0 0 out nonce b ad = Some (1, m, Z.of_nat (length m))) ∧
     ((∀ m, bytes m → b ≠ enc key nonce ad m) → EVP_AEAD_CTX_open (AeadCtx (Some a) (Some s)) 0 0 out nonce b ad = Some (aead_error out))).

Class AeadSpec a := {
  aead_enc : list Z → list Z → list Z → list Z → list Z;
  aead_sizes : 8 ≤ nonce_len a ≤ 12 ∧ 8 ≤ overhead a < 256;
  aead_enc_ok key nonce ad m : bytes key → Z.of_nat (length key) = key_len a → bytes nonce → Z.of_nat (length nonce) = nonce_len a → bytes ad → bytes m →
    bytes (aead_enc key nonce ad m) ∧ Z.of_nat (length (aead_enc key nonce ad m)) = Z.of_nat (length m) + overhead a;
  aead_dec key nonce ad b : bytes key → Z.of_nat (length key) = key_len a → bytes nonce → Z.of_nat (length nonce) = nonce_len a → bytes ad → bytes b →
    (∃ m, bytes m ∧ b = aead_enc key nonce ad m) ∨ (∀ m, bytes m → b ≠ aead_enc key nonce ad m);
  aead_start x key : bytes key → Z.of_nat (length key) = key_len a →
    ∃ s, EVP_AEAD_CTX_init x a key EVP_AEAD_DEFAULT_TAG_LENGTH true = (1, AeadCtx (Some a) (Some s)) ∧ keyed a aead_enc s key
}.
End tls_aead.

(** Both formats of ChaCha20-Poly1305. *)
#[export] Instance chacha_spec {B} `{!PolyBuild B} (stack : poly1305_state B) (Hs : length (data stack) = 16%nat) (old : bool) : AeadSpec (aead_of stack old).
Proof.
  assert (key_len (aead_of stack old) = 32 ∧ nonce_len (aead_of stack old) = (if old then 8 else 12) ∧ overhead (aead_of stack old) = 16) as (Ek & En & Eo) by by destruct old.
  assert (∀ nonce : list Z, Z.of_nat (length nonce) = nonce_len (aead_of stack old) → length nonce = if old then 8%nat else 12%nat) as Hn.
  { intros nonce E. rewrite En in E. destruct old; lia. }
  refine {| aead_enc key nonce ad m := sealed (code_mac stack) old 16 key nonce ad m |}.
  - rewrite En, Eo. destruct old; lia.
  - intros key nonce ad m Hk Lk Hb Hl Ha Hm. rewrite Ek in Lk. rewrite Eo. pose proof (Hn nonce Hl) as Ln. split.
    + unfold sealed. apply bytes_app; [by apply bytes_chacha20|]. apply bytes_take.
      destruct (key_spec stack Hs old key nonce 16 Hk ltac:(lia) Hb Ln) as (_ & K1 & K2). by apply code_mac_bytes; [..|by apply bytes_auth, bytes_chacha20].
    + by apply (sealed_length stack Hs old key nonce 16 Hk ltac:(lia) Hb Ln ltac:(lia)).
  - intros key nonce ad b Hk Lk Hb Hl Ha Hc. rewrite Ek in Lk. by apply (sealed_dec stack Hs old key nonce 16 Hk ltac:(lia) Hb (Hn nonce Hl) ltac:(lia)).
  - intros x key Hk Lk. rewrite Ek in Lk. destruct (aead_init stack old x key 0 ltac:(lia) ltac:(lia)) as [Hi _]. change (default_tag 0) with 16 in Hi.
    eexists. split; [exact Hi|]. intros nonce ad Hb Hl Ha. pose proof (Hn nonce Hl) as Ln. rewrite Eo.
    destruct (aead_ctx_correct stack old x key nonce ad 0 0 0 Hs Hk ltac:(lia) Hb Ln Ha ltac:(lia)) as (ctx & E & HS & HO & _).
    change (default_tag 0) with 16 in *. change (Z.to_nat 16) with 16%nat in *. rewrite Hi in E. injection E as <-. split.
    + intros m out Hm Lm Lo. rewrite HS by done. pose proof (sealed_length stack Hs old key nonce 16 Hk ltac:(lia) Hb Ln ltac:(lia) ad m Ha Hm) as Hsl.
      change (Z.to_nat 16) with 16%nat in Hsl. rewrite Hsl. unfold limit. rewrite (proj2 (Z.ltb_lt _ _)), (proj2 (Z.leb_le _ _)) by lia. cbn [andb].
      rewrite drop_ge, app_nil_r by lia. do 2 f_equal. lia.
    + intros c out Hc Lc Lo. destruct (HO c out Hc eq_refl ltac:(lia)) as [O1 O2]. unfold limit in *. split.
      * intros m Hm E. rewrite (O1 m Hm E) by lia. do 2 f_equal. f_equal. rewrite drop_ge, app_nil_r; [done|].
        pose proof (sealed_length stack Hs old key nonce 16 Hk ltac:(lia) Hb Ln ltac:(lia) ad m Ha Hm) as Hsl. change (Z.to_nat 16) with 16%nat in Hsl. rewrite <- E in Hsl. lia.
      * intros H. apply O2. intros m Hm E. by destruct (H m Hm).
Defined.

(** ** Records *)

(** RFC 5246, 6.2.3.3: the additional data of a record. *)
Definition additional_data (seq type version len : Z) : list Z := be_store 8 seq ++ be_store 1 type ++ be_store 2 version ++ be_store 2 len.

Lemma ad_full_spec seq type version len : bytes seq → length seq = 8%nat → ad_full seq type version len = additional_data (be_load seq) type version len.
Proof.
  intros Hs Ls. unfold ad_full, ad_head, additional_data. rewrite take_ge by lia. pose proof (be_store_load _ Hs) as E. rewrite Ls in E.
  assert (Z.land len 0xff = u8 len) as -> by (apply (Z.land_ones _ 8); lia). rewrite E, !be_store_S, <- app_assoc. reflexivity.
Qed.

(** The number of the next record. *)
Lemma next_number seq : bytes seq → length seq = 8%nat → tls1_record_sequence_increment seq = be_store 8 (be_load seq + 1).
Proof.
  intros Hs Ls. destruct (tls1_record_sequence_increment_spec seq Hs Ls) as (E & Hb & Hl). pose proof (be_store_load _ Hb) as E'. rewrite Hl, E in E'.
  rewrite <- E'. apply (be_store_mod 8 _ 64). lia.
Qed.

(** The nonce of RFC 7905 (the sequence number is added to the fixed part) or of RFC 5288 (it follows it). *)
Definition nonce_of (xor : bool) (iv v : list Z) : list Z := if xor then xor_bytes (replicate (length iv - 8) 0 ++ v) iv else iv ++ v.

Lemma xor_zero_head (v iv : list Z) n : xor_bytes (replicate n 0 ++ v) iv = take n iv ++ xor_bytes v (drop n iv).
Proof.
  unfold xor_bytes. revert iv. induction n as [|n IH]; intros iv; [by rewrite drop_0|]. destruct iv as [|x iv]; cbn [replicate app zip_with take drop]; [by destruct v|].
  by rewrite IH.
Qed.

Lemma xor_bytes_inj (k a b : list Z) : length a = length b → length a = length k → xor_bytes a k = xor_bytes b k → a = b.
Proof.
  unfold xor_bytes. revert k b. induction a as [|x a IH]; intros [|z k] [|y b] H1 H2 E; try done. cbn [zip_with] in E. injection E as E0 E1.
  f_equal; [|by apply (IH k); [injection H1|injection H2|]]. rewrite <- (Z.lxor_0_r x), <- (Z.lxor_nilpotent z), <- Z.lxor_assoc, E0, Z.lxor_assoc, Z.lxor_nilpotent. apply Z.lxor_0_r.
Qed.

(** Nonces differ as the numbers do. *)
Lemma nonce_of_inj xor iv v w : length v = 8%nat → length w = 8%nat → (xor = true → 8 ≤ length iv)%nat → nonce_of xor iv v = nonce_of xor iv w → v = w.
Proof.
  intros Hv Hw Hx. unfold nonce_of. destruct xor; [|by intros E%app_inv_head]. rewrite !xor_zero_head. intros E%app_inv_head. specialize (Hx eq_refl).
  apply (xor_bytes_inj (drop (length iv - 8) iv)); [congruence|rewrite length_drop; lia|done].
Qed.

Section records.
Context {S : Type} (a : EVP_AEAD S) `{!AeadSpec a}.
Context (key iv : list Z) (xor inrec : bool).
Context (Hk : bytes key) (Lk : Z.of_nat (length key) = key_len a) (Hiv : bytes iv).
Context (Liv : Z.of_nat (length iv) = if xor then nonce_len a else nonce_len a - 8).

(** A context with these parameters. *)
Definition ready (c : SSL_AEAD_CTX S) : Prop :=
  (∃ s, actx c = AeadCtx (Some a) (Some s) ∧ keyed a aead_enc s key) ∧ take (length iv) (fixed_nonce c) = iv ∧ fixed_nonce_len c = Z.of_nat (length iv) ∧
  variable_nonce_len c = 8 ∧ atag_len c = overhead a ∧ xor_fixed_nonce c = xor ∧ variable_nonce_in_record c = inrec.

(** The body of the record. *)
Definition protect (seq v : list Z) (type version : Z) (m : list Z) : list Z :=
  (if inrec then v else []) ++ aead_enc key (nonce_of xor iv (if xor || negb inrec then seq else v)) (additional_data (be_load seq) type version (Z.of_nat (length m))) m.

Lemma iv_lengths : (length iv ≤ 12)%nat ∧ (xor = true → 8 ≤ length iv)%nat.
Proof. destruct aead_sizes as [H _]. destruct xor; split; try done; try lia. Qed.

Lemma ready_fits c : ready c → nonce_fits c = true.
Proof.
  intros (_ & _ & H1 & H2 & _ & H3 & _). pose proof iv_lengths as [R1 R2]. pose proof (proj1 aead_sizes) as Hz. unfold nonce_fits. rewrite H1, H2, H3. cbn [orb negb andb Z.ltb Z.compare Pos.compare Pos.compare_cont].
  destruct xor; [specialize (R2 eq_refl)|]; rewrite ?orb_false_iff; rewrite !(proj2 (Z.ltb_ge _ _)) by lia; done.
Qed.

Lemma ready_nonce c seq v : ready c → length seq = 8%nat → (8 ≤ length v)%nat → record_nonce c seq v = nonce_of xor iv (if xor then seq else take 8 v).
Proof.
  intros (_ & H0 & H1 & H2 & _ & H3 & _) Hs Hv. unfold record_nonce, nonce_of. rewrite H1, H2, H3, Nat2Z.id, H0. change (Z.to_nat 8) with 8%nat.
  destruct xor; [|done]. by rewrite (take_ge seq) by lia.
Qed.

Lemma nonce_ok v : bytes v → length v = 8%nat → bytes (nonce_of xor iv v) ∧ Z.of_nat (length (nonce_of xor iv v)) = nonce_len a.
Proof.
  intros Hv Lv. pose proof iv_lengths as [R1 R2]. unfold nonce_of. destruct xor.
  - specialize (R2 eq_refl). split; [apply bytes_xor; auto with vtls|]. unfold xor_bytes. rewrite length_zip_with, length_app, length_replicate. lia.
  - split; [auto with vtls|]. rewrite length_app. lia.
Qed.

Lemma ad_ok seq type version len : bytes seq → bytes (ad_full seq type version len).
Proof.
  intros Hs. assert (is_byte (Z.land len 0xff)) as H by (change 0xff with (Z.ones 8); rewrite Z.land_ones by lia; apply Z.mod_pos_bound; lia).
  unfold ad_full, ad_head. apply bytes_app; [apply bytes_app; [auto with vtls|]|]; repeat (apply Forall_cons_2; [first [apply u8_byte|exact H]|]); apply Forall_nil_2.
Qed.

Lemma write_spec c seq type version gap m spare : ready c → bytes seq → length seq = 8%nat → bytes m → Z.of_nat (length m) < 2 ^ 16 →
  length gap = (if inrec then 8%nat else 0%nat) → overhead a ≤ Z.of_nat (length spare) →
  tls1_aead_write c seq type version (gap ++ m) spare = Some (1, tls1_record_sequence_increment seq, protect seq seq type version m).
Proof.
  intros Hc Hs Ls Hm Lm Hg Hsp. pose proof Hc as ((s & Ea & Hkey) & _ & _ & Ev & Et & _ & Ei). destruct aead_sizes as [_ Ho].
  unfold tls1_aead_write. rewrite (ready_fits c Hc). cbn [negb]. rewrite Ea, Ev, Et, Ei. change (Z.to_nat 8) with 8%nat.
  assert (take 8 (ad_head seq type version) = seq) as Ead.
  { unfold ad_head. rewrite (take_ge seq) by lia. by rewrite take_app_le, take_ge by lia. }
  rewrite ready_nonce by (done || (unfold ad_head; rewrite length_app, length_take; lia)). rewrite Ead.
  set (e := if inrec then 8%nat else 0%nat) in *.
  assert ((if inrec then splice (gap ++ m) 0 (take e (ad_head seq type version)) else gap ++ m) = (if inrec then seq else []) ++ m) as ->.
  { unfold e in *. destruct inrec; [|by rewrite (nil_length_inv gap)]. rewrite Ead. unfold splice. rewrite take_0, Ls, <- Hg, Nat.add_0_l, drop_app_length. done. }
  assert (length (if inrec then seq else []) = e) as Le by (unfold e; by destruct inrec).
  rewrite <- Le, drop_app_length, take_app_length, length_app. replace (Z.of_nat (length (if inrec then seq else []) + length m) - Z.of_nat (length (if inrec then seq else []))) with (Z.of_nat (length m)) by lia.
  rewrite u64_small by lia. set (N := nonce_of xor iv _). set (ad := ad_full _ _ _ _).
  destruct (nonce_ok seq Hs Ls) as [N1 N2]. assert (nonce_of xor iv (if xor then seq else seq) = nonce_of xor iv seq) as EN by by destruct xor.
  assert (N = nonce_of xor iv seq) as EN' by exact EN. rewrite EN'.
  assert (bytes ad) as Hadb by by apply ad_ok.
  destruct (Hkey _ ad N1 N2 Hadb) as [HS _]. set (out := take _ (m ++ spare)). assert (Z.of_nat (length out) = Z.of_nat (length m) + overhead a) as Lo.
  { unfold out. rewrite length_take, length_app. lia. }
  rewrite (HS m out Hm ltac:(lia) Lo). cbn [mbind option_bind Z.eqb]. do 2 f_equal. unfold protect. f_equal.
  destruct (aead_enc_ok key (nonce_of xor iv seq) ad m Hk Lk N1 N2 Hadb Hm) as [_ Le'].
  replace (if xor || negb inrec then seq else seq) with seq by (by destruct (xor || negb inrec)). rewrite <- ad_full_spec by done. fold ad. rewrite take_ge by lia. done.
Qed.
(** The number in the nonce of a record with the explicit part [v]. *)
Definition counter (seq v : list Z) : list Z := if xor || negb inrec then seq else v.

Lemma protect_length seq v type version m : bytes seq → length seq = 8%nat → bytes v → length v = 8%nat → bytes m →
  Z.of_nat (length (protect seq v type version m)) = Z.of_nat (length m) + overhead a + (if inrec then 8 else 0) ∧ bytes (protect seq v type version m).
Proof.
  intros Hs Ls Hv Lv Hm. unfold protect. fold (counter seq v). assert (bytes (counter seq v) ∧ length (counter seq v) = 8%nat) as [W1 W2] by (unfold counter; by destruct (_ || _)).
  destruct (nonce_ok _ W1 W2) as [N1 N2]. destruct (aead_enc_ok key _ (additional_data (be_load seq) type version (Z.of_nat (length m))) m Hk Lk N1 N2 ltac:(rewrite <- ad_full_spec by done; by apply ad_ok) Hm) as [E1 E2].
  rewrite length_app. split; [destruct inrec; cbn [length]; lia|]. apply bytes_app; [|done]. destruct inrec; [done|apply Forall_nil_2].
Qed.

(** A body is protected data if its parts are. *)
Lemma protect_iff seq v m type version (b inp : list Z) : bytes seq → length seq = 8%nat → bytes b → length b = 8%nat → bytes v → length v = 8%nat → bytes m →
  (if inrec then b else []) ++ inp = protect seq v type version m →
  Z.of_nat (length m) = Z.of_nat (length inp) - overhead a ∧ inp = aead_enc key (nonce_of xor iv (counter seq b)) (additional_data (be_load seq) type version (Z.of_nat (length inp) - overhead a)) m.
Proof.
  intros Hs Ls Hb Lb Hv Lv Hm E. destruct (protect_length seq v type version m Hs Ls Hv Lv Hm) as [Hl _]. rewrite <- E, length_app in Hl.
  assert (Z.of_nat (length m) = Z.of_nat (length inp) - overhead a) as Em by (destruct inrec; cbn [length] in Hl; lia). split; [done|].
  unfold protect in E. fold (counter seq v) in E. apply app_inj_1 in E as [E1 E2]; [|by destruct inrec; [congruence|]]. rewrite <- Em, E2. f_equal. f_equal.
  unfold counter. destruct inrec; [by rewrite E1|by rewrite orb_true_r].
Qed.

Lemma read_spec c seq type version body : ready c → bytes seq → length seq = 8%nat → bytes body → Z.of_nat (length body) < 2 ^ 16 →
  ∃ ret d, tls1_aead_read c seq type version body = Some (ret, tls1_record_sequence_increment seq, d) ∧
  (∀ v m, bytes m → bytes v → length v = 8%nat → body = protect seq v type version m → ret = 1 ∧ d = m) ∧
  (ret ≤ 0 ∨ bytes d ∧ ∃ v, bytes v ∧ length v = 8%nat ∧ body = protect seq v type version d).
Proof.
  intros Hc Hs Ls Hb Lb. pose proof Hc as ((s & Ea & Hkey) & _ & _ & Ev & Et & _ & Ei). destruct aead_sizes as [_ Ho].
  unfold tls1_aead_read. rewrite (ready_fits c Hc). cbn [negb]. rewrite Ea, Ev, Et, Ei. change (Z.to_nat 8) with 8%nat.
  assert (∀ v m, bytes m → bytes v → length v = 8%nat → body = protect seq v type version m → overhead a + (if inrec then 8 else 0) ≤ Z.of_nat (length body)) as Hmin.
  { intros v m Hm Hv Lv E. destruct (protect_length seq v type version m Hs Ls Hv Lv Hm) as [Hl _]. rewrite <- E in Hl. lia. }
  destruct (Z.ltb_spec (Z.of_nat (length body)) 8) as [H8|H8].
  { eexists 0, body. split; [done|]. split; [|by left]. intros v m Hm Hv Lv E. specialize (Hmin v m Hm Hv Lv E). destruct inrec; lia. }
  set (b := if inrec then take 8 body else seq). set (inp := drop (if inrec then 8%nat else 0%nat) body).
  assert ((if inrec then b else []) ++ inp = body) as Eb by (unfold b, inp; destruct inrec; [apply take_drop|apply drop_0]).
  assert (bytes b ∧ length b = 8%nat) as [Hbb Lbb] by (unfold b; destruct inrec; [split; [auto with vtls|rewrite length_take; lia]|done]).
  assert (Z.of_nat (length inp) + (if inrec then 8 else 0) = Z.of_nat (length body)) as Li by (unfold inp; rewrite length_drop; destruct inrec; lia).
  destruct (Z.ltb_spec (Z.of_nat (length inp)) (overhead a)) as [Ht|Ht].
  { eexists 0, body. split; [done|]. split; [|by left]. intros v m Hm Hv Lv E. specialize (Hmin v m Hm Hv Lv E). lia. }
  assert (record_nonce c seq (if inrec then body else ad_head seq type version) = nonce_of xor iv (counter seq b)) as ->.
  { rewrite ready_nonce by (done || (destruct inrec; [lia|unfold ad_head; rewrite length_app, length_take; lia])). f_equal. unfold counter, b.
    destruct xor, inrec; cbn [orb negb]; try done. unfold ad_head. rewrite (take_ge seq) by lia. by rewrite take_app_le, take_ge by lia. }
  set (ad := ad_full seq type version (Z.of_nat (length inp) - overhead a)). assert (bytes ad) as Hadb by by apply ad_ok.
  pose proof (ad_full_spec seq type version (Z.of_nat (length inp) - overhead a) Hs Ls) as Ead. fold ad in Ead.
  assert (bytes (counter seq b) ∧ length (counter seq b) = 8%nat) as [W1 W2] by (unfold counter; by destruct (_ || _)).
  destruct (nonce_ok _ W1 W2) as [N1 N2]. set (N := nonce_of xor iv (counter seq b)) in *. assert (bytes inp) as Hib by (unfold inp; auto with vtls).
  set (out := take _ inp). assert (Z.of_nat (length out) = Z.of_nat (length inp) - overhead a) as Lo by (unfold out; rewrite length_take; lia).
  destruct (Hkey N ad N1 N2 Hadb) as [_ HO]. assert (length inp ≤ length body)%nat as Lib by (unfold inp; rewrite length_drop; lia).
  destruct (HO inp out Hib ltac:(lia) Lo) as [O1 O2].
  destruct (aead_dec key N ad inp Hk Lk N1 N2 Hadb Hib) as [(m & Hm & E)|Hno].
  - rewrite (O1 m Hm E). cbn [mbind option_bind Z.eqb]. rewrite Nat2Z.id, firstn_all. exists 1, m. split; [done|].
    destruct (aead_enc_ok key N ad m Hk Lk N1 N2 Hadb Hm) as [_ Hl]. rewrite <- E in Hl. split.
    + intros v m' Hm' Hv Lv E'. rewrite <- Eb in E'. destruct (protect_iff seq v m' type version b inp Hs Ls Hbb Lbb Hv Lv Hm' E') as [Em' Ei']. rewrite <- Ead in Ei'.
      split; [done|]. pose proof (O1 m' Hm' Ei') as O1'. rewrite (O1 m Hm E) in O1'. by injection O1'.
    + right. split; [done|]. exists b. split; [done|]. split; [done|]. rewrite <- Eb at 1. unfold protect. f_equal. fold (counter seq b).
      replace (Z.of_nat (length m)) with (Z.of_nat (length inp) - overhead a) by lia. rewrite <- Ead. exact E.
  - rewrite (O2 Hno). cbn [mbind option_bind aead_error Z.eqb]. do 2 eexists. split; [reflexivity|]. split; [|by left].
    intros v m Hm Hv Lv E. rewrite <- Eb in E. destruct (protect_iff seq v m type version b inp Hs Ls Hbb Lbb Hv Lv Hm E) as [_ Ei']. rewrite <- Ead in Ei'. by destruct (Hno m Hm).
Qed.
(** The new context, in a new structure or in place of an old one that can be cleaned up. *)
Lemma change_ready raw o algorithm2 algorithm_enc : xor = (algorithm_enc =? SSL_CHACHA20POLY1305) →
  inrec = negb (Z.land algorithm2 SSL_CIPHER_ALGORITHM2_VARIABLE_NONCE_IN_RECORD =? 0) →
  match o with Some c0 => length (fixed_nonce c0) = 12%nat ∧ is_Some (EVP_AEAD_CTX_cleanup (actx c0)) | None => length (fixed_nonce raw) = 12%nat end →
  ∃ c, tls1_change_cipher_state_aead raw a o key iv algorithm2 algorithm_enc true true = Some (true, Some c) ∧ ready c.
Proof.
  intros Ex Ei Ho. assert (∃ c0, tls1_aead_ctx_init raw o true = Some (true, Some c0) ∧ length (fixed_nonce c0) = 12%nat) as (c0 & E0 & L0).
  { destruct o as [c0|]; [|by exists raw]. destruct Ho as [L0 [x Ec]]. exists (set_actx c0 x). unfold tls1_aead_ctx_init. by rewrite Ec. }
  unfold tls1_change_cipher_state_aead. rewrite E0. cbn [mbind option_bind]. destruct (aead_start (actx c0) key Hk Lk) as (s & Es & Hkey). rewrite Es.
  pose proof iv_lengths as [R1 R2]. destruct aead_sizes as [Hz _]. cbn [Z.eqb]. rewrite (proj2 (Z.ltb_ge 12 _)) by lia. cbn [xor_fixed_nonce fixed_nonce_len variable_nonce_len actx set_actx].
  rewrite <- Ex, <- Ei. set (c := SslAead _ _ _ _ _ _ _). assert (ready c) as Hc.
  { split; [by exists s|]. split_and!; try done. cbn [c fixed_nonce set_actx]. unfold splice. rewrite take_0. cbn [app]. by rewrite take_app_length. }
  exists c. split; [|done]. destruct xor.
  - rewrite Liv, Z.eqb_refl. cbn [negb orb]. by rewrite (proj2 (Z.ltb_ge _ 8)) by lia.
  - replace (8 + Z.of_nat (length iv)) with (nonce_len a) by lia. by rewrite Z.eqb_refl.
Qed.
End records.

(** C5: records under authenticated encryption.  When both ends call
    [tls1_change_cipher_state_aead] with the same key and fixed nonce, what the writer makes of
    data the reader opens to the data, and both have the next sequence number; a reader
    accepts no body but the encryption of the data it delivers with the additional data of
    RFC 5246: the sequence number, type, version and length that it expects. *)
Theorem tls_aead_records {S} (a : EVP_AEAD S) `{!AeadSpec a} (raw1 raw2 : SSL_AEAD_CTX S) key iv algorithm2 algorithm_enc :
  bytes key → Z.of_nat (length key) = key_len a → bytes iv → length (fixed_nonce raw1) = 12%nat → length (fixed_nonce raw2) = 12%nat →
  let xor := algorithm_enc =? SSL_CHACHA20POLY1305 in
  let inrec := negb (Z.land algorithm2 SSL_CIPHER_ALGORITHM2_VARIABLE_NONCE_IN_RECORD =? 0) in
  Z.of_nat (length iv) = (if xor then nonce_len a else nonce_len a - 8) →
  ∃ w r, tls1_change_cipher_state_aead raw1 a None key iv algorithm2 algorithm_enc true true = Some (true, Some w) ∧
  tls1_change_cipher_state_aead raw2 a None key iv algorithm2 algorithm_enc true true = Some (true, Some r) ∧
  ∀ seq type version, bytes seq → length seq = 8%nat →
  let seq' := be_store 8 (be_load seq + 1) in
  (∀ m gap spare, bytes m → Z.of_nat (length m) < 2 ^ 15 → length gap = (if inrec then 8%nat else 0%nat) → overhead a ≤ Z.of_nat (length spare) →
     ∃ body, tls1_aead_write w seq type version (gap ++ m) spare = Some (1, seq', body) ∧ tls1_aead_read r seq type version body = Some (1, seq', m)) ∧
  (∀ body, bytes body → Z.of_nat (length body) < 2 ^ 16 →
     ∃ ret d, tls1_aead_read r seq type version body = Some (ret, seq', d) ∧
     (0 < ret → ∃ v, length v = 8%nat ∧ body = protect a key iv xor inrec seq v type version d)).
Proof.
  intros Hk Lk Hiv L1 L2 xor inrec Liv. destruct aead_sizes as [_ Ho].
  destruct (change_ready a key iv xor inrec Hk Lk Liv raw1 None algorithm2 algorithm_enc eq_refl eq_refl L1) as (w & Ew & Hw).
  destruct (change_ready a key iv xor inrec Hk Lk Liv raw2 None algorithm2 algorithm_enc eq_refl eq_refl L2) as (r & Er & Hr).
  exists w, r. split; [done|]. split; [done|]. intros seq type version Hs Ls seq'. unfold seq'. rewrite <- next_number by done. clear seq'. split.
  - intros m gap spare Hm Lm Lg Lsp. pose proof (write_spec a key iv xor inrec Hk Lk Hiv Liv w seq type version gap m spare Hw Hs Ls Hm ltac:(lia) Lg Lsp) as EW.
    destruct (protect_length a key iv xor inrec Hk Lk Hiv Liv seq seq type version m Hs Ls Hs Ls Hm) as [Lp Hp].
    destruct (read_spec a key iv xor inrec Hk Lk Hiv Liv r seq type version _ Hr Hs Ls Hp) as (ret & d & ER & H1 & _); [destruct inrec; lia|].
    destruct (H1 seq m Hm Hs Ls eq_refl) as [-> ->]. eexists. split; [exact EW|exact ER].
  - intros body Hb Lb. destruct (read_spec a key iv xor inrec Hk Lk Hiv Liv r seq type version body Hr Hs Ls Hb Lb) as (ret & d & ER & _ & H2).
    exists ret, d. split; [done|]. intros Hret. destruct H2 as [H2|(_ & v & _ & Lv & E)]; [lia|]. by exists v.
Qed.


(** C6: nonces are not used twice.  When [tls1_enc] protects records one after the other, each
    with the sequence number that the call before left, the body of the [k]-th is the encryption of
    its data under a nonce made of the fixed part and the number of the record, behind that
    number where the suite asks for it; and for up to 2^64 records these nonces are all different. *)
Theorem tls_aead_nonces {T} (a : EVP_AEAD T) `{!AeadSpec a} (raw c : SSL_AEAD_CTX T) key iv algorithm2 algorithm_enc
    (n : nat) (seq : nat → list Z) (type version : nat → Z) (m gap spare body : nat → list Z) :
  bytes key → Z.of_nat (length key) = key_len a → bytes iv → length (fixed_nonce raw) = 12%nat →
  let xor := algorithm_enc =? SSL_CHACHA20POLY1305 in
  let inrec := negb (Z.land algorithm2 SSL_CIPHER_ALGORITHM2_VARIABLE_NONCE_IN_RECORD =? 0) in
  Z.of_nat (length iv) = (if xor then nonce_len a else nonce_len a - 8) →
  tls1_change_cipher_state_aead raw a None key iv algorithm2 algorithm_enc true true = Some (true, Some c) →
  bytes (seq 0%nat) → length (seq 0%nat) = 8%nat → Z.of_nat n ≤ 2 ^ 64 →
  (∀ k, (k < n)%nat → bytes (m k) ∧ Z.of_nat (length (m k)) < 2 ^ 16 ∧ length (gap k) = (if inrec then 8%nat else 0%nat) ∧ overhead a ≤ Z.of_nat (length (spare k))) →
  (∀ k, (k < n)%nat → tls1_aead_write c (seq k) (type k) (version k) (gap k ++ m k) (spare k) = Some (1, seq (S k), body k)) →
  let number k := be_load (seq 0%nat) + Z.of_nat k in
  let nonce k := nonce_of xor iv (be_store 8 (number k)) in
  (∀ k, (k < n)%nat → body k = (if inrec then be_store 8 (number k) else []) ++
     aead_enc key (nonce k) (additional_data (number k) (type k) (version k) (Z.of_nat (length (m k)))) (m k)) ∧
  (∀ i j, (i < j < n)%nat → nonce i ≠ nonce j).
Proof.
  intros Hk Lk Hiv L1 xor inrec Liv Ec Hs Ls Hn Hm Hw number nonce.
  destruct (change_ready a key iv xor inrec Hk Lk Liv raw None algorithm2 algorithm_enc eq_refl eq_refl L1) as (c' & Ec' & Hc).
  rewrite Ec in Ec'. injection Ec' as <-.
  assert (∀ k, (k < n)%nat → bytes (seq k) → length (seq k) = 8%nat → seq (S k) = tls1_record_sequence_increment (seq k) ∧
    body k = protect a key iv xor inrec (seq k) (seq k) (type k) (version k) (m k)) as Hstep.
  { intros k Hkn Hsk Lsk. destruct (Hm k Hkn) as (M1 & M2 & M3 & M4). pose proof (Hw k Hkn) as E.
    rewrite (write_spec a key iv xor inrec Hk Lk Hiv Liv c (seq k) (type k) (version k) (gap k) (m k) (spare k) Hc Hsk Lsk M1 M2 M3 M4) in E. by injection E as <- <-. }
  assert (∀ k, (k < n)%nat → bytes (seq k) ∧ length (seq k) = 8%nat ∧ seq k = be_store 8 (number k)) as Hseq.
  { induction k as [|k IH]; intros Hkn.
    - split_and!; [done..|]. unfold number. rewrite Z.add_0_r, <- Ls. by rewrite be_store_load.
    - destruct (IH ltac:(lia)) as (B & L & E). destruct (Hstep k ltac:(lia) B L) as [E' _]. rewrite next_number in E' by done.
      rewrite E'. split; [auto with vtls|]. split; [apply length_be_store|]. rewrite E, be_load_store. change (8 * Z.of_nat 8) with 64.
      rewrite <- (be_store_mod 8 (_ + 1) 64), Zplus_mod_idemp_l, be_store_mod by lia. f_equal. unfold number. lia. }
  split.
  - intros k Hkn. destruct (Hseq k Hkn) as (B & L & E). destruct (Hstep k Hkn B L) as [_ ->]. unfold protect.
    replace (if xor || negb inrec then seq k else seq k) with (seq k) by (by destruct (xor || negb inrec)). rewrite E. f_equal. f_equal.
    unfold additional_data. rewrite be_load_store. f_equal. apply (be_store_mod 8 _ 64). lia.
  - intros i j Hij E. apply nonce_of_inj in E; [|apply length_be_store..|apply (iv_lengths a key iv _ Liv)]. apply (f_equal be_load) in E. rewrite !be_load_store in E.
    change (8 * Z.of_nat 8) with 64 in E. unfold number in E.
    assert ((be_load (seq 0%nat) + Z.of_nat j - (be_load (seq 0%nat) + Z.of_nat i)) `mod` 2 ^ 64 = 0) as Ed by (rewrite Zminus_mod, E, Z.sub_diag; done).
    replace (be_load (seq 0%nat) + Z.of_nat j - (be_load (seq 0%nat) + Z.of_nat i)) with (Z.of_nat j - Z.of_nat i) in Ed by lia. rewrite Z.mod_small in Ed by lia. lia.
Qed.

Definition demo_raw : SSL_AEAD_CTX aead_chacha20_poly1305_ctx := SslAead (AeadCtx None None) (replicate 12 0) 0 0 false 0 false.
Definition demo_aead : EVP_AEAD aead_chacha20_poly1305_ctx := aead_of blank_w64 false.
#[local] Instance demo_spec : AeadSpec demo_aead := chacha_spec blank_w64 eq_refl false.

Lemma tls_aead_records_witness : ∃ w r,
  tls1_change_cipher_state_aead demo_raw demo_aead None (seqZ 0 32) (seqZ 100 12) 0 SSL_CHACHA20POLY1305 true true = Some (true, Some w) ∧
  tls1_change_cipher_state_aead demo_raw demo_aead None (seqZ 0 32) (seqZ 100 12) 0 SSL_CHACHA20POLY1305 true true = Some (true, Some r) ∧
  ∃ body, tls1_aead_write w (replicate 8 0) 23 0x303 [1; 2; 3] (replicate 16 0) = Some (1, replicate 7 0 ++ [1], body) ∧
          tls1_aead_read r (replicate 8 0) 23 0x303 body = Some (1, replicate 7 0 ++ [1], [1; 2; 3]).
Proof.
  destruct (tls_aead_records demo_aead demo_raw demo_raw (seqZ 0 32) (seqZ 100 12) 0 SSL_CHACHA20POLY1305) as (w & r & E1 & E2 & H).
  - apply (bool_decide_eq_true_1 _). vm_compute. reflexivity.
  - reflexivity.
  - apply (bool_decide_eq_true_1 _). vm_compute. reflexivity.
  - reflexivity.
  - reflexivity.
  - reflexivity.
  - exists w, r. split; [exact E1|]. split; [exact E2|]. destruct (H (replicate 8 0) 23 0x303) as [H1 _].
    + apply (bool_decide_eq_true_1 _). vm_compute. reflexivity.
    + reflexivity.
    + apply (H1 [1; 2; 3] [] (replicate 16 0)).
      * apply (bool_decide_eq_true_1 _). vm_compute. reflexivity.
      * reflexivity.
      * reflexivity.
      * apply (bool_decide_eq_true_1 _). vm_compute. reflexivity.
Defined.

Definition demo_aead_ctx : SSL_AEAD_CTX aead_chacha20_poly1305_ctx :=
  match tls1_change_cipher_state_aead demo_raw demo_aead None (seqZ 0 32) (seqZ 100 12) 0 SSL_CHACHA20POLY1305 true true with Some (_, Some c) => c | _ => demo_raw end.
Definition demo_seq (k : nat) : list Z := replicate 7 0 ++ [Z.of_nat k].
Definition demo_body (k : nat) : list Z :=
  match tls1_aead_write demo_aead_ctx (demo_seq k) 23 0x303 [1; 2; 3] (replicate 16 0) with Some (_, _, b) => b | None => [] end.

Lemma tls_aead_nonces_witness :
  demo_body 1 = aead_enc (seqZ 0 32) (nonce_of true (seqZ 100 12) (be_store 8 1)) (additional_data 1 23 0x303 3) [1; 2; 3] ∧
  nonce_of true (seqZ 100 12) (be_store 8 0) ≠ nonce_of true (seqZ 100 12) (be_store 8 1).
Proof.
  destruct (tls_aead_nonces demo_aead demo_raw demo_aead_ctx (seqZ 0 32) (seqZ 100 12) 0 SSL_CHACHA20POLY1305 2 demo_seq (λ _, 23) (λ _, 0x303)
    (λ _, [1; 2; 3]) (λ _, []) (λ _, replicate 16 0) demo_body) as [H1 H2].
  - apply (bool_decide_eq_true_1 _). vm_compute. reflexivity.
  - reflexivity.
  - apply (bool_decide_eq_true_1 _). vm_compute. reflexivity.
  - reflexivity.
  - reflexivity.
  - reflexivity.
  - apply (bool_decide_eq_true_1 _). vm_compute. reflexivity.
  - reflexivity.
  - lia.
  - intros k Hk. split; [apply (bool_decide_eq_true_1 _); vm_compute; reflexivity|]. split; [cbn; lia|]. split; [reflexivity|]. apply (bool_decide_eq_true_1 _). vm_compute. reflexivity.
  - intros k Hk. destruct k as [|[|k]]; [vm_compute; reflexivity|vm_compute; reflexivity|lia].
  - assert (be_load (demo_seq 0) = 0) as E0 by (vm_compute; reflexivity). rewrite E0 in H1, H2.
    change (SSL_CHACHA20POLY1305 =? SSL_CHACHA20POLY1305) with true in H1, H2.
    change (negb (Z.land 0 SSL_CIPHER_ALGORITHM2_VARIABLE_NONCE_IN_RECORD =? 0)) with false in H1.
    specialize (H1 1%nat ltac:(lia)). specialize (H2 0%nat 1%nat ltac:(lia)). cbv beta zeta in H1, H2. rewrite app_nil_l in H1.
    change (0 + Z.of_nat 1) with 1 in H1, H2. change (0 + Z.of_nat 0) with 0 in H2. change (Z.of_nat (length [1; 2; 3])) with 3 in H1.
    split; [exact H1|exact H2].
Defined.

(** A second change of keys after one that ran out of memory cleans up the context that was
    never finished. *)
Lemma rekey_after_failure : let '(ok, o) := default (true, None) (tls1_change_cipher_state_aead demo_raw demo_aead None (seqZ 0 32) (seqZ 100 12) 0 SSL_CHACHA20POLY1305 true false) in
  ok = false ∧ tls1_change_cipher_state_aead demo_raw demo_aead o (seqZ 0 32) (seqZ 100 12) 0 SSL_CHACHA20POLY1305 true true = None.
Proof. vm_compute. done. Qed.
