(* ===== verification/BnWords.v ===== *)
(** * Arrays of words

    Models the word level of the big-number library: the multiplication macros of
    [crypto/bn/bn_lcl.h], the array operations of [crypto/bn/bn_asm.c] with their
    unrolled loops, the division of two words by one, and the schoolbook
    multiplication and squaring of [bn_mul.c] and [bn_sqr.c], for words of 64 bits.
    [cfg] selects among the implementations that conditional compilation chooses
    from.  An array operation takes and returns lists of words, the least
    significant first.

    The specification of all of them is arithmetic on the value [val] of an
    array. *)

From S2P Require Import Prelude.

Definition BN_BITS2 : Z := 64.
Definition BN_BITS4 : Z := 32.
Definition BN_MASK2 : Z := 0xffffffffffffffff.
Definition BN_MASK2l : Z := 0xffffffff.
Definition BN_MASK2h : Z := 0xffffffff00000000.
Definition BN_MASK2h1 : Z := 0xffffffff80000000.

(** A double-length type, an instruction for the product, one for its high half,
    or none of them. *)
Inductive cfg := BN_LLONG | UMULT_LOHI | UMULT_HIGH | PORTABLE.

(** ** Words *)

Definition Lw (t : Z) : Z := u64 t.
Definition Hw (t : Z) : Z := u64 (t ≫ BN_BITS2).

(** The instructions behind [BN_UMULT_LOHI] and [BN_UMULT_HIGH]. *)
Definition BN_UMULT_LOHI (a b : Z) : Z * Z := (u64 (a * b), (a * b) ≫ 64).
Definition BN_UMULT_HIGH (a b : Z) : Z := (a * b) ≫ 64.

Definition LBITS (a : Z) : Z := Z.land a BN_MASK2l.
Definition HBITS (a : Z) : Z := Z.land (a ≫ BN_BITS4) BN_MASK2l.
Definition L2HBITS (a : Z) : Z := u64 (a ≪ BN_BITS4).

Definition b2z (b : bool) : Z := if b then 1 else 0.

(** The product of two words from the products of their halves. *)
Definition mul64 (l h bl bh : Z) : Z * Z :=
  let m := u64 (bh * l) in
  let lt := u64 (bl * l) in
  let m1 := u64 (bl * h) in
  let ht := u64 (bh * h) in
  let m := u64 (m + m1) in
  let ht := if m <? m1 then u64 (ht + L2HBITS 1) else ht in
  let ht := u64 (ht + HBITS m) in
  let m1 := L2HBITS m in
  let lt := u64 (lt + m1) in
  let ht := if lt <? m1 then u64 (ht + 1) else ht in
  (lt, ht).

Definition sqr64 (a : Z) : Z * Z :=
  let l := LBITS a in
  let h := HBITS a in
  let m := u64 (l * h) in
  let l := u64 (l * l) in
  let h := u64 (h * h) in
  let h := u64 (h + Z.land m BN_MASK2h1 ≫ (BN_BITS4 - 1)) in
  let m := u64 (Z.land m BN_MASK2l ≪ (BN_BITS4 + 1)) in
  let l := u64 (l + m) in
  let h := if l <? m then u64 (h + 1) else h in
  (l, h).

(** The new values of [r] and [c]. *)
Definition mul_add (k : cfg) (r a w c : Z) : Z * Z :=
  match k with
  | BN_LLONG => let t := w * a + r + c in (Lw t, Hw t)
  | UMULT_LOHI =>
      let '(low, high) := BN_UMULT_LOHI w a in
      let ret := u64 (r + c) in
      let c := b2z (ret <? c) in
      let c := u64 (c + high) in
      let ret := u64 (ret + low) in
      let c := u64 (c + b2z (ret <? low)) in
      (ret, c)
  | UMULT_HIGH =>
      let high := BN_UMULT_HIGH w a in
      let ret := u64 (r + c) in
      let low := u64 (w * a) in
      let c := b2z (ret <? c) in
      let c := u64 (c + high) in
      let ret := u64 (ret + low) in
      let c := u64 (c + b2z (ret <? low)) in
      (ret, c)
  | PORTABLE =>
      let '(l, h) := mul64 (LBITS a) (HBITS a) (LBITS w) (HBITS w) in
      let l := u64 (l + c) in
      let h := if l <? c then u64 (h + 1) else h in
      let l := u64 (l + r) in
      let h := if l <? r then u64 (h + 1) else h in
      (l, u64 h)
  end.

Definition mul (k : cfg) (a w c : Z) : Z * Z :=
  match k with
  | BN_LLONG => let t := w * a + c in (Lw t, Hw t)
  | UMULT_LOHI =>
      let '(low, high) := BN_UMULT_LOHI w a in
      let ret := u64 (low + c) in
      (ret, u64 (high + b2z (ret <? low)))
  | UMULT_HIGH =>
      let low := u64 (w * a) in
      let high := BN_UMULT_HIGH w a in
      let ret := u64 (low + c) in
      (ret, u64 (high + b2z (ret <? low)))
  | PORTABLE =>
      let '(l, h) := mul64 (LBITS a) (HBITS a) (LBITS w) (HBITS w) in
      let l := u64 (l + c) in
      let h := if l <? c then u64 (h + 1) else h in
      (l, u64 h)
  end.

Definition sqr (k : cfg) (a : Z) : Z * Z :=
  match k with
  | BN_LLONG => let t := a * a in (Lw t, Hw t)
  | UMULT_LOHI => BN_UMULT_LOHI a a
  | UMULT_HIGH => (u64 (a * a), BN_UMULT_HIGH a a)
  | PORTABLE => sqr64 a
  end.

(** ** Array operations

    Each loop comes in two parts, four words at a time and then one at a time; the
    [..._1] functions are the second part.  The carry is the last result. *)

Fixpoint mul_add_words_1 (k : cfg) (rp ap : list Z) (w c : Z) : list Z * Z :=
  match ap, rp with
  | a :: ap, r :: rp =>
      let '(r, c) := mul_add k r a w c in
      let '(rs, c) := mul_add_words_1 k rp ap w c in (r :: rs, c)
  | _, _ => (rp, c)
  end.

Fixpoint mul_add_words_4 (k : cfg) (rp ap : list Z) (w c : Z) {struct ap} : list Z * Z :=
  match ap, rp with
  | a0 :: a1 :: a2 :: a3 :: ap', r0 :: r1 :: r2 :: r3 :: rp' =>
      let '(r0, c) := mul_add k r0 a0 w c in
      let '(r1, c) := mul_add k r1 a1 w c in
      let '(r2, c) := mul_add k r2 a2 w c in
      let '(r3, c) := mul_add k r3 a3 w c in
      let '(rs, c) := mul_add_words_4 k rp' ap' w c in (r0 :: r1 :: r2 :: r3 :: rs, c)
  | _, _ => mul_add_words_1 k rp ap w c
  end.

Definition bn_mul_add_words (k : cfg) (rp ap : list Z) (w : Z) : list Z * Z := mul_add_words_4 k rp ap w 0.

Fixpoint mul_words_1 (k : cfg) (ap : list Z) (w c : Z) : list Z * Z :=
  match ap with
  | a :: ap =>
      let '(r, c) := mul k a w c in
      let '(rs, c) := mul_words_1 k ap w c in (r :: rs, c)
  | [] => ([], c)
  end.

Fixpoint mul_words_4 (k : cfg) (ap : list Z) (w c : Z) {struct ap} : list Z * Z :=
  match ap with
  | a0 :: a1 :: a2 :: a3 :: ap' =>
      let '(r0, c) := mul k a0 w c in
      let '(r1, c) := mul k a1 w c in
      let '(r2, c) := mul k a2 w c in
      let '(r3, c) := mul k a3 w c in
      let '(rs, c) := mul_words_4 k ap' w c in (r0 :: r1 :: r2 :: r3 :: rs, c)
  | _ => mul_words_1 k ap w c
  end.

Definition bn_mul_words (k : cfg) (ap : list Z) (w : Z) : list Z * Z := mul_words_4 k ap w 0.

(** The unrolled loop of [bn_sqr_words] has no carry from word to word, so one
    function stands for both parts. *)
Fixpoint bn_sqr_words (k : cfg) (a : list Z) : list Z :=
  match a with
  | [] => []
  | a0 :: a => let '(r0, r1) := sqr k a0 in r0 :: r1 :: bn_sqr_words k a
  end.

Definition add_step (k : cfg) (a b c : Z) : Z * Z :=
  match k with
  | BN_LLONG => let ll := c + (a + b) in (Lw ll, ll ≫ BN_BITS2)
  | _ =>
      let t := u64 (a + c) in
      let c := b2z (t <? c) in
      let l := u64 (t + b) in
      (l, c + b2z (l <? t))
  end.

Fixpoint add_words_1 (k : cfg) (a b : list Z) (c : Z) : list Z * Z :=
  match a, b with
  | a0 :: a, b0 :: b =>
      let '(r0, c) := add_step k a0 b0 c in
      let '(rs, c) := add_words_1 k a b c in (r0 :: rs, c)
  | _, _ => ([], c)
  end.

Fixpoint add_words_4 (k : cfg) (a b : list Z) (c : Z) {struct a} : list Z * Z :=
  match a, b with
  | a0 :: a1 :: a2 :: a3 :: a', b0 :: b1 :: b2 :: b3 :: b' =>
      let '(r0, c) := add_step k a0 b0 c in
      let '(r1, c) := add_step k a1 b1 c in
      let '(r2, c) := add_step k a2 b2 c in
      let '(r3, c) := add_step k a3 b3 c in
      let '(rs, c) := add_words_4 k a' b' c in (r0 :: r1 :: r2 :: r3 :: rs, c)
  | _, _ => add_words_1 k a b c
  end.

Definition bn_add_words (k : cfg) (a b : list Z) : list Z * Z := add_words_4 k a b 0.

Definition sub_step (t1 t2 c : Z) : Z * Z :=
  (u64 (t1 - t2 - c), if t1 =? t2 then c else b2z (t1 <? t2)).

Fixpoint sub_words_1 (a b : list Z) (c : Z) : list Z * Z :=
  match a, b with
  | a0 :: a, b0 :: b =>
      let '(r0, c) := sub_step a0 b0 c in
      let '(rs, c) := sub_words_1 a b c in (r0 :: rs, c)
  | _, _ => ([], c)
  end.

Fixpoint sub_words_4 (a b : list Z) (c : Z) {struct a} : list Z * Z :=
  match a, b with
  | a0 :: a1 :: a2 :: a3 :: a', b0 :: b1 :: b2 :: b3 :: b' =>
      let '(r0, c) := sub_step a0 b0 c in
      let '(r1, c) := sub_step a1 b1 c in
      let '(r2, c) := sub_step a2 b2 c in
      let '(r3, c) := sub_step a3 b3 c in
      let '(rs, c) := sub_words_4 a' b' c in (r0 :: r1 :: r2 :: r3 :: rs, c)
  | _, _ => sub_words_1 a b c
  end.

Definition bn_sub_words (a b : list Z) : list Z * Z := sub_words_4 a b 0.

(** ** Schoolbook multiplication and squaring

    The rows of the product: row [i] adds [a * b[i]] to the [na] words of the result
    from [i] on and stores the carry behind them.  The loop of the source is
    unrolled four times. *)

Fixpoint mul_rows (k : cfg) (r a b : list Z) (i : nat) {struct b} : list Z :=
  match b with
  | [] => r
  | b0 :: b =>
      let '(ws, c) := bn_mul_add_words k (take (length a) (drop i r)) a b0 in
      mul_rows k (splice r i (ws ++ [c])) a b (S i)
  end.

Definition bn_mul_normal (k : cfg) (r a b : list Z) : list Z :=
  let '(a, b) := if (length a <? length b)%nat then (b, a) else (a, b) in
  match b with
  | [] => splice r 0 (bn_mul_words k a 0).1
  | b0 :: b =>
      let '(ws, c) := bn_mul_words k a b0 in
      mul_rows k (splice r 0 (ws ++ [c])) a b 1
  end.

(** The rows of the products of different words, [a] being the words from the
    multiplier of the row on. *)
Fixpoint sqr_rows (k : cfg) (r a : list Z) (off : nat) {struct a} : list Z :=
  match a with
  | a0 :: ((_ :: _) as a') =>
      let '(ws, c) := bn_mul_add_words k (take (length a') (drop off r)) a' a0 in
      sqr_rows k (splice r off (ws ++ [c])) a' (off + 2)
  | _ => r
  end.

Definition bn_sqr_normal (k : cfg) (r a : list Z) : list Z :=
  let max := (2 * length a)%nat in
  let r := <[0%nat := 0]> (<[(max - 1)%nat := 0]> r) in
  let r :=
    match a with
    | a0 :: ((_ :: _) as a') =>
        let '(ws, c) := bn_mul_words k a' a0 in
        sqr_rows k (splice r 1 (ws ++ [c])) a' 3
    | _ => r
    end in
  let r := (bn_add_words k r r).1 in
  (bn_add_words k r (bn_sqr_words k a)).1.

(** ** Values *)

Definition base : Z := 2 ^ 64.
Definition word (w : Z) : Prop := 0 ≤ w < 2 ^ 64.
Abbreviation words l := (Forall word l).

#[global] Instance word_dec w : Decision (word w).
Proof. unfold word; apply _. Defined.

Fixpoint val (l : list Z) : Z :=
  match l with
  | [] => 0
  | w :: l => w + base * val l
  end.

Lemma word_u64 z : word (u64 z).
Proof. apply Z.mod_pos_bound. lia. Qed.
#[export] Hint Resolve word_u64 : vtls.

Lemma val_bound l : words l → 0 ≤ val l < base ^ Z.of_nat (length l).
Proof.
  induction 1 as [|w l Hw Hl IH]; [cbn; lia|]. cbn [val length]. unfold word in Hw. fold base in Hw.
  rewrite Nat2Z.inj_succ, Z.pow_succ_r by lia. nia.
Qed.

Lemma val_app a b : val (a ++ b) = val a + base ^ Z.of_nat (length a) * val b.
Proof.
  induction a as [|w a IH]; cbn [app val length]; [lia|].
  rewrite IH, Nat2Z.inj_succ, Z.pow_succ_r by lia. lia.
Qed.

(** Addition modulo the base and its carry. *)
Lemma add_carry x y : word x → word y →
  u64 (x + y) + base * b2z (u64 (x + y) <? y) = x + y ∧
  u64 (x + y) + base * b2z (u64 (x + y) <? x) = x + y.
Proof.
  unfold word, u64, base, b2z. intros Hx Hy. destruct (Z.lt_ge_cases (x + y) (2 ^ 64)).
  - rewrite Z.mod_small by lia. split; case_cmp; lia.
  - replace ((x + y) `mod` 2 ^ 64) with (x + y - 2 ^ 64) by (apply (Z.mod_unique _ _ 1); lia). split; case_cmp; lia.
Qed.

Lemma if_carry (b : bool) h : (if b then u64 (h + 1) else h) = (if b then u64 (h + b2z b) else h).
Proof. by destruct b. Qed.

Lemma halves a : word a →
  a = HBITS a * 2 ^ 32 + LBITS a ∧ 0 ≤ HBITS a < 2 ^ 32 ∧ 0 ≤ LBITS a < 2 ^ 32.
Proof.
  intros Ha. unfold word in Ha. unfold HBITS, LBITS, BN_MASK2l, BN_BITS4. change 0xffffffff with (Z.ones 32).
  rewrite !Z.land_ones, Z.shiftr_div_pow2 by lia.
  rewrite (Z.mod_small (a `div` 2 ^ 32)).
  - pose proof (Z.div_mod a (2 ^ 32) ltac:(lia)). pose proof (Z.mod_pos_bound a (2 ^ 32) ltac:(lia)).
    split_and!; lia.
  - split; [apply Z.div_pos; lia|apply Z.div_lt_upper_bound; lia].
Qed.

Lemma L2HBITS_low a : word a → L2HBITS a = LBITS a * 2 ^ 32.
Proof.
  intros Ha. pose proof (halves a Ha) as (E & Hh & Hl). unfold L2HBITS, u64, BN_BITS4. rewrite Z.shiftl_mul_pow2 by lia.
  symmetry. apply (Z.mod_unique _ _ (HBITS a)); lia.
Qed.

Lemma half_mul_bound x y : 0 ≤ x < 2 ^ 32 → 0 ≤ y < 2 ^ 32 → 0 ≤ x * y ≤ (2 ^ 32 - 1) * (2 ^ 32 - 1).
Proof. intros. split; [lia|]. apply Z.mul_le_mono_nonneg; lia. Qed.

Lemma word_mul_bound x y : word x → word y → 0 ≤ x * y ≤ (base - 1) * (base - 1).
Proof. unfold word, base. intros. split; [lia|]. apply Z.mul_le_mono_nonneg; lia. Qed.

Lemma mul64_spec l h bl bh : 0 ≤ l < 2 ^ 32 → 0 ≤ h < 2 ^ 32 → 0 ≤ bl < 2 ^ 32 → 0 ≤ bh < 2 ^ 32 →
  let '(lo, hi) := mul64 l h bl bh in
  word lo ∧ word hi ∧ lo + base * hi = (h * 2 ^ 32 + l) * (bh * 2 ^ 32 + bl).
Proof.
  intros Hl Hh Hbl Hbh. unfold mul64.
  pose proof (half_mul_bound bh l Hbh Hl) as B1. pose proof (half_mul_bound bl l Hbl Hl) as B0.
  pose proof (half_mul_bound bl h Hbl Hh) as B2. pose proof (half_mul_bound bh h Hbh Hh) as B3.
  assert (word (h * 2 ^ 32 + l) ∧ word (bh * 2 ^ 32 + bl)) as [WX WY] by (unfold word; lia).
  pose proof (word_mul_bound _ _ WX WY) as BT.
  assert ((h * 2 ^ 32 + l) * (bh * 2 ^ 32 + bl) = bl * l + (bh * l + bl * h) * 2 ^ 32 + bh * h * 2 ^ 64) as ET by ring.
  rewrite ET in *. clear ET WX WY. set (P0 := bl * l) in *. set (P1 := bh * l) in *. set (P2 := bl * h) in *.
  set (P3 := bh * h) in *. rewrite (u64_small P0), (u64_small P1), (u64_small P2), (u64_small P3) by lia.
  change (L2HBITS 1) with (2 ^ 32).
  destruct (add_carry P1 P2) as [C _]; [unfold word; lia..|]. set (m := u64 (P1 + P2)) in *.
  assert (word m) as Wm by apply word_u64. rewrite (L2HBITS_low m Wm).
  destruct (halves m Wm) as (Em & Hmh & Hml). set (mh := HBITS m) in *. set (ml := LBITS m) in *.
  destruct (add_carry P0 (ml * 2 ^ 32)) as [C2 _]; [unfold word; lia..|].
  set (lt := u64 (P0 + ml * 2 ^ 32)) in *. assert (word lt) as Wlt by apply word_u64.
  unfold word, base, b2z in *.
  destruct (m <? P2); rewrite ?(u64_small (P3 + 2 ^ 32)), ?(u64_small (P3 + 2 ^ 32 + mh)), ?(u64_small (P3 + mh)) by lia;
    destruct (lt <? ml * 2 ^ 32); rewrite ?(u64_small (_ + 1)) by lia; split_and!; lia.
Qed.

Lemma umult_spec a b : word a → word b →
  word (u64 (a * b)) ∧ word ((a * b) ≫ 64) ∧ u64 (a * b) + base * ((a * b) ≫ 64) = a * b.
Proof.
  intros Ha Hb. pose proof (word_mul_bound a b Ha Hb) as Hm. unfold base, word in *. rewrite Z.shiftr_div_pow2 by lia.
  pose proof (Z.div_mod (a * b) (2 ^ 64) ltac:(lia)) as E. split_and!; [apply word_u64..| | |].
  - apply Z.div_pos; lia.
  - apply Z.div_lt_upper_bound; lia.
  - unfold u64. lia.
Qed.

Lemma double_word t : 0 ≤ t < base * base → word (Lw t) ∧ word (Hw t) ∧ Lw t + base * Hw t = t.
Proof.
  intros Ht. unfold Lw, Hw, BN_BITS2, base, word in *. rewrite Z.shiftr_div_pow2 by lia.
  pose proof (Z.div_mod t (2 ^ 64) ltac:(lia)) as E.
  assert (0 ≤ t `div` 2 ^ 64 < 2 ^ 64) by (split; [apply Z.div_pos; lia|apply Z.div_lt_upper_bound; lia]).
  rewrite (u64_small (t `div` 2 ^ 64)) by done. unfold u64. pose proof (Z.mod_pos_bound t (2 ^ 64)). lia.
Qed.

(** Adding a word to a double word. *)
Lemma add_to_double lo hi c : word lo → word hi → word c → lo + base * hi + c < base * base →
  let l := u64 (lo + c) in
  word l ∧ word (hi + b2z (l <? c)) ∧ word (hi + b2z (l <? lo)) ∧
  l + base * (hi + b2z (l <? c)) = lo + base * hi + c ∧ l + base * (hi + b2z (l <? lo)) = lo + base * hi + c.
Proof.
  intros Hl Hh Hc Hlt l. destruct (add_carry lo c Hl Hc) as [C1 C2]. fold l in C1, C2.
  assert (word l) as Wl by apply word_u64. unfold word, base, b2z in *.
  destruct (l <? c), (l <? lo); split_and!; lia.
Qed.

Lemma b2z_if (b : bool) h : word (h + b2z b) → (if b then u64 (h + 1) else h) = h + b2z b.
Proof. destruct b; cbn; intros H; [by apply u64_small|lia]. Qed.

(** Products by an instruction, with the two additions. *)
Lemma umult_add_spec r a w c : word r → word a → word w → word c →
  let ret := u64 (r + c) in let low := u64 (w * a) in let x := u64 (ret + low) in
  let c' := u64 (u64 (b2z (ret <? c) + (w * a) ≫ 64) + b2z (x <? low)) in
  word x ∧ word c' ∧ x + base * c' = a * w + r + c.
Proof.
  intros Hr Ha Hw Hc ret low x c'. pose proof (word_mul_bound a w Ha Hw) as Hm.
  assert (a * w + r + c < base * base) as Ht by (unfold word, base in *; lia).
  destruct (umult_spec w a Hw Ha) as (Wl & Wh & E). subst ret low x c'. rewrite (Z.mul_comm w a) in *.
  destruct (add_carry r c Hr Hc) as [C1 _]. pose proof (word_u64 (r + c)) as Wr.
  destruct (add_carry (u64 (r + c)) (u64 (a * w)) Wr Wl) as [C2 _].
  pose proof (word_u64 (u64 (r + c) + u64 (a * w))) as Wr2.
  set (x := u64 (u64 (r + c) + u64 (a * w))) in *. set (hi := (a * w) ≫ 64) in *. set (s := u64 (r + c)) in *.
  unfold b2z, word, base in *. destruct (s <? c), (x <? u64 (a * w));
    rewrite ?(u64_small (1 + hi)), ?(u64_small (0 + hi)) by lia; rewrite ?u64_small by lia; split_and!; lia.
Qed.

(** The macros compute products with sums, in every configuration. *)
Lemma mul_add_spec k r a w c : word r → word a → word w → word c →
  let '(r', c') := mul_add k r a w c in word r' ∧ word c' ∧ r' + base * c' = a * w + r + c.
Proof.
  intros Hr Ha Hw Hc. pose proof (word_mul_bound a w Ha Hw) as Hm.
  assert (a * w + r + c < base * base) as Ht by (unfold word, base in *; lia).
  destruct k; cbn [mul_add].
  2, 3: (unfold BN_UMULT_LOHI, BN_UMULT_HIGH; by apply umult_add_spec).
  - rewrite (Z.mul_comm w a). apply double_word. unfold word in *. lia.
  - destruct (halves a Ha) as (Ea & Hah & Hal), (halves w Hw) as (Ew & Hwh & Hwl).
    pose proof (mul64_spec _ _ _ _ Hal Hah Hwl Hwh) as H. destruct (mul64 _ _ _ _) as [l h]. rewrite <- Ea, <- Ew in H.
    destruct H as (Wl & Wh & E).
    destruct (add_to_double l h c Wl Wh Hc) as (W1 & W2 & _ & E1 & _); [unfold word in *; lia|].
    rewrite (b2z_if _ _ W2).
    destruct (add_to_double (u64 (l + c)) (h + b2z (u64 (l + c) <? c)) r W1 W2 Hr) as (W3 & W4 & _ & E2 & _);
      [unfold word in *; lia|]. rewrite (b2z_if _ _ W4), (u64_small (_ + b2z _)) by apply W4. split_and!; (done || lia).
Qed.

Lemma mul_spec k a w c : word a → word w → word c →
  let '(r', c') := mul k a w c in word r' ∧ word c' ∧ r' + base * c' = a * w + c.
Proof.
  intros Ha Hw Hc. pose proof (word_mul_bound a w Ha Hw) as Hm.
  assert (a * w + c < base * base) as Ht by (unfold word, base in *; lia).
  destruct k; cbn [mul].
  - rewrite (Z.mul_comm w a). apply double_word. unfold word in *. lia.
  - destruct (umult_spec w a Hw Ha) as (Wl & Wh & E). cbn. rewrite (Z.mul_comm w a) in *.
    destruct (add_to_double _ _ c Wl Wh Hc) as (W1 & _ & W2 & _ & E2); [lia|]. rewrite (u64_small (_ + b2z _)) by apply W2.
    split_and!; (done || lia).
  - destruct (umult_spec w a Hw Ha) as (Wl & Wh & E). unfold BN_UMULT_HIGH. rewrite (Z.mul_comm w a) in *.
    destruct (add_to_double _ _ c Wl Wh Hc) as (W1 & _ & W2 & _ & E2); [lia|]. rewrite (u64_small (_ + b2z _)) by apply W2.
    split_and!; (done || lia).
  - destruct (halves a Ha) as (Ea & Hah & Hal), (halves w Hw) as (Ew & Hwh & Hwl).
    pose proof (mul64_spec _ _ _ _ Hal Hah Hwl Hwh) as H. destruct (mul64 _ _ _ _) as [l h]. rewrite <- Ea, <- Ew in H.
    destruct H as (Wl & Wh & E).
    destruct (add_to_double l h c Wl Wh Hc) as (W1 & W2 & _ & E1 & _); [lia|].
    rewrite (b2z_if _ _ W2), (u64_small (_ + b2z _)) by apply W2. split_and!; (done || lia).
Qed.

Lemma sqr_spec k a : word a → let '(r0, r1) := sqr k a in word r0 ∧ word r1 ∧ r0 + base * r1 = a * a.
Proof.
  intros Ha. pose proof (word_mul_bound a a Ha Ha) as Hm. destruct k; cbn [sqr].
  - apply double_word. unfold base in *. lia.
  - by apply umult_spec.
  - by apply umult_spec.
  - destruct (halves a Ha) as (Ea & Hh & Hl). unfold sqr64. set (l := LBITS a) in *. set (h := HBITS a) in *.
    pose proof (half_mul_bound l h Hl Hh) as B1. pose proof (half_mul_bound l l Hl Hl) as B0.
    pose proof (half_mul_bound h h Hh Hh) as B2.
    assert (a * a = l * l + 2 * (l * h) * 2 ^ 32 + h * h * 2 ^ 64) as ET by (rewrite Ea; ring). rewrite ET in *. clear ET.
    set (P0 := l * l) in *. set (P1 := l * h) in *. set (P2 := h * h) in *.
    rewrite (u64_small P0), (u64_small P1), (u64_small P2) by lia.
    assert (∃ mh ml, P1 = mh * 2 ^ 31 + ml ∧ 0 ≤ ml < 2 ^ 31 ∧ 0 ≤ mh ∧
      Z.land P1 BN_MASK2h1 ≫ (BN_BITS4 - 1) = mh ∧ u64 (Z.land P1 BN_MASK2l ≪ (BN_BITS4 + 1)) = ml * 2 ^ 33)
      as (mh & ml & Em & Hml & Hmh & -> & ->).
    { exists (P1 `div` 2 ^ 31), (P1 `mod` 2 ^ 31). pose proof (Z.div_mod P1 (2 ^ 31) ltac:(lia)) as E.
      pose proof (Z.mod_pos_bound P1 (2 ^ 31) ltac:(lia)) as Hb.
      assert (0 ≤ P1 `div` 2 ^ 31) by (apply Z.div_pos; lia). split_and!; try lia.
      - rewrite Z.shiftr_land. change (BN_MASK2h1 ≫ (BN_BITS4 - 1)) with (Z.ones 33). rewrite Z.shiftr_div_pow2 by done.
        change (2 ^ (BN_BITS4 - 1)) with (2 ^ 31). rewrite Z.land_ones by lia. apply Z.mod_small.
        split; [done|]. apply Z.div_lt_upper_bound; lia.
      - unfold BN_MASK2l. change 0xffffffff with (Z.ones 32). rewrite Z.land_ones, Z.shiftl_mul_pow2 by done.
        change (2 ^ (BN_BITS4 + 1)) with (2 ^ 33). unfold u64. symmetry.
        apply (Z.mod_unique _ _ ((P1 `mod` 2 ^ 32) `div` 2 ^ 31)); [lia|].
        assert ((P1 `mod` 2 ^ 32) `mod` 2 ^ 31 = P1 `mod` 2 ^ 31) as E2.
        { change (2 ^ 32) with (2 ^ 31 * 2). rewrite Z.rem_mul_r by lia.
          rewrite (Z.mul_comm (2 ^ 31)), Z.mod_add, Z.mod_mod by lia. done. }
        pose proof (Z.div_mod (P1 `mod` 2 ^ 32) (2 ^ 31) ltac:(lia)). lia. }
    rewrite (u64_small (P2 + mh)) by (unfold base in *; lia).
    destruct (add_to_double P0 (P2 + mh) (ml * 2 ^ 33)) as (W1 & W2 & _ & E & _); [unfold word, base in *; lia..|].
    rewrite (b2z_if _ _ W2). split_and!; [done..|]. rewrite E. unfold base. lia.
Qed.

(** Unrolling does not change what is computed. *)
Lemma mul_add_words_unroll k ap : ∀ rp w c, mul_add_words_4 k rp ap w c = mul_add_words_1 k rp ap w c.
Proof.
  induction ap as [ap IH] using (well_founded_induction (well_founded_ltof _ length)). intros rp w c.
  destruct ap as [|a0 [|a1 [|a2 [|a3 ap]]]]; [done..|]. destruct rp as [|r0 [|r1 [|r2 [|r3 rp]]]]; [done..|].
  cbn [mul_add_words_4 mul_add_words_1].
  do 4 (destruct (mul_add _ _ _ _ _) as [? ?]). rewrite IH by (unfold ltof; cbn; lia).
  by destruct (mul_add_words_1 _ _ _ _ _).
Qed.

Lemma mul_words_unroll k ap : ∀ w c, mul_words_4 k ap w c = mul_words_1 k ap w c.
Proof.
  induction ap as [ap IH] using (well_founded_induction (well_founded_ltof _ length)). intros w c.
  destruct ap as [|a0 [|a1 [|a2 [|a3 ap]]]]; [done..|]. cbn [mul_words_4 mul_words_1].
  do 4 (destruct (mul _ _ _ _) as [? ?]). rewrite IH by (unfold ltof; cbn; lia). by destruct (mul_words_1 _ _ _ _).
Qed.

Lemma add_words_unroll k a : ∀ b c, add_words_4 k a b c = add_words_1 k a b c.
Proof.
  induction a as [a IH] using (well_founded_induction (well_founded_ltof _ length)). intros b c.
  destruct a as [|a0 [|a1 [|a2 [|a3 a]]]]; [done..|]. destruct b as [|b0 [|b1 [|b2 [|b3 b]]]]; [done..|].
  cbn [add_words_4 add_words_1].
  do 4 (destruct (add_step _ _ _ _) as [? ?]). rewrite IH by (unfold ltof; cbn; lia). by destruct (add_words_1 _ _ _ _).
Qed.

Lemma sub_words_unroll a : ∀ b c, sub_words_4 a b c = sub_words_1 a b c.
Proof.
  induction a as [a IH] using (well_founded_induction (well_founded_ltof _ length)). intros b c.
  destruct a as [|a0 [|a1 [|a2 [|a3 a]]]]; [done..|]. destruct b as [|b0 [|b1 [|b2 [|b3 b]]]]; [done..|].
  cbn [sub_words_4 sub_words_1].
  do 4 (destruct (sub_step _ _ _) as [? ?]). rewrite IH by (unfold ltof; cbn; lia). by destruct (sub_words_1 _ _ _).
Qed.

(** An array result with a carry. *)
Definition carries (n : nat) (x : list Z * Z) (v : Z) : Prop :=
  words x.1 ∧ word x.2 ∧ length x.1 = n ∧ val x.1 + base ^ Z.of_nat n * x.2 = v.

Lemma carries_cons n r x c t : word r → carries n x (t + c) → carries (S n) (r :: x.1, x.2) (r + base * (t + c)).
Proof.
  intros Hr (H1 & H2 & H3 & H4). unfold carries. cbn [fst snd val length].
  rewrite Nat2Z.inj_succ, Z.pow_succ_r by lia. split_and!; [by constructor|done|by rewrite H3|]. rewrite <- H4. lia.
Qed.

Lemma mul_add_words_1_spec k ap : ∀ rp w c, words ap → words rp → length rp = length ap → word w → word c →
  carries (length ap) (mul_add_words_1 k rp ap w c) (val ap * w + val rp + c).
Proof.
  induction ap as [|a ap IH]; intros [|r rp] w c Ha Hr Hl Hw Hc; cbn [length] in Hl; try lia.
  { unfold carries. cbn. split_and!; (done || lia). }
  apply Forall_cons_1 in Ha as [Ha Has]. apply Forall_cons_1 in Hr as [Hr Hrs]. cbn [mul_add_words_1].
  pose proof (mul_add_spec k r a w c Hr Ha Hw Hc) as H. destruct (mul_add k r a w c) as [r' c']. destruct H as (W1 & W2 & E).
  pose proof (IH rp w c' Has Hrs ltac:(lia) Hw W2) as Hx. destruct (mul_add_words_1 k rp ap w c') as [rs c2].
  cbn [length]. replace (val (a :: ap) * w + val (r :: rp) + c) with (r' + base * (val ap * w + val rp + c')) by (cbn [val]; lia).
  by apply (carries_cons _ r' (rs, c2)).
Qed.

Lemma mul_words_1_spec k ap : ∀ w c, words ap → word w → word c →
  carries (length ap) (mul_words_1 k ap w c) (val ap * w + c).
Proof.
  induction ap as [|a ap IH]; intros w c Ha Hw Hc.
  { unfold carries. cbn. split_and!; (done || lia). }
  apply Forall_cons_1 in Ha as [Ha Has]. cbn [mul_words_1].
  pose proof (mul_spec k a w c Ha Hw Hc) as H. destruct (mul k a w c) as [r' c']. destruct H as (W1 & W2 & E).
  pose proof (IH w c' Has Hw W2) as Hx. destruct (mul_words_1 k ap w c') as [rs c2].
  cbn [length]. replace (val (a :: ap) * w + c) with (r' + base * (val ap * w + c')) by (cbn [val]; lia).
  by apply (carries_cons _ r' (rs, c2)).
Qed.

Lemma add_step_portable a b c : word a → word b → 0 ≤ c ≤ 1 →
  let t := u64 (a + c) in let l := u64 (t + b) in let c' := b2z (t <? c) + b2z (l <? t) in
  word l ∧ 0 ≤ c' ≤ 1 ∧ l + base * c' = a + b + c.
Proof.
  intros Ha Hb Hc t l. assert (word c) as Wc by (unfold word; lia).
  destruct (add_carry a c Ha Wc) as [C1 _]. pose proof (word_u64 (a + c)) as W1.
  destruct (add_carry (u64 (a + c)) b W1 Hb) as [_ C2]. pose proof (word_u64 (u64 (a + c) + b)) as W2.
  subst t l. unfold b2z, word, base in *.
  destruct (u64 (a + c) <? c), (u64 (u64 (a + c) + b) <? u64 (a + c)); split_and!; lia.
Qed.

Lemma add_step_spec k a b c : word a → word b → 0 ≤ c ≤ 1 →
  let '(r, c') := add_step k a b c in word r ∧ 0 ≤ c' ≤ 1 ∧ r + base * c' = a + b + c.
Proof.
  intros Ha Hb Hc. destruct k; [|by apply add_step_portable..]. cbn [add_step]. unfold Lw, BN_BITS2, base, word in *.
  rewrite Z.shiftr_div_pow2 by lia. unfold u64. pose proof (Z.div_mod (c + (a + b)) (2 ^ 64) ltac:(lia)).
  pose proof (Z.mod_pos_bound (c + (a + b)) (2 ^ 64) ltac:(lia)). split_and!; lia.
Qed.

Lemma sub_step_spec a b c : word a → word b → 0 ≤ c ≤ 1 →
  let '(r, c') := sub_step a b c in word r ∧ 0 ≤ c' ≤ 1 ∧ r - base * c' = a - b - c.
Proof.
  intros Ha Hb Hc. unfold sub_step. pose proof (word_u64 (a - b - c)) as W. unfold word, base, b2z in *.
  assert (u64 (a - b - c) = a - b - c ∨ u64 (a - b - c) = a - b - c + 2 ^ 64) as H.
  { unfold u64. destruct (Z.lt_ge_cases (a - b - c) 0).
    - right. symmetry. apply (Z.mod_unique _ _ (-1)); lia.
    - left. apply Z.mod_small. lia. }
  case_cmp; try case_cmp; split_and!; lia.
Qed.

Lemma carries_01 n x v : words x.1 → length x.1 = n → 0 ≤ x.2 ≤ 1 → val x.1 + base ^ Z.of_nat n * x.2 = v → carries n x v.
Proof. intros. split_and!; [done| |done..]. unfold word. lia. Qed.

Lemma add_words_1_spec k a : ∀ b c, words a → words b → length b = length a → 0 ≤ c ≤ 1 →
  carries (length a) (add_words_1 k a b c) (val a + val b + c) ∧ 0 ≤ (add_words_1 k a b c).2 ≤ 1.
Proof.
  induction a as [|a0 a IH]; intros [|b0 b] c Ha Hb Hl Hc; cbn [length] in Hl; try lia.
  { split; [apply carries_01; cbn; (done || lia)|done]. }
  apply Forall_cons_1 in Ha as [Ha Has]. apply Forall_cons_1 in Hb as [Hb Hbs]. cbn [add_words_1].
  pose proof (add_step_spec k a0 b0 c Ha Hb Hc) as H. destruct (add_step k a0 b0 c) as [r' c']. destruct H as (W1 & W2 & E).
  destruct (IH b c' Has Hbs ltac:(lia) W2) as [Hx H2]. destruct (add_words_1 k a b c') as [rs c2]. split; [|done].
  cbn [length]. replace (val (a0 :: a) + val (b0 :: b) + c) with (r' + base * (val a + val b + c')) by (cbn [val]; lia).
  by apply (carries_cons _ r' (rs, c2)).
Qed.

Lemma sub_words_1_spec a : ∀ b c, words a → words b → length b = length a → 0 ≤ c ≤ 1 →
  let '(r, c') := sub_words_1 a b c in
  words r ∧ length r = length a ∧ 0 ≤ c' ≤ 1 ∧ val r - base ^ Z.of_nat (length a) * c' = val a - val b - c.
Proof.
  induction a as [|a0 a IH]; intros [|b0 b] c Ha Hb Hl Hc; cbn [length] in Hl; try lia.
  { cbn. split_and!; (done || lia). }
  apply Forall_cons_1 in Ha as [Ha Has]. apply Forall_cons_1 in Hb as [Hb Hbs]. cbn [sub_words_1].
  pose proof (sub_step_spec a0 b0 c Ha Hb Hc) as H. destruct (sub_step a0 b0 c) as [r' c']. destruct H as (W1 & W2 & E).
  pose proof (IH b c' Has Hbs ltac:(lia) W2) as Hx. destruct (sub_words_1 a b c') as [rs c2].
  destruct Hx as (H1 & H2 & H3 & H4). cbn [length val]. rewrite Nat2Z.inj_succ, Z.pow_succ_r by lia.
  split_and!; [by constructor|by rewrite H2|lia..].
Qed.

Lemma bn_sqr_words_spec k a : words a →
  words (bn_sqr_words k a) ∧ length (bn_sqr_words k a) = (2 * length a)%nat ∧
  val (bn_sqr_words k a) = foldr (λ w v, w * w + base * base * v) 0 a.
Proof.
  induction 1 as [|w l Hw _ (I1 & I2 & I3)]; [by cbn|]. cbn [bn_sqr_words foldr length].
  pose proof (sqr_spec k w Hw) as H. destruct (sqr k w) as [r0 r1]. destruct H as (W0 & W1 & E).
  split_and!; [by apply Forall_cons_2, Forall_cons_2|cbn; lia|]. cbn [val]. rewrite I3. lia.
Qed.

(** ** Schoolbook multiplication and squaring *)

Lemma bn_mul_add_words_spec k rp ap w : words ap → words rp → length rp = length ap → word w →
  carries (length ap) (bn_mul_add_words k rp ap w) (val ap * w + val rp).
Proof.
  intros Ha Hr Hl Hw. unfold bn_mul_add_words. rewrite mul_add_words_unroll.
  rewrite <- (Z.add_0_r (_ + val rp)). by apply mul_add_words_1_spec.
Qed.

Lemma bn_mul_words_spec k ap w : words ap → word w → carries (length ap) (bn_mul_words k ap w) (val ap * w).
Proof.
  intros Ha Hw. unfold bn_mul_words. rewrite mul_words_unroll. rewrite <- (Z.add_0_r (_ * w)). by apply mul_words_1_spec.
Qed.

Lemma words_snoc l w : words l → word w → words (l ++ [w]).
Proof. intros Hl Hw. apply Forall_app. split; [done|]. by apply Forall_singleton. Qed.

Lemma carries_snoc n x v : carries n x v → words (x.1 ++ [x.2]) ∧ length (x.1 ++ [x.2]) = S n ∧ val (x.1 ++ [x.2]) = v.
Proof.
  intros (H1 & H2 & H3 & H4). rewrite val_app, length_app, H3. cbn [val length].
  split_and!; [by apply words_snoc|lia|lia].
Qed.

Lemma splice_mid {A} (lo mid new rest : list A) n : length lo = n → length new = length mid →
  splice (lo ++ mid ++ rest) n new = lo ++ new ++ rest.
Proof. intros <- Hl. by apply splice_app. Qed.

Lemma mul_rows_spec k a b : ∀ i lo mid hi, words a → words b → words lo → words mid →
  length lo = i → length mid = length a → length hi = length b →
  let r := mul_rows k (lo ++ mid ++ hi) a b i in
  words r ∧ length r = (i + length a + length b)%nat ∧ val r = val (lo ++ mid) + base ^ Z.of_nat i * (val a * val b).
Proof.
  induction b as [|b0 b IH]; intros i lo mid hi Ha Hb Hlo Hmid Hi Hm Hh; cbn [mul_rows].
  { destruct hi; [|done]. rewrite app_nil_r, length_app. cbn [val length].
    split_and!; [by apply Forall_app|lia|lia]. }
  destruct hi as [|x hi]; [done|]. apply Forall_cons_1 in Hb as [Hb0 Hb]. cbn [length] in Hh.
  rewrite drop_app_exact, take_app_exact by done.
  destruct (carries_snoc _ _ _ (bn_mul_add_words_spec k mid a b0 Ha Hmid Hm Hb0)) as (W & L & V).
  destruct (bn_mul_add_words k mid a b0) as [ws c]. cbn [fst snd] in *.
  replace (mid ++ x :: hi) with ((mid ++ [x]) ++ hi) by (by rewrite <- app_assoc).
  rewrite (splice_mid lo (mid ++ [x]) (ws ++ [c]) hi i Hi) by (rewrite L, length_app; cbn; lia).
  destruct (ws ++ [c]) as [|y t] eqn:E; [done|].
  apply Forall_cons_1 in W as [Wy Wt]. cbn [length] in L.
  replace (lo ++ (y :: t) ++ hi) with ((lo ++ [y]) ++ t ++ hi) by (by rewrite <- app_assoc).
  destruct (IH (S i) (lo ++ [y]) t hi) as (R1 & R2 & R3); try done.
  { by apply words_snoc. }
  { rewrite length_app. cbn. lia. }
  { lia. }
  { lia. }
  split_and!; [done|rewrite R2; cbn [length]; lia|]. rewrite R3, <- app_assoc. cbn [app].
  rewrite !val_app, V, Hi, Nat2Z.inj_succ, Z.pow_succ_r by lia. cbn [val]. lia.
Qed.

(** The product of the arrays, whatever the result array held. *)
Lemma bn_mul_normal_spec k r a b : words a → words b → length r = (length a + length b)%nat →
  let r' := bn_mul_normal k r a b in words r' ∧ length r' = length r ∧ val r' = val a * val b.
Proof.
  intros Ha Hb Hr. unfold bn_mul_normal.
  assert (∀ a b : list Z, words a → words b → length r = (length a + length b)%nat →
    let r' := match b with
      | [] => splice r 0 (bn_mul_words k a 0).1
      | b0 :: b => let '(ws, c) := bn_mul_words k a b0 in mul_rows k (splice r 0 (ws ++ [c])) a b 1
      end in words r' ∧ length r' = length r ∧ val r' = val a * val b) as H.
  { clear. intros a [|b0 b] Ha Hb Hr; cbn [length] in Hr.
    - destruct (bn_mul_words_spec k a 0 Ha ltac:(done)) as (H1 & H2 & H3 & H4). unfold splice. rewrite take_0; cbn [app].
      rewrite drop_ge, app_nil_r by lia. split_and!; [done|lia|]. cbn [val].
      pose proof (val_bound _ H1). unfold word in H2.
      pose proof (Z.mul_nonneg_nonneg (base ^ Z.of_nat (length a)) (bn_mul_words k a 0).2 ltac:(apply Z.pow_nonneg; done) ltac:(lia)). lia.
    - apply Forall_cons_1 in Hb as [Hb0 Hb].
      destruct (carries_snoc _ _ _ (bn_mul_words_spec k a b0 Ha Hb0)) as (W & L & V).
      destruct (bn_mul_words k a b0) as [ws c]. cbn [fst snd] in *. unfold splice. rewrite take_0; cbn [app].
      destruct (ws ++ [c]) as [|y t] eqn:E; [done|]. rewrite L. apply Forall_cons_1 in W as [Wy Wt]. cbn [length] in L.
      destruct (mul_rows_spec k a b 1 [y] t (drop (0 + S (length a)) r)) as (R1 & R2 & R3); try done.
      { by apply Forall_singleton. }
      { lia. }
      { rewrite length_drop. lia. }
      split_and!; [done|rewrite Hr; etransitivity; [exact R2|lia]|]. etransitivity; [exact R3|]. cbn [app]. rewrite V. cbn [val].
      change (Z.of_nat 1) with 1. rewrite Z.pow_1_r. lia. }
  destruct (length a <? length b)%nat.
  - rewrite (Z.mul_comm (val a)). apply H; [done..|lia].
  - by apply H.
Qed.

(** The sum of the products of different words, and of the squares. *)
Fixpoint cross (a : list Z) : Z :=
  match a with
  | [] => 0
  | a0 :: a => a0 * val a + base * base * cross a
  end.

Definition squares (a : list Z) : Z := foldr (λ w v, w * w + base * base * v) 0 a.

Lemma val_square a : val a * val a = squares a + 2 * base * cross a.
Proof.
  unfold squares. induction a as [|w a IH]; cbn [val foldr cross]; [done|].
  replace ((w + base * val a) * (w + base * val a)) with (w * w + 2 * base * (w * val a) + base * base * (val a * val a)) by ring.
  rewrite IH. ring.
Qed.

Lemma cross_nonneg a : words a → 0 ≤ cross a.
Proof.
  induction 1 as [|w a Hw Ha IH]; cbn [cross]; [done|]. pose proof (val_bound a Ha). unfold word in Hw.
  pose proof (Z.mul_nonneg_nonneg w (val a)). unfold base. lia.
Qed.

Lemma squares_nonneg a : 0 ≤ squares a.
Proof. unfold squares. induction a as [|w a IH]; cbn [foldr]; [done|]. pose proof (Z.square_nonneg w). unfold base in *. lia. Qed.

Lemma sqr_rows_cons k r a0 a off : a ≠ [] →
  sqr_rows k r (a0 :: a) off =
  let '(ws, c) := bn_mul_add_words k (take (length a) (drop off r)) a a0 in
  sqr_rows k (splice r off (ws ++ [c])) a (off + 2).
Proof. by destruct a. Qed.

Lemma sqr_rows_spec k a : ∀ off lo mid hi, words a → words lo → words mid →
  length lo = off → S (length mid) = length a → S (length hi) = length a →
  let r := sqr_rows k (lo ++ mid ++ hi ++ [0]) a off in
  words r ∧ length r = (off + 2 * length a - 1)%nat ∧ val r = val (lo ++ mid) + base ^ Z.of_nat off * cross a.
Proof.
  induction a as [|a0 a IH]; intros off lo mid hi Ha Hlo Hmid Ho Hm Hh; [done|]. cbn [length] in Hm, Hh.
  apply Forall_cons_1 in Ha as [Ha0 Ha].
  destruct (decide (a = [])) as [-> | Hne].
  { cbn [sqr_rows]. destruct mid, hi; try done. cbn [app]. rewrite !app_nil_r. cbn [length cross val].
    split_and!; [by apply words_snoc|rewrite length_app; cbn; lia|rewrite val_app; cbn [val]; lia]. }
  destruct hi as [|x hi]; [by destruct a|]. cbn [length] in Hh. injection Hm as Hm. injection Hh as Hh.
  rewrite sqr_rows_cons, drop_app_exact, take_app_exact by done.
  destruct (carries_snoc _ _ _ (bn_mul_add_words_spec k mid a a0 Ha Hmid Hm Ha0)) as (W & L & V).
  destruct (bn_mul_add_words k mid a a0) as [ws c]. cbn [fst snd] in *.
  replace (mid ++ (x :: hi) ++ [0]) with ((mid ++ [x]) ++ hi ++ [0]) by (by rewrite <- app_assoc).
  rewrite (splice_mid lo (mid ++ [x]) (ws ++ [c]) (hi ++ [0]) off Ho) by (rewrite L, length_app; cbn; lia).
  destruct (ws ++ [c]) as [|y [|z t]] eqn:E; [done|by destruct a|].
  apply Forall_cons_1 in W as [Wy W]. apply Forall_cons_1 in W as [Wz Wt]. cbn [length] in L.
  replace (lo ++ (y :: z :: t) ++ hi ++ [0]) with ((lo ++ [y; z]) ++ t ++ hi ++ [0]) by (by rewrite <- app_assoc).
  destruct (IH (off + 2)%nat (lo ++ [y; z]) t hi) as (R1 & R2 & R3); try done.
  { apply Forall_app. split; [done|]. by apply Forall_cons_2, Forall_singleton. }
  { rewrite length_app. cbn. lia. }
  { lia. }
  split_and!; [done|rewrite R2; cbn [length]; lia|]. rewrite R3, <- app_assoc. cbn [app cross].
  rewrite !val_app, V, Ho, Nat2Z.inj_add, Z.pow_add_r by lia. change (base ^ Z.of_nat 2) with (base * base). lia.
Qed.

(** Adding arrays when the sum fits. *)
Lemma bn_add_words_fit k a b : words a → words b → length b = length a → val a + val b < base ^ Z.of_nat (length a) →
  let r := (bn_add_words k a b).1 in words r ∧ length r = length a ∧ val r = val a + val b.
Proof.
  intros Ha Hb Hl Hlt. unfold bn_add_words. rewrite add_words_unroll.
  destruct (add_words_1_spec k a b 0 Ha Hb Hl ltac:(lia)) as ((H1 & H2 & H3 & H4) & H5).
  split_and!; [done..|]. pose proof (val_bound _ H1). destruct (add_words_1 k a b 0) as [r c]. cbn [fst snd] in *.
  assert (c = 0 ∨ c = 1) as [-> | ->] by lia; lia.
Qed.

Lemma bn_sqr_normal_spec k r a : words a → a ≠ [] → length r = (2 * length a)%nat →
  let r' := bn_sqr_normal k r a in words r' ∧ length r' = length r ∧ val r' = val a * val a.
Proof.
  intros Ha Hne Hr. unfold bn_sqr_normal.
  assert (∃ u, <[0%nat := 0]> (<[(2 * length a - 1)%nat := 0]> r) = 0 :: u ++ [0] ∧ S (S (length u)) = length r) as (u & -> & Hu).
  { destruct a as [|a0 a]; [done|]. destruct r as [|r0 r]; [done|]. destruct r as [|z r _] using rev_ind; [cbn in Hr; lia|].
    exists r. cbn [length] in Hr |- *. rewrite length_app in *. cbn [length] in *.
    replace (2 * S (length a) - 1)%nat with (S (length r + 0)) by lia. split; [|lia].
    change (<[0%nat := 0]> (<[S (length r + 0) := 0]> (r0 :: r ++ [z]))) with (0 :: <[(length r + 0)%nat := 0]> (r ++ [z])).
    by rewrite insert_app_r. }
  set (r1 := match a with [] => _ | _ => _ end).
  assert (words r1 ∧ length r1 = length r ∧ val r1 = base * cross a) as (W1 & L1 & V1).
  { subst r1. destruct a as [|a0 [|a1 a']]; [done| |].
    - destruct u; [|cbn in *; lia]. cbn [app val cross length] in *. split_and!; [|done|lia].
      by apply Forall_cons_2, Forall_singleton.
    - set (a := a1 :: a') in *. apply Forall_cons_1 in Ha as [Ha0 Ha].
      destruct (carries_snoc _ _ _ (bn_mul_words_spec k a a0 Ha Ha0)) as (W & L & V).
      destruct (bn_mul_words k a a0) as [ws c]. cbn [fst snd] in *. assert (length a = S (length a')) as Ea by done. cbn [length] in Hr.
      assert (∃ u1 u2, u = u1 ++ u2 ∧ length u1 = S (length a) ∧ S (length u2) = length a) as (u1 & u2 & -> & Hu1 & Hu2).
      { exists (take (S (length a)) u), (drop (S (length a)) u). rewrite take_drop, length_take, length_drop. split_and!; (done || lia). }
      replace (0 :: (u1 ++ u2) ++ [0]) with ([0] ++ u1 ++ (u2 ++ [0])) by (cbn; by rewrite <- app_assoc).
      rewrite (splice_mid [0] u1 (ws ++ [c])) by (done || lia).
      destruct (ws ++ [c]) as [|y [|z t]] eqn:E; [done|by subst a|].
      apply Forall_cons_1 in W as [Wy W]. apply Forall_cons_1 in W as [Wz Wt]. cbn [length] in L.
      destruct (sqr_rows_spec k a 3 [0; y; z] t u2) as (R1 & R2 & R3); try done.
      { repeat apply Forall_cons_2; done. }
      { lia. }
      split_and!; [done|etransitivity; [exact R2|lia]|]. etransitivity; [exact R3|]. cbn [app cross].
      change (0 :: y :: z :: t) with ([0] ++ (y :: z :: t)). rewrite val_app, V. cbn [val length].
      change (base ^ Z.of_nat 1) with base. change (base ^ Z.of_nat 3) with (base * (base * base)). lia. }
  pose proof (cross_nonneg a Ha) as Hc. pose proof (squares_nonneg a) as Hs. pose proof (val_square a) as Hv.
  pose proof (val_bound a Ha) as Hb.
  assert (val a * val a < base ^ Z.of_nat (length r)) as Hlt.
  { rewrite Hr. replace (Z.of_nat (2 * length a)) with (Z.of_nat (length a) + Z.of_nat (length a)) by lia.
    rewrite Z.pow_add_r by lia. apply Z.mul_lt_mono_nonneg; lia. }
  destruct (bn_add_words_fit k r1 r1 W1 W1 eq_refl) as (W2 & L2 & V2); [rewrite L1; unfold base in *; lia|].
  destruct (bn_sqr_words_spec k a Ha) as (W3 & L3 & V3). fold (squares a) in V3.
  destruct (bn_add_words_fit k _ (bn_sqr_words k a) W2 W3) as (W4 & L4 & V4); [congruence|..].
  { rewrite V2, V3, L2, L1, V1. lia. }
  split_and!; [done|congruence|]. rewrite V4, V2, V3, V1. lia.
Qed.

(** Schoolbook squaring, which adds the products of different words, doubles the
    sum and adds the squares of the words, computes the square of the value of the
    array, in every configuration of the word arithmetic, whatever the result array
    held. *)
Theorem bn_sqr_normal_correct k r a : words a → a ≠ [] → length r = (2 * length a)%nat →
  words (bn_sqr_normal k r a) ∧ length (bn_sqr_normal k r a) = length r ∧ val (bn_sqr_normal k r a) = val a * val a.
Proof. apply bn_sqr_normal_spec. Qed.

Lemma bn_sqr_normal_correct_witness :
  val (bn_sqr_normal PORTABLE (replicate 6 9) [2 ^ 64 - 1; 5; 2 ^ 63]) = val [2 ^ 64 - 1; 5; 2 ^ 63] * val [2 ^ 64 - 1; 5; 2 ^ 63].
Proof.
  apply (bn_sqr_normal_correct PORTABLE (replicate 6 9) [2 ^ 64 - 1; 5; 2 ^ 63]); [by apply (bool_decide_unpack _)|done|done].
Defined.
