(* ===== verification/BnDivWords.v ===== *)
(** * The size of a word and the division of two words by one

    Models [BN_num_bits_word] of [crypto/bn/bn_lib.c], with its table, and
    [bn_div_words] of [crypto/bn/bn_asm.c]: the version for compilers with a double
    length type, and the portable one, which normalises the divisor and finds two
    digits of half a word each, correcting its first guess of a digit in a loop.
    The loop runs on fuel; [div_adjust_spec] shows that it ends after at most two
    corrections, so that three rounds are enough.  A failed assertion, which builds with
    [BN_DEBUG] check, is [None] as well: no theorem relies on what is computed after
    it. *)

From S2P Require Import Prelude BnWords.

(** ** The operations *)

Definition bits : list Z :=
  [
    0; 1; 2; 2; 3; 3; 3; 3; 4; 4; 4; 4; 4; 4; 4; 4;
    5; 5; 5; 5; 5; 5; 5; 5; 5; 5; 5; 5; 5; 5; 5; 5;
    6; 6; 6; 6; 6; 6; 6; 6; 6; 6; 6; 6; 6; 6; 6; 6;
    6; 6; 6; 6; 6; 6; 6; 6; 6; 6; 6; 6; 6; 6; 6; 6;
    7; 7; 7; 7; 7; 7; 7; 7; 7; 7; 7; 7; 7; 7; 7; 7;
    7; 7; 7; 7; 7; 7; 7; 7; 7; 7; 7; 7; 7; 7; 7; 7;
    7; 7; 7; 7; 7; 7; 7; 7; 7; 7; 7; 7; 7; 7; 7; 7;
    7; 7; 7; 7; 7; 7; 7; 7; 7; 7; 7; 7; 7; 7; 7; 7;
    8; 8; 8; 8; 8; 8; 8; 8; 8; 8; 8; 8; 8; 8; 8; 8;
    8; 8; 8; 8; 8; 8; 8; 8; 8; 8; 8; 8; 8; 8; 8; 8;
    8; 8; 8; 8; 8; 8; 8; 8; 8; 8; 8; 8; 8; 8; 8; 8;
    8; 8; 8; 8; 8; 8; 8; 8; 8; 8; 8; 8; 8; 8; 8; 8;
    8; 8; 8; 8; 8; 8; 8; 8; 8; 8; 8; 8; 8; 8; 8; 8;
    8; 8; 8; 8; 8; 8; 8; 8; 8; 8; 8; 8; 8; 8; 8; 8;
    8; 8; 8; 8; 8; 8; 8; 8; 8; 8; 8; 8; 8; 8; 8; 8;
    8; 8; 8; 8; 8; 8; 8; 8; 8; 8; 8; 8; 8; 8; 8; 8
  ].

Definition nonzero (x : Z) : bool := negb (x =? 0).

Definition BN_num_bits_word (l : Z) : Z :=
  if nonzero (Z.land l 0xffffffff00000000) then
    if nonzero (Z.land l 0xffff000000000000) then
      if nonzero (Z.land l 0xff00000000000000) then getb bits (l ≫ 56) + 56
      else getb bits (l ≫ 48) + 48
    else
      if nonzero (Z.land l 0x0000ff0000000000) then getb bits (l ≫ 40) + 40
      else getb bits (l ≫ 32) + 32
  else
    if nonzero (Z.land l 0xffff0000) then
      if nonzero (Z.land l 0xff000000) then getb bits (l ≫ 24) + 24
      else getb bits (l ≫ 16) + 16
    else
      if nonzero (Z.land l 0xff00) then getb bits (l ≫ 8) + 8
      else getb bits l.

(** The inner loop: [None] is the model's fuel running out. *)
Fixpoint div_adjust (fuel : nat) (h l dh dl q th tl : Z) : option (Z * Z * Z) :=
  match fuel with
  | O => None
  | S fuel =>
      let t := u64 (h - th) in
      if nonzero (Z.land t BN_MASK2h) || (tl <=? Z.lor (u64 (t ≪ BN_BITS4)) (Z.land l BN_MASK2h ≫ BN_BITS4)) then
        Some (q, th, tl)
      else div_adjust fuel h l dh dl (u64 (q - 1)) (u64 (th - dh)) (u64 (tl - dl))
  end.

(** One round of the outer loop: the digit and the new [h] and [l]. *)
Definition div_digit (h l d : Z) : option (Z * Z * Z) :=
  let dh := Z.land d BN_MASK2h ≫ BN_BITS4 in
  let dl := Z.land d BN_MASK2l in
  let q := if h ≫ BN_BITS4 =? dh then BN_MASK2l else h `div` dh in
  match div_adjust 3 h l dh dl q (u64 (q * dh)) (u64 (dl * q)) with
  | None => None
  | Some (q, th, tl) =>
      let t := tl ≫ BN_BITS4 in
      let tl := Z.land (u64 (tl ≪ BN_BITS4)) BN_MASK2h in
      let th := u64 (th + t) in
      let th := if l <? tl then u64 (th + 1) else th in
      let l := u64 (l - tl) in
      let '(h, q) := if h <? th then (u64 (h + d), u64 (q - 1)) else (h, q) in
      Some (q, u64 (h - th), l)
  end.

(** [None] for the failed assertion [(i == BN_BITS2) || (h <= (BN_ULONG)1 << i)]; the first version
    has none. *)
Definition bn_div_words (div2w : bool) (h l d : Z) : option Z :=
  if div2w then Some (u64 (Z.lor (h ≪ BN_BITS2) l `div` d))
  else
    if d =? 0 then Some BN_MASK2
    else
      let i := BN_num_bits_word d in
      if negb ((i =? BN_BITS2) || (h <=? u64 (1 ≪ i))) then None else
      let i := BN_BITS2 - i in
      let h := if d <=? h then h - d else h in
      let '(d, h, l) :=
        if nonzero i then
          (u64 (d ≪ i), Z.lor (u64 (h ≪ i)) (l ≫ (BN_BITS2 - i)), u64 (l ≪ i))
        else (d, h, l) in
      match div_digit h l d with
      | None => None
      | Some (q, h, l) =>
          let ret := u64 (q ≪ BN_BITS4) in
          let h := Z.land (Z.lor (u64 (h ≪ BN_BITS4)) (l ≫ BN_BITS4)) BN_MASK2 in
          let l := u64 (Z.land l BN_MASK2l ≪ BN_BITS4) in
          match div_digit h l d with
          | None => None
          | Some (q, h, l) => Some (Z.lor ret q)
          end
      end.

(** ** The number of bits *)

Lemma bits_spec b : is_byte b → getb bits b = if b =? 0 then 0 else Z.log2 b + 1.
Proof.
  intros Hb. apply Z.eqb_eq. revert b Hb.
  apply (byte_forall (λ b, getb bits b =? (if b =? 0 then 0 else Z.log2 b + 1))). by vm_compute.
Qed.

(** A mask of bits from [s] on tells whether there is a bit from [s] on. *)
Lemma nonzero_mask l s w : 0 ≤ s → 0 ≤ w → 0 ≤ l < 2 ^ (s + w) →
  nonzero (Z.land l (Z.ones w ≪ s)) = (2 ^ s <=? l).
Proof.
  intros Hs Hw Hl. unfold nonzero. assert (Z.land l (Z.ones w ≪ s) = (l ≫ s) ≪ s) as ->.
  { apply Z.bits_inj'. intros n Hn. rewrite Z.land_spec, !Z.shiftl_spec by done. destruct (Z.lt_ge_cases n s).
    - rewrite !(Z.testbit_neg_r _ (n - s)) by lia. by rewrite andb_false_r.
    - rewrite Z.shiftr_spec, Z.sub_add by lia. rewrite Z.testbit_ones_nonneg by lia.
      destruct (Z.ltb_spec (n - s) w); [by rewrite andb_true_r|]. rewrite andb_false_r. symmetry.
      apply (proj2 (proj1 (bounded_bits (s + w) l ltac:(lia)) Hl)). lia. }
  rewrite Z.shiftr_div_pow2, Z.shiftl_mul_pow2 by done. assert (0 < 2 ^ s) by (apply Z.pow_pos_nonneg; lia).
  pose proof (Z.div_mod l (2 ^ s) ltac:(lia)). pose proof (Z.mod_pos_bound l (2 ^ s) ltac:(lia)).
  destruct (Z.leb_spec (2 ^ s) l).
  - destruct (Z.eqb_spec (l `div` 2 ^ s * 2 ^ s) 0); [lia|done].
  - by rewrite Z.div_small by lia.
Qed.

Lemma num_bits_leaf l s : 0 ≤ s → 2 ^ s ≤ l < 2 ^ (s + 8) → getb bits (l ≫ s) + s = Z.log2 l + 1.
Proof.
  intros Hs Hl. assert (0 < 2 ^ s) by (apply Z.pow_pos_nonneg; lia). rewrite Z.shiftr_div_pow2 by done.
  assert (1 ≤ l `div` 2 ^ s) by (apply Z.div_le_lower_bound; lia).
  assert (l `div` 2 ^ s < 2 ^ 8) by (apply Z.div_lt_upper_bound; [lia|]; rewrite <- Z.pow_add_r; lia).
  rewrite bits_spec by (unfold is_byte; lia). destruct (Z.eqb_spec (l `div` 2 ^ s) 0); [lia|].
  rewrite <- Z.shiftr_div_pow2, Z.log2_shiftr by lia.
  pose proof (Z.log2_le_pow2 l s). lia.
Qed.

Lemma BN_num_bits_word_spec l : word l → BN_num_bits_word l = if l =? 0 then 0 else Z.log2 l + 1.
Proof.
  unfold word. intros Hl. unfold BN_num_bits_word.
  change 0xffffffff00000000 with (Z.ones 32 ≪ 32). change 0xffff000000000000 with (Z.ones 16 ≪ 48).
  change 0xff00000000000000 with (Z.ones 8 ≪ 56). change 0x0000ff0000000000 with (Z.ones 8 ≪ 40).
  change 0xffff0000 with (Z.ones 16 ≪ 16). change 0xff000000 with (Z.ones 8 ≪ 24). change 0xff00 with (Z.ones 8 ≪ 8).
  assert (∀ s, 0 ≤ s → 2 ^ s ≤ l < 2 ^ (s + 8) → getb bits (l ≫ s) + s = if l =? 0 then 0 else Z.log2 l + 1) as Leaf.
  { intros s Hs Hb. pose proof (Z.pow_pos_nonneg 2 s). destruct (Z.eqb_spec l 0); [lia|by apply num_bits_leaf]. }
  repeat match goal with
  | |- (if nonzero (Z.land l (Z.ones ?w ≪ ?s)) then _ else _) = _ =>
      rewrite (nonzero_mask l s w) by (cbn; lia); destruct (Z.leb_spec (2 ^ s) l)
  end; try (apply Leaf; cbn; lia).
  by rewrite bits_spec by (unfold is_byte; lia).
Qed.

(** ** The division *)

Lemma high_half l : word l → Z.land l BN_MASK2h ≫ BN_BITS4 = l `div` 2 ^ 32.
Proof.
  unfold word. intros Hl. rewrite Z.shiftr_land. change (BN_MASK2h ≫ BN_BITS4) with (Z.ones 32).
  rewrite Z.shiftr_div_pow2, Z.land_ones by done. apply Z.mod_small.
  split; [apply Z.div_pos; unfold BN_BITS4; lia|apply Z.div_lt_upper_bound; unfold BN_BITS4; lia].
Qed.

Lemma low_half l : Z.land l BN_MASK2l = l `mod` 2 ^ 32.
Proof. change BN_MASK2l with (Z.ones 32). by rewrite Z.land_ones. Qed.

Lemma split_half l : word l → l = l `div` 2 ^ 32 * 2 ^ 32 + l `mod` 2 ^ 32 ∧ 0 ≤ l `div` 2 ^ 32 < 2 ^ 32 ∧ 0 ≤ l `mod` 2 ^ 32 < 2 ^ 32.
Proof. unfold word. intros Hl. pose proof (Z.div_mod l (2 ^ 32)). pose proof (Z.mod_pos_bound l (2 ^ 32)). lia. Qed.

Section adjust.
Context (h l dh dl : Z).
Context (Wh : word h) (Wl : word l) (Hdh : 0 < dh < 2 ^ 32) (Hdl : 0 ≤ dl < 2 ^ 32).

Let d := dh * 2 ^ 32 + dl.
Let A := h * 2 ^ 32 + l `div` 2 ^ 32.

(** The loop leaves exactly when the digit is not too large. *)
Lemma adjust_guard q : 0 ≤ q < 2 ^ 32 → q * dh ≤ h →
  let t := u64 (h - q * dh) in
  (nonzero (Z.land t BN_MASK2h) || (q * dl <=? Z.lor (u64 (t ≪ BN_BITS4)) (Z.land l BN_MASK2h ≫ BN_BITS4))) = (q * d <=? A).
Proof.
  intros Hq Hle t. unfold word in Wh. assert (t = h - q * dh) as Et by (apply u64_small; nia).
  assert (q * d = q * dh * 2 ^ 32 + q * dl) as Ed by (subst d; ring).
  destruct (split_half l Wl) as (El & Hlh & Hll). pose proof (half_mul_bound q dl Hq Hdl).
  change BN_MASK2h with (Z.ones 32 ≪ 32) at 1. rewrite (nonzero_mask t 32 32) by lia.
  rewrite (high_half l Wl). destruct (Z.leb_spec (2 ^ 32) t); cbn [orb].
  - symmetry. apply Z.leb_le. subst A. nia.
  - unfold BN_BITS4. rewrite (u64_small (t ≪ 32)) by (rewrite Z.shiftl_mul_pow2; lia). rewrite lor_shiftl_add by lia.
    subst A. case_cmp; lia.
Qed.

Lemma div_adjust_spec fuel : ∀ q, 0 ≤ q < 2 ^ 32 → q * dh ≤ h → A `div` d ≤ q → q - A `div` d < Z.of_nat fuel →
  div_adjust fuel h l dh dl q (q * dh) (q * dl) = Some (A `div` d, A `div` d * dh, A `div` d * dl).
Proof.
  assert (0 < d) as Hd by lia. pose proof (Z.div_mod A d ltac:(lia)) as EA. pose proof (Z.mod_pos_bound A d Hd) as HA.
  assert (0 ≤ A) as A0 by (unfold word in *; pose proof (Z.div_pos l (2 ^ 32)); lia).
  pose proof (Z.div_pos A d A0 Hd) as Hp.
  induction fuel as [|fuel IH]; intros q Hq Hle Hge Hf; [lia|]. cbn [div_adjust]. rewrite adjust_guard by done.
  destruct (Z.leb_spec (q * d) A) as [Hqd|Hqd].
  - assert (q = A `div` d) as -> by (pose proof (Z.div_le_lower_bound A d q Hd); lia). done.
  - assert (A `div` d < q) by (apply Z.div_lt_upper_bound; lia).
    pose proof (half_mul_bound q dl Hq Hdl). pose proof (half_mul_bound (q - 1) dl ltac:(lia) Hdl).
    rewrite (u64_small (q - 1)) by lia. replace (q * dh - dh) with ((q - 1) * dh) by ring. replace (q * dl - dl) with ((q - 1) * dl) by ring.
    rewrite (u64_small ((q - 1) * dl)) by lia. rewrite (u64_small ((q - 1) * dh)) by (unfold word in *; nia).
    apply IH; nia.
Qed.

End adjust.

(** The first guess is at most two too large when the divisor is normalised. *)
Lemma first_guess h l d : word h → word l → 2 ^ 63 ≤ d < 2 ^ 64 → h < d →
  let dh := d `div` 2 ^ 32 in let A := h * 2 ^ 32 + l `div` 2 ^ 32 in
  let q := if h ≫ BN_BITS4 =? dh then BN_MASK2l else h `div` dh in
  0 ≤ q < 2 ^ 32 ∧ q * dh ≤ h ∧ A `div` d ≤ q ∧ q - A `div` d < 3.
Proof.
  intros Wh Wl Hd Hlt dh A q. destruct (split_half h Wh) as (Eh & Hhh & Hhl). destruct (split_half l Wl) as (El & Hlh & Hll).
  destruct (split_half d ltac:(unfold word; lia)) as (Ed & Hdh & Hdl). fold dh in Ed, Hdh.
  assert (2 ^ 31 ≤ dh) as Hn by lia. assert (0 < d) as Hd0 by lia.
  assert (0 ≤ q < 2 ^ 32 ∧ q * dh ≤ h ∧ A `div` d ≤ q) as (Hq & Hle & Hge).
  { subst q. rewrite Z.shiftr_div_pow2 by done. change (2 ^ BN_BITS4) with (2 ^ 32). change BN_MASK2l with (2 ^ 32 - 1).
    case_cmp.
    - split_and!; [lia..|nia|]. apply Z.lt_succ_r, Z.div_lt_upper_bound; [done|]. subst A. lia.
    - pose proof (Z.div_mod h dh ltac:(lia)) as E. pose proof (Z.mod_pos_bound h dh ltac:(lia)). unfold word in Wh.
      assert (h < dh * 2 ^ 32) by lia. assert (0 ≤ h `div` dh) by (apply Z.div_pos; lia).
      assert (h `div` dh < 2 ^ 32) by (apply Z.div_lt_upper_bound; lia). split_and!; [lia..|].
      apply Z.lt_succ_r, Z.div_lt_upper_bound; [done|]. subst A.
      assert (h + 1 ≤ dh * Z.succ (h `div` dh)) by lia. nia. }
  split_and!; [lia..|]. assert (q - 2 ≤ A `div` d); [|lia]. apply Z.div_le_lower_bound; [done|].
  subst A. pose proof (half_mul_bound q (d `mod` 2 ^ 32) Hq Hdl). nia.
Qed.

(** A round finds the next digit and leaves the remainder in [h] and [l]. *)
Lemma div_digit_spec h l d : word h → word l → 2 ^ 63 ≤ d < 2 ^ 64 → h < d →
  let q := (h * 2 ^ 32 + l `div` 2 ^ 32) `div` d in
  let R := h * 2 ^ 64 + l - q * d * 2 ^ 32 in
  div_digit h l d = Some (q, R `div` 2 ^ 64, R `mod` 2 ^ 64) ∧ 0 ≤ q < 2 ^ 32 ∧ 0 ≤ R < d * 2 ^ 32.
Proof.
  intros Wh Wl Hd Hlt q R. assert (word d) as Wd by (unfold word; lia).
  destruct (first_guess h l d Wh Wl Hd Hlt) as (G1 & G2 & G3 & G4).
  destruct (split_half d Wd) as (Ed & Hdh & Hdl). destruct (split_half l Wl) as (El & Hlh & Hll).
  unfold div_digit. rewrite (high_half d Wd), low_half. set (dh := d `div` 2 ^ 32) in *. set (dl := d `mod` 2 ^ 32) in *.
  set (g := if h ≫ BN_BITS4 =? dh then _ else _) in *. pose proof (half_mul_bound g dl G1 Hdl). unfold word in Wh, Wl.
  rewrite (u64_small (g * dh)), (Z.mul_comm dl g), (u64_small (g * dl)) by lia.
  rewrite Ed in G3, G4. rewrite (div_adjust_spec h l dh dl Wh Wl ltac:(lia) Hdl 3 g G1 G2 G3 G4). rewrite <- Ed. fold q.
  set (A := h * 2 ^ 32 + l `div` 2 ^ 32) in *. pose proof (Z.div_mod A d ltac:(lia)) as EA. fold q in EA.
  pose proof (Z.mod_pos_bound A d ltac:(lia)) as HA. rewrite <- Ed in G3. fold q in G3.
  assert (0 ≤ q) as Hq0 by (apply Z.div_pos; lia).
  assert (0 ≤ R < d * 2 ^ 32) as HR by (subst R; lia).
  split; [|split; [lia|done]].
  pose proof (half_mul_bound q dl ltac:(lia) Hdl) as Hb. pose proof (half_mul_bound q dh ltac:(lia) Hdh) as Hb2.
  destruct (split_half (q * dl) ltac:(unfold word; lia)) as (Et & Hth & Htl).
  set (th := (q * dl) `div` 2 ^ 32) in *. set (tl := (q * dl) `mod` 2 ^ 32) in *.
  assert ((q * dl) ≫ BN_BITS4 = th) as -> by (by rewrite Z.shiftr_div_pow2).
  assert (Z.land (u64 ((q * dl) ≪ BN_BITS4)) BN_MASK2h = tl * 2 ^ 32) as ->.
  { unfold BN_BITS4. rewrite Z.shiftl_mul_pow2 by lia. assert (u64 (q * dl * 2 ^ 32) = tl ≪ 32) as ->.
    { rewrite Z.shiftl_mul_pow2 by lia. unfold u64. symmetry. apply (Z.mod_unique _ _ th); lia. }
    change BN_MASK2h with (Z.ones 32 ≪ 32). rewrite <- Z.shiftl_land, Z.land_ones by lia.
    rewrite Z.mod_small, Z.shiftl_mul_pow2 by lia. done. }
  assert (q * d * 2 ^ 32 = (q * dh + th) * 2 ^ 64 + tl * 2 ^ 32) as EP by (rewrite Ed; lia).
  rewrite (u64_small (q * dh + th)) by lia.
  set (th' := if l <? tl * 2 ^ 32 then _ else _).
  assert (R = (h - th') * 2 ^ 64 + u64 (l - tl * 2 ^ 32) ∧ th' = q * dh + th + b2z (l <? tl * 2 ^ 32)) as [ER Eth].
  { subst th' R. unfold b2z. destruct (Z.ltb_spec l (tl * 2 ^ 32)).
    - rewrite (u64_small (_ + 1)) by lia. split; [|done].
      replace (u64 (l - tl * 2 ^ 32)) with (l - tl * 2 ^ 32 + 2 ^ 64) by (unfold u64; apply (Z.mod_unique _ _ (-1)); lia). lia.
    - rewrite (u64_small (l - _)) by lia. lia. }
  pose proof (word_u64 (l - tl * 2 ^ 32)) as Wu. unfold word in Wu. set (l' := u64 (l - tl * 2 ^ 32)) in *.
  assert (th' ≤ h) as Hth' by lia. destruct (Z.ltb_spec h th'); [lia|].
  assert (0 ≤ h - th' < 2 ^ 64) by (unfold b2z in Eth; destruct (l <? _); lia). rewrite (u64_small (h - th')) by done.
  by rewrite (Z.div_unique R (2 ^ 64) (h - th') l'), (Z.mod_unique R (2 ^ 64) (h - th') l') by lia.
Qed.

(** Two rounds find the quotient. *)
Lemma two_digits h l d : word l → 2 ^ 63 ≤ d < 2 ^ 64 → 0 ≤ h < d →
  match div_digit h l d with
  | None => None
  | Some (q, h, l) =>
      let ret := u64 (q ≪ BN_BITS4) in
      let h := Z.land (Z.lor (u64 (h ≪ BN_BITS4)) (l ≫ BN_BITS4)) BN_MASK2 in
      let l := u64 (Z.land l BN_MASK2l ≪ BN_BITS4) in
      match div_digit h l d with
      | None => None
      | Some (q, h, l) => Some (Z.lor ret q)
      end
  end = Some ((h * 2 ^ 64 + l) `div` d).
Proof.
  intros Wl Hd Hh. destruct (div_digit_spec h l d ltac:(unfold word; lia) Wl Hd ltac:(lia)) as (-> & Hq & HR).
  set (q := (h * 2 ^ 32 + l `div` 2 ^ 32) `div` d) in *. set (R := h * 2 ^ 64 + l - q * d * 2 ^ 32) in *.
  pose proof (Z.div_mod R (2 ^ 64) ltac:(lia)) as ER. pose proof (Z.mod_pos_bound R (2 ^ 64) ltac:(lia)) as Hm.
  set (rh := R `div` 2 ^ 64) in *. set (rl := R `mod` 2 ^ 64) in *. cbn zeta. rewrite low_half.
  destruct (split_half rl Hm) as (El & Hlh & Hll). unfold BN_BITS4.
  assert (0 ≤ rh < 2 ^ 32) as Hrh by lia. rewrite (Z.shiftr_div_pow2 rl) by lia.
  rewrite (u64_small (rh ≪ 32)), lor_shiftl_add by (rewrite ?Z.shiftl_mul_pow2 by lia; lia).
  change BN_MASK2 with (Z.ones 64). rewrite Z.land_ones, (Z.mod_small (_ + _)) by lia.
  rewrite (u64_small (_ ≪ 32)) by (rewrite Z.shiftl_mul_pow2 by lia; lia). rewrite (Z.shiftl_mul_pow2 (rl `mod` _)) by lia.
  destruct (div_digit_spec (rh * 2 ^ 32 + rl `div` 2 ^ 32) (rl `mod` 2 ^ 32 * 2 ^ 32) d) as (-> & Hq2 & _); [unfold word; lia..|].
  rewrite Z.div_mul by lia. rewrite Z.div_mul in Hq2 by lia.
  replace ((rh * 2 ^ 32 + rl `div` 2 ^ 32) * 2 ^ 32 + rl `mod` 2 ^ 32) with R in * by lia.
  f_equal. rewrite (u64_small (q ≪ 32)), lor_shiftl_add by (rewrite ?Z.shiftl_mul_pow2 by lia; lia).
  replace (h * 2 ^ 64 + l) with (R + q * 2 ^ 32 * d) by (subst R; ring). rewrite Z.div_add by lia. lia.
Qed.

(** Shifting the divisor's top bit to the top of the word does not change the
    quotient. *)
Lemma normalise h l d i : word l → 0 < d < 2 ^ 64 → 0 ≤ h < d → i = 64 - (Z.log2 d + 1) →
  let '(d', h', l') :=
    if nonzero i then (u64 (d ≪ i), Z.lor (u64 (h ≪ i)) (l ≫ (64 - i)), u64 (l ≪ i)) else (d, h, l) in
  word l' ∧ 2 ^ 63 ≤ d' < 2 ^ 64 ∧ 0 ≤ h' < d' ∧ (h' * 2 ^ 64 + l') `div` d' = (h * 2 ^ 64 + l) `div` d.
Proof.
  intros Wl Hd Hh Ei. pose proof (Z.log2_spec d ltac:(lia)) as Hlog. pose proof (Z.log2_nonneg d) as Hln.
  assert (Z.log2 d < 64) as Hl64 by (apply Z.log2_lt_pow2; lia).
  assert (0 < 2 ^ i) as Hi by (apply Z.pow_pos_nonneg; lia). unfold word in Wl.
  assert (2 ^ 63 ≤ d * 2 ^ i < 2 ^ 64) as Hdi.
  { replace (2 ^ 63) with (2 ^ Z.log2 d * 2 ^ i) by (rewrite <- Z.pow_add_r by lia; f_equal; lia).
    replace (2 ^ 64) with (2 ^ Z.succ (Z.log2 d) * 2 ^ i) by (rewrite <- Z.pow_add_r by lia; f_equal; lia). nia. }
  unfold nonzero. destruct (Z.eqb_spec i 0) as [E0|E0]; cbn [negb].
  { rewrite E0 in Hdi. split_and!; (done || lia). }
  rewrite !Z.shiftl_mul_pow2, Z.shiftr_div_pow2 by lia.
  rewrite (u64_small (d * 2 ^ i)) by lia. rewrite (u64_small (h * 2 ^ i)) by nia.
  assert (2 ^ 64 = 2 ^ (64 - i) * 2 ^ i) as E64 by (rewrite <- Z.pow_add_r by lia; f_equal; lia).
  assert (0 < 2 ^ (64 - i)) as H64i by (apply Z.pow_pos_nonneg; lia).
  pose proof (Z.div_mod l (2 ^ (64 - i)) ltac:(lia)) as El. pose proof (Z.mod_pos_bound l (2 ^ (64 - i)) ltac:(lia)) as Hlm.
  assert (0 ≤ l `div` 2 ^ (64 - i) < 2 ^ i) as Hld by (split; [apply Z.div_pos; lia|apply Z.div_lt_upper_bound; lia]).
  rewrite <- (Z.shiftl_mul_pow2 h), lor_shiftl_add by lia.
  set (lh := l `div` 2 ^ (64 - i)) in *. set (ll := l `mod` 2 ^ (64 - i)) in *. set (p := 2 ^ (64 - i)) in *. set (r := 2 ^ i) in *.
  assert (u64 (l * r) = ll * r) as ->.
  { unfold u64. symmetry. apply (Z.mod_unique _ _ lh); [nia|]. rewrite E64, El. ring. }
  assert ((h * r + lh) * 2 ^ 64 + ll * r = (h * 2 ^ 64 + l) * r) as -> by (rewrite El; rewrite E64; ring).
  split_and!; [unfold word; nia|lia|lia|nia|nia|]. apply Z.div_mul_cancel_r; lia.
Qed.

(** What the assertion allows: any high word for a divisor of full length, otherwise one that does not
    exceed the power of two above the divisor. *)
Definition div_allowed (h d : Z) : Prop := 2 ^ 63 ≤ d ∨ h ≤ 2 ^ (Z.log2 d + 1).

Lemma div_allowed_lt h d : 0 < d → h < d → div_allowed h d.
Proof. intros Hd Hh. right. pose proof (Z.log2_spec d Hd). lia. Qed.

Lemma div_assertion h d : 0 < d < 2 ^ 64 → 
  ((BN_num_bits_word d =? BN_BITS2) || (h <=? u64 (1 ≪ BN_num_bits_word d))) = true ↔ div_allowed h d.
Proof.
  intros Hd. rewrite BN_num_bits_word_spec by (unfold word; lia). destruct (Z.eqb_spec d 0); [lia|].
  pose proof (Z.log2_spec d ltac:(lia)) as Hl. pose proof (Z.log2_nonneg d). unfold div_allowed, BN_BITS2.
  assert (Z.log2 d < 64) by (apply Z.log2_lt_pow2; lia).
  destruct (Z.eqb_spec (Z.log2 d + 1) 64) as [E|E]; cbn [orb].
  - split; [intros _; left|done]. replace (Z.log2 d) with 63 in Hl by lia. lia.
  - assert (2 ^ Z.succ (Z.log2 d) ≤ 2 ^ 63) by (apply Z.pow_le_mono_r; lia).
    rewrite Z.leb_le, Z.shiftl_1_l, u64_small by (rewrite <- Z.add_1_r in *; lia). lia.
Qed.

(** The low word of the quotient, for every configuration. *)
Lemma bn_div_words_low div2w h l d : word h → word l → 0 < d < 2 ^ 64 → h < 2 * d → div_allowed h d →
  bn_div_words div2w h l d = Some (u64 ((h * 2 ^ 64 + l) `div` d)).
Proof.
  intros Wh Wl Hd Hlt Hal. unfold bn_div_words. destruct div2w.
  { unfold BN_BITS2. by rewrite lor_shiftl_add by (done || lia). }
  rewrite (proj2 (div_assertion h d Hd) Hal). cbn [negb].
  destruct (Z.eqb_spec d 0) as [|Hd0]; [lia|]. unfold word in Wh, Wl.
  set (h1 := if d <=? h then h - d else h).
  assert (0 ≤ h1 < d ∧ u64 ((h * 2 ^ 64 + l) `div` d) = (h1 * 2 ^ 64 + l) `div` d) as [Hh1 ->].
  { assert (∀ x, 0 ≤ x < d → 0 ≤ (x * 2 ^ 64 + l) `div` d < 2 ^ 64) as Hb.
    { intros x Hx. split; [apply Z.div_pos; lia|apply Z.div_lt_upper_bound; lia]. }
    subst h1. case_cmp.
    - split; [lia|]. pose proof (Hb (h - d) ltac:(lia)).
      replace (h * 2 ^ 64 + l) with ((h - d) * 2 ^ 64 + l + 2 ^ 64 * d) by ring. rewrite Z.div_add by lia.
      unfold u64. rewrite <- Z.add_mod_idemp_r, Z.mod_same, Z.add_0_r, Z.mod_small by lia. done.
    - split; [lia|]. apply u64_small. apply Hb. lia. }
  clearbody h1. rewrite BN_num_bits_word_spec by (unfold word; lia). destruct (Z.eqb_spec d 0); [done|].
  unfold BN_BITS2. pose proof (normalise h1 l d _ Wl Hd Hh1 eq_refl) as H.
  destruct (if nonzero _ then _ else _) as [[d' h'] l']. destruct H as (H1 & H2 & H3 & <-). by apply two_digits.
Qed.

(** The quotient, when the high word is smaller than the divisor. *)
Lemma bn_div_words_spec div2w h l d : word h → word l → 0 < d < 2 ^ 64 → h < d →
  bn_div_words div2w h l d = Some ((h * 2 ^ 64 + l) `div` d).
Proof.
  intros Wh Wl Hd Hh. rewrite bn_div_words_low by (done || lia || apply div_allowed_lt; lia). f_equal. unfold word in *.
  apply u64_small. split; [apply Z.div_pos; lia|apply Z.div_lt_upper_bound; lia].
Qed.

(** C37: Division of two words by one always ends, its inner loop after at most two
    corrections of a digit.  When the high word is smaller than the divisor, as the
    callers ensure, both versions return the quotient.  When it is not, but smaller
    than twice the divisor and allowed by the assertion of the portable version, the
    quotient has a bit more than a word and [2^64] less is returned.  A high word above
    the next power of two fails that assertion. *)
Theorem bn_div_words_correct div2w h l d : word h → word l → 0 < d < 2 ^ 64 →
  (h < d → bn_div_words div2w h l d = Some ((h * 2 ^ 64 + l) / d)) ∧
  (d ≤ h < 2 * d → div_allowed h d → bn_div_words div2w h l d = Some ((h * 2 ^ 64 + l) / d - 2 ^ 64)) ∧
  (d < 2 ^ 63 → 2 ^ (Z.log2 d + 1) < h → bn_div_words false h l d = None).
Proof.
  intros Wh Wl Hd. split; [intros; by apply bn_div_words_spec|]. split.
  - intros Hh Hal. rewrite bn_div_words_low by (done || lia). f_equal. unfold word in *.
    replace (h * 2 ^ 64 + l) with ((h - d) * 2 ^ 64 + l + 2 ^ 64 * d) by ring. rewrite Z.div_add by lia.
    unfold u64. rewrite <- Z.add_mod_idemp_r, Z.mod_same, Z.add_0_r, Z.mod_small by
      (lia || (split; [apply Z.div_pos; lia|apply Z.div_lt_upper_bound; lia])). lia.
  - intros Hd2 Hbig. unfold bn_div_words. destruct (Z.eqb_spec d 0); [lia|].
    destruct ((_ =? BN_BITS2) || _) eqn:E; [|done]. apply div_assertion in E; [|lia]. unfold div_allowed in E. lia.
Qed.

Lemma bn_div_words_correct_witness :
  bn_div_words false (2 ^ 63) (2 ^ 64 - 1) (2 ^ 63 + 1) = Some ((2 ^ 63 * 2 ^ 64 + (2 ^ 64 - 1)) / (2 ^ 63 + 1)) ∧
  bn_div_words false 3 7 2 = Some ((3 * 2 ^ 64 + 7) / 2 - 2 ^ 64) ∧ bn_div_words false 5 0 3 = None.
Proof.
  split; [|split].
  - apply (bn_div_words_correct false (2 ^ 63) (2 ^ 64 - 1) (2 ^ 63 + 1)); [unfold word; lia..|lia].
  - apply (bn_div_words_correct false 3 7 2); [unfold word; lia..|lia|]. right. vm_compute. congruence.
  - apply (bn_div_words_correct false 5 0 3); [unfold word; lia..|lia|vm_compute; reflexivity].
Defined.
