(* ===== verification/Bn.v ===== *)
(** * Big numbers: representation, comparison, bits and bytes

    Models [crypto/bn/bn_lib.c] with the macros of [openssl/bn.h] it uses.  A
    [BIGNUM] has the array [d] as it is allocated, of which the first [top] words
    are in use, least significant first; [dmax] is the length of the array.
    Memory comes from [malloc], a parameter: it fails or yields an array with
    arbitrary words.  An operation that changes a number returns its status and
    the number as it leaves it, also when it fails.

    The loops read a word of an operand before they write the word of the result
    at the same place, so the operations that let the result be one of the
    operands compute the same in that case: the operand is then passed twice.
    Where the source tests for that case, so does the definition.

    [mag] is the magnitude of a number and [value] the integer it stands for. *)

From S2P Require Import Prelude BnWords BnDivWords.

Record BIGNUM := mkBN { bn_d : list Z; bn_top : nat; bn_neg : bool; bn_static : bool }.

Definition used (a : BIGNUM) : list Z := take (bn_top a) (bn_d a).
Definition mag (a : BIGNUM) : Z := val (used a).
Definition value (a : BIGNUM) : Z := if bn_neg a then - mag a else mag a.

Definition with_d (a : BIGNUM) (l : list Z) : BIGNUM := mkBN l (bn_top a) (bn_neg a) (bn_static a).
Definition with_top (a : BIGNUM) (t : nat) : BIGNUM := mkBN (bn_d a) t (bn_neg a) (bn_static a).
Definition with_neg (a : BIGNUM) (s : bool) : BIGNUM := mkBN (bn_d a) (bn_top a) s (bn_static a).

(** Writing words from the start of the array on. *)
Definition put (a : BIGNUM) (ws : list Z) : BIGNUM := with_d a (splice (bn_d a) 0 ws).

Definition BN_is_zero (a : BIGNUM) : bool := (bn_top a =? 0)%nat.
Definition BN_new : BIGNUM := mkBN [] 0 false false.
Definition BN_value_one : BIGNUM := mkBN [1] 1 false true.

Fixpoint correct_top (d : list Z) (top : nat) : nat :=
  match top with
  | O => O
  | S t => if nonzero (nthZ d t) then top else correct_top d t
  end.

Definition bn_correct_top (a : BIGNUM) : BIGNUM :=
  let a := with_top a (correct_top (bn_d a) (bn_top a)) in
  if (bn_top a =? 0)%nat then with_neg a false else a.

(** ** Memory *)

Definition INT_MAX : Z := 2147483647.

Section bn_lib.
Context (malloc : nat → option (list Z)).

Definition bn_expand_internal (b : BIGNUM) (n : nat) : option (list Z) :=
  if INT_MAX / (4 * BN_BITS2) <? Z.of_nat n then None
  else if bn_static b then None
  else
    match malloc n with
    | None => None
    | Some m => Some (splice m 0 (used b))
    end.

Definition bn_expand2 (b : BIGNUM) (n : nat) : option BIGNUM :=
  if (length (bn_d b) <? n)%nat then
    match bn_expand_internal b n with
    | None => None
    | Some a => Some (mkBN a (bn_top b) (bn_neg b) (bn_static b))
    end
  else Some b.

Definition bn_wexpand (a : BIGNUM) (n : nat) : option BIGNUM :=
  if (n <=? length (bn_d a))%nat then Some a else bn_expand2 a n.

Definition bn_expand (a : BIGNUM) (bits : Z) : option BIGNUM :=
  if INT_MAX - BN_BITS2 + 1 <? bits then None
  else if (bits + BN_BITS2 - 1) / BN_BITS2 <=? Z.of_nat (length (bn_d a)) then Some a
  else bn_expand2 a (Z.to_nat ((bits + BN_BITS2 - 1) / BN_BITS2)).

(** The copying loop is unrolled four times in the source. *)
Definition BN_copy (same : bool) (a b : BIGNUM) : bool * BIGNUM :=
  if same then (true, a)
  else
    match bn_wexpand a (bn_top b) with
    | None => (false, a)
    | Some a => (true, with_neg (with_top (put a (used b)) (bn_top b)) (bn_neg b))
    end.

Definition BN_dup (a : BIGNUM) : option BIGNUM :=
  let '(ok, t) := BN_copy false BN_new a in if ok then Some t else None.

Definition BN_clear (a : BIGNUM) : BIGNUM := mkBN (replicate (length (bn_d a)) 0) 0 false (bn_static a).

Definition BN_swap (a b : BIGNUM) : BIGNUM * BIGNUM :=
  (mkBN (bn_d b) (bn_top b) (bn_neg b) (bn_static b), mkBN (bn_d a) (bn_top a) (bn_neg a) (bn_static a)).

Definition BN_get_word (a : BIGNUM) : Z :=
  if (1 <? bn_top a)%nat then BN_MASK2
  else if (bn_top a =? 1)%nat then nthZ (bn_d a) 0
  else 0.

Definition BN_set_word (a : BIGNUM) (w : Z) : bool * BIGNUM :=
  match bn_expand a 64 with
  | None => (false, a)
  | Some a =>
      let a := with_neg a false in
      let a := with_d a (<[0%nat := w]> (bn_d a)) in
      (true, with_top a (if nonzero w then 1%nat else 0%nat))
  end.

(** The macro ignores the status. *)
Definition BN_zero (a : BIGNUM) : BIGNUM := (BN_set_word a 0).2.

Definition BN_set_negative (a : BIGNUM) (b : bool) : BIGNUM :=
  with_neg a (b && negb (BN_is_zero a)).

(** ** Bytes *)

Definition BN_BYTES : Z := 8.

Definition BN_num_bits (a : BIGNUM) : Z :=
  if BN_is_zero a then 0
  else (Z.of_nat (bn_top a) - 1) * BN_BITS2 + BN_num_bits_word (nthZ (bn_d a) (bn_top a - 1)).

Definition BN_num_bytes (a : BIGNUM) : Z := (BN_num_bits a + 7) / 8.

(** The loop over the input, with the word [l] being gathered, the number [m] of
    bytes it still lacks, and the index [i] of the last word stored. *)
Fixpoint bin2bn_loop (s : list Z) (l m : Z) (i : nat) (d : list Z) : list Z :=
  match s with
  | [] => d
  | b :: s =>
      let l := Z.lor (u64 (l ≪ 8)) b in
      if m =? 0 then bin2bn_loop s 0 (BN_BYTES - 1) (i - 1) (<[(i - 1)%nat := l]> d)
      else bin2bn_loop s l (m - 1) i d
  end.

(** [ret] is the number passed in, or a new one. *)
Definition BN_bin2bn (s : list Z) (ret : BIGNUM) : option BIGNUM :=
  let n := Z.of_nat (length s) in
  if n =? 0 then Some (with_top ret 0)
  else
    let i := Z.to_nat ((n - 1) / BN_BYTES + 1) in
    let m := (n - 1) mod BN_BYTES in
    match bn_wexpand ret i with
    | None => None
    | Some ret =>
        let ret := with_neg (with_top ret i) false in
        Some (bn_correct_top (with_d ret (bin2bn_loop s 0 m i (bn_d ret))))
    end.

Fixpoint bn2bin_loop (d : list Z) (i : nat) : list Z :=
  match i with
  | O => []
  | S i =>
      let l := getb d (Z.of_nat i / BN_BYTES) in
      Z.land (u8 (l ≫ (8 * (Z.of_nat i mod BN_BYTES)))) 0xff :: bn2bin_loop d i
  end.

Definition BN_bn2bin (a : BIGNUM) : list Z := bn2bin_loop (bn_d a) (Z.to_nat (BN_num_bytes a)).

(** ** Comparison *)

Fixpoint ucmp_loop (a b : list Z) (n : nat) : Z :=
  match n with
  | O => 0
  | S i =>
      let t1 := nthZ a i in
      let t2 := nthZ b i in
      if negb (t1 =? t2) then (if t2 <? t1 then 1 else -1) else ucmp_loop a b i
  end.

Definition BN_ucmp (a b : BIGNUM) : Z :=
  let i := Z.of_nat (bn_top a) - Z.of_nat (bn_top b) in
  if nonzero i then i else ucmp_loop (bn_d a) (bn_d b) (bn_top a).

Fixpoint cmp_loop (gt lt : Z) (a b : list Z) (n : nat) : Z :=
  match n with
  | O => 0
  | S i =>
      let t1 := nthZ a i in
      let t2 := nthZ b i in
      if t2 <? t1 then gt else if t1 <? t2 then lt else cmp_loop gt lt a b i
  end.

(** [None] is the null pointer. *)
Definition BN_cmp (a b : option BIGNUM) : Z :=
  match a, b with
  | Some _, None => -1
  | None, Some _ => 1
  | None, None => 0
  | Some a, Some b =>
      if negb (Bool.eqb (bn_neg a) (bn_neg b)) then (if bn_neg a then -1 else 1)
      else
        let '(gt, lt) := if negb (bn_neg a) then (1, -1) else (-1, 1) in
        if (bn_top b <? bn_top a)%nat then gt
        else if (bn_top a <? bn_top b)%nat then lt
        else cmp_loop gt lt (bn_d a) (bn_d b) (bn_top a)
  end.

(** ** Bits *)

Definition BN_set_bit (a : BIGNUM) (n : Z) : bool * BIGNUM :=
  if n <? 0 then (false, a)
  else
    let i := Z.to_nat (n / BN_BITS2) in
    let j := n mod BN_BITS2 in
    let set (a : BIGNUM) := with_d a (<[i := Z.lor (nthZ (bn_d a) i) (u64 (1 ≪ j))]> (bn_d a)) in
    if (bn_top a <=? i)%nat then
      match bn_wexpand a (i + 1) with
      | None => (false, a)
      | Some a =>
          let a := with_d a (splice (bn_d a) (bn_top a) (replicate (i + 1 - bn_top a) 0)) in
          (true, set (with_top a (i + 1)))
      end
    else (true, set a).

Definition BN_clear_bit (a : BIGNUM) (n : Z) : bool * BIGNUM :=
  if n <? 0 then (false, a)
  else
    let i := Z.to_nat (n / BN_BITS2) in
    let j := n mod BN_BITS2 in
    if (bn_top a <=? i)%nat then (false, a)
    else (true, bn_correct_top (with_d a (<[i := Z.land (nthZ (bn_d a) i) (u64 (Z.lnot (u64 (1 ≪ j))))]> (bn_d a)))).

Definition BN_is_bit_set (a : BIGNUM) (n : Z) : bool :=
  if n <? 0 then false
  else
    let i := Z.to_nat (n / BN_BITS2) in
    let j := n mod BN_BITS2 in
    if (bn_top a <=? i)%nat then false
    else nonzero (Z.land (nthZ (bn_d a) i ≫ j) 1).

Definition BN_mask_bits (a : BIGNUM) (n : Z) : bool * BIGNUM :=
  if n <? 0 then (false, a)
  else
    let w := Z.to_nat (n / BN_BITS2) in
    let b := n mod BN_BITS2 in
    if (bn_top a <=? w)%nat then (false, a)
    else
      let a :=
        if b =? 0 then with_top a w
        else with_d (with_top a (w + 1)) (<[w := Z.land (nthZ (bn_d a) w) (u64 (Z.lnot (u64 (BN_MASK2 ≪ b))))]> (bn_d a)) in
      (true, bn_correct_top a).

(** ** Arrays of words *)

Fixpoint cmp_words_loop (a b : list Z) (n : nat) : Z :=
  match n with
  | O => 0
  | S i =>
      let aa := nthZ a i in
      let bb := nthZ b i in
      if negb (aa =? bb) then (if bb <? aa then 1 else -1) else cmp_words_loop a b i
  end.

(** The first comparison stands before the loop. *)
Definition bn_cmp_words (a b : list Z) (n : nat) : Z :=
  let aa := nthZ a (n - 1) in
  let bb := nthZ b (n - 1) in
  if negb (aa =? bb) then (if bb <? aa then 1 else -1) else cmp_words_loop a b (n - 1).

(** Whether one of the [k] words from [n] on is set. *)
Fixpoint any_word (a : list Z) (n k : nat) : bool :=
  match k with
  | O => false
  | S k => nonzero (nthZ a (n + k)) || any_word a n k
  end.

Definition bn_cmp_part_words (a b : list Z) (cl : nat) (dl : Z) : Z :=
  if (dl <? 0) && any_word b cl (Z.to_nat (- dl)) then -1
  else if (0 <? dl) && any_word a cl (Z.to_nat dl) then 1
  else bn_cmp_words a b cl.

(** The words and the sizes are exchanged under a mask, for the first [nwords]
    words; the signs are not. *)
Definition swap_words (mask x y : Z) : Z * Z :=
  let t := Z.land (Z.lxor x y) mask in (Z.lxor x t, Z.lxor y t).

Definition BN_consttime_swap (condition : Z) (a b : BIGNUM) (nwords : nat) : BIGNUM * BIGNUM :=
  let condition := u64 (u64 (condition - 1) ≫ (BN_BITS2 - 1) - 1) in
  let '(ta, tb) := swap_words condition (Z.of_nat (bn_top a)) (Z.of_nat (bn_top b)) in
  let ws := zip_with (swap_words condition) (take nwords (bn_d a)) (take nwords (bn_d b)) in
  (with_top (put a (fst <$> ws)) (Z.to_nat ta), with_top (put b (snd <$> ws)) (Z.to_nat tb)).

End bn_lib.

(** ** Well-formed numbers

    The first [top] words are in use, the last of them is not zero, so that a
    number has one representation apart from the sign of zero; [canonical] numbers
    have no negative zero. *)

Record wf (a : BIGNUM) : Prop := {
  wf_words : words (bn_d a);
  wf_top : (bn_top a ≤ length (bn_d a))%nat;
  wf_lead : bn_top a = 0%nat ∨ nthZ (bn_d a) (bn_top a - 1) ≠ 0
}.

Definition canonical (a : BIGNUM) : Prop := bn_top a = 0%nat → bn_neg a = false.

#[global] Instance wf_dec a : Decision (wf a).
Proof.
  refine (cast_if (decide (words (bn_d a) ∧ (bn_top a ≤ length (bn_d a))%nat ∧
    (bn_top a = 0%nat ∨ nthZ (bn_d a) (bn_top a - 1) ≠ 0)))); [abstract (destruct a0 as (? & ? & ?); by constructor)|
    abstract (intros []; tauto)].
Defined.

(** What the caller of [malloc] may rely on. *)
Definition malloc_ok (malloc : nat → option (list Z)) : Prop :=
  ∀ n m, malloc n = Some m → length m = n ∧ words m.

(** An allocator that always succeeds, for the examples. *)
Definition pool (n : nat) : option (list Z) := Some (replicate n 7).

Lemma pool_ok : malloc_ok pool.
Proof. intros n m [= <-]. rewrite length_replicate. split; [done|]. by apply Forall_replicate. Qed.

Lemma nthZ_word l i : words l → word (nthZ l i).
Proof.
  intros H. destruct (l !! i) as [x|] eqn:E.
  - rewrite (nthZ_lookup _ _ _ E). by apply (Forall_lookup_1 _ _ _ _ H E).
  - apply lookup_ge_None in E. unfold nthZ, word. rewrite nth_overflow by done. lia.
Qed.

Lemma take_S_nthZ l n : (n < length l)%nat → take (S n) l = take n l ++ [nthZ l n].
Proof.
  intros Hn. destruct (lookup_lt_is_Some_2 l n Hn) as [x Hx]. rewrite (take_S_r _ _ x Hx). by rewrite (nthZ_lookup _ _ _ Hx).
Qed.

Lemma val_take_S l n : (n < length l)%nat → val (take (S n) l) = val (take n l) + base ^ Z.of_nat n * nthZ l n.
Proof. intros Hn. rewrite take_S_nthZ, val_app, length_take by done. cbn [val]. rewrite Nat.min_l by lia. lia. Qed.

Lemma words_take n l : words l → words (take n l).
Proof. apply Forall_take. Qed.
Lemma words_drop n l : words l → words (drop n l).
Proof. apply Forall_drop. Qed.
Lemma words_app a b : words a → words b → words (a ++ b).
Proof. intros. by apply Forall_app. Qed.
Lemma words_splice l off src : words l → words src → words (splice l off src).
Proof. intros Hl Hs. unfold splice. auto using words_take, words_drop, words_app. Qed.
Lemma words_insert l i w : words l → word w → words (<[i := w]> l).
Proof. intros. by apply Forall_insert. Qed.
#[export] Hint Resolve words_take words_drop words_app words_splice words_insert nthZ_word : vtls.

Lemma used_words a : wf a → words (used a).
Proof. intros [H _ _]. by apply words_take. Qed.
#[export] Hint Resolve used_words wf_words wf_top : vtls.

Lemma length_used a : wf a → length (used a) = bn_top a.
Proof. intros [_ H _]. unfold used. rewrite length_take. lia. Qed.

Lemma mag_bound a : wf a → 0 ≤ mag a < base ^ Z.of_nat (bn_top a).
Proof. intros H. unfold mag. rewrite <- (length_used a H). apply val_bound. auto with vtls. Qed.

(** The leading word makes the magnitude large. *)
Lemma mag_lead a n : wf a → bn_top a = S n →
  mag a = val (take n (bn_d a)) + base ^ Z.of_nat n * nthZ (bn_d a) n ∧ 0 < nthZ (bn_d a) n < base ∧
  0 ≤ val (take n (bn_d a)) < base ^ Z.of_nat n.
Proof.
  intros [Hw Ht Hl] E. unfold mag, used. rewrite E in *. rewrite val_take_S by lia.
  destruct Hl as [?|Hl]; [lia|]. replace (S n - 1)%nat with n in Hl by lia.
  pose proof (nthZ_word (bn_d a) n Hw) as W. unfold word in W. fold base in W.
  pose proof (val_bound _ (words_take n _ Hw)) as B. rewrite length_take, Nat.min_l in B by lia. split_and!; (done || lia).
Qed.

Lemma mag_lower a n : wf a → bn_top a = S n → base ^ Z.of_nat n ≤ mag a.
Proof. intros H E. destruct (mag_lead a n H E) as (-> & H1 & H2). nia. Qed.

Lemma mag_zero a : wf a → mag a = 0 ↔ bn_top a = 0%nat.
Proof.
  intros H. split.
  - intros Hm. destruct (bn_top a) as [|n] eqn:E; [done|]. pose proof (mag_lower a n H E).
    pose proof (Z.pow_pos_nonneg base (Z.of_nat n)). unfold base in *. lia.
  - intros E. unfold mag, used. by rewrite E.
Qed.

Lemma correct_top_spec d top : words d → (top ≤ length d)%nat →
  let t := correct_top d top in
  (t ≤ top)%nat ∧ val (take t d) = val (take top d) ∧ (t = 0%nat ∨ nthZ d (t - 1) ≠ 0).
Proof.
  intros Hw. induction top as [|t IH]; intros Ht; cbn [correct_top]; [by auto|].
  unfold nonzero. destruct (Z.eqb_spec (nthZ d t) 0) as [E|E]; cbn [negb].
  - destruct IH as (I1 & I2 & I3); [lia|]. split_and!; [lia| |done]. rewrite I2, val_take_S, E by lia. lia.
  - split_and!; [lia|done|]. right. by replace (S t - 1)%nat with t by lia.
Qed.

Lemma bn_correct_top_spec a : words (bn_d a) → (bn_top a ≤ length (bn_d a))%nat →
  let r := bn_correct_top a in
  wf r ∧ canonical r ∧ mag r = mag a ∧ (mag a ≠ 0 → bn_neg r = bn_neg a) ∧ bn_d r = bn_d a.
Proof.
  intros Hw Ht. destruct (correct_top_spec _ _ Hw Ht) as (H1 & H2 & H3). unfold bn_correct_top. cbn [with_top bn_top].
  set (t := correct_top (bn_d a) (bn_top a)) in *. unfold mag, used, canonical.
  destruct (Nat.eqb_spec t 0) as [E|E]; cbn [with_neg with_top bn_d bn_top bn_neg]; rewrite <- H2.
  - split_and!; try done; [constructor; cbn; (done || lia || auto)|]. by rewrite E.
  - split_and!; try done. constructor; cbn; (done || lia || auto).
Qed.

Lemma bn_correct_top_neg a : bn_neg a = false → bn_neg (bn_correct_top a) = false.
Proof. intros H. unfold bn_correct_top. cbv zeta. by destruct (_ =? _)%nat. Qed.

(** Storing the words of a result. *)
Lemma put_used a ws : (length ws ≤ length (bn_d a))%nat → take (length ws) (splice (bn_d a) 0 ws) = ws.
Proof. intros H. unfold splice. rewrite take_0. cbn [app]. by rewrite take_app_length. Qed.

Lemma length_put a ws : (length ws ≤ length (bn_d a))%nat → length (bn_d (put a ws)) = length (bn_d a).
Proof. intros H. cbn. rewrite length_splice; [done|lia]. Qed.

Section expand.
Context (malloc : nat → option (list Z)) (Hm : malloc_ok malloc).

Lemma bn_wexpand_spec a n r : wf a → bn_wexpand malloc a n = Some r →
  wf r ∧ (n ≤ length (bn_d r))%nat ∧ used r = used a ∧ bn_top r = bn_top a ∧ bn_neg r = bn_neg a.
Proof.
  intros H. unfold bn_wexpand, bn_expand2, bn_expand_internal.
  destruct (Nat.leb_spec n (length (bn_d a))) as [Hn|Hn]; [by intros [= <-]|].
  destruct (Nat.ltb_spec (length (bn_d a)) n); [|lia]. destruct (INT_MAX / (4 * BN_BITS2) <? Z.of_nat n); [done|]. destruct (bn_static a) eqn:Es; [done|].
  destruct (malloc n) as [m|] eqn:E; [|done]. intros [= <-]. destruct (Hm _ _ E) as [Hl Hw].
  pose proof (wf_top _ H). pose proof (length_used a H) as Lu.
  assert (take (bn_top a) (splice m 0 (used a)) = used a) as Eu.
  { unfold splice. rewrite take_0. cbn [app]. rewrite <- Lu at 1. by rewrite take_app_length. }
  assert (length (splice m 0 (used a)) = n) as El by (rewrite length_splice; lia).
  split_and!; try done; cbn; [|lia].
  constructor; cbn [bn_d bn_top]; [apply words_splice; auto with vtls|lia|].
  destruct (wf_lead _ H) as [?|Hld]; [by left|]. destruct (bn_top a) as [|t] eqn:Et; [by left|]. right.
  rewrite <- (nthZ_take (S t)), Eu by lia. unfold used. rewrite Et, nthZ_take by lia. done.
Qed.

End expand.

(** ** Comparison *)

Definition pick (gt lt : Z) (c : comparison) : Z := match c with Eq => 0 | Lt => lt | Gt => gt end.

Lemma compare_lead P u v x y : 0 ≤ u < P → 0 ≤ v < P → x < y → u + P * x < v + P * y.
Proof. nia. Qed.

Lemma cmp_loop_spec gt lt a b n : words a → words b → (n ≤ length a)%nat → (n ≤ length b)%nat →
  cmp_loop gt lt a b n = pick gt lt (val (take n a) ?= val (take n b)).
Proof.
  intros Ha Hb. induction n as [|n IH]; intros Hla Hlb; [done|]. cbn [cmp_loop]. rewrite !val_take_S by lia.
  pose proof (val_bound _ (words_take n a Ha)) as Ba. pose proof (val_bound _ (words_take n b Hb)) as Bb.
  rewrite length_take, Nat.min_l in Ba, Bb by lia.
  destruct (Z.ltb_spec (nthZ b n) (nthZ a n)) as [H|H].
  { pose proof (compare_lead _ _ _ _ _ Bb Ba H) as Hc. by rewrite (proj2 (Z.compare_gt_iff _ _) Hc). }
  destruct (Z.ltb_spec (nthZ a n) (nthZ b n)) as [H2|H2].
  { pose proof (compare_lead _ _ _ _ _ Ba Bb H2) as Hc. by rewrite (proj2 (Z.compare_lt_iff _ _) Hc). }
  rewrite IH by lia. assert (nthZ a n = nthZ b n) as -> by lia. rewrite !(Z.add_comm (val _)). by rewrite Z.add_compare_mono_l.
Qed.

Lemma ucmp_loop_eq a b n : ucmp_loop a b n = cmp_loop 1 (-1) a b n.
Proof.
  induction n as [|n IH]; [done|]. cbn [ucmp_loop cmp_loop]. rewrite IH. by case_cmp; cbn; try lia.
Qed.

Lemma cmp_words_loop_eq a b n : cmp_words_loop a b n = cmp_loop 1 (-1) a b n.
Proof.
  induction n as [|n IH]; [done|]. cbn [cmp_words_loop cmp_loop]. rewrite IH. by case_cmp; cbn; try lia.
Qed.

Lemma mag_top_lt a b : wf a → wf b → (bn_top a < bn_top b)%nat → mag a < mag b.
Proof.
  intros Ha Hb Hlt. destruct (bn_top b) as [|n] eqn:E; [lia|]. pose proof (mag_lower b n Hb E). pose proof (mag_bound a Ha).
  pose proof (Z.pow_le_mono_r base (Z.of_nat (bn_top a)) (Z.of_nat n) ltac:(done) ltac:(lia)). lia.
Qed.

Lemma cmp_mag gt lt a b : wf a → wf b →
  (if (bn_top b <? bn_top a)%nat then gt
   else if (bn_top a <? bn_top b)%nat then lt
   else cmp_loop gt lt (bn_d a) (bn_d b) (bn_top a)) = pick gt lt (mag a ?= mag b).
Proof.
  intros Ha Hb. destruct (Nat.ltb_spec (bn_top b) (bn_top a)).
  { pose proof (mag_top_lt b a Hb Ha ltac:(done)) as Hc. by rewrite (proj2 (Z.compare_gt_iff _ _) Hc). }
  destruct (Nat.ltb_spec (bn_top a) (bn_top b)).
  { pose proof (mag_top_lt a b Ha Hb ltac:(done)) as Hc. by rewrite (proj2 (Z.compare_lt_iff _ _) Hc). }
  assert (bn_top b = bn_top a) as E by lia. pose proof (wf_top _ Ha). pose proof (wf_top _ Hb).
  rewrite cmp_loop_spec by (lia || auto with vtls). unfold mag, used. by rewrite E.
Qed.

(** The sign of [BN_ucmp] is the order of the magnitudes. *)
Lemma BN_ucmp_sgn a b : wf a → wf b → Z.sgn (BN_ucmp a b) = pick 1 (-1) (mag a ?= mag b).
Proof.
  intros Ha Hb. rewrite <- (cmp_mag 1 (-1) a b Ha Hb). unfold BN_ucmp, nonzero. rewrite ucmp_loop_eq.
  destruct (Z.eqb_spec (Z.of_nat (bn_top a) - Z.of_nat (bn_top b)) 0) as [E|E]; cbn [negb].
  - destruct (Nat.ltb_spec (bn_top b) (bn_top a)); [lia|]. destruct (Nat.ltb_spec (bn_top a) (bn_top b)); [lia|].
    rewrite cmp_loop_spec by (auto with vtls || (pose proof (wf_top _ Ha); pose proof (wf_top _ Hb); lia)).
    by destruct (_ ?= _).
  - destruct (Nat.ltb_spec (bn_top b) (bn_top a)); [lia|]. destruct (Nat.ltb_spec (bn_top a) (bn_top b)); lia.
Qed.

Lemma BN_ucmp_neg a b : wf a → wf b → (BN_ucmp a b <? 0) = (mag a <? mag b).
Proof.
  intros Ha Hb. pose proof (BN_ucmp_sgn a b Ha Hb) as H. destruct (Z.compare_spec (mag a) (mag b)); cbn in H; case_cmp; lia.
Qed.

Lemma canonical_value a : wf a → canonical a → bn_neg a = true → value a < 0.
Proof.
  intros Hw Hc Hn. unfold value. rewrite Hn. pose proof (mag_bound a Hw). pose proof (mag_zero a Hw) as Hz.
  unfold canonical in Hc. destruct (decide (mag a = 0)) as [E|E]; [|lia]. rewrite Hc in Hn by (by apply Hz). done.
Qed.

Lemma value_nonneg a : wf a → bn_neg a = false → 0 ≤ value a.
Proof. intros Hw Hn. unfold value. rewrite Hn. apply mag_bound, Hw. Qed.

(** [BN_cmp] orders numbers by their values, provided that neither is a negative
    zero: the result is 1, 0 or -1 as the first is larger than, equal to or smaller
    than the second. *)
Theorem BN_cmp_correct a b : wf a → wf b → canonical a → canonical b →
  BN_cmp (Some a) (Some b) = pick 1 (-1) (value a ?= value b).
Proof.
  intros Ha Hb Ca Cb. unfold BN_cmp. destruct (bn_neg a) eqn:Na, (bn_neg b) eqn:Nb; cbn [Bool.eqb negb].
  - rewrite cmp_mag by done. unfold value. rewrite Na, Nb. destruct (Z.compare_spec (mag a) (mag b)) as [E|E|E].
    + by rewrite E, Z.compare_refl.
    + by rewrite (proj2 (Z.compare_gt_iff _ _)) by lia.
    + by rewrite (proj2 (Z.compare_lt_iff _ _)) by lia.
  - pose proof (canonical_value a Ha Ca Na). pose proof (value_nonneg b Hb Nb).
    by rewrite (proj2 (Z.compare_lt_iff _ _)) by lia.
  - pose proof (canonical_value b Hb Cb Nb). pose proof (value_nonneg a Ha Na).
    by rewrite (proj2 (Z.compare_gt_iff _ _)) by lia.
  - rewrite cmp_mag by done. unfold value. by rewrite Na, Nb.
Qed.

Lemma BN_cmp_correct_witness :
  BN_cmp (Some (mkBN [5; 1] 2 true false)) (Some (mkBN [7; 9] 1 false false)) =
  pick 1 (-1) (value (mkBN [5; 1] 2 true false) ?= value (mkBN [7; 9] 1 false false)).
Proof. apply BN_cmp_correct; [by apply (bool_decide_unpack _)..|done|done]. Defined.

(** With a negative zero the order is not that of the values. *)
Lemma BN_cmp_negative_zero : BN_cmp (Some (mkBN [] 0 true false)) (Some (mkBN [] 0 false false)) = -1.
Proof. reflexivity. Qed.

(** The number of bits. *)
Lemma BN_num_bits_spec a : wf a → BN_num_bits a = if mag a =? 0 then 0 else Z.log2 (mag a) + 1.
Proof.
  intros Ha. unfold BN_num_bits, BN_is_zero. destruct (Nat.eqb_spec (bn_top a) 0) as [E|E].
  { pose proof (proj2 (mag_zero a Ha) E) as ->. done. }
  destruct (bn_top a) as [|n] eqn:Et; [done|]. destruct (mag_lead a n Ha Et) as (Em & Hl & Hr).
  replace (S n - 1)%nat with n by lia. rewrite BN_num_bits_word_spec by (apply nthZ_word, Ha).
  pose proof (mag_lower a n Ha Et). assert (0 < base ^ Z.of_nat n) by (apply Z.pow_pos_nonneg; unfold base; lia).
  destruct (Z.eqb_spec (nthZ (bn_d a) n) 0); [lia|]. destruct (Z.eqb_spec (mag a) 0); [lia|].
  pose proof (Z.log2_spec (nthZ (bn_d a) n) ltac:(lia)) as Hs. pose proof (Z.log2_nonneg (nthZ (bn_d a) n)) as Hn.
  assert (Z.log2 (mag a) = 64 * Z.of_nat n + Z.log2 (nthZ (bn_d a) n)) as ->; [|unfold BN_BITS2; lia].
  assert (base ^ Z.of_nat n = 2 ^ (64 * Z.of_nat n)) as EB by (unfold base; rewrite <- Z.pow_mul_r by lia; done).
  apply Z.log2_unique; [lia|]. rewrite Em, <- Z.add_succ_r, !Z.pow_add_r, <- EB by lia. nia.
Qed.

(** ** Bits *)

Lemma val_testbit l n : words l → 0 ≤ n → Z.testbit (val l) n = Z.testbit (nthZ l (Z.to_nat (n / 64))) (n mod 64).
Proof.
  intros Hl. revert n. induction Hl as [|w l Hw Hl IH]; intros n Hn.
  { cbn [val]. unfold nthZ. rewrite nth_overflow by (cbn; lia). by rewrite !Z.bits_0. }
  cbn [val]. unfold word in Hw. replace (w + base * val l) with (Z.lor (val l ≪ 64) w).
  2:{ rewrite lor_shiftl_add by (done || lia). unfold base. lia. }
  rewrite Z.lor_spec, Z.shiftl_spec by done. destruct (Z.lt_ge_cases n 64).
  - rewrite (Z.testbit_neg_r (val l)) by lia. rewrite Z.div_small, Z.mod_small by lia. done.
  - replace (Z.testbit w n) with false by (symmetry; apply (proj2 (proj1 (bounded_bits 64 w ltac:(lia)) Hw)); lia).
    rewrite orb_false_r, IH by lia. replace (n - 64) with (n + (-1) * 64) by lia. rewrite Z.div_add, Z.mod_add by lia.
    assert (1 ≤ n `div` 64) by (apply Z.div_le_lower_bound; lia).
    replace (Z.to_nat (n / 64)) with (S (Z.to_nat (n / 64 + -1))) by lia. done.
Qed.

Lemma val_insert_testbit l i w n : words l → word w → (i < length l)%nat → 0 ≤ n →
  Z.testbit (val (<[i := w]> l)) n = if n / 64 =? Z.of_nat i then Z.testbit w (n mod 64) else Z.testbit (val l) n.
Proof.
  intros Hl Hw Hi Hn. rewrite !val_testbit by auto with vtls. rewrite nthZ_insert by done.
  assert (0 ≤ n / 64) by (apply Z.div_pos; lia). case_decide; case_cmp; (done || lia).
Qed.

Lemma bit_index n m : 0 ≤ n → 0 ≤ m → (n =? m) = (n / 64 =? m / 64) && (n mod 64 =? m mod 64).
Proof.
  intros Hn Hm. destruct (Z.eqb_spec n m) as [->|Hne]; [by rewrite !Z.eqb_refl|].
  pose proof (Z.div_mod n 64). pose proof (Z.div_mod m 64). case_cmp; cbn; (done || lia).
Qed.

Lemma u64_testbit z i : 0 ≤ i → Z.testbit (u64 z) i = (i <? 64) && Z.testbit z i.
Proof.
  intros Hi. unfold u64. destruct (Z.ltb_spec i 64); [by rewrite Z.mod_pow2_bits_low|by rewrite Z.mod_pow2_bits_high by lia].
Qed.

Lemma u64_bit j i : 0 ≤ j < 64 → 0 ≤ i → Z.testbit (u64 (1 ≪ j)) i = (j =? i).
Proof.
  intros Hj Hi. rewrite u64_testbit, Z.shiftl_1_l, Z.pow2_bits_eqb by lia.
  destruct (Z.eqb_spec j i); [|by rewrite andb_false_r]. destruct (Z.ltb_spec i 64); [done|lia].
Qed.

Lemma word_lor x y : word x → word y → word (Z.lor x y).
Proof. unfold word. intros. by apply (lor_bound 64). Qed.
Lemma word_land x y : word x → word y → word (Z.land x y).
Proof. unfold word. intros [? ?] ?. by apply (land_bound 64). Qed.
#[export] Hint Resolve word_lor word_land : vtls.

Lemma mag_testbit a n : wf a → 0 ≤ n →
  Z.testbit (mag a) n = if (bn_top a <=? Z.to_nat (n / 64))%nat then false else Z.testbit (nthZ (bn_d a) (Z.to_nat (n / 64))) (n mod 64).
Proof.
  intros Ha Hn. unfold mag. rewrite val_testbit by auto with vtls. pose proof (length_used a Ha) as Hl.
  destruct (Nat.leb_spec (bn_top a) (Z.to_nat (n / 64))).
  - unfold nthZ at 1. rewrite nth_overflow by lia. apply Z.bits_0.
  - unfold used. by rewrite nthZ_take by lia.
Qed.

(** Testing a bit of a number reads that bit of its magnitude. *)
Lemma BN_is_bit_set_spec a n : wf a → 0 ≤ n → BN_is_bit_set a n = Z.testbit (mag a) n.
Proof.
  intros Ha Hn. rewrite mag_testbit by done. unfold BN_is_bit_set, BN_BITS2. destruct (Z.ltb_spec n 0); [lia|].
  destruct (_ <=? _)%nat; [done|]. pose proof (Z.mod_pos_bound n 64 ltac:(lia)).
  rewrite <- (Z.add_0_l (n mod 64)) at 2. rewrite <- Z.shiftr_spec by lia. set (x := _ ≫ _).
  change 1 with (Z.ones 1) at 1. rewrite Z.land_ones, Z.bit0_odd, Zmod_odd by lia. by destruct (Z.odd x).
Qed.

(** Changing a used word. *)
Lemma used_insert a i w t : (i < t)%nat → take t (<[i := w]> (bn_d a)) = <[i := w]> (take t (bn_d a)).
Proof. intros. by rewrite take_insert_lt. Qed.

Lemma set_bit_word a n : words (bn_d a) → (bn_top a ≤ length (bn_d a))%nat → 0 ≤ n → (Z.to_nat (n / 64) < bn_top a)%nat →
  (Z.to_nat (n / 64) = bn_top a - 1)%nat ∨ nthZ (bn_d a) (bn_top a - 1) ≠ 0 →
  let i := Z.to_nat (n / 64) in
  let r := with_d a (<[i := Z.lor (nthZ (bn_d a) i) (u64 (1 ≪ (n mod 64)))]> (bn_d a)) in
  wf r ∧ mag r = Z.setbit (mag a) n.
Proof.
  intros Hw Ht Hn Hi Hlead i r. pose proof (Z.mod_pos_bound n 64 ltac:(lia)) as Hj.
  assert (word (Z.lor (nthZ (bn_d a) i) (u64 (1 ≪ (n mod 64))))) as Ww by auto with vtls. split.
  - constructor; cbn [r with_d bn_d bn_top]; [auto with vtls|by rewrite length_insert|]. right.
    rewrite nthZ_insert by lia. case_decide as E; [|destruct Hlead; [lia|done]].
    intros [_ H]%Z.lor_eq_0_iff. pose proof (u64_bit (n mod 64) (n mod 64) Hj ltac:(lia)) as H2.
    by rewrite H, Z.bits_0, Z.eqb_refl in H2.
  - unfold mag, used. cbn [r with_d bn_d bn_top]. rewrite take_insert_lt by done. apply Z.bits_inj'. intros m Hm.
    rewrite val_insert_testbit by (auto with vtls; rewrite length_take; lia).
    rewrite Z.setbit_eqb, (bit_index n m), (Z.eqb_sym (n / 64)) by lia.
    assert (0 ≤ n / 64) by (apply Z.div_pos; lia). unfold i at 1. rewrite Z2Nat.id by done.
    destruct (Z.eqb_spec (m / 64) (n / 64)) as [E|E]; cbn [andb orb]; [|done].
    pose proof (Z.mod_pos_bound m 64 ltac:(lia)). rewrite Z.lor_spec, u64_bit by lia. rewrite orb_comm. f_equal.
    rewrite val_testbit, E by auto with vtls. by rewrite nthZ_take.
Qed.

(** Setting a bit of a number sets the bit of its magnitude, the array growing as
    far as it must; the number stays well formed.  It fails only for a negative index
    or when there is no room for the larger array, and then leaves the number as it
    was. *)
Theorem BN_set_bit_correct malloc a n ok r : malloc_ok malloc → wf a → BN_set_bit malloc a n = (ok, r) →
  if ok then 0 ≤ n ∧ wf r ∧ mag r = Z.setbit (mag a) n ∧ bn_neg r = bn_neg a
  else r = a ∧ (n < 0 ∨ bn_wexpand malloc a (Z.to_nat (n / 64) + 1) = None).
Proof.
  intros Hm Ha. unfold BN_set_bit, BN_BITS2. destruct (Z.ltb_spec n 0) as [Hn|Hn]; [intros [= <- <-]; auto|].
  set (i := Z.to_nat (n / 64)). destruct (Nat.leb_spec (bn_top a) i) as [Hi|Hi].
  2:{ intros [= <- <-]. destruct (set_bit_word a n) as [H1 H2]; auto with vtls.
      destruct (wf_lead a Ha) as [?|?]; [lia|by right]. }
  destruct (bn_wexpand malloc a (i + 1)) as [a'|] eqn:E; [|intros [= <- <-]; auto].
  destruct (bn_wexpand_spec malloc Hm a (i + 1) a' Ha E) as (Ha' & Hl & Hu & Ht & Hneg). intros [= <- <-].
  set (b := with_top _ (i + 1)).
  assert (take (i + 1) (bn_d b) = used a ++ replicate (i + 1 - bn_top a') 0) as Hb.
  { cbn [b with_top with_d bn_d]. unfold splice. rewrite <- Hu. fold (used a'). rewrite app_assoc. apply take_app_exact.
    rewrite length_app, length_used, length_replicate by done. lia. }
  assert (mag b = mag a) as <-.
  { unfold mag. unfold used at 1. cbn [b with_top bn_top]. fold b. rewrite Hb, val_app.
    assert (∀ k, val (replicate k 0) = 0) as -> by (intros k; induction k as [|k IH]; cbn [replicate val]; lia). lia. }
  destruct (set_bit_word b n) as [H1 H2]; try done; cbn [b with_top with_d bn_d bn_top].
  - apply words_splice; auto with vtls. by apply Forall_replicate.
  - rewrite length_splice; rewrite ?length_replicate; lia.
  - lia.
  - left. lia.
Qed.

Lemma BN_set_bit_correct_witness :
  ∃ r, BN_set_bit pool (mkBN [5] 1 false false) 130 = (true, r) ∧
    wf r ∧ mag r = Z.setbit (mag (mkBN [5] 1 false false)) 130.
Proof.
  pose proof pool_ok as Hm.
  assert (wf (mkBN [5] 1 false false)) as Hw by (by apply (bool_decide_unpack _)).
  eexists. split; [reflexivity|].
  destruct (BN_set_bit_correct _ _ 130 true _ Hm Hw eq_refl) as (H1 & H2 & H3 & H4). by split.
Defined.

Lemma BN_clear_bit_spec a n : wf a → 0 ≤ n →
  let '(ok, r) := BN_clear_bit a n in
  wf r ∧ mag r = Z.clearbit (mag a) n ∧ (canonical a → canonical r) ∧ ok = negb (bn_top a <=? Z.to_nat (n / 64))%nat.
Proof.
  intros Ha Hn. unfold BN_clear_bit, BN_BITS2. destruct (Z.ltb_spec n 0); [lia|]. set (i := Z.to_nat (n / 64)).
  assert (0 ≤ n / 64) as Hi by (apply Z.div_pos; lia). pose proof (Z.mod_pos_bound n 64 ltac:(lia)) as Hj.
  destruct (Nat.leb_spec (bn_top a) i) as [Ht|Ht].
  { split_and!; try done. apply Z.bits_inj'. intros m Hm. rewrite Z.clearbit_eqb.
    destruct (Z.eqb_spec n m) as [<-|]; [|by rewrite andb_true_r].
    rewrite mag_testbit by done. fold i. by destruct (Nat.leb_spec (bn_top a) i); [|lia]. }
  pose proof (wf_top _ Ha) as Htop. set (b := with_d _ _).
  destruct (bn_correct_top_spec b) as (H1 & H2 & H3 & H4 & H5); cbn [b with_d bn_d bn_top].
  { auto 6 with vtls. }
  { by rewrite length_insert. }
  split_and!; try done. rewrite H3. unfold mag, used. cbn [b with_d bn_d bn_top]. rewrite take_insert_lt by done.
  apply Z.bits_inj'. intros m Hm. rewrite val_insert_testbit by (auto 6 with vtls; rewrite length_take; lia).
  rewrite Z.clearbit_eqb, (bit_index n m), (Z.eqb_sym (n / 64)) by lia. unfold i at 1. rewrite Z2Nat.id by done.
  destruct (Z.eqb_spec (m / 64) (n / 64)) as [E|E]; cbn [andb negb]; [|by rewrite andb_true_r].
  pose proof (Z.mod_pos_bound m 64 ltac:(lia)).
  rewrite Z.land_spec, u64_testbit, Z.lnot_spec, u64_bit by lia. destruct (Z.ltb_spec (m mod 64) 64); [|lia]. cbn [andb].
  f_equal. rewrite val_testbit, E by auto with vtls. by rewrite nthZ_take.
Qed.

(** Masking reduces the magnitude modulo a power of two; it reports failure when the
    number has no word that far, where the reduction changes nothing. *)
Lemma BN_mask_bits_spec a n : wf a → 0 ≤ n →
  let '(ok, r) := BN_mask_bits a n in
  wf r ∧ mag r = mag a mod 2 ^ n ∧ (canonical a → canonical r) ∧ ok = negb (bn_top a <=? Z.to_nat (n / 64))%nat.
Proof.
  intros Ha Hn. unfold BN_mask_bits, BN_BITS2. destruct (Z.ltb_spec n 0); [lia|]. set (w := Z.to_nat (n / 64)).
  assert (0 ≤ n / 64) as Hi by (apply Z.div_pos; lia). pose proof (Z.mod_pos_bound n 64 ltac:(lia)) as Hj.
  pose proof (Z.div_mod n 64 ltac:(lia)) as En.
  destruct (Nat.leb_spec (bn_top a) w) as [Ht|Ht].
  { split_and!; try done. symmetry. apply Z.mod_small. pose proof (mag_bound a Ha). split; [lia|].
    assert (base ^ Z.of_nat (bn_top a) ≤ 2 ^ n); [|lia]. unfold base. rewrite <- Z.pow_mul_r by lia. apply Z.pow_le_mono_r; lia. }
  pose proof (wf_top _ Ha) as Htop. set (b := if n mod 64 =? 0 then _ else _).
  assert (words (bn_d b) ∧ (bn_top b ≤ length (bn_d b))%nat ∧ mag b = mag a mod 2 ^ n) as (B1 & B2 & B3).
  { unfold mag, used, b. destruct (Z.eqb_spec (n mod 64) 0) as [E|E]; cbn [with_d with_top bn_d bn_top].
    - split_and!; [apply Ha|lia|]. apply Z.bits_inj'. intros m Hm. rewrite Z.testbit_mod_pow2, !val_testbit by auto with vtls.
      pose proof (Z.div_mod m 64 ltac:(lia)). pose proof (Z.mod_pos_bound m 64 ltac:(lia)). pose proof (Z.div_pos m 64 Hm ltac:(lia)).
      destruct (Z.ltb_spec m n); cbn [andb].
      + by rewrite !nthZ_take by lia.
      + unfold nthZ. rewrite nth_overflow by (rewrite length_take; lia). apply Z.bits_0.
    - split_and!; [auto 6 with vtls|rewrite length_insert; lia|]. rewrite take_insert_lt by lia.
      apply Z.bits_inj'. intros m Hm. rewrite Z.testbit_mod_pow2, val_insert_testbit by (auto 6 with vtls; rewrite length_take; lia).
      rewrite !val_testbit by auto with vtls.
      pose proof (Z.div_mod m 64 ltac:(lia)). pose proof (Z.mod_pos_bound m 64 ltac:(lia)). pose proof (Z.div_pos m 64 Hm ltac:(lia)).
      destruct (Z.eqb_spec (m / 64) (Z.of_nat w)) as [Ew|Ew].
      + rewrite Z.land_spec, u64_testbit, Z.lnot_spec, u64_testbit, Z.shiftl_spec by lia.
        change BN_MASK2 with (Z.ones 64). rewrite Z.testbit_ones by lia. rewrite nthZ_take by lia.
        replace (Z.to_nat (m / 64)) with w by lia. case_cmp; cbn; rewrite ?andb_true_r, ?andb_false_r; (done || lia).
      + destruct (Z.ltb_spec m n); cbn [andb].
        * by rewrite !nthZ_take by lia.
        * unfold nthZ. rewrite nth_overflow by (rewrite length_take; lia). apply Z.bits_0. }
  destruct (bn_correct_top_spec b B1 B2) as (H1 & H2 & H3 & H4 & H5). split_and!; (done || congruence).
Qed.

(** ** Bytes *)

Lemma pow256 n : 256 ^ Z.of_nat n = 2 ^ (8 * Z.of_nat n).
Proof. change 256 with (2 ^ 8). by rewrite <- Z.pow_mul_r by lia. Qed.

Lemma base_256 n : base ^ Z.of_nat n = 256 ^ (8 * Z.of_nat n).
Proof. unfold base. change 256 with (2 ^ 8). rewrite <- !Z.pow_mul_r by lia. f_equal. lia. Qed.

Lemma bin2bn_loop_spec s : ∀ l m i d, bytes s → words d → (i ≤ length d)%nat → 0 ≤ m ≤ 7 → 0 ≤ l < 256 ^ (7 - m) →
  Z.of_nat (length s) = 8 * Z.of_nat i - (7 - m) →
  let r := bin2bn_loop s l m i d in
  words r ∧ length r = length d ∧ val (take i r) = l * 256 ^ Z.of_nat (length s) + be_load s ∧ drop i r = drop i d.
Proof.
  induction s as [|b s IH]; intros l m i d Hs Hd Hi Hm Hl Hlen; cbn [bin2bn_loop length] in *.
  { assert (i = 0%nat) as -> by lia. assert (m = 7) as -> by lia. cbn in Hl. assert (l = 0) as -> by lia. done. }
  apply bytes_cons_inv in Hs as [Hb Hs]. pose proof Hb as Hb'. unfold is_byte in Hb'.
  assert (256 ^ (7 - m) ≤ 256 ^ 7) as Hp by (apply Z.pow_le_mono_r; lia).
  assert (Z.lor (u64 (l ≪ 8)) b = l * 256 + b) as ->.
  { rewrite u64_small by (rewrite Z.shiftl_mul_pow2 by lia; lia). by rewrite lor_shiftl_add by lia. }
  rewrite be_load_cons, <- pow256 by done. rewrite Nat2Z.inj_succ, Z.pow_succ_r by lia.
  destruct (Z.eqb_spec m 0) as [->|Hm0].
  - destruct i as [|i]; [lia|]. replace (S i - 1)%nat with i by lia.
    assert (word (l * 256 + b)) as Ww by (unfold word; lia).
    destruct (IH 0 (BN_BYTES - 1) i (<[i := l * 256 + b]> d)) as (R1 & R2 & R3 & R4); unfold BN_BYTES; auto with vtls; try lia.
    { rewrite length_insert. lia. }
    rewrite length_insert in R2. set (r := bin2bn_loop _ _ _ _ _) in *.
    assert (nthZ r i = l * 256 + b) as En.
    { rewrite <- (Nat.add_0_r i) at 1. unfold nthZ. rewrite <- nth_skipn, R4, nth_skipn, Nat.add_0_r. fold (nthZ (<[i := l * 256 + b]> d) i).
      rewrite nthZ_insert by lia. by rewrite decide_True. }
    split_and!; [done|done| |].
    + rewrite val_take_S, R3, En, base_256 by lia. replace (8 * Z.of_nat i) with (Z.of_nat (length s)) by lia. lia.
    + replace (S i) with (i + 1)%nat by lia. rewrite <- !drop_drop, R4, !drop_drop, drop_insert_lt by lia. done.
  - destruct (IH (l * 256 + b) (m - 1) i d) as (R1 & R2 & R3 & R4); try done; try lia.
    { replace (7 - (m - 1)) with (Z.succ (7 - m)) by lia. rewrite Z.pow_succ_r by lia. lia. }
    split_and!; [done|done| |done]. rewrite R3. ring.
Qed.

(** Reading bytes, most significant first. *)
Lemma BN_bin2bn_spec malloc s ret r : malloc_ok malloc → bytes s → wf ret → BN_bin2bn malloc s ret = Some r →
  wf r ∧ mag r = be_load s ∧ (s ≠ [] → canonical r ∧ bn_neg r = false).
Proof.
  intros Hm Hs Hw. unfold BN_bin2bn. destruct (Z.eqb_spec (Z.of_nat (length s)) 0) as [E|E].
  { destruct s; [|done]. intros [= <-]. split_and!; [|done|done]. destruct Hw. constructor; cbn; (done || lia || auto). }
  set (i := Z.to_nat _). destruct (bn_wexpand malloc ret i) as [ret'|] eqn:Ex; [|done].
  destruct (bn_wexpand_spec malloc Hm _ _ _ Hw Ex) as (Hw' & Hl & _). intros [= <-].
  pose proof (Z.div_mod (Z.of_nat (length s) - 1) 8 ltac:(lia)) as Ed.
  pose proof (Z.mod_pos_bound (Z.of_nat (length s) - 1) 8 ltac:(lia)) as Hmod.
  pose proof (Z.div_pos (Z.of_nat (length s) - 1) 8 ltac:(lia) ltac:(lia)) as Hdiv. unfold BN_BYTES in *.
  assert (Z.of_nat i = (Z.of_nat (length s) - 1) / 8 + 1) as Ei by (subst i; lia).
  destruct (bin2bn_loop_spec s 0 ((Z.of_nat (length s) - 1) mod 8) i (bn_d ret')) as (R1 & R2 & R3 & _); auto with vtls; try lia.
  cbn [with_neg with_top with_d bn_d].
  set (b := with_d _ _). destruct (bn_correct_top_spec b) as (H1 & H2 & H3 & H4 & H5); cbn [b with_d with_neg with_top bn_d bn_top]; [done|lia|].
  split_and!; [done| |]. { rewrite H3. unfold mag, used. cbn [b with_d with_neg with_top bn_d bn_top]. rewrite R3. lia. }
  intros _. split; [done|]. by apply bn_correct_top_neg.
Qed.

Lemma be_store_cons n v : be_store (S n) v = u8 (v ≫ (8 * Z.of_nat n)) :: be_store n v.
Proof.
  revert v. induction n as [|n IH]; intros v.
  { rewrite be_store_S. by rewrite Z.shiftr_0_r. }
  rewrite be_store_S, IH, (be_store_S n v). cbn [app]. do 2 f_equal. rewrite Z.shiftr_shiftr by lia. f_equal. lia.
Qed.

Lemma bn2bin_loop_spec d n : words d → bn2bin_loop d n = be_store n (val d).
Proof.
  intros Hd. induction n as [|n IH]; [done|]. cbn [bn2bin_loop]. rewrite be_store_cons, IH. f_equal.
  change 0xff with (Z.ones 8). rewrite Z.land_ones by lia. fold (u8 (u8 (getb d (Z.of_nat n / BN_BYTES) ≫ (8 * (Z.of_nat n mod BN_BYTES))))).
  rewrite u8_id by apply u8_byte. unfold u8. apply Z.bits_inj'. intros m Hm. rewrite !Z.testbit_mod_pow2 by lia.
  destruct (Z.ltb_spec m 8); cbn [andb]; [|done]. unfold BN_BYTES. pose proof (Z.mod_pos_bound (Z.of_nat n) 8 ltac:(lia)).
  pose proof (Z.div_mod (Z.of_nat n) 8 ltac:(lia)) as E.
  rewrite !Z.shiftr_spec, val_testbit by (done || lia). unfold getb.
  replace ((m + 8 * Z.of_nat n) / 64) with (Z.of_nat n / 8); [|].
  2:{ apply (Z.div_unique _ _ _ (m + 8 * (Z.of_nat n mod 8))); lia. }
  replace ((m + 8 * Z.of_nat n) mod 64) with (m + 8 * (Z.of_nat n mod 8)); [done|].
  apply (Z.mod_unique _ _ (Z.of_nat n / 8)); lia.
Qed.

Lemma num_bytes_bound a : wf a → 0 ≤ BN_num_bytes a ∧ mag a < 2 ^ (8 * BN_num_bytes a) ∧ BN_num_bytes a ≤ 8 * Z.of_nat (bn_top a) ∧
  (mag a ≠ 0 → 0 < BN_num_bytes a ∧ 2 ^ (8 * (BN_num_bytes a - 1)) ≤ mag a).
Proof.
  intros Ha. unfold BN_num_bytes. rewrite BN_num_bits_spec by done. pose proof (mag_bound a Ha) as Hb.
  destruct (Z.eqb_spec (mag a) 0) as [E|E]; [rewrite E; change ((0 + 7) / 8) with 0; split_and!; (done || lia)|].
  pose proof (Z.log2_spec (mag a) ltac:(lia)) as Hl. pose proof (Z.log2_nonneg (mag a)).
  assert (Z.log2 (mag a) < 64 * Z.of_nat (bn_top a)).
  { apply Z.log2_lt_pow2; [lia|]. unfold base in Hb. rewrite <- Z.pow_mul_r in Hb by lia. lia. }
  pose proof (Z.div_mod (Z.log2 (mag a) + 1 + 7) 8 ltac:(lia)). pose proof (Z.mod_pos_bound (Z.log2 (mag a) + 1 + 7) 8 ltac:(lia)).
  set (q := (Z.log2 (mag a) + 1 + 7) / 8) in *. split_and!; try lia.
  - apply Z.lt_le_trans with (2 ^ Z.succ (Z.log2 (mag a))); [lia|]. apply Z.pow_le_mono_r; lia.
  - intros _. split; [lia|]. apply Z.le_trans with (2 ^ Z.log2 (mag a)); [|lia]. apply Z.pow_le_mono_r; lia.
Qed.

(** Writing bytes: the shortest big-endian representation of the magnitude. *)
Lemma BN_bn2bin_spec a : wf a → BN_bn2bin a = be_store (Z.to_nat (BN_num_bytes a)) (mag a).
Proof.
  intros Ha. destruct (num_bytes_bound a Ha) as (H0 & _ & H1 & _). unfold BN_bn2bin.
  rewrite bn2bin_loop_spec by auto with vtls.
  rewrite <- (be_store_mod _ (val (bn_d a)) (64 * Z.of_nat (bn_top a))) by lia. f_equal.
  rewrite <- (take_drop (bn_top a) (bn_d a)) at 1. rewrite val_app. fold (used a). rewrite length_used by done.
  replace (2 ^ (64 * Z.of_nat (bn_top a))) with (base ^ Z.of_nat (bn_top a)) by (unfold base; by rewrite <- Z.pow_mul_r by lia).
  rewrite Z.mul_comm, Z.mod_add. { apply Z.mod_small, (mag_bound a Ha). }
  pose proof (Z.pow_pos_nonneg base (Z.of_nat (bn_top a))). unfold base in *. lia.
Qed.

(** Reading a byte string as a number and writing the number again yields the
    string without its leading zero bytes: the string is what is written, after some
    zeros, and what is written starts with a byte that is not zero.  The number has
    the big-endian value of the string. *)
Theorem BN_bin2bn_bn2bin malloc s ret r : malloc_ok malloc → bytes s → wf ret → BN_bin2bn malloc s ret = Some r →
  mag r = be_load s ∧ be_load (BN_bn2bin r) = mag r ∧
  ∃ k, s = replicate k 0 ++ BN_bn2bin r ∧ head (BN_bn2bin r) ≠ Some 0.
Proof.
  intros Hm Hs Hw E. destruct (BN_bin2bn_spec malloc s ret r Hm Hs Hw E) as (Hr & Em & _).
  destruct (num_bytes_bound r Hr) as (H0 & H1 & H2 & H3). rewrite (BN_bn2bin_spec r Hr). set (n := BN_num_bytes r) in *.
  pose proof (mag_bound r Hr) as Hb. pose proof (be_load_bound s Hs) as Hsb. split_and!; [done| |].
  { rewrite be_load_store, Z2Nat.id by done. apply Z.mod_small. lia. }
  assert (Z.to_nat n ≤ length s)%nat as Hle.
  { destruct (decide (mag r = 0)) as [Ez|Ez].
    - subst n. unfold BN_num_bytes. rewrite BN_num_bits_spec, Ez by done. change ((Z.to_nat (((if 0 =? 0 then 0 else Z.log2 0 + 1) + 7) / 8))) with 0%nat. lia.
    - destruct (H3 Ez) as [Hn Hlow]. destruct (Z.lt_ge_cases (Z.of_nat (length s)) n) as [Hlt|]; [|lia].
      pose proof (Z.pow_le_mono_r 2 (8 * Z.of_nat (length s)) (8 * (n - 1)) ltac:(lia) ltac:(lia)). lia. }
  exists (length s - Z.to_nat n)%nat. split.
  - apply be_load_inj; [done|apply bytes_app; [apply bytes_replicate0|apply bytes_be_store]|..].
    + rewrite length_app, length_replicate, length_be_store. lia.
    + rewrite be_load_app, be_load_store by apply bytes_be_store. rewrite Z2Nat.id, Z.mod_small, <- Em by lia.
      assert (∀ k, be_load (replicate k 0) = 0) as ->; [|lia]. intros k. induction k as [|k IH]; [done|].
      cbn [replicate]. rewrite be_load_cons, IH by (done || apply bytes_replicate0). lia.
  - destruct (Z.to_nat n) as [|n'] eqn:En; [done|]. rewrite be_store_cons. cbn [head]. intros [= Hz].
    destruct (decide (mag r = 0)) as [Ez|Ez].
    { subst n. unfold BN_num_bytes in En. rewrite BN_num_bits_spec, Ez in En by done. done. }
    destruct (H3 Ez) as [_ Hlow]. replace (n - 1) with (Z.of_nat n') in Hlow by lia. unfold u8 in Hz.
    rewrite Z.shiftr_div_pow2 in Hz by lia. assert (0 < 2 ^ (8 * Z.of_nat n')) by (apply Z.pow_pos_nonneg; lia).
    rewrite Z.mod_small in Hz; [pose proof (Z.div_le_lower_bound (mag r) (2 ^ (8 * Z.of_nat n')) 1); lia|].
    split; [apply Z.div_pos; lia|]. apply Z.div_lt_upper_bound; [lia|]. rewrite <- Z.pow_add_r by lia.
    replace (8 * Z.of_nat n' + 8) with (8 * n) by lia. lia.
Qed.

Lemma BN_bin2bn_bn2bin_witness :
  ∃ r, BN_bin2bn pool [0; 0; 1; 2; 3; 4; 5; 6; 7; 8; 9] BN_new = Some r ∧
    BN_bn2bin r = [1; 2; 3; 4; 5; 6; 7; 8; 9] ∧ mag r = be_load [0; 0; 1; 2; 3; 4; 5; 6; 7; 8; 9].
Proof.
  pose proof pool_ok as Hm.
  assert (wf BN_new) as Hw by (by apply (bool_decide_unpack _)).
  eexists. split; [reflexivity|]. split; [reflexivity|].
  eapply (BN_bin2bn_bn2bin _ [0; 0; 1; 2; 3; 4; 5; 6; 7; 8; 9] BN_new); [done|by apply (bool_decide_unpack _)|done|reflexivity].
Defined.

(** ** Copies *)

Lemma put_wf r ws s : words (bn_d r) → words ws → (length ws ≤ length (bn_d r))%nat →
  (length ws = 0%nat ∨ nthZ ws (length ws - 1) ≠ 0) →
  let x := with_neg (with_top (put r ws) (length ws)) s in wf x ∧ used x = ws ∧ mag x = val ws ∧ bn_neg x = s.
Proof.
  intros Hr Hw Hl Hlead x. assert (used x = ws) as Hu by (by apply put_used). unfold mag. rewrite Hu. split_and!; try done.
  constructor; cbn [x with_neg with_top put with_d bn_d bn_top].
  - by apply words_splice.
  - rewrite length_splice; lia.
  - destruct Hlead as [?|Hlead]; [by left|]. destruct ws as [|w ws]; [by left|]. right.
    rewrite <- (nthZ_take (length (w :: ws))), put_used by (done || (cbn; lia)). done.
Qed.

Lemma used_lead a : wf a → length (used a) = 0%nat ∨ nthZ (used a) (length (used a) - 1) ≠ 0.
Proof.
  intros H. rewrite length_used by done. destruct (wf_lead a H) as [?|Hl]; [by left|].
  destruct (bn_top a) as [|t] eqn:E; [by left|]. right. unfold used. rewrite nthZ_take by lia. done.
Qed.

Lemma BN_copy_spec malloc a b : malloc_ok malloc → wf a → wf b →
  let '(ok, r) := BN_copy malloc false a b in
  if ok then wf r ∧ used r = used b ∧ value r = value b ∧ bn_neg r = bn_neg b
  else r = a ∧ bn_wexpand malloc a (bn_top b) = None.
Proof.
  intros Hm Ha Hb. unfold BN_copy. destruct (bn_wexpand malloc a (bn_top b)) as [a'|] eqn:E; [|done].
  destruct (bn_wexpand_spec malloc Hm _ _ _ Ha E) as (Ha' & Hl & _). pose proof (length_used b Hb) as Lu.
  destruct (put_wf a' (used b) (bn_neg b)) as (H1 & H2 & H3 & H4); auto using used_lead with vtls; [lia|].
  rewrite <- Lu. unfold value. rewrite H3, H4. done.
Qed.

Lemma BN_dup_spec malloc a r : malloc_ok malloc → wf a → BN_dup malloc a = Some r →
  wf r ∧ used r = used a ∧ bn_neg r = bn_neg a.
Proof.
  intros Hm Ha. unfold BN_dup. assert (wf BN_new) as Hn by (by apply (bool_decide_unpack _)).
  pose proof (BN_copy_spec malloc BN_new a Hm Hn Ha) as H. destruct (BN_copy _ _ _ _) as [[] t]; [|done].
  intros [= <-]. tauto.
Qed.

Lemma BN_set_word_spec malloc a w : malloc_ok malloc → wf a → word w →
  let '(ok, r) := BN_set_word malloc a w in
  if ok then wf r ∧ value r = w ∧ canonical r ∧ bn_neg r = false else r = a ∧ length (bn_d a) = 0%nat.
Proof.
  intros Hm Ha Hw. unfold BN_set_word.
  assert (bn_expand malloc a 64 = bn_wexpand malloc a 1) as ->.
  { unfold bn_expand, bn_wexpand. change (INT_MAX - BN_BITS2 + 1 <? 64) with false.
    change ((64 + BN_BITS2 - 1) / BN_BITS2) with 1. cbn iota. case_cmp; (done || lia). }
  destruct (bn_wexpand malloc a 1) as [a'|] eqn:E.
  2:{ unfold bn_wexpand in E. split; [done|]. revert E. case_cmp; [done|lia]. }
  destruct (bn_wexpand_spec malloc Hm _ _ _ Ha E) as (Ha' & Hl & _).
  destruct (bn_d a') as [|x d] eqn:Ed; [cbn in Hl; lia|]. pose proof (wf_words _ Ha') as Wd. rewrite Ed in Wd.
  apply Forall_cons_1 in Wd as [Wx Wd]. cbn [with_neg with_d with_top bn_d]. rewrite Ed. cbn [insert list_insert]. unfold nonzero.
  unfold value, mag, used, canonical. cbn [bn_neg bn_top bn_d with_top with_neg with_d].
  destruct (Z.eqb_spec w 0) as [->|Hne]; cbn [negb].
  - split_and!; try done. constructor; cbn; [by apply Forall_cons_2|lia|by left].
  - split_and!; [constructor; cbn; [by apply Forall_cons_2|lia|by right]| |done|done].
    change (take 1 (w :: d)) with [w]. cbn [val]. lia.
Qed.

(** A number in a word is read back; larger ones give the largest word. *)
Lemma BN_get_word_spec a : wf a → BN_get_word a = Z.min (mag a) BN_MASK2.
Proof.
  intros Ha. unfold BN_get_word. change BN_MASK2 with (base - 1). destruct (Nat.ltb_spec 1 (bn_top a)) as [H|H].
  - destruct (bn_top a) as [|n] eqn:E; [lia|]. pose proof (mag_lower a n Ha E).
    pose proof (Z.pow_le_mono_r base 1 (Z.of_nat n) ltac:(done) ltac:(lia)). rewrite Z.pow_1_r in *. lia.
  - pose proof (mag_bound a Ha) as Hb. destruct (Nat.eqb_spec (bn_top a) 1) as [E|E].
    + rewrite E, Z.pow_1_r in Hb. destruct (mag_lead a 0 Ha E) as (Em & _ & _). cbn [take val] in Em. rewrite take_0 in Em. cbn in Em. lia.
    + assert (bn_top a = 0%nat) as E0 by lia. rewrite (proj2 (mag_zero a Ha) E0). done.
Qed.

(** ** Swapping in constant time *)

Lemma swap_words_0 x y : swap_words 0 x y = (x, y).
Proof. unfold swap_words. by rewrite Z.land_0_r, !Z.lxor_0_r. Qed.

Lemma swap_words_mask x y : word x → word y → swap_words BN_MASK2 x y = (y, x).
Proof.
  intros Hx Hy. unfold swap_words. change BN_MASK2 with (Z.ones 64). pose proof (lxor_bound 64 x y ltac:(lia) Hx Hy).
  rewrite Z.land_ones, Z.mod_small by lia. by rewrite lxor_cancel_l, (Z.lxor_comm x y), lxor_cancel_l.
Qed.

Lemma swap_condition c : c = 0 ∨ (∃ k, 0 ≤ k < 64 ∧ c = 2 ^ k) →
  u64 (u64 (c - 1) ≫ (BN_BITS2 - 1) - 1) = if c =? 0 then 0 else BN_MASK2.
Proof.
  intros [-> | (k & Hk & ->)]; [done|]. assert (1 ≤ 2 ^ k ≤ 2 ^ 63) as Hb.
  { split; [pose proof (Z.pow_pos_nonneg 2 k); lia|]. apply Z.pow_le_mono_r; lia. }
  destruct (Z.eqb_spec (2 ^ k) 0); [lia|]. rewrite (u64_small (2 ^ k - 1)) by lia.
  unfold BN_BITS2. rewrite Z.shiftr_div_pow2, Z.div_small by lia. done.
Qed.

Lemma zip_swap x : ∀ y, words x → words y → length x = length y →
  fst <$> zip_with (swap_words BN_MASK2) x y = y ∧ snd <$> zip_with (swap_words BN_MASK2) x y = x.
Proof.
  induction x as [|a x IH]; intros [|b y] Hx Hy Hl; try done. apply Forall_cons_1 in Hx as [Ha Hx]. apply Forall_cons_1 in Hy as [Hb Hy].
  cbn [zip_with]. rewrite swap_words_mask by done. rewrite !fmap_cons. cbn [fst snd].
  destruct (IH y) as [-> ->]; [done..| |done]. by injection Hl.
Qed.

Lemma zip_keep x : ∀ y, length x = length y →
  fst <$> zip_with (swap_words 0) x y = x ∧ snd <$> zip_with (swap_words 0) x y = y.
Proof.
  induction x as [|a x IH]; intros [|b y] Hl; try done. cbn [zip_with]. rewrite swap_words_0, !fmap_cons. cbn [fst snd].
  destruct (IH y) as [-> ->]; [|done]. by injection Hl.
Qed.

Lemma put_prefix a n : (n ≤ length (bn_d a))%nat → put a (take n (bn_d a)) = a.
Proof.
  intros Hn. unfold put, splice, with_d. rewrite take_0, length_take, Nat.min_l by done. cbn [app Nat.add].
  rewrite take_drop. by destruct a.
Qed.

(** A number whose first words were replaced by those of another. *)
Lemma put_take_wf a b n : wf a → wf b → (bn_top b ≤ n)%nat → (n ≤ length (bn_d b))%nat → (n ≤ length (bn_d a))%nat →
  let r := with_top (put a (take n (bn_d b))) (bn_top b) in wf r ∧ used r = used b ∧ bn_neg r = bn_neg a.
Proof.
  intros Ha Hb Ht Hl Hla r.
  assert (used r = used b) as Hu.
  { unfold used. cbn [r with_top put with_d bn_d bn_top]. unfold splice. rewrite take_0. cbn [app].
    rewrite (take_app_le (take n (bn_d b))) by (rewrite length_take; lia). rewrite take_take. by rewrite Nat.min_l. }
  split_and!; [|done|done]. constructor; cbn [r with_top put with_d bn_d bn_top].
  - auto with vtls.
  - rewrite length_splice; rewrite ?length_take; lia.
  - destruct (wf_lead b Hb) as [?|Hlead]; [by left|]. destruct (bn_top b) as [|t] eqn:E; [by left|]. right.
    change (splice (bn_d a) 0 (take n (bn_d b))) with (bn_d r). rewrite <- (nthZ_take (S t)) by lia.
    unfold used in Hu. cbn [r with_top bn_top] in Hu. fold r in Hu. rewrite Hu, E, nthZ_take by lia. done.
Qed.

(** The conditional swap without branches: when the condition is zero both numbers
    stay as they were, and when one bit of it is set the numbers exchange the words
    in use, hence their magnitudes; each keeps its sign. *)
Theorem BN_consttime_swap_correct c a b n : wf a → wf b → c = 0 ∨ (∃ k, 0 ≤ k < 64 ∧ c = 2 ^ k) →
  (bn_top a ≤ n ≤ length (bn_d a))%nat → (bn_top b ≤ n ≤ length (bn_d b))%nat → Z.of_nat n < base →
  let '(a', b') := BN_consttime_swap c a b n in
  if c =? 0 then a' = a ∧ b' = b
  else wf a' ∧ wf b' ∧ used a' = used b ∧ used b' = used a ∧ bn_neg a' = bn_neg a ∧ bn_neg b' = bn_neg b.
Proof.
  intros Ha Hb Hc Hna Hnb Hn. unfold BN_consttime_swap. rewrite (swap_condition c Hc). destruct (Z.eqb_spec c 0) as [->|Hc0].
  - rewrite swap_words_0. destruct (zip_keep (take n (bn_d a)) (take n (bn_d b))) as [-> ->]; [rewrite !length_take; lia|].
    rewrite !put_prefix, !Nat2Z.id by lia. by destruct a, b.
  - rewrite swap_words_mask by (unfold word, base in *; lia).
    destruct (zip_swap (take n (bn_d a)) (take n (bn_d b))) as [-> ->]; [auto with vtls..|rewrite !length_take; lia|].
    rewrite !Nat2Z.id. destruct (put_take_wf a b n) as (? & ? & ?); [done..|lia|lia|lia|].
    destruct (put_take_wf b a n) as (? & ? & ?); [done..|lia|lia|lia|]. done.
Qed.

Lemma BN_consttime_swap_correct_witness :
  let '(a', b') := BN_consttime_swap 4 (mkBN [5; 1; 9] 2 true false) (mkBN [7; 9] 1 false false) 2 in
  used a' = [7] ∧ used b' = [5; 1].
Proof.
  assert (wf (mkBN [5; 1; 9] 2 true false)) as Ha by (by apply (bool_decide_unpack _)).
  assert (wf (mkBN [7; 9] 1 false false)) as Hb by (by apply (bool_decide_unpack _)).
  pose proof (BN_consttime_swap_correct 4 _ _ 2 Ha Hb ltac:(right; exists 2; lia) ltac:(cbn; lia) ltac:(cbn; lia) ltac:(done)) as H.
  destruct (BN_consttime_swap _ _ _ _) as [a' b']. destruct H as (_ & _ & H1 & H2 & _). by rewrite H1, H2.
Defined.
