(* ===== verification/BnAdd.v ===== *)
(** * Addition and subtraction of big numbers

    Models [crypto/bn/bn_add.c]: the operations on magnitudes, [BN_uadd] and
    [BN_usub], with their loops for the carry and the borrow, and the signed
    operations that choose among them. *)

From S2P Require Import Prelude BnWords BnDivWords Bn.

Section bn_add.
Context (malloc : nat → option (list Z)) (k : cfg).

(** The carry runs through the longer operand until a word does not overflow; the
    rest is copied.  The second result tells whether the carry is left. *)
Fixpoint inc_words (ap : list Z) : list Z * bool :=
  match ap with
  | [] => ([], true)
  | t1 :: ap =>
      let t2 := u64 (t1 + 1) in
      if nonzero t2 then (t2 :: ap, false)
      else let '(rs, carry) := inc_words ap in (t2 :: rs, carry)
  end.

Definition BN_uadd (r a b : BIGNUM) : bool * BIGNUM :=
  let '(a, b) := if (bn_top a <? bn_top b)%nat then (b, a) else (a, b) in
  let max := bn_top a in
  let min := bn_top b in
  match bn_wexpand malloc r (max + 1) with
  | None => (false, r)
  | Some r =>
      let r := with_top r max in
      let '(lo, carry) := bn_add_words k (take min (used a)) (used b) in
      let rest := drop min (used a) in
      let '(hi, carry) := if nonzero carry then inc_words rest else (rest, false) in
      let r := if carry then with_top (put r (lo ++ hi ++ [1])) (max + 1) else put r (lo ++ hi) in
      (true, with_neg r false)
  end.

(** The difference of the common words. *)
Fixpoint usub_words (ap bp : list Z) (carry : bool) : list Z * bool :=
  match ap, bp with
  | t1 :: ap, t2 :: bp =>
      let '(t, carry) :=
        if carry then (u64 (t1 - t2 - 1), t1 <=? t2) else (u64 (t1 - t2), t1 <? t2) in
      let '(rs, carry) := usub_words ap bp carry in (t :: rs, carry)
  | _, _ => ([], carry)
  end.

(** The borrow runs until a word is not zero. *)
Fixpoint dec_words (ap : list Z) : list Z :=
  match ap with
  | [] => []
  | t1 :: ap => if nonzero t1 then u64 (t1 - 1) :: ap else u64 (t1 - 1) :: dec_words ap
  end.

Definition BN_usub (r a b : BIGNUM) : bool * BIGNUM :=
  let max := bn_top a in
  let min := bn_top b in
  if (max <? min)%nat then (false, r)
  else
    match bn_wexpand malloc r max with
    | None => (false, r)
    | Some r =>
        let '(lo, carry) := usub_words (take min (used a)) (used b) false in
        let rest := drop min (used a) in
        if carry && (max - min =? 0)%nat then (false, put r lo)
        else
          let hi := if carry then dec_words rest else rest in
          (true, bn_correct_top (with_neg (with_top (put r (lo ++ hi)) max) false))
    end.

Definition BN_add (r a b : BIGNUM) : bool * BIGNUM :=
  let a_neg := bn_neg a in
  if xorb a_neg (bn_neg b) then
    let '(a, b) := if a_neg then (b, a) else (a, b) in
    if BN_ucmp a b <? 0 then
      let '(ok, r) := BN_usub r b a in
      if ok then (true, with_neg r true) else (false, r)
    else
      let '(ok, r) := BN_usub r a b in
      if ok then (true, with_neg r false) else (false, r)
  else
    let '(ret, r) := BN_uadd r a b in
    (ret, with_neg r a_neg).

Definition BN_sub (r a b : BIGNUM) : bool * BIGNUM :=
  let '(a, b, add, neg) :=
    if bn_neg a then (if bn_neg b then (b, a, false, false) else (a, b, true, true))
    else (if bn_neg b then (a, b, true, false) else (a, b, false, false)) in
  if add then
    let '(ok, r) := BN_uadd r a b in
    if ok then (true, with_neg r neg) else (false, r)
  else
    let max := if (bn_top b <? bn_top a)%nat then bn_top a else bn_top b in
    match bn_wexpand malloc r max with
    | None => (false, r)
    | Some r =>
        if BN_ucmp a b <? 0 then
          let '(ok, r) := BN_usub r b a in
          if ok then (true, with_neg r true) else (false, r)
        else
          let '(ok, r) := BN_usub r a b in
          if ok then (true, with_neg r false) else (false, r)
    end.

End bn_add.

(** ** The loops *)

Lemma inc_words_spec l : words l →
  let '(r, c) := inc_words l in
  words r ∧ length r = length l ∧ val r + base ^ Z.of_nat (length l) * b2z c = val l + 1.
Proof.
  induction 1 as [|w l Hw Hl IH]; cbn [inc_words]; [cbn; split_and!; (done || lia)|]. unfold word in Hw.
  unfold nonzero. destruct (Z.eqb_spec (u64 (w + 1)) 0) as [E|E]; cbn [negb].
  - assert (w = 2 ^ 64 - 1) as -> by (unfold u64 in E; Z.to_euclidean_division_equations; lia).
    destruct (inc_words l) as [r c]. destruct IH as (H1 & H2 & H3). cbn [length val].
    split_and!; [by apply Forall_cons_2; [apply word_u64|]|by rewrite H2|].
    rewrite E, Nat2Z.inj_succ, Z.pow_succ_r by lia. change (2 ^ 64 - 1) with (base - 1). lia.
  - assert (u64 (w + 1) = w + 1) as Eu.
    { apply u64_small. split; [lia|]. destruct (decide (w = 2 ^ 64 - 1)) as [->|]; [done|lia]. }
    cbn [b2z length val]. split_and!; [apply Forall_cons_2; [apply word_u64|done]|done|lia].
Qed.

Lemma usub_words_spec a : ∀ b c, words a → words b → length b = length a →
  let '(r, c') := usub_words a b c in
  words r ∧ length r = length a ∧ val r - base ^ Z.of_nat (length a) * b2z c' = val a - val b - b2z c.
Proof.
  induction a as [|a0 a IH]; intros [|b0 b] c Ha Hb Hl; try done.
  { cbn. split_and!; (done || lia). }
  apply Forall_cons_1 in Ha as [Ha Has]. apply Forall_cons_1 in Hb as [Hb Hbs]. injection Hl as Hl. cbn [usub_words].
  set (st := if c then _ else _).
  assert (st.1 - base * b2z st.2 = a0 - b0 - b2z c ∧ word st.1) as [E W].
  { pose proof (sub_step_spec a0 b0 (b2z c) Ha Hb ltac:(destruct c; cbn; lia)) as H. unfold sub_step in H.
    destruct H as (H1 & H2 & H3). subst st. clear H2. destruct c; cbn [fst snd b2z] in *; rewrite ?Z.sub_0_r in *;
      (split; [|done]); revert H3; unfold b2z; case_cmp; lia. }
  destruct st as [t c']. pose proof (IH b c' Has Hbs Hl) as Hx. destruct (usub_words a b c') as [rs c2].
  destruct Hx as (H1 & H2 & H3). cbn [length val fst snd] in *. rewrite Nat2Z.inj_succ, Z.pow_succ_r by lia.
  split_and!; [by apply Forall_cons_2|by rewrite H2|lia].
Qed.

Lemma dec_words_spec l : words l → 0 < val l →
  words (dec_words l) ∧ length (dec_words l) = length l ∧ val (dec_words l) = val l - 1.
Proof.
  induction 1 as [|w l Hw Hl IH]; cbn [dec_words val]; [lia|]. intros Hv. unfold word in Hw. unfold nonzero.
  destruct (Z.eqb_spec w 0) as [->|E]; cbn [negb length val].
  - destruct IH as (H1 & H2 & H3); [unfold base in *; lia|].
    change (u64 (0 - 1)) with (base - 1). split_and!; [by apply Forall_cons_2|by rewrite H2|lia].
  - rewrite u64_small by lia. split_and!; [|done|lia]. apply Forall_cons_2; [unfold word; lia|done].
Qed.

(** ** The magnitudes *)

(** A value that needs all the words has a leading word. *)
Lemma lead_of_val ws n : words ws → length ws = S n → base ^ Z.of_nat n ≤ val ws → nthZ ws n ≠ 0.
Proof.
  intros Hw Hl Hv E. rewrite <- (firstn_all ws), Hl, val_take_S, E in Hv by lia.
  pose proof (val_bound _ (words_take n ws Hw)) as Hb. rewrite length_take, Nat.min_l in Hb by lia. lia.
Qed.

Lemma val_of_lead ws n : words ws → length ws = S n → nthZ ws n ≠ 0 → base ^ Z.of_nat n ≤ val ws.
Proof.
  intros Hw E Hl. rewrite <- (firstn_all ws), E, val_take_S by lia. pose proof (val_bound _ (words_take n ws Hw)).
  pose proof (nthZ_word ws n Hw) as Wn. unfold word in Wn. assert (0 < base ^ Z.of_nat n) by (apply Z.pow_pos_nonneg; [done|lia]). nia.
Qed.

Lemma put_val r ws s : words (bn_d r) → words ws → (length ws ≤ length (bn_d r))%nat →
  (∀ n, length ws = S n → base ^ Z.of_nat n ≤ val ws) →
  let x := with_neg (with_top (put r ws) (length ws)) s in wf x ∧ mag x = val ws ∧ bn_neg x = s.
Proof.
  intros Hr Hw Hl Hv. destruct (put_wf r ws s Hr Hw Hl) as (H1 & _ & H3 & H4); [|done].
  destruct ws as [|w ws]; [by left|]. right. apply lead_of_val; [done|cbn; lia|].
  apply Hv. cbn [length]. lia.
Qed.

Section specs.
Context (malloc : nat → option (list Z)) (k : cfg) (Hm : malloc_ok malloc).

Lemma bn_add_words_spec a b : words a → words b → length b = length a →
  carries (length a) (bn_add_words k a b) (val a + val b) ∧ 0 ≤ (bn_add_words k a b).2 ≤ 1.
Proof.
  intros Ha Hb Hl. unfold bn_add_words. rewrite add_words_unroll, <- (Z.add_0_r (val a + val b)).
  by apply add_words_1_spec.
Qed.

Lemma split_used a n : wf a → (n ≤ bn_top a)%nat →
  let lo := take n (used a) in let hi := drop n (used a) in
  words lo ∧ words hi ∧ length lo = n ∧ length hi = (bn_top a - n)%nat ∧ mag a = val lo + base ^ Z.of_nat n * val hi.
Proof.
  intros Ha Hn lo hi. pose proof (length_used a Ha) as Lu. subst lo hi. assert (length (take n (used a)) = n) as El by (rewrite length_take; lia).
  split_and!; [auto with vtls..|done|rewrite length_drop; lia|].
  unfold mag. rewrite <- (take_drop n (used a)) at 1. by rewrite val_app, El.
Qed.

Lemma uadd_ordered r a b : wf r → wf a → wf b → (bn_top b ≤ bn_top a)%nat →
  let '(ok, r') := BN_uadd malloc k r a b in
  if ok then wf r' ∧ mag r' = mag a + mag b ∧ bn_neg r' = false
  else r' = r ∧ bn_wexpand malloc r (bn_top a + 1) = None.
Proof.
  intros Hr Ha Hb Ht. unfold BN_uadd. destruct (Nat.ltb_spec (bn_top a) (bn_top b)); [lia|].
  destruct (bn_wexpand malloc r (bn_top a + 1)) as [r1|] eqn:E; [|done].
  destruct (bn_wexpand_spec malloc Hm _ _ _ Hr E) as (Hr1 & Hl1 & _).
  destruct (split_used a (bn_top b) Ha Ht) as (W1 & W2 & L1 & L2 & Ea). pose proof (length_used b Hb) as Lb.
  destruct (bn_add_words_spec (take (bn_top b) (used a)) (used b)) as ((R1 & R2 & R3 & R4) & R5); [auto with vtls..|congruence|].
  rewrite L1 in R3, R4. destruct (bn_add_words _ _ _) as [lo c]. cbn [fst snd] in *.
  set (rest := drop (bn_top b) (used a)) in *. set (st := if nonzero c then _ else _).
  assert (words st.1 ∧ length st.1 = length rest ∧ val st.1 + base ^ Z.of_nat (length rest) * b2z st.2 = val rest + c) as (S1 & S2 & S3).
  { subst st. unfold nonzero. pose proof (inc_words_spec rest W2) as Hinc. destruct (Z.eqb_spec c 0) as [->|]; cbn [negb].
    - cbn [fst snd b2z]. split_and!; (done || lia).
    - assert (c = 1) as -> by lia. by destruct (inc_words rest). }
  destruct st as [hi c2]. cbn [fst snd] in *.
  assert (val (lo ++ hi) + base ^ Z.of_nat (bn_top a) * b2z c2 = mag a + mag b) as EV.
  { rewrite val_app, R3, Ea. unfold mag. replace (Z.of_nat (bn_top a)) with (Z.of_nat (bn_top b) + Z.of_nat (length rest)) by lia.
    rewrite Z.pow_add_r by lia. nia. }
  assert (words (lo ++ hi) ∧ length (lo ++ hi) = bn_top a) as [WL LL] by (split; [auto with vtls|rewrite length_app; lia]).
  pose proof (mag_bound a Ha) as Ba. pose proof (mag_bound b Hb) as Bb. pose proof (wf_words _ Hr1) as Wr.
  destruct c2; cbn [b2z] in EV.
  - assert (length ((lo ++ hi) ++ [1]) = (bn_top a + 1)%nat) as L3 by (rewrite length_app; cbn; lia). rewrite (app_assoc lo hi).
    assert (val ((lo ++ hi) ++ [1]) = mag a + mag b) as E1 by (rewrite val_app, LL; cbn [val]; lia).
    rewrite <- E1, <- L3. apply put_val; [done|by apply words_snoc|cbn [with_top bn_d]; lia|].
    intros n Hn. replace n with (bn_top a) by lia. pose proof (val_bound _ WL). lia.
  - assert (val (lo ++ hi) = mag a + mag b) as E1 by lia. rewrite <- E1.
    change (put (with_top r1 (bn_top a)) (lo ++ hi)) with (with_top (put r1 (lo ++ hi)) (bn_top a)). rewrite <- !LL.
    apply put_val; [done..|lia|]. intros n Hn. rewrite LL in Hn. pose proof (mag_lower a n Ha Hn). lia.
Qed.

Lemma BN_uadd_spec r a b : wf r → wf a → wf b →
  let '(ok, r') := BN_uadd malloc k r a b in
  if ok then wf r' ∧ mag r' = mag a + mag b ∧ bn_neg r' = false
  else r' = r ∧ bn_wexpand malloc r (Nat.max (bn_top a) (bn_top b) + 1) = None.
Proof.
  intros Hr Ha Hb. destruct (Nat.lt_ge_cases (bn_top a) (bn_top b)) as [H|H].
  - replace (BN_uadd malloc k r a b) with (BN_uadd malloc k r b a).
    + rewrite Nat.max_r, Z.add_comm by lia. by apply uadd_ordered; [..|lia].
    + unfold BN_uadd. by destruct (Nat.ltb_spec (bn_top a) (bn_top b)), (Nat.ltb_spec (bn_top b) (bn_top a)); try lia.
  - rewrite Nat.max_l by lia. by apply uadd_ordered.
Qed.

(** The difference, and the error when the second operand is larger. *)
Lemma BN_usub_spec r a b : wf r → wf a → wf b →
  let '(ok, r') := BN_usub malloc r a b in
  if ok then mag b ≤ mag a ∧ wf r' ∧ canonical r' ∧ mag r' = mag a - mag b ∧ bn_neg r' = false
  else mag a < mag b ∨ bn_wexpand malloc r (bn_top a) = None.
Proof.
  intros Hr Ha Hb. unfold BN_usub. destruct (Nat.ltb_spec (bn_top a) (bn_top b)) as [Hlt|Hge].
  { left. by apply mag_top_lt. }
  destruct (bn_wexpand malloc r (bn_top a)) as [r1|] eqn:E; [|by right].
  destruct (bn_wexpand_spec malloc Hm _ _ _ Hr E) as (Hr1 & Hl1 & _).
  destruct (split_used a (bn_top b) Ha Hge) as (W1 & W2 & L1 & L2 & Ea). pose proof (length_used b Hb) as Lb.
  pose proof (usub_words_spec (take (bn_top b) (used a)) (used b) false W1 ltac:(auto with vtls) ltac:(congruence)) as H.
  destruct (usub_words _ _ _) as [lo c]. destruct H as (R1 & R2 & R3). rewrite L1 in R2, R3. cbn [b2z] in R3. rewrite Z.sub_0_r in R3.
  set (rest := drop (bn_top b) (used a)) in *. fold (mag b) in R3. pose proof (val_bound _ R1) as Blo. rewrite R2 in Blo.
  destruct (c && (bn_top a - bn_top b =? 0)%nat) eqn:Ec.
  { left. apply andb_true_iff in Ec as [-> Ec%Nat.eqb_eq]. rewrite Ec in L2. destruct rest; [|done]. cbn [b2z val] in *. lia. }
  set (hi := if c then dec_words rest else rest).
  assert (words hi ∧ length hi = length rest ∧ val hi = val rest - b2z c) as (S1 & S2 & S3).
  { subst hi. destruct c; cbn [b2z andb] in *; [|by rewrite Z.sub_0_r]. apply Nat.eqb_neq in Ec. apply dec_words_spec; [done|].
    assert (bn_top a = S (bn_top a - 1)) as Et by lia. pose proof (mag_lower a _ Ha Et) as Hlow.
    pose proof (Z.pow_le_mono_r base (Z.of_nat (bn_top b)) (Z.of_nat (bn_top a - 1)) ltac:(done) ltac:(lia)).
    pose proof (val_bound _ W1) as B1. rewrite L1 in B1. pose proof (val_bound _ W2).
    destruct (decide (val rest = 0)) as [Ez|]; [|lia]. rewrite Ez in Ea. lia. }
  assert (val (lo ++ hi) = mag a - mag b) as EV by (rewrite val_app, R2, Ea; nia).
  assert (words (lo ++ hi)) as WL by auto with vtls. assert (length (lo ++ hi) = bn_top a) as LL by (rewrite length_app; lia).
  pose proof (val_bound _ WL). set (x := with_neg _ _).
  assert (mag x = val (lo ++ hi)) as Ex by (unfold mag, used; cbn [x with_neg with_top put with_d bn_d bn_top]; rewrite <- LL, put_used by lia; done).
  destruct (bn_correct_top_spec x) as (H1 & H2 & H3 & H4 & H5); cbn [x with_neg with_top put with_d bn_d bn_top].
  { auto with vtls. }
  { rewrite length_splice; lia. }
  split_and!; [lia|done|done|lia|]. by apply bn_correct_top_neg.
Qed.

(** ** The signed operations *)

(** What the branches that subtract have in common. *)
Lemma usub_signed r a b : wf r → wf a → wf b →
  let '(ok, r') :=
    if BN_ucmp a b <? 0 then
      let '(ok, r) := BN_usub malloc r b a in if ok then (true, with_neg r true) else (false, r)
    else
      let '(ok, r) := BN_usub malloc r a b in if ok then (true, with_neg r false) else (false, r) in
  if ok then wf r' ∧ canonical r' ∧ value r' = mag a - mag b
  else bn_wexpand malloc r (Nat.max (bn_top a) (bn_top b)) = None.
Proof.
  intros Hr Ha Hb. rewrite BN_ucmp_neg by done. destruct (Z.ltb_spec (mag a) (mag b)) as [H|H].
  - pose proof (BN_usub_spec r b a Hr Hb Ha) as Hs. destruct (BN_usub malloc r b a) as [[] r']; cbn iota.
    + destruct Hs as (_ & Hw & _ & Em & _). assert (wf (with_neg r' true)) as Hw' by (by destruct Hw; constructor).
      split_and!; [done| |change (value (with_neg r' true)) with (- mag r'); lia].
      intros Hz. exfalso. pose proof (proj2 (mag_zero _ Hw) Hz). lia.
    + destruct Hs as [?|Hs]; [lia|]. rewrite Nat.max_r; [done|].
      destruct (Nat.lt_ge_cases (bn_top b) (bn_top a)) as [Hlt|]; [|lia]. pose proof (mag_top_lt b a Hb Ha Hlt). lia.
  - pose proof (BN_usub_spec r a b Hr Ha Hb) as Hs. destruct (BN_usub malloc r a b) as [[] r']; cbn iota.
    + destruct Hs as (_ & Hw & Hc & Em & _). assert (wf (with_neg r' false)) as Hw' by (by destruct Hw; constructor).
      split_and!; [done|done|done].
    + destruct Hs as [?|Hs]; [lia|]. rewrite Nat.max_l; [done|].
      destruct (Nat.lt_ge_cases (bn_top a) (bn_top b)) as [Hlt|]; [|lia]. pose proof (mag_top_lt a b Ha Hb Hlt). lia.
Qed.

Lemma with_neg_wf a s : wf a → wf (with_neg a s).
Proof. intros []. by constructor. Qed.

(** The sum of magnitudes under a sign. *)
Lemma uadd_signed r a b (s : bool) : wf a → wf b → wf r → mag r = mag a + mag b →
  wf (with_neg r s) ∧ value (with_neg r s) = (if s then - (mag a + mag b) else mag a + mag b) ∧
  ((s = true → mag a ≠ 0 ∨ mag b ≠ 0) → canonical (with_neg r s)).
Proof.
  intros Ha Hb Hr Em. split_and!; [by apply with_neg_wf|unfold value; cbn [with_neg bn_neg]; change (mag (with_neg r s)) with (mag r); by rewrite Em|].
  intros Hs Hz. cbn [with_neg bn_neg]. destruct s; [|done]. pose proof (proj2 (mag_zero r Hr) Hz) as Hz'.
  pose proof (mag_bound a Ha). pose proof (mag_bound b Hb). destruct (Hs eq_refl); lia.
Qed.

Lemma canonical_neg_mag a : wf a → canonical a → bn_neg a = true → mag a ≠ 0.
Proof. intros Hw Hc Hn Hz. apply mag_zero in Hz; [|done]. rewrite (Hc Hz) in Hn. done. Qed.

End specs.

(** [BN_add] computes the sum of the integers that its operands stand for, in
    every configuration of the word arithmetic and with the operands' signs in any
    combination; the result is well formed, and canonical when the operands are.  It
    fails only when the result array cannot grow to one word more than the longer
    operand. *)
Theorem BN_add_correct malloc k r a b ok r' : malloc_ok malloc → wf r → wf a → wf b → BN_add malloc k r a b = (ok, r') →
  if ok then wf r' ∧ value r' = value a + value b ∧ (canonical a → canonical b → canonical r')
  else bn_wexpand malloc r (Nat.max (bn_top a) (bn_top b)) = None ∨
       bn_wexpand malloc r (Nat.max (bn_top a) (bn_top b) + 1) = None.
Proof.
  intros Hm Hr Ha Hb. unfold BN_add. destruct (xorb (bn_neg a) (bn_neg b)) eqn:Ex.
  - assert (bn_neg b = negb (bn_neg a)) as Eb by (by destruct (bn_neg a), (bn_neg b)).
    destruct (bn_neg a) eqn:Ea; cbn [negb] in Eb.
    + pose proof (usub_signed malloc Hm r b a Hr Hb Ha) as H. intros E. rewrite E in H. rewrite Nat.max_comm.
      destruct ok; [|by left]. destruct H as (H1 & H2 & H3). split_and!; [done| |done]. unfold value at 2 3. rewrite Ea, Eb. lia.
    + pose proof (usub_signed malloc Hm r a b Hr Ha Hb) as H. intros E. rewrite E in H.
      destruct ok; [|by left]. destruct H as (H1 & H2 & H3). split_and!; [done| |done]. unfold value at 2 3. rewrite Ea, Eb. lia.
  - assert (bn_neg b = bn_neg a) as Eb by (by destruct (bn_neg a), (bn_neg b)).
    pose proof (BN_uadd_spec malloc k Hm r a b Hr Ha Hb) as H. destruct (BN_uadd malloc k r a b) as [ok' r1]. intros [= <- <-].
    destruct ok'; [|right; apply H]. destruct H as (H1 & H2 & _).
    destruct (uadd_signed r1 a b (bn_neg a) Ha Hb H1 H2) as (H3 & H4 & H5). split_and!; [done| |].
    + rewrite H4. unfold value. rewrite Eb. destruct (bn_neg a); lia.
    + intros Ca _. apply H5. intros Hn. left. by apply canonical_neg_mag.
Qed.

Lemma BN_add_correct_witness :
  ∃ r', BN_add pool PORTABLE BN_new (mkBN [2 ^ 64 - 1; 2 ^ 64 - 1] 2 true false) (mkBN [1] 1 true false) = (true, r') ∧
    wf r' ∧ value r' = - 2 ^ 128.
Proof.
  pose proof pool_ok as Hm.
  assert (wf BN_new ∧ wf (mkBN [2 ^ 64 - 1; 2 ^ 64 - 1] 2 true false) ∧ wf (mkBN [1] 1 true false)) as (H1 & H2 & H3)
    by (by apply (bool_decide_unpack _)).
  eexists. split; [reflexivity|].
  destruct (BN_add_correct _ PORTABLE _ _ _ true _ Hm H1 H2 H3 eq_refl) as (H4 & H5 & _). by split.
Defined.

(** [BN_sub] computes the difference of the integers that its operands stand for,
    with the same guarantees as [BN_add]. *)
Theorem BN_sub_correct malloc k r a b ok r' : malloc_ok malloc → wf r → wf a → wf b → BN_sub malloc k r a b = (ok, r') →
  if ok then wf r' ∧ value r' = value a - value b ∧ (canonical a → canonical b → canonical r')
  else ∃ n, (n ≤ Nat.max (bn_top a) (bn_top b) + 1)%nat ∧ bn_wexpand malloc r n = None.
Proof.
  intros Hm Hr Ha Hb. unfold BN_sub.
  assert (∀ x y : BIGNUM, wf x → wf y → ∀ z, z = mag x - mag y → Nat.max (bn_top x) (bn_top y) = Nat.max (bn_top a) (bn_top b) →
    (match bn_wexpand malloc r (if (bn_top y <? bn_top x)%nat then bn_top x else bn_top y) with
     | None => (false, r)
     | Some r =>
        if BN_ucmp x y <? 0 then let '(ok, r) := BN_usub malloc r y x in if ok then (true, with_neg r true) else (false, r)
        else let '(ok, r) := BN_usub malloc r x y in if ok then (true, with_neg r false) else (false, r)
     end) = (ok, r') →
    if ok then wf r' ∧ value r' = z ∧ (canonical a → canonical b → canonical r')
    else ∃ n, (n ≤ Nat.max (bn_top a) (bn_top b) + 1)%nat ∧ bn_wexpand malloc r n = None) as Sub.
  { intros x y Hx Hy z -> Emax. set (n := if (bn_top y <? bn_top x)%nat then _ else _).
    assert (n = Nat.max (bn_top x) (bn_top y)) as En by (subst n; case_cmp; lia).
    destruct (bn_wexpand malloc r n) as [r1|] eqn:E; [|intros [= <- <-]; exists n; split; [lia|done]].
    destruct (bn_wexpand_spec malloc Hm _ _ _ Hr E) as (Hr1 & Hl1 & _).
    pose proof (usub_signed malloc Hm r1 x y Hr1 Hx Hy) as H. intros Eq. rewrite Eq in H. destruct ok.
    - destruct H as (H1 & H2 & H3). split_and!; done.
    - rewrite <- En in H. unfold bn_wexpand in H. by destruct (Nat.leb_spec n (length (bn_d r1))); [|lia]. }
  assert (∀ s : bool, (s = true → canonical a → canonical b → mag a ≠ 0 ∨ mag b ≠ 0) →
    (let '(ok, r) := BN_uadd malloc k r a b in if ok then (true, with_neg r s) else (false, r)) = (ok, r') →
    if ok then wf r' ∧ value r' = (if s then - (mag a + mag b) else mag a + mag b) ∧ (canonical a → canonical b → canonical r')
    else ∃ n, (n ≤ Nat.max (bn_top a) (bn_top b) + 1)%nat ∧ bn_wexpand malloc r n = None) as Add.
  { intros s Hs. pose proof (BN_uadd_spec malloc k Hm r a b Hr Ha Hb) as H. destruct (BN_uadd malloc k r a b) as [[] r1]; intros [= <- <-].
    - destruct H as (H1 & H2 & _). destruct (uadd_signed r1 a b s Ha Hb H1 H2) as (H3 & H4 & H5). split_and!; [done..|].
      intros Ca Cb. apply H5. intros Es. by apply Hs.
    - eexists. split; [|apply H]. lia. }
  unfold value at 2 3. destruct (bn_neg a) eqn:Na, (bn_neg b) eqn:Nb.
  - intros Eq. apply (Sub b a); [done|done|lia|lia|done].
  - replace (- mag a - mag b) with (- (mag a + mag b)) by lia. apply (Add true). intros _ Ca _. left. by apply canonical_neg_mag.
  - replace (mag a - - mag b) with (mag a + mag b) by lia. by apply (Add false).
  - by apply (Sub a b).
Qed.

Lemma BN_sub_correct_witness :
  ∃ r', BN_sub pool BN_LLONG BN_new (mkBN [0; 0; 1] 3 false false) (mkBN [1] 1 false false) = (true, r') ∧
    wf r' ∧ value r' = 2 ^ 128 - 1.
Proof.
  pose proof pool_ok as Hm.
  assert (wf BN_new ∧ wf (mkBN [0; 0; 1] 3 false false) ∧ wf (mkBN [1] 1 false false)) as (H1 & H2 & H3)
    by (by apply (bool_decide_unpack _)).
  eexists. split; [reflexivity|].
  destruct (BN_sub_correct _ BN_LLONG _ _ _ true _ Hm H1 H2 H3 eq_refl) as (H4 & H5 & _). by split.
Defined.
