(* ===== verification/BnShift.v ===== *)
(** * Shifts of big numbers

    Models [crypto/bn/bn_shift.c].  [same] tells whether the result is the
    operand itself, which the source tests. *)

From S2P Require Import Prelude BnWords BnDivWords Bn BnAdd.

Definition BN_TBIT : Z := 0x8000000000000000.

Fixpoint lshift1_words (ap : list Z) (c : Z) : list Z * Z :=
  match ap with
  | [] => ([], c)
  | t :: ap =>
      let '(rs, c') := lshift1_words ap (if nonzero (Z.land t BN_TBIT) then 1 else 0) in
      (Z.land (Z.lor (u64 (t ≪ 1)) c) BN_MASK2 :: rs, c')
  end.

(** From the most significant word down: the words and the bit carried below. *)
Fixpoint rshift1_words (ap : list Z) : list Z * Z :=
  match ap with
  | [] => ([], 0)
  | t :: ap =>
      let '(rs, c) := rshift1_words ap in
      (Z.lor (Z.land (t ≫ 1) BN_MASK2) c :: rs, if nonzero (Z.land t 1) then BN_TBIT else 0)
  end.

(** From the most significant word down: the word of the result at the place of an
    operand's word is written, then the bits that come into it from below are
    added. *)
Fixpoint lshift_words (f : list Z) (lb : Z) : list Z :=
  match f with
  | [] => [0]
  | l :: f =>
      match lshift_words f lb with
      | [] => []
      | x :: t => Z.land (u64 (l ≪ lb)) BN_MASK2 :: Z.lor x (Z.land (l ≫ (BN_BITS2 - lb)) BN_MASK2) :: t
      end
  end.

(** [l] is the word read last. *)
Fixpoint rshift_words (l : Z) (f : list Z) (rb : Z) : list Z * Z :=
  match f with
  | [] => ([], Z.land (l ≫ rb) BN_MASK2)
  | l' :: f =>
      let tmp := Z.land (l ≫ rb) BN_MASK2 in
      let '(t, l) := rshift_words l' f rb in
      (Z.land (Z.lor tmp (u64 (l' ≪ (BN_BITS2 - rb)))) BN_MASK2 :: t, l)
  end.

Section bn_shift.
Context (malloc : nat → option (list Z)).

Definition BN_lshift1 (same : bool) (r a : BIGNUM) : bool * BIGNUM :=
  let r := if same then r else with_neg r (bn_neg a) in
  match bn_wexpand malloc r (bn_top a + 1) with
  | None => (false, r)
  | Some r =>
      let r := if same then r else with_top r (bn_top a) in
      let '(ws, c) := lshift1_words (used a) 0 in
      (true, if nonzero c then with_top (put r (ws ++ [1])) (bn_top r + 1) else put r ws)
  end.

Definition BN_rshift1 (same : bool) (r a : BIGNUM) : bool * BIGNUM :=
  if BN_is_zero a then (true, BN_zero malloc r)
  else
    let i := bn_top a in
    let j := if nthZ (bn_d a) (i - 1) =? 1 then (i - 1)%nat else i in
    match (if same then Some r else bn_wexpand malloc r j) with
    | None => (false, r)
    | Some r =>
        let r := if same then r else with_neg r (bn_neg a) in
        let '(ws, _) := rshift1_words (used a) in
        let ws := if nonzero (nthZ (bn_d a) (i - 1) ≫ 1) then ws else take (i - 1) ws in
        (true, with_top (put r ws) j)
    end.

Definition BN_lshift (r a : BIGNUM) (n : Z) : bool * BIGNUM :=
  if n <? 0 then (false, r)
  else
    let r := with_neg r (bn_neg a) in
    let nw := Z.to_nat (n / BN_BITS2) in
    match bn_wexpand malloc r (bn_top a + nw + 1) with
    | None => (false, r)
    | Some r =>
        let lb := n mod BN_BITS2 in
        let ws := if lb =? 0 then used a ++ [0] else lshift_words (used a) lb in
        (true, bn_correct_top (with_top (put r (replicate nw 0 ++ ws)) (bn_top a + nw + 1)))
    end.

Definition BN_rshift (same : bool) (r a : BIGNUM) (n : Z) : bool * BIGNUM :=
  if n <? 0 then (false, r)
  else
    let nw := Z.to_nat (n / BN_BITS2) in
    let rb := n mod BN_BITS2 in
    if (bn_top a <=? nw)%nat || (bn_top a =? 0)%nat then (true, BN_zero malloc r)
    else
      let i := Z.to_nat ((BN_num_bits a - n + (BN_BITS2 - 1)) / BN_BITS2) in
      if same && (n =? 0) then (true, r)
      else
        let r := if same then r else with_neg r (bn_neg a) in
        match (if same then Some r else bn_wexpand malloc r i) with
        | None => (false, r)
        | Some r =>
            let r := with_top r i in
            match drop nw (used a) with
            | [] => (true, r)
            | (l :: f') as f =>
                if rb =? 0 then (true, put r f)
                else
                  let '(t, l) := rshift_words l f' rb in
                  (true, put r (if nonzero l then t ++ [l] else t))
            end
        end.

End bn_shift.

(** ** The loops *)

Lemma mask_word w : word w → Z.land w BN_MASK2 = w.
Proof. unfold word. intros H. change BN_MASK2 with (Z.ones 64). rewrite Z.land_ones by lia. by apply Z.mod_small. Qed.

Lemma shiftr_word w n : word w → 0 ≤ n → word (w ≫ n) ∧ w ≫ n = w `div` 2 ^ n.
Proof.
  unfold word. intros H Hn. rewrite Z.shiftr_div_pow2 by done. assert (0 < 2 ^ n) by (apply Z.pow_pos_nonneg; lia).
  split; [|done]. split; [apply Z.div_pos; lia|]. apply Z.div_lt_upper_bound; nia.
Qed.

(** A shift within a word splits the word. *)
Lemma shift_split w lb : word w → 0 ≤ lb ≤ 64 →
  w * 2 ^ lb = u64 (w ≪ lb) + base * (w ≫ (64 - lb)) ∧ u64 (w ≪ lb) = (w `mod` 2 ^ (64 - lb)) ≪ lb.
Proof.
  intros Hw Hlb. destruct (shiftr_word w (64 - lb) Hw ltac:(lia)) as [_ ->]. rewrite !Z.shiftl_mul_pow2 by lia.
  assert (base = 2 ^ lb * 2 ^ (64 - lb)) as EB by (rewrite <- Z.pow_add_r by lia; unfold base; f_equal; lia).
  assert (0 < 2 ^ lb ∧ 0 < 2 ^ (64 - lb)) as [H1 H2] by (split; apply Z.pow_pos_nonneg; lia).
  pose proof (Z.div_mod w (2 ^ (64 - lb)) ltac:(lia)) as E. pose proof (Z.mod_pos_bound w (2 ^ (64 - lb)) H2) as Hm.
  assert (u64 (w * 2 ^ lb) = w `mod` 2 ^ (64 - lb) * 2 ^ lb) as ->; [|split; [|done]].
  - unfold u64. fold base. symmetry. apply (Z.mod_unique _ _ (w `div` 2 ^ (64 - lb))); [left; split; nia|]. rewrite EB, E at 1. ring.
  - rewrite EB, E at 1. ring.
Qed.

Lemma lshift1_words_spec l : ∀ c, words l → 0 ≤ c ≤ 1 →
  let '(r, c') := lshift1_words l c in
  words r ∧ length r = length l ∧ 0 ≤ c' ≤ 1 ∧ val r + base ^ Z.of_nat (length l) * c' = 2 * val l + c.
Proof.
  induction l as [|w l IH]; intros c Hl Hc; cbn [lshift1_words]; [cbn; split_and!; (done || lia)|].
  apply Forall_cons_1 in Hl as [Hw Hl].
  destruct (shift_split w 1 Hw ltac:(lia)) as [E1 E2]. destruct (shiftr_word w 63 Hw ltac:(lia)) as [_ E3].
  assert ((if nonzero (Z.land w BN_TBIT) then 1 else 0) = w ≫ 63) as ->.
  { change BN_TBIT with (Z.ones 1 ≪ 63). unfold word in Hw. rewrite (nonzero_mask w 63 1) by lia. rewrite E3.
    case_cmp; Z.to_euclidean_division_equations; lia. }
  change (64 - 1) with 63 in *. assert (0 ≤ w ≫ 63 ≤ 1) as Hc' by (unfold word in Hw; rewrite E3; Z.to_euclidean_division_equations; lia).
  pose proof (IH (w ≫ 63) Hl Hc') as H. destruct (lshift1_words l (w ≫ 63)) as [rs c']. destruct H as (H1 & H2 & H3 & H4).
  assert (Z.lor (u64 (w ≪ 1)) c = u64 (w ≪ 1) + c) as Ec.
  { rewrite E2, lor_shiftl_add, Z.shiftl_mul_pow2 by lia. done. }
  assert (word (Z.lor (u64 (w ≪ 1)) c)) as Wl by (apply word_lor; [apply word_u64|unfold word; lia]).
  rewrite mask_word by done. cbn [length val]. rewrite Ec in *. rewrite Nat2Z.inj_succ, Z.pow_succ_r by lia.
  split_and!; [by apply Forall_cons_2|by rewrite H2|lia|lia|]. change (2 ^ 1) with 2 in E1. lia.
Qed.

Lemma rshift1_words_spec l : words l →
  let '(r, c) := rshift1_words l in
  words r ∧ length r = length l ∧ val r = val l / 2 ∧ c = (val l mod 2) * BN_TBIT.
Proof.
  induction 1 as [|w l Hw Hl IH]; cbn [rshift1_words]; [by cbn|]. destruct (rshift1_words l) as [rs c].
  destruct IH as (H1 & H2 & H3 & ->). destruct (shiftr_word w 1 Hw ltac:(lia)) as [W1 E1]. rewrite mask_word, E1 by done.
  change (2 ^ 1) with 2 in *. pose proof (Z.mod_pos_bound (val l) 2 ltac:(lia)) as Hm. rewrite E1 in W1.
  assert (Z.lor (w `div` 2) (val l mod 2 * BN_TBIT) = w `div` 2 + val l mod 2 * BN_TBIT) as ->.
  { rewrite Z.lor_comm. change BN_TBIT with (2 ^ 63). rewrite <- Z.shiftl_mul_pow2 by lia. rewrite lor_shiftl_add; [|lia|].
    - rewrite Z.shiftl_mul_pow2; lia.
    - unfold word in Hw. Z.to_euclidean_division_equations; lia. }
  cbn [length val]. rewrite H3. pose proof (Z.div_mod (val l) 2 ltac:(lia)) as El. unfold word in Hw.
  assert ((w + base * val l) / 2 = w `div` 2 + 2 ^ 63 * val l) as ->.
  { replace (w + base * val l) with (w + (2 ^ 63 * val l) * 2) by (unfold base; lia). by rewrite Z.div_add by lia. }
  assert ((w + base * val l) mod 2 = w mod 2) as ->.
  { replace (w + base * val l) with (w + (2 ^ 63 * val l) * 2) by (unfold base; lia). by rewrite Z.mod_add by lia. }
  split_and!; [|by rewrite H2|change BN_TBIT with (2 ^ 63); unfold base; lia|].
  - apply Forall_cons_2; [|done]. unfold word. change BN_TBIT with (2 ^ 63). Z.to_euclidean_division_equations; lia.
  - unfold nonzero. change 1 with (Z.ones 1) at 1. rewrite Z.land_ones by lia. change (2 ^ 1) with 2.
    pose proof (Z.mod_pos_bound w 2 ltac:(lia)). case_cmp; cbn; unfold BN_TBIT; lia.
Qed.

Lemma lshift_words_spec lb f : words f → 0 < lb < 64 →
  ∃ x t, lshift_words f lb = (x ≪ lb) :: t ∧ 0 ≤ x < 2 ^ (64 - lb) ∧ words t ∧ length t = length f ∧
    val ((x ≪ lb) :: t) = val f * 2 ^ lb.
Proof.
  intros Hf Hlb. induction Hf as [|l f Hl Hf (x & t & E & Hx & Ht & Hlen & Hv)]; cbn [lshift_words].
  { exists 0, []. rewrite Z.shiftl_0_l. pose proof (Z.pow_pos_nonneg 2 (64 - lb)). split_and!; (done || lia). }
  rewrite E. destruct (shift_split l lb Hl ltac:(lia)) as [E1 E2]. destruct (shiftr_word l (64 - lb) Hl ltac:(lia)) as [W3 E3].
  rewrite !mask_word by (done || apply word_u64). unfold BN_BITS2. rewrite E2.
  assert (0 < 2 ^ (64 - lb)) as Hp by (apply Z.pow_pos_nonneg; lia).
  assert (0 ≤ l ≫ (64 - lb) < 2 ^ lb) as Hlo.
  { rewrite E3. unfold word in Hl. split; [apply Z.div_pos; lia|]. apply Z.div_lt_upper_bound; [done|].
    rewrite <- Z.pow_add_r by lia. replace (64 - lb + lb) with 64 by lia. lia. }
  eexists _, _. split; [reflexivity|]. split_and!; [by apply Z.mod_pos_bound..| |cbn; lia|].
  - apply Forall_cons_2; [|done]. rewrite lor_shiftl_add by lia. unfold word.
    assert (2 ^ 64 = 2 ^ (64 - lb) * 2 ^ lb) as EB by (rewrite <- Z.pow_add_r by lia; f_equal; lia). nia.
  - cbn [val] in *. rewrite lor_shiftl_add by lia. rewrite <- E2. rewrite Z.shiftl_mul_pow2 in Hv by lia. unfold base in *. lia.
Qed.

Lemma rshift_words_spec rb f : ∀ l, words f → word l → 0 < rb < 64 →
  let '(t, l') := rshift_words l f rb in
  words t ∧ word l' ∧ length t = length f ∧ val (t ++ [l']) = val (l :: f) / 2 ^ rb ∧ l' = nthZ (l :: f) (length f) ≫ rb.
Proof.
  induction f as [|l1 f IH]; intros l Hf Hl Hrb; cbn [rshift_words]; destruct (shiftr_word l rb Hl ltac:(lia)) as [W1 E1].
  { rewrite mask_word by done. cbn [app val length]. rewrite Z.mul_0_r, !Z.add_0_r. split_and!; (done || auto). }
  apply Forall_cons_1 in Hf as [Hl1 Hf]. pose proof (IH l1 Hf Hl1 Hrb) as H. destruct (rshift_words l1 f rb) as [t l'].
  destruct H as (H1 & H2 & H3 & H4 & H5). rewrite (mask_word (l ≫ rb)) by done. unfold BN_BITS2.
  destruct (shift_split l1 (64 - rb) Hl1 ltac:(lia)) as [E2 E3]. replace (64 - (64 - rb)) with rb in * by lia.
  assert (0 < 2 ^ rb) as Hp by (apply Z.pow_pos_nonneg; lia).
  assert (2 ^ 64 = 2 ^ rb * 2 ^ (64 - rb)) as EB by (rewrite <- Z.pow_add_r by lia; f_equal; lia).
  assert (0 ≤ l ≫ rb < 2 ^ (64 - rb)) as Hlo.
  { rewrite E1. unfold word in Hl. split; [apply Z.div_pos; lia|]. apply Z.div_lt_upper_bound; lia. }
  assert (Z.lor (l ≫ rb) (u64 (l1 ≪ (64 - rb))) = l ≫ rb + u64 (l1 ≪ (64 - rb))) as Eo.
  { rewrite Z.lor_comm, E3, lor_shiftl_add by lia. rewrite Z.shiftl_mul_pow2 by lia. lia. }
  rewrite mask_word by (apply word_lor; [done|apply word_u64]).
  split_and!; [apply Forall_cons_2; [apply word_lor; [done|apply word_u64]|done]|done|cbn; lia| |exact H5].
  change ((Z.lor (l ≫ rb) (u64 (l1 ≪ (64 - rb))) :: t) ++ [l']) with (Z.lor (l ≫ rb) (u64 (l1 ≪ (64 - rb))) :: (t ++ [l'])).
  set (V := val (l1 :: f)) in *. cbn [val]. change (l1 + base * val f) with V. rewrite H4, Eo.
  replace (l + base * V) with (l + (2 ^ (64 - rb) * V) * 2 ^ rb) by (unfold base; rewrite EB; ring). rewrite Z.div_add, <- E1 by lia.
  assert (2 ^ (64 - rb) * V = u64 (l1 ≪ (64 - rb)) + base * (V / 2 ^ rb)) as ->; [|lia].
  assert (V / 2 ^ rb = l1 ≫ rb + 2 ^ (64 - rb) * val f) as ->.
  { subst V. cbn [val]. replace (l1 + base * val f) with (l1 + (2 ^ (64 - rb) * val f) * 2 ^ rb) by (unfold base; rewrite EB; ring).
    rewrite Z.div_add by lia. destruct (shiftr_word l1 rb Hl1 ltac:(lia)) as [_ ->]. done. }
  subst V. cbn [val]. lia.
Qed.

(** ** The shifts *)

Lemma put_correct r ws : words (bn_d r) → words ws → (length ws ≤ length (bn_d r))%nat →
  let x := bn_correct_top (with_top (put r ws) (length ws)) in
  wf x ∧ canonical x ∧ mag x = val ws ∧ (val ws ≠ 0 → bn_neg x = bn_neg r).
Proof.
  intros Hr Hw Hl x.
  assert (mag (with_top (put r ws) (length ws)) = val ws) as Em by (unfold mag, used; cbn [with_top put with_d bn_d bn_top]; by rewrite put_used).
  destruct (bn_correct_top_spec (with_top (put r ws) (length ws))) as (H1 & H2 & H3 & H4 & _); cbn [with_top put with_d bn_d bn_top].
  { by apply words_splice. }
  { rewrite length_splice; lia. }
  subst x. split_and!; [done|done|by rewrite H3|]. intros Hv. apply H4. by rewrite Em.
Qed.

Lemma BN_zero_spec malloc r : malloc_ok malloc → wf r →
  wf (BN_zero malloc r) ∧ mag (BN_zero malloc r) = 0 ∧ (canonical r → canonical (BN_zero malloc r)).
Proof.
  intros Hm Hr. unfold BN_zero. pose proof (BN_set_word_spec malloc r 0 Hm Hr ltac:(done)) as H.
  destruct (BN_set_word malloc r 0) as [[] r']; cbn [snd].
  - destruct H as (H1 & H2 & H3 & H4). split_and!; try done. unfold value in H2. by rewrite H4 in H2.
  - destruct H as [-> H]. split_and!; try done. pose proof (wf_top _ Hr). apply mag_zero; [done|lia].
Qed.

(** The words of a left shift. *)
Lemma lshift_all a n : wf a → 0 ≤ n →
  let nw := Z.to_nat (n / 64) in
  let ws := replicate nw 0 ++ (if n mod 64 =? 0 then used a ++ [0] else lshift_words (used a) (n mod 64)) in
  words ws ∧ length ws = (bn_top a + nw + 1)%nat ∧ val ws = mag a * 2 ^ n.
Proof.
  intros Ha Hn nw ws. pose proof (Z.mod_pos_bound n 64 ltac:(lia)) as Hb. pose proof (Z.div_mod n 64 ltac:(lia)) as En.
  pose proof (Z.div_pos n 64 Hn ltac:(lia)) as Hd. pose proof (length_used a Ha) as Lu.
  set (sh := if n mod 64 =? 0 then _ else _) in ws.
  assert (words sh ∧ length sh = (bn_top a + 1)%nat ∧ val sh = mag a * 2 ^ (n mod 64)) as (H1 & H2 & H3).
  { subst sh. destruct (Z.eqb_spec (n mod 64) 0) as [->|E].
    - rewrite length_app, val_app. cbn [length val]. split_and!; [apply words_snoc; [auto with vtls|done]|lia|]. change (2 ^ 0) with 1. unfold mag. lia.
    - destruct (lshift_words_spec (n mod 64) (used a)) as (x & t & -> & Hx & Ht & Hlen & Hv); [auto with vtls|lia|].
      split_and!; [|cbn; lia|done]. apply Forall_cons_2; [|done]. unfold word. rewrite Z.shiftl_mul_pow2 by lia.
      assert (2 ^ 64 = 2 ^ (64 - n mod 64) * 2 ^ (n mod 64)) as -> by (rewrite <- Z.pow_add_r by lia; f_equal; lia).
      assert (0 < 2 ^ (n mod 64)) by (apply Z.pow_pos_nonneg; lia). nia. }
  subst ws. rewrite length_app, length_replicate, val_app, length_replicate. split_and!.
  - apply words_app; [by apply Forall_replicate|done].
  - lia.
  - assert (∀ k, val (replicate k 0) = 0) as -> by (intros k; induction k as [|k IH]; cbn [replicate val]; lia).
    rewrite H3. unfold base. rewrite <- Z.pow_mul_r by lia. rewrite En at 2. rewrite Z.pow_add_r by lia. unfold nw. rewrite Z2Nat.id by lia. ring.
Qed.

Lemma BN_lshift_spec malloc r a n : malloc_ok malloc → wf r → wf a →
  let '(ok, r') := BN_lshift malloc r a n in
  if ok then 0 ≤ n ∧ wf r' ∧ canonical r' ∧ mag r' = mag a * 2 ^ n ∧ (mag r' ≠ 0 → bn_neg r' = bn_neg a)
  else n < 0 ∨ bn_wexpand malloc (with_neg r (bn_neg a)) (bn_top a + Z.to_nat (n / 64) + 1) = None.
Proof.
  intros Hm Hr Ha. unfold BN_lshift, BN_BITS2. destruct (Z.ltb_spec n 0) as [Hn|Hn]; [by left|].
  destruct (bn_wexpand malloc (with_neg r (bn_neg a)) (bn_top a + Z.to_nat (n / 64) + 1)) as [r1|] eqn:E; [|by right].
  destruct (bn_wexpand_spec malloc Hm _ _ _ (with_neg_wf r (bn_neg a) Hr) E) as (Hr1 & Hl1 & _ & _ & Hn1).
  destruct (lshift_all a n Ha Hn) as (W & L & V). set (ws := replicate _ 0 ++ _) in *. rewrite <- L.
  destruct (put_correct r1 ws) as (H1 & H2 & H3 & H4); [auto with vtls|done|lia|]. rewrite H3, V in *.
  split_and!; [done..|]. intros Hne. by rewrite (H4 Hne), Hn1.
Qed.

Lemma value_scale a r c : 0 < c → mag r = mag a * c → (mag r ≠ 0 → bn_neg r = bn_neg a) → value r = value a * c.
Proof.
  intros Hc Em Hn. unfold value. destruct (decide (mag r = 0)) as [E|E].
  - assert (mag a = 0) as -> by nia. rewrite E. by destruct (bn_neg r), (bn_neg a).
  - rewrite (Hn E), Em. destruct (bn_neg a); lia.
Qed.

(** A left shift multiplies by the power of two, for numbers of either sign and
    shifts of any number of words and bits, and fails only for a negative shift or
    when the result array cannot grow. *)
Theorem BN_lshift_correct malloc r a n ok r' : malloc_ok malloc → wf r → wf a → BN_lshift malloc r a n = (ok, r') →
  if ok then wf r' ∧ canonical r' ∧ value r' = value a * 2 ^ n
  else n < 0 ∨ bn_wexpand malloc (with_neg r (bn_neg a)) (bn_top a + Z.to_nat (n / 64) + 1) = None.
Proof.
  intros Hm Hr Ha E. pose proof (BN_lshift_spec malloc r a n Hm Hr Ha) as H. rewrite E in H. destruct ok; [|done].
  destruct H as (Hn & H1 & H2 & H3 & H4). split_and!; [done..|]. apply value_scale; [apply Z.pow_pos_nonneg; lia|done..].
Qed.

Lemma BN_lshift_correct_witness :
  ∃ r', BN_lshift pool BN_new (mkBN [2 ^ 63; 5] 2 true false) 65 = (true, r') ∧ wf r' ∧ value r' = - (2 ^ 63 + 5 * 2 ^ 64) * 2 ^ 65.
Proof.
  assert (wf BN_new ∧ wf (mkBN [2 ^ 63; 5] 2 true false)) as (H1 & H2) by (by apply (bool_decide_unpack _)).
  eexists. split; [reflexivity|].
  destruct (BN_lshift_correct pool _ _ 65 true _ pool_ok H1 H2 eq_refl) as (H3 & _ & H4). split; [exact H3|exact H4].
Defined.

(** The number of words that a value needs. *)
Lemma len_of_val ws : words ws → length ws = 0%nat ∨ nthZ ws (length ws - 1) ≠ 0 →
  Z.of_nat (length ws) = if val ws =? 0 then 0 else Z.log2 (val ws) / 64 + 1.
Proof.
  intros Hw Hl. destruct (length ws) as [|n] eqn:E; [by destruct ws|]. destruct Hl as [?|Hl]; [done|].
  replace (S n - 1)%nat with n in Hl by lia. pose proof (nthZ_word ws n Hw) as Wn. unfold word in Wn.
  pose proof (val_bound ws Hw) as Hb. rewrite E in Hb.
  pose proof (val_of_lead ws n Hw E Hl) as Hlow.
  assert (0 < base ^ Z.of_nat n) by (apply Z.pow_pos_nonneg; [done|lia]). destruct (Z.eqb_spec (val ws) 0); [lia|].
  unfold base in *. rewrite <- !Z.pow_mul_r in * by lia.
  assert (64 * Z.of_nat n ≤ Z.log2 (val ws)) by (apply Z.log2_le_pow2; lia).
  assert (Z.log2 (val ws) < 64 * Z.of_nat (S n)) by (apply Z.log2_lt_pow2; lia).
  rewrite <- (Z.div_unique (Z.log2 (val ws)) 64 (Z.of_nat n) (Z.log2 (val ws) - 64 * Z.of_nat n)); lia.
Qed.

Lemma log2_shiftr a n : 0 < a → 0 ≤ n → a / 2 ^ n ≠ 0 → Z.log2 (a / 2 ^ n) = Z.log2 a - n.
Proof.
  intros Ha Hn Hne. rewrite <- Z.shiftr_div_pow2, Z.log2_shiftr by lia. apply Z.max_r.
  destruct (Z.lt_ge_cases (Z.log2 a) n) as [H|H]; [|lia]. contradict Hne. apply Z.div_small. split; [lia|].
  apply Z.log2_lt_pow2; lia.
Qed.

(** The size that the source computes is that of the quotient. *)
Lemma rshift_size a n ws : wf a → 0 < mag a → 0 ≤ n → n < 64 * Z.of_nat (bn_top a) → words ws →
  length ws = 0%nat ∨ nthZ ws (length ws - 1) ≠ 0 → val ws = mag a / 2 ^ n →
  Z.to_nat ((BN_num_bits a - n + (BN_BITS2 - 1)) / BN_BITS2) = length ws.
Proof.
  intros Ha Hp Hn Hlt Hw Hl Hv. pose proof (len_of_val ws Hw Hl) as E. rewrite BN_num_bits_spec by done. unfold BN_BITS2.
  destruct (Z.eqb_spec (mag a) 0); [lia|]. destruct (Z.eqb_spec (val ws) 0) as [Ez|Ez].
  - rewrite Hv in Ez. apply Z.div_small_iff in Ez; [|pose proof (Z.pow_pos_nonneg 2 n); lia].
    assert (Z.log2 (mag a) < n) by (apply Z.log2_lt_pow2; [lia|]; pose proof (Z.pow_pos_nonneg 2 n); lia).
    assert (64 * (Z.of_nat (bn_top a) - 1) ≤ Z.log2 (mag a)).
    { destruct (bn_top a) as [|t] eqn:Et; [lia|]. apply Z.log2_le_pow2; [lia|]. pose proof (mag_lower a t Ha Et) as Hlow.
      unfold base in Hlow. rewrite <- Z.pow_mul_r in Hlow by lia. replace (64 * (Z.of_nat (S t) - 1)) with (64 * Z.of_nat t) by lia. done. }
    rewrite Z.div_small; lia.
  - rewrite Hv in *. rewrite log2_shiftr in E by lia.
    replace (Z.log2 (mag a) + 1 - n + (64 - 1)) with (Z.log2 (mag a) - n + 1 * 64) by lia. rewrite Z.div_add by lia. lia.
Qed.

(** The words that a right shift stores. *)
Definition rshift_stored (l : Z) (f' : list Z) (rb : Z) : list Z :=
  if rb =? 0 then l :: f'
  else let '(t, l) := rshift_words l f' rb in if nonzero l then t ++ [l] else t.

Lemma nthZ_snoc t x : nthZ (t ++ [x]) (length t) = x.
Proof. unfold nthZ. by rewrite app_nth2, Nat.sub_diag by lia. Qed.

Lemma rshift_stored_spec l f rb : words (l :: f) → 0 ≤ rb < 64 → nthZ (l :: f) (length f) ≠ 0 →
  let ws := rshift_stored l f rb in
  words ws ∧ (length ws ≤ S (length f))%nat ∧ val ws = val (l :: f) / 2 ^ rb ∧ (length ws = 0%nat ∨ nthZ ws (length ws - 1) ≠ 0).
Proof.
  intros Hw Hrb Hlead ws. subst ws. unfold rshift_stored. pose proof Hw as Hw'. apply Forall_cons_1 in Hw' as [Hl Hf].
  destruct (Z.eqb_spec rb 0) as [->|E].
  { rewrite Z.div_1_r. split_and!; [done|done|done|]. right. cbn [length]. by replace (S (length f) - 1)%nat with (length f) by lia. }
  pose proof (rshift_words_spec rb f l Hf Hl ltac:(lia)) as H. destruct (rshift_words l f rb) as [t l'].
  destruct H as (H1 & H2 & H3 & H4 & H5). unfold nonzero. destruct (Z.eqb_spec l' 0) as [Ez|Ez]; cbn [negb].
  - assert (val t = val (l :: f) / 2 ^ rb) as Hv by (rewrite <- H4, val_app, Ez; cbn [val]; lia). split_and!; [done|lia|done|].
    destruct t as [|x t]; [by left|]. right. cbn [length] in *. replace (S (length t) - 1)%nat with (length t) by lia.
    apply lead_of_val; [done|done|]. rewrite Hv.
    assert (base ^ Z.of_nat (S (length t)) ≤ val (l :: f)) as Hlow.
    { apply val_of_lead; [done|cbn; lia|]. by rewrite H3. }
    apply Z.div_le_lower_bound; [apply Z.pow_pos_nonneg; lia|]. rewrite Nat2Z.inj_succ, Z.pow_succ_r in Hlow by lia.
    assert (2 ^ rb ≤ base) by (unfold base; apply Z.pow_le_mono_r; lia).
    assert (0 < base ^ Z.of_nat (length t)) by (apply Z.pow_pos_nonneg; [done|lia]). nia.
  - rewrite length_app. cbn [length]. split_and!; [by apply words_snoc|lia|done|]. right.
    replace (length t + 1 - 1)%nat with (length t) by lia. by rewrite nthZ_snoc.
Qed.

Lemma rshift_all a n : wf a → 0 ≤ n → (Z.to_nat (n / 64) < bn_top a)%nat →
  ∃ l f, drop (Z.to_nat (n / 64)) (used a) = l :: f ∧
    let ws := rshift_stored l f (n mod 64) in
    words ws ∧ (length ws ≤ bn_top a)%nat ∧ val ws = mag a / 2 ^ n ∧ (length ws = 0%nat ∨ nthZ ws (length ws - 1) ≠ 0) ∧
    Z.to_nat ((BN_num_bits a - n + (BN_BITS2 - 1)) / BN_BITS2) = length ws.
Proof.
  intros Ha Hn Eo. pose proof (Z.mod_pos_bound n 64 ltac:(lia)) as Hb. pose proof (Z.div_mod n 64 ltac:(lia)) as En.
  pose proof (Z.div_pos n 64 Hn ltac:(lia)) as Hd. set (nw := Z.to_nat (n / 64)) in *. pose proof (length_used a Ha) as Lu.
  destruct (used_lead a Ha) as [?|Hlead]; [lia|]. rewrite Lu in Hlead.
  destruct (drop nw (used a)) as [|l f] eqn:Ed.
  { apply (f_equal length) in Ed. rewrite length_drop in Ed. cbn in Ed. lia. }
  exists l, f. split; [done|]. assert (words (l :: f)) as Wf by (rewrite <- Ed; auto with vtls).
  assert (S (length f) = (bn_top a - nw)%nat) as Lf by (apply (f_equal length) in Ed; rewrite length_drop in Ed; cbn in Ed; lia).
  assert (nthZ (l :: f) (length f) ≠ 0) as Hlf.
  { rewrite <- Ed. unfold nthZ. rewrite nth_skipn. fold (nthZ (used a) (nw + length f)). by replace (nw + length f)%nat with (bn_top a - 1)%nat by lia. }
  destruct (rshift_stored_spec l f (n mod 64) Wf Hb Hlf) as (W & L & V & Hl).
  assert (val (rshift_stored l f (n mod 64)) = mag a / 2 ^ n) as Vn.
  { rewrite V, <- Ed. destruct (split_used a nw Ha ltac:(lia)) as (W1 & W2 & L1 & L2 & Em). rewrite Em.
    rewrite En at 2. rewrite Z.pow_add_r, <- Z.div_div by (lia || (apply Z.pow_nonzero; lia) || (apply Z.pow_pos_nonneg; lia)). f_equal.
    replace (2 ^ (64 * (n / 64))) with (base ^ Z.of_nat nw) by (unfold base, nw; rewrite <- Z.pow_mul_r by lia; f_equal; lia).
    rewrite Z.add_comm, Z.mul_comm, Z.div_add_l by (apply Z.pow_nonzero; [done|lia]).
    rewrite Z.div_small; [lia|]. pose proof (val_bound _ W1) as B1. by rewrite L1 in B1. }
  assert (0 < mag a) as Hpos by (pose proof (mag_zero a Ha); pose proof (mag_bound a Ha); lia).
  split_and!; [done|lia|done|done|]. apply rshift_size; (done || lia).
Qed.

Lemma BN_rshift_spec malloc same r a n ok r' : malloc_ok malloc → wf r → wf a → (same = true → r = a) →
  BN_rshift malloc same r a n = (ok, r') →
  if ok then wf r' ∧ mag r' = mag a / 2 ^ n ∧ (mag r' ≠ 0 → bn_neg r' = bn_neg a)
  else n < 0 ∨ ∃ i, (i ≤ bn_top a)%nat ∧ bn_wexpand malloc (with_neg r (bn_neg a)) i = None.
Proof.
  intros Hm Hr Ha Hs. unfold BN_rshift. destruct (Z.ltb_spec n 0) as [Hn|Hn]; [intros [= <- <-]; by left|].
  change (n / BN_BITS2) with (n / 64). change (n mod BN_BITS2) with (n mod 64).
  pose proof (Z.mod_pos_bound n 64 ltac:(lia)) as Hb. pose proof (Z.div_mod n 64 ltac:(lia)) as En.
  pose proof (Z.div_pos n 64 Hn ltac:(lia)) as Hd. set (nw := Z.to_nat (n / 64)). pose proof (mag_bound a Ha) as Hmb.
  destruct ((bn_top a <=? nw)%nat || (bn_top a =? 0)%nat) eqn:Eo.
  { intros [= <- <-]. destruct (BN_zero_spec malloc r Hm Hr) as (H1 & H2 & _). split_and!; [done| |lia]. rewrite H2. symmetry.
    apply Z.div_small. split; [lia|]. apply Z.lt_le_trans with (base ^ Z.of_nat (bn_top a)); [lia|]. unfold base.
    rewrite <- Z.pow_mul_r by lia. apply Z.pow_le_mono_r; [lia|]. apply orb_true_iff in Eo as [Eo%Nat.leb_le|Eo%Nat.eqb_eq]; lia. }
  apply orb_false_iff in Eo as [Eo%Nat.leb_gt Et%Nat.eqb_neq].
  destruct (rshift_all a n Ha Hn Eo) as (l & f & Ed & W & L & V & Hl & Ei). fold nw in Ed. rewrite Ed, Ei.
  destruct (same && (n =? 0)) eqn:Es.
  { apply andb_true_iff in Es as [-> ->%Z.eqb_eq]. intros [= <- <-]. rewrite (Hs eq_refl), Z.div_1_r. done. }
  set (ws := rshift_stored l f (n mod 64)) in *. set (r1 := if same then r else with_neg r (bn_neg a)).
  assert (wf r1 ∧ bn_neg r1 = bn_neg a) as [Hr1 Hn1].
  { subst r1. destruct same; [by rewrite (Hs eq_refl)|]. split; [by apply with_neg_wf|done]. }
  assert (∀ r2, wf r2 → bn_neg r2 = bn_neg a → (length ws ≤ length (bn_d r2))%nat →
    (if n mod 64 =? 0 then (true, put (with_top r2 (length ws)) (l :: f))
     else let '(t, l) := rshift_words l f (n mod 64) in (true, put (with_top r2 (length ws)) (if nonzero l then t ++ [l] else t))) = (ok, r') →
    if ok then wf r' ∧ mag r' = mag a / 2 ^ n ∧ (mag r' ≠ 0 → bn_neg r' = bn_neg a) else False) as Hput.
  { intros r2 Hr2 Hn2 Hl2. assert (∀ x, (true, put (with_top r2 (length ws)) ws) = x →
      (if n mod 64 =? 0 then (true, put (with_top r2 (length ws)) (l :: f))
       else let '(t, l) := rshift_words l f (n mod 64) in (true, put (with_top r2 (length ws)) (if nonzero l then t ++ [l] else t))) = x) as Hx.
    { intros x <-. unfold ws, rshift_stored. destruct (n mod 64 =? 0); [done|]. by destruct (rshift_words l f (n mod 64)). }
    rewrite (Hx _ eq_refl). intros [= <- <-]. destruct (put_wf r2 ws (bn_neg r2)) as (P1 & _ & P2 & P3); [apply Hr2|done..|].
    split_and!; [exact P1|rewrite <- V; exact P2|done]. }
  destruct same.
  - intros Eq. specialize (Hput r1 Hr1 Hn1). destruct ok; [apply Hput|exfalso; apply Hput]; try exact Eq;
      subst r1; rewrite (Hs eq_refl); pose proof (wf_top a Ha); lia.
  - destruct (bn_wexpand malloc r1 (length ws)) as [r2|] eqn:E; [|intros [= <- <-]; right; by exists (length ws)].
    destruct (bn_wexpand_spec malloc Hm _ _ _ Hr1 E) as (Hr2 & Hl2 & _ & _ & Hn2). rewrite Hn1 in Hn2.
    intros Eq. specialize (Hput r2 Hr2 Hn2 Hl2). destruct ok; [by apply Hput|exfalso; by apply Hput].
Qed.

(** A right shift divides the magnitude by the power of two, rounding down, and
    keeps the sign of a result that is not zero; the size it computes beforehand from
    the number of bits is the one of the result.  It fails only for a negative shift
    or when the result array cannot grow. *)
Theorem BN_rshift_correct malloc same r a n ok r' : malloc_ok malloc → wf r → wf a → (same = true → r = a) →
  BN_rshift malloc same r a n = (ok, r') →
  if ok then wf r' ∧ mag r' = mag a / 2 ^ n ∧ (mag r' ≠ 0 → bn_neg r' = bn_neg a)
  else n < 0 ∨ ∃ i, (i ≤ bn_top a)%nat ∧ bn_wexpand malloc (with_neg r (bn_neg a)) i = None.
Proof. apply BN_rshift_spec. Qed.

Lemma BN_rshift_correct_witness :
  ∃ r', BN_rshift pool true (mkBN [5; 3] 2 true false) (mkBN [5; 3] 2 true false) 65 = (true, r') ∧ wf r' ∧ mag r' = 1.
Proof.
  assert (wf (mkBN [5; 3] 2 true false)) as H by (by apply (bool_decide_unpack _)).
  eexists. split; [reflexivity|].
  destruct (BN_rshift_correct pool true _ _ 65 true _ pool_ok H H ltac:(done) eq_refl) as (H1 & H2 & _). split; [exact H1|exact H2].
Defined.

(** The sign is not cleared when everything is shifted out. *)
Lemma rshift_negative_zero :
  BN_rshift pool true (mkBN [1] 1 true false) (mkBN [1] 1 true false) 1 = (true, mkBN [1] 0 true false) ∧
  BN_rshift1 pool true (mkBN [1] 1 true false) (mkBN [1] 1 true false) = (true, mkBN [1] 0 true false).
Proof. by split. Qed.

(** ** Shifts by one bit *)

Lemma BN_lshift1_spec malloc same r a : malloc_ok malloc → wf r → wf a → (same = true → r = a) →
  let '(ok, r') := BN_lshift1 malloc same r a in
  if ok then wf r' ∧ value r' = 2 * value a else bn_wexpand malloc (with_neg r (bn_neg a)) (bn_top a + 1) = None.
Proof.
  intros Hm Hr Ha Hs. unfold BN_lshift1. set (r1 := if same then r else with_neg r (bn_neg a)).
  assert (r1 = with_neg r (bn_neg a)) as E1 by (subst r1; destruct same; [rewrite (Hs eq_refl); by destruct a|done]). rewrite E1. clear r1 E1.
  destruct (bn_wexpand malloc (with_neg r (bn_neg a)) (bn_top a + 1)) as [r1|] eqn:E; [|done].
  destruct (bn_wexpand_spec malloc Hm _ _ _ (with_neg_wf r _ Hr) E) as (Hr1 & Hl1 & _ & Ht1 & Hn1). cbn [with_neg bn_top bn_neg] in Ht1, Hn1.
  assert ((if same then r1 else with_top r1 (bn_top a)) = with_top r1 (bn_top a)) as ->.
  { destruct same; [|done]. rewrite (Hs eq_refl) in Ht1. rewrite <- Ht1. by destruct r1. }
  pose proof (length_used a Ha) as Lu. pose proof (lshift1_words_spec (used a) 0 ltac:(auto with vtls) ltac:(lia)) as H.
  destruct (lshift1_words (used a) 0) as [ws c]. destruct H as (W & L & Hc & V). rewrite Lu in L, V. fold (mag a) in V. rewrite Z.add_0_r in V.
  assert (∀ m, m = 2 * mag a → (if bn_neg a then - m else m) = 2 * value a) as Hval by (intros m ->; unfold value; destruct (bn_neg a); lia).
  unfold nonzero. destruct (Z.eqb_spec c 0) as [->|Hc0]; cbn [negb].
  - destruct (put_val r1 ws (bn_neg a)) as (P1 & P2 & P3); [auto with vtls|done|lia| |].
    { intros n Hn. rewrite L in Hn. pose proof (mag_lower a n Ha Hn). assert (0 < base ^ Z.of_nat n) by (apply Z.pow_pos_nonneg; [done|lia]). lia. }
    assert (put (with_top r1 (bn_top a)) ws = with_neg (with_top (put r1 ws) (length ws)) (bn_neg a)) as ->.
    { unfold put, with_top, with_neg, with_d. cbn [bn_top bn_d bn_neg bn_static]. by rewrite Hn1, <- L. }
    split; [exact P1|]. unfold value at 1. rewrite P3, P2. apply Hval. lia.
  - assert (c = 1) as -> by lia. assert (length (ws ++ [1]) = (bn_top a + 1)%nat) as L1 by (rewrite length_app; cbn; lia).
    destruct (put_val r1 (ws ++ [1]) (bn_neg a)) as (P1 & P2 & P3); [auto with vtls|by apply words_snoc|lia| |].
    { intros n Hn. replace n with (bn_top a) by lia. rewrite val_app, L. cbn [val]. pose proof (val_bound ws W). lia. }
    assert (with_top (put (with_top r1 (bn_top a)) (ws ++ [1])) (bn_top (with_top r1 (bn_top a)) + 1) =
      with_neg (with_top (put r1 (ws ++ [1])) (length (ws ++ [1]))) (bn_neg a)) as ->.
    { unfold put, with_top, with_neg, with_d. cbn [bn_top bn_d bn_neg bn_static]. by rewrite L1, Hn1. }
    split; [exact P1|]. unfold value at 1. rewrite P3, P2. apply Hval. rewrite val_app, L. cbn [val]. lia.
Qed.

Lemma BN_rshift1_spec malloc same r a : malloc_ok malloc → wf r → wf a → (same = true → r = a) →
  let '(ok, r') := BN_rshift1 malloc same r a in
  if ok then wf r' ∧ mag r' = mag a / 2 ∧ (mag r' ≠ 0 → bn_neg r' = bn_neg a)
  else ∃ j, bn_wexpand malloc r j = None.
Proof.
  intros Hm Hr Ha Hs. unfold BN_rshift1, BN_is_zero. destruct (Nat.eqb_spec (bn_top a) 0) as [E|E].
  { destruct (BN_zero_spec malloc r Hm Hr) as (H1 & H2 & _). rewrite (proj2 (mag_zero a Ha) E), H2. split_and!; done. }
  destruct (bn_top a) as [|n] eqn:Et; [done|]. replace (S n - 1)%nat with n by lia. destruct (mag_lead a n Ha Et) as (Em & Hlead & Hlow).
  pose proof (length_used a Ha) as Lu. pose proof (rshift1_words_spec (used a) ltac:(auto with vtls)) as H.
  destruct (rshift1_words (used a)) as [ws c]. destruct H as (W & L & V & _). rewrite Lu, Et in L. fold (mag a) in V.
  set (x := nthZ (bn_d a) n) in *. set (j := if x =? 1 then n else S n).
  set (st := if nonzero (x ≫ 1) then ws else take n ws).
  assert (0 < base ^ Z.of_nat n) as Hp by (apply Z.pow_pos_nonneg; [done|lia]).
  assert (length st = j ∧ words st ∧ val st = mag a / 2 ∧ ∀ m, j = S m → base ^ Z.of_nat m ≤ mag a / 2) as (Lj & Wj & Vj & Bj).
  { subst st j. unfold nonzero. rewrite Z.shiftr_div_pow2 by lia. change (2 ^ 1) with 2.
    destruct (Z.eqb_spec x 1) as [Ex|Ex].
    - rewrite Ex in *. change (negb (1 `div` 2 =? 0)) with false. cbn iota.
      assert (mag a / 2 < base ^ Z.of_nat n) as Hs2 by (apply Z.div_lt_upper_bound; lia).
      pose proof (val_bound _ (words_take n ws W)) as Hb. pose proof (nthZ_word ws n W) as Wn. unfold word in Wn.
      rewrite <- (firstn_all ws), L, val_take_S in V by lia.
      assert (nthZ ws n = 0) as Ez by nia. rewrite Ez in V.
      split_and!; [rewrite length_take; lia|auto with vtls|lia|]. intros m ->. apply Z.div_le_lower_bound; [lia|].
      rewrite Nat2Z.inj_succ, Z.pow_succ_r in * by lia. unfold base in *. lia.
    - assert (1 ≤ x `div` 2) by (apply Z.div_le_lower_bound; lia). destruct (Z.eqb_spec (x `div` 2) 0); [lia|]. cbn [negb].
      split_and!; [done|done|done|]. intros m [= <-]. apply Z.div_le_lower_bound; [lia|nia]. }
  set (o := if same then Some r else bn_wexpand malloc r j).
  destruct o as [r1|] eqn:Eo; [|subst o; destruct same; [done|by eexists]].
  assert (wf r1 ∧ (j ≤ length (bn_d r1))%nat ∧ (same = true → r1 = a)) as (Hr1 & Hl1 & Hs1).
  { subst o. destruct same; [|destruct (bn_wexpand_spec malloc Hm _ _ _ Hr Eo) as (? & ? & _); done].
    injection Eo as <-. rewrite (Hs eq_refl). split_and!; [done| |done]. pose proof (wf_top a Ha). subst j. case_cmp; lia. }
  rewrite <- Lj. set (r2 := if same then r1 else with_neg r1 (bn_neg a)).
  assert (wf r2 ∧ bn_neg r2 = bn_neg a ∧ bn_d r2 = bn_d r1) as (Hr2 & Hn2 & Hd2).
  { subst r2. destruct same; [by rewrite (Hs1 eq_refl)|]. split_and!; [by apply with_neg_wf|done..]. }
  destruct (put_val r2 st (bn_neg r2)) as (P1 & P2 & P3); [auto with vtls|done|rewrite Hd2; lia| |].
  { intros m Hm'. rewrite Vj. apply Bj. by rewrite <- Lj. }
  split_and!; [exact P1|rewrite <- Vj; exact P2|done].
Qed.
