(* ===== verification/BnWord.v ===== *)
(** * Big numbers and single words

    Models [crypto/bn/bn_word.c].  [BN_add_word] and [BN_sub_word] call each other
    with the sign removed; the part of each that the other reaches that way, the
    loop over a number that is neither zero nor negative, is a definition of its
    own.  A loop whose end the source does not test returns [None] where it would
    run past the words in use. *)

From S2P Require Import Prelude BnWords BnDivWords Bn BnAdd BnShift.

Definition MINUS_1 : Z := BN_MASK2.

(** ** Division and remainder *)

(** From the most significant word down, with a double-length type and with halves
    of words. *)
Fixpoint mod_words_llong (d : list Z) (w : Z) : Z :=
  match d with
  | [] => 0
  | x :: d => Z.lor (mod_words_llong d w ≪ BN_BITS2) x mod w
  end.

Fixpoint mod_words_halves (d : list Z) (w : Z) : Z :=
  match d with
  | [] => 0
  | x :: d =>
      let ret := mod_words_halves d w in
      let ret := Z.lor (u64 (ret ≪ BN_BITS4)) (Z.land (x ≫ BN_BITS4) BN_MASK2l) mod w in
      Z.lor (u64 (ret ≪ BN_BITS4)) (Z.land x BN_MASK2l) mod w
  end.

Section bn_word.
Context (malloc : nat → option (list Z)) (k : cfg) (div2w : bool).

(** The quotient's words and the remainder. *)
Fixpoint div_words_loop (d : list Z) (w : Z) : option (list Z * Z) :=
  match d with
  | [] => Some ([], 0)
  | l :: d =>
      match div_words_loop d w with
      | None => None
      | Some (qs, ret) =>
          match bn_div_words div2w ret l w with
          | None => None
          | Some q => Some (q :: qs, Z.land (u64 (l - Z.land (u64 (q * w)) BN_MASK2)) BN_MASK2)
          end
      end
  end.

Definition BN_div_word (a : BIGNUM) (w : Z) : option (Z * BIGNUM) :=
  if w =? 0 then Some (MINUS_1, a)
  else if (bn_top a =? 0)%nat then Some (0, a)
  else
    let j := BN_BITS2 - BN_num_bits_word w in
    let w := u64 (w ≪ j) in
    let '(ok, a) := BN_lshift malloc a a j in
    if negb ok then Some (MINUS_1, a)
    else
      match div_words_loop (used a) w with
      | None => None
      | Some (qs, ret) =>
          let a := put a qs in
          let a :=
            if (0 <? bn_top a)%nat && (nthZ (bn_d a) (bn_top a - 1) =? 0) then with_top a (bn_top a - 1) else a in
          Some (ret ≫ j, a)
      end.

Definition BN_mod_word (a : BIGNUM) (w : Z) : option Z :=
  if w =? 0 then Some MINUS_1
  else
    match k with
    | BN_LLONG => Some (mod_words_llong (used a) w)
    | _ =>
        if 2 ^ BN_BITS4 <? w then
          match BN_dup malloc a with
          | None => Some MINUS_1
          | Some tmp => match BN_div_word tmp w with None => None | Some (ret, _) => Some ret end
          end
        else Some (mod_words_halves (used a) w)
    end.

(** ** Addition and subtraction *)

Fixpoint add_word_loop (d : list Z) (w : Z) : list Z * Z :=
  match d with
  | [] => ([], w)
  | x :: d' =>
      if nonzero w then
        let l := Z.land (u64 (x + w)) BN_MASK2 in
        let '(rs, w) := add_word_loop d' (if l <? w then 1 else 0) in (l :: rs, w)
      else (d, w)
  end.

Definition add_word_pos (a : BIGNUM) (w : Z) : bool * BIGNUM :=
  let '(ws, w) := add_word_loop (used a) w in
  let a := put a ws in
  if nonzero w then
    match bn_wexpand malloc a (bn_top a + 1) with
    | None => (false, a)
    | Some a => (true, with_d (with_top a (bn_top a + 1)) (<[bn_top a := w]> (bn_d a)))
    end
  else (true, a).

(** The words and the index at which the borrow ends. *)
Fixpoint sub_word_loop (d : list Z) (w : Z) : option (list Z * nat) :=
  match d with
  | [] => None
  | x :: d =>
      if w <=? x then Some (x - w :: d, 0%nat)
      else
        match sub_word_loop d 1 with
        | None => None
        | Some (rs, i) => Some (Z.land (u64 (x - w)) BN_MASK2 :: rs, S i)
        end
  end.

Definition sub_word_pos (a : BIGNUM) (w : Z) : option (bool * BIGNUM) :=
  if (bn_top a =? 1)%nat && (nthZ (bn_d a) 0 <? w) then
    Some (true, with_neg (with_d a (<[0%nat := w - nthZ (bn_d a) 0]> (bn_d a))) true)
  else
    match sub_word_loop (used a) w with
    | None => None
    | Some (ws, i) =>
        let a := put a ws in
        Some (true, if (nthZ (bn_d a) i =? 0) && (i =? bn_top a - 1)%nat then with_top a (bn_top a - 1) else a)
    end.

Definition BN_add_word (a : BIGNUM) (w : Z) : option (bool * BIGNUM) :=
  if w =? 0 then Some (true, a)
  else if BN_is_zero a then Some (BN_set_word malloc a w)
  else if bn_neg a then
    match sub_word_pos (with_neg a false) w with
    | None => None
    | Some (i, a) => Some (i, if BN_is_zero a then a else with_neg a (negb (bn_neg a)))
    end
  else Some (add_word_pos a w).

Definition BN_sub_word (a : BIGNUM) (w : Z) : option (bool * BIGNUM) :=
  if w =? 0 then Some (true, a)
  else if BN_is_zero a then
    let '(i, a) := BN_set_word malloc a w in
    Some (i, if i then BN_set_negative a true else a)
  else if bn_neg a then
    let '(i, a) := add_word_pos (with_neg a false) w in
    Some (i, with_neg a true)
  else sub_word_pos a w.

Definition BN_mul_word (a : BIGNUM) (w : Z) : bool * BIGNUM :=
  if BN_is_zero a then (true, a)
  else if w =? 0 then (true, BN_zero malloc a)
  else
    let '(ws, ll) := bn_mul_words k (used a) w in
    let a := put a ws in
    if nonzero ll then
      match bn_wexpand malloc a (bn_top a + 1) with
      | None => (false, a)
      | Some a => (true, with_top (with_d a (<[bn_top a := ll]> (bn_d a))) (bn_top a + 1))
      end
    else (true, a).

End bn_word.

(** ** The remainder *)

Lemma mod_base_step h x w : 0 < w → (h mod w * base + x) mod w = (x + base * h) mod w.
Proof.
  intros Hw. rewrite Z.add_mod, Z.mul_mod_idemp_l, <- Z.add_mod by lia. f_equal. lia.
Qed.

Lemma mod_words_llong_spec d w : words d → 0 < w < base → mod_words_llong d w = val d mod w.
Proof.
  intros Hd Hw. induction Hd as [|x d Hx Hd IH]; cbn [mod_words_llong val]; [by rewrite Z.mod_0_l by lia|].
  unfold BN_BITS2, word in *. rewrite IH, lor_shiftl_add by lia. fold base. apply mod_base_step; lia.
Qed.

Lemma mod_words_halves_spec d w : words d → 0 < w ≤ 2 ^ 32 → mod_words_halves d w = val d mod w.
Proof.
  intros Hd Hw. induction Hd as [|x d Hx Hd IH]; cbn [mod_words_halves val]; [by rewrite Z.mod_0_l by lia|].
  assert (∀ r y, 0 ≤ r < w → 0 ≤ y < 2 ^ 32 → Z.lor (u64 (r ≪ BN_BITS4)) y mod w = (r * 2 ^ 32 + y) mod w) as Hstep.
  { intros r y Hr Hy. unfold BN_BITS4. rewrite u64_small, lor_shiftl_add by (rewrite ?Z.shiftl_mul_pow2 by lia; lia). done. }
  destruct (halves x Hx) as (Ex & Hh & Hl). fold (HBITS x). fold (LBITS x). rewrite IH.
  rewrite (Hstep (val d mod w) (HBITS x)) by (done || apply Z.mod_pos_bound; lia).
  rewrite Hstep by (done || apply Z.mod_pos_bound; lia). rewrite Ex at 3.
  rewrite Z.add_mod, Z.mul_mod_idemp_l, <- Z.add_mod by lia.
  replace ((val d mod w * 2 ^ 32 + HBITS x) * 2 ^ 32 + LBITS x) with (val d mod w * base + (HBITS x * 2 ^ 32 + LBITS x)) by (unfold base; lia).
  apply mod_base_step; lia.
Qed.

Section word_specs.
Context (malloc : nat → option (list Z)) (k : cfg) (div2w : bool) (Hm : malloc_ok malloc).

Lemma div_words_loop_spec d w : words d → 0 < w < base →
  ∃ qs, div_words_loop div2w d w = Some (qs, val d mod w) ∧ words qs ∧ length qs = length d ∧ val qs = val d / w.
Proof.
  intros Hd Hw. induction Hd as [|l d Hl Hd (qs & E & Wq & Lq & Vq)]; cbn [div_words_loop].
  { exists []. cbn [val]. by rewrite Z.mod_0_l, Z.div_0_l by lia. }
  rewrite E. pose proof (Z.mod_pos_bound (val d) w ltac:(lia)) as Hr. pose proof (Z.div_mod (val d) w ltac:(lia)) as Ed.
  unfold base, word in *. rewrite bn_div_words_spec by (unfold word; lia). set (r := val d mod w) in *.
  pose proof (Z.div_mod (r * 2 ^ 64 + l) w ltac:(lia)) as Eq. pose proof (Z.mod_pos_bound (r * 2 ^ 64 + l) w ltac:(lia)) as Hq.
  set (q := (r * 2 ^ 64 + l) `div` w) in *. assert (0 ≤ q < 2 ^ 64) as Bq.
  { split; [apply Z.div_pos; lia|apply Z.div_lt_upper_bound; lia]. }
  exists (q :: qs).
  assert (val (l :: d) = (q + 2 ^ 64 * (val d / w)) * w + (r * 2 ^ 64 + l) mod w) as EV.
  { cbn [val]. unfold base. lia. }
  assert (Z.land (u64 (l - Z.land (u64 (q * w)) BN_MASK2)) BN_MASK2 = val (l :: d) mod w) as ->.
  { rewrite (mask_word (u64 (q * w))) by apply word_u64. rewrite mask_word by apply word_u64.
    rewrite EV, Z.add_comm, Z.mod_add, Z.mod_mod by lia. unfold u64. rewrite Zminus_mod_idemp_r.
    symmetry. apply (Z.mod_unique _ _ (- r)); lia. }
  split_and!; [done|by apply Forall_cons_2|cbn; lia|]. rewrite EV, Z.add_comm, Z.div_add, (Z.div_small (_ mod _)) by lia.
  cbn [val]. rewrite Vq. unfold base. lia.
Qed.

(** At most one leading word of the quotient is zero. *)
Lemma quotient_lead d w n : words d → length d = S n → nthZ d n ≠ 0 → 0 < w < base → n ≠ 0%nat →
  base ^ (Z.of_nat n - 1) ≤ val d / w.
Proof.
  intros Hd Hl Hlead Hw Hn. pose proof (val_of_lead d n Hd Hl Hlead) as Hv. apply Z.div_le_lower_bound; [lia|].
  assert (base ^ Z.of_nat n = base * base ^ (Z.of_nat n - 1)) as E by (rewrite <- Z.pow_succ_r by lia; f_equal; lia).
  assert (0 < base ^ (Z.of_nat n - 1)) by (apply Z.pow_pos_nonneg; [done|lia]). nia.
Qed.

Lemma drop_zero_top a t ws : bn_top a = S t → words (bn_d a) → words ws → length ws = S t → (S t ≤ length (bn_d a))%nat →
  (t ≠ 0%nat → base ^ (Z.of_nat t - 1) ≤ val ws) →
  let b := put a ws in
  let r := if nthZ (bn_d b) t =? 0 then with_top b t else b in
  wf r ∧ mag r = val ws ∧ bn_neg r = bn_neg a.
Proof.
  intros Ht Hd Hw Hl Hlen Hv b r.
  assert (∀ i, (i < S t)%nat → nthZ (bn_d b) i = nthZ ws i) as Hnth.
  { intros i Hi. rewrite <- (nthZ_take (length ws)) by lia. subst b. cbn [put with_d bn_d]. by rewrite put_used by lia. }
  assert (val ws = val (take t ws) + base ^ Z.of_nat t * nthZ ws t) as EV.
  { rewrite <- (firstn_all ws) at 1. by rewrite Hl, val_take_S by lia. }
  subst r. rewrite Hnth by lia. destruct (Z.eqb_spec (nthZ ws t) 0) as [E|E].
  - assert (val (take t ws) = val ws) as Et by (rewrite EV, E; lia).
    assert (length (take t ws) = t) as Lt by (rewrite length_take; lia).
    assert (take t (bn_d b) = take t ws) as Etk.
    { subst b. cbn [put with_d bn_d]. replace (take t (splice (bn_d a) 0 ws)) with (take t (take (length ws) (splice (bn_d a) 0 ws))).
      - by rewrite put_used by lia.
      - rewrite take_take. f_equal. lia. }
    split_and!; [|unfold mag, used; cbn [with_top bn_top bn_d]; by rewrite Etk|done].
    constructor; cbn [with_top bn_d bn_top].
    + subst b. cbn [put with_d bn_d]. auto with vtls.
    + subst b. rewrite length_put; lia.
    + destruct t as [|t]; [by left|]. right. replace (S t - 1)%nat with t by lia.
      rewrite <- (nthZ_take (S t)), Etk by lia. apply lead_of_val; [auto with vtls|done|].
      rewrite Et. replace (Z.of_nat t) with (Z.of_nat (S t) - 1) by lia. apply Hv. done.
  - assert (take (S t) (bn_d b) = ws) as Etk by (subst b; cbn [put with_d bn_d]; rewrite <- Hl, put_used by lia; done).
    split_and!; [|unfold mag, used; change (bn_top b) with (bn_top a); by rewrite Ht, Etk|done].
    constructor.
    + subst b. cbn [put with_d bn_d]. auto with vtls.
    + change (bn_top b) with (bn_top a). subst b. rewrite length_put; lia.
    + change (bn_top b) with (bn_top a). rewrite Ht. right. replace (S t - 1)%nat with t by lia. by rewrite Hnth by lia.
Qed.

Lemma BN_div_word_spec a w : wf a → 0 < w < base →
  ∃ ret a', BN_div_word malloc div2w a w = Some (ret, a') ∧
    ((wf a' ∧ mag a' = mag a / w ∧ ret = mag a mod w ∧ (mag a' ≠ 0 → bn_neg a' = bn_neg a)) ∨
     (ret = MINUS_1 ∧ bn_wexpand malloc a (bn_top a + 1) = None)).
Proof.
  intros Ha Hw. unfold BN_div_word. destruct (Z.eqb_spec w 0) as [|_]; [lia|].
  destruct (Nat.eqb_spec (bn_top a) 0) as [Et|Et].
  { eexists _, _. split; [done|]. left. rewrite (proj2 (mag_zero a Ha) Et). by rewrite Z.div_0_l, Z.mod_0_l by lia. }
  rewrite BN_num_bits_word_spec by (unfold word, base in *; lia). destruct (Z.eqb_spec w 0) as [|_]; [lia|].
  pose proof (Z.log2_spec w ltac:(lia)) as Hlog. pose proof (Z.log2_nonneg w) as Hln.
  assert (Z.log2 w < 64) as Hl64 by (apply Z.log2_lt_pow2; unfold base in *; lia).
  unfold BN_BITS2. set (j := 64 - (Z.log2 w + 1)).
  assert (0 < 2 ^ j) as Hj by (apply Z.pow_pos_nonneg; lia).
  assert (0 < w * 2 ^ j < base) as Hwj.
  { split; [nia|]. unfold base. replace (2 ^ 64) with (2 ^ Z.succ (Z.log2 w) * 2 ^ j) by (rewrite <- Z.pow_add_r by lia; f_equal; lia). nia. }
  rewrite Z.shiftl_mul_pow2, u64_small by (unfold base in *; lia).
  pose proof (BN_lshift_spec malloc a a j Hm Ha Ha) as H. destruct (BN_lshift malloc a a j) as [ok a1]. destruct ok; cbn [negb].
  2:{ eexists _, _. split; [done|]. right. split; [done|]. destruct H as [?|H]; [lia|].
      rewrite (Z.div_small j 64), Nat.add_0_r in H by lia. by replace (with_neg a (bn_neg a)) with a in H by (by destruct a). }
  destruct H as (_ & Ha1 & _ & Em & Hneg). assert (mag a ≠ 0) as Hne by (by rewrite (mag_zero a Ha)).
  pose proof (mag_bound a Ha) as Hb. assert (bn_top a1 ≠ 0%nat) as Et1 by (rewrite <- (mag_zero a1 Ha1), Em; nia).
  destruct (div_words_loop_spec (used a1) (w * 2 ^ j) ltac:(auto with vtls) Hwj) as (qs & -> & Wq & Lq & Vq).
  eexists _, _. split; [done|]. left. rewrite (length_used a1 Ha1) in Lq. fold (mag a1) in *.
  destruct (bn_top a1) as [|t] eqn:Ett; [done|].
  destruct (drop_zero_top a1 t qs Ett (wf_words _ Ha1) Wq Lq) as (D1 & D2 & D3).
  { pose proof (wf_top _ Ha1). lia. }
  { intros Ht. rewrite Vq. unfold mag. apply quotient_lead; [auto with vtls|by rewrite length_used| |done|done].
    destruct (used_lead a1 Ha1) as [HL|HL]; rewrite length_used, Ett in HL by done; [lia|]. by replace (S t - 1)%nat with t in HL by lia. }
  change (bn_top (put a1 qs)) with (bn_top a1). rewrite Ett. destruct (Nat.ltb_spec 0 (S t)); [|lia]. cbn [andb].
  replace (S t - 1)%nat with t by lia. rewrite D2, D3, Vq, Em. split_and!; [done| | |].
  - apply Z.div_mul_cancel_r; lia.
  - rewrite Z.mul_mod_distr_r, Z.shiftr_div_pow2, Z.div_mul by lia. done.
  - intros _. apply Hneg. rewrite Em. nia.
Qed.

Lemma BN_mod_word_spec a w : wf a → 0 < w < base →
  ∃ r, BN_mod_word malloc k div2w a w = Some r ∧
    (r = mag a mod w ∨ r = MINUS_1 ∧ ∃ b n, bn_wexpand malloc b n = None).
Proof.
  intros Ha Hw. unfold BN_mod_word. destruct (Z.eqb_spec w 0) as [|_]; [lia|].
  assert (∃ r, (if 2 ^ BN_BITS4 <? w then
      match BN_dup malloc a with
      | None => Some MINUS_1
      | Some tmp => match BN_div_word malloc div2w tmp w with None => None | Some (ret, _) => Some ret end
      end
    else Some (mod_words_halves (used a) w)) = Some r ∧ (r = mag a mod w ∨ r = MINUS_1 ∧ ∃ b n, bn_wexpand malloc b n = None)) as Hp.
  { destruct (Z.ltb_spec (2 ^ BN_BITS4) w) as [Hlt|Hge].
    - destruct (BN_dup malloc a) as [t|] eqn:E.
      + destruct (BN_dup_spec malloc a t Hm Ha E) as (Ht & Eu & _).
        destruct (BN_div_word_spec t w Ht Hw) as (ret & a' & -> & [(_ & _ & -> & _)|[-> H]]); eexists; (split; [done|]).
        * left. unfold mag. by rewrite Eu.
        * right. eauto.
      + eexists. split; [done|]. right. split; [done|]. unfold BN_dup in E.
        assert (wf BN_new) as Hn by (by apply (bool_decide_unpack _)). pose proof (BN_copy_spec malloc BN_new a Hm Hn Ha) as H.
        destruct (BN_copy malloc false BN_new a) as [[] x]; [done|]. destruct H as [_ H]. eauto.
    - eexists. split; [done|]. left. unfold BN_BITS4 in Hge. apply mod_words_halves_spec; [auto with vtls|lia]. }
  destruct k; [|done..]. eexists. split; [done|]. left. apply mod_words_llong_spec; [auto with vtls|done].
Qed.

(** ** Adding and subtracting a word *)

Lemma add_word_loop_spec d : ∀ w, words d → word w → d ≠ [] →
  let '(rs, c) := add_word_loop d w in
  words rs ∧ length rs = length d ∧ 0 ≤ c ≤ 1 ∧ val rs + base ^ Z.of_nat (length d) * c = val d + w.
Proof.
  induction d as [|x d IH]; intros w Hd Hw Hne; [done|]. apply Forall_cons_1 in Hd as [Hx Hd]. cbn [add_word_loop]. unfold nonzero.
  destruct (Z.eqb_spec w 0) as [->|Hw0]; cbn [negb].
  { split_and!; [by apply Forall_cons_2|done|lia|lia|lia]. }
  rewrite mask_word by apply word_u64. destruct (add_carry x w Hx Hw) as [E _]. fold (b2z (u64 (x + w) <? w)).
  set (c := b2z (u64 (x + w) <? w)) in *. assert (0 ≤ c ≤ 1) as Hc by (subst c; unfold b2z; by destruct (_ <? _)).
  destruct d as [|y d].
  - cbn [add_word_loop length val]. change (Z.of_nat 1) with 1. rewrite Z.pow_1_r.
    split_and!; [apply Forall_singleton, word_u64|done|lia|lia|lia].
  - pose proof (IH c Hd ltac:(unfold word; lia) ltac:(done)) as H. destruct (add_word_loop (y :: d) c) as [rs c'].
    destruct H as (H1 & H2 & H3 & H4). change (val (x :: y :: d)) with (x + base * val (y :: d)). cbn [val].
    change (length (x :: y :: d)) with (S (length (y :: d))). rewrite Nat2Z.inj_succ, Z.pow_succ_r by lia.
    cbn [val] in H4. apply (f_equal (Z.mul base)) in H4.
    split_and!; [apply Forall_cons_2; [apply word_u64|done]|cbn [length] in *; lia|lia|lia|lia].
Qed.

(** Storing one more word. *)
Lemma push_word a ws c s : words (bn_d a) → words ws → word c → c ≠ 0 → (length ws < length (bn_d a))%nat →
  take (length ws) (bn_d a) = ws →
  let r := mkBN (<[length ws := c]> (bn_d a)) (length ws + 1) s (bn_static a) in
  wf r ∧ mag r = val ws + base ^ Z.of_nat (length ws) * c.
Proof.
  intros Hd Hw Hc Hc0 Hl Et r. split.
  - constructor; cbn [r bn_d bn_top]; [auto with vtls|rewrite length_insert; lia|]. right.
    replace (length ws + 1 - 1)%nat with (length ws) by lia. rewrite nthZ_insert by lia. by rewrite decide_True.
  - unfold mag, used. cbn [r bn_d bn_top]. rewrite Nat.add_1_r, val_take_S by (rewrite length_insert; lia).
    rewrite nthZ_insert, decide_True, take_insert_ge, Et by (done || lia). done.
Qed.

(** Writing words over those in use and growing by a carry, as [BN_add_word] and
    [BN_mul_word] do. *)
Lemma put_and_push a ws c : wf a → words ws → length ws = bn_top a → bn_top a ≠ 0%nat → word c →
  mag a ≤ val ws + base ^ Z.of_nat (bn_top a) * c →
  let b := put a ws in
  if nonzero c then
    match bn_wexpand malloc b (bn_top b + 1) with
    | None => True
    | Some r => let r := mkBN (<[bn_top r := c]> (bn_d r)) (bn_top r + 1) (bn_neg r) (bn_static r) in
        wf r ∧ mag r = val ws + base ^ Z.of_nat (bn_top a) * c ∧ bn_neg r = bn_neg a
    end
  else wf b ∧ mag b = val ws ∧ bn_neg b = bn_neg a.
Proof.
  intros Ha Hw Hl Ht Hc Hle b. pose proof (wf_top _ Ha) as Htop. pose proof (wf_words _ Ha) as Hd.
  assert (used b = ws) as Hu by (unfold used, b; cbn [put with_d bn_d bn_top]; rewrite <- Hl, put_used by lia; done).
  unfold nonzero. destruct (Z.eqb_spec c 0) as [->|Hc0]; cbn [negb].
  - destruct (put_val a ws (bn_neg a) Hd Hw) as (P1 & P2 & P3); [lia| |].
    { intros n Hn. pose proof (mag_lower a n Ha ltac:(lia)). lia. }
    rewrite Hl in P1, P2. split_and!; [exact P1|exact P2|done].
  - unfold bn_wexpand, bn_expand2, bn_expand_internal. change (bn_top b) with (bn_top a). rewrite Hu.
    assert (length (bn_d b) = length (bn_d a)) as Lb by (apply length_put; lia).
    assert (words (bn_d b)) as Wb by (cbn [b put with_d bn_d]; auto with vtls).
    assert (take (bn_top a) (bn_d b) = ws) as Etk by exact Hu.
    destruct (Nat.leb_spec (bn_top a + 1) (length (bn_d b))) as [Hle1|Hlt1].
    + destruct (push_word b ws c (bn_neg a)) as [P1 P2]; [done..|lia|by rewrite Hl|]. rewrite Hl in P1, P2.
      split_and!; [exact P1|exact P2|done].
    + destruct (Nat.ltb_spec (length (bn_d b)) (bn_top a + 1)); [|lia]. destruct (INT_MAX / (4 * BN_BITS2) <? _); [done|].
      destruct (bn_static b) eqn:Es; [done|]. destruct (malloc (bn_top a + 1)) as [m|] eqn:Em; [|done].
      destruct (Hm _ _ Em) as [Lm Wm]. set (b2 := mkBN (splice m 0 ws) (bn_top a) (bn_neg b) false).
      assert (length (splice m 0 ws) = (bn_top a + 1)%nat) as Ls by (rewrite length_splice; lia).
      destruct (push_word b2 ws c (bn_neg a)) as [P1 P2]; cbn [b2 bn_d]; [auto with vtls|done|done|done|lia| |].
      { unfold splice. rewrite take_0. cbn [app]. by rewrite take_app_length. }
      rewrite Hl in P1, P2. split_and!; [exact P1|exact P2|done].
Qed.

Lemma add_word_pos_spec a w : wf a → bn_top a ≠ 0%nat → word w →
  let '(ok, r) := add_word_pos malloc a w in
  if ok then wf r ∧ mag r = mag a + w ∧ bn_neg r = bn_neg a else True.
Proof.
  intros Ha Ht Hw. unfold add_word_pos. pose proof (length_used a Ha) as Lu.
  pose proof (add_word_loop_spec (used a) w ltac:(auto with vtls) Hw) as H.
  destruct (add_word_loop (used a) w) as [ws c]. destruct H as (H1 & H2 & H3 & H4).
  { intros E. rewrite E in Lu. cbn in Lu. lia. }
  rewrite Lu in H2, H4. fold (mag a) in H4. unfold word in Hw.
  pose proof (put_and_push a ws c Ha H1 H2 Ht ltac:(unfold word; lia) ltac:(lia)) as P. cbn zeta in P. unfold nonzero in *.
  destruct (Z.eqb_spec c 0) as [->|]; cbn [negb] in *.
  - destruct P as (P1 & P2 & P3). split_and!; [done|lia|done].
  - destruct (bn_wexpand malloc (put a ws) _) as [r|]; [|done]. destruct P as (P1 & P2 & P3).
    split_and!; [exact P1|rewrite <- H4; exact P2|exact P3].
Qed.

Lemma BN_mul_word_spec a w : wf a → word w →
  let '(ok, r) := BN_mul_word malloc k a w in
  if ok then wf r ∧ mag r = mag a * w ∧ (mag r ≠ 0 → bn_neg r = bn_neg a) ∧ (canonical a → canonical r) else True.
Proof.
  intros Ha Hw. unfold BN_mul_word, BN_is_zero. destruct (Nat.eqb_spec (bn_top a) 0) as [Et|Et].
  { split_and!; [done| |done|done]. by rewrite (proj2 (mag_zero a Ha) Et). }
  destruct (Z.eqb_spec w 0) as [->|Hw0].
  { destruct (BN_zero_spec malloc a Hm Ha) as (Z1 & Z2 & Z3). rewrite Z2. split_and!; [done|lia|done|done]. }
  pose proof (length_used a Ha) as Lu.
  destruct (bn_mul_words_spec k (used a) w) as (H1 & H2 & H3 & H4); [auto with vtls|done|]. destruct (bn_mul_words k (used a) w) as [ws c].
  cbn [fst snd] in *. rewrite Lu in H3, H4. fold (mag a) in H4. unfold word in Hw. pose proof (mag_bound a Ha).
  pose proof (put_and_push a ws c Ha H1 H3 Et H2 ltac:(nia)) as P. cbn zeta in P. unfold nonzero in *.
  assert (mag a ≠ 0) as Hne by (by rewrite mag_zero).
  assert (∀ r, wf r → mag r = mag a * w → bn_neg r = bn_neg a →
    wf r ∧ mag r = mag a * w ∧ (mag r ≠ 0 → bn_neg r = bn_neg a) ∧ (canonical a → canonical r)) as Hfin.
  { intros r Hr Em En. split_and!; try done. intros _ Hz. apply mag_zero in Hz; [|done]. nia. }
  destruct (Z.eqb_spec c 0) as [->|]; cbn [negb] in *.
  - destruct P as (P1 & P2 & P3). apply Hfin; [done|lia|done].
  - destruct (bn_wexpand malloc (put a ws) _) as [r|]; [|done]. destruct P as (P1 & P2 & P3).
    apply Hfin; [exact P1|rewrite <- H4; exact P2|exact P3].
Qed.

Lemma sub_word_loop_spec d : ∀ w, words d → 0 < w < base → w ≤ val d →
  ∃ rs i, sub_word_loop d w = Some (rs, i) ∧ words rs ∧ length rs = length d ∧ val rs = val d - w ∧ (i < length d)%nat ∧
    ∀ j, (i < j)%nat → nthZ rs j = nthZ d j.
Proof.
  induction d as [|x d IH]; intros w Hd Hw Hle; cbn [sub_word_loop val] in *; [lia|].
  apply Forall_cons_1 in Hd as [Hx Hd]. unfold word in Hx. fold base in Hx. destruct (Z.leb_spec w x).
  - eexists _, _. split; [done|]. cbn [val length]. split_and!; [|done|lia|lia|].
    + apply Forall_cons_2; [unfold word; fold base; lia|done].
    + intros j Hj. destruct j as [|j]; [lia|done].
  - assert (1 ≤ val d) as Hv by (unfold base in *; lia).
    destruct (IH 1 Hd ltac:(unfold base; lia) Hv) as (rs & i & -> & H1 & H2 & H3 & H4 & H5).
    rewrite mask_word by apply word_u64. assert (u64 (x - w) = x - w + base) as ->.
    { unfold u64. fold base. symmetry. apply (Z.mod_unique _ _ (-1)); lia. }
    eexists _, _. split; [done|]. cbn [val length]. split_and!; [|lia|lia|lia|].
    + apply Forall_cons_2; [unfold word; fold base; lia|done].
    + intros j Hj. destruct j as [|j]; [lia|]. apply (H5 j). lia.
Qed.

Lemma sub_word_pos_spec a w : wf a → bn_top a ≠ 0%nat → 0 < w < base → bn_neg a = false →
  ∃ r, sub_word_pos a w = Some (true, r) ∧ wf r ∧ value r = mag a - w ∧ canonical r ∧ mag r = Z.abs (mag a - w).
Proof.
  intros Ha Ht Hw Hn. unfold sub_word_pos. pose proof (length_used a Ha) as Lu. pose proof (wf_top a Ha) as Htop.
  destruct ((bn_top a =? 1)%nat && (nthZ (bn_d a) 0 <? w)) eqn:E.
  - apply andb_true_iff in E as [Et%Nat.eqb_eq Hlt%Z.ltb_lt]. eexists. split; [done|].
    destruct (mag_lead a 0 Ha Et) as (Em & Hlead & _). rewrite take_0 in Em. change (Z.of_nat 0) with 0 in Em. cbn [val] in Em.
    set (x := nthZ (bn_d a) 0) in *. assert (mag a = x) as Ex by lia.
    set (r := with_neg _ true). assert (mag r = w - x) as Er.
    { unfold mag, used. cbn [r with_neg with_d bn_top bn_d]. rewrite Et. destruct (bn_d a) as [|y d] eqn:Ed; [cbn in Htop; lia|].
      cbn [insert list_insert]. change (take 1 (w - x :: d)) with [w - x]. cbn [val]. lia. }
    split_and!; [|unfold value; cbn [r with_neg bn_neg]; lia| |lia].
    + constructor; cbn [r with_neg with_d bn_top bn_d].
      * apply words_insert; [apply Ha|]. unfold word. fold base. lia.
      * by rewrite length_insert.
      * right. rewrite Et. cbn [Nat.sub]. rewrite nthZ_insert, decide_True by (done || lia). lia.
    + intros Hz. cbn [r with_neg with_d bn_top] in Hz. lia.
  - destruct (bn_top a) as [|t] eqn:Et; [done|]. pose proof (mag_lower a t Ha Et) as Hlow.
    assert (w ≤ mag a ∧ (t ≠ 0%nat → base ^ (Z.of_nat t - 1) ≤ mag a - w)) as [Hle Hlow2].
    { destruct t as [|t].
      - destruct (mag_lead a 0 Ha Et) as (Em & Hlead & _). rewrite take_0 in Em. change (Z.of_nat 0) with 0 in Em. cbn [val andb] in *.
        apply Z.ltb_ge in E. split; [lia|done].
      - rewrite Nat2Z.inj_succ, Z.pow_succ_r in Hlow by lia. assert (0 < base ^ Z.of_nat t) by (apply Z.pow_pos_nonneg; [done|lia]).
        replace (Z.of_nat (S t) - 1) with (Z.of_nat t) by lia. unfold base in *. split; [lia|]. intros _. lia. }
    destruct (sub_word_loop_spec (used a) w ltac:(auto with vtls) Hw Hle) as (ws & i & -> & W & L & V & Hi & Hj). fold (mag a) in V.
    rewrite Lu in L, Hi. eexists. split; [done|].
    destruct (drop_zero_top a t ws Et (wf_words _ Ha) W L ltac:(lia)) as (D1 & D2 & D3); [by rewrite V|].
    assert (((nthZ (bn_d (put a ws)) i =? 0) && (i =? bn_top (put a ws) - 1)%nat) = (nthZ (bn_d (put a ws)) t =? 0)) as ->.
    { change (bn_top (put a ws)) with (bn_top a). rewrite Et. replace (S t - 1)%nat with t by lia.
      destruct (Nat.eqb_spec i t) as [->|Hne]; [by rewrite andb_true_r|]. rewrite andb_false_r. symmetry. apply Z.eqb_neq.
      rewrite <- (nthZ_take (length ws)) by lia. cbn [put with_d bn_d]. rewrite put_used, Hj by lia.
      destruct (used_lead a Ha) as [?|Hl]; [lia|]. rewrite Lu in Hl. by replace (S t - 1)%nat with t in Hl by lia. }
    change (bn_top (put a ws)) with (bn_top a). rewrite Et. replace (S t - 1)%nat with t by lia. set (r := if _ =? 0 then _ else _) in *.
    split_and!; [done| | |lia].
    + unfold value. rewrite D3, Hn. lia.
    + intros _. by rewrite D3.
Qed.

End word_specs.

(** Adding a word to a number of either sign adds it to the integer, also where
    the sign changes or the number is zero; the loops stay inside the number.  Only
    growing the array can make it fail. *)
Theorem BN_add_word_correct malloc a w : malloc_ok malloc → wf a → 0 ≤ w < base →
  ∃ ok r, BN_add_word malloc a w = Some (ok, r) ∧
    (ok = true → wf r ∧ value r = value a + w ∧ (canonical a → canonical r)).
Proof.
  intros Hm Ha Hw. unfold BN_add_word. destruct (Z.eqb_spec w 0) as [->|Hw0].
  { eexists _, _. split; [done|]. rewrite Z.add_0_r. done. }
  unfold BN_is_zero. destruct (Nat.eqb_spec (bn_top a) 0) as [Et|Et].
  { pose proof (BN_set_word_spec malloc a w Hm Ha Hw) as H. destruct (BN_set_word malloc a w) as [ok r]. eexists _, _. split; [done|].
    intros ->. destruct H as (H1 & H2 & H3 & _). split_and!; [done| |done]. rewrite H2. unfold value.
    rewrite (proj2 (mag_zero a Ha) Et). by destruct (bn_neg a). }
  destruct (bn_neg a) eqn:Hn.
  - destruct (sub_word_pos_spec (with_neg a false) w) as (r & -> & H1 & H2 & H3 & H4); [by apply with_neg_wf|done|lia|done|].
    change (mag (with_neg a false)) with (mag a) in *. eexists _, _. split; [done|]. intros _. unfold value at 2. rewrite Hn.
    destruct (Nat.eqb_spec (bn_top r) 0) as [Er|Er].
    + split_and!; [done| |done]. rewrite (proj2 (mag_zero r H1) Er) in H4. unfold value in *.
      rewrite (proj2 (mag_zero r H1) Er) in *. destruct (bn_neg r); lia.
    + split_and!; [by apply with_neg_wf| |intros _ Hz; by cbn in Hz]. unfold value in *. cbn [with_neg bn_neg].
      change (mag (with_neg r (negb (bn_neg r)))) with (mag r). destruct (bn_neg r); cbn [negb]; lia.
  - pose proof (add_word_pos_spec malloc Hm a w Ha Et Hw) as H. destruct (add_word_pos malloc a w) as [ok r]. eexists _, _. split; [done|].
    intros ->. destruct H as (H1 & H2 & H3). split_and!; [done|unfold value; rewrite H3, Hn; lia|]. intros _ _. by rewrite H3.
Qed.

Lemma BN_add_word_correct_witness :
  ∃ ok r, BN_add_word pool (mkBN [5] 1 true false) 8 = Some (ok, r) ∧ (ok = true → value r = 3).
Proof.
  assert (wf (mkBN [5] 1 true false)) as Ha by (by apply (bool_decide_unpack _)).
  destruct (BN_add_word_correct pool _ 8 pool_ok Ha ltac:(unfold base; lia)) as (ok & r & E & H).
  exists ok, r. split; [done|]. intros Hok. by destruct (H Hok) as (_ & -> & _).
Defined.

(** Subtracting a word, with the same guarantees. *)
Lemma BN_sub_word_spec malloc a w : malloc_ok malloc → wf a → 0 ≤ w < base →
  ∃ ok r, BN_sub_word malloc a w = Some (ok, r) ∧
    (ok = true → wf r ∧ value r = value a - w ∧ (canonical a → canonical r)).
Proof.
  intros Hm Ha Hw. unfold BN_sub_word. destruct (Z.eqb_spec w 0) as [->|Hw0].
  { eexists _, _. split; [done|]. rewrite Z.sub_0_r. done. }
  unfold BN_is_zero. destruct (Nat.eqb_spec (bn_top a) 0) as [Et|Et].
  { pose proof (BN_set_word_spec malloc a w Hm Ha Hw) as H. destruct (BN_set_word malloc a w) as [ok r]. eexists _, _. split; [done|].
    intros ->. destruct H as (H1 & H2 & H3 & H4). unfold value in H2. rewrite H4 in H2.
    assert (bn_top r ≠ 0%nat) as Htr by (rewrite <- (mag_zero r H1), H2; done).
    unfold BN_set_negative, BN_is_zero. destruct (Nat.eqb_spec (bn_top r) 0) as [|_]; [done|]. cbn [andb negb].
    split_and!; [by apply with_neg_wf| |intros _ Hz; by cbn in Hz].
    change (value (with_neg r true)) with (- mag r). unfold value. rewrite (proj2 (mag_zero a Ha) Et). destruct (bn_neg a); lia. }
  destruct (bn_neg a) eqn:Hn.
  - pose proof (add_word_pos_spec malloc Hm (with_neg a false) w (with_neg_wf a false Ha) Et Hw) as H.
    destruct (add_word_pos malloc (with_neg a false) w) as [ok r]. eexists _, _. split; [done|].
    intros ->. destruct H as (H1 & H2 & H3). change (mag (with_neg a false)) with (mag a) in H2.
    split_and!; [by apply with_neg_wf|change (value (with_neg r true)) with (- mag r); unfold value; rewrite Hn; lia|].
    intros _ Hz. cbn in Hz. apply mag_zero in Hz; [|done]. pose proof (mag_bound a Ha). lia.
  - destruct (sub_word_pos_spec a w) as (r & -> & H1 & H2 & H3 & H4); [done|done|lia|done|].
    eexists _, _. split; [done|]. intros _. split_and!; [done| |done]. rewrite H2. unfold value. by rewrite Hn.
Qed.

(** Division by a word leaves the quotient in the number and returns the remainder,
    in both configurations of the two-word division; the number stays well formed.
    When there is no room for the one word more that the division works with, it
    returns the largest word.  The loops of the division always end. *)
Theorem BN_div_word_correct malloc div2w a w : malloc_ok malloc → wf a → 0 < w < base →
  ∃ ret a', BN_div_word malloc div2w a w = Some (ret, a') ∧
    ((wf a' ∧ mag a' = mag a / w ∧ ret = mag a mod w ∧ (mag a' ≠ 0 → bn_neg a' = bn_neg a)) ∨
     (ret = MINUS_1 ∧ bn_wexpand malloc a (bn_top a + 1) = None)).
Proof. intros. by apply BN_div_word_spec. Qed.

Lemma BN_div_word_correct_witness :
  ∃ ret a', BN_div_word pool false (mkBN [7; 5; 3] 3 false false) 1000 = Some (ret, a') ∧
    mag a' = mag (mkBN [7; 5; 3] 3 false false) / 1000 ∧ ret = mag (mkBN [7; 5; 3] 3 false false) mod 1000.
Proof.
  assert (wf (mkBN [7; 5; 3] 3 false false)) as Ha by (by apply (bool_decide_unpack _)).
  destruct (BN_div_word_correct pool false _ 1000 pool_ok Ha ltac:(unfold base; lia)) as (ret & a' & E & [(_ & H1 & H2 & _)|[_ H]]); [|done].
  exists ret, a'. by split_and!.
Defined.
