(* ===== verification/BnDiv.v ===== *)
(** * Division of big numbers

    Models [BN_div] of [crypto/bn/bn_div.c]: both the usual path and the one taken
    for numbers with [BN_FLG_CONSTTIME] ([no_branch]), the estimate of a digit of
    the quotient from the three leading words of the dividend and the two leading
    words of the divisor, and its correction.  [ctx] holds the temporary numbers
    that [BN_CTX_get] returns, [None] standing for its failure.  [dv_is_num] and
    [rm_is_num] tell whether a result is stored over the dividend.  The loop that
    corrects an estimate runs on fuel: [estimate_loop_spec] shows that it ends after
    at most two corrections. *)

From S2P Require Import Prelude BnWords BnDivWords Bn BnAdd BnShift BnWord.

(** ** The estimate *)

(** With a double-length type. *)
Fixpoint estimate_llong (fuel : nat) (q rem t2 d0 d1 n2 : Z) : option Z :=
  match fuel with
  | O => None
  | S fuel =>
      if t2 <=? Z.lor (rem ≪ BN_BITS2) n2 then Some q
      else
        let q := u64 (q - 1) in
        let rem := u64 (rem + d0) in
        if rem <? d0 then Some q
        else estimate_llong fuel q rem (t2 - d1) d0 d1 n2
  end.

(** With the product in two words. *)
Fixpoint estimate_lohi (fuel : nat) (q rem t2l t2h d0 d1 n2 : Z) : option Z :=
  match fuel with
  | O => None
  | S fuel =>
      if (t2h <? rem) || ((t2h =? rem) && (t2l <=? n2)) then Some q
      else
        let q := u64 (q - 1) in
        let rem := u64 (rem + d0) in
        if rem <? d0 then Some q
        else
          let t2h := if t2l <? d1 then u64 (t2h - 1) else t2h in
          estimate_lohi fuel q rem (u64 (t2l - d1)) t2h d0 d1 n2
  end.

Definition estimate (k : cfg) (div2w : bool) (n0 n1 n2 d0 d1 : Z) : option Z :=
  if n0 =? d0 then Some BN_MASK2
  else
    match bn_div_words div2w n0 n1 d0 with
    | None => None
    | Some q =>
        let rem := Z.land (u64 (n1 - u64 (q * d0))) BN_MASK2 in
        match k with
        | BN_LLONG => estimate_llong 3 q rem (d1 * q) d0 d1 n2
        | UMULT_LOHI => let '(t2l, t2h) := BN_UMULT_LOHI d1 q in estimate_lohi 3 q rem t2l t2h d0 d1 n2
        | UMULT_HIGH => estimate_lohi 3 q rem (u64 (d1 * q)) (BN_UMULT_HIGH d1 q) d0 d1 n2
        | PORTABLE =>
            let '(t2l, t2h) := mul64 (LBITS d1) (HBITS d1) (LBITS q) (HBITS q) in
            estimate_lohi 3 q rem t2l t2h d0 d1 n2
        end
    end.

(** ** The loop over the digits *)

(** One digit: the window of the dividend starts at word [w]. *)
Definition div_step (k : cfg) (div2w : bool) (snum sdiv : list Z) (d0 d1 : Z) (w : nat) : option (list Z * Z) :=
  let div_n := length sdiv in
  let wnump := (w + div_n)%nat in
  match estimate k div2w (nthZ snum wnump) (nthZ snum (wnump - 1)) (nthZ snum (wnump - 2)) d0 d1 with
  | None => None
  | Some q =>
      let '(tmp, l0) := bn_mul_words k sdiv q in
      let '(win, borrow) := bn_sub_words (take (div_n + 1) (drop w snum)) (tmp ++ [l0]) in
      let snum := splice snum w win in
      if nonzero borrow then
        let q := u64 (q - 1) in
        let '(lo, carry) := bn_add_words k (take div_n (drop w snum)) sdiv in
        let snum := splice snum w lo in
        Some (if nonzero carry then <[wnump := u64 (nthZ snum wnump + 1)]> snum else snum, q)
      else Some (snum, q)
  end.

(** The digits for the windows [w] down to 1, put in front of those found so far. *)
Fixpoint div_loop (k : cfg) (div2w : bool) (snum sdiv : list Z) (d0 d1 : Z) (w : nat) (qs : list Z) : option (list Z * list Z) :=
  match w with
  | O => Some (snum, qs)
  | S w' =>
      match div_step k div2w snum sdiv d0 d1 w with
      | None => None
      | Some (snum, q) => div_loop k div2w snum sdiv d0 d1 w' (q :: qs)
      end
  end.

Section bn_div.
Context (malloc : nat → option (list Z)) (k : cfg) (div2w : bool).

(** Room above the dividend for the constant-time path. *)
Definition pad_num (snum : BIGNUM) (div_n : nat) : option BIGNUM :=
  let top := if (bn_top snum <=? div_n + 1)%nat then (div_n + 2)%nat else (bn_top snum + 1)%nat in
  match bn_wexpand malloc snum top with
  | None => None
  | Some s => Some (with_top (with_d s (splice (bn_d s) (bn_top s) (replicate (top - bn_top s) 0))) top)
  end.

(** The division proper, of the normalised numbers: the quotient [res] and what is
    left of [snum]; [None] for a failure with the number [res] as it was then. *)
Definition div_core (no_branch : bool) (neg : bool) (res tmp snum sdiv : BIGNUM) : option (BIGNUM + BIGNUM * BIGNUM) :=
  let div_n := bn_top sdiv in
  let num_n := bn_top snum in
  let loop := (num_n - div_n)%nat in
  let d0 := nthZ (bn_d sdiv) (div_n - 1) in
  let d1 := if (div_n =? 1)%nat then 0 else nthZ (bn_d sdiv) (div_n - 2) in
  let res := with_neg res neg in
  match bn_wexpand malloc res (loop + 1) with
  | None => Some (inl res)
  | Some res =>
      match bn_wexpand malloc tmp (div_n + 1) with
      | None => Some (inl (with_top res (if no_branch then loop - 1 else loop)%nat))
      | Some tmp =>
          let wnum := drop loop (used snum) in
          let '(snum_d, high) :=
            if no_branch then (used snum, [])
            else if 0 <=? ucmp_loop wnum (bn_d sdiv) div_n then
              (splice (used snum) loop (bn_sub_words wnum (used sdiv)).1, [1])
            else (used snum, []) in
          match div_loop k div2w snum_d (used sdiv) d0 d1 (loop - 1) [] with
          | None => None
          | Some (snum_d, qs) =>
              let res := put res (qs ++ high) in
              let res := with_top res (length (qs ++ high)) in
              let res := if (bn_top res =? 0)%nat then with_neg res false else res in
              Some (inr (res, put snum snum_d))
          end
      end
  end.

(** The results are the status, the quotient and the remainder. *)
Definition BN_div (ctx : option (BIGNUM * BIGNUM * BIGNUM * BIGNUM)) (no_branch dv_is_num rm_is_num : bool)
    (dv rm : option BIGNUM) (num divisor : BIGNUM) : option (bool * option BIGNUM * option BIGNUM) :=
  if ((0 <? bn_top num)%nat && (nthZ (bn_d num) (bn_top num - 1) =? 0)) ||
     ((0 <? bn_top divisor)%nat && (nthZ (bn_d divisor) (bn_top divisor - 1) =? 0)) then Some (false, dv, rm)
  else if BN_is_zero divisor then Some (false, dv, rm)
  else if negb no_branch && (BN_ucmp num divisor <? 0) then
    match rm with
    | Some r =>
        let '(ok, r) := BN_copy malloc rm_is_num r num in
        if ok then Some (true, BN_zero malloc <$> dv, Some r) else Some (false, dv, Some r)
    | None => Some (true, BN_zero malloc <$> dv, None)
    end
  else
    match ctx with
    | None => Some (false, dv, rm)
    | Some (tmp, snum, sdiv, own) =>
        let res := match dv with Some res => res | None => own end in
        let back (r : BIGNUM) := match dv with Some _ => Some r | None => None end in
        let norm_shift := BN_BITS2 - BN_num_bits divisor mod BN_BITS2 in
        let '(ok, sdiv) := BN_lshift malloc sdiv divisor norm_shift in
        if negb ok then Some (false, dv, rm)
        else
          let sdiv := with_neg sdiv false in
          let norm_shift := norm_shift + BN_BITS2 in
          let '(ok, snum) := BN_lshift malloc snum num norm_shift in
          if negb ok then Some (false, dv, rm)
          else
            let snum := with_neg snum false in
            match (if no_branch then pad_num snum (bn_top sdiv) else Some snum) with
            | None => Some (false, dv, rm)
            | Some snum =>
                match div_core no_branch (xorb (bn_neg num) (bn_neg divisor)) res tmp snum sdiv with
                | None => None
                | Some (inl res) => Some (false, back res, rm)
                | Some (inr (res, snum)) =>
                    let snum := bn_correct_top snum in
                    let quotient := if no_branch then bn_correct_top res else res in
                    match rm with
                    | None => Some (true, back quotient, None)
                    | Some r =>
                        let neg := if dv_is_num then bn_neg res else bn_neg num in
                        let '(_, r) := BN_rshift malloc false r snum norm_shift in
                        Some (true, back quotient, Some (if BN_is_zero r then r else with_neg r neg))
                    end
                end
            end
    end.

End bn_div.

(** ** The estimate of a digit *)

Section estimate.
Context (n0 n1 n2 d0 d1 : Z).
Context (W0 : word n0) (W1 : word n1) (W2 : word n2) (Hd0 : 2 ^ 63 ≤ d0 < base) (Hd1 : 0 ≤ d1 < base).

Let N3 := (n0 * base + n1) * base + n2.
Let D2 := d0 * base + d1.

(** The loop finds the quotient of three words by two. *)
Lemma estimate_loop_spec fuel : ∀ q r, 0 ≤ q < base → 0 ≤ r < base → n0 * base + n1 = q * d0 + r →
  N3 / D2 ≤ q → base ≤ r + Z.of_nat fuel * d0 →
  estimate_llong fuel q r (d1 * q) d0 d1 n2 = Some (N3 / D2).
Proof.
  assert (0 < D2) as HD by (unfold base in *; lia). unfold word in *. fold base in W0, W1, W2.
  induction fuel as [|fuel IH]; intros q r Hq Hr Er Hge Hf; [lia|]. cbn [estimate_llong]. unfold BN_BITS2.
  rewrite lor_shiftl_add by (unfold base in *; lia). fold base.
  assert (N3 - q * D2 = r * base + n2 - d1 * q) as EN by (unfold N3, D2; rewrite Er; ring).
  destruct (Z.leb_spec (d1 * q) (r * base + n2)) as [Hle|Hgt].
  { f_equal. apply Z.le_antisymm; [|done]. apply Z.div_le_lower_bound; lia. }
  assert (N3 / D2 < q) as Hlt by (apply Z.div_lt_upper_bound; lia).
  assert (0 ≤ N3 / D2) as H0 by (apply Z.div_pos; unfold N3, base in *; lia).
  rewrite (u64_small (q - 1)) by (unfold base in *; lia). assert (N3 - (q - 1) * D2 = (r + d0) * base + n2 - d1 * (q - 1)) as EN' by (unfold D2 in *; lia).
  destruct (Z.lt_ge_cases (r + d0) base) as [Hs|Hs].
  - rewrite (u64_small (r + d0)) by (unfold base in *; lia). destruct (Z.ltb_spec (r + d0) d0); [lia|].
    replace (d1 * q - d1) with (d1 * (q - 1)) by ring. apply IH; lia.
  - assert (u64 (r + d0) = r + d0 - base) as -> by (unfold u64; fold base; symmetry; apply (Z.mod_unique _ _ 1); lia).
    destruct (Z.ltb_spec (r + d0 - base) d0); [|lia]. f_equal. apply Z.le_antisymm; [|lia].
    apply Z.div_le_lower_bound; [done|]. pose proof (word_mul_bound d1 (q - 1) ltac:(unfold word; fold base; lia) ltac:(unfold word; fold base; lia)).
    unfold base in *. nia.
Qed.

(** The same loop on the product in two words. *)
Lemma estimate_lohi_eq fuel : ∀ q r t2l t2h, word q → word r → word t2l → word t2h → t2l + base * t2h = d1 * q →
  estimate_lohi fuel q r t2l t2h d0 d1 n2 = estimate_llong fuel q r (d1 * q) d0 d1 n2.
Proof.
  unfold word in *. fold base in W0, W1, W2 |- *. induction fuel as [|fuel IH]; intros q r t2l t2h Hq Hr Hl Hh E; [done|].
  cbn [estimate_lohi estimate_llong]. unfold BN_BITS2. rewrite lor_shiftl_add by (unfold base in *; lia). fold base.
  assert ((t2h <? r) || (t2h =? r) && (t2l <=? n2) = (d1 * q <=? r * base + n2)) as ->.
  { rewrite <- E. destruct (Z.ltb_spec t2h r); cbn [orb].
    - symmetry. apply Z.leb_le. nia.
    - destruct (Z.eqb_spec t2h r) as [->|]; cbn [andb]; [case_cmp; lia|]. symmetry. apply Z.leb_gt. nia. }
  destruct (Z.leb_spec (d1 * q) (r * base + n2)) as [|Hgt]; [done|].
  assert (0 < q) as Hq0 by (destruct (decide (q = 0)) as [->|]; [unfold base in *; lia|lia]).
  rewrite (u64_small (q - 1)) by (unfold base in *; lia).
  destruct (u64 (r + d0) <? d0); [done|]. pose proof (word_u64 (r + d0)) as Wr. unfold word in Wr. fold base in Wr.
  assert (d1 ≤ d1 * q) as Hle by nia.
  assert (0 < t2h ∨ d1 ≤ t2l) as Hb by (destruct (decide (t2h = 0)) as [->|]; [right|left]; lia).
  set (h' := if t2l <? d1 then _ else _). assert (u64 (t2l - d1) + base * h' = d1 * (q - 1) ∧ 0 ≤ h' < base) as [E' Hh'].
  { subst h'. destruct (Z.ltb_spec t2l d1).
    - rewrite (u64_small (t2h - 1)) by (unfold base in *; lia).
      replace (u64 (t2l - d1)) with (t2l - d1 + base) by (unfold u64; fold base; apply (Z.mod_unique _ _ (-1)); lia). lia.
    - rewrite u64_small by (unfold base in *; lia). lia. }
  replace (d1 * q - d1) with (d1 * (q - 1)) by ring. apply IH; [lia|done|apply word_u64|done|done].
Qed.

Lemma estimate_spec k div2w : n0 ≤ d0 →
  estimate k div2w n0 n1 n2 d0 d1 = Some (if n0 =? d0 then base - 1 else N3 / D2).
Proof.
  intros Hle. unfold estimate. destruct (Z.eqb_spec n0 d0) as [|Hne]; [done|]. unfold word in *.
  rewrite bn_div_words_spec by (unfold word, base in *; lia). fold base in W0, W1, W2 |- *.
  pose proof (Z.div_mod (n0 * base + n1) d0 ltac:(unfold base in *; lia)) as E.
  pose proof (Z.mod_pos_bound (n0 * base + n1) d0 ltac:(lia)) as Hr. set (q := (n0 * base + n1) / d0) in *. set (r := (n0 * base + n1) mod d0) in *.
  assert (0 ≤ q < base) as Hq by (split; [apply Z.div_pos; unfold base in *; lia|apply Z.div_lt_upper_bound; unfold base in *; lia]).
  assert (Z.land (u64 (n1 - u64 (q * d0))) BN_MASK2 = r) as ->.
  { rewrite mask_word by apply word_u64. unfold u64. rewrite Zminus_mod_idemp_r. fold base. symmetry. apply (Z.mod_unique _ _ (- n0)); unfold base in *; lia. }
  assert (N3 / D2 ≤ q) as Hge.
  { apply Z.lt_succ_r, Z.div_lt_upper_bound; [unfold D2, base in *; lia|]. unfold N3, D2. assert (n0 * base + n1 + 1 ≤ d0 * (q + 1)) by lia. nia. }
  pose proof (estimate_loop_spec 3 q r Hq ltac:(lia) ltac:(lia) Hge ltac:(unfold base in *; lia)) as HL.
  assert (word q ∧ word r ∧ word d1) as (Wq & Wr & Wd) by (unfold word; fold base; lia).
  destruct k; [exact HL|..].
  - destruct (umult_spec d1 q Wd Wq) as (U1 & U2 & U3). unfold BN_UMULT_LOHI. by rewrite (estimate_lohi_eq 3 q r _ _ Wq Wr U1 U2 U3).
  - destruct (umult_spec d1 q Wd Wq) as (U1 & U2 & U3). unfold BN_UMULT_HIGH. by rewrite (estimate_lohi_eq 3 q r _ _ Wq Wr U1 U2 U3).
  - destruct (halves d1 Wd) as (Ed & Hdh & Hdl), (halves q Wq) as (Eq & Hqh & Hql).
    pose proof (mul64_spec _ _ _ _ Hdl Hdh Hql Hqh) as H. destruct (mul64 _ _ _ _) as [lo hi]. destruct H as (U1 & U2 & U3).
    rewrite <- Ed, <- Eq in U3. by rewrite (estimate_lohi_eq 3 q r _ _ Wq Wr U1 U2 U3).
Qed.

End estimate.

(** The estimate is the digit or one more, [X2] and [DD] being the window and the
    divisor, scaled so that [P] is the weight of the third leading word of the
    window. *)
Lemma estimate_bounds n0 n1 n2 d0 d1 P X2 DD : word n0 → word n1 → word n2 → 2 ^ 63 ≤ d0 < base → 0 ≤ d1 < base → 0 < P →
  ((n0 * base + n1) * base + n2) * P ≤ X2 < ((n0 * base + n1) * base + n2 + 1) * P →
  (d0 * base + d1) * P ≤ DD < (d0 * base + d1 + 1) * P → X2 < DD * base →
  let q := if n0 =? d0 then base - 1 else ((n0 * base + n1) * base + n2) / (d0 * base + d1) in
  n0 ≤ d0 ∧ 0 ≤ q < base ∧ X2 / DD ≤ q ≤ X2 / DD + 1.
Proof.
  intros W0 W1 W2 Hd0 Hd1 HP HX HD Hlt q. unfold word in W0, W1, W2. fold base in W0, W1, W2. set (N3 := (n0 * base + n1) * base + n2) in *. set (D2 := d0 * base + d1) in *.
  assert (0 < D2) as HD2 by (unfold base in *; lia). assert (0 < DD) as HDD by nia.
  assert (N3 < (D2 + 1) * base) as HN.
  { apply (proj2 (Z.mul_lt_mono_pos_r P _ _ HP)). assert (DD * base < (D2 + 1) * P * base) by (unfold base; lia). lia. }
  assert (n0 ≤ d0) as Hle by (unfold base in *; lia).
  assert (X2 / DD < base) as HXb by (apply Z.div_lt_upper_bound; lia).
  assert (0 ≤ N3) as HN0 by (unfold base in *; lia).
  assert (0 ≤ X2 / DD) as HX0 by (apply Z.div_pos; nia).
  pose proof (Z.div_mod X2 DD ltac:(lia)) as EX. pose proof (Z.mod_pos_bound X2 DD HDD) as HXm.
  subst q. destruct (Z.eqb_spec n0 d0) as [En|En].
  - split_and!; [lia|unfold base; lia|unfold base; lia|lia|]. assert (base - 2 ≤ X2 / DD); [|lia].
    apply Z.div_le_lower_bound; [done|]. assert ((base - 2) * (D2 + 1) ≤ N3); [|nia].
    unfold N3, D2. rewrite En. unfold base in *. lia.
  - pose proof (Z.div_mod N3 D2 ltac:(lia)) as E. pose proof (Z.mod_pos_bound N3 D2 HD2) as Hm.
    assert (0 ≤ N3 / D2) as Hq0 by (apply Z.div_pos; lia).
    assert (N3 / D2 < base) as Hqb by (apply Z.div_lt_upper_bound; [done|]; unfold N3, D2, base in *; lia).
    split_and!; [lia|lia|lia| |].
    + apply Z.div_le_lower_bound; [done|]. apply Z.lt_succ_r. apply (proj2 (Z.mul_lt_mono_pos_r P _ _ HP)). nia.
    + assert (N3 / D2 - 1 ≤ X2 / DD); [|lia]. apply Z.div_le_lower_bound; [done|].
      destruct (decide (N3 / D2 = 0)) as [->|Hq1]; [lia|]. set (q := N3 / D2) in *.
      assert ((q - 1) * (D2 + 1) ≤ N3) by (assert (base ≤ D2) by (unfold D2, base in *; lia); nia). nia.
Qed.

Lemma nthZ_app_r a b i : nthZ (a ++ b) (length a + i) = nthZ b i.
Proof. unfold nthZ. rewrite app_nth2 by lia. f_equal. lia. Qed.

Lemma nthZ_app_l a b i : (i < length a)%nat → nthZ (a ++ b) i = nthZ a i.
Proof. intros. unfold nthZ. by rewrite app_nth1. Qed.

(** The leading words of an array. *)
Lemma val_lead1 l n : words l → length l = S n → ∃ P lo, P = base ^ Z.of_nat n ∧ 0 ≤ lo < P ∧ val l = lo + P * nthZ l n.
Proof.
  intros Hl Hn. exists (base ^ Z.of_nat n), (val (take n l)). pose proof (val_bound _ (words_take n l Hl)) as B.
  rewrite length_take, Nat.min_l in B by lia. split_and!; [done|lia|lia|]. rewrite <- val_take_S, <- Hn, firstn_all by lia. done.
Qed.

Lemma bn_sub_words_spec a b : words a → words b → length b = length a →
  let '(r, c) := bn_sub_words a b in
  words r ∧ length r = length a ∧ 0 ≤ c ≤ 1 ∧ val r - base ^ Z.of_nat (length a) * c = val a - val b.
Proof.
  intros Ha Hb Hl. unfold bn_sub_words. rewrite sub_words_unroll.
  pose proof (sub_words_1_spec a b 0 Ha Hb Hl ltac:(lia)) as H. destruct (sub_words_1 a b 0). by rewrite Z.sub_0_r in H.
Qed.

Section step.
Context (k : cfg) (div2w : bool) (sdiv : list Z) (d0 d1 : Z).
Context (Ws : words sdiv) (Hne : length sdiv ≠ 0%nat).
Context (Ed0 : d0 = nthZ sdiv (length sdiv - 1)) (Hd0 : 2 ^ 63 ≤ d0)
        (Ed1 : d1 = if (length sdiv =? 1)%nat then 0 else nthZ sdiv (length sdiv - 2)).

Let dn := length sdiv.
Let D := val sdiv.

(** The estimate for a window. *)
Lemma window_estimate lo win hi : words lo → words win → words hi → length lo ≠ 0%nat → length win = (dn + 1)%nat → val win < D * base →
  let wnump := (length lo + dn)%nat in let snum := lo ++ win ++ hi in
  ∃ q, estimate k div2w (nthZ snum wnump) (nthZ snum (wnump - 1)) (nthZ snum (wnump - 2)) d0 d1 = Some q ∧
    0 ≤ q < base ∧ val win / D ≤ q ≤ val win / D + 1.
Proof.
  intros Wlo Wwin Whi Hlo Hlen Hlt wnump snum.
  assert (word d0) as Wd0 by (rewrite Ed0; auto with vtls). assert (word d1) as Wd1 by (rewrite Ed1; destruct (_ =? _)%nat; auto with vtls; done).
  assert (words snum) as Wsn by (unfold snum; auto with vtls). unfold word in Wd0, Wd1. fold base in Wd0, Wd1.
  assert (∀ i, (i < length win)%nat → nthZ snum (length lo + i) = nthZ win i) as Hw.
  { intros i Hi. unfold snum. by rewrite nthZ_app_r, nthZ_app_l. }
  assert (nthZ snum wnump = nthZ win dn) as E0 by (apply Hw; lia).
  assert (nthZ snum (wnump - 1) = nthZ win (dn - 1)) as E1 by (unfold wnump; replace (length lo + dn - 1)%nat with (length lo + (dn - 1))%nat by lia; apply Hw; lia).
  set (n0 := nthZ snum wnump) in *. set (n1 := nthZ snum (wnump - 1)) in *. set (n2 := nthZ snum (wnump - 2)).
  assert (word n0 ∧ word n1 ∧ word n2) as (W0 & W1 & W2) by (unfold n0, n1, n2; auto using nthZ_word).
  assert (∃ P X2 DD, 0 < P ∧ X2 / DD = val win / D ∧ X2 < DD * base ∧
    ((n0 * base + n1) * base + n2) * P ≤ X2 < ((n0 * base + n1) * base + n2 + 1) * P ∧
    (d0 * base + d1) * P ≤ DD < (d0 * base + d1 + 1) * P) as (P & X2 & DD & HP & EX & Hlt2 & HX & HD).
  { destruct (Nat.eqb_spec (length sdiv) 1) as [Eone|Eone].
    - (* one word: scaled by the word below the window *)
      exists 1, (val win * base + n2), (D * base). unfold dn in *. rewrite Eone in *.
      destruct sdiv as [|s [|]]; try done. destruct win as [|x0 [|x1 [|]]]; try done. cbn in Ed0, E0, E1.
      assert (D = d0) as ED by (subst D; cbn [val]; lia). unfold word in W2. fold base in W2. cbn [val] in *. rewrite ED in *.
      split_and!; try lia.
      { replace ((x0 + base * (x1 + base * 0)) * base + n2) with (n2 + (x0 + base * (x1 + base * 0)) * base) by ring.
        rewrite (Z.mul_comm d0 base), <- Z.div_div, Z.div_add, (Z.div_small n2) by (unfold base in *; lia). done. }
      all: rewrite ?E0, ?E1; unfold base in *; lia.
    - destruct dn as [|[|m]] eqn:Em; [done|done|]. unfold dn in Em.
      exists (base ^ Z.of_nat m), (val win), D. assert (n2 = nthZ win m) as E2.
      { unfold n2, wnump. replace (length lo + S (S m) - 2)%nat with (length lo + m)%nat by lia. apply Hw. lia. }
      assert (0 < base ^ Z.of_nat m) as HP by (apply Z.pow_pos_nonneg; [done|lia]).
      pose proof (val_bound _ (words_take m win Wwin)) as Bw. rewrite length_take, Nat.min_l in Bw by lia.
      pose proof (val_bound _ (words_take m sdiv Ws)) as Bs. rewrite length_take, Nat.min_l in Bs by lia.
      assert (val win = val (take m win) + base ^ Z.of_nat m * ((n0 * base + n1) * base + n2)) as EW.
      { rewrite <- (firstn_all win) at 1. rewrite Hlen, Nat.add_1_r, !val_take_S by lia. rewrite !Nat2Z.inj_succ, !Z.pow_succ_r by lia.
        rewrite E0, E1, E2. replace (S (S m) - 1)%nat with (S m) by lia. ring. }
      assert (D = val (take m sdiv) + base ^ Z.of_nat m * (d0 * base + d1)) as ED.
      { unfold D. rewrite <- (firstn_all sdiv) at 1. rewrite Em, !val_take_S by lia. rewrite !Nat2Z.inj_succ, !Z.pow_succ_r by lia.
        rewrite Ed0, Ed1, Em. cbn [Nat.eqb Nat.sub]. rewrite ?Nat.sub_0_r. ring. }
      split_and!; try done; try lia. }
  destruct (estimate_bounds n0 n1 n2 d0 d1 P X2 DD W0 W1 W2 ltac:(lia) Wd1 HP HX HD Hlt2) as (Hle & Hq & Hqb).
  eexists. split; [apply (estimate_spec n0 n1 n2 d0 d1 W0 W1 W2 ltac:(lia) Wd1 k div2w Hle)|]. rewrite EX in Hqb. split; [exact Hq|exact Hqb].
Qed.

(** Adding the divisor back to a difference that went below zero. *)
Lemma add_back win X : words win → length win = (dn + 1)%nat → val win - base ^ Z.of_nat (dn + 1) = X → - D ≤ X < 0 →
  let '(lo, c) := bn_add_words k (take dn win) sdiv in
  words lo ∧ length lo = dn ∧ c = 1 ∧ u64 (nthZ win dn + 1) = 0 ∧ val lo = X + D.
Proof.
  intros Ww Lw Ew HX. destruct (bn_add_words_spec k (take dn win) sdiv) as ((A1 & A2 & A3 & A4) & A5); [auto with vtls|done|rewrite length_take; lia|].
  rewrite length_take, Nat.min_l in A3, A4 by lia. destruct (bn_add_words k (take dn win) sdiv) as [lo c]. cbn [fst snd] in *.
  assert (val win = val (take dn win) + base ^ Z.of_nat dn * nthZ win dn) as E.
  { rewrite <- (firstn_all win) at 1. rewrite Lw, Nat.add_1_r. apply val_take_S. lia. }
  pose proof (val_bound lo A1) as Blo. rewrite A3 in Blo. pose proof (val_bound _ Ws) as BD. fold dn D in BD.
  pose proof (nthZ_word win dn Ww) as Wn. unfold word in Wn. fold base in Wn. set (t := nthZ win dn) in *.
  rewrite Nat2Z.inj_add, Z.pow_add_r in Ew by lia. change (base ^ Z.of_nat 1) with base in Ew. fold D in A4.
  set (Q := base ^ Z.of_nat dn) in *. assert (val lo + Q * (c + t - base) = X + D) as EQ by lia.
  assert (c + t - base = 0) as Ez by nia. assert (c = 1) as Ec by lia. assert (t = base - 1) as Et by lia.
  split_and!; [done|done|done|rewrite Et; done|]. rewrite Ez in EQ. lia.
Qed.

(** A step finds the next digit and leaves the remainder in the window. *)
Lemma div_step_spec lo win hi : words lo → words win → words hi → length lo ≠ 0%nat → length win = (dn + 1)%nat → val win < D * base →
  ∃ win', div_step k div2w (lo ++ win ++ hi) sdiv d0 d1 (length lo) = Some (lo ++ win' ++ hi, val win / D) ∧
    words win' ∧ length win' = (dn + 1)%nat ∧ val win' = val win mod D ∧ word (val win / D).
Proof.
  intros Wlo Wwin Whi Hlo Hlen Hlt. unfold div_step. fold dn.
  destruct (window_estimate lo win hi Wlo Wwin Whi Hlo Hlen Hlt) as (q & -> & Hq & Hqb).
  pose proof (val_bound _ Ws) as BD. fold D dn in BD. pose proof (val_bound _ Wwin) as BX. rewrite Hlen in BX.
  assert (0 < D) as HD.
  { destruct dn as [|m] eqn:Em; [done|]. unfold dn in Em. assert (nthZ sdiv m ≠ 0) as Hn by (replace m with (length sdiv - 1)%nat by lia; rewrite <- Ed0; lia).
    pose proof (val_of_lead sdiv m Ws Em Hn) as Hv. fold D in Hv. pose proof (Z.pow_pos_nonneg base (Z.of_nat m) ltac:(done) ltac:(lia)). lia. }
  pose proof (Z.div_mod (val win) D ltac:(lia)) as EX. pose proof (Z.mod_pos_bound (val win) D HD) as HM.
  assert (0 ≤ val win / D) as H0 by (apply Z.div_pos; lia).
  destruct (carries_snoc _ _ _ (bn_mul_words_spec k sdiv q Ws Hq)) as (Wt & Lt & Vt). fold D dn in Vt, Lt.
  destruct (bn_mul_words k sdiv q) as [tmp l0]. cbn [fst snd] in *.
  assert (take (dn + 1) (drop (length lo) (lo ++ win ++ hi)) = win) as -> by (rewrite drop_app_length, take_app_exact; done).
  pose proof (bn_sub_words_spec win (tmp ++ [l0]) Wwin Wt ltac:(lia)) as HS. destruct (bn_sub_words win (tmp ++ [l0])) as [win1 b].
  destruct HS as (W1 & L1 & Hb & V1). rewrite Vt, Hlen in V1. rewrite Hlen in L1. pose proof (val_bound _ W1) as B1. rewrite L1 in B1.
  rewrite (splice_mid lo win win1 hi) by (done || lia). unfold nonzero. destruct (Z.eqb_spec b 0) as [->|Hb0]; cbn [negb].
  - assert (q = val win / D) as Eq by (assert (q * D ≤ val win) by lia; pose proof (Z.div_le_lower_bound (val win) D q HD); lia).
    exists win1. rewrite Eq in *. split_and!; [done|done|done|lia|done].
  - assert (b = 1) as -> by lia. assert (q = val win / D + 1) as Eq by nia.
    rewrite (u64_small (q - 1)) by (unfold base in *; lia). replace (q - 1) with (val win / D) by lia.
    assert (take dn (drop (length lo) (lo ++ win1 ++ hi)) = take dn win1) as -> by (rewrite drop_app_length, take_app_le by lia; done).
    pose proof (add_back win1 (val win - D * q) W1 L1 ltac:(lia) ltac:(rewrite Eq; lia)) as HA.
    destruct (bn_add_words k (take dn win1) sdiv) as [lo2 c]. destruct HA as (A1 & A2 & -> & A4 & A5). cbn [Z.eqb negb].
    assert (win1 = take dn win1 ++ [nthZ win1 dn]) as Ew.
    { rewrite <- take_S_nthZ by lia. rewrite <- Nat.add_1_r, <- L1. by rewrite firstn_all. }
    assert (splice (lo ++ win1 ++ hi) (length lo) lo2 = lo ++ lo2 ++ [nthZ win1 dn] ++ hi) as ->.
    { rewrite Ew at 1. rewrite <- app_assoc. apply splice_mid; [done|]. rewrite length_take. lia. }
    assert (nthZ (lo ++ lo2 ++ [nthZ win1 dn] ++ hi) (length lo + dn) = nthZ win1 dn) as ->.
    { rewrite nthZ_app_r, <- A2, <- (Nat.add_0_r (length lo2)), nthZ_app_r. by rewrite Nat.add_0_r. }
    rewrite A4. exists (lo2 ++ [0]). split_and!.
    + f_equal. f_equal. rewrite insert_app_r, <- A2, <- (Nat.add_0_r (length lo2)), insert_app_r. by rewrite <- app_assoc.
    + by apply words_snoc.
    + rewrite length_app. cbn. lia.
    + rewrite val_app, A5. cbn [val]. rewrite Eq. lia.
    + unfold word. fold base. lia.
Qed.

(** The whole loop: the digits of the quotient and the remainder, above the lowest
    word. *)
Lemma div_loop_spec w : ∀ snum qs, words snum → (w + dn < length snum)%nat → 0 < D → val (drop (S w) snum) < D →
  ∃ snum' qs', div_loop k div2w snum sdiv d0 d1 w qs = Some (snum', qs' ++ qs) ∧
    words snum' ∧ length snum' = length snum ∧ words qs' ∧ length qs' = w ∧ take 1 snum' = take 1 snum ∧
    val (drop 1 snum) = val qs' * D + val (drop 1 snum') ∧ val (drop 1 snum') < D.
Proof.
  induction w as [|w IH]; intros snum qs Hw Hl HD Hlt; cbn [div_loop].
  { exists snum, []. split_and!; (done || (cbn [val]; lia)). }
  assert (∃ lo win hi, snum = lo ++ win ++ hi ∧ length lo = S w ∧ length win = (dn + 1)%nat) as (lo & win & hi & -> & Llo & Lwin).
  { exists (take (S w) snum), (take (dn + 1) (drop (S w) snum)), (drop (dn + 1) (drop (S w) snum)).
    rewrite !take_drop. split_and!; [done|rewrite length_take; lia|rewrite length_take, length_drop; lia]. }
  apply Forall_app in Hw as [Wlo Hw]. apply Forall_app in Hw as [Wwin Whi].
  destruct win as [|x win]; [cbn in Lwin; lia|]. apply Forall_cons_1 in Wwin as [Wx Ww]. assert (words (x :: win)) as Wwin by (by apply Forall_cons_2).
  assert (val (win ++ hi) < D) as Hlt'.
  { replace (S (S w)) with (length (lo ++ [x])) in Hlt by (rewrite length_app; cbn; lia).
    replace (lo ++ (x :: win) ++ hi) with ((lo ++ [x]) ++ win ++ hi) in Hlt by (by rewrite <- app_assoc). by rewrite drop_app_length in Hlt. }
  pose proof (val_bound _ Ws) as BD. fold D dn in BD. pose proof (val_bound _ Ww) as Bw. pose proof (val_bound _ Whi) as Bh.
  cbn [length] in Lwin. assert (length win = dn) as Lw by lia. rewrite val_app, Lw in Hlt'.
  assert (val hi = 0) as Ehi by (rewrite Lw in Bw; nia). rewrite Ehi, Z.mul_0_r, Z.add_0_r in Hlt'.
  destruct (div_step_spec lo (x :: win) hi Wlo Wwin Whi ltac:(lia) ltac:(cbn; lia)) as (win' & Es & W' & L' & V' & Wq).
  { cbn [val]. unfold word in Wx. fold base in Wx. unfold base in *. lia. }
  rewrite Llo in Es. rewrite Es. set (q := val (x :: win) / D) in *.
  pose proof (Z.div_mod (val (x :: win)) D ltac:(lia)) as EX. pose proof (Z.mod_pos_bound (val (x :: win)) D HD) as HM. fold q in EX.
  destruct lo as [|l0 lo]; [done|]. cbn [length] in Llo. injection Llo as Llo.
  destruct (IH ((l0 :: lo) ++ win' ++ hi) (q :: qs)) as (snum' & qs' & -> & R1 & R2 & R3 & R4 & R5 & R6 & R7).
  { auto with vtls. }
  { rewrite !length_app in *. cbn [length] in *. lia. }
  { done. }
  { replace (S w) with (length (l0 :: lo)) by (cbn; lia). rewrite drop_app_length, val_app, Ehi. lia. }
  exists snum', (qs' ++ [q]). split_and!.
  - by rewrite <- app_assoc.
  - done.
  - rewrite R2, !length_app. cbn [length]. lia.
  - by apply words_snoc.
  - rewrite length_app. cbn. lia.
  - by rewrite R5.
  - change (drop 1 ((l0 :: lo) ++ win' ++ hi)) with (lo ++ win' ++ hi) in R6.
    change (drop 1 ((l0 :: lo) ++ (x :: win) ++ hi)) with (lo ++ (x :: win) ++ hi). rewrite (val_app qs' [q]), R4. change (val [q]) with (q + base * 0).
    rewrite (val_app lo), (val_app win'), Ehi, Llo in R6. rewrite (val_app lo ((x :: win) ++ hi)), (val_app (x :: win) hi), Ehi, Llo. rewrite V' in R6. fold q in EX. nia.
  - done.
Qed.

End step.

(** ** The division of normalised numbers *)

Lemma val_split l n : (n ≤ length l)%nat → val l = val (take n l) + base ^ Z.of_nat n * val (drop n l).
Proof. intros Hn. rewrite <- (take_drop n l) at 1. rewrite val_app, length_take. by rewrite Nat.min_l. Qed.

(** The top of the dividend is reduced below the divisor first. *)
Lemma div_head (no_branch : bool) snum sdiv : words snum → wf sdiv → (bn_top sdiv ≤ length snum)%nat → bn_top sdiv ≠ 0%nat →
  2 ^ 63 ≤ nthZ (bn_d sdiv) (bn_top sdiv - 1) →
  let loop := (length snum - bn_top sdiv)%nat in
  (no_branch = true → val (drop loop snum) < mag sdiv) →
  let '(sd, high) :=
    if no_branch then (snum, [])
    else if 0 <=? ucmp_loop (drop loop snum) (bn_d sdiv) (bn_top sdiv) then
      (splice snum loop (bn_sub_words (drop loop snum) (used sdiv)).1, [1])
    else (snum, []) in
  words sd ∧ length sd = length snum ∧ take loop sd = take loop snum ∧ words high ∧
  val (drop loop snum) = val high * mag sdiv + val (drop loop sd) ∧ val (drop loop sd) < mag sdiv ∧
  (high = [] ∨ no_branch = false ∧ high = [1]).
Proof.
  intros Wu Hs Hle Hne Hd0 loop Hnb. pose proof (length_used sdiv Hs) as Ls. assert (words (used sdiv)) as Wsd by auto with vtls.
  destruct no_branch; [cbn [val]; split_and!; try done; auto; lia|].
  set (wn := drop loop snum) in *. assert (words wn) as Www by (subst wn; auto with vtls).
  assert (length wn = bn_top sdiv) as Lwn by (subst wn; rewrite length_drop; lia).
  pose proof (val_bound wn Www) as Bw. rewrite Lwn in Bw.
  assert (base ^ Z.of_nat (bn_top sdiv) ≤ 2 * mag sdiv) as H2D.
  { destruct (bn_top sdiv) as [|m] eqn:Em; [done|]. destruct (mag_lead sdiv m Hs Em) as (EM & _ & HL). replace (S m - 1)%nat with m in Hd0 by lia.
    rewrite Nat2Z.inj_succ, Z.pow_succ_r, EM by lia. unfold base at 1. nia. }
  rewrite ucmp_loop_eq. pose proof (wf_top _ Hs). rewrite cmp_loop_spec by (auto with vtls || lia).
  assert (take (bn_top sdiv) wn = wn) as -> by (rewrite <- Lwn; apply firstn_all). fold (used sdiv) (mag sdiv).
  assert (mag sdiv ≤ val wn →
    let sd := splice snum loop (bn_sub_words wn (used sdiv)).1 in
    words sd ∧ length sd = length snum ∧ take loop sd = take loop snum ∧ words [1] ∧
    val wn = val [1] * mag sdiv + val (drop loop sd) ∧ val (drop loop sd) < mag sdiv ∧ ([1] = [] ∨ false = false ∧ [1] = [1])) as Hsub.
  { intros Hge. pose proof (bn_sub_words_spec wn (used sdiv) Www Wsd ltac:(lia)) as HS. destruct (bn_sub_words wn (used sdiv)) as [w b].
    destruct HS as (S1 & S2 & S3 & S4). fold (mag sdiv) in S4. pose proof (val_bound _ S1) as B1. rewrite S2, Lwn in *.
    assert (b = 0) as -> by nia. assert (snum = take loop snum ++ wn) as Eu by (subst wn; by rewrite take_drop).
    assert (length (take loop snum) = loop) as Ltk by (rewrite length_take; lia). cbn [fst].
    assert (splice snum loop w = take loop snum ++ w) as ->.
    { rewrite Eu at 1. rewrite <- (app_nil_r wn), (splice_mid (take loop snum) wn w [] loop), app_nil_r by (done || lia). done. }
    split_and!; [auto with vtls|rewrite length_app; lia|by rewrite take_app_exact|by apply Forall_singleton
      |rewrite drop_app_exact by done; cbn [val]; lia|rewrite drop_app_exact by done; lia|by right]. }
  destruct (Z.compare_spec (val wn) (mag sdiv)) as [Hc|Hc|Hc]; cbn [pick Z.leb Z.compare]; [apply Hsub; lia| |apply Hsub; lia].
  cbn [val]. fold wn. split_and!; try done; auto; lia.
Qed.

Section core.
Context (malloc : nat → option (list Z)) (k : cfg) (div2w : bool) (Hm : malloc_ok malloc).

(** Above the lowest word, the dividend is the quotient times the divisor and what is
    left. *)
Lemma div_core_spec (no_branch neg : bool) res tmp snum sdiv : wf res → wf tmp → wf sdiv → words (bn_d snum) →
  (bn_top snum ≤ length (bn_d snum))%nat → (bn_top sdiv < bn_top snum)%nat → bn_top sdiv ≠ 0%nat →
  2 ^ 63 ≤ nthZ (bn_d sdiv) (bn_top sdiv - 1) →
  (no_branch = true → val (drop (bn_top snum - bn_top sdiv) (used snum)) < mag sdiv) →
  (no_branch = false → nthZ (bn_d snum) (bn_top snum - 1) ≠ 0) →
  match div_core malloc k div2w no_branch neg res tmp snum sdiv with
  | None => False
  | Some (inl _) => bn_wexpand malloc (with_neg res neg) (bn_top snum - bn_top sdiv + 1) = None ∨ bn_wexpand malloc tmp (bn_top sdiv + 1) = None
  | Some (inr (q, s)) =>
      words (bn_d q) ∧ (bn_top q ≤ length (bn_d q))%nat ∧ bn_neg q = negb (bn_top q =? 0)%nat && neg ∧
      (no_branch = false → wf q) ∧
      words (bn_d s) ∧ (bn_top s ≤ length (bn_d s))%nat ∧ take 1 (used s) = take 1 (used snum) ∧
      val (drop 1 (used snum)) = mag q * mag sdiv + val (drop 1 (used s)) ∧ val (drop 1 (used s)) < mag sdiv
  end.
Proof.
  intros Hres Htmp Hs Wn Tn Hlt Hne Hd0 Hnb Hlead. unfold div_core.
  assert (length (used snum) = bn_top snum) as Lu by (unfold used; rewrite length_take; lia).
  assert (words (used snum)) as Wu by (unfold used; auto with vtls). pose proof (length_used sdiv Hs) as Ls.
  assert (words (used sdiv)) as Wsd by auto with vtls.
  pose proof (div_head no_branch (used snum) sdiv Wu Hs) as Hh. rewrite Lu in Hh. cbn zeta in Hh.
  specialize (Hh ltac:(lia) Hne Hd0 Hnb). set (loop := (bn_top snum - bn_top sdiv)%nat) in *.
  destruct (bn_wexpand malloc (with_neg res neg) (loop + 1)) as [r1|] eqn:E1; [|by left].
  destruct (bn_wexpand_spec malloc Hm _ _ _ (with_neg_wf res neg Hres) E1) as (Hr1 & Hl1 & _ & _ & Hn1). cbn [with_neg bn_neg] in Hn1.
  destruct (bn_wexpand malloc tmp (bn_top sdiv + 1)) as [t1|] eqn:E2; [|by right]. clear E1 E2 Hnb.
  destruct (if no_branch then _ else _) as [sd high]. destruct Hh as (W1 & L1 & T1 & Wh & Vd & Vlt & Hhigh).
  assert (0 < mag sdiv) as HD by (pose proof (mag_zero sdiv Hs); pose proof (mag_bound sdiv Hs); lia).
  destruct (div_loop_spec k div2w (used sdiv) (nthZ (bn_d sdiv) (bn_top sdiv - 1))
    (if (bn_top sdiv =? 1)%nat then 0 else nthZ (bn_d sdiv) (bn_top sdiv - 2)) Wsd) with (w := (loop - 1)%nat) (snum := sd) (qs := @nil Z)
    as (sd' & qs & -> & R1 & R2 & R3 & R4 & R5 & R6 & R7); fold (mag sdiv); try done; try lia.
  { rewrite Ls. unfold used. by rewrite nthZ_take by lia. }
  { rewrite Ls. destruct (Nat.eqb_spec (bn_top sdiv) 1); [done|]. unfold used. by rewrite nthZ_take by lia. }
  { replace (S (loop - 1)) with loop by lia. done. }
  fold (mag sdiv) in R6, R7. rewrite app_nil_r.
  assert (val (drop 1 (used snum)) = val (qs ++ high) * mag sdiv + val (drop 1 sd')) as EV.
  { rewrite val_app, R4.
    rewrite (val_split (drop 1 (used snum)) (loop - 1)) by (rewrite length_drop; lia).
    rewrite (val_split (drop 1 sd) (loop - 1)) in R6 by (rewrite length_drop; lia).
    rewrite !drop_drop in *. replace (1 + (loop - 1))%nat with loop in * by lia. rewrite Vd.
    assert (take (loop - 1) (drop 1 (used snum)) = take (loop - 1) (drop 1 sd)) as ->.
    { rewrite !take_drop_commute. replace (1 + (loop - 1))%nat with loop by lia. by rewrite T1. }
    nia. }
  assert (words (qs ++ high)) as Wq by auto with vtls.
  assert (length (qs ++ high) ≤ length (bn_d r1))%nat as Lq.
  { rewrite length_app, R4. destruct Hhigh as [->|[_ ->]]; cbn; lia. }
  set (q := if (bn_top _ =? 0)%nat then _ else _).
  assert (bn_d q = splice (bn_d r1) 0 (qs ++ high) ∧ bn_top q = length (qs ++ high) ∧ bn_neg q = negb (bn_top q =? 0)%nat && neg) as (Qd & Qt & Qn).
  { subst q. cbn [with_top put with_d bn_top]. rewrite <- Hn1. by destruct (length (qs ++ high) =? 0)%nat eqn:E0; cbn [with_neg with_top bn_d bn_top bn_neg]; rewrite ?E0. }
  assert (mag q = val (qs ++ high)) as Qm by (unfold mag, used; rewrite Qd, Qt, put_used by done; done).
  assert (used (put snum sd') = sd') as Us.
  { unfold used. cbn [put with_d bn_d bn_top]. rewrite <- L1, <- R2, put_used by lia. done. }
  rewrite Us, Qm. split_and!; try done.
  - rewrite Qd. auto with vtls.
  - rewrite Qd, Qt, length_splice; lia.
  - intros Hnb. specialize (Hlead Hnb).
    assert (∀ n, length (qs ++ high) = S n → base ^ Z.of_nat n ≤ val (qs ++ high)) as Hv.
    { intros n Hn. rewrite length_app, R4 in Hn. destruct Hhigh as [->|[_ ->]].
      - rewrite app_nil_r in *. cbn in Hn.
        assert (base ^ Z.of_nat (n + bn_top sdiv) ≤ val (drop 1 (used snum))) as Hlow.
        { apply val_of_lead; [auto with vtls|rewrite length_drop; lia|].
          unfold nthZ. rewrite nth_skipn. fold (nthZ (used snum) (1 + (n + bn_top sdiv))). unfold used. rewrite nthZ_take by lia.
          by replace (1 + (n + bn_top sdiv))%nat with (bn_top snum - 1)%nat by lia. }
        rewrite Nat2Z.inj_add, Z.pow_add_r in Hlow by lia. pose proof (mag_bound sdiv Hs) as BD.
        assert (0 < base ^ Z.of_nat n) as HA by (apply Z.pow_pos_nonneg; [done|lia]).
        apply Z.lt_succ_r, (proj2 (Z.mul_lt_mono_pos_r (mag sdiv) _ _ HD)).
        apply Z.lt_le_trans with (base ^ Z.of_nat n * base ^ Z.of_nat (bn_top sdiv)); [|lia]. apply Z.mul_lt_mono_pos_l; lia.
      - rewrite val_app, R4. cbn [val]. replace n with (loop - 1)%nat by (cbn in Hn; lia). pose proof (val_bound qs R3). lia. }
    destruct (put_val r1 (qs ++ high) (bn_neg q) (wf_words _ Hr1) Wq Lq Hv) as ([P1 P2 P3] & _).
    cbn [with_neg with_top put with_d bn_d bn_top] in *. constructor; by rewrite ?Qd, ?Qt.
  - cbn [put with_d bn_d]. auto with vtls.
  - cbn [put with_d bn_d bn_top]. rewrite length_splice; lia.
  - rewrite R5. assert (1 ≤ loop)%nat by lia.
    replace (take 1 sd) with (take 1 (take loop sd)) by (rewrite take_take; f_equal; lia). rewrite T1, take_take. f_equal. lia.
Qed.

End core.

(** ** The division *)

(** Memory that does not run out, and a number that may grow. *)
Definition roomy (malloc : nat → option (list Z)) : Prop := ∀ n, malloc n ≠ None.
Definition MAX_WORDS : Z := INT_MAX / (4 * BN_BITS2).

Lemma wexpand_total malloc a n : roomy malloc → bn_static a = false → Z.of_nat n ≤ MAX_WORDS →
  ∃ r, bn_wexpand malloc a n = Some r ∧ bn_static r = false.
Proof.
  intros Hr Hs Hn. unfold bn_wexpand, bn_expand2, bn_expand_internal. destruct (n <=? length (bn_d a))%nat; [by eexists|].
  destruct (length (bn_d a) <? n)%nat; [|by eexists]. fold MAX_WORDS. destruct (Z.ltb_spec MAX_WORDS (Z.of_nat n)); [lia|].
  rewrite Hs. specialize (Hr n). destruct (malloc n); [|done]. by eexists.
Qed.

(** Shifting the divisor so that its number of bits is a multiple of the word's fills
    its leading word. *)
Lemma normalised_lead a : wf a → mag a ≠ 0 → (Z.log2 (mag a) + 1) mod 64 = 0 → 2 ^ 63 ≤ nthZ (bn_d a) (bn_top a - 1).
Proof.
  intros Ha Hz Hmod. pose proof (BN_num_bits_spec a Ha) as E. destruct (Z.eqb_spec (mag a) 0); [done|].
  unfold BN_num_bits, BN_is_zero in E. destruct (Nat.eqb_spec (bn_top a) 0) as [Et|Et]; [by apply mag_zero in Et|].
  set (x := nthZ (bn_d a) (bn_top a - 1)) in *. pose proof (nthZ_word (bn_d a) (bn_top a - 1) (wf_words _ Ha)) as Wx. fold x in Wx.
  rewrite BN_num_bits_word_spec in E by done. destruct (wf_lead a Ha) as [?|Hx]; [done|]. fold x in Hx. unfold word in Wx.
  destruct (Z.eqb_spec x 0); [done|]. rewrite <- E in Hmod. unfold BN_BITS2 in Hmod.
  rewrite Z.add_comm, Z.mod_add in Hmod by lia. pose proof (Z.log2_spec x ltac:(lia)) as Hl. pose proof (Z.log2_nonneg x).
  assert (Z.log2 x < 64) by (apply Z.log2_lt_pow2; lia). assert (Z.log2 x + 1 = 64) as E64 by (Z.to_euclidean_division_equations; lia).
  replace (Z.log2 x) with 63 in Hl by lia. lia.
Qed.

Lemma log2_mul_pow2_shift a s : 0 < a → 0 ≤ s → Z.log2 (a * 2 ^ s) = Z.log2 a + s.
Proof. intros. by rewrite Z.log2_mul_pow2, Z.add_comm. Qed.

(** The padding of the constant-time path keeps the value and makes the top of the
    dividend smaller than any divisor of [div_n] words. *)
Lemma pad_num_spec malloc snum div_n s : malloc_ok malloc → wf snum → div_n ≠ 0%nat → pad_num malloc snum div_n = Some s →
  words (bn_d s) ∧ (bn_top s ≤ length (bn_d s))%nat ∧ (div_n < bn_top s)%nat ∧ mag s = mag snum ∧
  val (drop (bn_top s - div_n) (used s)) < base ^ (Z.of_nat div_n - 1) ∧ (bn_top s ≤ Nat.max (div_n + 2) (bn_top snum + 1))%nat.
Proof.
  intros Hm Hs Hd. unfold pad_num. set (top := if (_ <=? _)%nat then _ else _).
  destruct (bn_wexpand malloc snum top) as [s1|] eqn:E; [|done]. destruct (bn_wexpand_spec malloc Hm _ _ _ Hs E) as (Hs1 & Hl1 & Hu1 & Ht1 & _).
  intros [= <-]. rewrite Ht1. set (z := replicate (top - bn_top snum) 0).
  assert (bn_top snum < top)%nat as Htop by (subst top; case_cmp; lia).
  assert (length z = top - bn_top snum)%nat as Lz by (subst z; apply length_replicate).
  assert (words z) as Wz by (by apply Forall_replicate).
  assert (take top (splice (bn_d s1) (bn_top snum) z) = used snum ++ z) as Eu.
  { unfold splice. rewrite <- Ht1. fold (used s1). rewrite app_assoc, Hu1. apply take_app_exact.
    rewrite length_app, length_used by done. lia. }
  unfold mag, used. cbn [with_top with_d bn_d bn_top]. rewrite Eu.
  assert (val z = 0) as Vz by (subst z; generalize (top - bn_top snum)%nat; intros m; induction m as [|m IH]; cbn [replicate val]; lia).
  assert (val (used snum ++ z) = mag snum) as Vu by (rewrite val_app, Vz; unfold mag; lia).
  split_and!; [auto with vtls|rewrite length_splice; lia|subst top; case_cmp; lia|done| |subst top; case_cmp; lia].
  pose proof (val_split (used snum ++ z) (top - div_n) ltac:(rewrite length_app, length_used by done; lia)) as E2. rewrite Vu in E2.
  assert (words (used snum ++ z)) as Wu by auto with vtls.
  pose proof (val_bound _ (words_take (top - div_n) _ Wu)) as B1. pose proof (mag_bound snum Hs) as B2.
  assert (mag snum < base ^ Z.of_nat (top - div_n) * base ^ (Z.of_nat div_n - 1)) as Hlt.
  { rewrite <- Z.pow_add_r by lia. apply Z.lt_le_trans with (base ^ Z.of_nat (bn_top snum)); [lia|]. apply Z.pow_le_mono_r; [done|].
    subst top. case_cmp; lia. }
  assert (0 < base ^ Z.of_nat (top - div_n)) by (apply Z.pow_pos_nonneg; [done|lia]). nia.
Qed.

(** Rounding towards zero, from signs and magnitudes. *)
Lemma quot_rem_signs (sn sd : bool) n d q r : 0 < d → 0 ≤ r < d → n = q * d + r → 0 ≤ q →
  let N := if sn then - n else n in let D := if sd then - d else d in
  Z.quot N D = (if xorb sn sd then - q else q) ∧ Z.rem N D = (if sn then - r else r).
Proof.
  intros Hd Hr En Hq N D. assert (0 ≤ n) by nia.
  assert (Z.quot n d = q) as Eq by (rewrite Z.quot_div_nonneg by lia; symmetry; apply (Z.div_unique n d q r); lia).
  assert (Z.rem n d = r) as Er by (rewrite Z.rem_mod_nonneg by lia; symmetry; apply (Z.mod_unique n d q r); lia).
  subst N D. destruct sn, sd; cbn [xorb]; rewrite ?Z.quot_opp_opp, ?Z.quot_opp_l, ?Z.quot_opp_r, ?Z.rem_opp_opp, ?Z.rem_opp_l, ?Z.rem_opp_r by lia; lia.
Qed.

Lemma wexpand_static malloc a n r : bn_wexpand malloc a n = Some r → bn_static r = bn_static a.
Proof.
  unfold bn_wexpand, bn_expand2. destruct (_ <=? _)%nat; [by intros [= <-]|]. destruct (_ <? _)%nat; [|by intros [= <-]].
  destruct (bn_expand_internal malloc a n); [|done]. by intros [= <-].
Qed.

Lemma lshift_static malloc r a n r' : BN_lshift malloc r a n = (true, r') → bn_static r' = bn_static r.
Proof.
  unfold BN_lshift. destruct (n <? 0); [done|]. destruct (bn_wexpand malloc _ _) as [r1|] eqn:E; [|done].
  apply wexpand_static in E. intros [= <-]. unfold bn_correct_top. cbv zeta. by destruct (_ =? _)%nat.
Qed.

(** A left shift succeeds when there is room. *)
Lemma lshift_total malloc r a n : malloc_ok malloc → roomy malloc → wf r → wf a → bn_static r = false → 0 ≤ n →
  Z.of_nat (bn_top a) + n / 64 + 1 ≤ MAX_WORDS →
  ∃ r', BN_lshift malloc r a n = (true, r') ∧ wf r' ∧ mag r' = mag a * 2 ^ n ∧ bn_static r' = false.
Proof.
  intros Hm Hr Wr Wa Hs Hn Hlim. pose proof (BN_lshift_spec malloc r a n Hm Wr Wa) as H. pose proof (Z.div_pos n 64 Hn ltac:(lia)).
  destruct (BN_lshift malloc r a n) as [ok r'] eqn:E. destruct ok.
  - exists r'. destruct H as (_ & H1 & _ & H2 & _). apply lshift_static in E. rewrite E. split_and!; done.
  - exfalso. destruct H as [?|H]; [lia|].
    destruct (wexpand_total malloc (with_neg r (bn_neg a)) (bn_top a + Z.to_nat (n / 64) + 1) Hr Hs ltac:(lia)) as (x & E2 & _). congruence.
Qed.

(** The part of [BN_div] after normalisation. *)
Lemma div_normalised malloc k div2w (no_branch neg : bool) res tmp snum sdiv q s num div sh :
  malloc_ok malloc → wf res → wf tmp → wf sdiv → words (bn_d snum) →
  (bn_top snum ≤ length (bn_d snum))%nat → (bn_top sdiv < bn_top snum)%nat → 0 ≤ sh → 0 ≤ num → 0 < div →
  mag sdiv = div * 2 ^ sh → mag snum = num * 2 ^ (sh + 64) →
  2 ^ 63 ≤ nthZ (bn_d sdiv) (bn_top sdiv - 1) →
  (no_branch = true → val (drop (bn_top snum - bn_top sdiv) (used snum)) < mag sdiv) →
  (no_branch = false → nthZ (bn_d snum) (bn_top snum - 1) ≠ 0) →
  div_core malloc k div2w no_branch neg res tmp snum sdiv = Some (inr (q, s)) →
  let r := bn_correct_top s in
  words (bn_d q) ∧ (bn_top q ≤ length (bn_d q))%nat ∧ bn_neg q = negb (bn_top q =? 0)%nat && neg ∧ (no_branch = false → wf q) ∧
  wf r ∧ mag r / 2 ^ (sh + 64) = num - mag q * div ∧ 0 ≤ num - mag q * div < div ∧ 0 ≤ mag q.
Proof.
  intros Hm Wres Wtmp Wsd Wn Tn Hlt Hsh Hnum Hdiv Esd Esn Hd0 Hnb Hlead Ec r.
  assert (bn_top sdiv ≠ 0%nat) as Hne by (rewrite <- (mag_zero sdiv Wsd), Esd; assert (0 < 2 ^ sh) by (apply Z.pow_pos_nonneg; lia); nia).
  pose proof (div_core_spec malloc k div2w Hm no_branch neg res tmp snum sdiv Wres Wtmp Wsd Wn Tn Hlt Hne Hd0 Hnb Hlead) as H.
  rewrite Ec in H. destruct H as (Q1 & Q2 & Q3 & Q4 & S1 & S2 & S3 & S4 & S5).
  assert (0 < 2 ^ sh) as Hp by (apply Z.pow_pos_nonneg; lia).
  assert (2 ^ (sh + 64) = 2 ^ sh * base) as Ep by (by rewrite Z.pow_add_r by lia).
  assert (words (used snum) ∧ words (used s) ∧ words (used q)) as (Wus & Wuq & Wuqq) by (unfold used; auto with vtls).
  assert (length (used snum) = bn_top snum) as Lu by (unfold used; rewrite length_take; lia).
  pose proof (val_split (used snum) 1 ltac:(lia)) as E1. fold (mag snum) in E1. change (base ^ Z.of_nat 1) with base in E1.
  assert (1 ≤ length (used s))%nat as Ls.
  { apply (f_equal length) in S3. rewrite !length_take in S3. lia. }
  pose proof (val_split (used s) 1 Ls) as E2. fold (mag s) in E2. change (base ^ Z.of_nat 1) with base in E2. rewrite S3 in E2.
  pose proof (val_bound _ (words_take 1 _ Wus)) as B1. rewrite length_take, Nat.min_l in B1 by lia. change (base ^ Z.of_nat 1) with base in B1.
  pose proof (val_bound _ (words_drop 1 _ Wuq)) as B2. pose proof (val_bound _ Wuqq) as B3. fold (mag q) in B3.
  set (lo := val (take 1 (used snum))) in *. set (R := val (drop 1 (used s))) in *.
  assert (lo = 0) as Elo by (rewrite Esn, Ep in E1; unfold base in E1, B1; lia). rewrite Elo in *.
  assert (val (drop 1 (used snum)) = num * 2 ^ sh) as EN by (rewrite Esn, Ep in E1; unfold base in E1; lia).
  assert (R = (num - mag q * div) * 2 ^ sh) as ER by (rewrite EN, Esd in S4; lia).
  destruct (bn_correct_top_spec s S1 S2) as (C1 & _ & C3 & _ & _). split_and!; try done.
  - subst r. rewrite C3, E2, ER, Ep. rewrite (Z.mul_comm (2 ^ sh) base), <- Z.div_div by (unfold base; lia).
    replace (0 + base * ((num - mag q * div) * 2 ^ sh)) with ((num - mag q * div) * 2 ^ sh * base) by ring.
    rewrite Z.div_mul by (unfold base; lia). apply Z.div_mul. lia.
  - nia.
  - rewrite Esd in S5. nia.
  - lia.
Qed.

Lemma pad_num_total malloc snum div_n : roomy malloc → bn_static snum = false → Z.of_nat (Nat.max (div_n + 2) (bn_top snum + 1)) ≤ MAX_WORDS →
  ∃ s, pad_num malloc snum div_n = Some s.
Proof.
  intros Hr Hs Hl. unfold pad_num. set (top := if (_ <=? _)%nat then _ else _).
  destruct (wexpand_total malloc snum top Hr Hs ltac:(subst top; case_cmp; lia)) as (x & -> & _). by eexists.
Qed.

Lemma top_le a n : wf a → mag a < base ^ Z.of_nat n → (bn_top a ≤ n)%nat.
Proof.
  intros Ha Hlt. destruct (bn_top a) as [|t] eqn:E; [lia|]. pose proof (mag_lower a t Ha E) as Hl.
  assert (Z.of_nat t < Z.of_nat n); [|lia]. apply (Z.pow_lt_mono_r_iff base); [done|lia|lia].
Qed.

Lemma value_mag0 a : mag a = 0 → value a = 0.
Proof. intros E. unfold value. rewrite E. by destruct (bn_neg a). Qed.

(** The quotient with its sign; the constant-time path removes leading zeros. *)
Lemma quotient_value (no_branch neg : bool) q : words (bn_d q) → (bn_top q ≤ length (bn_d q))%nat → bn_neg q = negb (bn_top q =? 0)%nat && neg →
  (no_branch = false → wf q) →
  let x := if no_branch then bn_correct_top q else q in wf x ∧ value x = if neg then - mag q else mag q.
Proof.
  intros Wq Tq Nq Hq x. destruct (bn_correct_top_spec q Wq Tq) as (C1 & _ & C3 & C4 & _).
  assert (bn_top q = 0%nat → mag q = 0) as Hz by (intros E; unfold mag, used; by rewrite E).
  assert (∀ y, mag y = mag q → (mag q ≠ 0 → bn_neg y = bn_neg q) → value y = if neg then - mag q else mag q) as Hv.
  { intros y Em En. unfold value. rewrite Em. destruct (decide (mag q = 0)) as [E0|E0]; [rewrite E0; by destruct (bn_neg y), neg|].
    rewrite (En E0), Nq. destruct (Nat.eqb_spec (bn_top q) 0) as [Et|]; [by rewrite (Hz Et) in E0|done]. }
  subst x. destruct no_branch; [split; [done|by apply Hv]|split; [by apply Hq|by apply Hv]].
Qed.

(** Dividing a smaller number. *)
Lemma div_smaller malloc (rm_is_num : bool) dv rm num divisor : malloc_ok malloc → roomy malloc → wf dv → wf rm → bn_static rm = false →
  wf num → wf divisor → (rm_is_num = true → rm = num) → Z.of_nat (bn_top num) ≤ MAX_WORDS → mag num < mag divisor →
  ∃ r, BN_copy malloc rm_is_num rm num = (true, r) ∧ wf r ∧ wf (BN_zero malloc dv) ∧
    value (BN_zero malloc dv) = Z.quot (value num) (value divisor) ∧ value r = Z.rem (value num) (value divisor).
Proof.
  intros Hm Hr Wdv Wrm Srm Wn Wd Hrm Ln Hlt. pose proof (mag_bound num Wn) as Bn.
  destruct (quot_rem_signs (bn_neg num) (bn_neg divisor) (mag num) (mag divisor) 0 (mag num)) as [Eq Er]; [lia..|].
  fold (value num) (value divisor) in Eq, Er. rewrite Eq, Er. destruct (BN_zero_spec malloc dv Hm Wdv) as (Z1 & Z2 & _).
  assert (∃ r, BN_copy malloc rm_is_num rm num = (true, r) ∧ wf r ∧ value r = value num) as (r & E & Wr & Vr).
  { destruct rm_is_num; [rewrite (Hrm eq_refl); by eexists|]. pose proof (BN_copy_spec malloc rm num Hm Wrm Wn) as H.
    destruct (BN_copy malloc false rm num) as [[] r]; [exists r; tauto|]. destruct H as [_ H].
    destruct (wexpand_total malloc rm (bn_top num) Hr Srm Ln) as (x & E & _). congruence. }
  exists r. split_and!; try done. rewrite value_mag0 by done. by destruct (xorb _ _).
Qed.

(** The numbers that the division proper works on. *)
Record div_ready (no_branch : bool) (num divisor : BIGNUM) (sh : Z) (sd s0 : BIGNUM) : Prop := {
  ready_div : wf sd;
  ready_div_mag : mag sd = mag divisor * 2 ^ sh;
  ready_lead : 2 ^ 63 ≤ nthZ (bn_d sd) (bn_top sd - 1);
  ready_words : words (bn_d s0);
  ready_top : (bn_top s0 ≤ length (bn_d s0))%nat;
  ready_lt : (bn_top sd < bn_top s0)%nat;
  ready_num_mag : mag s0 = mag num * 2 ^ (sh + 64);
  ready_window : no_branch = true → val (drop (bn_top s0 - bn_top sd) (used s0)) < mag sd;
  ready_num_lead : no_branch = false → nthZ (bn_d s0) (bn_top s0 - 1) ≠ 0;
  ready_div_room : Z.of_nat (bn_top sd) + 1 ≤ MAX_WORDS;
  ready_num_room : Z.of_nat (bn_top s0) + 1 ≤ MAX_WORDS
}.

Lemma div_setup malloc (no_branch : bool) sdiv snum num divisor sh : malloc_ok malloc → roomy malloc →
  wf sdiv → bn_static sdiv = false → wf snum → bn_static snum = false → wf num → wf divisor → mag divisor ≠ 0 →
  Z.of_nat (bn_top num) + 8 ≤ MAX_WORDS → Z.of_nat (bn_top divisor) + 8 ≤ MAX_WORDS → (no_branch = false → mag divisor ≤ mag num) →
  sh = 64 - (Z.log2 (mag divisor) + 1) mod 64 →
  ∃ sd sn s0, BN_lshift malloc sdiv divisor sh = (true, sd) ∧ BN_lshift malloc snum num (sh + 64) = (true, sn) ∧
    (if no_branch then pad_num malloc (with_neg sn false) (bn_top sd) else Some (with_neg sn false)) = Some s0 ∧
    div_ready no_branch num divisor sh (with_neg sd false) s0.
Proof.
  intros Hm Hr Wsd Ssd Wsn Ssn Wn Wd Hz Ln Ld Hge Esh. pose proof (mag_bound divisor Wd) as Bd. pose proof (mag_bound num Wn) as Bn.
  pose proof (Z.mod_pos_bound (Z.log2 (mag divisor) + 1) 64 ltac:(lia)) as Hmod.
  assert (0 < 2 ^ sh) as Hp by (apply Z.pow_pos_nonneg; lia).
  assert (sh / 64 ≤ 1 ∧ (sh + 64) / 64 ≤ 2) as [Hs1 Hs2] by (split; apply Z.div_le_upper_bound; lia).
  destruct (lshift_total malloc sdiv divisor sh) as (sd & Esd & Wsd1 & Msd & _); try done; [lia..|].
  destruct (lshift_total malloc snum num (sh + 64)) as (sn & Esn & Wsn1 & Msn & Ssn1); try done; [lia..|].
  set (sd' := with_neg sd false) in *. assert (wf sd') as Wsd' by (by apply with_neg_wf).
  change (mag sd) with (mag sd') in Msd. change (mag sn) with (mag (with_neg sn false)) in Msn.
  assert (wf (with_neg sn false)) as Wsn' by (by apply with_neg_wf). set (sn' := with_neg sn false) in *.
  assert (mag sd' ≠ 0) as Hzd by nia. assert (bn_top sd' ≠ 0%nat) as Htd' by (by rewrite <- mag_zero).
  assert (2 ^ sh ≤ base ∧ 2 ^ (sh + 64) ≤ base * base) as [Hp1 Hp2].
  { split; [apply Z.pow_le_mono_r; lia|]. change (base * base) with (2 ^ 128). apply Z.pow_le_mono_r; lia. }
  assert (bn_top sd' ≤ bn_top divisor + 1)%nat as Tsd.
  { apply top_le; [done|]. rewrite Msd, Nat2Z.inj_add, Z.pow_add_r by lia. change (base ^ Z.of_nat 1) with base. nia. }
  assert (bn_top sn' ≤ bn_top num + 2)%nat as Tsn.
  { apply top_le; [done|]. rewrite Msn, Nat2Z.inj_add, (Z.pow_add_r base) by lia. change (base ^ Z.of_nat 2) with (base * base).
    assert (0 < 2 ^ (sh + 64)) by (apply Z.pow_pos_nonneg; lia).
    apply Z.lt_le_trans with (base ^ Z.of_nat (bn_top num) * 2 ^ (sh + 64)); [apply Z.mul_lt_mono_pos_r; lia|apply Z.mul_le_mono_nonneg_l; lia]. }
  assert (2 ^ 63 ≤ nthZ (bn_d sd') (bn_top sd' - 1)) as Hlead.
  { apply normalised_lead; [done|done|]. rewrite Msd, log2_mul_pow2_shift by lia. rewrite Esh.
    pose proof (Z.div_mod (Z.log2 (mag divisor) + 1) 64 ltac:(lia)) as E.
    replace (Z.log2 (mag divisor) + (64 - (Z.log2 (mag divisor) + 1) mod 64) + 1) with ((1 + (Z.log2 (mag divisor) + 1) / 64) * 64) by lia.
    apply Z.mod_mul. lia. }
  assert (∃ s0, (if no_branch then pad_num malloc sn' (bn_top sd') else Some sn') = Some s0 ∧ words (bn_d s0) ∧ (bn_top s0 ≤ length (bn_d s0))%nat ∧
    (bn_top sd' < bn_top s0)%nat ∧ mag s0 = mag sn' ∧ (no_branch = true → val (drop (bn_top s0 - bn_top sd') (used s0)) < mag sd') ∧
    (no_branch = false → nthZ (bn_d s0) (bn_top s0 - 1) ≠ 0) ∧ Z.of_nat (bn_top s0) + 1 ≤ MAX_WORDS) as (s0 & Es0 & W0 & T0 & Lt0 & M0 & Nb0 & Le0 & Lim0).
  { destruct no_branch.
    - destruct (pad_num_total malloc sn' (bn_top sd') Hr Ssn1 ltac:(lia)) as [s0 E0]. exists s0.
      destruct (pad_num_spec malloc sn' (bn_top sd') s0 Hm Wsn' Htd' E0) as (P1 & P2 & P3 & P4 & P5 & P6). split_and!; try done; [|lia].
      intros _. destruct (bn_top sd') as [|m] eqn:Em; [done|]. pose proof (mag_lower sd' m Wsd' Em).
      replace (Z.of_nat (S m) - 1) with (Z.of_nat m) in P5 by lia. lia.
    - exists sn'. specialize (Hge eq_refl). assert (bn_top sd' < bn_top sn')%nat as Hlt.
      { destruct (Nat.lt_ge_cases (bn_top sd') (bn_top sn')) as [|Hle]; [done|]. exfalso.
        destruct (bn_top sd') as [|m] eqn:Em; [done|]. pose proof (mag_lower sd' m Wsd' Em) as Hl. pose proof (mag_bound sn' Wsn') as Bs.
        pose proof (Z.pow_le_mono_r base (Z.of_nat (bn_top sn')) (Z.of_nat (S m)) ltac:(done) ltac:(lia)) as Hpw.
        rewrite Nat2Z.inj_succ, Z.pow_succ_r in Hpw by lia. rewrite Msn, Z.pow_add_r in Bs by lia. change (2 ^ 64) with base in Bs.
        rewrite Msd in Hl. unfold base in *. nia. }
      split_and!; try done; [apply Wsn'|apply Wsn'| |lia]. intros _. destruct (wf_lead sn' Wsn') as [?|?]; [lia|done]. }
  exists sd, sn, s0. split_and!; [done..|]. constructor; try done; [by rewrite M0|unfold sd' in Tsd; cbn [with_neg bn_top] in *; lia].
Qed.

(** C36: [BN_div] divides with rounding towards zero: for numbers of either sign the
    quotient is [Z.quot] and the remainder [Z.rem] of the integers, on the usual path
    and on the constant-time path, in every configuration of the word arithmetic,
    provided that memory does not run out and that the quotient is not stored over
    the dividend.  It always returns: the loops that correct an estimate end. *)
Theorem BN_div_correct malloc k div2w tmp snum sdiv own (no_branch rm_is_num : bool) dv rm num divisor :
  malloc_ok malloc → roomy malloc → Forall (λ a, wf a ∧ bn_static a = false) [tmp; snum; sdiv; own; dv; rm] →
  wf num → wf divisor → mag divisor ≠ 0 → (rm_is_num = true → rm = num) →
  Z.of_nat (bn_top num) + 8 ≤ MAX_WORDS → Z.of_nat (bn_top divisor) + 8 ≤ MAX_WORDS →
  ∃ q r, BN_div malloc k div2w (Some (tmp, snum, sdiv, own)) no_branch false rm_is_num (Some dv) (Some rm) num divisor = Some (true, Some q, Some r) ∧
    wf q ∧ wf r ∧ value q = Z.quot (value num) (value divisor) ∧ value r = Z.rem (value num) (value divisor).
Proof.
  intros Hm Hr HF Wn Wd Hz Hrm Ln Ld.
  apply Forall_cons_1 in HF as [[Wtmp Stmp] HF]. apply Forall_cons_1 in HF as [[Wsn Ssn] HF]. apply Forall_cons_1 in HF as [[Wsd Ssd] HF].
  apply Forall_cons_1 in HF as [_ HF]. apply Forall_cons_1 in HF as [[Wdv Sdv] HF]. apply Forall_cons_1 in HF as [[Wrm Srm] _].
  unfold BN_div.
  assert (∀ a, wf a → ((0 <? bn_top a)%nat && (nthZ (bn_d a) (bn_top a - 1) =? 0)) = false) as Hinit.
  { intros a [_ _ Hl]. destruct (Nat.ltb_spec 0 (bn_top a)); [|done]. destruct Hl as [?|?]; [lia|]. by apply Z.eqb_neq. }
  rewrite (Hinit num Wn), (Hinit divisor Wd). cbn [orb].
  assert (bn_top divisor ≠ 0%nat) as Htd by (by rewrite <- mag_zero). unfold BN_is_zero at 1. destruct (Nat.eqb_spec (bn_top divisor) 0); [done|].
  pose proof (mag_bound divisor Wd) as Bd. pose proof (mag_bound num Wn) as Bn.
  destruct (negb no_branch && (BN_ucmp num divisor <? 0)) eqn:Ecmp.
  { apply andb_true_iff in Ecmp as [_ Ecmp]. rewrite BN_ucmp_neg in Ecmp by done. apply Z.ltb_lt in Ecmp.
    destruct (div_smaller malloc rm_is_num dv rm num divisor) as (r & -> & H); try done; [lia|].
    eexists _, _. split; [done|]. tauto. }
  assert (no_branch = false → mag divisor ≤ mag num) as Hge.
  { intros ->. cbn [negb andb] in Ecmp. rewrite BN_ucmp_neg in Ecmp by done. by apply Z.ltb_ge in Ecmp. }
  rewrite BN_num_bits_spec by done. destruct (Z.eqb_spec (mag divisor) 0); [done|]. unfold BN_BITS2.
  set (sh := 64 - (Z.log2 (mag divisor) + 1) mod 64).
  destruct (div_setup malloc no_branch sdiv snum num divisor sh) as (sd & sn & s0 & -> & -> & Es0 & [Wsd' Msd Hlead W0 T0 Lt0 M0 Nb0 Le0 Lsd Lim0]); try done.
  cbn [negb]. change (bn_top (with_neg sd false)) with (bn_top sd). rewrite Es0. set (sd' := with_neg sd false) in *.
  pose proof (Z.mod_pos_bound (Z.log2 (mag divisor) + 1) 64 ltac:(lia)) as Hmod. assert (0 < 2 ^ sh) as Hp by (apply Z.pow_pos_nonneg; lia).
  assert (bn_top sd' ≠ 0%nat) as Htd' by (rewrite <- mag_zero by done; nia).
  set (neg := xorb (bn_neg num) (bn_neg divisor)).
  pose proof (div_core_spec malloc k div2w Hm no_branch neg dv tmp s0 sd' Wdv Wtmp Wsd' W0 T0 Lt0 Htd' Hlead Nb0 Le0) as Hc.
  destruct (div_core malloc k div2w no_branch neg dv tmp s0 sd') as [[?|[q s]]|] eqn:Ec; [exfalso|clear Hc|done].
  { destruct Hc as [Hc|Hc].
    - destruct (wexpand_total malloc (with_neg dv neg) (bn_top s0 - bn_top sd' + 1) Hr Sdv ltac:(lia)) as (x & E & _). congruence.
    - destruct (wexpand_total malloc tmp (bn_top sd' + 1) Hr Stmp ltac:(lia)) as (x & E & _). congruence. }
  destruct (div_normalised malloc k div2w no_branch neg dv tmp s0 sd' q s (mag num) (mag divisor) sh) as (Q1 & Q2 & Q3 & Q4 & R1 & R2 & R3 & Q5);
    try done; try lia; try congruence.
  destruct (quotient_value no_branch neg q Q1 Q2 Q3 Q4) as [Wq Vq].
  destruct (quot_rem_signs (bn_neg num) (bn_neg divisor) (mag num) (mag divisor) (mag q) (mag num - mag q * mag divisor)) as [Eq Er]; [lia..|].
  fold (value num) (value divisor) neg in Eq, Er. rewrite Eq, Er.
  set (rs := bn_correct_top s) in *. assert (0 < 2 ^ (sh + 64)) as Hpp by (apply Z.pow_pos_nonneg; lia).
  assert (bn_top rs ≤ bn_top sd' + 1)%nat as Trs.
  { apply top_le; [done|]. pose proof (Z.mul_succ_div_gt (mag rs) (2 ^ (sh + 64)) Hpp) as Hgt. rewrite R2 in Hgt.
    rewrite Nat2Z.inj_add, Z.pow_add_r by lia. change (base ^ Z.of_nat 1) with base. pose proof (mag_bound sd' Wsd') as Bsd. rewrite Msd in Bsd.
    rewrite Z.pow_add_r in * by lia. change (2 ^ 64) with base in *. unfold base in *. nia. }
  pose proof (BN_rshift_spec malloc false rm rs (sh + 64)) as Hrs. destruct (BN_rshift malloc false rm rs (sh + 64)) as [ok r].
  specialize (Hrs ok r Hm Wrm R1 ltac:(done) eq_refl). destruct ok.
  2:{ exfalso. destruct Hrs as [?|(i & Hi & E)]; [lia|].
      destruct (wexpand_total malloc (with_neg rm (bn_neg rs)) i Hr Srm ltac:(lia)) as (x & E' & _). congruence. }
  destruct Hrs as (Wr & Mr & _). rewrite R2 in Mr. eexists _, _. split; [done|]. split_and!; [done| |done|].
  - unfold BN_is_zero. destruct (bn_top r =? 0)%nat; [exact Wr|by apply with_neg_wf].
  - unfold BN_is_zero. destruct (Nat.eqb_spec (bn_top r) 0) as [Et|Et].
    + apply mag_zero in Et; [|done]. rewrite value_mag0 by done. rewrite <- Mr, Et. by destruct (bn_neg num).
    + rewrite <- Mr. done.
Qed.

Lemma BN_div_correct_witness :
  ∃ q r, BN_div pool PORTABLE false (Some (BN_new, BN_new, BN_new, BN_new)) false false false (Some BN_new) (Some BN_new)
      (mkBN [7; 0; 5] 3 true false) (mkBN [3; 1] 2 false false) = Some (true, Some q, Some r) ∧
    value q = Z.quot (- (7 + 5 * 2 ^ 128)) (3 + 2 ^ 64) ∧ value r = Z.rem (- (7 + 5 * 2 ^ 128)) (3 + 2 ^ 64).
Proof.
  assert (wf BN_new ∧ wf (mkBN [7; 0; 5] 3 true false) ∧ wf (mkBN [3; 1] 2 false false)) as (H1 & H2 & H3) by (by apply (bool_decide_unpack _)).
  assert (roomy pool) as Hr by done.
  destruct (BN_div_correct pool PORTABLE false BN_new BN_new BN_new BN_new false false BN_new BN_new
    (mkBN [7; 0; 5] 3 true false) (mkBN [3; 1] 2 false false) pool_ok Hr) as (q & r & E & _ & _ & Vq & Vr).
  - repeat (apply Forall_cons_2; [done|]). apply Forall_nil_2.
  - done.
  - done.
  - done.
  - done.
  - vm_compute. discriminate.
  - vm_compute. discriminate.
  - exists q, r. split; [exact E|]. split; [exact Vq|exact Vr].
Defined.

(** Division by zero is refused. *)
Lemma BN_div_by_zero malloc k div2w ctx nb dvn rmn dv rm num divisor : bn_top divisor = 0%nat →
  BN_div malloc k div2w ctx nb dvn rmn dv rm num divisor = Some (false, dv, rm).
Proof.
  intros Hz. unfold BN_div, BN_is_zero. rewrite Hz. by destruct (((0 <? bn_top num)%nat && _) || _).
Qed.

(** When the quotient is stored over the dividend, the sign of the remainder is taken
    from the quotient: of -7 and -2 it is 1 instead of -1. *)
Lemma BN_div_in_place_sign :
  ∃ q r, BN_div pool PORTABLE false (Some (BN_new, BN_new, BN_new, BN_new)) false true false
      (Some (mkBN [7] 1 true false)) (Some BN_new) (mkBN [7] 1 true false) (mkBN [2] 1 true false) = Some (true, Some q, Some r) ∧
    value q = 3 ∧ value r = 1 ∧ Z.rem (-7) (-2) = -1.
Proof. eexists _, _. split; [vm_compute; reflexivity|]. by vm_compute. Qed.

(** The status of the last shift is ignored: when the remainder's array cannot grow,
    the division reports success and leaves the remainder as it was. *)
Lemma BN_div_remainder_lost :
  let big := mkBN (replicate 8 0) 0 false false in
  ∃ q, BN_div (λ _, None) PORTABLE false (Some (big, big, big, big)) false false false
      (Some big) (Some BN_new) (mkBN [7] 1 false false) (mkBN [2] 1 false false) = Some (true, Some q, Some BN_new) ∧ value q = 3.
Proof. eexists. split; [vm_compute; reflexivity|]. by vm_compute. Qed.
